(* ===== verification/_CoqProject ===== *)
-Q . S2P
Prelude.v
RaftTypes.v
RaftLog.v
RaftNode.v
RaftState.v
RaftServer.v
RaftApi.v
RaftDemo.v
RaftLogic.v
RaftVote.v
RaftCommit.v
RaftAppend.v
RaftQuorum.v
RaftApply.v
RaftElection.v
EntryCache.v
Crc.v
Libc.v
File.v
Multibulk.v
PageLog.v
PageCodec.v
PageSpec.v
PageLoad.v
PageOpen.v
PageRecovery.v
Disk.v
Metadata.v
MetadataSpec.v
RedisLog.v
RedisLogSpec.v
RedisLogRefine.v
RwLock.v
SlotTable.v
Shim.v
ShimOwners.v
ShimRefine.v
ShimProps.v
Serialization.v
SerializationSpec.v
NodeAddr.v
ShardGroup.v
Sharding.v
ShardingSpec.v
ShardParse.v
ShardParseSpec.v
ShardSnapshot.v
ShardRouting.v
ShardRoutingSpec.v
ShardMigration.v
ShardDemo.v
Commands.v
Blocked.v
Server.v
ServerSpec.v
ServerReplica.v
ServerDemo.v
ServerReplies.v
Snapshot.v
SnapshotSpec.v
Client.v
ClientSpec.v
ClientRaft.v
ClientDemo.v
Rpc.v
RpcSpec.v
Connection.v
ConnectionSpec.v
ConnectionSafe.v
Threads.v
ThreadsSpec.v
