(* ===== verification/Prelude.v ===== *)
(** * Verification of the C components of DDB

    DDB is a debugger for distributed systems.  Its core is written in Rust; the
    C in this repository is the library [libddb] that is preloaded into the
    debugged processes, and redisraft, the replicated Redis it is developed
    against, with the Raft library inside it.  This development models the
    logic of that C code as pure functions and states what makes it correct.

    ** The parts and how they interact

    (Paths are under [src/apps/redisraft/redisraft/], or [src/libddb/].)

    - The Raft library, [deps/raft].  [RaftTypes] has the data of
      [include/raft.h] and two interfaces: [LogImpl], the table of log operations
      the server calls ([raft_log_impl_t]), and [LogSpec], what they promise in
      terms of the abstract log [alog].  [RaftLog] is [raft_log.c], the log in
      memory, an instance of [LogSpec] in [RaftDemo]; [RaftNode] is
      [raft_node.c]; [RaftState] is [struct raft_server], the callbacks, and
      [raft_server_properties.c]; [RaftServer] is [raft_server.c], every
      operation over any [LogImpl] and any callbacks.  [RaftApi] is the type of
      calls from outside, and a server's run is a list of them.
    - The module's persistent state, [src/].  [Libc] is the part of the C library
      and of POSIX it uses, [File] is [file.c], buffered files, [Multibulk] the
      text format of [util.c], [Crc] the checksums ([deps/common]).  On these,
      [PageLog] and [RedisLog] are [log.c]: pages (a log file with its index
      file), and the log of one or two pages with compaction, as the Raft library
      calls it together with [EntryCache] ([entrycache.c]).  [Metadata] is
      [metadata.c], the file with the term and the vote, and its caller
      [raftPersistMetadata] ([raft.c]).
    - The data of log entries: [Serialization] is [serialization.c] and
      [serialization_utils.c].
    - Sharding, over the entries of the log: [NodeAddr] is [node_addr.c] with the
      redirections of [common.c]; [ShardGroup] the groups of [cluster.c] and their
      text; [Sharding] the table of groups, the entries that change it
      ([cluster.c], [raft.c]) and its part of snapshots; [ShardParse] the commands
      RAFT.SHARDGROUP ADD and REPLACE and the local group of the configuration;
      [ShardRouting] decides whether commands are executed ([raft.c]) and moves
      keys between clusters ([migrate.c]).
    - The module between its clients, the log and Redis: [Commands] is
      [commands.c] and the command filter of [redisraft.c]; [Client] takes the
      command of a client to an entry of the log, a read, a redirection or a
      command for the leader ([redisraft.c], [multi.c], [proxy.c], [common.c]),
      over an interface to the Raft server ([RaftCore]), which [ClientRaft]
      implements with [RaftServer]; [Server] applies entries and serves commands
      that wait ([raft.c], [clientstate.c]), with the blocked commands of
      [Blocked] ([blocked.c]), the decisions of [ShardRouting] and the tables of
      [Sharding].  [Snapshot] is what a server writes in front of the data of an
      RDB file and how another takes it over, with the chunks of the file
      ([snapshot.c], [blocked.c]); Redis' RDB stream is a list of values.
    - Between servers: [Rpc] has the messages of the Raft library as commands of
      Redis, how they are read and answered, and what is done with the replies
      ([raft.c], [redisraft.c], [snapshot.c]), over [RaftServer]; [Connection] is
      [connection.c] and [node.c], what a server keeps for every other node, with
      the part of hiredis ([deps/hiredis/async.c]) that calls it back.
    - [Threads] is [fsync.c], the thread that syncs the log for the main thread,
      with what [raft.c] does with its reports, and [threadpool.c].
    - [libddb]: [RwLock] is [include/ddb/lock.h], [SlotTable] the tables in shared
      memory, [Shim] the interposed [pthread_mutex_lock] and
      [pthread_mutex_unlock] with the start and the end of threads ([shim.c],
      [hook.c]).

    ** How code is modelled

    A function is a computation [M S A] over its state ([outcome] below): it
    returns, or stops at an assertion or at undefined behaviour ([Abort]), or
    uses up its fuel.  Errors are the codes the C returns.  Integers are [Z],
    with wrap-around ([u64], [to_int], [to_long]) written where C has it; bytes
    are numbers below 256.  C structures are records with the C field names; a
    peer is an address in the table of peers; log entries are values.  In
    [Metadata] a panic is a result instead, because the kernel it leaves behind
    matters there.  What the module asks of Redis about keys and commands is a
    class ([ShardRouting.Keyspace]) with its laws; a reply to a client is a value.
    Commands that Redis executes, or makes wait, are a class too
    ([Server.RedisServer], with the laws [ServerSpec.RedisLaws]): what they answer
    and do depends on the database and the command, and the promises of waiting
    commands are kept or aborted once.  What the module does to the world outside
    is a list of events.
    A [ShardGroup *] is an address in a heap.

    The kernel ([Libc.os]) is a directory, files and descriptors, and a plan that
    decides what happens to the coming system calls: each may fail, and reads and
    writes may be short.  Theorems hold for every plan, or say which faults they
    exclude ([no_faults] allows short reads and writes).  It also records what has
    not been synced; [Disk.crash_image] says what a power failure can leave.

    Threads ([RwLock], [Shim], [Threads]) are small step relations: a step is one
    access to a shared atomic variable, or what a thread does while it holds a lock;
    all interleavings of any number of threads are possible, and a thread that waits
    on a condition variable may wake without a signal.  The cluster of
    [RaftElection] is a step relation over servers and a network that loses,
    duplicates and reorders messages.

    The memory of [Connection] is connections, nodes and contexts by address;
    following a pointer to freed memory is [Abort].  Everything that can happen
    next is an event of [ConnectionSafe], and callbacks run inside of the calls of
    hiredis as in the code: one level of freeing a context is proved to be enough
    ([free_fuel]).

    Fuel: the loops whose length the state bounds are structural or take their
    bound from the state ([raft_apply_all_loop], the loops of [File] and of the
    log pages), and it is proved that it is enough ([apply_all_terminates]; the
    specifications of the file and log operations always return).  Two loops of
    the server depend on what callbacks answer ([raft_send_snapshot],
    [raft_send_appendentries]) and take an arbitrary fuel.  Clock readings are
    inputs.

    ** What the theorems show

    - Raft: election safety for a cluster of fixed membership ([RaftElection]);
      one vote per term and server, terms that only grow ([RaftVote]); committed
      entries are never changed ([RaftCommit]); AppendEntries is the abstract
      merge, or fails without harm ([RaftAppend]); the commit index and the read
      quorum are the largest majority values, and majorities intersect
      ([RaftQuorum]); entries are applied once, in order, in a loop that ends, and
      reads are served safely ([RaftApply]); the circular buffer does what the
      abstract log does, and fails exactly when a callback or the allocator does
      ([RaftLog]).
    - Persistence: a buffered file is a byte array ([File]); what is written is
      read back, and a torn file is recovered to its last complete entry
      ([PageCodec], [PageSpec], [PageLoad], [PageOpen], [PageRecovery]); the
      persistent log implements the abstract log through page switches and
      faults ([RedisLogSpec], [RedisLogRefine]); the cache implements the
      abstract cache ([EntryCache]); term and vote survive power failures at any
      point ([Disk], [MetadataSpec]); the checksums are the standard ones ([Crc]).
    - Serialization: round trips, and where the code stops instead
      ([SerializationSpec]).
    - Sharding: the table of groups is well-formed whatever is applied or loaded,
      replicas agree, snapshots restore the table ([ShardingSpec],
      [ShardSnapshot]); commands make entries that apply ([ShardParseSpec]);
      what is done with commands that have keys, and the error they get, is the
      ruling that can be read off the groups ([ShardRoutingSpec]); locks stop commands, imports
      are fenced by terms, and migrated keys arrive ([ShardMigration], on a
      concrete cluster in [ShardDemo]).
    - Applying entries: servers that apply the same entries and serve waiting
      commands at the same places stay equal in everything replicated, whatever
      clients they have ([ServerSpec], [ServerReplica]); an applied request is
      answered once, and a client that waits is answered when the wait ends
      ([ServerReplies]); the blocked commands are an ordered map ([Blocked]).
      [ServerDemo] has a concrete Redis with lists.  A snapshot restores the
      server that wrote it, blocked commands and sessions included, and its
      chunks make up the file ([SnapshotSpec]).
    - Commands of clients: the filter lets the servers' own commands pass
      ([Commands]); transactions are packed whole or not at all, commands reach
      the log only at a leader that is up to date, and an entry says what the
      request attached to it says, which is what [ServerReplica] asks of requests
      ([ClientSpec], on a concrete server in [ClientDemo]).
    - Between servers: messages and responses arrive as they were sent; a
      command gives the library the message that its arguments say, or is refused
      with the error of the first check that fails ([RpcSpec]).  In any order of
      what can happen to connections, nothing freed is used and no assertion fails,
      nodes count the replies that will come, and connections that are to end are
      freed: [ConnectionSpec] says what each operation does to one connection,
      [ConnectionSafe] puts them together.
    - Threads: requested syncs are served and reported, a wait for them ends, and
      what is reported is on disk as long as the log is not cut; the tasks of the
      pool are run in order, and no wake-up is lost ([ThreadsSpec]).
    - libddb: the lock excludes and can be obtained ([RwLock]); the tables are
      allocators ([SlotTable]); the records in shared memory agree with the state
      of the process in every interleaving, up to the 2048th owner and the 128th
      live thread ([ShimOwners], [ShimRefine], [ShimProps]).
    - Where the code does not do what it means to, a theorem or an example shows
      it: [raft_log_clear_entries_calls], [stale_cache_after_delete],
      [log_reset_keeps_count], [failed_delete_reports_success],
      [load_read_error_discards_entries], [owner_mixup], [failed_lock_recorded],
      [lock_before_init], [timeout_roundtrip], [lock_keys_roundtrip],
      [nul_key_misread], [newline_in_id], [too_few_arguments],
      [replace_command_applies], [stable_over_importing],
      [loaded_server_diverges], [absent_key_overruns], [import_of_term_zero],
      [noop_forgets_waiting_clients], [serving_order_matters],
      [ignored_in_capitals], [append_entries_text_cut],
      [stale_fsync_report].

    ** Not modelled

    Memory management (reference counts of entries, [raft_destroy], freeing);
    debug and log output; statistics.  Of [fsyncDir], the error codes that mean
    that directories cannot be synced; macOS branches.  The hardware and
    big-endian variants of the CRC.  Elections with changing membership.
    The persistent log is refined to its own specification, in which entries can
    be dropped from the front only by ending a compaction; it is not an instance
    of [LogSpec].  [LogReset] is outside of it; the fsync thread ([Threads]) sees of
    the log how far its files are written.
    Of [libddb], the wrappers that only pass a call on (trylock, condition
    variables, join, malloc), and process exit.  Of redisraft, what consists of
    calls to the Redis module API, hiredis, fork and pipes: the commands that
    administer a cluster, configuration, the connections with another purpose
    (RAFT.CLUSTER JOIN, RAFT.SHARDGROUP LINK, the refresh of shard groups,
    migration), the replies to CLUSTER and INFO, the child process that saves a
    snapshot and the load by Redis, reply sorting.  Of hiredis, subscriptions, timeouts of
    commands, buffers and the event loop: what the socket does is a choice of
    events.  A callback of a reply that sends again is the reply, then the sending.
    The Rust core, Redis itself and other third-party code. *)


From stdpp Require Import base list numbers tactics sorting.
From Stdlib Require Import Sorting.Permutation.
From Stdlib Require Export Lia ZifyBool.

Local Open Scope Z_scope.

(** ** Outcomes of C code

    A C computation returns, or stops at a failed [assert] or at undefined
    behaviour ([Abort]: a NULL or dangling pointer, an index out of the array,
    a division by zero), or is still looping when the fuel given to one of its
    unbounded loops is used up ([OutOfFuel]). *)
Inductive outcome (A : Type) : Type :=
| Done (a : A)
| Abort
| OutOfFuel.
Arguments Done {A} a.
Arguments Abort {A}.
Arguments OutOfFuel {A}.

(** A stateful C function: reads and updates a state [S] and returns an [A]. *)
Definition M (S A : Type) : Type := S -> outcome (A * S).

Definition ret {S A} (a : A) : M S A := fun s => Done (a, s).

Definition bind {S A B} (m : M S A) (k : A -> M S B) : M S B :=
  fun s =>
    match m s with
    | Done (a, s') => k a s'
    | Abort => Abort
    | OutOfFuel => OutOfFuel
    end.

Definition abort {S A} : M S A := fun _ => Abort.

Definition out_of_fuel {S A} : M S A := fun _ => OutOfFuel.

Definition get {S} : M S S := fun s => Done (s, s).

Definition gets {S A} (f : S -> A) : M S A := fun s => Done (f s, s).

Definition modify {S} (f : S -> S) : M S unit := fun s => Done (tt, f s).

Declare Scope c_scope.
Delimit Scope c_scope with c.
Notation "x <- m ;; k" := (bind m (fun x => k))
  (at level 100, m at next level, right associativity) : c_scope.
Notation "'let*' p := m 'in' k" := (bind m (fun p => k))
  (at level 100, p pattern, m at next level, right associativity, only parsing) : c_scope.
Notation "m ;; k" := (bind m (fun _ => k))
  (at level 100, right associativity) : c_scope.
Open Scope c_scope.

(** [assert(b)] with assertions enabled. *)
Definition c_assert {S} (b : bool) : M S unit := if b then ret tt else abort.

(** [if (b) m;] for a statement without result. *)
Definition when {S} (b : bool) (m : M S unit) : M S unit := if b then m else ret tt.

(** [for (x in l) f(x);] over a list fixed when the loop starts. *)
Fixpoint for_each {S A} (l : list A) (f : A -> M S unit) : M S unit :=
  match l with
  | [] => ret tt
  | x :: l' => f x ;; for_each l' f
  end.

(** Run a computation on a component of the state. *)
Definition zoom {S T A} (proj : S -> T) (upd : T -> S -> S) (m : M T A) : M S A :=
  fun s =>
    match m (proj s) with
    | Done (a, t) => Done (a, upd t s)
    | Abort => Abort
    | OutOfFuel => OutOfFuel
    end.

(** ** Machine integers *)

(** Unsigned 64-bit wrap-around ([unsigned long], [unsigned long long]). *)
Definition u64 (z : Z) : Z := z mod 2 ^ 64.

(** Conversion to [int] and [long]. *)
Definition to_int (z : Z) : Z := (z + 2 ^ 31) mod 2 ^ 32 - 2 ^ 31.
Definition to_long (z : Z) : Z := (z + 2 ^ 63) mod 2 ^ 64 - 2 ^ 63.

(** ** Record update

    [r <| f := v |>] is the record [r] with field [f] set to [v].  A record type
    gives its eta-expansion once ([Eta]); [solve_setter] derives from it the
    update of one field. *)
Class Eta (R : Type) := eta_expand : R -> R.

Class Setter {R T : Type} (proj : R -> T) := set_field : (T -> T) -> R -> R.
Arguments set_field {R T} proj {_} _ _.

Notation "r <| proj := v |>" := (set_field proj (fun _ => v) r)
  (at level 1, left associativity, proj at next level,
   format "r  <| proj  :=  v |>").
Notation "r <| proj ::= f |>" := (set_field proj f r)
  (at level 1, left associativity, proj at next level,
   format "r  <| proj  ::=  f |>").

Ltac solve_setter :=
  intros;
  lazymatch goal with
  | |- @Setter ?R ?T ?proj =>
      unfold Setter;
      let f := fresh "f" in
      let r := fresh "r" in
      intros f r;
      let t := eval hnf in (@eta_expand R _ r) in
      let t' := eval pattern (proj r) in t in
      lazymatch t' with
      | ?g _ => let b := eval cbv beta in (g (f (proj r))) in exact b
      end
  end.

(** ** Arrays indexed by C integers

    Out of range accesses give [None]; the callers turn it into [Abort]. *)
Definition zlookup {A} (l : list A) (i : Z) : option A :=
  if i <? 0 then None else l !! Z.to_nat i.

Definition zinsert {A} (i : Z) (x : A) (l : list A) : option (list A) :=
  if (0 <=? i) && (i <? Z.of_nat (length l)) then Some (<[Z.to_nat i := x]> l) else None.

(** ** qsort

    [qsort] with a comparison function, as an insertion sort: [x] is placed
    before the first element it compares below. *)
Fixpoint qsort_insert (cmp : Z -> Z -> Z) (x : Z) (l : list Z) : list Z :=
  match l with
  | [] => [x]
  | y :: l' => if cmp x y <? 0 then x :: y :: l' else y :: qsort_insert cmp x l'
  end.

Fixpoint qsort (cmp : Z -> Z -> Z) (l : list Z) : list Z :=
  match l with
  | [] => []
  | x :: l' => qsort_insert cmp x (qsort cmp l')
  end.

(** ** Program logic for [M]

    [respects R m]: every run of [m] that returns relates its initial and final
    state by [R].  [triple P m Q]: partial correctness.  [total P m Q]: [m]
    returns, and its result satisfies [Q]. *)
Definition respects {S A} (R : S -> S -> Prop) (m : M S A) : Prop :=
  forall s a s', m s = Done (a, s') -> R s s'.

Definition triple {S A} (P : S -> Prop) (m : M S A) (Q : A -> S -> Prop) : Prop :=
  forall s a s', P s -> m s = Done (a, s') -> Q a s'.

Definition total {S A} (P : S -> Prop) (m : M S A) (Q : A -> S -> Prop) : Prop :=
  forall s, P s -> exists a s', m s = Done (a, s') /\ Q a s'.

Create HintDb respects discriminated.

Lemma bind_done {S A B} (m : M S A) (k : A -> M S B) s r :
  bind m k s = Done r <-> exists a s1, m s = Done (a, s1) /\ k a s1 = Done r.
Proof.
  unfold bind. split.
  - destruct (m s) as [[a s1]| |] eqn:E; intros; simplify_eq. eauto.
  - intros (a & s1 & -> & ?). done.
Qed.

Lemma bind_done_eq {S A B} (m : M S A) (k : A -> M S B) s a s1 :
  m s = Done (a, s1) -> bind m k s = k a s1.
Proof. unfold bind. by intros ->. Qed.

Lemma bind_assoc {S A B C} (m : M S A) (f : A -> M S B) (g : B -> M S C) s :
  bind (bind m f) g s = bind m (fun a => bind (f a) g) s.
Proof. unfold bind. by destruct (m s) as [[a s1]| |]. Qed.

Lemma bind_ret_l {S A B} (a : A) (k : A -> M S B) s : bind (ret a) k s = k a s.
Proof. done. Qed.

Lemma bind_ret_r {S A} (m : M S A) s : m s = bind m ret s.
Proof. unfold bind, ret. by destruct (m s) as [[a s1]| |]. Qed.

Lemma bind_gets {S A B} (f : S -> A) (k : A -> M S B) s : bind (gets f) k s = k (f s) s.
Proof. done. Qed.

Lemma bind_modify {S B} (f : S -> S) (k : unit -> M S B) s : bind (modify f) k s = k tt (f s).
Proof. done. Qed.

Lemma zoom_run {S T A} (proj : S -> T) upd (m : M T A) s a t :
  m (proj s) = Done (a, t) -> zoom proj upd m s = Done (a, upd t s).
Proof. intros E. unfold zoom. by rewrite E. Qed.

Lemma zoom_done {S T A} (proj : S -> T) upd (m : M T A) s a s' :
  zoom proj upd m s = Done (a, s') <->
  exists t, m (proj s) = Done (a, t) /\ s' = upd t s.
Proof.
  unfold zoom. destruct (m (proj s)) as [[a1 t]| |] eqn:E; split; intros H;
    destruct_and?; try done.
  - simplify_eq. eauto.
  - destruct H as (t1 & ? & ?). by simplify_eq.
  - by destruct H as (? & ? & ?).
  - by destruct H as (? & ? & ?).
Qed.

Section Respects.
Context {S : Type} (R : S -> S -> Prop) `{!PreOrder R}.

Lemma respects_ret {A} (a : A) : respects R (ret a).
Proof. intros s a' s' H. unfold ret in H. simplify_eq. reflexivity. Qed.

Lemma respects_bind {A B} (m : M S A) (k : A -> M S B) :
  respects R m -> (forall a, respects R (k a)) -> respects R (bind m k).
Proof.
  intros Hm Hk s a s' H. apply bind_done in H as (b & s1 & H1 & H2).
  transitivity s1; [by eapply Hm | by eapply Hk].
Qed.

Lemma respects_abort {A} : respects R (@abort S A).
Proof. by intros s a s' H. Qed.

Lemma respects_out_of_fuel {A} : respects R (@out_of_fuel S A).
Proof. by intros s a s' H. Qed.

Lemma respects_get : respects R get.
Proof. intros s a s' H. unfold get in H. simplify_eq. reflexivity. Qed.

Lemma respects_gets {A} (f : S -> A) : respects R (gets f).
Proof. intros s a s' H. unfold gets in H. simplify_eq. reflexivity. Qed.

Lemma respects_modify f : (forall s, R s (f s)) -> respects R (modify f).
Proof. intros Hf s a s' H. unfold modify in H. simplify_eq. apply Hf. Qed.

Lemma respects_assert b : respects R (c_assert b).
Proof. destruct b; [apply respects_ret | apply respects_abort]. Qed.

Lemma respects_when b m : respects R m -> respects R (when b m).
Proof. destruct b; [done | intros; apply respects_ret]. Qed.

Lemma respects_for_each {A} (l : list A) f :
  (forall x, respects R (f x)) -> respects R (for_each l f).
Proof.
  intros Hf. induction l as [|x l IH]; simpl; [apply respects_ret|].
  apply respects_bind; [apply Hf | done].
Qed.

End Respects.

#[export] Hint Resolve respects_ret respects_abort respects_out_of_fuel
  respects_get respects_gets respects_assert : respects.

(** Go through the structure of a computation; [eauto with respects] closes the
    calls whose lemma is in the database. *)
Ltac respects_step :=
  first
    [ solve [eauto 3 with respects typeclass_instances]
    | lazymatch goal with
      | |- respects _ (bind _ _) => apply respects_bind; [ try done | | intro ]
      | |- respects _ (when _ _) => apply respects_when; [ try done | ]
      | |- respects _ (for_each _ _) => apply respects_for_each; [ try done | intro ]
      | |- respects _ (if ?b then _ else _) => destruct b eqn:?
      | |- respects _ (match ?x with _ => _ end) => destruct x eqn:?
      | |- respects _ (let _ := _ in _) => cbv zeta
      end ].

Ltac respects_solve := repeat respects_step.

(** Decompose a hypothesis [m s = Done (a, s')] along the structure of [m]. *)
Ltac inj_done H :=
  first [ injection H as <- <- <- <- <- | injection H as <- <- <- <-
        | injection H as <- <- <- | injection H as <- <- | simplify_eq ];
  try (exfalso; done).

Ltac done_step :=
  match goal with
  | H : bind (gets ?f) ?k ?s = ?r |- _ => change (k (f s) s = r) in H; cbv beta in H
  | H : bind (ret ?a) ?k ?s = ?r |- _ => change (k a s = r) in H; cbv beta in H
  | H : bind (modify ?f) ?k ?s = ?r |- _ => change (k tt (f s) = r) in H; cbv beta in H
  | H : ret _ _ = Done _ |- _ => unfold ret in H; inj_done H
  | H : get _ = Done _ |- _ => unfold get in H; inj_done H
  | H : gets _ _ = Done _ |- _ => unfold gets in H; inj_done H
  | H : modify _ _ = Done _ |- _ => unfold modify in H; inj_done H
  | H : abort _ = Done _ |- _ => discriminate H
  | H : out_of_fuel _ = Done _ |- _ => discriminate H
  | H : c_assert ?b _ = Done _ |- _ =>
      let E := fresh "Hassert" in
      destruct b eqn:E; [ unfold c_assert, ret in H; inj_done H | discriminate H ]
  | H : when ?b _ _ = Done _ |- _ =>
      let E := fresh "Hwhen" in destruct b eqn:E; unfold when in H
  | H : (if ?b then _ else _) _ = Done _ |- _ =>
      let E := fresh "Hif" in destruct b eqn:E
  | H : (match ?x with _ => _ end) _ = Done _ |- _ =>
      let E := fresh "Hmatch" in destruct x eqn:E
  | H : bind _ _ _ = Done _ |- _ =>
      let a := fresh "a" in let s := fresh "s" in let H1 := fresh "Hrun" in
      apply bind_done in H as (a & s & H1 & H)
  end.

Ltac run_done := repeat done_step.

(** ** Computations without unbounded loop *)

Definition loopless {S A} (m : M S A) : Prop := forall s, m s <> OutOfFuel.

Lemma bind_loopless_at {S A B} (m : M S A) (k : A -> M S B) s :
  m s <> OutOfFuel -> (forall a s', m s = Done (a, s') -> k a s' <> OutOfFuel) ->
  bind m k s <> OutOfFuel.
Proof. unfold bind. intros Hm Hk. destruct (m s) as [[a s']| |] eqn:E; [by apply Hk|done|done]. Qed.

Lemma loopless_bind {S A B} (m : M S A) (k : A -> M S B) :
  loopless m -> (forall a, loopless (k a)) -> loopless (bind m k).
Proof. intros Hm Hk s. apply bind_loopless_at; [apply Hm|]. intros. apply Hk. Qed.

Lemma loopless_ret {S A} (a : A) : loopless (@ret S A a).
Proof. by intros s. Qed.

Lemma loopless_abort {S A} : loopless (@abort S A).
Proof. by intros s. Qed.

Lemma loopless_gets {S A} (f : S -> A) : loopless (gets f).
Proof. by intros s. Qed.

Lemma loopless_modify {S} (f : S -> S) : loopless (modify f).
Proof. by intros s. Qed.

Lemma loopless_assert {S} b : loopless (@c_assert S b).
Proof. by destruct b. Qed.

Lemma loopless_when {S} b (m : M S unit) : loopless m -> loopless (when b m).
Proof. by destruct b. Qed.

(** ** Arrays *)

Lemma zlookup_nat {A} (l : list A) (k : nat) : zlookup l (Z.of_nat k) = l !! k.
Proof.
  unfold zlookup. destruct (Z.ltb_spec (Z.of_nat k) 0); [lia|]. by rewrite Nat2Z.id.
Qed.

Lemma zlookup_Some {A} (l : list A) i x :
  zlookup l i = Some x -> 0 <= i < Z.of_nat (length l).
Proof.
  unfold zlookup. destruct (Z.ltb_spec i 0); [done|].
  intros ?%lookup_lt_Some. lia.
Qed.

Lemma zlookup_lt_is_Some {A} (l : list A) i :
  0 <= i < Z.of_nat (length l) -> exists x, zlookup l i = Some x.
Proof.
  intros Hi. unfold zlookup. destruct (Z.ltb_spec i 0); [lia|].
  destruct (lookup_lt_is_Some_2 l (Z.to_nat i)) as [x ?]; [lia|]. eauto.
Qed.

Lemma zlookup_None {A} (l : list A) i :
  i < 0 \/ Z.of_nat (length l) <= i -> zlookup l i = None.
Proof.
  unfold zlookup. destruct (Z.ltb_spec i 0); [done|].
  intros ?. apply lookup_ge_None. lia.
Qed.

Lemma zinsert_in {A} i (x : A) l :
  0 <= i < Z.of_nat (length l) -> zinsert i x l = Some (<[Z.to_nat i := x]> l).
Proof.
  intros Hi. unfold zinsert.
  destruct (Z.leb_spec 0 i); [|lia]. destruct (Z.ltb_spec i (Z.of_nat (length l))); [done|lia].
Qed.

Lemma zlookup_insert_eq {A} i (x : A) l :
  0 <= i < Z.of_nat (length l) -> zlookup (<[Z.to_nat i := x]> l) i = Some x.
Proof.
  intros Hi. unfold zlookup. destruct (Z.ltb_spec i 0); [lia|].
  apply list_lookup_insert_eq. lia.
Qed.

Lemma zlookup_insert_ne {A} i j (x : A) l :
  0 <= i -> i <> j -> zlookup (<[Z.to_nat i := x]> l) j = zlookup l j.
Proof.
  intros Hi Hne. unfold zlookup. destruct (Z.ltb_spec j 0); [done|].
  apply list_lookup_insert_ne. lia.
Qed.

(** ** Counting *)

Definition count {A} (f : A -> bool) (l : list A) : Z :=
  foldr (fun x n => Z.b2z (f x) + n) 0 l.

Lemma count_cons {A} (f : A -> bool) x l : count f (x :: l) = (if f x then 1 else 0) + count f l.
Proof. unfold count. cbn. destruct (f x); cbn; lia. Qed.

Lemma count_app {A} (f : A -> bool) l1 l2 : count f (l1 ++ l2) = count f l1 + count f l2.
Proof. unfold count. induction l1 as [|x l1 IH]; cbn; lia. Qed.

Lemma count_nonneg {A} (f : A -> bool) l : 0 <= count f l.
Proof. induction l as [|x l IH]; cbn; [lia|]. unfold count in *. destruct (f x); cbn; lia. Qed.

Lemma count_le_length {A} (f : A -> bool) l : count f l <= Z.of_nat (length l).
Proof. unfold count. induction l as [|x l IH]; cbn -[Z.of_nat]; [lia|]. destruct (f x); cbn -[Z.of_nat]; lia. Qed.

Lemma count_insert {A} (f : A -> bool) l i x y :
  l !! i = Some x -> count f (<[i := y]> l) = count f l - Z.b2z (f x) + Z.b2z (f y).
Proof.
  intros E. rewrite (insert_take_drop l i y) by (by eapply lookup_lt_Some).
  assert (count f l = count f (take i l ++ x :: drop (S i) l)) as -> by (by rewrite take_drop_middle).
  rewrite !count_app. cbn. lia.
Qed.

Lemma count_permutation {A} (f : A -> bool) l1 l2 : l1 ≡ₚ l2 -> count f l1 = count f l2.
Proof. unfold count. induction 1; cbn; lia. Qed.

Lemma count_pos {A} (f : A -> bool) l : 0 < count f l <-> exists i x, l !! i = Some x /\ f x = true.
Proof.
  unfold count. induction l as [|y l IH]; cbn.
  - split; [lia|]. by intros (i & x & ? & ?).
  - pose proof (count_nonneg f l) as H. unfold count in H. split.
    + destruct (f y) eqn:E; cbn; intros; [by exists 0%nat, y|].
      destruct IH as [(i & x & ? & ?) _]; [lia|]. by exists (S i), x.
    + intros ([|i] & x & Hx & Fx); cbn in Hx; simplify_eq; [rewrite Fx; cbn; lia|].
      destruct IH as [_ IH]. specialize (IH ltac:(eauto)). destruct (f y); cbn; lia.
Qed.

Lemma count_zero {A} (f : A -> bool) l : count f l = 0 <-> forall i x, l !! i = Some x -> f x = false.
Proof.
  pose proof (count_nonneg f l). split.
  - intros E i x Hx. destruct (f x) eqn:Fx; [|done].
    assert (0 < count f l) by (apply count_pos; eauto). lia.
  - intros Hf. destruct (Z.lt_total 0 (count f l)) as [Hp|[?|?]]; [|lia|lia].
    apply count_pos in Hp as (i & x & Hx & Fx). by rewrite (Hf i x Hx) in Fx.
Qed.

Lemma count_full {A} (f : A -> bool) l :
  count f l = Z.of_nat (length l) <-> forall i x, l !! i = Some x -> f x = true.
Proof.
  unfold count. induction l as [|y l IH]; [by split|].
  pose proof (count_le_length f l) as Hl. unfold count in Hl.
  rewrite length_cons, Nat2Z.inj_succ. cbn. split.
  - intros E. destruct (f y) eqn:F; cbn in E; [|lia].
    intros [|i] x Hx; cbn in Hx; [by simplify_eq|]. eapply IH; [lia|done].
  - intros Hf. rewrite (Hf 0%nat y eq_refl). cbn. destruct IH as [_ IH].
    rewrite IH; [lia|]. intros i x Hx. by apply (Hf (S i)).
Qed.

Lemma count_lookup {A} (f : A -> bool) l i x : l !! i = Some x -> f x = true -> 1 <= count f l.
Proof. intros. assert (0 < count f l); [apply count_pos; eauto|lia]. Qed.

Lemma count_two {A} (f : A -> bool) l i j x y :
  l !! i = Some x -> l !! j = Some y -> i <> j -> f x = true -> f y = true -> 2 <= count f l.
Proof.
  intros Hi Hj Hne Fx Fy. rewrite <- (take_drop_middle l i x Hi), count_app.
  assert (count f (x :: drop (S i) l) = 1 + count f (drop (S i) l)) as ->
    by (unfold count; cbn; rewrite Fx; cbn; lia).
  pose proof (count_nonneg f (take i l)). pose proof (count_nonneg f (drop (S i) l)).
  destruct (decide (j < i)%nat).
  - pose proof (count_lookup f (take i l) j y) as H1. rewrite lookup_take_lt in H1 by lia.
    specialize (H1 Hj Fy). lia.
  - pose proof (count_lookup f (drop (S i) l) (j - S i) y) as H1.
    rewrite lookup_drop in H1. replace (S i + (j - S i))%nat with j in H1 by lia.
    specialize (H1 Hj Fy). lia.
Qed.

(** Two offsets of a window no longer than the buffer fall on distinct slots. *)
Lemma mod_window_inj f j k s :
  0 < s -> 0 <= j -> 0 <= k -> j < s -> k < s -> (f + j) mod s = (f + k) mod s -> j = k.
Proof.
  intros Hs Hj Hk Hjs Hks E.
  assert ((f + j - (f + k)) mod s = 0) as Hm.
  { rewrite Zminus_mod, E, Z.sub_diag. apply Zmod_0_l. }
  replace (f + j - (f + k)) with (j - k) in Hm by lia.
  apply Z.mod_divide in Hm as [c Hc]; [|lia].
  assert (c = 0) by nia. lia.
Qed.

Lemma u64_id z : 0 <= z < 2 ^ 64 -> u64 z = z.
Proof. apply Z.mod_small. Qed.

Lemma to_long_u64 v : - 2 ^ 63 <= v < 2 ^ 63 -> to_long (u64 v) = v.
Proof.
  intros Hv. unfold to_long, u64. rewrite Zplus_mod_idemp_l. rewrite Z.mod_small by lia. lia.
Qed.

Lemma rem_mod_nonneg a b : 0 <= a -> 0 < b -> Z.rem a b = a mod b.
Proof. intros. apply Z.rem_mod_nonneg; lia. Qed.

(** Advance a computation in the goal by one [bind]. *)
Ltac run_step H := erewrite bind_done_eq; [ | exact H ]; cbv beta.
Ltac run_refl := erewrite bind_done_eq; [ | reflexivity ]; cbv beta.
