(* ===== verification/RaftTypes.v ===== *)
(** * Data of the Raft library

    The public data types of [deps/raft/include/raft.h]: error codes, states,
    entry types, entries and messages; the abstract log, and the interface
    ([raft_log_impl_t]) between the server and a log implementation. *)

From stdpp Require Import base list numbers tactics.
From S2P Require Import Prelude.

Local Open Scope Z_scope.

(** ** Error codes ([raft_error_e]) *)
Definition RAFT_ERR_NOT_LEADER : Z := -2.
Definition RAFT_ERR_ONE_VOTING_CHANGE_ONLY : Z := -3.
Definition RAFT_ERR_SHUTDOWN : Z := -4.
Definition RAFT_ERR_NOMEM : Z := -5.
Definition RAFT_ERR_SNAPSHOT_IN_PROGRESS : Z := -6.
Definition RAFT_ERR_SNAPSHOT_ALREADY_LOADED : Z := -7.
Definition RAFT_ERR_INVALID_NODEID : Z := -8.
Definition RAFT_ERR_LEADER_TRANSFER_IN_PROGRESS : Z := -9.
Definition RAFT_ERR_DONE : Z := -10.
Definition RAFT_ERR_NOTFOUND : Z := -11.
Definition RAFT_ERR_MISUSE : Z := -12.
Definition RAFT_ERR_TRYAGAIN : Z := -13.

Definition RAFT_NODE_ID_NONE : Z := -1.

(** [raft_membership_e], [raft_state_e] and [raft_leader_transfer_e]. *)
Inductive raft_membership := RAFT_MEMBERSHIP_ADD | RAFT_MEMBERSHIP_REMOVE.

Inductive raft_state :=
| RAFT_STATE_FOLLOWER
| RAFT_STATE_PRECANDIDATE
| RAFT_STATE_CANDIDATE
| RAFT_STATE_LEADER.

#[export] Instance raft_state_eq_dec : EqDecision raft_state.
Proof. solve_decision. Defined.

Inductive raft_leader_transfer :=
| RAFT_LEADER_TRANSFER_TIMEOUT
| RAFT_LEADER_TRANSFER_UNEXPECTED_LEADER
| RAFT_LEADER_TRANSFER_EXPECTED_LEADER.

(** [raft_logtype_e]; an entry's [type] is an [int], user types start at
    [RAFT_LOGTYPE_NUM]. *)
Definition RAFT_LOGTYPE_NORMAL : Z := 0.
Definition RAFT_LOGTYPE_ADD_NONVOTING_NODE : Z := 1.
Definition RAFT_LOGTYPE_ADD_NODE : Z := 2.
Definition RAFT_LOGTYPE_REMOVE_NODE : Z := 3.
Definition RAFT_LOGTYPE_NO_OP : Z := 4.
Definition RAFT_LOGTYPE_NUM : Z := 100.

(** [raft_config_e] *)
Inductive raft_config_param :=
| RAFT_CONFIG_ELECTION_TIMEOUT
| RAFT_CONFIG_REQUEST_TIMEOUT
| RAFT_CONFIG_AUTO_FLUSH
| RAFT_CONFIG_LOG_ENABLED
| RAFT_CONFIG_NONBLOCKING_APPLY
| RAFT_CONFIG_DISABLE_APPLY
| RAFT_CONFIG_UNKNOWN (code : Z).

(** ** Entries ([raft_entry_t])

    An entry is a value: its reference count and its [free_func] only decide
    when its memory is returned. *)
Record raft_entry := mk_entry {
  ety_term : Z;
  ety_id : Z;
  ety_session : Z;
  ety_type : Z;
  ety_data : list Z
}.

#[export] Instance raft_entry_eq_dec : EqDecision raft_entry.
Proof. solve_decision. Defined.

#[export] Instance eta_entry : Eta raft_entry :=
  fun r => mk_entry (ety_term r) (ety_id r) (ety_session r) (ety_type r) (ety_data r).
#[export] Instance set_ety_term : Setter ety_term := ltac:(solve_setter).

Record raft_entry_resp := mk_entry_resp {
  er_id : Z;
  er_term : Z;
  er_idx : Z
}.

(** ** Messages *)
Record raft_snapshot_chunk := mk_chunk {
  chunk_offset : Z;
  chunk_data : list Z;
  chunk_len : Z;
  chunk_last : bool
}.

Record raft_requestvote_req := mk_rv_req {
  rv_prevote : bool;
  rv_term : Z;
  rv_candidate_id : Z;
  rv_last_log_idx : Z;
  rv_last_log_term : Z
}.

Record raft_requestvote_resp := mk_rv_resp {
  rvr_prevote : bool;
  rvr_request_term : Z;
  rvr_term : Z;
  rvr_vote_granted : bool
}.

Record raft_snapshot_req := mk_snap_req {
  snr_term : Z;
  snr_leader_id : Z;
  snr_msg_id : Z;
  snr_snapshot_index : Z;
  snr_snapshot_term : Z;
  snr_chunk : raft_snapshot_chunk
}.

Record raft_snapshot_resp := mk_snap_resp {
  snrr_msg_id : Z;
  snrr_snapshot_index : Z;
  snrr_term : Z;
  snrr_offset : Z;
  snrr_success : bool;
  snrr_last_chunk : bool
}.

(** [n_entries] is the length of [ae_entries]. *)
Record raft_appendentries_req := mk_ae_req {
  ae_leader_id : Z;
  ae_msg_id : Z;
  ae_term : Z;
  ae_prev_log_idx : Z;
  ae_prev_log_term : Z;
  ae_leader_commit : Z;
  ae_entries : list raft_entry
}.

Record raft_appendentries_resp := mk_ae_resp {
  aer_msg_id : Z;
  aer_term : Z;
  aer_success : bool;
  aer_current_idx : Z
}.

(** ** The abstract log

    The entries [base + 1 .. base + length entries]; the first [base] entries
    are compacted into a snapshot. *)
Record alog := mk_alog {
  al_base : Z;
  al_entries : list raft_entry
}.

Definition alog_last (l : alog) : Z := al_base l + Z.of_nat (length (al_entries l)).

Definition alog_get (l : alog) (idx : Z) : option raft_entry :=
  zlookup (al_entries l) (idx - al_base l - 1).

Definition alog_append (l : alog) (e : raft_entry) : alog :=
  mk_alog (al_base l) (al_entries l ++ [e]).

(** Remove the entries from [idx] on. *)
Definition alog_pop (l : alog) (idx : Z) : alog :=
  mk_alog (al_base l) (take (Z.to_nat (idx - al_base l - 1)) (al_entries l)).

(** Remove the entries before [first]. *)
Definition alog_poll (l : alog) (first : Z) : alog :=
  mk_alog (Z.max (al_base l) (first - 1))
          (drop (Z.to_nat (first - 1 - al_base l)) (al_entries l)).

(** Entries [idx ..], at most [n] of them. *)
Definition alog_slice (l : alog) (idx n : Z) : list raft_entry :=
  take (Z.to_nat n) (drop (Z.to_nat (idx - al_base l - 1)) (al_entries l)).

(** ** The log interface ([raft_log_impl_t])

    The operations table through which the server uses its log.  [get_batch]
    returns the number of entries fetched and the array it filled. *)
Class LogImpl (L : Type) := {
  log_impl_reset : Z -> Z -> M L unit;
  log_impl_append : raft_entry -> M L Z;
  log_impl_poll : Z -> M L Z;
  log_impl_pop : Z -> M L Z;
  log_impl_get : Z -> M L (option raft_entry);
  log_impl_get_batch : Z -> Z -> M L (Z * list raft_entry);
  log_impl_first_idx : L -> Z;
  log_impl_current_idx : L -> Z;
  log_impl_count : L -> Z;
  log_impl_sync : M L Z
}.

(** What [raft.h] documents of a log implementation, against the abstract log:
    [log_abs] is the log's contents and [log_wf] its representation invariant.
    A failed operation returns a negative code and leaves a well-formed log. *)
Class LogSpec (L : Type) `{LogImpl L} := {
  log_wf : L -> Prop;
  log_abs : L -> alog;
  log_base_nonneg l : log_wf l -> 0 <= al_base (log_abs l);
  log_first_idx_spec l : log_wf l -> log_impl_first_idx l = al_base (log_abs l) + 1;
  log_current_idx_spec l : log_wf l -> log_impl_current_idx l = alog_last (log_abs l);
  log_count_spec l :
    log_wf l -> log_impl_count l = Z.of_nat (length (al_entries (log_abs l)));
  log_reset_spec l first term :
    log_wf l -> 1 <= first ->
    exists l', log_impl_reset first term l = Done (tt, l') /\ log_wf l' /\
      log_abs l' = mk_alog (first - 1) [];
  log_append_spec l e :
    log_wf l ->
    exists r l', log_impl_append e l = Done (r, l') /\ log_wf l' /\
      ((r = 0 /\ log_abs l' = alog_append (log_abs l) e) \/
       (r < 0 /\ log_abs l' = log_abs l));
  log_pop_spec l idx :
    log_wf l -> al_base (log_abs l) < idx <= alog_last (log_abs l) ->
    exists r l', log_impl_pop idx l = Done (r, l') /\ log_wf l' /\
      ((r = 0 /\ log_abs l' = alog_pop (log_abs l) idx) \/
       (r < 0 /\ exists j, idx <= j /\ log_abs l' = alog_pop (log_abs l) j));
  log_poll_spec l first :
    log_wf l -> first <= alog_last (log_abs l) + 1 ->
    exists r l', log_impl_poll first l = Done (r, l') /\ log_wf l' /\
      ((r = 0 /\ log_abs l' = alog_poll (log_abs l) first) \/
       (r < 0 /\ exists j, j <= first /\ log_abs l' = alog_poll (log_abs l) j));
  log_get_spec l idx :
    log_wf l ->
    exists l', log_impl_get idx l = Done (alog_get (log_abs l) idx, l') /\ log_wf l' /\
      log_abs l' = log_abs l;
  log_get_batch_readonly l idx n a l' :
    log_wf l -> log_impl_get_batch idx n l = Done (a, l') -> log_wf l' /\ log_abs l' = log_abs l;
  log_get_batch_spec l idx n :
    log_wf l -> 1 <= idx -> 0 <= n ->
    exists k es l', log_impl_get_batch idx n l = Done ((k, es), l') /\ k <= n /\
      (0 <= k -> al_base (log_abs l) < idx -> es = alog_slice (log_abs l) idx k) /\
      (0 <= k -> k = Z.of_nat (length es)) /\
      (al_base (log_abs l) < idx <= alog_last (log_abs l) -> 0 < n -> 0 < k);
  log_sync_spec l :
    log_wf l ->
    exists r l', log_impl_sync l = Done (r, l') /\ log_wf l' /\ log_abs l' = log_abs l
}.
