(* ===== verification/RaftLog.v ===== *)
(** * The in-memory log ([deps/raft/src/raft_log.c])

    A growable circular buffer of entry pointers.  The first half translates
    the operations, including the ones that wrap them for [raft_log_impl_t];
    the second half shows that they implement the abstract log, by an instance
    of [LogSpec]. *)

From stdpp Require Import base list numbers tactics.
From S2P Require Import Prelude RaftTypes.

Local Open Scope Z_scope.

Definition INITIAL_CAPACITY : Z := 10.

(** [struct raft_log] without its callbacks; a slot holds an entry pointer,
    [None] for NULL. *)
Record raft_log := mk_raft_log {
  rl_size : Z;
  rl_count : Z;
  rl_front : Z;
  rl_back : Z;
  rl_base : Z;
  rl_entries : list (option raft_entry)
}.

#[export] Instance eta_raft_log : Eta raft_log :=
  fun r => mk_raft_log (rl_size r) (rl_count r) (rl_front r) (rl_back r)
                       (rl_base r) (rl_entries r).
#[export] Instance set_rl_size : Setter rl_size := ltac:(solve_setter).
#[export] Instance set_rl_count : Setter rl_count := ltac:(solve_setter).
#[export] Instance set_rl_front : Setter rl_front := ltac:(solve_setter).
#[export] Instance set_rl_back : Setter rl_back := ltac:(solve_setter).
#[export] Instance set_rl_base : Setter rl_base := ltac:(solve_setter).
#[export] Instance set_rl_entries : Setter rl_entries := ltac:(solve_setter).

(** [raft_log_cbs_t]: an absent callback is [None]; [W] is the state the
    callbacks act on.  [log_calloc] answers whether the next allocation
    succeeds. *)
Record raft_log_cbs (W : Type) := mk_log_cbs {
  cb_log_offer : option (W -> option raft_entry -> Z -> Z * W);
  cb_log_poll : option (W -> option raft_entry -> Z -> Z * W);
  cb_log_pop : option (W -> option raft_entry -> Z -> Z * W);
  cb_log_clear : option (W -> option raft_entry -> Z -> Z * W);
  log_calloc : W -> bool * W
}.
Arguments cb_log_offer {W}.
Arguments cb_log_poll {W}.
Arguments cb_log_pop {W}.
Arguments cb_log_clear {W}.
Arguments log_calloc {W}.

Section RaftLogOps.
Context {W : Type} (cb : raft_log_cbs W).

(** The log together with the state its callbacks act on. *)
Definition rlog : Type := raft_log * W.

Definition get_log : M rlog raft_log := gets fst.

Definition upd_log (f : raft_log -> raft_log) : M rlog unit :=
  modify (fun s => (f (fst s), snd s)).

(** [me->entries[i]] *)
Definition read_slot (i : Z) : M rlog (option raft_entry) :=
  me <- get_log ;;
  match zlookup (rl_entries me) i with
  | Some e => ret e
  | None => abort
  end.

(** [me->entries[i] = e] *)
Definition write_slot (i : Z) (e : option raft_entry) : M rlog unit :=
  me <- get_log ;;
  match zinsert i e (rl_entries me) with
  | Some es => upd_log (fun l => l <| rl_entries := es |>)
  | None => abort
  end.

(** Call an optional callback; an absent one counts as returning 0. *)
Definition call_cb (f : option (W -> option raft_entry -> Z -> Z * W))
    (e : option raft_entry) (idx : Z) : M rlog Z :=
  match f with
  | Some g => fun s => let '(r, w) := g (snd s) e idx in Done (r, (fst s, w))
  | None => ret 0
  end.

Definition mod_ (a b : Z) : Z :=
  let r := Z.rem a b in if r <? 0 then r + b else r.

(** The copy loop of [ensure_capacity], [n] iterations from [i] and [j]. *)
Fixpoint ensure_capacity_copy (n : nat) (i j size : Z)
    (entries temp : list (option raft_entry)) : option (list (option raft_entry)) :=
  match n with
  | O => Some temp
  | S n' =>
      let j := if j =? size then 0 else j in
      match zlookup entries j with
      | None => None
      | Some e =>
          match zinsert i e temp with
          | None => None
          | Some temp' => ensure_capacity_copy n' (i + 1) (j + 1) size entries temp'
          end
      end
  end.

Definition ensure_capacity : M rlog Z :=
  me <- get_log ;;
  if rl_count me <? rl_size me then ret 0 else
  ok <- (fun s => let '(ok, w) := log_calloc cb (snd s) in Done (ok, (fst s, w))) ;;
  if negb ok then ret RAFT_ERR_NOMEM else
  match ensure_capacity_copy (Z.to_nat (rl_count me)) 0 (rl_front me) (rl_size me)
          (rl_entries me) (replicate (Z.to_nat (rl_size me * 2)) None) with
  | None => abort
  | Some temp =>
      upd_log (fun l => l <| rl_size := rl_size l * 2 |> <| rl_entries := temp |>
                          <| rl_front := 0 |> <| rl_back := rl_count l |>) ;;
      ret 0
  end.

Definition raft_log_alloc (initial_size : Z) : raft_log :=
  mk_raft_log initial_size 0 0 0 0 (replicate (Z.to_nat initial_size) None).

Definition raft_log_new : raft_log := raft_log_alloc INITIAL_CAPACITY.

Definition raft_log_clear : M rlog unit :=
  upd_log (fun l => l <| rl_count := 0 |> <| rl_back := 0 |> <| rl_front := 0 |>
                      <| rl_base := 0 |>).

(** The loop of [raft_log_clear_entries], [n] iterations from index [i]. *)
Fixpoint raft_log_clear_entries_loop (n : nat) (i : Z) : M rlog unit :=
  match n with
  | O => ret tt
  | S n' =>
      me <- get_log ;;
      e <- read_slot (Z.rem (rl_front me + i - rl_base me) (rl_size me)) ;;
      call_cb (cb_log_clear cb) e i ;;
      raft_log_clear_entries_loop n' (i + 1)
  end.

Definition raft_log_clear_entries : M rlog unit :=
  me <- get_log ;;
  match cb_log_clear cb with
  | None => ret tt
  | Some _ =>
      if rl_count me =? 0 then ret tt else
      raft_log_clear_entries_loop (Z.to_nat (rl_count me + 1)) (rl_base me)
  end.

Definition raft_log_load_from_snapshot (idx term : Z) : M rlog Z :=
  raft_log_clear_entries ;;
  raft_log_clear ;;
  upd_log (fun l => l <| rl_base := idx |>) ;;
  ret 0.

Definition raft_log_append_entry (ety : raft_entry) : M rlog Z :=
  me <- get_log ;;
  let idx := rl_base me + rl_count me + 1 in
  e <- ensure_capacity ;;
  if negb (e =? 0) then ret e else
  me <- get_log ;;
  write_slot (rl_back me) (Some ety) ;;
  slot <- read_slot (rl_back me) ;;
  e <- call_cb (cb_log_offer cb) slot idx ;;
  if negb (e =? 0) then ret e else
  upd_log (fun l => l <| rl_count := rl_count l + 1 |> <| rl_back := rl_back l + 1 |>) ;;
  upd_log (fun l => l <| rl_back := Z.rem (rl_back l) (rl_size l) |>) ;;
  ret 0.

(** The position of the first slot and the number of contiguous entries, or
    [None] for NULL. *)
Definition raft_log_get_from_idx (idx : Z) : M rlog (option (Z * Z)) :=
  me <- get_log ;;
  c_assert (0 <=? idx - 1) ;;
  if (rl_base me + rl_count me <? idx) || (idx <=? rl_base me) then ret None else
  let idx := idx - 1 in
  let i := Z.rem (rl_front me + idx - rl_base me) (rl_size me) in
  ret (Some (i, if i <? rl_back me then rl_back me - i else rl_size me - i)).

Definition raft_log_get_at_idx (idx : Z) : M rlog (option raft_entry) :=
  me <- get_log ;;
  if idx =? 0 then ret None else
  if (rl_base me + rl_count me <? idx) || (idx <=? rl_base me) then ret None else
  let idx := idx - 1 in
  read_slot (Z.rem (rl_front me + idx - rl_base me) (rl_size me)).

Definition raft_log_count (s : rlog) : Z := rl_count (fst s).

(** The loop of [log_delete]; every iteration removes one entry, so [count]
    iterations are enough. *)
Fixpoint log_delete_loop (n : nat) (idx : Z) : M rlog Z :=
  me <- get_log ;;
  if (idx <=? rl_base me + rl_count me) && negb (rl_count me =? 0) then
    match n with
    | O => out_of_fuel
    | S n' =>
        let idx_tmp := rl_base me + rl_count me in
        let back := mod_ (rl_back me - 1) (rl_size me) in
        slot <- read_slot back ;;
        e <- call_cb (cb_log_pop cb) slot idx_tmp ;;
        if negb (e =? 0) then ret e else
        match slot with
        | None => abort
        | Some _ =>
            upd_log (fun l => l <| rl_back := back |> <| rl_count := rl_count l - 1 |>) ;;
            log_delete_loop n' idx
        end
    end
  else ret 0.

Definition log_delete (idx : Z) : M rlog Z :=
  me <- get_log ;;
  if idx =? 0 then ret (-1) else
  let idx := if idx <? rl_base me then rl_base me else idx in
  log_delete_loop (Z.to_nat (rl_count me)) idx.

Definition raft_log_delete (idx : Z) : M rlog Z := log_delete idx.

Definition raft_log_poll : M rlog (Z * option raft_entry) :=
  me <- get_log ;;
  let idx := rl_base me + 1 in
  if rl_count me =? 0 then ret (-1, None) else
  elem <- read_slot (rl_front me) ;;
  e <- call_cb (cb_log_poll cb) elem idx ;;
  if negb (e =? 0) then ret (e, None) else
  match elem with
  | None => abort
  | Some _ =>
      upd_log (fun l => l <| rl_front := rl_front l + 1 |>) ;;
      upd_log (fun l => l <| rl_front := Z.rem (rl_front l) (rl_size l) |>
                          <| rl_count := rl_count l - 1 |> <| rl_base := rl_base l + 1 |>) ;;
      ret (0, elem)
  end.

Definition raft_log_peektail : M rlog (option raft_entry) :=
  me <- get_log ;;
  if rl_count me =? 0 then ret None else
  let tail := if rl_back me =? 0 then rl_size me - 1 else rl_back me - 1 in
  read_slot tail.

Definition raft_log_empty : M rlog unit :=
  upd_log (fun l => l <| rl_front := 0 |> <| rl_back := 0 |> <| rl_count := 0 |>).

Definition raft_log_get_current_idx (s : rlog) : Z := raft_log_count s + rl_base (fst s).

Definition raft_log_get_base (s : rlog) : Z := rl_base (fst s).

(** ** The [raft_log_impl_t] wrappers *)

Definition log_reset (first_idx term : Z) : M rlog unit :=
  raft_log_clear_entries ;;
  raft_log_clear ;;
  c_assert (1 <=? first_idx) ;;
  upd_log (fun l => l <| rl_base := first_idx - 1 |>).

Definition log_append (ety : raft_entry) : M rlog Z := raft_log_append_entry ety.

Definition log_get (idx : Z) : M rlog (option raft_entry) := raft_log_get_at_idx idx.

(** [entries[i] = r[i]] for [n] entries from slot [i]; holding a NULL entry
    is undefined. *)
Fixpoint log_get_batch_copy (n : nat) (i : Z) : M rlog (list raft_entry) :=
  match n with
  | O => ret []
  | S n' =>
      slot <- read_slot i ;;
      match slot with
      | None => abort
      | Some e => es <- log_get_batch_copy n' (i + 1) ;; ret (e :: es)
      end
  end.

Definition log_get_batch (idx entries_n : Z) : M rlog (Z * list raft_entry) :=
  r <- raft_log_get_from_idx idx ;;
  match r with
  | None => ret (0, [])
  | Some (i, n) =>
      if n <? 1 then ret (0, []) else
      let n := if entries_n <? n then entries_n else n in
      es <- log_get_batch_copy (Z.to_nat n) i ;;
      ret (n, es)
  end.

Definition log_pop (from_idx : Z) : M rlog Z := log_delete from_idx.

(** The loop of [log_poll]: an iteration removes one entry or returns. *)
Fixpoint log_poll_loop (n : nat) (first_idx : Z) : M rlog Z :=
  base <- gets raft_log_get_base ;;
  if base + 1 <? first_idx then
    match n with
    | O => out_of_fuel
    | S n' =>
        let* (e, _) := raft_log_poll in
        if e <? 0 then ret e else log_poll_loop n' first_idx
    end
  else ret 0.

Definition log_poll (first_idx : Z) : M rlog Z :=
  me <- get_log ;; log_poll_loop (Z.to_nat (rl_count me) + 1) first_idx.

Definition log_first_idx (s : rlog) : Z := raft_log_get_base s + 1.

Definition log_current_idx (s : rlog) : Z := raft_log_get_current_idx s.

Definition log_count (s : rlog) : Z := raft_log_count s.

Definition log_sync : M rlog Z := ret 0.

(** [raft_log_internal_impl] *)
#[export] Instance raft_log_internal_impl : LogImpl rlog := {
  log_impl_reset := log_reset;
  log_impl_append := log_append;
  log_impl_poll := log_poll;
  log_impl_pop := log_pop;
  log_impl_get := log_get;
  log_impl_get_batch := log_get_batch;
  log_impl_first_idx := log_first_idx;
  log_impl_current_idx := log_current_idx;
  log_impl_count := log_count;
  log_impl_sync := log_sync
}.

End RaftLogOps.

(** * Correctness *)

(** [ring_rep l es]: the buffer [l] holds the entries [es], oldest first. *)
Record ring_rep (l : raft_log) (es : list raft_entry) : Prop := {
  rr_size : 0 < rl_size l;
  rr_length : Z.of_nat (length (rl_entries l)) = rl_size l;
  rr_front : 0 <= rl_front l < rl_size l;
  rr_count : rl_count l = Z.of_nat (length es);
  rr_fits : rl_count l <= rl_size l;
  rr_back : rl_back l = (rl_front l + rl_count l) mod rl_size l;
  rr_base : 0 <= rl_base l;
  rr_slots k e :
    es !! k = Some e ->
    zlookup (rl_entries l) ((rl_front l + Z.of_nat k) mod rl_size l) = Some (Some e)
}.

(** The contents of the buffer, by reading its slots in order. *)
Definition ring_contents (l : raft_log) : list raft_entry :=
  omap (fun k => mjoin (zlookup (rl_entries l) ((rl_front l + Z.of_nat k) mod rl_size l)))
       (seq 0 (Z.to_nat (rl_count l))).

Lemma omap_seq {A} (f : nat -> option A) (es : list A) i :
  (forall k e, es !! k = Some e -> f (i + k)%nat = Some e) ->
  omap f (seq i (length es)) = es.
Proof.
  revert i. induction es as [|e es IH]; intros i Hf; simpl; [done|].
  rewrite <- (Nat.add_0_r i) at 1. rewrite (Hf 0%nat e eq_refl). f_equal.
  apply IH. intros k e' He. replace (S i + k)%nat with (i + S k)%nat by lia. by apply Hf.
Qed.

Lemma ring_rep_contents l es : ring_rep l es -> ring_contents l = es.
Proof.
  intros H. unfold ring_contents. rewrite (rr_count _ _ H), Nat2Z.id.
  apply omap_seq. intros k e Hk. simpl. by rewrite (rr_slots _ _ H k e Hk).
Qed.

Lemma ring_rep_back_bound l es : ring_rep l es -> 0 <= rl_back l < rl_size l.
Proof. intros H. rewrite (rr_back _ _ H). apply Z.mod_pos_bound, H. Qed.

Lemma ring_rep_alloc n : 0 < n -> ring_rep (raft_log_alloc n) [].
Proof.
  intros Hn. constructor; simpl; try done; try lia.
  rewrite length_replicate. lia.
Qed.

(** A new log is the empty list of entries. *)
Lemma ring_rep_new : ring_rep raft_log_new [].
Proof. by apply ring_rep_alloc. Qed.

Section Correctness.
Context {W : Type} (cb : raft_log_cbs W).

(** [RAFT_ERR_SHUTDOWN] or another negative code is what the callbacks are
    documented to return on failure. *)
Definition cb_code_ok (f : option (W -> option raft_entry -> Z -> Z * W)) : Prop :=
  forall g w e i, f = Some g -> fst (g w e i) <= 0.

(** What a callback answers, and does to its state. *)
Definition cb_answer (f : option (W -> option raft_entry -> Z -> Z * W)) (e : option raft_entry) (idx : Z) (w : W) : Z * W :=
  match f with
  | Some g => g w e idx
  | None => (0, w)
  end.

(** ** The operations on the list of entries

    [a] is the abstract log and [c] the number of entries there is memory for.  The
    callbacks are called once for every entry that comes or goes, with its index,
    until one of them refuses; memory is asked for only when all of it is used. *)
Definition a_room (n c : Z) (w : W) : bool * Z * W :=
  if n <? c then (true, c, w) else
  let '(ok, w) := log_calloc cb w in
  (ok, if ok : bool then c * 2 else c, w).

Definition a_append (e : raft_entry) (a : alog) (c : Z) (w : W) : Z * alog * Z * W :=
  let '(ok, c, w) := a_room (Z.of_nat (length (al_entries a))) c w in
  if negb ok then (RAFT_ERR_NOMEM, a, c, w) else
  let '(r, w) := cb_answer (cb_log_offer cb) (Some e) (alog_last a + 1) w in
  (r, if r =? 0 then alog_append a e else a, c, w).

(** [rev_es]: the newest entry first. *)
Fixpoint a_pop_loop (base idx : Z) (rev_es : list raft_entry) (w : W) : Z * list raft_entry * W :=
  match rev_es with
  | [] => (0, [], w)
  | e :: rev_es' =>
      let last := base + Z.of_nat (length rev_es) in
      if last <? idx then (0, rev_es, w) else
      let '(r, w) := cb_answer (cb_log_pop cb) (Some e) last w in
      if negb (r =? 0) then (r, rev_es, w) else a_pop_loop base idx rev_es' w
  end.

Definition a_pop (idx : Z) (a : alog) (w : W) : Z * alog * W :=
  if idx =? 0 then (-1, a, w) else
  let '(r, rev_es, w) := a_pop_loop (al_base a) idx (rev (al_entries a)) w in
  (r, mk_alog (al_base a) (rev rev_es), w).

Fixpoint a_poll_loop (first base : Z) (es : list raft_entry) (w : W) : Z * alog * W :=
  if base + 1 <? first then
    match es with
    | [] => (-1, mk_alog base [], w)
    | e :: es' =>
        let '(r, w) := cb_answer (cb_log_poll cb) (Some e) (base + 1) w in
        if negb (r =? 0) then (r, mk_alog base es, w) else a_poll_loop first (base + 1) es' w
    end
  else (0, mk_alog base es, w).

Definition a_poll (first : Z) (a : alog) (w : W) : Z * alog * W := a_poll_loop first (al_base a) (al_entries a) w.

Lemma call_cb_done f e i (s : @rlog W) :
  exists r w, call_cb f e i s = Done (r, (fst s, w)) /\ (cb_code_ok f -> r <= 0) /\ cb_answer f e i (snd s) = (r, w).
Proof.
  destruct f as [g|]; simpl; unfold ret.
  - destruct (g (snd s) e i) as [r w] eqn:E. eexists r, w. split; [done|]. split; [|done].
    intros Hok. specialize (Hok g (snd s) e i eq_refl). by rewrite E in Hok.
  - exists 0, (snd s). destruct s; simpl. split; [done|]. split; [lia|done].
Qed.

Lemma read_slot_done i (s : @rlog W) e :
  zlookup (rl_entries (fst s)) i = Some e -> read_slot i s = Done (e, s).
Proof. intros H. unfold read_slot, bind, get_log, gets. by rewrite H. Qed.

(** The copy loop moves the window of the buffer to the start of the array. *)
Lemma ensure_capacity_copy_spec l es n d temp :
  ring_rep l es -> (d + n <= length es)%nat ->
  (length es <= length temp)%nat -> 
  forall j, (rl_front l + Z.of_nat d) mod rl_size l = j \/
            (j = rl_size l /\ (rl_front l + Z.of_nat d) mod rl_size l = 0) ->
  exists temp', ensure_capacity_copy n (Z.of_nat d) j (rl_size l) (rl_entries l) temp
                = Some temp' /\ length temp' = length temp /\
    forall k, temp' !! k = if decide (d <= k < d + n)%nat then Some (es !! k) else temp !! k.
Proof.
  intros Hr. revert d temp. induction n as [|n IH]; intros d temp Hd Ht j Hj; simpl.
  - exists temp. split_and!; [done..|]. intros k. case_decide; [lia|done].
  - destruct (lookup_lt_is_Some_2 es d) as [e He]; [lia|].
    pose proof (rr_slots _ _ Hr d e He) as Hslot.
    pose proof (Z.mod_pos_bound (rl_front l + Z.of_nat d) (rl_size l) (rr_size _ _ Hr)).
    set (j' := if j =? rl_size l then 0 else j).
    assert (j' = (rl_front l + Z.of_nat d) mod rl_size l) as Hj'.
    { unfold j'. destruct (Z.eqb_spec j (rl_size l)); lia. }
    rewrite Hj', Hslot, zinsert_in by lia. rewrite Nat2Z.id.
    destruct (IH (S d) (<[d:=Some e]> temp)) with (j := (rl_front l + Z.of_nat d) mod rl_size l + 1)
      as (temp' & Hrun & Hlen & Hk).
    + lia.
    + rewrite length_insert. lia.
    + replace (rl_front l + Z.of_nat (S d)) with (rl_front l + Z.of_nat d + 1) by lia.
      rewrite <- (Zplus_mod_idemp_l (rl_front l + Z.of_nat d)).
      destruct (decide ((rl_front l + Z.of_nat d) mod rl_size l + 1 = rl_size l)) as [E|E].
      * right. split; [lia|]. rewrite E. apply Z_mod_same_full.
      * left. apply Z.mod_small. lia.
    + exists temp'. replace (Z.of_nat d + 1) with (Z.of_nat (S d)) by lia.
      split_and!; [done|by rewrite Hlen, length_insert|].
      intros k. rewrite Hk. destruct (decide (k = d)) as [->|Hne].
      * rewrite decide_False, decide_True by lia.
        rewrite list_lookup_insert_eq by lia. by rewrite He.
      * rewrite list_lookup_insert_ne by done. repeat case_decide; (done || lia).
Qed.

Lemma ensure_capacity_spec l w es :
  ring_rep l es ->
  exists r l' w', ensure_capacity cb (l, w) = Done (r, (l', w')) /\ ring_rep l' es /\
    rl_base l' = rl_base l /\ rl_count l' = rl_count l /\
    (r = 0 /\ rl_count l' < rl_size l' \/ r = RAFT_ERR_NOMEM) /\
    a_room (Z.of_nat (length es)) (rl_size l) w = (r =? 0, rl_size l', w').
Proof.
  intros Hr. unfold ensure_capacity, a_room. rewrite <- (rr_count _ _ Hr). run_refl. simpl.
  destruct (Z.ltb_spec (rl_count l) (rl_size l)) as [Hlt|Hge].
  { exists 0, l, w. split_and!; [done..| |done]. left; done. }
  destruct (log_calloc cb w) as [ok w'] eqn:Halloc.
  erewrite bind_done_eq; [|simpl; rewrite Halloc; reflexivity]. cbv beta.
  destruct ok; simpl; [|exists RAFT_ERR_NOMEM, l, w'; split_and!; [done..|by right|done]].
  pose proof (rr_size _ _ Hr). pose proof (rr_count _ _ Hr). pose proof (rr_fits _ _ Hr).
  destruct (ensure_capacity_copy_spec l es (length es) 0
              (replicate (Z.to_nat (rl_size l * 2)) None) Hr) with (j := rl_front l)
    as (temp & Hrun & Hlen & Hk); [lia|rewrite length_replicate; lia|..].
  { left. rewrite Z.add_0_r. apply Z.mod_small, Hr. }
  rewrite length_replicate in Hlen.
  change (Z.of_nat 0) with 0 in Hrun.
  rewrite (rr_count _ _ Hr), Nat2Z.id, Hrun. run_refl. simpl.
  eexists 0, _, w'. split_and!; [done| |done|done|left; simpl; lia|done].
  constructor; simpl; try lia; try apply Hr.
  - rewrite Z.mod_small; lia.
  - intros k e Hke. pose proof (lookup_lt_Some _ _ _ Hke).
    rewrite Z.mod_small, Z.add_0_l, zlookup_nat by lia. rewrite Hk, decide_True by lia. by rewrite Hke.
Qed.

(** Writing the slot behind the window leaves the contents unchanged. *)
Lemma ring_rep_write_back l es x :
  ring_rep l es -> rl_count l < rl_size l ->
  ring_rep (l <| rl_entries := <[Z.to_nat (rl_back l) := x]> (rl_entries l) |>) es.
Proof.
  intros Hr Hlt. pose proof (ring_rep_back_bound _ _ Hr). pose proof (rr_size _ _ Hr).
  pose proof (rr_count _ _ Hr).
  constructor; simpl; try apply Hr.
  - rewrite length_insert. apply Hr.
  - intros k e Hk. pose proof (lookup_lt_Some _ _ _ Hk).
    rewrite zlookup_insert_ne; [by apply Hr|lia|].
    rewrite (rr_back _ _ Hr). intros E. apply mod_window_inj in E; lia.
Qed.

Lemma ring_rep_push l es e :
  ring_rep l es -> rl_count l < rl_size l ->
  zlookup (rl_entries l) (rl_back l) = Some (Some e) ->
  ring_rep (l <| rl_count := rl_count l + 1 |>
              <| rl_back := Z.rem (rl_back l + 1) (rl_size l) |>) (es ++ [e]).
Proof.
  intros Hr Hlt Hb. pose proof (ring_rep_back_bound _ _ Hr). pose proof (rr_size _ _ Hr).
  pose proof (rr_count _ _ Hr).
  constructor; simpl; try apply Hr; try lia.
  - rewrite length_app. simpl. lia.
  - rewrite rem_mod_nonneg, (rr_back _ _ Hr), Zplus_mod_idemp_l by lia. f_equal. lia.
  - intros k x Hk. apply lookup_app_Some in Hk as [Hk|[Hge Hk]]; [by apply Hr|].
    apply list_lookup_singleton_Some in Hk as [Hk ->].
    replace (Z.of_nat k) with (rl_count l) by lia. by rewrite <- (rr_back _ _ Hr).
Qed.

Lemma raft_log_append_entry_spec l w es e :
  cb_code_ok (cb_log_offer cb) -> ring_rep l es ->
  exists r l' w', raft_log_append_entry cb e (l, w) = Done (r, (l', w')) /\
    rl_base l' = rl_base l /\
    (r = 0 /\ ring_rep l' (es ++ [e]) \/ r < 0 /\ ring_rep l' es) /\
    a_append e (mk_alog (rl_base l) es) (rl_size l) w =
      (r, mk_alog (rl_base l) (if r =? 0 then es ++ [e] else es), rl_size l', w').
Proof.
  intros Hcb Hr. unfold raft_log_append_entry, a_append. run_refl.
  destruct (ensure_capacity_spec l w es Hr) as (r & l1 & w1 & Hrun & Hr1 & Hb1 & Hc1 & Hcase & Hroom).
  run_step Hrun. cbn [al_entries]. rewrite Hroom. unfold alog_last. cbn [al_base al_entries]. rewrite <- (rr_count _ _ Hr).
  destruct Hcase as [[-> Hlt]|Hneg]; simpl.
  2: { subst r. simpl. exists RAFT_ERR_NOMEM, l1, w1. split_and!; [done..|by right|done]. }
  run_refl. simpl.
  pose proof (ring_rep_back_bound _ _ Hr1) as Hbb.
  pose proof (rr_length _ _ Hr1) as Hlen1.
  erewrite bind_done_eq.
  2: { unfold write_slot. run_refl. simpl. rewrite zinsert_in by lia. reflexivity. }
  set (l2 := l1 <| rl_entries := <[Z.to_nat (rl_back l1) := Some e]> (rl_entries l1) |>).
  pose proof (ring_rep_write_back l1 es (Some e) Hr1 Hlt : ring_rep l2 es) as Hr2.
  assert (zlookup (rl_entries l2) (rl_back l1) = Some (Some e)) as Hslot.
  { apply zlookup_insert_eq. lia. }
  erewrite bind_done_eq; [|apply (read_slot_done (rl_back l1) (l2, w1) (Some e)), Hslot].
  destruct (call_cb_done (cb_log_offer cb) (Some e) (rl_base l + rl_count l + 1) (l2, w1))
    as (r & w2 & Hcall & Hle & Hans).
  run_step Hcall. specialize (Hle Hcb). cbn [snd] in Hans. rewrite Hans. simpl.
  destruct (Z.eqb_spec r 0) as [->|Hne]; simpl.
  - run_refl. run_refl. simpl.
    eexists 0, _, w2. split_and!; [done|done| |done]. left. split; [done|].
    apply (ring_rep_push l2 es e Hr2 Hlt Hslot).
  - exists r, l2, w2. split_and!; [done|done|right; split; [lia|done]|].
    destruct (Z.eqb_spec r 0); [done|]. done.
Qed.

(** The slot of index [idx], for an index inside the log. *)
Lemma ring_rep_slot_of_idx l es idx :
  ring_rep l es -> rl_base l < idx <= rl_base l + rl_count l ->
  exists e, es !! Z.to_nat (idx - rl_base l - 1) = Some e /\
    zlookup (rl_entries l)
      (Z.rem (rl_front l + (idx - 1) - rl_base l) (rl_size l)) = Some (Some e).
Proof.
  intros Hr Hidx. pose proof (rr_count _ _ Hr). pose proof (rr_front _ _ Hr).
  destruct (lookup_lt_is_Some_2 es (Z.to_nat (idx - rl_base l - 1))) as [e He]; [lia|].
  exists e. split; [done|]. rewrite <- (rr_slots _ _ Hr _ _ He).
  rewrite rem_mod_nonneg by lia. do 2 f_equal. lia.
Qed.

Definition ring_alog (l : raft_log) : alog := mk_alog (rl_base l) (ring_contents l).

Lemma raft_log_get_at_idx_spec l (w : W) es idx :
  ring_rep l es ->
  raft_log_get_at_idx idx (l, w) =
    Done (alog_get (mk_alog (rl_base l) es) idx, (l, w)).
Proof.
  intros Hr. unfold raft_log_get_at_idx. run_refl. simpl.
  pose proof (rr_base _ _ Hr). pose proof (rr_count _ _ Hr).
  unfold alog_get; simpl.
  destruct (Z.eqb_spec idx 0) as [->|].
  { rewrite zlookup_None by lia. done. }
  destruct ((rl_base l + rl_count l <? idx) || (idx <=? rl_base l)) eqn:E.
  { rewrite zlookup_None by lia. done. }
  destruct (ring_rep_slot_of_idx l es idx Hr) as (e & He & Hslot); [lia|].
  rewrite (read_slot_done _ (l, w) (Some e)) by exact Hslot.
  unfold zlookup. destruct (Z.ltb_spec (idx - rl_base l - 1) 0); [lia|]. by rewrite He.
Qed.

(** Dropping the newest entry. *)
Lemma ring_rep_pop_last l es e :
  ring_rep l (es ++ [e]) ->
  let back := mod_ (rl_back l - 1) (rl_size l) in
  zlookup (rl_entries l) back = Some (Some e) /\
  ring_rep (l <| rl_back := back |> <| rl_count := rl_count l - 1 |>) es.
Proof.
  intros Hr. pose proof (ring_rep_back_bound _ _ Hr) as Hbb.
  pose proof (rr_size _ _ Hr). pose proof (rr_count _ _ Hr) as Hc.
  rewrite length_app in Hc. simpl in Hc.
  assert (mod_ (rl_back l - 1) (rl_size l) = (rl_front l + Z.of_nat (length es)) mod rl_size l)
    as Hback.
  { transitivity ((rl_back l - 1) mod rl_size l).
    - unfold mod_. destruct (decide (rl_back l = 0)) as [->|].
      + change (0 - 1) with (Z.opp 1). rewrite Z.rem_opp_l by lia.
        destruct (decide (rl_size l = 1)) as [->|]; [done|].
        rewrite Z.rem_small by lia. destruct (Z.ltb_spec (Z.opp 1) 0); [|lia].
        rewrite <- (Z_mod_plus_full (Z.opp 1) 1), Z.mod_small; lia.
      + rewrite Z.rem_small, Z.mod_small by lia.
        destruct (Z.ltb_spec (rl_back l - 1) 0); lia.
    - rewrite (rr_back _ _ Hr), Zminus_mod_idemp_l. f_equal. lia. }
  simpl. rewrite Hback. split.
  - apply (rr_slots _ _ Hr). by apply list_lookup_middle.
  - constructor; simpl; try apply Hr; try lia.
    + pose proof (rr_fits _ _ Hr). lia.
    + f_equal. lia.
    + intros k x Hk. apply Hr. by apply lookup_app_l_Some.
Qed.

(** Dropping the oldest entry. *)
Lemma ring_rep_poll_first l es e :
  ring_rep l (e :: es) ->
  zlookup (rl_entries l) (rl_front l) = Some (Some e) /\
  ring_rep (l <| rl_front := Z.rem (rl_front l + 1) (rl_size l) |>
              <| rl_count := rl_count l - 1 |> <| rl_base := rl_base l + 1 |>) es.
Proof.
  intros Hr. pose proof (rr_size _ _ Hr). pose proof (rr_count _ _ Hr) as Hc.
  pose proof (rr_front _ _ Hr). simpl in Hc. pose proof (rr_fits _ _ Hr).
  pose proof (rr_base _ _ Hr). split.
  - rewrite <- (rr_slots _ _ Hr 0 e eq_refl), Z.add_0_r. f_equal.
    by rewrite Z.mod_small.
  - assert (forall k, (Z.rem (rl_front l + 1) (rl_size l) + k) mod rl_size l
                      = (rl_front l + (k + 1)) mod rl_size l) as Hmod.
    { intros k. rewrite rem_mod_nonneg, Zplus_mod_idemp_l by lia. f_equal. lia. }
    constructor; simpl; try apply Hr; try lia.
    + rewrite rem_mod_nonneg by lia. apply Z.mod_pos_bound. lia.
    + rewrite Hmod, (rr_back _ _ Hr). f_equal. lia.
    + intros k x Hk. rewrite Hmod.
      replace (Z.of_nat k + 1) with (Z.of_nat (S k)) by lia. by apply Hr.
Qed.

Lemma a_pop_stop base idx es w : base + Z.of_nat (length es) < idx \/ es = [] ->
  a_pop_loop base idx (rev es) w = (0, rev es, w).
Proof.
  intros Hs. assert (length (rev es) = length es) as Hl by apply length_rev. destruct (rev es) as [|e l] eqn:E; [done|].
  destruct Hs as [Hs| ->]; [|done]. cbn [a_pop_loop]. rewrite Hl. destruct (Z.ltb_spec (base + Z.of_nat (length es)) idx); [done|lia].
Qed.

Lemma a_pop_step base idx es e w : idx <= base + Z.of_nat (length es) + 1 ->
  a_pop_loop base idx (rev (es ++ [e])) w =
    (let '(r, w) := cb_answer (cb_log_pop cb) (Some e) (base + Z.of_nat (length es) + 1) w in
     if negb (r =? 0) then (r, rev (es ++ [e]), w) else a_pop_loop base idx (rev es) w).
Proof.
  intros Hi. rewrite rev_unit. cbn [a_pop_loop length]. rewrite length_rev.
  replace (base + Z.of_nat (S (length es))) with (base + Z.of_nat (length es) + 1) by lia.
  destruct (Z.ltb_spec (base + Z.of_nat (length es) + 1) idx); [lia|done].
Qed.

(** [log_delete] keeps the entries below [idx]; when a callback stops it, it
    has removed a suffix that starts at or after [idx]. *)
Lemma log_delete_loop_spec n l w es idx :
  cb_code_ok (cb_log_pop cb) -> ring_rep l es -> (length es <= n)%nat ->
  exists r l' w' j, log_delete_loop cb n idx (l, w) = Done (r, (l', w')) /\
    rl_base l' = rl_base l /\
    ring_rep l' (take (Z.to_nat (j - rl_base l - 1)) es) /\
    (r = 0 /\ j = idx \/ r < 0 /\ idx <= j) /\ rl_size l' = rl_size l /\
    a_pop_loop (rl_base l) idx (rev es) w = (r, rev (take (Z.to_nat (j - rl_base l - 1)) es), w').
Proof.
  intros Hcb. revert l w es. induction n as [|n IH]; intros l w es Hr Hn;
    pose proof (rr_count _ _ Hr) as Hc; simpl; run_refl; simpl.
  - destruct es; [|simpl in Hn; lia]. simpl in Hc. rewrite Hc. simpl.
    rewrite andb_false_r. exists 0, l, w, idx. rewrite take_nil. split_and!; auto.
  - destruct ((idx <=? rl_base l + rl_count l) && negb (rl_count l =? 0)) eqn:Hcond.
    2: { assert (take (Z.to_nat (idx - rl_base l - 1)) es = es) as Ht.
         { rewrite take_ge; [done|]. destruct (decide (rl_count l = 0)); lia. }
         exists 0, l, w, idx. rewrite Ht. split_and!; [done..|auto|done|]. apply a_pop_stop.
         destruct (decide (rl_count l = 0)); [right; destruct es; [done|simpl in Hc; lia]|left; lia]. }
    destruct es as [|e es _] using rev_ind; [simpl in Hc; lia|].
    rewrite length_app in Hn, Hc. simpl in Hn, Hc.
    destruct (ring_rep_pop_last l es e Hr) as [Hslot Hr'].
    erewrite bind_done_eq; [|apply (read_slot_done _ (l, w)), Hslot].
    destruct (call_cb_done (cb_log_pop cb) (Some e) (rl_base l + rl_count l) (l, w))
      as (r & w1 & Hcall & Hle & Hans).
    run_step Hcall. specialize (Hle Hcb). cbn [snd] in Hans. rewrite a_pop_step by lia.
    replace (rl_base l + Z.of_nat (length es) + 1) with (rl_base l + rl_count l) by lia. rewrite Hans. simpl.
    destruct (Z.eqb_spec r 0) as [->|Hne]; simpl.
    + run_refl. simpl.
      destruct (IH _ w1 es Hr') as (r & l' & w' & j & Hrun & Hb & Hrep & Hcase & Hsz & Hspec); [lia|].
      assert (take (Z.to_nat (Z.min j (rl_base l + rl_count l) - rl_base l - 1)) (es ++ [e]) =
              take (Z.to_nat (j - rl_base l - 1)) es) as Ht.
      { rewrite take_app_le by lia. destruct (decide (j <= rl_base l + rl_count l)).
        - by rewrite Z.min_l by lia.
        - rewrite (take_ge es) by lia. by rewrite take_ge by lia. }
      exists r, l', w', (Z.min j (rl_base l + rl_count l)). rewrite Ht.
      split_and!; [exact Hrun|exact Hb|exact Hrep|lia|exact Hsz|exact Hspec].
    + assert (take (Z.to_nat (rl_base l + rl_count l + 1 - rl_base l - 1)) (es ++ [e]) = es ++ [e]) as Ht.
      { rewrite take_ge; [done|]. rewrite length_app. simpl. lia. }
      exists r, l, w1, (rl_base l + rl_count l + 1). rewrite Ht. split_and!; [done..|right; lia|done|done].
Qed.

(** Below the base, the index says that all entries go. *)
Lemma a_pop_below base idx rev_es w : idx <= base -> a_pop_loop base base rev_es w = a_pop_loop base idx rev_es w.
Proof.
  intros Hi. revert w. induction rev_es as [|e es IH]; intros w; [done|]. cbn [a_pop_loop].
  destruct (Z.ltb_spec (base + Z.of_nat (length (e :: es))) base); [cbn [length] in *; lia|].
  destruct (Z.ltb_spec (base + Z.of_nat (length (e :: es))) idx); [cbn [length] in *; lia|].
  destruct (cb_answer _ _ _ _) as [r w1]. by rewrite IH.
Qed.

Lemma log_delete_spec l w es idx :
  cb_code_ok (cb_log_pop cb) -> ring_rep l es ->
  exists r l' w' j, log_delete cb idx (l, w) = Done (r, (l', w')) /\
    rl_base l' = rl_base l /\
    ring_rep l' (take (Z.to_nat (j - rl_base l - 1)) es) /\
    (r = 0 /\ j = idx \/ r < 0 /\ idx <= j) /\ rl_size l' = rl_size l /\
    a_pop idx (mk_alog (rl_base l) es) w = (r, mk_alog (rl_base l) (take (Z.to_nat (j - rl_base l - 1)) es), w').
Proof.
  intros Hcb Hr. pose proof (rr_base _ _ Hr). pose proof (rr_count _ _ Hr).
  unfold log_delete, a_pop. cbn [al_base al_entries]. run_refl. simpl.
  destruct (Z.eqb_spec idx 0) as [->|Hne].
  { exists (-1), l, w, (rl_base l + rl_count l + 1). rewrite take_ge by lia. split_and!; [done..|lia|done|done]. }
  destruct (Z.ltb_spec idx (rl_base l)) as [Hlt|Hge].
  - destruct (log_delete_loop_spec (Z.to_nat (rl_count l)) l w es (rl_base l))
      as (r & l' & w' & j & Hrun & Hb & Hrep & Hcase & Hsz & Hspec); [done..|lia|].
    rewrite (a_pop_below (rl_base l) idx) in Hspec by lia. rewrite Hspec, rev_involutive.
    assert (forall k, r = 0 -> k = idx -> Z.to_nat (k - rl_base l - 1) = Z.to_nat (j - rl_base l - 1)) as Hj by lia.
    exists r, l', w', (if r =? 0 then idx else j).
    destruct (Z.eqb_spec r 0); [rewrite (Hj idx) by done|]; split_and!; try done; lia.
  - destruct (log_delete_loop_spec (Z.to_nat (rl_count l)) l w es idx)
      as (r & l' & w' & j & Hrun & Hb & Hrep & Hcase & Hsz & Hspec); [done..|lia|].
    exists r, l', w', j. by rewrite Hspec, rev_involutive.
Qed.

Lemma raft_log_poll_spec l w e es :
  cb_code_ok (cb_log_poll cb) -> ring_rep l (e :: es) ->
  exists r o l' w', raft_log_poll cb (l, w) = Done ((r, o), (l', w')) /\
    cb_answer (cb_log_poll cb) (Some e) (rl_base l + 1) w = (r, w') /\ rl_size l' = rl_size l /\
    (r = 0 /\ o = Some e /\ rl_base l' = rl_base l + 1 /\ ring_rep l' es \/
     r < 0 /\ l' = l).
Proof.
  intros Hcb Hr. pose proof (rr_count _ _ Hr) as Hc. simpl in Hc.
  destruct (ring_rep_poll_first l es e Hr) as [Hslot Hr'].
  unfold raft_log_poll. run_refl. simpl. destruct (Z.eqb_spec (rl_count l) 0); [lia|].
  erewrite bind_done_eq; [|apply (read_slot_done _ (l, w)), Hslot].
  destruct (call_cb_done (cb_log_poll cb) (Some e) (rl_base l + 1) (l, w))
    as (r & w1 & Hcall & Hle & Hans).
  run_step Hcall. specialize (Hle Hcb). cbn [snd] in Hans. simpl.
  destruct (Z.eqb_spec r 0) as [->|Hne]; simpl.
  - run_refl. run_refl. simpl. eexists 0, (Some e), _, w1. split; [reflexivity|].
    split; [done|]. split; [done|]. left. split_and!; [done..|exact Hr'].
  - exists r, None, l, w1. split_and!; [done..|]. right. split; [lia|done].
Qed.

Lemma log_poll_loop_spec n l w es first :
  cb_code_ok (cb_log_poll cb) -> ring_rep l es -> (length es < n)%nat ->
  exists r l' w' j, log_poll_loop cb n first (l, w) = Done (r, (l', w')) /\
    rl_base l' = Z.max (rl_base l) (j - 1) /\
    ring_rep l' (drop (Z.to_nat (j - 1 - rl_base l)) es) /\
    (r = 0 /\ j = first \/ r < 0 /\ j <= first) /\ rl_size l' = rl_size l /\
    a_poll_loop first (rl_base l) es w =
      (r, mk_alog (rl_base l') (drop (Z.to_nat (j - 1 - rl_base l)) es), w').
Proof.
  intros Hcb. revert l w es. induction n as [|n IH]; intros l w es Hr Hn; [lia|].
  pose proof (rr_count _ _ Hr) as Hc. simpl. run_refl.
  change (raft_log_get_base (l, w)) with (rl_base l).
  destruct (Z.ltb_spec (rl_base l + 1) first) as [Hlt|Hge].
  2: { exists 0, l, w, first. replace (Z.to_nat (first - 1 - rl_base l)) with 0%nat by lia.
       split_and!; [done|lia|done|auto|done|].
       destruct es; cbn [a_poll_loop]; destruct (Z.ltb_spec (rl_base l + 1) first); (lia || done). }
  destruct es as [|e es].
  { exists (-1), l, w, (rl_base l + 1). rewrite drop_nil. split_and!; [|lia|done|lia|done|].
    - erewrite bind_done_eq; [|unfold raft_log_poll; run_refl; simpl in Hc |- *;
                               rewrite Hc; reflexivity]. done.
    - cbn [a_poll_loop]. destruct (Z.ltb_spec (rl_base l + 1) first); [done|lia]. }
  simpl in Hc, Hn. cbn [a_poll_loop]. destruct (Z.ltb_spec (rl_base l + 1) first); [|lia].
  destruct (raft_log_poll_spec l w e es Hcb Hr)
    as (r & o & l1 & w1 & Hrun & Hans & Hsz & [(-> & -> & Hb1 & Hr1)|[Hneg ->]]);
    run_step Hrun; cbv iota; rewrite Hans.
  - simpl. destruct (IH l1 w1 es Hr1)
      as (r & l' & w' & j & Hrun' & Hb & Hrep & Hcase & Hsz' & Hspec); [lia|].
    exists r, l', w', (Z.max j (rl_base l + 2)).
    replace (Z.to_nat (Z.max j (rl_base l + 2) - 1 - rl_base l))
      with (S (Z.to_nat (j - 1 - rl_base l1))) by lia.
    split_and!; [done|lia|done|lia|by rewrite Hsz'|by rewrite <- Hb1].
  - destruct (Z.ltb_spec r 0); [|lia].
    exists r, l, w1, (rl_base l + 1).
    replace (Z.to_nat (rl_base l + 1 - 1 - rl_base l)) with 0%nat by lia.
    split_and!; [done|lia|done|right; lia|done|].
    by destruct (Z.eqb_spec r 0); [lia|].
Qed.

Lemma log_get_batch_copy_spec n (l : raft_log) (w : W) i es :
  (forall k, (k < n)%nat ->
     exists e, es !! k = Some e /\ zlookup (rl_entries l) (i + Z.of_nat k) = Some (Some e)) ->
  log_get_batch_copy n i (l, w) = Done (take n es, (l, w)).
Proof.
  revert i es. induction n as [|n IH]; intros i es Hk; simpl; [done|].
  destruct (Hk 0%nat) as (e & He & Hslot); [lia|]. rewrite Z.add_0_r in Hslot.
  destruct es as [|e' es]; [done|]. simpl in He. simplify_eq.
  erewrite bind_done_eq; [|apply (read_slot_done _ (l, w)), Hslot]. cbv iota.
  erewrite bind_done_eq; [|apply (IH (i + 1) es)]; [done|].
  intros k Hlt. destruct (Hk (S k)) as (e' & He' & Hslot'); [lia|].
  exists e'. split; [done|]. replace (i + 1 + Z.of_nat k) with (i + Z.of_nat (S k)) by lia.
  done.
Qed.

(** The contiguous run starting at the slot of offset [d] ends at the end of the
    window or at the end of the array. *)
Lemma ring_rep_run l es d :
  ring_rep l es -> 0 <= d < rl_count l ->
  let i := (rl_front l + d) mod rl_size l in
  let n := if i <? rl_back l then rl_back l - i else rl_size l - i in
  0 < n <= rl_count l - d /\
  forall k, (k < Z.to_nat n)%nat ->
    exists e, drop (Z.to_nat d) es !! k = Some e /\
      zlookup (rl_entries l) (i + Z.of_nat k) = Some (Some e).
Proof.
  intros Hr Hd i n. pose proof (rr_size _ _ Hr). pose proof (rr_front _ _ Hr).
  pose proof (rr_fits _ _ Hr). pose proof (rr_count _ _ Hr).
  pose proof (rr_back _ _ Hr) as Hback.
  pose proof (Z.mod_pos_bound (rl_front l + d) (rl_size l)) as Hi. fold i in Hi.
  assert (forall x, 0 <= x < 2 * rl_size l ->
            x mod rl_size l = if x <? rl_size l then x else x - rl_size l) as Hmod.
  { intros x Hx. destruct (Z.ltb_spec x (rl_size l)); [apply Z.mod_small; lia|].
    rewrite <- (Z.mod_small (x - rl_size l) (rl_size l)) by lia.
    rewrite <- (Z_mod_plus_full (x - rl_size l) 1). f_equal. lia. }
  assert (0 < n <= rl_count l - d) as Hn.
  { unfold n, i in *. rewrite Hback. rewrite !Hmod by lia.
    destruct (Z.ltb_spec (rl_front l + d) (rl_size l)),
      (Z.ltb_spec (rl_front l + rl_count l) (rl_size l));
      match goal with |- context [if ?b then _ else _] => destruct b eqn:? end; lia. }
  split; [done|]. intros k Hk.
  destruct (lookup_lt_is_Some_2 es (Z.to_nat d + k)) as [e He]; [lia|].
  exists e. rewrite lookup_drop. split; [done|]. rewrite <- (rr_slots _ _ Hr _ _ He).
  f_equal. replace (rl_front l + Z.of_nat (Z.to_nat d + k))
    with (rl_front l + d + Z.of_nat k) by lia.
  rewrite <- Zplus_mod_idemp_l. fold i. symmetry. apply Z.mod_small.
  unfold n in Hk. destruct (i <? rl_back l) eqn:?; [|lia].
  pose proof (ring_rep_back_bound _ _ Hr). lia.
Qed.

Lemma raft_log_get_from_idx_done l (w : W) idx :
  1 <= idx ->
  raft_log_get_from_idx idx (l, w) = Done
    ((if (rl_base l + rl_count l <? idx) || (idx <=? rl_base l) then None else
      let i := Z.rem (rl_front l + (idx - 1) - rl_base l) (rl_size l) in
      Some (i, if i <? rl_back l then rl_back l - i else rl_size l - i)), (l, w)).
Proof.
  intros Hidx. unfold raft_log_get_from_idx, bind, get_log, gets, c_assert. simpl.
  rewrite (proj2 (Z.leb_le 0 (idx - 1))) by lia. simpl.
  by destruct ((rl_base l + rl_count l <? idx) || (idx <=? rl_base l)).
Qed.

(** A batch is a prefix of the entries from [idx] on, and is not empty when
    there is an entry to fetch. *)
Lemma log_get_batch_spec_ring l w es idx n :
  ring_rep l es -> 1 <= idx -> 0 <= n ->
  exists k, log_get_batch idx n (l, w : W) =
      Done ((k, alog_slice (mk_alog (rl_base l) es) idx k), (l, w)) /\
    0 <= k <= n /\
    (al_base (mk_alog (rl_base l) es) < idx <= alog_last (mk_alog (rl_base l) es) ->
     0 < n -> 0 < k) /\
    k <= Z.of_nat (length (drop (Z.to_nat (idx - rl_base l - 1)) es)).
Proof.
  intros Hr Hidx Hn. pose proof (rr_count _ _ Hr). pose proof (rr_front _ _ Hr).
  unfold log_get_batch. run_step (raft_log_get_from_idx_done l w idx Hidx).
  unfold alog_last. simpl.
  destruct ((rl_base l + rl_count l <? idx) || (idx <=? rl_base l)) eqn:E.
  { exists 0. simpl. unfold ret, alog_slice. simpl. split_and!; [done|lia..]. }
  assert (0 <= idx - 1 - rl_base l < rl_count l) as Hd by lia.
  rewrite rem_mod_nonneg by lia.
  replace (rl_front l + (idx - 1) - rl_base l) with (rl_front l + (idx - 1 - rl_base l)) by lia.
  pose proof (ring_rep_run l es _ Hr Hd) as [Hrun Hk]. cbv zeta in Hrun, Hk.
  set (i := (rl_front l + (idx - 1 - rl_base l)) mod rl_size l) in *.
  set (c := if i <? rl_back l then rl_back l - i else rl_size l - i) in *.
  simpl. destruct (Z.ltb_spec c 1); [lia|].
  set (m := if n <? c then n else c).
  assert (m = Z.min n c) as Hm by (unfold m; destruct (Z.ltb_spec n c); lia).
  exists m. erewrite bind_done_eq.
  2: { apply (log_get_batch_copy_spec _ l w i (drop (Z.to_nat (idx - 1 - rl_base l)) es)).
       intros k Hlt. apply Hk. lia. }
  unfold alog_slice. simpl. replace (idx - rl_base l - 1) with (idx - 1 - rl_base l) by lia.
  split_and!; [done|lia|lia|lia|]. rewrite length_drop. lia.
Qed.

(** Reading leaves the log as it is. *)
Lemma log_get_batch_copy_eq n i : respects eq (@log_get_batch_copy W n i).
Proof.
  revert i. induction n as [|n IH]; intros i; simpl; unfold read_slot, get_log; respects_solve.
Qed.

Lemma log_get_batch_eq idx n (s : @rlog W) a s' :
  log_get_batch idx n s = Done (a, s') -> s = s'.
Proof.
  revert s a s'. change (respects eq (@log_get_batch W idx n)).
  unfold log_get_batch, raft_log_get_from_idx, get_log. respects_solve.
  apply log_get_batch_copy_eq.
Qed.

Definition ring_wf (s : @rlog W) : Prop := exists es, ring_rep (fst s) es.

Definition ring_abs (s : @rlog W) : alog := ring_alog (fst s).

Lemma ring_abs_rep l w es :
  ring_rep l es -> ring_abs (l, w) = mk_alog (rl_base l) es.
Proof. intros Hr. unfold ring_abs, ring_alog. simpl. by rewrite (ring_rep_contents _ _ Hr). Qed.

Context (Hoffer : cb_code_ok (cb_log_offer cb)) (Hpop : cb_code_ok (cb_log_pop cb))
        (Hpoll : cb_code_ok (cb_log_poll cb)).

(** Without a [log_clear] callback, [reset] empties the log. *)
Context (Hclear : cb_log_clear cb = None).

Lemma log_reset_spec_ring l w es first term :
  ring_rep l es -> 1 <= first ->
  exists l', log_reset cb first term (l, w) = Done (tt, (l', w)) /\
    rl_base l' = first - 1 /\ ring_rep l' [] /\ rl_size l' = rl_size l.
Proof.
  intros Hr Hf. eexists. split.
  - unfold log_reset. erewrite bind_done_eq.
    2: { unfold raft_log_clear_entries. run_refl. rewrite Hclear. reflexivity. }
    run_refl. unfold c_assert. rewrite (proj2 (Z.leb_le 1 first)) by lia. run_refl.
    reflexivity.
  - simpl. split; [done|]. pose proof (rr_size _ _ Hr). split; [|done].
    constructor; simpl; try apply Hr; try lia; [|done]. by rewrite Z.mod_small by lia.
Qed.

#[export] Instance ring_log_spec : LogSpec (@rlog W) (H := raft_log_internal_impl cb).
Proof using Hoffer Hpop Hpoll Hclear.
  refine {| log_wf := ring_wf; log_abs := ring_abs |}.
  - intros [l w] [es Hr]. rewrite (ring_abs_rep _ _ _ Hr). apply Hr.
  - intros [l w] [es Hr]. by rewrite (ring_abs_rep _ _ _ Hr).
  - intros [l w] [es Hr]. rewrite (ring_abs_rep _ _ _ Hr). simpl.
    unfold log_current_idx, raft_log_get_current_idx, raft_log_count, alog_last. simpl.
    pose proof (rr_count _ _ Hr). simpl in *. lia.
  - intros [l w] [es Hr]. rewrite (ring_abs_rep _ _ _ Hr). apply Hr.
  - intros [l w] first term [es Hr] Hf.
    destruct (log_reset_spec_ring l w es first term Hr Hf) as (l' & Hrun & Hb & Hr' & _).
    exists (l', w). split_and!; [done|by exists []|].
    by rewrite (ring_abs_rep _ _ _ Hr'), Hb.
  - intros [l w] e [es Hr]. rewrite (ring_abs_rep _ _ _ Hr).
    destruct (raft_log_append_entry_spec l w es e Hoffer Hr)
      as (r & l' & w' & Hrun & Hb & [[-> Hr']|[Hneg Hr']] & _); eexists _, (l', w');
      (split_and!; [done|by eexists|]); rewrite (ring_abs_rep _ _ _ Hr'), Hb; auto.
  - intros [l w] idx [es Hr] _. rewrite (ring_abs_rep _ _ _ Hr).
    destruct (log_delete_spec l w es idx Hpop Hr)
      as (r & l' & w' & j & Hrun & Hb & Hr' & Hcase & _); eexists _, (l', w').
    split_and!; [done|by eexists|]. rewrite (ring_abs_rep _ _ _ Hr'), Hb.
    destruct Hcase as [[-> ->]|[? ?]]; [by left|right; split; [done|exists j; done]].
  - intros [l w] first [es Hr] _. rewrite (ring_abs_rep _ _ _ Hr).
    destruct (log_poll_loop_spec (Z.to_nat (rl_count l) + 1) l w es first Hpoll Hr)
      as (r & l' & w' & j & Hrun & Hb & Hr' & Hcase & _).
    { pose proof (rr_count _ _ Hr). simpl in *. lia. }
    eexists _, (l', w'). split_and!; [done|by eexists|].
    rewrite (ring_abs_rep _ _ _ Hr'), Hb. unfold alog_poll. simpl.
    destruct Hcase as [[-> ->]|[? ?]]; [by left|right; split; [done|exists j; done]].
  - intros [l w] idx [es Hr]. rewrite (ring_abs_rep _ _ _ Hr). exists (l, w).
    split_and!; [apply raft_log_get_at_idx_spec, Hr|by eexists|].
    apply (ring_abs_rep _ _ _ Hr).
  - intros s idx n a s' Hwf Hrun. apply log_get_batch_eq in Hrun. by subst.
  - intros [l w] idx n [es Hr] Hi Hn. rewrite (ring_abs_rep _ _ _ Hr).
    destruct (log_get_batch_spec_ring l w es idx n Hr Hi Hn) as (k & Hrun & Hk & Hprog & Hlen).
    eexists k, _, (l, w). split_and!; [done|lia|done| |].
    + intros _. unfold alog_slice. simpl. rewrite length_take. lia.
    + done.
  - intros [l w] Hw. exists 0, (l, w). split_and!; done.
Defined.

End Correctness.

(** * Sequences of operations *)

Inductive log_op :=
| OpAppend (e : raft_entry)
| OpPop (from_idx : Z)
| OpPoll (first_idx : Z)
| OpReset (first_idx term : Z)
| OpGet (idx : Z)
| OpGetBatch (idx n : Z).

Inductive log_res :=
| ResCode (r : Z)
| ResUnit
| ResEntry (e : option raft_entry)
| ResEntries (n : Z) (es : list raft_entry).

(** The arguments the operations assert on. *)
Definition op_args_ok (op : log_op) : bool :=
  match op with
  | OpReset first _ => 1 <=? first
  | OpGetBatch idx n => (1 <=? idx) && (0 <=? n)
  | _ => true
  end.

Section Sequences.
Context {W : Type} (cb : raft_log_cbs W).

Definition log_exec (op : log_op) : M (@rlog W) log_res :=
  match op with
  | OpAppend e => r <- log_append cb e ;; ret (ResCode r)
  | OpPop i => r <- log_pop cb i ;; ret (ResCode r)
  | OpPoll i => r <- log_poll cb i ;; ret (ResCode r)
  | OpReset f t => log_reset cb f t ;; ret ResUnit
  | OpGet i => r <- log_get i ;; ret (ResEntry r)
  | OpGetBatch i n => let* (k, es) := log_get_batch i n in ret (ResEntries k es)
  end.

Fixpoint log_exec_all (ops : list log_op) : M (@rlog W) (list log_res) :=
  match ops with
  | [] => ret []
  | op :: ops => r <- log_exec op ;; rs <- log_exec_all ops ;; ret (r :: rs)
  end.

(** What an operation does to the abstract log [l], the number [c] of entries
    there is memory for and the state [w] of the callbacks.  Only how many entries
    one [get_batch] hands over is left open: some, when there are any. *)
Inductive alog_exec : alog * Z * W -> log_op -> log_res -> alog * Z * W -> Prop :=
| exec_append l c w e r l' c' w' :
    a_append cb e l c w = (r, l', c', w') -> alog_exec (l, c, w) (OpAppend e) (ResCode r) (l', c', w')
| exec_pop l c w i r l' w' :
    a_pop cb i l w = (r, l', w') -> alog_exec (l, c, w) (OpPop i) (ResCode r) (l', c, w')
| exec_poll l c w i r l' w' :
    a_poll cb i l w = (r, l', w') -> alog_exec (l, c, w) (OpPoll i) (ResCode r) (l', c, w')
| exec_reset l c w f t : alog_exec (l, c, w) (OpReset f t) ResUnit (mk_alog (f - 1) [], c, w)
| exec_get l c w i : alog_exec (l, c, w) (OpGet i) (ResEntry (alog_get l i)) (l, c, w)
| exec_batch l c w i n k :
    0 <= k <= n -> (al_base l < i <= alog_last l -> 0 < n -> 0 < k) ->
    k = Z.of_nat (length (alog_slice l i k)) ->
    alog_exec (l, c, w) (OpGetBatch i n) (ResEntries k (alog_slice l i k)) (l, c, w).

Inductive alog_exec_all : alog * Z * W -> list log_op -> list log_res -> alog * Z * W -> Prop :=
| execs_nil s : alog_exec_all s [] [] s
| execs_cons s1 s2 s3 op ops r rs :
    alog_exec s1 op r s2 -> alog_exec_all s2 ops rs s3 ->
    alog_exec_all s1 (op :: ops) (r :: rs) s3.

Context (Hoffer : cb_code_ok (cb_log_offer cb)) (Hpop : cb_code_ok (cb_log_pop cb))
        (Hpoll : cb_code_ok (cb_log_poll cb)) (Hclear : cb_log_clear cb = None).

Lemma log_exec_spec op l w es :
  op_args_ok op = true -> ring_rep l es ->
  exists r l' w' es', log_exec op (l, w) = Done (r, (l', w')) /\ ring_rep l' es' /\
    alog_exec (mk_alog (rl_base l) es, rl_size l, w) op r (mk_alog (rl_base l') es', rl_size l', w').
Proof using Hoffer Hpop Hpoll Hclear.
  intros Hok Hr. destruct op as [e|i|i|f t|i|i n]; simpl in Hok |- *.
  - destruct (raft_log_append_entry_spec cb l w es e Hoffer Hr)
      as (r & l' & w' & Hrun & Hb & Hcase & Hspec).
    run_step Hrun. eexists _, l', w', _. split; [done|]. rewrite Hb.
    split; [|by apply exec_append]. destruct Hcase as [[-> Hr']|[Hneg Hr']]; [done|].
    by destruct (Z.eqb_spec r 0); [lia|].
  - destruct (log_delete_spec cb l w es i Hpop Hr)
      as (r & l' & w' & j & Hrun & Hb & Hr' & _ & Hsz & Hspec).
    run_step Hrun. eexists _, l', w', _. split_and!; [done..|]. rewrite Hb, Hsz. by apply exec_pop.
  - destruct (log_poll_loop_spec cb (Z.to_nat (rl_count l) + 1) l w es i Hpoll Hr)
      as (r & l' & w' & j & Hrun & Hb & Hr' & _ & Hsz & Hspec).
    { pose proof (rr_count _ _ Hr). simpl in *. lia. }
    erewrite bind_done_eq; [|exact Hrun].
    eexists _, l', w', _. split_and!; [done..|]. rewrite Hsz. by apply exec_poll.
  - destruct (log_reset_spec_ring cb Hclear l w es f t Hr) as (l' & Hrun & Hb & Hr' & Hsz); [lia|].
    run_step Hrun. eexists _, l', w, []. split_and!; [done..|]. rewrite Hb, Hsz. constructor.
  - erewrite bind_done_eq; [|apply raft_log_get_at_idx_spec, Hr].
    eexists _, l, w, es. split_and!; [done..|constructor].
  - destruct (log_get_batch_spec_ring l w es i n Hr) as (k & Hrun & Hk & Hprog & Hlen); [lia..|].
    run_step Hrun. eexists _, l, w, es. split_and!; [done..|]. constructor; [done..|].
    unfold alog_slice. simpl. rewrite length_take. lia.
Qed.

Lemma log_exec_all_spec ops l w es :
  Forall (fun op => op_args_ok op = true) ops -> ring_rep l es ->
  exists rs l' w' es', log_exec_all ops (l, w) = Done (rs, (l', w')) /\ ring_rep l' es' /\
    alog_exec_all (mk_alog (rl_base l) es, rl_size l, w) ops rs (mk_alog (rl_base l') es', rl_size l', w').
Proof using Hoffer Hpop Hpoll Hclear.
  intros Hok. revert l w es. induction Hok as [|op ops Hop Hok IH]; intros l w es Hr; simpl.
  - eexists [], l, w, es. split_and!; [done..|constructor].
  - destruct (log_exec_spec op l w es Hop Hr) as (r & l1 & w1 & es1 & Hrun1 & Hr1 & H1).
    destruct (IH l1 w1 es1 Hr1) as (rs & l2 & w2 & es2 & Hrun2 & Hr2 & H2).
    run_step Hrun1. run_step Hrun2. eexists _, l2, w2, es2.
    split_and!; [done..|]. by econstructor.
Qed.

End Sequences.

(** C7 (refinement). Started empty, the circular buffer of [raft_log.c] run on
    any sequence of [append], [pop], [poll], [reset], [get] and [get_batch]
    calls never aborts and never loops, and answers exactly as the abstract list
    log does, growth and wrap-around included.  The callbacks are called with the
    same entries and indices in the same order and the allocator is asked exactly
    when the memory for [INITIAL_CAPACITY] entries, doubled at every growth, is
    used up; an operation fails only when the allocator or a callback does, with
    the latter's code (or on [pop 0] and on a [poll] past the last entry), and
    what was removed up to there stays removed.  The callbacks answer 0 or a
    negative code, there is no [log_clear] callback, [reset] is told an index of
    at least 1 and [get_batch] an index of at least 1 and a count that is not
    negative, as the code asserts. *)
Theorem raft_log_refines_alog {W} (cb : raft_log_cbs W) (w : W) (ops : list log_op) :
  cb_code_ok (cb_log_offer cb) -> cb_code_ok (cb_log_pop cb) ->
  cb_code_ok (cb_log_poll cb) -> cb_log_clear cb = None ->
  Forall (fun op => op_args_ok op = true) ops ->
  exists rs s', log_exec_all cb ops (raft_log_new, w) = Done (rs, s') /\
    alog_exec_all cb (mk_alog 0 [], INITIAL_CAPACITY, w) ops rs (ring_abs s', rl_size (fst s'), snd s').
Proof.
  intros Ho Hp Hl Hc Hops.
  destruct (log_exec_all_spec cb Ho Hp Hl Hc ops raft_log_new w [] Hops ring_rep_new)
    as (rs & l' & w' & es' & Hrun & Hr & Hexec).
  exists rs, (l', w'). split; [done|]. by rewrite (ring_abs_rep _ _ _ Hr).
Qed.

(** Callbacks that record what they are called with and always succeed. *)
Definition recording_cb : list (option raft_entry * Z) -> option raft_entry -> Z ->
    Z * list (option raft_entry * Z) :=
  fun tr e i => (0, tr ++ [(e, i)]).

Definition recording_cbs : raft_log_cbs (list (option raft_entry * Z)) :=
  mk_log_cbs _ (Some recording_cb) (Some recording_cb) (Some recording_cb) None
             (fun w => (true, w)).

Definition test_entry (t : Z) : raft_entry := mk_entry t t 0 RAFT_LOGTYPE_NORMAL [].

Definition fill_ops : list log_op := (fun t => OpAppend (test_entry (Z.of_nat t))) <$> seq 1 12.

Lemma raft_log_refines_alog_witness :
  exists rs s',
    log_exec_all recording_cbs (fill_ops ++ [OpPoll 4; OpPop 11; OpGetBatch 5 100])
      (raft_log_new, []) = Done (rs, s') /\
    alog_exec_all recording_cbs (mk_alog 0 [], INITIAL_CAPACITY, [])
      (fill_ops ++ [OpPoll 4; OpPop 11; OpGetBatch 5 100]) rs
      (ring_abs s', rl_size (fst s'), snd s').
Proof.
  apply raft_log_refines_alog; [intros g w e i [= <-]; cbv; discriminate .. | reflexivity | ].
  repeat constructor.
Defined.

(** ** [raft_log_clear_entries] *)

Lemma raft_log_clear_entries_loop_spec n l tr d :
  Z.of_nat (length (rl_entries l)) = rl_size l -> 0 < rl_size l -> 0 <= rl_front l -> 0 <= d ->
  raft_log_clear_entries_loop
    (mk_log_cbs _ None None None (Some recording_cb) (fun w => (true, w)))
    n (rl_base l + d) (l, tr) =
  Done (tt, (l, tr ++ ((fun k => (mjoin (zlookup (rl_entries l)
                                   ((rl_front l + d + Z.of_nat k) mod rl_size l)),
                                 rl_base l + d + Z.of_nat k)) <$> seq 0 n))).
Proof.
  intros Hlen Hs Hf. revert d tr. induction n as [|n IH]; intros d tr Hd; simpl.
  - by rewrite app_nil_r.
  - run_refl. simpl.
    replace (rl_front l + (rl_base l + d) - rl_base l) with (rl_front l + d) by lia.
    rewrite rem_mod_nonneg by lia.
    pose proof (Z.mod_pos_bound (rl_front l + d) (rl_size l)).
    destruct (zlookup_lt_is_Some (rl_entries l) ((rl_front l + d) mod rl_size l)) as [e He]; [lia|].
    erewrite bind_done_eq; [|apply (read_slot_done _ (l, tr)), He].
    run_refl. simpl. replace (rl_base l + d + 1) with (rl_base l + (d + 1)) by lia.
    rewrite IH by lia. rewrite !Z.add_0_r, He, <- app_assoc. simpl. do 5 f_equal.
    rewrite <- fmap_S_seq, <- list_fmap_compose. apply list_fmap_ext. intros k x _. simpl.
    f_equal; [do 3 f_equal|]; lia.
Qed.

(** [raft_log_clear_entries] calls [log_clear] on one slot more
    than the log holds: for a log of [n > 0] entries with base [b] it passes
    [n + 1] slots, numbered [b .. b + n], so that every entry is reported one
    index too low and the last call gets the slot behind the newest entry. *)
Theorem raft_log_clear_entries_calls (l : raft_log) (es : list raft_entry) :
  ring_rep l es -> es <> [] ->
  raft_log_clear_entries
    (mk_log_cbs _ None None None (Some recording_cb) (fun w => (true, w))) (l, []) =
  Done (tt, (l,
    ((fun k => (es !! k, rl_base l + Z.of_nat k)) <$> seq 0 (length es)) ++
    [(mjoin (zlookup (rl_entries l) (rl_back l)), rl_base l + Z.of_nat (length es))])).
Proof.
  intros Hr Hne. pose proof (rr_count _ _ Hr) as Hc.
  assert (length es <> 0%nat) by (by destruct es).
  unfold raft_log_clear_entries. run_refl. simpl.
  destruct (Z.eqb_spec (rl_count l) 0); [lia|].
  replace (Z.to_nat (rl_count l + 1)) with (S (length es)) by lia.
  rewrite <- (Z.add_0_r (rl_base l)) at 1.
  rewrite raft_log_clear_entries_loop_spec by (try apply Hr; lia).
  rewrite seq_S, fmap_app, !Z.add_0_r. simpl. do 4 f_equal.
  - apply list_fmap_ext. intros k j [-> Hlt]%lookup_seq. simpl.
    destruct (lookup_lt_is_Some_2 es k) as [x Hx]; [done|].
    by rewrite (rr_slots _ _ Hr k x Hx), Hx.
  - rewrite (rr_back _ _ Hr), Hc. done.
Qed.

Definition one_entry_log : raft_log :=
  mk_raft_log 2 1 0 1 7 [Some (test_entry 3); None].

Lemma one_entry_log_rep : ring_rep one_entry_log [test_entry 3].
Proof.
  constructor; simpl; try lia; try done.
  intros k e Hk. apply list_lookup_singleton_Some in Hk as [-> <-]. reflexivity.
Qed.

Lemma raft_log_clear_entries_calls_witness :
  raft_log_clear_entries
    (mk_log_cbs _ None None None (Some recording_cb) (fun w => (true, w))) (one_entry_log, []) =
  Done (tt, (one_entry_log, [(Some (test_entry 3), 7); (None, 8)])).
Proof.
  exact (raft_log_clear_entries_calls one_entry_log [test_entry 3] one_entry_log_rep
           (fun H => match H with end)).
Defined.
