(* ===== verification/RaftNode.v ===== *)
(** * Peers ([deps/raft/src/raft_node.c])

    A peer record with its replication progress and its flag word. *)

From stdpp Require Import base list numbers tactics.
From S2P Require Import Prelude RaftTypes.

Local Open Scope Z_scope.

Definition RAFT_NODE_VOTED_FOR_ME : Z := Z.shiftl 1 0.
Definition RAFT_NODE_VOTING : Z := Z.shiftl 1 1.
Definition RAFT_NODE_HAS_SUFFICIENT_LOG : Z := Z.shiftl 1 2.
Definition RAFT_NODE_INACTIVE : Z := Z.shiftl 1 3.
Definition RAFT_NODE_VOTING_COMMITTED : Z := Z.shiftl 1 4.
Definition RAFT_NODE_ADDITION_COMMITTED : Z := Z.shiftl 1 5.

(** [struct raft_node]; the user data pointer is kept as a number. *)
Record raft_node := mk_node {
  node_udata : Z;
  node_next_idx : Z;
  node_match_idx : Z;
  node_next_msgid : Z;
  node_match_msgid : Z;
  node_max_seen_msgid : Z;
  node_flags : Z;
  node_id : Z;
  node_snapshot_offset : Z
}.

#[export] Instance eta_node : Eta raft_node :=
  fun r => mk_node (node_udata r) (node_next_idx r) (node_match_idx r) (node_next_msgid r)
                   (node_match_msgid r) (node_max_seen_msgid r) (node_flags r) (node_id r)
                   (node_snapshot_offset r).
#[export] Instance set_node_udata : Setter node_udata := ltac:(solve_setter).
#[export] Instance set_node_next_idx : Setter node_next_idx := ltac:(solve_setter).
#[export] Instance set_node_match_idx : Setter node_match_idx := ltac:(solve_setter).
#[export] Instance set_node_next_msgid : Setter node_next_msgid := ltac:(solve_setter).
#[export] Instance set_node_match_msgid : Setter node_match_msgid := ltac:(solve_setter).
#[export] Instance set_node_max_seen_msgid : Setter node_max_seen_msgid := ltac:(solve_setter).
#[export] Instance set_node_flags : Setter node_flags := ltac:(solve_setter).
#[export] Instance set_node_snapshot_offset : Setter node_snapshot_offset := ltac:(solve_setter).

Definition raft_node_set_next_idx (idx : Z) (n : raft_node) : raft_node :=
  n <| node_next_idx := if idx <? 1 then 1 else idx |>.

Definition raft_node_set_match_idx (idx : Z) (n : raft_node) : raft_node :=
  n <| node_match_idx := idx |>.

Definition raft_node_set_match_msgid (msgid : Z) (n : raft_node) : raft_node :=
  n <| node_match_msgid := msgid |>.

Definition raft_node_set_next_msgid (msgid : Z) (n : raft_node) : raft_node :=
  n <| node_next_msgid := msgid |>.

Definition raft_node_update_max_seen_msg_id (msg_id : Z) (n : raft_node) : raft_node :=
  if node_max_seen_msgid n <? msg_id then n <| node_max_seen_msgid := msg_id |> else n.

Definition raft_node_set_udata (udata : Z) (n : raft_node) : raft_node :=
  n <| node_udata := udata |>.

Definition raft_node_clear_flags (n : raft_node) : raft_node := n <| node_flags := 0 |>.

(** [flags |= mask] and [flags &= ~mask] *)
Definition node_set_flag (mask : Z) (on : bool) (n : raft_node) : raft_node :=
  n <| node_flags := if on then Z.lor (node_flags n) mask
                     else Z.land (node_flags n) (Z.lnot mask) |>.

Definition node_has_flag (mask : Z) (n : raft_node) : bool :=
  negb (Z.land (node_flags n) mask =? 0).

Definition raft_node_set_voted_for_me (vote : bool) (n : raft_node) : raft_node :=
  node_set_flag RAFT_NODE_VOTED_FOR_ME vote n.

Definition raft_node_has_vote_for_me (n : raft_node) : bool :=
  node_has_flag RAFT_NODE_VOTED_FOR_ME n.

Definition raft_node_set_voting (voting : bool) (n : raft_node) : raft_node :=
  node_set_flag RAFT_NODE_VOTING voting n.

Definition raft_node_is_voting (n : raft_node) : bool :=
  node_has_flag RAFT_NODE_VOTING n && negb (node_has_flag RAFT_NODE_INACTIVE n).

Definition raft_node_has_sufficient_logs (n : raft_node) : bool :=
  node_has_flag RAFT_NODE_HAS_SUFFICIENT_LOG n.

Definition raft_node_set_has_sufficient_logs (b : bool) (n : raft_node) : raft_node :=
  node_set_flag RAFT_NODE_HAS_SUFFICIENT_LOG b n.

Definition raft_node_set_active (active : bool) (n : raft_node) : raft_node :=
  node_set_flag RAFT_NODE_INACTIVE (negb active) n.

Definition raft_node_is_active (n : raft_node) : bool :=
  negb (node_has_flag RAFT_NODE_INACTIVE n).

Definition raft_node_set_voting_committed (voting : bool) (n : raft_node) : raft_node :=
  node_set_flag RAFT_NODE_VOTING_COMMITTED voting n.

Definition raft_node_is_voting_committed (n : raft_node) : bool :=
  node_has_flag RAFT_NODE_VOTING_COMMITTED n.

Definition raft_node_set_addition_committed (b : bool) (n : raft_node) : raft_node :=
  node_set_flag RAFT_NODE_ADDITION_COMMITTED b n.

Definition raft_node_is_addition_committed (n : raft_node) : bool :=
  node_has_flag RAFT_NODE_ADDITION_COMMITTED n.

Definition raft_node_set_snapshot_offset (offset : Z) (n : raft_node) : raft_node :=
  n <| node_snapshot_offset := offset |>.

(** [raft_node_new] after a successful allocation. *)
Definition raft_node_new (udata id : Z) (voting : bool) : raft_node :=
  raft_node_set_voting voting (mk_node udata 1 0 0 0 0 0 id 0).

(** ** Flag words *)

(** A mask with exactly bit [k] set. *)
Definition single_bit (mask : Z) (k : Z) : Prop := mask = 2 ^ k /\ 0 <= k.

Lemma single_bit_testbit mask k j :
  single_bit mask k -> 0 <= j -> Z.testbit mask j = bool_decide (j = k).
Proof.
  intros [-> Hk] Hj. destruct (decide (j = k)) as [->|Hne].
  - rewrite bool_decide_true by done. apply Z.pow2_bits_true. lia.
  - rewrite bool_decide_false by done. apply Z.pow2_bits_false. lia.
Qed.

Lemma node_has_flag_testbit mask k n :
  single_bit mask k -> node_has_flag mask n = Z.testbit (node_flags n) k.
Proof.
  intros Hm. unfold node_has_flag.
  assert (Z.land (node_flags n) mask =
          if Z.testbit (node_flags n) k then mask else 0) as ->.
  { apply Z.bits_inj'. intros j Hj. rewrite Z.land_spec.
    rewrite (single_bit_testbit mask k j Hm Hj).
    destruct (decide (j = k)) as [->|Hne].
    - rewrite bool_decide_true, andb_true_r by done.
      destruct (Z.testbit (node_flags n) k); [|by rewrite Z.bits_0].
      by rewrite (single_bit_testbit mask k k Hm Hj), bool_decide_true.
    - rewrite bool_decide_false, andb_false_r by done.
      destruct (Z.testbit (node_flags n) k); [|by rewrite Z.bits_0].
      by rewrite (single_bit_testbit mask k j Hm Hj), bool_decide_false. }
  destruct Hm as [-> Hk]. destruct (Z.testbit (node_flags n) k); simpl; [|done].
  destruct (Z.eqb_spec (2 ^ k) 0) as [E|]; [|done].
  pose proof (Z.pow_pos_nonneg 2 k). lia.
Qed.

Lemma node_set_flag_has_flag m1 k1 m2 k2 b n :
  single_bit m1 k1 -> single_bit m2 k2 ->
  node_has_flag m2 (node_set_flag m1 b n) =
  if decide (k1 = k2) then b else node_has_flag m2 n.
Proof.
  intros H1 H2. rewrite !(node_has_flag_testbit m2 k2) by done.
  unfold node_set_flag. simpl. destruct H2 as [-> Hk2].
  destruct b; [rewrite Z.lor_spec|rewrite Z.land_spec, Z.lnot_spec by done];
    rewrite (single_bit_testbit m1 k1 k2 H1) by done; case_decide; subst;
    rewrite ?bool_decide_true, ?bool_decide_false by done;
    rewrite ?orb_true_r, ?orb_false_r, ?andb_false_r, ?andb_true_r; done.
Qed.

(** The six flags and their masks. *)
Inductive node_flag :=
| FVotedForMe | FVoting | FHasSufficientLog | FInactive | FVotingCommitted | FAdditionCommitted.

#[export] Instance node_flag_eq_dec : EqDecision node_flag.
Proof. solve_decision. Defined.

Definition flag_mask (f : node_flag) : Z :=
  match f with
  | FVotedForMe => RAFT_NODE_VOTED_FOR_ME
  | FVoting => RAFT_NODE_VOTING
  | FHasSufficientLog => RAFT_NODE_HAS_SUFFICIENT_LOG
  | FInactive => RAFT_NODE_INACTIVE
  | FVotingCommitted => RAFT_NODE_VOTING_COMMITTED
  | FAdditionCommitted => RAFT_NODE_ADDITION_COMMITTED
  end.

Definition flag_bit (f : node_flag) : Z :=
  match f with
  | FVotedForMe => 0 | FVoting => 1 | FHasSufficientLog => 2
  | FInactive => 3 | FVotingCommitted => 4 | FAdditionCommitted => 5
  end.

Lemma flag_mask_single f : single_bit (flag_mask f) (flag_bit f).
Proof. destruct f; split; try done; simpl; lia. Qed.

Lemma flag_bit_inj f g : flag_bit f = flag_bit g -> f = g.
Proof. by destruct f, g. Qed.

Lemma flag_set_get f g b n :
  node_has_flag (flag_mask g) (node_set_flag (flag_mask f) b n) =
  if decide (f = g) then b else node_has_flag (flag_mask g) n.
Proof.
  rewrite (node_set_flag_has_flag _ _ _ _ b n (flag_mask_single f) (flag_mask_single g)).
  repeat case_decide; subst; try done. by exfalso; auto using flag_bit_inj.
Qed.

(** The effect of a flag update on what the server asks of a peer. *)
Lemma is_voting_set_flag f b n :
  f <> FVoting -> f <> FInactive ->
  raft_node_is_voting (node_set_flag (flag_mask f) b n) = raft_node_is_voting n.
Proof.
  intros H1 H2. unfold raft_node_is_voting.
  by rewrite (flag_set_get f FVoting), (flag_set_get f FInactive), !decide_False.
Qed.

Lemma is_voting_set_voted_for_me b n :
  raft_node_is_voting (raft_node_set_voted_for_me b n) = raft_node_is_voting n.
Proof. by apply (is_voting_set_flag FVotedForMe). Qed.

Lemma is_voting_set_sufficient_logs b n :
  raft_node_is_voting (raft_node_set_has_sufficient_logs b n) = raft_node_is_voting n.
Proof. by apply (is_voting_set_flag FHasSufficientLog). Qed.

Lemma has_vote_set_voted_for_me b n :
  raft_node_has_vote_for_me (raft_node_set_voted_for_me b n) = b.
Proof. apply (flag_set_get FVotedForMe FVotedForMe). Qed.

Lemma has_vote_set_sufficient_logs b n :
  raft_node_has_vote_for_me (raft_node_set_has_sufficient_logs b n) =
  raft_node_has_vote_for_me n.
Proof. apply (flag_set_get FHasSufficientLog FVotedForMe). Qed.

Lemma is_voting_new udata id voting :
  raft_node_is_voting (raft_node_new udata id voting) = voting.
Proof. by destruct voting. Qed.

Create Rewrite HintDb node.
#[export] Hint Rewrite is_voting_set_voted_for_me is_voting_set_sufficient_logs
  has_vote_set_voted_for_me has_vote_set_sufficient_logs is_voting_new : node.

(** The six flags of a peer are independent: writing one with
    the mask operations of [raft_node.c] and reading any of them back gives the
    written value for that flag and the previous value for the others. *)
Theorem node_flags_independent (f g : node_flag) (b : bool) (n : raft_node) :
  node_has_flag (flag_mask g) (node_set_flag (flag_mask f) b n) =
  if decide (f = g) then b else node_has_flag (flag_mask g) n.
Proof. apply flag_set_get. Qed.
