(* ===== verification/RaftState.v ===== *)
(** * State of the Raft server

    [struct raft_server] ([deps/raft/include/raft_private.h]), the callbacks and
    the environment the library calls, and the accessors of
    [deps/raft/src/raft_server_properties.c].

    A [raft_node_t *] is an address (a number).  [nodes] is the array
    [me->nodes] together with the peers its pointers refer to; a peer is
    allocated when it enters the array and freed when it leaves it, so that
    dereferencing an address that is not in [nodes] is a use of freed memory
    and aborts.  [node_alloc] is the next fresh address. *)

From Stdlib Require Import Strings.String.
From stdpp Require Import base list numbers tactics.
From S2P Require Import Prelude RaftTypes RaftNode.

Local Open Scope Z_scope.

(** ** Statistics ([raft_server_stats_t]) *)
Record raft_server_stats := mk_stats {
  appendentries_req_with_entry : Z;
  snapshots_created : Z;
  snapshots_received : Z;
  exec_throttled : Z;
  appendentries_req_sent : Z;
  appendentries_req_received : Z;
  appendentries_req_failed : Z;
  appendentries_resp_received : Z;
  snapshot_req_sent : Z;
  snapshot_req_received : Z;
  snapshot_req_failed : Z;
  snapshot_resp_received : Z;
  requestvote_prevote_req_sent : Z;
  requestvote_prevote_req_received : Z;
  requestvote_prevote_req_failed : Z;
  requestvote_prevote_req_granted : Z;
  requestvote_prevote_resp_received : Z;
  requestvote_req_sent : Z;
  requestvote_req_received : Z;
  requestvote_req_failed : Z;
  requestvote_req_granted : Z;
  requestvote_resp_received : Z
}.

#[export] Instance eta_stats : Eta raft_server_stats :=
  fun r => mk_stats (appendentries_req_with_entry r) (snapshots_created r)
    (snapshots_received r) (exec_throttled r) (appendentries_req_sent r)
    (appendentries_req_received r) (appendentries_req_failed r)
    (appendentries_resp_received r) (snapshot_req_sent r) (snapshot_req_received r)
    (snapshot_req_failed r) (snapshot_resp_received r) (requestvote_prevote_req_sent r)
    (requestvote_prevote_req_received r) (requestvote_prevote_req_failed r)
    (requestvote_prevote_req_granted r) (requestvote_prevote_resp_received r)
    (requestvote_req_sent r) (requestvote_req_received r) (requestvote_req_failed r)
    (requestvote_req_granted r) (requestvote_resp_received r).
#[export] Instance set_appendentries_req_with_entry : Setter appendentries_req_with_entry := ltac:(solve_setter).
#[export] Instance set_snapshots_created : Setter snapshots_created := ltac:(solve_setter).
#[export] Instance set_snapshots_received : Setter snapshots_received := ltac:(solve_setter).
#[export] Instance set_exec_throttled : Setter exec_throttled := ltac:(solve_setter).
#[export] Instance set_appendentries_req_sent : Setter appendentries_req_sent := ltac:(solve_setter).
#[export] Instance set_appendentries_req_received : Setter appendentries_req_received := ltac:(solve_setter).
#[export] Instance set_appendentries_req_failed : Setter appendentries_req_failed := ltac:(solve_setter).
#[export] Instance set_appendentries_resp_received : Setter appendentries_resp_received := ltac:(solve_setter).
#[export] Instance set_snapshot_req_sent : Setter snapshot_req_sent := ltac:(solve_setter).
#[export] Instance set_snapshot_req_received : Setter snapshot_req_received := ltac:(solve_setter).
#[export] Instance set_snapshot_req_failed : Setter snapshot_req_failed := ltac:(solve_setter).
#[export] Instance set_snapshot_resp_received : Setter snapshot_resp_received := ltac:(solve_setter).
#[export] Instance set_requestvote_prevote_req_sent : Setter requestvote_prevote_req_sent := ltac:(solve_setter).
#[export] Instance set_requestvote_prevote_req_received : Setter requestvote_prevote_req_received := ltac:(solve_setter).
#[export] Instance set_requestvote_prevote_req_failed : Setter requestvote_prevote_req_failed := ltac:(solve_setter).
#[export] Instance set_requestvote_prevote_req_granted : Setter requestvote_prevote_req_granted := ltac:(solve_setter).
#[export] Instance set_requestvote_prevote_resp_received : Setter requestvote_prevote_resp_received := ltac:(solve_setter).
#[export] Instance set_requestvote_req_sent : Setter requestvote_req_sent := ltac:(solve_setter).
#[export] Instance set_requestvote_req_received : Setter requestvote_req_received := ltac:(solve_setter).
#[export] Instance set_requestvote_req_failed : Setter requestvote_req_failed := ltac:(solve_setter).
#[export] Instance set_requestvote_req_granted : Setter requestvote_req_granted := ltac:(solve_setter).
#[export] Instance set_requestvote_resp_received : Setter requestvote_resp_received := ltac:(solve_setter).

(** ** Queued read requests ([raft_read_request_t])

    The callback and its argument are one number, passed to [env_read_cb]. *)
Record raft_read_request := mk_read_request {
  rr_read_idx : Z;
  rr_msg_id : Z;
  rr_cb_arg : Z
}.

(** ** [struct raft_server] *)
Record raft_server (L : Type) := mk_server {
  current_term : Z;
  voted_for : Z;
  srv_log : L;
  commit_idx : Z;
  last_applied_idx : Z;
  last_applied_term : Z;
  srv_state : raft_state;
  timeout_elapsed : Z;
  srv_timestamp : Z;
  exec_deadline : Z;
  pending_operations : Z;
  nodes : list (Z * raft_node);
  quorum_timeout : Z;
  last_acked_msg_id : Z;
  leader_id : Z;
  my_node : option Z;
  node_alloc : Z;
  voting_cfg_change_log_idx : Z;
  snapshot_in_progress : bool;
  snapshot_last_idx : Z;
  snapshot_last_term : Z;
  next_snapshot_last_idx : Z;
  next_snapshot_last_term : Z;
  snapshot_recv_idx : Z;
  snapshot_recv_offset : Z;
  msg_id : Z;
  read_queue : list raft_read_request;
  node_transferring_leader_to : Z;
  transfer_leader_time : Z;
  sent_timeout_now : bool;
  next_sync_index : Z;
  election_timeout_rand : Z;
  election_timeout : Z;
  request_timeout : Z;
  nonblocking_apply : bool;
  auto_flush : bool;
  log_enabled : bool;
  disable_apply : bool;
  stats : raft_server_stats
}.

Arguments current_term {L} _.
Arguments voted_for {L} _.
Arguments srv_log {L} _.
Arguments commit_idx {L} _.
Arguments last_applied_idx {L} _.
Arguments last_applied_term {L} _.
Arguments srv_state {L} _.
Arguments timeout_elapsed {L} _.
Arguments srv_timestamp {L} _.
Arguments exec_deadline {L} _.
Arguments pending_operations {L} _.
Arguments nodes {L} _.
Arguments quorum_timeout {L} _.
Arguments last_acked_msg_id {L} _.
Arguments leader_id {L} _.
Arguments my_node {L} _.
Arguments node_alloc {L} _.
Arguments voting_cfg_change_log_idx {L} _.
Arguments snapshot_in_progress {L} _.
Arguments snapshot_last_idx {L} _.
Arguments snapshot_last_term {L} _.
Arguments next_snapshot_last_idx {L} _.
Arguments next_snapshot_last_term {L} _.
Arguments snapshot_recv_idx {L} _.
Arguments snapshot_recv_offset {L} _.
Arguments msg_id {L} _.
Arguments read_queue {L} _.
Arguments node_transferring_leader_to {L} _.
Arguments transfer_leader_time {L} _.
Arguments sent_timeout_now {L} _.
Arguments next_sync_index {L} _.
Arguments election_timeout_rand {L} _.
Arguments election_timeout {L} _.
Arguments request_timeout {L} _.
Arguments nonblocking_apply {L} _.
Arguments auto_flush {L} _.
Arguments log_enabled {L} _.
Arguments disable_apply {L} _.
Arguments stats {L} _.
Arguments mk_server {L}.

#[export] Instance eta_server L : Eta (raft_server L) :=
  fun r => mk_server (current_term r) (voted_for r) (srv_log r) (commit_idx r)
    (last_applied_idx r) (last_applied_term r) (srv_state r) (timeout_elapsed r)
    (srv_timestamp r) (exec_deadline r) (pending_operations r) (nodes r)
    (quorum_timeout r) (last_acked_msg_id r) (leader_id r) (my_node r) (node_alloc r)
    (voting_cfg_change_log_idx r) (snapshot_in_progress r) (snapshot_last_idx r)
    (snapshot_last_term r) (next_snapshot_last_idx r) (next_snapshot_last_term r)
    (snapshot_recv_idx r) (snapshot_recv_offset r) (msg_id r) (read_queue r)
    (node_transferring_leader_to r) (transfer_leader_time r) (sent_timeout_now r)
    (next_sync_index r) (election_timeout_rand r) (election_timeout r)
    (request_timeout r) (nonblocking_apply r) (auto_flush r) (log_enabled r)
    (disable_apply r) (stats r).
#[export] Instance set_current_term_field L : Setter (@current_term L) := ltac:(solve_setter).
#[export] Instance set_voted_for_field L : Setter (@voted_for L) := ltac:(solve_setter).
#[export] Instance set_srv_log_field L : Setter (@srv_log L) := ltac:(solve_setter).
#[export] Instance set_commit_idx_field L : Setter (@commit_idx L) := ltac:(solve_setter).
#[export] Instance set_last_applied_idx_field L : Setter (@last_applied_idx L) := ltac:(solve_setter).
#[export] Instance set_last_applied_term_field L : Setter (@last_applied_term L) := ltac:(solve_setter).
#[export] Instance set_srv_state_field L : Setter (@srv_state L) := ltac:(solve_setter).
#[export] Instance set_timeout_elapsed_field L : Setter (@timeout_elapsed L) := ltac:(solve_setter).
#[export] Instance set_srv_timestamp_field L : Setter (@srv_timestamp L) := ltac:(solve_setter).
#[export] Instance set_exec_deadline_field L : Setter (@exec_deadline L) := ltac:(solve_setter).
#[export] Instance set_pending_operations_field L : Setter (@pending_operations L) := ltac:(solve_setter).
#[export] Instance set_nodes_field L : Setter (@nodes L) := ltac:(solve_setter).
#[export] Instance set_quorum_timeout_field L : Setter (@quorum_timeout L) := ltac:(solve_setter).
#[export] Instance set_last_acked_msg_id_field L : Setter (@last_acked_msg_id L) := ltac:(solve_setter).
#[export] Instance set_leader_id_field L : Setter (@leader_id L) := ltac:(solve_setter).
#[export] Instance set_my_node_field L : Setter (@my_node L) := ltac:(solve_setter).
#[export] Instance set_node_alloc_field L : Setter (@node_alloc L) := ltac:(solve_setter).
#[export] Instance set_voting_cfg_change_log_idx_field L : Setter (@voting_cfg_change_log_idx L) := ltac:(solve_setter).
#[export] Instance set_snapshot_in_progress_field L : Setter (@snapshot_in_progress L) := ltac:(solve_setter).
#[export] Instance set_snapshot_last_idx_field L : Setter (@snapshot_last_idx L) := ltac:(solve_setter).
#[export] Instance set_snapshot_last_term_field L : Setter (@snapshot_last_term L) := ltac:(solve_setter).
#[export] Instance set_next_snapshot_last_idx_field L : Setter (@next_snapshot_last_idx L) := ltac:(solve_setter).
#[export] Instance set_next_snapshot_last_term_field L : Setter (@next_snapshot_last_term L) := ltac:(solve_setter).
#[export] Instance set_snapshot_recv_idx_field L : Setter (@snapshot_recv_idx L) := ltac:(solve_setter).
#[export] Instance set_snapshot_recv_offset_field L : Setter (@snapshot_recv_offset L) := ltac:(solve_setter).
#[export] Instance set_msg_id_field L : Setter (@msg_id L) := ltac:(solve_setter).
#[export] Instance set_read_queue_field L : Setter (@read_queue L) := ltac:(solve_setter).
#[export] Instance set_node_transferring_leader_to_field L : Setter (@node_transferring_leader_to L) := ltac:(solve_setter).
#[export] Instance set_transfer_leader_time_field L : Setter (@transfer_leader_time L) := ltac:(solve_setter).
#[export] Instance set_sent_timeout_now_field L : Setter (@sent_timeout_now L) := ltac:(solve_setter).
#[export] Instance set_next_sync_index_field L : Setter (@next_sync_index L) := ltac:(solve_setter).
#[export] Instance set_election_timeout_rand_field L : Setter (@election_timeout_rand L) := ltac:(solve_setter).
#[export] Instance set_election_timeout_field L : Setter (@election_timeout L) := ltac:(solve_setter).
#[export] Instance set_request_timeout_field L : Setter (@request_timeout L) := ltac:(solve_setter).
#[export] Instance set_nonblocking_apply_field L : Setter (@nonblocking_apply L) := ltac:(solve_setter).
#[export] Instance set_auto_flush_field L : Setter (@auto_flush L) := ltac:(solve_setter).
#[export] Instance set_log_enabled_field L : Setter (@log_enabled L) := ltac:(solve_setter).
#[export] Instance set_disable_apply_field L : Setter (@disable_apply L) := ltac:(solve_setter).
#[export] Instance set_stats_field L : Setter (@stats L) := ltac:(solve_setter).

(** ** Callbacks and environment

    [raft_cbs_t], a callback the user left out being [None]; [W] is everything
    outside the library that callbacks read and change (network, disk, state
    machine, clock).  Callbacks see the server and do not change it, except
    [load_snapshot], which is documented to call back into the library.  The
    last three fields are not callbacks: [rand()], the answers of the checked
    allocations, and the read-request callback. *)
Record raft_cbs (L W : Type) := mk_cbs {
  cb_send_requestvote :
    option (raft_server L -> W -> raft_node -> raft_requestvote_req -> Z * W);
  cb_send_appendentries :
    option (raft_server L -> W -> raft_node -> raft_appendentries_req -> Z * W);
  cb_send_snapshot :
    option (raft_server L -> W -> raft_node -> raft_snapshot_req -> Z * W);
  cb_send_timeoutnow : option (raft_server L -> W -> raft_node -> Z * W);
  cb_load_snapshot : option (Z -> Z -> M (raft_server L * W) Z);
  cb_get_snapshot_chunk :
    option (raft_server L -> W -> raft_node -> Z -> Z * raft_snapshot_chunk * W);
  cb_store_snapshot_chunk :
    option (raft_server L -> W -> Z -> Z -> raft_snapshot_chunk -> Z * W);
  cb_clear_snapshot : option (raft_server L -> W -> Z * W);
  cb_applylog : option (raft_server L -> W -> raft_entry -> Z -> Z * W);
  cb_persist_metadata : option (raft_server L -> W -> Z -> Z -> Z * W);
  cb_get_node_id : option (raft_server L -> W -> raft_entry -> Z -> Z * W);
  cb_node_has_sufficient_logs : option (raft_server L -> W -> raft_node -> Z * W);
  cb_timestamp : option (raft_server L -> W -> Z * W);
  cb_notify_membership_event :
    option (raft_server L -> W -> raft_node -> option raft_entry -> raft_membership -> unit * W);
  cb_notify_state_event : option (raft_server L -> W -> raft_state -> unit * W);
  cb_notify_transfer_event :
    option (raft_server L -> W -> raft_leader_transfer -> unit * W);
  cb_backpressure : option (raft_server L -> W -> raft_node -> Z * W);
  cb_get_entries_to_send :
    option (raft_server L -> W -> raft_node -> Z -> Z -> Z * list raft_entry * W);
  env_rand : W -> Z * W;
  env_alloc : W -> bool * W;
  env_read_cb : W -> Z -> bool -> unit * W
}.
Arguments cb_send_requestvote {L W}.
Arguments cb_send_appendentries {L W}.
Arguments cb_send_snapshot {L W}.
Arguments cb_send_timeoutnow {L W}.
Arguments cb_load_snapshot {L W}.
Arguments cb_get_snapshot_chunk {L W}.
Arguments cb_store_snapshot_chunk {L W}.
Arguments cb_clear_snapshot {L W}.
Arguments cb_applylog {L W}.
Arguments cb_persist_metadata {L W}.
Arguments cb_get_node_id {L W}.
Arguments cb_node_has_sufficient_logs {L W}.
Arguments cb_timestamp {L W}.
Arguments cb_notify_membership_event {L W}.
Arguments cb_notify_state_event {L W}.
Arguments cb_notify_transfer_event {L W}.
Arguments cb_backpressure {L W}.
Arguments cb_get_entries_to_send {L W}.
Arguments env_rand {L W}.
Arguments env_alloc {L W}.
Arguments env_read_cb {L W}.

(** ** Pointers to peers *)

(** The peer at address [p] of the array, if it is still allocated. *)
Fixpoint lookup_node (p : Z) (ns : list (Z * raft_node)) : option raft_node :=
  match ns with
  | [] => None
  | (q, n) :: ns' => if p =? q then Some n else lookup_node p ns'
  end.

Definition update_node (p : Z) (f : raft_node -> raft_node) (ns : list (Z * raft_node)) :
    list (Z * raft_node) :=
  (fun qn => if p =? fst qn then (fst qn, f (snd qn)) else qn) <$> ns.

Definition node_ptrs (ns : list (Z * raft_node)) : list Z := fst <$> ns.

Section State.
Context {L W : Type} `{LogImpl L}.

(** The server with its surroundings. *)
Definition St : Type := raft_server L * W.

Definition get_me : M St (raft_server L) := gets fst.

Definition upd (f : raft_server L -> raft_server L) : M St unit :=
  modify (fun s => (f (fst s), snd s)).

(** A call out of the library that may change [W]. *)
Definition call_out {A} (f : raft_server L -> W -> A * W) : M St A :=
  fun s => let '(a, w) := f (fst s) (snd s) in Done (a, (fst s, w)).

(** An operation of the log implementation. *)
Definition on_log {A} (m : M L A) : M St A :=
  zoom (fun s => srv_log (fst s)) (fun l s => ((fst s) <| srv_log := l |>, snd s)) m.

(** [*p] for a peer pointer that must not be NULL. *)
Definition deref (p : Z) : M St raft_node :=
  me <- get_me ;;
  match lookup_node p (nodes me) with
  | Some n => ret n
  | None => abort
  end.

Definition deref_opt (p : option Z) : M St raft_node :=
  match p with
  | Some p => deref p
  | None => abort
  end.

(** Apply a setter of [raft_node.c] to [*p]. *)
Definition upd_node (p : Z) (f : raft_node -> raft_node) : M St unit :=
  deref p ;;
  upd (fun me => me <| nodes ::= update_node p f |>).

Definition upd_node_opt (p : option Z) (f : raft_node -> raft_node) : M St unit :=
  match p with
  | Some p => upd_node p f
  | None => abort
  end.

(** [raft_node_get_id]: NULL has the id [RAFT_NODE_ID_NONE]. *)
Definition raft_node_get_id (p : option Z) : M St Z :=
  match p with
  | None => ret RAFT_NODE_ID_NONE
  | Some p => n <- deref p ;; ret (node_id n)
  end.

Definition incr_stat (f : raft_server_stats -> raft_server_stats) : M St unit :=
  upd (fun me => me <| stats ::= f |>).

(** ** Accessors ([raft_server_properties.c]) *)

Definition raft_get_nodeid : M St Z := me <- get_me ;; raft_node_get_id (my_node me).

Definition raft_get_num_nodes (me : raft_server L) : Z := Z.of_nat (length (nodes me)).

Definition raft_get_num_voting_nodes (me : raft_server L) : Z :=
  Z.of_nat (length (List.filter (fun pn => raft_node_is_voting (snd pn)) (nodes me))).

Definition raft_get_current_idx (me : raft_server L) : Z := log_impl_current_idx (srv_log me).

Definition raft_get_log_count (me : raft_server L) : Z := log_impl_count (srv_log me).

Definition raft_set_commit_idx (idx : Z) : M St unit :=
  me <- get_me ;;
  c_assert (commit_idx me <=? idx) ;;
  c_assert (idx <=? raft_get_current_idx me) ;;
  upd (fun me => me <| commit_idx := idx |>).

Definition raft_set_last_applied_idx (idx : Z) : M St unit :=
  upd (fun me => me <| last_applied_idx := idx |>).

Definition raft_set_state (st : raft_state) : M St unit :=
  when (bool_decide (st = RAFT_STATE_LEADER))
    (id <- raft_get_nodeid ;; upd (fun me => me <| leader_id := id |>)) ;;
  upd (fun me => me <| srv_state := st |>).

(** The first peer of the array with this id. *)
Definition raft_get_node (me : raft_server L) (nodeid : Z) : option Z :=
  fst <$> List.find (fun pn => nodeid =? node_id (snd pn)) (nodes me).

Definition raft_get_node_from_idx (me : raft_server L) (idx : Z) : option Z :=
  fst <$> zlookup (nodes me) idx.

Definition raft_get_leader_node (me : raft_server L) : option Z :=
  raft_get_node me (leader_id me).

Definition raft_is_follower (me : raft_server L) : bool :=
  bool_decide (srv_state me = RAFT_STATE_FOLLOWER).

Definition raft_is_leader (me : raft_server L) : bool :=
  bool_decide (srv_state me = RAFT_STATE_LEADER).

Definition raft_is_precandidate (me : raft_server L) : bool :=
  bool_decide (srv_state me = RAFT_STATE_PRECANDIDATE).

Definition raft_is_candidate (me : raft_server L) : bool :=
  bool_decide (srv_state me = RAFT_STATE_CANDIDATE).

Definition raft_get_state_str (me : raft_server L) : string :=
  match srv_state me with
  | RAFT_STATE_FOLLOWER => "follower"%string
  | RAFT_STATE_PRECANDIDATE => "pre-candidate"%string
  | RAFT_STATE_CANDIDATE => "candidate"%string
  | RAFT_STATE_LEADER => "leader"%string
  end.

Definition raft_get_error_str (err : Z) : string :=
  if err =? RAFT_ERR_NOT_LEADER then "not leader"%string
  else if err =? RAFT_ERR_ONE_VOTING_CHANGE_ONLY then "one voting change only"%string
  else if err =? RAFT_ERR_SHUTDOWN then "shutdown"%string
  else if err =? RAFT_ERR_NOMEM then "out of memory"%string
  else if err =? RAFT_ERR_SNAPSHOT_IN_PROGRESS then "snapshot is in progress"%string
  else if err =? RAFT_ERR_SNAPSHOT_ALREADY_LOADED then "snapshot already loaded"%string
  else if err =? RAFT_ERR_INVALID_NODEID then "invalid node id"%string
  else if err =? RAFT_ERR_LEADER_TRANSFER_IN_PROGRESS then "leader transfer is in progress"%string
  else if err =? RAFT_ERR_DONE then "done"%string
  else if err =? RAFT_ERR_NOTFOUND then "not found"%string
  else if err =? RAFT_ERR_MISUSE then "misuse"%string
  else if err =? RAFT_ERR_TRYAGAIN then "try again"%string
  else "unknown error"%string.

Definition raft_get_entry_from_idx (idx : Z) : M St (option raft_entry) :=
  on_log (log_impl_get idx).

Definition raft_get_last_log_term : M St Z :=
  me <- get_me ;;
  let current_idx := raft_get_current_idx me in
  if current_idx =? 0 then ret 0 else
  if current_idx =? snapshot_last_idx me then ret (snapshot_last_term me) else
  ety <- raft_get_entry_from_idx current_idx ;;
  match ety with
  | Some e => ret (ety_term e)
  | None => ret 0
  end.

Definition raft_is_apply_allowed (me : raft_server L) : bool :=
  negb (disable_apply me) && (negb (snapshot_in_progress me) || nonblocking_apply me).

Definition raft_get_last_applied_entry : M St (option raft_entry) :=
  me <- get_me ;;
  if last_applied_idx me =? 0 then ret None else
  raft_get_entry_from_idx (last_applied_idx me).

Definition raft_is_single_node_voting_cluster : M St bool :=
  me <- get_me ;;
  if raft_get_num_voting_nodes me =? 1 then
    n <- deref_opt (my_node me) ;; ret (raft_node_is_voting n)
  else ret false.

End State.

Arguments St : clear implicits.
