(* ===== verification/RaftServer.v ===== *)
(** * The Raft server ([deps/raft/src/raft_server.c])

    Every operation of the library, as a computation on the server and its
    surroundings.  Early returns and [goto]s are nested conditionals; the error
    code is the result.  Debug output ([raft_log]) is left out.  [fuel] bounds
    the two loops whose number of iterations the callbacks decide
    ([raft_send_snapshot] and [raft_send_appendentries]); the bounds of the
    other loops are computed from the state. *)

From stdpp Require Import base list numbers tactics.
From S2P Require Import Prelude RaftTypes RaftNode RaftState.

Local Open Scope Z_scope.

Definition c_min (a b : Z) : Z := if a <? b then a else b.
Definition c_max (a b : Z) : Z := if a <? b then b else a.

Definition LLONG_MAX : Z := 2 ^ 63 - 1.

(** [me->stats.f++] *)
Notation "'stat++' f" := (incr_stat (set_field f (fun x => u64 (x + 1))))
  (at level 10, f at level 9).

Definition raft_entry_is_voting_cfg_change (ety : raft_entry) : bool :=
  (RAFT_LOGTYPE_ADD_NODE =? ety_type ety) || (RAFT_LOGTYPE_REMOVE_NODE =? ety_type ety).

Definition raft_entry_is_cfg_change (ety : raft_entry) : bool :=
  (RAFT_LOGTYPE_ADD_NODE =? ety_type ety) ||
  (RAFT_LOGTYPE_ADD_NONVOTING_NODE =? ety_type ety) ||
  (RAFT_LOGTYPE_REMOVE_NODE =? ety_type ety).

Definition raft_votes_is_majority (num_nodes nvotes : Z) : bool :=
  if num_nodes <? nvotes then false else
  let half := Z.quot num_nodes 2 in
  half + 1 <=? nvotes.

Definition msgid_cmp (va vb : Z) : Z := if vb <? va then -1 else 1.

Definition index_cmp (va vb : Z) : Z := if vb <? va then -1 else 1.

Section Server.
Context {L W : Type} `{LogImpl L} (cb : raft_cbs L W) (fuel : nat).

Abbreviation M := (M (St L W)).

Definition raft_randomize_election_timeout : M unit :=
  random <- call_out (fun _ w => env_rand cb w) ;;
  me <- get_me ;;
  if election_timeout me =? 0 then abort else
  upd (fun me => me <| election_timeout_rand :=
                       election_timeout me + Z.rem random (election_timeout me) |>).

Definition raft_update_quorum_meta (id : Z) : M unit :=
  upd (fun me => me <| quorum_timeout := election_timeout me * 2 |>
                    <| last_acked_msg_id := id |>).

Definition raft_clear_incoming_snapshot (new_idx : Z) : M Z :=
  me <- get_me ;;
  e <- (if negb (snapshot_recv_idx me =? 0) then
          match cb_clear_snapshot cb with
          | Some f => call_out f
          | None => abort
          end
        else ret 0) ;;
  upd (fun me => me <| snapshot_recv_idx := new_idx |> <| snapshot_recv_offset := 0 |>) ;;
  ret e.

(** The zeroed structure [raft_calloc] returns, with the log it will hold. *)
Definition raft_server_zero (log : L) : raft_server L :=
  mk_server 0 0 log 0 0 0 RAFT_STATE_FOLLOWER 0 0 0 0 [] 0 0 0 None 0 0 false 0 0 0 0 0 0 0 []
    0 0 false 0 0 0 0 false false false false
    (mk_stats 0 0 0 0 0 0 0 0 0 0 0 0 0 0 0 0 0 0 0 0 0 0).

(** [raft_new_with_log] after [log_impl->init] returned [log]; run on the zeroed
    structure. *)
Definition raft_new_with_log : M unit :=
  upd (fun me => me <| current_term := 0 |> <| voted_for := RAFT_NODE_ID_NONE |>
                    <| timeout_elapsed := 0 |> <| request_timeout := 200 |>
                    <| election_timeout := 1000 |>
                    <| node_transferring_leader_to := RAFT_NODE_ID_NONE |>
                    <| auto_flush := true |> <| exec_deadline := LLONG_MAX |>
                    <| msg_id := 0 |>) ;;
  me <- get_me ;;
  raft_update_quorum_meta (msg_id me) ;;
  raft_randomize_election_timeout ;;
  upd (fun me => me <| voting_cfg_change_log_idx := -1 |>) ;;
  raft_set_state RAFT_STATE_FOLLOWER ;;
  upd (fun me => me <| leader_id := RAFT_NODE_ID_NONE |> <| snapshot_in_progress := false |>).

Definition raft_restore_metadata (term vote : Z) : M Z :=
  upd (fun me => me <| current_term := term |> <| voted_for := vote |>) ;;
  ret 0.

Definition raft_clear : M unit :=
  upd (fun me => me <| current_term := 0 |> <| voted_for := RAFT_NODE_ID_NONE |>
                    <| timeout_elapsed := 0 |>) ;;
  raft_randomize_election_timeout ;;
  upd (fun me => me <| voting_cfg_change_log_idx := -1 |>) ;;
  raft_set_state RAFT_STATE_FOLLOWER ;;
  upd (fun me => me <| leader_id := RAFT_NODE_ID_NONE |> <| commit_idx := 0 |>
                    <| last_applied_idx := 0 |> <| last_applied_term := 0 |>
                    <| nodes := [] |> <| my_node := None |>) ;;
  on_log (log_impl_reset 1 1).

(** [raft_set_current_term] ([raft_server_properties.c]) *)
Definition raft_set_current_term (term : Z) : M Z :=
  me <- get_me ;;
  if term <=? current_term me then ret 0 else
  e <- match cb_persist_metadata cb with
       | Some f => call_out (fun me w => f me w term RAFT_NODE_ID_NONE)
       | None => ret 0
       end ;;
  if negb (e =? 0) then ret e else
  upd (fun me => me <| current_term := term |> <| voted_for := RAFT_NODE_ID_NONE |>) ;;
  ret 0.

Definition raft_vote_for_nodeid (nodeid : Z) : M Z :=
  me <- get_me ;;
  e <- match cb_persist_metadata cb with
       | Some f => call_out (fun me w => f me w (current_term me) nodeid)
       | None => ret 0
       end ;;
  if negb (e =? 0) then ret e else
  upd (fun me => me <| voted_for := nodeid |>) ;;
  ret 0.

Definition raft_vote (p : option Z) : M Z :=
  id <- raft_node_get_id p ;; raft_vote_for_nodeid id.

(** ** Membership *)

Definition notify_membership (n : raft_node) (ety : option raft_entry)
    (ev : raft_membership) : M unit :=
  match cb_notify_membership_event cb with
  | Some f => call_out (fun me w => f me w n ety ev)
  | None => ret tt
  end.

Definition raft_add_node_internal (ety : option raft_entry) (udata id : Z)
    (is_self voting : bool) : M (option Z) :=
  if id =? RAFT_NODE_ID_NONE then ret None else
  me <- get_me ;;
  match raft_get_node me id with
  | Some p =>
      n <- deref p ;;
      if negb (raft_node_is_voting n) && voting then
        upd_node p (raft_node_set_voting true) ;; ret (Some p)
      else ret None
  | None =>
      ok <- call_out (fun _ w => env_alloc cb w) ;;
      if negb ok then ret None else
      let node := raft_node_new udata id voting in
      ok <- call_out (fun _ w => env_alloc cb w) ;;
      if negb ok then ret None else
      let p := node_alloc me in
      upd (fun me => me <| nodes := nodes me ++ [(p, node)] |> <| node_alloc := p + 1 |>) ;;
      when is_self (upd (fun me => me <| my_node := Some p |>)) ;;
      notify_membership node ety RAFT_MEMBERSHIP_ADD ;;
      ret (Some p)
  end.

Definition raft_add_node (udata id : Z) (is_self : bool) : M (option Z) :=
  raft_add_node_internal None udata id is_self true.

Definition raft_add_non_voting_node (udata id : Z) (is_self : bool) : M (option Z) :=
  raft_add_node_internal None udata id is_self false.

(** [memmove] closes the gap of the first slot that holds [p]. *)
Fixpoint remove_ptr (p : Z) (ns : list (Z * raft_node)) : list (Z * raft_node) :=
  match ns with
  | [] => []
  | (q, n) :: ns' => if p =? q then ns' else (q, n) :: remove_ptr p ns'
  end.

Definition raft_remove_node (p : option Z) : M unit :=
  match p with
  | None => abort
  | Some p =>
      n <- deref p ;;
      notify_membership n None RAFT_MEMBERSHIP_REMOVE ;;
      upd (fun me => me <| nodes ::= remove_ptr p |>) ;;
      me <- get_me ;;
      when (leader_id me =? node_id n)
        (upd (fun me => me <| leader_id := RAFT_NODE_ID_NONE |>))
  end.

Definition call_get_node_id (ety : raft_entry) (idx : Z) (k : Z -> M unit) : M unit :=
  match cb_get_node_id cb with
  | None => ret tt
  | Some f => id <- call_out (fun me w => f me w ety idx) ;; k id
  end.

Definition raft_handle_append_cfg_change (ety : raft_entry) (idx : Z) : M unit :=
  if negb (raft_entry_is_cfg_change ety) then ret tt else
  call_get_node_id ety idx (fun node_id =>
    me <- get_me ;;
    let node := raft_get_node me node_id in
    self <- raft_get_nodeid ;;
    let is_self := node_id =? self in
    if ety_type ety =? RAFT_LOGTYPE_ADD_NODE then
      node <- raft_add_node_internal (Some ety) 0 node_id is_self true ;;
      n <- deref_opt node ;;
      c_assert (raft_node_is_voting n)
    else if ety_type ety =? RAFT_LOGTYPE_ADD_NONVOTING_NODE then
      if is_self then ret tt else
      match node with
      | Some p =>
          n <- deref p ;;
          c_assert (negb (raft_node_is_voting n)) ;;
          when (negb (raft_node_is_active n)) (upd_node p (raft_node_set_active true))
      | None =>
          node <- raft_add_node_internal (Some ety) 0 node_id is_self false ;;
          n <- deref_opt node ;;
          c_assert (negb (raft_node_is_voting n))
      end
    else if ety_type ety =? RAFT_LOGTYPE_REMOVE_NODE then
      match node with
      | Some p => upd_node p (raft_node_set_active false)
      | None => ret tt
      end
    else abort).

Definition raft_handle_remove_cfg_change (ety : raft_entry) (idx : Z) : M unit :=
  if negb (raft_entry_is_cfg_change ety) then ret tt else
  call_get_node_id ety idx (fun node_id =>
    me <- get_me ;;
    let node := raft_get_node me node_id in
    if ety_type ety =? RAFT_LOGTYPE_ADD_NODE then
      upd_node_opt node (raft_node_set_voting false)
    else if ety_type ety =? RAFT_LOGTYPE_ADD_NONVOTING_NODE then
      self <- raft_get_nodeid ;;
      c_assert (negb (node_id =? self)) ;;
      raft_remove_node node
    else if ety_type ety =? RAFT_LOGTYPE_REMOVE_NODE then
      match node with
      | Some p => upd_node p (raft_node_set_active true)
      | None => ret tt
      end
    else abort).

Definition raft_handle_apply_cfg_change (ety : raft_entry) (idx : Z) : M unit :=
  if negb (raft_entry_is_cfg_change ety) then ret tt else
  call_get_node_id ety idx (fun node_id =>
    me <- get_me ;;
    let node := raft_get_node me node_id in
    if ety_type ety =? RAFT_LOGTYPE_ADD_NODE then
      upd_node_opt node (raft_node_set_addition_committed true) ;;
      upd_node_opt node (raft_node_set_voting_committed true) ;;
      upd_node_opt node (raft_node_set_has_sufficient_logs true)
    else if ety_type ety =? RAFT_LOGTYPE_ADD_NONVOTING_NODE then
      upd_node_opt node (raft_node_set_addition_committed true)
    else if ety_type ety =? RAFT_LOGTYPE_REMOVE_NODE then
      match node with
      | Some p => raft_remove_node (Some p)
      | None => ret tt
      end
    else ret tt).

(** ** The log *)

Definition raft_log_sync : M Z := on_log log_impl_sync.

Definition raft_append_entry (ety : raft_entry) : M Z :=
  me <- get_me ;;
  c_assert (ety_term ety <=? current_term me) ;;
  e <- on_log (log_impl_append ety) ;;
  if e <? 0 then ret e else
  when (raft_entry_is_voting_cfg_change ety)
    (upd (fun me => me <| voting_cfg_change_log_idx := raft_get_current_idx me |>)) ;;
  me <- get_me ;;
  when (raft_entry_is_cfg_change ety)
    (raft_handle_append_cfg_change ety (raft_get_current_idx me)) ;;
  ret 0.

(** The loop of [raft_delete_entry_from_idx]: [n] iterations, from [last] down. *)
Fixpoint raft_delete_entry_loop (n : nat) (last : Z) : M Z :=
  match n with
  | O => raft_log_sync
  | S n' =>
      ety <- raft_get_entry_from_idx last ;;
      e <- on_log (log_impl_pop last) ;;
      match ety with
      | None => abort
      | Some ety =>
          if negb (e =? 0) then raft_log_sync ;; ret e else
          raft_handle_remove_cfg_change ety last ;;
          me <- get_me ;;
          when (voting_cfg_change_log_idx me =? last)
            (upd (fun me => me <| voting_cfg_change_log_idx := -1 |>)) ;;
          raft_delete_entry_loop n' (last - 1)
      end
  end.

Definition raft_delete_entry_from_idx (idx : Z) : M Z :=
  me <- get_me ;;
  c_assert (commit_idx me <? idx) ;;
  if log_impl_count (srv_log me) =? 0 then ret 0 else
  let first := log_impl_first_idx (srv_log me) in
  let last := log_impl_current_idx (srv_log me) in
  if (idx <? first) || (last <? idx) then ret 0 else
  raft_delete_entry_loop (Z.to_nat (last - idx + 1)) last.

Definition raft_get_entries_from_idx (idx : Z) : M (list raft_entry) :=
  me <- get_me ;;
  if raft_get_current_idx me <? idx then ret [] else
  let size := raft_get_current_idx me - idx + 1 in
  let* (n, e) := on_log (log_impl_get_batch idx size) in
  if n <? 1 then ret [] else ret (take (Z.to_nat n) e).

Definition max_entries_in_append_req : Z := 64 * 1024.

Definition raft_get_entries (p idx : Z) : M (list raft_entry) :=
  match cb_get_entries_to_send cb with
  | None => raft_get_entries_from_idx idx
  | Some f =>
      me <- get_me ;;
      if raft_get_current_idx me <? idx then ret [] else
      let size := raft_get_current_idx me - idx + 1 in
      let size := if max_entries_in_append_req <? size then max_entries_in_append_req else size in
      node <- deref p ;;
      let* (n, e) := call_out (fun me w => f me w node idx size) in
      let n := if n <? 0 then 0 else n in
      ret (take (Z.to_nat n) e)
  end.

Definition raft_get_previous_log_term (idx : Z) : M Z :=
  c_assert (0 <? idx) ;;
  ety <- raft_get_entry_from_idx (idx - 1) ;;
  match ety with
  | None => gets (fun s => snapshot_last_term (fst s))
  | Some e => ret (ety_term e)
  end.

(** ** Sending *)

Definition raft_send_requestvote (p : Z) : M Z :=
  me <- get_me ;;
  c_assert (negb (bool_decide (my_node me = Some p))) ;;
  last_log_term <- raft_get_last_log_term ;;
  candidate_id <- raft_get_nodeid ;;
  me <- get_me ;;
  let pre := raft_is_precandidate me in
  let req := mk_rv_req pre (if pre then current_term me + 1 else current_term me)
               candidate_id (raft_get_current_idx me) last_log_term in
  match cb_send_requestvote cb with
  | None => ret 0
  | Some f =>
      (if pre then stat++ requestvote_prevote_req_sent else stat++ requestvote_req_sent) ;;
      node <- deref p ;;
      call_out (fun me w => f me w node req)
  end.

(** The loop of [raft_send_snapshot]; [send] and [get_chunk] are the callbacks. *)
Fixpoint raft_send_snapshot_loop (n : nat)
    (send : raft_server L -> W -> raft_node -> raft_snapshot_req -> Z * W)
    (p : Z) : M Z :=
  match n with
  | O => out_of_fuel
  | S n' =>
      node <- deref p ;;
      let offset := node_snapshot_offset node in
      leader <- raft_get_nodeid ;;
      upd (fun me => me <| msg_id := u64 (msg_id me + 1) |>) ;;
      me <- get_me ;;
      match cb_get_snapshot_chunk cb with
      | None => abort
      | Some get_chunk =>
          let* (e, chunk) := call_out (fun me w => get_chunk me w node offset) in
          if negb (e =? 0) then ret (if negb (e =? RAFT_ERR_DONE) then e else 0) else
          let req := mk_snap_req (current_term me) leader (msg_id me) (snapshot_last_idx me)
                       (snapshot_last_term me) chunk in
          stat++ snapshot_req_sent ;;
          e <- call_out (fun me w => send me w node req) ;;
          if negb (e =? 0) then ret e else
          if chunk_last chunk then
            upd_node p (raft_node_set_snapshot_offset 0) ;;
            upd_node p (raft_node_set_next_idx (snapshot_last_idx me + 1)) ;;
            ret 0
          else
            upd_node p (raft_node_set_snapshot_offset (u64 (offset + chunk_len chunk))) ;;
            raft_send_snapshot_loop n' send p
      end
  end.

Definition raft_send_snapshot (p : Z) : M Z :=
  match cb_send_snapshot cb with
  | None => ret 0
  | Some send => raft_send_snapshot_loop fuel send p
  end.

(** The do-while loop of [raft_send_appendentries]. *)
Fixpoint raft_send_appendentries_loop (n : nat)
    (send : raft_server L -> W -> raft_node -> raft_appendentries_req -> Z * W)
    (p : Z) : M Z :=
  match n with
  | O => out_of_fuel
  | S n' =>
      node <- deref p ;;
      bp <- match cb_backpressure cb with
            | Some f => call_out (fun me w => f me w node)
            | None => ret 0
            end ;;
      if negb (bp =? 0) then ret 0 else
      let next_idx := node_next_idx node in
      leader <- raft_get_nodeid ;;
      upd (fun me => me <| msg_id := u64 (msg_id me + 1) |>) ;;
      prev_log_term <- raft_get_previous_log_term next_idx ;;
      entries <- raft_get_entries p next_idx ;;
      me <- get_me ;;
      let req := mk_ae_req leader (msg_id me) (current_term me) (next_idx - 1) prev_log_term
                   (commit_idx me) entries in
      stat++ appendentries_req_sent ;;
      e <- call_out (fun me w => send me w node req) ;;
      upd_node p (raft_node_set_next_idx (next_idx + Z.of_nat (length entries))) ;;
      upd_node p (raft_node_set_next_msgid (u64 (msg_id me + 1))) ;;
      if negb (e =? 0) then ret e else
      node <- deref p ;;
      me <- get_me ;;
      if node_next_idx node <=? raft_get_current_idx me
      then raft_send_appendentries_loop n' send p
      else ret 0
  end.

Definition raft_send_appendentries (p : Z) : M Z :=
  me <- get_me ;;
  c_assert (negb (bool_decide (my_node me = Some p))) ;;
  node <- deref p ;;
  c_assert (negb (node_next_idx node =? 0)) ;;
  if negb (raft_node_is_active node) then ret 0 else
  if node_next_idx node <=? snapshot_last_idx me then raft_send_snapshot p else
  match cb_send_appendentries cb with
  | None => ret (-1)
  | Some send => raft_send_appendentries_loop fuel send p
  end.

(** [for (i ...) if (me->node != me->nodes[i]) f(me->nodes[i]);] *)
Definition for_peers (f : Z -> M unit) : M unit :=
  me <- get_me ;;
  for_each (node_ptrs (nodes me)) (fun p =>
    me <- get_me ;;
    if bool_decide (my_node me = Some p) then ret tt else f p).

(** The error [raft_send_appendentries_all] returns is the last one seen; its
    only caller ignores it. *)
Fixpoint raft_send_appendentries_all_loop (ps : list Z) (r : Z) : M Z :=
  match ps with
  | [] => ret r
  | p :: ps' =>
      me <- get_me ;;
      if bool_decide (my_node me = Some p) then raft_send_appendentries_all_loop ps' r else
      e <- raft_send_appendentries p ;;
      raft_send_appendentries_all_loop ps' (if negb (e =? 0) then e else r)
  end.

Definition raft_send_appendentries_all : M Z :=
  me <- get_me ;; raft_send_appendentries_all_loop (node_ptrs (nodes me)) 0.

(** ** Leadership transfer *)

Definition raft_reset_transfer_leader (timed_out : bool) : M unit :=
  me <- get_me ;;
  if node_transferring_leader_to me =? RAFT_NODE_ID_NONE then ret tt else
  let result :=
    if timed_out then RAFT_LEADER_TRANSFER_TIMEOUT
    else if node_transferring_leader_to me =? leader_id me
         then RAFT_LEADER_TRANSFER_EXPECTED_LEADER
         else RAFT_LEADER_TRANSFER_UNEXPECTED_LEADER in
  match cb_notify_transfer_event cb with
  | Some f => call_out (fun me w => f me w result)
  | None => ret tt
  end ;;
  upd (fun me => me <| node_transferring_leader_to := RAFT_NODE_ID_NONE |>
                    <| transfer_leader_time := 0 |> <| sent_timeout_now := false |>).

(** ** State changes *)

Definition notify_state (st : raft_state) : M unit :=
  match cb_notify_state_event cb with
  | Some f => call_out (fun me w => f me w st)
  | None => ret tt
  end.

Definition raft_become_follower : M unit :=
  raft_set_state RAFT_STATE_FOLLOWER ;;
  raft_randomize_election_timeout ;;
  raft_clear_incoming_snapshot 0 ;;
  upd (fun me => me <| timeout_elapsed := 0 |> <| leader_id := RAFT_NODE_ID_NONE |>) ;;
  notify_state RAFT_STATE_FOLLOWER.

Definition raft_accept_leader (leader : Z) : M unit :=
  me <- get_me ;;
  when (negb (raft_is_follower me)) raft_become_follower ;;
  me <- get_me ;;
  when (negb (leader_id me =? leader)) (raft_clear_incoming_snapshot 0 ;; ret tt) ;;
  upd (fun me => me <| timeout_elapsed := 0 |> <| leader_id := leader |>) ;;
  raft_reset_transfer_leader false.

(** [raft_entry_new(0)] with term and type set. *)
Definition raft_noop_entry (id term : Z) : raft_entry :=
  mk_entry term id 0 RAFT_LOGTYPE_NO_OP [].

Definition raft_become_leader : M Z :=
  id <- call_out (fun _ w => env_rand cb w) ;;
  me <- get_me ;;
  e <- raft_append_entry (raft_noop_entry id (current_term me)) ;;
  if negb (e =? 0) then ret e else
  e <- raft_log_sync ;;
  if negb (e =? 0) then ret e else
  me <- get_me ;;
  let current_idx := raft_get_current_idx me in
  upd_node_opt (my_node me) (raft_node_set_match_idx current_idx) ;;
  upd (fun me => me <| next_sync_index := current_idx + 1 |>) ;;
  single <- raft_is_single_node_voting_cluster ;;
  when single (raft_set_commit_idx current_idx) ;;
  raft_set_state RAFT_STATE_LEADER ;;
  me <- get_me ;;
  raft_update_quorum_meta (msg_id me) ;;
  raft_clear_incoming_snapshot 0 ;;
  raft_reset_transfer_leader false ;;
  upd (fun me => me <| timeout_elapsed := 0 |>) ;;
  for_peers (fun p =>
    upd_node p (raft_node_set_snapshot_offset 0) ;;
    upd_node p (raft_node_set_next_idx current_idx) ;;
    upd_node p (raft_node_set_match_idx 0) ;;
    raft_send_appendentries p ;;
    ret tt) ;;
  notify_state RAFT_STATE_LEADER ;;
  ret 0.

(** [for (i ...) raft_node_set_voted_for_me(me->nodes[i], 0);] *)
Definition clear_votes : M unit :=
  me <- get_me ;;
  for_each (node_ptrs (nodes me)) (fun p => upd_node p (raft_node_set_voted_for_me false)).

(** The loop that asks every other voting node for its vote. *)
Definition request_votes : M unit :=
  for_peers (fun p =>
    n <- deref p ;;
    when (raft_node_is_voting n) (raft_send_requestvote p ;; ret tt)).

Definition raft_become_precandidate : M Z :=
  clear_votes ;;
  raft_set_state RAFT_STATE_PRECANDIDATE ;;
  request_votes ;;
  notify_state RAFT_STATE_PRECANDIDATE ;;
  ret 0.

Definition raft_become_candidate : M Z :=
  me <- get_me ;;
  e <- raft_set_current_term (current_term me + 1) ;;
  if negb (e =? 0) then ret e else
  clear_votes ;;
  me <- get_me ;;
  n <- deref_opt (my_node me) ;;
  e <- (if raft_node_is_voting n then raft_vote (my_node me) else ret 0) ;;
  if negb (e =? 0) then ret e else
  upd (fun me => me <| leader_id := RAFT_NODE_ID_NONE |>) ;;
  raft_set_state RAFT_STATE_CANDIDATE ;;
  request_votes ;;
  notify_state RAFT_STATE_CANDIDATE ;;
  ret 0.

Definition raft_election_start (skip_precandidate : bool) : M Z :=
  upd (fun me => me <| leader_id := RAFT_NODE_ID_NONE |> <| timeout_elapsed := 0 |>) ;;
  raft_randomize_election_timeout ;;
  if skip_precandidate then raft_become_candidate else raft_become_precandidate.

Definition raft_timeout_now : M Z :=
  me <- get_me ;;
  if raft_is_leader me then ret 0 else raft_election_start true.

(** ** Quorums *)

(** The acknowledged message ids of the voting nodes, in array order. *)
Definition voter_msg_ids (me : raft_server L) : list Z :=
  (fun pn => if bool_decide (my_node me = Some (fst pn)) then msg_id me
             else node_match_msgid (snd pn)) <$>
  List.filter (fun pn => raft_node_is_voting (snd pn)) (nodes me).

Definition quorum_msg_id : M Z :=
  me <- get_me ;;
  let msg_ids := voter_msg_ids me in
  let num_voters := Z.of_nat (length msg_ids) in
  c_assert (num_voters =? raft_get_num_voting_nodes me) ;;
  match zlookup (qsort msgid_cmp msg_ids) (Z.quot num_voters 2) with
  | Some id => ret id
  | None => abort
  end.

(** The match indexes of the voting nodes, in array order. *)
Definition voter_indexes (me : raft_server L) : list Z :=
  (fun pn => node_match_idx (snd pn)) <$>
  List.filter (fun pn => raft_node_is_voting (snd pn)) (nodes me).

Definition raft_update_commit_idx : M unit :=
  me <- get_me ;;
  let voters := voter_indexes me in
  let num_voters := Z.of_nat (length voters) in
  let indexes := qsort index_cmp voters ++ replicate (length (nodes me) - length voters) 0 in
  match zlookup indexes (Z.quot num_voters 2) with
  | None => abort
  | Some commit =>
      if commit <=? commit_idx me then ret tt else
      ety <- raft_get_entry_from_idx commit ;;
      match ety with
      | None => abort
      | Some e => when (ety_term e =? current_term me) (raft_set_commit_idx commit)
      end
  end.

Definition raft_get_nvotes_for_me : M Z :=
  me <- get_me ;;
  let votes := Z.of_nat (length (List.filter (fun pn =>
    negb (bool_decide (my_node me = Some (fst pn))) &&
    raft_node_is_voting (snd pn) && raft_node_has_vote_for_me (snd pn)) (nodes me))) in
  n <- deref_opt (my_node me) ;;
  ret (if raft_node_is_voting n then votes + 1 else votes).

(** ** Applying entries and serving reads *)

Definition raft_time_millis : M Z :=
  match cb_timestamp cb with
  | Some f => t <- call_out f ;; ret (Z.quot t 1000)
  | None => ret 0
  end.

Definition raft_set_pending : M unit :=
  stat++ exec_throttled ;;
  upd (fun me => me <| pending_operations := 1 |>).

Definition raft_unset_pending : M unit :=
  upd (fun me => me <| pending_operations := 0 |>).

Definition raft_apply_entry : M Z :=
  me <- get_me ;;
  if negb (raft_is_apply_allowed me) then ret (-1) else
  if last_applied_idx me =? commit_idx me then ret (-1) else
  let idx := last_applied_idx me + 1 in
  ety <- raft_get_entry_from_idx idx ;;
  match ety with
  | None => ret (-1)
  | Some ety =>
      e <- match cb_applylog cb with
           | Some f =>
               e <- call_out (fun me w => f me w ety idx) ;;
               c_assert ((e =? 0) || (e =? RAFT_ERR_SHUTDOWN)) ;;
               ret e
           | None => ret 0
           end ;;
      if e =? RAFT_ERR_SHUTDOWN then ret RAFT_ERR_SHUTDOWN else
      upd (fun me => me <| last_applied_idx := idx |> <| last_applied_term := ety_term ety |>) ;;
      me <- get_me ;;
      when (idx =? voting_cfg_change_log_idx me)
        (upd (fun me => me <| voting_cfg_change_log_idx := -1 |>)) ;;
      when (raft_entry_is_cfg_change ety) (raft_handle_apply_cfg_change ety idx) ;;
      ret 0
  end.

(** The loop of [raft_apply_all]: an iteration applies one entry or returns. *)
Fixpoint raft_apply_all_loop (n : nat) : M Z :=
  me <- get_me ;;
  if last_applied_idx me <? commit_idx me then
    match n with
    | O => out_of_fuel
    | S n' =>
        now <- raft_time_millis ;;
        if exec_deadline me <? now then raft_set_pending ;; ret 0 else
        e <- raft_apply_entry ;;
        if negb (e =? 0) then ret e else raft_apply_all_loop n'
    end
  else ret 0.

Definition raft_apply_all : M Z :=
  me <- get_me ;;
  if negb (raft_is_apply_allowed me) then ret 0 else
  raft_apply_all_loop (Z.to_nat (commit_idx me - last_applied_idx me)).

Definition pop_read_queue (can_read : bool) : M unit :=
  me <- get_me ;;
  match read_queue me with
  | [] => abort
  | p :: q =>
      call_out (fun _ w => env_read_cb cb w (rr_cb_arg p) can_read) ;;
      upd (fun me => me <| read_queue := q |>)
  end.

Fixpoint read_queue_drop (n : nat) : M unit :=
  match n with
  | O => ret tt
  | S n' => pop_read_queue false ;; read_queue_drop n'
  end.

Fixpoint read_queue_serve (n : nat) (last_acked_msgid : Z) : M unit :=
  match n with
  | O => ret tt
  | S n' =>
      me <- get_me ;;
      match read_queue me with
      | [] => ret tt
      | r :: _ =>
          if (rr_msg_id r <=? last_acked_msgid) && (rr_read_idx r <=? last_applied_idx me) then
            now <- raft_time_millis ;;
            if exec_deadline me <? now then raft_set_pending else
            pop_read_queue true ;;
            read_queue_serve n' last_acked_msgid
          else ret tt
      end
  end.

Definition raft_process_read_queue : M unit :=
  me <- get_me ;;
  match read_queue me with
  | [] => ret tt
  | _ :: _ =>
      if negb (raft_is_leader me) then read_queue_drop (length (read_queue me)) else
      if last_applied_term me <? current_term me then ret tt else
      last_acked_msgid <- quorum_msg_id ;;
      read_queue_serve (length (read_queue me)) last_acked_msgid
  end.

Definition raft_exec_operations : M Z :=
  now <- raft_time_millis ;;
  upd (fun me => me <| exec_deadline := now + Z.quot (request_timeout me) 2 |>) ;;
  raft_unset_pending ;;
  e <- raft_apply_all ;;
  when (e =? 0) raft_process_read_queue ;;
  upd (fun me => me <| exec_deadline := LLONG_MAX |>) ;;
  ret e.

Definition raft_flush (sync_index : Z) : M Z :=
  me <- get_me ;;
  when (raft_is_leader me)
    (n <- deref_opt (my_node me) ;;
     when (node_match_idx n <? sync_index)
       (upd_node_opt (my_node me) (raft_node_set_match_idx sync_index)) ;;
     raft_update_commit_idx ;;
     me <- get_me ;;
     let last_ := match list.last (read_queue me) with Some r => rr_msg_id r | None => 0 end in
     for_peers (fun p =>
       n <- deref p ;;
       me <- get_me ;;
       if (last_ <? node_next_msgid n) && (raft_get_current_idx me <? node_next_idx n)
       then ret tt
       else raft_send_appendentries p ;; ret tt)) ;;
  raft_exec_operations.

Definition raft_get_index_to_sync : M Z :=
  me <- get_me ;;
  let idx := raft_get_current_idx me in
  if negb (raft_is_leader me) || (idx <? next_sync_index me) then ret 0 else
  upd (fun me => me <| next_sync_index := idx + 1 |>) ;;
  ret idx.

(** ** Timers *)

Definition raft_voting_change_is_in_progress (me : raft_server L) : bool :=
  negb (voting_cfg_change_log_idx me =? -1).

Definition raft_periodic_internal (msec : Z) : M Z :=
  msec <- (if msec <? 0 then
             timestamp <- raft_time_millis ;;
             me <- get_me ;;
             c_assert (srv_timestamp me <=? timestamp) ;;
             upd (fun me => me <| srv_timestamp := timestamp |>) ;;
             ret (if srv_timestamp me =? 0 then 0 else timestamp - srv_timestamp me)
           else ret msec) ;;
  upd (fun me => me <| timeout_elapsed := timeout_elapsed me + msec |>) ;;
  single <- raft_is_single_node_voting_cluster ;;
  me <- get_me ;;
  e <- (if single && negb (raft_is_leader me) then
          e <- raft_set_current_term (current_term me + 1) ;;
          if negb (e =? 0) then ret e else raft_become_leader
        else ret 0) ;;
  if negb (e =? 0) then ret e else
  me <- get_me ;;
  when (negb (node_transferring_leader_to me =? RAFT_NODE_ID_NONE))
    (upd (fun me => me <| transfer_leader_time := transfer_leader_time me - msec |>) ;;
     me <- get_me ;;
     when (transfer_leader_time me <? 0) (raft_reset_transfer_leader true)) ;;
  me <- get_me ;;
  e <- (if raft_is_leader me then
          when (request_timeout me <=? timeout_elapsed me)
            (upd (fun me => me <| msg_id := u64 (msg_id me + 1) |> <| timeout_elapsed := 0 |>) ;;
             raft_send_appendentries_all ;; ret tt) ;;
          upd (fun me => me <| quorum_timeout := quorum_timeout me - msec |>) ;;
          me <- get_me ;;
          when (quorum_timeout me <? 0)
            (quorum_id <- quorum_msg_id ;;
             when (last_acked_msg_id me =? quorum_id) raft_become_follower ;;
             raft_update_quorum_meta quorum_id) ;;
          ret 0
        else if election_timeout_rand me <=? timeout_elapsed me then raft_election_start false
        else ret 0) ;;
  if negb (e =? 0) then ret e else
  me <- get_me ;;
  if auto_flush me then raft_exec_operations else ret 0.

Definition raft_periodic : M Z := raft_periodic_internal (-1).

(** ** AppendEntries *)

Definition raft_recv_appendentries_response (p : option Z) (resp : raft_appendentries_resp) : M Z :=
  stat++ appendentries_resp_received ;;
  when (negb (aer_success resp)) (stat++ appendentries_req_failed) ;;
  me <- get_me ;;
  match p with
  | None => ret 0
  | Some p =>
      if negb (raft_is_leader me) then ret 0 else
      node <- deref p ;;
      if (aer_msg_id resp <? node_match_msgid node) || (aer_term resp <? current_term me)
      then ret 0 else
      if current_term me <? aer_term resp then
        e <- raft_set_current_term (aer_term resp) ;;
        if negb (e =? 0) then ret e else
        raft_become_follower ;; ret 0
      else
      if negb (aer_success resp) then
        if aer_current_idx resp <? node_match_idx node then ret 0 else
        let current_idx := raft_get_current_idx me in
        let next := c_min (aer_current_idx resp + 1) current_idx in
        c_assert (0 <? next) ;;
        upd_node p (raft_node_set_next_idx next) ;;
        raft_send_appendentries p ;;
        ret 0
      else
      when (negb (sent_timeout_now me) &&
            (node_transferring_leader_to me =? node_id node) &&
            (raft_get_current_idx me =? aer_current_idx resp))
        (match cb_send_timeoutnow cb with
         | None => abort
         | Some f => call_out (fun me w => f me w node)
         end ;;
         upd (fun me => me <| sent_timeout_now := true |>)) ;;
      when (negb (raft_node_is_voting node) &&
            negb (raft_voting_change_is_in_progress me) &&
            (raft_get_current_idx me <=? aer_current_idx resp + 1) &&
            negb (raft_node_is_voting_committed node) &&
            raft_node_is_addition_committed node &&
            negb (raft_node_has_sufficient_logs node))
        (match cb_node_has_sufficient_logs cb with
         | None => ret tt
         | Some f =>
             e <- call_out (fun me w => f me w node) ;;
             when (e =? 0) (upd_node p (raft_node_set_has_sufficient_logs true))
         end) ;;
      when (node_match_idx node <? aer_current_idx resp)
        (upd_node p (raft_node_set_match_idx (aer_current_idx resp))) ;;
      c_assert (aer_current_idx resp <=? raft_get_current_idx me) ;;
      when (node_match_msgid node <? aer_msg_id resp)
        (upd_node p (raft_node_set_match_msgid (aer_msg_id resp))) ;;
      me <- get_me ;;
      c_assert (aer_msg_id resp <=? msg_id me) ;;
      if auto_flush me then raft_flush 0 else ret 0
  end.

(** The first loop of [raft_recv_appendentries]: skip the entries the log
    already has, delete from the first conflict.  Returns the error code, the
    entries left to append and [resp->current_idx]. *)
Fixpoint ae_scan (entries : list raft_entry) (ety_index cur : Z) :
    M (Z * list raft_entry * Z) :=
  match entries with
  | [] => ret (0, [], cur)
  | ety :: rest =>
      existing <- raft_get_entry_from_idx ety_index ;;
      match existing with
      | None => ret (0, entries, cur)
      | Some ex =>
          if negb (ety_term ety =? ety_term ex) then
            me <- get_me ;;
            if ety_index <=? commit_idx me then ret (RAFT_ERR_SHUTDOWN, entries, cur) else
            e <- raft_delete_entry_from_idx ety_index ;;
            ret (e, entries, cur)
          else ae_scan rest (ety_index + 1) ety_index
      end
  end.

(** The second loop: append the rest, from index [idx]. *)
Fixpoint ae_append (entries : list raft_entry) (idx cur : Z) : M (Z * Z) :=
  match entries with
  | [] => ret (0, cur)
  | ety :: rest =>
      e <- raft_append_entry ety ;;
      if negb (e =? 0) then ret (e, cur) else
      ae_append rest (idx + 1) idx
  end.

(** The part of [raft_recv_appendentries] after the consistency check. *)
Definition ae_accept (req : raft_appendentries_req) : M (Z * bool * Z) :=
  me <- get_me ;;
  when (msg_id me <? ae_msg_id req) (upd (fun me => me <| msg_id := ae_msg_id req |>)) ;;
  let n := length (ae_entries req) in
  let* (e, rest, cur) := ae_scan (ae_entries req) (ae_prev_log_idx req + 1) (ae_prev_log_idx req) in
  if negb (e =? 0) then ret (e, true, cur) else
  let i := Z.of_nat (n - length rest) in
  let* (e, cur) := ae_append rest (ae_prev_log_idx req + 1 + i) cur in
  if negb (e =? 0) then ret (e, true, cur) else
  e <- (if 0 <? Z.of_nat n then raft_log_sync else ret 0) ;;
  if negb (e =? 0) then ret (e, true, cur) else
  me <- get_me ;;
  when (commit_idx me <? ae_leader_commit req)
    (let last_log_idx := c_max (raft_get_current_idx me) 1 in
     raft_set_commit_idx (c_min last_log_idx (ae_leader_commit req))) ;;
  ret (0, true, cur).

(** The body up to [out:]; returns the error code, [resp->success] and
    [resp->current_idx] (meaningful when [success]). *)
Definition ae_body (req : raft_appendentries_req) : M (Z * bool * Z) :=
  me <- get_me ;;
  if ae_term req <? current_term me then ret (0, false, 0) else
  e <- (if current_term me <? ae_term req then raft_set_current_term (ae_term req) else ret 0) ;;
  if negb (e =? 0) then ret (e, false, 0) else
  raft_accept_leader (ae_leader_id req) ;;
  me <- get_me ;;
  if ae_prev_log_idx req =? snapshot_last_idx me then
    if negb (ae_prev_log_term req =? snapshot_last_term me)
    then ret (RAFT_ERR_SHUTDOWN, false, 0)
    else ae_accept req
  else
    ety <- raft_get_entry_from_idx (ae_prev_log_idx req) ;;
    match ety with
    | None => ret (0, false, 0)
    | Some ety =>
        if negb (ety_term ety =? ae_prev_log_term req) then
          if ae_prev_log_idx req <=? commit_idx me then ret (RAFT_ERR_SHUTDOWN, false, 0) else
          e <- raft_delete_entry_from_idx (ae_prev_log_idx req) ;;
          ret (e, false, 0)
        else ae_accept req
    end.

Definition raft_recv_appendentries (req : raft_appendentries_req) :
    M (Z * raft_appendentries_resp) :=
  stat++ appendentries_req_received ;;
  when (0 <? Z.of_nat (length (ae_entries req))) (stat++ appendentries_req_with_entry) ;;
  let* (e, success, cur) := ae_body req in
  me <- get_me ;;
  match raft_get_node me (ae_leader_id req) with
  | Some p => upd_node p (raft_node_update_max_seen_msg_id (ae_msg_id req))
  | None => ret tt
  end ;;
  me <- get_me ;;
  ret (e, mk_ae_resp (ae_msg_id req) (current_term me) success
            (if success then cur else raft_get_current_idx me)).

(** ** RequestVote *)

(** The body of [raft_recv_requestvote] up to [done:]; returns the error code
    and [resp->vote_granted]. *)
Definition rv_body (req : raft_requestvote_req) : M (Z * bool) :=
  me <- get_me ;;
  if rv_prevote req &&
     negb (leader_id me =? RAFT_NODE_ID_NONE) &&
     negb (leader_id me =? rv_candidate_id req) &&
     (timeout_elapsed me <? election_timeout me) then ret (0, false) else
  e <- (if negb (rv_prevote req) && (current_term me <? rv_term req) then
          e <- raft_set_current_term (rv_term req) ;;
          if negb (e =? 0) then ret e else
          raft_become_follower ;; ret 0
        else ret 0) ;;
  if negb (e =? 0) then ret (e, false) else
  me <- get_me ;;
  if rv_term req <? current_term me then ret (0, false) else
  if (current_term me =? rv_term req) &&
     negb (voted_for me =? RAFT_NODE_ID_NONE) &&
     negb (voted_for me =? rv_candidate_id req) then ret (0, false) else
  let current_idx := raft_get_current_idx me in
  ety_term <- raft_get_last_log_term ;;
  if (rv_last_log_term req <? ety_term) ||
     ((rv_last_log_term req =? ety_term) && (rv_last_log_idx req <? current_idx))
  then ret (0, false) else
  if rv_prevote req then ret (0, true) else
  me <- get_me ;;
  c_assert (negb (raft_is_leader me || raft_is_candidate me)) ;;
  e <- raft_vote_for_nodeid (rv_candidate_id req) ;;
  upd (fun me => me <| leader_id := RAFT_NODE_ID_NONE |> <| timeout_elapsed := 0 |>) ;;
  ret (e, if negb (e =? 0) then false else true).

Definition raft_recv_requestvote (req : raft_requestvote_req) : M (Z * raft_requestvote_resp) :=
  (if rv_prevote req then stat++ requestvote_prevote_req_received
   else stat++ requestvote_req_received) ;;
  let* (e, vote_granted) := rv_body req in
  when vote_granted
    (if rv_prevote req then stat++ requestvote_prevote_req_granted
     else stat++ requestvote_req_granted) ;;
  me <- get_me ;;
  ret (e, mk_rv_resp (rv_prevote req) (rv_term req) (current_term me) vote_granted).

Definition raft_recv_requestvote_response (p : option Z) (resp : raft_requestvote_resp) : M Z :=
  (if rvr_prevote resp then stat++ requestvote_prevote_resp_received
   else stat++ requestvote_resp_received) ;;
  when (negb (rvr_vote_granted resp))
    (if rvr_prevote resp then stat++ requestvote_prevote_req_failed
     else stat++ requestvote_req_failed) ;;
  me <- get_me ;;
  if current_term me <? rvr_term resp then
    e <- raft_set_current_term (rvr_term resp) ;;
    if negb (e =? 0) then ret e else
    raft_become_follower ;; ret 0
  else
  if (if rvr_prevote resp
      then negb (raft_is_precandidate me) ||
           negb (rvr_request_term resp =? current_term me + 1)
      else negb (raft_is_candidate me) ||
           negb (rvr_request_term resp =? current_term me))
  then ret 0 else
  if negb (rvr_vote_granted resp) then ret 0 else
  match p with
  | Some p => upd_node p (raft_node_set_voted_for_me true)
  | None => ret tt
  end ;;
  votes <- raft_get_nvotes_for_me ;;
  me <- get_me ;;
  let nodes := raft_get_num_voting_nodes me in
  if raft_votes_is_majority nodes votes then
    if raft_is_precandidate me then raft_become_candidate else raft_become_leader
  else ret 0.

(** ** Client requests *)

Definition raft_recv_entry (ety : raft_entry) : M (Z * option raft_entry_resp) :=
  me <- get_me ;;
  if negb (raft_is_leader me) then ret (RAFT_ERR_NOT_LEADER, None) else
  let voting_change := raft_entry_is_voting_cfg_change ety in
  if voting_change && raft_voting_change_is_in_progress me then
    ret (if current_term me =? last_applied_term me
         then RAFT_ERR_ONE_VOTING_CHANGE_ONLY else RAFT_ERR_TRYAGAIN, None) else
  if voting_change && negb (raft_is_apply_allowed me) then
    ret (RAFT_ERR_SNAPSHOT_IN_PROGRESS, None) else
  if negb (node_transferring_leader_to me =? RAFT_NODE_ID_NONE) then
    ret (RAFT_ERR_LEADER_TRANSFER_IN_PROGRESS, None) else
  let ety := ety <| ety_term := current_term me |> in
  e <- raft_append_entry ety ;;
  if negb (e =? 0) then ret (e, None) else
  me <- get_me ;;
  let r := mk_entry_resp (ety_id ety) (current_term me) (raft_get_current_idx me) in
  if auto_flush me then
    e <- raft_log_sync ;;
    if negb (e =? 0) then ret (e, Some r) else
    me <- get_me ;;
    e <- raft_flush (raft_get_current_idx me) ;;
    ret (e, Some r)
  else ret (0, Some r).

Definition raft_recv_read_request (cb_arg : Z) : M Z :=
  me <- get_me ;;
  if negb (raft_is_leader me) then ret RAFT_ERR_NOT_LEADER else
  upd (fun me => me <| msg_id := u64 (msg_id me + 1) |>) ;;
  upd (fun me => me <| read_queue :=
         read_queue me ++ [mk_read_request (raft_get_current_idx me) (msg_id me) cb_arg] |>) ;;
  me <- get_me ;;
  if auto_flush me then raft_flush 0 else ret 0.

(** The most up-to-date other node. *)
Definition transfer_target (me : raft_server L) : option Z :=
  fst (fold_left (fun acc pn =>
         let '(target, max) := acc in
         let match_ := node_match_idx (snd pn) in
         if negb (bool_decide (my_node me = Some (fst pn))) && (max <? match_)
         then (Some (fst pn), match_) else acc) (nodes me) (None, 0)).

Definition raft_transfer_leader (nid timeout : Z) : M Z :=
  me <- get_me ;;
  if negb (raft_is_leader me) then ret RAFT_ERR_NOT_LEADER else
  if negb (node_transferring_leader_to me =? RAFT_NODE_ID_NONE)
  then ret RAFT_ERR_LEADER_TRANSFER_IN_PROGRESS else
  let target := if negb (nid =? RAFT_NODE_ID_NONE) then raft_get_node me nid
                else transfer_target me in
  match target with
  | None => ret RAFT_ERR_INVALID_NODEID
  | Some p =>
      if bool_decide (my_node me = Some p) then ret RAFT_ERR_INVALID_NODEID else
      node <- deref p ;;
      when (raft_get_current_idx me =? node_match_idx node)
        (match cb_send_timeoutnow cb with
         | None => abort
         | Some f => call_out (fun me w => f me w node)
         end ;;
         upd (fun me => me <| sent_timeout_now := true |>)) ;;
      upd (fun me => me <| node_transferring_leader_to := node_id node |>
                        <| transfer_leader_time :=
                             if negb (timeout =? 0) then timeout else election_timeout me |>) ;;
      ret 0
  end.

Definition raft_msg_entry_response_committed (r : raft_entry_resp) : M Z :=
  ety <- raft_get_entry_from_idx (er_idx r) ;;
  match ety with
  | None => ret 0
  | Some e =>
      if negb (er_term r =? ety_term e) then ret (-1) else
      me <- get_me ;; ret (if er_idx r <=? commit_idx me then 1 else 0)
  end.

(** ** Snapshots *)

(** [raft_recv_snapshot] up to [out:]; returns the error code,
    [resp->success], [resp->offset] and [resp->last_chunk]. *)
Definition snapshot_body (req : raft_snapshot_req) : M (Z * bool * Z * bool) :=
  let chunk := snr_chunk req in
  let end_offset := u64 (chunk_len chunk + chunk_offset chunk) in
  me <- get_me ;;
  if snr_term req <? current_term me then ret (0, false, 0, chunk_last chunk) else
  e <- (if current_term me <? snr_term req then raft_set_current_term (snr_term req) else ret 0) ;;
  if negb (e =? 0) then ret (e, false, 0, chunk_last chunk) else
  raft_accept_leader (snr_leader_id req) ;;
  me <- get_me ;;
  if snr_snapshot_index req <=? raft_get_current_idx me then ret (0, true, end_offset, true) else
  e <- (if negb (snapshot_recv_idx me =? snr_snapshot_index req)
        then raft_clear_incoming_snapshot (snr_snapshot_index req) else ret 0) ;;
  if negb (e =? 0) then ret (e, false, 0, chunk_last chunk) else
  me <- get_me ;;
  let offset := snapshot_recv_offset me in
  if negb (offset =? chunk_offset chunk) then ret (0, false, offset, chunk_last chunk) else
  e <- match cb_store_snapshot_chunk cb with
       | None => abort
       | Some f => call_out (fun me w => f me w (snr_snapshot_index req) (chunk_offset chunk) chunk)
       end ;;
  if negb (e =? 0) then ret (e, false, offset, chunk_last chunk) else
  e <- (if chunk_last chunk then
          match cb_load_snapshot cb with
          | None => abort
          | Some f => f (snr_snapshot_term req) (snr_snapshot_index req)
          end
        else ret 0) ;;
  if negb (e =? 0) then ret (e, false, offset, chunk_last chunk) else
  upd (fun me => me <| snapshot_recv_offset := end_offset |>) ;;
  ret (0, true, end_offset, chunk_last chunk).

Definition raft_recv_snapshot (req : raft_snapshot_req) : M (Z * raft_snapshot_resp) :=
  stat++ snapshot_req_received ;;
  let* (e, success, offset, last_chunk) := snapshot_body req in
  me <- get_me ;;
  let term := current_term me in
  match raft_get_node me (snr_leader_id req) with
  | Some p => upd_node p (raft_node_update_max_seen_msg_id (snr_msg_id req))
  | None => ret tt
  end ;;
  ret (e, mk_snap_resp (snr_msg_id req) (snr_snapshot_index req) term offset success last_chunk).

Definition raft_recv_snapshot_response (p : option Z) (resp : raft_snapshot_resp) : M Z :=
  stat++ snapshot_resp_received ;;
  when (negb (snrr_success resp)) (stat++ snapshot_req_failed) ;;
  me <- get_me ;;
  match p with
  | None => ret 0
  | Some p =>
      if negb (raft_is_leader me) then ret 0 else
      node <- deref p ;;
      if (snrr_term resp <? current_term me) || (snrr_msg_id resp <? node_match_msgid node)
      then ret 0 else
      if current_term me <? snrr_term resp then
        e <- raft_set_current_term (snrr_term resp) ;;
        if negb (e =? 0) then ret e else
        raft_become_follower ;; ret 0
      else
      upd_node p (raft_node_set_match_msgid (snrr_msg_id resp)) ;;
      when (snrr_snapshot_index resp =? snapshot_last_idx me)
        (when (negb (snrr_success resp))
           (upd_node p (raft_node_set_snapshot_offset (snrr_offset resp))) ;;
         when (snrr_success resp && snrr_last_chunk resp)
           (upd_node p (raft_node_set_snapshot_offset 0) ;;
            upd_node p (raft_node_set_next_idx
                          (c_max (snapshot_last_idx me + 1) (node_next_idx node))))) ;;
      if auto_flush me then raft_flush 0 else ret 0
  end.

Definition raft_get_first_entry_idx : M Z :=
  me <- get_me ;;
  c_assert (0 <? raft_get_current_idx me) ;;
  ret (log_impl_first_idx (srv_log me)).

Definition raft_get_num_snapshottable_logs (me : raft_server L) : Z :=
  if raft_get_log_count me <=? 1 then 0
  else commit_idx me - log_impl_first_idx (srv_log me) + 1.

(** The loop that adjusts the flags of every node after a snapshot. *)
Definition adjust_node_flags : M unit :=
  me <- get_me ;;
  for_each (node_ptrs (nodes me)) (fun p =>
    n <- deref p ;;
    let voting := raft_node_is_voting n in
    upd_node p (raft_node_set_has_sufficient_logs voting) ;;
    upd_node p (raft_node_set_voting_committed voting) ;;
    upd_node p (raft_node_set_addition_committed true)).

Definition raft_restore_snapshot (last_included_term last_included_index : Z) : M Z :=
  me <- get_me ;;
  if (last_included_term <? 0) || (last_included_index <? 0) ||
     negb (current_term me =? 0) || negb (commit_idx me =? 0) ||
     negb (snapshot_last_term me =? 0) || negb (snapshot_last_idx me =? 0) ||
     negb (last_applied_term me =? 0) || negb (last_applied_idx me =? 0)
  then ret RAFT_ERR_MISUSE else
  upd (fun me => me <| current_term := last_included_term |>
                    <| commit_idx := last_included_index |>
                    <| last_applied_term := last_included_term |>
                    <| last_applied_idx := last_included_index |>
                    <| snapshot_last_term := last_included_term |>
                    <| snapshot_last_idx := last_included_index |>) ;;
  adjust_node_flags ;;
  ret 0.

Definition raft_begin_snapshot : M Z :=
  me <- get_me ;;
  if raft_get_num_snapshottable_logs me =? 0 then ret (-1) else
  e <- raft_apply_all ;;
  if negb (e =? 0) then ret e else
  me <- get_me ;;
  c_assert (commit_idx me =? last_applied_idx me) ;;
  upd (fun me => me <| snapshot_in_progress := true |>
                    <| next_snapshot_last_idx := last_applied_idx me |>
                    <| next_snapshot_last_term := last_applied_term me |>) ;;
  ret 0.

Definition raft_cancel_snapshot : M Z :=
  upd (fun me => me <| snapshot_in_progress := false |>) ;; ret 0.

Definition raft_end_snapshot : M Z :=
  me <- get_me ;;
  if negb (snapshot_in_progress me) then ret (-1) else
  upd (fun me => me <| snapshot_last_idx := next_snapshot_last_idx me |>
                    <| snapshot_last_term := next_snapshot_last_term me |>) ;;
  me <- get_me ;;
  e <- on_log (log_impl_poll (snapshot_last_idx me + 1)) ;;
  if negb (e =? 0) then ret e else
  e <- raft_log_sync ;;
  if negb (e =? 0) then ret e else
  upd (fun me => me <| snapshot_in_progress := false |>) ;;
  stat++ snapshots_created ;;
  me <- get_me ;;
  if negb (raft_is_leader me) then ret 0 else
  for_peers (fun p =>
    n <- deref p ;;
    when (raft_node_is_active n)
      (upd_node p (raft_node_set_snapshot_offset 0) ;;
       me <- get_me ;;
       when ((0 <? snapshot_last_idx me) && (node_next_idx n <=? snapshot_last_idx me))
         (raft_send_snapshot p ;; ret tt))) ;;
  ret 0.

Definition raft_begin_load_snapshot (last_included_term last_included_index : Z) : M Z :=
  me <- get_me ;;
  if (last_included_term <=? 0) || (last_included_index <=? 0) ||
     (last_included_index <? last_applied_idx me) ||
     (last_included_index <? raft_get_current_idx me) then ret RAFT_ERR_MISUSE else
  if last_included_index <=? snapshot_last_idx me then ret RAFT_ERR_SNAPSHOT_ALREADY_LOADED else
  e <- (if current_term me <? last_included_term
        then raft_set_current_term last_included_term else ret 0) ;;
  if negb (e =? 0) then ret e else
  on_log (log_impl_reset (last_included_index + 1) last_included_term) ;;
  me <- get_me ;;
  when (commit_idx me <? last_included_index) (raft_set_commit_idx last_included_index) ;;
  upd (fun me => me <| last_applied_term := last_included_term |>
                    <| last_applied_idx := last_included_index |>
                    <| next_snapshot_last_term := last_included_term |>
                    <| next_snapshot_last_idx := last_included_index |>) ;;
  me <- get_me ;;
  match my_node me with
  | None => abort
  | Some self =>
      n <- deref self ;;
      upd (fun me => me <| nodes := [(self, raft_node_clear_flags n)] |>) ;;
      ret 0
  end.

Definition raft_end_load_snapshot : M Z :=
  upd (fun me => me <| snapshot_last_idx := next_snapshot_last_idx me |>
                    <| snapshot_last_term := next_snapshot_last_term me |>) ;;
  adjust_node_flags ;;
  stat++ snapshots_received ;;
  ret 0.

(** ** Configuration and restart *)

(** [raft_config]: with [set], store the argument; otherwise return the value
    through the pointer argument ([int], so 64-bit timeouts are truncated). *)
Definition raft_config (set : bool) (config : raft_config_param) (arg : Z) : M (Z * option Z) :=
  me <- get_me ;;
  let flag b : Z := if b : bool then 1 else 0 in
  match config with
  | RAFT_CONFIG_ELECTION_TIMEOUT =>
      if set then
        upd (fun me => me <| election_timeout := arg |>) ;;
        raft_update_quorum_meta (last_acked_msg_id me) ;;
        raft_randomize_election_timeout ;;
        ret (0, None)
      else ret (0, Some (to_int (election_timeout me)))
  | RAFT_CONFIG_REQUEST_TIMEOUT =>
      if set then upd (fun me => me <| request_timeout := arg |>) ;; ret (0, None)
      else ret (0, Some (to_int (request_timeout me)))
  | RAFT_CONFIG_AUTO_FLUSH =>
      if set then upd (fun me => me <| auto_flush := negb (arg =? 0) |>) ;; ret (0, None)
      else ret (0, Some (flag (auto_flush me)))
  | RAFT_CONFIG_LOG_ENABLED =>
      if set then upd (fun me => me <| log_enabled := negb (arg =? 0) |>) ;; ret (0, None)
      else ret (0, Some (flag (log_enabled me)))
  | RAFT_CONFIG_NONBLOCKING_APPLY =>
      if set then upd (fun me => me <| nonblocking_apply := negb (arg =? 0) |>) ;; ret (0, None)
      else ret (0, Some (flag (nonblocking_apply me)))
  | RAFT_CONFIG_DISABLE_APPLY =>
      if set then upd (fun me => me <| disable_apply := negb (arg =? 0) |>) ;; ret (0, None)
      else ret (0, Some (flag (disable_apply me)))
  | RAFT_CONFIG_UNKNOWN _ => ret (RAFT_ERR_NOTFOUND, None)
  end.

(** The loop of [raft_restore_log], from index [i]; it ends at the first index
    without entry, after at most [n] entries. *)
Fixpoint raft_restore_log_loop (n : nat) (i : Z) : M Z :=
  ety <- on_log (log_impl_get i) ;;
  match ety with
  | None => ret 0
  | Some ety =>
      match n with
      | O => out_of_fuel
      | S n' =>
          when (raft_entry_is_voting_cfg_change ety)
            (upd (fun me => me <| voting_cfg_change_log_idx := i |>)) ;;
          when (raft_entry_is_cfg_change ety) (raft_handle_append_cfg_change ety i) ;;
          raft_restore_log_loop n' (i + 1)
      end
  end.

Definition raft_restore_log : M Z :=
  me <- get_me ;;
  if negb (snapshot_last_idx me =? last_applied_idx me) then ret RAFT_ERR_MISUSE else
  raft_restore_log_loop (Z.to_nat (raft_get_current_idx me - snapshot_last_idx me))
    (snapshot_last_idx me + 1).

End Server.
