(* ===== verification/RaftApi.v ===== *)
(** * The public interface of the library as a type of calls

    A run of a server is a sequence of calls: messages handed to it, timer
    ticks, client requests and administration. *)

From stdpp Require Import base list numbers tactics.
From S2P Require Import Prelude RaftTypes RaftNode RaftState RaftServer.

Local Open Scope Z_scope.

Section Api.
Context {L W : Type} `{LogImpl L} (cb : raft_cbs L W) (fuel : nat).

(** The calls of [raft.h] that a running server receives.  Pointers to peers are
    given by the caller, which holds the ones the library handed out. *)
Inductive raft_op :=
| OpPeriodic
| OpPeriodicInternal (msec : Z)
| OpRecvAppendentries (req : raft_appendentries_req)
| OpRecvAppendentriesResponse (p : option Z) (resp : raft_appendentries_resp)
| OpRecvRequestvote (req : raft_requestvote_req)
| OpRecvRequestvoteResponse (p : option Z) (resp : raft_requestvote_resp)
| OpRecvSnapshot (req : raft_snapshot_req)
| OpRecvSnapshotResponse (p : option Z) (resp : raft_snapshot_resp)
| OpRecvEntry (ety : raft_entry)
| OpRecvReadRequest (cb_arg : Z)
| OpTransferLeader (nid timeout : Z)
| OpTimeoutNow
| OpFlush (sync_index : Z)
| OpExecOperations
| OpGetIndexToSync
| OpApplyAll
| OpBeginSnapshot
| OpCancelSnapshot
| OpEndSnapshot
| OpConfig (set : bool) (config : raft_config_param) (arg : Z)
| OpAddNode (udata id : Z) (is_self : bool)
| OpAddNonVotingNode (udata id : Z) (is_self : bool)
| OpRemoveNode (p : option Z).

(** The effect of a call; its result is not used. *)
Definition exec_op (op : raft_op) : M (St L W) unit :=
  match op with
  | OpPeriodic => raft_periodic cb fuel ;; ret tt
  | OpPeriodicInternal msec => raft_periodic_internal cb fuel msec ;; ret tt
  | OpRecvAppendentries req => raft_recv_appendentries cb req ;; ret tt
  | OpRecvAppendentriesResponse p resp =>
      raft_recv_appendentries_response cb fuel p resp ;; ret tt
  | OpRecvRequestvote req => raft_recv_requestvote cb req ;; ret tt
  | OpRecvRequestvoteResponse p resp =>
      raft_recv_requestvote_response cb fuel p resp ;; ret tt
  | OpRecvSnapshot req => raft_recv_snapshot cb req ;; ret tt
  | OpRecvSnapshotResponse p resp => raft_recv_snapshot_response cb fuel p resp ;; ret tt
  | OpRecvEntry ety => raft_recv_entry cb fuel ety ;; ret tt
  | OpRecvReadRequest a => raft_recv_read_request cb fuel a ;; ret tt
  | OpTransferLeader nid timeout => raft_transfer_leader cb nid timeout ;; ret tt
  | OpTimeoutNow => raft_timeout_now cb ;; ret tt
  | OpFlush i => raft_flush cb fuel i ;; ret tt
  | OpExecOperations => raft_exec_operations cb ;; ret tt
  | OpGetIndexToSync => raft_get_index_to_sync ;; ret tt
  | OpApplyAll => raft_apply_all cb ;; ret tt
  | OpBeginSnapshot => raft_begin_snapshot cb ;; ret tt
  | OpCancelSnapshot => raft_cancel_snapshot ;; ret tt
  | OpEndSnapshot => raft_end_snapshot cb fuel ;; ret tt
  | OpConfig set c arg => raft_config cb set c arg ;; ret tt
  | OpAddNode u i b => raft_add_node cb u i b ;; ret tt
  | OpAddNonVotingNode u i b => raft_add_non_voting_node cb u i b ;; ret tt
  | OpRemoveNode p => raft_remove_node cb p
  end.

Definition exec_ops (ops : list raft_op) : M (St L W) unit := for_each ops exec_op.

(** What [raft.h] asks of [load_snapshot]: the application restores its own
    state, and tells the library through [raft_begin_load_snapshot], the node
    calls and [raft_end_load_snapshot]. *)
Inductive loader : forall A, M (St L W) A -> Prop :=
| loader_ret A (a : A) : loader A (ret a)
| loader_bind A B (m : M (St L W) A) (k : A -> M (St L W) B) :
    loader A m -> (forall a, loader B (k a)) -> loader B (bind m k)
| loader_app A (f : raft_server L -> W -> A * W) : loader A (call_out f)
| loader_begin t i : loader Z (raft_begin_load_snapshot cb t i)
| loader_add u i b : loader (option Z) (raft_add_node cb u i b)
| loader_add_nv u i b : loader (option Z) (raft_add_non_voting_node cb u i b)
| loader_end : loader Z raft_end_load_snapshot.

Definition loads_by_api : Prop :=
  forall f, cb_load_snapshot cb = Some f -> forall t i, loader Z (f t i).

Lemma loader_respects {A} (R : St L W -> St L W -> Prop) `{!PreOrder R} (m : M (St L W) A) :
  (forall B (f : raft_server L -> W -> B * W), respects R (call_out f)) ->
  (forall t i, respects R (raft_begin_load_snapshot cb t i)) ->
  (forall u i b, respects R (raft_add_node cb u i b)) ->
  (forall u i b, respects R (raft_add_non_voting_node cb u i b)) ->
  respects R raft_end_load_snapshot ->
  loader A m -> respects R m.
Proof.
  intros Happ Hbegin Hadd Hadd' Hend. induction 1; auto with respects typeclass_instances.
  by apply respects_bind.
Qed.

End Api.

Arguments exec_op {L W _} cb fuel op.
Arguments exec_ops {L W _} cb fuel ops.
Arguments loader {L W _} cb A _.
Arguments loads_by_api {L W _} cb.
