(* ===== verification/RaftDemo.v ===== *)
(** * A concrete deployment

    The server with the in-memory log of [raft_log.c], a world that records
    what the callbacks are given, and the boot sequence of a three-node
    cluster.  The theorems of the other files are evaluated on it. *)

From stdpp Require Import base list numbers tactics.
From S2P Require Import Prelude RaftTypes RaftLog RaftNode RaftState RaftServer RaftApi.

Local Open Scope Z_scope.

(** ** The log without callbacks *)

Definition mem_log_cbs : raft_log_cbs unit := mk_log_cbs unit None None None None (fun w => (true, w)).

Definition mem_log : Type := @rlog unit.

#[export] Instance mem_log_impl : LogImpl mem_log := raft_log_internal_impl mem_log_cbs.

#[export] Instance mem_log_spec : LogSpec mem_log.
Proof. by apply (ring_log_spec mem_log_cbs). Defined.

Definition mem_log_new : mem_log := (raft_log_new, tt).

Lemma mem_log_new_wf : log_wf mem_log_new.
Proof. exists []. apply ring_rep_new. Qed.

(** ** The world *)

Record world := mk_world {
  w_disk : Z * Z;
  w_outbox : list (Z * raft_requestvote_req);
  w_sent : list (Z * raft_appendentries_req);
  w_applied : list (raft_entry * Z);
  w_reads : list (Z * bool);
  w_seed : Z
}.

#[export] Instance eta_world : Eta world :=
  fun w => mk_world (w_disk w) (w_outbox w) (w_sent w) (w_applied w) (w_reads w) (w_seed w).
#[export] Instance set_w_disk : Setter w_disk := ltac:(solve_setter).
#[export] Instance set_w_outbox : Setter w_outbox := ltac:(solve_setter).
#[export] Instance set_w_sent : Setter w_sent := ltac:(solve_setter).
#[export] Instance set_w_applied : Setter w_applied := ltac:(solve_setter).
#[export] Instance set_w_reads : Setter w_reads := ltac:(solve_setter).
#[export] Instance set_w_seed : Setter w_seed := ltac:(solve_setter).

Definition world_new : world := mk_world (0, RAFT_NODE_ID_NONE) [] [] [] [] 0.

Definition demo_cbs_with (load : option (Z -> Z -> M (St mem_log world) Z)) :
    raft_cbs mem_log world := {|
  cb_send_requestvote := Some (fun _ w n r => (0, w <| w_outbox ::= fun q => q ++ [(node_id n, r)] |>));
  cb_send_appendentries := Some (fun _ w n r => (0, w <| w_sent ::= fun q => q ++ [(node_id n, r)] |>));
  cb_send_snapshot := None;
  cb_send_timeoutnow := Some (fun _ w _ => (0, w));
  cb_load_snapshot := load;
  cb_get_snapshot_chunk := None;
  cb_store_snapshot_chunk := Some (fun _ w _ _ _ => (0, w));
  cb_clear_snapshot := Some (fun _ w => (0, w));
  cb_applylog := Some (fun _ w e i => (0, w <| w_applied ::= fun q => q ++ [(e, i)] |>));
  cb_persist_metadata := Some (fun _ w t v => (0, w <| w_disk := (t, v) |>));
  cb_get_node_id := None;
  cb_node_has_sufficient_logs := None;
  cb_timestamp := None;
  cb_notify_membership_event := None;
  cb_notify_state_event := None;
  cb_notify_transfer_event := None;
  cb_backpressure := None;
  cb_get_entries_to_send := None;
  env_rand := fun w => (w_seed w, w <| w_seed := w_seed w + 1 |>);
  env_alloc := fun w => (true, w);
  env_read_cb := fun w a b => (tt, w <| w_reads ::= fun q => q ++ [(a, b)] |>)
|}.

(** [load_snapshot] of node [self] in the cluster 1, 2, 3: tell the library the
    snapshot point and the peers. *)
Definition demo_load (self t i : Z) : M (St mem_log world) Z :=
  let cb := demo_cbs_with None in
  e <- raft_begin_load_snapshot cb t i ;;
  if negb (e =? 0) then ret e else
  raft_add_node cb 0 1 (self =? 1) ;;
  raft_add_node cb 0 2 (self =? 2) ;;
  raft_add_node cb 0 3 (self =? 3) ;;
  raft_end_load_snapshot.

Definition demo_cbs (self : Z) : raft_cbs mem_log world :=
  demo_cbs_with (Some (demo_load self)).

Lemma demo_loads_by_api self : loads_by_api (demo_cbs self).
Proof.
  intros f [= <-] t i. unfold demo_load.
  apply loader_bind; [apply (loader_begin (demo_cbs self))|intros e].
  destruct (negb (e =? 0)); [apply loader_ret|].
  do 3 (apply loader_bind; [apply (loader_add (demo_cbs self))|intros _]).
  apply (loader_end (demo_cbs self)).
Qed.

(** ** Boot of node [self] of the cluster 1, 2, 3 *)
Definition demo_boot (self : Z) : M (St mem_log world) unit :=
  let cb := demo_cbs self in
  raft_new_with_log cb ;;
  raft_add_node cb 0 1 (self =? 1) ;;
  raft_add_node cb 0 2 (self =? 2) ;;
  raft_add_node cb 0 3 (self =? 3) ;;
  ret tt.

(** The state a computation ends in, for concrete runs. *)
Definition final {S A} (m : M S A) (s : S) : S :=
  match m s with
  | Done (_, s') => s'
  | _ => s
  end.

Definition demo_server (self : Z) : St mem_log world :=
  final (demo_boot self) (raft_server_zero mem_log_new, world_new).

(** Node 1 wins an election: its timer fires, node 2 grants the pre-vote, then
    the vote.  Peers are at the addresses 0, 1 and 2. *)
Definition demo_election : list raft_op :=
  [ OpPeriodicInternal 2000;
    OpRecvRequestvoteResponse (Some 1) (mk_rv_resp true 1 0 true);
    OpRecvRequestvoteResponse (Some 1) (mk_rv_resp false 1 1 true) ].

Definition demo_leader : St mem_log world :=
  final (exec_ops (demo_cbs 1) 10 demo_election) (demo_server 1).
