(* ===== verification/RaftLogic.v ===== *)
(** * Reasoning about server operations

    Rules for the primitives of [RaftState], and the tactic [srv] that goes
    through an operation of [RaftServer] down to them. *)

From stdpp Require Import base list numbers tactics.
From S2P Require Import Prelude RaftTypes RaftNode RaftState RaftServer.

Local Open Scope Z_scope.

Lemma c_min_eq a b : c_min a b = Z.min a b.
Proof. unfold c_min. destruct (Z.ltb_spec a b); lia. Qed.

Lemma c_max_eq a b : c_max a b = Z.max a b.
Proof. unfold c_max. destruct (Z.ltb_spec a b); lia. Qed.

Lemma call_out_run {L W A} (f : raft_server L -> W -> A * W) (s : St L W) :
  call_out f s = Done (fst (f (fst s) (snd s)), (fst s, snd (f (fst s) (snd s)))).
Proof. unfold call_out. by destruct (f _ _). Qed.

Section Rules.
Context {L W : Type} `{LogImpl L}.
Context (R : St L W -> St L W -> Prop) `{!PreOrder R}.

Lemma respects_upd f :
  (forall me w, R (me, w) (f me, w)) -> respects R (upd f).
Proof. intros Hf. apply respects_modify. intros [me w]. apply Hf. Qed.

Lemma respects_call_out {A} (f : raft_server L -> W -> A * W) :
  (forall me w, R (me, w) (me, snd (f me w))) -> respects R (call_out f).
Proof.
  intros Hf [me w] a s' E. unfold call_out in E. simpl in E.
  specialize (Hf me w). destruct (f me w) as [b w']. simpl in Hf. by simplify_eq.
Qed.

Lemma respects_on_log {A} (m : M L A) :
  (forall me w a l, m (srv_log me) = Done (a, l) -> R (me, w) (me <| srv_log := l |>, w)) ->
  respects R (on_log m).
Proof.
  intros Hm [me w] a s' E. apply zoom_done in E as (l & E & ->). simpl in *. eauto.
Qed.

Lemma respects_upd_node p f :
  (forall me w, R (me, w) (me <| nodes ::= update_node p f |>, w)) ->
  respects R (upd_node p f).
Proof.
  intros Hf. unfold upd_node, deref, get_me.
  apply respects_bind; [done| |intro; by apply respects_upd].
  apply respects_bind; [done|by apply respects_gets|intros me].
  destruct (lookup_node p (nodes me)); [by apply respects_ret|apply respects_abort].
Qed.

End Rules.

Ltac head_of t := lazymatch t with ?f _ => head_of f | _ => t end.

(** [srv tac]: decompose [respects R m] along [m], unfolding the operations it
    calls; [tac] closes the leaves, statements about one primitive update. *)
Ltac srv_step tac :=
  cbv beta iota zeta;
  first
    [ solve [eauto 3 with respects typeclass_instances nocore]
    | assumption
    | lazymatch goal with
      | |- respects _ (bind _ _) => apply respects_bind; [ typeclasses eauto | | intro ]
      | |- respects _ (when _ _) => apply respects_when; [ typeclasses eauto | ]
      | |- respects _ (for_each _ _) => apply respects_for_each; [ typeclasses eauto | intro ]
      | |- respects _ (ret _) => apply respects_ret; typeclasses eauto
      | |- respects _ abort => apply respects_abort
      | |- respects _ out_of_fuel => apply respects_out_of_fuel
      | |- respects _ (gets _) => apply respects_gets; typeclasses eauto
      | |- respects _ get_me => apply respects_gets; typeclasses eauto
      | |- respects _ (c_assert _) => apply respects_assert; typeclasses eauto
      | |- respects _ (upd _) => apply respects_upd; intros; tac
      | |- respects _ (upd_node _ _) =>
          apply respects_upd_node; [ typeclasses eauto | intros; tac ]
      | |- respects _ (call_out _) => apply respects_call_out; intros; tac
      | |- respects _ (on_log _) => apply respects_on_log; intros; tac
      | |- respects _ (if ?b then _ else _) => destruct b eqn:?
      | |- respects _ (match ?x with _ => _ end) => destruct x eqn:?
      | |- respects _ ?m => let h := head_of m in progress unfold h
      end ].

Ltac srv tac := repeat srv_step tac.

(** [loopless] along the structure of an operation. *)
Lemma loopless_call_out {L W A} (f : raft_server L -> W -> A * W) : loopless (call_out f).
Proof. intros s. by rewrite call_out_run. Qed.

Ltac loopless_step :=
  cbv beta iota zeta;
  lazymatch goal with
  | |- loopless (bind _ _) => apply loopless_bind; [|intro]
  | |- loopless (ret _) => apply loopless_ret
  | |- loopless abort => apply loopless_abort
  | |- loopless (gets _) => apply loopless_gets
  | |- loopless get_me => apply loopless_gets
  | |- loopless (upd _) => apply loopless_modify
  | |- loopless (c_assert _) => apply loopless_assert
  | |- loopless (when _ _) => apply loopless_when
  | |- loopless (call_out _) => apply loopless_call_out
  | |- loopless (if ?b then _ else _) => destruct b
  | |- loopless (match ?x with _ => _ end) => destruct x
  | |- loopless ?m => let h := head_of m in progress unfold h
  end.

Ltac loopless_solve :=
  lazymatch goal with
  | |- loopless _ => idtac
  | |- ?m ?s <> OutOfFuel => let H := fresh in enough (loopless m) as H by apply H
  end;
  repeat loopless_step.

Lemma respects_mono {S A} (R1 R2 : S -> S -> Prop) (m : M S A) :
  (forall s s', R1 s s' -> R2 s s') -> respects R1 m -> respects R2 m.
Proof. intros HR Hm s a s' E. apply HR. by eapply Hm. Qed.

(** Run a prefix of a computation by hand, the rest by the relation. *)
Lemma respects_from {S A} (R : S -> S -> Prop) `{!PreOrder R} (m : M S A) s0 s a s' :
  R s0 s -> respects R m -> m s = Done (a, s') -> R s0 s'.
Proof. intros H0s Hm E. transitivity s; [done|by eapply Hm]. Qed.

(** ** Logs that read the same *)

Section LogSame.
Context {L : Type} `{LogSpec L}.

Definition log_same (l l' : L) : Prop :=
  log_wf l -> log_wf l' /\ log_abs l' = log_abs l.

#[export] Instance log_same_preorder : PreOrder log_same.
Proof.
  split.
  - by intros l ?.
  - intros l1 l2 l3 H12 H23 Hwf. destruct (H12 Hwf) as [Hwf2 E2].
    destruct (H23 Hwf2) as [Hwf3 E3]. split; [done|congruence].
Qed.

Lemma log_get_same idx l a l' : log_impl_get idx l = Done (a, l') -> log_same l l'.
Proof.
  intros E Hwf. destruct (log_get_spec l idx Hwf) as (l1 & E1 & Hwf1 & Habs).
  rewrite E in E1. by simplify_eq.
Qed.

Lemma log_get_batch_same idx n l a l' :
  log_impl_get_batch idx n l = Done (a, l') -> log_same l l'.
Proof. intros E Hwf. by apply (log_get_batch_readonly l idx n a l'). Qed.

Lemma log_sync_same l a l' : log_impl_sync l = Done (a, l') -> log_same l l'.
Proof.
  intros E Hwf. destruct (log_sync_spec l Hwf) as (r & l1 & E1 & Hwf1 & Habs).
  rewrite E in E1. by simplify_eq.
Qed.

Lemma log_same_last l l' : log_same l l' -> log_wf l -> alog_last (log_abs l') = alog_last (log_abs l).
Proof. intros Hs Hwf. by destruct (Hs Hwf) as [_ ->]. Qed.

(** The commit index does not pass the end of the log. *)
Lemma log_same_bound c l l' :
  log_same l l' -> log_wf l -> c <= alog_last (log_abs l) -> c <= alog_last (log_abs l').
Proof. intros Hs Hwf. by rewrite (log_same_last l l'). Qed.

End LogSame.

#[export] Hint Resolve log_get_same log_get_batch_same log_sync_same log_same_bound : respects.

(** ** Quiet steps

    What most of the code leaves alone: the term, the vote, the role, the
    snapshot point and the contents of the log; the commit index only grows.
    [RN] is what is asked of the peers, [RW] of the outside world. *)
(** What elections read of a peer. *)
Definition elector (pn : Z * raft_node) : Z * Z * bool * bool :=
  (fst pn, node_id (snd pn), raft_node_is_voting (snd pn), raft_node_has_vote_for_me (snd pn)).

Definition keeps_elector (f : raft_node -> raft_node) : Prop :=
  forall p n, elector (p, f n) = elector (p, n).

Section QuietDef.
Context {L W : Type} `{LogSpec L}.
Context (RN : raft_server L -> raft_server L -> Prop) (RW : W -> W -> Prop).

Record quiet (s s' : St L W) : Prop := mk_quiet {
  quiet_term : current_term (fst s') = current_term (fst s);
  quiet_vote : voted_for (fst s') = voted_for (fst s);
  quiet_state : srv_state (fst s') = srv_state (fst s);
  quiet_snap_idx : snapshot_last_idx (fst s') = snapshot_last_idx (fst s);
  quiet_snap_term : snapshot_last_term (fst s') = snapshot_last_term (fst s);
  quiet_next_snap : next_snapshot_last_idx (fst s') = next_snapshot_last_idx (fst s);
  quiet_commit : commit_idx (fst s) <= commit_idx (fst s');
  quiet_log : log_same (srv_log (fst s)) (srv_log (fst s'));
  quiet_bound : log_wf (srv_log (fst s)) ->
    commit_idx (fst s) <= alog_last (log_abs (srv_log (fst s))) ->
    commit_idx (fst s') <= alog_last (log_abs (srv_log (fst s')));
  quiet_nodes : RN (fst s) (fst s');
  quiet_world : RW (snd s) (snd s')
}.

(** What is needed of the callbacks, of [RN] and of [RW]: all callbacks but the
    ones that persist the term and vote, ask for votes or load a snapshot stay
    in [RW]; [RN] ignores the replication progress of peers; and membership is
    static (no [get_node_id] callback) or [RN] asks nothing. *)
Class QuietRel : Prop := {
  qc_RN :: PreOrder RN;
  qc_RW :: PreOrder RW;
  RN_same me me' : nodes me' = nodes me -> my_node me' = my_node me -> RN me me';
  RN_progress me p f : keeps_elector f -> RN me (me <| nodes ::= update_node p f |>)
}.

Class QuietCtx (cb : raft_cbs L W) : Prop := {
  qc_rel :: QuietRel;
  qc_cfg : cb_get_node_id cb = None \/ forall me me', RN me me';
  q_send_ae f : cb_send_appendentries cb = Some f -> forall me w n r, RW w (snd (f me w n r));
  q_send_snap f : cb_send_snapshot cb = Some f -> forall me w n r, RW w (snd (f me w n r));
  q_send_tn f : cb_send_timeoutnow cb = Some f -> forall me w n, RW w (snd (f me w n));
  q_chunk f : cb_get_snapshot_chunk cb = Some f -> forall me w n o, RW w (snd (f me w n o));
  q_store f : cb_store_snapshot_chunk cb = Some f -> forall me w i o c, RW w (snd (f me w i o c));
  q_clear f : cb_clear_snapshot cb = Some f -> forall me w, RW w (snd (f me w));
  q_apply f : cb_applylog cb = Some f -> forall me w e i, RW w (snd (f me w e i));
  q_node_id f : cb_get_node_id cb = Some f -> forall me w e i, RW w (snd (f me w e i));
  q_suff f : cb_node_has_sufficient_logs cb = Some f -> forall me w n, RW w (snd (f me w n));
  q_time f : cb_timestamp cb = Some f -> forall me w, RW w (snd (f me w));
  q_member f : cb_notify_membership_event cb = Some f ->
               forall me w n e t, RW w (snd (f me w n e t));
  q_state f : cb_notify_state_event cb = Some f -> forall me w st, RW w (snd (f me w st));
  q_transfer f : cb_notify_transfer_event cb = Some f -> forall me w r, RW w (snd (f me w r));
  q_bp f : cb_backpressure cb = Some f -> forall me w n, RW w (snd (f me w n));
  q_entries f : cb_get_entries_to_send cb = Some f ->
                forall me w n i k, RW w (snd (f me w n i k));
  q_rand w : RW w (snd (env_rand cb w));
  q_alloc w : RW w (snd (env_alloc cb w));
  q_read w a b : RW w (snd (env_read_cb cb w a b))
}.

#[export] Instance quiet_preorder `{!PreOrder RN, !PreOrder RW} : PreOrder quiet.
Proof.
  split.
  - intros s. by constructor.
  - intros s1 s2 s3 H12 H23. destruct H12 as [????????Hl], H23.
    constructor; try congruence; try lia; try by etransitivity.
    intros Hwf Hb. destruct (Hl Hwf). auto.
Qed.

End QuietDef.

(** Nothing asked of peers and world. *)
Definition anything {A} (x y : A) : Prop := True.

#[export] Instance anything_preorder A : PreOrder (@anything A).
Proof. done. Qed.

#[export] Instance quiet_rel_any {L W} : QuietRel (L:=L) (W:=W) anything anything.
Proof. constructor; try done; apply _. Qed.

#[export] Instance quiet_any {L W} `{LogSpec L} (cb : raft_cbs L W) :
  QuietCtx anything anything cb.
Proof. constructor; try done; try apply _. by right. Qed.

(** Quiet operations that call nothing outside. *)
Section QuietInner.
Context {L W : Type} `{LogSpec L}.
Context {RN : raft_server L -> raft_server L -> Prop} {RW : W -> W -> Prop}.
Context {QR : QuietRel RN RW}.

Lemma quiet_set_commit_idx idx : respects (quiet RN RW) (raft_set_commit_idx idx).
Proof.
  intros [me w] a s' E. unfold raft_set_commit_idx, get_me, upd in E. run_done.
  simpl in *. constructor; simpl; try done; try lia; [|by eapply (RN_same RN RW)].
  intros Hwf _. unfold raft_get_current_idx in *. rewrite log_current_idx_spec in *; [lia|done].
Qed.
#[local] Hint Resolve quiet_set_commit_idx : respects.

Lemma quiet_read_log {A} (m : M L A) :
  (forall l a l', m l = Done (a, l') -> log_same l l') -> respects (quiet RN RW) (on_log m).
Proof.
  intros Hm. apply respects_on_log. intros me w a l E. constructor; simpl; try done.
  - by eapply Hm.
  - intros Hwf Hb. eapply log_same_bound; eauto.
  - by eapply (RN_same RN RW).
Qed.

Lemma quiet_get_entry idx : respects (quiet RN RW) (raft_get_entry_from_idx idx).
Proof. apply quiet_read_log. intros. by eapply log_get_same. Qed.

Lemma quiet_log_sync : respects (quiet RN RW) raft_log_sync.
Proof. apply quiet_read_log. intros. by eapply log_sync_same. Qed.
#[local] Hint Resolve quiet_get_entry quiet_log_sync : respects.

Lemma quiet_update_commit_idx : respects (quiet RN RW) raft_update_commit_idx.
Proof. srv idtac. Qed.

Lemma quiet_last_log_term : respects (quiet RN RW) raft_get_last_log_term.
Proof. srv idtac. Qed.

Lemma quiet_quorum_msg_id : respects (quiet RN RW) quorum_msg_id.
Proof. srv idtac. Qed.

End QuietInner.

#[export] Hint Resolve quiet_set_commit_idx quiet_get_entry quiet_log_sync
  quiet_update_commit_idx quiet_last_log_term quiet_quorum_msg_id : respects.

Section Quiet.
Context {L W : Type} `{LogSpec L} (cb : raft_cbs L W) (fuel : nat).
Context {RN : raft_server L -> raft_server L -> Prop} {RW : W -> W -> Prop}.
Context {QC : QuietCtx RN RW cb}.
#[local] Existing Instance qc_RN.
#[local] Existing Instance qc_RW.
Abbreviation quiet := (quiet RN RW).

Lemma keeps_next_idx i : keeps_elector (raft_node_set_next_idx i).
Proof. done. Qed.
Lemma keeps_match_idx i : keeps_elector (raft_node_set_match_idx i).
Proof. done. Qed.
Lemma keeps_next_msgid i : keeps_elector (raft_node_set_next_msgid i).
Proof. done. Qed.
Lemma keeps_match_msgid i : keeps_elector (raft_node_set_match_msgid i).
Proof. done. Qed.
Lemma keeps_max_seen i : keeps_elector (raft_node_update_max_seen_msg_id i).
Proof. intros p n. unfold raft_node_update_max_seen_msg_id. by destruct (_ <? _). Qed.
Lemma keeps_snapshot_offset i : keeps_elector (raft_node_set_snapshot_offset i).
Proof. done. Qed.
Lemma keeps_sufficient b : keeps_elector (raft_node_set_has_sufficient_logs b).
Proof.
  intros p n. unfold elector. simpl. by autorewrite with node.
Qed.

#[local] Hint Resolve keeps_next_idx keeps_match_idx keeps_next_msgid keeps_match_msgid keeps_max_seen
  keeps_snapshot_offset keeps_sufficient : respects.

Ltac world_leaf :=
  first [ reflexivity
        | eapply (q_send_ae RN RW (cb:=cb)); eassumption | eapply (q_send_snap RN RW (cb:=cb)); eassumption
        | eapply (q_send_tn RN RW (cb:=cb)); eassumption | eapply (q_chunk RN RW (cb:=cb)); eassumption
        | eapply (q_store RN RW (cb:=cb)); eassumption | eapply (q_clear RN RW (cb:=cb)); eassumption
        | eapply (q_apply RN RW (cb:=cb)); eassumption | eapply (q_node_id RN RW (cb:=cb)); eassumption
        | eapply (q_suff RN RW (cb:=cb)); eassumption | eapply (q_time RN RW (cb:=cb)); eassumption
        | eapply (q_member RN RW (cb:=cb)); eassumption | eapply (q_state RN RW (cb:=cb)); eassumption
        | eapply (q_transfer RN RW (cb:=cb)); eassumption | eapply (q_bp RN RW (cb:=cb)); eassumption
        | eapply (q_entries RN RW (cb:=cb)); eassumption | eapply (q_rand RN RW (cb:=cb)); eassumption
        | eapply (q_alloc RN RW (cb:=cb)); eassumption | eapply (q_read RN RW (cb:=cb)); eassumption ].

Ltac nodes_leaf :=
  first [ eapply (RN_same RN RW); reflexivity
        | eapply (RN_progress RN RW); solve [eauto with respects]
        | match goal with E : cb_get_node_id cb = Some _ |- _ =>
            destruct (qc_cfg RN RW (cb:=cb)) as [?|Hall]; [congruence|apply Hall] end ].

Ltac quiet_leaf :=
  constructor; cbn;
  [ done | done | done | done | done | done | try done; try lia
  | first [ reflexivity | eauto with respects ]
  | try done; solve [eauto with respects]
  | nodes_leaf | world_leaf ].

Lemma quiet_send_snapshot_loop n f p :
  cb_send_snapshot cb = Some f -> respects quiet (raft_send_snapshot_loop cb n f p).
Proof. intros Hf. induction n as [|n IH]; simpl; srv quiet_leaf. Qed.

Lemma quiet_send_snapshot p : respects quiet (raft_send_snapshot cb fuel p).
Proof.
  unfold raft_send_snapshot. destruct (cb_send_snapshot cb) eqn:E; srv quiet_leaf.
  by apply quiet_send_snapshot_loop.
Qed.
#[local] Hint Resolve quiet_send_snapshot : respects.

Lemma quiet_send_appendentries_loop n f p :
  cb_send_appendentries cb = Some f -> respects quiet (raft_send_appendentries_loop cb n f p).
Proof. intros Hf. induction n as [|n IH]; simpl; srv quiet_leaf. Qed.

Lemma quiet_send_appendentries p : respects quiet (raft_send_appendentries cb fuel p).
Proof.
  unfold raft_send_appendentries. srv quiet_leaf. by apply quiet_send_appendentries_loop.
Qed.
#[local] Hint Resolve quiet_send_appendentries : respects.

Lemma quiet_send_appendentries_all_loop ps r :
  respects quiet (raft_send_appendentries_all_loop cb fuel ps r).
Proof. revert r. induction ps as [|p ps IH]; intros r; simpl; srv quiet_leaf. Qed.
#[local] Hint Resolve quiet_send_appendentries_all_loop : respects.

Lemma quiet_send_appendentries_all : respects quiet (raft_send_appendentries_all cb fuel).
Proof. srv quiet_leaf. Qed.

Lemma quiet_apply_cfg_change e i : respects quiet (raft_handle_apply_cfg_change cb e i).
Proof. srv quiet_leaf. Qed.

Lemma quiet_append_cfg_change e i : respects quiet (raft_handle_append_cfg_change cb e i).
Proof. srv quiet_leaf. Qed.

Lemma quiet_remove_cfg_change e i : respects quiet (raft_handle_remove_cfg_change cb e i).
Proof. srv quiet_leaf. Qed.
#[local] Hint Resolve quiet_send_appendentries_all quiet_apply_cfg_change
  quiet_append_cfg_change quiet_remove_cfg_change : respects.

Lemma quiet_apply_all_loop n : respects quiet (raft_apply_all_loop cb n).
Proof. induction n as [|n IH]; simpl; srv quiet_leaf. Qed.

Lemma quiet_read_queue_drop n : respects quiet (read_queue_drop cb n).
Proof. induction n as [|n IH]; simpl; srv quiet_leaf. Qed.

Lemma quiet_read_queue_serve n k : respects quiet (read_queue_serve cb n k).
Proof. induction n as [|n IH]; simpl; srv quiet_leaf. Qed.
#[local] Hint Resolve quiet_apply_all_loop quiet_read_queue_drop quiet_read_queue_serve : respects.

Lemma quiet_exec_operations : respects quiet (raft_exec_operations cb).
Proof. srv quiet_leaf. Qed.

Lemma quiet_flush i : respects quiet (raft_flush cb fuel i).
Proof. unfold raft_flush. srv quiet_leaf. Qed.
#[local] Hint Resolve quiet_exec_operations quiet_flush : respects.

Lemma quiet_reset_transfer b : respects quiet (raft_reset_transfer_leader cb b).
Proof. srv quiet_leaf. Qed.

Lemma quiet_clear_incoming i : respects quiet (raft_clear_incoming_snapshot cb i).
Proof. srv quiet_leaf. Qed.

Lemma quiet_randomize : respects quiet (raft_randomize_election_timeout cb).
Proof. srv quiet_leaf. Qed.

Lemma quiet_notify_state st : respects quiet (notify_state cb st).
Proof. srv quiet_leaf. Qed.

Lemma quiet_time_millis : respects quiet (raft_time_millis cb).
Proof. srv quiet_leaf. Qed.

Lemma quiet_rand : respects quiet (call_out (fun _ w => env_rand cb w)).
Proof. srv quiet_leaf. Qed.

Lemma quiet_call_timeoutnow f n :
  cb_send_timeoutnow cb = Some f -> respects quiet (call_out (fun me w => f me w n)).
Proof. intros. srv quiet_leaf. Qed.

Lemma quiet_call_sufficient f n :
  cb_node_has_sufficient_logs cb = Some f -> respects quiet (call_out (fun me w => f me w n)).
Proof. intros. srv quiet_leaf. Qed.

Lemma quiet_recv_read_request a : respects quiet (raft_recv_read_request cb fuel a).
Proof. srv quiet_leaf. Qed.

Lemma quiet_transfer_leader i t : respects quiet (raft_transfer_leader cb i t).
Proof. srv quiet_leaf. Qed.

End Quiet.

#[export] Hint Resolve quiet_set_commit_idx quiet_send_snapshot quiet_send_appendentries
  quiet_send_appendentries_all quiet_apply_cfg_change
  quiet_append_cfg_change quiet_remove_cfg_change quiet_apply_all_loop
  quiet_exec_operations quiet_flush quiet_reset_transfer
  quiet_clear_incoming quiet_randomize quiet_recv_read_request
  quiet_transfer_leader quiet_notify_state quiet_time_millis quiet_rand
  quiet_call_timeoutnow quiet_call_sufficient : respects.

(** A relation that holds of every quiet step. *)
Class Coarser {L W} `{LogSpec L} (RN : raft_server L -> raft_server L -> Prop)
    (RW : W -> W -> Prop) (R : St L W -> St L W -> Prop) : Prop :=
  coarser s s' : quiet RN RW s s' -> R s s'.

Section Coarser.
Context {L W : Type} `{LogSpec L}.
Context {RN : raft_server L -> raft_server L -> Prop} {RW : W -> W -> Prop}.
Context (R : St L W -> St L W -> Prop) `{HC : !Coarser RN RW R}.

Lemma respects_coarser {A} (m : M (St L W) A) :
  respects (quiet RN RW) m -> respects R m.
Proof using HC. apply respects_mono. intros s s'. apply coarser. Qed.

(** A quiet update of the server. *)
Lemma coarser_upd me me' w w' :
  current_term me' = current_term me -> voted_for me' = voted_for me ->
  srv_state me' = srv_state me -> snapshot_last_idx me' = snapshot_last_idx me ->
  snapshot_last_term me' = snapshot_last_term me ->
  next_snapshot_last_idx me' = next_snapshot_last_idx me -> commit_idx me' = commit_idx me ->
  log_same (srv_log me) (srv_log me') -> RN me me' -> RW w w' -> R (me, w) (me', w').
Proof using HC.
  intros ?????? Hc Hl ??. apply coarser. constructor; try done; simpl; rewrite Hc; [lia|].
  intros. by eapply log_same_bound.
Qed.

End Coarser.

Ltac coarse_leaf :=
  eapply coarser_upd;
  [ typeclasses eauto | done | done | done | done | done | done | done
  | first [ reflexivity | solve [eauto with respects] ]
  | first [ reflexivity | done ] | first [ reflexivity | done ] ].

(** [srv] for a relation coarser than [quiet]: a call that is known to be quiet
    is closed at once. *)
Ltac srv_coarse_step tac :=
  first
    [ solve [ eapply respects_coarser; [ typeclasses eauto
            | eauto 4 with respects typeclass_instances nocore ] ]
    | srv_step ltac:(first [ coarse_leaf | tac ]) ].

Ltac srv_coarse tac := repeat srv_coarse_step tac.

(** ** The vote handler, as a sequence of phases *)

Section VotePhases.
Context {L W : Type} `{LogSpec L} (cb : raft_cbs L W).

Lemma call_out_server {A} (f : raft_server L -> W -> A * W) s a s' :
  call_out f s = Done (a, s') -> fst s' = fst s.
Proof. unfold call_out. destruct (f (fst s) (snd s)). intros. by simplify_eq. Qed.

(** [raft_set_current_term]: nothing, or a larger term without vote. *)
Lemma set_current_term_spec t s e s' :
  raft_set_current_term cb t s = Done (e, s') ->
  (current_term (fst s') = current_term (fst s) /\ voted_for (fst s') = voted_for (fst s) /\
   (e = 0 -> t <= current_term (fst s))) \/
  (e = 0 /\ current_term (fst s) < t /\ current_term (fst s') = t /\
   voted_for (fst s') = RAFT_NODE_ID_NONE).
Proof.
  intros E. unfold raft_set_current_term, get_me, upd in E. run_done.
  - left. split_and!; [done..|lia].
  - apply call_out_server in Hrun. rewrite Hrun. left. split_and!; [done..|lia].
  - apply call_out_server in Hrun. right. split_and!; cbn; [done|lia|done..].
  - right. split_and!; cbn; [done|lia|done..].
Qed.

(** [raft_vote_for_nodeid] stays in its term. *)
Lemma vote_for_nodeid_spec id s e s' :
  raft_vote_for_nodeid cb id s = Done (e, s') ->
  current_term (fst s') = current_term (fst s) /\
  voted_for (fst s') = if e =? 0 then id else voted_for (fst s).
Proof.
  intros E. unfold raft_vote_for_nodeid, get_me, upd in E. run_done.
  all: try match goal with E : call_out _ _ = Done _ |- _ => apply call_out_server in E as E' end.
  all: cbn; try rewrite E'; try done. by destruct (a =? 0).
Qed.

(** A field of the server that keeps its value. *)
Definition unchanged {A} (f : raft_server L -> A) (s s' : St L W) : Prop :=
  f (fst s') = f (fst s).

#[export] Instance unchanged_preorder {A} (f : raft_server L -> A) : PreOrder (unchanged f).
Proof. split; [by intros s|]. intros s1 s2 s3 H1 H2. unfold unchanged in *. congruence. Qed.

#[export] Instance unchanged_term_coarser : Coarser anything anything (unchanged current_term).
Proof. by intros s s' []. Qed.

#[export] Instance unchanged_vote_coarser : Coarser anything anything (unchanged voted_for).
Proof. by intros s s' []. Qed.

Lemma become_follower_term : respects (unchanged current_term) (raft_become_follower cb).
Proof. srv_coarse ltac:(done). Qed.

Lemma become_follower_vote : respects (unchanged voted_for) (raft_become_follower cb).
Proof. srv_coarse ltac:(done). Qed.

(** How a server reacts to a larger term. *)
Definition step_down (term : Z) : M (St L W) Z :=
  e <- raft_set_current_term cb term ;;
  if negb (e =? 0) then ret e else
  raft_become_follower cb ;; ret 0.

Lemma step_down_term t s s' :
  step_down t s = Done (0, s') -> current_term (fst s) < t ->
  current_term (fst s') = t /\ voted_for (fst s') = RAFT_NODE_ID_NONE.
Proof.
  intros E Hlt. unfold step_down in E. done_step. rename Hrun into Hset.
  apply set_current_term_spec in Hset.
  done_step; [run_done; lia|]. done_step. run_done.
  pose proof (become_follower_term _ _ _ Hrun) as E1.
  pose proof (become_follower_vote _ _ _ Hrun) as E2.
  unfold unchanged in *. rewrite E1, E2.
  destruct Hset as [(_ & _ & Hle)|(_ & _ & -> & ->)]; [specialize (Hle ltac:(lia)); lia|done].
Qed.

Context {RN : raft_server L -> raft_server L -> Prop} {RW : W -> W -> Prop}.
Context {QC : QuietCtx RN RW cb}.

(** The candidate's log is at least as long as the server's. *)
Definition up_to_date (req : raft_requestvote_req) (last_idx last_term : Z) : Prop :=
  last_term < rv_last_log_term req \/
  (last_term = rv_last_log_term req /\ last_idx <= rv_last_log_idx req).

(** The vote is cast in state [s], after the step down. *)
Record casts_vote (req : raft_requestvote_req) (s : St L W) (g : bool) (s' : St L W) : Prop := {
  cv_prevote : rv_prevote req = false;
  cv_term : current_term (fst s) = rv_term req;
  cv_free : voted_for (fst s) = RAFT_NODE_ID_NONE \/ voted_for (fst s) = rv_candidate_id req;
  cv_role : srv_state (fst s) <> RAFT_STATE_LEADER /\ srv_state (fst s) <> RAFT_STATE_CANDIDATE;
  cv_log : exists last_term s1, raft_get_last_log_term s = Done (last_term, s1) /\
             up_to_date req (raft_get_current_idx (fst s)) last_term;
  cv_vote : exists s1 s2 e, quiet RN RW s s1 /\
              raft_vote_for_nodeid cb (rv_candidate_id req) s1 = Done (e, s2) /\
              g = (e =? 0) /\ quiet RN RW s2 s'
}.

Lemma rv_body_phases req s e g s' :
  rv_body cb req s = Done ((e, g), s') ->
  exists s1,
    (s1 = s \/ (rv_prevote req = false /\ current_term (fst s) < rv_term req /\
                exists e1, step_down (rv_term req) s = Done (e1, s1))) /\
    ((quiet RN RW s1 s' /\ (g = true -> rv_prevote req = true)) \/ casts_vote req s1 g s').
Proof using QC.
  intros E. unfold rv_body, get_me in E. done_step.
  done_step. { done_step. exists s. split; [by left|]. left. by split. }
  done_step. exists s0. rename Hrun into Hdown.
  assert (a = 0 -> rv_prevote req = false -> rv_term req <= current_term (fst s0)) as Hterm.
  { intros -> Hp. rewrite Hp in Hdown. simpl in Hdown.
    destruct (Z.ltb_spec (current_term (fst s)) (rv_term req)) as [Hlt|Hge].
    - apply (step_down_term (rv_term req) s s0) in Hdown; lia.
    - by done_step. }
  split.
  { destruct (negb (rv_prevote req) && _) eqn:Hb; [right|left; by done_step].
    destruct (rv_prevote req); [done|]. simpl in Hb. split_and!; [done|lia|].
    exists a. exact Hdown. }
  clear Hdown. done_step. { done_step. left. by split. }
  done_step. done_step. { done_step. left. by split. }
  done_step. { done_step. left. by split. }
  done_step. rename Hrun into Hlast.
  assert (quiet RN RW s0 s1) as Hq1 by (by eapply quiet_last_log_term).
  done_step. { done_step. left. by split. }
  done_step. { done_step. left. by split. }
  unfold upd in E. run_done. right.
  pose proof (quiet_term _ _ _ _ Hq1). pose proof (quiet_state _ _ _ _ Hq1) as Hst.
  unfold raft_is_leader, raft_is_candidate in Hassert.
  apply negb_true_iff, orb_false_iff in Hassert as [Hl Hc].
  apply bool_decide_eq_false in Hl, Hc. rewrite Hst in Hl, Hc.
  constructor; [done|lia|lia|done| |].
  - eexists _, _. split; [exact Hlast|]. unfold up_to_date. lia.
  - eexists _, _, _. split; [exact Hq1|]. split; [eassumption|]. split.
    + by destruct (a1 =? 0).
    + constructor; try done. by apply (RN_same RN RW).
Qed.

End VotePhases.
