(* ===== verification/RaftVote.v ===== *)
(** * Terms and votes of one server

    A server's term never decreases, and it never changes the vote it cast in a
    term, whatever messages, timeouts and requests it is given. *)

From stdpp Require Import base list numbers tactics.
From S2P Require Import Prelude RaftTypes RaftNode RaftState RaftServer RaftApi RaftLogic RaftDemo.

Local Open Scope Z_scope.

Section Vote.
Context {L W : Type} `{LogSpec L} (cb : raft_cbs L W) (fuel : nat).

Definition term_le (s s' : St L W) : Prop := current_term (fst s) <= current_term (fst s').

(** The term does not decrease, and a vote cast in a term stays for that term. *)
Definition vote_le (s s' : St L W) : Prop :=
  current_term (fst s) <= current_term (fst s') /\
  (current_term (fst s) = current_term (fst s') ->
   voted_for (fst s) <> RAFT_NODE_ID_NONE -> voted_for (fst s') = voted_for (fst s)).

#[export] Instance term_le_preorder : PreOrder term_le.
Proof. split; [intros s | intros s1 s2 s3]; unfold term_le; lia. Qed.

#[export] Instance vote_le_preorder : PreOrder vote_le.
Proof.
  split.
  - intros s. split; [lia|done].
  - intros s1 s2 s3 [H1 H2] [H3 H4]. split; [lia|]. intros E Hne.
    rewrite H4, H2; [done|lia|done|lia|]. rewrite H2; [done|lia|done].
Qed.

#[export] Instance term_le_coarser : Coarser anything anything term_le.
Proof. intros s s' []. unfold term_le. lia. Qed.

#[export] Instance vote_le_coarser : Coarser anything anything vote_le.
Proof. intros s s' []. split; [lia|done]. Qed.

(** A state with a larger term. *)
Lemma vote_le_lt s s' : current_term (fst s) < current_term (fst s') -> vote_le s s'.
Proof. intros. split; [lia|intros; lia]. Qed.

Lemma vote_le_set_current_term t : respects vote_le (raft_set_current_term cb t).
Proof.
  intros s e s' E. apply set_current_term_spec in E as [(H1 & H2 & _)|(_ & H1 & H2 & _)].
  - split; [lia|]. by intros.
  - apply vote_le_lt. lia.
Qed.

Lemma term_le_set_current_term t : respects term_le (raft_set_current_term cb t).
Proof. intros s e s' E. apply (vote_le_set_current_term t s e s' E). Qed.
#[local] Hint Resolve vote_le_set_current_term term_le_set_current_term : respects.

Lemma term_le_vote_for_nodeid id : respects term_le (raft_vote_for_nodeid cb id).
Proof. intros s e s' E. apply vote_for_nodeid_spec in E as [E _]. unfold term_le. lia. Qed.
#[local] Hint Resolve term_le_vote_for_nodeid : respects.

Ltac term_leaf := unfold term_le; cbn; lia.

(** A new candidate is in a larger term. *)
Lemma vote_le_become_candidate : respects vote_le (raft_become_candidate cb).
Proof.
  intros s e s' E. unfold raft_become_candidate, get_me in E.
  do 2 done_step. rename Hrun into Hset.
  pose proof (set_current_term_spec _ _ _ _ _ Hset) as Hs.
  destruct (negb (a =? 0)) eqn:Ha.
  { unfold ret in E. simplify_eq. by apply vote_le_set_current_term in Hset. }
  destruct Hs as [(_ & _ & Hle)|(_ & _ & Ht & _)]; [specialize (Hle ltac:(lia)); lia|].
  apply vote_le_lt. revert E.
  match goal with |- ?m _ = _ -> _ => assert (respects term_le m) as Hm end.
  { srv_coarse term_leaf. }
  intros E. apply Hm in E. unfold term_le in E. lia.
Qed.
#[local] Hint Resolve vote_le_become_candidate : respects.

Ltac vote_leaf := split; cbn; [lia|done].

Lemma vote_le_step_down t : respects vote_le (step_down cb t).
Proof. srv_coarse vote_leaf. Qed.

Lemma vote_le_rv_body req : respects vote_le (rv_body cb req).
Proof.
  intros s [e g] s' E.
  apply (rv_body_phases cb (RN:=anything) (RW:=anything)) in E as (s1 & Hd & Hv).
  assert (vote_le s s1) as H1.
  { destruct Hd as [->|(_ & _ & e1 & E1)]; [done|by eapply vote_le_step_down]. }
  etransitivity; [exact H1|]. destruct Hv as [[Hq _]|Hv]; [by apply coarser|].
  destruct Hv as [_ Hterm Hfree _ _ (s2 & s3 & e3 & Hq2 & E3 & _ & Hq3)].
  apply vote_for_nodeid_spec in E3 as [Et Ev].
  destruct Hq2 as [Ht2 Hv2], Hq3 as [Ht3 Hv3]. split; [lia|]. intros _ Hne.
  rewrite Hv3, Ev, Hv2. destruct (e3 =? 0); [|done]. by destruct Hfree as [?|].
Qed.
#[local] Hint Resolve vote_le_step_down vote_le_rv_body : respects.

Lemma vote_le_become_follower : respects vote_le (raft_become_follower cb).
Proof. srv_coarse vote_leaf. Qed.
#[local] Hint Resolve vote_le_become_follower : respects.

Lemma vote_le_become_leader : respects vote_le (raft_become_leader cb fuel).
Proof. srv_coarse vote_leaf. Qed.
#[local] Hint Resolve vote_le_become_leader : respects.

Lemma vote_le_delete_loop n i : respects vote_le (raft_delete_entry_loop cb n i).
Proof. revert i. induction n as [|n IH]; intros i; simpl; srv_coarse vote_leaf. Qed.
#[local] Hint Resolve vote_le_delete_loop : respects.

Lemma vote_le_append_entry e : respects vote_le (raft_append_entry cb e).
Proof. srv_coarse vote_leaf. Qed.
#[local] Hint Resolve vote_le_append_entry : respects.

Lemma vote_le_ae_scan es i c : respects vote_le (ae_scan cb es i c).
Proof. revert i c. induction es as [|e es IH]; intros i c; simpl; srv_coarse vote_leaf. Qed.

Lemma vote_le_ae_append es i c : respects vote_le (ae_append cb es i c).
Proof. revert i c. induction es as [|e es IH]; intros i c; simpl; srv_coarse vote_leaf. Qed.
#[local] Hint Resolve vote_le_ae_scan vote_le_ae_append : respects.

Lemma vote_le_accept_leader i : respects vote_le (raft_accept_leader cb i).
Proof. srv_coarse vote_leaf. Qed.
#[local] Hint Resolve vote_le_accept_leader : respects.

Lemma vote_le_begin_load t i : respects vote_le (raft_begin_load_snapshot cb t i).
Proof. srv_coarse vote_leaf. Qed.

Lemma vote_le_end_load : respects vote_le raft_end_load_snapshot.
Proof. srv_coarse vote_leaf. Qed.

Lemma vote_le_add_node u i b v e : respects vote_le (raft_add_node_internal cb e u i b v).
Proof. srv_coarse vote_leaf. Qed.
#[local] Hint Resolve vote_le_begin_load vote_le_end_load vote_le_add_node : respects.

Lemma vote_le_loader {A} (m : M (St L W) A) : loader cb A m -> respects vote_le m.
Proof.
  apply loader_respects; try apply _; intros; eauto with respects;
    try apply vote_le_add_node.
  apply respects_call_out. intros. by apply coarser.
Qed.

Lemma vote_le_exec_op op : loads_by_api cb -> respects vote_le (exec_op cb fuel op).
Proof.
  intros Hload. destruct op; srv_coarse vote_leaf.
  all: try by eapply vote_le_loader, Hload.
Qed.

(** C3 (safety). Over any sequence of calls (messages, timer ticks, requests,
    snapshots, membership calls) a server's term never decreases, and once it has
    voted in a term it keeps that vote as long as it is in that term: it never
    votes for two candidates in one term. *)
Theorem vote_stable (ops : list raft_op) (s s' : St L W) (u : unit) :
  loads_by_api cb ->
  exec_ops cb fuel ops s = Done (u, s') ->
  current_term (fst s) <= current_term (fst s') /\
  (current_term (fst s) = current_term (fst s') ->
   voted_for (fst s) <> RAFT_NODE_ID_NONE -> voted_for (fst s') = voted_for (fst s)).
Proof.
  intros Hload E. eapply (respects_for_each vote_le ops (exec_op cb fuel)); [|exact E].
  intros op. by apply vote_le_exec_op.
Qed.

End Vote.

(** Node 2 votes for node 3 in term 4, and is then asked by node 1. *)
Definition demo_voter : St mem_log world :=
  final (exec_op (demo_cbs 2) 10 (OpRecvRequestvote (mk_rv_req false 4 3 0 0))) (demo_server 2).

Definition demo_second_candidate : list raft_op :=
  [OpRecvRequestvote (mk_rv_req false 4 1 7 3); OpPeriodicInternal 10].

Lemma vote_stable_witness :
  current_term (fst demo_voter) = 4 /\ voted_for (fst demo_voter) = 3 /\
  (4 = current_term (fst (final (exec_ops (demo_cbs 2) 10 demo_second_candidate) demo_voter)) ->
   voted_for (fst (final (exec_ops (demo_cbs 2) 10 demo_second_candidate) demo_voter)) = 3).
Proof.
  split; [reflexivity|]. split; [reflexivity|]. intros E.
  apply (vote_stable (demo_cbs 2) 10 demo_second_candidate demo_voter _ tt).
  - apply demo_loads_by_api.
  - vm_compute. reflexivity.
  - exact E.
  - vm_compute. discriminate.
Defined.
