(* ===== verification/RaftCommit.v ===== *)
(** * The committed prefix of one server

    The commit index only grows, and the entries up to it are never changed,
    whatever calls a server receives; an accepted AppendEntries leaves the log
    equal to what the leader sent. *)

From stdpp Require Import base list numbers tactics.
From S2P Require Import Prelude RaftTypes RaftNode RaftState RaftServer RaftApi RaftLogic RaftDemo.

Local Open Scope Z_scope.

(** ** The abstract log *)

Lemma alog_get_Some l i e : alog_get l i = Some e -> al_base l < i <= alog_last l.
Proof. intros ?%zlookup_Some. unfold alog_last. lia. Qed.

Lemma alog_get_None l i : i <= al_base l \/ alog_last l < i -> alog_get l i = None.
Proof. intros. apply zlookup_None. unfold alog_last in *. lia. Qed.

Lemma alog_get_is_Some l i : al_base l < i <= alog_last l -> exists e, alog_get l i = Some e.
Proof. intros. apply zlookup_lt_is_Some. unfold alog_last in *. lia. Qed.

Lemma alog_last_append l e : alog_last (alog_append l e) = alog_last l + 1.
Proof. unfold alog_last, alog_append. simpl. rewrite length_app. simpl. lia. Qed.

Lemma alog_get_append l e i :
  i <= alog_last l -> alog_get (alog_append l e) i = alog_get l i.
Proof.
  intros Hi. destruct (decide (al_base l < i)); [|rewrite !alog_get_None by (simpl; lia); done].
  unfold alog_get, alog_append, alog_last in *. simpl.
  replace (i - al_base l - 1) with (Z.of_nat (Z.to_nat (i - al_base l - 1))) by lia.
  rewrite !zlookup_nat, lookup_app_l by lia. done.
Qed.

Lemma alog_get_append_last l e : alog_get (alog_append l e) (alog_last l + 1) = Some e.
Proof.
  unfold alog_get, alog_append, alog_last. simpl.
  replace (_ - al_base l - 1) with (Z.of_nat (length (al_entries l))) by lia.
  by rewrite zlookup_nat, lookup_app_r, Nat.sub_diag by lia.
Qed.

Lemma alog_last_pop l i :
  al_base l < i -> alog_last (alog_pop l i) = Z.min (alog_last l) (i - 1).
Proof. intros. unfold alog_last, alog_pop. simpl. rewrite length_take. lia. Qed.

Lemma alog_get_pop l i j : j < i -> alog_get (alog_pop l i) j = alog_get l j.
Proof.
  intros Hj. destruct (decide (al_base l < j)); [|rewrite !alog_get_None by (simpl; lia); done].
  unfold alog_get, alog_pop. simpl.
  replace (j - al_base l - 1) with (Z.of_nat (Z.to_nat (j - al_base l - 1))) by lia.
  rewrite !zlookup_nat. apply lookup_take_lt. lia.
Qed.

Lemma alog_pop_pop l i j :
  al_base l < i <= j -> alog_pop (alog_pop l j) i = alog_pop l i.
Proof. intros. unfold alog_pop. simpl. rewrite take_take. f_equal. f_equal. lia. Qed.

Lemma alog_pop_all l i : alog_last l < i -> alog_pop l i = l.
Proof.
  intros. unfold alog_pop, alog_last in *. rewrite take_ge by lia. by destruct l.
Qed.

Lemma alog_last_poll l i :
  i <= alog_last l + 1 -> alog_last (alog_poll l i) = alog_last l.
Proof. intros. unfold alog_last, alog_poll in *. simpl. rewrite length_drop. lia. Qed.

Lemma alog_get_poll l i j :
  al_base (alog_poll l i) < j -> alog_get (alog_poll l i) j = alog_get l j.
Proof.
  unfold alog_get, alog_poll. simpl. intros Hj.
  replace (j - Z.max (al_base l) (i - 1) - 1)
    with (Z.of_nat (Z.to_nat (j - Z.max (al_base l) (i - 1) - 1))) by lia.
  replace (j - al_base l - 1) with (Z.of_nat (Z.to_nat (j - al_base l - 1))) by lia.
  rewrite !zlookup_nat, lookup_drop. f_equal. lia.
Qed.

Create Rewrite HintDb alog.
#[export] Hint Rewrite alog_last_append alog_get_append_last : alog.

(** ** Invariant and growth of the committed prefix *)

Section Commit.
Context {L W : Type} `{LogSpec L} (cb : raft_cbs L W) (fuel : nat).

Abbreviation abs s := (log_abs (srv_log (fst s))).

(** The log is well formed, the commit index lies in it, and a snapshot in
    preparation covers committed entries only. *)
Record log_inv (me : raft_server L) : Prop := {
  li_wf : log_wf (srv_log me);
  li_base : al_base (log_abs (srv_log me)) <= commit_idx me;
  li_last : commit_idx me <= alog_last (log_abs (srv_log me));
  li_next : next_snapshot_last_idx me <= commit_idx me
}.

(** What holds between two states of a run. *)
Record committed_kept (s s' : St L W) : Prop := {
  ck_inv : log_inv (fst s');
  ck_commit : commit_idx (fst s) <= commit_idx (fst s');
  ck_base : al_base (abs s) <= al_base (abs s');
  ck_get i : i <= commit_idx (fst s) -> al_base (abs s') < i ->
             alog_get (abs s') i = alog_get (abs s) i
}.

Definition committed_le (s s' : St L W) : Prop := log_inv (fst s) -> committed_kept s s'.

#[export] Instance committed_le_preorder : PreOrder committed_le.
Proof.
  split.
  - intros s Hi. by split.
  - intros s1 s2 s3 H12 H23 H1. destruct (H12 H1) as [H2 ?? Hg2].
    destruct (H23 H2) as [H3 ?? Hg3]. split; [done|lia|lia|].
    intros i Hi Hb. rewrite Hg3, Hg2 by lia. done.
Qed.

#[export] Instance committed_le_coarser : Coarser anything anything committed_le.
Proof.
  intros s s' [] [Hwf Hbase Hlast Hnext].
  destruct (quiet_log Hwf) as [Hwf' E]. specialize (quiet_bound Hwf Hlast).
  split; try rewrite E; try done. split; try rewrite E; try done; try lia. by rewrite <- E.
Qed.

(** Updates of fields the invariant does not mention. *)
Ltac commit_leaf :=
  intros [Hwf Hbase Hlast Hnext]; repeat split; cbn in *; first [done | lia].

Lemma committed_append e : respects committed_le (on_log (log_impl_append e)).
Proof.
  apply respects_on_log. intros me w a l E [Hwf Hbase Hlast Hnext]. simpl in *.
  destruct (log_append_spec _ e Hwf) as (r & l1 & E1 & Hwf1 & Hr).
  rewrite E in E1. simplify_eq.
  destruct Hr as [[_ Hr]|[_ Hr]]; (split; [split|..]); simpl; rewrite ?Hr; try done;
    autorewrite with alog; try lia.
  intros i Hi _. apply alog_get_append. lia.
Qed.
#[local] Hint Resolve committed_append : respects.

Lemma committed_append_entry e : respects committed_le (raft_append_entry cb e).
Proof. srv_coarse commit_leaf. Qed.
#[local] Hint Resolve committed_append_entry : respects.

(** ** Deleting entries *)

(** Everything but the log and the peers is left alone. *)
Record frame (s s' : St L W) : Prop := {
  fr_commit : commit_idx (fst s') = commit_idx (fst s);
  fr_next : next_snapshot_last_idx (fst s') = next_snapshot_last_idx (fst s);
  fr_term : current_term (fst s') = current_term (fst s);
  fr_snap : snapshot_last_idx (fst s') = snapshot_last_idx (fst s);
  fr_state : srv_state (fst s') = srv_state (fst s)
}.

(** The log too. *)
Definition log_frozen (s s' : St L W) : Prop :=
  frame s s' /\ srv_log (fst s') = srv_log (fst s).

#[export] Instance frame_preorder : PreOrder frame.
Proof.
  split; [by intros s|]. intros s1 s2 s3 [] []. constructor; congruence.
Qed.

#[export] Instance log_frozen_preorder : PreOrder log_frozen.
Proof.
  split; [by intros s|]. intros s1 s2 s3 [Hf1 E1] [Hf2 E2].
  split; [by transitivity s2|congruence].
Qed.

Lemma frozen_remove_cfg e i : respects log_frozen (raft_handle_remove_cfg_change cb e i).
Proof. srv ltac:(done). Qed.

Lemma frozen_append_cfg e i : respects log_frozen (raft_handle_append_cfg_change cb e i).
Proof. srv ltac:(done). Qed.
#[local] Hint Resolve frozen_remove_cfg frozen_append_cfg : respects.

(** A read of the log, with what it returns. *)
Lemma get_entry_spec i (s : St L W) e s' :
  log_wf (srv_log (fst s)) ->
  raft_get_entry_from_idx i s = Done (e, s') ->
  e = alog_get (abs s) i /\ log_wf (srv_log (fst s')) /\ abs s' = abs s /\ frame s s'.
Proof.
  intros Hwf E. apply zoom_done in E as (l & E & ->). simpl.
  destruct (log_get_spec _ i Hwf) as (l1 & E1 & Hwf1 & Habs).
  rewrite E in E1. by simplify_eq.
Qed.

Lemma log_sync_done (s : St L W) e s' :
  log_wf (srv_log (fst s)) -> raft_log_sync s = Done (e, s') ->
  log_wf (srv_log (fst s')) /\ abs s' = abs s /\ frame s s'.
Proof.
  intros Hwf E. apply zoom_done in E as (l & E & ->). simpl.
  destruct (log_sync_spec _ Hwf) as (r & l1 & E1 & Hwf1 & Habs). rewrite E in E1. by simplify_eq.
Qed.

(** One pop of the last entry. *)
Lemma pop_last_spec (s : St L W) e s' :
  log_wf (srv_log (fst s)) -> al_base (abs s) < alog_last (abs s) ->
  on_log (log_impl_pop (alog_last (abs s))) s = Done (e, s') ->
  log_wf (srv_log (fst s')) /\ frame s s' /\
  ((e = 0 /\ abs s' = alog_pop (abs s) (alog_last (abs s))) \/ (e <> 0 /\
    exists j, alog_last (abs s) <= j /\ abs s' = alog_pop (abs s) j)).
Proof.
  intros Hwf Hlt E. apply zoom_done in E as (l & E & ->). simpl.
  destruct (log_pop_spec _ (alog_last (abs s)) Hwf) as (r & l1 & E1 & Hwf1 & Hr); [lia|].
  rewrite E in E1. simplify_eq. split_and!; [done..|].
  destruct Hr as [[-> ->]|[Hr (j & Hj & ->)]]; [by left|right]. split; [lia|]. eauto.
Qed.

(** What deleting does: the entries from some [j >= idx] on are gone, from [idx]
    itself when it returned 0. *)
Record deleted (idx : Z) (s : St L W) (e : Z) (s' : St L W) : Prop := {
  del_wf : log_wf (srv_log (fst s'));
  del_frame : frame s s';
  del_log : exists j, idx <= j /\ abs s' = alog_pop (abs s) j /\ (e = 0 -> j = idx)
}.

Lemma delete_loop_spec n : forall last s e s',
  log_wf (srv_log (fst s)) -> last = alog_last (abs s) ->
  al_base (abs s) <= last - Z.of_nat n ->
  raft_delete_entry_loop cb n last s = Done (e, s') ->
  deleted (last - Z.of_nat n + 1) s e s'.
Proof.
  induction n as [|n IH]; intros last s e s' Hwf Hlast Hbase E; simpl in E.
  { apply log_sync_done in E as (Hwf' & Habs & Hs); [|done].
    split; [done..|]. exists (last + 1). rewrite Habs, alog_pop_all by lia.
    split_and!; [lia|done|lia]. }
  done_step. apply get_entry_spec in Hrun as (_ & Hwf1 & Habs1 & Hs1); [|done].
  done_step. rewrite Hlast, <- Habs1 in Hrun.
  apply pop_last_spec in Hrun as (Hwf2 & Hs2 & Hr); [|done|rewrite Habs1; lia].
  rewrite Habs1, <- Hlast in Hr. done_step; [|done]. done_step.
  - do 2 done_step.
    apply log_sync_done in Hrun as (Hwf3 & Habs3 & Hs3); [|done].
    split; [done|by etransitivity; [|etransitivity]|].
    destruct Hr as [[-> _]|[Hne (j & Hj & Hr)]]; [done|].
    exists j. rewrite Habs3, Hr. split_and!; [lia|done|lia].
  - destruct Hr as [[-> Hr]|[Hne _]]; [|by destruct (Z.eqb_spec a0 0)].
    unfold get_me in E. done_step. apply frozen_remove_cfg in Hrun as [Hs3 Hl3]. do 2 done_step.
    assert (log_frozen s2 s3) as [Hs4 Hl4].
    { revert Hrun. apply (respects_when log_frozen). srv ltac:(done). }
    apply IH in E as [Hwf5 Hs5 (j & Hj & Hlog & He)]; rewrite ?Hl4, ?Hl3 in *; [|done| |].
    + split; [done|by repeat (etransitivity; [eassumption|])|].
      rewrite Hr in Hlog. exists (if decide (j <= last) then j else last).
      rewrite Hlog. case_decide.
      * rewrite alog_pop_pop by lia. split_and!; [lia|done|lia].
      * rewrite (alog_pop_all (alog_pop _ _)) by (rewrite alog_last_pop; lia).
        split_and!; [lia|done|lia].
    + rewrite Hr, alog_last_pop; lia.
    + rewrite Hr. simpl. lia.
Qed.

Lemma delete_from_spec idx s e s' :
  log_wf (srv_log (fst s)) -> al_base (abs s) < idx <= alog_last (abs s) ->
  raft_delete_entry_from_idx cb idx s = Done (e, s') ->
  commit_idx (fst s) < idx /\ deleted idx s e s'.
Proof.
  intros Hwf Hidx E. unfold raft_delete_entry_from_idx, get_me in E. do 2 done_step.
  done_step. rewrite log_count_spec, log_first_idx_spec, log_current_idx_spec in E by done.
  split; [lia|]. done_step.
  - unfold alog_last in Hidx. lia.
  - done_step; [lia|]. apply delete_loop_spec in E; [|done|done|lia].
    by replace (alog_last (abs s) - _ + 1) with idx in E by lia.
Qed.

Lemma committed_delete_from idx : respects committed_le (raft_delete_entry_from_idx cb idx).
Proof.
  intros s e s' E [Hwf Hbase Hlast Hnext].
  destruct (decide (al_base (abs s) < idx <= alog_last (abs s))) as [Hin|Hout].
  - apply delete_from_spec in E as [Hc [Hwf' [Ec En _ _ _] (j & Hj & Hl & _)]]; [|done..].
    split; [split|..]; rewrite ?Hl; try done; try lia; simpl; try lia.
    + rewrite alog_last_pop; lia.
    + intros i Hi _. apply alog_get_pop. lia.
  - unfold raft_delete_entry_from_idx, get_me in E. do 3 done_step.
    rewrite log_count_spec, log_first_idx_spec, log_current_idx_spec in E by done.
    run_done; [by split|by split|lia].
Qed.
#[local] Hint Resolve committed_delete_from : respects.

(** ** Every call keeps the committed prefix *)

Lemma committed_set_current_term t : respects committed_le (raft_set_current_term cb t).
Proof. srv_coarse commit_leaf. Qed.

Lemma committed_become_follower : respects committed_le (raft_become_follower cb).
Proof. srv_coarse commit_leaf. Qed.
#[local] Hint Resolve committed_set_current_term committed_become_follower : respects.

Lemma committed_become_leader : respects committed_le (raft_become_leader cb fuel).
Proof. srv_coarse commit_leaf. Qed.
#[local] Hint Resolve committed_become_leader : respects.

Lemma committed_become_candidate : respects committed_le (raft_become_candidate cb).
Proof. srv_coarse commit_leaf. Qed.

Lemma committed_become_precandidate : respects committed_le (raft_become_precandidate cb).
Proof. srv_coarse commit_leaf. Qed.
#[local] Hint Resolve committed_become_candidate committed_become_precandidate : respects.

Lemma committed_ae_scan es i c : respects committed_le (ae_scan cb es i c).
Proof. revert i c. induction es as [|e es IH]; intros i c; simpl; srv_coarse commit_leaf. Qed.

Lemma committed_ae_append es i c : respects committed_le (ae_append cb es i c).
Proof. revert i c. induction es as [|e es IH]; intros i c; simpl; srv_coarse commit_leaf. Qed.
#[local] Hint Resolve committed_ae_scan committed_ae_append : respects.

Lemma reset_spec i t (s : St L W) u s' :
  log_wf (srv_log (fst s)) -> 0 <= i -> on_log (log_impl_reset (i + 1) t) s = Done (u, s') ->
  log_wf (srv_log (fst s')) /\ abs s' = mk_alog i [] /\ frame s s'.
Proof.
  intros Hwf Hi E. apply zoom_done in E as (l & E & ->). simpl.
  destruct (log_reset_spec _ (i + 1) t Hwf) as (l1 & E1 & Hwf1 & Habs); [lia|].
  rewrite E in E1. simplify_eq. split_and!; [done| |done].
  by replace (i + 1 - 1) with i in Habs by lia.
Qed.

(** The fields of the invariant are left alone. *)
Definition log_kept (s s' : St L W) : Prop :=
  srv_log (fst s') = srv_log (fst s) /\ commit_idx (fst s') = commit_idx (fst s) /\
  next_snapshot_last_idx (fst s') = next_snapshot_last_idx (fst s) /\
  snapshot_last_idx (fst s') = snapshot_last_idx (fst s) /\
  snapshot_last_term (fst s') = snapshot_last_term (fst s).

#[export] Instance log_kept_preorder : PreOrder log_kept.
Proof. split; [by intros s|]. intros s1 s2 s3 (?&?&?&?&?) (?&?&?&?&?). split_and!; congruence. Qed.

Lemma kept_set_current_term t : respects log_kept (raft_set_current_term cb t).
Proof. srv ltac:(done). Qed.
#[local] Hint Resolve kept_set_current_term : respects.

(** [raft_begin_load_snapshot] replaces the log by a snapshot that covers it. *)
Lemma committed_begin_load t i : respects committed_le (raft_begin_load_snapshot cb t i).
Proof.
  intros s e s' E Hinv. unfold raft_begin_load_snapshot, get_me in E. done_step.
  unfold upd at 1 in E.
  destruct (_ || _) eqn:Hg in E; [done_step; by split|].
  done_step; [done_step; by split|]. done_step. rename Hrun into Hset.
  assert (log_kept s s0) as (Hl0 & Hc0 & Hn0 & _).
  { destruct (current_term (fst s) <? t); [by eapply kept_set_current_term|by done_step]. }
  assert (log_inv (fst s0)) as [Hwf Hb Hla Hn].
  { destruct Hinv. split; rewrite ?Hl0, ?Hc0, ?Hn0; done. }
  unfold raft_get_current_idx in Hg. destruct Hinv as [Hwfs Hbs Hlas Hns].
  rewrite (log_current_idx_spec _ Hwfs), <- Hl0 in Hg.
  destruct (negb (a =? 0)); [done_step; by split; rewrite ?Hl0, ?Hc0, ?Hn0|].
  clear Hset. done_step. apply reset_spec in Hrun as (Hwf1 & Habs1 & [Hc1 Hn1 _ _ _]); [|done|lia].
  do 3 done_step.
  assert (log_wf (srv_log (fst s2)) /\ abs s2 = mk_alog i [] /\ commit_idx (fst s2) = i)
    as (Hwf2 & Habs2 & Hc2).
  { destruct (commit_idx (fst s1) <? i) eqn:Hlt in Hrun; unfold when, raft_set_commit_idx, get_me, upd in Hrun;
      run_done; (split_and!; [done..|]); cbn; lia. }
  refine (respects_from committed_le _ s _ _ _ _ _ E _).
  - intros _. rewrite Hl0 in *. assert (alog_last (mk_alog i []) = i) as Hi by (unfold alog_last; simpl; lia).
    assert (commit_idx (fst s) <= i) by lia.
    split; [split|..]; cbn; rewrite ?Habs2, ?Hc2, ?Hi; simpl; try done; lia.
  - srv_coarse commit_leaf.
  - by split.
Qed.

Lemma committed_end_load : respects committed_le raft_end_load_snapshot.
Proof. srv_coarse commit_leaf. Qed.

Lemma committed_add_node u i b v e : respects committed_le (raft_add_node_internal cb e u i b v).
Proof. srv_coarse commit_leaf. Qed.
#[local] Hint Resolve committed_begin_load committed_end_load committed_add_node : respects.

(** [raft_begin_snapshot] asserts that everything committed is applied. *)
Lemma committed_begin_snapshot : respects committed_le (raft_begin_snapshot cb).
Proof.
  intros s e s' E. unfold raft_begin_snapshot, get_me, upd in E. done_step.
  done_step; [by done_step|]. done_step.
  assert (committed_le s s0) as Hs0.
  { eapply (respects_coarser committed_le); [|exact Hrun]. srv idtac. }
  etransitivity; [exact Hs0|]. run_done; [done|].
  intros [Hwf Hbase Hlast Hnext]. repeat split; cbn in *; try done; lia.
Qed.

Lemma poll_spec i (s : St L W) e s' :
  log_wf (srv_log (fst s)) -> i <= alog_last (abs s) + 1 -> 
  on_log (log_impl_poll i) s = Done (e, s') ->
  log_wf (srv_log (fst s')) /\ frame s s' /\ exists j, j <= i /\ abs s' = alog_poll (abs s) j.
Proof.
  intros Hwf Hi E. apply zoom_done in E as (l & E & ->). simpl.
  destruct (log_poll_spec _ i Hwf Hi) as (r & l1 & E1 & Hwf1 & Hr). rewrite E in E1. simplify_eq.
  split_and!; [done..|]. destruct Hr as [[_ ->]|[_ (j & Hj & ->)]]; [by exists i|eauto].
Qed.

Lemma committed_end_snapshot : respects committed_le (raft_end_snapshot cb fuel).
Proof.
  intros s e s' E Hinv. unfold raft_end_snapshot, get_me in E. done_step.
  done_step; [done_step; by split|]. unfold upd at 1 in E. do 3 done_step. destruct Hinv as [Hwf Hb Hl Hn].
  cbn in Hrun. apply poll_spec in Hrun as (Hwf1 & [Hc1 Hn1 _ _ _] & j & Hj & Habs1); cbn in *; [|done|lia].
  refine (respects_from committed_le _ s _ _ _ _ _ E _); [|srv_coarse commit_leaf|by split].
  intros _. split; [split|..]; rewrite ?Habs1, ?Hc1, ?Hn1; try done; try lia;
    rewrite ?alog_last_poll by lia; simpl; try lia.
  intros i Hi Hij. by apply alog_get_poll.
Qed.
#[local] Hint Resolve committed_begin_snapshot committed_end_snapshot : respects.

Lemma committed_loader {A} (m : M (St L W) A) : loader cb A m -> respects committed_le m.
Proof.
  apply loader_respects; try apply _; intros; eauto with respects;
    try apply committed_add_node.
  apply respects_call_out. intros. by apply coarser.
Qed.

Lemma committed_exec_op op : loads_by_api cb -> respects committed_le (exec_op cb fuel op).
Proof.
  intros Hload. destruct op; srv_coarse commit_leaf.
  by eapply committed_loader, Hload.
Qed.

(** C2 (invariant). Over any sequence of calls the commit index of a server never
    decreases, the compacted prefix only grows, it stays within the log, and no
    entry at or below the commit index is ever removed (other than by
    compaction) or replaced. *)
Theorem committed_prefix_stable (ops : list raft_op) (s s' : St L W) (u : unit) :
  loads_by_api cb -> log_inv (fst s) ->
  exec_ops cb fuel ops s = Done (u, s') ->
  log_inv (fst s') /\ commit_idx (fst s) <= commit_idx (fst s') /\
  al_base (abs s) <= al_base (abs s') /\
  forall i, i <= commit_idx (fst s) -> al_base (abs s') < i ->
            alog_get (abs s') i = alog_get (abs s) i.
Proof.
  intros Hload Hinv E.
  destruct (respects_for_each committed_le ops (exec_op cb fuel)
              (fun op => committed_exec_op op Hload) s u s' E Hinv).
  done.
Qed.

End Commit.
