(* ===== verification/RaftAppend.v ===== *)
(** * AppendEntries, on the log

    [raft_recv_appendentries] against an abstract merge of the leader's entries
    into the follower's log. *)

From stdpp Require Import base list numbers tactics.
From S2P Require Import Prelude RaftTypes RaftNode RaftState RaftServer RaftApi RaftLogic RaftDemo RaftCommit.

Local Open Scope Z_scope.

(** ** The abstract merge *)

Definition alog_app (l : alog) (es : list raft_entry) : alog :=
  mk_alog (al_base l) (al_entries l ++ es).

(** Entries [es] of the leader, the first at index [i]: the ones the log has are
    skipped, the rest of the log is replaced from the first that differs. *)
Fixpoint alog_merge (l : alog) (i : Z) (es : list raft_entry) : alog :=
  match es with
  | [] => l
  | e :: es' =>
      match alog_get l i with
      | None => alog_app l es
      | Some ex =>
          if ety_term e =? ety_term ex then alog_merge l (i + 1) es'
          else alog_app (alog_pop l i) es
      end
  end.

Lemma alog_app_nil l : alog_app l [] = l.
Proof. unfold alog_app. rewrite app_nil_r. by destruct l. Qed.

Lemma alog_app_cons l e es : alog_app (alog_append l e) es = alog_app l (e :: es).
Proof. unfold alog_app, alog_append. simpl. by rewrite <- app_assoc. Qed.

Lemma alog_get_app_old l es i : i <= alog_last l -> alog_get (alog_app l es) i = alog_get l i.
Proof.
  intros Hi. destruct (decide (al_base l < i)); [|rewrite !alog_get_None by (simpl; lia); done].
  unfold alog_get, alog_app, alog_last in *. simpl.
  replace (i - al_base l - 1) with (Z.of_nat (Z.to_nat (i - al_base l - 1))) by lia.
  rewrite !zlookup_nat, lookup_app_l by lia. done.
Qed.

Lemma alog_get_app_new l es k :
  alog_get (alog_app l es) (alog_last l + 1 + Z.of_nat k) = es !! k.
Proof.
  unfold alog_get, alog_app, alog_last. simpl.
  replace (_ - al_base l - 1) with (Z.of_nat (length (al_entries l) + k)) by lia.
  rewrite zlookup_nat, lookup_app_r by lia. f_equal. lia.
Qed.

Lemma alog_merge_base l i es : al_base (alog_merge l i es) = al_base l.
Proof.
  revert i. induction es as [|e es IH]; intros i; simpl; [done|].
  destruct (alog_get l i); [|done]. by destruct (_ =? _).
Qed.

(** Entries before the first merged index stay. *)
Lemma alog_merge_before l i es j : al_base l < i <= alog_last l + 1 -> j < i ->
  alog_get (alog_merge l i es) j = alog_get l j.
Proof.
  revert i. induction es as [|e es IH]; intros i Hi Hj; simpl; [done|].
  destruct (alog_get l i) as [ex|] eqn:Eg; [|apply alog_get_app_old; lia].
  apply alog_get_Some in Eg. destruct (_ =? _); [apply IH; lia|].
  rewrite alog_get_app_old by (rewrite alog_last_pop; lia). by apply alog_get_pop.
Qed.

(** Every merged entry is in the result, up to an entry of the same term that
    the log already had. *)
Lemma alog_merge_get l i es k e : al_base l < i <= alog_last l + 1 -> es !! k = Some e ->
  exists e', alog_get (alog_merge l i es) (i + Z.of_nat k) = Some e' /\
    ety_term e' = ety_term e /\ (e' = e \/ alog_get l (i + Z.of_nat k) = Some e').
Proof.
  revert i k. induction es as [|e0 es IH]; intros i k Hi Hk; [done|].
  cbn [alog_merge]. destruct (alog_get l i) as [ex|] eqn:Eg.
  - apply alog_get_Some in Eg as Hex. destruct (Z.eqb_spec (ety_term e0) (ety_term ex)) as [Et|_].
    + destruct k as [|k]; simpl in Hk.
      * simplify_eq. exists ex. rewrite Z.add_0_r, alog_merge_before by lia. auto.
      * destruct (IH (i + 1) k) as (e' & H'); [lia|done|]. exists e'.
        by replace (i + Z.of_nat (S k)) with (i + 1 + Z.of_nat k) by lia.
    + exists e. split_and!; [|done|by left].
      rewrite <- Hk, <- (alog_get_app_new (alog_pop l i)). f_equal. rewrite alog_last_pop; lia.
  - assert (i = alog_last l + 1).
    { destruct (decide (i <= alog_last l)); [|lia].
      destruct (alog_get_is_Some l i); [lia|]. congruence. }
    exists e. subst i. rewrite alog_get_app_new. auto.
Qed.

(** ** The handler *)

Section Append.
Context {L W : Type} `{LogSpec L} (cb : raft_cbs L W).

Abbreviation abs s := (log_abs (srv_log (fst s))).

Lemma append_entry_spec e s r s' :
  log_wf (srv_log (fst s)) -> raft_append_entry cb e s = Done (r, s') ->
  log_wf (srv_log (fst s')) /\ frame s s' /\ ety_term e <= current_term (fst s) /\
  ((r = 0 /\ abs s' = alog_append (abs s) e) \/ (r < 0 /\ abs s' = abs s)).
Proof.
  intros Hwf E. unfold raft_append_entry, get_me in E. do 4 done_step.
  apply zoom_done in Hrun as (l & Hl & ->).
  destruct (log_append_spec _ e Hwf) as (r1 & l1 & E1 & Hwf1 & Hr). rewrite Hl in E1. simplify_eq.
  assert (ety_term e <= current_term (fst s)) by lia.
  done_step.
  { done_step. destruct Hr as [[-> _]|Hr]; [done|]. split_and!; try done. by right. }
  destruct Hr as [[-> Hr]|]; [|lia].
  match type of E with ?m ?s2 = _ => assert (respects log_frozen m) as Hm end.
  { srv ltac:(done). }
  apply Hm in E as Hf. destruct Hf as [Hf Hl']. clear Hm.
  rewrite Hl'. split_and!; [done| |done|left; split; [by run_done|done]].
  by etransitivity; [|exact Hf].
Qed.

(** The second loop. *)
Lemma ae_append_spec es : forall i c s r c' s',
  log_wf (srv_log (fst s)) -> ae_append cb es i c s = Done ((r, c'), s') ->
  log_wf (srv_log (fst s')) /\ frame s s' /\
  (r = 0 -> abs s' = alog_app (abs s) es /\
            c' = if es is [] then c else i + Z.of_nat (length es) - 1).
Proof.
  induction es as [|e es IH]; intros i c s r c' s' Hwf E; simpl in E.
  - done_step. by rewrite alog_app_nil.
  - done_step. apply append_entry_spec in Hrun as (Hwf1 & Hf1 & _ & Hr); [|done].
    done_step; [done_step; split_and!; [done..|lia]|].
    destruct Hr as [[-> Hr]|]; [|lia].
    apply IH in E as (Hwf2 & Hf2 & H2); [|done].
    split_and!; [done|by etransitivity|]. intros Hz. destruct (H2 Hz) as [Habs ->].
    rewrite Habs, Hr, alog_app_cons. split; [done|]. destruct es; simpl; lia.
Qed.

(** The first loop: [rest] is what is left to append. *)
Lemma ae_scan_spec es : forall i c s r rest c' s',
  log_wf (srv_log (fst s)) -> al_base (abs s) < i <= alog_last (abs s) + 1 ->
  ae_scan cb es i c s = Done ((r, rest, c'), s') ->
  log_wf (srv_log (fst s')) /\ frame s s' /\
  (r = 0 -> alog_app (abs s') rest = alog_merge (abs s) i es /\
            exists k, length es = (k + length rest)%nat /\
                      c' = if k is O then c else i + Z.of_nat k - 1).
Proof.
  induction es as [|e es IH]; intros i c s r rest c' s' Hwf Hi E; simpl in E.
  { done_step. split_and!; try done. intros _. rewrite alog_app_nil. split; [done|]. by exists 0%nat. }
  done_step. apply get_entry_spec in Hrun as (-> & Hwf1 & Habs1 & Hf1); [|done].
  simpl. destruct (alog_get (abs s) i) as [ex|] eqn:Eg.
  2: { done_step. rewrite Habs1. split_and!; try done. intros _. split; [done|]. by exists 0%nat. }
  apply alog_get_Some in Eg as Hex. destruct (ety_term e =? ety_term ex) eqn:Et; simpl in E.
  - apply IH in E as (Hwf2 & Hf2 & H2); [|done|rewrite Habs1; lia].
    split_and!; [done|by etransitivity|]. intros Hz. destruct (H2 Hz) as (Hm & k & Hlen & ->).
    rewrite Habs1 in Hm. split; [done|]. exists (S k). simpl. split; [lia|]. destruct k; lia.
  - unfold get_me in E. done_step. done_step; [done_step; split_and!; [done..|]; by intros|].
    done_step. apply delete_from_spec in Hrun as (_ & [Hwf2 Hf2 (j & Hj & Hlog & Hz)]);
      [|done|rewrite Habs1; lia].
    done_step. split_and!; [done|by etransitivity|]. intros ->. rewrite Hlog, Hz, Habs1 by done.
    split; [done|]. by exists 0%nat.
Qed.

Lemma kept_accept_leader i : respects log_kept (raft_accept_leader cb i).
Proof. srv ltac:(done). Qed.

(** The part after the consistency check. *)
Lemma ae_accept_spec req s e ok c s' :
  log_wf (srv_log (fst s)) ->
  al_base (abs s) <= ae_prev_log_idx req <= alog_last (abs s) ->
  ae_accept cb req s = Done ((e, ok, c), s') ->
  ok = true /\ log_wf (srv_log (fst s')) /\
  (e = 0 -> abs s' = alog_merge (abs s) (ae_prev_log_idx req + 1) (ae_entries req) /\
            c = ae_prev_log_idx req + Z.of_nat (length (ae_entries req)) /\
            commit_idx (fst s') =
              (if commit_idx (fst s) <? ae_leader_commit req
               then Z.min (Z.max (alog_last (abs s')) 1) (ae_leader_commit req)
               else commit_idx (fst s))).
Proof.
  intros Hwf Hprev E. unfold ae_accept, get_me in E. do 2 done_step.
  assert (log_kept s s0) as (Hl & Hc & _).
  { revert Hrun. apply (respects_when log_kept). srv ltac:(done). }
  rewrite <- Hl in *. rewrite <- Hc. clear Hl Hc Hrun s. rename s0 into s.
  done_step. destruct a0 as [[r1 rest] c1].
  apply ae_scan_spec in Hrun as (Hwf1 & Hf1 & H1); [|done|lia].
  done_step; [done_step; split_and!; [done..|lia]|].
  destruct H1 as (Hm & k & Hlen & Hc1); [lia|].
  done_step. destruct a0 as [r2 c2].
  apply ae_append_spec in Hrun as (Hwf2 & Hf2 & H2); [|done].
  done_step; [done_step; split_and!; [done..|lia]|].
  destruct H2 as (Habs2 & Hc2); [lia|].
  done_step.
  assert (log_wf (srv_log (fst s2)) /\ abs s2 = abs s1 /\ frame s1 s2) as (Hwf3 & Habs3 & Hf3).
  { destruct (0 <? _) in Hrun; [by eapply log_sync_done|by done_step]. }
  clear Hrun. done_step; [done_step; split_and!; [done..|lia]|]. do 2 done_step.
  assert (commit_idx (fst s2) = commit_idx (fst s)) as Hcc.
  { rewrite (fr_commit _ _ Hf3), (fr_commit _ _ Hf2). apply Hf1. }
  assert (abs s2 = alog_merge (abs s) (ae_prev_log_idx req + 1) (ae_entries req)) as Habs.
  { by rewrite Habs3, Habs2. }
  assert (c2 = ae_prev_log_idx req + Z.of_nat (length (ae_entries req))) as Hcur.
  { destruct rest, k; simpl in *; lia. }
  rewrite Hcc in Hrun. unfold raft_get_current_idx in Hrun. rewrite log_current_idx_spec in Hrun by done.
  unfold ret in E. simplify_eq.
  split_and!; [done|..]; unfold raft_set_commit_idx, get_me, upd in Hrun; run_done; try done.
  - intros _. split_and!; [done..|]. cbn. by rewrite c_min_eq, c_max_eq.
Qed.

(** The consistency check: the entry before the new ones is in the log with the
    leader's term, or is the snapshot point. *)
Definition prev_matches (req : raft_appendentries_req) (s : St L W) : Prop :=
  (ae_prev_log_idx req = snapshot_last_idx (fst s) /\
   ae_prev_log_term req = snapshot_last_term (fst s)) \/
  (exists e, alog_get (abs s) (ae_prev_log_idx req) = Some e /\
             ety_term e = ae_prev_log_term req).

(** The snapshot point lies between the compacted prefix and the end of the log. *)
Definition snap_inv (me : raft_server L) : Prop :=
  al_base (log_abs (srv_log me)) <= snapshot_last_idx me <= alog_last (log_abs (srv_log me)).

(** The log lost at most its entries from [i] on. *)
Definition truncates (i : Z) (s s' : St L W) : Prop :=
  commit_idx (fst s') = commit_idx (fst s) /\
  exists j, i <= j /\ abs s' = alog_pop (abs s) j.

Lemma truncates_kept i s s' : log_kept s s' -> truncates i s s'.
Proof.
  intros (Hl & Hc & _). split; [done|]. rewrite Hl. exists (Z.max i (alog_last (abs s) + 1)).
  split; [lia|]. by rewrite alog_pop_all by lia.
Qed.

(** The outcome of an accepted request. *)
Record accepted (req : raft_appendentries_req) (s : St L W) (e c : Z) (s' : St L W) : Prop := {
  acc_prev : prev_matches req s;
  acc_done : e = 0 ->
    abs s' = alog_merge (abs s) (ae_prev_log_idx req + 1) (ae_entries req) /\
    c = ae_prev_log_idx req + Z.of_nat (length (ae_entries req)) /\
    commit_idx (fst s') =
      (if commit_idx (fst s) <? ae_leader_commit req
       then Z.min (Z.max (alog_last (abs s')) 1) (ae_leader_commit req)
       else commit_idx (fst s))
}.

Lemma prev_matches_bounds req s :
  snap_inv (fst s) -> prev_matches req s ->
  al_base (abs s) <= ae_prev_log_idx req <= alog_last (abs s).
Proof.
  intros [Hs1 Hs2] [[-> _]|(e & He & _)]; [lia|]. apply alog_get_Some in He. lia.
Qed.

Lemma accepted_from req s s1 e ok c s' :
  log_wf (srv_log (fst s1)) -> abs s1 = abs s -> commit_idx (fst s1) = commit_idx (fst s) ->
  snap_inv (fst s) -> prev_matches req s ->
  ae_accept cb req s1 = Done ((e, ok, c), s') -> ok = true /\ accepted req s e c s'.
Proof.
  intros Hwf Habs Hc Hsnap Hprev E. apply ae_accept_spec in E as (-> & _ & Hacc); [|done|].
  - split; [done|]. split; [done|]. by rewrite <- Habs, <- Hc.
  - rewrite Habs. by apply prev_matches_bounds.
Qed.

(** The checks, once the request's term and leader are accepted. *)
Lemma ae_check_spec req s e ok c s' :
  log_wf (srv_log (fst s)) -> snap_inv (fst s) ->
  (if ae_prev_log_idx req =? snapshot_last_idx (fst s) then
     if negb (ae_prev_log_term req =? snapshot_last_term (fst s))
     then ret (RAFT_ERR_SHUTDOWN, false, 0) else ae_accept cb req
   else
     ety <- raft_get_entry_from_idx (ae_prev_log_idx req) ;;
     match ety with
     | None => ret (0, false, 0)
     | Some ety =>
         if negb (ety_term ety =? ae_prev_log_term req) then
           if ae_prev_log_idx req <=? commit_idx (fst s) then ret (RAFT_ERR_SHUTDOWN, false, 0) else
           e <- raft_delete_entry_from_idx cb (ae_prev_log_idx req) ;; ret (e, false, 0)
         else ae_accept cb req
     end) s = Done ((e, ok, c), s') ->
  if ok then accepted req s e c s' else truncates (ae_prev_log_idx req) s s'.
Proof.
  intros Hwf Hsnap E. done_step; [done_step|].
  - done_step. by apply truncates_kept.
  - apply (accepted_from req s) in E as [-> Ha]; [done..|]. left. split; lia.
  - done_step. apply get_entry_spec in Hrun as (-> & Hwf1 & Habs1 & Hf1); [|done].
    assert (truncates (ae_prev_log_idx req) s s0) as Htr.
    { split; [apply Hf1|]. rewrite Habs1. by apply truncates_kept. }
    destruct (alog_get (abs s) _) as [ety|] eqn:Eg; [|by done_step].
    destruct (negb _) eqn:Ht in E.
    + done_step; [by done_step|]. do 2 done_step. apply alog_get_Some in Eg as Hb.
      apply delete_from_spec in Hrun as (_ & [_ Hf2 (j & Hj & Hlog & _)]); [|done|rewrite Habs1; lia].
      split; [rewrite (fr_commit _ _ Hf2); apply Hf1|]. exists j. by rewrite Hlog, Habs1.
    + apply (accepted_from req s) in E as [-> Ha]; try done; [apply Hf1|].
      right. exists ety. split; [done|lia].
Qed.

Lemma ae_body_spec req s e ok c s' :
  log_wf (srv_log (fst s)) -> snap_inv (fst s) ->
  ae_body cb req s = Done ((e, ok, c), s') ->
  if ok then current_term (fst s) <= ae_term req /\ accepted req s e c s'
  else truncates (ae_prev_log_idx req) s s'.
Proof.
  intros Hwf Hsnap E. unfold ae_body, get_me in E. done_step. done_step.
  { done_step. by apply truncates_kept. }
  done_step. rename Hrun into Hset, s0 into s1.
  assert (log_kept s s1) as Hk1.
  { destruct (_ <? ae_term req) in Hset; [by eapply kept_set_current_term|by done_step]. }
  destruct (negb (a =? 0)); [done_step; by apply truncates_kept|].
  clear Hset. done_step. apply kept_accept_leader in Hrun.
  assert (log_kept s s0) as (Hl & Hc & _ & Hsi & Hst) by (by transitivity s1).
  clear Hrun Hk1 s1. done_step. apply ae_check_spec in E; unfold snap_inv in *; rewrite ?Hl, ?Hsi in *; [|done..].
  destruct ok.
  - split; [lia|]. destruct E as [Hp Hd]. unfold prev_matches in *.
    split; unfold prev_matches; rewrite ?Hl, ?Hc, ?Hsi, ?Hst in *; done.
  - unfold truncates in *. by rewrite Hl, Hc in E.
Qed.

Ltac srv_run :=
  match goal with |- ?m ?s = Done (?a, ?s') -> ?R ?s ?s' =>
    let Hm := fresh in
    assert (respects R m) as Hm; [srv ltac:(done)|exact (Hm s a s')] end.

Lemma recv_appendentries_spec req s e resp s' :
  log_wf (srv_log (fst s)) -> snap_inv (fst s) ->
  raft_recv_appendentries cb req s = Done ((e, resp), s') ->
  if aer_success resp
  then current_term (fst s) <= ae_term req /\ accepted req s e (aer_current_idx resp) s'
  else truncates (ae_prev_log_idx req) s s'.
Proof.
  intros Hwf Hsnap E. unfold raft_recv_appendentries, get_me in E.
  done_step. done_step. assert (log_kept s s1) as (Hl & Hc & _ & Hsi & Hst).
  { transitivity s0; [revert Hrun; srv_run|revert Hrun0; srv_run]. }
  assert (unchanged current_term s s1) as Ht.
  { transitivity s0; [revert Hrun; srv_run|revert Hrun0; srv_run]. }
  clear Hrun Hrun0. done_step. destruct a1 as [[e1 ok] c].
  apply ae_body_spec in Hrun; unfold snap_inv in *; rewrite ?Hl, ?Hsi; [|done..].
  cbv beta iota in E. do 2 done_step. assert (log_kept s2 s3) as (Hl3 & Hc3 & _).
  { clear E. destruct (raft_get_node _ _) in Hrun0; [revert Hrun0; srv_run|by done_step]. }
  clear Hrun0. do 2 done_step. cbn. unfold unchanged in Ht. destruct ok.
  - destruct Hrun as [? [Hp Hd]]. split; [lia|]. unfold prev_matches in *.
    split; unfold prev_matches; rewrite ?Hl, ?Hc, ?Hsi, ?Hst, ?Hl3, ?Hc3 in *; done.
  - unfold truncates in *. by rewrite Hl3, Hc3, <- Hl, <- Hc.
Qed.

(** (error). When [raft_recv_appendentries] does not answer success (whatever
    code it returns: a stale term, a missing or conflicting previous entry, a
    failed callback), the commit index is unchanged and the log has at most lost
    a suffix that starts at or after the previous entry's index. *)
Theorem appendentries_failure req s e resp s' :
  log_wf (srv_log (fst s)) -> snap_inv (fst s) ->
  raft_recv_appendentries cb req s = Done ((e, resp), s') ->
  aer_success resp = false ->
  commit_idx (fst s') = commit_idx (fst s) /\
  exists j, ae_prev_log_idx req <= j /\ abs s' = alog_pop (abs s) j.
Proof.
  intros Hwf Hsnap E Hok. apply recv_appendentries_spec in E; [|done..]. by rewrite Hok in E.
Qed.

(** C6 (functional). When [raft_recv_appendentries] answers success and returns
    0, the request's term is at least the server's, its previous entry is the
    snapshot point or an entry of the log with the same term, the log has become
    the merge of the old log with the sent entries (what matched is kept, what
    followed the first conflict is replaced), every sent entry is in it with its
    term, nothing up to the previous entry changed, the reported index is the
    last one sent, and the commit index follows the leader's. *)
Theorem appendentries_success req s resp s' :
  log_wf (srv_log (fst s)) -> snap_inv (fst s) ->
  raft_recv_appendentries cb req s = Done ((0, resp), s') ->
  aer_success resp = true ->
  current_term (fst s) <= ae_term req /\ prev_matches req s /\
  abs s' = alog_merge (abs s) (ae_prev_log_idx req + 1) (ae_entries req) /\
  aer_current_idx resp = ae_prev_log_idx req + Z.of_nat (length (ae_entries req)) /\
  (forall j, j <= ae_prev_log_idx req -> alog_get (abs s') j = alog_get (abs s) j) /\
  (forall k e, ae_entries req !! k = Some e ->
     exists e', alog_get (abs s') (ae_prev_log_idx req + 1 + Z.of_nat k) = Some e' /\
       ety_term e' = ety_term e) /\
  commit_idx (fst s') =
    (if commit_idx (fst s) <? ae_leader_commit req
     then Z.min (Z.max (alog_last (abs s')) 1) (ae_leader_commit req)
     else commit_idx (fst s)).
Proof.
  intros Hwf Hsnap E Hok. apply recv_appendentries_spec in E; [|done..]. rewrite Hok in E.
  destruct E as [Ht [Hp Hd]]. destruct (Hd eq_refl) as (Habs & Hc & Hcommit).
  pose proof (prev_matches_bounds req s Hsnap Hp).
  split_and!; try done; rewrite Habs.
  - intros j Hj. apply alog_merge_before; lia.
  - intros k e Hk. edestruct alog_merge_get as (e' & He' & Hte & _); [|exact Hk|eauto]. lia.
Qed.

End Append.

(** ** On the deployment of [RaftDemo] *)

Definition demo_entry (t i : Z) : raft_entry := mk_entry t i 0 RAFT_LOGTYPE_NORMAL [i].

(** Node 2 holds three entries of term 1, the first committed. *)
Definition demo_follower : St mem_log world :=
  final (exec_op (demo_cbs 2) 10 (OpRecvAppendentries
    (mk_ae_req 1 1 1 0 0 1 [demo_entry 1 11; demo_entry 1 12; demo_entry 1 13]))) (demo_server 2).

(** The leader of term 2 keeps the first and replaces the others. *)
Definition demo_ae_conflict : raft_appendentries_req :=
  mk_ae_req 3 2 2 1 1 2 [demo_entry 2 21; demo_entry 2 22].

(** A leader whose log is longer than what node 2 has. *)
Definition demo_ae_gap : raft_appendentries_req := mk_ae_req 3 2 2 7 2 7 [demo_entry 2 28].

Lemma demo_follower_ok : log_inv (fst demo_follower) /\ snap_inv (fst demo_follower).
Proof.
  split; [split|split]; try (vm_compute; congruence).
  exists [demo_entry 1 11; demo_entry 1 12; demo_entry 1 13]. vm_compute.
  constructor; simpl; try lia; try done.
  intros [|[|[|k]]] e [=<-]; reflexivity.
Qed.

Lemma appendentries_success_witness :
  let s' := final (raft_recv_appendentries (demo_cbs 2) demo_ae_conflict) demo_follower in
  let l := log_abs (srv_log (fst demo_follower)) in
  log_abs (srv_log (fst s')) =
    mk_alog 0 [demo_entry 1 11; demo_entry 2 21; demo_entry 2 22] /\
  log_abs (srv_log (fst s')) = alog_merge l 2 (ae_entries demo_ae_conflict) /\
  commit_idx (fst s') = 2.
Proof.
  intros s' l. split; [vm_compute; reflexivity|].
  destruct (appendentries_success (demo_cbs 2) demo_ae_conflict demo_follower
              (mk_ae_resp 2 2 true 3) s') as (_ & _ & Hlog & _ & _ & _ & Hc).
  - exact (li_wf _ (proj1 demo_follower_ok)).
  - exact (proj2 demo_follower_ok).
  - vm_compute. reflexivity.
  - reflexivity.
  - split; [exact Hlog|]. rewrite Hc. vm_compute. reflexivity.
Defined.

Lemma appendentries_failure_witness :
  let s' := final (raft_recv_appendentries (demo_cbs 2) demo_ae_gap) demo_follower in
  commit_idx (fst s') = 1 /\
  exists j, 7 <= j /\
    log_abs (srv_log (fst s')) = alog_pop (log_abs (srv_log (fst demo_follower))) j.
Proof.
  intros s'.
  apply (appendentries_failure (demo_cbs 2) demo_ae_gap demo_follower 0
           (mk_ae_resp 2 2 false 3) s').
  - exact (li_wf _ (proj1 demo_follower_ok)).
  - exact (proj2 demo_follower_ok).
  - vm_compute. reflexivity.
  - reflexivity.
Defined.

Lemma committed_prefix_stable_witness :
  let s' := final (exec_ops (demo_cbs 2) 10
                     [OpRecvAppendentries demo_ae_conflict; OpPeriodicInternal 50]) demo_follower in
  alog_get (log_abs (srv_log (fst s'))) 1 = Some (demo_entry 1 11).
Proof.
  intros s'.
  destruct (committed_prefix_stable (demo_cbs 2) 10
    [OpRecvAppendentries demo_ae_conflict; OpPeriodicInternal 50] demo_follower s' tt)
    as (_ & _ & _ & Hget).
  - apply demo_loads_by_api.
  - apply demo_follower_ok.
  - vm_compute. reflexivity.
  - rewrite Hget; [reflexivity| |]; vm_compute; congruence.
Defined.
