(* ===== verification/RaftQuorum.v ===== *)
(** * Quorums

    The medians [raft_update_commit_idx] and [quorum_msg_id] compute by sorting
    are the largest values a majority of the voting nodes has reached; two
    majorities have a node in common. *)

From stdpp Require Import base list numbers tactics sorting.
From Stdlib Require Import Sorting.Permutation.
From S2P Require Import Prelude RaftTypes RaftNode RaftState RaftServer RaftApi RaftLogic RaftDemo RaftCommit.

Local Open Scope Z_scope.

(** ** Sorting in descending order *)

Abbreviation desc := (fun x y : Z => y <= x).

Lemma qsort_insert_perm cmp x l : qsort_insert cmp x l ≡ₚ x :: l.
Proof.
  induction l as [|y l IH]; simpl; [done|]. destruct (_ <? 0); [done|].
  rewrite IH. constructor.
Qed.

Lemma qsort_perm cmp l : qsort cmp l ≡ₚ l.
Proof. induction l as [|x l IH]; simpl; [done|]. by rewrite qsort_insert_perm, IH. Qed.

(** A comparison that orders larger values first, as [index_cmp] and
    [msgid_cmp] do. *)
Definition desc_cmp (cmp : Z -> Z -> Z) : Prop := forall a b, cmp a b < 0 <-> b < a.

Lemma index_cmp_desc : desc_cmp index_cmp.
Proof. intros a b. unfold index_cmp. destruct (Z.ltb_spec b a); lia. Qed.

Lemma msgid_cmp_desc : desc_cmp msgid_cmp.
Proof. intros a b. unfold msgid_cmp. destruct (Z.ltb_spec b a); lia. Qed.

Lemma qsort_insert_sorted cmp x l :
  desc_cmp cmp -> StronglySorted desc l -> StronglySorted desc (qsort_insert cmp x l).
Proof.
  intros Hc. induction 1 as [|y l Hl IH Hy]; simpl; [by repeat constructor|].
  destruct (Z.ltb_spec (cmp x y) 0) as [Hlt|Hge].
  - apply (proj1 (Hc x y)) in Hlt. constructor; [by constructor|]. constructor; [lia|].
    eapply Forall_impl; [exact Hy|]. simpl. lia.
  - assert (x <= y).
    { destruct (Z.le_gt_cases x y) as [|Hlt]; [done|]. apply (proj2 (Hc x y)) in Hlt. lia. }
    constructor; [done|]. rewrite qsort_insert_perm. by constructor.
Qed.

Lemma qsort_sorted cmp l : desc_cmp cmp -> StronglySorted desc (qsort cmp l).
Proof. intros. induction l; simpl; [constructor|by apply qsort_insert_sorted]. Qed.

(** ** Medians *)

(** How many elements are at least [x]. *)
Definition count_ge (x : Z) (l : list Z) : nat := length (List.filter (fun y => x <=? y) l).

Lemma count_ge_perm x l l' : l ≡ₚ l' -> count_ge x l = count_ge x l'.
Proof.
  unfold count_ge. induction 1 as [|y l l' _ IH|y z l|l1 l2 l3 _ IH1 _ IH2]; simpl; try done.
  - destruct (x <=? y); simpl; lia.
  - destruct (x <=? y), (x <=? z); done.
  - lia.
Qed.

Lemma count_ge_all x l : Forall (fun y => x <= y) l -> count_ge x l = length l.
Proof.
  unfold count_ge. induction 1 as [|y l Hy _ IH]; simpl; [done|].
  destruct (Z.leb_spec x y); simpl; lia.
Qed.

Lemma count_ge_none x l : Forall (fun y => y < x) l -> count_ge x l = 0%nat.
Proof.
  unfold count_ge. induction 1 as [|y l Hy _ IH]; simpl; [done|].
  destruct (Z.leb_spec x y); [lia|done].
Qed.

Lemma count_ge_app x l l' : count_ge x (l ++ l') = (count_ge x l + count_ge x l')%nat.
Proof. unfold count_ge. by rewrite List.filter_app, length_app. Qed.

(** In a descending list, [k + 1] elements reach the one at position [k], and at
    most [k] reach anything larger. *)
Lemma sorted_count l k x :
  StronglySorted desc l -> l !! k = Some x ->
  (k < count_ge x l)%nat /\ forall y, x < y -> (count_ge y l <= k)%nat.
Proof.
  intros Hs. revert k. induction Hs as [|z l Hl IH Hz]; intros k Hk; [done|].
  destruct k as [|k]; simpl in Hk.
  - simplify_eq. split.
    + unfold count_ge. simpl. destruct (Z.leb_spec x x); simpl; lia.
    + intros y Hy. rewrite count_ge_none; [done|]. constructor; [done|].
      eapply Forall_impl; [exact Hz|]. simpl. lia.
  - destruct (IH k Hk) as [H1 H2]. rewrite Forall_lookup in Hz. pose proof (Hz _ _ Hk).
    unfold count_ge in *. simpl. split.
    + destruct (Z.leb_spec x z); simpl in *; lia.
    + intros y Hy. specialize (H2 y Hy). destruct (y <=? z); simpl; lia.
Qed.

(** A strict majority of [l] has reached [x]. *)
Definition majority_ge (l : list Z) (x : Z) : Prop := (length l < 2 * count_ge x l)%nat.

Lemma majority_ge_le l x y : x <= y -> majority_ge l y -> majority_ge l x.
Proof.
  unfold majority_ge. intros Hxy Hy. eapply Nat.lt_le_trans; [exact Hy|].
  apply Nat.mul_le_mono_l. unfold count_ge. clear Hy. induction l as [|z l IH]; simpl; [done|].
  destruct (Z.leb_spec x z), (Z.leb_spec y z); simpl; lia.
Qed.

(** The element in the middle of the sorted list is the largest value a majority
    has reached. *)
Lemma median_majority cmp l x :
  desc_cmp cmp -> zlookup (qsort cmp l) (Z.quot (Z.of_nat (length l)) 2) = Some x ->
  majority_ge l x /\ forall y, majority_ge l y -> y <= x.
Proof.
  intros Hc Hx. pose proof (qsort_perm cmp l) as Hp.
  rewrite Z.quot_div_nonneg in Hx by lia. unfold zlookup in Hx.
  destruct (Z.ltb_spec (Z.of_nat (length l) / 2) 0); [done|].
  assert (Z.to_nat (Z.of_nat (length l) / 2) = (length l / 2)%nat) as Hk.
  { rewrite <- (Nat2Z.id (length l / 2)). f_equal. rewrite Nat2Z.inj_div. done. }
  rewrite Hk in Hx.
  destruct (sorted_count _ _ _ (qsort_sorted cmp l Hc) Hx) as [H1 H2].
  pose proof (Nat.div_mod_eq (length l) 2) as Hd.
  pose proof (Nat.mod_upper_bound (length l) 2 ltac:(lia)).
  unfold majority_ge. rewrite <- (count_ge_perm x _ _ Hp). split; [lia|].
  intros y Hy. destruct (Z.le_gt_cases y x) as [|Hgt]; [done|].
  specialize (H2 y Hgt). rewrite (count_ge_perm y _ _ Hp) in H2. lia.
Qed.

(** ** Majorities intersect *)

Lemma pigeonhole (voters q1 q2 : list Z) :
  NoDup q1 -> NoDup q2 -> q1 ⊆ voters -> q2 ⊆ voters ->
  (length voters < length q1 + length q2)%nat -> exists v, v ∈ q1 /\ v ∈ q2.
Proof.
  intros N1 N2 S1 S2 Hlen.
  destruct (decide (Exists (fun v => v ∈ q2) q1)) as [He|Hn].
  - apply Exists_exists in He. naive_solver.
  - exfalso. assert (NoDup (q1 ++ q2)) as N.
    { apply NoDup_app. split_and!; [done| |done]. intros v Hv1 Hv2.
      apply Hn, Exists_exists. eauto. }
    assert (q1 ++ q2 ⊆ voters) as S.
    { intros v [?|?]%elem_of_app; auto. }
    apply NoDup_submseteq in S; [|done]. apply submseteq_length in S.
    rewrite length_app in S. lia.
Qed.

(** [raft_votes_is_majority] accepts exactly the strict majorities. *)
Lemma votes_is_majority_spec n v :
  0 <= n -> raft_votes_is_majority n v = true <-> n < 2 * v /\ v <= n.
Proof.
  intros Hn. unfold raft_votes_is_majority. rewrite Z.quot_div_nonneg by lia.
  pose proof (Z.div_mod n 2 ltac:(lia)). pose proof (Z.mod_pos_bound n 2 ltac:(lia)).
  destruct (Z.ltb_spec n v); [split; [done|lia]|]. rewrite Z.leb_le. lia.
Qed.

(** Any two sets of voters that [raft_votes_is_majority] accepts
    for the same voting nodes have a voter in common. *)
Theorem majorities_intersect (voters q1 q2 : list Z) :
  NoDup q1 -> NoDup q2 -> q1 ⊆ voters -> q2 ⊆ voters ->
  raft_votes_is_majority (Z.of_nat (length voters)) (Z.of_nat (length q1)) = true ->
  raft_votes_is_majority (Z.of_nat (length voters)) (Z.of_nat (length q2)) = true ->
  exists v, v ∈ q1 /\ v ∈ q2.
Proof.
  intros N1 N2 S1 S2 H1 H2. rewrite votes_is_majority_spec in H1, H2 by lia.
  apply (pigeonhole voters); try done. lia.
Qed.

Lemma majorities_intersect_witness : exists v : Z, v ∈ [1; 2; 3] /\ v ∈ [5; 4; 3].
Proof.
  apply (majorities_intersect [1; 2; 3; 4; 5]); try reflexivity.
  - apply (bool_decide_unpack _). reflexivity.
  - apply (bool_decide_unpack _). reflexivity.
  - intros v Hv. apply list_elem_of_In. apply list_elem_of_In in Hv. simpl in *. tauto.
  - intros v Hv. apply list_elem_of_In. apply list_elem_of_In in Hv. simpl in *. tauto.
Defined.

(** ** The commit index and the acknowledged message id *)

Section Quorum.
Context {L W : Type} `{LogSpec L}.

Abbreviation abs s := (log_abs (srv_log (fst s))).

(** [f] is at least [x] on a strict majority of the voting peers, whatever it
    is on the others. *)
Definition quorum_reached (me : raft_server L) (f : Z * raft_node -> Z) (x : Z) : Prop :=
  (length (List.filter (fun pn => raft_node_is_voting (snd pn)) (nodes me)) <
   2 * length (List.filter (fun pn => raft_node_is_voting (snd pn) && (x <=? f pn)%Z) (nodes me)))%nat.

(** The index a peer is known to store the leader's log up to. *)
Definition stored_idx (pn : Z * raft_node) : Z := node_match_idx (snd pn).

(** The last message a peer acknowledged; the server knows its own. *)
Definition acked_msg (me : raft_server L) (pn : Z * raft_node) : Z :=
  if bool_decide (my_node me = Some (fst pn)) then msg_id me else node_match_msgid (snd pn).

Lemma majority_ge_quorum (me : raft_server L) f x :
  majority_ge (f <$> List.filter (fun pn => raft_node_is_voting (snd pn)) (nodes me)) x <->
  quorum_reached me f x.
Proof.
  unfold majority_ge, quorum_reached. rewrite length_fmap.
  replace (count_ge x _) with
    (length (List.filter (fun pn => raft_node_is_voting (snd pn) && (x <=? f pn)%Z) (nodes me))); [done|].
  unfold count_ge. induction (nodes me) as [|pn l IH]; simpl; [done|].
  destruct (raft_node_is_voting (snd pn)); simpl; [|done].
  destruct (x <=? f pn); simpl; by rewrite IH.
Qed.

Lemma voter_indexes_quorum me x : majority_ge (voter_indexes me) x <-> quorum_reached me stored_idx x.
Proof. apply (majority_ge_quorum me stored_idx). Qed.

Lemma voter_msg_ids_quorum me x : majority_ge (voter_msg_ids me) x <-> quorum_reached me (acked_msg me) x.
Proof. apply (majority_ge_quorum me (acked_msg me)). Qed.

Lemma quorum_reached_le me f x y : x <= y -> quorum_reached me f y -> quorum_reached me f x.
Proof. rewrite <- !majority_ge_quorum. apply majority_ge_le. Qed.

(** C8 (functional). [raft_update_commit_idx] computes the largest index that a
    strict majority of the voting nodes is known to store, and moves the commit
    index there if that is ahead of it and the entry there is of the current
    term; otherwise it leaves the commit index alone.  Peers without vote do not
    count.  The log is not changed. *)
Theorem update_commit_idx_majority (s s' : St L W) (u : unit) :
  log_wf (srv_log (fst s)) ->
  Exists (fun pn => raft_node_is_voting (snd pn) = true) (nodes (fst s)) ->
  raft_update_commit_idx s = Done (u, s') ->
  abs s' = abs s /\
  exists c, quorum_reached (fst s) stored_idx c /\
    (forall c', quorum_reached (fst s) stored_idx c' -> c' <= c) /\
    commit_idx (fst s') =
      match alog_get (abs s) c with
      | Some e => if (commit_idx (fst s) <? c) && (ety_term e =? current_term (fst s))
                  then c else commit_idx (fst s)
      | None => commit_idx (fst s)
      end.
Proof.
  intros Hwf Hne E. unfold raft_update_commit_idx, get_me in E. done_step.
  destruct (zlookup _ _) as [c|] eqn:Hc in E; [|done].
  assert (length (voter_indexes (fst s)) <> 0%nat).
  { unfold voter_indexes. rewrite length_fmap. clear - Hne. intros Hz%nil_length_inv.
    apply Exists_exists in Hne as (pn & Hin%list_elem_of_In & Hv).
    assert (In pn []) as []. rewrite <- Hz. by apply filter_In. }
  assert (zlookup (qsort index_cmp (voter_indexes (fst s)))
            (Z.quot (Z.of_nat (length (voter_indexes (fst s)))) 2) = Some c) as Hmed.
  { revert Hc. unfold zlookup. destruct (_ <? 0) eqn:Hneg; [done|].
    rewrite lookup_app_l; [done|]. rewrite qsort_perm. rewrite Z.quot_div_nonneg by lia.
    apply Nat2Z.inj_lt. rewrite Z2Nat.id by (apply Z.div_pos; lia). apply Z.div_lt; lia. }
  apply median_majority in Hmed as [Hm Hmax]; [|apply index_cmp_desc].
  setoid_rewrite voter_indexes_quorum in Hm. setoid_rewrite voter_indexes_quorum in Hmax.
  done_step.
  - done_step. split; [done|]. exists c. split_and!; [done..|].
    destruct (alog_get _ c); [|done]. by destruct (Z.ltb_spec (commit_idx (fst s)) c); [lia|].
  - done_step. apply get_entry_spec in Hrun as (-> & Hwf1 & Habs1 & Hf1); [|done].
    destruct (alog_get (abs s) c) as [e|] eqn:Eg; [|done].
    rewrite <- Habs1. destruct Hf1. unfold raft_set_commit_idx, get_me, upd in E.
    run_done; cbn; (split; [done|]); exists c; rewrite Habs1, Eg; split_and!; try done;
      rewrite Hwhen; destruct (Z.ltb_spec (commit_idx (fst s)) c); cbn; lia.
Qed.

Lemma quorum_msg_id_spec (s s' : St L W) (id : Z) :
  quorum_msg_id s = Done (id, s') ->
  s' = s /\ quorum_reached (fst s) (acked_msg (fst s)) id /\
  forall id', quorum_reached (fst s) (acked_msg (fst s)) id' -> id' <= id.
Proof.
  intros E. setoid_rewrite <- voter_msg_ids_quorum. unfold quorum_msg_id, get_me in E. run_done.
  split; [done|]. by apply (median_majority msgid_cmp); [apply msgid_cmp_desc|].
Qed.

(** (functional). [quorum_msg_id] returns the largest message id that a
    strict majority of the voting nodes has acknowledged, the server counting
    its own latest id. *)
Theorem quorum_msg_id_majority (s s' : St L W) (id : Z) :
  quorum_msg_id s = Done (id, s') ->
  s' = s /\ quorum_reached (fst s) (acked_msg (fst s)) id /\
  forall id', quorum_reached (fst s) (acked_msg (fst s)) id' -> id' <= id.
Proof. apply quorum_msg_id_spec. Qed.

End Quorum.

(** Node 1, leader of term 1, has heard that node 2 stores its first entry. *)
Definition demo_acked : St mem_log world :=
  final (exec_ops (demo_cbs 1) 10
           [OpConfig true RAFT_CONFIG_AUTO_FLUSH 0;
            OpRecvAppendentriesResponse (Some 1) (mk_ae_resp 1 1 true 1)]) demo_leader.

Lemma demo_acked_wf : log_wf (srv_log (fst demo_acked)).
Proof.
  exists [mk_entry 1 2 0 RAFT_LOGTYPE_NO_OP []]. vm_compute. constructor; simpl; try lia; try done.
  intros [|k] e [=<-]; reflexivity.
Qed.

Lemma update_commit_idx_majority_witness :
  stored_idx <$> nodes (fst demo_acked) = [1; 1; 0] /\
  exists c, quorum_reached (fst demo_acked) stored_idx c /\
    commit_idx (fst demo_acked) = 0 /\
    commit_idx (fst (final raft_update_commit_idx demo_acked)) = 1 /\ c = 1.
Proof.
  split; [reflexivity|].
  destruct (update_commit_idx_majority demo_acked (final raft_update_commit_idx demo_acked) tt)
    as (_ & c & Hm & Hmax & _).
  - exact demo_acked_wf.
  - apply (bool_decide_unpack _). vm_compute. exact I.
  - vm_compute. reflexivity.
  - exists c. split_and!; [exact Hm|reflexivity|vm_compute; reflexivity|].
    assert (1 <= c) by (apply Hmax; vm_compute; lia).
    assert (c < 2); [|lia]. apply Z.lt_nge. intros Hge.
    apply (quorum_reached_le _ _ 2 c Hge) in Hm. vm_compute in Hm. lia.
Defined.

Lemma quorum_msg_id_majority_witness :
  acked_msg (fst demo_acked) <$> nodes (fst demo_acked) = [2; 1; 0] /\
  quorum_reached (fst demo_acked) (acked_msg (fst demo_acked)) 1.
Proof.
  split; [reflexivity|].
  destruct (quorum_msg_id_majority demo_acked demo_acked 1) as (_ & Hm & _).
  - vm_compute. reflexivity.
  - exact Hm.
Defined.
