(* ===== verification/RaftApply.v ===== *)
(** * Applying committed entries and serving reads

    [raft_apply_all] hands every committed entry to the state machine once, in
    log order, and returns; a read is served only by a leader that a majority
    has acknowledged since the request, and after the entries it must see. *)

From stdpp Require Import base list numbers tactics.
From S2P Require Import Prelude RaftTypes RaftNode RaftState RaftServer RaftApi RaftLogic.
From S2P Require Import RaftDemo RaftCommit RaftQuorum.

Local Open Scope Z_scope.

(** The entries [i + 1 .. i + n] of a log with their indexes. *)
Fixpoint alog_run (l : alog) (i : Z) (n : nat) : list (raft_entry * Z) :=
  match n with
  | O => []
  | S n' =>
      match alog_get l (i + 1) with
      | Some e => (e, i + 1) :: alog_run l (i + 1) n'
      | None => []
      end
  end.

Section Apply.
Context {L W : Type} `{LogSpec L} (cb : raft_cbs L W).

Abbreviation abs s := (log_abs (srv_log (fst s))).

(** [applied] is what the state machine has been given; only [applylog] changes
    it, and adds the entry unless it asks for a shutdown. *)
Context (applied : W -> list (raft_entry * Z)).

Record apply_env : Prop := {
  ae_apply : exists f, cb_applylog cb = Some f /\ forall me w e i,
    (fst (f me w e i) = 0 /\ applied (snd (f me w e i)) = applied w ++ [(e, i)]) \/
    (fst (f me w e i) = RAFT_ERR_SHUTDOWN /\ applied (snd (f me w e i)) = applied w);
  ae_time f : cb_timestamp cb = Some f -> forall me w, applied (snd (f me w)) = applied w;
  ae_node_id f : cb_get_node_id cb = Some f ->
    forall me w e i, applied (snd (f me w e i)) = applied w;
  ae_member f : cb_notify_membership_event cb = Some f ->
    forall me w n e t, applied (snd (f me w n e t)) = applied w
}.

Context (Henv : apply_env).

(** Nothing is applied. *)
Record apply_frame (s s' : St L W) : Prop := {
  af_log : srv_log (fst s') = srv_log (fst s);
  af_commit : commit_idx (fst s') = commit_idx (fst s);
  af_idx : last_applied_idx (fst s') = last_applied_idx (fst s);
  af_term : last_applied_term (fst s') = last_applied_term (fst s);
  af_deadline : exec_deadline (fst s') = exec_deadline (fst s);
  af_applied : applied (snd s') = applied (snd s)
}.

#[local] Instance apply_frame_preorder : PreOrder apply_frame.
Proof. split; [by intros s|]. intros s1 s2 s3 [] []. constructor; congruence. Qed.

Ltac af_leaf :=
  constructor; cbn;
  first [ done | by eapply (ae_time Henv) | by eapply (ae_node_id Henv) | by eapply (ae_member Henv) ].

Lemma af_time_millis : respects apply_frame (raft_time_millis cb).
Proof. srv af_leaf. Qed.

Lemma af_apply_cfg e i : respects apply_frame (raft_handle_apply_cfg_change cb e i).
Proof. srv af_leaf. Qed.

Lemma af_set_pending : respects apply_frame (@raft_set_pending L W).
Proof. srv af_leaf. Qed.

Lemma af_when_unset b : respects apply_frame
  (when b (upd (fun me : raft_server L => me <| voting_cfg_change_log_idx := -1 |>))).
Proof. srv af_leaf. Qed.

Lemma af_when_cfg b e i : respects apply_frame (when b (raft_handle_apply_cfg_change cb e i)).
Proof. apply respects_when; [apply _|apply af_apply_cfg]. Qed.

(** [n] entries have been applied between two states. *)
Record applies (n : nat) (s s' : St L W) : Prop := {
  ap_wf : log_wf (srv_log (fst s'));
  ap_abs : abs s' = abs s;
  ap_commit : commit_idx (fst s') = commit_idx (fst s);
  ap_idx : last_applied_idx (fst s') = last_applied_idx (fst s) + Z.of_nat n;
  ap_deadline : exec_deadline (fst s') = exec_deadline (fst s);
  ap_applied : applied (snd s') = applied (snd s) ++ alog_run (abs s) (last_applied_idx (fst s)) n
}.

Lemma applies_frame s s' : log_wf (srv_log (fst s)) -> apply_frame s s' -> applies 0 s s'.
Proof.
  intros Hwf []. constructor; try congruence; [lia|]. simpl. by rewrite app_nil_r.
Qed.

Lemma applies_trans n m s1 s2 s3 e :
  n = 1%nat -> alog_get (abs s1) (last_applied_idx (fst s1) + 1) = Some e ->
  applies n s1 s2 -> applies m s2 s3 -> applies (S m) s1 s3.
Proof.
  intros -> He [] []. constructor; try congruence; [lia|].
  rewrite ap_applied1, ap_applied0, ap_abs0, ap_idx0. simpl. by rewrite He, <- app_assoc.
Qed.

(** One entry. *)
Lemma apply_entry_spec s r s' :
  log_wf (srv_log (fst s)) -> raft_apply_entry cb s = Done (r, s') ->
  (r = 0 /\ applies 1 s s' /\
   exists e, alog_get (abs s) (last_applied_idx (fst s) + 1) = Some e /\
             last_applied_term (fst s') = ety_term e) \/
  (r <> 0 /\ applies 0 s s').
Proof.
  intros Hwf E. destruct (ae_apply Henv) as (f & Hf & Hspec).
  unfold raft_apply_entry, get_me in E. rewrite Hf in E.
  done_step. done_step; [done_step; right; split; [lia|by apply applies_frame]|].
  done_step; [done_step; right; split; [lia|by apply applies_frame]|].
  done_step. apply zoom_done in Hrun as (l & Hget & ->).
  destruct (log_get_spec _ (last_applied_idx (fst s) + 1) Hwf) as (l1 & E1 & Hwf1 & Habs).
  rewrite Hget in E1. injection E1 as -> ->.
  destruct (alog_get (abs s) _) as [e|] eqn:Eg.
  2: { done_step. right. split; [lia|]. constructor; cbn; try done; [lia|]. by rewrite app_nil_r. }
  specialize (Hspec ((fst s) <| srv_log := l1 |>) (snd s) e (last_applied_idx (fst s) + 1)).
  done_step. set (w1 := snd (f _ _ _ _)) in Hspec.
  assert (s0 = ((fst s) <| srv_log := l1 |>, w1) /\
          a = fst (f ((fst s) <| srv_log := l1 |>) (snd s) e (last_applied_idx (fst s) + 1)))
    as [-> ->].
  { clear E. done_step. rewrite call_out_run in Hrun0. run_done. by simplify_eq. }
  clear Hrun. destruct Hspec as [[Hr Hw]|[Hr Hw]]; rewrite Hr in E.
  2: { cbn in E. done_step. right. split; [done|]. constructor; cbn; try done; [lia|].
       by rewrite app_nil_r. }
  change (0 =? RAFT_ERR_SHUTDOWN) with false in E. unfold upd at 1 in E. do 3 done_step. cbn in Hrun.
  apply af_when_unset in Hrun. done_step. apply af_when_cfg in Hrun0. done_step.
  assert (apply_frame (((fst s) <| srv_log := l1 |> <| last_applied_idx := last_applied_idx (fst s) + 1 |>
                                <| last_applied_term := ety_term e |>), w1) s1)
    as [Hl Hc Hi Ht Hd Ha] by (by transitivity s0).
  cbn in *. left. split; [done|]. split; [|exists e; by rewrite Ht].
  constructor; rewrite ?Hl, ?Hc, ?Hi, ?Ha; try done. simpl. by rewrite Hw, Eg.
Qed.

Lemma applies_frame_l n s s1 s' : apply_frame s s1 -> applies n s1 s' -> applies n s s'.
Proof. intros [] []. constructor; congruence. Qed.

(** The loop of [raft_apply_all]. *)
Lemma apply_loop_spec n : forall s r s',
  log_wf (srv_log (fst s)) -> raft_apply_all_loop cb n s = Done (r, s') ->
  exists k, applies k s s' /\
    (last_applied_idx (fst s) <= commit_idx (fst s) ->
     last_applied_idx (fst s') <= commit_idx (fst s')) /\
    (r = 0 -> commit_idx (fst s') <= last_applied_idx (fst s') \/ pending_operations (fst s') = 1).
Proof.
  induction n as [|n IH]; intros s r s' Hwf E; simpl in E; unfold get_me in E; done_step.
  { run_done. exists 0%nat. split_and!; [by apply applies_frame|lia|lia]. }
  done_step; [|done_step; exists 0%nat; split_and!; [by apply applies_frame|lia|lia]].
  done_step. apply af_time_millis in Hrun as Hf. clear Hrun. done_step.
  { done_step. apply af_set_pending in Hrun as Hp. done_step. exists 0%nat.
    assert (apply_frame s s1) as Hs by (by etransitivity).
    split_and!; [by apply applies_frame|destruct Hs; lia|].
    intros _. right. unfold raft_set_pending, incr_stat, upd in Hrun. by run_done. }
  done_step. rewrite <- (af_log _ _ Hf) in Hwf. apply apply_entry_spec in Hrun as Hr; [|done].
  destruct Hr as [(-> & Ha & e & He & _)|[Hr Ha]].
  - cbn in E. apply IH in E as (k & Hk & Hle & Hz); [|apply Ha]. exists (S k).
    split_and!; [|intros; apply Hle; destruct Hf, Ha; lia|done].
    eapply applies_frame_l; [exact Hf|]. by eapply applies_trans.
  - destruct (Z.eqb_spec a0 0); [lia|]. cbn in E. done_step. exists 0%nat.
    split_and!; [by eapply applies_frame_l|destruct Hf, Ha; lia|lia].
Qed.

(** ** Termination *)

Lemma apply_entry_loopless s :
  log_wf (srv_log (fst s)) -> raft_apply_entry cb s <> OutOfFuel.
Proof using.
  intros Hwf. unfold raft_apply_entry. apply bind_loopless_at; [done|]. intros me s1 E.
  unfold get_me, gets in E. injection E as <- <-. destruct (negb _); [done|]. destruct (_ =? _); [done|].
  apply bind_loopless_at.
  - unfold raft_get_entry_from_idx, on_log, zoom.
    by destruct (log_get_spec _ (last_applied_idx (fst s) + 1) Hwf) as (l & -> & _).
  - intros ety s1 _. loopless_solve.
Qed.

Lemma apply_loop_returns n : forall s,
  log_wf (srv_log (fst s)) -> commit_idx (fst s) - last_applied_idx (fst s) <= Z.of_nat n ->
  raft_apply_all_loop cb n s <> OutOfFuel.
Proof.
  induction n as [|n IH]; intros s Hwf Hn; simpl; (apply bind_loopless_at; [done|]);
    intros me s1 E; unfold get_me, gets in E; injection E as <- <-.
  - by destruct (Z.ltb_spec (last_applied_idx (fst s)) (commit_idx (fst s))); [lia|].
  - destruct (_ <? _); [|done]. apply bind_loopless_at.
    { loopless_solve. }
    intros now s1 E1. apply af_time_millis in E1. destruct (_ <? now).
    { loopless_solve. }
    destruct E1 as [Hl Hc Hi _ _ _]. rewrite <- Hl in Hwf.
    apply bind_loopless_at; [by apply apply_entry_loopless|]. intros r s2 E2.
    destruct (Z.eqb_spec r 0) as [->|]; cbn; [|done].
    apply apply_entry_spec in E2 as [(_ & [] & _)|[? _]]; [|done|done]. apply IH; [done|lia].
Qed.

(** C9 (functional). [raft_apply_all] gives the state machine exactly the
    entries after the last applied one, each once and in log order, with its
    index; it never passes the commit index, changes neither log nor commit
    index, and when it returns 0 from an allowed state either everything
    committed is applied or the time slice is used up. *)
Theorem apply_all_in_order (s s' : St L W) (r : Z) :
  log_wf (srv_log (fst s)) -> raft_is_apply_allowed (fst s) = true ->
  last_applied_idx (fst s) <= commit_idx (fst s) ->
  raft_apply_all cb s = Done (r, s') ->
  abs s' = abs s /\ commit_idx (fst s') = commit_idx (fst s) /\
  last_applied_idx (fst s) <= last_applied_idx (fst s') <= commit_idx (fst s) /\
  applied (snd s') = applied (snd s) ++
    alog_run (abs s) (last_applied_idx (fst s))
      (Z.to_nat (last_applied_idx (fst s') - last_applied_idx (fst s))) /\
  (r = 0 -> last_applied_idx (fst s') = commit_idx (fst s) \/ pending_operations (fst s') = 1).
Proof using Henv.
  intros Hwf Hallow Hle E. unfold raft_apply_all, get_me in E. done_step. rewrite Hallow in E. cbn in E.
  apply apply_loop_spec in E as (k & [] & Hb & Hz); [|done]. specialize (Hb Hle).
  split_and!; try done; try lia.
  by replace (Z.to_nat (last_applied_idx (fst s') - last_applied_idx (fst s))) with k by lia.
Qed.

(** C19 (termination). The loop of [raft_apply_all] is never cut short: on a
    well-formed log [commit_idx - last_applied_idx] iterations are enough, for
    every behaviour of the callbacks. *)
Theorem apply_all_terminates (s : St L W) :
  log_wf (srv_log (fst s)) -> raft_apply_all cb s <> OutOfFuel.
Proof using Henv.
  intros Hwf. unfold raft_apply_all. apply bind_loopless_at; [done|].
  intros me s1 E. unfold get_me, gets in E. injection E as <- <-. destruct (negb _); [done|].
  apply apply_loop_returns; [done|]. lia.
Qed.

End Apply.

(** ** Read requests *)

Section Reads.
Context {L W : Type} `{LogSpec L} (cb : raft_cbs L W).

(** [reads] records the answers given to read requests; only the read callback
    changes it. *)
Context (reads : W -> list (Z * bool)).

Record read_env : Prop := {
  re_read w a b : reads (snd (env_read_cb cb w a b)) = reads w ++ [(a, b)];
  re_time f : cb_timestamp cb = Some f -> forall me w, reads (snd (f me w)) = reads w
}.

Context (Henv : read_env).

(** The answers given to requests [q]. *)
Definition answers (b : bool) (q : list raft_read_request) : list (Z * bool) :=
  (fun r => (rr_cb_arg r, b)) <$> q.

Lemma pop_read_queue_spec b s u s' r q :
  read_queue (fst s) = r :: q -> pop_read_queue cb b s = Done (u, s') ->
  fst s' = (fst s) <| read_queue := q |> /\ reads (snd s') = reads (snd s) ++ answers b [r].
Proof.
  intros Hq E. unfold pop_read_queue, get_me, upd in E. done_step. rewrite Hq in E.
  done_step. rewrite call_out_run in Hrun. run_done. simplify_eq. cbn. split; [done|].
  apply (re_read Henv).
Qed.

Lemma read_queue_drop_spec n : forall s u s',
  n = length (read_queue (fst s)) -> read_queue_drop cb n s = Done (u, s') ->
  read_queue (fst s') = [] /\ reads (snd s') = reads (snd s) ++ answers false (read_queue (fst s)).
Proof.
  induction n as [|n IH]; intros s u s' Hn E; simpl in E.
  - destruct (read_queue (fst s)) eqn:Hq; [|done]. done_step. simpl. by rewrite app_nil_r.
  - destruct (read_queue (fst s)) as [|r q] eqn:Hq; [done|]. done_step.
    eapply pop_read_queue_spec in Hrun as [Hf Hr]; [|exact Hq].
    apply IH in E as [He Ha]; rewrite Hf in *; [|simpl in *; lia].
    split; [done|]. rewrite Ha, Hr. simpl. by rewrite <- app_assoc.
Qed.

Lemma read_queue_serve_spec n acked : forall s u s',
  read_queue_serve cb n acked s = Done (u, s') ->
  exists k, read_queue (fst s') = drop k (read_queue (fst s)) /\
    reads (snd s') = reads (snd s) ++ answers true (take k (read_queue (fst s))) /\
    Forall (fun r => rr_msg_id r <= acked /\ rr_read_idx r <= last_applied_idx (fst s))
           (take k (read_queue (fst s))).
Proof.
  induction n as [|n IH]; intros s u s' E; simpl in E.
  { done_step. exists 0%nat. simpl. rewrite app_nil_r. by split_and!. }
  unfold get_me in E. done_step. destruct (read_queue (fst s)) as [|r q] eqn:Hq.
  { done_step. exists 0%nat. simpl. rewrite app_nil_r, Hq. by split_and!. }
  done_step.
  2: { done_step. exists 0%nat. simpl. rewrite app_nil_r, Hq. by split_and!. }
  done_step. assert (fst s0 = fst s /\ reads (snd s0) = reads (snd s)) as [Hf0 Hr0].
  { clear E. unfold raft_time_millis in Hrun. run_done; [|done].
    rewrite call_out_run in Hrun0. simplify_eq. split; [done|]. by eapply (re_time Henv). }
  clear Hrun. done_step.
  { unfold raft_set_pending, incr_stat, upd in E. run_done. exists 0%nat. simpl.
    rewrite app_nil_r, Hf0, Hq. by split_and!. }
  done_step. eapply pop_read_queue_spec in Hrun as [Hf Hr]; [|by rewrite Hf0].
  apply IH in E as (k & Hk & Ha & Hall). exists (S k). rewrite Hf in *. cbn in *.
  rewrite Hk, Ha, Hr, Hr0, <- app_assoc. rewrite Hf0 in Hall. cbn in Hall.
  split_and!; [done..|]. constructor; [lia|done].
Qed.

(** C10 (safety). [raft_process_read_queue] answers positively only a prefix of
    the queue, only on a leader that has applied an entry of its term, and only
    requests whose message id a majority of the voting nodes has acknowledged
    and whose read index is applied.  A server that is not leader refuses every
    queued request. *)
Theorem read_queue_safe (s s' : St L W) (u : unit) :
  raft_process_read_queue cb s = Done (u, s') ->
  (raft_is_leader (fst s) = false ->
   read_queue (fst s') = [] /\
   reads (snd s') = reads (snd s) ++ answers false (read_queue (fst s))) /\
  (raft_is_leader (fst s) = true -> exists k,
   read_queue (fst s') = drop k (read_queue (fst s)) /\
   reads (snd s') = reads (snd s) ++ answers true (take k (read_queue (fst s))) /\
   (k <> O -> read_queue (fst s) <> [] -> current_term (fst s) <= last_applied_term (fst s)) /\
   Forall (fun r => quorum_reached (fst s) (acked_msg (fst s)) (rr_msg_id r) /\
                    rr_read_idx r <= last_applied_idx (fst s))
          (take k (read_queue (fst s)))).
Proof using Henv.
  intros E. unfold raft_process_read_queue, get_me in E. done_step.
  destruct (read_queue (fst s)) as [|r q] eqn:Hq.
  { done_step. rewrite Hq. simpl. rewrite app_nil_r. split; [done|].
    intros _. exists 0%nat. split_and!; try done. simpl. by rewrite app_nil_r. }
  destruct (raft_is_leader (fst s)) eqn:Hl; cbn [negb] in E; (split; [intros|intros]; try done).
  - done_step.
    { done_step. exists 0%nat. simpl. rewrite app_nil_r. by split_and!. }
    done_step. apply quorum_msg_id_spec in Hrun as (-> & Hm & _).
    apply read_queue_serve_spec in E as (k & Hk & Ha & Hall). rewrite Hq in *. exists k.
    split_and!; [done..|lia|]. eapply Forall_impl; [|exact Hall]. cbn. intros r0 [Hr1 Hr2].
    split; [|done]. by eapply quorum_reached_le.
  - eapply read_queue_drop_spec in E; [|by rewrite Hq]. by rewrite Hq in E.
Qed.

End Reads.

(** ** On the deployment of [RaftDemo] *)

Lemma demo_apply_env self : apply_env (demo_cbs self) w_applied.
Proof. constructor; try done. eexists. split; [reflexivity|]. intros. by left. Qed.

Lemma demo_read_env self : read_env (demo_cbs self) w_reads.
Proof. by constructor. Qed.

(** The leader of [RaftQuorum], its first entry committed, with a queued read. *)
Definition demo_committed : St mem_log world :=
  final (raft_update_commit_idx ;;
         raft_recv_read_request (demo_cbs 1) 10 77) demo_acked.

Lemma demo_committed_wf : log_wf (srv_log (fst demo_committed)).
Proof.
  exists [mk_entry 1 2 0 RAFT_LOGTYPE_NO_OP []]. vm_compute. constructor; simpl; try lia; try done.
  intros [|k] e [=<-]; reflexivity.
Qed.

Lemma apply_all_in_order_witness :
  let s' := final (raft_apply_all (demo_cbs 1)) demo_committed in
  w_applied (snd s') = w_applied (snd demo_committed) ++
    alog_run (log_abs (srv_log (fst demo_committed))) 0
      (Z.to_nat (last_applied_idx (fst s') - 0)) /\
  w_applied (snd s') = [(mk_entry 1 2 0 RAFT_LOGTYPE_NO_OP [], 1)].
Proof.
  intros s'. split; [|vm_compute; reflexivity].
  apply (apply_all_in_order (demo_cbs 1) w_applied (demo_apply_env 1) demo_committed s' 0).
  - exact demo_committed_wf.
  - vm_compute. reflexivity.
  - vm_compute. congruence.
  - vm_compute. reflexivity.
Defined.

Lemma apply_all_terminates_witness :
  raft_apply_all (demo_cbs 1) demo_committed <> OutOfFuel.
Proof.
  exact (apply_all_terminates (demo_cbs 1) w_applied (demo_apply_env 1) demo_committed
           demo_committed_wf).
Defined.

(** The read waits for a majority to acknowledge a message sent after it. *)
Definition demo_read_ready : St mem_log world :=
  final (raft_apply_all (demo_cbs 1) ;;
         raft_send_appendentries_all (demo_cbs 1) 10 ;;
         raft_recv_appendentries_response (demo_cbs 1) 10 (Some 2) (mk_ae_resp 5 1 true 1))
    demo_committed.

Lemma read_queue_safe_witness :
  read_queue (fst demo_read_ready) = [mk_read_request 1 3 77] /\
  let s' := final (raft_process_read_queue (demo_cbs 1)) demo_read_ready in
  exists k, w_reads (snd s') = answers true (take k [mk_read_request 1 3 77]) /\
    w_reads (snd s') = [(77, true)].
Proof.
  split; [vm_compute; reflexivity|]. intros s'.
  destruct (read_queue_safe (demo_cbs 1) w_reads (demo_read_env 1) demo_read_ready s' tt)
    as [_ Hlead].
  - vm_compute. reflexivity.
  - destruct Hlead as (k & _ & Hr & _); [vm_compute; reflexivity|].
    exists k. split; [exact Hr|vm_compute; reflexivity].
Defined.
