(* ===== verification/RaftElection.v ===== *)
(** * Elections

    A cluster of servers that exchange RequestVote messages over a network that
    may lose, duplicate, delay and reorder them, with crashes and restarts from
    the persisted term and vote.  With a fixed membership of voting and
    non-voting nodes, no term ever has two leaders. *)

From stdpp Require Import base list numbers tactics relations.
From S2P Require Import Prelude RaftTypes RaftNode RaftState RaftServer RaftApi RaftLogic.
From S2P Require Import RaftDemo RaftQuorum.

Local Open Scope Z_scope.

(** ** What elections depend on *)

Definition same_electors {L} (me me' : raft_server L) : Prop :=
  elector <$> nodes me' = elector <$> nodes me /\ my_node me' = my_node me.

#[export] Instance same_electors_preorder L : PreOrder (@same_electors L).
Proof. split; [by intros me|]. intros m1 m2 m3 [] []. split; congruence. Qed.

Lemma update_node_electors p f ns :
  keeps_elector f -> elector <$> update_node p f ns = elector <$> ns.
Proof.
  intros Hf. unfold update_node. rewrite <- list_fmap_compose. apply list_fmap_ext.
  intros k [q n] _. simpl. destruct (p =? q); [apply Hf|done].
Qed.

Section Env.
Context {L W : Type} `{LogSpec L}.

(** [disk] is the persisted term and vote; [outbox] the vote requests sent, with
    their destinations. *)
Context (disk : W -> Z * Z) (outbox : W -> list (Z * raft_requestvote_req)).

Definition same_world (w w' : W) : Prop := disk w' = disk w /\ outbox w' = outbox w.

#[export] Instance same_world_preorder : PreOrder same_world.
Proof. split; [by intros w|]. intros w1 w2 w3 [] []. split; congruence. Qed.

#[export] Instance electors_quiet_rel : QuietRel (@same_electors L) same_world.
Proof.
  constructor; try apply _.
  - intros me me' Hn Hm. split; [by rewrite Hn|done].
  - intros me p f Hf. split; [by apply update_node_electors|done].
Qed.

(** The environment of one server: membership is static, persisting works, and
    only [persist_metadata] writes the disk and only [send_requestvote] puts
    requests on the network. *)
Class ElectionEnv (cb : raft_cbs L W) : Prop := {
  ee_quiet :: QuietCtx (@same_electors L) same_world cb;
  ee_static : cb_get_node_id cb = None;
  ee_persist : exists f, cb_persist_metadata cb = Some f /\ forall me w t v,
    fst (f me w t v) = 0 /\ disk (snd (f me w t v)) = (t, v) /\
    outbox (snd (f me w t v)) = outbox w;
  ee_send f : cb_send_requestvote cb = Some f -> forall me w n r,
    disk (snd (f me w n r)) = disk w /\
    (outbox (snd (f me w n r)) = outbox w \/
     outbox (snd (f me w n r)) = outbox w ++ [(node_id n, r)])
}.

End Env.

Section Election.
Context {L W : Type} `{LogSpec L} (cb : raft_cbs L W) (fuel : nat).
Context (disk : W -> Z * Z) (outbox : W -> list (Z * raft_requestvote_req)).
Context {EE : ElectionEnv disk outbox cb}.

Abbreviation RN := (@same_electors L).
Abbreviation RW := (same_world disk outbox).

(** Nothing elections depend on changes, except possibly the role. *)
Record eframe (s s' : St L W) : Prop := {
  ef_term : current_term (fst s') = current_term (fst s);
  ef_vote : voted_for (fst s') = voted_for (fst s);
  ef_nodes : RN (fst s) (fst s');
  ef_world : RW (snd s) (snd s')
}.

(** The role neither. *)
Definition same_elect (s s' : St L W) : Prop :=
  eframe s s' /\ srv_state (fst s') = srv_state (fst s).

#[local] Instance eframe_preorder : PreOrder eframe.
Proof.
  split; [by intros s|]. intros s1 s2 s3 [] [].
  constructor; try congruence; by etransitivity.
Qed.

#[local] Instance same_elect_preorder : PreOrder same_elect.
Proof.
  split; [by intros s|]. intros s1 s2 s3 [] []. split; [by etransitivity|congruence].
Qed.

#[local] Instance eframe_coarser : Coarser RN RW eframe.
Proof. by intros s s' []. Qed.

#[local] Instance same_elect_coarser : Coarser RN RW same_elect.
Proof. by intros s s' []. Qed.

Ltac nodes_leaf :=
  first [ done
        | split; [reflexivity|reflexivity]
        | split; [apply update_node_electors; first [done|apply keeps_max_seen|apply keeps_sufficient]
                |reflexivity] ].

Ltac ef_leaf := constructor; cbn; [done|done|nodes_leaf|done].
Ltac se_leaf := split; [ef_leaf|done].

(** ** Operations elections do not notice *)

Lemma se_append_entry e : respects same_elect (raft_append_entry cb e).
Proof. srv_coarse se_leaf. Qed.
#[local] Hint Resolve se_append_entry : respects.

Lemma se_delete_loop n i : respects same_elect (raft_delete_entry_loop cb n i).
Proof. revert i. induction n as [|n IH]; intros i; simpl; srv_coarse se_leaf. Qed.
#[local] Hint Resolve se_delete_loop : respects.

Lemma se_ae_scan es i c : respects same_elect (ae_scan cb es i c).
Proof. revert i c. induction es as [|e es IH]; intros i c; simpl; srv_coarse se_leaf. Qed.

Lemma se_ae_append es i c : respects same_elect (ae_append cb es i c).
Proof. revert i c. induction es as [|e es IH]; intros i c; simpl; srv_coarse se_leaf. Qed.
#[local] Hint Resolve se_ae_scan se_ae_append : respects.

Lemma se_ae_accept req : respects same_elect (ae_accept cb req).
Proof. srv_coarse se_leaf. Qed.
#[local] Hint Resolve se_ae_accept : respects.

(** ** Role changes *)

Lemma become_follower_spec s u s' :
  raft_become_follower cb s = Done (u, s') ->
  eframe s s' /\ srv_state (fst s') = RAFT_STATE_FOLLOWER.
Proof.
  intros E. unfold raft_become_follower in E. done_step.
  assert (eframe s s0 /\ srv_state (fst s0) = RAFT_STATE_FOLLOWER) as [Hf Hst].
  { unfold raft_set_state, upd in Hrun. cbn in Hrun. run_done. by split. }
  match type of E with ?m _ = _ => assert (respects same_elect m) as Hm end.
  { srv_coarse se_leaf. }
  apply Hm in E as [Hf' Hst']. split; [by transitivity s0|congruence].
Qed.

Lemma accept_leader_spec l s u s' :
  raft_accept_leader cb l s = Done (u, s') ->
  eframe s s' /\ srv_state (fst s') = RAFT_STATE_FOLLOWER.
Proof.
  intros E. unfold raft_accept_leader, get_me in E. do 2 done_step.
  assert (eframe s s0 /\ srv_state (fst s0) = RAFT_STATE_FOLLOWER) as [Hf Hst].
  { clear E. unfold raft_is_follower in Hrun.
    destruct (bool_decide_reflect (srv_state (fst s) = RAFT_STATE_FOLLOWER)); cbn in Hrun.
    - by done_step.
    - by eapply become_follower_spec. }
  match type of E with ?m _ = _ => assert (respects same_elect m) as Hm end.
  { srv_coarse se_leaf. }
  apply Hm in E as [Hf' Hst']. split; [by transitivity s0|congruence].
Qed.

(** [raft_become_leader] returns early on an error, or makes the server leader. *)
Definition maybe_leader (s s' : St L W) : Prop :=
  eframe s s' /\ (srv_state (fst s') = srv_state (fst s) \/ srv_state (fst s') = RAFT_STATE_LEADER).

#[local] Instance maybe_leader_preorder : PreOrder maybe_leader.
Proof.
  split; [split; [done|by left]|]. intros s1 s2 s3 [H12 S12] [H23 S23].
  split; [by transitivity s2|]. destruct S23 as [->|]; auto.
Qed.

#[local] Instance maybe_leader_coarser : Coarser RN RW maybe_leader.
Proof. intros s s' []. split; [done|by left]. Qed.

Lemma become_leader_spec : respects maybe_leader (raft_become_leader cb fuel).
Proof. srv_coarse ltac:(split; [ef_leaf|first [by left | by right]]). Qed.

(** ** Vote history

    [H v t] is the candidate that voter [v] has voted for in term [t]. *)
Definition history : Type := Z -> Z -> option Z.

(** Server [i] has added votes of its own. *)
Definition grows (i : Z) (H H' : history) : Prop :=
  forall v t, H' v t = H v t \/ (v = i /\ H v t = None).

Lemma grows_refl i h : grows i h h.
Proof. intros v t. by left. Qed.

Lemma grows_trans i h1 h2 h3 : grows i h1 h2 -> grows i h2 h3 -> grows i h1 h3.
Proof.
  intros H12 H23 v t. destruct (H12 v t) as [E|[-> E]]; [|by right].
  rewrite <- E. destruct (H23 v t) as [|[-> ?]]; auto.
Qed.

Lemma grows_Some i h h' v t c : grows i h h' -> h v t = Some c -> h' v t = Some c.
Proof. intros Hg E. destruct (Hg v t) as [->|[_ ?]]; congruence. Qed.

Definition add_vote (i t c : Z) (h : history) : history :=
  fun v t' => if bool_decide (v = i /\ t' = t) then Some c else h v t'.

Lemma add_vote_eq i t c h : add_vote i t c h i t = Some c.
Proof. unfold add_vote. by rewrite bool_decide_true. Qed.

Lemma add_vote_ne i t c h v t' : v <> i \/ t' <> t -> add_vote i t c h v t' = h v t'.
Proof. intros. unfold add_vote. rewrite bool_decide_false; [done|]. intros [-> ->]. tauto. Qed.

Lemma add_vote_grows i t c h : h i t = None -> grows i h (add_vote i t c h).
Proof.
  intros Hn v t'. unfold add_vote. case_bool_decide as E; [|by left].
  destruct E as [-> ->]. by right.
Qed.

(** ** The invariant of one server *)

(** The members of the cluster and whether they vote. *)
Context (members : list (Z * bool)).

Definition voters : list Z := fst <$> List.filter snd members.

Definition peers (me : raft_server L) : list (Z * bool) :=
  (fun pn => (node_id (snd pn), raft_node_is_voting (snd pn))) <$> nodes me.

Record static (i : Z) (me : raft_server L) : Prop := {
  st_peers : peers me ≡ₚ members;
  st_ptrs : NoDup (node_ptrs (nodes me));
  st_self : exists p n, my_node me = Some p /\ (p, n) ∈ nodes me /\ node_id n = i
}.

(** The peers whose votes the server counts. *)
Definition counts (me : raft_server L) (pn : Z * raft_node) : bool :=
  raft_node_is_voting (snd pn) &&
  (raft_node_has_vote_for_me (snd pn) || bool_decide (my_node me = Some (fst pn))).

(** A majority of the voters has voted for [i] in term [t]. *)
Definition elected (h : history) (i t : Z) : Prop :=
  exists q, NoDup q /\ q ⊆ voters /\
    raft_votes_is_majority (Z.of_nat (length voters)) (Z.of_nat (length q)) = true /\
    forall v, v ∈ q -> h v t = Some i.

Record ginv (h : history) (i : Z) (s : St L W) : Prop := {
  gi_static : static i (fst s);
  gi_disk : disk (snd s) = (current_term (fst s), voted_for (fst s));
  gi_future t : current_term (fst s) < t -> h i t = None;
  gi_vote : h i (current_term (fst s)) =
            if voted_for (fst s) =? RAFT_NODE_ID_NONE then None else Some (voted_for (fst s));
  gi_cand : srv_state (fst s) = RAFT_STATE_CANDIDATE ->
            forall pn, pn ∈ nodes (fst s) -> counts (fst s) pn = true ->
            h (node_id (snd pn)) (current_term (fst s)) = Some i;
  gi_lead : srv_state (fst s) = RAFT_STATE_LEADER -> elected h i (current_term (fst s));
  gi_out d req : (d, req) ∈ outbox (snd s) -> rv_prevote req = false -> rv_candidate_id req = i
}.

(** A step of server [i]. *)
Definition es (i : Z) (s s' : St L W) : Prop :=
  forall h, ginv h i s -> exists h', grows i h h' /\ ginv h' i s'.

#[local] Instance es_preorder i : PreOrder (es i).
Proof.
  split; [intros s h Hi; exists h; by split; [apply grows_refl|]|].
  intros s1 s2 s3 H12 H23 h1 Hi1. destruct (H12 h1 Hi1) as (h2 & G2 & Hi2).
  destruct (H23 h2 Hi2) as (h3 & G3 & Hi3). exists h3. split; [by eapply grows_trans|done].
Qed.

(** ** Steps that keep the invariant *)

Lemma electors_peers me me' : RN me me' -> peers me' = peers me.
Proof.
  intros [He _]. unfold peers.
  assert (forall ns : list (Z * raft_node),
    (fun pn => (node_id (snd pn), raft_node_is_voting (snd pn))) <$> ns =
    (fun e : Z * Z * bool * bool => (snd (fst (fst e)), snd (fst e))) <$> (elector <$> ns)) as Hp.
  { intros ns. rewrite <- list_fmap_compose. by apply list_fmap_ext. }
  by rewrite !Hp, He.
Qed.

Lemma electors_ptrs me me' : RN me me' -> node_ptrs (nodes me') = node_ptrs (nodes me).
Proof.
  intros [He _]. unfold node_ptrs.
  assert (forall ns : list (Z * raft_node),
    fst <$> ns = (fun e : Z * Z * bool * bool => fst (fst (fst e))) <$> (elector <$> ns)) as Hp.
  { intros ns. rewrite <- list_fmap_compose. by apply list_fmap_ext. }
  by rewrite !Hp, He.
Qed.

(** The peer with the same elector data. *)
Lemma electors_elem me me' pn :
  RN me me' -> pn ∈ nodes me' -> exists pn', pn' ∈ nodes me /\ elector pn' = elector pn.
Proof.
  intros [He _] Hin. assert (elector pn ∈ elector <$> nodes me) as Hin'.
  { rewrite <- He. by apply list_elem_of_fmap_2. }
  apply list_elem_of_fmap in Hin' as (pn' & -> & ?). eauto.
Qed.

Lemma elector_counts me me' pn pn' :
  my_node me' = my_node me -> elector pn' = elector pn ->
  counts me' pn = counts me pn' /\ node_id (snd pn) = node_id (snd pn').
Proof.
  intros Hm [= Hp Hi Hv Hf]. unfold counts. by rewrite Hm, Hp, Hv, Hf.
Qed.

Lemma static_electors i me me' : RN me me' -> static i me -> static i me'.
Proof.
  intros HR [Hp Hn (p & n & Hm & Hin & Hid)]. split.
  - by rewrite (electors_peers _ _ HR).
  - by rewrite (electors_ptrs _ _ HR).
  - assert (RN me' me) as HR' by (destruct HR; by split).
    destruct (electors_elem _ _ _ HR' Hin) as ([p' n'] & Hin' & [= -> Hi _ _]).
    exists p, n'. destruct HR as [_ ->]. by rewrite <- Hid.
Qed.

Lemma ginv_same h i s s' : same_elect s s' -> ginv h i s -> ginv h i s'.
Proof.
  intros [[Ht Hv HR [Hd Ho]] Hst] []. split; rewrite ?Ht, ?Hv, ?Hst, ?Hd, ?Ho; try done.
  - by eapply static_electors.
  - intros Hc pn Hin Hct. destruct (electors_elem _ _ _ HR Hin) as (pn' & Hin' & He).
    destruct (elector_counts _ _ _ _ (proj2 HR) He) as [Hcnt ->]. apply gi_cand0; [done..|congruence].
Qed.

Lemma es_same i s s' : same_elect s s' -> es i s s'.
Proof. intros Hs h Hi. exists h. split; [apply grows_refl|by eapply ginv_same]. Qed.

#[local] Instance es_coarser i : Coarser RN RW (es i).
Proof. intros s s' Hq. apply es_same. by apply coarser. Qed.

Lemma es_of_same {A} i (m : M (St L W) A) : respects same_elect m -> respects (es i) m.
Proof. apply respects_mono. intros. by apply es_same. Qed.

(** [raft_set_current_term]: persisted, and a larger term has no vote. *)
Record raised (s s' : St L W) : Prop := {
  ra_nodes : nodes (fst s') = nodes (fst s) /\ my_node (fst s') = my_node (fst s);
  ra_state : srv_state (fst s') = srv_state (fst s);
  ra_out : outbox (snd s') = outbox (snd s);
  ra_disk : disk (snd s) = (current_term (fst s), voted_for (fst s)) ->
            disk (snd s') = (current_term (fst s'), voted_for (fst s'));
  ra_term : (current_term (fst s') = current_term (fst s) /\ voted_for (fst s') = voted_for (fst s)) \/
            (current_term (fst s) < current_term (fst s') /\ voted_for (fst s') = RAFT_NODE_ID_NONE)
}.

Lemma raised_refl s : raised s s.
Proof. split; try done. by left. Qed.

Lemma set_current_term_raised t s e s' :
  raft_set_current_term cb t s = Done (e, s') ->
  e = 0 /\ raised s s' /\ (current_term (fst s) < t -> current_term (fst s') = t).
Proof.
  intros E. destruct (ee_persist disk outbox (cb:=cb)) as (f & Hf & Hp).
  unfold raft_set_current_term, get_me, upd in E. rewrite Hf in E. done_step. done_step.
  { done_step. split_and!; [done|apply raised_refl|lia]. }
  destruct (Hp (fst s) (snd s) t RAFT_NODE_ID_NONE) as (Hp1 & Hp2 & Hp3).
  done_step. rewrite call_out_run in Hrun. injection Hrun as <- <-. rewrite Hp1 in E. run_done.
  split; [done|]. split; [|done]. split; try done. right. cbn. split; [lia|done].
Qed.

(** Whatever the role was, a follower in a raised term is fine. *)
Lemma ginv_follower h i s s1 s2 :
  ginv h i s -> raised s s1 -> eframe s1 s2 -> srv_state (fst s2) = RAFT_STATE_FOLLOWER ->
  ginv h i s2.
Proof.
  intros [] [[Hn Hm] _ Ho Hd Ht] [Ht2 Hv2 HR2 [Hd2 Ho2]] Hst.
  specialize (Hd gi_disk0).
  split; rewrite ?Ht2, ?Hv2, ?Hd2, ?Ho2, ?Ho; try done; try congruence.
  - eapply static_electors; [|exact gi_static0]. etransitivity; [|exact HR2]. split; [by rewrite Hn|done].
  - intros t Hlt. apply gi_future0. destruct Ht as [[? _]|[? _]]; lia.
  - destruct Ht as [[-> ->]|[Hlt ->]]; [done|]. by apply gi_future0.
Qed.

Lemma es_become_follower i : respects (es i) (raft_become_follower cb).
Proof.
  intros s u s' E h Hi. apply become_follower_spec in E as [Hf Hst].
  exists h. split; [apply grows_refl|]. eapply ginv_follower; [done|apply raised_refl|done..].
Qed.

Lemma es_step_down i t : respects (es i) (step_down cb t).
Proof.
  intros s e s' E h Hi. unfold step_down in E. done_step.
  apply set_current_term_raised in Hrun as (-> & Hr & _). cbn in E. do 2 done_step.
  apply become_follower_spec in Hrun as [Hf Hst].
  exists h. split; [apply grows_refl|]. by eapply ginv_follower.
Qed.
#[local] Hint Resolve es_become_follower es_step_down : respects.

(** ** Clearing the votes received *)

Lemma elem_of_update_node p f (ns : list (Z * raft_node)) pn :
  pn ∈ update_node p f ns ->
  exists n, (fst pn, n) ∈ ns /\ ((p = fst pn /\ snd pn = f n) \/ (p <> fst pn /\ snd pn = n)).
Proof.
  unfold update_node. intros ([q n] & -> & Hin)%list_elem_of_fmap. simpl.
  destruct (Z.eqb_spec p q) as [->|Hne]; simpl; exists n; auto.
Qed.

(** A flag update that leaves identity and voting right alone. *)
Definition keeps_identity (f : raft_node -> raft_node) : Prop :=
  forall n, node_id (f n) = node_id n /\ raft_node_is_voting (f n) = raft_node_is_voting n.

Lemma keeps_identity_vote b : keeps_identity (raft_node_set_voted_for_me b).
Proof. intros n. split; [done|]. by autorewrite with node. Qed.

Lemma update_node_ptrs p f ns : node_ptrs (update_node p f ns) = node_ptrs ns.
Proof.
  unfold node_ptrs, update_node. rewrite <- list_fmap_compose. apply list_fmap_ext.
  intros k [q n] _. simpl. by destruct (p =? q).
Qed.

Lemma static_update i me p f :
  keeps_identity f -> static i me -> static i (me <| nodes ::= update_node p f |>).
Proof.
  intros Hf [Hp Hn (q & n & Hm & Hin & Hid)]. split; cbn.
  - rewrite <- Hp. unfold peers, update_node. cbn. rewrite <- list_fmap_compose.
    apply reflexive_eq, list_fmap_ext. intros k [q' n'] _. simpl.
    destruct (p =? q'); simpl; [|done]. by destruct (Hf n') as [-> ->].
  - by rewrite update_node_ptrs.
  - exists q, (if p =? q then f n else n). split_and!; [done| |destruct (p =? q); [by rewrite (proj1 (Hf n))|done]].
    apply list_elem_of_fmap. exists (q, n). split; [|done]. simpl. by destruct (p =? q).
Qed.

(** Every peer is still there, with at most the vote it had. *)
Record fewer_votes (s s' : St L W) : Prop := {
  fv_static i : static i (fst s) -> static i (fst s');
  fv_votes pn : pn ∈ nodes (fst s') -> exists n, (fst pn, n) ∈ nodes (fst s) /\
    node_id (snd pn) = node_id n /\ raft_node_is_voting (snd pn) = raft_node_is_voting n /\
    (raft_node_has_vote_for_me (snd pn) = true -> raft_node_has_vote_for_me n = true);
  fv_self : my_node (fst s') = my_node (fst s);
  fv_term : current_term (fst s') = current_term (fst s);
  fv_vote : voted_for (fst s') = voted_for (fst s);
  fv_state : srv_state (fst s') = srv_state (fst s);
  fv_ptrs : node_ptrs (nodes (fst s')) = node_ptrs (nodes (fst s));
  fv_world : snd s' = snd s
}.

#[local] Instance fewer_votes_preorder : PreOrder fewer_votes.
Proof.
  split.
  - intros s. split; try done. intros [p n] Hin. exists n. auto.
  - intros s1 s2 s3 H12 H23. split.
    + intros i Hi. by apply (fv_static _ _ H23), (fv_static _ _ H12).
    + intros pn Hin. destruct (fv_votes _ _ H23 pn Hin) as (n & Hin2 & Hi & Hv & Hf).
      destruct (fv_votes _ _ H12 _ Hin2) as (n' & Hin1 & Hi' & Hv' & Hf'). cbn in *.
      exists n'. split_and!; [done|congruence|congruence|auto].
    + by rewrite (fv_self _ _ H23), (fv_self _ _ H12).
    + by rewrite (fv_term _ _ H23), (fv_term _ _ H12).
    + by rewrite (fv_vote _ _ H23), (fv_vote _ _ H12).
    + by rewrite (fv_state _ _ H23), (fv_state _ _ H12).
    + by rewrite (fv_ptrs _ _ H23), (fv_ptrs _ _ H12).
    + by rewrite (fv_world _ _ H23), (fv_world _ _ H12).
Qed.

Lemma fewer_unvote p : respects fewer_votes (upd_node p (raft_node_set_voted_for_me false)).
Proof.
  apply respects_upd_node; [apply _|]. intros me w. split; try done; cbn.
  - intros i. by apply static_update, keeps_identity_vote.
  - intros pn (n & Hin & [[_ ->]|[_ ->]])%elem_of_update_node; exists n; [|by auto].
    destruct (keeps_identity_vote false n) as [-> ->]. by autorewrite with node.
  - by rewrite update_node_ptrs.
Qed.

Lemma upd_node_done p f (s : St L W) u s' :
  upd_node p f s = Done (u, s') -> s' = ((fst s) <| nodes ::= update_node p f |>, snd s).
Proof. unfold upd_node, deref, get_me, upd. intros E. by run_done. Qed.

(** After the loop, no listed peer has a vote. *)
Lemma clear_loop_spec ps : forall (s : St L W) u s',
  for_each ps (fun p => upd_node p (raft_node_set_voted_for_me false)) s = Done (u, s') ->
  fewer_votes s s' /\
  forall pn, pn ∈ nodes (fst s') -> fst pn ∈ ps -> raft_node_has_vote_for_me (snd pn) = false.
Proof.
  induction ps as [|p ps IH]; intros s u s' E; simpl in E.
  { done_step. split; [done|]. intros pn _ Hin. by apply elem_of_nil in Hin. }
  done_step. apply fewer_unvote in Hrun as Hf. apply upd_node_done in Hrun.
  apply IH in E as [Hf' Hc]. split; [by transitivity s0|].
  intros pn Hin [Heq|Hps]%elem_of_cons; [|by apply Hc].
  destruct (fv_votes _ _ Hf' pn Hin) as (n & Hin0 & _ & _ & Hv).
  rewrite Hrun in Hin0. cbn in Hin0. apply elem_of_update_node in Hin0 as (n0 & _ & [[_ Hn]|[Hne _]]); [|done].
  cbn in Hn. subst n. apply not_true_iff_false. intros Ht. specialize (Hv Ht).
  by autorewrite with node in Hv.
Qed.

Lemma clear_votes_spec (s : St L W) u s' :
  clear_votes s = Done (u, s') ->
  fewer_votes s s' /\
  forall pn, pn ∈ nodes (fst s') -> raft_node_has_vote_for_me (snd pn) = false.
Proof.
  intros E. unfold clear_votes, get_me in E. done_step.
  apply clear_loop_spec in E as [Hf Hc]. split; [done|]. intros pn Hin.
  apply Hc; [done|]. rewrite <- (fv_ptrs _ _ Hf). by apply list_elem_of_fmap_2.
Qed.

Lemma ginv_fewer h i s s' : fewer_votes s s' -> ginv h i s -> ginv h i s'.
Proof.
  intros Hf []. pose proof (fv_world _ _ Hf) as Hw.
  split; rewrite ?(fv_term _ _ Hf), ?(fv_vote _ _ Hf), ?(fv_state _ _ Hf), ?Hw; try done.
  - by apply (fv_static _ _ Hf).
  - intros Hc pn Hin Hcnt. destruct (fv_votes _ _ Hf pn Hin) as (n & Hin0 & Hi & Hv & Hvote).
    rewrite Hi. apply (gi_cand0 Hc (fst pn, n)); [done|]. revert Hcnt.
    unfold counts. cbn. rewrite (fv_self _ _ Hf), Hv, !andb_true_iff, !orb_true_iff. tauto.
Qed.

Lemma es_clear_votes i : respects (es i) clear_votes.
Proof.
  intros s u s' [Hf _]%clear_votes_spec h Hi. exists h.
  split; [apply grows_refl|by eapply ginv_fewer].
Qed.
#[local] Hint Resolve es_clear_votes : respects.

(** ** Asking for votes *)

(** The identity a server puts in its requests. *)
Lemma static_nodeid i (s : St L W) id s' :
  static i (fst s) -> raft_get_nodeid s = Done (id, s') -> id = i /\ s' = s.
Proof.
  intros [_ Hn (p & n & Hm & Hin & Hid)] E. unfold raft_get_nodeid, get_me in E. done_step.
  rewrite Hm in E. unfold raft_node_get_id, deref, get_me in E. run_done.
  split; [|done]. assert (lookup_node p (nodes (fst s)) = Some n) as Hl; [|congruence].
  clear -Hn Hin. induction (nodes (fst s)) as [|[q n'] ns IH]; [by apply elem_of_nil in Hin|].
  simpl in *. apply NoDup_cons in Hn as [Hq Hn]. apply elem_of_cons in Hin as [[= -> ->]|Hin].
  - by rewrite Z.eqb_refl.
  - destruct (Z.eqb_spec p q) as [->|]; [|by apply IH].
    exfalso. apply Hq. by apply (list_elem_of_fmap_2 fst) in Hin.
Qed.

Lemma se_last_log_term : respects same_elect raft_get_last_log_term.
Proof. srv_coarse se_leaf. Qed.

Lemma se_stat f : respects same_elect (incr_stat f).
Proof. srv_coarse se_leaf. Qed.

Lemma deref_done p (s : St L W) n s' : deref p s = Done (n, s') -> s' = s.
Proof. unfold deref, get_me. intros E. by run_done. Qed.

(** One more request of server [i] on the network. *)
Lemma ginv_sent h i me w w' d req :
  disk w' = disk w -> (outbox w' = outbox w \/ outbox w' = outbox w ++ [(d, req)]) ->
  rv_candidate_id req = i -> ginv h i (me, w) -> ginv h i (me, w').
Proof.
  intros Hd Ho Hreq []. split; cbn in *; rewrite ?Hd; try done.
  intros d' req' Hin. destruct Ho as [->| ->] in Hin; [by eapply gi_out0|].
  apply elem_of_app in Hin as [Hin|Hin]; [by eapply gi_out0|].
  apply list_elem_of_singleton in Hin. by injection Hin as -> ->.
Qed.

Lemma NoDup_ptr (ns : list (Z * raft_node)) p n n' :
  NoDup (node_ptrs ns) -> (p, n) ∈ ns -> (p, n') ∈ ns -> n = n'.
Proof.
  intros Hn H1 H2. apply list_elem_of_lookup in H1 as [k1 H1], H2 as [k2 H2].
  assert (k1 = k2) as ->.
  { eapply NoDup_lookup; [exact Hn|..]; unfold node_ptrs; rewrite list_lookup_fmap;
      [by rewrite H1|by rewrite H2]. }
  congruence.
Qed.

Lemma es_send_requestvote i p : respects (es i) (raft_send_requestvote cb p).
Proof.
  intros s e s' E h Hi. exists h. split; [apply grows_refl|].
  unfold raft_send_requestvote, get_me in E. do 4 done_step.
  apply se_last_log_term in Hrun. apply (ginv_same h i) in Hrun; [|done].
  clear s Hi Hassert. rename s0 into s, Hrun into Hi.
  done_step. eapply static_nodeid in Hrun as [Hid Hs]; [|apply Hi]. rewrite Hid, Hs in E. clear Hid Hs s0.
  done_step. destruct (cb_send_requestvote cb) as [f|] eqn:Ef; [|by done_step].
  done_step. assert (same_elect s s0) as Hs0.
  { destruct (raft_is_precandidate (fst s)); by eapply se_stat. }
  apply (ginv_same h i) in Hs0; [|done]. clear Hrun. done_step. apply deref_done in Hrun as ->.
  rewrite call_out_run in E. injection E as <- <-. destruct s0 as [me w]. cbn in *.
  edestruct (ee_send disk outbox (cb:=cb) f Ef) as [Hd Ho].
  eapply ginv_sent; [exact Hd|exact Ho|done|done].
Qed.
#[local] Hint Resolve es_send_requestvote : respects.

Lemma es_request_votes i : respects (es i) (request_votes cb).
Proof. srv_coarse ltac:(idtac). Qed.
#[local] Hint Resolve es_request_votes : respects.

(** ** Becoming a candidate *)

Lemma es_set_state i st :
  st = RAFT_STATE_FOLLOWER \/ st = RAFT_STATE_PRECANDIDATE -> respects (es i) (raft_set_state st).
Proof.
  intros Hst s u s' E h Hi. exists h. split; [apply grows_refl|].
  assert (s' = ((fst s) <| srv_state := st |>, snd s)) as ->.
  { unfold raft_set_state, upd in E. destruct Hst as [-> | ->]; cbn in E; by run_done. }
  destruct Hi as [[]]. destruct Hst as [-> | ->]; split; cbn; done.
Qed.

Lemma es_become_precandidate i : respects (es i) (raft_become_precandidate cb).
Proof.
  unfold raft_become_precandidate. apply respects_bind; [apply _|apply es_clear_votes|intros _].
  apply respects_bind; [apply _|apply es_set_state; auto|intros _]. srv_coarse ltac:(idtac).
Qed.
#[local] Hint Resolve es_become_precandidate : respects.

(** [raft_vote_for_nodeid]: persisted. *)
Lemma vote_for_done id (s : St L W) e s' :
  raft_vote_for_nodeid cb id s = Done (e, s') ->
  e = 0 /\ fst s' = (fst s) <| voted_for := id |> /\
  disk (snd s') = (current_term (fst s), id) /\ outbox (snd s') = outbox (snd s).
Proof.
  intros E. destruct (ee_persist disk outbox (cb:=cb)) as (f & Hf & Hp).
  unfold raft_vote_for_nodeid, get_me, upd in E. rewrite Hf in E. done_step.
  destruct (Hp (fst s) (snd s) (current_term (fst s)) id) as (Hp1 & Hp2 & Hp3).
  done_step. rewrite call_out_run in Hrun. injection Hrun as <- <-. rewrite Hp1 in E. run_done.
  by split_and!.
Qed.

(** A vote cast by server [i], which is neither candidate nor leader, or for
    itself. *)
Lemma ginv_vote h i c s s' :
  ginv h i s -> c <> RAFT_NODE_ID_NONE ->
  (voted_for (fst s) = RAFT_NODE_ID_NONE \/ voted_for (fst s) = c) ->
  fst s' = (fst s) <| voted_for := c |> ->
  disk (snd s') = (current_term (fst s), c) -> outbox (snd s') = outbox (snd s) ->
  exists h', grows i h h' /\ ginv h' i s' /\ h' i (current_term (fst s)) = Some c.
Proof.
  intros [] Hc Hv Hs' Hd Ho.
  exists (if voted_for (fst s) =? RAFT_NODE_ID_NONE then add_vote i (current_term (fst s)) c h else h).
  destruct (Z.eqb_spec (voted_for (fst s)) RAFT_NODE_ID_NONE) as [Hn|Hn].
  - pose proof (add_vote_grows i (current_term (fst s)) c h gi_vote0) as Hg.
    split; [done|]. split; [|apply add_vote_eq].
    split; rewrite ?Hs', ?Hd, ?Ho; cbn; try done.
    + destruct gi_static0. by split.
    + intros t Ht. rewrite add_vote_ne by lia. by apply gi_future0.
    + rewrite add_vote_eq. by destruct (Z.eqb_spec c RAFT_NODE_ID_NONE).
    + intros Hst pn Hin Hcnt. eapply grows_Some; [exact Hg|]. by apply gi_cand0.
    + intros Hst. destruct (gi_lead0 Hst) as (q & ? & ? & ? & Hq). exists q. split_and!; try done.
      intros v Hin. eapply grows_Some; [exact Hg|]. by apply Hq.
  - destruct Hv as [|Hv]; [done|]. split; [apply grows_refl|]. split; [|by rewrite gi_vote0, Hv].
    assert (fst s' = fst s) as Hs.
    { rewrite Hs', <- Hv. by destruct (fst s). }
    split; rewrite ?Hs, ?Hd, ?Ho; cbn; try done; [by rewrite Hv|].
    destruct (Z.eqb_spec (voted_for (fst s)) RAFT_NODE_ID_NONE); done.
Qed.

(** The state with the role of a follower: where a candidacy is prepared. *)
Definition as_follower (s : St L W) : St L W :=
  ((fst s) <| srv_state := RAFT_STATE_FOLLOWER |>, snd s).

Lemma ginv_as_follower h i s s1 :
  ginv h i s -> raised s s1 -> ginv h i (as_follower s1).
Proof.
  intros Hi Hr. eapply ginv_follower; [exact Hi|exact Hr| |done]. by split.
Qed.

Lemma fewer_as_follower s s' : fewer_votes s s' -> fewer_votes (as_follower s) (as_follower s').
Proof.
  intros Hf. split; try apply Hf; cbn; try done.
  intros i Hi. eapply static_electors; [|apply (fv_static _ _ Hf)]; [by split|].
  eapply static_electors; [|exact Hi]. by split.
Qed.

(** The membership: distinct ids, none of them the reserved one, and not exactly
    one voter. *)
Context (members_nodup : NoDup (fst <$> members)).
Context (members_ok : RAFT_NODE_ID_NONE ∉ (fst <$> members)).
Context (not_single : length voters <> 1%nat).

Lemma static_member i me : static i me -> i ∈ (fst <$> members).
Proof.
  intros [Hp _ (p & n & _ & Hin & <-)]. rewrite <- Hp. unfold peers.
  rewrite <- list_fmap_compose. apply list_elem_of_fmap. by exists (p, n).
Qed.

Lemma member_not_none i me : static i me -> i <> RAFT_NODE_ID_NONE.
Proof. intros Hs%static_member ->. done. Qed.

(** Entering the candidate role with only the server's own vote. *)
Lemma ginv_candidate h i s s' :
  ginv h i (as_follower s) ->
  (forall pn, pn ∈ nodes (fst s) -> raft_node_has_vote_for_me (snd pn) = false) ->
  (forall pn, pn ∈ nodes (fst s) -> my_node (fst s) = Some (fst pn) ->
     raft_node_is_voting (snd pn) = true -> h i (current_term (fst s)) = Some i) ->
  eframe s s' -> srv_state (fst s') = RAFT_STATE_CANDIDATE -> ginv h i s'.
Proof.
  intros Hi Hclear Hself [Ht Hv HR [Hd Ho]] Hst.
  destruct Hi as [Hs Hdisk Hfut Hvote _ _ Hout]. cbn in *.
  assert (static i (fst s')) as Hs'.
  { eapply static_electors; [|exact Hs]. by destruct HR. }
  split; rewrite ?Ht, ?Hv, ?Hd, ?Ho; try done; [|congruence].
  intros _ pn Hin Hcnt. destruct (electors_elem _ _ _ HR Hin) as (pn' & Hin' & He).
  destruct (elector_counts _ _ _ _ (proj2 HR) He) as [Hc ->]. rewrite Hc in Hcnt.
  unfold counts in Hcnt. rewrite (Hclear _ Hin') in Hcnt. apply andb_true_iff in Hcnt as [Hvo Hme].
  apply bool_decide_eq_true in Hme. rewrite <- (Hself _ Hin' Hme Hvo) at 1.
  destruct Hs as [_ Hn (p & n & Hm & Hinp & Hid)]. cbn in *.
  rewrite Hme in Hm. injection Hm as <-. destruct pn' as [q n']. cbn in *.
  by rewrite <- Hid, (NoDup_ptr _ _ _ _ Hn Hinp Hin').
Qed.

Lemma lookup_node_elem p (ns : list (Z * raft_node)) n :
  lookup_node p ns = Some n -> (p, n) ∈ ns.
Proof.
  induction ns as [|[q n'] ns IH]; simpl; [done|].
  destruct (Z.eqb_spec p q) as [->|]; [intros [= ->]; by constructor|].
  intros ?. constructor. auto.
Qed.

(** The end of [raft_become_candidate]. *)
Lemma candidate_tail i h s e s' :
  ginv h i (as_follower s) ->
  (forall pn, pn ∈ nodes (fst s) -> raft_node_has_vote_for_me (snd pn) = false) ->
  (forall pn, pn ∈ nodes (fst s) -> my_node (fst s) = Some (fst pn) ->
     raft_node_is_voting (snd pn) = true -> h i (current_term (fst s)) = Some i) ->
  (upd (fun me => me <| leader_id := RAFT_NODE_ID_NONE |>) ;;
   raft_set_state RAFT_STATE_CANDIDATE ;;
   request_votes cb ;; notify_state cb RAFT_STATE_CANDIDATE ;; ret 0) s = Done (e, s') ->
  exists h', grows i h h' /\ ginv h' i s'.
Proof.
  intros Hi Hclear Hself E. unfold upd in E. do 2 done_step.
  assert (ginv h i s0) as Hi0.
  { eapply ginv_candidate; [exact Hi|exact Hclear|exact Hself|..];
      unfold raft_set_state, upd in Hrun; cbn in Hrun; run_done; done. }
  refine (_ h Hi0). eapply (respects_from (es i)); [reflexivity| |exact E].
  srv_coarse ltac:(idtac).
Qed.

Lemma es_become_candidate i : respects (es i) (raft_become_candidate cb).
Proof.
  intros s e s' E h Hi. unfold raft_become_candidate, get_me in E. do 2 done_step.
  apply set_current_term_raised in Hrun as (-> & Hr & Ht). cbn in E.
  assert (voted_for (fst s0) = RAFT_NODE_ID_NONE) as Hnone.
  { destruct (ra_term _ _ Hr) as [[? _]|[_ ?]]; [|done]. specialize (Ht ltac:(lia)). lia. }
  apply (ginv_as_follower h i) in Hr; [|done]. done_step.
  apply clear_votes_spec in Hrun as [Hf Hclear].
  rewrite <- (fv_vote _ _ Hf) in Hnone.
  assert (ginv h i (as_follower s1)) as Hi1.
  { eapply ginv_fewer; [|exact Hr]. by apply fewer_as_follower. }
  clear Hf Hr Hi Ht s s0. do 2 done_step.
  destruct (my_node (fst s1)) as [p|] eqn:Hm; [|done]. cbn in Hrun.
  unfold deref, get_me in Hrun. done_step; [|done]. rename r into n, Hmatch into Hl.
  done_step. apply lookup_node_elem in Hl. assert (static i (fst s1)) as Hs.
  { eapply static_electors; [|apply Hi1]. by split. }
  assert (forall pn, pn ∈ nodes (fst s1) -> my_node (fst s1) = Some (fst pn) -> snd pn = n) as Huniq.
  { intros [q n'] Hin Hq. cbn in *. rewrite Hm in Hq. injection Hq as <-.
    by eapply NoDup_ptr; [apply Hs|..]. }
  apply bind_done in E as (r & s & Hrun & E). destruct (raft_node_is_voting n) eqn:Hv.
  - unfold raft_vote in Hrun. apply bind_done in Hrun as (id & s2 & Hid & Hrun).
    assert (id = i /\ s2 = s1) as [-> ->].
    { apply (static_nodeid i s1 id s2); [done|]. unfold raft_get_nodeid, get_me.
      run_refl. by rewrite Hm. }
    apply vote_for_done in Hrun as (-> & Hf & Hd & Ho). cbn in E.
    edestruct (ginv_vote h i i (as_follower s1) (as_follower s)) as (h' & Hg & Hi' & Hvote);
      [done|by eapply member_not_none|by left|unfold as_follower; cbn; by rewrite Hf|done|done|].
    eapply candidate_tail in E as (h2 & Hg2 & Hi2); [|exact Hi'|..].
    + exists h2. split; [by eapply grows_trans|done].
    + by rewrite Hf.
    + rewrite Hf. intros. apply Hvote.
  - done_step. cbn in E. eapply candidate_tail; [exact Hi1|exact Hclear| |exact E].
    intros pn Hin Hself Hvo. rewrite (Huniq _ Hin Hself) in Hvo. congruence.
Qed.
#[local] Hint Resolve es_become_candidate : respects.

(** ** Counting votes *)

Lemma filter_perm {A} (f : A -> bool) l l' : l ≡ₚ l' -> List.filter f l ≡ₚ List.filter f l'.
Proof.
  induction 1 as [|x l l' _ IH|x y l|l1 l2 l3 _ IH1 _ IH2]; simpl; [done| | |by etransitivity].
  - destruct (f x); [by constructor|done].
  - destruct (f x), (f y); try done. constructor.
Qed.

Lemma filter_fmap {A B} (f : B -> bool) (g : A -> B) l :
  List.filter f (g <$> l) = g <$> List.filter (fun x => f (g x)) l.
Proof. induction l as [|x l IH]; csimpl; [done|]. rewrite IH. by destruct (f (g x)). Qed.

Lemma num_voting_static i me :
  static i me -> raft_get_num_voting_nodes me = Z.of_nat (length voters).
Proof.
  intros [Hp _ _]. unfold raft_get_num_voting_nodes, voters. f_equal.
  rewrite length_fmap, <- (filter_perm snd _ _ Hp). unfold peers. by rewrite filter_fmap, length_fmap.
Qed.

Lemma count_self p (ns : list (Z * raft_node)) :
  NoDup (node_ptrs ns) ->
  length (List.filter (fun pn => raft_node_is_voting (snd pn) &&
            (raft_node_has_vote_for_me (snd pn) || bool_decide (Some p = Some (fst pn)))) ns) =
  (length (List.filter (fun pn => negb (bool_decide (Some p = Some (fst pn))) &&
             raft_node_is_voting (snd pn) && raft_node_has_vote_for_me (snd pn)) ns) +
   match lookup_node p ns with
   | Some n => if raft_node_is_voting n then 1 else 0
   | None => 0
   end)%nat.
Proof.
  induction ns as [|[q n] ns IH]; intros Hn; [done|]. simpl. apply NoDup_cons in Hn as [Hq Hn].
  specialize (IH Hn). destruct (Z.eqb_spec p q) as [->|Hne].
  - assert (lookup_node q ns = None) as Hl.
    { destruct (lookup_node q ns) as [n'|] eqn:El; [|done]. apply lookup_node_elem in El.
      exfalso. apply Hq. by apply (list_elem_of_fmap_2 fst) in El. }
    rewrite Hl in IH. rewrite bool_decide_true by done. rewrite orb_true_r, andb_true_r. simpl.
    destruct (raft_node_is_voting n); simpl; lia.
  - rewrite bool_decide_false by congruence. rewrite orb_false_r. simpl.
    destruct (raft_node_is_voting n && raft_node_has_vote_for_me n); simpl; lia.
Qed.

Lemma nvotes_spec i (s : St L W) v s' :
  static i (fst s) -> raft_get_nvotes_for_me s = Done (v, s') ->
  s' = s /\ v = Z.of_nat (length (List.filter (counts (fst s)) (nodes (fst s)))).
Proof.
  intros [_ Hn (p & n & Hm & _ & _)] E. unfold raft_get_nvotes_for_me, get_me in E. done_step.
  rewrite Hm in E. cbn [deref_opt] in E. unfold deref, get_me in E. run_done. split; [done|].
  unfold counts. rewrite Hm, (count_self p _ Hn), Hmatch.
  match goal with |- context [if raft_node_is_voting ?n then _ else _] => destruct (raft_node_is_voting n) end; lia.
Qed.

Lemma NoDup_filter_fmap {A B} (f : A -> bool) (g : A -> B) (l : list A) :
  NoDup (g <$> l) -> NoDup (g <$> List.filter f l).
Proof.
  induction l as [|x l IH]; simpl; [done|]. intros [Hx Hl]%NoDup_cons.
  destruct (f x); simpl; [|by apply IH]. apply NoDup_cons. split; [|by apply IH].
  intros (y & Hy & [Hin _]%list_elem_of_In%filter_In)%list_elem_of_fmap. apply Hx.
  apply list_elem_of_fmap. exists y. split; [done|]. by apply list_elem_of_In.
Qed.

(** A candidate whose votes are a majority is elected. *)
Lemma ginv_elected h i s v s' :
  ginv h i s -> srv_state (fst s) = RAFT_STATE_CANDIDATE ->
  raft_get_nvotes_for_me s = Done (v, s') ->
  raft_votes_is_majority (raft_get_num_voting_nodes (fst s)) v = true ->
  elected h i (current_term (fst s)).
Proof.
  intros Hi Hst Hv Hmaj. pose proof (gi_static _ _ _ Hi) as Hs.
  eapply nvotes_spec in Hv as [_ ->]; [|exact Hs]. rewrite (num_voting_static i) in Hmaj by done.
  exists ((fun pn => node_id (snd pn)) <$> List.filter (counts (fst s)) (nodes (fst s))).
  split_and!; [| |by rewrite length_fmap|].
  - apply NoDup_filter_fmap. destruct Hs as [Hp _ _].
    assert ((fun pn : Z * raft_node => node_id (snd pn)) <$> nodes (fst s) = fst <$> peers (fst s)) as ->.
    { unfold peers. by rewrite <- list_fmap_compose. }
    by rewrite Hp.
  - intros x (pn & -> & [Hin Hc]%list_elem_of_In%filter_In)%list_elem_of_fmap.
    apply andb_true_iff in Hc as [Hvo _]. apply list_elem_of_In in Hin.
    assert ((node_id (snd pn), true) ∈ members) as Hmem.
    { destruct Hs as [<- _ _]. apply list_elem_of_fmap. exists pn. by rewrite Hvo. }
    apply list_elem_of_fmap. exists (node_id (snd pn), true). split; [done|].
    apply list_elem_of_In, filter_In. split; [by apply list_elem_of_In|done].
  - intros x (pn & -> & [Hin Hc]%list_elem_of_In%filter_In)%list_elem_of_fmap.
    by apply (gi_cand _ _ _ Hi); [|apply list_elem_of_In|].
Qed.

Lemma ginv_become_leader h i s e s' :
  ginv h i s -> elected h i (current_term (fst s)) ->
  raft_become_leader cb fuel s = Done (e, s') -> ginv h i s'.
Proof.
  intros Hi Hel E. apply become_leader_spec in E as [Hf [Hst|Hst]].
  - eapply ginv_same; [|exact Hi]. by split.
  - destruct Hi as [Hs Hd Hfut Hvote Hc Hl Ho]. destruct Hf as [Ht Hv HR [Hd' Ho']].
    split; rewrite ?Ht, ?Hv, ?Hst, ?Hd', ?Ho'; try done. by eapply static_electors.
Qed.

(** ** The handlers *)

Lemma get_node_elem (me : raft_server L) src p :
  raft_get_node me src = Some p -> exists n, (p, n) ∈ nodes me /\ node_id n = src.
Proof.
  unfold raft_get_node. destruct (List.find _ _) as [[q n]|] eqn:Ef; [|done].
  intros [= <-]. apply List.find_some in Ef as [Hin Hid]. exists n.
  split; [by apply list_elem_of_In|]. simpl in Hid. lia.
Qed.

(** Recording the vote of [src]. *)
Lemma ginv_mark h i src p s :
  ginv h i s -> raft_get_node (fst s) src = Some p ->
  (srv_state (fst s) = RAFT_STATE_CANDIDATE -> h src (current_term (fst s)) = Some i) ->
  ginv h i ((fst s) <| nodes ::= update_node p (raft_node_set_voted_for_me true) |>, snd s).
Proof.
  intros [] Hsrc Hgrant. apply get_node_elem in Hsrc as (n0 & Hin0 & Hid0).
  split; cbn; try done; [by apply static_update, gi_static0; apply keeps_identity_vote|].
  intros Hst pn (n & Hin & Hn)%elem_of_update_node Hcnt.
  destruct Hn as [[-> Hn]|[Hne Hn]].
  - rewrite Hn, (proj1 (keeps_identity_vote true n)).
    rewrite (NoDup_ptr _ _ _ _ (st_ptrs _ _ gi_static0) Hin Hin0), Hid0. by apply Hgrant.
  - rewrite Hn. apply (gi_cand0 Hst (fst pn, n)); [done|]. rewrite <- Hcnt. unfold counts. cbn.
    by rewrite Hn.
Qed.

(** What a vote response must match to be counted. *)
Definition response_expected (me : raft_server L) (resp : raft_requestvote_resp) : Prop :=
  if rvr_prevote resp
  then srv_state me = RAFT_STATE_PRECANDIDATE
  else srv_state me = RAFT_STATE_CANDIDATE /\ rvr_request_term resp = current_term me.

(** The count after recording a vote. *)
Lemma ginv_count h i s e s' :
  ginv h i s ->
  srv_state (fst s) = RAFT_STATE_PRECANDIDATE \/ srv_state (fst s) = RAFT_STATE_CANDIDATE ->
  (votes <- raft_get_nvotes_for_me ;;
   me <- get_me ;;
   if raft_votes_is_majority (raft_get_num_voting_nodes me) votes then
     if raft_is_precandidate me then raft_become_candidate cb else raft_become_leader cb fuel
   else ret 0) s = Done (e, s') ->
  exists h', grows i h h' /\ ginv h' i s'.
Proof.
  intros Hi Hst E. apply bind_done in E as (v & s1 & Hv & E).
  apply (nvotes_spec i) in Hv as Hs1; [|apply Hi]. destruct Hs1 as [-> _].
  unfold get_me in E. done_step. done_step; [|done_step; exists h; split; [apply grows_refl|done]].
  unfold raft_is_precandidate in E. destruct (bool_decide_reflect (srv_state (fst s) = RAFT_STATE_PRECANDIDATE)).
  - by eapply es_become_candidate.
  - exists h. split; [apply grows_refl|]. eapply ginv_become_leader; [done| |done].
    eapply ginv_elected; [done| |done..]. by destruct Hst.
Qed.

(** The vote response from [src]: what it grants is in the history. *)
Lemma es_recv_requestvote_response h i src resp s e s' :
  ginv h i s ->
  (rvr_vote_granted resp = true -> rvr_prevote resp = false ->
   h src (rvr_request_term resp) = Some i) ->
  raft_recv_requestvote_response cb fuel (raft_get_node (fst s) src) resp s = Done (e, s') ->
  exists h', grows i h h' /\ ginv h' i s'.
Proof.
  intros Hi Hgrant E. unfold raft_recv_requestvote_response, get_me in E.
  apply bind_done in E as (u1 & s1 & E1 & E). apply bind_done in E as (u2 & s2 & E2 & E).
  assert (same_elect s s2 /\ nodes (fst s2) = nodes (fst s)) as [Hs Hn].
  { split.
    - transitivity s1; [|eapply (respects_when same_elect); [|exact E2]];
        destruct (rvr_prevote resp); by eapply se_stat.
    - transitivity (nodes (fst s1));
        destruct (rvr_prevote resp); unfold incr_stat, upd in *; run_done; done. }
  assert (raft_get_node (fst s) src = raft_get_node (fst s2) src) as Hget.
  { unfold raft_get_node. by rewrite Hn. }
  rewrite Hget in E. apply (ginv_same h i) in Hs; [|done].
  clear Hi Hn Hget E1 E2 s s1. rename s2 into s, Hs into Hi.
  done_step. done_step; [by apply (es_step_down i _ _ _ _ E h Hi)|].
  destruct (if rvr_prevote resp then _ else _) eqn:Hexp in E;
    [done_step; exists h; split; [apply grows_refl|done]|].
  assert (response_expected (fst s) resp) as Hre.
  { unfold response_expected, raft_is_precandidate, raft_is_candidate in *.
    destruct (rvr_prevote resp); apply orb_false_iff in Hexp as [H1 H2];
      apply negb_false_iff, bool_decide_eq_true in H1; [done|]. split; [done|lia]. }
  clear Hexp Hif. destruct (rvr_vote_granted resp) eqn:Hg; cbn [negb] in E;
    [|done_step; exists h; split; [apply grows_refl|done]].
  apply bind_done in E as (u3 & s3 & E3 & E). eapply ginv_count; [| |exact E].
  - destruct (raft_get_node (fst s) src) as [p|] eqn:Hp; [|by run_done].
    apply upd_node_done in E3 as ->. apply (ginv_mark h i src); [done..|].
    intros Hst. unfold response_expected in Hre. rewrite Hst in Hre.
    destruct (rvr_prevote resp) eqn:Hpre; [done|]. destruct Hre as [_ <-]. by apply Hgrant.
  - assert (srv_state (fst s3) = srv_state (fst s)) as ->.
    { destruct (raft_get_node (fst s) src); [|by run_done]. by apply upd_node_done in E3 as ->. }
    unfold response_expected in Hre. destruct (rvr_prevote resp); [by left|by right; destruct Hre].
Qed.

(** A vote request: a granted vote is in the history. *)
Lemma es_rv_body h i req s e g s' :
  ginv h i s -> (rv_prevote req = false -> rv_candidate_id req <> RAFT_NODE_ID_NONE) ->
  rv_body cb req s = Done ((e, g), s') ->
  exists h', grows i h h' /\ ginv h' i s' /\
    (g = true -> rv_prevote req = false -> h' i (rv_term req) = Some (rv_candidate_id req)).
Proof.
  intros Hi Hcand E. apply (rv_body_phases cb (RN:=RN) (RW:=RW)) in E as (s1 & Hd & Hv).
  assert (exists h1, grows i h h1 /\ ginv h1 i s1) as (h1 & Hg1 & Hi1).
  { destruct Hd as [->|(_ & _ & e1 & E1)]; [exists h; split; [apply grows_refl|done]|].
    by apply (es_step_down i _ _ _ _ E1 h Hi). }
  clear Hd Hi. destruct Hv as [[Hq Hpre]|Hv].
  { exists h1. split_and!; [done|eapply ginv_same; [by apply coarser|done]|].
    intros Hg Hp. rewrite (Hpre Hg) in Hp. done. }
  destruct Hv as [Hp Hterm Hfree _ _ (s2 & s3 & e3 & Hq2 & E3 & _ & Hq3)].
  apply vote_for_done in E3 as (_ & Hf & Hd & Ho).
  assert (ginv h1 i s2) as Hi2 by (eapply ginv_same; [by apply coarser|done]).
  rewrite <- (quiet_vote _ _ _ _ Hq2) in Hfree. rewrite <- (quiet_term _ _ _ _ Hq2) in Hterm.
  destruct (ginv_vote h1 i (rv_candidate_id req) s2 s3) as (h2 & Hg2 & Hi3 & Hvote); [auto..|].
  exists h2. split_and!; [by eapply grows_trans|eapply ginv_same; [by apply coarser|done]|].
  intros _ _. by rewrite <- Hterm.
Qed.

Lemma es_recv_requestvote h i req s e resp s' :
  ginv h i s -> (rv_prevote req = false -> rv_candidate_id req <> RAFT_NODE_ID_NONE) ->
  raft_recv_requestvote cb req s = Done ((e, resp), s') ->
  rvr_prevote resp = rv_prevote req /\
  exists h', grows i h h' /\ ginv h' i s' /\
    (rvr_vote_granted resp = true -> rvr_prevote resp = false ->
     h' i (rvr_request_term resp) = Some (rv_candidate_id req)).
Proof.
  intros Hi Hcand E. unfold raft_recv_requestvote, get_me in E.
  apply bind_done in E as (u1 & s1 & E1 & E).
  assert (same_elect s s1) as Hs by (destruct (rv_prevote req); by eapply se_stat).
  apply (ginv_same h i) in Hs; [|done]. apply bind_done in E as ([e2 g] & s2 & E2 & E).
  apply (es_rv_body h i) in E2 as (h2 & Hg2 & Hi2 & Hv2); [|done..].
  apply bind_done in E as (u3 & s3 & E3 & E).
  assert (same_elect s2 s3) as Hs3.
  { eapply (respects_when same_elect); [|exact E3]. destruct (rv_prevote req); apply se_stat. }
  clear E1 E3. run_done. split; [done|]. exists h2. split_and!; [done|by eapply ginv_same|done].
Qed.

Lemma es_stepping_down i t :
  respects (es i) (e <- raft_set_current_term cb t ;;
                   if negb (e =? 0) then ret e else raft_become_follower cb ;; ret 0).
Proof. apply es_step_down. Qed.

Lemma es_append_entry i e : respects (es i) (raft_append_entry cb e).
Proof. apply es_of_same, se_append_entry. Qed.

Lemma es_ae_accept i req : respects (es i) (ae_accept cb req).
Proof. apply es_of_same, se_ae_accept. Qed.

Lemma es_delete_loop i n k : respects (es i) (raft_delete_entry_loop cb n k).
Proof. apply es_of_same, se_delete_loop. Qed.
#[local] Hint Resolve es_stepping_down es_append_entry es_ae_accept es_delete_loop : respects.

Ltac es_leaf := apply es_same; se_leaf.

(** A larger term and a leader to follow. *)
Lemma es_ae_body i req : respects (es i) (ae_body cb req).
Proof.
  intros s e s' E. unfold ae_body, get_me in E. done_step. done_step; [by done_step|].
  apply bind_done in E as (e1 & s1 & E1 & E).
  assert (e1 = 0 /\ raised s s1) as [-> Hr].
  { destruct (_ <? ae_term req) in E1.
    - apply set_current_term_raised in E1 as (-> & ? & _). done.
    - done_step. split; [done|apply raised_refl]. }
  cbn in E. apply bind_done in E as (u2 & s2 & E2 & E).
  apply accept_leader_spec in E2 as [Hf Hst].
  eapply (respects_from (es i)); [| |exact E].
  - intros h Hi. exists h. split; [apply grows_refl|]. by eapply ginv_follower.
  - srv_coarse es_leaf.
Qed.
#[local] Hint Resolve es_ae_body : respects.

(** With more or fewer than one voter, the timer never elects a server alone. *)
Lemma not_single_cluster i (s : St L W) b s' :
  static i (fst s) -> raft_is_single_node_voting_cluster s = Done (b, s') -> b = false /\ s' = s.
Proof.
  intros Hs E. unfold raft_is_single_node_voting_cluster, get_me in E. done_step.
  rewrite (num_voting_static i) in E by done.
  destruct (Z.eqb_spec (Z.of_nat (length voters)) 1) as [Heq|]; [lia|]. by done_step.
Qed.

Lemma es_periodic_internal i msec : respects (es i) (raft_periodic_internal cb fuel msec).
Proof.
  intros s e s' E. unfold raft_periodic_internal in E.
  apply bind_done in E as (ms & s1 & E1 & E).
  assert (es i s s1) as H1.
  { revert E1. match goal with |- ?m _ = _ -> _ => assert (respects (es i) m) as Hm end.
    { srv_coarse es_leaf. }
    apply Hm. }
  apply bind_done in E as (u2 & s2 & E2 & E).
  assert (es i s1 s2) as H2.
  { apply es_same. unfold upd, modify in E2. injection E2 as <- <-. se_leaf. }
  intros h Hi. destruct (H1 h Hi) as (h1 & Hg1 & Hi1). destruct (H2 h1 Hi1) as (h2 & Hg2 & Hi2).
  apply bind_done in E as (b & s3 & E3 & E).
  eapply (not_single_cluster i) in E3 as [-> ->]; [|apply Hi2].
  assert (es i s2 s') as Hrest; [|destruct (Hrest h2 Hi2) as (h3 & Hg3 & Hi3);
    exists h3; split; [eapply grows_trans; [|exact Hg3]; by eapply grows_trans|done]].
  clear -H0 E EE members_ok not_single. unfold get_me in E. cbn [andb] in E. do 2 done_step. cbn in E.
  eapply (respects_from (es i)); [reflexivity| |exact E]. srv_coarse es_leaf.
Qed.
#[local] Hint Resolve es_periodic_internal : respects.

(** The calls a server of a cluster with fixed membership receives, other than
    the election messages, which the cluster delivers. *)
Definition local_op (op : raft_op) : bool :=
  match op with
  | OpRecvRequestvote _ | OpRecvRequestvoteResponse _ _ | OpRecvSnapshot _
  | OpAddNode _ _ _ | OpAddNonVotingNode _ _ _ | OpRemoveNode _ => false
  | _ => true
  end.

Lemma es_local_op i op : local_op op = true -> respects (es i) (exec_op cb fuel op).
Proof. destruct op; try done; intros _; srv_coarse es_leaf. Qed.

End Election.

(** ** The cluster *)

Section Cluster.
Context {L W : Type} `{LogSpec L} (cb : raft_cbs L W).
Context (disk : W -> Z * Z) (outbox : W -> list (Z * raft_requestvote_req)).
Context {EE : ElectionEnv disk outbox cb}.

(** The members with their voting rights. *)
Context (members : list (Z * bool)).

Abbreviation ids := (fst <$> members).

(** The servers by id, and the vote responses on the network with their sender
    and destination.  A request on the network is an element of its sender's
    outbox.  Nothing is ever taken off the network: a message may be delivered
    any number of times, in any order, or never. *)
Record cluster := mk_cluster {
  cl_server : Z -> St L W;
  cl_responses : list (Z * Z * raft_requestvote_resp)
}.

Definition set_server (i : Z) (s : St L W) (c : Z -> St L W) : Z -> St L W :=
  fun j => if j =? i then s else c j.

(** A server after a restart: a follower with its members and with the term and
    the vote read back from the disk ([raft_restore_metadata]); the rest of its
    state is anything. *)
Record restarted (i : Z) (s s' : St L W) : Prop := {
  rs_static : static members i (fst s');
  rs_term : (current_term (fst s'), voted_for (fst s')) = disk (snd s);
  rs_state : srv_state (fst s') = RAFT_STATE_FOLLOWER;
  rs_world : snd s' = snd s
}.

Inductive cluster_step (c : cluster) : cluster -> Prop :=
| step_local i op fuel s' :
    i ∈ ids -> local_op op = true ->
    exec_op cb fuel op (cl_server c i) = Done (tt, s') ->
    cluster_step c (mk_cluster (set_server i s' (cl_server c)) (cl_responses c))
| step_requestvote src dst req e resp s' :
    src ∈ ids -> dst ∈ ids -> (dst, req) ∈ outbox (snd (cl_server c src)) ->
    raft_recv_requestvote cb req (cl_server c dst) = Done ((e, resp), s') ->
    cluster_step c (mk_cluster (set_server dst s' (cl_server c))
                               ((dst, src, resp) :: cl_responses c))
| step_requestvote_response src dst resp fuel e s' :
    dst ∈ ids -> (src, dst, resp) ∈ cl_responses c ->
    raft_recv_requestvote_response cb fuel (raft_get_node (fst (cl_server c dst)) src) resp
      (cl_server c dst) = Done (e, s') ->
    cluster_step c (mk_cluster (set_server dst s' (cl_server c)) (cl_responses c))
| step_restart i s' :
    i ∈ ids -> restarted i (cl_server c i) s' ->
    cluster_step c (mk_cluster (set_server i s' (cl_server c)) (cl_responses c)).

(** Every server starts as a follower, with the term and vote of its disk, and
    the network is empty. *)
Record cluster_init (c : cluster) : Prop := {
  ci_server i : i ∈ ids -> restarted i (cl_server c i) (cl_server c i);
  ci_outbox i : i ∈ ids -> outbox (snd (cl_server c i)) = [];
  ci_responses : cl_responses c = []
}.

Context (members_nodup : NoDup ids).
Context (members_ok : RAFT_NODE_ID_NONE ∉ ids).
Context (not_single : length (voters members) <> 1%nat).

Abbreviation ginv := (ginv disk outbox members).

Record cluster_inv (h : history) (c : cluster) : Prop := {
  inv_server i : i ∈ ids -> ginv h i (cl_server c i);
  inv_response src dst resp :
    (src, dst, resp) ∈ cl_responses c -> rvr_vote_granted resp = true ->
    rvr_prevote resp = false -> h src (rvr_request_term resp) = Some dst
}.

(** A new vote of another server changes nothing for server [j]. *)
Lemma ginv_other h h' i j (s : St L W) : grows i h h' -> i <> j -> ginv h j s -> ginv h' j s.
Proof.
  intros Hg Hne [].
  assert (forall t, h' j t = h j t) as Hj.
  { intros t. destruct (Hg j t) as [|[-> _]]; done. }
  split; rewrite ?Hj; try done.
  - intros t Ht. rewrite Hj. auto.
  - intros Hst pn Hin Hc. eapply grows_Some; [exact Hg|]. auto.
  - intros Hst. destruct (gi_lead0 Hst) as (q & ? & ? & ? & Hq).
    exists q. split_and!; try done. intros v Hv. eapply grows_Some; [exact Hg|]. auto.
Qed.

(** One server steps, and the network gains responses that are in the history. *)
Lemma inv_set_server h h' i c s' rs :
  cluster_inv h c -> grows i h h' -> ginv h' i s' ->
  (forall src dst resp, (src, dst, resp) ∈ rs -> (src, dst, resp) ∈ cl_responses c \/
     (rvr_vote_granted resp = true -> rvr_prevote resp = false ->
      h' src (rvr_request_term resp) = Some dst)) ->
  cluster_inv h' (mk_cluster (set_server i s' (cl_server c)) rs).
Proof.
  intros [Hs Hr] Hg Hi Hrs. split; cbn.
  - intros j Hj. unfold set_server. destruct (Z.eqb_spec j i) as [->|Hne]; [done|].
    eapply ginv_other; eauto.
  - intros src dst resp Hin G P. destruct (Hrs _ _ _ Hin) as [Hin'|]; [|auto].
    eapply grows_Some; eauto.
Qed.

Lemma cluster_inv_step h c c' :
  cluster_inv h c -> cluster_step c c' -> exists h', cluster_inv h' c'.
Proof.
  intros Hinv Hstep. pose proof Hinv as [Hs Hr].
  destruct Hstep as [i op fuel s' Hi Hop E | src dst req e resp s' Hsrc Hdst Hreq E
                    | src dst resp fuel e s' Hdst Hin E | i s' Hi Hre].
  - destruct (es_local_op cb fuel disk outbox members members_ok not_single i op Hop
                _ _ _ E h (Hs i Hi)) as (h' & Hg & Hi').
    exists h'. eapply inv_set_server; [done..|]. by left.
  - assert (rv_prevote req = false -> rv_candidate_id req = src) as Hcand.
    { by apply (gi_out _ _ _ _ _ _ (Hs src Hsrc) dst). }
    assert (rv_prevote req = false -> rv_candidate_id req <> RAFT_NODE_ID_NONE) as Hne.
    { intros Hp. rewrite (Hcand Hp). by intros ->. }
    destruct (es_recv_requestvote cb disk outbox members h dst req _ _ _ _ (Hs dst Hdst) Hne E)
      as (Hp & h' & Hg & Hi' & Hv).
    exists h'. eapply inv_set_server; [done..|].
    intros src' dst' resp' [[= -> -> ->]|Hin]%elem_of_cons; [right|by left].
    intros G P. rewrite (Hv G P), Hcand; congruence.
  - destruct (es_recv_requestvote_response cb fuel disk outbox members members_nodup members_ok
                not_single h dst src resp _ _ _ (Hs dst Hdst) (Hr src dst resp Hin) E)
      as (h' & Hg & Hi').
    exists h'. eapply inv_set_server; [done..|]. by left.
  - exists h. eapply inv_set_server; [done|apply grows_refl| |by left].
    destruct (Hs i Hi), Hre. rewrite gi_disk0 in rs_term0. injection rs_term0 as Ht Hv.
    split; rewrite ?Ht, ?Hv, ?rs_state0, ?rs_world0; done.
Qed.

Lemma cluster_inv_init c : cluster_init c -> exists h, cluster_inv h c.
Proof.
  intros [Hs Ho Hr].
  exists (fun v t => let me := fst (cl_server c v) in
    if (t =? current_term me) && negb (voted_for me =? RAFT_NODE_ID_NONE)
    then Some (voted_for me) else None).
  split; [|intros src dst resp Hin; rewrite Hr in Hin; by apply elem_of_nil in Hin].
  intros i Hi. destruct (Hs i Hi) as [Hst Ht Hf _]. split; rewrite ?Hf; try done; cbv zeta.
  - intros t Hlt. destruct (Z.eqb_spec t (current_term (fst (cl_server c i)))); [lia|done].
  - rewrite Z.eqb_refl. by destruct (voted_for _ =? _).
  - intros d req Hin. rewrite (Ho i Hi) in Hin. by apply elem_of_nil in Hin.
Qed.

Lemma cluster_inv_reachable c0 c :
  cluster_init c0 -> rtc cluster_step c0 c -> exists h, cluster_inv h c.
Proof.
  intros Hinit Hsteps. destruct (cluster_inv_init c0 Hinit) as [h0 Hinv]. clear Hinit. revert h0 Hinv.
  induction Hsteps as [c|c1 c2 c3 Hstep _ IH]; intros h Hinv; [by exists h|].
  assert (exists h', cluster_inv h' c2) as [h' Hinv'] by (by eapply cluster_inv_step).
  by eapply IH.
Qed.

(** C1 (safety). Election safety: in every state a cluster of fixed membership
    can reach, two servers that are leader in the same term are the same
    server.  The network may lose, duplicate and reorder RequestVote messages,
    all other messages are arbitrary, and servers crash between calls and
    restart from the persisted term and vote. *)
Theorem election_safety (c0 c : cluster) (i j : Z) :
  cluster_init c0 -> rtc cluster_step c0 c -> i ∈ ids -> j ∈ ids ->
  raft_is_leader (fst (cl_server c i)) = true ->
  raft_is_leader (fst (cl_server c j)) = true ->
  current_term (fst (cl_server c i)) = current_term (fst (cl_server c j)) -> i = j.
Proof.
  intros Hinit Hsteps Hi Hj Hli Hlj Ht.
  destruct (cluster_inv_reachable c0 c Hinit Hsteps) as [h [Hs _]].
  apply bool_decide_eq_true in Hli, Hlj.
  destruct (gi_lead _ _ _ _ _ _ (Hs i Hi) Hli) as (q1 & N1 & S1 & M1 & V1).
  destruct (gi_lead _ _ _ _ _ _ (Hs j Hj) Hlj) as (q2 & N2 & S2 & M2 & V2).
  rewrite votes_is_majority_spec in M1, M2 by lia.
  destruct (pigeonhole (voters members) q1 q2) as (v & Hv1 & Hv2); [done..|lia|].
  pose proof (V1 v Hv1). pose proof (V2 v Hv2). congruence.
Qed.

End Cluster.

(** ** On the deployment of [RaftDemo] *)

Definition demo_cb : raft_cbs mem_log world := demo_cbs_with None.

#[export] Instance demo_election_env : ElectionEnv w_disk w_outbox demo_cb.
Proof.
  constructor.
  - constructor; try apply _; cbn; try (intros ? [= <-]; done); try done. by left.
  - done.
  - eexists. by split; [reflexivity|].
  - intros f [= <-] me w n r. split; [done|by right].
Qed.

Definition demo_members : list (Z * bool) := [(1, true); (2, true); (3, true)].

Definition demo_cluster : cluster := mk_cluster demo_server [].

(** Node [i] makes a call. *)
Definition demo_local (i : Z) (op : raft_op) (c : cluster) : cluster :=
  mk_cluster (set_server i (final (exec_op demo_cb 10 op) (cl_server c i)) (cl_server c))
             (cl_responses c).

(** Node [dst] receives a request of [src] and answers [resp]. *)
Definition demo_request (src dst : Z) (req : raft_requestvote_req)
    (resp : raft_requestvote_resp) (c : cluster) : cluster :=
  mk_cluster (set_server dst (final (raft_recv_requestvote demo_cb req) (cl_server c dst)) (cl_server c))
             ((dst, src, resp) :: cl_responses c).

Definition demo_response (src dst : Z) (resp : raft_requestvote_resp) (c : cluster) : cluster :=
  mk_cluster (set_server dst (final (raft_recv_requestvote_response demo_cb 10
                (raft_get_node (fst (cl_server c dst)) src) resp) (cl_server c dst)) (cl_server c))
             (cl_responses c).

(** Node 1 asks for a pre-vote, gets it from node 2, asks for the vote, gets it
    from node 2 and is leader of term 1. *)
Definition demo_c1 : cluster := demo_local 1 (OpPeriodicInternal 2000) demo_cluster.
Definition demo_c2 : cluster := demo_request 1 2 (mk_rv_req true 1 1 0 0) (mk_rv_resp true 1 0 true) demo_c1.
Definition demo_c3 : cluster := demo_response 2 1 (mk_rv_resp true 1 0 true) demo_c2.
Definition demo_c4 : cluster := demo_request 1 2 (mk_rv_req false 1 1 0 0) (mk_rv_resp false 1 1 true) demo_c3.
Definition demo_c5 : cluster := demo_response 2 1 (mk_rv_resp false 1 1 true) demo_c4.

Lemma demo_cluster_init : cluster_init w_disk w_outbox demo_members demo_cluster.
Proof.
  assert (forall i, i ∈ demo_members.*1 -> i = 1 \/ i = 2 \/ i = 3) as Hids.
  { intros i Hi. apply list_elem_of_In in Hi. simpl in Hi. lia. }
  split; [| |done]; intros i Hi; destruct (Hids i Hi) as [->|[->| ->]]; try (vm_compute; reflexivity).
  all: split; try (vm_compute; reflexivity); split;
    [vm_compute; reflexivity|apply (bool_decide_unpack _); vm_compute; exact I|].
  1: exists 0, (raft_node_new 0 1 true).
  2: exists 1, (raft_node_new 0 2 true).
  3: exists 2, (raft_node_new 0 3 true).
  all: split; [vm_compute; reflexivity|]; split; [|vm_compute; reflexivity].
  all: apply list_elem_of_In; vm_compute; auto.
Qed.

Lemma demo_reachable : rtc (cluster_step demo_cb w_disk w_outbox demo_members) demo_cluster demo_c5.
Proof.
  assert (1 ∈ demo_members.*1 /\ 2 ∈ demo_members.*1) as [H1 H2].
  { split; apply list_elem_of_In; simpl; auto. }
  apply rtc_l with demo_c1.
  { apply (step_local _ _ _ _ demo_cluster 1 (OpPeriodicInternal 2000) 10); [done|done|].
    vm_compute. reflexivity. }
  apply rtc_l with demo_c2.
  { apply (step_requestvote _ _ _ _ demo_c1 1 2 (mk_rv_req true 1 1 0 0) 0); [done|done| |].
    - apply list_elem_of_In. vm_compute. auto.
    - vm_compute. reflexivity. }
  apply rtc_l with demo_c3.
  { apply (step_requestvote_response _ _ _ _ demo_c2 2 1 (mk_rv_resp true 1 0 true) 10 0); [done| |].
    - apply list_elem_of_In. vm_compute. auto.
    - vm_compute. reflexivity. }
  apply rtc_l with demo_c4.
  { apply (step_requestvote _ _ _ _ demo_c3 1 2 (mk_rv_req false 1 1 0 0) 0); [done|done| |].
    - apply list_elem_of_In. vm_compute. auto.
    - vm_compute. reflexivity. }
  apply rtc_once.
  apply (step_requestvote_response _ _ _ _ demo_c4 2 1 (mk_rv_resp false 1 1 true) 10 0); [done| |].
  - apply list_elem_of_In. vm_compute. auto.
  - vm_compute. reflexivity.
Qed.

Lemma election_safety_witness :
  raft_is_leader (fst (cl_server demo_c5 1)) = true /\
  current_term (fst (cl_server demo_c5 1)) = 1 /\
  forall j, j ∈ demo_members.*1 -> raft_is_leader (fst (cl_server demo_c5 j)) = true ->
    current_term (fst (cl_server demo_c5 j)) = 1 -> j = 1.
Proof.
  split; [vm_compute; reflexivity|]. split; [vm_compute; reflexivity|]. intros j Hj Hl Ht.
  apply (election_safety demo_cb w_disk w_outbox demo_members) with (c0 := demo_cluster) (c := demo_c5).
  - apply (bool_decide_unpack _). vm_compute. exact I.
  - apply (bool_decide_unpack _). vm_compute. exact I.
  - discriminate.
  - exact demo_cluster_init.
  - exact demo_reachable.
  - exact Hj.
  - apply list_elem_of_In. simpl. auto.
  - exact Hl.
  - vm_compute. reflexivity.
  - rewrite Ht. vm_compute. reflexivity.
Defined.
