(* ===== verification/EntryCache.v ===== *)
(** * The entry cache of the module ([redisraft/src/entrycache.c])

    A circular buffer of the most recent log entries, kept next to the log
    file.  The operations are computations on the [EntryCache] record; a failed
    [RedisModule_Assert] and a NULL or indeterminate pointer abort.  Reference
    counts are left out, as in [RaftTypes]. *)

From stdpp Require Import base list numbers tactics.
From S2P Require Import Prelude RaftTypes.

Local Open Scope Z_scope.

(** [struct EntryCache]; [ptrs] has [size] slots, [None] is NULL or, after a
    reallocation, indeterminate. *)
Record EntryCache := mk_EntryCache {
  ec_size : Z;
  ec_len : Z;
  ec_start_idx : Z;
  ec_start : Z;
  ec_entries_memsize : Z;
  ec_ptrs : list (option raft_entry)
}.

#[export] Instance eta_EntryCache : Eta EntryCache :=
  fun c => mk_EntryCache (ec_size c) (ec_len c) (ec_start_idx c) (ec_start c)
             (ec_entries_memsize c) (ec_ptrs c).
#[export] Instance set_ec_size : Setter ec_size := ltac:(solve_setter).
#[export] Instance set_ec_len : Setter ec_len := ltac:(solve_setter).
#[export] Instance set_ec_start_idx : Setter ec_start_idx := ltac:(solve_setter).
#[export] Instance set_ec_start : Setter ec_start := ltac:(solve_setter).
#[export] Instance set_ec_entries_memsize : Setter ec_entries_memsize := ltac:(solve_setter).
#[export] Instance set_ec_ptrs : Setter ec_ptrs := ltac:(solve_setter).

(** [sizeof(raft_entry_t)] on the 64-bit targets. *)
Definition sizeof_raft_entry_t : Z := 56.

(** [sizeof(raft_entry_t) + ety->data_len] *)
Definition entry_memsize (e : raft_entry) : Z :=
  sizeof_raft_entry_t + Z.of_nat (length (ety_data e)).

Definition EntryCacheNew (initial_size : Z) : EntryCache :=
  mk_EntryCache initial_size 0 0 0 0 (replicate (Z.to_nat initial_size) None).

(** [cache->ptrs[ofs]] as an entry that is dereferenced. *)
Definition ec_deref (ofs : Z) : M EntryCache raft_entry :=
  c <- get ;;
  match zlookup (ec_ptrs c) ofs with
  | Some (Some e) => ret e
  | _ => abort
  end.

(** [cache->ptrs[ofs] = p] *)
Definition ec_store (ofs : Z) (p : option raft_entry) : M EntryCache unit :=
  c <- get ;;
  match zinsert ofs p (ec_ptrs c) with
  | Some ptrs => modify (fun c => c <| ec_ptrs := ptrs |>)
  | None => abort
  end.

(** The enlargement in [EntryCacheAppend]: the array is doubled, and the part
    that had wrapped around to its start moves behind the old end. *)
Definition EntryCacheEnlarge (c : EntryCache) : EntryCache :=
  let old := ec_ptrs c in
  let s := Z.to_nat (ec_start c) in
  c <| ec_ptrs := replicate s None ++ drop s old ++ take s old
                  ++ replicate (Z.to_nat (ec_size c) - s) None |>
    <| ec_size := ec_size c * 2 |>.

Definition EntryCacheAppend (ety : raft_entry) (idx : Z) : M EntryCache unit :=
  c <- get ;;
  when (ec_start_idx c =? 0) (modify (fun c => c <| ec_start_idx := idx |>)) ;;
  c <- get ;;
  c_assert (ec_start_idx c + ec_len c =? idx) ;;
  when (ec_len c =? ec_size c) (modify EntryCacheEnlarge) ;;
  c <- get ;;
  ec_store (Z.rem (ec_start c + ec_len c) (ec_size c)) (Some ety) ;;
  modify (fun c => c <| ec_len := ec_len c + 1 |>
                     <| ec_entries_memsize := u64 (ec_entries_memsize c + entry_memsize ety) |>).

Definition EntryCacheGet (idx : Z) : M EntryCache (option raft_entry) :=
  c <- get ;;
  if idx <? ec_start_idx c then ret None else
  let relidx := idx - ec_start_idx c in
  if ec_len c <=? relidx then ret None else
  e <- ec_deref (Z.rem (ec_start c + relidx) (ec_size c)) ;;
  ret (Some e).

(** The body of the loops of [EntryCacheDeleteHead] and [EntryCacheCompact]:
    drop the oldest entry. *)
Definition ec_drop_first : M EntryCache unit :=
  c <- get ;;
  ety <- ec_deref (ec_start c) ;;
  modify (fun c => c <| ec_entries_memsize := u64 (ec_entries_memsize c - entry_memsize ety) |>
                     <| ec_start_idx := ec_start_idx c + 1 |>) ;;
  ec_store (ec_start c) None ;;
  modify (fun c => c <| ec_start := ec_start c + 1 |>) ;;
  c <- get ;;
  when (ec_size c <=? ec_start c) (modify (fun c => c <| ec_start := 0 |>)) ;;
  modify (fun c => c <| ec_len := ec_len c - 1 |>).

(** [if (!cache->len) cache->start_idx = 0;] *)
Definition ec_reset_empty : M EntryCache unit :=
  c <- get ;;
  when (ec_len c =? 0) (modify (fun c => c <| ec_start_idx := 0 |>)).

(** [while (cond) { drop the oldest entry; deleted++; }], [n] iterations at
    most. *)
Fixpoint ec_drop_while (n : nat) (cond : EntryCache -> bool) (deleted : Z) : M EntryCache Z :=
  c <- get ;;
  if cond c then
    match n with
    | O => out_of_fuel
    | S n' => ec_drop_first ;; ec_drop_while n' cond (deleted + 1)
    end
  else ret deleted.

Definition EntryCacheDeleteHead (first_idx : Z) : M EntryCache Z :=
  c <- get ;;
  if first_idx <? ec_start_idx c then ret (-1) else
  deleted <- ec_drop_while (Z.to_nat (ec_len c))
    (fun c => (ec_start_idx c <? first_idx) && (0 <? ec_len c)) 0 ;;
  ec_reset_empty ;;
  ret deleted.

(** The loop of [EntryCacheDeleteTail], [n] iterations from index [i]. *)
Fixpoint ec_delete_tail_loop (n : nat) (i deleted : Z) : M EntryCache Z :=
  c <- get ;;
  if i <? ec_start_idx c + ec_len c then
    match n with
    | O => out_of_fuel
    | S n' =>
        let relidx := u64 (i - ec_start_idx c) in
        let ofs := Z.rem (u64 (ec_start c + relidx)) (u64 (ec_size c)) in
        ety <- ec_deref ofs ;;
        modify (fun c => c <| ec_entries_memsize := u64 (ec_entries_memsize c - entry_memsize ety) |>) ;;
        ec_store ofs None ;;
        ec_delete_tail_loop n' (i + 1) (deleted + 1)
    end
  else ret deleted.

Definition EntryCacheDeleteTail (index : Z) : M EntryCache Z :=
  c <- get ;;
  if ec_start_idx c + ec_len c <=? index then ret (-1) else
  if index <? ec_start_idx c then ret (-1) else
  deleted <- ec_delete_tail_loop (Z.to_nat (ec_start_idx c + ec_len c - index)) index 0 ;;
  modify (fun c => c <| ec_len := ec_len c - deleted |>) ;;
  ec_reset_empty ;;
  ret deleted.

Definition EntryCacheCompact (max_memory limit : Z) : M EntryCache Z :=
  c <- get ;;
  deleted <- ec_drop_while (Z.to_nat (ec_len c))
    (fun c => (0 <? ec_len c) && (ec_start_idx c <=? limit) &&
              (max_memory <? ec_entries_memsize c)) 0 ;;
  ec_reset_empty ;;
  ret deleted.

(** ** The abstract cache

    The entries of indexes [ac_start .. ac_start + length - 1]; an empty cache
    starts at 0. *)
Record acache := mk_acache {
  ac_start : Z;
  ac_entries : list raft_entry
}.

Definition ac_norm (a : acache) : acache :=
  match ac_entries a with [] => mk_acache 0 [] | _ => a end.

Definition ac_drop (n : nat) (a : acache) : acache :=
  ac_norm (mk_acache (ac_start a + Z.of_nat n) (drop n (ac_entries a))).

Definition entries_memsize (es : list raft_entry) : Z := foldr (fun e z => entry_memsize e + z) 0 es.

(** How many of the oldest entries have to go. *)
Fixpoint compact_count (es : list raft_entry) (start max_memory limit : Z) : nat :=
  match es with
  | [] => O
  | _ :: es' =>
      if (start <=? limit) && (max_memory <? u64 (entries_memsize es))
      then S (compact_count es' (start + 1) max_memory limit) else O
  end.

(** Calls, their results, and the abstract cache's answer; [None]: the
    assertion of [EntryCacheAppend] fails. *)
Inductive cache_op :=
| CacheAppend (e : raft_entry) (idx : Z)
| CacheGet (idx : Z)
| CacheDeleteHead (first_idx : Z)
| CacheDeleteTail (index : Z)
| CacheCompact (max_memory limit : Z).

Inductive cache_res :=
| ResUnit
| ResCount (n : Z)
| ResEntry (e : option raft_entry).

Definition cache_exec (op : cache_op) : M EntryCache cache_res :=
  match op with
  | CacheAppend e idx => EntryCacheAppend e idx ;; ret ResUnit
  | CacheGet idx => e <- EntryCacheGet idx ;; ret (ResEntry e)
  | CacheDeleteHead i => n <- EntryCacheDeleteHead i ;; ret (ResCount n)
  | CacheDeleteTail i => n <- EntryCacheDeleteTail i ;; ret (ResCount n)
  | CacheCompact m l => n <- EntryCacheCompact m l ;; ret (ResCount n)
  end.

Definition acache_exec (op : cache_op) (a : acache) : option (cache_res * acache) :=
  let len := Z.of_nat (length (ac_entries a)) in
  match op with
  | CacheAppend e idx =>
      match ac_entries a with
      | [] => Some (ResUnit, mk_acache idx [e])
      | es => if ac_start a + len =? idx then Some (ResUnit, mk_acache (ac_start a) (es ++ [e]))
              else None
      end
  | CacheGet idx =>
      Some (ResEntry (if idx <? ac_start a then None
                      else ac_entries a !! Z.to_nat (idx - ac_start a)), a)
  | CacheDeleteHead first =>
      if first <? ac_start a then Some (ResCount (-1), a) else
      let n := Z.min (first - ac_start a) len in
      Some (ResCount n, ac_drop (Z.to_nat n) a)
  | CacheDeleteTail index =>
      if (ac_start a + len <=? index) || (index <? ac_start a) then Some (ResCount (-1), a) else
      Some (ResCount (ac_start a + len - index),
            ac_norm (mk_acache (ac_start a) (take (Z.to_nat (index - ac_start a)) (ac_entries a))))
  | CacheCompact max_memory limit =>
      let n := compact_count (ac_entries a) (ac_start a) max_memory limit in
      Some (ResCount (Z.of_nat n), ac_drop n a)
  end.

Fixpoint cache_exec_all (ops : list cache_op) : M EntryCache (list cache_res) :=
  match ops with
  | [] => ret []
  | op :: ops => r <- cache_exec op ;; rs <- cache_exec_all ops ;; ret (r :: rs)
  end.

Fixpoint acache_exec_all (ops : list cache_op) (a : acache) : option (list cache_res * acache) :=
  match ops with
  | [] => Some ([], a)
  | op :: ops =>
      match acache_exec op a with
      | None => None
      | Some (r, a) =>
          match acache_exec_all ops a with
          | None => None
          | Some (rs, a) => Some (r :: rs, a)
          end
      end
  end.

(** ** Representation *)

(** The slots from [start] on, modulo [size], hold [es]. *)
Definition window (ptrs : list (option raft_entry)) (size start : Z) (es : list raft_entry) : Prop :=
  forall k e, es !! k = Some e -> zlookup ptrs ((start + Z.of_nat k) mod size) = Some (Some e).

(** [ec_rep0] relates a cache to its first index and entries; [ec_rep] adds
    that exactly the empty cache starts at 0, which holds between calls. *)
Record ec_rep0 (c : EntryCache) (start : Z) (es : list raft_entry) : Prop := {
  er_size : 0 < ec_size c;
  er_length : Z.of_nat (length (ec_ptrs c)) = ec_size c;
  er_start : 0 <= ec_start c < ec_size c;
  er_len : ec_len c = Z.of_nat (length es);
  er_fits : ec_len c <= ec_size c;
  er_window : window (ec_ptrs c) (ec_size c) (ec_start c) es;
  er_memsize : ec_entries_memsize c = u64 (entries_memsize es);
  er_start_idx : ec_start_idx c = start
}.

Definition ec_rep (c : EntryCache) (a : acache) : Prop :=
  ec_rep0 c (ac_start a) (ac_entries a) /\ 0 <= ac_start a /\
  (ac_start a = 0 <-> ac_entries a = []).

Lemma window_tail ptrs size start e es :
  0 < size -> window ptrs size start (e :: es) -> window ptrs size ((start + 1) mod size) es.
Proof.
  intros Hs Hw k x Hk. rewrite Zplus_mod_idemp_l.
  replace (start + 1 + Z.of_nat k) with (start + Z.of_nat (S k)) by lia. by apply (Hw (S k)).
Qed.

(** Overwriting a slot outside of the window. *)
Lemma window_store ptrs size start es j x :
  0 < size -> Z.of_nat (length es) <= j < size ->
  window ptrs size start es ->
  window (<[Z.to_nat ((start + j) mod size) := x]> ptrs) size start es.
Proof.
  intros Hs Hj Hw k e Hk. pose proof (lookup_lt_Some _ _ _ Hk).
  rewrite zlookup_insert_ne; [by apply Hw|apply Z.mod_pos_bound; lia|].
  intros E. apply mod_window_inj in E; lia.
Qed.

Lemma window_push ptrs size start es e :
  0 < size -> Z.of_nat (length ptrs) = size -> Z.of_nat (length es) < size ->
  window ptrs size start es ->
  window (<[Z.to_nat ((start + Z.of_nat (length es)) mod size) := Some e]> ptrs) size start (es ++ [e]).
Proof.
  intros Hs Hl Hlt Hw k x Hk.
  destruct (decide (k < length es)%nat) as [Hin|Hout].
  - rewrite lookup_app_l in Hk by lia. revert k x Hk Hin. intros k x Hk _.
    revert k x Hk. apply window_store; [lia|lia|done].
  - rewrite lookup_app_r in Hk by lia. apply list_lookup_singleton_Some in Hk as [Hk <-].
    replace k with (length es) by lia. apply zlookup_insert_eq.
    rewrite Hl. apply Z.mod_pos_bound. lia.
Qed.

Lemma window_take ptrs size start es n : window ptrs size start es -> window ptrs size start (take n es).
Proof. intros Hw k e Hk. apply lookup_take_Some in Hk as [Hk _]. by apply Hw. Qed.

(** Doubling the array keeps a full window. *)
Lemma window_enlarge (c : EntryCache) es :
  0 < ec_size c -> Z.of_nat (length (ec_ptrs c)) = ec_size c -> 0 <= ec_start c < ec_size c ->
  Z.of_nat (length es) = ec_size c -> window (ec_ptrs c) (ec_size c) (ec_start c) es ->
  window (ec_ptrs (EntryCacheEnlarge c)) (ec_size c * 2) (ec_start c) es /\
  Z.of_nat (length (ec_ptrs (EntryCacheEnlarge c))) = ec_size c * 2.
Proof.
  intros Hs Hl Hst Hes Hw. split.
  2: { cbn. rewrite !length_app, !length_replicate, length_drop, length_take. lia. }
  intros k e Hk. pose proof (lookup_lt_Some _ _ _ Hk). specialize (Hw k e Hk).
  rewrite Z.mod_small by lia. cbn. unfold zlookup in *.
  destruct (Z.ltb_spec (ec_start c + Z.of_nat k) 0); [lia|].
  rewrite lookup_app_r by (rewrite length_replicate; lia). rewrite length_replicate.
  pose proof (Z.mod_pos_bound (ec_start c + Z.of_nat k) (ec_size c) Hs).
  destruct (Z.ltb_spec ((ec_start c + Z.of_nat k) mod ec_size c) 0); [lia|].
  destruct (decide (ec_start c + Z.of_nat k < ec_size c)) as [Hin|Hout].
  - rewrite Z.mod_small in Hw by lia. rewrite lookup_app_l by (rewrite length_drop; lia).
    rewrite lookup_drop. rewrite <- Hw. f_equal. lia.
  - assert ((ec_start c + Z.of_nat k) mod ec_size c = ec_start c + Z.of_nat k - ec_size c) as Hm.
    { symmetry. apply (Z.mod_unique_pos _ _ 1); lia. }
    rewrite Hm in Hw. rewrite lookup_app_r by (rewrite length_drop; lia). rewrite length_drop.
    rewrite lookup_app_l by (rewrite length_take; lia). rewrite lookup_take_lt by lia.
    rewrite <- Hw. f_equal. lia.
Qed.

Lemma ec_rep_new n : 0 < n -> ec_rep (EntryCacheNew n) (mk_acache 0 []).
Proof.
  intros Hn. split_and!; try done. constructor; simpl; try done; try lia.
  rewrite length_replicate. lia.
Qed.

Lemma u64_sub_add a b : u64 (u64 (a + b) - a) = u64 b.
Proof. unfold u64. rewrite Zminus_mod_idemp_l. f_equal. lia. Qed.

Lemma u64_add a b : u64 (u64 a + b) = u64 (b + a).
Proof. unfold u64. rewrite Zplus_mod_idemp_l. f_equal. lia. Qed.

Lemma u64_small a : 0 <= a < 2 ^ 64 -> u64 a = a.
Proof. apply Z.mod_small. Qed.

Lemma entries_memsize_app es es' :
  entries_memsize (es ++ es') = entries_memsize es + entries_memsize es'.
Proof. induction es as [|e es IH]; simpl; [done|]. rewrite IH. lia. Qed.

Lemma ec_deref_done c ofs e :
  zlookup (ec_ptrs c) ofs = Some (Some e) -> ec_deref ofs c = Done (e, c).
Proof. intros H. unfold ec_deref. run_refl. by rewrite H. Qed.

Lemma ec_store_done c ofs p :
  0 <= ofs < Z.of_nat (length (ec_ptrs c)) ->
  ec_store ofs p c = Done (tt, c <| ec_ptrs := <[Z.to_nat ofs := p]> (ec_ptrs c) |>).
Proof. intros H. unfold ec_store. run_refl. by rewrite zinsert_in. Qed.

(** [ec_reset_empty] at the end of a deletion. *)
Lemma ec_reset_empty_spec c start es :
  ec_rep0 c start es -> 0 < start \/ (start = 0 /\ es = []) ->
  exists c', ec_reset_empty c = Done (tt, c') /\ ec_rep c' (ac_norm (mk_acache start es)) /\
    ec_size c' = ec_size c.
Proof.
  intros [] Hs. unfold ec_reset_empty. run_refl. unfold ac_norm. simpl.
  destruct (Z.eqb_spec (ec_len c) 0) as [Hz|Hz]; unfold when.
  - eexists. split; [reflexivity|]. destruct es; [|simpl in *; lia].
    split; [|done]. split; [by constructor|]. by cbn.
  - exists c. destruct es as [|e es]; [simpl in *; lia|].
    split; [done|]. split; [|done]. destruct Hs as [?|[]]; [|done].
    split; [by constructor|]. cbn. split; [lia|]. split; [lia|done].
Qed.

Lemma ec_drop_first_spec c start e es :
  ec_rep0 c start (e :: es) ->
  exists c', ec_drop_first c = Done (tt, c') /\ ec_rep0 c' (start + 1) es /\ ec_size c' = ec_size c.
Proof.
  intros [Hsz Hlen Hst Hl Hf Hw Hm Hsi].
  assert (zlookup (ec_ptrs c) (ec_start c) = Some (Some e)) as He.
  { specialize (Hw 0%nat e eq_refl). rewrite Z.add_0_r, Z.mod_small in Hw; done. }
  unfold ec_drop_first. run_refl. run_step (ec_deref_done c _ e He). run_refl.
  erewrite bind_done_eq; [|apply ec_store_done; simpl; lia]. cbv beta.
  run_refl. run_refl. simpl in Hl.
  set (c1 := _ <| ec_start := _ |>).
  assert (exists c2, when (ec_size c1 <=? ec_start c1) (modify (fun c => c <| ec_start := 0 |>)) c1
          = Done (tt, c2) /\ c2 = c1 <| ec_start := (ec_start c + 1) mod ec_size c |>) as (c2 & Hw2 & ->).
  { unfold c1. cbn. destruct (Z.leb_spec (ec_size c) (ec_start c + 1)); unfold when.
    - eexists. split; [reflexivity|]. replace (ec_start c + 1) with (ec_size c) by lia.
      by rewrite Z_mod_same_full.
    - eexists. split; [reflexivity|]. rewrite Z.mod_small by lia. done. }
  run_step Hw2. eexists. split; [reflexivity|]. split; [|done].
  apply window_tail in Hw as Hw'; [|done].
  constructor; cbn.
  - done.
  - by rewrite length_insert.
  - apply Z.mod_pos_bound. lia.
  - lia.
  - lia.
  - intros k x Hk. pose proof (lookup_lt_Some _ _ _ Hk).
    rewrite zlookup_insert_ne; [by apply Hw'|lia|].
    rewrite <- (Z.mod_small (ec_start c) (ec_size c)) at 1 by done.
    rewrite <- (Z.add_0_r (ec_start c)) at 1.
    rewrite Zplus_mod_idemp_l. rewrite <- Z.add_assoc.
    intros E. apply mod_window_inj in E; lia.
  - rewrite Hm. apply u64_sub_add.
  - lia.
Qed.

(** The number of entries [ec_drop_while] drops, for a condition that depends
    on the represented cache only. *)
Fixpoint drop_count (p : Z -> list raft_entry -> bool) (start : Z) (es : list raft_entry) : nat :=
  match es with
  | [] => O
  | _ :: es' => if p start es then S (drop_count p (start + 1) es') else O
  end.

Lemma ec_drop_while_spec cond p :
  (forall c start es, ec_rep0 c start es -> cond c = p start es) ->
  (forall start, p start [] = false) ->
  forall n c start es d, ec_rep0 c start es -> (length es <= n)%nat ->
  exists c', ec_drop_while n cond d c = Done (d + Z.of_nat (drop_count p start es), c') /\
    ec_rep0 c' (start + Z.of_nat (drop_count p start es)) (drop (drop_count p start es) es) /\
    ec_size c' = ec_size c.
Proof.
  intros Hc Hnil. induction n as [|n IH]; intros c start es d Hr Hn; simpl; run_refl;
    rewrite (Hc _ _ _ Hr); (destruct es as [|e es]; [rewrite Hnil|simpl in Hn]).
  1, 3: exists c; simpl; rewrite Z.add_0_r, ?Z.add_0_r; by split_and!; try rewrite Z.add_0_r.
  - lia.
  - simpl drop_count. destruct (p start (e :: es)) eqn:Hp.
    + destruct (ec_drop_first_spec _ _ _ _ Hr) as (c1 & Hrun & Hr1 & Hs1). run_step Hrun.
      destruct (IH c1 (start + 1) es (d + 1) Hr1) as (c' & Hrun' & Hr' & Hs'); [lia|].
      exists c'. rewrite Hrun', Nat2Z.inj_succ. simpl drop.
      replace (start + Z.succ (Z.of_nat (drop_count p (start + 1) es)))
        with (start + 1 + Z.of_nat (drop_count p (start + 1) es)) by lia.
      split; [do 2 f_equal; lia|]. split; [done|congruence].
    + exists c. simpl. rewrite Z.add_0_r. by rewrite Z.add_0_r.
Qed.

Lemma drop_count_head first : forall es start, start <= first ->
  Z.of_nat (drop_count (fun start es => (start <? first) && (0 <? Z.of_nat (length es))) start es)
  = Z.min (first - start) (Z.of_nat (length es)).
Proof.
  induction es as [|e es IH]; intros start Hs; simpl; [lia|].
  destruct (Z.ltb_spec start first); simpl; [|lia]. rewrite Nat2Z.inj_succ, IH; lia.
Qed.

Lemma drop_count_compact m l : forall es start,
  drop_count (fun start es => (0 <? Z.of_nat (length es)) && (start <=? l) &&
                              (m <? u64 (entries_memsize es))) start es
  = compact_count es start m l.
Proof. induction es as [|e es IH]; intros start; simpl; [done|]. by rewrite IH. Qed.

(** [ac_drop] after a deletion from the head. *)
Lemma ec_drop_spec cond p c a :
  (forall c start es, ec_rep0 c start es -> cond c = p start es) ->
  (forall start, p start [] = false) -> ec_rep c a ->
  exists c', (deleted <- ec_drop_while (Z.to_nat (ec_len c)) cond 0 ;;
              ec_reset_empty ;; ret deleted) c
             = Done (Z.of_nat (drop_count p (ac_start a) (ac_entries a)), c') /\
    ec_rep c' (ac_drop (drop_count p (ac_start a) (ac_entries a)) a) /\ ec_size c' = ec_size c.
Proof.
  intros Hc Hnil (Hr & H0 & He).
  destruct (ec_drop_while_spec cond p Hc Hnil (Z.to_nat (ec_len c)) c _ _ 0 Hr)
    as (c1 & Hrun & Hr1 & Hs1); [rewrite (er_len _ _ _ Hr); lia|].
  run_step Hrun.
  destruct (ec_reset_empty_spec _ _ _ Hr1) as (c2 & Hrun2 & Hr2 & Hs2).
  - destruct (ac_entries a) as [|e es] eqn:Ea.
    + right. simpl. split; [|done]. rewrite Z.add_0_r. by apply He.
    + left. assert (ac_start a <> 0) by (intros Hz; apply He in Hz; done). lia.
  - run_step Hrun2. exists c2. split; [done|]. split; [exact Hr2|congruence].
Qed.

Lemma ac_len_0 a : (0 =? Z.of_nat (length (ac_entries a))) = true -> ac_entries a = [].
Proof. destruct (ac_entries a); simpl; [done|lia]. Qed.

(** The slot write at the end of [EntryCacheAppend]. *)
Lemma ec_push_spec c start es e :
  ec_rep0 c start es -> ec_len c < ec_size c ->
  exists c', (ec_store (Z.rem (ec_start c + ec_len c) (ec_size c)) (Some e) ;;
              modify (fun c => c <| ec_len := ec_len c + 1 |>
                <| ec_entries_memsize := u64 (ec_entries_memsize c + entry_memsize e) |>)) c
             = Done (tt, c') /\ ec_rep0 c' start (es ++ [e]) /\ ec_size c' = ec_size c.
Proof.
  intros [Hsz Hlen Hst Hl Hf Hw Hm Hsi] Hlt. rewrite rem_mod_nonneg by lia.
  pose proof (Z.mod_pos_bound (ec_start c + ec_len c) (ec_size c) Hsz).
  erewrite bind_done_eq; [|apply ec_store_done; lia]. cbv beta.
  eexists. split; [reflexivity|]. split; [|done].
  constructor; cbn; rewrite ?length_insert, ?length_app; simpl; try done; try lia.
  - rewrite Hl. apply window_push; [done|done|lia|done].
  - rewrite Hm, u64_add, entries_memsize_app. simpl. f_equal. lia.
Qed.

Lemma ec_enlarge_spec c start es :
  ec_rep0 c start es -> ec_len c = ec_size c -> ec_rep0 (EntryCacheEnlarge c) start es.
Proof.
  intros [Hsz Hlen Hst Hl Hf Hw Hm Hsi] Hfull.
  destruct (window_enlarge c es) as [Hw' Hl']; try done; [lia|].
  constructor; try done; cbn; lia.
Qed.

(** The part of [EntryCacheAppend] behind the assertion. *)
Lemma ec_grow_push_spec c start es e :
  ec_rep0 c start es ->
  exists c', (when (ec_len c =? ec_size c) (modify EntryCacheEnlarge) ;;
              c <- get ;;
              ec_store (Z.rem (ec_start c + ec_len c) (ec_size c)) (Some e) ;;
              modify (fun c => c <| ec_len := ec_len c + 1 |>
                <| ec_entries_memsize := u64 (ec_entries_memsize c + entry_memsize e) |>)) c
             = Done (tt, c') /\ ec_rep0 c' start (es ++ [e]) /\
             ec_size c' <= Z.max (ec_size c) (2 * (ec_len c + 1)).
Proof.
  intros Hr. pose proof (er_fits _ _ _ Hr). pose proof (er_size _ _ _ Hr).
  destruct (Z.eqb_spec (ec_len c) (ec_size c)) as [Hfull|Hfull]; unfold when; run_refl; run_refl.
  - pose proof (ec_enlarge_spec _ _ _ Hr Hfull) as Hr'.
    destruct (ec_push_spec _ _ _ e Hr') as (c' & Hrun & Hr2 & Hs2); [cbn; lia|].
    exists c'. split; [exact Hrun|]. split; [done|]. rewrite Hs2. cbn. lia.
  - destruct (ec_push_spec _ _ _ e Hr) as (c' & Hrun & Hr2 & Hs2); [lia|].
    exists c'. split; [exact Hrun|]. split; [done|]. lia.
Qed.

Lemma EntryCacheAppend_spec c a e idx :
  ec_rep c a -> 0 < idx ->
  match acache_exec (CacheAppend e idx) a with
  | None => EntryCacheAppend e idx c = Abort
  | Some (_, a') => exists c', EntryCacheAppend e idx c = Done (tt, c') /\ ec_rep c' a' /\
                      ec_size c' <= Z.max (ec_size c) (2 * (ec_len c + 1))
  end.
Proof.
  intros (Hr & H0 & He) Hi. unfold EntryCacheAppend. run_refl.
  rewrite (er_start_idx _ _ _ Hr). pose proof (er_len _ _ _ Hr) as Hl. cbn [acache_exec].
  destruct (ac_entries a) as [|e0 es] eqn:Ea.
  - assert (ac_start a = 0) as Hz by (by apply He). rewrite Hz. simpl (0 =? 0). unfold when at 1.
    run_refl. run_refl. cbn. simpl in Hl. rewrite Hl, Z.add_0_r, Z.eqb_refl. simpl c_assert. run_refl.
    assert (ec_rep0 (c <| ec_start_idx := idx |>) idx []) as Hr' by (destruct Hr; by constructor).
    destruct (ec_grow_push_spec _ _ _ e Hr') as (c' & Hrun & Hr2 & Hs2).
    cbn in Hrun, Hs2. rewrite Hl in Hrun, Hs2. exists c'. split; [exact Hrun|]. split; [|done].
    split; [done|]. simpl. split; [lia|]. split; [lia|done].
  - assert (ac_start a <> 0) as Hz by (intros Hz; apply He in Hz; done).
    destruct (Z.eqb_spec (ac_start a) 0); [done|].
    assert ((ac_start a + Z.of_nat (length (e0 :: es)) =? idx) = (ec_start_idx c + ec_len c =? idx))
      as -> by (by rewrite (er_start_idx _ _ _ Hr), Hl).
    destruct (_ =? idx) eqn:Hidx; unfold when at 1; run_refl; run_refl; rewrite Hidx; [|done].
    simpl c_assert. run_refl.
    destruct (ec_grow_push_spec _ _ _ e Hr) as (c' & Hrun & Hr2 & Hs2).
    exists c'. rewrite Hl in *. split; [exact Hrun|]. split; [|done].
    split; [done|]. simpl. split; [lia|]. split; [lia|done].
Qed.

Lemma EntryCacheGet_spec c a idx :
  ec_rep c a ->
  EntryCacheGet idx c =
    Done (if idx <? ac_start a then None else ac_entries a !! Z.to_nat (idx - ac_start a), c).
Proof.
  intros (Hr & H0 & He). unfold EntryCacheGet. run_refl. rewrite (er_start_idx _ _ _ Hr).
  destruct (Z.ltb_spec idx (ac_start a)); [done|].
  rewrite (er_len _ _ _ Hr).
  destruct (Z.leb_spec (Z.of_nat (length (ac_entries a))) (idx - ac_start a)).
  { by rewrite lookup_ge_None_2 by lia. }
  destruct (lookup_lt_is_Some_2 (ac_entries a) (Z.to_nat (idx - ac_start a))) as [e Hk]; [lia|].
  rewrite Hk. pose proof (er_start _ _ _ Hr). rewrite rem_mod_nonneg by lia.
  pose proof (er_window _ _ _ Hr _ _ Hk) as Hslot. rewrite Z2Nat.id in Hslot by lia.
  run_step (ec_deref_done _ _ _ Hslot). done.
Qed.

Lemma ec_delete_tail_loop_spec keep m : forall rest c j d,
  0 < ec_size c < 2 ^ 62 -> Z.of_nat (length (ec_ptrs c)) = ec_size c ->
  0 <= ec_start c < ec_size c -> Z.of_nat (length keep) <= j ->
  ec_len c = j + Z.of_nat (length rest) -> ec_len c <= ec_size c ->
  window (ec_ptrs c) (ec_size c) (ec_start c) keep ->
  window (ec_ptrs c) (ec_size c) (ec_start c + j) rest ->
  ec_entries_memsize c = u64 (entries_memsize rest + m) ->
  exists ptrs, ec_delete_tail_loop (length rest) (ec_start_idx c + j) d c
    = Done (d + Z.of_nat (length rest), c <| ec_ptrs := ptrs |> <| ec_entries_memsize := u64 m |>) /\
    Z.of_nat (length ptrs) = ec_size c /\ window ptrs (ec_size c) (ec_start c) keep.
Proof.
  induction rest as [|e rest IH]; intros c j d Hs Hp Hst Hj Hl Hf Hk Hw Hm; simpl; run_refl.
  - simpl in Hl. destruct (Z.ltb_spec (ec_start_idx c + j) (ec_start_idx c + ec_len c)); [lia|].
    exists (ec_ptrs c). rewrite Z.add_0_r. split; [|done]. unfold ret. do 2 f_equal.
    change (u64 (entries_memsize [] + m)) with (u64 m) in Hm. rewrite <- Hm. by destruct c.
  - simpl in Hl. destruct (Z.ltb_spec (ec_start_idx c + j) (ec_start_idx c + ec_len c)); [|lia].
    replace (u64 (ec_start_idx c + j - ec_start_idx c)) with j by (rewrite u64_small; lia).
    rewrite !u64_small by lia. rewrite rem_mod_nonneg by lia.
    pose proof (Hw 0%nat e eq_refl) as He. rewrite Z.add_0_r in He.
    pose proof (Z.mod_pos_bound (ec_start c + j) (ec_size c)).
    run_step (ec_deref_done _ _ _ He). run_refl.
    erewrite bind_done_eq; [|apply ec_store_done; cbn; lia]. cbv beta.
    set (c1 := _ <| ec_ptrs := _ |>).
    destruct (IH c1 (j + 1) (d + 1)) as (ptrs & Hrun & Hlen & Hw');
      [unfold c1; cbn; rewrite ?length_insert; try done; try lia..|].
    + apply window_store; [lia|lia|done].
    + intros k x Hk'. pose proof (lookup_lt_Some _ _ _ Hk').
      specialize (Hw (S k) x Hk').
      replace (ec_start c + (j + 1) + Z.of_nat k) with (ec_start c + j + Z.of_nat (S k)) by lia.
      rewrite zlookup_insert_ne; [done|lia|].
      intros E. rewrite <- Z.add_assoc in E. apply mod_window_inj in E; lia.
    + rewrite Hm. simpl. rewrite <- Z.add_assoc. by rewrite u64_sub_add.
    + exists ptrs. change (ec_start_idx c1) with (ec_start_idx c) in Hrun.
      replace (ec_start_idx c + j + 1) with (ec_start_idx c + (j + 1)) by lia. rewrite Hrun. split; [|done].
      unfold c1. cbn. do 2 f_equal. lia.
Qed.

Lemma EntryCacheDeleteTail_spec c a idx :
  ec_rep c a -> ec_size c < 2 ^ 62 ->
  exists r a' c', acache_exec (CacheDeleteTail idx) a = Some (ResCount r, a') /\
    EntryCacheDeleteTail idx c = Done (r, c') /\ ec_rep c' a' /\ ec_size c' = ec_size c.
Proof.
  intros (Hr & H0 & He) Hsz. cbn [acache_exec]. unfold EntryCacheDeleteTail. run_refl.
  rewrite (er_start_idx _ _ _ Hr), (er_len _ _ _ Hr).
  destruct (Z.leb_spec (ac_start a + Z.of_nat (length (ac_entries a))) idx); simpl.
  { eexists _, _, _. split_and!; done. }
  destruct (Z.ltb_spec idx (ac_start a)) as [|Hge].
  { eexists _, _, _. split_and!; done. }
  set (j := idx - ac_start a). set (es := ac_entries a) in *. destruct Hr as [Hs Hp Hst Hl Hf Hw Hm Hsi].
  assert (length (drop (Z.to_nat j) es) = Z.to_nat (ac_start a + Z.of_nat (length es) - idx)) as Hd
    by (rewrite length_drop; lia).
  destruct (ec_delete_tail_loop_spec (take (Z.to_nat j) es) (entries_memsize (take (Z.to_nat j) es))
              (drop (Z.to_nat j) es) c j 0) as (ptrs & Hrun & Hlen & Hwk); try done.
  - rewrite length_take. lia.
  - rewrite length_drop. lia.
  - by apply window_take.
  - intros k e Hk. rewrite lookup_drop in Hk.
    replace (ec_start c + j + Z.of_nat k) with (ec_start c + Z.of_nat (Z.to_nat j + k)) by lia. by apply Hw.
  - rewrite Hm, Z.add_comm, <- entries_memsize_app, take_drop. done.
  - rewrite Hd, Hsi in Hrun. replace (ac_start a + j) with idx in Hrun by lia. run_step Hrun. run_refl.
    rewrite Z2Nat.id by lia. rewrite Z.add_0_l.
    set (c1 := _ <| ec_len := _ |>).
    destruct (ec_reset_empty_spec c1 (ac_start a) (take (Z.to_nat j) es)) as (c2 & Hrun2 & Hr2 & Hs2).
    + constructor; unfold c1; cbn; try done; rewrite ?length_take; lia.
    + left. destruct (decide (ac_start a = 0)) as [Hz|]; [|lia].
      apply He in Hz. unfold es in *. rewrite Hz in *. simpl in *. lia.
    + run_step Hrun2. eexists _, _, c2. split; [done|]. split; [done|]. split; [exact Hr2|exact Hs2].
Qed.

(** ** Refinement *)

(** One call. *)
Lemma cache_exec_spec op c a :
  ec_rep c a -> ec_size c < 2 ^ 62 ->
  (forall e idx, op = CacheAppend e idx -> 0 < idx) ->
  match acache_exec op a with
  | None => cache_exec op c = Abort
  | Some (r, a') => exists c', cache_exec op c = Done (r, c') /\ ec_rep c' a' /\
                      ec_size c' <= Z.max (ec_size c) (2 * (ec_len c + 1))
  end.
Proof.
  intros Hr Hs Hi. destruct op as [e idx|idx|first|idx|mm lim]; unfold cache_exec.
  - pose proof (EntryCacheAppend_spec c a e idx Hr (Hi _ _ eq_refl)) as H.
    destruct (acache_exec (CacheAppend e idx) a) as [[r a']|] eqn:E.
    + destruct H as (c' & Hrun & Hr' & Hs'). run_step Hrun. exists c'. split_and!; try done.
      cbn [acache_exec] in E. repeat case_match; by simplify_eq.
    + unfold bind. by rewrite H.
  - cbn [acache_exec]. run_step (EntryCacheGet_spec c a idx Hr). exists c. split_and!; [done..|lia].
  - cbn [acache_exec]. unfold EntryCacheDeleteHead. pose proof Hr as (Hr0 & _).
    destruct (Z.ltb_spec first (ac_start a)) as [Hlt|Hge].
    + exists c. split; [|split; [done|lia]]. unfold bind, get, ret.
      by rewrite (er_start_idx _ _ _ Hr0), (proj2 (Z.ltb_lt _ _) Hlt).
    + destruct (ec_drop_spec (fun c => (ec_start_idx c <? first) && (0 <? ec_len c))
                  (fun start es => (start <? first) && (0 <? Z.of_nat (length es))) c a)
        as (c' & Hrun & Hr' & Hs'); [|intros; apply andb_false_r|done|].
      { intros ? ? ? []. congruence. }
      set (n := drop_count _ _ _) in *.
      assert (Z.of_nat n = Z.min (first - ac_start a) (Z.of_nat (length (ac_entries a)))) as Hn
        by (by apply drop_count_head).
      rewrite <- Hn, Nat2Z.id. exists c'. split; [|split; [done|lia]].
      erewrite bind_done_eq; [reflexivity|]. run_refl.
      rewrite (er_start_idx _ _ _ Hr0), (proj2 (Z.ltb_ge _ _) Hge). exact Hrun.
  - destruct (EntryCacheDeleteTail_spec c a idx Hr Hs) as (r & a' & c' & -> & Hrun & Hr' & Hs').
    run_step Hrun. exists c'. split_and!; [done..|lia].
  - cbn [acache_exec]. unfold EntryCacheCompact.
    destruct (ec_drop_spec (fun c => (0 <? ec_len c) && (ec_start_idx c <=? lim) && (mm <? ec_entries_memsize c))
                (fun start es => (0 <? Z.of_nat (length es)) && (start <=? lim) && (mm <? u64 (entries_memsize es))) c a)
      as (c' & Hrun & Hr' & Hs'); [|done|done|].
    { intros ? ? ? []. congruence. }
    rewrite drop_count_compact in *. exists c'. split; [|split; [done|lia]].
    erewrite bind_done_eq; [reflexivity|]. run_refl. exact Hrun.
Qed.

(** The size of the array stays below twice the number of calls made. *)
Lemma cache_refines ops : forall c a (n : nat),
  ec_rep c a -> Z.of_nat (n + length ops) < 2 ^ 60 ->
  ec_size c <= Z.max (2 ^ 61) (2 * Z.of_nat n) -> ec_len c <= Z.of_nat n ->
  (forall e idx, CacheAppend e idx ∈ ops -> 0 < idx) ->
  match acache_exec_all ops a with
  | None => cache_exec_all ops c = Abort
  | Some (rs, a') => exists c', cache_exec_all ops c = Done (rs, c') /\ ec_rep c' a'
  end.
Proof.
  induction ops as [|op ops IH]; intros c a n Hr Hn Hs Hl Hi; simpl.
  { by exists c. }
  simpl in Hn.
  pose proof (cache_exec_spec op c a Hr ltac:(lia)
                ltac:(intros e idx ->; apply (Hi e); by left)) as H1.
  destruct (acache_exec op a) as [[r a1]|] eqn:E1.
  2: { unfold bind. by rewrite H1. }
  destruct H1 as (c1 & Hrun1 & Hr1 & Hs1). run_step Hrun1.
  specialize (IH c1 a1 (S n) Hr1 ltac:(lia) ltac:(lia)).
  assert (length (ac_entries a1) <= S (length (ac_entries a)))%nat as Hgrow.
  { destruct op; cbn [acache_exec] in E1; unfold ac_drop, ac_norm in E1; cbn in E1;
      repeat case_match; simplify_eq; simpl; try lia;
      rewrite ?length_app; simpl; try lia;
      repeat match goal with
      | H : drop ?k ?l = _ |- _ => apply (f_equal length) in H; rewrite length_drop in H; simpl in H
      | H : take ?k ?l = _ |- _ => apply (f_equal length) in H; rewrite length_take in H; simpl in H
      end; lia. }
  destruct Hr as [Hr _]. destruct Hr1 as [Hr1 _].
  rewrite (er_len _ _ _ Hr) in Hl. rewrite (er_len _ _ _ Hr1) in IH.
  specialize (IH ltac:(lia) ltac:(intros e idx He; apply (Hi e); by right)).
  destruct (acache_exec_all ops a1) as [[rs a']|].
  - destruct IH as (c' & Hrun & Hr'). run_step Hrun. by exists c'.
  - unfold bind. by rewrite IH.
Qed.

(** C25 (refinement). Every sequence of calls on the entry cache answers what the
    abstract cache answers, through growth and wrap-around of the buffer and
    with the memory accounting of [EntryCacheCompact], and stops only where the
    abstract cache refuses an append that does not continue it. *)
Theorem entry_cache_refines (size : Z) (ops : list cache_op) :
  0 < size < 2 ^ 61 -> Z.of_nat (length ops) < 2 ^ 60 ->
  (forall e idx, CacheAppend e idx ∈ ops -> 0 < idx) ->
  match acache_exec_all ops (mk_acache 0 []) with
  | None => cache_exec_all ops (EntryCacheNew size) = Abort
  | Some (rs, a) => exists c, cache_exec_all ops (EntryCacheNew size) = Done (rs, c) /\ ec_rep c a
  end.
Proof.
  intros Hs Hn Hi. apply (cache_refines ops _ _ 0); simpl; try done; try lia.
  apply ec_rep_new. lia.
Qed.

(** The deletion of entries that starts before the cache (the
    fault the comment in [EntryCacheDeleteTail] keeps on purpose) removes
    nothing from it: the cache still answers the deleted entries, and the next
    append to the log, at the first deleted index, fails the assertion of
    [EntryCacheAppend]. *)
Theorem stale_cache_after_delete (c : EntryCache) (a : acache) (idx : Z) (e : raft_entry) :
  ec_rep c a -> ac_entries a <> [] -> 0 < idx < ac_start a ->
  EntryCacheDeleteTail idx c = Done (-1, c) /\
  EntryCacheGet (ac_start a) c = Done (head (ac_entries a), c) /\
  EntryCacheAppend e idx c = Abort.
Proof.
  intros Hr Hne Hi. split; [|split].
  - destruct Hr as [Hr _]. unfold EntryCacheDeleteTail. run_refl.
    rewrite (er_start_idx _ _ _ Hr), (er_len _ _ _ Hr).
    destruct (Z.leb_spec (ac_start a + Z.of_nat (length (ac_entries a))) idx); [lia|].
    by rewrite (proj2 (Z.ltb_lt _ _)) by lia.
  - rewrite (EntryCacheGet_spec _ _ _ Hr), Z.ltb_irrefl, Z.sub_diag. by destruct (ac_entries a).
  - pose proof (EntryCacheAppend_spec c a e idx Hr ltac:(lia)) as H. cbn [acache_exec] in H.
    destruct (ac_entries a) as [|e0 es]; [done|].
    destruct (Z.eqb_spec (ac_start a + Z.of_nat (length (e0 :: es))) idx); [lia|done].
Qed.

(** ** Concrete runs *)

Definition cache_entry (k : Z) : raft_entry := mk_entry 1 k 0 RAFT_LOGTYPE_NORMAL [].

(** Fill a cache of two slots, wrap, grow and shrink it. *)
Definition cache_demo_ops : list cache_op :=
  [CacheAppend (cache_entry 7) 7; CacheAppend (cache_entry 8) 8; CacheDeleteHead 8;
   CacheAppend (cache_entry 9) 9; CacheAppend (cache_entry 10) 10; CacheGet 9;
   CacheDeleteTail 10; CacheCompact 60 100; CacheGet 8; CacheGet 9].

Lemma entry_cache_refines_witness :
  exists c, cache_exec_all cache_demo_ops (EntryCacheNew 2) =
    Done ([ResUnit; ResUnit; ResCount 1; ResUnit; ResUnit; ResEntry (Some (cache_entry 9));
           ResCount 1; ResCount 1; ResEntry None; ResEntry (Some (cache_entry 9))], c) /\
    ec_rep c (mk_acache 9 [cache_entry 9]).
Proof.
  assert (Hi : forall e idx, CacheAppend e idx ∈ cache_demo_ops -> 0 < idx).
  { intros e idx He. apply list_elem_of_In in He. simpl in He.
    repeat (destruct He as [He|He]; [first [discriminate He | injection He as _ <-; reflexivity]|]).
    destruct He. }
  exact (entry_cache_refines 2 cache_demo_ops ltac:(lia) ltac:(vm_compute; reflexivity) Hi).
Defined.

(** The cache holds indexes 8 and 9 of a log that is cut back to index 5. *)
Lemma stale_cache_after_delete_witness :
  let c := EntryCacheNew 4 in
  let c := match (EntryCacheAppend (cache_entry 8) 8 ;; EntryCacheAppend (cache_entry 9) 9) c with
           | Done (_, c) => c | _ => c end in
  EntryCacheDeleteTail 5 c = Done (-1, c) /\
  EntryCacheGet 8 c = Done (Some (cache_entry 8), c) /\
  EntryCacheAppend (cache_entry 5) 5 c = Abort.
Proof.
  intros c c'.
  apply (stale_cache_after_delete c' (mk_acache 8 [cache_entry 8; cache_entry 9]) 5 (cache_entry 5)).
  - split; [|simpl; split; [lia|split; [lia|discriminate]]].
    constructor; try reflexivity; try (vm_compute; (lia || done)).
    intros [|[|k]] x Hx; vm_compute in Hx; [injection Hx as <-; reflexivity
                                           |injection Hx as <-; reflexivity|discriminate Hx].
  - discriminate.
  - simpl. lia.
Defined.
