(* ===== verification/Crc.v ===== *)
(** * Checksums ([deps/common/sc_crc32.c], [deps/common/crc16.c], [redisraft/src/util.c])

    The table-driven CRC-32C of the log files and the CRC-16 of the key slots,
    and their agreement with the bit by bit definitions. *)

From stdpp Require Import base list numbers tactics.
From S2P Require Import Prelude.

Local Open Scope Z_scope.

(** ** CRC-32C *)

Definition POLY : Z := 0x82f63b78.

(** [crc & 1 ? (crc >> 1) ^ POLY : crc >> 1] *)
Definition crc_bit (crc : Z) : Z :=
  if Z.testbit crc 0 then Z.lxor (Z.shiftr crc 1) POLY else Z.shiftr crc 1.

(** The eight repetitions. *)
Definition crc_byte (crc : Z) : Z := Nat.iter 8 crc_bit crc.

Definition byte_range : list Z := Z.of_nat <$> seq 0 256.

(** One more byte through table 0. *)
Definition table_step (t0 : list Z) (crc : Z) : Z :=
  Z.lxor (nth (Z.to_nat (Z.land crc 0xff)) t0 0) (Z.shiftr crc 8).

(** Row [k] from row [0]: [k] further steps of every entry. *)
Definition crc32_init_sw_le : list (list Z) :=
  let t0 := crc_byte <$> byte_range in
  (fun k => (fun c => Nat.iter k (table_step t0) c) <$> t0) <$> seq 0 8.

(** [crc32c_table_le], as [crc32_init_sw_le] fills it. *)
Definition crc32c_table_le : list (list Z) := Eval vm_compute in crc32_init_sw_le.

Definition tab (k : nat) (n : Z) : Z := nth (Z.to_nat n) (nth k crc32c_table_le []) 0.

(** The byte loops: up to an address that is a multiple of 8, and at the end. *)
Fixpoint sw_le_head (addr crc : Z) (buf : list Z) : Z * list Z :=
  match buf with
  | [] => (crc, [])
  | b :: rest =>
      if Z.land addr 7 =? 0 then (crc, buf)
      else sw_le_head (addr + 1)
             (Z.lxor (tab 0 (Z.land (Z.lxor crc b) 0xff)) (Z.shiftr crc 8)) rest
  end.

Fixpoint sw_le_tail (crc : Z) (buf : list Z) : Z :=
  match buf with
  | [] => crc
  | b :: rest => sw_le_tail (Z.lxor (tab 0 (Z.land (Z.lxor crc b) 0xff)) (Z.shiftr crc 8)) rest
  end.

(** A 64-bit word of memory, little-endian. *)
Definition le_word (bs : list Z) : Z := foldr (fun b w => Z.lor b (Z.shiftl w 8)) 0 bs.

(** [crcw ^= *next; crcw = table[7][crcw & 0xff] ^ ... ^ table[0][crcw >> 56]] *)
Definition sw_le_word (crcw w : Z) : Z :=
  let crcw := Z.lxor crcw w in
  Z.lxor (Z.lxor (Z.lxor (Z.lxor (Z.lxor (Z.lxor (Z.lxor
    (tab 7 (Z.land crcw 0xff))
    (tab 6 (Z.land (Z.shiftr crcw 8) 0xff)))
    (tab 5 (Z.land (Z.shiftr crcw 16) 0xff)))
    (tab 4 (Z.land (Z.shiftr crcw 24) 0xff)))
    (tab 3 (Z.land (Z.shiftr crcw 32) 0xff)))
    (tab 2 (Z.land (Z.shiftr crcw 40) 0xff)))
    (tab 1 (Z.land (Z.shiftr crcw 48) 0xff)))
    (tab 0 (Z.shiftr crcw 56)).

(** The loop over words: the value and the bytes left, fewer than 8. *)
Fixpoint sw_le_words (crcw : Z) (buf : list Z) : Z * list Z :=
  match buf with
  | b0 :: b1 :: b2 :: b3 :: b4 :: b5 :: b6 :: b7 :: rest =>
      sw_le_words (sw_le_word crcw (le_word [b0; b1; b2; b3; b4; b5; b6; b7])) rest
  | _ => (crcw, buf)
  end.

Definition not32 (x : Z) : Z := Z.lxor x 0xffffffff.

(** [buf] at address [addr]. *)
Definition crc32_sw_le (addr crc : Z) (buf : list Z) : Z :=
  let crc := not32 crc in
  let '(crc, buf) := sw_le_head addr crc buf in
  let '(crcw, buf) := sw_le_words crc buf in
  let crc := Z.land crcw 0xffffffff in
  not32 (sw_le_tail crc buf).

(** [sc_crc32] of a build without CRC instructions, on a little-endian
    machine; the address makes no difference ([crc32_reference] below). *)
Definition sc_crc32 (crc : Z) (buf : list Z) : Z := crc32_sw_le 0 crc buf.

(** ** CRC-16 and key slots *)

Definition crc16tab : list Z :=
  [0x0000; 0x1021; 0x2042; 0x3063; 0x4084; 0x50a5; 0x60c6; 0x70e7;
   0x8108; 0x9129; 0xa14a; 0xb16b; 0xc18c; 0xd1ad; 0xe1ce; 0xf1ef;
   0x1231; 0x0210; 0x3273; 0x2252; 0x52b5; 0x4294; 0x72f7; 0x62d6;
   0x9339; 0x8318; 0xb37b; 0xa35a; 0xd3bd; 0xc39c; 0xf3ff; 0xe3de;
   0x2462; 0x3443; 0x0420; 0x1401; 0x64e6; 0x74c7; 0x44a4; 0x5485;
   0xa56a; 0xb54b; 0x8528; 0x9509; 0xe5ee; 0xf5cf; 0xc5ac; 0xd58d;
   0x3653; 0x2672; 0x1611; 0x0630; 0x76d7; 0x66f6; 0x5695; 0x46b4;
   0xb75b; 0xa77a; 0x9719; 0x8738; 0xf7df; 0xe7fe; 0xd79d; 0xc7bc;
   0x48c4; 0x58e5; 0x6886; 0x78a7; 0x0840; 0x1861; 0x2802; 0x3823;
   0xc9cc; 0xd9ed; 0xe98e; 0xf9af; 0x8948; 0x9969; 0xa90a; 0xb92b;
   0x5af5; 0x4ad4; 0x7ab7; 0x6a96; 0x1a71; 0x0a50; 0x3a33; 0x2a12;
   0xdbfd; 0xcbdc; 0xfbbf; 0xeb9e; 0x9b79; 0x8b58; 0xbb3b; 0xab1a;
   0x6ca6; 0x7c87; 0x4ce4; 0x5cc5; 0x2c22; 0x3c03; 0x0c60; 0x1c41;
   0xedae; 0xfd8f; 0xcdec; 0xddcd; 0xad2a; 0xbd0b; 0x8d68; 0x9d49;
   0x7e97; 0x6eb6; 0x5ed5; 0x4ef4; 0x3e13; 0x2e32; 0x1e51; 0x0e70;
   0xff9f; 0xefbe; 0xdfdd; 0xcffc; 0xbf1b; 0xaf3a; 0x9f59; 0x8f78;
   0x9188; 0x81a9; 0xb1ca; 0xa1eb; 0xd10c; 0xc12d; 0xf14e; 0xe16f;
   0x1080; 0x00a1; 0x30c2; 0x20e3; 0x5004; 0x4025; 0x7046; 0x6067;
   0x83b9; 0x9398; 0xa3fb; 0xb3da; 0xc33d; 0xd31c; 0xe37f; 0xf35e;
   0x02b1; 0x1290; 0x22f3; 0x32d2; 0x4235; 0x5214; 0x6277; 0x7256;
   0xb5ea; 0xa5cb; 0x95a8; 0x8589; 0xf56e; 0xe54f; 0xd52c; 0xc50d;
   0x34e2; 0x24c3; 0x14a0; 0x0481; 0x7466; 0x6447; 0x5424; 0x4405;
   0xa7db; 0xb7fa; 0x8799; 0x97b8; 0xe75f; 0xf77e; 0xc71d; 0xd73c;
   0x26d3; 0x36f2; 0x0691; 0x16b0; 0x6657; 0x7676; 0x4615; 0x5634;
   0xd94c; 0xc96d; 0xf90e; 0xe92f; 0x99c8; 0x89e9; 0xb98a; 0xa9ab;
   0x5844; 0x4865; 0x7806; 0x6827; 0x18c0; 0x08e1; 0x3882; 0x28a3;
   0xcb7d; 0xdb5c; 0xeb3f; 0xfb1e; 0x8bf9; 0x9bd8; 0xabbb; 0xbb9a;
   0x4a75; 0x5a54; 0x6a37; 0x7a16; 0x0af1; 0x1ad0; 0x2ab3; 0x3a92;
   0xfd2e; 0xed0f; 0xdd6c; 0xcd4d; 0xbdaa; 0xad8b; 0x9de8; 0x8dc9;
   0x7c26; 0x6c07; 0x5c64; 0x4c45; 0x3ca2; 0x2c83; 0x1ce0; 0x0cc1;
   0xef1f; 0xff3e; 0xcf5d; 0xdf7c; 0xaf9b; 0xbfba; 0x8fd9; 0x9ff8;
   0x6e17; 0x7e36; 0x4e55; 0x5e74; 0x2e93; 0x3eb2; 0x0ed1; 0x1ef0].

Definition u16 (z : Z) : Z := z mod 2 ^ 16.

Fixpoint crc16_loop (crc : Z) (buf : list Z) : Z :=
  match buf with
  | [] => crc
  | b :: buf =>
      crc16_loop (u16 (Z.lxor (Z.shiftl crc 8)
        (nth (Z.to_nat (Z.land (Z.lxor (Z.shiftr crc 8) b) 0xff)) crc16tab 0))) buf
  end.

Definition crc16_ccitt (buf : list Z) : Z := crc16_loop 0 buf.

Definition LBRACE : Z := 123.
Definition RBRACE : Z := 125.

(** [for (s = from; s < keylen; s++) if (key[s] == c) break;]: the index. *)
Fixpoint scan_char (c : Z) (key : list Z) (s : nat) : nat :=
  match key with
  | [] => s
  | k :: key => if k =? c then s else scan_char c key (S s)
  end.

Definition keyHashSlot (key : list Z) : Z :=
  let keylen := length key in
  let s := scan_char LBRACE key 0 in
  if (s =? keylen)%nat then Z.land (crc16_ccitt key) 0x3FFF else
  let e := scan_char RBRACE (drop (S s) key) (S s) in
  if (e =? keylen)%nat || (e =? S s)%nat then Z.land (crc16_ccitt key) 0x3FFF else
  Z.land (crc16_ccitt (take (e - s - 1) (drop (S s) key))) 0x3FFF.

(** * Correctness *)

(** The definition of CRC-32C, bit by bit. *)
Definition crc32c_spec (crc : Z) (buf : list Z) : Z :=
  not32 (foldl (fun c b => crc_byte (Z.lxor c b)) (not32 crc) buf).

Definition is_byte (b : Z) : Prop := 0 <= b < 256.

(** ** A step is linear *)

Lemma crc_bit_lxor a b : crc_bit (Z.lxor a b) = Z.lxor (crc_bit a) (crc_bit b).
Proof.
  unfold crc_bit. rewrite Z.lxor_spec, Z.shiftr_lxor.
  destruct (Z.testbit a 0), (Z.testbit b 0); simpl;
    apply Z.bits_inj'; intros n Hn; rewrite !Z.lxor_spec;
    repeat match goal with |- context [Z.testbit ?x ?n] => destruct (Z.testbit x n) end; done.
Qed.

Lemma crc_bit_double a : crc_bit (Z.shiftl a 1) = a.
Proof.
  unfold crc_bit. rewrite Z.shiftl_spec by lia. rewrite Z.testbit_neg_r by lia.
  by rewrite Z.shiftr_shiftl_l, Z.shiftl_0_r by lia.
Qed.

Lemma iter_bit_lxor n a b :
  Nat.iter n crc_bit (Z.lxor a b) = Z.lxor (Nat.iter n crc_bit a) (Nat.iter n crc_bit b).
Proof. induction n as [|n IH]; simpl; [done|]. by rewrite IH, crc_bit_lxor. Qed.

Lemma iter_bit_shiftl n a : Nat.iter n crc_bit (Z.shiftl a (Z.of_nat n)) = a.
Proof.
  revert a. induction n as [|n IH]; intros a; [by rewrite Z.shiftl_0_r|].
  simpl. rewrite Nat2Z.inj_succ, <- Z.add_1_r.
  rewrite Z.add_comm, <- Z.shiftl_shiftl by lia. by rewrite IH, crc_bit_double.
Qed.

Lemma crc_byte_lxor a b : crc_byte (Z.lxor a b) = Z.lxor (crc_byte a) (crc_byte b).
Proof. apply (iter_bit_lxor 8). Qed.

Lemma crc_byte_shiftl a : crc_byte (Z.shiftl a 8) = a.
Proof. apply (iter_bit_shiftl 8). Qed.

(** [n] byte steps. *)
Definition crc_bytes (n : nat) (c : Z) : Z := Nat.iter n crc_byte c.

Lemma crc_bytes_lxor n a b : crc_bytes n (Z.lxor a b) = Z.lxor (crc_bytes n a) (crc_bytes n b).
Proof. induction n as [|n IH]; simpl; [done|]. by rewrite IH, crc_byte_lxor. Qed.

Lemma crc_bytes_S n c : crc_bytes (S n) c = crc_bytes n (crc_byte c).
Proof. induction n as [|n IH]; [done|]. cbn in *. by rewrite IH. Qed.

(** The low byte apart from the others. *)
Lemma split_byte c : c = Z.lxor (Z.land c 0xff) (Z.shiftl (Z.shiftr c 8) 8).
Proof.
  apply Z.bits_inj'. intros n Hn. rewrite Z.lxor_spec, Z.land_spec, Z.shiftl_spec by lia.
  change 0xff with (Z.ones 8). rewrite Z.testbit_ones_nonneg by lia.
  destruct (Z.ltb_spec n 8).
  - rewrite (Z.testbit_neg_r _ (n - 8)) by lia. by rewrite andb_true_r, xorb_false_r.
  - rewrite Z.shiftr_spec by lia. rewrite andb_false_r, xorb_false_l. f_equal. lia.
Qed.

(** The tables hold the steps of the single bytes. *)
Lemma tab_spec_bool :
  forallb (fun k => forallb (fun n => tab k n =? crc_bytes (S k) n) byte_range) (seq 0 8) = true.
Proof. vm_compute. reflexivity. Qed.

Lemma land_ff c : 0 <= Z.land c 0xff < 256.
Proof. change 0xff with (Z.ones 8). rewrite Z.land_ones by lia. by apply Z.mod_pos_bound. Qed.

Lemma tab_spec k n : (k < 8)%nat -> is_byte n -> tab k n = crc_bytes (S k) n.
Proof.
  intros Hk Hn. pose proof tab_spec_bool as H. rewrite forallb_forall in H.
  specialize (H k). rewrite forallb_forall in H. apply Z.eqb_eq, H.
  - apply in_seq. lia.
  - apply list_elem_of_In, list_elem_of_fmap. exists (Z.to_nat n).
    split; [unfold is_byte in Hn; lia|]. apply elem_of_seq. unfold is_byte in Hn. lia.
Qed.

(** Advancing by one byte through table 0. *)
Lemma table_byte crc : Z.lxor (tab 0 (Z.land crc 0xff)) (Z.shiftr crc 8) = crc_byte crc.
Proof.
  rewrite (tab_spec 0) by (lia || apply land_ff). cbn [crc_bytes Nat.iter nat_rect].
  rewrite (split_byte crc) at 3. by rewrite crc_byte_lxor, crc_byte_shiftl.
Qed.

Definition crc_fold (crc : Z) (buf : list Z) : Z := foldl (fun c b => crc_byte (Z.lxor c b)) crc buf.

Lemma crc_fold_app c a b : crc_fold c (a ++ b) = crc_fold (crc_fold c a) b.
Proof. apply foldl_app. Qed.

Lemma shiftr_byte c b : is_byte b -> Z.shiftr (Z.lxor c b) 8 = Z.shiftr c 8.
Proof.
  intros Hb. rewrite Z.shiftr_lxor. rewrite (Z.shiftr_div_pow2 b) by lia.
  rewrite (Z.div_small b) by (unfold is_byte in Hb; lia). apply Z.lxor_0_r.
Qed.

Lemma table_byte_xor crc b :
  is_byte b ->
  Z.lxor (tab 0 (Z.land (Z.lxor crc b) 0xff)) (Z.shiftr crc 8) = crc_byte (Z.lxor crc b).
Proof. intros Hb. rewrite <- (shiftr_byte crc b Hb). apply table_byte. Qed.

Lemma sw_le_tail_spec buf : Forall is_byte buf -> forall crc, sw_le_tail crc buf = crc_fold crc buf.
Proof.
  induction 1 as [|b buf Hb Hbuf IH]; intros crc; simpl; [done|].
  by rewrite table_byte_xor, IH.
Qed.

Lemma sw_le_head_spec buf : Forall is_byte buf -> forall addr crc,
  exists done, buf = done ++ (sw_le_head addr crc buf).2 /\
    (sw_le_head addr crc buf).1 = crc_fold crc done.
Proof.
  induction 1 as [|b buf Hb Hbuf IH]; intros addr crc; simpl.
  { by exists []. }
  destruct (_ =? 0); [by exists []|].
  destruct (IH (addr + 1) (crc_byte (Z.lxor crc b))) as (d & E1 & E2).
  rewrite table_byte_xor by done. exists (b :: d). split; [by simpl; f_equal|done].
Qed.

(** ** Eight bytes at a time *)

(** A value and a word advanced byte by byte. *)
Lemma crc_fold_word bs : Forall is_byte bs -> forall c,
  crc_fold c bs = crc_bytes (length bs) (Z.lxor c (le_word bs)).
Proof.
  induction 1 as [|b bs Hb Hbs IH]; intros c; [symmetry; apply Z.lxor_0_r|].
  change (crc_fold c (b :: bs)) with (crc_fold (crc_byte (Z.lxor c b)) bs).
  cbn [length le_word foldr]. rewrite IH, crc_bytes_S. f_equal.
  assert (Z.lor b (Z.shiftl (le_word bs) 8) = Z.lxor b (Z.shiftl (le_word bs) 8)) as Hor.
  { symmetry. apply Z.lxor_lor. apply Z.bits_inj'. intros n Hn.
    rewrite Z.land_spec, Z.bits_0. destruct (Z.ltb_spec n 8).
    - rewrite Z.shiftl_spec_low by done. apply andb_false_r.
    - rewrite (Z.bits_above_log2 b); [done|unfold is_byte in Hb; lia|].
      destruct (decide (b = 0)) as [->|]; [simpl; lia|].
      apply Z.log2_lt_pow2; [unfold is_byte in Hb; lia|]. unfold is_byte in Hb.
      eapply Z.lt_le_trans; [apply Hb|]. change 256 with (2 ^ 8). apply Z.pow_le_mono_r; lia. }
  change (foldr _ 0 bs) with (le_word bs). rewrite Hor, <- Z.lxor_assoc.
  by rewrite (crc_byte_lxor (Z.lxor c b)), crc_byte_shiftl.
Qed.

(** The tables applied to the bytes of a 64-bit word advance it by eight
    bytes. *)
Lemma crc_bytes_shiftl n a : crc_bytes n (Z.shiftl a (8 * Z.of_nat n)) = a.
Proof.
  revert a. induction n as [|n IH]; intros a; [by rewrite Z.shiftl_0_r|].
  rewrite crc_bytes_S. replace (8 * Z.of_nat (S n)) with (8 * Z.of_nat n + 8) by lia.
  rewrite <- Z.shiftl_shiftl by lia. by rewrite crc_byte_shiftl, IH.
Qed.

(** Peel the lowest byte off [m + 1] steps. *)
Lemma crc_bytes_peel m c :
  (m < 8)%nat ->
  crc_bytes (S m) c = Z.lxor (tab m (Z.land c 0xff)) (crc_bytes m (Z.shiftr c 8)).
Proof.
  intros Hm. rewrite (split_byte c) at 1. rewrite crc_bytes_lxor.
  rewrite (tab_spec m) by (lia || apply land_ff). f_equal.
  by rewrite crc_bytes_S, crc_byte_shiftl.
Qed.

Lemma sw_le_word_spec crcw w :
  0 <= Z.lxor crcw w < 2 ^ 64 -> sw_le_word crcw w = crc_bytes 8 (Z.lxor crcw w).
Proof.
  intros Hw. unfold sw_le_word. set (c := Z.lxor crcw w) in *.
  rewrite !Z.lxor_assoc.
  rewrite (crc_bytes_peel 7), (crc_bytes_peel 6), (crc_bytes_peel 5), (crc_bytes_peel 4),
    (crc_bytes_peel 3), (crc_bytes_peel 2), (crc_bytes_peel 1) by lia.
  rewrite !Z.shiftr_shiftr by lia. simpl Z.add.
  assert (is_byte (Z.shiftr c 56)) as Hb.
  { unfold is_byte. rewrite Z.shiftr_div_pow2 by lia. split; [apply Z.div_pos; lia|].
    apply Z.div_lt_upper_bound; lia. }
  by rewrite (tab_spec 0) by (lia || done).
Qed.

Lemma bits_small a n i : 0 <= a < 2 ^ n -> 0 <= n <= i -> Z.testbit a i = false.
Proof. intros Ha Hi. rewrite <- (Z.mod_small a (2 ^ n)) by done. apply Z.mod_pow2_bits_high. lia. Qed.

Lemma lxor_bound a b n : 0 <= n -> 0 <= a < 2 ^ n -> 0 <= b < 2 ^ n -> 0 <= Z.lxor a b < 2 ^ n.
Proof.
  intros Hn Ha Hb. replace (Z.lxor a b) with (Z.lxor a b mod 2 ^ n).
  { apply Z.mod_pos_bound, Z.pow_pos_nonneg; lia. }
  apply Z.bits_inj'. intros i Hi. destruct (Z.ltb_spec i n).
  - by rewrite Z.mod_pow2_bits_low by lia.
  - rewrite Z.mod_pow2_bits_high by lia. rewrite Z.lxor_spec.
    by rewrite (bits_small a n), (bits_small b n) by lia.
Qed.

Lemma crc_bit_bound c : 0 <= c < 2 ^ 32 -> 0 <= crc_bit c < 2 ^ 32.
Proof.
  intros Hc. assert (0 <= Z.shiftr c 1 < 2 ^ 32).
  { rewrite Z.shiftr_div_pow2 by lia. change (2 ^ 1) with 2.
    pose proof (Z.div_mod c 2 ltac:(lia)). pose proof (Z.mod_pos_bound c 2 ltac:(lia)). lia. }
  unfold crc_bit. destruct (Z.testbit c 0); [|done]. apply lxor_bound; [lia|done|]. vm_compute. split; congruence.
Qed.

Lemma crc_byte_bound c : 0 <= c < 2 ^ 32 -> 0 <= crc_byte c < 2 ^ 32.
Proof. intros Hc. unfold crc_byte. simpl. by repeat apply crc_bit_bound. Qed.

Lemma crc_fold_bound buf : Forall is_byte buf -> forall c, 0 <= c < 2 ^ 32 -> 0 <= crc_fold c buf < 2 ^ 32.
Proof.
  induction 1 as [|b buf Hb Hbuf IH]; intros c Hc; [done|]. cbn. apply IH, crc_byte_bound.
  apply lxor_bound; [lia|done|]. unfold is_byte in Hb. lia.
Qed.

Lemma le_word_bound bs : Forall is_byte bs -> 0 <= le_word bs < 2 ^ (8 * Z.of_nat (length bs)).
Proof.
  induction 1 as [|b bs Hb Hbs IH]; simpl; [lia|]. unfold is_byte in Hb.
  replace (8 * Z.of_nat (S (length bs))) with (8 * Z.of_nat (length bs) + 8) by lia.
  change (foldr _ 0 bs) with (le_word bs).
  assert (0 <= Z.lor b (Z.shiftl (le_word bs) 8)) as H0.
  { apply Z.lor_nonneg. split; [lia|]. apply Z.shiftl_nonneg. lia. }
  split; [done|]. destruct (decide (Z.lor b (Z.shiftl (le_word bs) 8) = 0)) as [->|]; [apply Z.pow_pos_nonneg; lia|].
  apply Z.log2_lt_pow2; [lia|]. rewrite Z.log2_lor by (try apply Z.shiftl_nonneg; lia).
  apply Z.max_lub_lt.
  - destruct (decide (b = 0)) as [->|]; [simpl; lia|]. eapply Z.lt_le_trans.
    + apply (Z.log2_lt_pow2 b 8); lia.
    + lia.
  - destruct (decide (le_word bs = 0)) as [->|]; [rewrite Z.shiftl_0_l; simpl; lia|].
    rewrite Z.log2_shiftl by lia.
    assert (Z.log2 (le_word bs) < 8 * Z.of_nat (length bs)); [|lia]. apply Z.log2_lt_pow2; lia.
Qed.

Lemma sw_le_words_spec n : forall buf c,
  (length buf <= n)%nat -> Forall is_byte buf -> 0 <= c < 2 ^ 32 ->
  exists done, buf = done ++ (sw_le_words c buf).2 /\ (sw_le_words c buf).1 = crc_fold c done.
Proof.
  induction n as [|n IH]; intros buf c Hn Hb Hc.
  { destruct buf; [by exists []|simpl in Hn; lia]. }
  destruct buf as [|b0 [|b1 [|b2 [|b3 [|b4 [|b5 [|b6 [|b7 rest]]]]]]]]; try by exists [].
  set (w := [b0; b1; b2; b3; b4; b5; b6; b7]).
  change (b0 :: b1 :: b2 :: b3 :: b4 :: b5 :: b6 :: b7 :: rest) with (w ++ rest) in *.
  apply Forall_app in Hb as [Hw Hr]. rewrite length_app in Hn.
  change (sw_le_words c (w ++ rest)) with (sw_le_words (sw_le_word c (le_word w)) rest).
  assert (sw_le_word c (le_word w) = crc_fold c w) as ->.
  { rewrite (crc_fold_word w Hw c). apply sw_le_word_spec.
    apply lxor_bound; [lia| |by apply (le_word_bound w)]. split; [lia|].
    eapply Z.lt_le_trans; [apply Hc|]. by apply Z.pow_le_mono_r. }
  destruct (IH rest (crc_fold c w)) as (d & E1 & E2); [simpl in Hn; lia|done|by apply crc_fold_bound|].
  exists (w ++ d). split; [rewrite <- app_assoc; by f_equal|]. rewrite E2.
  symmetry. apply crc_fold_app.
Qed.

Lemma not32_bound c : 0 <= c < 2 ^ 32 -> 0 <= not32 c < 2 ^ 32.
Proof. intros Hc. apply lxor_bound; [lia|done|lia]. Qed.

Lemma not32_involutive c : not32 (not32 c) = c.
Proof. unfold not32. by rewrite Z.lxor_assoc, Z.lxor_nilpotent, Z.lxor_0_r. Qed.

Lemma crc32_sw_le_spec addr crc buf :
  0 <= crc < 2 ^ 32 -> Forall is_byte buf -> crc32_sw_le addr crc buf = crc32c_spec crc buf.
Proof.
  intros Hc Hb. unfold crc32_sw_le, crc32c_spec. apply not32_bound in Hc.
  set (c0 := not32 crc) in *.
  destruct (sw_le_head_spec buf Hb addr c0) as (d1 & E1 & F1).
  destruct (sw_le_head addr c0 buf) as [c1 buf1]. simpl in *. subst buf c1.
  apply Forall_app in Hb as [Hd1 Hb1].
  destruct (sw_le_words_spec (length buf1) buf1 (crc_fold c0 d1)) as (d2 & E2 & F2);
    [done|done|by apply crc_fold_bound|].
  destruct (sw_le_words (crc_fold c0 d1) buf1) as [c2 buf2]. simpl in *. subst buf1 c2.
  apply Forall_app in Hb1 as [Hd2 Hb2].
  change 0xffffffff with (Z.ones 32). rewrite Z.land_ones by lia.
  rewrite Z.mod_small by (by repeat apply crc_fold_bound).
  rewrite sw_le_tail_spec by done. unfold crc_fold. by rewrite !foldl_app.
Qed.

(** C26 (equivalence). The table-driven CRC computes CRC-32C as defined bit by
    bit, at every address of the buffer; continuing from the checksum of a
    first part gives the checksum of the whole; the result has 32 bits. *)
Theorem crc32_reference (addr crc : Z) (a b : list Z) :
  0 <= crc < 2 ^ 32 -> Forall is_byte a -> Forall is_byte b ->
  crc32_sw_le addr crc a = crc32c_spec crc a /\
  crc32_sw_le addr (crc32_sw_le addr crc a) b = crc32_sw_le addr crc (a ++ b) /\
  0 <= crc32_sw_le addr crc a < 2 ^ 32.
Proof.
  intros Hc Ha Hb.
  assert (0 <= crc32c_spec crc a < 2 ^ 32) as Hbd.
  { apply not32_bound, (crc_fold_bound a Ha). by apply not32_bound. }
  rewrite !crc32_sw_le_spec; try done; [|by apply Forall_app].
  split; [done|]. split; [|done]. unfold crc32c_spec. by rewrite not32_involutive, foldl_app.
Qed.

Lemma crc32_reference_witness :
  crc32_sw_le 5 0 [49; 50; 51; 52; 53; 54; 55; 56; 57; 48; 49; 50; 51] =
    crc32c_spec 0 [49; 50; 51; 52; 53; 54; 55; 56; 57; 48; 49; 50; 51] /\
  crc32c_spec 0 [49; 50; 51; 52; 53; 54; 55; 56; 57] = 0xe3069283.
Proof.
  split; [|vm_compute; reflexivity].
  apply (crc32_reference 5 0 [49; 50; 51; 52; 53; 54; 55; 56; 57; 48; 49; 50; 51] []);
    [lia| |constructor].
  repeat (constructor; [unfold is_byte; lia|]). constructor.
Defined.

(** ** CRC-16 *)

(** CRC-16/XMODEM, bit by bit: [x^16 + x^12 + x^5 + 1], most significant bit
    first. *)
Definition crc16_bit (c : Z) : Z :=
  u16 (if Z.testbit c 15 then Z.lxor (Z.shiftl c 1) 0x1021 else Z.shiftl c 1).

Definition crc16_spec (buf : list Z) : Z :=
  foldl (fun c b => Nat.iter 8 crc16_bit (Z.lxor c (Z.shiftl b 8))) 0 buf.

Lemma u16_testbit a n : 0 <= n -> Z.testbit (u16 a) n = (n <? 16) && Z.testbit a n.
Proof.
  intros Hn. unfold u16. destruct (Z.ltb_spec n 16).
  - by rewrite Z.mod_pow2_bits_low by lia.
  - by rewrite Z.mod_pow2_bits_high by lia.
Qed.

Lemma u16_lxor a b : u16 (Z.lxor a b) = Z.lxor (u16 a) (u16 b).
Proof.
  apply Z.bits_inj'. intros n Hn. rewrite Z.lxor_spec, !u16_testbit, Z.lxor_spec by done.
  by destruct (n <? 16), (Z.testbit a n), (Z.testbit b n).
Qed.

Lemma crc16_bit_lxor a b : crc16_bit (Z.lxor a b) = Z.lxor (crc16_bit a) (crc16_bit b).
Proof.
  unfold crc16_bit. rewrite Z.lxor_spec, Z.shiftl_lxor.
  destruct (Z.testbit a 15), (Z.testbit b 15); cbn [xorb]; rewrite !u16_lxor;
    apply Z.bits_inj'; intros n Hn; rewrite !Z.lxor_spec;
    repeat match goal with |- context [Z.testbit ?x n] => destruct (Z.testbit x n) end; done.
Qed.

Lemma iter_crc16_lxor k a b :
  Nat.iter k crc16_bit (Z.lxor a b) = Z.lxor (Nat.iter k crc16_bit a) (Nat.iter k crc16_bit b).
Proof. induction k as [|k IH]; simpl; [done|]. by rewrite IH, crc16_bit_lxor. Qed.

Lemma crc16_iter_u16 k x : u16 (Nat.iter (S k) crc16_bit x) = Nat.iter (S k) crc16_bit x.
Proof.
  cbn [Nat.iter nat_rect]. generalize (Nat.iter k crc16_bit x) as y. intros y.
  unfold crc16_bit, u16. apply Zmod_mod.
Qed.

(** The table and the low byte, checked entry by entry. *)
Lemma crc16tab_check :
  forallb (fun n => (nth (Z.to_nat n) crc16tab 0 =? Nat.iter 8 crc16_bit (Z.shiftl n 8)) &&
                    (Nat.iter 8 crc16_bit n =? Z.shiftl n 8)) byte_range = true.
Proof. vm_compute. reflexivity. Qed.

Lemma crc16tab_spec n :
  is_byte n ->
  nth (Z.to_nat n) crc16tab 0 = Nat.iter 8 crc16_bit (Z.shiftl n 8) /\
  Nat.iter 8 crc16_bit n = Z.shiftl n 8.
Proof.
  intros Hn. pose proof crc16tab_check as H. rewrite forallb_forall in H. specialize (H n).
  apply andb_true_iff in H as [H1%Z.eqb_eq H2%Z.eqb_eq]; [done|].
  unfold is_byte in Hn. apply list_elem_of_In, list_elem_of_fmap. exists (Z.to_nat n).
  split; [lia|]. apply elem_of_seq. lia.
Qed.

Lemma crc16_step c b :
  0 <= c < 2 ^ 16 -> is_byte b ->
  u16 (Z.lxor (Z.shiftl c 8) (nth (Z.to_nat (Z.land (Z.lxor (Z.shiftr c 8) b) 0xff)) crc16tab 0))
  = Nat.iter 8 crc16_bit (Z.lxor c (Z.shiftl b 8)).
Proof.
  intros Hc Hb. pose proof (land_ff c) as Hlo.
  assert (is_byte (Z.shiftr c 8)) as Hhi.
  { unfold is_byte. rewrite Z.shiftr_div_pow2 by lia. split; [apply Z.div_pos; lia|].
    apply Z.div_lt_upper_bound; lia. }
  assert (is_byte (Z.lxor (Z.shiftr c 8) b)) as Hx by (by apply (lxor_bound _ _ 8)).
  assert (Z.land (Z.lxor (Z.shiftr c 8) b) 0xff = Z.lxor (Z.shiftr c 8) b) as Hland.
  { change 0xff with (Z.ones 8). rewrite Z.land_ones by lia. by apply Z.mod_small. }
  rewrite Hland, (proj1 (crc16tab_spec _ Hx)).
  assert (Z.lxor c (Z.shiftl b 8)
          = Z.lxor (Z.land c 0xff) (Z.shiftl (Z.lxor (Z.shiftr c 8) b) 8)) as Hsplit.
  { rewrite (split_byte c) at 1. by rewrite Z.shiftl_lxor, Z.lxor_assoc. }
  rewrite Hsplit, iter_crc16_lxor, (proj2 (crc16tab_spec _ Hlo)), u16_lxor. f_equal.
  - apply Z.bits_inj'. intros n Hn. rewrite u16_testbit, !Z.shiftl_spec by lia.
    destruct (Z.ltb_spec n 8); [by rewrite !Z.testbit_neg_r, andb_false_r by lia|].
    rewrite Z.land_spec. change 0xff with (Z.ones 8). rewrite Z.testbit_ones_nonneg by lia.
    destruct (Z.ltb_spec n 16), (Z.ltb_spec (n - 8) 8); (lia || (simpl; by rewrite ?andb_true_r, ?andb_false_r)).
  - apply (crc16_iter_u16 7).
Qed.

Lemma crc16_loop_spec buf : Forall is_byte buf -> forall c, 0 <= c < 2 ^ 16 ->
  crc16_loop c buf = foldl (fun c b => Nat.iter 8 crc16_bit (Z.lxor c (Z.shiftl b 8))) c buf.
Proof.
  induction 1 as [|b buf Hb Hbuf IH]; intros c Hc; [done|].
  cbn [crc16_loop foldl]. rewrite crc16_step by done. apply IH.
  rewrite <- (crc16_iter_u16 7). by apply Z.mod_pos_bound.
Qed.

(** [crc16_ccitt] is CRC-16/XMODEM as defined bit by bit. *)
Theorem crc16_reference (buf : list Z) :
  Forall is_byte buf -> crc16_ccitt buf = crc16_spec buf.
Proof. intros Hb. by apply crc16_loop_spec. Qed.

Lemma crc16_reference_witness :
  crc16_ccitt [49; 50; 51; 52; 53; 54; 55; 56; 57] = crc16_spec [49; 50; 51; 52; 53; 54; 55; 56; 57] /\
  crc16_spec [49; 50; 51; 52; 53; 54; 55; 56; 57] = 0x31c3.
Proof.
  split; [|vm_compute; reflexivity]. apply crc16_reference.
  repeat (constructor; [unfold is_byte; lia|]). constructor.
Defined.

(** ** Key slots *)

Lemma scan_char_none c key s : Forall (fun k => k <> c) key -> scan_char c key s = (s + length key)%nat.
Proof.
  intros Hk. revert s. induction Hk as [|k key Hk Hks IH]; intros s; simpl; [lia|].
  rewrite (proj2 (Z.eqb_neq k c)) by done. rewrite IH. lia.
Qed.

Lemma scan_char_some c pre suf s :
  Forall (fun k => k <> c) pre -> scan_char c (pre ++ c :: suf) s = (s + length pre)%nat.
Proof.
  intros Hk. revert s. induction Hk as [|k key Hk Hks IH]; intros s; simpl.
  - rewrite Z.eqb_refl. lia.
  - rewrite (proj2 (Z.eqb_neq k c)) by done. rewrite IH. lia.
Qed.

(** (bounds). A key slot is below 16384, and only the part between the first
    brace and the next closing brace decides it when that part is not empty:
    keys with the same tag fall in the same slot; a key without opening brace,
    or with an empty tag, is hashed whole. *)
Theorem key_slot_tag (pre tag suf pre' suf' key : list Z) :
  Forall (fun k => k <> LBRACE) pre -> Forall (fun k => k <> RBRACE) tag -> tag <> [] ->
  Forall (fun k => k <> LBRACE) pre' ->
  0 <= keyHashSlot key < 16384 /\
  keyHashSlot (pre ++ LBRACE :: tag ++ RBRACE :: suf) =
    keyHashSlot (pre' ++ LBRACE :: tag ++ RBRACE :: suf') /\
  keyHashSlot pre = Z.land (crc16_ccitt pre) 0x3FFF /\
  keyHashSlot (pre ++ LBRACE :: RBRACE :: suf) =
    Z.land (crc16_ccitt (pre ++ LBRACE :: RBRACE :: suf)) 0x3FFF.
Proof.
  intros Hpre Htag Hne Hpre'.
  assert (forall pre suf, Forall (fun k => k <> LBRACE) pre ->
    keyHashSlot (pre ++ LBRACE :: tag ++ RBRACE :: suf) = Z.land (crc16_ccitt tag) 0x3FFF) as Hslot.
  { intros p q Hp. unfold keyHashSlot. rewrite scan_char_some by done. simpl (0 + length p)%nat.
    rewrite length_app. destruct (Nat.eqb_spec (length p) (length p + length (LBRACE :: tag ++ RBRACE :: q)));
      [simpl in *; lia|].
    assert (drop (S (length p)) (p ++ LBRACE :: tag ++ RBRACE :: q) = tag ++ RBRACE :: q) as ->.
    { rewrite cons_middle, app_assoc. by rewrite drop_app_length' by (rewrite length_app; simpl; lia). }
    rewrite scan_char_some by done. simpl length. rewrite length_app. simpl length.
    destruct (Nat.eqb_spec (S (length p) + length tag) (length p + S (length tag + S (length q)))); [lia|].
    destruct (Nat.eqb_spec (S (length p) + length tag) (S (length p))).
    { assert (length tag = 0%nat) by lia. by destruct tag. }
    simpl orb. rewrite take_app_length' by lia. done. }
  split; [|split; [by rewrite !Hslot|split]].
  - assert (forall x, 0 <= Z.land x 0x3FFF < 16384) as Hb.
    { intros x. change 0x3FFF with (Z.ones 14). rewrite Z.land_ones by lia. by apply Z.mod_pos_bound. }
    unfold keyHashSlot. repeat case_match; apply Hb.
  - unfold keyHashSlot. rewrite scan_char_none by done. simpl. by rewrite Nat.eqb_refl.
  - unfold keyHashSlot. rewrite scan_char_some by done. simpl (0 + length pre)%nat.
    rewrite length_app. destruct (Nat.eqb_spec (length pre) (length pre + length (LBRACE :: RBRACE :: suf)));
      [simpl in *; lia|].
    assert (drop (S (length pre)) (pre ++ LBRACE :: RBRACE :: suf) = RBRACE :: suf) as ->.
    { rewrite cons_middle, app_assoc. by rewrite drop_app_length' by (rewrite length_app; simpl; lia). }
    cbn [scan_char]. rewrite Z.eqb_refl, Nat.eqb_refl, orb_true_r. done.
Qed.

(** ["user{42}name"], ["{42}"] and ["foo"]. *)
Lemma key_slot_tag_witness :
  keyHashSlot [117; 115; 101; 114; 123; 52; 50; 125; 110] = keyHashSlot [123; 52; 50; 125] /\
  keyHashSlot [102; 111; 111] = 12182.
Proof.
  split; [|vm_compute; reflexivity].
  apply (key_slot_tag [117; 115; 101; 114] [52; 50] [110] [] [] []);
    try discriminate; repeat (constructor; [discriminate|]); constructor.
Defined.
