(* ===== verification/Libc.v ===== *)
(** * The C library and the operating system, as far as the module uses them

    Decimal output of [snprintf], [strtoll] and [strtoull], and the file system
    calls of POSIX over a small kernel state.  Bytes are numbers from 0 to 255,
    C strings are lists of bytes without the final NUL.

    Each system call consults the plan [os_plan] of the kernel: a negative
    number makes it fail, another one bounds the number of bytes a read or a
    write transfers (at least one byte is transferred when some can be), an
    empty plan means that everything is transferred.  A theorem that holds for
    every plan holds whatever the kernel does. *)

From stdpp Require Import base list numbers tactics gmap.
From Stdlib Require Ascii String.
From S2P Require Import Prelude.

Local Open Scope Z_scope.

(** ** Strings *)

Definition bytes_of (s : String.string) : list Z :=
  Z.of_nat ∘ Ascii.nat_of_ascii <$> String.list_ascii_of_string s.

Definition CR : Z := 13.
Definition LF : Z := 10.
Definition crlf : list Z := [CR; LF].

(** [%lu] and [%ld]. *)
Fixpoint dec_digits (fuel : nat) (n : Z) (acc : list Z) : list Z :=
  match fuel with
  | O => acc
  | S fuel => if n <? 10 then (48 + n) :: acc else dec_digits fuel (n / 10) ((48 + n mod 10) :: acc)
  end.

Definition dec_unsigned (n : Z) : list Z := dec_digits (S (Z.to_nat (Z.log2 n))) n [].

Definition dec_signed (n : Z) : list Z :=
  if n <? 0 then 45 :: dec_unsigned (- n) else dec_unsigned n.

(** ** [strtoll] and [strtoull] with base 0 *)

Definition is_space (c : Z) : bool := (c =? 32) || ((9 <=? c) && (c <=? 13)).

Definition digit_value (c : Z) : Z :=
  if (48 <=? c) && (c <=? 57) then c - 48
  else if (97 <=? c) && (c <=? 122) then c - 87
  else if (65 <=? c) && (c <=? 90) then c - 55
  else 255.

Fixpoint skip_spaces (s : list Z) : list Z :=
  match s with
  | c :: s' => if is_space c then skip_spaces s' else s
  | [] => []
  end.

(** The digits of [base] at the start of [s], accumulated onto [acc], and the
    rest. *)
Fixpoint scan_digits (base : Z) (s : list Z) (acc : Z) : Z * list Z :=
  match s with
  | c :: s' => if digit_value c <? base then scan_digits base s' (acc * base + digit_value c)
               else (acc, s)
  | [] => (acc, [])
  end.

(** Sign, base prefix and digits: [None] when there is nothing to convert;
    otherwise the sign, the magnitude and the unconverted rest. *)
Definition strto_parse (s : list Z) : option (bool * Z * list Z) :=
  let s := skip_spaces s in
  let '(neg, s) := match s with
                   | c :: s' => if c =? 45 then (true, s') else if c =? 43 then (false, s')
                                else (false, s)
                   | [] => (false, [])
                   end in
  match s with
  | c0 :: s' =>
      if c0 =? 48 then
        match s' with
        | x :: c1 :: s'' =>
            if ((x =? 120) || (x =? 88)) && (digit_value c1 <? 16)
            then let '(v, rest) := scan_digits 16 (c1 :: s'') 0 in Some (neg, v, rest)
            else let '(v, rest) := scan_digits 8 s 0 in Some (neg, v, rest)
        | _ => let '(v, rest) := scan_digits 8 s 0 in Some (neg, v, rest)
        end
      else if digit_value c0 <? 10
           then let '(v, rest) := scan_digits 10 s 0 in Some (neg, v, rest)
           else None
  | [] => None
  end.

(** The value, whether [errno] is [ERANGE], and [endp]; [None] when no
    conversion is made. *)
Definition strtoll (s : list Z) : option (Z * bool * list Z) :=
  match strto_parse s with
  | None => None
  | Some (neg, v, rest) =>
      let v := if neg : bool then - v else v in
      Some (if v <? - 2 ^ 63 then (- 2 ^ 63, true, rest)
            else if 2 ^ 63 - 1 <? v then (2 ^ 63 - 1, true, rest) else (v, false, rest))
  end.

Definition strtoull (s : list Z) : option (Z * bool * list Z) :=
  match strto_parse s with
  | None => None
  | Some (neg, v, rest) =>
      Some (if 2 ^ 64 - 1 <? v then (2 ^ 64 - 1, true, rest)
            else (if neg : bool then u64 (- v) else v, false, rest))
  end.

(** [strtoul] and [strtoull] with base 10: the value and the rest ([*endptr]);
    everything is left over when there is nothing to convert. *)
Definition strtoul10 (s : list Z) : Z * list Z :=
  let s' := skip_spaces s in
  let '(neg, t) := match s' with
                   | c :: t => if c =? 45 then (true, t) else if c =? 43 then (false, t) else (false, s')
                   | [] => (false, [])
                   end in
  match t with
  | c :: _ =>
      if digit_value c <? 10
      then let '(v, rest) := scan_digits 10 t 0 in
           (if 2 ^ 64 - 1 <? v then 2 ^ 64 - 1 else if neg : bool then u64 (- v) else v, rest)
      else (0, s)
  | [] => (0, s)
  end.

(** ** The kernel

    [os_names] is the directory, [os_inodes] the contents of the files, [os_fds]
    the open file descriptors with their offset.  [os_dirty] are the files
    whose contents have changed since they were last synced, [os_past] the
    states of the directory since it was last synced. *)
Record os := mk_os {
  os_names : gmap (list Z) Z;
  os_inodes : gmap Z (list Z);
  os_fds : gmap Z (Z * Z);
  os_next : Z;
  os_dirty : gset Z;
  os_past : list (gmap (list Z) Z);
  os_plan : list Z
}.

#[export] Instance eta_os : Eta os :=
  fun o => mk_os (os_names o) (os_inodes o) (os_fds o) (os_next o) (os_dirty o) (os_past o)
    (os_plan o).
#[export] Instance set_os_names : Setter os_names := ltac:(solve_setter).
#[export] Instance set_os_inodes : Setter os_inodes := ltac:(solve_setter).
#[export] Instance set_os_fds : Setter os_fds := ltac:(solve_setter).
#[export] Instance set_os_next : Setter os_next := ltac:(solve_setter).
#[export] Instance set_os_dirty : Setter os_dirty := ltac:(solve_setter).
#[export] Instance set_os_past : Setter os_past := ltac:(solve_setter).
#[export] Instance set_os_plan : Setter os_plan := ltac:(solve_setter).

Definition os_empty (plan : list Z) : os := mk_os ∅ ∅ ∅ 3 ∅ [] plan.

Definition pop_plan : M os (option Z) :=
  o <- get ;;
  match os_plan o with
  | [] => ret None
  | z :: p => modify (fun o => o <| os_plan := p |>) ;; ret (Some z)
  end.

(** Does a call without partial success succeed? *)
Definition sys_ok : M os bool :=
  p <- pop_plan ;;
  ret (match p with Some z => 0 <=? z | None => true end).

(** The number of bytes transferred out of [n], [None] on failure. *)
Definition sys_count (n : Z) : M os (option Z) :=
  p <- pop_plan ;;
  ret (match p with
       | None => Some n
       | Some z => if z <? 0 then None else Some (Z.min n (Z.max 1 z))
       end).

(** The inode and the offset of a descriptor. *)
Definition fd_lookup (o : os) (fd : Z) : option (Z * Z * list Z) :=
  match os_fds o !! fd with
  | None => None
  | Some (i, pos) => match os_inodes o !! i with
                     | None => None
                     | Some d => Some (i, pos, d)
                     end
  end.

(** Set the contents of inode [i] and the offset of [fd]. *)
Definition fd_update (fd i pos : Z) (d : list Z) (o : os) : os :=
  o <| os_fds := <[fd := (i, pos)]> (os_fds o) |> <| os_inodes := <[i := d]> (os_inodes o) |>.

(** The same where the contents change. *)
Definition fd_modify (fd i pos : Z) (d : list Z) (o : os) : os :=
  fd_update fd i pos d o <| os_dirty := {[ i ]} ∪ os_dirty o |>.

(** The directory changes. *)
Definition set_names (names : gmap (list Z) Z) (o : os) : os :=
  o <| os_names := names |> <| os_past := os_names o :: os_past o |>.

(** [write] and [writev] on a descriptor opened with [O_APPEND]. *)
Definition sys_write (fd : Z) (data : list Z) : M os Z :=
  o <- get ;;
  match fd_lookup o fd with
  | None => ret (-1)
  | Some (i, _, d) =>
      k <- sys_count (Z.of_nat (length data)) ;;
      match k with
      | None => ret (-1)
      | Some k =>
          let d' := d ++ take (Z.to_nat k) data in
          modify (fd_modify fd i (Z.of_nat (length d')) d') ;; ret k
      end
  end.

(** [read] and [readv]: the number of bytes, or -1, and the bytes. *)
Definition sys_read (fd cap : Z) : M os (Z * list Z) :=
  o <- get ;;
  match fd_lookup o fd with
  | None => ret (-1, [])
  | Some (i, pos, d) =>
      let avail := take (Z.to_nat cap) (drop (Z.to_nat pos) d) in
      k <- sys_count (Z.of_nat (length avail)) ;;
      match k with
      | None => ret (-1, [])
      | Some k => modify (fd_update fd i (pos + k) d) ;; ret (k, take (Z.to_nat k) avail)
      end
  end.

(** [lseek(fd, offset, SEEK_SET)] *)
Definition sys_lseek (fd offset : Z) : M os Z :=
  o <- get ;;
  match fd_lookup o fd with
  | None => ret (-1)
  | Some (i, _, d) =>
      ok <- sys_ok ;;
      if negb ok || (offset <? 0) then ret (-1) else
      modify (fd_update fd i offset d) ;; ret offset
  end.

(** [0] or [-1], as the calls below. *)
Definition sys_ftruncate (fd len : Z) : M os Z :=
  o <- get ;;
  match fd_lookup o fd with
  | None => ret (-1)
  | Some (i, pos, d) =>
      ok <- sys_ok ;;
      if negb ok || (len <? 0) then ret (-1) else
      let d' := take (Z.to_nat len) d ++ replicate (Z.to_nat len - length d) 0 in
      modify (fd_modify fd i pos d') ;; ret 0
  end.

Record open_flags := mk_flags {
  fl_rdonly : bool;
  fl_append : bool;
  fl_creat : bool;
  fl_trunc : bool
}.

(** A descriptor, or -1 and whether [errno] is [ENOENT]. *)
Definition sys_open (path : list Z) (fl : open_flags) : M os (Z * bool) :=
  ok <- sys_ok ;;
  if negb ok then ret (-1, false) else
  o <- get ;;
  match os_names o !! path with
  | Some i =>
      let fd := os_next o in
      modify (fun o => o <| os_next := fd + 1 |> <| os_fds := <[fd := (i, 0)]> (os_fds o) |>) ;;
      when (fl_trunc fl) (modify (fun o => o <| os_inodes := <[i := []]> (os_inodes o) |>
                                             <| os_dirty := {[ i ]} ∪ os_dirty o |>)) ;;
      ret (fd, false)
  | None =>
      if fl_creat fl then
        let i := os_next o in
        let fd := i + 1 in
        modify (fun o => set_names (<[path := i]> (os_names o))
                           (o <| os_next := fd + 1 |> <| os_fds := <[fd := (i, 0)]> (os_fds o) |>
                              <| os_inodes := <[i := []]> (os_inodes o) |>
                              <| os_dirty := {[ i ]} ∪ os_dirty o |>)) ;;
        ret (fd, false)
      else ret (-1, true)
  end.

Definition sys_stat_size (path : list Z) : M os (option Z) :=
  ok <- sys_ok ;;
  o <- get ;;
  ret (if negb ok then None else
       match os_names o !! path with
       | None => None
       | Some i => Some (Z.of_nat (length (default [] (os_inodes o !! i))))
       end).

Definition sys_close (fd : Z) : M os Z :=
  ok <- sys_ok ;;
  modify (fun o => o <| os_fds := delete fd (os_fds o) |>) ;;
  ret (if ok : bool then 0 else -1).

(** The contents of the file reach the disk. *)
Definition sys_fsync (fd : Z) : M os Z :=
  ok <- sys_ok ;;
  o <- get ;;
  match fd_lookup o fd with
  | None => ret (-1)
  | Some (i, _, _) =>
      if negb ok then ret (-1) else
      modify (fun o => o <| os_dirty := os_dirty o ∖ {[ i ]} |>) ;; ret 0
  end.

(** The directory reaches the disk; whether that succeeds. *)
Definition sys_fsync_dir : M os bool :=
  ok <- sys_ok ;; when ok (modify (fun o => o <| os_past := [] |>)) ;; ret ok.

Definition sys_unlink (path : list Z) : M os Z :=
  ok <- sys_ok ;;
  o <- get ;;
  if negb ok || bool_decide (os_names o !! path = None) then ret (-1) else
  modify (fun o => set_names (delete path (os_names o)) o) ;; ret 0.

Definition sys_rename (old new : list Z) : M os Z :=
  ok <- sys_ok ;;
  o <- get ;;
  match os_names o !! old with
  | Some i =>
      if negb ok then ret (-1) else
      modify (fun o => set_names (<[new := i]> (delete old (os_names o))) o) ;; ret 0
  | None => ret (-1)
  end.

Definition sys_exists (path : list Z) : M os bool :=
  o <- get ;; ret (bool_decide (is_Some (os_names o !! path))).
