(* ===== verification/File.v ===== *)
(** * Buffered files of the module ([redisraft/src/file.c])

    [struct File] and its operations, over the kernel of [Libc].  The one
    userspace buffer holds either data to write or data read ahead. *)

From stdpp Require Import base list numbers tactics gmap.
From S2P Require Import Prelude Libc.

Local Open Scope Z_scope.

Definition RR_OK : Z := 0.
Definition RR_ERROR : Z := 1.

Definition FILE_BUFSIZE : Z := 4096.

(** [struct File]: [f_rbuf] are the bytes from [rpos] to [rend], [f_wbuf] those
    from [buf] to [wpos]. *)
Record File := mk_File {
  f_fd : Z;
  f_rbuf : list Z;
  f_roffset : Z;
  f_wbuf : list Z;
  f_woffset : Z
}.

#[export] Instance eta_File : Eta File :=
  fun f => mk_File (f_fd f) (f_rbuf f) (f_roffset f) (f_wbuf f) (f_woffset f).
#[export] Instance set_f_fd : Setter f_fd := ltac:(solve_setter).
#[export] Instance set_f_rbuf : Setter f_rbuf := ltac:(solve_setter).
#[export] Instance set_f_roffset : Setter f_roffset := ltac:(solve_setter).
#[export] Instance set_f_wbuf : Setter f_wbuf := ltac:(solve_setter).
#[export] Instance set_f_woffset : Setter f_woffset := ltac:(solve_setter).

Definition FileInit : File := mk_File (-1) [] 0 [] 0.

(** The loop of [FileFlush] over the bytes not written yet, at most [n]
    rounds; the bytes left over when a write fails. *)
Fixpoint flush_loop (n : nat) (fd : Z) (pending : list Z) : M os (option (list Z)) :=
  match pending with
  | [] => ret None
  | _ =>
      match n with
      | O => out_of_fuel
      | S n' =>
          wr <- sys_write fd pending ;;
          if wr <? 0 then ret (Some pending) else
          flush_loop n' fd (drop (Z.to_nat wr) pending)
      end
  end.

Definition FileFlush (file : File) : M os (Z * File) :=
  match f_wbuf file with
  | [] => ret (RR_OK, file)
  | _ =>
      left <- flush_loop (length (f_wbuf file)) (f_fd file) (f_wbuf file) ;;
      match left with
      | Some pending => ret (RR_ERROR, file <| f_wbuf := pending |> <| f_rbuf := [] |>)
      | None => ret (RR_OK, file <| f_wbuf := [] |> <| f_rbuf := [] |>)
      end
  end.

Definition FileTerm (file : File) : M os (Z * File) :=
  let closed := mk_File (-1) [] 0 [] 0 in
  if f_fd file =? -1 then ret (RR_OK, closed) else
  let* (rc, file) := FileFlush file in
  c <- sys_close (f_fd file) ;;
  ret (if negb (c =? 0) then RR_ERROR else rc, closed).

(** Returns also whether [errno] is [ENOENT]. *)
Definition FileOpen (file : File) (filename : list Z) (flags : open_flags) :
    M os (Z * bool * File) :=
  c_assert (fl_rdonly flags || fl_append flags) ;;
  let* (fd, enoent) := sys_open filename flags in
  if fd <? 0 then ret (RR_ERROR, enoent, file) else
  st <- sys_stat_size filename ;;
  match st with
  | None => sys_close fd ;; ret (RR_ERROR, false, file)
  | Some size => ret (RR_OK, false, file <| f_woffset := size |> <| f_fd := fd |>)
  end.

Definition FileFsync (file : File) : M os Z :=
  rc <- sys_fsync (f_fd file) ;; ret (if rc =? 0 then RR_OK else RR_ERROR).

Definition FileSetReadOffset (file : File) (offset : Z) : M os (Z * File) :=
  let* (rc, file) := FileFlush file in
  if negb (rc =? RR_OK) then ret (RR_ERROR, file) else
  let file := file <| f_wbuf := [] |> <| f_rbuf := [] |> in
  r <- sys_lseek (f_fd file) offset ;;
  if negb (r =? offset) then ret (RR_ERROR, file) else
  ret (RR_OK, file <| f_roffset := offset |>).

(** The bytes up to and including the first newline, if there is one. *)
Fixpoint find_line (s : list Z) : option (list Z) :=
  match s with
  | [] => None
  | c :: s' => if c =? LF then Some [c] else
               match find_line s' with Some l => Some (c :: l) | None => None end
  end.

(** The loop of [FileGets]: [acc] are the bytes copied so far, [remaining] the
    room left. *)
Fixpoint gets_loop (n : nat) (cap : Z) (file : File) (acc : list Z) (remaining : Z) :
    M os (Z * list Z * File) :=
  let count := Z.of_nat (length (f_rbuf file)) in
  let line := default (f_rbuf file) (find_line (f_rbuf file)) in
  let len := Z.of_nat (length line) in
  if negb (count =? 0) && (remaining <? len) then ret (-1, acc, file) else
  let acc := acc ++ line in
  let remaining := remaining - len in
  let found := bool_decide (is_Some (find_line (f_rbuf file))) in
  let file := file <| f_rbuf := drop (length line) (f_rbuf file) |>
                   <| f_roffset := f_roffset file + len |> in
  if found then ret (cap - remaining, acc, file) else
  match n with
  | O => out_of_fuel
  | S n' =>
      let* (bytes, data) := sys_read (f_fd file) FILE_BUFSIZE in
      if bytes <=? 0 then ret (-1, acc, file) else
      gets_loop n' cap (file <| f_rbuf := data |>) acc remaining
  end.

(** Result, bytes stored in the caller's buffer, and the file. *)
Definition FileGets (file : File) (cap : Z) : M os (Z * list Z * File) :=
  let* (rc, file) := FileFlush file in
  if negb (rc =? RR_OK) then ret (-1, [], file) else
  gets_loop (S (S (Z.to_nat cap))) cap file [] cap.

(** The loop of [FileRead]: one [readv] fills what remains of the caller's
    buffer and the file's. *)
Fixpoint read_loop (n : nat) (cap : Z) (file : File) (acc : list Z) (remaining : Z) :
    M os (Z * list Z * File) :=
  match n with
  | O => out_of_fuel
  | S n' =>
      let* (rd, data) := sys_read (f_fd file) (remaining + FILE_BUFSIZE) in
      if rd <? 0 then ret (-1, acc, file) else
      if rd =? 0 then ret (cap - remaining, acc, file) else
      if remaining <=? rd then
        let acc := acc ++ take (Z.to_nat remaining) data in
        ret (cap, acc,
             file <| f_roffset := f_roffset file + remaining |>
                  <| f_rbuf := drop (Z.to_nat remaining) data |>)
      else read_loop n' cap (file <| f_roffset := f_roffset file + rd |>) (acc ++ data) (remaining - rd)
  end.

Definition FileRead (file : File) (cap : Z) : M os (Z * list Z * File) :=
  let* (rc, file) := FileFlush file in
  if negb (rc =? RR_OK) then ret (-1, [], file) else
  let count := Z.to_nat (Z.min (Z.of_nat (length (f_rbuf file))) cap) in
  let acc := take count (f_rbuf file) in
  let remaining := cap - Z.of_nat count in
  let file := file <| f_rbuf := drop count (f_rbuf file) |>
                   <| f_roffset := f_roffset file + Z.of_nat count |> in
  if remaining =? 0 then ret (cap, acc, file) else
  read_loop (S (Z.to_nat remaining)) cap file acc remaining.

(** The loop of [FileWrite] over the two buffers of [writev]: the bytes pending
    in the file's buffer and what remains of the caller's. *)
Fixpoint write_loop (n : nat) (file : File) (pending user : list Z) (len : Z) : M os (Z * File) :=
  match n with
  | O => out_of_fuel
  | S n' =>
      count <- sys_write (f_fd file) (pending ++ user) ;;
      if count <? 0 then
        ret (-1, file <| f_wbuf := pending |>
                      <| f_woffset := f_woffset file + (len - Z.of_nat (length user)) |>)
      else if count =? Z.of_nat (length (pending ++ user)) then
        ret (len, file <| f_wbuf := [] |> <| f_woffset := f_woffset file + len |>)
      else
        write_loop n' file (drop (Z.to_nat count) pending)
          (drop (Z.to_nat count - length pending) user) len
  end.

Definition FileWrite (file : File) (data : list Z) : M os (Z * File) :=
  let file := file <| f_rbuf := [] |> in
  let len := Z.of_nat (length data) in
  let cap := FILE_BUFSIZE - Z.of_nat (length (f_wbuf file)) in
  if len <=? cap then
    ret (len, file <| f_wbuf := f_wbuf file ++ data |> <| f_woffset := f_woffset file + len |>)
  else write_loop (length (f_wbuf file ++ data)) file (f_wbuf file) data len.

Definition FileSize (file : File) : Z := f_woffset file.

Definition FileGetReadOffset (file : File) : Z := f_roffset file.

Definition FileTruncate (file : File) (len : Z) : M os (Z * File) :=
  let* (rc, file) := FileFlush file in
  if negb (rc =? RR_OK) then ret (RR_ERROR, file) else
  r <- sys_ftruncate (f_fd file) len ;;
  if negb (r =? 0) then ret (RR_ERROR, file) else
  ret (RR_OK, file <| f_woffset := len |> <| f_roffset := 0 |> <| f_rbuf := [] |>).

(** * Correctness *)

(** ** System calls *)

(** No system call fails. *)
Definition no_faults (o : os) : Prop := Forall (fun z => 0 <= z) (os_plan o).

(** A change of the kernel that concerns descriptor [fd] and inode [i] only. *)
Record only (fd i : Z) (o o' : os) : Prop := {
  only_names : os_names o' = os_names o;
  only_next : os_next o' = os_next o;
  only_fds fd' : fd' <> fd -> os_fds o' !! fd' = os_fds o !! fd';
  only_inodes i' : i' <> i -> os_inodes o' !! i' = os_inodes o !! i';
  only_dirty i' : i' <> i -> i' ∈ os_dirty o' <-> i' ∈ os_dirty o;
  only_past : os_past o' = os_past o;
  only_plan : no_faults o -> no_faults o'
}.

#[export] Instance only_preorder fd i : PreOrder (only fd i).
Proof.
  split.
  - by constructor.
  - intros o1 o2 o3 [] []. constructor; try congruence; try eauto.
    + intros. rewrite only_fds1 by done. eauto.
    + intros. rewrite only_inodes1 by done. eauto.
    + intros. rewrite only_dirty1 by done. eauto.
Qed.

Lemma only_lookup fd i o o' fd' i' pos d :
  only fd i o o' -> fd' <> fd -> i' <> i ->
  fd_lookup o fd' = Some (i', pos, d) -> fd_lookup o' fd' = Some (i', pos, d).
Proof.
  intros [] Hf Hi. unfold fd_lookup. rewrite only_fds0 by done.
  destruct (os_fds o !! fd') as [[i1 p1]|]; [|done].
  destruct (os_inodes o !! i1) as [d1|] eqn:E; [|done].
  intros ?; simplify_eq. by rewrite only_inodes0, E.
Qed.

Lemma fd_update_lookup fd i pos d o : fd_lookup (fd_update fd i pos d o) fd = Some (i, pos, d).
Proof. unfold fd_lookup, fd_update. cbn. by rewrite !lookup_insert_eq. Qed.

Lemma fd_update_only fd i pos d o : only fd i o (fd_update fd i pos d o).
Proof.
  constructor; try done; intros x Hx; cbn; by rewrite lookup_insert_ne.
Qed.

Lemma fd_modify_lookup fd i pos d o : fd_lookup (fd_modify fd i pos d o) fd = Some (i, pos, d).
Proof. apply (fd_update_lookup fd i pos d o). Qed.

Lemma fd_modify_only fd i pos d o : only fd i o (fd_modify fd i pos d o).
Proof.
  constructor; try done; intros x Hx; cbn; [by rewrite lookup_insert_ne..|set_solver].
Qed.

(** Popping the plan. *)
Lemma pop_plan_spec o :
  exists p o', pop_plan o = Done (p, o') /\ (forall fd i, only fd i o o') /\
    (forall fd, fd_lookup o' fd = fd_lookup o fd) /\
    (no_faults o -> forall z, p = Some z -> 0 <= z).
Proof.
  unfold pop_plan. run_refl. destruct (os_plan o) as [|z p] eqn:E.
  - exists None, o. split_and!; try done. 
  - eexists (Some z), _. split; [reflexivity|]. split_and!; try done.
    + intros fd i. constructor; try done. unfold no_faults. cbn. rewrite E. by inversion 1.
    + unfold no_faults. rewrite E. inversion 1; intros; by simplify_eq.
Qed.

Lemma sys_ok_spec o :
  exists b o', sys_ok o = Done (b, o') /\ (forall fd i, only fd i o o') /\
    (forall fd, fd_lookup o' fd = fd_lookup o fd) /\ (no_faults o -> b = true).
Proof.
  destruct (pop_plan_spec o) as (p & o' & Hrun & Ho & Hl & Hp).
  eexists _, o'. unfold sys_ok. run_step Hrun. split_and!; try done.
  intros Hn. destruct p as [z|]; [|done]. specialize (Hp Hn z eq_refl). lia.
Qed.

Lemma sys_count_spec n o :
  0 <= n ->
  exists k o', sys_count n o = Done (k, o') /\ (forall fd i, only fd i o o') /\
    (forall fd, fd_lookup o' fd = fd_lookup o fd) /\
    match k with Some k => 0 <= k <= n /\ (0 < n -> 0 < k) | None => ~ no_faults o end.
Proof.
  intros Hn. destruct (pop_plan_spec o) as (p & o' & Hrun & Ho & Hl & Hp).
  eexists _, o'. unfold sys_count. run_step Hrun. split_and!; try done.
  destruct p as [z|]; [|lia]. destruct (Z.ltb_spec z 0); [|lia].
  intros Hf. specialize (Hp Hf z eq_refl). lia.
Qed.

Lemma sys_write_spec fd data o i pos d :
  fd_lookup o fd = Some (i, pos, d) ->
  exists r o', sys_write fd data o = Done (r, o') /\ only fd i o o' /\
    (r = -1 /\ fd_lookup o' fd = Some (i, pos, d) /\ ~ no_faults o \/
     0 <= r <= Z.of_nat (length data) /\ (data <> [] -> 0 < r) /\
     exists pos', fd_lookup o' fd = Some (i, pos', d ++ take (Z.to_nat r) data)).
Proof.
  intros Hl. unfold sys_write. run_refl. rewrite Hl.
  destruct (sys_count_spec (Z.of_nat (length data)) o) as (k & o1 & Hrun & Ho & Hl1 & Hk); [lia|].
  run_step Hrun. destruct k as [k|].
  - eexists k, _. split; [reflexivity|]. split.
    + etrans; [apply Ho|]. apply fd_modify_only.
    + right. split_and!; [lia|lia| |].
      * intros Hne. apply Hk. destruct data; [done|simpl; lia].
      * eexists. apply fd_modify_lookup.
  - exists (-1), o1. split; [done|]. split; [apply Ho|]. left. rewrite Hl1. done.
Qed.

Lemma sys_read_spec fd cap o i pos d :
  fd_lookup o fd = Some (i, pos, d) -> 0 <= pos ->
  exists r data o', sys_read fd cap o = Done ((r, data), o') /\ only fd i o o' /\
    (r = -1 /\ fd_lookup o' fd = Some (i, pos, d) /\ ~ no_faults o \/
     0 <= r <= cap `max` 0 /\ data = take (Z.to_nat r) (drop (Z.to_nat pos) d) /\
     r = Z.of_nat (length data) /\ (0 < cap -> drop (Z.to_nat pos) d <> [] -> 0 < r) /\
     fd_lookup o' fd = Some (i, pos + r, d)).
Proof.
  intros Hl Hpos. unfold sys_read. run_refl. rewrite Hl. cbv zeta.
  set (avail := take _ _).
  destruct (sys_count_spec (Z.of_nat (length avail)) o) as (k & o1 & Hrun & Ho & Hl1 & Hk); [lia|].
  run_step Hrun. destruct k as [k|].
  - eexists k, _, _. split; [reflexivity|]. split.
    + etrans; [apply Ho|]. apply fd_update_only.
    + right. assert (Z.of_nat (length avail) <= cap `max` 0) as Hav.
      { unfold avail. rewrite length_take. lia. }
      split_and!; [lia|lia| | | |apply fd_update_lookup].
      * unfold avail. rewrite take_take. f_equal. lia.
      * rewrite length_take. lia.
      * intros Hc Hne. apply Hk. unfold avail. rewrite length_take.
        destruct (drop (Z.to_nat pos) d); [done|simpl; lia].
  - exists (-1), [], o1. split; [done|]. split; [apply Ho|]. left. by rewrite Hl1.
Qed.

(** ** Open files

    [file_ok o f i c]: the open file [f], stored in inode [i], has the contents
    [c], of which the last bytes may still be in the buffer.  [file_reading]:
    moreover the next byte to be read is at offset [p], and the buffer holds
    bytes read ahead. *)
Record file_ok (o : os) (f : File) (i : Z) (c : list Z) : Prop := {
  fo_fd : exists pos d, fd_lookup o (f_fd f) = Some (i, pos, d) /\ c = d ++ f_wbuf f;
  fo_size : f_woffset f = Z.of_nat (length c);
  fo_buf : Z.of_nat (length (f_wbuf f)) <= FILE_BUFSIZE;
  fo_mode : f_wbuf f = [] \/ f_rbuf f = []
}.

Record file_reading (o : os) (f : File) (i : Z) (c : list Z) (p : Z) : Prop := {
  fr_fd : fd_lookup o (f_fd f) = Some (i, p + Z.of_nat (length (f_rbuf f)), c);
  fr_size : f_woffset f = Z.of_nat (length c);
  fr_wbuf : f_wbuf f = [];
  fr_offset : f_roffset f = p;
  fr_rbuf : f_rbuf f = take (length (f_rbuf f)) (drop (Z.to_nat p) c);
  fr_nonneg : 0 <= p
}.

Lemma file_reading_ok o f i c p : file_reading o f i c p -> file_ok o f i c.
Proof.
  intros []. constructor.
  - eexists _, _. split; [done|]. by rewrite fr_wbuf0, app_nil_r.
  - done.
  - by rewrite fr_wbuf0.
  - by left.
Qed.

(** What another file's operations preserve. *)
Lemma file_ok_only o o' f i c fd i' :
  only fd i' o o' -> fd <> f_fd f -> i' <> i -> file_ok o f i c -> file_ok o' f i c.
Proof.
  intros Ho Hf Hi [(pos & d & Hl & ->) ? ? ?]. constructor; try done.
  exists pos, d. split; [|done]. eapply only_lookup; eauto.
Qed.

Lemma file_reading_only o o' f i c p fd i' :
  only fd i' o o' -> fd <> f_fd f -> i' <> i -> file_reading o f i c p -> file_reading o' f i c p.
Proof. intros Ho Hf Hi []. constructor; try done. eapply only_lookup; eauto. Qed.

(** Syncing the file makes what has been flushed durable. *)
Lemma sys_fsync_spec o fd i pos d :
  fd_lookup o fd = Some (i, pos, d) ->
  exists r o', sys_fsync fd o = Done (r, o') /\ only fd i o o' /\
    (forall fd, fd_lookup o' fd = fd_lookup o fd) /\
    ((r = 0 /\ i ∉ os_dirty o') \/ (r = -1 /\ ~ no_faults o)).
Proof.
  intros Hl. destruct (sys_ok_spec o) as (b & o1 & Hrun & Ho & Hl1 & Hb).
  unfold sys_fsync. run_step Hrun. run_refl. rewrite Hl1, Hl. destruct b; cbn [negb].
  - eexists _, _. split; [reflexivity|]. split.
    { etrans; [apply Ho|]. constructor; try done. cbn. set_solver. }
    split; [exact Hl1|]. left. split; [done|]. cbn. set_solver.
  - eexists _, _. split; [reflexivity|]. split; [apply Ho|]. split; [done|]. right. split; [done|].
    intros Hx. by specialize (Hb Hx).
Qed.

Lemma FileFsync_spec o f i c :
  file_ok o f i c ->
  exists rc o', FileFsync f o = Done (rc, o') /\ only (f_fd f) i o o' /\
    (forall fd, fd_lookup o' fd = fd_lookup o fd) /\
    ((rc = RR_OK /\ i ∉ os_dirty o') \/ (rc = RR_ERROR /\ ~ no_faults o)).
Proof.
  intros [(pos & d & Hl & _) _ _ _].
  destruct (sys_fsync_spec _ _ _ _ _ Hl) as (r & o' & Hrun & Ho & Hl' & Hr).
  unfold FileFsync. run_step Hrun. eexists _, o'. split; [reflexivity|]. split; [done|]. split; [done|].
  destruct Hr as [[-> ?]|[-> ?]]; [by left|by right].
Qed.

Lemma flush_loop_spec fd i : forall n o pending pos d,
  fd_lookup o fd = Some (i, pos, d) -> (length pending <= n)%nat ->
  exists left o', flush_loop n fd pending o = Done (left, o') /\ only fd i o o' /\
    exists pos' d', fd_lookup o' fd = Some (i, pos', d') /\ d' ++ default [] left = d ++ pending /\
      (length (default [] left) <= length pending)%nat /\
      (forall l, left = Some l -> ~ no_faults o).
Proof.
  induction n as [|n IH]; intros o pending pos d Hl Hn; (destruct pending as [|b pending]; simpl).
  1, 3: exists None, o; split_and!; [done..|]; exists pos, d; simpl; split_and!; (done || lia).
  { simpl in Hn. lia. }
  destruct (sys_write_spec fd (b :: pending) o i pos d Hl) as (r & o1 & Hrun & Ho & Hr).
  run_step Hrun. destruct Hr as [(-> & Hl1 & Hf)|(Hr & Hr0 & pos1 & Hl1)]; simpl.
  - eexists _, o1. split; [reflexivity|]. split; [done|]. exists pos, d. simpl.
    split_and!; (done || lia).
  - specialize (Hr0 ltac:(done)). rewrite (proj2 (Z.ltb_ge r 0)) by lia.
    assert (length (drop (Z.to_nat r) (b :: pending)) <= n)%nat as Hd.
    { rewrite length_drop. simpl in *. lia. }
    destruct (IH o1 _ _ _ Hl1 Hd) as (left & o2 & Hrun2 & Ho2 & pos2 & d2 & Hl2 & Hc & Hlen & Hf).
    exists left, o2. split; [exact Hrun2|]. split; [by etrans|]. exists pos2, d2.
    split_and!; [done| | |].
    + rewrite Hc, <- app_assoc. f_equal. apply take_drop.
    + rewrite length_drop in Hlen. simpl in *. lia.
    + intros l E Hnf. eapply Hf; [exact E|]. by apply Ho.
Qed.

Lemma FileFlush_spec o f i c :
  file_ok o f i c ->
  exists rc f' o', FileFlush f o = Done ((rc, f'), o') /\ only (f_fd f) i o o' /\
    file_ok o' f' i c /\ f_fd f' = f_fd f /\
    (rc = RR_OK /\ f_wbuf f' = [] \/ rc = RR_ERROR /\ ~ no_faults o).
Proof.
  intros [(pos & d & Hl & Hc) Hs Hb Hm]. unfold FileFlush.
  destruct (f_wbuf f) as [|b w] eqn:Ew.
  - exists RR_OK, f, o. split_and!; try done; [|by left].
    constructor; rewrite ?Ew; [eexists _, _; by split|done|done|by left].
  - destruct (flush_loop_spec (f_fd f) i (length (b :: w)) o (b :: w) pos d Hl)
      as (left & o' & Hrun & Ho & pos' & d' & Hl' & Hc' & Hlen & Hf); [done|].
    run_step Hrun. destruct left as [l|]; eexists _, _, o'; (split; [reflexivity|]); simpl in *.
    + split_and!; [done| |done|right; split; [done|by eapply Hf]].
      constructor; cbn; [|done|lia|by right]. eexists _, _. split; [exact Hl'|]. congruence.
    + split_and!; [done| |done|by left].
      constructor; cbn; [|done|done|by left]. eexists _, _. split; [exact Hl'|]. congruence.
Qed.

(** In read mode there is nothing to flush. *)
Lemma FileFlush_reading o f i c p :
  file_reading o f i c p -> FileFlush f o = Done ((RR_OK, f), o).
Proof. intros []. unfold FileFlush. by rewrite fr_wbuf0. Qed.

Lemma file_ok_exists o f i c : file_ok o f i c -> is_Some (os_inodes o !! i) /\ is_Some (os_fds o !! f_fd f).
Proof.
  intros [(pos & d & Hl & _) _ _ _]. unfold fd_lookup in Hl.
  destruct (os_fds o !! f_fd f) as [[i' pos']|]; [|done].
  destruct (os_inodes o !! i') eqn:E; [|done]. simplify_eq. by rewrite E.
Qed.

(** Closing a file; when that succeeds its contents are in the kernel. *)
Lemma FileTerm_spec o f i c :
  file_ok o f i c ->
  exists rc f' o', FileTerm f o = Done ((rc, f'), o') /\ only (f_fd f) i o o' /\
    is_Some (os_inodes o' !! i) /\ (rc = RR_OK -> f_fd f <> -1 -> os_inodes o' !! i = Some c) /\
    (no_faults o -> rc = RR_OK).
Proof.
  intros Hf. unfold FileTerm. destruct (Z.eqb_spec (f_fd f) (-1)).
  { eexists _, _, o. split_and!; try done. by eapply file_ok_exists. }
  destruct (FileFlush_spec o f i c Hf) as (rc & f1 & o1 & Hrun & Ho & Hf1 & Hfd & Hrc).
  run_step Hrun. unfold sys_close.
  destruct (sys_ok_spec o1) as (b & o2 & Hrun2 & Ho2 & Hl & Hb).
  assert (only (f_fd f) i o2 (o2 <| os_fds := delete (f_fd f) (os_fds o2) |>)) as Ho3.
  { constructor; try done. intros fd Hne. cbn. by rewrite lookup_delete_ne. }
  destruct (file_ok_exists _ _ _ _ Hf1) as [Hex _].
  rewrite <- (only_inodes _ _ _ _ (Ho2 0 (i + 1))) in Hex by lia.
  eexists _, _, (o2 <| os_fds := delete (f_fd f) (os_fds o2) |>). split; [|split; [|split; [done|split]]].
  - unfold bind, modify, ret. rewrite Hrun2, Hfd. reflexivity.
  - etrans; [exact Ho|]. etrans; [apply Ho2|exact Ho3].
  - intros Hx _. destruct Hrc as [[-> Hw]|[-> _]]; [|by destruct b]. cbn.
    destruct (fo_fd _ _ _ _ Hf1) as (pos & d & Hl1 & ->). rewrite Hw, app_nil_r.
    rewrite <- Hl in Hl1. unfold fd_lookup in Hl1.
    destruct (os_fds o2 !! f_fd f1) as [[i' pos']|]; [|done].
    destruct (os_inodes o2 !! i') eqn:E; [|done]. by simplify_eq.
  - intros Hn. destruct Hrc as [[-> _]|[_ Hx]]; [|done]. by rewrite Hb by by apply Ho.
Qed.

(** ** Writing *)

Lemma write_loop_spec i len T : forall n o f pending user pos d,
  fd_lookup o (f_fd f) = Some (i, pos, d) -> (length (pending ++ user) <= n)%nat ->
  pending ++ user <> [] -> Z.of_nat (length user) <= len ->
  Z.of_nat (length pending) <= FILE_BUFSIZE -> f_rbuf f = [] ->
  d ++ pending ++ user = T ->
  f_woffset f + (len - Z.of_nat (length user)) = Z.of_nat (length (d ++ pending)) ->
  exists r f' o', write_loop n f pending user len o = Done ((r, f'), o') /\
    only (f_fd f) i o o' /\ f_fd f' = f_fd f /\
    ((r = len /\ file_ok o' f' i T) \/
     (r = -1 /\ ~ no_faults o /\ exists m, f_woffset f <= Z.of_nat m /\ file_ok o' f' i (take m T))).
Proof.
  induction n as [|n IH]; intros o f pending user pos d Hl Hn Hne Hu Hp Hr HT Hsz.
  { destruct (pending ++ user); [done|simpl in Hn; lia]. }
  simpl. destruct (sys_write_spec (f_fd f) (pending ++ user) o i pos d Hl) as (r & o1 & Hrun & Ho & Hres).
  run_step Hrun. destruct Hres as [(-> & Hl1 & Hf)|(Hr1 & Hr0 & pos1 & Hl1)]; simpl.
  - eexists _, _, o1. split; [reflexivity|]. split; [done|]. split; [done|]. right. split; [done|].
    split; [done|]. exists (length (d ++ pending)). split; [lia|].
    rewrite <- HT, (app_assoc d), take_app_length. constructor; cbn; [|lia|done|by right].
    by eexists _, _.
  - specialize (Hr0 Hne). rewrite (proj2 (Z.ltb_ge r 0)) by lia.
    destruct (Z.eqb_spec r (Z.of_nat (length (pending ++ user)))) as [->|Hlt].
    + eexists _, _, o1. split; [reflexivity|]. split; [done|]. split; [done|]. left. split; [done|].
      rewrite Nat2Z.id, take_ge in Hl1 by lia. rewrite <- HT.
      constructor; cbn; try done; [|rewrite !length_app in *; lia|by left].
      eexists _, _. rewrite app_nil_r. by split.
    + assert (take (Z.to_nat r) (pending ++ user) ++ drop (Z.to_nat r) pending ++
              drop (Z.to_nat r - length pending) user = pending ++ user) as Hsplit.
      { rewrite <- drop_app. apply take_drop. }
      rewrite length_app in *.
      destruct (IH o1 f (drop (Z.to_nat r) pending) (drop (Z.to_nat r - length pending) user)
                  pos1 (d ++ take (Z.to_nat r) (pending ++ user)) Hl1)
        as (r' & f' & o' & Hrun' & Ho' & Hfd' & Hres);
        rewrite ?length_app, ?length_drop, ?length_take, ?length_app in *; try done; try lia.
      * intros E%(f_equal length). rewrite length_app, !length_drop in E. simpl in E. lia.
      * rewrite <- HT, <- app_assoc. f_equal. exact Hsplit.
      * exists r', f', o'. split; [exact Hrun'|]. split; [by etrans|]. split; [done|].
        destruct Hres as [?|(? & Hnf & ?)]; [by left|right]. split_and!; [done| |done].
        intros Hnf'. apply Hnf. by apply Ho.
Qed.

(** [FileWrite] appends to the contents all of the data, or reports an error
    after appending a part of it. *)
Lemma FileWrite_spec o f i c data :
  file_ok o f i c ->
  exists r f' o', FileWrite f data o = Done ((r, f'), o') /\ only (f_fd f) i o o' /\
    f_fd f' = f_fd f /\
    ((r = Z.of_nat (length data) /\ file_ok o' f' i (c ++ data)) \/
     (r = -1 /\ ~ no_faults o /\ exists k, file_ok o' f' i (c ++ take k data))).
Proof.
  intros [(pos & d & Hl & Hc) Hs Hb Hm]. unfold FileWrite. cbn.
  destruct (Z.leb_spec (Z.of_nat (length data)) (FILE_BUFSIZE - Z.of_nat (length (f_wbuf f)))).
  - eexists _, _, o. split; [reflexivity|]. split; [reflexivity|]. split; [done|]. left. split; [done|].
    constructor; cbn; [|rewrite !length_app; lia|rewrite length_app; lia|by right].
    eexists _, _. split; [exact Hl|]. by rewrite Hc, app_assoc.
  - assert (data <> []) by (intros ->; simpl in *; lia).
    destruct (write_loop_spec i (Z.of_nat (length data)) (c ++ data) (length (f_wbuf f ++ data)) o
                (f <| f_rbuf := [] |>) (f_wbuf f) data pos d)
      as (r & f' & o' & Hrun & Ho & Hfd & Hres); try done.
    + destruct (f_wbuf f); simpl; [done|done].
    + by rewrite Hc, app_assoc.
    + cbn. rewrite Hs, Hc. lia.
    + exists r, f', o'. split; [exact Hrun|]. split; [exact Ho|]. split; [exact Hfd|].
      destruct Hres as [?|(? & ? & m & Hm1 & Hm2)]; [by left|right]. split_and!; [done..|].
      exists (m - length c)%nat. rewrite take_app_ge in Hm2; [done|]. cbn in Hm1. lia.
Qed.

Lemma sys_ftruncate_spec fd n o i pos d :
  fd_lookup o fd = Some (i, pos, d) -> 0 <= n <= Z.of_nat (length d) ->
  exists r o', sys_ftruncate fd n o = Done (r, o') /\ only fd i o o' /\
    (r = -1 /\ fd_lookup o' fd = Some (i, pos, d) /\ ~ no_faults o \/
     r = 0 /\ fd_lookup o' fd = Some (i, pos, take (Z.to_nat n) d)).
Proof.
  intros Hl Hn. unfold sys_ftruncate. run_refl. rewrite Hl.
  destruct (sys_ok_spec o) as (b & o1 & Hrun & Ho & Hl1 & Hb). run_step Hrun.
  rewrite (proj2 (Z.ltb_ge n 0)) by lia. destruct b; simpl.
  - eexists _, _. split; [reflexivity|]. split; [etrans; [apply Ho|apply fd_modify_only]|]. right.
    split; [done|]. rewrite fd_modify_lookup.
    replace (Z.to_nat n - length d)%nat with 0%nat by lia. by rewrite app_nil_r.
  - eexists _, _. split; [reflexivity|]. split; [apply Ho|]. left. rewrite Hl1. split_and!; try done.
    intros Hnf. by specialize (Hb Hnf).
Qed.

Lemma sys_lseek_spec fd n o i pos d :
  fd_lookup o fd = Some (i, pos, d) -> 0 <= n ->
  exists r o', sys_lseek fd n o = Done (r, o') /\ only fd i o o' /\
    (r = -1 /\ fd_lookup o' fd = Some (i, pos, d) /\ ~ no_faults o \/
     r = n /\ fd_lookup o' fd = Some (i, n, d)).
Proof.
  intros Hl Hn. unfold sys_lseek. run_refl. rewrite Hl.
  destruct (sys_ok_spec o) as (b & o1 & Hrun & Ho & Hl1 & Hb). run_step Hrun.
  rewrite (proj2 (Z.ltb_ge n 0)) by lia. destruct b; simpl.
  - eexists _, _. split; [reflexivity|]. split; [etrans; [apply Ho|apply fd_update_only]|]. right.
    split; [done|]. by rewrite fd_update_lookup.
  - eexists _, _. split; [reflexivity|]. split; [apply Ho|]. left. rewrite Hl1. split_and!; try done.
    intros Hnf. by specialize (Hb Hnf).
Qed.

(** [FileTruncate] cuts the contents, buffered bytes included. *)
Lemma FileTruncate_spec o f i c n :
  file_ok o f i c -> 0 <= n <= Z.of_nat (length c) ->
  exists rc f' o', FileTruncate f n o = Done ((rc, f'), o') /\ only (f_fd f) i o o' /\
    f_fd f' = f_fd f /\
    ((rc = RR_OK /\ file_ok o' f' i (take (Z.to_nat n) c)) \/
     (rc = RR_ERROR /\ ~ no_faults o /\ file_ok o' f' i c)).
Proof.
  intros Hok Hn. unfold FileTruncate.
  destruct (FileFlush_spec o f i c Hok) as (rc & f1 & o1 & Hrun & Ho & Hok1 & Hfd & Hrc).
  run_step Hrun. destruct Hrc as [[-> Hw]|[-> Hnf]]; cbn [negb Z.eqb RR_OK RR_ERROR].
  2: { exists RR_ERROR, f1, o1. split_and!; try done. right. done. }
  pose proof Hok1 as [(pos & d & Hl & Hc) Hs Hb Hm]. rewrite Hw, app_nil_r in Hc. subst d.
  destruct (sys_ftruncate_spec (f_fd f1) n o1 i pos c Hl Hn) as (r & o2 & Hrun2 & Ho2 & Hr).
  rewrite Hfd in Ho2. run_step Hrun2. destruct Hr as [(-> & Hl2 & Hnf)|(-> & Hl2)]; cbn.
  - eexists _, _, o2. split; [reflexivity|]. split; [by etrans|]. split; [done|]. right.
    split; [done|]. split; [by intros Hx; apply Hnf, Ho|].
    constructor; try done. eexists _, _. split; [exact Hl2|]. by rewrite Hw, app_nil_r.
  - eexists _, _, o2. split; [reflexivity|]. split; [by etrans|]. split; [done|]. left.
    split; [done|]. constructor; cbn; rewrite ?Hw; try done; [|rewrite length_take; lia|by left].
    eexists _, _. split; [exact Hl2|]. by rewrite app_nil_r.
Qed.

(** ** Reading *)

Lemma FileSetReadOffset_spec o f i c p :
  file_ok o f i c -> 0 <= p ->
  exists rc f' o', FileSetReadOffset f p o = Done ((rc, f'), o') /\ only (f_fd f) i o o' /\
    f_fd f' = f_fd f /\
    ((rc = RR_OK /\ file_reading o' f' i c p) \/
     (rc = RR_ERROR /\ ~ no_faults o /\ file_ok o' f' i c)).
Proof.
  intros Hok Hp. unfold FileSetReadOffset.
  destruct (FileFlush_spec o f i c Hok) as (rc & f1 & o1 & Hrun & Ho & Hok1 & Hfd & Hrc).
  run_step Hrun. destruct Hrc as [[-> Hw]|[-> Hnf]]; cbn [negb Z.eqb RR_OK RR_ERROR].
  2: { exists RR_ERROR, f1, o1. split_and!; try done. by right. }
  pose proof Hok1 as [(pos & d & Hl & Hc) Hs Hb Hm]. rewrite Hw, app_nil_r in Hc. subst d.
  cbv zeta. cbn [f_fd set_field set_f_wbuf set_f_rbuf].
  destruct (sys_lseek_spec (f_fd f1) p o1 i pos c Hl Hp) as (r & o2 & Hrun2 & Ho2 & Hr).
  run_step Hrun2. rewrite Hfd in Ho2. destruct Hr as [(-> & Hl2 & Hnf)|(-> & Hl2)].
  - replace (-1 =? p) with false by (symmetry; lia). cbn.
    eexists _, _, o2. split; [reflexivity|]. split; [by etrans|]. split; [done|]. right.
    split; [done|]. split; [by intros Hx; apply Hnf, Ho|].
    constructor; cbn; try done; [|by left]. eexists _, _. split; [exact Hl2|]. by rewrite app_nil_r.
  - rewrite Z.eqb_refl. cbn. eexists _, _, o2. split; [reflexivity|]. split; [by etrans|].
    split; [done|]. left. split; [done|]. constructor; cbn; try done. by rewrite Z.add_0_r.
Qed.

(** The read loop of [FileRead], the file's buffer being empty. *)
Lemma read_loop_spec i c cap : forall n o f acc remaining,
  file_reading o f i c (f_roffset f) -> f_rbuf f = [] -> 0 < remaining -> (Z.to_nat remaining < n)%nat ->
  exists r data f' o', read_loop n cap f acc remaining o = Done ((r, data, f'), o') /\
    only (f_fd f) i o o' /\ f_fd f' = f_fd f /\
    ((exists new, data = acc ++ new /\ new = take (Z.to_nat remaining) (drop (Z.to_nat (f_roffset f)) c) /\
       r = cap - remaining + Z.of_nat (length new) /\
       file_reading o' f' i c (f_roffset f + Z.of_nat (length new))) \/
     (r = -1 /\ ~ no_faults o /\ file_ok o' f' i c)).
Proof.
  induction n as [|n IH]; intros o f acc remaining Hr Hb Hrem Hn; [lia|]. simpl.
  pose proof Hr as [Hl Hs Hw Hoff Hrb Hp]. rewrite Hb in Hl. simpl in Hl. rewrite Z.add_0_r in Hl.
  destruct (sys_read_spec (f_fd f) (remaining + FILE_BUFSIZE) o i (f_roffset f) c Hl Hp)
    as (r & data & o1 & Hrun & Ho & Hres).
  assert (Hfb : FILE_BUFSIZE = 4096) by reflexivity.
  run_step Hrun. destruct Hres as [(-> & Hl1 & Hf)|(Hr1 & Hdata & Hlen & Hpos & Hl1)]; cbn [Z.ltb Z.compare].
  { eexists _, _, _, o1. split; [reflexivity|]. split; [done|]. split; [done|]. right. split_and!; try done.
    constructor; try done; [|by rewrite Hw|by left]. eexists _, _. split; [exact Hl1|]. by rewrite Hw, app_nil_r. }
  rewrite (proj2 (Z.ltb_ge r 0)) by lia.
  destruct (Z.eqb_spec r 0) as [->|Hne].
  { (* end of file *)
    assert (drop (Z.to_nat (f_roffset f)) c = []) as He.
    { destruct (drop (Z.to_nat (f_roffset f)) c) eqn:E; [done|]. exfalso.
      assert (0 < 0) by (apply Hpos; [lia|done]). lia. }
    eexists _, _, _, o1. split; [reflexivity|]. split; [done|]. split; [done|]. left. exists [].
    rewrite He, take_nil, app_nil_r. split; [done|]. split; [done|]. split; [simpl; lia|].
    simpl. rewrite Z.add_0_r.
    constructor; try done; rewrite Hb; simpl. by rewrite Z.add_0_r in *. }
  destruct (Z.leb_spec remaining r) as [Hge|Hlt].
  - eexists _, _, _, o1. split; [reflexivity|]. split; [done|]. split; [done|]. left.
    exists (take (Z.to_nat remaining) data).
    assert (take (Z.to_nat remaining) data = take (Z.to_nat remaining) (drop (Z.to_nat (f_roffset f)) c)) as E.
    { rewrite Hdata, take_take. f_equal. lia. }
    assert (length (take (Z.to_nat remaining) data) = Z.to_nat remaining) as E2.
    { rewrite length_take. lia. }
    split; [done|]. split; [exact E|]. rewrite E2. split; [lia|]. constructor; cbn; try done; try lia.
    + rewrite Hl1. rewrite length_drop. do 3 f_equal. lia.
    + rewrite length_drop. rewrite Hdata at 1.
      rewrite skipn_firstn_comm, drop_drop. f_equal; [lia|f_equal; lia].
  - assert (data <> []) as Hd by (intros ->; simpl in *; lia).
    destruct (IH o1 (f <| f_roffset := f_roffset f + r |>) (acc ++ data) (remaining - r))
      as (r' & data' & f' & o' & Hrun' & Ho' & Hfd' & Hres); [|done|lia|lia|].
    { constructor; cbn; try done; rewrite ?Hb; simpl; try done; [|lia]. by rewrite Z.add_0_r. }
    exists r', data', f', o'. split; [exact Hrun'|]. split; [by etrans|]. split; [exact Hfd'|].
    destruct Hres as [(new & -> & Hnew & -> & Hrd)|(-> & Hnf & Hok)].
    + left. exists (data ++ new). split; [by rewrite app_assoc|]. cbn in Hnew. split.
      * replace (Z.to_nat (f_roffset f + r)) with (Z.to_nat (f_roffset f) + Z.to_nat r)%nat in Hnew by lia.
        rewrite <- drop_drop in Hnew. rewrite Hnew, Hdata at 1.
        replace (Z.to_nat remaining) with (Z.to_nat r + Z.to_nat (remaining - r))%nat by lia.
        set (u := drop (Z.to_nat (f_roffset f)) c).
        rewrite <- (take_drop (Z.to_nat r) u) at 3. rewrite take_app_ge.
        -- f_equal. f_equal. rewrite length_take.
           assert (Z.to_nat r = length data) by lia. unfold u. rewrite Hdata, length_take in H. lia.
        -- rewrite length_take. lia.
      * rewrite length_app. split; [lia|]. cbn in Hrd.
        replace (f_roffset f + Z.of_nat (length data + length new))
          with (f_roffset f + r + Z.of_nat (length new)) by lia. done.
    + right. split; [done|]. split; [|done]. intros Hx. apply Hnf. by apply Ho.
Qed.

(** The bytes read ahead are the next bytes of the file. *)
Lemma file_reading_advance o f i c p n :
  file_reading o f i c p -> (n <= length (f_rbuf f))%nat ->
  file_reading o (f <| f_rbuf := drop n (f_rbuf f) |> <| f_roffset := p + Z.of_nat n |>) i c (p + Z.of_nat n) /\
  take n (f_rbuf f) = take n (drop (Z.to_nat p) c).
Proof.
  intros [Hl Hs Hw Hoff Hrb Hp] Hn. split.
  - constructor; cbn; try done; [| |lia].
    + rewrite Hl, length_drop. do 3 f_equal. lia.
    + rewrite length_drop. rewrite Hrb at 1. rewrite skipn_firstn_comm, drop_drop.
      f_equal. f_equal. lia.
  - rewrite Hrb at 1. rewrite take_take. f_equal. lia.
Qed.

(** [FileRead] delivers the next [cap] bytes, or all that are left. *)
Lemma FileRead_spec o f i c p cap :
  file_reading o f i c p -> 0 <= cap ->
  exists r data f' o', FileRead f cap o = Done ((r, data, f'), o') /\
    only (f_fd f) i o o' /\ f_fd f' = f_fd f /\
    ((data = take (Z.to_nat cap) (drop (Z.to_nat p) c) /\ r = Z.of_nat (length data) /\
      file_reading o' f' i c (p + r)) \/
     (r = -1 /\ ~ no_faults o /\ file_ok o' f' i c)).
Proof.
  intros Hr Hcap. unfold FileRead. run_step (FileFlush_reading _ _ _ _ _ Hr). cbn [negb Z.eqb RR_OK].
  set (k := Z.to_nat (Z.min (Z.of_nat (length (f_rbuf f))) cap)).
  assert (k <= length (f_rbuf f))%nat as Hk by lia.
  destruct (file_reading_advance _ _ _ _ _ k Hr Hk) as [Hr1 Htake].
  rewrite (fr_offset _ _ _ _ _ Hr). cbv zeta.
  set (f1 := f <| f_rbuf := _ |> <| f_roffset := _ |>) in *.
  assert (length (take k (f_rbuf f)) = k) as Hlk by (rewrite length_take; lia).
  destruct (Z.eqb_spec (cap - Z.of_nat k) 0) as [E|E].
  - eexists _, _, _, o. split; [reflexivity|]. split; [reflexivity|]. split; [done|]. left.
    replace cap with (Z.of_nat k) by lia. rewrite Nat2Z.id. split; [done|]. split; [lia|done].
  - assert (f_rbuf f1 = []) as Hb1 by (unfold f1; cbn; apply drop_ge; lia).
    destruct (read_loop_spec i c cap (S (Z.to_nat (cap - Z.of_nat k))) o f1 (take k (f_rbuf f))
                (cap - Z.of_nat k) Hr1 Hb1)
      as (r & data & f' & o' & Hrun & Ho & Hfd & Hres); [lia|lia|].
    exists r, data, f', o'. split; [exact Hrun|]. split; [exact Ho|]. split; [exact Hfd|].
    destruct Hres as [(new & -> & Hnew & -> & Hrd)|?]; [left|by right].
    unfold f1 in Hnew, Hrd. cbn in Hnew, Hrd.
    rewrite Htake. split.
    + rewrite Hnew. replace (Z.to_nat (p + Z.of_nat k)) with (Z.to_nat p + k)%nat
        by (pose proof (fr_nonneg _ _ _ _ _ Hr); lia).
      rewrite <- drop_drop, take_take_drop. f_equal. lia.
    + rewrite <- Htake, length_app, Hlk. split; [lia|].
      replace (p + (cap - (cap - Z.of_nat k) + Z.of_nat (length new)))
        with (p + Z.of_nat k + Z.of_nat (length new)) by lia. done.
Qed.

Lemma find_line_app s s' l : find_line s = Some l -> find_line (s ++ s') = Some l.
Proof.
  revert l. induction s as [|x s IH]; intros l; simpl; [done|].
  destruct (x =? LF); [done|]. destruct (find_line s) as [l0|]; [|done].
  intros ?; simplify_eq. by rewrite (IH l0).
Qed.

Lemma find_line_app_None s s' :
  find_line s = None -> find_line (s ++ s') = (fun l => s ++ l) <$> find_line s'.
Proof.
  induction s as [|x s IH]; simpl; [by destruct (find_line s')|].
  destruct (x =? LF); [done|]. destruct (find_line s) as [l0|] eqn:E; [done|].
  intros _. rewrite IH by done. by destruct (find_line s').
Qed.

Lemma find_line_prefix s l : find_line s = Some l -> l = take (length l) s /\ (0 < length l <= length s)%nat.
Proof.
  revert l. induction s as [|x s IH]; intros l; simpl; [done|].
  destruct (x =? LF); [intros; simplify_eq; simpl; split; [done|lia]|].
  destruct (find_line s) as [l0|]; [|done]. intros ?; simplify_eq. simpl.
  destruct (IH l0 eq_refl) as [E ?]. split; [congruence|lia].
Qed.

(** What [FileGets] delivers of the bytes that follow: the next line, if it is
    complete and no longer than [cap]. *)
Definition next_line (cap : Z) (s : list Z) : option (list Z) :=
  match find_line s with
  | Some l => if Z.of_nat (length l) <=? cap then Some l else None
  | None => None
  end.

Lemma gets_loop_spec i c cap : forall n o f p acc remaining,
  file_reading o f i c p -> 0 <= remaining ->
  (f_rbuf f <> [] -> remaining < Z.of_nat n) -> (f_rbuf f = [] -> remaining + 1 < Z.of_nat n) ->
  exists r data f' o', gets_loop n cap f acc remaining o = Done ((r, data, f'), o') /\
    only (f_fd f) i o o' /\ f_fd f' = f_fd f /\
    match next_line remaining (drop (Z.to_nat p) c) with
    | Some l =>
        (data = acc ++ l /\ r = cap - remaining + Z.of_nat (length l) /\
         file_reading o' f' i c (p + Z.of_nat (length l))) \/
        (r = -1 /\ ~ no_faults o /\ file_ok o' f' i c)
    | None => r = -1 /\ file_ok o' f' i c
    end.
Proof.
  induction n as [|n IH]; intros o f p acc remaining Hr Hrem Hn1 Hn2.
  { exfalso. destruct (f_rbuf f); [specialize (Hn2 eq_refl)|specialize (Hn1 ltac:(done))]; lia. }
  pose proof Hr as [Hl Hs Hw Hoff Hrb Hp].
  assert (drop (Z.to_nat p) c = f_rbuf f ++ drop (length (f_rbuf f)) (drop (Z.to_nat p) c)) as Hsplit.
  { rewrite Hrb at 1. by rewrite take_drop. }
  set (rest := drop (length (f_rbuf f)) (drop (Z.to_nat p) c)) in *.
  assert (rest = drop (Z.to_nat (p + Z.of_nat (length (f_rbuf f)))) c) as Hrest.
  { unfold rest. rewrite drop_drop. f_equal. lia. }
  cbn [gets_loop]. set (line := default (f_rbuf f) (find_line (f_rbuf f))).
  assert (line <> [] \/ f_rbuf f = []) as Hline.
  { unfold line. destruct (find_line (f_rbuf f)) as [l|] eqn:E.
    - left. apply find_line_prefix in E as [_ ?]. by destruct l; [simpl in *; lia|].
    - simpl. by destruct (f_rbuf f); [right|left]. }
  destruct (negb _ && _) eqn:Htoo.
  { (* the line does not fit *)
    exists (-1), acc, f, o. split; [done|]. split; [reflexivity|]. split; [done|].
    assert (next_line remaining (drop (Z.to_nat p) c) = None) as ->.
    { unfold next_line. rewrite Hsplit. destruct (find_line (f_rbuf f)) as [l|] eqn:E.
      - rewrite (find_line_app _ _ _ E). unfold line in Htoo. simpl in Htoo.
        destruct (Z.leb_spec (Z.of_nat (length l)) remaining); [lia|done].
      - rewrite (find_line_app_None _ _ E). unfold line in Htoo. simpl in Htoo.
        destruct (find_line rest) as [l|]; simpl; [|done]. rewrite length_app.
        destruct (Z.leb_spec (Z.of_nat (length (f_rbuf f) + length l)) remaining); [lia|done]. }
    split; [done|]. by eapply file_reading_ok. }
  cbv zeta. assert (length line <= length (f_rbuf f))%nat as Hll.
  { unfold line. destruct (find_line (f_rbuf f)) eqn:E; simpl; [|done]. by apply find_line_prefix in E as [_ ?]; lia. }
  assert (Z.of_nat (length line) <= remaining) as Hfit.
  { destruct Hline as [Hne|He]; [|rewrite He in Hll; simpl in Hll; lia].
    destruct line; [done|]. destruct (f_rbuf f); simpl in *; lia. }
  destruct (file_reading_advance _ _ _ _ _ _ Hr Hll) as [Hr1 Htake]. rewrite Hoff.
  set (f1 := f <| f_rbuf := _ |> <| f_roffset := _ |>) in *.
  case_bool_decide as Hfound.
  - (* a complete line in the buffer *)
    destruct Hfound as [l El]. assert (line = l) as Hl0 by (unfold line; by rewrite El).
    eexists _, _, _, o. split; [reflexivity|]. split; [reflexivity|]. split; [done|].
    unfold next_line. rewrite Hsplit, (find_line_app _ _ _ El). rewrite Hl0 in *.
    rewrite (proj2 (Z.leb_le _ _) Hfit). left. split; [done|]. split; [lia|done].
  - assert (find_line (f_rbuf f) = None) as Enone by (apply eq_None_not_Some; done).
    assert (line = f_rbuf f) as Hlf by (unfold line; by rewrite Enone).
    assert (f_rbuf f1 = []) as Hb1 by (unfold f1; cbn; rewrite Hlf; by apply drop_ge).
    pose proof Hr1 as [Hl1 Hs1 Hw1 Hoff1 Hrb1 Hp1]. rewrite Hb1 in Hl1. simpl in Hl1. rewrite Z.add_0_r in Hl1.
    change (f_fd f1) with (f_fd f) in *.
    destruct (sys_read_spec (f_fd f) FILE_BUFSIZE o i _ c Hl1 Hp1)
      as (r & data & o1 & Hrun & Ho & Hres).
    run_step Hrun.
    assert (next_line remaining (drop (Z.to_nat p) c) =
            (fun l => line ++ l) <$> next_line (remaining - Z.of_nat (length line)) rest) as Hnext.
    { unfold next_line. rewrite Hsplit, (find_line_app_None _ _ Enone), Hlf.
      destruct (find_line rest) as [l|]; simpl; [|done]. rewrite length_app.
      destruct (Z.leb_spec (Z.of_nat (length (f_rbuf f) + length l)) remaining),
        (Z.leb_spec (Z.of_nat (length l)) (remaining - Z.of_nat (length (f_rbuf f)))); (done || lia). }
    destruct Hres as [(-> & Hl2 & Hf)|(Hr0 & Hdata & Hlen & Hpos & Hl2)]; cbn [Z.leb Z.compare].
    { (* the read fails *)
      eexists _, _, _, o1. split; [reflexivity|]. split; [done|]. split; [done|].
      assert (file_ok o1 f1 i c) as Hok.
      { constructor; try done; [|by rewrite Hw1|by left]. eexists _, _. split; [exact Hl2|].
        by rewrite Hw1, app_nil_r. }
      destruct (next_line _ _); [right|]; done. }
    assert (FILE_BUFSIZE = 4096) as Hfb by reflexivity.
    destruct (Z.leb_spec r 0) as [Hz|Hgt].
    { (* end of file *)
      assert (rest = []) as He.
      { destruct rest eqn:E; [done|]. exfalso. assert (0 < r); [|lia].
        apply Hpos; [lia|]. rewrite Hlf, <- Hrest. done. }
      eexists _, _, _, o1. split; [reflexivity|]. split; [done|]. split; [done|].
      rewrite Hnext, He. simpl. split; [done|].
      constructor; try done; [|by rewrite Hw1|by left]. eexists _, _. split; [exact Hl2|].
      by rewrite Hw1, app_nil_r. }
    assert (data <> []) as Hdne by (intros ->; simpl in *; lia).
    destruct (IH o1 (f1 <| f_rbuf := data |>) (p + Z.of_nat (length line)) (acc ++ line)
                (remaining - Z.of_nat (length line)))
      as (r' & data' & f' & o' & Hrun' & Ho' & Hfd' & Hres).
    + constructor; cbn; try done; [by rewrite <- Hlen|].
      rewrite Hdata at 1. f_equal. lia.
    + lia.
    + intros _. destruct Hline as [Hne|He].
      * assert (f_rbuf f <> []) as Hx by congruence. specialize (Hn1 Hx).
        assert (0 < Z.of_nat (length line)) by (destruct line; [done|simpl; lia]). lia.
      * specialize (Hn2 He). lia.
    + done.
    + exists r', data', f', o'. split; [exact Hrun'|]. split; [by etrans|]. split; [exact Hfd'|].
      rewrite Hnext. rewrite Hlf, <- Hrest, <- Hlf in Hres.
      destruct (next_line (remaining - Z.of_nat (length line)) rest) as [l|]; simpl; [|done].
      destruct Hres as [(-> & -> & Hrd)|(-> & Hnf & Hok)].
      * left. rewrite length_app. split; [by rewrite app_assoc|]. split; [lia|].
        replace (p + Z.of_nat (length line + length l))
          with (p + Z.of_nat (length line) + Z.of_nat (length l)) by lia. done.
      * right. split; [done|]. split; [|done]. intros Hx. by apply Hnf, Ho.
Qed.

(** [FileGets] delivers the next line. *)
Lemma FileGets_spec o f i c p cap :
  file_reading o f i c p -> 0 <= cap ->
  exists r data f' o', FileGets f cap o = Done ((r, data, f'), o') /\
    only (f_fd f) i o o' /\ f_fd f' = f_fd f /\
    match next_line cap (drop (Z.to_nat p) c) with
    | Some l =>
        (data = l /\ r = Z.of_nat (length l) /\ file_reading o' f' i c (p + Z.of_nat (length l))) \/
        (r = -1 /\ ~ no_faults o /\ file_ok o' f' i c)
    | None => r = -1 /\ file_ok o' f' i c
    end.
Proof.
  intros Hr Hcap. unfold FileGets. run_step (FileFlush_reading _ _ _ _ _ Hr). cbn [negb Z.eqb RR_OK].
  destruct (gets_loop_spec i c cap (S (S (Z.to_nat cap))) o f p [] cap Hr Hcap)
    as (r & data & f' & o' & Hrun & Ho & Hfd & Hres); [lia|lia|].
  exists r, data, f', o'. split; [exact Hrun|]. split; [exact Ho|]. split; [exact Hfd|].
  destruct (next_line _ _); [|done]. destruct Hres as [(-> & -> & ?)|?]; [left|by right].
  split; [done|]. split; [lia|done].
Qed.

(** ** Refinement

    An abstract file: its contents, and the read offset between
    [FileSetReadOffset] and the next write, truncation or failed [FileGets]. *)
Record afile := mk_afile {
  af_data : list Z;
  af_read : option Z
}.

Inductive file_op :=
| FWrite (data : list Z)
| FSetReadOffset (p : Z)
| FRead (cap : Z)
| FGets (cap : Z)
| FTruncate (n : Z)
| FFlush.

(** The return value and the bytes delivered. *)
Definition file_exec (op : file_op) : M (File * os) (Z * list Z) :=
  fun '(f, o) =>
    let out {A} (m : M os (A * File)) (k : A -> Z * list Z) : outcome ((Z * list Z) * (File * os)) :=
      match m o with
      | Done ((a, f'), o') => Done (k a, (f', o'))
      | Abort => Abort
      | OutOfFuel => OutOfFuel
      end in
    match op with
    | FWrite data => out (FileWrite f data) (fun r => (r, []))
    | FSetReadOffset p => out (FileSetReadOffset f p) (fun r => (r, []))
    | FRead cap => out (FileRead f cap) (fun r => r)
    | FGets cap => out (FileGets f cap) (fun '(r, d) => (r, if r <? 0 then [] else d))
    | FTruncate n => out (FileTruncate f n) (fun r => (r, []))
    | FFlush => out (FileFlush f) (fun r => (r, []))
    end.

(** [None]: the call is not allowed there. *)
Definition afile_exec (op : file_op) (a : afile) : option ((Z * list Z) * afile) :=
  let c := af_data a in
  match op with
  | FWrite data => Some ((Z.of_nat (length data), []), mk_afile (c ++ data) None)
  | FSetReadOffset p => if p <? 0 then None else Some ((RR_OK, []), mk_afile c (Some p))
  | FRead cap =>
      match af_read a with
      | Some p =>
          if cap <? 0 then None else
          let data := take (Z.to_nat cap) (drop (Z.to_nat p) c) in
          let r := Z.of_nat (length data) in
          Some ((r, data), mk_afile c (Some (p + r)))
      | None => None
      end
  | FGets cap =>
      match af_read a with
      | Some p =>
          if cap <? 0 then None else
          match next_line cap (drop (Z.to_nat p) c) with
          | Some l => Some ((Z.of_nat (length l), l), mk_afile c (Some (p + Z.of_nat (length l))))
          | None => Some ((-1, []), mk_afile c None)
          end
      | None => None
      end
  | FTruncate n =>
      if (0 <=? n) && (n <=? Z.of_nat (length c))
      then Some ((RR_OK, []), mk_afile (take (Z.to_nat n) c) None) else None
  | FFlush => Some ((RR_OK, []), mk_afile c (af_read a))
  end.

Fixpoint file_exec_all (ops : list file_op) : M (File * os) (list (Z * list Z)) :=
  match ops with
  | [] => ret []
  | op :: ops => r <- file_exec op ;; rs <- file_exec_all ops ;; ret (r :: rs)
  end.

Fixpoint afile_exec_all (ops : list file_op) (a : afile) : option (list (Z * list Z) * afile) :=
  match ops with
  | [] => Some ([], a)
  | op :: ops =>
      match afile_exec op a with
      | None => None
      | Some (r, a) =>
          match afile_exec_all ops a with
          | None => None
          | Some (rs, a) => Some (r :: rs, a)
          end
      end
  end.

(** The concrete file [f] stands for [a]. *)
Definition file_rep (o : os) (f : File) (i : Z) (a : afile) : Prop :=
  match af_read a with
  | Some p => file_reading o f i (af_data a) p
  | None => file_ok o f i (af_data a)
  end.

Lemma file_rep_ok o f i a : file_rep o f i a -> file_ok o f i (af_data a).
Proof. unfold file_rep. destruct (af_read a); [apply file_reading_ok|done]. Qed.

Lemma file_exec_spec op o f i a r a' :
  file_rep o f i a -> no_faults o -> afile_exec op a = Some (r, a') ->
  exists f' o', file_exec op (f, o) = Done (r, (f', o')) /\ file_rep o' f' i a' /\ no_faults o'.
Proof.
  intros Hr Hn E. pose proof (file_rep_ok _ _ _ _ Hr) as Hok.
  destruct op as [data|p|cap|cap|n|]; cbn [afile_exec] in E; unfold file_exec.
  - simplify_eq. destruct (FileWrite_spec o f i (af_data a) data Hok)
      as (r & f' & o' & -> & Ho & _ & [[-> Hok']|(_ & Hnf & _)]); [|done].
    exists f', o'. split; [done|]. split; [done|by apply Ho].
  - destruct (Z.ltb_spec p 0); [done|]. simplify_eq.
    destruct (FileSetReadOffset_spec o f i (af_data a) p Hok)
      as (rc & f' & o' & -> & Ho & _ & [[-> Hok']|(_ & Hnf & _)]); [done| |done].
    exists f', o'. split; [done|]. split; [done|by apply Ho].
  - unfold file_rep in Hr. destruct (af_read a) as [p|]; [|done].
    destruct (Z.ltb_spec cap 0); [done|]. simplify_eq.
    destruct (FileRead_spec o f i (af_data a) p cap Hr)
      as (r & data & f' & o' & -> & Ho & _ & [(-> & -> & Hrd)|(_ & Hnf & _)]); [done| |done].
    exists f', o'. split; [done|]. split; [done|by apply Ho].
  - unfold file_rep in Hr. destruct (af_read a) as [p|]; [|done].
    destruct (Z.ltb_spec cap 0); [done|].
    destruct (FileGets_spec o f i (af_data a) p cap Hr)
      as (r1 & data & f' & o' & -> & Ho & _ & Hres); [done|].
    destruct (next_line _ _) as [l|]; simplify_eq.
    + destruct Hres as [(-> & -> & Hrd)|(_ & Hnf & _)]; [|done].
      exists f', o'. rewrite (proj2 (Z.ltb_ge _ 0)) by lia. split; [done|]. split; [done|by apply Ho].
    + destruct Hres as [-> Hok']. exists f', o'. split; [done|]. split; [done|by apply Ho].
  - destruct (_ && _) eqn:Hb; [|done]. simplify_eq.
    destruct (FileTruncate_spec o f i (af_data a) n Hok)
      as (rc & f' & o' & -> & Ho & _ & [[-> Hok']|(_ & Hnf & _)]); [lia| |done].
    exists f', o'. split; [done|]. split; [done|by apply Ho].
  - simplify_eq. destruct (af_read a) as [p|] eqn:Ep.
    + unfold file_rep in Hr. rewrite Ep in Hr. rewrite (FileFlush_reading _ _ _ _ _ Hr).
      exists f, o. done.
    + destruct (FileFlush_spec o f i (af_data a) Hok)
        as (rc & f' & o' & -> & Ho & Hok' & _ & [[-> _]|[_ Hnf]]); [|done].
      exists f', o'. split; [done|]. split; [done|by apply Ho].
Qed.

(** C24 (refinement). Over any sequence of writes, positioned reads, line reads,
    truncations and flushes, a [File] returns what an unbuffered file would,
    whatever way the kernel splits the transfers; no loop runs on. *)
Theorem file_refines (ops : list file_op) : forall o f i a rs a',
  file_rep o f i a -> no_faults o -> afile_exec_all ops a = Some (rs, a') ->
  exists f' o', file_exec_all ops (f, o) = Done (rs, (f', o')) /\ file_rep o' f' i a'.
Proof.
  induction ops as [|op ops IH]; intros o f i a rs a' Hr Hn E; simpl in *.
  { simplify_eq. by exists f, o. }
  destruct (afile_exec op a) as [[r a1]|] eqn:E1; [|done].
  destruct (afile_exec_all ops a1) as [[rs1 a2]|] eqn:E2; [|done]. simplify_eq.
  destruct (file_exec_spec op o f i a r a1 Hr Hn E1) as (f1 & o1 & Hrun & Hr1 & Hn1).
  destruct (IH o1 f1 i a1 rs1 a' Hr1 Hn1 E2) as (f' & o' & Hrun' & Hr').
  exists f', o'. split; [|done]. run_step Hrun. by run_step Hrun'.
Qed.

(** A [FileWrite] that fails leaves the old contents followed by a
    part of the data, and [FileSize] counts exactly the bytes the file and its
    buffer hold, so that [FileTruncate] to the old size undoes it. *)
Theorem failed_write_undone (o o1 o2 : os) (f f1 f2 : File) (i : Z) (c data : list Z) (r rc : Z) :
  file_ok o f i c -> FileWrite f data o = Done ((r, f1), o1) -> r <> Z.of_nat (length data) ->
  (exists k, FileSize f1 = Z.of_nat (length (c ++ take k data)) /\ file_ok o1 f1 i (c ++ take k data)) /\
  (FileTruncate f1 (FileSize f) o1 = Done ((rc, f2), o2) -> rc = RR_OK -> file_ok o2 f2 i c).
Proof.
  intros Hok E Hr.
  destruct (FileWrite_spec o f i c data Hok) as (r' & f' & o' & E' & _ & _ & Hres).
  rewrite E' in E. simplify_eq. destruct Hres as [[-> _]|(_ & _ & k & Hok1)]; [done|].
  split. { exists k. split; [apply Hok1|done]. }
  intros Ht ->. unfold FileSize in Ht. rewrite (fo_size _ _ _ _ Hok) in Ht.
  destruct (FileTruncate_spec _ _ _ _ (Z.of_nat (length c)) Hok1)
    as (rc' & f3 & o3 & E3 & _ & _ & Hres3); [rewrite length_app; lia|].
  rewrite E3 in Ht. simplify_eq. destruct Hres3 as [[_ Hok2]|[? _]]; [|done].
  by rewrite Nat2Z.id, take_app_length in Hok2.
Qed.

(** ** A file of the demonstration kernel *)

(** A descriptor on an empty file, with a kernel that transfers three bytes,
    then one, then fails. *)
Definition demo_os (plan : list Z) : os := mk_os {[ [102] := 3 ]} {[ 3 := [] ]} {[ 4 := (3, 0) ]} 5 ∅ [] plan.

Definition demo_file : File := mk_File 4 [] 0 [] 0.

Lemma demo_file_ok plan : file_ok (demo_os plan) demo_file 3 [].
Proof. constructor; cbn; [by eexists _, _|done|done|by left]. Qed.

Definition demo_file_ops : list file_op :=
  [FWrite [65; 66; 10; 67]; FSetReadOffset 1; FGets 10; FRead 3; FTruncate 2; FWrite [68];
   FSetReadOffset 0; FRead 9; FGets 5].

Lemma file_refines_witness :
  exists f o, file_exec_all demo_file_ops (demo_file, demo_os [3; 1; 5; 1; 2]) =
    Done ([(4, []); (0, []); (2, [66; 10]); (1, [67]); (0, []); (1, []); (0, []);
           (3, [65; 66; 68]); (-1, [])], (f, o)) /\
    file_rep o f 3 (mk_afile [65; 66; 68] None).
Proof.
  apply (file_refines demo_file_ops (demo_os [3; 1; 5; 1; 2]) demo_file 3 (mk_afile [] None)).
  - exact (demo_file_ok _).
  - repeat constructor; lia.
  - vm_compute. reflexivity.
Defined.

(** 4097 bytes do not fit in the buffer; the kernel takes 3, then fails. *)
Lemma failed_write_undone_witness :
  match FileWrite demo_file (replicate 4097 65) (demo_os [3; -1]) with
  | Done ((r, f1), o1) =>
      r = -1 /\
      (exists k, FileSize f1 = Z.of_nat (length ([] ++ take k (replicate 4097 65))) /\
                 file_ok o1 f1 3 ([] ++ take k (replicate 4097 65))) /\
      match FileTruncate f1 (FileSize demo_file) o1 with
      | Done ((rc, f2), o2) => rc = RR_OK /\ file_ok o2 f2 3 []
      | _ => False
      end
  | _ => False
  end.
Proof.
  destruct (FileWrite demo_file (replicate 4097 65) (demo_os [3; -1])) as [[[r f1] o1]| |] eqn:E.
  2, 3: vm_compute in E; discriminate E.
  assert (r = -1) as ->. { vm_compute in E. injection E as <- _ _. reflexivity. }
  split; [reflexivity|].
  destruct (FileTruncate f1 (FileSize demo_file) o1) as [[[rc f2] o2]| |] eqn:E2.
  2, 3: exfalso; vm_compute in E; injection E as <- <-; vm_compute in E2; discriminate E2.
  destruct (failed_write_undone (demo_os [3; -1]) o1 o2 demo_file f1 f2 3 [] (replicate 4097 65) (-1) rc
              (demo_file_ok _) E) as [Hk Ht].
  - vm_compute. discriminate.
  - split; [exact Hk|]. assert (rc = RR_OK) as Hrc.
    { vm_compute in E. injection E as <- <-. vm_compute in E2. injection E2 as <- _ _. reflexivity. }
    split; [exact Hrc|]. exact (Ht E2 Hrc).
Defined.
