(* ===== verification/Multibulk.v ===== *)
(** * Multibulk encoding ([redisraft/src/util.c])

    The text format of the log and metadata files: numbers and strings as
    length-prefixed lines.  The writers return the bytes; the readers take them
    from a [File] and are shown to implement parsers of byte lists. *)

From stdpp Require Import base list numbers tactics gmap.
From S2P Require Import Prelude Libc File.

Local Open Scope Z_scope.

(** ** Numbers *)

(** [parseLongLong]: the value and [*end]; [None] is [false]. *)
Definition parseLongLong (str : list Z) : option (Z * list Z) :=
  match strtoll str with
  | None => None
  | Some (val, erange, rest) =>
      if ((val =? - 2 ^ 63) || (val =? 2 ^ 63 - 1)) && erange then None else Some (val, rest)
  end.

Definition parseULongLong (str : list Z) : option (Z * list Z) :=
  match strtoull str with
  | None => None
  | Some (val, erange, rest) => if (val =? 2 ^ 64 - 1) && erange then None else Some (val, rest)
  end.

(** [long] is as wide as [long long]: the second test never fails. *)
Definition parseLong (str : list Z) : option (Z * list Z) :=
  match parseLongLong str with
  | None => None
  | Some (num, rest) => if (num <? - 2 ^ 63) || (2 ^ 63 - 1 <? num) then None else Some (num, rest)
  end.

Definition parseInt (str : list Z) : option (Z * list Z) :=
  match parseLongLong str with
  | None => None
  | Some (num, rest) => if (num <? - 2 ^ 31) || (2 ^ 31 - 1 <? num) then None else Some (num, rest)
  end.

(** ** Writers

    [safesnprintf] panics ([None]) when the text and its NUL do not fit. *)
Definition safesnprintf (size : Z) (text : list Z) : option (list Z) :=
  if size <=? Z.of_nat (length text) then None else Some text.

Definition DOLLAR : Z := 36.
Definition STAR : Z := 42.

Definition multibulkWriteLen (prefix len cap : Z) : option (list Z) :=
  safesnprintf cap (prefix :: dec_unsigned len ++ crlf).

(** ["$%d\r\n<text>\r\n"] *)
Definition bulk (text : list Z) : list Z :=
  DOLLAR :: dec_signed (Z.of_nat (length text)) ++ crlf ++ text ++ crlf.

Definition multibulkWriteLong (val cap : Z) : option (list Z) :=
  safesnprintf cap (bulk (dec_signed val)).

Definition multibulkWriteInt (val cap : Z) : option (list Z) := multibulkWriteLong val cap.

Definition multibulkWriteUInt64 (val cap : Z) : option (list Z) :=
  safesnprintf cap (bulk (dec_unsigned val)).

Definition multibulkWriteStr (val : list Z) (cap : Z) : option (list Z) :=
  safesnprintf cap (bulk val).

(** [pos += w1(pos, end - pos); pos += w2(pos, end - pos); ...] *)
Fixpoint write_all (cap : Z) (ws : list (Z -> option (list Z))) : option (list Z) :=
  match ws with
  | [] => Some []
  | w :: ws =>
      match w cap with
      | None => None
      | Some t => match write_all (cap - Z.of_nat (length t)) ws with
                  | None => None
                  | Some ts => Some (t ++ ts)
                  end
      end
  end.

(** ** Names and directories *)

(** [safesnprintf(buf, PATH_MAX, ...)] *)
Definition path_name (size : Z) (name : list Z) : M os (list Z) :=
  match safesnprintf size name with Some n => ret n | None => abort end.

(** The calls of [fsyncDir]: it opens the parent directory and syncs it, and
    panics ([false]) if that fails. *)
Definition fsyncDir_calls : M os bool :=
  ok <- sys_ok ;; if negb ok then ret false else
  ok <- sys_fsync_dir ;; if negb ok then ret false else
  sys_ok ;; ret true.

Definition fsyncDir : M os unit := ok <- fsyncDir_calls ;; c_assert ok.

(** [fsyncFileAt]; [None] when it panics. *)
Definition fsyncFileAt (path : list Z) : M os (option Z) :=
  let* (fd, _) := sys_open path (mk_flags false false false false) in
  if fd =? -1 then ret (Some RR_ERROR) else
  rc <- sys_fsync fd ;;
  if negb (rc =? 0) then sys_close fd ;; ret (Some RR_ERROR) else
  c <- sys_close fd ;;
  if negb (c =? 0) then ret (Some RR_ERROR) else
  ok <- fsyncDir_calls ;; ret (if ok : bool then Some RR_OK else None).

(** The calls of [syncRename]; [None] when it panics. *)
Definition syncRename_calls (oldname newname : list Z) : M os (option Z) :=
  rc <- sys_rename oldname newname ;;
  if negb (rc =? 0) then ret (Some RR_ERROR) else
  ok <- fsyncDir_calls ;; ret (if ok : bool then Some RR_OK else None).

Definition syncRename (oldname newname : list Z) : M os Z :=
  rc <- syncRename_calls oldname newname ;;
  match rc with Some rc => ret rc | None => abort end.

(** ** Readers

    A reader returns [None] for [false]; [rbind] is the short-circuit
    [!a(...) || !b(...)]. *)
Definition reader (A : Type) : Type := File -> M os (option A * File).

Definition rret {A} (a : A) : reader A := fun fp => ret (Some a, fp).
Definition rfail {A} : reader A := fun fp => ret (None, fp).
Definition rbind {A B} (m : reader A) (k : A -> reader B) : reader B := fun fp =>
  let* (a, fp) := m fp in
  match a with
  | None => ret (None, fp)
  | Some a => k a fp
  end.

Notation "'let!' x := m 'in' k" := (rbind m (fun x => k))
  (at level 10, x pattern, m at level 100, k at level 200).

(** [if (FileRead(fp, buf, cap) != cap) fail] *)
Definition read_exact (cap : Z) : reader (list Z) := fun fp =>
  let* (r, data, fp) := FileRead fp cap in
  ret (if r =? cap then Some data else None, fp).

(** A buffer as a C string. *)
Fixpoint c_string (buf : list Z) : list Z :=
  match buf with
  | [] => []
  | c :: buf => if c =? 0 then [] else c :: c_string buf
  end.

(** [*length] of a line as [multibulkReadLen] checks it. *)
Definition parse_len_line (type : Z) (line : list Z) : option Z :=
  match line with
  | [] => None
  | c :: line =>
      if negb (c =? type) then None else
      match parseULongLong (c_string line) with
      | None => None
      | Some (n, rest) =>
          match rest with
          | e0 :: e1 :: _ => if (e0 =? CR) && (e1 =? LF) then Some n else None
          | _ => None
          end
      end
  end.

Definition multibulkReadLen (type : Z) : reader Z := fun fp =>
  let* (r, line, fp) := FileGets fp (64 - 2) in
  if r <=? 0 then ret (None, fp) else ret (parse_len_line type line, fp).

(** The two bytes behind a payload. *)
Definition read_crlf : reader unit :=
  let! c := read_exact 2 in if bool_decide (c = crlf) then rret tt else rfail.

(** [buf] is zeroed, of [size] bytes; the result is its contents as a C
    string. *)
Definition multibulkReadStr (size : Z) : reader (list Z) :=
  let! len := multibulkReadLen DOLLAR in
  if size <? len then rfail else
  let! data := read_exact len in
  let! _ := read_crlf in
  rret (c_string (take (Z.to_nat (size - 1)) data)).

Definition multibulkReadNum (parse : list Z -> option (Z * list Z)) : reader Z :=
  let! buf := multibulkReadStr 64 in
  match parse buf with
  | None => rfail
  | Some (v, _) => rret v
  end.

Definition multibulkReadInt : reader Z := multibulkReadNum parseInt.
Definition multibulkReadLong : reader Z := multibulkReadNum parseLong.
Definition multibulkReadUInt64 : reader Z := multibulkReadNum parseULongLong.

(** * Readers as parsers

    A parser takes the bytes that follow and returns a value and the number of
    bytes it used. *)
Definition parser (A : Type) : Type := list Z -> option (A * nat).

Definition pret {A} (a : A) : parser A := fun _ => Some (a, 0%nat).
Definition pfail {A} : parser A := fun _ => None.
Definition pbind {A B} (P : parser A) (Q : A -> parser B) : parser B := fun s =>
  match P s with
  | None => None
  | Some (a, n) => match Q a (drop n s) with
                   | None => None
                   | Some (b, m) => Some (b, n + m)%nat
                   end
  end.

(** [implements m P]: reading at offset [p], [m] delivers what [P] finds in the
    bytes from there, and moves past them; a system call that fails can make it
    deliver nothing. *)
Definition implements {A} (m : reader A) (P : parser A) : Prop :=
  forall o f i c p, file_reading o f i c p ->
  exists a f' o', m f o = Done ((a, f'), o') /\ only (f_fd f) i o o' /\ f_fd f' = f_fd f /\
    match P (drop (Z.to_nat p) c) with
    | Some (v, n) => (a = Some v /\ file_reading o' f' i c (p + Z.of_nat n)) \/
                     (a = None /\ ~ no_faults o /\ file_ok o' f' i c)
    | None => a = None /\ file_ok o' f' i c
    end.

Lemma rret_implements {A} (a : A) : implements (rret a) (pret a).
Proof.
  intros o f i c p Hr. exists (Some a), f, o. split; [done|]. split; [reflexivity|]. split; [done|].
  simpl. left. by rewrite Z.add_0_r.
Qed.

Lemma rfail_implements {A} : implements (@rfail A) pfail.
Proof.
  intros o f i c p Hr. exists None, f, o. split; [done|]. split; [reflexivity|]. split; [done|].
  simpl. split; [done|]. by eapply file_reading_ok.
Qed.

Lemma rbind_implements {A B} (m : reader A) (k : A -> reader B) P Q :
  implements m P -> (forall a s n, P s = Some (a, n) -> implements (k a) (Q a)) ->
  implements (rbind m k) (pbind P Q).
Proof.
  intros Hm Hk o f i c p Hr. pose proof (fr_nonneg _ _ _ _ _ Hr) as Hp.
  destruct (Hm o f i c p Hr) as (a & f1 & o1 & Hrun & Ho & Hfd & Hres).
  unfold rbind, pbind. rewrite (bind_done_eq _ _ _ _ _ Hrun). cbv beta iota.
  destruct (P (drop (Z.to_nat p) c)) as [[v n]|] eqn:EP.
  2: { destruct Hres as [-> Hok]. by exists None, f1, o1. }
  destruct Hres as [[-> Hr1]|(-> & Hnf & Hok)].
  2: { exists None, f1, o1. split; [done|]. split; [done|]. split; [done|].
       destruct (Q v _) as [[b m']|]; [by right|done]. }
  destruct (Hk v _ _ EP o1 f1 i c (p + Z.of_nat n) Hr1) as (b & f2 & o2 & Hrun2 & Ho2 & Hfd2 & Hres2).
  exists b, f2, o2. split; [done|]. rewrite Hfd in Ho2, Hfd2. split; [by etrans|]. split; [done|].
  replace (Z.to_nat (p + Z.of_nat n)) with (Z.to_nat p + n)%nat in Hres2 by lia.
  rewrite <- drop_drop in Hres2.
  destruct (Q v _) as [[w n2]|]; [|done]. destruct Hres2 as [[-> Hr2]|(-> & Hnf & Hok)].
  - left. split; [done|]. by rewrite Nat2Z.inj_add, Z.add_assoc.
  - right. split; [done|]. split; [|done]. intros Hx. by apply Hnf, Ho.
Qed.

Lemma implements_ext {A} (m : reader A) P P' :
  (forall s, P s = P' s) -> implements m P -> implements m P'.
Proof.
  intros He Hm o f i c p Hr. destruct (Hm o f i c p Hr) as (a & f' & o' & ?).
  exists a, f', o'. by rewrite <- He.
Qed.

(** [cap] bytes, if they are there. *)
Definition parse_exact (cap : Z) : parser (list Z) := fun s =>
  if Z.of_nat (length s) <? cap then None else Some (take (Z.to_nat cap) s, Z.to_nat cap).

Lemma read_exact_implements cap : 0 <= cap -> implements (read_exact cap) (parse_exact cap).
Proof.
  intros Hc o f i c p Hr.
  destruct (FileRead_spec o f i c p cap Hr Hc) as (r & data & f' & o' & Hrun & Ho & Hfd & Hres).
  unfold read_exact. rewrite (bind_done_eq _ _ _ _ _ Hrun). cbv beta iota.
  unfold parse_exact. eexists _, f', o'. split; [reflexivity|]. split; [done|]. split; [done|].
  destruct Hres as [(-> & -> & Hrd)|(-> & Hnf & Hok)].
  - destruct (Z.ltb_spec (Z.of_nat (length (drop (Z.to_nat p) c))) cap).
    + rewrite (proj2 (Z.eqb_neq _ _)) by (rewrite length_take; lia).
      split; [done|]. by eapply file_reading_ok.
    + rewrite (proj2 (Z.eqb_eq _ _)) by (rewrite length_take; lia). left. split; [done|].
      rewrite length_take in Hrd. by rewrite Nat.min_l in Hrd by lia.
  - destruct (Z.eqb_spec (-1) cap); [lia|]. destruct (_ <? cap); [done|by right].
Qed.

Definition parse_len (type : Z) : parser Z := fun s =>
  match next_line (64 - 2) s with
  | None => None
  | Some l => match parse_len_line type l with Some n => Some (n, length l) | None => None end
  end.

Lemma multibulkReadLen_implements type : implements (multibulkReadLen type) (parse_len type).
Proof.
  intros o f i c p Hr.
  destruct (FileGets_spec o f i c p (64 - 2) Hr) as (r & data & f' & o' & Hrun & Ho & Hfd & Hres); [done|].
  unfold multibulkReadLen. rewrite (bind_done_eq _ _ _ _ _ Hrun). cbv beta iota.
  unfold parse_len. destruct (next_line _ _) as [l|] eqn:El.
  - assert (0 < length l)%nat as Hl.
    { unfold next_line in El. destruct (find_line _) as [l'|] eqn:E; [|done].
      apply find_line_prefix in E as [_ ?]. destruct (_ <=? _); [|done]. simplify_eq. lia. }
    destruct Hres as [(-> & -> & Hrd)|(-> & Hnf & Hok)].
    + rewrite (proj2 (Z.leb_gt _ 0)) by lia. eexists _, f', o'. split; [reflexivity|].
      split; [done|]. split; [done|]. destruct (parse_len_line type l); [by left|].
      split; [done|]. by eapply file_reading_ok.
    + eexists _, f', o'. split; [reflexivity|]. split; [done|]. split; [done|].
      destruct (parse_len_line type l); [by right|done].
  - destruct Hres as [-> Hok]. eexists _, f', o'. split; [reflexivity|]. done.
Qed.

Definition parse_crlf : parser unit :=
  pbind (parse_exact 2) (fun c => if bool_decide (c = crlf) then pret tt else pfail).

Lemma read_crlf_implements : implements read_crlf parse_crlf.
Proof.
  apply rbind_implements; [by apply read_exact_implements|]. intros c _ _ _.
  case_bool_decide; [apply rret_implements|apply rfail_implements].
Qed.

Definition parse_str (size : Z) : parser (list Z) :=
  pbind (parse_len DOLLAR) (fun len =>
    if size <? len then pfail else
    pbind (parse_exact len) (fun data =>
    pbind parse_crlf (fun _ => pret (c_string (take (Z.to_nat (size - 1)) data))))).

Lemma strto_parse_nonneg s neg v rest : strto_parse s = Some (neg, v, rest) -> 0 <= v.
Proof.
  assert (forall base s a, 0 <= base -> 0 <= a -> 0 <= (scan_digits base s a).1) as Hscan.
  { intros base l. induction l as [|c l IH]; intros a Hb Ha; simpl; [done|].
    destruct (_ <? base) eqn:E; [|done]. apply IH; [done|].
    assert (0 <= digit_value c); [|nia]. unfold digit_value. repeat case_match; lia. }
  unfold strto_parse. intros H.
  assert (forall base s v rest, 0 <= base -> scan_digits base s 0 = (v, rest) -> 0 <= v) as Hs.
  { intros base l v' r' Hb E. specialize (Hscan base l 0 Hb ltac:(lia)). by rewrite E in Hscan. }
  repeat match type of H with
  | context [scan_digits ?b ?s 0] =>
      let E := fresh "E" in destruct (scan_digits b s 0) eqn:E; apply Hs in E; [|lia]
  | context [match ?x with _ => _ end] => destruct x eqn:?
  end; by simplify_eq.
Qed.

Lemma parse_len_nonneg type s n k : parse_len type s = Some (n, k) -> 0 <= n.
Proof.
  unfold parse_len, parse_len_line, parseULongLong, strtoull. intros H.
  repeat case_match; simplify_eq; try lia;
    match goal with E : strto_parse _ = _ |- _ => apply strto_parse_nonneg in E end; try done.
  unfold u64. apply Z.mod_pos_bound. lia.
Qed.

Create HintDb readers discriminated.
#[export] Hint Resolve rret_implements rfail_implements multibulkReadLen_implements
  read_crlf_implements : readers.

(** Go through a reader built with [rbind]. *)
Ltac readers_step :=
  first
    [ solve [eauto 2 with readers]
    | lazymatch goal with
      | |- implements (rbind _ _) _ => apply rbind_implements; [|intros ? ? ? ?]
      | |- implements (if ?b then _ else _) _ => destruct b eqn:?
      | |- implements (match ?x with _ => _ end) _ => destruct x eqn:?
      end ].

Ltac readers := repeat readers_step.

Lemma multibulkReadStr_implements size : implements (multibulkReadStr size) (parse_str size).
Proof.
  unfold multibulkReadStr, parse_str. readers_step; [readers_step|].
  destruct (size <? a) eqn:Hs; [readers_step|]. readers_step; [|readers].
  apply read_exact_implements. by eapply parse_len_nonneg.
Qed.
#[export] Hint Resolve multibulkReadStr_implements : readers.

Definition parse_num (parse : list Z -> option (Z * list Z)) : parser Z :=
  pbind (parse_str 64) (fun buf => match parse buf with None => pfail | Some (v, _) => pret v end).

Lemma multibulkReadNum_implements parse : implements (multibulkReadNum parse) (parse_num parse).
Proof. unfold multibulkReadNum, parse_num. readers. Qed.

Lemma multibulkReadInt_implements : implements multibulkReadInt (parse_num parseInt).
Proof. apply multibulkReadNum_implements. Qed.
Lemma multibulkReadLong_implements : implements multibulkReadLong (parse_num parseLong).
Proof. apply multibulkReadNum_implements. Qed.
Lemma multibulkReadUInt64_implements : implements multibulkReadUInt64 (parse_num parseULongLong).
Proof. apply multibulkReadNum_implements. Qed.
#[export] Hint Resolve multibulkReadInt_implements multibulkReadLong_implements
  multibulkReadUInt64_implements : readers.

(** * Encodings

    [encodes P a e]: [P] recognizes the bytes [e] as [a], whatever follows, and
    rejects every truncation of [e]. *)
Record encodes {A} (P : parser A) (a : A) (e : list Z) : Prop := {
  enc_parse rest : P (e ++ rest) = Some (a, length e);
  enc_torn t u : t ++ u = e -> u <> [] -> P t = None
}.

Lemma encodes_pret {A} (a : A) : encodes (pret a) a [].
Proof.
  split; [done|]. intros t u E Hu. destruct u; [done|]. by destruct t.
Qed.

Lemma encodes_pbind {A B} (P : parser A) (Q : A -> parser B) a b e1 e2 :
  encodes P a e1 -> encodes (Q a) b e2 -> encodes (pbind P Q) b (e1 ++ e2).
Proof.
  intros [H1 H1t] [H2 H2t]. split.
  - intros rest. unfold pbind. rewrite <- app_assoc, H1, drop_app_length, H2. by rewrite length_app.
  - intros t u E Hu. unfold pbind. destruct (decide (length e1 <= length t)%nat) as [Hle|Hlt].
    + apply app_eq_app in E as (k & [[-> E]|[E ->]]).
      * rewrite H1, drop_app_length. by rewrite (H2t k u).
      * assert (k = []) as -> by (destruct k; [done|rewrite E, length_app in Hle; simpl in Hle; lia]).
        rewrite app_nil_r in E. subst e1. pose proof (H1 []) as H1'. rewrite app_nil_r in H1'.
        rewrite H1', drop_all. by rewrite (H2t [] e2).
    + apply app_eq_app in E as (k & [[-> E]|[-> E]]).
      * rewrite length_app in Hlt. lia.
      * rewrite (H1t t k); try done. intros ->. rewrite app_nil_r in Hlt. lia.
Qed.

Lemma encodes_exact data n : n = Z.of_nat (length data) -> encodes (parse_exact n) data data.
Proof.
  intros ->. split.
  - intros rest. unfold parse_exact. rewrite length_app.
    destruct (Z.ltb_spec (Z.of_nat (length data + length rest)) (Z.of_nat (length data))); [lia|].
    by rewrite Nat2Z.id, take_app_length.
  - intros t u E Hu. unfold parse_exact. assert (length t < length data)%nat.
    { rewrite <- E, length_app. destruct u; [done|simpl; lia]. }
    by rewrite (proj2 (Z.ltb_lt _ _)) by lia.
Qed.

Lemma encodes_crlf : encodes parse_crlf tt crlf.
Proof.
  unfold parse_crlf. rewrite <- (app_nil_r crlf). apply (encodes_pbind _ _ crlf).
  - by apply encodes_exact.
  - rewrite bool_decide_eq_true_2 by done. apply encodes_pret.
Qed.

(** ** Decimal numbers *)

Definition is_digit (c : Z) : Prop := 48 <= c <= 57.

Lemma is_digit_value c : is_digit c -> digit_value c = c - 48.
Proof. unfold is_digit, digit_value. intros ?. destruct (_ && _) eqn:E; lia. Qed.

(** The value of a list of decimal digits, from [a] on. *)
Definition horner (a : Z) (ds : list Z) : Z := foldl (fun a c => a * 10 + (c - 48)) a ds.

Lemma scan_digits_10 ds rest a :
  Forall is_digit ds -> scan_digits 10 (ds ++ rest) a = scan_digits 10 rest (horner a ds).
Proof.
  intros Hd. revert a. induction Hd as [|c ds Hc Hd IH]; intros a; simpl; [done|].
  rewrite (is_digit_value c Hc). destruct (Z.ltb_spec (c - 48) 10); [apply IH|].
  unfold is_digit in Hc. lia.
Qed.

Lemma dec_digits_spec fuel : forall n acc, 0 <= n < 2 ^ Z.of_nat fuel ->
  exists ds, dec_digits fuel n acc = ds ++ acc /\ Forall is_digit ds /\
    ((0 < fuel)%nat -> ds <> []) /\ (0 < n -> head ds <> Some 48) /\
    (forall k, n < 10 ^ Z.of_nat (S k) -> (length ds <= S k)%nat) /\
    forall a, horner a ds = a * 10 ^ Z.of_nat (length ds) + n.
Proof.
  induction fuel as [|fuel IH]; intros n acc Hn; simpl.
  { exists []. simpl in *. split_and!; try done; try lia; intros; cbn; lia. }
  destruct (Z.ltb_spec n 10).
  - exists [48 + n]. split_and!; try done.
    + constructor; [unfold is_digit; lia|done].
    + simpl. intros ? [= ?]. lia.
    + simpl. lia.
    + intros a. cbn. lia.
  - destruct (IH (n / 10) ((48 + n mod 10) :: acc)) as (ds & -> & Hd & Hne & Hh & Hlen & Hv).
    { split; [apply Z.div_pos; lia|]. apply Z.div_lt_upper_bound; [lia|].
      rewrite Nat2Z.inj_succ, Z.pow_succ_r in Hn by lia. lia. }
    pose proof (Z.mod_pos_bound n 10 ltac:(lia)). pose proof (Z.div_mod n 10 ltac:(lia)).
    assert (0 < n / 10) as Hq by (apply Z.div_str_pos; lia).
    assert (ds <> []) as Hdn.
    { intros ->. specialize (Hv 0). cbn in Hv. lia. }
    exists (ds ++ [48 + n mod 10]). split_and!.
    + by rewrite <- app_assoc.
    + apply Forall_app. split; [done|]. constructor; [unfold is_digit; lia|done].
    + intros _. by destruct ds.
    + intros _. specialize (Hh Hq). by destruct ds.
    + intros k Hk. rewrite length_app. simpl. destruct k as [|k]; [simpl in Hk; lia|].
      assert (length ds <= S k)%nat; [|lia]. apply Hlen. apply Z.div_lt_upper_bound; [lia|].
      rewrite Nat2Z.inj_succ, Z.pow_succ_r in Hk by lia. lia.
    + intros a. unfold horner in *. rewrite foldl_app. cbn. rewrite Hv, length_app. simpl.
      rewrite Nat2Z.inj_add, Z.pow_add_r by lia. lia.
Qed.

Lemma dec_unsigned_spec n : 0 <= n ->
  exists ds, dec_unsigned n = ds /\ Forall is_digit ds /\ ds <> [] /\
    (0 < n -> head ds <> Some 48) /\ (n = 0 -> ds = [48]) /\ horner 0 ds = n /\
    (n < 2 ^ 64 -> (length ds <= 20)%nat).
Proof.
  intros Hn. unfold dec_unsigned. destruct (dec_digits_spec (S (Z.to_nat (Z.log2 n))) n [])
    as (ds & E & Hd & Hne & Hh & Hlen & Hv).
  { destruct (decide (n = 0)) as [->|]; [done|].
    rewrite Nat2Z.inj_succ, Z2Nat.id by apply Z.log2_nonneg.
    split; [lia|]. apply Z.log2_spec. lia. }
  rewrite app_nil_r in E. exists ds. split; [done|]. split; [done|].
  split; [apply Hne; lia|]. split; [done|]. split.
  - intros ->. by rewrite <- E.
  - split; [apply Hv|]. intros Hb. apply (Hlen 19%nat). 
    eapply Z.lt_trans; [exact Hb|]. vm_compute. reflexivity.
Qed.

(** [strtoll] and [strtoull] read back what [%lu] prints, up to a byte that is
    no digit. *)
Definition stops (rest : list Z) : Prop :=
  match rest with [] => True | c :: _ => c = CR end.

Lemma scan_digits_stops base rest a : base <= 16 -> stops rest -> scan_digits base rest a = (a, rest).
Proof. intros Hb. destruct rest as [|c rest]; simpl; [done|]. intros ->. cbn. by rewrite (proj2 (Z.ltb_ge _ _)) by lia. Qed.

Lemma strto_digits n rest :
  0 <= n -> stops rest ->
  (forall neg : bool, neg = false -> strto_parse (dec_unsigned n ++ rest) = Some (neg, n, rest)) /\
  strto_parse (45 :: dec_unsigned n ++ rest) = Some (true, n, rest).
Proof.
  intros Hn Hs. destruct (dec_unsigned_spec n Hn) as (ds & -> & Hd & Hne & Hh & Hz & Hv & _).
  destruct ds as [|d ds]; [done|]. inversion Hd as [|? ? Hd0 Hds]; subst x l.
  unfold is_digit in Hd0.
  assert (strto_parse (45 :: (d :: ds) ++ rest) =
          match strto_parse ((d :: ds) ++ rest) with Some (_, v, r) => Some (true, v, r) | None => None end) as ->.
  { unfold strto_parse. cbn [app skip_spaces]. unfold is_space.
    replace ((45 =? 32) || ((9 <=? 45) && (45 <=? 13))) with false by done.
    replace ((d =? 32) || ((9 <=? d) && (d <=? 13))) with false by lia.
    cbn [Z.eqb Pos.eqb]. replace (d =? 45) with false by lia. replace (d =? 43) with false by lia.
    by repeat case_match. }
  assert (strto_parse ((d :: ds) ++ rest) = Some (false, n, rest)) as ->; [|split; [by intros ? ->|done]].
  unfold strto_parse. cbn [app skip_spaces]. unfold is_space.
  replace ((d =? 32) || ((9 <=? d) && (d <=? 13))) with false by lia.
  replace (d =? 45) with false by lia. replace (d =? 43) with false by lia.
  destruct (Z.eqb_spec d 48) as [->|Hd48].
  - (* the only number that starts with 0 is 0 *)
    assert (n = 0) as Hn0. { destruct (decide (n = 0)) as [|]; [done|]. by destruct (Hh ltac:(lia)). }
    specialize (Hz Hn0). injection Hz as ->. subst n. cbn [app].
    assert (scan_digits 8 (48 :: rest) 0 = (0, rest)) as Hscan.
    { cbn [scan_digits]. change (digit_value 48) with 0. simpl. apply scan_digits_stops; [lia|done]. }
    destruct rest as [|c [|c1 rest]]; rewrite ?Hscan; try done.
    simpl in Hs. by subst c.
  - rewrite (is_digit_value d) by (unfold is_digit; lia).
    destruct (Z.ltb_spec (d - 48) 10); [|lia].
    rewrite (app_comm_cons ds rest d), scan_digits_10 by done. rewrite Hv.
    by rewrite scan_digits_stops by (lia || done).
Qed.

Lemma parseULongLong_dec n rest :
  0 <= n < 2 ^ 64 -> stops rest -> parseULongLong (dec_unsigned n ++ rest) = Some (n, rest).
Proof.
  intros Hn Hs. unfold parseULongLong, strtoull.
  rewrite (proj1 (strto_digits n rest ltac:(lia) Hs) false eq_refl).
  rewrite (proj2 (Z.ltb_ge _ _)) by lia. by rewrite andb_false_r.
Qed.

Lemma parseLongLong_dec v :
  - 2 ^ 63 <= v < 2 ^ 63 -> parseLongLong (dec_signed v) = Some (v, []).
Proof.
  intros Hv. unfold parseLongLong, strtoll, dec_signed.
  rewrite <- (app_nil_r (if v <? 0 then _ else _)).
  destruct (Z.ltb_spec v 0).
  - change ((45 :: dec_unsigned (- v)) ++ []) with (45 :: dec_unsigned (- v) ++ []).
    rewrite (proj2 (strto_digits (- v) [] ltac:(lia) I)).
    rewrite Z.opp_involutive, !(proj2 (Z.ltb_ge _ _)) by lia. by rewrite andb_false_r.
  - rewrite (proj1 (strto_digits v [] ltac:(lia) I) false eq_refl).
    rewrite !(proj2 (Z.ltb_ge _ _)) by lia. by rewrite andb_false_r.
Qed.

Lemma parseLong_dec v : - 2 ^ 63 <= v < 2 ^ 63 -> parseLong (dec_signed v) = Some (v, []).
Proof.
  intros Hv. unfold parseLong. rewrite parseLongLong_dec by done.
  by rewrite !(proj2 (Z.ltb_ge _ _)) by lia.
Qed.

Lemma parseInt_dec v : - 2 ^ 31 <= v < 2 ^ 31 -> parseInt (dec_signed v) = Some (v, []).
Proof.
  intros Hv. unfold parseInt. rewrite parseLongLong_dec by lia.
  by rewrite !(proj2 (Z.ltb_ge _ _)) by lia.
Qed.

(** ** Lines, strings and numbers *)

Lemma dec_unsigned_chars n : 0 <= n -> Forall is_digit (dec_unsigned n).
Proof. intros Hn. by destruct (dec_unsigned_spec n Hn) as (ds & -> & ? & _). Qed.

Lemma dec_unsigned_length n : 0 <= n < 2 ^ 64 -> (0 < length (dec_unsigned n) <= 20)%nat.
Proof.
  intros Hn. destruct (dec_unsigned_spec n) as (ds & -> & _ & Hne & _ & _ & _ & Hl); [lia|].
  split; [by destruct ds; [|simpl; lia]|]. apply Hl. lia.
Qed.

Lemma c_string_id s rest : Forall (fun c => c <> 0) s -> c_string (s ++ rest) = s ++ c_string rest.
Proof.
  induction 1 as [|c s Hc Hs IH]; simpl; [done|].
  by rewrite (proj2 (Z.eqb_neq c 0)), IH.
Qed.

Lemma c_string_nonzero s : Forall (fun c => c <> 0) s -> c_string s = s.
Proof. intros Hs. rewrite <- (app_nil_r s) at 1. rewrite c_string_id by done. apply app_nil_r. Qed.

Lemma find_line_spec s rest :
  Forall (fun c => c <> LF) s -> find_line (s ++ LF :: rest) = Some (s ++ [LF]).
Proof.
  induction 1 as [|c s Hc Hs IH]; simpl; [done|].
  by rewrite (proj2 (Z.eqb_neq c LF)), IH.
Qed.

Lemma find_line_none s : Forall (fun c => c <> LF) s -> find_line s = None.
Proof.
  induction 1 as [|c s Hc Hs IH]; simpl; [done|]. by rewrite (proj2 (Z.eqb_neq c LF)), IH.
Qed.

Lemma encodes_len type n :
  0 <= n < 2 ^ 64 -> type <> LF -> encodes (parse_len type) n (type :: dec_unsigned n ++ crlf).
Proof.
  intros Hn Ht. pose proof (dec_unsigned_chars n ltac:(lia)) as Hd.
  pose proof (dec_unsigned_length n Hn) as Hlen.
  assert (Forall (fun c => c <> LF) (type :: dec_unsigned n ++ [CR])) as Hnolf.
  { constructor; [done|]. apply Forall_app. split; [|by repeat constructor].
    eapply Forall_impl; [exact Hd|]. unfold is_digit, LF. intros; lia. }
  assert (type :: dec_unsigned n ++ crlf = (type :: dec_unsigned n ++ [CR]) ++ [LF]) as Hline.
  { simpl. by rewrite <- app_assoc. }
  split.
  - intros rest. unfold parse_len, next_line. rewrite Hline, <- app_assoc. simpl ([LF] ++ rest).
    rewrite find_line_spec by done. rewrite <- Hline. simpl length.
    rewrite length_app. simpl.
    rewrite (proj2 (Z.leb_le _ _)) by lia. unfold parse_len_line. rewrite Z.eqb_refl. cbn [negb].
    rewrite c_string_nonzero.
    + rewrite parseULongLong_dec by done. simpl. by rewrite length_app.
    + apply Forall_app. split; [|by repeat constructor].
      eapply Forall_impl; [exact Hd|]. unfold is_digit. intros; lia.
  - intros t u E Hu. unfold parse_len, next_line.
    rewrite find_line_none; [done|]. rewrite Hline in E.
    destruct u as [|x u' _] using rev_ind; [done|]. rewrite app_assoc in E.
    apply app_inj_tail in E as [E _]. rewrite <- E in Hnolf. by apply Forall_app in Hnolf as [? _].
Qed.

(** A string shorter than the buffer it is read into. *)
Lemma encodes_str size s :
  Z.of_nat (length s) < size -> size <= 2 ^ 31 -> Forall (fun c => c <> 0) s ->
  encodes (parse_str size) s (bulk s).
Proof.
  intros Hs Hsz Hnz. unfold bulk, dec_signed.
  rewrite (proj2 (Z.ltb_ge _ 0)) by lia.
  replace (DOLLAR :: dec_unsigned (Z.of_nat (length s)) ++ crlf ++ s ++ crlf)
    with ((DOLLAR :: dec_unsigned (Z.of_nat (length s)) ++ crlf) ++ (s ++ (crlf ++ [])))
    by (simpl; by rewrite <- app_assoc).
  unfold parse_str. eapply encodes_pbind; [apply encodes_len; [lia|done]|].
  rewrite (proj2 (Z.ltb_ge size _)) by lia.
  eapply encodes_pbind; [by apply encodes_exact|].
  eapply (encodes_pbind _ _ tt); [apply encodes_crlf|].
  rewrite take_ge by lia. rewrite c_string_nonzero by done. apply encodes_pret.
Qed.

Lemma encodes_num parse txt v rest :
  parse txt = Some (v, rest) -> (length txt < 64)%nat -> Forall (fun c => c <> 0) txt ->
  encodes (parse_num parse) v (bulk txt).
Proof.
  intros Hp Hl Hnz. unfold parse_num. rewrite <- (app_nil_r (bulk txt)).
  eapply encodes_pbind; [apply encodes_str; [lia|lia|done]|]. rewrite Hp. apply encodes_pret.
Qed.

Lemma dec_signed_ok v :
  - 2 ^ 63 <= v < 2 ^ 63 -> (length (dec_signed v) <= 21)%nat /\ Forall (fun c => c <> 0) (dec_signed v).
Proof.
  intros Hv. unfold dec_signed.
  assert (forall n, 0 <= n -> Forall (fun c => c <> 0) (dec_unsigned n)) as Hnz.
  { intros n Hn. eapply Forall_impl; [by apply dec_unsigned_chars|]. unfold is_digit. intros; lia. }
  destruct (Z.ltb_spec v 0).
  - pose proof (dec_unsigned_length (- v) ltac:(lia)). simpl. split; [lia|].
    constructor; [done|apply Hnz; lia].
  - pose proof (dec_unsigned_length v ltac:(lia)). split; [lia|apply Hnz; lia].
Qed.

Lemma encodes_long v : - 2 ^ 63 <= v < 2 ^ 63 -> encodes (parse_num parseLong) v (bulk (dec_signed v)).
Proof.
  intros Hv. destruct (dec_signed_ok v Hv). eapply encodes_num; [by apply parseLong_dec|lia|done].
Qed.

Lemma encodes_int v : - 2 ^ 31 <= v < 2 ^ 31 -> encodes (parse_num parseInt) v (bulk (dec_signed v)).
Proof.
  intros Hv. destruct (dec_signed_ok v ltac:(lia)). eapply encodes_num; [by apply parseInt_dec|lia|done].
Qed.

Lemma encodes_u64 v : 0 <= v < 2 ^ 64 -> encodes (parse_num parseULongLong) v (bulk (dec_unsigned v)).
Proof.
  intros Hv. eapply (encodes_num _ _ _ []).
  - rewrite <- (app_nil_r (dec_unsigned v)). by apply parseULongLong_dec.
  - pose proof (dec_unsigned_length v Hv). lia.
  - eapply Forall_impl; [apply dec_unsigned_chars; lia|]. unfold is_digit. intros; lia.
Qed.
