(* ===== verification/PageLog.v ===== *)
(** * Pages of the persistent log ([redisraft/src/log.c])

    The log file format and the operations on one page: a log file and its
    index file, which holds the offset of every entry.  A page is passed and
    returned; [PANIC] and a failed [RedisModule_Assert] abort. *)

From stdpp Require Import base list numbers tactics gmap strings.
From S2P Require Import Prelude RaftTypes Crc Libc File Multibulk.

Local Open Scope Z_scope.

Definition ENTRY_ELEM_COUNT : Z := 7.
Definition ENTRY_STR : list Z := bytes_of "ENTRY"%string.
Definition RAFTLOG_VERSION : Z := 1.
Definition RAFTLOG_ELEM_COUNT : Z := 7.
Definition RAFTLOG_STR : list Z := bytes_of "RAFTLOG"%string.
Definition RAFT_DBID_LEN : Z := 32.
Definition PATH_MAX : Z := 4096.

(** [struct LogPage] *)
Record LogPage := mk_LogPage {
  lp_dbid : list Z;
  lp_node_id : Z;
  lp_prev_log_term : Z;
  lp_prev_log_idx : Z;
  lp_num_entries : Z;
  lp_index : Z;
  lp_filename : list Z;
  lp_idxfilename : list Z;
  lp_file : File;
  lp_idxfile : File;
  lp_current_crc : Z
}.

#[export] Instance eta_LogPage : Eta LogPage :=
  fun p => mk_LogPage (lp_dbid p) (lp_node_id p) (lp_prev_log_term p) (lp_prev_log_idx p)
             (lp_num_entries p) (lp_index p) (lp_filename p) (lp_idxfilename p) (lp_file p)
             (lp_idxfile p) (lp_current_crc p).
#[export] Instance set_lp_dbid : Setter lp_dbid := ltac:(solve_setter).
#[export] Instance set_lp_node_id : Setter lp_node_id := ltac:(solve_setter).
#[export] Instance set_lp_prev_log_term : Setter lp_prev_log_term := ltac:(solve_setter).
#[export] Instance set_lp_prev_log_idx : Setter lp_prev_log_idx := ltac:(solve_setter).
#[export] Instance set_lp_num_entries : Setter lp_num_entries := ltac:(solve_setter).
#[export] Instance set_lp_index : Setter lp_index := ltac:(solve_setter).
#[export] Instance set_lp_filename : Setter lp_filename := ltac:(solve_setter).
#[export] Instance set_lp_idxfilename : Setter lp_idxfilename := ltac:(solve_setter).
#[export] Instance set_lp_file : Setter lp_file := ltac:(solve_setter).
#[export] Instance set_lp_idxfile : Setter lp_idxfile := ltac:(solve_setter).
#[export] Instance set_lp_current_crc : Setter lp_current_crc := ltac:(solve_setter).

(** [on_file p m]: [m(&p->file, ...)]; [on_idx]: the same on [p->idxfile]. *)
Definition on_file {A} (p : LogPage) (m : File -> M os (A * File)) : M os (A * LogPage) :=
  let* (a, f) := m (lp_file p) in ret (a, p <| lp_file := f |>).
Definition on_idx {A} (p : LogPage) (m : File -> M os (A * File)) : M os (A * LogPage) :=
  let* (a, f) := m (lp_idxfile p) in ret (a, p <| lp_idxfile := f |>).

(** The bytes of a [size_t], low byte first. *)
Fixpoint le_bytes (n : nat) (z : Z) : list Z :=
  match n with
  | O => []
  | S n => z mod 256 :: le_bytes n (z / 256)
  end.

Definition le_value (bs : list Z) : Z := foldr (fun b z => b + 256 * z) 0 bs.

(** ** Headers *)

Definition header_fields (p : LogPage) : list (Z -> option (list Z)) :=
  [multibulkWriteLen STAR RAFTLOG_ELEM_COUNT;
   multibulkWriteStr RAFTLOG_STR;
   multibulkWriteLong RAFTLOG_VERSION;
   multibulkWriteStr (lp_dbid p);
   multibulkWriteLong (lp_node_id p);
   multibulkWriteLong (lp_prev_log_term p);
   multibulkWriteLong (lp_prev_log_idx p)].

Definition pageGenerateHeader (p : LogPage) (len : Z) : option (list Z) :=
  write_all len (header_fields p).

(** [None] of a writer is a panic. *)
Definition written (w : option (list Z)) : M os (list Z) :=
  match w with Some t => ret t | None => abort end.

Definition pageTruncateFiles (p : LogPage) (offset idxoffset : Z) : M os (Z * LogPage) :=
  let* (rc, p) := on_file p (fun f => FileTruncate f offset) in
  if negb (rc =? RR_OK) then ret (RR_ERROR, p) else
  let* (rc, p) := on_idx p (fun f => FileTruncate f idxoffset) in
  if negb (rc =? RR_OK) then ret (RR_ERROR, p) else ret (RR_OK, p).

Definition pageSync (p : LogPage) (sync : bool) : M os (Z * LogPage) :=
  let* (rc, p) := on_file p FileFlush in
  if negb (rc =? RR_OK) then ret (RR_ERROR, p) else
  if sync then
    rc <- FileFsync (lp_file p) ;;
    if negb (rc =? RR_OK) then ret (RR_ERROR, p) else ret (RR_OK, p)
  else ret (RR_OK, p).

Definition pageWriteHeader (p : LogPage) : M os (Z * LogPage) :=
  buf <- written (pageGenerateHeader p 1024) ;;
  let crc := sc_crc32 0 buf in
  c <- written (multibulkWriteLong crc (1024 - Z.of_nat (length buf))) ;;
  let buf := buf ++ c in
  let fail p := let* (_, p) := pageTruncateFiles p 0 0 in ret (RR_ERROR, p) in
  let* (rc, p) := pageTruncateFiles p 0 0 in
  if negb (rc =? RR_OK) then fail p else
  let* (n, p) := on_file p (fun f => FileWrite f buf) in
  if negb (n =? Z.of_nat (length buf)) then fail p else
  let* (rc, p) := pageSync p true in
  if negb (rc =? RR_OK) then fail p else
  ret (RR_OK, p <| lp_current_crc := crc |>).

(** The values of a header: [dbid], [node_id], [prev_log_term], [prev_log_idx]
    and the checksum. *)
Definition read_header : reader (list Z * Z * Z * Z * Z) :=
  let! num_elements := multibulkReadLen STAR in
  let! str := multibulkReadStr 64 in
  let! version := multibulkReadLong in
  let! dbid := multibulkReadStr 64 in
  if negb (num_elements =? RAFTLOG_ELEM_COUNT) ||
     negb (bool_decide (take (length RAFTLOG_STR) str = RAFTLOG_STR)) ||
     negb (version =? RAFTLOG_VERSION) ||
     negb (Z.of_nat (length dbid) =? RAFT_DBID_LEN)
  then rfail else
  let! node_id := multibulkReadInt in
  let! prev_log_term := multibulkReadLong in
  let! prev_log_idx := multibulkReadLong in
  let! crc := multibulkReadLong in
  rret (dbid, node_id, prev_log_term, prev_log_idx, crc).

(** Returns the checksum read ([*read_crc]), [None] for [RR_ERROR]. *)
Definition pageReadHeader (p : LogPage) : M os (option Z * LogPage) :=
  let* (rc, p) := on_file p (fun f => FileSetReadOffset f 0) in
  if negb (rc =? RR_OK) then ret (None, p) else
  let* (h, p) := on_file p read_header in
  match h with
  | None => ret (None, p)
  | Some (dbid, node_id, prev_log_term, prev_log_idx, crc) =>
      ret (Some crc,
           p <| lp_dbid := take (Z.to_nat RAFT_DBID_LEN) dbid |>
             <| lp_node_id := node_id |>
             <| lp_prev_log_term := prev_log_term |>
             <| lp_prev_log_idx := prev_log_idx |>
             <| lp_index := prev_log_idx |>)
  end.

(** ** Entries *)

Definition entry_fields (ety : raft_entry) : list (Z -> option (list Z)) :=
  [multibulkWriteLen STAR ENTRY_ELEM_COUNT;
   multibulkWriteStr ENTRY_STR;
   multibulkWriteLong (ety_term ety);
   multibulkWriteLong (ety_id ety);
   multibulkWriteUInt64 (ety_session ety);
   multibulkWriteInt (ety_type ety);
   multibulkWriteLen DOLLAR (Z.of_nat (length (ety_data ety)))].

Definition generateEntryHeader (ety : raft_entry) (buf_len : Z) : option (list Z) :=
  write_all buf_len (entry_fields ety).

(** The running checksum behind an entry whose header is [buf]. *)
Definition entry_crc (current_crc : Z) (buf data : list Z) : Z :=
  sc_crc32 (sc_crc32 (sc_crc32 current_crc buf) data) crlf.

(** Two [FileWrite]s to one file, the second only if the first wrote all. *)
Definition write_to (p : LogPage) (buf : list Z) : M os (bool * LogPage) :=
  let* (n, p) := on_file p (fun f => FileWrite f buf) in
  ret (n =? Z.of_nat (length buf), p).

Definition pageWriteEntry (p : LogPage) (ety : raft_entry) : M os (Z * LogPage) :=
  let offset := FileSize (lp_file p) in
  let idxoffset := FileSize (lp_idxfile p) in
  let error p :=
    let* (rc, p) := pageTruncateFiles p offset idxoffset in
    c_assert (rc =? RR_OK) ;; ret (RR_ERROR, p) in
  buf <- written (generateEntryHeader ety 1024) ;;
  let* (ok, p) := write_to p buf in
  if negb ok then error p else
  let* (ok, p) := write_to p (ety_data ety) in
  if negb ok then error p else
  let* (ok, p) := write_to p crlf in
  if negb ok then error p else
  let crc := entry_crc (lp_current_crc p) buf (ety_data ety) in
  buf <- written (multibulkWriteLong crc 1024) ;;
  let* (ok, p) := write_to p buf in
  if negb ok then error p else
  let* (n, p) := on_idx p (fun f => FileWrite f (le_bytes 8 offset)) in
  if negb (n =? 8) then error p else
  ret (RR_OK, p <| lp_current_crc := crc |>).

(** The entry and its checksum. *)
Definition read_entry : reader (raft_entry * Z) :=
  let! num_elements := multibulkReadLen STAR in
  let! str := multibulkReadStr 64 in
  if negb (num_elements =? ENTRY_ELEM_COUNT) ||
     negb (bool_decide (take (length ENTRY_STR) str = ENTRY_STR))
  then rfail else
  let! term := multibulkReadLong in
  let! id := multibulkReadInt in
  let! session_id := multibulkReadUInt64 in
  let! type := multibulkReadInt in
  let! length := multibulkReadLen DOLLAR in
  let! data := read_exact length in
  let! _ := read_crlf in
  let! crc := multibulkReadLong in
  rret (mk_entry term id session_id type data, crc).

Definition pageReadEntry (p : LogPage) : M os (option (raft_entry * Z) * LogPage) :=
  on_file p read_entry.

(** ** Opening and closing *)

Definition pageFree (p : LogPage) (delete_files : bool) : M os unit :=
  FileTerm (lp_file p) ;;
  FileTerm (lp_idxfile p) ;;
  when delete_files
    (sys_unlink (lp_idxfilename p) ;;
     sys_unlink (lp_filename p) ;;
     fsyncDir).

Definition pagePrepare (filename : list Z) : M os (option LogPage) :=
  name <- path_name PATH_MAX filename ;;
  idxname <- path_name PATH_MAX (filename ++ bytes_of ".idx"%string) ;;
  let p := mk_LogPage [] 0 0 0 0 0 name idxname FileInit FileInit 0 in
  let* (rc, p) := on_file p (fun f =>
    let* (rc, _, f) := FileOpen f filename (mk_flags false true true false) in ret (rc, f)) in
  if negb (rc =? RR_OK) then pageFree p false ;; ret None else
  let* (rc, p) := on_idx p (fun f =>
    let* (rc, _, f) := FileOpen f idxname (mk_flags false true true true) in ret (rc, f)) in
  if negb (rc =? RR_OK) then pageFree p false ;; ret None else
  ret (Some p).

Definition pageCreate (filename dbid : list Z) (node_id prev_log_term prev_log_idx : Z) :
    M os (option LogPage) :=
  p <- pagePrepare filename ;;
  match p with
  | None => ret None
  | Some p =>
      let p := p <| lp_dbid := take (Z.to_nat RAFT_DBID_LEN) dbid |> <| lp_index := prev_log_idx |>
                 <| lp_prev_log_idx := prev_log_idx |> <| lp_prev_log_term := prev_log_term |>
                 <| lp_node_id := node_id |> in
      let* (rc, p) := pageWriteHeader p in
      if negb (rc =? RR_OK) then pageFree p true ;; ret None else
      fsyncDir ;; ret (Some p)
  end.

Definition pageOpen (filename : list Z) : M os (option LogPage) :=
  p <- pagePrepare filename ;;
  match p with
  | None => ret None
  | Some p =>
      let* (read_crc, p) := pageReadHeader p in
      match read_crc with
      | None => pageFree p false ;; ret None
      | Some read_crc =>
          buf <- written (pageGenerateHeader p 1024) ;;
          if negb (sc_crc32 0 buf =? read_crc) then pageFree p false ;; ret None
          else ret (Some p)
      end
  end.

(** ** Loading *)

(** The checksum differs from the one read; also the checksum computed. *)
Definition validateEntryCRC (e : raft_entry) (read_crc current_crc : Z) : M os (bool * Z) :=
  buf <- written (generateEntryHeader e 1024) ;;
  let calc_crc := entry_crc current_crc buf (ety_data e) in
  ret (negb (calc_crc =? read_crc), calc_crc).

(** The loop of [pageLoadEntries], [n] entries at most. *)
Fixpoint page_load_loop (n : nat) (p : LogPage) : M os (Z * LogPage) :=
  match n with
  | O => out_of_fuel
  | S n' =>
      let offset := FileGetReadOffset (lp_file p) in
      let* (e, p) := pageReadEntry p in
      match e with
      | None =>
          if 0 <? u64 (FileSize (lp_file p) - offset) then
            let* (rc, p) := on_file p (fun f => FileTruncate f offset) in
            c_assert (rc =? RR_OK) ;; ret (RR_OK, p)
          else ret (RR_OK, p)
      | Some (e, read_crc) =>
          let* (error, calc_crc) := validateEntryCRC e read_crc (lp_current_crc p) in
          if error : bool then
            let* (rc, p) := on_file p (fun f => FileTruncate f offset) in
            c_assert (rc =? RR_OK) ;; ret (RR_OK, p)
          else
            let p := p <| lp_current_crc := calc_crc |> <| lp_index := lp_index p + 1 |>
                       <| lp_num_entries := lp_num_entries p + 1 |> in
            let* (rc, p) := on_idx p (fun f => FileWrite f (le_bytes 8 offset)) in
            c_assert (rc =? 8) ;;
            page_load_loop n' p
      end
  end.

Definition pageLoadEntries (p : LogPage) : M os (Z * LogPage) :=
  let p := p <| lp_num_entries := 0 |> in
  let* (read_crc, p) := pageReadHeader p in
  match read_crc with
  | None => ret (RR_ERROR, p)
  | Some read_crc =>
      let p := p <| lp_current_crc := read_crc |> in
      page_load_loop (S (Z.to_nat (FileSize (lp_file p)))) p
  end.

(** ** Access *)

Definition pageAppend (p : LogPage) (entry : raft_entry) : M os (Z * LogPage) :=
  let* (rc, p) := pageWriteEntry p entry in
  if negb (rc =? RR_OK) then ret (RR_ERROR, p) else
  ret (RR_OK, p <| lp_index := lp_index p + 1 |> <| lp_num_entries := lp_num_entries p + 1 |>).

(** The offset, 0 on failure. *)
Definition pageSeekEntry (p : LogPage) (idx : Z) : M os (Z * LogPage) :=
  let idxoffset := 8 * (idx - lp_prev_log_idx p - 1) in
  if (idx <=? lp_prev_log_idx p) || (lp_prev_log_idx p + lp_num_entries p <? idx) then ret (0, p) else
  let* (rc, p) := on_idx p (fun f => FileSetReadOffset f idxoffset) in
  if negb (rc =? RR_OK) then ret (0, p) else
  let* (r, p) := on_idx p (fun f => let* (r, data, f) := FileRead f 8 in ret ((r, data), f)) in
  let '(n, data) := r in
  if negb (n =? 8) then ret (0, p) else
  let offset := le_value data in
  let* (rc, p) := on_file p (fun f => FileSetReadOffset f offset) in
  if negb (rc =? RR_OK) then ret (0, p) else ret (offset, p).

Definition pageGet (p : LogPage) (idx : Z) : M os (option raft_entry * LogPage) :=
  let* (pos, p) := pageSeekEntry p idx in
  if pos <=? 0 then ret (None, p) else
  let* (ety, p) := pageReadEntry p in
  match ety with
  | None => abort
  | Some (e, _) => ret (Some e, p)
  end.

Definition pageDelete (p : LogPage) (from_idx : Z) : M os (Z * LogPage) :=
  if (from_idx <=? lp_prev_log_idx p) || (lp_index p <? from_idx) then ret (RR_ERROR, p) else
  let count := lp_index p - from_idx + 1 in
  if count =? 0 then ret (RR_OK, p) else
  let* (offset, p) := pageSeekEntry p from_idx in
  if offset =? 0 then ret (RR_ERROR, p) else
  let relidx := from_idx - lp_prev_log_idx p - 1 in
  let* (rc, p) := pageTruncateFiles p offset (relidx * 8) in
  c_assert (rc =? RR_OK) ;;
  let p := p <| lp_num_entries := lp_num_entries p - count |> <| lp_index := lp_index p - count |> in
  if lp_num_entries p =? 0 then
    buf <- written (pageGenerateHeader p 1024) ;;
    ret (RR_OK, p <| lp_current_crc := sc_crc32 0 buf |>)
  else
    let* (pos, p) := pageSeekEntry p (lp_index p) in
    c_assert (0 <? pos) ;;
    let* (e, p) := pageReadEntry p in
    match e with
    | None => abort
    | Some (_, read_crc) => ret (RR_OK, p <| lp_current_crc := read_crc |>)
    end.
