(* ===== verification/PageCodec.v ===== *)
(** * The log file format

    The text of headers and entries that the writers of [PageLog] produce, the
    parsers its readers implement, and that a parser recognizes exactly what
    the writer wrote, and no truncation of it. *)

From stdpp Require Import base list numbers tactics gmap strings.
From S2P Require Import Prelude RaftTypes Crc Libc File Multibulk PageLog.

Local Open Scope Z_scope.

(** ** Texts *)

Definition len_text (prefix n : Z) : list Z := prefix :: dec_unsigned n ++ crlf.

Definition header_text (p : LogPage) : list Z :=
  len_text STAR RAFTLOG_ELEM_COUNT ++ bulk RAFTLOG_STR ++ bulk (dec_signed RAFTLOG_VERSION) ++
  bulk (lp_dbid p) ++ bulk (dec_signed (lp_node_id p)) ++ bulk (dec_signed (lp_prev_log_term p)) ++
  bulk (dec_signed (lp_prev_log_idx p)).

Definition entry_text (e : raft_entry) : list Z :=
  len_text STAR ENTRY_ELEM_COUNT ++ bulk ENTRY_STR ++ bulk (dec_signed (ety_term e)) ++
  bulk (dec_signed (ety_id e)) ++ bulk (dec_unsigned (ety_session e)) ++
  bulk (dec_signed (ety_type e)) ++ len_text DOLLAR (Z.of_nat (length (ety_data e))).

(** An entry of the file, and its checksum. *)
Definition entry_bytes (crc : Z) (e : raft_entry) : list Z :=
  entry_text e ++ ety_data e ++ crlf ++ bulk (dec_signed crc).

Definition next_crc (crc : Z) (e : raft_entry) : Z := entry_crc crc (entry_text e) (ety_data e).

Fixpoint entries_bytes (crc : Z) (es : list raft_entry) : list Z :=
  match es with
  | [] => []
  | e :: es => entry_bytes (next_crc crc e) e ++ entries_bytes (next_crc crc e) es
  end.

Definition last_crc (crc : Z) (es : list raft_entry) : Z := foldl next_crc crc es.

Definition header_crc (p : LogPage) : Z := sc_crc32 0 (header_text p).
Definition header_bytes (p : LogPage) : list Z := header_text p ++ bulk (dec_signed (header_crc p)).

(** The contents of the log file, and of the index file. *)
Definition page_bytes (p : LogPage) (es : list raft_entry) : list Z :=
  header_bytes p ++ entries_bytes (header_crc p) es.

Fixpoint entry_offsets (offset crc : Z) (es : list raft_entry) : list Z :=
  match es with
  | [] => []
  | e :: es =>
      offset :: entry_offsets (offset + Z.of_nat (length (entry_bytes (next_crc crc e) e))) (next_crc crc e) es
  end.

Definition page_offsets (p : LogPage) (es : list raft_entry) : list Z :=
  entry_offsets (Z.of_nat (length (header_bytes p))) (header_crc p) es.

Definition index_bytes (offsets : list Z) : list Z := mjoin (le_bytes 8 <$> offsets).

(** ** Well-formed values *)

Definition int64 (z : Z) : Prop := - 2 ^ 63 <= z < 2 ^ 63.
Definition int32 (z : Z) : Prop := - 2 ^ 31 <= z < 2 ^ 31.

Record entry_ok (e : raft_entry) : Prop := {
  eo_term : int64 (ety_term e);
  eo_id : int32 (ety_id e);
  eo_session : 0 <= ety_session e < 2 ^ 64;
  eo_type : int32 (ety_type e);
  eo_len : Z.of_nat (length (ety_data e)) < 2 ^ 62;
  eo_data : Forall is_byte (ety_data e)
}.

Record header_ok (p : LogPage) : Prop := {
  ho_dbid : Z.of_nat (length (lp_dbid p)) = RAFT_DBID_LEN;
  ho_chars : Forall (fun c => 0 < c < 256) (lp_dbid p);
  ho_node_id : int32 (lp_node_id p);
  ho_term : int64 (lp_prev_log_term p);
  ho_idx : 0 <= lp_prev_log_idx p < 2 ^ 62
}.

(** ** Writers *)

Lemma safesnprintf_fits size text :
  Z.of_nat (length text) < size -> safesnprintf size text = Some text.
Proof. intros H. unfold safesnprintf. by rewrite (proj2 (Z.leb_gt _ _)). Qed.

(** A writer that produces [t] wherever it has room. *)
Definition writes (w : Z -> option (list Z)) (t : list Z) : Prop :=
  forall cap, Z.of_nat (length t) < cap -> w cap = Some t.

Lemma writes_long v : writes (multibulkWriteLong v) (bulk (dec_signed v)).
Proof. intros cap H. by apply safesnprintf_fits. Qed.
Lemma writes_u64 v : writes (multibulkWriteUInt64 v) (bulk (dec_unsigned v)).
Proof. intros cap H. by apply safesnprintf_fits. Qed.
Lemma writes_str v : writes (multibulkWriteStr v) (bulk v).
Proof. intros cap H. by apply safesnprintf_fits. Qed.
Lemma writes_len prefix n : writes (multibulkWriteLen prefix n) (len_text prefix n).
Proof. intros cap H. by apply safesnprintf_fits. Qed.

Lemma write_all_writes ws ts :
  Forall2 writes ws ts -> forall cap, Z.of_nat (length (mjoin ts)) < cap -> write_all cap ws = Some (mjoin ts).
Proof.
  induction 1 as [|w t ws ts Hw Hws IH]; intros cap Hc; simpl; [done|].
  simpl in Hc. rewrite length_app in Hc. rewrite Hw by lia. rewrite IH by lia. done.
Qed.

(** ** Lengths *)

Lemma bulk_length t :
  Z.of_nat (length t) < 2 ^ 62 ->
  Z.of_nat (length (bulk t)) <= Z.of_nat (length t) + 25.
Proof.
  intros Ht. unfold bulk, dec_signed. rewrite (proj2 (Z.ltb_ge (Z.of_nat (length t)) 0)) by lia.
  pose proof (dec_unsigned_length (Z.of_nat (length t)) ltac:(lia)).
  simpl. rewrite !length_app. simpl. rewrite length_app. simpl. lia.
Qed.

Lemma bulk_signed_length v : int64 v -> Z.of_nat (length (bulk (dec_signed v))) <= 46.
Proof.
  intros Hv. pose proof (proj1 (dec_signed_ok v Hv)).
  pose proof (bulk_length (dec_signed v) ltac:(lia)). lia.
Qed.

Lemma bulk_unsigned_length v : 0 <= v < 2 ^ 64 -> Z.of_nat (length (bulk (dec_unsigned v))) <= 45.
Proof.
  intros Hv. pose proof (dec_unsigned_length v Hv).
  pose proof (bulk_length (dec_unsigned v) ltac:(lia)). lia.
Qed.

Lemma len_text_length prefix n : 0 <= n < 2 ^ 64 -> Z.of_nat (length (len_text prefix n)) <= 23.
Proof.
  intros Hn. unfold len_text. simpl. rewrite length_app. simpl.
  pose proof (dec_unsigned_length n Hn). lia.
Qed.

Lemma header_text_length p : header_ok p -> Z.of_nat (length (header_text p)) < 512.
Proof.
  intros []. unfold header_text. rewrite !length_app.
  pose proof (len_text_length STAR RAFTLOG_ELEM_COUNT ltac:(done)).
  pose proof (bulk_length (lp_dbid p) ltac:(unfold RAFT_DBID_LEN in *; lia)).
  pose proof (bulk_signed_length (lp_node_id p) ltac:(unfold int32, int64 in *; lia)).
  pose proof (bulk_signed_length (lp_prev_log_term p) ltac:(done)).
  pose proof (bulk_signed_length (lp_prev_log_idx p) ltac:(unfold int64; lia)).
  change (length (bulk RAFTLOG_STR)) with 13%nat.
  change (length (bulk (dec_signed RAFTLOG_VERSION))) with 7%nat.
  unfold RAFT_DBID_LEN in *. lia.
Qed.

Lemma entry_text_length e : entry_ok e -> Z.of_nat (length (entry_text e)) < 512.
Proof.
  intros []. unfold entry_text. rewrite !length_app.
  pose proof (len_text_length STAR ENTRY_ELEM_COUNT ltac:(done)).
  pose proof (bulk_signed_length (ety_term e) ltac:(done)).
  pose proof (bulk_signed_length (ety_id e) ltac:(unfold int32, int64 in *; lia)).
  pose proof (bulk_unsigned_length (ety_session e) ltac:(done)).
  pose proof (bulk_signed_length (ety_type e) ltac:(unfold int32, int64 in *; lia)).
  pose proof (len_text_length DOLLAR (Z.of_nat (length (ety_data e))) ltac:(lia)).
  change (length (bulk ENTRY_STR)) with 11%nat. lia.
Qed.

(** The writers' buffers of 1024 bytes are large enough. *)
Lemma pageGenerateHeader_text p : header_ok p -> pageGenerateHeader p 1024 = Some (header_text p).
Proof.
  intros Hp. pose proof (header_text_length p Hp) as Hl. unfold pageGenerateHeader.
  assert (header_text p = mjoin [len_text STAR RAFTLOG_ELEM_COUNT; bulk RAFTLOG_STR;
    bulk (dec_signed RAFTLOG_VERSION); bulk (lp_dbid p); bulk (dec_signed (lp_node_id p));
    bulk (dec_signed (lp_prev_log_term p)); bulk (dec_signed (lp_prev_log_idx p))]) as E.
  { cbn [mjoin list_join]. by rewrite app_nil_r. }
  rewrite E in *. apply write_all_writes; [|lia].
  repeat constructor; first [apply writes_len | apply writes_str | apply writes_long].
Qed.

Lemma generateEntryHeader_text e : entry_ok e -> generateEntryHeader e 1024 = Some (entry_text e).
Proof.
  intros He. pose proof (entry_text_length e He) as Hl. unfold generateEntryHeader.
  assert (entry_text e = mjoin [len_text STAR ENTRY_ELEM_COUNT; bulk ENTRY_STR;
    bulk (dec_signed (ety_term e)); bulk (dec_signed (ety_id e)); bulk (dec_unsigned (ety_session e));
    bulk (dec_signed (ety_type e)); len_text DOLLAR (Z.of_nat (length (ety_data e)))]) as E.
  { cbn [mjoin list_join]. by rewrite app_nil_r. }
  rewrite E in *. apply write_all_writes; [|lia].
  repeat constructor; first [apply writes_len | apply writes_str | apply writes_long | apply writes_u64].
Qed.

(** ** Checksums are 32-bit *)

Lemma is_byte_app a b : Forall is_byte (a ++ b) <-> Forall is_byte a /\ Forall is_byte b.
Proof. apply Forall_app. Qed.

Lemma is_byte_dec n : 0 <= n -> Forall is_byte (dec_unsigned n).
Proof.
  intros Hn. eapply Forall_impl; [by apply dec_unsigned_chars|]. unfold is_digit, is_byte. intros; lia.
Qed.

Lemma is_byte_crlf : Forall is_byte crlf.
Proof. repeat constructor; unfold CR, LF; lia. Qed.

Lemma is_byte_signed v : Forall is_byte (dec_signed v).
Proof.
  unfold dec_signed. destruct (Z.ltb_spec v 0); [|by apply is_byte_dec].
  constructor; [unfold is_byte; lia|]. apply is_byte_dec. lia.
Qed.

Lemma is_byte_bulk t : Forall is_byte t -> Forall is_byte (bulk t).
Proof.
  intros Ht. unfold bulk. constructor; [unfold is_byte, DOLLAR; lia|].
  repeat (apply Forall_app; split); auto using is_byte_crlf, is_byte_signed.
Qed.

Lemma is_byte_len prefix n : is_byte prefix -> 0 <= n -> Forall is_byte (len_text prefix n).
Proof.
  intros Hp Hn. constructor; [done|]. apply Forall_app. split; [by apply is_byte_dec|apply is_byte_crlf].
Qed.

Lemma is_byte_header p : header_ok p -> Forall is_byte (header_text p).
Proof.
  intros []. unfold header_text.
  repeat (apply Forall_app; split); auto using is_byte_bulk, is_byte_signed.
  - apply is_byte_len; [unfold is_byte, STAR; lia|done].
  - apply is_byte_bulk. apply (bool_decide_unpack _). vm_compute. exact I.
  - apply is_byte_bulk. eapply Forall_impl; [exact ho_chars0|]. unfold is_byte. intros; lia.
Qed.

Lemma is_byte_entry e : entry_ok e -> Forall is_byte (entry_text e).
Proof.
  intros []. unfold entry_text.
  repeat (apply Forall_app; split); auto using is_byte_bulk, is_byte_signed.
  - apply is_byte_len; [unfold is_byte, STAR; lia|done].
  - apply is_byte_bulk. apply (bool_decide_unpack _). vm_compute. exact I.
  - apply is_byte_bulk, is_byte_dec. lia.
  - apply is_byte_len; [unfold is_byte, DOLLAR; lia|lia].
Qed.

Lemma sc_crc32_bound crc buf :
  0 <= crc < 2 ^ 32 -> Forall is_byte buf -> 0 <= sc_crc32 crc buf < 2 ^ 32.
Proof.
  intros Hc Hb. unfold sc_crc32. rewrite crc32_sw_le_spec by done.
  apply not32_bound, (crc_fold_bound buf Hb). by apply not32_bound.
Qed.

Lemma header_crc_bound p : header_ok p -> 0 <= header_crc p < 2 ^ 32.
Proof. intros Hp. apply sc_crc32_bound; [lia|by apply is_byte_header]. Qed.

Lemma next_crc_bound crc e : 0 <= crc < 2 ^ 32 -> entry_ok e -> 0 <= next_crc crc e < 2 ^ 32.
Proof.
  intros Hc He. unfold next_crc, entry_crc.
  repeat (apply sc_crc32_bound); [done|by apply is_byte_entry|apply He|apply is_byte_crlf].
Qed.

Lemma last_crc_bound es : Forall entry_ok es -> forall crc, 0 <= crc < 2 ^ 32 -> 0 <= last_crc crc es < 2 ^ 32.
Proof.
  induction 1 as [|e es He Hes IH]; intros crc Hc; [done|]. apply IH. by apply next_crc_bound.
Qed.

(** ** Parsers *)

Definition parse_header : parser (list Z * Z * Z * Z * Z) :=
  pbind (parse_len STAR) (fun num_elements =>
  pbind (parse_str 64) (fun str =>
  pbind (parse_num parseLong) (fun version =>
  pbind (parse_str 64) (fun dbid =>
  if negb (num_elements =? RAFTLOG_ELEM_COUNT) ||
     negb (bool_decide (take (length RAFTLOG_STR) str = RAFTLOG_STR)) ||
     negb (version =? RAFTLOG_VERSION) ||
     negb (Z.of_nat (length dbid) =? RAFT_DBID_LEN)
  then pfail else
  pbind (parse_num parseInt) (fun node_id =>
  pbind (parse_num parseLong) (fun prev_log_term =>
  pbind (parse_num parseLong) (fun prev_log_idx =>
  pbind (parse_num parseLong) (fun crc =>
  pret (dbid, node_id, prev_log_term, prev_log_idx, crc))))))))).

Definition parse_entry : parser (raft_entry * Z) :=
  pbind (parse_len STAR) (fun num_elements =>
  pbind (parse_str 64) (fun str =>
  if negb (num_elements =? ENTRY_ELEM_COUNT) ||
     negb (bool_decide (take (length ENTRY_STR) str = ENTRY_STR))
  then pfail else
  pbind (parse_num parseLong) (fun term =>
  pbind (parse_num parseInt) (fun id =>
  pbind (parse_num parseULongLong) (fun session_id =>
  pbind (parse_num parseInt) (fun type =>
  pbind (parse_len DOLLAR) (fun length =>
  pbind (parse_exact length) (fun data =>
  pbind parse_crlf (fun _ =>
  pbind (parse_num parseLong) (fun crc =>
  pret (mk_entry term id session_id type data, crc))))))))))).

Lemma read_header_implements : implements read_header parse_header.
Proof. unfold read_header, parse_header. readers. Qed.

Lemma read_entry_implements : implements read_entry parse_entry.
Proof.
  unfold read_entry, parse_entry. readers.
  apply read_exact_implements. by eapply parse_len_nonneg.
Qed.

Lemma encodes_header p :
  header_ok p ->
  encodes parse_header (lp_dbid p, lp_node_id p, lp_prev_log_term p, lp_prev_log_idx p, header_crc p)
    (header_bytes p).
Proof.
  intros Hp. pose proof (header_crc_bound p Hp) as Hcrc. destruct Hp as [Hd Hch Hn Ht Hi].
  unfold header_bytes, header_text. rewrite <- !app_assoc.
  eapply encodes_pbind; [by apply encodes_len|].
  eapply encodes_pbind; [by apply encodes_str; [..|apply (bool_decide_unpack _); vm_compute; exact I]|].
  eapply encodes_pbind; [by apply encodes_long|].
  eapply encodes_pbind.
  { apply encodes_str; [unfold RAFT_DBID_LEN in Hd; lia|done|].
    eapply Forall_impl; [exact Hch|]. cbn. intros; lia. }
  rewrite Hd, !Z.eqb_refl. rewrite bool_decide_eq_true_2 by done. cbn [negb orb].
  eapply encodes_pbind; [by apply encodes_int|].
  eapply encodes_pbind; [by apply encodes_long|].
  eapply encodes_pbind; [apply encodes_long; lia|].
  rewrite <- (app_nil_r (bulk (dec_signed (header_crc p)))).
  eapply encodes_pbind; [apply encodes_long; lia|]. apply encodes_pret.
Qed.

Lemma encodes_entry crc e :
  0 <= crc < 2 ^ 32 -> entry_ok e -> encodes parse_entry (e, crc) (entry_bytes crc e).
Proof.
  intros Hcrc [Ht Hid Hs Hty Hl Hdata]. unfold entry_bytes, entry_text. rewrite <- !app_assoc.
  eapply encodes_pbind; [by apply encodes_len|].
  eapply encodes_pbind; [by apply encodes_str; [..|apply (bool_decide_unpack _); vm_compute; exact I]|].
  rewrite Z.eqb_refl. rewrite bool_decide_eq_true_2 by done. cbn [negb orb].
  eapply encodes_pbind; [by apply encodes_long|].
  eapply encodes_pbind; [by apply encodes_int|].
  eapply encodes_pbind; [by apply encodes_u64|].
  eapply encodes_pbind; [by apply encodes_int|].
  eapply encodes_pbind; [apply encodes_len; [lia|done]|].
  eapply encodes_pbind; [by apply encodes_exact|].
  eapply (encodes_pbind _ _ tt); [apply encodes_crlf|].
  rewrite <- (app_nil_r (bulk (dec_signed crc))).
  eapply encodes_pbind; [apply encodes_long; lia|]. destruct e. apply encodes_pret.
Qed.
