(* ===== verification/PageSpec.v ===== *)
(** * Correctness of the pages of the log

    What the operations of [PageLog] do to the entries a page holds, for every
    behaviour of the kernel: an append that fails leaves the page as it was, and a
    lookup never returns a wrong entry. *)

From stdpp Require Import base list numbers tactics gmap strings.
From S2P Require Import Prelude RaftTypes Crc Libc File Multibulk PageLog PageCodec.

Local Open Scope Z_scope.

(** [x ∉ l] for a concrete list. *)
Ltac not_in := rewrite ?not_elem_of_cons; split_and?; try done; try apply not_elem_of_nil.

(** ** Frames *)

(** A change of the kernel that concerns descriptors [F] and inodes [I] only. *)
Record touches (F I : list Z) (o o' : os) : Prop := {
  to_names : os_names o' = os_names o;
  to_next : os_next o' = os_next o;
  to_fds fd : fd ∉ F -> os_fds o' !! fd = os_fds o !! fd;
  to_inodes i : i ∉ I -> os_inodes o' !! i = os_inodes o !! i;
  to_plan : no_faults o -> no_faults o'
}.

#[export] Instance touches_preorder F I : PreOrder (touches F I).
Proof.
  split.
  - by constructor.
  - intros o1 o2 o3 [] []. constructor; try congruence; try eauto.
    + intros. rewrite to_fds1 by done. eauto.
    + intros. rewrite to_inodes1 by done. eauto.
Qed.

Lemma only_touches F I fd i o o' : only fd i o o' -> fd ∈ F -> i ∈ I -> touches F I o o'.
Proof.
  intros [] Hf Hi. constructor; try done.
  - intros fd' Hn. apply only_fds. by intros ->.
  - intros i' Hn. apply only_inodes. by intros ->.
Qed.

Lemma touches_lookup F I o o' fd i pos d :
  touches F I o o' -> fd ∉ F -> i ∉ I -> fd_lookup o fd = Some (i, pos, d) ->
  fd_lookup o' fd = Some (i, pos, d).
Proof.
  intros [] Hf Hi. unfold fd_lookup. rewrite to_fds0 by done.
  destruct (os_fds o !! fd) as [[i1 p1]|]; [|done].
  destruct (os_inodes o !! i1) as [d1|] eqn:E; [|done]. intros ?; simplify_eq.
  by rewrite to_inodes0, E.
Qed.

Lemma file_ok_touches F I o o' f i c :
  touches F I o o' -> f_fd f ∉ F -> i ∉ I -> file_ok o f i c -> file_ok o' f i c.
Proof.
  intros Ht Hf Hi [(pos & d & Hl & ->) ? ? ?]. constructor; try done.
  exists pos, d. split; [|done]. by eapply touches_lookup.
Qed.

(** ** The two files of a page *)

Record two_files (o : os) (i j : Z) (p : LogPage) (c ci : list Z) : Prop := {
  tf_file : file_ok o (lp_file p) i c;
  tf_idx : file_ok o (lp_idxfile p) j ci;
  tf_fds : f_fd (lp_file p) <> f_fd (lp_idxfile p);
  tf_inodes : i <> j
}.

(** The descriptors and inodes of a page. *)
Definition page_fds (p : LogPage) : list Z := [f_fd (lp_file p); f_fd (lp_idxfile p)].

Lemma two_files_set_file o o' i j p c c' ci f :
  two_files o i j p c ci -> only (f_fd (lp_file p)) i o o' -> f_fd f = f_fd (lp_file p) ->
  file_ok o' f i c' -> two_files o' i j (p <| lp_file := f |>) c' ci.
Proof.
  intros [] Ho Hfd Hf. constructor; cbn; [done| |congruence|done].
  eapply file_ok_only; eauto.
Qed.

Lemma two_files_set_idx o o' i j p c ci ci' f :
  two_files o i j p c ci -> only (f_fd (lp_idxfile p)) j o o' -> f_fd f = f_fd (lp_idxfile p) ->
  file_ok o' f j ci' -> two_files o' i j (p <| lp_idxfile := f |>) c ci'.
Proof.
  intros [] Ho Hfd Hf. constructor; cbn; [|done|congruence|done].
  eapply file_ok_only; eauto.
Qed.

Lemma on_file_done {A} p (m : File -> M os (A * File)) o a f o' :
  m (lp_file p) o = Done ((a, f), o') -> on_file p m o = Done ((a, p <| lp_file := f |>), o').
Proof. intros H. unfold on_file. by run_step H. Qed.

Lemma on_idx_done {A} p (m : File -> M os (A * File)) o a f o' :
  m (lp_idxfile p) o = Done ((a, f), o') -> on_idx p m o = Done ((a, p <| lp_idxfile := f |>), o').
Proof. intros H. unfold on_idx. by run_step H. Qed.

(** Pages that differ in their files only. *)
Definition same_page (p p' : LogPage) : Prop :=
  exists f g, p' = p <| lp_file := f |> <| lp_idxfile := g |> /\
    f_fd f = f_fd (lp_file p) /\ f_fd g = f_fd (lp_idxfile p).

#[export] Instance same_page_preorder : PreOrder same_page.
Proof.
  split.
  - intros p. exists (lp_file p), (lp_idxfile p). split; [by destruct p|done].
  - intros p1 p2 p3 (f & g & -> & Hf & Hg) (f' & g' & -> & Hf' & Hg'). exists f', g'.
    cbn in *. split; [done|]. split; congruence.
Qed.

Lemma same_page_file p f : f_fd f = f_fd (lp_file p) -> same_page p (p <| lp_file := f |>).
Proof. intros H. exists f, (lp_idxfile p). split; [by destruct p|done]. Qed.

Lemma same_page_idx p f : f_fd f = f_fd (lp_idxfile p) -> same_page p (p <| lp_idxfile := f |>).
Proof. intros H. exists (lp_file p), f. split; [by destruct p|done]. Qed.

Lemma same_page_fds p p' : same_page p p' -> page_fds p' = page_fds p.
Proof. intros (f & g & -> & Hf & Hg). unfold page_fds. cbn. congruence. Qed.

(** Pages of the same files and header. *)
Record same_ident (p p' : LogPage) : Prop := {
  si_fds : page_fds p' = page_fds p;
  si_header : header_text p' = header_text p;
  si_prev : lp_prev_log_idx p' = lp_prev_log_idx p;
  si_name : lp_filename p' = lp_filename p;
  si_idxname : lp_idxfilename p' = lp_idxfilename p;
  si_dbid : lp_dbid p' = lp_dbid p;
  si_node_id : lp_node_id p' = lp_node_id p
}.

#[export] Instance same_ident_preorder : PreOrder same_ident.
Proof. split; [by constructor|]. intros p1 p2 p3 [] []. constructor; congruence. Qed.

Lemma same_page_ident p p' : same_page p p' -> same_ident p p'.
Proof. intros Hs. pose proof (same_page_fds _ _ Hs). by destruct Hs as (f & g & -> & _). Qed.

Lemma only_page_file p j i o o' : only (f_fd (lp_file p)) i o o' -> touches (page_fds p) [i; j] o o'.
Proof. intros H. eapply only_touches; [exact H|by left|by left]. Qed.

Lemma only_page_idx p j i o o' : only (f_fd (lp_idxfile p)) j o o' -> touches (page_fds p) [i; j] o o'.
Proof. intros H. eapply only_touches; [exact H|right; by left|right; by left]. Qed.

(** Cutting both files back. *)
Lemma pageTruncateFiles_spec o i j p c ci x y :
  two_files o i j p (c ++ x) (ci ++ y) ->
  exists rc p' o', pageTruncateFiles p (Z.of_nat (length c)) (Z.of_nat (length ci)) o
      = Done ((rc, p'), o') /\ touches (page_fds p) [i; j] o o' /\ same_page p p' /\
    ((rc = RR_OK /\ two_files o' i j p' c ci) \/
     (rc = RR_ERROR /\ ~ no_faults o /\ exists c' ci', two_files o' i j p' c' ci')).
Proof.
  intros Ht. unfold pageTruncateFiles.
  destruct (FileTruncate_spec _ _ _ _ (Z.of_nat (length c)) (tf_file _ _ _ _ _ _ Ht))
    as (rc & f & o1 & Hrun & Ho & Hfd & Hres); [rewrite length_app; lia|].
  rewrite (bind_done_eq _ _ _ _ _ (on_file_done p _ _ _ _ _ Hrun)). cbv beta iota.
  pose proof (same_page_file p f Hfd) as Hs1.
  destruct Hres as [[-> Hf]|(-> & Hnf & Hf)]; cbn [negb Z.eqb RR_OK RR_ERROR].
  2: { eexists _, _, o1. split; [reflexivity|]. split; [by apply only_page_file|].
       split; [done|]. right. split_and!; [done..|]. eexists _, _. by eapply two_files_set_file. }
  rewrite Nat2Z.id, take_app_length in Hf.
  pose proof (two_files_set_file _ _ _ _ _ _ _ _ _ Ht Ho Hfd Hf) as Ht1.
  destruct (FileTruncate_spec _ _ _ _ (Z.of_nat (length ci)) (tf_idx _ _ _ _ _ _ Ht1))
    as (rc & g & o2 & Hrun2 & Ho2 & Hfd2 & Hres2); [rewrite length_app; lia|].
  rewrite (bind_done_eq _ _ _ _ _ (on_idx_done _ _ _ _ _ _ Hrun2)). cbv beta iota.
  assert (touches (page_fds p) [i; j] o o2) as Hto.
  { etrans; [by apply only_page_file|]. rewrite <- (same_page_fds _ _ Hs1). by apply only_page_idx. }
  assert (same_page p (p <| lp_file := f |> <| lp_idxfile := g |>)) as Hs2.
  { etrans; [exact Hs1|]. by apply same_page_idx. }
  destruct Hres2 as [[-> Hg]|(-> & Hnf & Hg)]; cbn [negb Z.eqb RR_OK RR_ERROR];
    eexists _, _, o2; (split; [reflexivity|]); (split; [done|]); (split; [exact Hs2|]).
  - left. split; [done|]. rewrite Nat2Z.id, take_app_length in Hg.
    by eapply two_files_set_idx.
  - right. split; [done|]. split; [intros Hx; apply Hnf, Ho, Hx|].
    eexists _, _. by eapply two_files_set_idx.
Qed.

Lemma write_to_spec o i j p c ci buf :
  two_files o i j p c ci ->
  exists b p' o', write_to p buf o = Done ((b, p'), o') /\ touches (page_fds p) [i; j] o o' /\
    same_page p p' /\
    ((b = true /\ two_files o' i j p' (c ++ buf) ci) \/
     (b = false /\ ~ no_faults o /\ exists x, two_files o' i j p' (c ++ x) ci)).
Proof.
  intros Ht. unfold write_to.
  destruct (FileWrite_spec _ _ _ _ buf (tf_file _ _ _ _ _ _ Ht)) as (r & f & o1 & Hrun & Ho & Hfd & Hres).
  rewrite (bind_done_eq _ _ _ _ _ (on_file_done p _ _ _ _ _ Hrun)). cbv beta iota.
  eexists _, _, o1. split; [reflexivity|]. split; [by apply only_page_file|].
  split; [by apply same_page_file|].
  destruct Hres as [[-> Hf]|(-> & Hnf & k & Hf)].
  - left. split; [apply Z.eqb_refl|]. by eapply two_files_set_file.
  - right. split; [apply Z.eqb_neq; lia|]. split; [done|]. exists (take k buf). by eapply two_files_set_file.
Qed.

(** ** Appending *)

Section Attempt.
Context (o : os) (i j : Z) (p : LogPage) (c ci : list Z) (good : LogPage -> os -> Prop).

(** Either the operation succeeds, or it fails and the files are as before, or
    undoing the partial write fails as well and the process stops. *)
Definition attempt (run : outcome ((Z * LogPage) * os)) : Prop :=
  (exists p' o', run = Done ((RR_OK, p'), o') /\ touches (page_fds p) [i; j] o o' /\ good p' o') \/
  (exists p' o', run = Done ((RR_ERROR, p'), o') /\ ~ no_faults o /\
     touches (page_fds p) [i; j] o o' /\ same_page p p' /\ two_files o' i j p' c ci) \/
  (run = Abort /\ ~ no_faults o).

(** The [error:] label. *)
Definition undo (p : LogPage) : M os (Z * LogPage) :=
  let* (rc, p) := pageTruncateFiles p (Z.of_nat (length c)) (Z.of_nat (length ci)) in
  c_assert (rc =? RR_OK) ;; ret (RR_ERROR, p).

Lemma attempt_undo o1 p1 x y :
  ~ no_faults o -> touches (page_fds p) [i; j] o o1 -> same_page p p1 ->
  two_files o1 i j p1 (c ++ x) (ci ++ y) -> attempt (undo p1 o1).
Proof.
  intros Hnf Hto Hs Ht. unfold undo.
  destruct (pageTruncateFiles_spec _ _ _ _ _ _ _ _ Ht) as (rc & p2 & o2 & Hrun & Hto2 & Hs2 & Hres).
  rewrite (bind_done_eq _ _ _ _ _ Hrun). cbv beta iota.
  destruct Hres as [[-> Ht2]|[-> _]].
  - right. left. eexists _, _. split; [reflexivity|]. split; [done|].
    rewrite (same_page_fds _ _ Hs) in Hto2. split; [by etrans|]. split; [by etrans|done].
  - right. right. done.
Qed.

Lemma attempt_write o1 p1 x buf k :
  touches (page_fds p) [i; j] o o1 -> same_page p p1 -> two_files o1 i j p1 (c ++ x) ci ->
  (forall o2 p2, touches (page_fds p) [i; j] o o2 -> same_page p p2 ->
     two_files o2 i j p2 (c ++ x ++ buf) ci -> attempt (k p2 o2)) ->
  attempt ((let* (ok, p) := write_to p1 buf in if negb ok then undo p else k p) o1).
Proof.
  intros Hto Hs Ht Hk.
  destruct (write_to_spec _ _ _ _ _ _ buf Ht) as (b & p2 & o2 & Hrun & Hto2 & Hs2 & Hres).
  rewrite (bind_done_eq _ _ _ _ _ Hrun). cbv beta iota.
  rewrite (same_page_fds _ _ Hs) in Hto2.
  destruct Hres as [[-> Ht2]|(-> & Hnf & y & Ht2)]; cbn [negb].
  - apply Hk; [by etrans|by etrans|]. by rewrite app_assoc.
  - rewrite <- app_assoc in Ht2. apply (attempt_undo _ _ (x ++ y) []).
    + intros Hx. by apply Hnf, Hto.
    + by etrans.
    + by etrans.
    + by rewrite app_nil_r.
Qed.

End Attempt.

(** ** The entries of a page *)

Record page_st (o : os) (i j : Z) (p : LogPage) (es : list raft_entry) (crc : Z) : Prop := {
  po_files : two_files o i j p (page_bytes p es) (index_bytes (page_offsets p es));
  po_header : header_ok p;
  po_entries : Forall entry_ok es;
  po_num : lp_num_entries p = Z.of_nat (length es);
  po_index : lp_index p = lp_prev_log_idx p + Z.of_nat (length es);
  po_crc : lp_current_crc p = crc
}.

(** Between calls the running checksum is that of the last entry. *)
Abbreviation page_ok o i j p es := (page_st o i j p es (last_crc (header_crc p) es)).

Lemma same_page_ok o o' i j p p' es crc :
  page_st o i j p es crc -> same_page p p' ->
  two_files o' i j p' (page_bytes p es) (index_bytes (page_offsets p es)) -> page_st o' i j p' es crc.
Proof.
  intros [Hf Hh He Hn Hx Hc] (f & g & -> & _) Ht. constructor; try done. destruct Hh. by constructor.
Qed.

Lemma same_page_crc p p' : same_page p p' -> header_crc p' = header_crc p.
Proof. by intros (f & g & -> & _). Qed.

Lemma page_ok_touches F I o o' i j p es :
  touches F I o o' -> f_fd (lp_file p) ∉ F -> f_fd (lp_idxfile p) ∉ F -> i ∉ I -> j ∉ I ->
  page_ok o i j p es -> page_ok o' i j p es.
Proof.
  intros Ht Hf Hg Hi Hj [[Hff Hgg ? ?] Hh He Hn Hx Hc]. constructor; try done.
  constructor; try done; by eapply file_ok_touches.
Qed.

Lemma entries_bytes_snoc crc es e :
  entries_bytes crc (es ++ [e]) =
    entries_bytes crc es ++ entry_bytes (next_crc (last_crc crc es) e) e.
Proof.
  revert crc. induction es as [|e0 es IH]; intros crc; cbn [entries_bytes app].
  { rewrite app_nil_r. done. }
  rewrite IH, <- app_assoc. done.
Qed.

Lemma entry_offsets_snoc es e : forall off crc,
  entry_offsets off crc (es ++ [e]) =
    entry_offsets off crc es ++ [off + Z.of_nat (length (entries_bytes crc es))].
Proof.
  induction es as [|e0 es IH]; intros off crc; cbn [entry_offsets entries_bytes app].
  { by rewrite Z.add_0_r. }
  rewrite IH, length_app. cbn [app]. do 3 f_equal. lia.
Qed.

Lemma page_offsets_snoc p es e :
  page_offsets p (es ++ [e]) = page_offsets p es ++ [Z.of_nat (length (page_bytes p es))].
Proof.
  unfold page_offsets, page_bytes. rewrite entry_offsets_snoc, length_app. do 2 f_equal. lia.
Qed.

Lemma index_bytes_snoc offs off : index_bytes (offs ++ [off]) = index_bytes offs ++ le_bytes 8 off.
Proof.
  unfold index_bytes. rewrite fmap_app, join_app. cbn [mjoin list_join fmap list_fmap].
  by rewrite app_nil_r.
Qed.

Lemma le_bytes_length n z : length (le_bytes n z) = n.
Proof. revert z. induction n as [|n IH]; intros z; simpl; [done|]. by rewrite IH. Qed.

Lemma le_value_bytes n : forall z, 0 <= z < 256 ^ Z.of_nat n -> le_value (le_bytes n z) = z.
Proof.
  induction n as [|n IH]; intros z Hz; [simpl in *; lia|].
  cbn [le_bytes le_value foldr]. change (foldr _ 0 ?l) with (le_value l).
  rewrite Nat2Z.inj_succ, Z.pow_succ_r in Hz by lia.
  pose proof (Z.div_mod z 256 ltac:(lia)). rewrite IH; [lia|].
  split; [apply Z.div_pos; lia|]. apply Z.div_lt_upper_bound; lia.
Qed.

(** The checksum fields fit in the buffer. *)
Lemma write_crc_fits crc cap :
  0 <= crc < 2 ^ 32 -> 46 < cap -> multibulkWriteLong crc cap = Some (bulk (dec_signed crc)).
Proof.
  intros Hc Hcap. apply writes_long. pose proof (bulk_signed_length crc ltac:(unfold int64; lia)). lia.
Qed.

(** [pageAppend] adds the entry, or fails and leaves the page as it was. *)
Lemma pageAppend_spec o i j p es e :
  page_ok o i j p es -> entry_ok e ->
  (exists p' o', pageAppend p e o = Done ((RR_OK, p'), o') /\ touches (page_fds p) [i; j] o o' /\
     same_ident p p' /\ page_ok o' i j p' (es ++ [e])) \/
  (exists p' o', pageAppend p e o = Done ((RR_ERROR, p'), o') /\ ~ no_faults o /\
     touches (page_fds p) [i; j] o o' /\ same_page p p' /\ page_ok o' i j p' es) \/
  (pageAppend p e o = Abort /\ ~ no_faults o).
Proof.
  intros Hp He. pose proof Hp as [Hf Hh Hes Hn Hx Hc].
  set (c := page_bytes p es) in *. set (ci := index_bytes (page_offsets p es)) in *.
  set (crc := next_crc (last_crc (header_crc p) es) e).
  assert (0 <= last_crc (header_crc p) es < 2 ^ 32) as Hlast
    by (apply last_crc_bound; [done|by apply header_crc_bound]).
  assert (0 <= crc < 2 ^ 32) as Hcrc by (by apply next_crc_bound).
  assert (attempt o i j p c ci
    (fun p' o' => exists p1, same_page p p1 /\ p' = p1 <| lp_current_crc := crc |> /\
       two_files o' i j p1 (c ++ entry_bytes crc e) (ci ++ le_bytes 8 (Z.of_nat (length c))))
    (pageWriteEntry p e o)) as Hw.
  { unfold pageWriteEntry, FileSize.
    rewrite (fo_size _ _ _ _ (tf_file _ _ _ _ _ _ Hf)), (fo_size _ _ _ _ (tf_idx _ _ _ _ _ _ Hf)).
    fold (undo c ci). rewrite (generateEntryHeader_text e He). run_refl.
    apply (attempt_write _ _ _ _ _ _ _ o p []); [done|done|by rewrite app_nil_r|].
    intros o1 p1 Hto1 Hs1 Ht1. eapply attempt_write; [exact Hto1|exact Hs1|exact Ht1|].
    intros o2 p2 Hto2 Hs2 Ht2. eapply attempt_write; [exact Hto2|exact Hs2|exact Ht2|].
    intros o3 p3 Hto3 Hs3 Ht3. clear Hto1 Hs1 Ht1 Hto2 Hs2 Ht2.
    assert (entry_crc (lp_current_crc p3) (entry_text e) (ety_data e) = crc) as ->.
    { destruct Hs3 as (f & g & -> & _). cbn. rewrite Hc. done. }
    rewrite (write_crc_fits crc 1024) by lia. run_refl.
    eapply attempt_write; [exact Hto3|exact Hs3|exact Ht3|].
    intros o4 p4 Hto4 Hs4 Ht4. clear Hto3 Hs3 Ht3.
    destruct (FileWrite_spec _ _ _ _ (le_bytes 8 (Z.of_nat (length c))) (tf_idx _ _ _ _ _ _ Ht4))
      as (r & g & o5 & Hrun & Ho & Hfd & Hres).
    rewrite (bind_done_eq _ _ _ _ _ (on_idx_done _ _ _ _ _ _ Hrun)). cbv beta iota.
    assert (touches (page_fds p) [i; j] o o5) as Hto5.
    { etrans; [exact Hto4|]. rewrite <- (same_page_fds _ _ Hs4). by apply only_page_idx. }
    assert (same_page p (p4 <| lp_idxfile := g |>)) as Hs5.
    { etrans; [exact Hs4|]. by apply same_page_idx. }
    destruct Hres as [[-> Hg]|(-> & Hnf & k & Hg)].
    - rewrite le_bytes_length. cbn [Z.of_nat Pos.of_succ_nat Pos.succ Z.eqb Pos.eqb negb]. left.
      eexists _, _. split; [reflexivity|]. split; [done|]. eexists _. split; [exact Hs5|]. split; [done|].
      eapply two_files_set_idx; try done.
      unfold entry_bytes. by rewrite <- !app_assoc in *.
    - cbn [Z.eqb negb]. eapply attempt_undo; [|exact Hto5|exact Hs5|].
      + intros Hy. by apply Hnf, Hto4.
      + eapply two_files_set_idx; try done. }
  unfold pageAppend.
  destruct Hw as [(p' & o' & E & Hto & p1 & Hs & -> & Ht)|[(p' & o' & E & Hnf & Hto & Hs & Ht)|[E Hnf]]].
  - rewrite (bind_done_eq _ _ _ _ _ E). left. eexists _, _. split; [reflexivity|]. split; [done|].
    pose proof (same_page_ident _ _ Hs) as Hid.
    destruct Hs as (f & g & -> & Hfd & Hgd). split; [by destruct Hid; constructor|].
    constructor; cbn.
    + change (page_bytes _ (es ++ [e])) with (page_bytes p (es ++ [e])).
      change (page_offsets _ (es ++ [e])) with (page_offsets p (es ++ [e])).
      rewrite page_offsets_snoc, index_bytes_snoc. unfold page_bytes at 1.
      rewrite entries_bytes_snoc, app_assoc. destruct Ht. by constructor.
    + destruct Hh. by constructor.
    + apply Forall_app. split; [done|]. by constructor.
    + rewrite Hn, length_app. simpl. lia.
    + rewrite Hx, length_app. simpl. lia.
    + unfold last_crc. by rewrite foldl_app.
  - rewrite (bind_done_eq _ _ _ _ _ E). right. left. eexists _, _. split; [reflexivity|].
    split; [done|]. split; [done|]. split; [done|]. rewrite (same_page_crc _ _ Hs). by eapply same_page_ok.
  - right. right. unfold bind. by rewrite E.
Qed.

(** ** Lookup *)

(** The file stays small enough for its offsets to fit in 64 bits. *)
Definition page_small (p : LogPage) (es : list raft_entry) : Prop :=
  Z.of_nat (length (page_bytes p es)) < 2 ^ 63.

Lemma entries_bytes_app a b : forall crc,
  entries_bytes crc (a ++ b) = entries_bytes crc a ++ entries_bytes (last_crc crc a) b.
Proof.
  induction a as [|e a IH]; intros crc; cbn [entries_bytes app]; [done|].
  rewrite IH, <- app_assoc. done.
Qed.

Lemma page_bytes_app p a b :
  page_bytes p (a ++ b) = page_bytes p a ++ entries_bytes (last_crc (header_crc p) a) b.
Proof. unfold page_bytes. by rewrite entries_bytes_app, app_assoc. Qed.

Lemma page_bytes_take p es k :
  page_bytes p es =
    page_bytes p (take k es) ++ entries_bytes (last_crc (header_crc p) (take k es)) (drop k es).
Proof. by rewrite <- page_bytes_app, take_drop. Qed.

Lemma entry_offsets_app a b : forall off crc,
  entry_offsets off crc (a ++ b) =
    entry_offsets off crc a ++
    entry_offsets (off + Z.of_nat (length (entries_bytes crc a))) (last_crc crc a) b.
Proof.
  induction a as [|e a IH]; intros off crc; cbn [entry_offsets entries_bytes app].
  { by rewrite Z.add_0_r. }
  rewrite IH, length_app. cbn [app]. do 2 f_equal. f_equal. lia.
Qed.

Lemma page_offsets_app p a b :
  page_offsets p (a ++ b) = page_offsets p a ++
    entry_offsets (Z.of_nat (length (page_bytes p a))) (last_crc (header_crc p) a) b.
Proof. unfold page_offsets, page_bytes. rewrite entry_offsets_app, length_app. do 2 f_equal. lia. Qed.

Lemma entry_offsets_length es : forall off crc, length (entry_offsets off crc es) = length es.
Proof. induction es as [|e es IH]; intros off crc; simpl; [done|]. by rewrite IH. Qed.

Lemma index_bytes_app a b : index_bytes (a ++ b) = index_bytes a ++ index_bytes b.
Proof. unfold index_bytes. by rewrite fmap_app, join_app. Qed.

Lemma index_bytes_length offs : length (index_bytes offs) = (8 * length offs)%nat.
Proof.
  induction offs as [|off offs IH]; [done|].
  change (index_bytes (off :: offs)) with (le_bytes 8 off ++ index_bytes offs).
  rewrite length_app, le_bytes_length, IH. simpl. lia.
Qed.

(** The record of entry [k] in the index. *)
Lemma index_entry p es k e :
  es !! k = Some e ->
  take 8 (drop (8 * k) (index_bytes (page_offsets p es))) =
    le_bytes 8 (Z.of_nat (length (page_bytes p (take k es)))).
Proof.
  intros Hk. pose proof (lookup_lt_Some _ _ _ Hk). rewrite <- (take_drop_middle es k e Hk) at 1.
  rewrite page_offsets_app, index_bytes_app.
  rewrite drop_app_length' by (rewrite index_bytes_length; unfold page_offsets;
    rewrite entry_offsets_length, length_take; lia).
  cbn [entry_offsets].
  change (index_bytes (?off :: ?offs)) with (le_bytes 8 off ++ index_bytes offs).
  by rewrite take_app_length' by (by rewrite le_bytes_length).
Qed.

Lemma header_bytes_pos p : (0 < length (header_bytes p))%nat.
Proof. unfold header_bytes, header_text, len_text. rewrite !length_app. simpl. lia. Qed.

Lemma pageSeekEntry_out p idx o :
  idx <= lp_prev_log_idx p \/ lp_prev_log_idx p + lp_num_entries p < idx ->
  pageSeekEntry p idx o = Done ((0, p), o).
Proof.
  intros H. unfold pageSeekEntry. cbv zeta. by replace (_ || _) with true by lia.
Qed.

Lemma pageSeekEntry_spec o i j p es crc k e :
  page_st o i j p es crc -> page_small p es -> es !! k = Some e ->
  let off := Z.of_nat (length (page_bytes p (take k es))) in
  exists r p' o', pageSeekEntry p (lp_prev_log_idx p + 1 + Z.of_nat k) o = Done ((r, p'), o') /\
    touches (page_fds p) [i; j] o o' /\ same_page p p' /\ page_st o' i j p' es crc /\
    ((r = off /\ 0 < off /\ file_reading o' (lp_file p') i (page_bytes p es) off) \/
     (r = 0 /\ ~ no_faults o)).
Proof.
  intros Hp Hsm Hk off. pose proof Hp as [Hf Hh Hes Hn Hx Hc].
  pose proof (lookup_lt_Some _ _ _ Hk) as Hlt.
  assert (0 <= off < 2 ^ 63) as Hoff.
  { unfold off. unfold page_small in Hsm. rewrite (page_bytes_take p es k), length_app in Hsm. lia. }
  assert (0 < off) as Hpos.
  { unfold off, page_bytes. rewrite length_app. pose proof (header_bytes_pos p). lia. }
  unfold pageSeekEntry. cbv zeta. replace (_ || _) with false by lia.
  destruct (FileSetReadOffset_spec _ _ _ _ (8 * (lp_prev_log_idx p + 1 + Z.of_nat k - lp_prev_log_idx p - 1))
              (tf_idx _ _ _ _ _ _ Hf)) as (rc & g & o1 & Hrun & Ho & Hgd & Hres); [lia|].
  rewrite (bind_done_eq _ _ _ _ _ (on_idx_done _ _ _ _ _ _ Hrun)). cbv beta iota.
  set (p1 := p <| lp_idxfile := g |>).
  pose proof (same_page_idx p g Hgd : same_page p p1) as Hs1.
  pose proof (only_page_idx p j i _ _ Ho) as Hto1.
  destruct Hres as [[-> Hg]|(-> & Hnf & Hg)]; cbn [negb Z.eqb RR_OK RR_ERROR].
  2: { eexists _, _, o1. split; [reflexivity|]. split; [done|]. split; [done|]. split; [|by right].
       eapply same_page_ok; [exact Hp|done|]. eapply two_files_set_idx; try done. }
  pose proof (two_files_set_idx _ _ _ _ _ _ _ _ _ Hf Ho Hgd (file_reading_ok _ _ _ _ _ Hg) : two_files o1 i j p1 _ _) as Ht1.
  destruct (FileRead_spec _ _ _ _ _ 8 Hg ltac:(lia)) as (r & data & g2 & o2 & Hrun2 & Ho2 & Hgd2 & Hres2).
  assert (on_idx p1 (fun f => let* (r, data, f) := FileRead f 8 in ret ((r, data), f)) o1
          = Done (((r, data), p1 <| lp_idxfile := g2 |>), o2)) as Hrun2'.
  { apply on_idx_done. change (lp_idxfile p1) with g. by run_step Hrun2. }
  rewrite (bind_done_eq _ _ _ _ _ Hrun2'). cbv beta iota.
  set (p2 := p1 <| lp_idxfile := g2 |>).
  assert (same_page p p2) as Hs2 by (etrans; [exact Hs1|]; by apply same_page_idx).
  assert (touches (page_fds p) [i; j] o o2) as Hto2.
  { etrans; [exact Hto1|]. rewrite Hgd in Ho2. by apply only_page_idx. }
  assert (file_ok o2 g2 j (index_bytes (page_offsets p es))) as Hg2.
  { destruct Hres2 as [(_ & _ & Hr)|(_ & _ & Hr)]; [by eapply file_reading_ok|done]. }
  assert (two_files o2 i j p2 (page_bytes p es) (index_bytes (page_offsets p es))) as Ht2.
  { eapply two_files_set_idx; [exact Ht1|exact Ho2|exact Hgd2|exact Hg2]. }
  destruct Hres2 as [(Hdata & Hr & _)|(-> & Hnf & _)].
  2: { cbn [Z.eqb negb]. eexists _, _, o2. split; [reflexivity|]. split; [done|]. split; [done|].
       split; [by eapply same_page_ok|]. right. split; [done|]. intros Hy. by apply Hnf, Ho. }
  assert (data = le_bytes 8 off) as Hd.
  { rewrite Hdata. replace (Z.to_nat (8 * _)) with (8 * k)%nat by lia.
    change (Z.to_nat 8) with 8%nat. by eapply index_entry. }
  rewrite Hd, le_bytes_length in Hr. subst r data. rewrite Hd.
  change (Z.of_nat 8 =? 8) with true. cbn [negb]. rewrite le_value_bytes by (cbn; lia).
  destruct (FileSetReadOffset_spec _ _ _ _ off (tf_file _ _ _ _ _ _ Ht2)) as (rc & f & o3 & Hrun3 & Ho3 & Hfd & Hres3); [lia|].
  rewrite (bind_done_eq _ _ _ _ _ (on_file_done p2 _ _ _ _ _ Hrun3)). cbv beta iota.
  assert (same_page p (p2 <| lp_file := f |>)) as Hs3 by (etrans; [exact Hs2|]; by apply same_page_file).
  assert (touches (page_fds p) [i; j] o o3) as Hto3.
  { etrans; [exact Hto2|]. rewrite <- (same_page_fds _ _ Hs2). by apply only_page_file. }
  destruct Hres3 as [[-> Hf3]|(-> & Hnf & Hf3)]; cbn [negb Z.eqb RR_OK RR_ERROR];
    eexists _, _, o3; (split; [reflexivity|]); (split; [done|]); (split; [done|]).
  - split; [|by left]. eapply same_page_ok; [exact Hp|done|].
    eapply two_files_set_file; try done. by eapply file_reading_ok.
  - split; [|right; split; [done|intros Hy; by apply Hnf, Hto2]].
    eapply same_page_ok; [exact Hp|done|]. by eapply two_files_set_file.
Qed.

(** Reading the entry the file is positioned at. *)
Lemma pageReadEntry_spec o i j p es crc k e :
  page_st o i j p es crc -> es !! k = Some e ->
  let off := Z.of_nat (length (page_bytes p (take k es))) in
  file_reading o (lp_file p) i (page_bytes p es) off ->
  exists r p' o', pageReadEntry p o = Done ((r, p'), o') /\
    touches (page_fds p) [i; j] o o' /\ same_page p p' /\ page_st o' i j p' es crc /\
    (r = Some (e, last_crc (header_crc p) (take (S k) es)) \/ (r = None /\ ~ no_faults o)).
Proof.
  intros Hp Hk off Hr. pose proof Hp as [Hf Hh Hes Hn Hx Hc].
  destruct (read_entry_implements _ _ _ _ _ Hr) as (a & f & o1 & Hrun & Ho & Hfd & Hres).
  exists a, (p <| lp_file := f |>), o1. split; [exact (on_file_done p read_entry _ _ _ _ Hrun)|].
  split; [by apply only_page_file|]. split; [by apply same_page_file|].
  assert (drop (Z.to_nat off) (page_bytes p es) =
          entry_bytes (last_crc (header_crc p) (take (S k) es)) e ++
          entries_bytes (last_crc (header_crc p) (take (S k) es)) (drop (S k) es)) as Hdrop.
  { rewrite (page_bytes_take p es k). unfold off. rewrite Nat2Z.id, drop_app_length.
    rewrite (drop_S _ _ _ Hk). cbn [entries_bytes]. rewrite (take_S_r _ _ _ Hk).
    unfold last_crc. rewrite foldl_app. done. }
  assert (0 <= last_crc (header_crc p) (take (S k) es) < 2 ^ 32) as Hcrc.
  { apply last_crc_bound; [by apply Forall_take|by apply header_crc_bound]. }
  assert (entry_ok e) as He by exact (Forall_lookup_1 _ _ _ _ Hes Hk).
  rewrite Hdrop in Hres. rewrite (enc_parse _ _ _ (encodes_entry _ e Hcrc He)) in Hres.
  assert (file_ok o1 f i (page_bytes p es)) as Hok.
  { destruct Hres as [[_ ?]|(_ & _ & ?)]; [by eapply file_reading_ok|done]. }
  split.
  - eapply same_page_ok; [exact Hp|by apply same_page_file|]. by eapply two_files_set_file.
  - destruct Hres as [[-> _]|(-> & Hnf & _)]; [by left|by right].
Qed.

(** The entry of index [idx] of a page. *)
Definition page_entry (p : LogPage) (es : list raft_entry) (idx : Z) : option raft_entry :=
  zlookup es (idx - lp_prev_log_idx p - 1).

Lemma page_entry_Some p es idx e :
  page_entry p es idx = Some e ->
  exists k, es !! k = Some e /\ idx = lp_prev_log_idx p + 1 + Z.of_nat k.
Proof.
  unfold page_entry, zlookup. destruct (Z.ltb_spec (idx - lp_prev_log_idx p - 1) 0); [done|].
  intros Hk. exists (Z.to_nat (idx - lp_prev_log_idx p - 1)). split; [done|]. lia.
Qed.

Lemma page_entry_None p es idx :
  page_entry p es idx = None ->
  idx <= lp_prev_log_idx p \/ lp_prev_log_idx p + Z.of_nat (length es) < idx.
Proof.
  unfold page_entry, zlookup. destruct (Z.ltb_spec (idx - lp_prev_log_idx p - 1) 0); [lia|].
  intros Hk%lookup_ge_None. lia.
Qed.

(** [pageGet] returns the entry of that index; a kernel that fails can make it
    return nothing or stop, but never another entry. *)
Lemma pageGet_spec o i j p es idx :
  page_ok o i j p es -> page_small p es ->
  (exists r p' o', pageGet p idx o = Done ((r, p'), o') /\
     touches (page_fds p) [i; j] o o' /\ same_page p p' /\ page_st o' i j p' es (last_crc (header_crc p) es) /\
     (r = page_entry p es idx \/ (r = None /\ ~ no_faults o))) \/
  (pageGet p idx o = Abort /\ ~ no_faults o).
Proof.
  intros Hp Hsm. unfold pageGet. destruct (page_entry p es idx) as [e|] eqn:Ee.
  2: { left. apply page_entry_None in Ee.
       rewrite (bind_done_eq _ _ _ _ _ (pageSeekEntry_out p idx o ltac:(rewrite (po_num _ _ _ _ _ _ Hp); lia))).
       eexists _, _, o. split; [reflexivity|]. split; [done|]. split; [done|]. split; [done|by left]. }
  apply page_entry_Some in Ee as (k & Hk & ->).
  destruct (pageSeekEntry_spec o i j p es _ k e Hp Hsm Hk)
    as (r & p1 & o1 & Hrun & Hto & Hs & Hp1 & Hres).
  rewrite (bind_done_eq _ _ _ _ _ Hrun). cbv beta iota.
  destruct Hres as [(-> & Hpos & Hr)|(-> & Hnf)].
  2: { left. eexists _, _, o1. split; [reflexivity|]. split; [done|]. split; [done|]. split; [done|by right]. }
  rewrite (proj2 (Z.leb_gt _ 0)) by done.
  assert (page_bytes p es = page_bytes p1 es /\ page_bytes p (take k es) = page_bytes p1 (take k es)) as [E1 E2].
  { by destruct Hs as (f & g & -> & _). }
  rewrite E1, E2 in Hr.
  destruct (pageReadEntry_spec o1 i j p1 es _ k e Hp1 Hk Hr) as (a & p2 & o2 & Hrun2 & Hto2 & Hs2 & Hp2 & Hres2).
  rewrite (bind_done_eq _ _ _ _ _ Hrun2). cbv beta iota.
  rewrite (same_page_fds _ _ Hs) in Hto2.
  destruct Hres2 as [->|[-> Hnf]].
  - left. eexists _, _, o2. split; [reflexivity|]. split; [by etrans|]. split; [by etrans|].
    split; [done|by left].
  - right. split; [done|]. intros Hy. by apply Hnf, Hto.
Qed.

(** [pageDelete] removes the entries from an index of the page on. *)
Lemma pageDelete_spec o i j p es from :
  page_ok o i j p es -> page_small p es -> lp_prev_log_idx p < from <= lp_index p ->
  (exists rc p' o', pageDelete p from o = Done ((rc, p'), o') /\
     touches (page_fds p) [i; j] o o' /\ same_ident p p' /\
     ((rc = RR_OK /\ page_ok o' i j p' (take (Z.to_nat (from - lp_prev_log_idx p - 1)) es)) \/
      (rc = RR_ERROR /\ ~ no_faults o /\ page_ok o' i j p' es))) \/
  (pageDelete p from o = Abort /\ ~ no_faults o).
Proof.
  intros Hp Hsm Hfrom. pose proof Hp as [Hf Hh Hes Hn Hx Hc].
  unfold pageDelete. replace (_ || _) with false by lia. cbv zeta.
  rewrite (proj2 (Z.eqb_neq _ 0)) by lia.
  set (k := Z.to_nat (from - lp_prev_log_idx p - 1)).
  destruct (lookup_lt_is_Some_2 es k) as [e Hk]; [lia|].
  destruct (pageSeekEntry_spec o i j p es _ k e Hp Hsm Hk)
    as (r & p1 & o1 & Hrun & Hto & Hs & Hp1 & Hres).
  replace (lp_prev_log_idx p + 1 + Z.of_nat k) with from in Hrun by lia.
  rewrite !(bind_done_eq _ _ _ _ _ Hrun). cbv beta iota.
  destruct Hres as [(-> & Hpos & Hr)|(-> & Hnf)].
  2: { left. rewrite Z.eqb_refl. eexists _, _, o1. split; [reflexivity|]. split; [done|].
       split; [by apply same_page_ident|]. destruct Hs as (f & g & -> & _). by right. }
  rewrite (proj2 (Z.eqb_neq _ 0)) by lia.
  set (kept := take k es) in *.
  assert (Z.of_nat (length (index_bytes (page_offsets p kept))) = Z.of_nat k * 8) as Hci.
  { rewrite index_bytes_length. unfold page_offsets. rewrite entry_offsets_length.
    unfold kept. rewrite length_take. lia. }
  assert (exists x, page_bytes p es = page_bytes p kept ++ x) as [x Hx']
    by (eexists; apply page_bytes_take).
  assert (exists y, index_bytes (page_offsets p es) = index_bytes (page_offsets p kept) ++ y) as [y Hy].
  { eexists. rewrite <- (take_drop k es) at 1. by rewrite page_offsets_app, index_bytes_app. }
  pose proof (po_files _ _ _ _ _ _ Hp1) as Hf1.
  assert (lp_prev_log_idx p1 = lp_prev_log_idx p) as Hpi by (by destruct Hs as (f & g & -> & _)).
  assert (page_bytes p1 es = page_bytes p es /\ page_offsets p1 es = page_offsets p es) as [E1 E2]
    by (by destruct Hs as (f & g & -> & _)).
  rewrite E1, E2, Hx', Hy in Hf1.
  destruct (pageTruncateFiles_spec _ _ _ _ _ _ _ _ Hf1) as (rc & p2 & o2 & Hrun2 & Hto2 & Hs2 & Hres2).
  rewrite Hci in Hrun2. rewrite Hpi. replace (from - lp_prev_log_idx p - 1) with (Z.of_nat k) by lia.
  rewrite !(bind_done_eq _ _ _ _ _ Hrun2). cbv beta iota.
  destruct Hres2 as [[-> Ht2]|[-> Hnf]].
  2: { right. split; [done|]. intros Hz. by apply Hnf, Hto. }
  cbn [Z.eqb RR_OK c_assert]. run_refl. rewrite (same_page_fds _ _ Hs) in Hto2.
  set (p3 := p2 <| lp_num_entries := _ |> <| lp_index := _ |>).
  assert (page_fds p3 = page_fds p) as Hfd3.
  { change (page_fds p3) with (page_fds p2). rewrite (same_page_fds _ _ Hs2). by apply same_page_fds. }
  assert (same_page p p2) as Hs12 by (by etrans).
  assert (same_ident p p3) as Hid3 by (destruct (same_page_ident _ _ Hs12); by constructor).
  pose proof (si_header _ _ Hid3) as Hht. pose proof (si_prev _ _ Hid3) as Hpi3.
  assert (lp_num_entries p3 = Z.of_nat (length kept)) as Hn3.
  { unfold p3, kept. cbn. rewrite length_take. destruct Hs12 as (f & g & -> & _). cbn. lia. }
  assert (page_st o2 i j p3 kept (lp_current_crc p3)) as Hp3.
  { destruct Hs12 as (f & g & E & _). constructor.
    - change (page_bytes p3 kept) with (page_bytes p2 kept). change (page_offsets p3 kept) with (page_offsets p2 kept).
      assert (page_bytes p2 kept = page_bytes p kept /\ page_offsets p2 kept = page_offsets p kept) as [-> ->]
        by (by rewrite E).
      destruct Ht2. by constructor.
    - unfold p3. rewrite E. destruct Hh. by constructor.
    - by apply Forall_take.
    - done.
    - unfold p3. rewrite E. cbn. unfold kept. rewrite length_take. lia.
    - done. }
  clearbody p3. assert (touches (page_fds p) [i; j] o o2) as Hto3 by (by etrans).
  destruct (Z.eqb_spec (lp_num_entries p3) 0) as [Hz|Hz].
  - left. rewrite (pageGenerateHeader_text p3 (po_header _ _ _ _ _ _ Hp3)). run_refl.
    eexists _, _, o2. split; [reflexivity|]. split; [done|]. split; [by destruct Hid3; constructor|].
    left. split; [done|].
    assert (kept = []) as Ek by (apply length_zero_iff_nil; lia). rewrite Ek in *.
    destruct Hp3 as [[]  [] ? ? ? ?]. constructor; try done; by constructor.
  - destruct (lookup_lt_is_Some_2 kept (length kept - 1)) as [e' Hk']; [lia|].
    assert (page_small p3 kept) as Hsm3.
    { unfold page_small in *. rewrite Hx', length_app in Hsm.
      assert (page_bytes p3 kept = page_bytes p kept) as ->; [|lia].
      unfold page_bytes, header_bytes, header_crc. by rewrite Hht. }
    destruct (pageSeekEntry_spec o2 i j p3 kept _ _ e' Hp3 Hsm3 Hk')
      as (r & p4 & o4 & Hrun4 & Hto4 & Hs4 & Hp4 & Hres4).
    replace (lp_prev_log_idx p3 + 1 + Z.of_nat (length kept - 1)) with (lp_index p3) in Hrun4
      by (rewrite (po_index _ _ _ _ _ _ Hp3); lia).
    rewrite !(bind_done_eq _ _ _ _ _ Hrun4). cbv beta iota.
    destruct Hres4 as [(-> & Hpos4 & Hr4)|(-> & Hnf)].
    2: { right. split; [done|]. intros Hq. by apply Hnf, Hto3. }
    rewrite (proj2 (Z.ltb_lt 0 _)) by done. cbn [c_assert]. run_refl.
    assert (page_bytes p3 kept = page_bytes p4 kept /\
            page_bytes p3 (take (length kept - 1) kept) = page_bytes p4 (take (length kept - 1) kept)) as [E3 E4]
      by (by destruct Hs4 as (f & g & -> & _)).
    rewrite E3, E4 in Hr4.
    destruct (pageReadEntry_spec o4 i j p4 kept _ _ e' Hp4 Hk' Hr4)
      as (a & p5 & o5 & Hrun5 & Hto5 & Hs5 & Hp5 & Hres5).
    rewrite !(bind_done_eq _ _ _ _ _ Hrun5). cbv beta iota.
    destruct Hres5 as [->|[-> Hnf]].
    2: { right. split; [done|]. intros Hq. by apply Hnf, Hto4, Hto3. }
    left. eexists _, _, o5. split; [reflexivity|].
    rewrite (same_page_fds _ _ Hs4), Hfd3 in Hto5. rewrite Hfd3 in Hto4.
    split; [by etrans; [|etrans]|].
    assert (same_ident p p5) as Hid5.
    { etrans; [exact Hid3|]. etrans; by apply same_page_ident. }
    split; [by destruct Hid5; constructor|]. left. split; [done|].
    replace (S (length kept - 1)) with (length kept) by lia. rewrite firstn_all.
    assert (header_crc p4 = header_crc p5) as Eh by (by destruct Hs5 as (f & g & -> & _)).
    destruct Hp5 as [[] [] ? ? ? ?]. constructor; try done. rewrite Eh. done.
Qed.
