(* ===== verification/PageLoad.v ===== *)
(** * Loading a page of the log

    Opening a log file reads its header; loading walks over its entries, stops
    at the first one that is incomplete or fails its checksum, and cuts the
    file there. *)

From stdpp Require Import base list numbers tactics gmap strings.
From S2P Require Import Prelude RaftTypes Crc Libc File Multibulk PageLog PageCodec PageSpec.

Local Open Scope Z_scope.

(** ** The header *)

(** [p] with the header fields of [q]. *)
Definition set_header (q p : LogPage) : LogPage :=
  p <| lp_dbid := lp_dbid q |> <| lp_node_id := lp_node_id q |>
    <| lp_prev_log_term := lp_prev_log_term q |> <| lp_prev_log_idx := lp_prev_log_idx q |>
    <| lp_index := lp_prev_log_idx q |>.

Lemma pageReadHeader_spec o i p q rest :
  file_ok o (lp_file p) i (header_bytes q ++ rest) -> header_ok q -> no_faults o ->
  exists f o', pageReadHeader p o = Done ((Some (header_crc q), set_header q (p <| lp_file := f |>)), o') /\
    only (f_fd (lp_file p)) i o o' /\ f_fd f = f_fd (lp_file p) /\
    file_reading o' f i (header_bytes q ++ rest) (Z.of_nat (length (header_bytes q))).
Proof.
  intros Hf Hq Hnf. unfold pageReadHeader.
  destruct (FileSetReadOffset_spec _ _ _ _ 0 Hf) as (rc & f1 & o1 & Hrun & Ho & Hfd & Hres); [lia|].
  rewrite (bind_done_eq _ _ _ _ _ (on_file_done p (fun f => FileSetReadOffset f 0) _ _ _ _ Hrun)).
  cbv beta iota. destruct Hres as [[-> Hr]|(_ & Hx & _)]; [|done]. cbn [negb Z.eqb RR_OK].
  destruct (read_header_implements _ _ _ _ _ Hr) as (a & f2 & o2 & Hrun2 & Ho2 & Hfd2 & Hres2).
  set (p1 := p <| lp_file := f1 |>).
  pose proof (on_file_done p1 read_header o1 a f2 o2 Hrun2) as Hrun2'.
  rewrite (bind_done_eq _ _ _ _ _ Hrun2').
  cbv beta iota. rewrite drop_0, (enc_parse _ _ _ (encodes_header q Hq)) in Hres2.
  destruct Hres2 as [[-> Hr2]|(_ & Hx & _)]; [|by destruct Hx; apply Ho].
  exists f2, o2. rewrite Hfd in Ho2, Hfd2.
  split; [|split; [by etrans|split; [done|by rewrite Z.add_0_l in Hr2]]].
  unfold ret, set_header. cbn.
  rewrite take_ge; [done|]. pose proof (ho_dbid _ Hq). unfold RAFT_DBID_LEN in *. lia.
Qed.

(** ** The entries *)

Lemma header_text_fields p p' :
  lp_dbid p' = lp_dbid p -> lp_node_id p' = lp_node_id p ->
  lp_prev_log_term p' = lp_prev_log_term p -> lp_prev_log_idx p' = lp_prev_log_idx p ->
  header_text p' = header_text p.
Proof. unfold header_text. by intros -> -> -> ->. Qed.

Lemma header_crc_header p p' : header_text p' = header_text p -> header_crc p' = header_crc p.
Proof. intros E. unfold header_crc. by rewrite E. Qed.

Lemma header_bytes_header p p' : header_text p' = header_text p -> header_bytes p' = header_bytes p.
Proof. intros E. unfold header_bytes. by rewrite E, (header_crc_header p p' E). Qed.

Lemma page_bytes_header p p' : header_text p' = header_text p -> forall es, page_bytes p' es = page_bytes p es.
Proof. intros E es. unfold page_bytes. by rewrite (header_bytes_header p p' E), (header_crc_header p p' E). Qed.

Lemma page_offsets_header p p' :
  header_text p' = header_text p -> forall es, page_offsets p' es = page_offsets p es.
Proof. intros E es. unfold page_offsets. by rewrite (header_bytes_header p p' E), (header_crc_header p p' E). Qed.

Lemma same_page_header p p' : same_page p p' -> header_text p' = header_text p.
Proof. intros (f & g & -> & _). by apply header_text_fields. Qed.

(** What stops the loop: nothing that parses, or a wrong checksum. *)
Definition bad_tail (crc : Z) (tail : list Z) : Prop :=
  parse_entry tail = None \/
  exists e read_crc n, parse_entry tail = Some ((e, read_crc), n) /\ entry_ok e /\
    next_crc crc e <> read_crc.

Lemma entry_bytes_pos crc e : (0 < length (entry_bytes crc e))%nat.
Proof. unfold entry_bytes, entry_text, len_text. simpl. lia. Qed.

Lemma entries_bytes_count es : forall crc, (length es <= length (entries_bytes crc es))%nat.
Proof.
  induction es as [|e es IH]; intros crc; simpl; [lia|]. rewrite length_app.
  pose proof (entry_bytes_pos (next_crc crc e) e). specialize (IH (next_crc crc e)). lia.
Qed.

(** The last round of the loop. *)
Lemma page_load_tail i j tail n o p es :
  no_faults o ->
  let c := page_bytes p es ++ tail in
  two_files o i j p c (index_bytes (page_offsets p es)) ->
  file_reading o (lp_file p) i c (Z.of_nat (length (page_bytes p es))) ->
  header_ok p -> Forall entry_ok es -> Z.of_nat (length c) < 2 ^ 63 ->
  lp_num_entries p = Z.of_nat (length es) -> lp_index p = lp_prev_log_idx p + Z.of_nat (length es) ->
  lp_current_crc p = last_crc (header_crc p) es -> bad_tail (last_crc (header_crc p) es) tail ->
  exists p' o', page_load_loop (S n) p o = Done ((RR_OK, p'), o') /\ page_ok o' i j p' es /\
    header_text p' = header_text p /\ lp_prev_log_idx p' = lp_prev_log_idx p /\
    touches (page_fds p) [i; j] o o' /\ page_fds p' = page_fds p.
Proof.
  intros Hnf c Ht Hr Hh Hes Hsz Hnum Hidx Hcrc Htail.
  cbn [page_load_loop]. unfold FileGetReadOffset.
  rewrite (fr_offset _ _ _ _ _ Hr).
  destruct (read_entry_implements _ _ _ _ _ Hr) as (a & f & o1 & Hrun & Ho & Hfd & Hres).
  unfold pageReadEntry.
  rewrite (bind_done_eq _ _ _ _ _ (on_file_done p read_entry _ _ _ _ Hrun)). cbv beta iota.
  rewrite Nat2Z.id in Hres. unfold c in Hres. rewrite drop_app_length in Hres.
  assert (file_ok o1 f i c) as Hf1.
  { destruct (parse_entry tail) as [[v m]|]; [destruct Hres as [[_ ?]|(_ & _ & ?)]|destruct Hres as [_ ?]];
      [by eapply file_reading_ok|done|done]. }
  set (p1 := p <| lp_file := f |>).
  pose proof (two_files_set_file _ _ _ _ _ _ _ _ _ Ht Ho Hfd Hf1 : two_files o1 i j p1 _ _) as Ht1.
  assert (touches (page_fds p) [i; j] o o1) as Hto1 by (by apply only_page_file).
  assert (forall p2 o2, same_page p p2 ->
            two_files o2 i j p2 (page_bytes p es) (index_bytes (page_offsets p es)) ->
            page_ok o2 i j p2 es) as Hok.
  { intros p2 o2 Hs H2. pose proof (same_page_header _ _ Hs) as E.
    rewrite <- (page_bytes_header _ _ E), <- (page_offsets_header _ _ E) in H2.
    rewrite (header_crc_header _ _ E). destruct Hs as (f' & g' & -> & _).
    constructor; [exact H2|by destruct Hh; constructor|done..]. }
  (* cutting the file where the walk stopped *)
  assert (exists p2 o2, on_file p1 (fun f => FileTruncate f (Z.of_nat (length (page_bytes p es)))) o1
            = Done ((RR_OK, p2), o2) /\ touches (page_fds p) [i; j] o o2 /\ same_page p p2 /\
            two_files o2 i j p2 (page_bytes p es) (index_bytes (page_offsets p es))) as (p2 & o2 & Hrun2 & Hto2 & Hs2 & Ht2).
  { destruct (FileTruncate_spec _ _ _ _ (Z.of_nat (length (page_bytes p es))) (tf_file _ _ _ _ _ _ Ht1))
      as (rc & f2 & o2 & Hrun2 & Ho2 & Hfd2 & [[-> Hf2]|(_ & Hx & _)]);
      [unfold c; rewrite length_app; lia| |by destruct Hx; apply Ho].
    eexists _, o2. split; [by apply (on_file_done p1 (fun f => FileTruncate f _))|].
    split; [etrans; [exact Hto1|]; change (lp_file p1) with f in Ho2; rewrite Hfd in Ho2; by apply only_page_file|].
    split; [etrans; apply same_page_file; [exact Hfd|exact Hfd2]|].
    unfold c in Hf2. rewrite Nat2Z.id, take_app_length in Hf2.
    eapply two_files_set_file; [exact Ht1|exact Ho2|exact Hfd2|exact Hf2]. }
  pose proof (Hok _ _ Hs2 Ht2) as Hp2.
  pose proof (same_page_header _ _ Hs2).
  assert (lp_prev_log_idx p2 = lp_prev_log_idx p) by (by destruct Hs2 as (f' & g' & -> & _)).
  pose proof (same_page_fds _ _ Hs2) as Hfds.
  destruct Htail as [Hnone|(e & rc & m & Hsome & Heok & Hneq)].
  - rewrite Hnone in Hres. destruct Hres as [-> _].
    unfold FileSize, u64. rewrite (fo_size _ _ _ _ (tf_file _ _ _ _ _ _ Ht1)).
    rewrite (Z.mod_small _ (2 ^ 64)) by (unfold c in *; rewrite length_app in *; lia).
    destruct (Z.ltb_spec 0 (Z.of_nat (length c) - Z.of_nat (length (page_bytes p es)))) as [Hlt|Hge].
    + rewrite (bind_done_eq _ _ _ _ _ Hrun2). cbv beta iota. cbn [Z.eqb RR_OK c_assert]. run_refl.
      by exists p2, o2.
    + assert (tail = []) as ->.
      { unfold c in Hge. rewrite length_app in Hge. apply length_zero_iff_nil. lia. }
      exists p1, o1. split; [done|]. unfold c in Ht1. rewrite app_nil_r in Ht1.
      pose proof (same_page_file p f Hfd) as Hs1. split; [by apply Hok|].
      split; [by apply same_page_header|]. split; [done|]. split; [done|]. by apply same_page_fds, same_page_file.
  - rewrite Hsome in Hres. destruct Hres as [[-> _]|(_ & Hx & _)]; [|done].
    unfold validateEntryCRC. rewrite (generateEntryHeader_text e Heok).
    rewrite <- Hcrc in Hneq. change (lp_current_crc p1) with (lp_current_crc p).
    erewrite bind_done_eq; [|reflexivity]. cbv beta iota.
    unfold next_crc in Hneq. rewrite (proj2 (Z.eqb_neq _ _) Hneq). cbn [negb].
    rewrite (bind_done_eq _ _ _ _ _ Hrun2). cbv beta iota. cbn [Z.eqb RR_OK c_assert]. run_refl.
    by exists p2, o2.
Qed.

Lemma page_load_loop_spec i j tail : forall rest n o p pre,
  (length rest < n)%nat -> no_faults o ->
  let c := page_bytes p (pre ++ rest) ++ tail in
  two_files o i j p c (index_bytes (page_offsets p pre)) ->
  file_reading o (lp_file p) i c (Z.of_nat (length (page_bytes p pre))) ->
  header_ok p -> Forall entry_ok (pre ++ rest) ->
  Z.of_nat (length c) < 2 ^ 63 ->
  lp_num_entries p = Z.of_nat (length pre) -> lp_index p = lp_prev_log_idx p + Z.of_nat (length pre) ->
  lp_current_crc p = last_crc (header_crc p) pre -> bad_tail (last_crc (header_crc p) (pre ++ rest)) tail ->
  exists p' o', page_load_loop n p o = Done ((RR_OK, p'), o') /\ page_ok o' i j p' (pre ++ rest) /\
    header_text p' = header_text p /\ lp_prev_log_idx p' = lp_prev_log_idx p /\
    touches (page_fds p) [i; j] o o' /\ page_fds p' = page_fds p.
Proof.
  induction rest as [|e rest IH]; intros n o p pre Hn Hnf c Ht Hr Hh Hes Hsz Hnum Hidx Hcrc Htail.
  - destruct n as [|n]; [lia|]. 
    assert (c = page_bytes p pre ++ tail) as Ec by (unfold c; by rewrite app_nil_r).
    rewrite Ec in *. rewrite app_nil_r in *. by apply page_load_tail with (tail := tail).
  - (* one more entry *)
    destruct n as [|n]; [lia|]. cbn [page_load_loop]. unfold FileGetReadOffset.
    rewrite (fr_offset _ _ _ _ _ Hr).
    set (crc := next_crc (last_crc (header_crc p) pre) e).
    apply Forall_app in Hes as Hes'. destruct Hes' as [Hpre Hes']. inversion Hes' as [|? ? He Hrest]; subst x l.
    assert (0 <= crc < 2 ^ 32) as Hcb.
    { apply next_crc_bound; [|done]. apply last_crc_bound; [done|by apply header_crc_bound]. }
    destruct (read_entry_implements _ _ _ _ _ Hr) as (a & f & o1 & Hrun & Ho & Hfd & Hres).
    unfold pageReadEntry.
    rewrite (bind_done_eq _ _ _ _ _ (on_file_done p read_entry _ _ _ _ Hrun)). cbv beta iota.
    rewrite Nat2Z.id in Hres. unfold c in Hres. rewrite page_bytes_app, <- app_assoc, drop_app_length in Hres.
    cbn [entries_bytes] in Hres. fold crc in Hres. rewrite <- app_assoc in Hres.
    rewrite (enc_parse _ _ _ (encodes_entry crc e Hcb He)) in Hres.
    destruct Hres as [[-> Hr1]|(_ & Hx & _)]; [|done].
    unfold validateEntryCRC. rewrite (generateEntryHeader_text e He).
    erewrite bind_done_eq; [|reflexivity]. cbv beta iota.
    change (lp_current_crc (p <| lp_file := f |>)) with (lp_current_crc p). rewrite Hcrc.
    assert (entry_crc (last_crc (header_crc p) pre) (entry_text e) (ety_data e) = crc) as -> by reflexivity.
    rewrite Z.eqb_refl. cbn [negb].
    set (p2 := _ <| lp_num_entries := _ |>).
    assert (lp_file p2 = f /\ lp_idxfile p2 = lp_idxfile p) as [Ef Eg] by done.
    destruct (FileWrite_spec _ _ _ _ (le_bytes 8 (Z.of_nat (length (page_bytes p pre)))) 
                (tf_idx _ _ _ _ _ _ (two_files_set_file _ _ _ _ _ _ _ _ _ Ht Ho Hfd (file_reading_ok _ _ _ _ _ Hr1))))
      as (r & g & o2 & Hrun2 & Ho2 & Hgd & [[-> Hg]|(_ & Hx & _)]); [|by destruct Hx; apply Ho].
    change (lp_idxfile (p <| lp_file := f |>)) with (lp_idxfile p) in Hrun2, Ho2, Hgd.
    rewrite <- Eg in Hrun2.
    rewrite (bind_done_eq _ _ _ _ _ (on_idx_done p2 (fun f => FileWrite f _) _ _ _ _ Hrun2)).
    cbv beta iota. rewrite le_bytes_length. change (Z.of_nat 8 =? 8) with true. cbn [c_assert]. run_refl.
    set (p3 := p2 <| lp_idxfile := g |>).
    assert (lp_file p3 = f /\ lp_idxfile p3 = g /\ lp_prev_log_idx p3 = lp_prev_log_idx p)
      as (Ef3 & Eg3 & Ep3) by done.
    assert (header_text p3 = header_text p) as Eh3 by (by apply header_text_fields).
    assert (lp_num_entries p3 = Z.of_nat (length (pre ++ [e])) /\
            lp_index p3 = lp_prev_log_idx p + Z.of_nat (length (pre ++ [e])) /\
            lp_current_crc p3 = last_crc (header_crc p) (pre ++ [e])) as (En3 & Ei3 & Ec3).
    { rewrite length_app. unfold last_crc. rewrite foldl_app. cbn. rewrite Hnum, Hidx. split_and!; [lia..|done]. }
    assert (header_ok p3) as Hh3 by (destruct Hh; by constructor).
    clearbody p3. clear Ef Eg Hrun2. clearbody p2.
    assert (page_fds p3 = page_fds p) as Efds by (unfold page_fds; by rewrite Ef3, Eg3, Hgd, Hfd).
    assert (touches (page_fds p) [i; j] o o2) as Hto2.
    { etrans; [by apply only_page_file|]. by apply (only_touches _ _ _ _ _ _ Ho2); [right; left|right; left]. }
    pose proof (page_bytes_header p p3 Eh3) as Ebytes. pose proof (page_offsets_header p p3 Eh3) as Eoffs.
    pose proof (header_crc_header p p3 Eh3) as Ehc.
    destruct Ht as [Htf Htg Hne Hne'].
    assert (file_reading o2 f i c (Z.of_nat (length (page_bytes p (pre ++ [e]))))) as Hr3.
    { eapply file_reading_only; [exact Ho2|by rewrite Hfd; apply not_eq_sym|by apply not_eq_sym|].
      rewrite (page_bytes_app p pre [e]). cbn [entries_bytes]. fold crc.
      rewrite app_nil_r, length_app, Nat2Z.inj_add.
      unfold c. rewrite page_bytes_app, <- app_assoc. cbn [entries_bytes]. fold crc.
      rewrite <- app_assoc. exact Hr1. }
    assert (c = page_bytes p ((pre ++ [e]) ++ rest) ++ tail) as Ecc by (unfold c; by rewrite <- app_assoc).
    clearbody c. subst c.
    replace (pre ++ e :: rest) with ((pre ++ [e]) ++ rest) in * by (by rewrite <- app_assoc).
    destruct (IH n o2 p3 (pre ++ [e])) as (p' & o' & Hrun' & Hp' & Hht & Hpi & Hto' & Hfds);
      rewrite ?Ebytes, ?Eoffs, ?Ehc, ?Ef3, ?Ep3; try done.
    + simpl in Hn. lia.
    + by apply Hto2.
    + constructor; [rewrite Ef3; by eapply file_reading_ok| |rewrite Ef3, Eg3, Hfd, Hgd; exact Hne|done].
      rewrite Eg3, page_offsets_snoc, index_bytes_snoc. exact Hg.
    + exists p', o'. split; [exact Hrun'|]. split; [exact Hp'|].
      split; [congruence|]. split; [congruence|]. rewrite Efds in *. split; [by etrans|done].
Qed.

(** [pageLoadEntries] on a page just opened: it recovers [es], and cuts off what
    follows. *)
Lemma pageLoadEntries_spec o i j p es tail :
  no_faults o -> header_ok p -> Forall entry_ok es ->
  let c := page_bytes p es ++ tail in
  two_files o i j p c [] -> Z.of_nat (length c) < 2 ^ 63 ->
  bad_tail (last_crc (header_crc p) es) tail ->
  exists p' o', pageLoadEntries p o = Done ((RR_OK, p'), o') /\ page_ok o' i j p' es /\
    header_text p' = header_text p /\ lp_prev_log_idx p' = lp_prev_log_idx p /\
    touches (page_fds p) [i; j] o o' /\ page_fds p' = page_fds p.
Proof.
  intros Hnf Hh Hes c Ht Hsz Htail. unfold pageLoadEntries. cbv zeta.
  set (p0 := p <| lp_num_entries := 0 |>).
  assert (c = header_bytes p ++ entries_bytes (header_crc p) es ++ tail) as Ec
    by (unfold c, page_bytes; by rewrite <- app_assoc).
  pose proof (tf_file _ _ _ _ _ _ Ht) as Hf. rewrite Ec in Hf.
  destruct (pageReadHeader_spec o i p0 p _ Hf Hh Hnf) as (f & o1 & Hrun & Ho & Hfd & Hr).
  rewrite <- Ec in *.
  rewrite (bind_done_eq _ _ _ _ _ Hrun). cbv beta iota.
  set (p1 := _ <| lp_current_crc := _ |>).
  assert (lp_file p1 = f /\ lp_idxfile p1 = lp_idxfile p /\ lp_prev_log_idx p1 = lp_prev_log_idx p /\
          lp_num_entries p1 = 0 /\ lp_index p1 = lp_prev_log_idx p /\ lp_current_crc p1 = header_crc p)
    as (Ef & Eg & Ep & En & Ei & Ecrc) by done.
  assert (header_text p1 = header_text p) as Eh by (by apply header_text_fields).
  assert (header_ok p1) as Hh1 by (destruct Hh; by constructor).
  clearbody p1. change (f_fd (lp_file p0)) with (f_fd (lp_file p)) in *.
  pose proof (page_bytes_header p p1 Eh) as Ebytes.
  assert (page_fds p1 = page_fds p) as Efds by (unfold page_fds; congruence).
  assert (two_files o1 i j p1 c (index_bytes (page_offsets p1 []))) as Ht1.
  { destruct Ht. constructor; [rewrite Ef; by eapply file_reading_ok| |congruence|done].
    rewrite Eg. eapply file_ok_only; eauto. }
  destruct (page_load_loop_spec i j tail es (S (Z.to_nat (FileSize (lp_file p1)))) o1 p1 [])
    as (p' & o' & Hrun' & Hp' & Hht & Hpi & Hto & Hfds);
    rewrite ?Ebytes, ?(header_crc_header p p1 Eh), ?Ep; try done.
  - unfold FileSize. rewrite (fo_size _ _ _ _ (tf_file _ _ _ _ _ _ Ht1)), Nat2Z.id.
    rewrite Ec, !length_app. pose proof (entries_bytes_count es (header_crc p)). lia.
  - by apply Ho.
  - rewrite Ef. unfold page_bytes at 2. cbn [entries_bytes]. rewrite app_nil_r. exact Hr.
  - simpl. lia.
  - exists p', o'. split; [exact Hrun'|]. split; [exact Hp'|]. split; [congruence|]. split; [congruence|].
    rewrite Efds in *. split; [|done]. etrans; [|exact Hto]. by apply only_page_file.
Qed.

(** Nothing is an entry in an empty file, or in a part of an entry. *)
Lemma bad_tail_nil crc : bad_tail crc [].
Proof. left. reflexivity. Qed.

Lemma bad_tail_torn crc e n :
  0 <= crc < 2 ^ 32 -> entry_ok e ->
  (n < length (entry_bytes (next_crc crc e) e))%nat -> bad_tail crc (take n (entry_bytes (next_crc crc e) e)).
Proof.
  intros Hc He Hn. left.
  apply (enc_torn _ _ _ (encodes_entry _ e (next_crc_bound _ _ Hc He) He) _ (drop n (entry_bytes (next_crc crc e) e))).
  - apply take_drop.
  - intros E%(f_equal length). rewrite length_drop in E. cbn [length] in E. lia.
Qed.

(** A prefix of a log file that has the whole header is a shorter log file and
    a part of an entry. *)
Lemma page_bytes_prefix p es n :
  header_ok p -> Forall entry_ok es ->
  (length (header_bytes p) <= n)%nat ->
  exists k tail, take n (page_bytes p es) = page_bytes p (take k es) ++ tail /\
    bad_tail (last_crc (header_crc p) (take k es)) tail /\ (k <= length es)%nat /\
    (forall k', (k' <= length es)%nat -> (length (page_bytes p (take k' es)) <= n)%nat -> (k' <= k)%nat).
Proof.
  intros Hp Hes Hn. induction es as [|e es IH] using rev_ind.
  - exists 0%nat, []. rewrite app_nil_r. split; [|split; [apply bad_tail_nil|split; [done|by intros k' Hk' _]]].
    rewrite take_ge; [done|]. unfold page_bytes. cbn [entries_bytes]. by rewrite app_nil_r.
  - apply Forall_app in Hes as [Hes He]. inversion He as [|? ? He' _]; subst.
    assert (page_bytes p (es ++ [e]) = page_bytes p es ++ entry_bytes (next_crc (last_crc (header_crc p) es) e) e) as E.
    { rewrite page_bytes_app. cbn [entries_bytes]. by rewrite app_nil_r. }
    destruct (decide (length (page_bytes p (es ++ [e])) <= n)%nat) as [Hge|Hlt].
    + exists (length (es ++ [e])), []. rewrite firstn_all, app_nil_r, take_ge by done.
      split; [done|]. split; [apply bad_tail_nil|]. split; [done|]. auto.
    + destruct (decide (length (page_bytes p es) <= n)%nat) as [Hge'|Hlt'].
      * exists (length es), (take (n - length (page_bytes p es)) (entry_bytes (next_crc (last_crc (header_crc p) es) e) e)).
        rewrite take_app_length. rewrite E in *. rewrite length_app in Hlt.
        rewrite take_app_ge by done. split; [done|].
        split; [apply bad_tail_torn; [apply last_crc_bound; [done|by apply header_crc_bound]|done|lia]|].
        rewrite length_app. split; [lia|]. intros k' Hk' Hl. simpl in Hk'.
        destruct (decide (k' <= length es)%nat); [done|].
        rewrite take_ge in Hl by (rewrite length_app; simpl; lia). rewrite E, length_app in Hl. lia.
      * destruct (IH Hes) as (k & tail & Ht & Hb & Hk & Hmax). exists k, tail.
        rewrite take_app_le by done. rewrite E, take_app_le by lia.
        split; [done|]. split; [done|]. rewrite length_app. split; [lia|]. intros k' Hk' Hl.
        destruct (decide (k' <= length es)%nat) as [Hle|Hgt].
        -- apply Hmax; [done|]. by rewrite take_app_le in Hl by done.
        -- rewrite take_ge in Hl by (rewrite length_app; simpl in *; lia). rewrite E, length_app in Hl. lia.
Qed.
