(* ===== verification/PageOpen.v ===== *)
(** * Creating and opening pages

    The files of a page are created or opened by name.  A kernel state is
    well formed when its file names denote distinct existing files and new
    descriptors and inodes are fresh. *)

From stdpp Require Import base list numbers tactics gmap strings.
From S2P Require Import Prelude RaftTypes Crc Libc File Multibulk PageLog PageCodec PageSpec PageLoad.

Local Open Scope Z_scope.

(** ** Well-formed kernels *)

Record os_wf (o : os) : Prop := {
  wf_inodes i : is_Some (os_inodes o !! i) -> i < os_next o;
  wf_fds fd : is_Some (os_fds o !! fd) -> fd < os_next o;
  wf_next : 0 <= os_next o;
  wf_names path i : os_names o !! path = Some i -> is_Some (os_inodes o !! i);
  wf_inj path path' i : os_names o !! path = Some i -> os_names o !! path' = Some i -> path = path'
}.

Lemma os_empty_wf plan : os_wf (os_empty plan).
Proof. constructor; cbn; try done; intros; by destruct_and?; rewrite ?lookup_empty in *; (done || by destruct H). Qed.

Lemma no_faults_pop o :
  no_faults o -> exists p pl, pop_plan o = Done (p, o <| os_plan := pl |>) /\
    no_faults (o <| os_plan := pl |>) /\ (forall z, p = Some z -> 0 <= z).
Proof.
  intros Hn. unfold pop_plan. run_refl. unfold no_faults in *. destruct (os_plan o) as [|z pl] eqn:E.
  - exists None, []. split; [|done]. rewrite <- E. by destruct o.
  - inversion Hn as [|? ? Hz Hpl]; subst. exists (Some z), pl. split; [done|]. split; [done|].
    intros ? [= <-]. done.
Qed.

Lemma sys_ok_no_faults o :
  no_faults o -> exists pl, sys_ok o = Done (true, o <| os_plan := pl |>) /\ no_faults (o <| os_plan := pl |>).
Proof.
  intros Hn. destruct (no_faults_pop o Hn) as (p & pl & Hrun & Hn' & Hp). exists pl. split; [|done].
  unfold sys_ok. run_step Hrun. destruct p as [z|]; [|done]. unfold ret.
  by rewrite (proj2 (Z.leb_le 0 z) (Hp z eq_refl)).
Qed.

Lemma os_wf_plan o pl : os_wf o -> os_wf (o <| os_plan := pl |>).
Proof. intros []. by constructor. Qed.

(** What the operations on open files preserve. *)
Lemma os_wf_touches F I o o' :
  touches F I o o' -> (forall fd, fd ∈ F -> is_Some (os_fds o !! fd)) ->
  (forall i, i ∈ I -> is_Some (os_inodes o !! i) /\ is_Some (os_inodes o' !! i)) -> os_wf o -> os_wf o'.
Proof.
  intros Ht HF HI []. constructor.
  - intros i Hi. rewrite (to_next _ _ _ _ Ht). apply wf_inodes0.
    destruct (decide (i ∈ I)); [by apply HI|]. by rewrite <- (to_inodes _ _ _ _ Ht).
  - intros fd Hfd. rewrite (to_next _ _ _ _ Ht). apply wf_fds0.
    destruct (decide (fd ∈ F)); [by apply HF|]. by rewrite <- (to_fds _ _ _ _ Ht).
  - by rewrite (to_next _ _ _ _ Ht).
  - intros path i. rewrite (to_names _ _ _ _ Ht). intros Hi.
    destruct (decide (i ∈ I)); [by apply HI|]. rewrite (to_inodes _ _ _ _ Ht) by done. by eapply wf_names0.
  - rewrite (to_names _ _ _ _ Ht). done.
Qed.

(** ** Opening files *)

(** The contents of a file by name. *)
Definition contents (o : os) (path : list Z) : list Z :=
  default [] (os_names o !! path ≫= fun i => os_inodes o !! i).

Lemma os_wf_rename o old new i :
  os_wf o -> os_names o !! old = Some i -> os_wf (set_names (<[new := i]> (delete old (os_names o))) o).
Proof.
  intros Hw Hi. constructor; cbn; try apply Hw.
  - intros p k. rewrite lookup_insert_Some, lookup_delete_Some.
    intros [[_ <-]|[_ [_ Hk]]]; by eapply (wf_names _ Hw).
  - intros p p' k. rewrite !lookup_insert_Some, !lookup_delete_Some.
    intros [[<- <-]|(Hne & Hno & Hp)] [[<- Hk]|(Hne' & Hno' & Hp')]; try done.
    + destruct Hno'. by eapply (wf_inj _ Hw).
    + subst k. destruct Hno. by eapply (wf_inj _ Hw).
    + by eapply (wf_inj _ Hw).
Qed.

(** Opening [path] gives inode [i] and a new descriptor; other files are as
    before. *)
Record opened (path : list Z) (i fd : Z) (c : list Z) (o o' : os) : Prop := {
  op_names : os_names o' = <[path := i]> (os_names o);
  op_inode : os_inodes o' = <[i := c]> (os_inodes o);
  op_fds : os_fds o' = <[fd := (i, 0)]> (os_fds o);
  op_next : os_next o <= fd < os_next o';
  op_fresh : (os_names o !! path = Some i /\ os_past o' = os_past o) \/
             (os_names o !! path = None /\ os_next o <= i /\ os_past o' = os_names o :: os_past o);
  op_dirty k : k <> i -> k ∈ os_dirty o' <-> k ∈ os_dirty o;
  op_wf : os_wf o';
  op_plan : no_faults o -> no_faults o'
}.

(** Only a file that is created or truncated by being opened is dirty by it. *)
Definition open_kept (path : list Z) (fl : open_flags) (o o' : os) : Prop :=
  (fl_creat fl = false -> os_names o !! path <> None) /\
  (fl_trunc fl = false -> os_names o !! path <> None -> os_dirty o' = os_dirty o).

Lemma sys_ok_any o :
  exists b pl, sys_ok o = Done (b, o <| os_plan := pl |>) /\
    (no_faults o -> b = true /\ no_faults (o <| os_plan := pl |>)).
Proof.
  unfold sys_ok, pop_plan, no_faults. destruct (os_plan o) as [|z pl] eqn:E.
  - exists true, []. split; [|done]. unfold bind, get, ret. rewrite E. by destruct o; cbn in *; subst.
  - exists (0 <=? z), pl. split.
    + unfold bind, get, modify, ret. by rewrite E.
    + inversion 1; subst. split; [lia|done].
Qed.

(** Opening succeeds, or leaves everything as it was. *)
Lemma sys_open_spec o path fl :
  os_wf o -> let c := if fl_trunc fl then [] else contents o path in
  (exists i fd o', sys_open path fl o = Done ((fd, false), o') /\ opened path i fd c o o' /\
     open_kept path fl o o') \/
  (exists e pl, sys_open path fl o = Done ((-1, e), o <| os_plan := pl |>) /\
     (no_faults o -> no_faults (o <| os_plan := pl |>)) /\
     ((e = true /\ os_names o !! path = None /\ fl_creat fl = false) \/ (e = false /\ ~ no_faults o))).
Proof.
  intros Hw c. unfold sys_open. destruct (sys_ok_any o) as (b & pl & Hrun & Hb).
  set (o1 := o <| os_plan := pl |>) in *. run_step Hrun.
  assert (no_faults o -> no_faults o1) as Hn1 by (by intros [_ ?]%Hb).
  destruct b; cbn [negb].
  2: { right. exists false, pl. split; [done|]. split; [done|]. right. split; [done|].
       intros Hx. by destruct (Hb Hx). }
  clear Hb.
  run_refl. change (os_names o1) with (os_names o).
  change (os_next o1) with (os_next o). pose proof (wf_next _ Hw) as Hnx.
  assert (forall i path', os_names o !! path' = Some i -> i < os_next o) as Hnames
    by (intros i path' Hi%(wf_names _ Hw); by apply (wf_inodes _ Hw)).
  destruct (os_names o !! path) as [i|] eqn:Ei.
  - left. destruct (wf_names _ Hw _ _ Ei) as [d Hd].
    assert (contents o path = d) as Hc by (unfold contents; by rewrite Ei; cbn; rewrite Hd).
    exists i, (os_next o). subst c. rewrite Hc.
    destruct (fl_trunc fl) eqn:Etr; (eexists; split; [reflexivity|]);
      (split; [|split; [by rewrite Ei|by rewrite Etr]]); constructor; cbn; try done;
      try (by rewrite insert_id); try lia; try (by left); try (intros; set_solver).
    all: constructor; cbn; try lia; try (apply Hw).
    + intros i' [Hi'|Hi']%lookup_insert_is_Some'; [subst; pose proof (Hnames _ _ Ei); lia|].
      pose proof (wf_inodes _ Hw _ Hi'). lia.
    + intros fd [Hfd|Hfd]%lookup_insert_is_Some'; [lia|]. pose proof (wf_fds _ Hw _ Hfd). lia.
    + intros p i' Hi'%(wf_names _ Hw). apply lookup_insert_is_Some'. by right.
    + intros i' Hi'. pose proof (wf_inodes _ Hw _ Hi'). lia.
    + intros fd [Hfd|Hfd]%lookup_insert_is_Some'; [lia|]. pose proof (wf_fds _ Hw _ Hfd). lia.
  - destruct (fl_creat fl) eqn:Hcr; [left|right; exists true, pl; split_and!; try done; by left].
    exists (os_next o), (os_next o + 1).
    assert (c = []) as -> by (subst c; unfold contents; rewrite Ei; by destruct (fl_trunc fl)).
    eexists. split; [reflexivity|]. split; [|split; [by rewrite Hcr|by rewrite Ei]].
    constructor; cbn; try done; try lia; [by right|intros; set_solver|].
    constructor; cbn; try lia.
    + intros i' [Hi'|Hi']%lookup_insert_is_Some'; [lia|]. pose proof (wf_inodes _ Hw _ Hi'). lia.
    + intros fd [Hfd|Hfd]%lookup_insert_is_Some'; [lia|]. pose proof (wf_fds _ Hw _ Hfd). lia.
    + intros p i'. rewrite lookup_insert_Some. intros [[_ <-]|[_ Hi']];
        apply lookup_insert_is_Some'; [by left|right]. by eapply wf_names.
    + intros p p' i'. rewrite !lookup_insert_Some.
      intros [[<- <-]|[Hne Hp]] [[<- He]|[Hne' Hp']]; try done.
      * pose proof (Hnames _ _ Hp'). lia.
      * pose proof (Hnames _ _ Hp). lia.
      * by eapply wf_inj.
Qed.

(** [FileOpen] succeeds, or nothing is open afterwards. *)
Lemma FileOpen_any o path fl :
  os_wf o -> fl_rdonly fl || fl_append fl = true ->
  let c := if fl_trunc fl then [] else contents o path in
  exists rc e f o', FileOpen FileInit path fl o = Done ((rc, e, f), o') /\
    (no_faults o -> no_faults o') /\
    ((rc = RR_OK /\ exists i, opened path i (f_fd f) c o o' /\ open_kept path fl o o' /\
        file_reading o' f i c 0) \/
     (rc = RR_ERROR /\ f = FileInit /\ exists o1,
        ((o1 = o /\ (e = true /\ os_names o !! path = None /\ fl_creat fl = false \/ e = false /\ ~ no_faults o)) \/
         (e = false /\ ~ no_faults o /\ exists i fd, opened path i fd c o o1 /\ open_kept path fl o o1)) /\
        exists fds pl, o' = o1 <| os_fds := fds |> <| os_plan := pl |> /\
          forall fd, is_Some (fds !! fd) -> is_Some (os_fds o1 !! fd))).
Proof.
  intros Hw Hfl c. unfold FileOpen. rewrite Hfl. cbn [c_assert]. run_refl.
  destruct (sys_open_spec o path fl Hw) as [(i & fd & o1 & Hopen & Hop & Hkept)|(e & pl & Hopen & Hn & He)];
    rewrite (bind_done_eq _ _ _ _ _ Hopen); cbv beta iota.
  2: { exists RR_ERROR, e, FileInit, (o <| os_plan := pl |>). split; [done|]. split; [done|]. right.
       split; [done|]. split; [done|]. exists o. split; [left; split; [done|]|].
       - destruct He as [?|?]; [by left|by right].
       - exists (os_fds o), pl. split; [by destruct o|done]. }
  fold c in Hop. pose proof Hop as [Enames Eino Efd Hnext Hfresh Hdirty Hwf Hpl].
  rewrite (proj2 (Z.ltb_ge fd 0)) by (pose proof (wf_next _ Hw); lia).
  destruct (sys_ok_any o1) as (b & pl2 & Hrun2 & Hb).
  assert (sys_stat_size path o1 =
          Done (if b then Some (Z.of_nat (length c)) else None, o1 <| os_plan := pl2 |>)) as Hst.
  { unfold sys_stat_size. run_step Hrun2. run_refl. cbn. rewrite Enames, lookup_insert_eq, Eino, lookup_insert_eq.
    by destruct b. }
  rewrite (bind_done_eq _ _ _ _ _ Hst). cbv beta iota. destruct b.
  - eexists RR_OK, _, _, _. split; [reflexivity|]. split; [intros Hx%Hpl; by destruct (Hb Hx)|]. left. split; [done|].
    exists i. split; [constructor; try done; [by apply os_wf_plan|intros Hx%Hpl; by destruct (Hb Hx)]|].
    split; [exact Hkept|].
    constructor; cbn; try done. unfold fd_lookup. cbn. by rewrite Efd, lookup_insert_eq, Eino, lookup_insert_eq.
  - assert (~ no_faults o) as Hf by (intros Hx%Hpl; by destruct (Hb Hx)).
    destruct (sys_ok_any (o1 <| os_plan := pl2 |>)) as (b & pl3 & Hrun3 & _).
    unfold sys_close. exists RR_ERROR, false, FileInit, (o1 <| os_fds := delete fd (os_fds o1) |> <| os_plan := pl3 |>).
    split; [unfold bind; by rewrite Hrun3|]. split; [done|]. right. split; [done|]. split; [done|].
    exists o1. split; [right; split; [done|]; split; [done|]; by exists i, fd|].
    exists (delete fd (os_fds o1)), pl3. split; [done|]. intros k [x [_ Hx]%lookup_delete_Some]. eauto.
Qed.

Lemma FileOpen_spec o path fl :
  os_wf o -> no_faults o -> fl_append fl = true -> fl_creat fl = true ->
  let c := if fl_trunc fl then [] else contents o path in
  exists i f o', FileOpen FileInit path fl o = Done ((RR_OK, false, f), o') /\
    opened path i (f_fd f) c o o' /\ file_ok o' f i c.
Proof.
  intros Hw Hn Ha Hcr c.
  destruct (FileOpen_any o path fl Hw) as (rc & e & f & o' & Hrun & _ & Hres); [by rewrite Ha, orb_true_r|].
  destruct Hres as [(-> & i & Hop & _ & Hr)|(_ & _ & o1 & [[_ [(_ & _ & ?)|[_ ?]]]|(_ & ? & _)] & _)]; [|congruence|done..].
  exists i, f, o'. assert (e = false) as ->.
  { revert Hrun. unfold FileOpen. rewrite Ha, orb_true_r. cbn [c_assert]. unfold bind, ret.
    repeat case_match; intros; by simplify_eq. }
  split; [done|]. split; [done|]. by eapply file_reading_ok.
Qed.

(** ** The header of a new page *)

Lemma pageSync_spec o i j p c ci sync :
  two_files o i j p c ci ->
  exists rc p' o', pageSync p sync o = Done ((rc, p'), o') /\ touches (page_fds p) [i; j] o o' /\
    same_page p p' /\ two_files o' i j p' c ci /\
    ((rc = RR_OK /\ f_wbuf (lp_file p') = []) \/ (rc = RR_ERROR /\ ~ no_faults o)).
Proof.
  intros Ht. unfold pageSync.
  destruct (FileFlush_spec o _ i c (tf_file _ _ _ _ _ _ Ht)) as (rc & f & o1 & Hrun & Ho & Hf & Hfd & Hrc).
  rewrite (bind_done_eq _ _ _ _ _ (on_file_done p FileFlush _ _ _ _ Hrun)). cbv beta iota.
  pose proof (two_files_set_file _ _ _ _ _ _ _ _ _ Ht Ho Hfd Hf) as Ht1.
  pose proof (same_page_file p f Hfd) as Hs1. pose proof (only_page_file p j i _ _ Ho) as Hto1.
  destruct Hrc as [[-> Hw]|[-> Hn]]; cbn [negb Z.eqb RR_OK RR_ERROR].
  2: { eexists _, _, o1. split_and!; [reflexivity|done..|by right]. }
  destruct sync; [|eexists _, _, o1; split_and!; [reflexivity|done..|by left]].
  destruct (FileFsync_spec o1 (lp_file (p <| lp_file := f |>)) i c (tf_file _ _ _ _ _ _ Ht1))
    as (rc & o2 & Hfs & Ho2 & Hl2 & Hb).
  rewrite (bind_done_eq _ _ _ _ _ Hfs). cbv beta iota.
  assert (two_files o2 i j (p <| lp_file := f |>) c ci) as Ht2.
  { destruct Ht1 as [[Hx1 ? ? ?] [Hx2 ? ? ?] ? ?]. constructor; try done; constructor; try done;
      rewrite Hl2; done. }
  assert (touches (page_fds p) [i; j] o o2) as Hto2.
  { etrans; [exact Hto1|]. apply only_page_file. cbn in Ho2. by rewrite Hfd in Ho2. }
  destruct Hb as [[-> _]|[-> Hb]]; cbn [negb Z.eqb RR_OK RR_ERROR]; eexists _, _, o2;
    split_and!; try reflexivity; try done.
  - by left.
  - right. split; [done|]. intros Hx. by apply Hb, (only_plan _ _ _ _ Ho).
Qed.

Section WriteHeader.
Context (o : os) (i j : Z) (p : LogPage).

(** The header is written and synced, or an error is reported. *)
Definition header_attempt (run : outcome ((Z * LogPage) * os)) : Prop :=
  exists rc p' o', run = Done ((rc, p'), o') /\ touches (page_fds p) [i; j] o o' /\
    page_fds p' = page_fds p /\
    ((rc = RR_OK /\ (exists p1, same_page p p1 /\ p' = p1 <| lp_current_crc := header_crc p |>) /\
      f_wbuf (lp_file p') = [] /\ two_files o' i j p' (header_bytes p) []) \/
     (rc = RR_ERROR /\ ~ no_faults o)).

Lemma header_attempt_fail o1 p1 c ci :
  touches (page_fds p) [i; j] o o1 -> same_page p p1 -> ~ no_faults o -> two_files o1 i j p1 c ci ->
  header_attempt ((let* (_, p) := pageTruncateFiles p1 0 0 in ret (RR_ERROR, p)) o1).
Proof.
  intros Hto1 Hs1 Hn Ht1.
  destruct (pageTruncateFiles_spec o1 i j p1 [] [] c ci Ht1) as (rc & p2 & o2 & Hrun & Hto & Hs & _).
  rewrite (bind_done_eq _ _ _ _ _ Hrun). cbv beta iota. rewrite (same_page_fds _ _ Hs1) in Hto.
  eexists _, _, o2. split_and!; [reflexivity|by etrans| |by right].
  by rewrite (same_page_fds _ _ Hs), (same_page_fds _ _ Hs1).
Qed.

Lemma pageWriteHeader_spec c ci :
  two_files o i j p c ci -> header_ok p -> header_attempt (pageWriteHeader p o).
Proof.
  intros Ht Hh. unfold pageWriteHeader. rewrite (pageGenerateHeader_text p Hh). run_refl.
  pose proof (header_crc_bound p Hh) as Hcrc. pose proof (header_text_length p Hh) as Hlen.
  change (sc_crc32 0 (header_text p)) with (header_crc p).
  rewrite (write_crc_fits (header_crc p)) by lia. run_refl. cbv zeta. fold (header_bytes p).
  destruct (pageTruncateFiles_spec o i j p [] [] c ci Ht) as (rc & p1 & o1 & Hrun & Hto1 & Hs1 & Hres).
  change (Z.of_nat (length [])) with 0 in Hrun.
  rewrite (bind_done_eq _ _ _ _ _ Hrun). cbv beta iota.
  destruct Hres as [[-> Ht1]|(-> & Hn & c' & ci' & Ht1)]; cbn [negb Z.eqb RR_OK RR_ERROR].
  2: by eapply header_attempt_fail.
  destruct (FileWrite_spec _ _ _ _ (header_bytes p) (tf_file _ _ _ _ _ _ Ht1))
    as (r & f & o2 & Hrun2 & Ho2 & Hfd & Hres).
  rewrite (bind_done_eq _ _ _ _ _ (on_file_done p1 (fun f => FileWrite f _) _ _ _ _ Hrun2)). cbv beta iota.
  assert (same_page p (p1 <| lp_file := f |>)) as Hs2 by (etrans; [exact Hs1|by apply same_page_file]).
  assert (touches (page_fds p) [i; j] o o2) as Hto2.
  { etrans; [exact Hto1|]. rewrite <- (same_page_fds _ _ Hs1). by apply only_page_file. }
  destruct Hres as [[-> Hf]|(-> & Hn & k & Hf)].
  2: { replace (_ =? _) with false by (symmetry; apply Z.eqb_neq; lia). cbn [negb].
       eapply header_attempt_fail; [exact Hto2|exact Hs2|intros Hx; by apply Hn, Hto1|].
       exact (two_files_set_file _ _ _ _ _ _ _ _ _ Ht1 Ho2 Hfd Hf). }
  rewrite Z.eqb_refl. cbn [negb].
  pose proof (two_files_set_file _ _ _ _ _ _ _ _ _ Ht1 Ho2 Hfd Hf) as Ht2.
  destruct (pageSync_spec _ _ _ _ _ _ true Ht2) as (rc & p3 & o3 & Hrun3 & Hto3 & Hs3 & Ht3 & Hrc).
  rewrite (bind_done_eq _ _ _ _ _ Hrun3). cbv beta iota.
  assert (same_page p p3) as Hs4 by (by etrans).
  assert (touches (page_fds p) [i; j] o o3) as Hto4.
  { etrans; [exact Hto2|]. by rewrite <- (same_page_fds _ _ Hs2). }
  destruct Hrc as [[-> Hw]|[-> Hn]]; cbn [negb Z.eqb RR_OK RR_ERROR].
  2: { eapply header_attempt_fail; [exact Hto4|exact Hs4| |exact Ht3]. intros Hx. by apply Hn, Hto2. }
  eexists _, _, o3. split; [reflexivity|]. split; [done|]. split; [exact (same_page_fds _ _ Hs4)|].
  left. split; [done|]. split; [by exists p3|]. split; [done|]. destruct Ht3. by constructor.
Qed.

End WriteHeader.

(** ** Pages by name *)

Definition idx_name (filename : list Z) : list Z := filename ++ bytes_of ".idx"%string.

(** The name of the index, and a NUL, fit in a path. *)
Definition name_ok (filename : list Z) : Prop := Z.of_nat (length filename) + 5 <= PATH_MAX.

(** The page [p] has been opened under the name [filename]. *)
Record page_opened (filename : list Z) (p : LogPage) (i j : Z) (o o' : os) : Prop := {
  pg_names : os_names o' = <[idx_name filename := j]> (<[filename := i]> (os_names o));
  pg_inodes k : k <> i -> k <> j -> os_inodes o' !! k = os_inodes o !! k;
  pg_fds fd : fd < os_next o -> os_fds o' !! fd = os_fds o !! fd;
  pg_new fd : fd ∈ page_fds p -> os_next o <= fd < os_next o';
  pg_fresh_file : os_names o !! filename = Some i \/ (os_names o !! filename = None /\ os_next o <= i);
  pg_fresh_idx :
    os_names o !! idx_name filename = Some j \/ (os_names o !! idx_name filename = None /\ os_next o <= j);
  pg_wf : os_wf o';
  pg_plan : no_faults o';
  pg_filename : lp_filename p = filename;
  pg_idxfilename : lp_idxfilename p = idx_name filename
}.

Lemma two_files_wf o o' i j p p' c ci c' ci' :
  two_files o i j p c ci -> two_files o' i j p' c' ci' -> touches (page_fds p) [i; j] o o' ->
  os_wf o -> os_wf o'.
Proof.
  intros [H1 H2 _ _] [H3 H4 _ _] Ht. apply (os_wf_touches _ _ _ _ Ht).
  - intros fd. rewrite list_elem_of_In. intros [<-|[<-|[]]]; by eapply file_ok_exists.
  - intros k. rewrite list_elem_of_In. intros [<-|[<-|[]]]; split; by eapply file_ok_exists.
Qed.

Lemma page_opened_touches filename p p' i j o o' o'' c ci c' ci' :
  page_opened filename p i j o o' -> touches (page_fds p) [i; j] o' o'' -> two_files o' i j p c ci ->
  two_files o'' i j p' c' ci' -> page_fds p' = page_fds p ->
  lp_filename p' = lp_filename p -> lp_idxfilename p' = lp_idxfilename p ->
  page_opened filename p' i j o o''.
Proof.
  intros [] Ht Hf Hf' Hfds Hn Hx. constructor; rewrite ?Hfds, ?Hn, ?Hx; try done.
  - by rewrite (to_names _ _ _ _ Ht).
  - intros k Hi Hj. rewrite (to_inodes _ _ _ _ Ht); [by apply pg_inodes0|]. not_in.
  - intros fd Hfd. rewrite (to_fds _ _ _ _ Ht); [by apply pg_fds0|].
    intros Hin. pose proof (pg_new0 _ Hin). lia.
  - intros fd. rewrite (to_next _ _ _ _ Ht). apply pg_new0.
  - exact (two_files_wf _ _ _ _ _ _ _ _ _ _ Hf Hf' Ht pg_wf0).
  - by apply Ht.
Qed.

Lemma pagePrepare_spec o filename :
  os_wf o -> no_faults o -> name_ok filename ->
  exists p i j o', pagePrepare filename o = Done (Some p, o') /\ page_opened filename p i j o o' /\
    two_files o' i j p (contents o filename) [] /\ p = mk_LogPage [] 0 0 0 0 0 filename (idx_name filename) (lp_file p) (lp_idxfile p) 0.
Proof.
  intros Hw Hn Hname. unfold pagePrepare, path_name. unfold name_ok in Hname.
  fold (idx_name filename).
  assert (length (idx_name filename) = length filename + 4)%nat as Hlen by (unfold idx_name; by rewrite length_app).
  rewrite !safesnprintf_fits by lia. run_refl. run_refl.
  destruct (FileOpen_spec o filename (mk_flags false true true false) Hw Hn eq_refl eq_refl)
    as (i & f & o1 & Hrun & Hop & Hf).
  set (p0 := mk_LogPage _ _ _ _ _ _ _ _ _ _ _).
  assert (on_file p0 (fun f => let* (rc, _, f) := FileOpen f filename (mk_flags false true true false) in ret (rc, f)) o
          = Done ((RR_OK, p0 <| lp_file := f |>), o1)) as Hrun'.
  { apply on_file_done. by run_step Hrun. }
  rewrite (bind_done_eq _ _ _ _ _ Hrun'). cbv beta iota. cbn [negb Z.eqb RR_OK].
  destruct (FileOpen_spec o1 (idx_name filename) (mk_flags false true true true) (op_wf _ _ _ _ _ _ Hop)
              (op_plan _ _ _ _ _ _ Hop Hn) eq_refl eq_refl)
    as (j & g & o2 & Hrun2 & Hop2 & Hg).
  set (p1 := p0 <| lp_file := f |>).
  assert (on_idx p1 (fun f => let* (rc, _, f) := FileOpen f (idx_name filename) (mk_flags false true true true) in ret (rc, f)) o1
          = Done ((RR_OK, p1 <| lp_idxfile := g |>), o2)) as Hrun2'.
  { apply on_idx_done. by run_step Hrun2. }
  rewrite (bind_done_eq _ _ _ _ _ Hrun2'). cbv beta iota. cbn [negb Z.eqb RR_OK].
  exists (p1 <| lp_idxfile := g |>), i, j, o2. split; [done|].
  destruct Hop as [En Ei Ef [Hge Hlt] Hfr _ Hwf Hpl]. destruct Hop2 as [En2 Ei2 Ef2 [Hge2 Hlt2] Hfr2 _ Hwf2 Hpl2].
  assert (i <> j) as Hij.
  { intros <-. assert (filename = idx_name filename) as E; [|rewrite <- E in Hlen; lia].
    eapply (wf_inj _ Hwf2); rewrite En2, En; [|by rewrite lookup_insert_eq].
    rewrite lookup_insert_ne, lookup_insert_eq; [done|]. intros E. rewrite E in Hlen. lia. }
  split; [constructor|split; [constructor|]]; cbn; try done; try (by auto).
  - by rewrite En2, En.
  - intros k Hki Hkj. by rewrite Ei2, Ei, !lookup_insert_ne by done.
  - intros fd Hfd. rewrite Ef2, Ef, !lookup_insert_ne by lia. done.
  - intros fd. rewrite list_elem_of_In. cbn. intros [<-|[<-|[]]]; lia.
  - destruct Hfr as [[? _]|(? & ? & _)]; [by left|by right].
  - destruct Hfr2 as [[Hl _]|(Hl & Hlj & _)]; rewrite En in Hl.
    + left. rewrite lookup_insert_ne in Hl; [done|]. intros E. rewrite <- E in Hlen. lia.
    + right. rewrite lookup_insert_None in Hl. destruct Hl. split; [done|lia].
  - assert (fd_lookup o2 (f_fd f) = fd_lookup o1 (f_fd f)) as El.
    { unfold fd_lookup. rewrite Ef2, lookup_insert_ne by lia. rewrite Ei2, Ef, lookup_insert_eq.
      by rewrite lookup_insert_ne. }
    destruct Hf as [(pos & d & Hl & Hc) ? ? ?]. constructor; try done. exists pos, d. by rewrite El.
  - lia.
Qed.

(** [pageOpen] accepts a file that starts with a complete header. *)
Lemma pageOpen_spec o filename q rest :
  os_wf o -> no_faults o -> name_ok filename -> header_ok q ->
  contents o filename = header_bytes q ++ rest ->
  exists p i j o', pageOpen filename o = Done (Some p, o') /\ page_opened filename p i j o o' /\
    two_files o' i j p (header_bytes q ++ rest) [] /\ header_ok p /\ header_text p = header_text q /\
    lp_prev_log_idx p = lp_prev_log_idx q /\ lp_prev_log_term p = lp_prev_log_term q /\
    lp_dbid p = lp_dbid q /\ lp_node_id p = lp_node_id q.
Proof.
  intros Hw Hn Hname Hq Hc. unfold pageOpen.
  destruct (pagePrepare_spec o filename Hw Hn Hname) as (p & i & j & o1 & Hrun & Hop & Ht & _).
  rewrite (bind_done_eq _ _ _ _ _ Hrun). cbv beta iota. rewrite Hc in Ht.
  destruct (pageReadHeader_spec o1 i p q rest (tf_file _ _ _ _ _ _ Ht) Hq (pg_plan _ _ _ _ _ _ Hop))
    as (f & o2 & Hrun2 & Ho & Hfd & Hr).
  rewrite (bind_done_eq _ _ _ _ _ Hrun2). cbv beta iota.
  set (p1 := set_header q (p <| lp_file := f |>)).
  assert (lp_dbid p1 = lp_dbid q /\ lp_node_id p1 = lp_node_id q /\
          lp_prev_log_term p1 = lp_prev_log_term q /\ lp_prev_log_idx p1 = lp_prev_log_idx q /\
          lp_file p1 = f /\ lp_idxfile p1 = lp_idxfile p /\ lp_filename p1 = lp_filename p /\
          lp_idxfilename p1 = lp_idxfilename p)
    as (E1 & E2 & E3 & E4 & E5 & E6 & E7 & E8) by done.
  assert (header_text p1 = header_text q) as Eh by (by apply header_text_fields).
  assert (header_ok p1) as Hh1 by (by destruct Hq; constructor; rewrite ?E1, ?E2, ?E3, ?E4).
  clearbody p1. rewrite (pageGenerateHeader_text p1 Hh1). run_refl.
  change (sc_crc32 0 (header_text p1)) with (header_crc p1). rewrite (header_crc_header q p1 Eh).
  rewrite Z.eqb_refl. cbn [negb].
  assert (page_fds p1 = page_fds p) as Efds by (unfold page_fds; congruence).
  assert (two_files o2 i j p1 (header_bytes q ++ rest) []) as Ht1.
  { destruct Ht. constructor; [rewrite E5; by eapply file_reading_ok| |congruence|done].
    rewrite E6. eapply file_ok_only; eauto. }
  exists p1, i, j, o2. split; [done|]. split; [|done].
  eapply page_opened_touches; [exact Hop| |exact Ht|exact Ht1|done..]. by apply only_page_file.
Qed.

(** The kernel after syncing the directory. *)
Definition dir_synced (pl : list Z) (o : os) : os := o <| os_past := [] |> <| os_plan := pl |>.

Lemma os_wf_dir_synced pl o : os_wf o -> os_wf (dir_synced pl o).
Proof. intros []. by constructor. Qed.

Lemma fsyncDir_spec o :
  no_faults o -> exists pl, fsyncDir_calls o = Done (true, dir_synced pl o) /\
    fsyncDir o = Done (tt, dir_synced pl o) /\ no_faults (dir_synced pl o).
Proof.
  intros Hn. destruct (sys_ok_no_faults o Hn) as (pl3 & Hrun3 & Hn3).
  destruct (sys_ok_no_faults _ Hn3) as (pl4 & Hrun4 & Hn4).
  destruct (sys_ok_no_faults (dir_synced pl4 o) Hn4) as (pl5 & Hrun5 & Hn5).
  exists pl5.
  assert (fsyncDir_calls o = Done (true, dir_synced pl5 o)) as Hcalls.
  { assert (sys_fsync_dir (o <| os_plan := pl3 |>) = Done (true, dir_synced pl4 o)) as Hfs
      by (unfold sys_fsync_dir; by run_step Hrun4).
    unfold fsyncDir_calls. run_step Hrun3. cbn [negb]. run_step Hfs. cbn [negb]. by run_step Hrun5. }
  split; [exact Hcalls|]. split; [|exact Hn5]. unfold fsyncDir. by run_step Hcalls.
Qed.

(** [pageCreate] gives an empty page, whatever the file held. *)
Lemma pageCreate_spec o filename dbid node_id term idx :
  os_wf o -> no_faults o -> name_ok filename ->
  let q := mk_LogPage dbid node_id term idx 0 idx filename (idx_name filename) FileInit FileInit 0 in
  header_ok q ->
  exists p i j o', pageCreate filename dbid node_id term idx o = Done (Some p, o') /\
    page_opened filename p i j o o' /\ page_ok o' i j p [] /\ f_wbuf (lp_file p) = [] /\
    lp_dbid p = dbid /\ lp_node_id p = node_id /\ lp_prev_log_term p = term /\ lp_prev_log_idx p = idx.
Proof.
  intros Hw Hn Hname q Hq. unfold pageCreate.
  destruct (pagePrepare_spec o filename Hw Hn Hname) as (p & i & j & o1 & Hrun & Hop & Ht & Ep).
  rewrite (bind_done_eq _ _ _ _ _ Hrun). cbv beta iota.
  assert (take (Z.to_nat RAFT_DBID_LEN) dbid = dbid) as Edb.
  { apply take_ge. pose proof (ho_dbid _ Hq). subst q. cbn in *. unfold RAFT_DBID_LEN in *. lia. }
  assert (lp_num_entries p = 0) as En by (by rewrite Ep).
  rewrite Edb. cbv zeta. set (p1 := _ <| lp_node_id := node_id |>).
  assert (lp_dbid p1 = dbid /\ lp_node_id p1 = node_id /\ lp_prev_log_term p1 = term /\
          lp_prev_log_idx p1 = idx /\ lp_file p1 = lp_file p /\ lp_idxfile p1 = lp_idxfile p /\
          lp_filename p1 = lp_filename p /\ lp_idxfilename p1 = lp_idxfilename p)
    as (E1 & E2 & E3 & E4 & E5 & E6 & E7 & E8) by done.
  assert (lp_num_entries p1 = 0) as E9 by exact En.
  assert (lp_index p1 = idx) as E10 by done.
  assert (header_ok p1) as Hh1 by (by destruct Hq; constructor; rewrite ?E1, ?E2, ?E3, ?E4).
  clearbody p1.
  assert (two_files o1 i j p1 (contents o filename) []) as Ht1.
  { destruct Ht. constructor; rewrite ?E5, ?E6; done. }
  assert (page_fds p1 = page_fds p) as Efds by (unfold page_fds; congruence).
  destruct (pageWriteHeader_spec o1 i j p1 _ _ Ht1 Hh1) as (rc & p2 & o2 & Hrun2 & Hto & Hfds & Hres).
  rewrite (bind_done_eq _ _ _ _ _ Hrun2). cbv beta iota. rewrite Efds in *.
  destruct Hres as [(-> & (p3 & Hs & E) & Hw2 & Ht2)|[_ Hx]]; [|by destruct Hx; apply Hop].
  cbn [negb Z.eqb RR_OK].
  assert (page_opened filename p2 i j o o2) as Hop2.
  { eapply page_opened_touches; [exact Hop|exact Hto|exact Ht|exact Ht2|done|..];
      rewrite E; destruct Hs as (f & g & -> & _ & _); cbn; by rewrite ?E7, ?E8. }
  assert (header_text p2 = header_text p1) as Eh.
  { rewrite E. rewrite <- (same_page_header _ _ Hs). by apply header_text_fields. }
  assert (page_ok o2 i j p2 []) as Hp2.
  { constructor.
    - unfold page_bytes. cbn [entries_bytes]. rewrite app_nil_r, (header_bytes_header _ _ Eh).
      destruct Ht2. by constructor.
    - rewrite E. destruct Hs as (f & g & -> & _ & _). destruct Hh1. by constructor.
    - done.
    - rewrite E. destruct Hs as (f & g & -> & _ & _). done.
    - rewrite E. destruct Hs as (f & g & -> & _ & _). cbn. lia.
    - rewrite E at 1. cbn. by rewrite (header_crc_header _ _ Eh). }
  destruct (fsyncDir_spec o2 (pg_plan _ _ _ _ _ _ Hop2)) as (pl5 & _ & Hfs & Hn5).
  rewrite (bind_done_eq _ _ _ _ _ Hfs). cbv beta iota.
  exists p2, i, j, (dir_synced pl5 o2). split; [done|].
  split. { destruct Hop2. constructor; try done. by apply os_wf_dir_synced. }
  split. { destruct Hp2 as [[[] [] ? ?] ? ? ? ? ?]. by constructor. }
  split; [done|]. rewrite E. destruct Hs as (f & g & -> & _ & _). done.
Qed.
