(* ===== verification/PageRecovery.v ===== *)
(** * Recovering a log file

    What opening and loading a log file gives after a crash: the file holds
    some first bytes of what has been written.  Also the round trip of an entry
    through the file. *)

From stdpp Require Import base list numbers tactics gmap strings.
From S2P Require Import Prelude RaftTypes Crc Libc File Multibulk PageLog PageCodec PageSpec PageLoad PageOpen.

Local Open Scope Z_scope.

(** [pageOpen] and [pageLoadEntries], as [LogOpen] and [LogLoadEntries] call
    them. *)
Definition reopen (filename : list Z) : M os (option (Z * LogPage)) :=
  p <- pageOpen filename ;;
  match p with
  | None => ret None
  | Some p => let* (rc, p) := pageLoadEntries p in ret (Some (rc, p))
  end.

(** C23 (functional). A log file is recovered up to the last entry of which all
    bytes are in the file: let the file hold the first [n] bytes of the log
    [es] of header [q], at least the header.  Then opening and loading it
    succeeds, whatever short reads and writes the kernel makes, and the page
    holds the first [k] entries, where [k] is as large as the [n] bytes allow. *)
Theorem page_recovers o filename q es n :
  os_wf o -> no_faults o -> name_ok filename -> header_ok q -> Forall entry_ok es ->
  contents o filename = take n (page_bytes q es) -> (length (header_bytes q) <= n)%nat ->
  page_small q es ->
  exists k p i j o', reopen filename o = Done (Some (RR_OK, p), o') /\
    page_ok o' i j p (take k es) /\ os_names o' !! filename = Some i /\
    header_text p = header_text q /\ lp_prev_log_idx p = lp_prev_log_idx q /\
    (k <= length es)%nat /\
    (forall k', (k' <= length es)%nat -> (length (page_bytes q (take k' es)) <= n)%nat -> (k' <= k)%nat).
Proof.
  intros Hw Hn Hname Hq Hes Hc Hlen Hsm.
  destruct (page_bytes_prefix q es n Hq Hes Hlen) as (k & tail & Etake & Hbad & Hk & Hmax).
  assert (Forall entry_ok (take k es)) as Hes' by by apply Forall_take.
  assert (Z.of_nat (length (page_bytes q (take k es) ++ tail)) < 2 ^ 63) as Hsz.
  { rewrite <- Etake, length_take. unfold page_small in Hsm. lia. }
  assert (page_bytes q (take k es) ++ tail = header_bytes q ++ entries_bytes (header_crc q) (take k es) ++ tail) as E.
  { unfold page_bytes. by rewrite <- app_assoc. }
  rewrite Etake, E in Hc.
  destruct (pageOpen_spec o filename q _ Hw Hn Hname Hq Hc)
    as (p & i & j & o1 & Hrun & Hop & Ht & Hh & Eh & Ei & _).
  rewrite <- E, <- (page_bytes_header _ _ Eh) in Ht. rewrite <- (page_bytes_header _ _ Eh) in Hsz.
  rewrite <- (header_crc_header _ _ Eh) in Hbad.
  destruct (pageLoadEntries_spec o1 i j p (take k es) tail (pg_plan _ _ _ _ _ _ Hop) Hh Hes' Ht Hsz Hbad)
    as (p' & o2 & Hrun2 & Hp' & Eh' & Ei' & Hto & _).
  exists k, p', i, j, o2. split; [|split; [done|]].
  - unfold reopen. rewrite (bind_done_eq _ _ _ _ _ Hrun). cbv beta iota.
    by rewrite (bind_done_eq _ _ _ _ _ Hrun2).
  - split_and!; try congruence; try done.
    rewrite (to_names _ _ _ _ Hto), (pg_names _ _ _ _ _ _ Hop).
    rewrite lookup_insert_ne, lookup_insert_eq; [done|].
    intros Ex%(f_equal length). unfold idx_name in Ex. rewrite length_app in Ex. cbn in Ex. lia.
Qed.

(** ** Torn headers *)

Lemma pageFree_close_spec o i j p c ci :
  two_files o i j p c ci ->
  exists o', pageFree p false o = Done (tt, o') /\ touches (page_fds p) [i; j] o o' /\ (os_wf o -> os_wf o') /\
    (no_faults o -> f_fd (lp_file p) <> -1 -> os_inodes o' !! i = Some c).
Proof.
  intros [Hf Hg Hne Hij]. unfold pageFree.
  destruct (FileTerm_spec _ _ _ _ Hf) as (rc & f & o1 & Hrun & Ho & Hi & Hc & Hrc).
  rewrite (bind_done_eq _ _ _ _ _ Hrun).
  destruct (FileTerm_spec o1 (lp_idxfile p) j ci) as (rc2 & g & o2 & Hrun2 & Ho2 & Hj & _ & _).
  { by eapply file_ok_only. }
  rewrite (bind_done_eq _ _ _ _ _ Hrun2). exists o2. split; [done|].
  assert (touches (page_fds p) [i; j] o o2) as Hto by (etrans; [by apply only_page_file|by apply only_page_idx]).
  split; [done|]. split.
  - apply (os_wf_touches _ _ _ _ Hto).
    + intros fd. rewrite list_elem_of_In. intros [<-|[<-|[]]]; by eapply file_ok_exists.
    + intros k. rewrite list_elem_of_In.
      intros [<-|[<-|[]]]; (split; [by eapply file_ok_exists|]); [|done].
      by rewrite (only_inodes _ _ _ _ Ho2).
  - intros Hn Hfd. rewrite (only_inodes _ _ _ _ Ho2) by done. auto.
Qed.

Lemma pageReadHeader_none o i p c :
  file_ok o (lp_file p) i c -> no_faults o -> parse_header c = None ->
  exists f o', pageReadHeader p o = Done ((None, p <| lp_file := f |>), o') /\
    only (f_fd (lp_file p)) i o o' /\ f_fd f = f_fd (lp_file p) /\ file_ok o' f i c.
Proof.
  intros Hf Hn Hpn. unfold pageReadHeader.
  destruct (FileSetReadOffset_spec _ _ _ _ 0 Hf) as (rc & f1 & o1 & Hrun & Ho & Hfd & Hres); [lia|].
  rewrite (bind_done_eq _ _ _ _ _ (on_file_done p (fun f => FileSetReadOffset f 0) _ _ _ _ Hrun)).
  cbv beta iota. destruct Hres as [[-> Hr]|(_ & Hx & _)]; [|done]. cbn [negb Z.eqb RR_OK].
  destruct (read_header_implements _ _ _ _ _ Hr) as (a & f2 & o2 & Hrun2 & Ho2 & Hfd2 & Hres2).
  rewrite drop_0, Hpn in Hres2. destruct Hres2 as [-> Hf2]. set (p1 := p <| lp_file := f1 |>).
  rewrite (bind_done_eq _ _ _ _ _ (on_file_done p1 read_header _ _ _ _ Hrun2)). cbv beta iota.
  exists f2, o2. rewrite Hfd in Ho2, Hfd2. split; [done|]. split; [by etrans|done].
Qed.

(** A log file whose header is torn is refused: [pageOpen] closes it
    and returns nothing, and the file keeps its bytes. *)
Theorem torn_header_refused o filename q n :
  os_wf o -> no_faults o -> name_ok filename -> header_ok q -> (n < length (header_bytes q))%nat ->
  contents o filename = take n (header_bytes q) ->
  exists o', pageOpen filename o = Done (None, o') /\ no_faults o' /\
    contents o' filename = take n (header_bytes q).
Proof.
  intros Hw Hn Hname Hq Hlt Hc. unfold pageOpen.
  destruct (pagePrepare_spec o filename Hw Hn Hname) as (p & i & j & o1 & Hrun & Hop & Ht & Ep).
  rewrite (bind_done_eq _ _ _ _ _ Hrun). cbv beta iota. rewrite Hc in Ht.
  set (c := take n (header_bytes q)) in *.
  assert (parse_header c = None) as Hpn.
  { apply (enc_torn _ _ _ (encodes_header q Hq) _ (drop n (header_bytes q))); [apply take_drop|].
    intros E%(f_equal length). rewrite length_drop in E. cbn [length] in E. lia. }
  pose proof (pg_plan _ _ _ _ _ _ Hop) as Hn1.
  destruct (pageReadHeader_none o1 i p c (tf_file _ _ _ _ _ _ Ht) Hn1 Hpn) as (f & o2 & Hrun2 & Ho & Hfd & Hf).
  rewrite (bind_done_eq _ _ _ _ _ Hrun2). cbv beta iota.
  destruct (pageFree_close_spec o2 i j (p <| lp_file := f |>) c []) as (o3 & Hrun3 & Hto & _ & Hino).
  { by eapply two_files_set_file. }
  rewrite (bind_done_eq _ _ _ _ _ Hrun3). exists o3. split; [done|].
  split; [by apply Hto, Ho|].
  assert (f_fd f <> -1) as Hne.
  { rewrite Hfd. pose proof (wf_next _ Hw).
    pose proof (pg_new _ _ _ _ _ _ Hop (f_fd (lp_file p)) ltac:(by left)). lia. }
  unfold contents. rewrite (to_names _ _ _ _ Hto), (only_names _ _ _ _ Ho), (pg_names _ _ _ _ _ _ Hop).
  rewrite lookup_insert_ne, lookup_insert_eq.
  - cbn. rewrite Hino; [done|by apply Ho|done].
  - intros Ex%(f_equal length). unfold idx_name in Ex. rewrite length_app in Ex. cbn in Ex. lia.
Qed.

(** ** One entry *)

(** (roundtrip). Reading back an entry of a log file: what
    [generateEntryHeader] and [multibulkWriteLong] produced for an entry and
    its checksum (neither overflows its buffer), whatever is before and behind
    it in the file, is read as that entry and that checksum, and the file is
    positioned behind it; if the file ends within those bytes, nothing is
    read. *)
Theorem entry_roundtrip e crc before after :
  entry_ok e -> 0 <= crc < 2 ^ 32 ->
  exists header crc_text,
    generateEntryHeader e 1024 = Some header /\ multibulkWriteLong crc 1024 = Some crc_text /\
    let bytes := header ++ ety_data e ++ crlf ++ crc_text in
    let offset := Z.of_nat (length before) in
    (forall o f i, no_faults o -> file_reading o f i (before ++ bytes ++ after) offset ->
       exists f' o', read_entry f o = Done ((Some (e, crc), f'), o') /\
         file_reading o' f' i (before ++ bytes ++ after) (offset + Z.of_nat (length bytes))) /\
    (forall o f i n, (n < length bytes)%nat -> file_reading o f i (before ++ take n bytes) offset ->
       exists f' o', read_entry f o = Done ((None, f'), o')).
Proof.
  intros He Hcrc. exists (entry_text e), (bulk (dec_signed crc)).
  split; [by apply generateEntryHeader_text|]. split; [apply write_crc_fits; lia|].
  cbv zeta. fold (entry_bytes crc e). pose proof (encodes_entry crc e Hcrc He) as Henc. split.
  - intros o f i Hn Hr.
    destruct (read_entry_implements _ _ _ _ _ Hr) as (a & f' & o' & Hrun & _ & _ & Hres).
    rewrite Nat2Z.id, drop_app_length, (enc_parse _ _ _ Henc) in Hres.
    destruct Hres as [[-> Hr']|(_ & Hx & _)]; [|done]. by exists f', o'.
  - intros o f i n Hlt Hr.
    destruct (read_entry_implements _ _ _ _ _ Hr) as (a & f' & o' & Hrun & _ & _ & Hres).
    rewrite Nat2Z.id, drop_app_length in Hres.
    rewrite (enc_torn _ _ _ Henc _ (drop n (entry_bytes crc e))) in Hres.
    + destruct Hres as [-> _]. by exists f', o'.
    + apply take_drop.
    + intros E%(f_equal length). rewrite length_drop in E. cbn [length] in E. lia.
Qed.

(** ** A log file that is read while the disk fails *)

Definition demo_dbid : list Z := replicate 32 97.
Definition demo_header : LogPage := mk_LogPage demo_dbid 1 0 0 0 0 [] [] FileInit FileInit 0.
Definition demo_log_entries : list raft_entry :=
  [mk_entry 1 11 7 RAFT_LOGTYPE_NORMAL [104; 105]; mk_entry 1 12 7 RAFT_LOGTYPE_NORMAL [];
   mk_entry 2 13 7 RAFT_LOGTYPE_NORMAL [33]].

(** The kernel after a restart: the log file holds the first [n] bytes of the
    demo log. *)
Definition demo_disk (filename : list Z) (n : nat) (plan : list Z) : os :=
  mk_os {[ filename := 3 ]} {[ 3 := take n (page_bytes demo_header demo_log_entries) ]} ∅ 4 ∅ [] plan.

Definition demo_name : list Z := bytes_of "redisraft.db"%string.

Lemma demo_disk_wf filename n plan : os_wf (demo_disk filename n plan).
Proof.
  constructor; cbn.
  - intros i [d Hd%lookup_singleton_Some]. lia.
  - intros fd [x Hx]. by rewrite lookup_empty in Hx.
  - lia.
  - intros path i [_ <-]%lookup_singleton_Some. by rewrite lookup_singleton_eq.
  - intros p1 p2 i [<- _]%lookup_singleton_Some [<- _]%lookup_singleton_Some. done.
Qed.

Lemma demo_disk_contents filename n plan :
  contents (demo_disk filename n plan) filename = take n (page_bytes demo_header demo_log_entries).
Proof. unfold contents, demo_disk. cbn. by rewrite !lookup_singleton_eq. Qed.

Lemma demo_header_ok : header_ok demo_header.
Proof.
  constructor; [done|apply Forall_replicate; lia|cbn; unfold int32, int64; lia..].
Qed.

Lemma demo_log_entries_ok : Forall entry_ok demo_log_entries.
Proof.
  unfold demo_log_entries.
  repeat constructor; cbn; unfold int32, int64, is_byte, RAFT_LOGTYPE_NORMAL; lia.
Qed.

(** The last entry has lost its last byte; reads transfer at most 50 bytes. *)
Lemma page_recovers_witness :
  exists k p i j o', reopen demo_name (demo_disk demo_name 300 (replicate 7 50)) = Done (Some (RR_OK, p), o') /\
    page_ok o' i j p (take k demo_log_entries) /\ (2 <= k <= 3)%nat.
Proof.
  destruct (page_recovers (demo_disk demo_name 300 (replicate 7 50)) demo_name demo_header demo_log_entries 300)
    as (k & p & i & j & o' & Hrun & Hp & _ & _ & _ & Hk & Hmax).
  - apply demo_disk_wf.
  - unfold no_faults. cbn. repeat constructor; lia.
  - apply (bool_decide_unpack _). vm_compute. exact I.
  - apply demo_header_ok.
  - apply demo_log_entries_ok.
  - apply demo_disk_contents.
  - apply (bool_decide_unpack _). vm_compute. exact I.
  - unfold page_small. apply (bool_decide_unpack _). vm_compute. exact I.
  - exists k, p, i, j, o'. split; [exact Hrun|]. split; [exact Hp|]. split; [|exact Hk].
    apply Hmax; apply (bool_decide_unpack _); vm_compute; exact I.
Defined.

Lemma torn_header_refused_witness :
  exists o', pageOpen demo_name (demo_disk demo_name 98 []) = Done (None, o') /\ no_faults o' /\
    contents o' demo_name = take 98 (header_bytes demo_header).
Proof.
  apply (torn_header_refused (demo_disk demo_name 98 []) demo_name demo_header 98).
  - apply demo_disk_wf.
  - constructor.
  - apply (bool_decide_unpack _). vm_compute. exact I.
  - apply demo_header_ok.
  - apply (bool_decide_unpack _). vm_compute. exact I.
  - rewrite demo_disk_contents. reflexivity.
Defined.

Lemma entry_roundtrip_witness :
  entry_ok (mk_entry 1 11 7 RAFT_LOGTYPE_NORMAL [104; 105]) /\ 0 <= 4294967295 < 2 ^ 32 /\
  exists header crc_text, generateEntryHeader (mk_entry 1 11 7 RAFT_LOGTYPE_NORMAL [104; 105]) 1024 = Some header /\
    multibulkWriteLong 4294967295 1024 = Some crc_text.
Proof.
  pose proof (Forall_lookup_1 _ demo_log_entries 0 _ demo_log_entries_ok eq_refl) as He.
  split; [exact He|]. split; [lia|].
  destruct (entry_roundtrip (mk_entry 1 11 7 RAFT_LOGTYPE_NORMAL [104; 105]) 4294967295 [] [] He ltac:(lia))
    as (header & crc_text & H1 & H2 & _).
  by exists header, crc_text.
Defined.

(** A read error while the log is loaded is taken for the end of the
    log: with all of the demo log in the file, [pageLoadEntries] reports
    success, but the page holds the first entry only, and the file has been cut
    behind it. *)
Theorem load_read_error_discards_entries :
  let o := demo_disk demo_name 301 (replicate 7 5000 ++ [200; -1]) in
  contents o demo_name = page_bytes demo_header demo_log_entries /\
  match reopen demo_name o with
  | Done (Some (rc, p), o') =>
      rc = RR_OK /\ lp_num_entries p = 1 /\
      contents o' demo_name = page_bytes demo_header (take 1 demo_log_entries)
  | _ => False
  end.
Proof. vm_compute. auto. Qed.
