(* ===== verification/Disk.v ===== *)
(** * What a power failure leaves

    The kernel of [Libc] records which files ([os_dirty]) and which changes of
    the directory ([os_past]) have not been synced.  After a power failure the
    directory is the current one or one of those since its last sync (changes of
    a directory are atomic and reach the disk in order), a file that is not
    dirty has its contents, and a dirty one has any. *)

From stdpp Require Import base list numbers tactics gmap.
From S2P Require Import Prelude Libc File Multibulk PageSpec PageOpen.

Local Open Scope Z_scope.

(** The directories that can be found after a power failure. *)
Definition dirs (o : os) : list (gmap (list Z) Z) := os_names o :: os_past o.

Record crash_image (o o' : os) : Prop := {
  ci_dir : os_names o' ∈ dirs o;
  ci_exists i : is_Some (os_inodes o' !! i) <-> is_Some (os_inodes o !! i);
  ci_clean i : i ∉ os_dirty o -> os_inodes o' !! i = os_inodes o !! i;
  ci_fds : os_fds o' = ∅;
  ci_next : os_next o <= os_next o';
  ci_dirty : os_dirty o' = ∅;
  ci_past : os_past o' = []
}.

(** The file [path] in directory [D]. *)
Definition file_in (o : os) (D : gmap (list Z) Z) (path : list Z) : option (list Z) :=
  D !! path ≫= fun i => os_inodes o !! i.

(** Whatever a power failure leaves, [path] satisfies [P]. *)
Definition on_disk (o : os) (path : list Z) (P : option (list Z) -> Prop) : Prop :=
  forall D, D ∈ dirs o -> P (file_in o D path) /\ forall i, D !! path = Some i -> i ∉ os_dirty o.

Lemma on_disk_image o o' path P :
  on_disk o path P -> crash_image o o' -> P (file_in o' (os_names o') path).
Proof.
  intros Ho Hc. destruct (Ho _ (ci_dir _ _ Hc)) as [HP Hd]. revert HP. unfold file_in.
  destruct (os_names o' !! path) as [i|] eqn:Ei; [|done]. cbn.
  by rewrite (ci_clean _ _ Hc) by auto.
Qed.

Lemma on_disk_weaken o path (P Q : option (list Z) -> Prop) :
  (forall c, P c -> Q c) -> on_disk o path P -> on_disk o path Q.
Proof. intros HPQ Ho D HD. destruct (Ho D HD). auto. Qed.

(** ** Well-formed disks *)

Record dir_wf (o : os) (D : gmap (list Z) Z) : Prop := {
  dir_exists path i : D !! path = Some i -> is_Some (os_inodes o !! i);
  dir_inj path path' i : D !! path = Some i -> D !! path' = Some i -> path = path'
}.

Record disk_wf (o : os) : Prop := {
  dw_wf : os_wf o;
  dw_past D : D ∈ os_past o -> dir_wf o D
}.

Lemma os_wf_dir o : os_wf o -> dir_wf o (os_names o).
Proof. intros []. by constructor. Qed.

Lemma disk_wf_dirs o D : disk_wf o -> D ∈ dirs o -> dir_wf o D.
Proof.
  intros [Hw Hp] [->|HD]%elem_of_cons; [by apply os_wf_dir|auto].
Qed.

Lemma crash_image_wf o o' : disk_wf o -> crash_image o o' -> disk_wf o'.
Proof.
  intros Hw Hc. destruct (disk_wf_dirs _ _ Hw (ci_dir _ _ Hc)) as [He Hi]. destruct Hw as [[]].
  destruct Hc. constructor; [constructor|].
  - intros i Hx%ci_exists0%wf_inodes. lia.
  - intros fd [x Hx]. by rewrite ci_fds0, lookup_empty in Hx.
  - lia.
  - intros path i Hx%He. by apply ci_exists0.
  - exact Hi.
  - rewrite ci_past0. intros D HD. by apply elem_of_nil in HD.
Qed.

(** ** A file that is prepared under another name

    While [tmp] is written, [path] stays as it is, for every power failure. *)
Section Staging.
Context (path tmp : list Z) (c : option (list Z)).

Record staging (o : os) : Prop := {
  st_wf : disk_wf o;
  st_apart i D : os_names o !! tmp = Some i -> D ∈ dirs o -> D !! path <> Some i;
  st_disk : on_disk o path (eq c)
}.

(** Only the descriptors and the plan differ. *)
Lemma staging_fds o o' :
  os_names o' = os_names o -> os_inodes o' = os_inodes o -> os_dirty o' = os_dirty o ->
  (os_past o' = os_past o \/ os_past o' = []) -> os_next o <= os_next o' ->
  (forall fd, is_Some (os_fds o' !! fd) -> fd < os_next o') -> staging o -> staging o'.
Proof.
  intros Hn Hi Hd Hp Hx Hf [[[] Hpast] Ha Hdisk].
  assert (forall D, D ∈ dirs o' -> D ∈ dirs o) as Hdirs.
  { unfold dirs. rewrite Hn. destruct Hp as [-> | ->]; [done|]. set_solver. }
  split; [split; [constructor|]| |].
  - rewrite Hi. intros i Hs%wf_inodes. lia.
  - exact Hf.
  - lia.
  - by rewrite Hn, Hi.
  - by rewrite Hn.
  - intros D HD. destruct Hp as [E|E]; rewrite E in HD; [|by apply elem_of_nil in HD].
    destruct (Hpast D HD). constructor; [by rewrite Hi|done].
  - rewrite Hn. eauto.
  - intros D HD%Hdirs. unfold file_in. rewrite Hi, Hd. by apply Hdisk.
Qed.

(** What is done to the file [tmp] does not matter. *)
Lemma staging_only fd i o o' :
  only fd i o o' -> os_names o !! tmp = Some i -> is_Some (os_fds o !! fd) ->
  is_Some (os_inodes o' !! i) -> staging o -> staging o'.
Proof.
  intros Ho Htmp Hfd Hi [[Hw Hp] Ha Hd].
  assert (dirs o' = dirs o) as Edirs by (unfold dirs; by rewrite (only_names _ _ _ _ Ho), (only_past _ _ _ _ Ho)).
  assert (forall k, is_Some (os_inodes o !! k) -> is_Some (os_inodes o' !! k)) as Hex.
  { intros k. destruct (decide (k = i)) as [->|]; [done|]. by rewrite (only_inodes _ _ _ _ Ho). }
  split; [split| |].
  - apply (os_wf_touches [fd] [i] o o'); try done.
    + eapply only_touches; [exact Ho|by left|by left].
    + by intros k ->%list_elem_of_singleton.
    + intros k ->%list_elem_of_singleton. split; [|done]. by eapply wf_names.
  - rewrite (only_past _ _ _ _ Ho). intros D HD. destruct (Hp D HD). constructor; eauto.
  - rewrite (only_names _ _ _ _ Ho), Edirs. eauto.
  - intros D HD. rewrite Edirs in HD. destruct (Hd D HD) as [Hc Hdirty]. unfold file_in in *.
    destruct (D !! path) as [k|] eqn:Ek; [|done]. cbn in *.
    assert (k <> i) as Hki by (intros ->; by apply (Ha i D)).
    rewrite (only_inodes _ _ _ _ Ho) by done. split; [done|]. intros ? [= <-].
    rewrite (only_dirty _ _ _ _ Ho) by done. auto.
Qed.

Lemma staging_opened i fd d o o' :
  tmp <> path -> opened tmp i fd d o o' -> staging o -> staging o'.
Proof.
  intros Hne Hop [Hw Ha Hd]. pose proof Hop as [En Ei _ _ Hfr Hdi Hwf _].
  assert (forall D, D ∈ dirs o' -> D = <[tmp := i]> (os_names o) \/ D ∈ dirs o) as Hdirs.
  { unfold dirs. rewrite En. intros D [->|HD]%elem_of_cons; [by left|right].
    destruct Hfr as [[_ E]|(_ & _ & E)]; rewrite E in HD; [by right|done]. }
  assert (forall D, D ∈ dirs o -> D !! path <> Some i) as Hap.
  { intros D HD Hp. destruct Hfr as [[Ht _]|(_ & Hge & _)]; [by eapply Ha|].
    destruct (disk_wf_dirs _ _ Hw HD) as [He _]. apply He, (wf_inodes _ (dw_wf _ Hw)) in Hp. lia. }
  assert (forall D, D ∈ dirs o' -> exists D0, D0 ∈ dirs o /\ D !! path = D0 !! path) as Hsame.
  { intros D [->|HD]%Hdirs; [|by exists D]. exists (os_names o). split; [by left|].
    by rewrite lookup_insert_ne. }
  split; [split; [done|]| |].
  - intros D HD. assert (D ∈ dirs o) as HD0.
    { destruct Hfr as [[_ E]|(_ & _ & E)]; rewrite E in HD; [by right|done]. }
    destruct (disk_wf_dirs _ _ Hw HD0) as [He Hi]. constructor; [|done].
    intros p k Hk%He. rewrite Ei. apply lookup_insert_is_Some'. by right.
  - intros k D Hk (D0 & HD0 & ->)%Hsame. rewrite En, lookup_insert_eq in Hk. simplify_eq. auto.
  - intros D (D0 & HD0 & E)%Hsame. specialize (Hap D0 HD0). destruct (Hd D0 HD0) as [Hc Hdirty].
    unfold file_in in *. rewrite E. destruct (D0 !! path) as [k|]; [|done]. cbn in *.
    assert (k <> i) by congruence. rewrite Ei, lookup_insert_ne by done. split; [done|].
    intros ? [= <-]. rewrite Hdi by done. auto.
Qed.

End Staging.

(** ** Reading leaves the disk alone *)

Record same_disk (o o' : os) : Prop := {
  sd_names : os_names o' = os_names o;
  sd_inodes : os_inodes o' = os_inodes o;
  sd_dirty : os_dirty o' = os_dirty o;
  sd_past : os_past o' = os_past o;
  sd_next : os_next o' = os_next o;
  sd_fds fd : is_Some (os_fds o' !! fd) -> is_Some (os_fds o !! fd)
}.

#[export] Instance same_disk_preorder : PreOrder same_disk.
Proof.
  split; [by constructor|]. intros o1 o2 o3 [] []. constructor; try congruence. auto.
Qed.

Lemma pop_plan_quiet : respects same_disk pop_plan.
Proof. unfold pop_plan. respects_solve. apply respects_modify. by constructor. Qed.
#[export] Hint Resolve pop_plan_quiet : respects.

Lemma sys_ok_quiet : respects same_disk sys_ok.
Proof. unfold sys_ok. respects_solve. Qed.

Lemma sys_count_quiet n : respects same_disk (sys_count n).
Proof. unfold sys_count. respects_solve. Qed.
#[export] Hint Resolve sys_ok_quiet sys_count_quiet : respects.

Lemma fd_update_same o fd i pos0 pos d :
  fd_lookup o fd = Some (i, pos0, d) -> same_disk o (fd_update fd i pos d o).
Proof.
  intros Hl. unfold fd_lookup in Hl. destruct (os_fds o !! fd) as [[i' p']|] eqn:Ef; [|done].
  destruct (os_inodes o !! i') eqn:Ei; [|done]. simplify_eq.
  constructor; try done; cbn; [by rewrite insert_id|].
  intros k [->|?]%lookup_insert_is_Some'; [by rewrite Ef|done].
Qed.

Lemma fd_lookup_plan o pl fd : fd_lookup (o <| os_plan := pl |>) fd = fd_lookup o fd.
Proof. done. Qed.

Lemma sys_count_lookup n o k o1 fd : sys_count n o = Done (k, o1) -> fd_lookup o1 fd = fd_lookup o fd.
Proof.
  unfold sys_count, pop_plan. intros H. apply bind_done in H as (p & o2 & H & [= _ <-]).
  apply bind_done in H as (? & ? & [= <- <-] & H). by destruct (os_plan o); run_done.
Qed.

Lemma sys_read_quiet fd cap : respects same_disk (sys_read fd cap).
Proof.
  intros o [r data] o'. unfold sys_read. intros H.
  apply bind_done in H as (? & ? & [= <- <-] & H).
  destruct (fd_lookup o fd) as [[[i pos] d]|] eqn:El; [|by run_done].
  apply bind_done in H as (k & o1 & H1 & H).
  pose proof (sys_count_quiet _ _ _ _ H1) as Ho. pose proof (sys_count_lookup _ _ _ _ fd H1) as El1.
  destruct k as [k|]; run_done; [|done]. etrans; [exact Ho|]. eapply fd_update_same. by rewrite El1.
Qed.

(** A reader on a file without pending writes. *)
Definition reader_quiet {A} (m : reader A) : Prop := forall o f a f' o',
  f_wbuf f = [] -> m f o = Done ((a, f'), o') -> same_disk o o' /\ f_wbuf f' = [].

Lemma gets_loop_quiet n cap : forall f acc remaining o r f' o',
  gets_loop n cap f acc remaining o = Done ((r, f'), o') -> same_disk o o' /\ f_wbuf f' = f_wbuf f.
Proof.
  induction n as [|n IH]; intros f acc remaining o r f' o' H; cbn [gets_loop] in H; cbv zeta in H.
  - repeat case_match; unfold ret, out_of_fuel in H; simplify_eq; done.
  - destruct (_ && _); [unfold ret in H; by simplify_eq|].
    destruct (bool_decide _); [unfold ret in H; by simplify_eq|].
    apply bind_done in H as ([bytes data] & o1 & H1%sys_read_quiet & H).
    destruct (bytes <=? 0); [unfold ret in H; by simplify_eq|].
    apply IH in H as [? E]. split; [by etrans|exact E].
Qed.

Lemma read_loop_quiet n cap : forall f acc remaining o r f' o',
  read_loop n cap f acc remaining o = Done ((r, f'), o') -> same_disk o o' /\ f_wbuf f' = f_wbuf f.
Proof.
  induction n as [|n IH]; intros f acc remaining o r f' o' H; cbn [read_loop] in H; [done|].
  apply bind_done in H as ([bytes data] & o1 & H1%sys_read_quiet & H). cbv zeta in H.
  destruct (bytes <? 0); [unfold ret in H; by simplify_eq|].
  destruct (bytes =? 0); [unfold ret in H; by simplify_eq|].
  destruct (remaining <=? bytes); [unfold ret in H; by simplify_eq|].
  apply IH in H as [? E]. split; [by etrans|exact E].
Qed.

Lemma FileFlush_quiet f o : f_wbuf f = [] -> FileFlush f o = Done ((RR_OK, f), o).
Proof. unfold FileFlush. by intros ->. Qed.

Lemma multibulkReadLen_quiet type : reader_quiet (multibulkReadLen type).
Proof.
  intros o f a f' o' Hw. unfold multibulkReadLen, FileGets. intros H.
  apply bind_done in H as ([[r line] f1] & o1 & H1 & H).
  rewrite (bind_done_eq _ _ _ _ _ (FileFlush_quiet f o Hw)) in H1. cbv beta iota in H1. cbn [negb Z.eqb RR_OK] in H1.
  apply gets_loop_quiet in H1 as [Ho E]. rewrite Hw in E. destruct (r <=? 0); run_done; done.
Qed.

Lemma read_exact_quiet cap : reader_quiet (read_exact cap).
Proof.
  intros o f a f' o' Hw. unfold read_exact, FileRead. intros H.
  apply bind_done in H as ([[r data] f1] & o1 & H1 & H).
  rewrite (bind_done_eq _ _ _ _ _ (FileFlush_quiet f o Hw)) in H1. cbv beta iota in H1. cbn [negb Z.eqb RR_OK] in H1.
  cbv zeta in H1. unfold ret in H. simplify_eq. destruct (_ =? 0) in H1.
  - unfold ret in H1. simplify_eq. done.
  - apply read_loop_quiet in H1 as [Ho E]. by rewrite E.
Qed.

Lemma rbind_quiet {A B} (m : reader A) (k : A -> reader B) :
  reader_quiet m -> (forall a, reader_quiet (k a)) -> reader_quiet (rbind m k).
Proof.
  intros Hm Hk o f b f' o' Hw. unfold rbind. intros H.
  apply bind_done in H as ([a f1] & o1 & H1 & H). apply Hm in H1 as [Ho Hw1]; [|done].
  destruct a as [a|]; [|unfold ret in H; by simplify_eq].
  apply Hk in H as [Ho' Hw']; [|done]. split; [by etrans|done].
Qed.

Lemma rret_quiet {A} (a : A) : reader_quiet (rret a).
Proof. intros o f b f' o' Hw H. unfold rret, ret in H. by simplify_eq. Qed.

Lemma rfail_quiet {A} : reader_quiet (@rfail A).
Proof. intros o f b f' o' Hw H. unfold rfail, ret in H. by simplify_eq. Qed.

Lemma FileTerm_quiet f o r f' o' :
  f_wbuf f = [] -> FileTerm f o = Done ((r, f'), o') -> same_disk o o'.
Proof.
  intros Hw H. unfold FileTerm in H. destruct (f_fd f =? -1); [unfold ret in H; by simplify_eq|].
  rewrite (bind_done_eq _ _ _ _ _ (FileFlush_quiet f o Hw)) in H. cbv beta iota in H.
  unfold sys_close in H. run_done. apply sys_ok_quiet in Hrun0. etrans; [exact Hrun0|].
  constructor; try done. cbn. by intros fd [x [_ Hx]%lookup_delete_Some].
Qed.

Create HintDb quiet_readers discriminated.
#[export] Hint Resolve rret_quiet rfail_quiet multibulkReadLen_quiet read_exact_quiet : quiet_readers.

(** Go through a reader built with [rbind]. *)
Ltac quiet_reader :=
  repeat first
    [ solve [eauto 2 with quiet_readers]
    | lazymatch goal with
      | |- reader_quiet (rbind _ _) => apply rbind_quiet; [|intros ?]
      | |- reader_quiet (if ?b then _ else _) => destruct b
      | |- reader_quiet (match ?x with _ => _ end) => destruct x
      end ].

Lemma multibulkReadStr_quiet size : reader_quiet (multibulkReadStr size).
Proof. unfold multibulkReadStr, read_crlf. quiet_reader. Qed.
#[export] Hint Resolve multibulkReadStr_quiet : quiet_readers.

Lemma multibulkReadNum_quiet parse : reader_quiet (multibulkReadNum parse).
Proof. unfold multibulkReadNum. quiet_reader. Qed.

Lemma multibulkReadInt_quiet : reader_quiet multibulkReadInt.
Proof. apply multibulkReadNum_quiet. Qed.
Lemma multibulkReadLong_quiet : reader_quiet multibulkReadLong.
Proof. apply multibulkReadNum_quiet. Qed.
#[export] Hint Resolve multibulkReadInt_quiet multibulkReadLong_quiet : quiet_readers.
