(* ===== verification/Metadata.v ===== *)
(** * The metadata file ([redisraft/src/metadata.c])

    The term and the vote of the server, with its identity, in a small file that
    is replaced whenever one of them changes.  A [PANIC] or a failed assertion
    is a result ([None]): the process ends, the kernel and the disk stay. *)

From stdpp Require Import base list numbers tactics gmap strings.
From S2P Require Import Prelude RaftTypes Libc File Multibulk PageLog PageCodec.

Local Open Scope Z_scope.

Definition METADATA_STR : list Z := bytes_of "METADATA"%string.
Definition METADATA_VERSION : Z := 1.
Definition METADATA_ELEM_COUNT : Z := 6.

(** [struct Metadata]; [md_filename] is [None] for NULL. *)
Record Metadata := mk_Metadata {
  md_filename : option (list Z);
  md_dbid : list Z;
  md_node_id : Z;
  md_term : Z;
  md_vote : Z
}.

#[export] Instance eta_Metadata : Eta Metadata :=
  fun m => mk_Metadata (md_filename m) (md_dbid m) (md_node_id m) (md_term m) (md_vote m).
#[export] Instance set_md_filename : Setter md_filename := ltac:(solve_setter).
#[export] Instance set_md_dbid : Setter md_dbid := ltac:(solve_setter).
#[export] Instance set_md_node_id : Setter md_node_id := ltac:(solve_setter).
#[export] Instance set_md_term : Setter md_term := ltac:(solve_setter).
#[export] Instance set_md_vote : Setter md_vote := ltac:(solve_setter).

Definition metadataFilename (size : Z) (filename : list Z) : M os (list Z) :=
  path_name size (filename ++ bytes_of ".meta"%string).

Definition MetadataInit : Metadata := mk_Metadata None [] RAFT_NODE_ID_NONE 0 RAFT_NODE_ID_NONE.

Definition MetadataSetClusterConfig (m : Metadata) (filename dbid : list Z) (node_id : Z) : M os Metadata :=
  buf <- metadataFilename PATH_MAX filename ;;
  c_assert (Z.of_nat (length dbid) =? RAFT_DBID_LEN) ;;
  ret (m <| md_filename := Some buf |> <| md_dbid := take (Z.to_nat RAFT_DBID_LEN) dbid |>
         <| md_node_id := node_id |>).

Definition MetadataArchiveFile (m : Metadata) : M os unit :=
  match md_filename m with
  | None => abort
  | Some filename =>
      buf <- path_name PATH_MAX (filename ++ bytes_of "."%string ++ dec_signed (md_node_id m) ++
                                 bytes_of ".bak"%string) ;;
      sys_rename filename buf ;; ret tt
  end.

Definition metadata_fields (m : Metadata) (term vote : Z) : list (Z -> option (list Z)) :=
  [multibulkWriteLen STAR METADATA_ELEM_COUNT;
   multibulkWriteStr METADATA_STR;
   multibulkWriteInt METADATA_VERSION;
   multibulkWriteStr (md_dbid m);
   multibulkWriteInt (md_node_id m);
   multibulkWriteLong term;
   multibulkWriteInt vote].

(** [O_WRONLY | O_CREAT | O_TRUNC | O_APPEND] and [O_RDONLY]. *)
Definition metadata_write_flags : open_flags := mk_flags false true true true.
Definition metadata_read_flags : open_flags := mk_flags true false false false.

(** Write [buf] to the new file [tmp]; [false] when that panics. *)
Definition write_tmp (tmp buf : list Z) : M os bool :=
  let* (rc, _, f) := FileOpen FileInit tmp metadata_write_flags in
  if negb (rc =? RR_OK) then ret false else
  let* (n, f) := FileWrite f buf in
  if negb (n =? Z.of_nat (length buf)) then ret false else
  let* (rc, _) := FileTerm f in
  ret (rc =? RR_OK).

(** The file is written under another name, synced, and renamed. *)
Definition MetadataWrite (m : Metadata) (term vote : Z) : M os (option Z * Metadata) :=
  match md_filename m with
  | None => abort
  | Some filename =>
      buf <- written (write_all 2048 (metadata_fields m term vote)) ;;
      tmp <- path_name PATH_MAX (filename ++ bytes_of ".tmp"%string) ;;
      ok <- write_tmp tmp buf ;;
      if negb ok then ret (None, m) else
      rc <- fsyncFileAt tmp ;;
      match rc with
      | None => ret (None, m)
      | Some rc =>
          if negb (rc =? RR_OK) then ret (Some RR_ERROR, m) else
          rc <- syncRename_calls tmp filename ;;
          match rc with
          | None => ret (None, m)
          | Some rc =>
              if negb (rc =? RR_OK) then ret (Some RR_ERROR, m) else
              ret (Some RR_OK, m <| md_term := term |> <| md_vote := vote |>)
          end
      end
  end.

(** The callback of the Raft library ([raft.c]). *)
Definition raftPersistMetadata (m : Metadata) (term vote : Z) : M os (option Z * Metadata) :=
  let* (rc, m) := MetadataWrite m term vote in
  match rc with
  | Some rc => if negb (rc =? RR_OK) then ret (None, m) else ret (Some 0, m)
  | None => ret (None, m)
  end.

(** The values of the file: [elem_count], [str], [version], [dbid], [node_id],
    [term] and [vote]. *)
Definition read_metadata : reader (Z * list Z * Z * list Z * Z * Z * Z) :=
  let! elem_count := multibulkReadLen STAR in
  let! str := multibulkReadStr 128 in
  let! version := multibulkReadInt in
  let! dbid := multibulkReadStr 64 in
  let! node_id := multibulkReadInt in
  let! term := multibulkReadLong in
  let! vote := multibulkReadInt in
  rret (elem_count, str, version, dbid, node_id, term, vote).

Definition MetadataRead (m : Metadata) (filename : list Z) : M os (option Z * Metadata) :=
  buf <- metadataFilename PATH_MAX filename ;;
  let* (rc, enoent, f) := FileOpen FileInit buf metadata_read_flags in
  if negb (rc =? RR_OK) then
    if negb enoent then ret (None, m) else FileTerm f ;; ret (Some RR_ERROR, m)
  else
  let* (r, f) := read_metadata f in
  match r with
  | None => ret (None, m)
  | Some (elem_count, str, version, dbid, node_id, term, vote) =>
      let* (rc, _) := FileTerm f in
      if negb (rc =? RR_OK) then ret (None, m) else
      if negb (elem_count =? METADATA_ELEM_COUNT) ||
         negb (bool_decide (take (length METADATA_STR) str = METADATA_STR)) ||
         negb (version =? METADATA_VERSION) ||
         negb (Z.of_nat (length dbid) =? RAFT_DBID_LEN)
      then ret (None, m) else
      m <- MetadataSetClusterConfig m filename dbid node_id ;;
      ret (Some RR_OK, m <| md_term := term |> <| md_vote := vote |>)
  end.

(** * The text *)

(** What the file holds for [term] and [vote]. *)
Definition metadata_text (m : Metadata) (term vote : Z) : list Z :=
  mjoin [len_text STAR METADATA_ELEM_COUNT;
         bulk METADATA_STR;
         bulk (dec_signed METADATA_VERSION);
         bulk (md_dbid m);
         bulk (dec_signed (md_node_id m));
         bulk (dec_signed term);
         bulk (dec_signed vote)].

(** A configured server. *)
Record md_ok (filename : list Z) (m : Metadata) : Prop := {
  mo_filename : md_filename m = Some (filename ++ bytes_of ".meta"%string);
  mo_length : Z.of_nat (length filename) + 10 <= PATH_MAX;
  mo_dbid : Z.of_nat (length (md_dbid m)) = RAFT_DBID_LEN;
  mo_chars : Forall (fun c => 0 < c < 256) (md_dbid m);
  mo_node_id : int32 (md_node_id m)
}.

Lemma metadata_text_length filename m term vote :
  md_ok filename m -> int64 term -> int32 vote -> Z.of_nat (length (metadata_text m term vote)) < 2048.
Proof.
  intros [_ _ Hd _ Hi] Ht Hv. unfold metadata_text. cbn [mjoin list_join]. rewrite !length_app.
  pose proof (len_text_length STAR METADATA_ELEM_COUNT ltac:(done)).
  pose proof (bulk_length METADATA_STR ltac:(done)).
  pose proof (bulk_length (md_dbid m) ltac:(unfold RAFT_DBID_LEN in *; lia)).
  pose proof (bulk_signed_length METADATA_VERSION ltac:(done)).
  pose proof (bulk_signed_length (md_node_id m) ltac:(unfold int32, int64 in *; lia)).
  pose proof (bulk_signed_length term Ht).
  pose proof (bulk_signed_length vote ltac:(unfold int32, int64 in *; lia)).
  change (Z.of_nat (length METADATA_STR)) with 8 in *. unfold RAFT_DBID_LEN in *. cbn [length]. lia.
Qed.

Lemma metadata_written filename m term vote :
  md_ok filename m -> int64 term -> int32 vote ->
  write_all 2048 (metadata_fields m term vote) = Some (metadata_text m term vote).
Proof.
  intros Hm Ht Hv. apply write_all_writes.
  - repeat constructor; first [apply writes_len|apply writes_str|apply writes_long].
  - by eapply metadata_text_length.
Qed.

Definition parse_metadata : parser (Z * list Z * Z * list Z * Z * Z * Z) :=
  pbind (parse_len STAR) (fun elem_count =>
  pbind (parse_str 128) (fun str =>
  pbind (parse_num parseInt) (fun version =>
  pbind (parse_str 64) (fun dbid =>
  pbind (parse_num parseInt) (fun node_id =>
  pbind (parse_num parseLong) (fun term =>
  pbind (parse_num parseInt) (fun vote =>
  pret (elem_count, str, version, dbid, node_id, term, vote)))))))).

Lemma read_metadata_implements : implements read_metadata parse_metadata.
Proof. unfold read_metadata, parse_metadata. readers. Qed.

Lemma encodes_metadata filename m term vote :
  md_ok filename m -> int64 term -> int32 vote ->
  encodes parse_metadata
    (METADATA_ELEM_COUNT, METADATA_STR, METADATA_VERSION, md_dbid m, md_node_id m, term, vote)
    (metadata_text m term vote).
Proof.
  intros [_ _ Hd Hch Hn] Ht Hv. unfold metadata_text. cbn [mjoin list_join].
  eapply encodes_pbind; [by apply encodes_len|].
  eapply encodes_pbind; [by apply encodes_str; [..|apply (bool_decide_unpack _); vm_compute; exact I]|].
  eapply encodes_pbind; [by apply encodes_int|].
  eapply encodes_pbind.
  { apply encodes_str; [unfold RAFT_DBID_LEN in Hd; lia|done|].
    eapply Forall_impl; [exact Hch|]. cbn. intros; lia. }
  eapply encodes_pbind; [by apply encodes_int|].
  eapply encodes_pbind; [by apply encodes_long|].
  eapply encodes_pbind; [by apply encodes_int|]. apply encodes_pret.
Qed.
