(* ===== verification/MetadataSpec.v ===== *)
(** * The metadata file survives crashes

    Whatever the kernel does while the file is replaced, and whenever the power
    fails, the file holds the old term and vote or the new ones, and the new ones
    once the replacement has been reported; a server never votes twice in a term,
    across crashes. *)

From stdpp Require Import base list numbers tactics gmap strings relations sorting.
From S2P Require Import Prelude RaftTypes Libc File Multibulk PageLog PageCodec PageOpen Disk Metadata.

Local Open Scope Z_scope.

(** ** Calls of the kernel *)

Lemma sys_close_any fd o :
  exists b pl, sys_close fd o = Done (if b : bool then 0 else -1,
                 o <| os_fds := delete fd (os_fds o) |> <| os_plan := pl |>) /\
    (no_faults o -> b = true /\ no_faults (o <| os_plan := pl |>)).
Proof.
  destruct (sys_ok_any o) as (b & pl & Hrun & Hb). exists b, pl. split; [|done].
  unfold sys_close, bind. by rewrite Hrun.
Qed.

(** [fsyncDir] panics, or forgets the directory's past. *)
Lemma fsyncDir_any o :
  exists b past pl, fsyncDir_calls o = Done (b, o <| os_past := past |> <| os_plan := pl |>) /\
    ((b = false /\ past = os_past o) \/ past = []) /\
    (no_faults o -> b = true /\ no_faults (o <| os_plan := pl |>)).
Proof.
  unfold fsyncDir_calls, sys_fsync_dir.
  destruct (sys_ok_any o) as (b1 & pl1 & Hrun1 & Hb1). run_step Hrun1. destruct b1; cbn [negb].
  2: { exists false, (os_past o), pl1. split; [by destruct o|]. split; [by left|].
       intros Hx. by destruct (Hb1 Hx). }
  destruct (sys_ok_any (o <| os_plan := pl1 |>)) as (b2 & pl2 & Hrun2 & Hb2).
  destruct b2.
  2: { exists false, (os_past o), pl2. split; [|split; [by left|]].
       - unfold bind. rewrite Hrun2. by destruct o.
       - intros Hx. destruct (Hb1 Hx) as [_ Hy]. by destruct (Hb2 Hy). }
  destruct (sys_ok_any (o <| os_past := [] |> <| os_plan := pl2 |>)) as (b3 & pl3 & Hrun3 & Hb3).
  exists true, [], pl3. split; [|split; [by right|]].
  - assert (bind sys_ok (fun ok => when ok (modify (fun o => o <| os_past := [] |>)) ;; ret ok)
              (o <| os_plan := pl1 |>) = Done (true, o <| os_past := [] |> <| os_plan := pl2 |>)) as Hs
      by (by run_step Hrun2).
    rewrite (bind_done_eq _ _ _ _ _ Hs). cbn [negb]. by run_step Hrun3.
  - intros Hx. split; [done|]. destruct (Hb1 Hx) as [_ Hy]. destruct (Hb2 Hy) as [_ Hz]. by apply Hb3.
Qed.

Section Replace.
Context (filename : list Z).

Abbreviation path := (filename ++ bytes_of ".meta"%string).
Abbreviation tmp := (path ++ bytes_of ".tmp"%string).

Lemma tmp_ne : tmp <> path.
Proof. intros E%(f_equal length). rewrite length_app in E. cbn in E. lia. Qed.

Lemma staging_plan c o pl : staging path tmp c o -> staging path tmp c (o <| os_plan := pl |>).
Proof.
  intros Hs. apply staging_fds with (7 := Hs); cbn; try done; [by left|].
  apply (wf_fds _ (dw_wf _ (st_wf _ _ _ _ Hs))).
Qed.

Lemma staging_close c o fds pl :
  (forall fd, is_Some (fds !! fd) -> is_Some (os_fds o !! fd)) ->
  staging path tmp c o -> staging path tmp c (o <| os_fds := fds |> <| os_plan := pl |>).
Proof.
  intros Hf Hs. apply staging_fds with (7 := Hs); cbn; try done; [by left|].
  intros fd Hx%Hf. by apply (wf_fds _ (dw_wf _ (st_wf _ _ _ _ Hs))).
Qed.

Lemma staging_past c o past pl :
  past = os_past o \/ past = [] -> staging path tmp c o ->
  staging path tmp c (o <| os_past := past |> <| os_plan := pl |>).
Proof.
  intros Hp Hs. apply staging_fds with (7 := Hs); cbn; try done.
  apply (wf_fds _ (dw_wf _ (st_wf _ _ _ _ Hs))).
Qed.

(** The temporary file is opened, empty. *)
Lemma FileOpen_tmp c o :
  staging path tmp c o ->
  exists rc e f o', FileOpen FileInit tmp metadata_write_flags o = Done ((rc, e, f), o') /\
    staging path tmp c o' /\ (no_faults o -> rc = RR_OK /\ no_faults o') /\
    (rc = RR_OK -> exists i, file_ok o' f i [] /\ os_names o' !! tmp = Some i /\ f_fd f <> -1).
Proof.
  intros Hs. pose proof (dw_wf _ (st_wf _ _ _ _ Hs)) as Hw.
  destruct (FileOpen_any o tmp metadata_write_flags Hw eq_refl) as (rc & e & f & o' & Hrun & Hn & Hres).
  exists rc, e, f, o'. split; [done|]. cbn in Hres.
  destruct Hres as [(-> & i & Hop & _ & Hr)|(-> & -> & o1 & Ho1 & fds & pl & -> & Hfds)].
  - split; [by eapply staging_opened; [apply tmp_ne|..]|]. split; [auto|]. intros _. exists i.
    split; [by eapply file_reading_ok|]. rewrite (op_names _ _ _ _ _ _ Hop), lookup_insert_eq.
    split; [done|]. pose proof (op_next _ _ _ _ _ _ Hop). pose proof (wf_next _ Hw). lia.
  - split; [|split; [|done]].
    + apply staging_close; [done|]. destruct Ho1 as [[-> _]|(_ & _ & i & fd & Hop & _)]; [done|].
      by eapply staging_opened; [apply tmp_ne|..].
    + intros Hx. destruct Ho1 as [[_ [(_ & _ & ?)|[_ ?]]]|(_ & ? & _)]; done.
Qed.

(** What is done to the open temporary file. *)
Lemma staging_file c o o' f i d :
  file_ok o f i d -> os_names o !! tmp = Some i -> only (f_fd f) i o o' -> is_Some (os_inodes o' !! i) ->
  staging path tmp c o -> staging path tmp c o' /\ os_names o' !! tmp = Some i.
Proof.
  intros Hf Ht Ho Hi Hs. destruct (file_ok_exists _ _ _ _ Hf). split; [by eapply staging_only|].
  by rewrite (only_names _ _ _ _ Ho).
Qed.

Lemma staging_inode c o i :
  staging path tmp c o -> os_names o !! tmp = Some i -> exists d, os_inodes o !! i = Some d.
Proof. intros Hs Ht. apply (wf_names _ (dw_wf _ (st_wf _ _ _ _ Hs)) _ _ Ht). Qed.

(** [fsyncFileAt] makes the temporary file durable, and its name. *)
Lemma fsyncFileAt_tmp c o i d :
  staging path tmp c o -> os_names o !! tmp = Some i -> os_inodes o !! i = Some d ->
  exists r o', fsyncFileAt tmp o = Done (r, o') /\ staging path tmp c o' /\
    os_names o' !! tmp = Some i /\ os_inodes o' !! i = Some d /\
    (no_faults o -> r = Some RR_OK /\ no_faults o') /\
    (r = Some RR_OK -> (i ∉ os_dirty o') /\ os_past o' = []).
Proof.
  intros Hs Ht Hi. pose proof (dw_wf _ (st_wf _ _ _ _ Hs)) as Hw. unfold fsyncFileAt.
  assert (contents o tmp = d) as Hc by (unfold contents; rewrite Ht; cbn; by rewrite Hi).
  destruct (sys_open_spec o tmp (mk_flags false false false false) Hw)
    as [(i' & fd & o1 & Hrun & Hop & _)|(e & pl & Hrun & _ & [(_ & ? & _)|[_ Hf]])];
    rewrite (bind_done_eq _ _ _ _ _ Hrun); cbv beta iota; [|congruence|].
  2: { exists (Some RR_ERROR), (o <| os_plan := pl |>). split; [done|]. split; [by apply staging_plan|]. done. }
  cbn [fl_trunc] in Hop. rewrite Hc in Hop. pose proof Hop as [En Ei Ef Hnext Hfr _ Hwf Hpl].
  assert (i' = i) as -> by (destruct Hfr as [[? _]|(? & _)]; congruence).
  rewrite (proj2 (Z.eqb_neq fd (-1))) by (pose proof (wf_next _ Hw); lia).
  pose proof (staging_opened _ _ c _ _ _ _ _ tmp_ne Hop Hs) as Hs1.
  assert (fd_lookup o1 fd = Some (i, 0, d)) as Hl.
  { unfold fd_lookup. by rewrite Ef, lookup_insert_eq, Ei, lookup_insert_eq. }
  destruct (sys_fsync_spec _ _ _ _ _ Hl) as (r & o2 & Hrun2 & Ho2 & Hl2 & Hr). rewrite <- Hl2 in Hl.
  assert (os_inodes o2 !! i = Some d) as Hi2.
  { unfold fd_lookup in Hl. repeat case_match; by simplify_eq. }
  assert (staging path tmp c o2) as Hs2.
  { eapply (staging_only path tmp c fd i o1 o2); [done|by rewrite En, lookup_insert_eq| |by eauto|done].
    rewrite Ef, lookup_insert_eq. eauto. }
  assert (os_names o2 !! tmp = Some i) as Ht2 by (by rewrite (only_names _ _ _ _ Ho2), En, lookup_insert_eq).
  destruct (sys_close_any fd o2) as (b & pl & Hrun3 & Hb).
  set (o3 := o2 <| os_fds := delete fd (os_fds o2) |> <| os_plan := pl |>) in *.
  assert (staging path tmp c o3) as Hs3.
  { apply staging_close; [|done]. by intros k [x [_ Hx]%lookup_delete_Some]. }
  run_step Hrun2. destruct Hr as [[-> Hclean]|[-> Hf]]; cbn [negb Z.eqb]; rewrite (bind_done_eq _ _ _ _ _ Hrun3).
  2: { exists (Some RR_ERROR), o3. split_and!; try done. by intros Hx%Hpl. }
  destruct b; cbn [negb Z.eqb].
  2: { exists (Some RR_ERROR), o3. split_and!; try done.
       intros Hx%Hpl. by destruct (Hb (only_plan _ _ _ _ Ho2 Hx)). }
  destruct (fsyncDir_any o3) as (b & past & pl4 & Hrun4 & Hpast & Hb4). run_step Hrun4.
  eexists _, _. split; [reflexivity|]. split; [|split; [done|split; [done|split]]].
  - apply staging_past; [|done]. destruct Hpast as [[_ ->]|Hpast]; [by left|by right].
  - intros Hx%Hpl. destruct (Hb (only_plan _ _ _ _ Ho2 Hx)) as [_ Hx3]. by destruct (Hb4 Hx3) as [-> ?].
  - destruct b; [|done]. intros _. split; [exact Hclean|]. by destruct Hpast as [[? _]|Hpast].
Qed.

(** ** The replacement *)

(** Whatever a power failure leaves is a place to start from. *)
Definition replaced (c c' : option (list Z)) (o : os) : Prop :=
  disk_wf o /\ on_disk o path (fun x => x = c \/ x = c').

Lemma staging_replaced c c' o : staging path tmp c o -> replaced c c' o.
Proof.
  intros [Hw _ Hd]. split; [done|]. eapply on_disk_weaken; [|exact Hd]. intros x ->. by left.
Qed.

Lemma restart_staging c o o' :
  disk_wf o -> crash_image o o' -> file_in o' (os_names o') path = c -> staging path tmp c o'.
Proof.
  intros Hw Hc Hf. pose proof (crash_image_wf _ _ Hw Hc) as Hw'.
  assert (forall D, D ∈ dirs o' -> D = os_names o') as Hdirs.
  { unfold dirs. rewrite (ci_past _ _ Hc). by intros D ->%list_elem_of_singleton. }
  split; [done| |].
  - intros i D Hi ->%Hdirs Hp. apply tmp_ne. by eapply wf_inj; [apply Hw'|..].
  - intros D ->%Hdirs. split; [done|]. rewrite (ci_dirty _ _ Hc). intros. apply not_elem_of_empty.
Qed.

(** A durable temporary file replaces the old one. *)
Lemma syncRename_tmp c o i d :
  staging path tmp c o -> os_names o !! tmp = Some i -> os_inodes o !! i = Some d ->
  i ∉ os_dirty o -> exists r o', syncRename_calls tmp path o = Done (r, o') /\
    replaced c (Some d) o' /\ (no_faults o -> r = Some RR_OK) /\
    (r = Some RR_OK -> staging path tmp (Some d) o').
Proof.
  intros Hs Ht Hi Hclean. pose proof (st_wf _ _ _ _ Hs) as Hw. unfold syncRename_calls.
  destruct (sys_ok_any o) as (b & pl & Hrun & Hb).
  set (o0 := o <| os_plan := pl |>) in *. set (o1 := set_names (<[path := i]> (delete tmp (os_names o0))) o0).
  assert (sys_rename tmp path o = Done (if b then (0, o1) else (-1, o0))) as Hren.
  { unfold sys_rename. run_step Hrun. run_refl. change (os_names o0) with (os_names o).
    rewrite Ht. by destruct b. }
  destruct b; rewrite (bind_done_eq _ _ _ _ _ Hren); cbn [negb Z.eqb].
  2: { exists (Some RR_ERROR), o0. split; [done|].
       split; [by eapply staging_replaced, staging_plan|]. split; [|done]. intros Hx. by destruct (Hb Hx). }
  destruct (fsyncDir_any o1) as (b2 & past & pl2 & Hrun2 & Hpast & Hb2).
  exists (if b2 then Some RR_OK else None), (o1 <| os_past := past |> <| os_plan := pl2 |>).
  split; [by run_step Hrun2|].
  assert (os_wf o1) as Hw1.
  { apply os_wf_rename; [by apply os_wf_plan, dw_wf|done]. }
  assert (disk_wf o1 /\ on_disk o1 path (fun x => x = c \/ x = Some d)) as [Hd1 Hod1].
  { split; [split; [done|]|].
    - intros D HD. destruct (disk_wf_dirs o D Hw HD). by constructor.
    - intros D [->|HD]%elem_of_cons.
      + unfold file_in. cbn. rewrite lookup_insert_eq. cbn. rewrite Hi. split; [by right|]. by intros ? [= <-].
      + destruct (st_disk _ _ _ _ Hs D HD) as [Hx ?]. split; [left; exact (eq_sym Hx)|done]. }
  assert (past = os_past o1 \/ past = []) as Hpast'
    by (destruct Hpast as [[_ ?]|?]; [by left|by right]).
  assert (replaced c (Some d) (o1 <| os_past := past |> <| os_plan := pl2 |>)) as Hrep.
  { split; [split|].
    - destruct Hw1. by constructor.
    - intros D HD. destruct (dw_past _ Hd1 D).
      + destruct Hpast' as [-> | ->]; [done|by apply elem_of_nil in HD].
      + by constructor.
    - intros D HD. apply (Hod1 D). destruct Hpast' as [-> | ->]; [done|].
      apply list_elem_of_singleton in HD as ->. by left. }
  split; [done|]. split.
  - intros Hx. destruct (Hb Hx) as [_ Hx1]. by destruct (Hb2 Hx1) as [-> _].
  - destruct b2; [|done]. intros _. destruct Hpast as [[? _]|Hpast]; [done|].
    assert (forall D, D ∈ dirs (o1 <| os_past := past |> <| os_plan := pl2 |>) -> D = os_names o1) as Hdirs.
    { unfold dirs. cbn. rewrite Hpast. by intros D ->%list_elem_of_singleton. }
    split; [apply Hrep| |].
    + intros k D Hk _ _. cbn in Hk. rewrite lookup_insert_ne, lookup_delete_eq in Hk; [done|].
      intros E. symmetry in E. by apply tmp_ne in E.
    + intros D ->%Hdirs. unfold file_in. cbn. rewrite lookup_insert_eq. cbn. rewrite Hi. split; [done|].
      by intros ? [= <-].
Qed.

(** The text gets into the temporary file. *)
Lemma write_tmp_spec c o text :
  staging path tmp c o ->
  exists b o', write_tmp tmp text o = Done (b, o') /\ staging path tmp c o' /\
    (no_faults o -> b = true /\ no_faults o') /\
    (b = true -> exists i, os_names o' !! tmp = Some i /\ os_inodes o' !! i = Some text).
Proof.
  intros Hs. unfold write_tmp.
  destruct (FileOpen_tmp c o Hs) as (rc & e & f & o1 & Hrun1 & Hs1 & Hn1 & Hf1).
  rewrite (bind_done_eq _ _ _ _ _ Hrun1). cbv beta iota.
  destruct (Z.eqb_spec rc RR_OK) as [->|Hne]; cbn [negb].
  2: { exists false, o1. split_and!; try done. intros Hx. by destruct (Hn1 Hx). }
  destruct (Hf1 eq_refl) as (i & Hf & Htmp1 & Hfd). clear Hf1.
  destruct (FileWrite_spec o1 f i [] text Hf) as (n & f2 & o2 & Hrun2 & Ho2 & Hfd2 & Hres2).
  rewrite (bind_done_eq _ _ _ _ _ Hrun2). cbv beta iota.
  assert (exists d, file_ok o2 f2 i d) as [d2 Hf2] by (destruct Hres2 as [[_ ?]|(_ & _ & k' & ?)]; eauto).
  destruct (staging_file c o1 o2 f i [] Hf Htmp1 Ho2) as [Hs2 Htmp2];
    [by destruct (file_ok_exists _ _ _ _ Hf2)|done|].
  destruct (Z.eqb_spec n (Z.of_nat (length text))) as [->|Hne]; cbn [negb].
  2: { exists false, o2. split_and!; try done.
       intros Hx. destruct (Hn1 Hx) as [_ Hx1]. by destruct Hres2 as [[? _]|(_ & ? & _)]. }
  destruct Hres2 as [[_ Hf2']|(? & _)]; [clear d2 Hf2|lia]. rewrite app_nil_l in Hf2'.
  destruct (FileTerm_spec o2 f2 i text Hf2') as (rc & f3 & o3 & Hrun3 & Ho3 & Hi3 & Htext & Hn3).
  rewrite (bind_done_eq _ _ _ _ _ Hrun3). cbv beta iota.
  destruct (staging_file c o2 o3 f2 i text Hf2' Htmp2 Ho3 Hi3 Hs2) as [Hs3 Htmp3].
  exists (rc =? RR_OK), o3. split; [done|]. split; [done|]. split.
  - intros Hx. destruct (Hn1 Hx) as [_ Hx1%Ho2]. rewrite (Hn3 Hx1). split; [done|by apply Ho3].
  - intros ->%Z.eqb_eq. rewrite Hfd2 in Htext. eauto.
Qed.

(** [MetadataWrite] replaces the file, or leaves it possibly replaced. *)
Lemma MetadataWrite_spec m c o term vote :
  md_ok filename m -> int64 term -> int32 vote -> staging path tmp c o ->
  exists r m' o', MetadataWrite m term vote o = Done ((r, m'), o') /\
    replaced c (Some (metadata_text m term vote)) o' /\ (no_faults o -> r = Some RR_OK) /\
    ((r = Some RR_OK /\ m' = m <| md_term := term |> <| md_vote := vote |> /\
      staging path tmp (Some (metadata_text m term vote)) o') \/
     (r <> Some RR_OK /\ m' = m)).
Proof.
  intros Hm Ht Hv Hs. unfold MetadataWrite. rewrite (mo_filename _ _ Hm).
  rewrite (metadata_written _ _ _ _ Hm Ht Hv). set (text := metadata_text m term vote).
  cbn [written]. run_refl. unfold path_name. rewrite safesnprintf_fits.
  2: { rewrite !length_app. change (length (bytes_of _)) with 5%nat at 1.
       change (length (bytes_of _)) with 4%nat. pose proof (mo_length _ _ Hm). lia. }
  run_refl.
  destruct (write_tmp_spec c o text Hs) as (b & o3 & Hrun3 & Hs3 & Hn3 & Htmp). run_step Hrun3.
  destruct b; cbn [negb].
  2: { exists None, m, o3. split; [done|]. split; [by apply staging_replaced|]. split; [|by right].
       intros Hx. by destruct (Hn3 Hx). }
  destruct (Htmp eq_refl) as (i & Htmp3 & Htext).
  destruct (fsyncFileAt_tmp c o3 i text Hs3 Htmp3 Htext) as (r & o4 & Hrun4 & Hs4 & Htmp4 & Htext4 & Hn4 & Hclean).
  run_step Hrun4.
  assert (no_faults o -> r = Some RR_OK /\ no_faults o4) as Hn4' by (intros Hx; by apply Hn4, Hn3).
  destruct r as [r|].
  2: { exists None, m, o4. split; [done|]. split; [by apply staging_replaced|]. split; [|by right].
       intros Hx. by destruct (Hn4' Hx). }
  destruct (Z.eqb_spec r RR_OK) as [->|Hne]; cbn [negb].
  2: { exists (Some RR_ERROR), m, o4. split; [done|]. split; [by apply staging_replaced|]. split; [|by right].
       intros Hx. destruct (Hn4' Hx). congruence. }
  destruct (syncRename_tmp c o4 i text Hs4 Htmp4 Htext4) as (r & o5 & Hrun5 & Hrep & Hn5 & Hs5);
    [by apply Hclean|].
  run_step Hrun5. assert (no_faults o -> r = Some RR_OK) as Hn5' by (intros Hx; by apply Hn5, Hn4').
  destruct r as [r|]; [|exists None, m, o5; by split_and!; [..|right]].
  destruct (Z.eqb_spec r RR_OK) as [->|Hne]; cbn [negb].
  - eexists _, _, o5. split; [reflexivity|]. split; [done|]. split; [done|]. left. auto.
  - exists (Some RR_ERROR), m, o5. split_and!; try done; [|by right].
    intros Hx. specialize (Hn5' Hx). congruence.
Qed.

(** ** Reading it back *)

(** The term and the vote in the file, if there is one. *)
Definition stored_text (m : Metadata) (x : option (Z * Z)) : option (list Z) :=
  match x with None => None | Some (term, vote) => Some (metadata_text m term vote) end.

Definition stored_ok (x : option (Z * Z)) : Prop :=
  match x with None => True | Some (term, vote) => int64 term /\ int32 vote end.

(** What [MetadataRead] answers: what is stored, unless it panics. *)
Definition reads_stored (m0 m : Metadata) (x : option (Z * Z)) (r : option Z) (m' : Metadata) : Prop :=
  match r, x with
  | None, _ => m' = m0
  | Some rc, None => rc = RR_ERROR /\ m' = m0
  | Some rc, Some (term, vote) => rc = RR_OK /\ m' = m <| md_term := term |> <| md_vote := vote |>
  end.

Lemma staging_same_disk c o o' : same_disk o o' -> staging path tmp c o -> staging path tmp c o'.
Proof.
  intros [] Hs. apply staging_fds with (7 := Hs); try done; [by left|lia|].
  intros fd Hx%sd_fds. rewrite sd_next. by apply (wf_fds _ (dw_wf _ (st_wf _ _ _ _ Hs))).
Qed.

(** Opening the file for reading. *)
Lemma FileOpen_meta c o :
  staging path tmp c o ->
  exists rc e f o', FileOpen FileInit path metadata_read_flags o = Done ((rc, e, f), o') /\
    staging path tmp c o' /\ (no_faults o -> no_faults o') /\
    ((rc = RR_OK /\ f_wbuf f = [] /\ exists i d, c = Some d /\ file_reading o' f i d 0) \/
     (rc = RR_ERROR /\ f = FileInit /\ (no_faults o -> e = true) /\ (e = true -> c = None))).
Proof.
  intros Hs. pose proof (dw_wf _ (st_wf _ _ _ _ Hs)) as Hw.
  destruct (st_disk _ _ _ _ Hs (os_names o) ltac:(by left)) as [Hc _]. unfold file_in in Hc.
  assert (forall i fd o1, opened path i fd (contents o path) o o1 -> open_kept path metadata_read_flags o o1 ->
            c = Some (contents o path) /\ staging path tmp c o1) as Hopened.
  { intros i fd o1 [En Ei _ Hnx Hfr _ Hwf _] [Hk1 Hk2]. specialize (Hk1 eq_refl). specialize (Hk2 eq_refl Hk1).
    destruct Hfr as [[Hi Hp]|(? & _)]; [|done]. destruct (wf_names _ Hw _ _ Hi) as [d Hd].
    assert (contents o path = d) as Hcd by (unfold contents; rewrite Hi; cbn; by rewrite Hd).
    rewrite Hi in Hc. cbn in Hc. rewrite Hcd in *. split; [congruence|].
    apply staging_fds with (7 := Hs); [by rewrite En, insert_id|by rewrite Ei, insert_id|done|by left|lia|].
    apply (wf_fds _ Hwf). }
  destruct (FileOpen_any o path metadata_read_flags Hw eq_refl) as (rc & e & f & o' & Hrun & Hn & Hres).
  exists rc, e, f, o'. split; [done|]. cbn [fl_trunc] in Hres.
  destruct Hres as [(-> & i & Hop & Hk & Hr)|(-> & -> & o1 & Ho1 & fds & pl & -> & Hfds)].
  - destruct (Hopened i _ _ Hop Hk) as [-> Hs']. split; [done|]. split; [done|]. left. split; [done|].
    split; [apply Hr|]. eauto.
  - split; [|split; [done|]].
    + apply staging_close; [done|]. destruct Ho1 as [[-> _]|(_ & _ & i & fd & Hop & Hk)]; [done|].
      by eapply Hopened.
    + right. split; [done|]. split; [done|].
      destruct Ho1 as [[_ [(-> & Hnone & _)|[-> ?]]]|(-> & ? & _)]; [|done..].
      split; [done|]. intros _. by rewrite Hc, Hnone.
Qed.

Lemma read_metadata_quiet : reader_quiet read_metadata.
Proof. unfold read_metadata. quiet_reader. Qed.

Lemma MetadataRead_spec m0 m x o :
  md_ok filename m -> stored_ok x -> staging path tmp (stored_text m x) o ->
  exists r m' o', MetadataRead m0 filename o = Done ((r, m'), o') /\ reads_stored m0 m x r m' /\
    staging path tmp (stored_text m x) o' /\ (no_faults o -> r <> None).
Proof.
  intros Hm Hx Hs. unfold MetadataRead, metadataFilename, path_name.
  assert (safesnprintf PATH_MAX path = Some path) as Hfit.
  { apply safesnprintf_fits. rewrite length_app. change (length (bytes_of _)) with 5%nat.
    pose proof (mo_length _ _ Hm). lia. }
  rewrite Hfit. run_refl.
  destruct (FileOpen_meta _ o Hs) as (rc & e & f & o1 & Hrun & Hs1 & Hn1 & Hres).
  rewrite (bind_done_eq _ _ _ _ _ Hrun). cbv beta iota.
  destruct Hres as [(-> & Hw & i & d & Hd & Hr)|(-> & -> & He & Hnone)]; cbn [negb Z.eqb RR_OK RR_ERROR].
  2: { destruct e; cbn [negb].
       - destruct x as [[t v]|]; [by specialize (Hnone eq_refl)|].
         eexists _, _, o1. split; [reflexivity|]. by split_and!.
       - exists None, m0, o1. split_and!; try done. intros Hn. by specialize (He Hn). }
  destruct x as [[term vote]|]; [|done]. destruct Hx as [Ht Hv]. cbn [stored_text] in Hd. injection Hd as <-.
  pose proof (encodes_metadata _ _ _ _ Hm Ht Hv) as Henc.
  destruct (read_metadata_implements _ _ _ _ _ Hr) as (a & f2 & o2 & Hrun2 & Ho2 & Hfd2 & Hres2).
  assert (same_disk o1 o2 /\ f_wbuf f2 = []) as [Hq Hw2].
  { eapply read_metadata_quiet; [exact Hw|exact Hrun2]. }
  rewrite (bind_done_eq _ _ _ _ _ Hrun2). cbv beta iota.
  pose proof (staging_same_disk _ _ _ Hq Hs1) as Hs2.
  pose proof (enc_parse _ _ _ Henc []) as Hp. rewrite app_nil_r in Hp.
  change (drop (Z.to_nat 0) ?l) with l in Hres2. rewrite Hp in Hres2.
  destruct Hres2 as [[-> Hr2]|(-> & Hnf & _)].
  2: { exists None, m0, o2. split_and!; try done. by intros Hx%Hn1. }
  cbv beta iota.
  destruct (FileTerm_spec o2 f2 i _ (file_reading_ok _ _ _ _ _ Hr2)) as (rc & f3 & o3 & Hrun3 & Ho3 & _ & _ & Hn3).
  rewrite (bind_done_eq _ _ _ _ _ Hrun3). cbv beta iota.
  assert (same_disk o2 o3) as Hq3 by (eapply FileTerm_quiet; [exact Hw2|exact Hrun3]).
  pose proof (staging_same_disk _ _ _ Hq3 Hs2) as Hs3.
  destruct (Z.eqb_spec rc RR_OK) as [->|Hne]; cbn [negb].
  2: { exists None, m0, o3. split_and!; try done. intros Hx. destruct Hne. by apply Hn3, Ho2, Hn1. }
  rewrite (mo_dbid _ _ Hm), !Z.eqb_refl. rewrite bool_decide_eq_true_2 by done. cbn [negb orb].
  unfold MetadataSetClusterConfig, metadataFilename, path_name. rewrite Hfit, (mo_dbid _ _ Hm). run_refl.
  eexists _, _, o3. split; [reflexivity|]. split_and!; try done.
  cbn [reads_stored]. split; [done|]. rewrite take_ge by (pose proof (mo_dbid _ _ Hm); unfold RAFT_DBID_LEN in *; lia).
  pose proof (mo_filename _ _ Hm). destruct m; cbn in *; by subst.
Qed.

(** (safety). Replacing the metadata file is atomic, whatever the kernel does
    and whenever the power fails.  Let the file durably hold [x] (a term and a
    vote, or no file at all).  [MetadataWrite] returns, with success on a kernel
    without faults, and changes the record in memory exactly when it succeeds;
    after any power failure, [MetadataRead] finds [x] or the new term and vote,
    and the new ones if [MetadataWrite] had succeeded, or it panics because of a
    fault; and the next replacement can start. *)
Theorem metadata_crash_safe m x o term vote :
  md_ok filename m -> stored_ok x -> int64 term -> int32 vote ->
  staging path tmp (stored_text m x) o ->
  exists r m' o', MetadataWrite m term vote o = Done ((r, m'), o') /\
    (no_faults o -> r = Some RR_OK) /\
    m' = (if decide (r = Some RR_OK) then m <| md_term := term |> <| md_vote := vote |> else m) /\
    (r = Some RR_OK -> staging path tmp (stored_text m (Some (term, vote))) o') /\
    forall m0 o1, crash_image o' o1 ->
      exists y r1 m1 o2, MetadataRead m0 filename o1 = Done ((r1, m1), o2) /\
        reads_stored m0 m y r1 m1 /\ (no_faults o1 -> r1 <> None) /\
        (y = x \/ y = Some (term, vote)) /\ (r = Some RR_OK -> y = Some (term, vote)) /\
        staging path tmp (stored_text m y) o2.
Proof.
  intros Hm Hx Ht Hv Hs.
  destruct (MetadataWrite_spec m _ o term vote Hm Ht Hv Hs) as (r & m' & o' & Hrun & [Hw Hod] & Hn & Hres).
  exists r, m', o'. split; [done|]. split; [done|].
  split; [destruct Hres as [(-> & -> & _)|[? ->]]; by case_decide|].
  split; [intros Hr; by destruct Hres as [(_ & _ & ?)|[? _]]|].
  intros m0 o1 Hc.
  assert (exists y, file_in o1 (os_names o1) path = stored_text m y /\ stored_ok y /\
            (y = x \/ y = Some (term, vote)) /\ (r = Some RR_OK -> y = Some (term, vote))) as (y & Hf & Hy & Hor & Hr).
  { pose proof (on_disk_image _ _ _ _ Hod Hc) as Hcases. destruct Hres as [(-> & _ & Hs')|[Hr _]].
    - exists (Some (term, vote)). split; [|split; [done|auto]].
      symmetry. exact (on_disk_image _ _ _ _ (st_disk _ _ _ _ Hs') Hc).
    - destruct Hcases as [E|E]; [exists x|exists (Some (term, vote))]; split_and!; try done; by auto. }
  destruct (MetadataRead_spec m0 m y o1 Hm Hy (restart_staging _ _ _ Hw Hc Hf)) as (r1 & m1 & o2 & Hrun1 & Hrd & Hs1 & Hn1).
  by exists y, r1, m1, o2.
Qed.

(** ** One vote per term, across crashes *)

(** [a] may be followed by [b]: a later term, or the same one with the same vote
    or with none before ([raft_set_current_term], [raft_vote_for_nodeid]). *)
Definition vote_le (a b : Z * Z) : Prop :=
  fst a < fst b \/ (fst a = fst b /\ (snd a = snd b \/ snd a = RAFT_NODE_ID_NONE)).

#[export] Instance vote_le_preorder : PreOrder vote_le.
Proof. split; unfold Reflexive, Transitive, vote_le; [lia|]. intros [] [] []. cbn. lia. Qed.

(** A process with its metadata, and what it has persisted so far, over all its
    restarts. *)
Record md_state := mk_md_state {
  ms_os : os;
  ms_meta : Metadata;
  ms_persisted : list (Z * Z)
}.

Definition memory (m : Metadata) : Z * Z := (md_term m, md_vote m).

Definition may_persist (m : Metadata) (term vote : Z) : Prop :=
  vote_le (memory m) (term, vote) /\ int64 term /\ int32 vote.

Inductive md_step (s : md_state) : md_state -> Prop :=
| md_persist term vote m' o' :
    may_persist (ms_meta s) term vote ->
    raftPersistMetadata (ms_meta s) term vote (ms_os s) = Done ((Some 0, m'), o') ->
    md_step s (mk_md_state o' m' ((term, vote) :: ms_persisted s))
| md_crash term vote r m' o' o1 m2 o2 :
    may_persist (ms_meta s) term vote ->
    raftPersistMetadata (ms_meta s) term vote (ms_os s) = Done ((r, m'), o') -> crash_image o' o1 ->
    MetadataRead MetadataInit filename o1 = Done ((Some RR_OK, m2), o2) ->
    md_step s (mk_md_state o2 m2 (ms_persisted s))
| md_power o1 m2 o2 :
    crash_image (ms_os s) o1 -> MetadataRead MetadataInit filename o1 = Done ((Some RR_OK, m2), o2) ->
    md_step s (mk_md_state o2 m2 (ms_persisted s))
| md_kernel pl : md_step s (mk_md_state ((ms_os s) <| os_plan := pl |>) (ms_meta s) (ms_persisted s)).

Record md_inv (s : md_state) : Prop := {
  mi_ok : md_ok filename (ms_meta s);
  mi_range : stored_ok (Some (memory (ms_meta s)));
  mi_disk : staging path tmp (stored_text (ms_meta s) (Some (memory (ms_meta s)))) (ms_os s);
  mi_sorted : StronglySorted (flip vote_le) (memory (ms_meta s) :: ms_persisted s)
}.

Lemma md_ok_memory m term vote :
  md_ok filename m -> md_ok filename (m <| md_term := term |> <| md_vote := vote |>).
Proof. intros []. by constructor. Qed.

(** The memory after a restart. *)
Lemma md_inv_read s term vote m0 m2 o1 o2 y :
  md_inv s -> stored_ok (Some (term, vote)) -> vote_le (memory (ms_meta s)) (term, vote) ->
  y = Some (memory (ms_meta s)) \/ y = Some (term, vote) ->
  MetadataRead m0 filename o1 = Done ((Some RR_OK, m2), o2) ->
  (exists r1 m1 o2', MetadataRead m0 filename o1 = Done ((r1, m1), o2') /\
     reads_stored m0 (ms_meta s) y r1 m1 /\ staging path tmp (stored_text (ms_meta s) y) o2') ->
  md_inv (mk_md_state o2 m2 (ms_persisted s)).
Proof.
  intros [Hok Hrange Hdisk Hsort] Hr Hle Hy Hrun (r1 & m1 & o2' & Hrun' & Hrd & Hs).
  rewrite Hrun in Hrun'. injection Hrun' as <- <- <-.
  assert (exists t v, y = Some (t, v) /\ stored_ok (Some (t, v)) /\ vote_le (memory (ms_meta s)) (t, v))
    as (t & v & -> & Ht & Hle').
  { destruct Hy as [-> | ->]; [|by exists term, vote]. exists (md_term (ms_meta s)), (md_vote (ms_meta s)). done. }
  destruct Hrd as [_ ->]. split; cbn; [by apply md_ok_memory|done|exact Hs|].
  apply StronglySorted_inv in Hsort as [Hsort Hall]. constructor; [done|].
  eapply Forall_impl; [exact Hall|]. intros a Ha. unfold flip in *. by etrans.
Qed.

Lemma raftPersistMetadata_spec m c o term vote r m' o' :
  md_ok filename m -> int64 term -> int32 vote -> staging path tmp c o ->
  raftPersistMetadata m term vote o = Done ((r, m'), o') ->
  replaced c (Some (metadata_text m term vote)) o' /\
  (r = Some 0 -> m' = m <| md_term := term |> <| md_vote := vote |> /\
     staging path tmp (Some (metadata_text m term vote)) o').
Proof.
  intros Hm Ht Hv Hs Hrun.
  destruct (MetadataWrite_spec m c o term vote Hm Ht Hv Hs) as (r1 & m1 & o1 & Hrun1 & Hrep & _ & Hres).
  unfold raftPersistMetadata in Hrun. rewrite (bind_done_eq _ _ _ _ _ Hrun1) in Hrun. cbv beta iota in Hrun.
  destruct Hres as [(-> & -> & Hs')|[Hne _]].
  - cbn [negb Z.eqb RR_OK] in Hrun. unfold ret in Hrun. by injection Hrun as <- <- <-.
  - destruct r1 as [r1|]; [|unfold ret in Hrun; by simplify_eq].
    destruct (Z.eqb_spec r1 RR_OK) as [->|] in Hrun; [done|]. cbn [negb] in Hrun. unfold ret in Hrun. by simplify_eq.
Qed.

Lemma md_inv_step s s' : md_inv s -> md_step s s' -> md_inv s'.
Proof.
  intros Hinv Hstep. pose proof Hinv as [Hok Hrange Hdisk Hsort].
  destruct Hstep as [term vote m' o' (Hle & Ht & Hv) Hrun | term vote r m' o' o1 m2 o2 (Hle & Ht & Hv) Hrun Hc Hrd
                    | o1 m2 o2 Hc Hrd | pl].
  - destruct (raftPersistMetadata_spec _ _ _ _ _ _ _ _ Hok Ht Hv Hdisk Hrun) as [_ Hs].
    destruct (Hs eq_refl) as [-> Hs']. clear Hs.
    assert (StronglySorted (flip vote_le) ((term, vote) :: ms_persisted s)) as Hsort'.
    { apply StronglySorted_inv in Hsort as [Hsort Hall]. constructor; [done|].
      eapply Forall_impl; [exact Hall|]. intros a Ha. unfold flip in *. by etrans. }
    split; cbn; [by apply md_ok_memory|done|exact Hs'|].
    constructor; [done|]. constructor; [by unfold flip|]. by apply StronglySorted_inv in Hsort' as [_ ?].
  - destruct (raftPersistMetadata_spec _ _ _ _ _ _ _ _ Hok Ht Hv Hdisk Hrun) as [[Hw Hod] _].
    assert (exists y, (y = Some (memory (ms_meta s)) \/ y = Some (term, vote)) /\
              file_in o1 (os_names o1) path = stored_text (ms_meta s) y /\ stored_ok y) as (y & Hy & Hf & Hyok).
    { destruct (on_disk_image _ _ _ _ Hod Hc) as [E|E];
        [exists (Some (memory (ms_meta s)))|exists (Some (term, vote))]; split_and!; try done; auto. }
    eapply md_inv_read; [done|by split|done|exact Hy|exact Hrd|].
    destruct (MetadataRead_spec MetadataInit _ y o1 Hok Hyok (restart_staging _ _ _ Hw Hc Hf)) as (r3 & m3' & o4 & ? & ? & ? & _).
    by exists r3, m3', o4.
  - pose proof (on_disk_image _ _ _ _ (st_disk _ _ _ _ Hdisk) Hc) as Hf. symmetry in Hf.
    destruct (MetadataRead_spec MetadataInit _ _ o1 Hok Hrange
                (restart_staging _ _ _ (st_wf _ _ _ _ Hdisk) Hc Hf)) as (r1 & m1 & o2' & ? & ? & ? & _).
    eapply (md_inv_read s (md_term (ms_meta s)) (md_vote (ms_meta s))); [done|done|reflexivity|by left|exact Hrd|].
    by exists r1, m1, o2'.
  - split; try done. by apply staging_plan.
Qed.

Lemma md_inv_steps s s' : rtc md_step s s' -> md_inv s -> md_inv s'.
Proof. induction 1; eauto using md_inv_step. Qed.

(** C20 (safety). A server never votes for two candidates in a term, across any
    number of crashes: take a server that durably holds its term and vote and
    persists only what the Raft library asks for (a later term, or a vote in a
    term without one), on a kernel whose calls may fail at any time, with power
    failures at any time, also in the middle of a replacement, each followed by
    [MetadataRead].  Then all votes it has successfully persisted for one term
    are the same, and the term and vote in memory are not older than any of
    them. *)
Theorem votes_survive_crashes s0 s :
  md_ok filename (ms_meta s0) -> stored_ok (Some (memory (ms_meta s0))) ->
  staging path tmp (stored_text (ms_meta s0) (Some (memory (ms_meta s0)))) (ms_os s0) ->
  ms_persisted s0 = [] -> rtc md_step s0 s ->
  (forall term vote vote', (term, vote) ∈ ms_persisted s -> (term, vote') ∈ ms_persisted s ->
     vote <> RAFT_NODE_ID_NONE -> vote' <> RAFT_NODE_ID_NONE -> vote = vote') /\
  (forall a, a ∈ ms_persisted s -> vote_le a (memory (ms_meta s))).
Proof.
  intros Hok Hr Hd Hp Hsteps.
  assert (md_inv s0) as Hinv.
  { split; try done. rewrite Hp. repeat constructor. }
  destruct (md_inv_steps _ _ Hsteps Hinv) as [_ _ _ Hsort].
  apply StronglySorted_inv in Hsort as [Hsort Hall]. split.
  - intros term vote vote' H1 H2 Hn1 Hn2. clear Hall Hsteps.
    assert (vote_le (term, vote) (term, vote') \/ vote_le (term, vote') (term, vote)) as Hle.
    { induction Hsort as [|a l _ IH Hall]; [by apply elem_of_nil in H1|].
      rewrite Forall_forall in Hall.
      apply elem_of_cons in H1 as [<-|H1], H2 as [<-|H2]; [by left|right|left|auto]; by apply Hall. }
    unfold vote_le in Hle. cbn in Hle. lia.
  - intros a Ha. rewrite Forall_forall in Hall. by apply Hall.
Qed.

End Replace.

(** ** On a concrete disk *)

Definition md_name : list Z := bytes_of "redisraft.db"%string.
Definition md_path : list Z := md_name ++ bytes_of ".meta"%string.

Definition demo_md : Metadata := mk_Metadata (Some md_path) (replicate 32 97) 1 3 RAFT_NODE_ID_NONE.

(** The file holds term 3 without a vote. *)
Definition demo_md_os (plan : list Z) : os :=
  mk_os {[ md_path := 3 ]} {[ 3 := metadata_text demo_md 3 RAFT_NODE_ID_NONE ]} ∅ 4 ∅ [] plan.

Definition demo_md_state : md_state := mk_md_state (demo_md_os []) demo_md [].

Lemma demo_md_ok : md_ok md_name demo_md.
Proof.
  split; [done|by vm_compute|done| |done]. apply Forall_replicate. lia.
Qed.

Lemma demo_md_staging plan :
  staging md_path (md_path ++ bytes_of ".tmp"%string)
    (stored_text demo_md (Some (3, RAFT_NODE_ID_NONE))) (demo_md_os plan).
Proof.
  assert (forall D, D ∈ dirs (demo_md_os plan) -> D = {[ md_path := 3 ]}) as Hdirs
    by (by intros D ->%list_elem_of_singleton).
  split; [split; [constructor|]| |]; cbn -[md_path metadata_text].
  - intros i [d [<- _]%lookup_singleton_Some]. lia.
  - intros fd [x Hx]. by rewrite lookup_empty in Hx.
  - lia.
  - intros p i [_ <-]%lookup_singleton_Some. by rewrite lookup_singleton_eq.
  - intros p1 p2 i [<- _]%lookup_singleton_Some [<- _]%lookup_singleton_Some. done.
  - intros D HD. by apply elem_of_nil in HD.
  - intros i D [Hp _]%lookup_singleton_Some. by apply (f_equal length) in Hp.
  - intros D ->%Hdirs. unfold file_in. rewrite lookup_singleton_eq. cbn -[md_path metadata_text].
    split; [by rewrite lookup_singleton_eq|]. intros i _. apply not_elem_of_empty.
Qed.

(** The disk as it would be found if every write had reached it. *)
Definition power_off (o : os) : os := mk_os (os_names o) (os_inodes o) ∅ (os_next o) ∅ [] [].

Lemma power_off_image o : crash_image o (power_off o).
Proof. split; try done. by left. Qed.

(** What a run of a process returns, and where it leaves the kernel. *)
Definition result_of {A} (d : A) (r : outcome (A * os)) : A * os :=
  match r with Done r => r | _ => (d, os_empty []) end.

Definition demo_persist (term vote : Z) (s : md_state) : md_state :=
  let '(_, m, o) := result_of (None, ms_meta s) (raftPersistMetadata (ms_meta s) term vote (ms_os s)) in
  mk_md_state o m ((term, vote) :: ms_persisted s).

(** A restart after the kernel has failed to replace the file: the [n]th call
    fails. *)
Definition demo_cut (n : nat) (s : md_state) : md_state :=
  mk_md_state ((ms_os s) <| os_plan := replicate n 4096 ++ [-1] |>) (ms_meta s) (ms_persisted s).

Definition demo_restart (term vote : Z) (s : md_state) : md_state :=
  let '(_, _, o) := result_of (None, ms_meta s) (raftPersistMetadata (ms_meta s) term vote (ms_os s)) in
  let '(_, m2, o2) := result_of (None, MetadataInit) (MetadataRead MetadataInit md_name (power_off o)) in
  mk_md_state o2 m2 (ms_persisted s).

(** Vote for 2 in term 4; fail to persist term 5, at the renaming, and restart. *)
Definition demo_md_run : md_state :=
  demo_restart 5 RAFT_NODE_ID_NONE (demo_cut 10 (demo_persist 4 2 demo_md_state)).

Lemma demo_persist_step s term vote :
  may_persist (ms_meta s) term vote ->
  fst (fst (result_of (None, ms_meta s) (raftPersistMetadata (ms_meta s) term vote (ms_os s)))) = Some 0 ->
  md_step md_name s (demo_persist term vote s).
Proof.
  intros Hm. unfold demo_persist.
  destruct (raftPersistMetadata _ _ _ _) as [[[r m] o]| |] eqn:E; cbn; [|done..].
  intros ->. by apply md_persist.
Qed.

Lemma demo_restart_step s term vote :
  may_persist (ms_meta s) term vote ->
  (exists r m o, raftPersistMetadata (ms_meta s) term vote (ms_os s) = Done ((r, m), o) /\
     fst (fst (result_of (None, MetadataInit) (MetadataRead MetadataInit md_name (power_off o)))) = Some RR_OK) ->
  md_step md_name s (demo_restart term vote s).
Proof.
  intros Hm (r & m & o & Hrun & Hrd). unfold demo_restart. rewrite Hrun. cbn [result_of].
  destruct (MetadataRead _ _ _) as [[[r2 m2] o2]| |] eqn:E; cbn in *; [|done..]. subst r2.
  eapply md_crash; [exact Hm|exact Hrun|apply power_off_image|exact E].
Qed.

Definition demo_voted : md_state := demo_cut 10 (demo_persist 4 2 demo_md_state).

Lemma demo_md_steps : rtc (md_step md_name) demo_md_state demo_md_run.
Proof.
  apply rtc_l with (demo_persist 4 2 demo_md_state).
  { apply demo_persist_step; [|vm_compute; reflexivity].
    split; [left; vm_compute; reflexivity|unfold int64, int32; lia]. }
  apply rtc_l with demo_voted; [apply md_kernel|]. apply rtc_once.
  apply (demo_restart_step demo_voted).
  - split; [left; vm_compute; reflexivity|unfold int64, int32, RAFT_NODE_ID_NONE; lia].
  - exists None, (ms_meta demo_voted),
      (snd (result_of (None, MetadataInit)
              (raftPersistMetadata (ms_meta demo_voted) 5 RAFT_NODE_ID_NONE (ms_os demo_voted)))).
    split; vm_compute; reflexivity.
Qed.

Lemma votes_survive_crashes_witness :
  memory (ms_meta demo_md_run) = (4, 2) /\ ms_persisted demo_md_run = [(4, 2)] /\
  (forall term vote vote', (term, vote) ∈ ms_persisted demo_md_run ->
     (term, vote') ∈ ms_persisted demo_md_run ->
     vote <> RAFT_NODE_ID_NONE -> vote' <> RAFT_NODE_ID_NONE -> vote = vote') /\
  (forall a, a ∈ ms_persisted demo_md_run -> vote_le a (memory (ms_meta demo_md_run))).
Proof.
  split; [vm_compute; reflexivity|]. split; [vm_compute; reflexivity|].
  apply (votes_survive_crashes md_name demo_md_state demo_md_run).
  - exact demo_md_ok.
  - split; split; vm_compute; congruence.
  - exact (demo_md_staging []).
  - reflexivity.
  - exact demo_md_steps.
Defined.

(** The directory cannot be synced after the renaming: the process stops, and a
    power failure leaves the old file or the new one. *)
Lemma metadata_crash_safe_witness :
  exists m' o', MetadataWrite demo_md 4 2 (demo_md_os (replicate 12 4096 ++ [-1])) = Done ((None, m'), o') /\
    m' = demo_md /\
    forall m0 o1, crash_image o' o1 ->
      exists y r1 m1 o2, MetadataRead m0 md_name o1 = Done ((r1, m1), o2) /\
        reads_stored m0 demo_md y r1 m1 /\ (no_faults o1 -> r1 <> None) /\
        (y = Some (3, RAFT_NODE_ID_NONE) \/ y = Some (4, 2)).
Proof.
  destruct (metadata_crash_safe md_name demo_md (Some (3, RAFT_NODE_ID_NONE))
              (demo_md_os (replicate 12 4096 ++ [-1])) 4 2) as (r & m' & o' & Hrun & _ & Hm & _ & Hread).
  - exact demo_md_ok.
  - split; unfold int64, int32, RAFT_NODE_ID_NONE; lia.
  - unfold int64. lia.
  - unfold int32. lia.
  - apply demo_md_staging.
  - assert (r = None) as ->.
    { apply (f_equal (fun x => fst (fst (result_of (None, demo_md) x)))) in Hrun. cbn [result_of fst] in Hrun.
      rewrite <- Hrun. vm_compute. reflexivity. }
    exists m', o'. split; [exact Hrun|]. split; [exact Hm|]. intros m0 o1 Hc.
    destruct (Hread m0 o1 Hc) as (y & r1 & m1 & o2 & H1 & H2 & H3 & H4 & _). exists y, r1, m1, o2. auto.
Defined.
