(* ===== verification/RedisLog.v ===== *)
(** * The persistent log ([redisraft/src/log.c])

    The log of one or two pages.  The second page exists while the log is being
    compacted: it receives the new entries, and replaces the first one once the
    snapshot that covers the first page is complete.  [Context] and the
    [logImpl] functions are what the Raft library sees of it
    ([raft_log_impl_t]): the log and the cache of its entries. *)

From stdpp Require Import base list numbers tactics gmap strings.
From S2P Require Import Prelude RaftTypes EntryCache Crc Libc File Multibulk PageLog.

Local Open Scope Z_scope.

Definition ENTRY_CACHE_INIT_SIZE : Z := 512.

(** [struct Log]; a page is [None] for NULL. *)
Record Log := mk_Log {
  log_dbid : list Z;
  log_node_id : Z;
  log_page0 : option LogPage;
  log_page1 : option LogPage;
  log_fsync_index : Z;
  log_fsync_count : Z;
  log_fsync_max : Z;
  log_fsync_total : Z
}.

#[export] Instance eta_Log : Eta Log :=
  fun l => mk_Log (log_dbid l) (log_node_id l) (log_page0 l) (log_page1 l) (log_fsync_index l)
             (log_fsync_count l) (log_fsync_max l) (log_fsync_total l).
#[export] Instance set_log_dbid : Setter log_dbid := ltac:(solve_setter).
#[export] Instance set_log_node_id : Setter log_node_id := ltac:(solve_setter).
#[export] Instance set_log_page0 : Setter log_page0 := ltac:(solve_setter).
#[export] Instance set_log_page1 : Setter log_page1 := ltac:(solve_setter).
#[export] Instance set_log_fsync_index : Setter log_fsync_index := ltac:(solve_setter).
#[export] Instance set_log_fsync_count : Setter log_fsync_count := ltac:(solve_setter).
#[export] Instance set_log_fsync_max : Setter log_fsync_max := ltac:(solve_setter).
#[export] Instance set_log_fsync_total : Setter log_fsync_total := ltac:(solve_setter).

(** [*p] for a page pointer; NULL is not valid. *)
Definition page_deref (p : option LogPage) : M os LogPage :=
  match p with Some p => ret p | None => abort end.

(** [m(log->pages[0])], [m(log->pages[1])], and [m] on the last page. *)
Definition on_page0 {A} (log : Log) (m : LogPage -> M os (A * LogPage)) : M os (A * Log) :=
  p <- page_deref (log_page0 log) ;;
  let* (a, p) := m p in ret (a, log <| log_page0 := Some p |>).
Definition on_page1 {A} (log : Log) (m : LogPage -> M os (A * LogPage)) : M os (A * Log) :=
  p <- page_deref (log_page1 log) ;;
  let* (a, p) := m p in ret (a, log <| log_page1 := Some p |>).

Definition has_page1 (log : Log) : bool := bool_decide (is_Some (log_page1 log)).

Definition last_page (log : Log) : option LogPage :=
  if has_page1 log then log_page1 log else log_page0 log.

Definition on_last {A} (log : Log) (m : LogPage -> M os (A * LogPage)) : M os (A * Log) :=
  if has_page1 log then on_page1 log m else on_page0 log m.

(** [pageFree], on a pointer that may be NULL. *)
Definition page_free (p : option LogPage) (delete_files : bool) : M os unit :=
  match p with Some p => pageFree p delete_files | None => ret tt end.

Definition LogInit : Log := mk_Log [] 0 None None 0 0 0 0.

Definition LogTerm (log : Log) : M os unit :=
  page_free (log_page0 log) false ;; page_free (log_page1 log) false.

Definition LogCreate (log : Log) (filename dbid : list Z) (node_id prev_log_term prev_log_index : Z) :
    M os (Z * Log) :=
  c_assert (Z.of_nat (length dbid) =? RAFT_DBID_LEN) ;;
  p <- pageCreate filename dbid node_id prev_log_term prev_log_index ;;
  let log := log <| log_page0 := p |> in
  match p with
  | None => ret (RR_ERROR, log)
  | Some p => ret (RR_OK, log <| log_dbid := lp_dbid p |> <| log_node_id := node_id |>)
  end.

Definition secondPageFileName (filename : list Z) : M os (list Z) :=
  path_name PATH_MAX (filename ++ bytes_of ".1"%string).

Definition LogOpen (log : Log) (filename : list Z) : M os (Z * Log) :=
  p0 <- pageOpen filename ;;
  let log := log <| log_page0 := p0 |> in
  match p0 with
  | None => ret (RR_ERROR, log)
  | Some p0 =>
      let log := log <| log_dbid := lp_dbid p0 |> <| log_node_id := lp_node_id p0 |> in
      buf <- secondPageFileName filename ;;
      ex <- sys_exists buf ;;
      if negb ex then ret (RR_OK, log) else
      p1 <- pageOpen buf ;;
      let log := log <| log_page1 := p1 |> in
      match p1 with
      | None => ret (RR_ERROR, log)
      | Some p1 =>
          c_assert ((lp_node_id p0 =? lp_node_id p1) && bool_decide (lp_dbid p0 = lp_dbid p1)) ;;
          ret (RR_OK, log)
      end
  end.

Definition LogFileSize (log : Log) : Z :=
  let size p := match p with Some p => FileSize (lp_file p) | None => 0 end in
  u64 (size (log_page0 log) + size (log_page1 log)).

Definition LogNodeId (log : Log) : Z := log_node_id log.
Definition LogDbid (log : Log) : list Z := log_dbid log.

Definition LogAppend (log : Log) (entry : raft_entry) : M os (Z * Log) :=
  on_last log (fun p => pageAppend p entry).

Definition LogLoadEntries (log : Log) : M os (Z * Log) :=
  let* (rc, log) := on_page0 log pageLoadEntries in
  if negb (rc =? RR_OK) then ret (RR_ERROR, log) else
  if has_page1 log then
    let* (rc, log) := on_page1 log pageLoadEntries in
    if negb (rc =? RR_OK) then ret (RR_ERROR, log) else
    p0 <- page_deref (log_page0 log) ;;
    p1 <- page_deref (log_page1 log) ;;
    if (lp_num_entries p1 =? 0) || negb (lp_prev_log_idx p1 =? lp_index p0) then
      pageFree p1 true ;; ret (RR_OK, log <| log_page1 := None |>)
    else ret (RR_OK, log)
  else ret (RR_OK, log).

(** The accessors read [log->pages[0]], which is never NULL after a successful
    [LogCreate] or [LogOpen]. *)
Definition page0_field (f : LogPage -> Z) (log : Log) : Z :=
  match log_page0 log with Some p => f p | None => 0 end.

Definition LogPrevLogTerm (log : Log) : Z := page0_field lp_prev_log_term log.
Definition LogPrevLogIndex (log : Log) : Z := page0_field lp_prev_log_idx log.
Definition LogCompactionIdx (log : Log) : Z := page0_field lp_index log.
Definition LogFirstIdx (log : Log) : Z := page0_field lp_prev_log_idx log + 1.

Definition LogCurrentIdx (log : Log) : Z :=
  match last_page log with Some p => lp_index p | None => 0 end.

Definition LogCount (log : Log) : Z :=
  page0_field lp_num_entries log +
  match log_page1 log with Some p => lp_num_entries p | None => 0 end.

(** [start] and [finish] are the two readings of
    [RedisModule_MonotonicMicroseconds]. *)
Definition LogSync (log : Log) (sync : bool) (start finish : Z) : M os (Z * Log) :=
  let* (rc, log) := on_last log (fun p => pageSync p sync) in
  c_assert (rc =? RR_OK) ;;
  let took := u64 (finish - start) in
  ret (RR_OK, log <| log_fsync_index := LogCurrentIdx log |>
                  <| log_fsync_count := u64 (log_fsync_count log + 1) |>
                  <| log_fsync_total := u64 (log_fsync_total log + took) |>
                  <| log_fsync_max := Z.max took (log_fsync_max log) |>).

Definition LogFlush (log : Log) : M os (Z * Log) :=
  let* (rc, log) := on_last log (fun p => on_file p FileFlush) in
  c_assert (rc =? RR_OK) ;; ret (RR_OK, log).

Definition LogCurrentFd (log : Log) : M os Z :=
  p <- page_deref (last_page log) ;; ret (f_fd (lp_file p)).

Definition LogGet (log : Log) (idx : Z) : M os (option raft_entry * Log) :=
  let* (ety, log) := (if has_page1 log then on_page1 log (fun p => pageGet p idx)
                      else ret (None, log)) in
  match ety with
  | Some e => ret (Some e, log)
  | None => on_page0 log (fun p => pageGet p idx)
  end.

(** The results of [pageDelete] are ignored. *)
Definition LogDelete (log : Log) (from_idx : Z) : M os (Z * Log) :=
  if (LogCount log =? 0) || (from_idx <? LogFirstIdx log) || (LogCurrentIdx log <? from_idx)
  then ret (RR_ERROR, log) else
  let* (_, log) := on_page0 log (fun p => pageDelete p from_idx) in
  if has_page1 log then
    let* (_, log) := on_page1 log (fun p => pageDelete p from_idx) in
    p0 <- page_deref (log_page0 log) ;;
    p1 <- page_deref (log_page1 log) ;;
    if negb (lp_index p0 =? lp_prev_log_idx p1) then
      pageFree p1 true ;; ret (RR_OK, log <| log_page1 := None |>)
    else ret (RR_OK, log)
  else ret (RR_OK, log).

Definition LogReset (log : Log) (index term : Z) : M os (Z * Log) :=
  page_free (log_page1 log) true ;;
  let log := log <| log_page1 := None |> in
  on_page0 log (fun p =>
    pageWriteHeader (p <| lp_index := index |> <| lp_prev_log_idx := index |>
                       <| lp_prev_log_term := term |>)).

(** ["%s.%d.bak"] *)
Definition archive_page (p : LogPage) : M os unit :=
  sys_unlink (lp_idxfilename p) ;;
  buf <- path_name (PATH_MAX + 100)
           (lp_filename p ++ bytes_of "."%string ++ dec_signed (lp_node_id p) ++ bytes_of ".bak"%string) ;;
  sys_rename (lp_filename p) buf ;; ret tt.

Definition LogArchiveFiles (log : Log) : M os unit :=
  p0 <- page_deref (log_page0 log) ;;
  archive_page p0 ;;
  match log_page1 log with Some p1 => archive_page p1 | None => ret tt end.

Definition LogCompactionBegin (log : Log) : M os (Z * Log) :=
  if has_page1 log then ret (RR_OK, log) else
  p0 <- page_deref (log_page0 log) ;;
  if lp_num_entries p0 <=? 1 then ret (RR_ERROR, log) else
  tmp <- secondPageFileName (lp_filename p0) ;;
  let idx := lp_index p0 in
  let* (e, log) := on_page0 log (fun p => pageGet p idx) in
  match e with
  | None => abort
  | Some e =>
      let* (rc, log) := on_page0 log (fun p => pageSync p true) in
      c_assert (rc =? RR_OK) ;;
      p1 <- pageCreate tmp (lp_dbid p0) (lp_node_id p0) (ety_term e) idx ;;
      let log := log <| log_page1 := p1 |> in
      ret (if bool_decide (p1 = None) then RR_ERROR else RR_OK, log)
  end.

Definition LogCompactionEnd (log : Log) : M os (unit * Log) :=
  p0 <- page_deref (log_page0 log) ;;
  p1 <- page_deref (log_page1 log) ;;
  rc <- sys_rename (lp_idxfilename p1) (lp_idxfilename p0) ;;
  c_assert (rc =? 0) ;;
  rc <- syncRename (lp_filename p1) (lp_filename p0) ;;
  c_assert (rc =? RR_OK) ;;
  let p1 := p1 <| lp_filename := lp_filename p0 |> <| lp_idxfilename := lp_idxfilename p0 |> in
  pageFree p0 false ;;
  ret (tt, log <| log_page0 := Some p1 |> <| log_page1 := None |>).

Definition LogCompactionStarted (log : Log) : bool := has_page1 log.

(** ** The interface to the Raft library

    The fields of [RedisRaftCtx] these functions use, the kernel, and the
    readings of the clock still to come. *)
Record Context := mk_Context {
  rr_log : Log;
  rr_logcache : option EntryCache;
  rr_log_fsync : bool;
  rr_os : os;
  rr_clock : list Z
}.

#[export] Instance eta_Context : Eta Context :=
  fun c => mk_Context (rr_log c) (rr_logcache c) (rr_log_fsync c) (rr_os c) (rr_clock c).
#[export] Instance set_rr_log : Setter rr_log := ltac:(solve_setter).
#[export] Instance set_rr_logcache : Setter rr_logcache := ltac:(solve_setter).
#[export] Instance set_rr_os : Setter rr_os := ltac:(solve_setter).
#[export] Instance set_rr_clock : Setter rr_clock := ltac:(solve_setter).

(** A function of the log: [f(&rr->log, ...)]. *)
Definition on_log {A} (m : Log -> M os (A * Log)) : M Context A := fun c =>
  match m (rr_log c) (rr_os c) with
  | Done ((a, log), o) => Done (a, c <| rr_log := log |> <| rr_os := o |>)
  | Abort => Abort
  | OutOfFuel => OutOfFuel
  end.

(** A function of the cache: [f(rr->logcache, ...)]. *)
Definition on_cache {A} (m : M EntryCache A) : M Context A := fun c =>
  match rr_logcache c with
  | None => Abort
  | Some cache =>
      match m cache with
      | Done (a, cache) => Done (a, c <| rr_logcache := Some cache |>)
      | Abort => Abort
      | OutOfFuel => OutOfFuel
      end
  end.

Definition MonotonicMicroseconds : M Context Z :=
  c <- get ;;
  match rr_clock c with
  | [] => ret 0
  | t :: ts => modify (fun c => c <| rr_clock := ts |>) ;; ret t
  end.

Definition logImplInit : M Context unit :=
  c <- get ;;
  when (bool_decide (rr_logcache c = None))
    (modify (fun c => c <| rr_logcache := Some (EntryCacheNew ENTRY_CACHE_INIT_SIZE) |>)).

Definition logImplFree : M Context unit :=
  on_log (fun log => LogTerm log ;; ret (tt, log)) ;;
  modify (fun c => c <| rr_logcache := None |>).

(** The result of [LogReset] is ignored. *)
Definition logImplReset (index term : Z) : M Context unit :=
  c_assert (1 <=? index) ;;
  on_log (fun log => LogReset log (index - 1) term) ;;
  modify (fun c => c <| rr_logcache := Some (EntryCacheNew ENTRY_CACHE_INIT_SIZE) |>).

Definition logImplAppend (ety : raft_entry) : M Context Z :=
  rc <- on_log (fun log => LogAppend log ety) ;;
  if negb (rc =? RR_OK) then ret (-1) else
  c <- get ;;
  on_cache (EntryCacheAppend ety (LogCurrentIdx (rr_log c))) ;;
  ret 0.

Definition logImplPoll (first_idx : Z) : M Context Z :=
  on_cache (EntryCacheDeleteHead first_idx) ;;
  on_log LogCompactionEnd ;;
  ret 0.

Definition logImplPop (from_idx : Z) : M Context Z :=
  on_cache (EntryCacheDeleteTail from_idx) ;;
  rc <- on_log (fun log => LogDelete log from_idx) ;;
  if negb (rc =? RR_OK) then ret (-1) else ret 0.

Definition logImplGet (idx : Z) : M Context (option raft_entry) :=
  ety <- on_cache (EntryCacheGet idx) ;;
  match ety with
  | Some e => ret (Some e)
  | None => on_log (fun log => LogGet log idx)
  end.

(** The loop of [logImplGetBatch], [n] rounds. *)
Fixpoint get_batch_loop (n : nat) (i idx : Z) (entries : list raft_entry) : M Context (Z * list raft_entry) :=
  match n with
  | O => ret (i, entries)
  | S n' =>
      e <- logImplGet (idx + i) ;;
      match e with
      | None => ret (i, entries)
      | Some e => get_batch_loop n' (i + 1) idx (entries ++ [e])
      end
  end.

Definition logImplGetBatch (idx entries_n : Z) : M Context (Z * list raft_entry) :=
  get_batch_loop (Z.to_nat entries_n) 0 idx [].

Definition logImplFirstIdx (c : Context) : Z := LogFirstIdx (rr_log c).
Definition logImplCurrentIdx (c : Context) : Z := LogCurrentIdx (rr_log c).
Definition logImplCount (c : Context) : Z := LogCount (rr_log c).

(** The two readings of the clock frame the call of [pageSync]. *)
Definition logImplSync : M Context Z :=
  c <- get ;;
  start <- MonotonicMicroseconds ;;
  finish <- MonotonicMicroseconds ;;
  on_log (fun log => LogSync log (rr_log_fsync c) start finish) ;;
  ret RR_OK.

(** [LogImpl]: the table given to the library. *)
#[export] Instance redis_log_impl : LogImpl Context := {
  log_impl_reset := logImplReset;
  log_impl_append := logImplAppend;
  log_impl_poll := logImplPoll;
  log_impl_pop := logImplPop;
  log_impl_get := logImplGet;
  log_impl_get_batch := logImplGetBatch;
  log_impl_first_idx := logImplFirstIdx;
  log_impl_current_idx := logImplCurrentIdx;
  log_impl_count := logImplCount;
  log_impl_sync := logImplSync
}.
