(* ===== verification/RedisLogSpec.v ===== *)
(** * Correctness of the persistent log

    The pages of a [Log] represent the abstract log of [RaftTypes]; what the
    operations of [RedisLog] do to it. *)

From stdpp Require Import base list numbers tactics gmap strings.
From S2P Require Import Prelude RaftTypes EntryCache Crc Libc File Multibulk PageLog PageCodec PageSpec PageLoad PageOpen PageRecovery RedisLog.

Local Open Scope Z_scope.

(** ** Frames *)

Lemma file_ok_same o o' f i c :
  os_fds o' !! f_fd f = os_fds o !! f_fd f -> os_inodes o' !! i = os_inodes o !! i ->
  file_ok o f i c -> file_ok o' f i c.
Proof.
  intros Hf Hi [(pos & d & Hl & ->) ? ? ?]. constructor; try done. exists pos, d. split; [|done].
  unfold fd_lookup in *. rewrite Hf. destruct (os_fds o !! f_fd f) as [[i1 p1]|]; [|done].
  destruct (os_inodes o !! i1) as [d1|] eqn:E; [|done]. simplify_eq. by rewrite Hi, E.
Qed.

(** What is outside of the descriptors [F] and the inodes [I] is the same. *)
Record agrees (F I : list Z) (o o' : os) : Prop := {
  ag_fds fd : fd ∉ F -> is_Some (os_fds o !! fd) -> os_fds o' !! fd = os_fds o !! fd;
  ag_inodes i : i ∉ I -> is_Some (os_inodes o !! i) -> os_inodes o' !! i = os_inodes o !! i
}.

Lemma touches_agrees F I o o' : touches F I o o' -> agrees F I o o'.
Proof. intros []. by constructor; auto. Qed.

Lemma page_ok_agrees F I o o' i j p es crc :
  agrees F I o o' -> (forall fd, fd ∈ page_fds p -> fd ∉ F) -> i ∉ I -> j ∉ I ->
  page_st o i j p es crc -> page_st o' i j p es crc.
Proof.
  intros [Hf Hi] HF Hi' Hj' [[H1 H2 Hne Hij] Hh He Hn Hx Hc]. constructor; try done.
  destruct (file_ok_exists _ _ _ _ H1), (file_ok_exists _ _ _ _ H2).
  constructor; try done; (eapply file_ok_same; [apply Hf|apply Hi|]; try done);
    apply HF; unfold page_fds; [by left|right; by left].
Qed.

(** ** Sizes *)

(** Room enough for the entries in a log file. *)
Definition log_room (es : list raft_entry) : Z :=
  foldr (fun e n => Z.of_nat (length (ety_data e)) + 1024 + n) 1024 es.

Lemma log_room_cons e es : log_room (e :: es) = Z.of_nat (length (ety_data e)) + 1024 + log_room es.
Proof. done. Qed.

Lemma log_room_pos es : 1024 <= log_room es.
Proof. induction es as [|e es IH]; [done|]. rewrite log_room_cons. lia. Qed.

Lemma log_room_app a b : log_room (a ++ b) = log_room a + log_room b - 1024.
Proof.
  induction a as [|e a IH]; [change (log_room []) with 1024; simpl; lia|].
  rewrite <- app_comm_cons, !log_room_cons. lia.
Qed.

Lemma header_bytes_length p : header_ok p -> Z.of_nat (length (header_bytes p)) < 1024.
Proof.
  intros Hh. unfold header_bytes. rewrite length_app.
  pose proof (header_text_length p Hh). pose proof (header_crc_bound p Hh).
  pose proof (bulk_signed_length (header_crc p) ltac:(unfold int64; lia)). lia.
Qed.

Lemma entry_bytes_length crc e :
  0 <= crc < 2 ^ 32 -> entry_ok e ->
  Z.of_nat (length (entry_bytes crc e)) <= Z.of_nat (length (ety_data e)) + 1024.
Proof.
  intros Hc He. unfold entry_bytes. rewrite !length_app. pose proof (entry_text_length e He).
  pose proof (bulk_signed_length crc ltac:(unfold int64; lia)).
  assert (length crlf = 2%nat) by reflexivity. lia.
Qed.

Lemma page_room p es : header_ok p -> Forall entry_ok es -> Z.of_nat (length (page_bytes p es)) <= log_room es.
Proof.
  intros Hh Hes. unfold page_bytes. rewrite length_app. pose proof (header_bytes_length p Hh).
  pose proof (header_crc_bound p Hh) as Hc. revert Hc. generalize (header_crc p).
  assert (forall crc, 0 <= crc < 2 ^ 32 -> Z.of_nat (length (entries_bytes crc es)) <= log_room es - 1024) as Hl.
  { clear -Hes. induction Hes as [|e es He Hes IH]; intros crc Hc; [done|].
    cbn [entries_bytes]. rewrite log_room_cons, length_app.
    pose proof (next_crc_bound crc e Hc He) as Hc'. specialize (IH _ Hc').
    pose proof (entry_bytes_length _ e Hc' He). lia. }
  intros crc Hc. specialize (Hl crc Hc). lia.
Qed.

Lemma page_small_room p es :
  header_ok p -> Forall entry_ok es -> log_room es < 2 ^ 63 -> page_small p es.
Proof. intros Hh Hes Hr. unfold page_small. pose proof (page_room p es Hh Hes). lia. Qed.

(** ** Representation *)

(** The page [p] holds [es], in the files of its names. *)
Record page_at (o : os) (i j : Z) (p : LogPage) (es : list raft_entry) : Prop := {
  pa_ok : page_ok o i j p es;
  pa_name : os_names o !! lp_filename p = Some i;
  pa_idxname : os_names o !! lp_idxfilename p = Some j;
  pa_idx : lp_idxfilename p = idx_name (lp_filename p)
}.

Definition second_name (filename : list Z) : list Z := filename ++ bytes_of ".1"%string.

(** The log represents [a]; [split] is the last index of the first page when
    there are two. *)
Inductive log_rep (o : os) (log : Log) : alog -> option Z -> Prop :=
| rep_one p i j es :
    log_page0 log = Some p -> log_page1 log = None -> page_at o i j p es ->
    name_ok (second_name (lp_filename p)) ->
    log_rep o log (mk_alog (lp_prev_log_idx p) es) None
| rep_two p0 i0 j0 es0 p1 i1 j1 es1 :
    log_page0 log = Some p0 -> log_page1 log = Some p1 ->
    page_at o i0 j0 p0 es0 -> page_at o i1 j1 p1 es1 ->
    name_ok (second_name (lp_filename p0)) -> lp_filename p1 = second_name (lp_filename p0) ->
    lp_prev_log_idx p1 = lp_index p0 ->
    (forall fd, fd ∈ page_fds p0 -> fd ∉ page_fds p1) ->
    es0 <> [] ->
    log_rep o log (mk_alog (lp_prev_log_idx p0) (es0 ++ es1)) (Some (lp_index p0)).

(** The four names are distinct. *)
Lemma names_distinct fn :
  NoDup [fn; idx_name fn; second_name fn; idx_name (second_name fn)].
Proof.
  apply (NoDup_fmap_1 length). cbn. unfold second_name, idx_name. rewrite !length_app. cbn.
  repeat (constructor; [rewrite ?not_elem_of_cons; split_and?; try lia; apply not_elem_of_nil|]). constructor.
Qed.

(** So are the inodes. *)
Lemma inodes_distinct o i0 j0 p0 es0 i1 j1 p1 es1 :
  os_wf o -> page_at o i0 j0 p0 es0 -> page_at o i1 j1 p1 es1 -> lp_filename p1 = second_name (lp_filename p0) ->
  i0 <> i1 /\ i0 <> j1 /\ j0 <> i1 /\ j0 <> j1.
Proof.
  intros Hw [_ H1 H2 Hx1] [_ H3 H4 Hx2] Hn. rewrite Hx2, Hn in H4. rewrite Hn in H3. rewrite Hx1 in H2.
  pose proof (names_distinct (lp_filename p0)) as Hnd.
  assert (forall (a b : nat) x y, [lp_filename p0; idx_name (lp_filename p0); second_name (lp_filename p0);
            idx_name (second_name (lp_filename p0))] !! a = Some x ->
          [lp_filename p0; idx_name (lp_filename p0); second_name (lp_filename p0);
            idx_name (second_name (lp_filename p0))] !! b = Some y -> a <> b ->
          forall k l, os_names o !! x = Some k -> os_names o !! y = Some l -> k <> l) as Hinj.
  { intros a b x y Ha Hb Hab k l Hk Hl <-. apply Hab. pose proof (wf_inj _ Hw _ _ _ Hk Hl). subst y.
    by eapply NoDup_lookup. }
  split_and!; [apply (Hinj 0 2)%nat with (1 := eq_refl) (2 := eq_refl)|
               apply (Hinj 0 3)%nat with (1 := eq_refl) (2 := eq_refl)|
               apply (Hinj 1 2)%nat with (1 := eq_refl) (2 := eq_refl)|
               apply (Hinj 1 3)%nat with (1 := eq_refl) (2 := eq_refl)]; done.
Qed.

(** ** Running an operation on a page *)

Lemma on_page0_done {A} log p (m : LogPage -> M os (A * LogPage)) o a p' o' :
  log_page0 log = Some p -> m p o = Done ((a, p'), o') ->
  on_page0 log m o = Done ((a, log <| log_page0 := Some p' |>), o').
Proof. intros Hp Hm. unfold on_page0. rewrite Hp. run_refl. by run_step Hm. Qed.

Lemma on_page1_done {A} log p (m : LogPage -> M os (A * LogPage)) o a p' o' :
  log_page1 log = Some p -> m p o = Done ((a, p'), o') ->
  on_page1 log m o = Done ((a, log <| log_page1 := Some p' |>), o').
Proof. intros Hp Hm. unfold on_page1. rewrite Hp. run_refl. by run_step Hm. Qed.

Lemma on_page0_abort {A} log p (m : LogPage -> M os (A * LogPage)) o :
  log_page0 log = Some p -> m p o = Abort -> on_page0 log m o = Abort.
Proof. intros Hp Hm. unfold on_page0. rewrite Hp. run_refl. unfold bind. by rewrite Hm. Qed.

Lemma on_page1_abort {A} log p (m : LogPage -> M os (A * LogPage)) o :
  log_page1 log = Some p -> m p o = Abort -> on_page1 log m o = Abort.
Proof. intros Hp Hm. unfold on_page1. rewrite Hp. run_refl. unfold bind. by rewrite Hm. Qed.

Lemma has_page1_true log p : log_page1 log = Some p -> has_page1 log = true.
Proof. intros H. unfold has_page1. rewrite H. by apply bool_decide_eq_true. Qed.

Lemma has_page1_false log : log_page1 log = None -> has_page1 log = false.
Proof. intros H. unfold has_page1. rewrite H. apply bool_decide_eq_false. by intros [? ?]. Qed.

Lemma page_at_ident o o' i j p p' es es' :
  page_at o i j p es -> touches (page_fds p) [i; j] o o' -> same_ident p p' -> page_ok o' i j p' es' ->
  page_at o' i j p' es'.
Proof.
  intros [_ H1 H2 H3] Ht Hid Hok. constructor; try done.
  - by rewrite (to_names _ _ _ _ Ht), (si_name _ _ Hid).
  - by rewrite (to_names _ _ _ _ Ht), (si_idxname _ _ Hid).
  - by rewrite (si_idxname _ _ Hid), (si_name _ _ Hid).
Qed.

(** The other page, when only one is changed. *)
Lemma page_at_other o o' i j p es F I :
  page_at o i j p es -> touches F I o o' -> (forall fd, fd ∈ page_fds p -> fd ∉ F) -> i ∉ I -> j ∉ I ->
  page_at o' i j p es.
Proof.
  intros [Hok H1 H2 H3] Ht HF Hi Hj. constructor; rewrite ?(to_names _ _ _ _ Ht); try done.
  eapply page_ok_agrees; [by apply touches_agrees|done..].
Qed.

Lemma page_at_wf o o' i j p p' es es' crc :
  page_at o i j p es -> page_st o' i j p' es' crc -> touches (page_fds p) [i; j] o o' ->
  os_wf o -> os_wf o'.
Proof.
  intros [[Hf _ _ _ _ _] _ _ _] [Hf' _ _ _ _ _] Ht. exact (two_files_wf _ _ _ _ _ _ _ _ _ _ Hf Hf' Ht).
Qed.

(** A page is changed in place. *)
Section OnePage.
Context (o o' : os) (log : Log).
Hypothesis Hwf : os_wf o.

Lemma log_rep_page0 p p' i j es :
  log_page0 log = Some p -> log_page1 log = None -> page_at o i j p es ->
  name_ok (second_name (lp_filename p)) -> same_ident p p' ->
  forall es', page_at o' i j p' es' ->
  log_rep o' (log <| log_page0 := Some p' |>) (mk_alog (lp_prev_log_idx p) es') None.
Proof.
  intros H0 H1 Hp Hn Hid es' Hp'. rewrite <- (si_prev _ _ Hid).
  eapply rep_one; [done|done|exact Hp'|]. by rewrite (si_name _ _ Hid).
Qed.

Lemma log_rep_page1 p0 i0 j0 es0 p1 p1' i1 j1 es1 :
  log_page0 log = Some p0 -> log_page1 log = Some p1 ->
  page_at o i0 j0 p0 es0 -> page_at o i1 j1 p1 es1 ->
  name_ok (second_name (lp_filename p0)) -> lp_filename p1 = second_name (lp_filename p0) ->
  lp_prev_log_idx p1 = lp_index p0 -> (forall fd, fd ∈ page_fds p0 -> fd ∉ page_fds p1) -> es0 <> [] ->
  touches (page_fds p1) [i1; j1] o o' -> same_ident p1 p1' ->
  forall es1', page_at o' i1 j1 p1' es1' ->
  log_rep o' (log <| log_page1 := Some p1' |>) (mk_alog (lp_prev_log_idx p0) (es0 ++ es1')) (Some (lp_index p0)).
Proof.
  intros H0 H1 Hp0 Hp1 Hn Hn1 Hprev Hfd Hne Hto Hid es1' Hp1'.
  destruct (inodes_distinct _ _ _ _ _ _ _ _ _ Hwf Hp0 Hp1 Hn1) as (? & ? & ? & ?).
  eapply rep_two; try done.
  - eapply page_at_other; [exact Hp0|exact Hto|done|not_in..].
  - by rewrite (si_name _ _ Hid).
  - by rewrite (si_prev _ _ Hid).
  - by rewrite (si_fds _ _ Hid).
Qed.

Lemma log_rep_two_page0 p0 p0' i0 j0 es0 p1 i1 j1 es1 :
  log_page0 log = Some p0 -> log_page1 log = Some p1 ->
  page_at o i0 j0 p0 es0 -> page_at o i1 j1 p1 es1 ->
  name_ok (second_name (lp_filename p0)) -> lp_filename p1 = second_name (lp_filename p0) ->
  lp_prev_log_idx p1 = lp_index p0 -> (forall fd, fd ∈ page_fds p0 -> fd ∉ page_fds p1) -> es0 <> [] ->
  touches (page_fds p0) [i0; j0] o o' -> same_ident p0 p0' -> page_at o' i0 j0 p0' es0 ->
  log_rep o' (log <| log_page0 := Some p0' |>) (mk_alog (lp_prev_log_idx p0) (es0 ++ es1)) (Some (lp_index p0)).
Proof.
  intros H0 H1 Hp0 Hp1 Hn Hn1 Hprev Hfd Hne Hto Hid Hp0'.
  destruct (inodes_distinct _ _ _ _ _ _ _ _ _ Hwf Hp0 Hp1 Hn1) as (? & ? & ? & ?).
  assert (lp_index p0 = lp_index p0') as E.
  { rewrite (po_index _ _ _ _ _ _ (pa_ok _ _ _ _ _ Hp0)), (po_index _ _ _ _ _ _ (pa_ok _ _ _ _ _ Hp0')).
    by rewrite (si_prev _ _ Hid). }
  rewrite E, <- (si_prev _ _ Hid). eapply rep_two; try done.
  - eapply page_at_other; [exact Hp1|exact Hto|intros fd Hin1 Hin0; by eapply Hfd|not_in..].
  - by rewrite (si_name _ _ Hid).
  - by rewrite (si_name _ _ Hid).
  - by rewrite <- E.
  - by rewrite (si_fds _ _ Hid).
Qed.

End OnePage.

(** ** Appending *)

Lemma page_append_at o i j p es e :
  page_at o i j p es -> entry_ok e -> os_wf o ->
  (exists p' o', pageAppend p e o = Done ((RR_OK, p'), o') /\ touches (page_fds p) [i; j] o o' /\
     same_ident p p' /\ page_at o' i j p' (es ++ [e]) /\ os_wf o') \/
  (exists p' o', pageAppend p e o = Done ((RR_ERROR, p'), o') /\ ~ no_faults o /\
     touches (page_fds p) [i; j] o o' /\ same_ident p p' /\ page_at o' i j p' es /\ os_wf o') \/
  (pageAppend p e o = Abort /\ ~ no_faults o).
Proof.
  intros Hp He Hw.
  destruct (pageAppend_spec o i j p es e (pa_ok _ _ _ _ _ Hp) He)
    as [(p' & o' & Hrun & Hto & Hid & Hok)|[(p' & o' & Hrun & Hnf & Hto & Hs & Hok)|H]]; [left| |by right; right].
  - exists p', o'. pose proof (page_at_ident _ _ _ _ _ _ _ _ Hp Hto Hid Hok) as Hp'.
    split_and!; try done. exact (page_at_wf _ _ _ _ _ _ _ _ _ Hp Hok Hto Hw).
  - right. left. exists p', o'. pose proof (same_page_ident _ _ Hs) as Hid.
    pose proof (page_at_ident _ _ _ _ _ _ _ _ Hp Hto Hid Hok) as Hp'.
    split_and!; try done. exact (page_at_wf _ _ _ _ _ _ _ _ _ Hp Hok Hto Hw).
Qed.

Lemma LogAppend_spec o log a split e :
  os_wf o -> log_rep o log a split -> entry_ok e ->
  (exists log' o', LogAppend log e o = Done ((RR_OK, log'), o') /\ os_wf o' /\ (no_faults o -> no_faults o') /\
     log_rep o' log' (alog_append a e) split) \/
  (exists log' o', LogAppend log e o = Done ((RR_ERROR, log'), o') /\ ~ no_faults o /\ os_wf o' /\
     log_rep o' log' a split) \/
  (LogAppend log e o = Abort /\ ~ no_faults o).
Proof.
  intros Hw Hl He. unfold LogAppend, on_last.
  destruct Hl as [p i j es H0 H1 Hp Hn|p0 i0 j0 es0 p1 i1 j1 es1 H0 H1 Hp0 Hp1 Hn Hn1 Hprev Hfd Hne].
  - rewrite (has_page1_false _ H1).
    destruct (page_append_at o i j p es e Hp He Hw)
      as [(p' & o' & Hrun & Hto & Hid & Hp' & Hw')|[(p' & o' & Hrun & Hnf & Hto & Hid & Hp' & Hw')|[Hrun Hnf]]].
    + left. eexists _, o'. rewrite (on_page0_done _ _ _ _ _ _ _ H0 Hrun).
      split_and!; [done|done|apply Hto|]. by eapply (log_rep_page0 o).
    + right. left. eexists _, o'. rewrite (on_page0_done _ _ _ _ _ _ _ H0 Hrun).
      split_and!; [done..|]. by eapply (log_rep_page0 o).
    + right. right. by rewrite (on_page0_abort _ _ _ _ H0 Hrun).
  - rewrite (has_page1_true _ _ H1).
    destruct (page_append_at o i1 j1 p1 es1 e Hp1 He Hw)
      as [(p' & o' & Hrun & Hto & Hid & Hp' & Hw')|[(p' & o' & Hrun & Hnf & Hto & Hid & Hp' & Hw')|[Hrun Hnf]]].
    + left. eexists _, o'. rewrite (on_page1_done _ _ _ _ _ _ _ H1 Hrun).
      split_and!; [done|done|apply Hto|].
      unfold alog_append. cbn. rewrite <- app_assoc. by eapply (log_rep_page1 o).
    + right. left. eexists _, o'. rewrite (on_page1_done _ _ _ _ _ _ _ H1 Hrun).
      split_and!; [done..|]. by eapply (log_rep_page1 o).
    + right. right. by rewrite (on_page1_abort _ _ _ _ H1 Hrun).
Qed.

(** ** Lookup *)

Lemma zlookup_app {A} (a b : list A) k :
  zlookup (a ++ b) k =
    if k <? Z.of_nat (length a) then zlookup a k else zlookup b (k - Z.of_nat (length a)).
Proof.
  unfold zlookup. destruct (Z.ltb_spec k 0); destruct (Z.ltb_spec k (Z.of_nat (length a)));
    try lia; try done.
  - by rewrite lookup_app_l by lia.
  - destruct (Z.ltb_spec (k - Z.of_nat (length a)) 0); [lia|].
    rewrite lookup_app_r by lia. f_equal. lia.
Qed.

Lemma page_get_at o i j p es idx :
  page_at o i j p es -> log_room es < 2 ^ 63 -> os_wf o ->
  (exists r p' o', pageGet p idx o = Done ((r, p'), o') /\ touches (page_fds p) [i; j] o o' /\
     same_ident p p' /\ page_at o' i j p' es /\ os_wf o' /\
     (r = page_entry p es idx \/ (r = None /\ ~ no_faults o))) \/
  (pageGet p idx o = Abort /\ ~ no_faults o).
Proof.
  intros Hp Hr Hw. pose proof (pa_ok _ _ _ _ _ Hp) as Hok.
  assert (page_small p es) as Hsm by (by apply page_small_room; [apply Hok..|]).
  destruct (pageGet_spec o i j p es idx Hok Hsm) as [(r & p' & o' & Hrun & Hto & Hs & Hok' & Hres)|H]; [left|by right].
  exists r, p', o'. pose proof (same_page_ident _ _ Hs) as Hid. rewrite <- (same_page_crc _ _ Hs) in Hok'.
  split; [done|]. split; [done|]. split; [done|].
  split; [by eapply page_at_ident|]. split; [|done].
  exact (page_at_wf _ _ _ _ _ _ _ _ _ Hp Hok' Hto Hw).
Qed.

(** [LogGet] returns the entry of that index; a kernel that fails can make it
    return nothing, or stop, but never another entry. *)
Lemma LogGet_spec o log a split idx :
  os_wf o -> log_rep o log a split -> log_room (al_entries a) < 2 ^ 63 ->
  (exists r log' o', LogGet log idx o = Done ((r, log'), o') /\ os_wf o' /\ (no_faults o -> no_faults o') /\
     log_rep o' log' a split /\ (r = alog_get a idx \/ (r = None /\ ~ no_faults o))) \/
  (LogGet log idx o = Abort /\ ~ no_faults o).
Proof.
  intros Hw Hl Hroom. unfold LogGet.
  destruct Hl as [p i j es H0 H1 Hp Hn|p0 i0 j0 es0 p1 i1 j1 es1 H0 H1 Hp0 Hp1 Hn Hn1 Hprev Hfd Hne].
  - rewrite (has_page1_false _ H1). run_refl.
    destruct (page_get_at o i j p es idx Hp Hroom Hw)
      as [(r & p' & o' & Hrun & Hto & Hid & Hp' & Hw' & Hres)|[Hrun Hnf]].
    + left. eexists _, _, o'. rewrite (on_page0_done _ _ _ _ _ _ _ H0 Hrun).
      split_and!; [done|done|apply Hto| |done]. by eapply (log_rep_page0 o).
    + right. by rewrite (on_page0_abort _ _ _ _ H0 Hrun).
  - cbn in Hroom. rewrite log_room_app in Hroom.
    pose proof (log_room_pos es0). pose proof (log_room_pos es1).
    rewrite (has_page1_true _ _ H1).
    pose proof (po_index _ _ _ _ _ _ (pa_ok _ _ _ _ _ Hp0)) as Hidx.
    assert (alog_get (mk_alog (lp_prev_log_idx p0) (es0 ++ es1)) idx =
            if idx - lp_prev_log_idx p0 - 1 <? Z.of_nat (length es0) then page_entry p0 es0 idx
            else page_entry p1 es1 idx) as Hget.
    { unfold alog_get, page_entry. cbn. rewrite zlookup_app, Hprev, Hidx.
      destruct (_ <? _); [done|]. f_equal. lia. }
    destruct (page_get_at o i1 j1 p1 es1 idx Hp1 ltac:(lia) Hw)
      as [(r & p1' & o1 & Hrun & Hto & Hid & Hp1' & Hw1 & Hres)|[Hrun Hnf]].
    2: { right. split; [|done]. unfold bind. by rewrite (on_page1_abort _ _ _ _ H1 Hrun). }
    rewrite (bind_done_eq _ _ _ _ _ (on_page1_done _ _ _ _ _ _ _ H1 Hrun)). cbv beta iota.
    set (log1 := log <| log_page1 := Some p1' |>).
    assert (log_rep o1 log1 (mk_alog (lp_prev_log_idx p0) (es0 ++ es1)) (Some (lp_index p0))) as Hl1
      by (by eapply (log_rep_page1 o)).
    destruct r as [e|].
    { left. eexists _, _, o1. split; [reflexivity|]. split; [done|]. split; [apply Hto|]. split; [done|].
      left. destruct Hres as [E|[E _]]; [|done]. rewrite Hget.
      destruct (Z.ltb_spec (idx - lp_prev_log_idx p0 - 1) (Z.of_nat (length es0))); [|done].
      symmetry in E. apply page_entry_Some in E as (k & _ & E). lia. }
    destruct (inodes_distinct _ _ _ _ _ _ _ _ _ Hw Hp0 Hp1 Hn1) as (? & ? & ? & ?).
    assert (page_at o1 i0 j0 p0 es0) as Hp01.
    { eapply page_at_other; [exact Hp0|exact Hto|done|not_in..]. }
    destruct (page_get_at o1 i0 j0 p0 es0 idx Hp01 ltac:(lia) Hw1)
      as [(r & p0' & o2 & Hrun2 & Hto2 & Hid2 & Hp0' & Hw2 & Hres2)|[Hrun2 Hnf]].
    2: { right. split; [by apply (on_page0_abort log1 p0)|]. intros Hx. by apply Hnf, Hto. }
    left. eexists _, _, o2. rewrite (on_page0_done log1 p0 _ _ _ _ _ H0 Hrun2). split; [done|].
    split; [done|]. split; [by intros Hx; apply Hto2, Hto|]. split.
    + eapply (log_rep_two_page0 o1 _ log1); try done.
      * by rewrite (si_name _ _ Hid).
      * by rewrite (si_prev _ _ Hid).
      * by rewrite (si_fds _ _ Hid).
    + rewrite Hget. destruct Hres as [E|[_ Hnf]].
      * destruct (Z.ltb_spec (idx - lp_prev_log_idx p0 - 1) (Z.of_nat (length es0))) as [Hlt|Hge].
        -- destruct Hres2 as [->|[-> Hnf]]; [by left|right]. split; [done|]. intros Hx. by apply Hnf, Hto.
        -- rewrite <- E. destruct Hres2 as [->|[-> Hnf]]; [|by left]. left. unfold page_entry.
           apply zlookup_None. lia.
      * destruct (Z.ltb_spec (idx - lp_prev_log_idx p0 - 1) (Z.of_nat (length es0))) as [Hlt|Hge].
        -- destruct Hres2 as [->|[-> _]]; [by left|by right].
        -- right. split; [|done]. destruct Hres2 as [->|[-> _]]; [|done]. apply zlookup_None. lia.
Qed.

(** ** Removing a page *)

Lemma sys_unlink_spec o path i :
  no_faults o -> os_wf o -> os_names o !! path = Some i ->
  exists o', sys_unlink path o = Done (0, o') /\ os_names o' = delete path (os_names o) /\
    agrees [] [] o o' /\ no_faults o' /\ os_wf o'.
Proof.
  intros Hn Hw Hp. destruct (sys_ok_no_faults o Hn) as (pl & Hrun & Hn').
  unfold sys_unlink. run_step Hrun. run_refl. cbn. rewrite bool_decide_eq_false_2 by (by rewrite Hp).
  eexists. split; [reflexivity|]. split; [done|]. split; [by constructor|]. split; [done|].
  constructor; cbn; try apply Hw.
  - intros p k [_ Hk]%lookup_delete_Some. by eapply (wf_names _ Hw).
  - intros p p' k [_ Hk]%lookup_delete_Some [_ Hk']%lookup_delete_Some. by eapply (wf_inj _ Hw).
Qed.

Lemma agrees_trans F I o1 o2 o3 : agrees F I o1 o2 -> agrees F I o2 o3 -> agrees F I o1 o3.
Proof.
  intros [H1 H2] [H3 H4]. constructor.
  - intros fd Hf Hs. rewrite H3, H1; try done. by rewrite H1.
  - intros k Hk Hs. rewrite H4, H2; try done. by rewrite H2.
Qed.

Lemma agrees_nil F I o o' : agrees [] [] o o' -> agrees F I o o'.
Proof. intros [H1 H2]. constructor; intros; [apply H1|apply H2]; try done; apply not_elem_of_nil. Qed.

Lemma pageFree_delete_spec o i j p es crc :
  no_faults o -> os_wf o -> page_st o i j p es crc ->
  os_names o !! lp_filename p = Some i -> os_names o !! lp_idxfilename p = Some j ->
  exists o', pageFree p true o = Done (tt, o') /\
    os_names o' = delete (lp_filename p) (delete (lp_idxfilename p) (os_names o)) /\
    agrees (page_fds p) [i; j] o o' /\ no_faults o' /\ os_wf o'.
Proof.
  intros Hn Hw Hp Hi Hj.
  destruct (pageFree_close_spec _ _ _ _ _ _ (po_files _ _ _ _ _ _ Hp)) as (o1 & Hrun & Hto & Hwf & _).
  pose proof (po_files _ _ _ _ _ _ Hp) as [_ _ _ Hij].
  specialize (Hwf Hw). pose proof (to_plan _ _ _ _ Hto Hn) as Hn1.
  rewrite <- (to_names _ _ _ _ Hto) in Hi, Hj.
  destruct (sys_unlink_spec o1 _ j Hn1 Hwf Hj) as (o2 & Hrun2 & Hnames2 & Hag2 & Hn2 & Hw2).
  destruct (sys_unlink_spec o2 (lp_filename p) i Hn2 Hw2) as (o3 & Hrun3 & Hnames3 & Hag3 & Hn3 & Hw3).
  { rewrite Hnames2, lookup_delete_ne; [done|]. intros E. rewrite E, Hi in Hj. by simplify_eq. }
  destruct (fsyncDir_spec o3 Hn3) as (pl & _ & Hrun4 & Hn4).
  exists (dir_synced pl o3). split.
  - revert Hrun. unfold pageFree, when. intros Hrun.
    apply bind_done in Hrun as (x & s1 & H1 & Hrun). rewrite (bind_done_eq _ _ _ _ _ H1).
    apply bind_done in Hrun as (y & s2 & H2 & Hrun). rewrite (bind_done_eq _ _ _ _ _ H2).
    unfold ret in Hrun. simplify_eq. run_step Hrun2. run_step Hrun3. exact Hrun4.
  - split; [by cbn; rewrite Hnames3, Hnames2, (to_names _ _ _ _ Hto)|]. split; [|split; [done|by apply os_wf_dir_synced]].
    eapply agrees_trans; [by apply touches_agrees|]. apply agrees_nil.
    eapply agrees_trans; [exact Hag2|]. destruct Hag3. by constructor.
Qed.

(** A page whose files are not those of the one removed. *)
Lemma page_at_after_free o o' i j p es i1 j1 p1 :
  page_at o i j p es -> lp_filename p1 = second_name (lp_filename p) -> lp_idxfilename p1 = idx_name (lp_filename p1) ->
  os_names o' = delete (lp_filename p1) (delete (lp_idxfilename p1) (os_names o)) ->
  agrees (page_fds p1) [i1; j1] o o' -> (forall fd, fd ∈ page_fds p -> fd ∉ page_fds p1) ->
  i ∉ [i1; j1] -> j ∉ [i1; j1] -> page_at o' i j p es.
Proof.
  intros [Hok H1 H2 H3] Hn Hx Hnames Hag Hfd Hi Hj.
  pose proof (names_distinct (lp_filename p)) as Hnd. rewrite Hx, Hn in Hnames.
  rewrite !NoDup_cons, !not_elem_of_cons in Hnd. destruct_and!.
  constructor; [by eapply page_ok_agrees| | |done].
  - rewrite Hnames, !lookup_delete_ne; by try (intros E; symmetry in E; done).
  - rewrite H3 in *. rewrite Hnames, !lookup_delete_ne; by try (intros E; symmetry in E; done).
Qed.

(** ** Deleting *)

Lemma page_delete_at o i j p es from :
  page_at o i j p es -> log_room es < 2 ^ 63 -> os_wf o -> no_faults o ->
  lp_prev_log_idx p < from <= lp_prev_log_idx p + Z.of_nat (length es) ->
  exists p' o', pageDelete p from o = Done ((RR_OK, p'), o') /\ touches (page_fds p) [i; j] o o' /\
    same_ident p p' /\ page_at o' i j p' (take (Z.to_nat (from - lp_prev_log_idx p - 1)) es) /\ os_wf o'.
Proof.
  intros Hp Hr Hw Hn Hfrom. pose proof (pa_ok _ _ _ _ _ Hp) as Hok.
  assert (page_small p es) as Hsm by (by apply page_small_room; [apply Hok..|]).
  pose proof (po_index _ _ _ _ _ _ Hok) as Hidx.
  destruct (pageDelete_spec o i j p es from Hok Hsm ltac:(lia))
    as [(rc & p' & o' & Hrun & Hto & Hid & [[-> Hok']|(_ & Hx & _)])|[_ Hx]]; [|done|done].
  exists p', o'. split; [done|]. split; [done|]. split; [done|].
  split; [by eapply page_at_ident|]. exact (page_at_wf _ _ _ _ _ _ _ _ _ Hp Hok' Hto Hw).
Qed.

Lemma page_delete_out p from o :
  from <= lp_prev_log_idx p \/ lp_index p < from -> pageDelete p from o = Done ((RR_ERROR, p), o).
Proof. intros H. unfold pageDelete. by replace (_ || _) with true by lia. Qed.

Definition split_pop (split : option Z) (idx : Z) : option Z :=
  match split with Some b => if idx <=? b then None else Some b | None => None end.

(** [LogDelete] removes the entries from [idx] on, and the second page with
    them when the first one is cut. *)
Lemma LogDelete_spec o log a split idx :
  os_wf o -> no_faults o -> log_rep o log a split -> log_room (al_entries a) < 2 ^ 63 ->
  al_base a < idx <= alog_last a ->
  exists log' o', LogDelete log idx o = Done ((RR_OK, log'), o') /\ os_wf o' /\ no_faults o' /\
    log_rep o' log' (alog_pop a idx) (split_pop split idx).
Proof.
  intros Hw Hnf Hl Hroom Hidx. unfold LogDelete.
  destruct Hl as [p i j es H0 H1 Hp Hn|p0 i0 j0 es0 p1 i1 j1 es1 H0 H1 Hp0 Hp1 Hn Hn1 Hprev Hfd Hne].
  - unfold LogCount, LogFirstIdx, LogCurrentIdx, page0_field, last_page.
    rewrite (has_page1_false _ H1), H0, H1. cbn [al_base alog_last al_entries] in *.
    pose proof (pa_ok _ _ _ _ _ Hp) as Hok. pose proof (po_num _ _ _ _ _ _ Hok). pose proof (po_index _ _ _ _ _ _ Hok).
    unfold alog_last in Hidx. cbn in Hidx. replace (_ || _) with false by lia.
    destruct (page_delete_at o i j p es idx Hp Hroom Hw Hnf ltac:(lia)) as (p' & o' & Hrun & Hto & Hid & Hp' & Hw').
    rewrite (bind_done_eq _ _ _ _ _ (on_page0_done log p (fun p => pageDelete p idx) _ _ _ _ H0 Hrun)). cbv beta iota.
    set (log1 := log <| log_page0 := Some p' |>). rewrite (has_page1_false log1 H1).
    exists log1, o'. split; [reflexivity|]. split; [done|]. split; [by apply Hto|].
    by eapply (log_rep_page0 o).
  - cbn [al_entries] in Hroom. rewrite log_room_app in Hroom.
    pose proof (log_room_pos es0). pose proof (log_room_pos es1).
    unfold LogCount, LogFirstIdx, LogCurrentIdx, page0_field, last_page.
    rewrite (has_page1_true _ _ H1), H0, H1.
    pose proof (pa_ok _ _ _ _ _ Hp0) as Hok0. pose proof (pa_ok _ _ _ _ _ Hp1) as Hok1.
    pose proof (po_num _ _ _ _ _ _ Hok0). pose proof (po_index _ _ _ _ _ _ Hok0) as Hi0.
    pose proof (po_num _ _ _ _ _ _ Hok1). pose proof (po_index _ _ _ _ _ _ Hok1) as Hi1.
    unfold alog_last in Hidx. cbn in Hidx. rewrite length_app in Hidx.
    replace (_ || _) with false by lia. cbn [split_pop].
    destruct (Z.leb_spec idx (lp_index p0)) as [Hle|Hgt].
    + (* the first page is cut *)
      destruct (page_delete_at o i0 j0 p0 es0 idx Hp0 ltac:(lia) Hw Hnf ltac:(lia))
        as (p0' & o1 & Hrun & Hto & Hid & Hp0' & Hw1).
      rewrite (bind_done_eq _ _ _ _ _ (on_page0_done log p0 (fun p => pageDelete p idx) _ _ _ _ H0 Hrun)). cbv beta iota.
      set (log1 := log <| log_page0 := Some p0' |>).
      rewrite (has_page1_true log1 _ H1).
      rewrite (bind_done_eq _ _ _ _ _ (on_page1_done log1 p1 (fun p => pageDelete p idx) _ _ _ _ H1
                 (page_delete_out p1 idx o1 ltac:(lia)))). cbv beta iota.
      run_refl. run_refl.
      pose proof (po_index _ _ _ _ _ _ (pa_ok _ _ _ _ _ Hp0')) as Hi0'.
      rewrite (si_prev _ _ Hid), length_take in Hi0'.
      replace (lp_index p0' =? lp_prev_log_idx p1) with false by lia. cbn [negb].
      destruct (inodes_distinct _ _ _ _ _ _ _ _ _ Hw Hp0 Hp1 Hn1) as (? & ? & ? & ?).
      assert (page_at o1 i1 j1 p1 es1) as Hp1'.
      { eapply page_at_other; [exact Hp1|exact Hto|intros fd Hin1 Hin0; by eapply Hfd|not_in..]. }
      destruct (pageFree_delete_spec o1 i1 j1 p1 es1 _ (to_plan _ _ _ _ Hto Hnf) Hw1 (pa_ok _ _ _ _ _ Hp1')
                  (pa_name _ _ _ _ _ Hp1') (pa_idxname _ _ _ _ _ Hp1')) as (o2 & Hrun2 & Hnames & Hag & Hn2 & Hw2).
      rewrite (bind_done_eq _ _ _ _ _ Hrun2).
      eexists _, o2. split; [reflexivity|]. split; [done|]. split; [done|].
      unfold alog_pop. cbn. rewrite take_app_le by lia. rewrite <- (si_prev _ _ Hid) at 1.
      eapply rep_one; [done|done| |by rewrite (si_name _ _ Hid)].
      eapply page_at_after_free; try done; [by rewrite (si_name _ _ Hid)|apply Hp1'|by rewrite (si_fds _ _ Hid)|not_in..].
    + (* only the second page *)
      rewrite (bind_done_eq _ _ _ _ _ (on_page0_done log p0 (fun p => pageDelete p idx) _ _ _ _ H0
                 (page_delete_out p0 idx o ltac:(lia)))). cbv beta iota.
      set (log1 := log <| log_page0 := Some p0 |>).
      destruct (page_delete_at o i1 j1 p1 es1 idx Hp1 ltac:(lia) Hw Hnf ltac:(lia))
        as (p1' & o1 & Hrun & Hto & Hid & Hp1' & Hw1).
      rewrite (has_page1_true log1 _ H1).
      rewrite (bind_done_eq _ _ _ _ _ (on_page1_done log1 p1 (fun p => pageDelete p idx) _ _ _ _ H1 Hrun)). cbv beta iota.
      run_refl. run_refl. rewrite (si_prev _ _ Hid), Hprev, Z.eqb_refl. cbn [negb].
      eexists _, o1. split; [reflexivity|]. split; [done|]. split; [by apply Hto|].
      unfold alog_pop. cbn. rewrite take_app_ge by lia.
      eapply (log_rep_page1 o _ log1); try done.
      replace (Z.to_nat (idx - lp_prev_log_idx p0 - 1) - length es0)%nat
        with (Z.to_nat (idx - lp_prev_log_idx p1 - 1)) by lia. done.
Qed.

(** ** Compaction *)

Lemma page_opened_agrees filename p i j o o' :
  os_wf o -> page_opened filename p i j o o' -> agrees (page_fds p) [i; j] o o'.
Proof.
  intros Hw Hop. constructor.
  - intros fd _ Hfd. apply (pg_fds _ _ _ _ _ _ Hop). by apply (wf_fds _ Hw).
  - intros k Hk _. rewrite !not_elem_of_cons in Hk. destruct Hk as (? & ? & _).
    by apply (pg_inodes _ _ _ _ _ _ Hop).
Qed.

(** The page opened does not share anything with one that was there. *)
Lemma page_opened_other filename p i j o o' i0 j0 p0 es0 :
  os_wf o -> page_opened filename p i j o o' -> page_at o i0 j0 p0 es0 -> filename = second_name (lp_filename p0) ->
  page_at o' i0 j0 p0 es0 /\ (forall fd, fd ∈ page_fds p0 -> fd ∉ page_fds p).
Proof.
  intros Hw Hop Hp0 Hfn. pose proof Hp0 as [Hok H1 H2 H3].
  pose proof (po_files _ _ _ _ _ _ Hok) as [Hf Hg _ _].
  pose proof (file_ok_exists _ _ _ _ Hf) as [Hi0 Hfd0]. pose proof (file_ok_exists _ _ _ _ Hg) as [Hj0 Hgd0].
  pose proof (names_distinct (lp_filename p0)) as Hnd. rewrite !NoDup_cons, !not_elem_of_cons in Hnd.
  destruct_and!. rewrite H3 in H2.
  assert (forall path k path' k', os_names o !! path = Some k -> path <> path' ->
            os_names o !! path' = Some k' \/ (os_names o !! path' = None /\ os_next o <= k') -> k <> k') as Hfresh.
  { intros path k path' k' Hk Hne [Hk'|[_ Hk']] <-.
    - apply Hne. by eapply (wf_inj _ Hw).
    - pose proof (wf_inodes _ Hw _ (wf_names _ Hw _ _ Hk)). lia. }
  pose proof (pg_fresh_file _ _ _ _ _ _ Hop) as Hfi. pose proof (pg_fresh_idx _ _ _ _ _ _ Hop) as Hfj.
  rewrite Hfn in Hfi, Hfj.
  assert (forall fd, fd ∈ page_fds p0 -> fd ∉ page_fds p) as Hfds.
  { intros fd Hin Hin'. pose proof (pg_new _ _ _ _ _ _ Hop _ Hin').
    assert (is_Some (os_fds o !! fd)) as Hs%(wf_fds _ Hw); [|lia].
    revert Hin. rewrite list_elem_of_In. intros [<-|[<-|[]]]; done. }
  split; [|exact Hfds]. constructor; [|..|done].
  - eapply page_ok_agrees; [by eapply page_opened_agrees|done| | |exact Hok]; not_in; (eapply Hfresh; [first [exact H1|exact H2]| |first [exact Hfi|exact Hfj]]); done.
  - rewrite (pg_names _ _ _ _ _ _ Hop), Hfn, !lookup_insert_ne; congruence.
  - rewrite (pg_names _ _ _ _ _ _ Hop), Hfn, H3, !lookup_insert_ne; congruence.
Qed.

Lemma LogCompactionBegin_spec o log a :
  os_wf o -> no_faults o -> log_rep o log a None -> log_room (al_entries a) < 2 ^ 63 ->
  alog_last a < 2 ^ 62 -> (2 <= length (al_entries a))%nat ->
  exists log' o', LogCompactionBegin log o = Done ((RR_OK, log'), o') /\ os_wf o' /\ no_faults o' /\
    log_rep o' log' a (Some (alog_last a)).
Proof.
  intros Hw Hnf Hl Hroom Hlast Hlen. unfold LogCompactionBegin.
  inversion Hl as [p i j es H0 H1 Hp Hn|]; subst. cbn [al_entries] in *.
  rewrite (has_page1_false _ H1), H0. run_refl.
  pose proof (pa_ok _ _ _ _ _ Hp) as Hok. pose proof (po_num _ _ _ _ _ _ Hok). pose proof (po_index _ _ _ _ _ _ Hok) as Hidx.
  assert (alog_last (mk_alog (lp_prev_log_idx p) es) = lp_index p) as Ela by (unfold alog_last; cbn; lia).
  rewrite Ela in *. rewrite (proj2 (Z.leb_gt _ 1)) by lia.
  unfold secondPageFileName, path_name. fold (second_name (lp_filename p)).
  rewrite safesnprintf_fits by (unfold name_ok in Hn; lia). run_refl.
  destruct (lookup_lt_is_Some_2 es (length es - 1)) as [e He]; [lia|].
  assert (entry_ok e) as Heok by exact (Forall_lookup_1 _ _ _ _ (po_entries _ _ _ _ _ _ Hok) He).
  assert (page_entry p es (lp_index p) = Some e) as Hpe.
  { unfold page_entry. rewrite Hidx. replace (_ - _ - 1) with (Z.of_nat (length es - 1)) by lia.
    by rewrite zlookup_nat. }
  destruct (page_get_at o i j p es (lp_index p) Hp Hroom Hw)
    as [(r & p2 & o2 & Hrun & Hto & Hid & Hp2 & Hw2 & [Hr|[_ Hx]])|[_ Hx]]; [|done|done].
  rewrite Hpe in Hr. subst r.
  rewrite (bind_done_eq _ _ _ _ _ (on_page0_done log p (fun q => pageGet q (lp_index p)) _ _ _ _ H0 Hrun)).
  cbv beta iota. set (log2 := log <| log_page0 := Some p2 |>).
  pose proof (to_plan _ _ _ _ Hto Hnf) as Hnf2.
  destruct (pageSync_spec o2 i j p2 _ _ true (po_files _ _ _ _ _ _ (pa_ok _ _ _ _ _ Hp2)))
    as (rc & p3 & o3 & Hrun3 & Hto3 & Hs3 & Ht3 & [[-> _]|[_ Hx]]); [|done].
  rewrite (bind_done_eq _ _ _ _ _ (on_page0_done log2 p2 (fun q => pageSync q true) _ _ _ _ eq_refl Hrun3)).
  cbv beta iota. set (log3 := log2 <| log_page0 := Some p3 |>). cbn [Z.eqb RR_OK c_assert]. run_refl.
  assert (page_at o3 i j p3 es) as Hp3.
  { eapply page_at_ident; [exact Hp2|exact Hto3|by apply same_page_ident|].
    rewrite (same_page_crc _ _ Hs3). eapply same_page_ok; [apply Hp2|done|exact Ht3]. }
  assert (os_wf o3) as Hw3 by exact (page_at_wf _ _ _ _ _ _ _ _ _ Hp2 (pa_ok _ _ _ _ _ Hp3) Hto3 Hw2).
  assert (same_ident p p3) as Hid3 by (etrans; [exact Hid|by apply same_page_ident]).
  pose proof (po_header _ _ _ _ _ _ Hok) as [Hh1 Hh2 Hh3 Hh4 Hh5].
  destruct (pageCreate_spec o3 (second_name (lp_filename p)) (lp_dbid p) (lp_node_id p) (ety_term e) (lp_index p)
              Hw3 (to_plan _ _ _ _ Hto3 Hnf2) Hn)
    as (p1 & i1 & j1 & o4 & Hrun4 & Hop & Hp1 & _ & _ & _ & _ & Hprev).
  { constructor; cbn; try done; [apply Heok|lia]. }
  rewrite (bind_done_eq _ _ _ _ _ Hrun4). cbv beta iota zeta.
  rewrite bool_decide_eq_false_2 by done.
  eexists _, o4. split; [reflexivity|]. split; [apply Hop|]. split; [apply Hop|].
  rewrite <- (si_name _ _ Hid3) in *.
  destruct (page_opened_other _ _ _ _ _ _ _ _ _ _ Hw3 Hop Hp3 eq_refl) as [Hp3' Hfds].
  assert (lp_index p3 = lp_index p) as Ei.
  { rewrite Hidx, <- (si_prev _ _ Hid3). apply (po_index _ _ _ _ _ _ (pa_ok _ _ _ _ _ Hp3)). }
  rewrite <- (si_prev _ _ Hid3), <- Ei, <- (app_nil_r es).
  eapply rep_two; try done.
  - constructor; [exact Hp1| | |by rewrite (pg_filename _ _ _ _ _ _ Hop), (pg_idxfilename _ _ _ _ _ _ Hop)].
    + rewrite (pg_names _ _ _ _ _ _ Hop), (pg_filename _ _ _ _ _ _ Hop), lookup_insert_ne, lookup_insert_eq; [done|].
      intros E%(f_equal length). unfold idx_name in E. rewrite length_app in E. cbn in E. lia.
    + by rewrite (pg_names _ _ _ _ _ _ Hop), (pg_idxfilename _ _ _ _ _ _ Hop), lookup_insert_eq.
  - apply (pg_filename _ _ _ _ _ _ Hop).
  - by rewrite Hprev.
  - by intros ->.
Qed.

Lemma LogCompactionBegin_started o log a b :
  log_rep o log a (Some b) -> LogCompactionBegin log o = Done ((RR_OK, log), o).
Proof.
  intros Hl. inversion Hl as [|? ? ? ? p1 ? ? ? ? H1]; subst. unfold LogCompactionBegin.
  by rewrite (has_page1_true _ _ H1).
Qed.

Lemma LogCompactionBegin_short o log a :
  log_rep o log a None -> (length (al_entries a) < 2)%nat ->
  LogCompactionBegin log o = Done ((RR_ERROR, log), o).
Proof.
  intros Hl Hlen. inversion Hl as [p i j es H0 H1 Hp Hn|]; subst. unfold LogCompactionBegin.
  rewrite (has_page1_false _ H1), H0. run_refl.
  rewrite (po_num _ _ _ _ _ _ (pa_ok _ _ _ _ _ Hp)). cbn in Hlen. by rewrite (proj2 (Z.leb_le _ 1)) by lia.
Qed.

Lemma sys_rename_spec o old new i :
  no_faults o -> os_wf o -> os_names o !! old = Some i ->
  exists o', sys_rename old new o = Done (0, o') /\
    os_names o' = <[new := i]> (delete old (os_names o)) /\ agrees [] [] o o' /\ no_faults o' /\ os_wf o'.
Proof.
  intros Hn Hw Hi. destruct (sys_ok_no_faults o Hn) as (pl & Hrun & Hn').
  unfold sys_rename. run_step Hrun. run_refl. cbn. rewrite Hi.
  eexists. split; [reflexivity|]. split; [done|]. split; [by constructor|]. split; [done|].
  apply os_wf_rename; [by apply os_wf_plan|done].
Qed.

Lemma second_name_kept (fn : list Z) (i j : Z) (names : gmap (list Z) Z) :
  names !! second_name fn = Some i ->
  (<[idx_name fn := j]> (delete (idx_name (second_name fn)) names)) !! second_name fn = Some i.
Proof.
  intros Hi. pose proof (names_distinct fn) as Hnd. rewrite !NoDup_cons, !not_elem_of_cons in Hnd.
  destruct_and!. rewrite lookup_insert_ne, lookup_delete_ne; congruence.
Qed.

(** The names after both renames. *)
Lemma compaction_names o o1 o2 fn i j :
  os_names o !! second_name fn = Some i ->
  os_names o1 = <[idx_name fn := j]> (delete (idx_name (second_name fn)) (os_names o)) ->
  os_names o2 = <[fn := i]> (delete (second_name fn) (os_names o1)) ->
  os_names o2 !! fn = Some i /\ os_names o2 !! idx_name fn = Some j.
Proof.
  intros Hi H1 H2. pose proof (names_distinct fn) as Hnd. rewrite !NoDup_cons, !not_elem_of_cons in Hnd.
  destruct_and!. rewrite H2, H1. split.
  - by rewrite lookup_insert_eq.
  - rewrite lookup_insert_ne, lookup_delete_ne, lookup_insert_eq; congruence.
Qed.

(** [LogCompactionEnd] leaves the second page, under the names of the first. *)
Lemma LogCompactionEnd_spec o log a b :
  os_wf o -> no_faults o -> log_rep o log a (Some b) ->
  exists log' o', LogCompactionEnd log o = Done ((tt, log'), o') /\ os_wf o' /\ no_faults o' /\
    log_rep o' log' (alog_poll a (b + 1)) None.
Proof.
  intros Hw Hnf Hl. unfold LogCompactionEnd.
  inversion Hl as [|p0 i0 j0 es0 p1 i1 j1 es1 H0 H1 Hp0 Hp1 Hn Hn1 Hprev Hfd Hne]; subst.
  rewrite H0, H1. run_refl. run_refl.
  pose proof (pa_name _ _ _ _ _ Hp1) as Hname1. pose proof (pa_idxname _ _ _ _ _ Hp1) as Hidx1.
  pose proof (pa_idx _ _ _ _ _ Hp0) as Hx0. pose proof (pa_idx _ _ _ _ _ Hp1) as Hx1.
  rewrite Hx0, Hx1, Hn1 in *.
  destruct (sys_rename_spec o _ (idx_name (lp_filename p0)) j1 Hnf Hw Hidx1) as (o1 & Hrun1 & Hnm1 & Hag1 & Hn1' & Hw1).
  rewrite (bind_done_eq _ _ _ _ _ Hrun1). cbn [Z.eqb c_assert]. run_refl.
  assert (os_names o1 !! second_name (lp_filename p0) = Some i1) as Hname1'.
  { rewrite Hnm1. apply second_name_kept, Hname1. }
  destruct (sys_rename_spec o1 _ (lp_filename p0) i1 Hn1' Hw1 Hname1') as (o2 & Hrun2 & Hnm2 & Hag2 & Hn2 & Hw2).
  destruct (fsyncDir_spec o2 Hn2) as (pl & Hrun3 & _ & Hn3).
  assert (syncRename (second_name (lp_filename p0)) (lp_filename p0) o1 = Done (RR_OK, dir_synced pl o2)) as Hsync.
  { unfold syncRename, syncRename_calls, bind. rewrite Hrun2. cbn [Z.eqb negb]. by rewrite Hrun3. }
  rewrite (bind_done_eq _ _ _ _ _ Hsync). cbn [Z.eqb c_assert RR_OK]. run_refl.
  destruct (compaction_names _ _ _ _ _ _ Hname1 Hnm1 Hnm2) as [Hf2 Hg2].
  set (o3 := dir_synced pl o2) in *. pose proof (os_wf_dir_synced pl _ Hw2 : os_wf o3) as Hw3.
  assert (agrees [] [] o o3) as Hag.
  { eapply agrees_trans; [exact Hag1|]. destruct Hag2. by constructor. }
  assert (forall i j p es crc, page_st o i j p es crc -> page_st o3 i j p es crc) as Hkeep.
  { intros i j p es crc. apply page_ok_agrees with (1 := Hag); intros; not_in. }
  destruct (pageFree_close_spec o3 i0 j0 p0 _ _ (po_files _ _ _ _ _ _ (Hkeep _ _ _ _ _ (pa_ok _ _ _ _ _ Hp0))))
    as (o4 & Hrun4 & Hto4 & Hw4 & _).
  rewrite (bind_done_eq _ _ _ _ _ Hrun4).
  eexists _, o4. split; [reflexivity|]. split; [by apply Hw4|]. split; [by apply Hto4|].
  set (p1' := p1 <| lp_filename := lp_filename p0 |> <| lp_idxfilename := idx_name (lp_filename p0) |>).
  assert (alog_poll (mk_alog (lp_prev_log_idx p0) (es0 ++ es1)) (lp_index p0 + 1) = mk_alog (lp_prev_log_idx p1') es1) as ->.
  { unfold alog_poll. cbn. pose proof (po_index _ _ _ _ _ _ (pa_ok _ _ _ _ _ Hp0)) as Hidx.
    replace (Z.to_nat (lp_index p0 + 1 - 1 - lp_prev_log_idx p0)) with (length es0) by lia.
    rewrite drop_app_length. rewrite Hprev. f_equal. lia. }
  destruct (inodes_distinct _ _ _ _ _ _ _ _ _ Hw Hp0 Hp1 Hn1) as (? & ? & ? & ?).
  eapply rep_one; [done|done| |exact Hn].
  constructor; [|by rewrite (to_names _ _ _ _ Hto4)|by rewrite (to_names _ _ _ _ Hto4)|done].
  assert (page_ok o4 i1 j1 p1 es1) as [Hf Hh ? ? ? ?].
  { eapply page_ok_agrees; [by apply touches_agrees|intros fd Hin1 Hin0; by eapply Hfd|not_in..|].
    apply Hkeep, (pa_ok _ _ _ _ _ Hp1). }
  assert (header_text p1' = header_text p1) as Eh by (by apply header_text_fields).
  constructor; rewrite ?(page_bytes_header _ _ Eh), ?(page_offsets_header _ _ Eh), ?(header_crc_header _ _ Eh); try done.
  - destruct Hf. by constructor.
  - destruct Hh. by constructor.
Qed.

(** ** Syncing *)

Lemma page_sync_at o i j p es sync :
  page_at o i j p es -> os_wf o ->
  exists rc p' o', pageSync p sync o = Done ((rc, p'), o') /\ touches (page_fds p) [i; j] o o' /\
    same_ident p p' /\ page_at o' i j p' es /\ os_wf o' /\
    ((rc = RR_OK /\ f_wbuf (lp_file p') = []) \/ (rc = RR_ERROR /\ ~ no_faults o)).
Proof.
  intros Hp Hw. pose proof (pa_ok _ _ _ _ _ Hp) as Hok.
  destruct (pageSync_spec o i j p _ _ sync (po_files _ _ _ _ _ _ Hok)) as (rc & p' & o' & Hrun & Hto & Hs & Ht & Hres).
  exists rc, p', o'. pose proof (same_page_ident _ _ Hs) as Hid.
  assert (page_at o' i j p' es) as Hp'.
  { eapply page_at_ident; [exact Hp|exact Hto|exact Hid|]. rewrite (same_page_crc _ _ Hs).
    eapply same_page_ok; [exact Hok|done|exact Ht]. }
  split_and!; try done. exact (page_at_wf _ _ _ _ _ _ _ _ _ Hp (pa_ok _ _ _ _ _ Hp') Hto Hw).
Qed.

(** Either the data of the last page has reached the kernel, or the process
    stops. *)
Lemma LogSync_spec o log a split sync start finish :
  os_wf o -> log_rep o log a split ->
  (exists log' o', LogSync log sync start finish o = Done ((RR_OK, log'), o') /\ os_wf o' /\
     (no_faults o -> no_faults o') /\ log_rep o' log' a split /\ log_fsync_index log' = alog_last a /\
     (exists p, last_page log' = Some p /\ f_wbuf (lp_file p) = [])) \/
  (LogSync log sync start finish o = Abort /\ ~ no_faults o).
Proof.
  intros Hw Hl. unfold LogSync, on_last.
  destruct Hl as [p i j es H0 H1 Hp Hn|p0 i0 j0 es0 p1 i1 j1 es1 H0 H1 Hp0 Hp1 Hn Hn1 Hprev Hfd Hne].
  - rewrite (has_page1_false _ H1).
    destruct (page_sync_at o i j p es sync Hp Hw) as (rc & p' & o' & Hrun & Hto & Hid & Hp' & Hw' & Hres).
    rewrite (bind_done_eq _ _ _ _ _ (on_page0_done log p (fun q => pageSync q sync) _ _ _ _ H0 Hrun)). cbv beta iota.
    destruct Hres as [[-> Hb]|[-> Hx]]; [|by right]. cbn [Z.eqb RR_OK c_assert]. run_refl. left.
    assert (log_rep o' (log <| log_page0 := Some p' |>) (mk_alog (lp_prev_log_idx p) es) None) as Hl'
      by (by eapply (log_rep_page0 o)).
    eexists _, o'. split; [reflexivity|]. split; [done|]. split; [apply Hto|]. split; [|split].
    + inversion Hl'; simplify_eq. by eapply rep_one.
    + unfold LogCurrentIdx, last_page. set (log1 := log <| log_page0 := Some p' |>). rewrite (has_page1_false log1 H1). cbn. rewrite (po_index _ _ _ _ _ _ (pa_ok _ _ _ _ _ Hp')).
      by rewrite (si_prev _ _ Hid).
    + exists p'. split; [|done]. unfold last_page.
      match goal with |- (if has_page1 ?l then _ else _) = _ => by rewrite (has_page1_false l H1) end.
  - rewrite (has_page1_true _ _ H1).
    destruct (page_sync_at o i1 j1 p1 es1 sync Hp1 Hw) as (rc & p' & o' & Hrun & Hto & Hid & Hp' & Hw' & Hres).
    rewrite (bind_done_eq _ _ _ _ _ (on_page1_done log p1 (fun q => pageSync q sync) _ _ _ _ H1 Hrun)). cbv beta iota.
    destruct Hres as [[-> Hb]|[-> Hx]]; [|by right]. cbn [Z.eqb RR_OK c_assert]. run_refl. left.
    assert (log_rep o' (log <| log_page1 := Some p' |>) (mk_alog (lp_prev_log_idx p0) (es0 ++ es1)) (Some (lp_index p0))) as Hl'
      by (by eapply (log_rep_page1 o)).
    eexists _, o'. split; [reflexivity|]. split; [done|]. split; [apply Hto|]. split; [|split].
    + inversion Hl'; simplify_eq. by eapply rep_two.
    + unfold alog_last. cbn. rewrite (po_index _ _ _ _ _ _ (pa_ok _ _ _ _ _ Hp')), length_app.
      rewrite (si_prev _ _ Hid), Hprev, (po_index _ _ _ _ _ _ (pa_ok _ _ _ _ _ Hp0)). lia.
    + by exists p'.
Qed.
