(* ===== verification/RedisLogRefine.v ===== *)
(** * The persistent log implements the abstract log

    The functions given to the Raft library, on the log, the cache and the
    kernel together, against an executable specification. *)

From stdpp Require Import base list numbers tactics gmap strings.
From S2P Require Import Prelude RaftTypes EntryCache Crc Libc File Multibulk PageLog PageCodec PageSpec PageLoad PageOpen PageRecovery RedisLog RedisLogSpec.

Local Open Scope Z_scope.

(** ** Specification

    The log, the last index of its first page while it is being compacted, and
    the cached entries. *)
Record spec := mk_spec {
  sp_log : alog;
  sp_split : option Z;
  sp_cache : acache
}.

Inductive redis_op :=
| RAppend (e : raft_entry)
| RPop (from_idx : Z)
| RPoll (first_idx : Z)
| RGet (idx : Z)
| RGetBatch (idx entries_n : Z)
| RSync
| RCompactionBegin
| RCacheCompact (max_memory limit : Z).

Inductive redis_res :=
| RCode (rc : Z)
| REntry (e : option raft_entry)
| REntries (n : Z) (es : list raft_entry).

Definition redis_exec (op : redis_op) : M Context redis_res :=
  match op with
  | RAppend e => rc <- logImplAppend e ;; ret (RCode rc)
  | RPop i => rc <- logImplPop i ;; ret (RCode rc)
  | RPoll i => rc <- logImplPoll i ;; ret (RCode rc)
  | RGet i => e <- logImplGet i ;; ret (REntry e)
  | RGetBatch i n => let* (k, es) := logImplGetBatch i n in ret (REntries k es)
  | RSync => rc <- logImplSync ;; ret (RCode rc)
  | RCompactionBegin => rc <- on_log LogCompactionBegin ;; ret (RCode rc)
  | RCacheCompact m l => n <- on_cache (EntryCacheCompact m l) ;; ret (RCode n)
  end.

Definition cache_step (op : cache_op) (c : acache) : acache :=
  match acache_exec op c with Some (_, c') => c' | None => c end.

(** [None]: not promised.  The library pops entries of the log only; popping
    before the oldest cached entry leaves the cache stale
    ([stale_cache_after_delete]).  Polling ends a compaction. *)
Definition spec_exec (op : redis_op) (s : spec) : option (redis_res * spec) :=
  let a := sp_log s in
  let c := sp_cache s in
  match op with
  | RAppend e =>
      if log_room (al_entries a ++ [e]) <? 2 ^ 60 then
        Some (RCode 0, mk_spec (alog_append a e) (sp_split s) (cache_step (CacheAppend e (alog_last a + 1)) c))
      else None
  | RPop i =>
      if (al_base a <? i) && (i <=? alog_last a) &&
         (bool_decide (ac_entries c = []) || (ac_start c <=? i)) then
        Some (RCode 0, mk_spec (alog_pop a i) (split_pop (sp_split s) i) (cache_step (CacheDeleteTail i) c))
      else None
  | RPoll i =>
      if bool_decide (sp_split s = Some (i - 1)) then
        Some (RCode 0, mk_spec (alog_poll a i) None (cache_step (CacheDeleteHead i) c))
      else None
  | RGet i => Some (REntry (alog_get a i), s)
  | RGetBatch i n =>
      let es := if al_base a <? i then alog_slice a i n else [] in
      Some (REntries (Z.of_nat (length es)) es, s)
  | RSync => Some (RCode RR_OK, s)
  | RCompactionBegin =>
      match sp_split s with
      | Some _ => Some (RCode RR_OK, s)
      | None =>
          if (length (al_entries a) <? 2)%nat then Some (RCode RR_ERROR, s)
          else if alog_last a <? 2 ^ 62 then Some (RCode RR_OK, mk_spec a (Some (alog_last a)) c)
          else None
      end
  | RCacheCompact m l =>
      Some (RCode (Z.of_nat (compact_count (ac_entries c) (ac_start c) m l)),
            mk_spec a (sp_split s) (cache_step (CacheCompact m l) c))
  end.

Fixpoint redis_exec_all (ops : list redis_op) : M Context (list redis_res) :=
  match ops with
  | [] => ret []
  | op :: ops => r <- redis_exec op ;; rs <- redis_exec_all ops ;; ret (r :: rs)
  end.

Fixpoint spec_exec_all (ops : list redis_op) (s : spec) : option (list redis_res * spec) :=
  match ops with
  | [] => Some ([], s)
  | op :: ops =>
      match spec_exec op s with
      | None => None
      | Some (r, s) =>
          match spec_exec_all ops s with
          | None => None
          | Some (rs, s) => Some (r :: rs, s)
          end
      end
  end.

(** ** Representation *)

(** The cache holds the last entries of the log. *)
Definition cached (a : alog) (c : acache) : Prop :=
  ac_entries c = [] \/
  exists n, ac_entries c = drop n (al_entries a) /\ ac_start c = al_base a + 1 + Z.of_nat n.

Record ctx_ok (c : Context) (s : spec) : Prop := {
  cx_os : os_wf (rr_os c);
  cx_log : log_rep (rr_os c) (rr_log c) (sp_log s) (sp_split s);
  cx_cache : exists ec, rr_logcache c = Some ec /\ ec_rep ec (sp_cache s) /\ ec_size ec < 2 ^ 62;
  cx_cached : cached (sp_log s) (sp_cache s);
  cx_room : log_room (al_entries (sp_log s)) < 2 ^ 60
}.

Lemma cached_get a c i :
  cached a c -> ac_start c <= i -> 0 < ac_start c ->
  forall e, ac_entries c !! Z.to_nat (i - ac_start c) = Some e -> alog_get a i = Some e.
Proof.
  intros [->|(n & -> & ->)] Hi Hs e He; [done|]. rewrite lookup_drop in He.
  unfold alog_get, zlookup. destruct (Z.ltb_spec (i - al_base a - 1) 0); [lia|].
  rewrite <- He. f_equal. lia.
Qed.

Lemma log_rep_base o log a split : log_rep o log a split -> 0 <= al_base a.
Proof. intros []; cbn; destruct H1 as [[_ [] _ _ _ _] _ _ _] || destruct H2 as [[_ [] _ _ _ _] _ _ _]; lia. Qed.

Lemma log_room_length es : 1024 * Z.of_nat (length es) <= log_room es.
Proof.
  induction es as [|e es IH]; [done|]. rewrite log_room_cons. cbn [length]. lia.
Qed.

Lemma cached_length a c : cached a c -> (length (ac_entries c) <= length (al_entries a))%nat.
Proof. intros [->|(n & -> & _)]; [simpl; lia|]. rewrite length_drop. lia. Qed.

(** What the accessors return. *)
Lemma log_rep_accessors o log a split :
  log_rep o log a split ->
  LogFirstIdx log = al_base a + 1 /\ LogCurrentIdx log = alog_last a /\
  LogCount log = Z.of_nat (length (al_entries a)) /\
  LogCompactionIdx log = default (alog_last a) split /\ LogCompactionStarted log = bool_decide (is_Some split).
Proof.
  unfold LogFirstIdx, LogCurrentIdx, LogCount, LogCompactionIdx, LogCompactionStarted, page0_field, last_page, alog_last.
  intros [p i j es H0 H1 [Hp _ _ _] _|p0 i0 j0 es0 p1 i1 j1 es1 H0 H1 [Hp0 _ _ _] [Hp1 _ _ _] _ _ Hprev _ _]; cbn.
  - rewrite (has_page1_false _ H1), H0, H1, (po_num _ _ _ _ _ _ Hp), (po_index _ _ _ _ _ _ Hp).
    split_and!; try done. lia.
  - rewrite (has_page1_true _ _ H1), H0, H1, length_app.
    rewrite (po_num _ _ _ _ _ _ Hp0), (po_num _ _ _ _ _ _ Hp1), (po_index _ _ _ _ _ _ Hp1), Hprev,
      (po_index _ _ _ _ _ _ Hp0).
    split_and!; try done; lia.
Qed.

(** ** The cache follows the log *)

Lemma cached_append a c e :
  cached a c -> 0 <= al_base a -> (ac_start c = 0 <-> ac_entries c = []) ->
  exists r c', acache_exec (CacheAppend e (alog_last a + 1)) c = Some (r, c') /\ cached (alog_append a e) c'.
Proof.
  intros Hc Hb Hz. cbn [acache_exec]. destruct (ac_entries c) as [|e0 es] eqn:Ec.
  - eexists _, _. split; [done|]. right. exists (length (al_entries a)). unfold alog_append, alog_last. cbn.
    rewrite drop_app_length. split; [done|lia].
  - destruct Hc as [Hc|(n & Hd & Hs)]; [congruence|]. rewrite Ec in Hd.
    assert (length (e0 :: es) = length (al_entries a) - n)%nat as Hlen by (by rewrite Hd, length_drop).
    assert (ac_start c + Z.of_nat (length (e0 :: es)) = alog_last a + 1) as E.
    { unfold alog_last. simpl in *. lia. }
    rewrite E, Z.eqb_refl. eexists _, _. split; [done|]. right. exists n. cbn [alog_append al_entries ac_entries].
    rewrite drop_app_le by (simpl in Hlen; lia). by rewrite Hd.
Qed.

Lemma cached_norm a s es :
  (exists n, es = drop n (al_entries a) /\ s = al_base a + 1 + Z.of_nat n) -> cached a (ac_norm (mk_acache s es)).
Proof. intros (n & E & Hs). unfold ac_norm. cbn. destruct es; [by left|]. right. by exists n. Qed.

Lemma cached_norm_nil a s : cached a (ac_norm (mk_acache s [])).
Proof. by left. Qed.

Lemma cached_pop a c i :
  cached a c -> al_base a < i <= alog_last a -> (ac_entries c = [] \/ ac_start c <= i) ->
  (ac_start c = 0 <-> ac_entries c = []) ->
  cached (alog_pop a i) (cache_step (CacheDeleteTail i) c).
Proof.
  intros Hc Hi Hs Hz. unfold cache_step. cbn [acache_exec].
  destruct Hc as [Hc|(n & Hd & Hst)].
  - rewrite Hc in *. destruct (_ || _); [by left|]. cbn [ac_norm ac_entries]. rewrite take_nil. by left.
  - destruct Hs as [Hs|Hs]; [rewrite Hs in *; destruct (_ || _); [by left|]; rewrite take_nil; by left|].
    destruct (Z.leb_spec (ac_start c + Z.of_nat (length (ac_entries c))) i) as [Hle|Hgt]; cbn [orb].
    + assert (ac_entries c = []) as E; [|by left].
      apply length_zero_iff_nil. rewrite Hd, length_drop in *. unfold alog_last in Hi. lia.
    + rewrite (proj2 (Z.ltb_ge i _)) by done. apply cached_norm. exists n. cbn. split; [|done].
      rewrite Hd, skipn_firstn_comm. f_equal. lia.
Qed.

Lemma cached_poll a c b :
  cached a c -> al_base a <= b -> cached (alog_poll a (b + 1)) (cache_step (CacheDeleteHead (b + 1)) c).
Proof.
  intros Hc Hb. unfold cache_step. cbn [acache_exec]. destruct Hc as [Hc|(n & Hd & Hst)].
  - rewrite Hc. destruct (_ <? _); [by left|]. unfold ac_drop. rewrite Hc, drop_nil. apply cached_norm_nil.
  - destruct (Z.ltb_spec (b + 1) (ac_start c)) as [Hlt|Hge].
    + right. exists (n - Z.to_nat (b - al_base a))%nat. unfold alog_poll. cbn. rewrite Hd, drop_drop.
      split; [f_equal|]; lia.
    + unfold ac_drop. set (k := Z.to_nat (Z.min _ _)). destruct (decide (k < length (ac_entries c))%nat) as [Hk|Hk].
      * assert (Z.of_nat k = b + 1 - ac_start c) as Ek by (unfold k in *; lia). clearbody k.
        apply cached_norm. exists 0%nat. unfold alog_poll. cbn [al_base al_entries].
        rewrite drop_0, Hd, drop_drop. split; [f_equal|]; lia.
      * rewrite drop_ge by lia. apply cached_norm_nil.
Qed.

Lemma cached_drop a c n : cached a c -> cached a (ac_drop n c).
Proof.
  unfold ac_drop. intros [->|(k & Hd & Hs)]; [rewrite drop_nil; apply cached_norm_nil|].
  apply cached_norm. exists (k + n)%nat. rewrite Hd, drop_drop. split; [done|lia].
Qed.

(** ** Calls on the parts of the context *)

Lemma on_log_done {A} (m : Log -> M os (A * Log)) c a log' o' :
  m (rr_log c) (rr_os c) = Done ((a, log'), o') -> on_log m c = Done (a, c <| rr_log := log' |> <| rr_os := o' |>).
Proof. intros H. unfold on_log. by rewrite H. Qed.

Lemma on_cache_done {A} (m : M EntryCache A) (f : A -> cache_res) op c ec ac r ac' :
  (forall ec, cache_exec op ec = (a <- m ;; ret (f a)) ec) ->
  rr_logcache c = Some ec -> ec_rep ec ac -> ec_size ec < 2 ^ 62 -> Z.of_nat (length (ac_entries ac)) < 2 ^ 60 ->
  (forall e idx, op = CacheAppend e idx -> 0 < idx) ->
  acache_exec op ac = Some (r, ac') ->
  exists a ec', on_cache m c = Done (a, c <| rr_logcache := Some ec' |>) /\ f a = r /\
    ec_rep ec' ac' /\ ec_size ec' < 2 ^ 62.
Proof.
  intros Hm Hc Hr Hs Hlen Hi He. pose proof (cache_exec_spec op ec ac Hr Hs Hi) as H. rewrite He in H.
  destruct H as (ec' & Hrun & Hr' & Hs'). rewrite Hm in Hrun. apply bind_done in Hrun as (a & ec1 & H1 & H2).
  unfold ret in H2. simplify_eq. exists a, ec'. unfold on_cache. rewrite Hc, H1.
  split_and!; try done. pose proof (er_len _ _ _ (proj1 Hr)). lia.
Qed.

Lemma log_room_take k es : log_room (take k es) <= log_room es.
Proof.
  rewrite <- (take_drop k es) at 2. rewrite log_room_app. pose proof (log_room_pos (drop k es)). lia.
Qed.

Lemma log_room_drop k es : log_room (drop k es) <= log_room es.
Proof.
  rewrite <- (take_drop k es) at 2. rewrite log_room_app. pose proof (log_room_pos (take k es)). lia.
Qed.

(** ** One call *)

Section Step.
Context (c : Context) (s : spec).
Hypothesis Hok : ctx_ok c s.

Let a := sp_log s.

Lemma cache_room : Z.of_nat (length (ac_entries (sp_cache s))) < 2 ^ 60.
Proof using Hok.
  pose proof (cached_length _ _ (cx_cached _ _ Hok)). pose proof (cx_room _ _ Hok).
  pose proof (log_room_length (al_entries (sp_log s))). lia.
Qed.

(** A call on the cache. *)
Lemma cache_call {A} (m : M EntryCache A) (f : A -> cache_res) op c' :
  rr_logcache c' = rr_logcache c ->
  (forall ec, cache_exec op ec = (x <- m ;; ret (f x)) ec) ->
  (forall e idx, op = CacheAppend e idx -> 0 < idx) ->
  forall r ac', acache_exec op (sp_cache s) = Some (r, ac') ->
  exists x ec', on_cache m c' = Done (x, c' <| rr_logcache := Some ec' |>) /\ f x = r /\
    ec_rep ec' ac' /\ ec_size ec' < 2 ^ 62.
Proof using Hok.
  intros Hc' Hm Hi r ac' He. destruct (cx_cache _ _ Hok) as (ec & Hc & Hr & Hs).
  eapply on_cache_done; [exact Hm|by rewrite Hc'|exact Hr|exact Hs|exact cache_room|exact Hi|exact He].
Qed.

Lemma cache_start_zero : ac_start (sp_cache s) = 0 <-> ac_entries (sp_cache s) = [].
Proof using Hok. by destruct (cx_cache _ _ Hok) as (ec & _ & (_ & _ & He) & _). Qed.

Lemma cache_start_nonneg : 0 <= ac_start (sp_cache s).
Proof using Hok. by destruct (cx_cache _ _ Hok) as (ec & _ & (_ & He & _) & _). Qed.

Lemma room_63 : log_room (al_entries (sp_log s)) < 2 ^ 63.
Proof using Hok. pose proof (cx_room _ _ Hok). lia. Qed.

(** [logImplAppend], whatever the kernel does. *)
Lemma logImplAppend_spec e :
  entry_ok e -> log_room (al_entries a ++ [e]) < 2 ^ 60 ->
  (exists c', logImplAppend e c = Done (0, c') /\ (no_faults (rr_os c) -> no_faults (rr_os c')) /\
     ctx_ok c' (mk_spec (alog_append a e) (sp_split s)
                  (cache_step (CacheAppend e (alog_last a + 1)) (sp_cache s)))) \/
  (exists c', logImplAppend e c = Done (-1, c') /\ ~ no_faults (rr_os c) /\ ctx_ok c' s) \/
  (logImplAppend e c = Abort /\ ~ no_faults (rr_os c)).
Proof using Hok.
  intros He Hroom. pose proof (log_rep_base _ _ _ _ (cx_log _ _ Hok)) as Hb. unfold logImplAppend.
  destruct (LogAppend_spec _ _ _ _ e (cx_os _ _ Hok) (cx_log _ _ Hok) He)
    as [(log' & o' & Hrun & Hw & Hn & Hl)|[(log' & o' & Hrun & Hnf & Hw & Hl)|[Hrun Hnf]]].
  - left. rewrite (bind_done_eq _ _ _ _ _ (on_log_done (fun log => LogAppend log e) _ _ _ _ Hrun)).
    cbn [negb Z.eqb RR_OK]. set (c1 := c <| rr_log := log' |> <| rr_os := o' |>). run_refl.
    assert (LogCurrentIdx (rr_log c1) = alog_last a + 1) as ->.
    { destruct (log_rep_accessors _ _ _ _ Hl) as (_ & E & _).
      change (rr_log c1) with log'. rewrite E. unfold alog_last, alog_append. cbn. rewrite length_app. simpl. unfold a. lia. }
    destruct (cached_append a _ e (cx_cached _ _ Hok) Hb cache_start_zero) as (r & ac' & Hac & Hcd).
    assert (forall e' idx, CacheAppend e (alog_last a + 1) = CacheAppend e' idx -> 0 < idx) as Hpos.
    { intros e' idx E. injection E as _ <-. unfold alog_last, a. lia. }
    destruct (cache_call (EntryCacheAppend e (alog_last a + 1)) (fun _ => ResUnit) (CacheAppend e (alog_last a + 1)) c1 eq_refl
                ltac:(done) Hpos _ _ Hac)
      as (x & ec' & Hrun2 & _ & Hr & Hs).
    rewrite (bind_done_eq _ _ _ _ _ Hrun2). eexists. split; [reflexivity|]. split; [exact Hn|].
    unfold cache_step. rewrite Hac. constructor; try done. by exists ec'.
  - right. left. rewrite (bind_done_eq _ _ _ _ _ (on_log_done (fun log => LogAppend log e) _ _ _ _ Hrun)).
    eexists. split; [reflexivity|]. split; [done|]. destruct Hok. by constructor.
  - right. right. split; [|done]. unfold bind, on_log. by rewrite Hrun.
Qed.

Lemma logImplPop_spec i :
  no_faults (rr_os c) -> al_base a < i <= alog_last a ->
  (ac_entries (sp_cache s) = [] \/ ac_start (sp_cache s) <= i) ->
  exists c', logImplPop i c = Done (0, c') /\ no_faults (rr_os c') /\
    ctx_ok c' (mk_spec (alog_pop a i) (split_pop (sp_split s) i) (cache_step (CacheDeleteTail i) (sp_cache s))).
Proof using Hok.
  intros Hn Hi Hc. unfold logImplPop.
  assert (exists r ac', acache_exec (CacheDeleteTail i) (sp_cache s) = Some (ResCount r, ac')) as (r & ac' & Hac).
  { cbn [acache_exec]. destruct (_ || _); by eexists _, _. }
  destruct (cache_call (EntryCacheDeleteTail i) ResCount (CacheDeleteTail i) c eq_refl ltac:(done) ltac:(done) _ _ Hac)
    as (x & ec' & Hrun & _ & Hr & Hs).
  rewrite (bind_done_eq _ _ _ _ _ Hrun). set (c1 := c <| rr_logcache := Some ec' |>).
  destruct (LogDelete_spec _ _ _ _ i (cx_os _ _ Hok) Hn (cx_log _ _ Hok) room_63 Hi) as (log' & o' & Hrun2 & Hw & Hn' & Hl).
  rewrite (bind_done_eq _ _ _ _ _ (on_log_done (fun log => LogDelete log i) c1 _ _ _ Hrun2)).
  cbn [negb Z.eqb RR_OK]. eexists. split; [reflexivity|]. split; [done|].
  pose proof (cached_pop _ _ i (cx_cached _ _ Hok) Hi Hc cache_start_zero) as Hcd.
  unfold cache_step in *. rewrite Hac in *. constructor; try done; [by exists ec'|].
  cbn [alog_pop alog_poll al_entries sp_log]. pose proof (log_room_take (Z.to_nat (i - al_base a - 1)) (al_entries a)). pose proof (cx_room _ _ Hok). unfold a in *. lia.
Qed.

Lemma logImplPoll_spec b :
  no_faults (rr_os c) -> sp_split s = Some b ->
  exists c', logImplPoll (b + 1) c = Done (0, c') /\ no_faults (rr_os c') /\
    ctx_ok c' (mk_spec (alog_poll a (b + 1)) None (cache_step (CacheDeleteHead (b + 1)) (sp_cache s))).
Proof using Hok.
  intros Hn Hb. unfold logImplPoll.
  assert (exists r ac', acache_exec (CacheDeleteHead (b + 1)) (sp_cache s) = Some (ResCount r, ac')) as (r & ac' & Hac).
  { cbn [acache_exec]. destruct (_ <? _); by eexists _, _. }
  destruct (cache_call (EntryCacheDeleteHead (b + 1)) ResCount (CacheDeleteHead (b + 1)) c eq_refl ltac:(done) ltac:(done) _ _ Hac)
    as (x & ec' & Hrun & _ & Hr & Hs).
  rewrite (bind_done_eq _ _ _ _ _ Hrun). set (c1 := c <| rr_logcache := Some ec' |>).
  pose proof (cx_log _ _ Hok) as Hl0. rewrite Hb in Hl0.
  destruct (LogCompactionEnd_spec _ _ _ b (cx_os _ _ Hok) Hn Hl0) as (log' & o' & Hrun2 & Hw & Hn' & Hl).
  rewrite (bind_done_eq _ _ _ _ _ (on_log_done LogCompactionEnd c1 _ _ _ Hrun2)).
  eexists. split; [reflexivity|]. split; [done|].
  assert (al_base a <= b) as Hle.
  { unfold a. inversion Hl0 as [|p0 ? ? es0 ? ? ? es1 ? ? Hp0]; subst. cbn.
    rewrite (po_index _ _ _ _ _ _ (pa_ok _ _ _ _ _ Hp0)). lia. }
  pose proof (cached_poll _ _ b (cx_cached _ _ Hok) Hle) as Hcd.
  unfold cache_step in *. rewrite Hac in *. constructor; try done; [by exists ec'|].
  cbn [alog_pop alog_poll al_entries sp_log]. pose proof (log_room_drop (Z.to_nat (b + 1 - 1 - al_base a)) (al_entries a)). pose proof (cx_room _ _ Hok). unfold a in *. lia.
Qed.

(** [logImplGet], whatever the kernel does. *)
Lemma logImplGet_spec i :
  (exists r c', logImplGet i c = Done (r, c') /\ (no_faults (rr_os c) -> no_faults (rr_os c')) /\ ctx_ok c' s /\
     (r = alog_get a i \/ (r = None /\ ~ no_faults (rr_os c)))) \/
  (logImplGet i c = Abort /\ ~ no_faults (rr_os c)).
Proof using Hok.
  unfold logImplGet. pose proof Hok as [Hw Hl (ec & Hec & Hr & Hs) Hcd Hroom].
  assert (on_cache (EntryCacheGet i) c = Done (if i <? ac_start (sp_cache s) then None
            else ac_entries (sp_cache s) !! Z.to_nat (i - ac_start (sp_cache s)), c)) as Hrun.
  { unfold on_cache. rewrite Hec, (EntryCacheGet_spec ec (sp_cache s) i Hr).
    unfold set_field, set_rr_logcache. by destruct c; cbn in *; subst. }
  rewrite (bind_done_eq _ _ _ _ _ Hrun).
  destruct (if i <? _ then _ else _) as [e|] eqn:Ee.
  - left. exists (Some e), c. split; [done|]. split; [done|]. split; [done|]. left.
    destruct (Z.ltb_spec i (ac_start (sp_cache s))); [done|]. symmetry. eapply cached_get; [exact Hcd|done| |exact Ee].
    pose proof cache_start_nonneg. pose proof cache_start_zero as Hz.
    assert (ac_start (sp_cache s) <> 0); [|lia]. intros E%Hz. by rewrite E in Ee.
  - destruct (LogGet_spec _ _ _ _ i Hw Hl room_63) as [(r & log' & o' & Hrun2 & Hw' & Hn' & Hl' & Hres)|[Hrun2 Hnf]].
    + left. eexists r, _. rewrite (on_log_done (fun log => LogGet log i) c _ _ _ Hrun2).
      split; [reflexivity|]. split; [done|]. split; [|done]. constructor; try done. by exists ec.
    + right. split; [|done]. unfold on_log. by rewrite Hrun2.
Qed.

End Step.

Lemma logImplGet_done c s i :
  ctx_ok c s -> no_faults (rr_os c) ->
  exists c', logImplGet i c = Done (alog_get (sp_log s) i, c') /\ no_faults (rr_os c') /\ ctx_ok c' s.
Proof.
  intros Hok Hn. destruct (logImplGet_spec c s Hok i) as [(r & c' & Hrun & Hn' & Hok' & [->|[_ Hx]])|[_ Hx]]; try done.
  exists c'. auto.
Qed.

Lemma get_batch_loop_spec s idx n : forall i es c,
  ctx_ok c s -> no_faults (rr_os c) -> 0 <= i -> al_base (sp_log s) < idx ->
  let new := alog_slice (sp_log s) (idx + i) (Z.of_nat n) in
  exists c', get_batch_loop n i idx es c = Done ((i + Z.of_nat (length new), es ++ new), c') /\
    no_faults (rr_os c') /\ ctx_ok c' s.
Proof.
  unfold alog_slice. cbv zeta. rewrite Nat2Z.id. set (l := sp_log s).
  induction n as [|n IH]; intros i es c Hok Hn Hi Hidx.
  { exists c. cbn. by rewrite app_nil_r, Z.add_0_r. }
  cbn [get_batch_loop]. destruct (logImplGet_done c s (idx + i) Hok Hn) as (c1 & Hrun & Hn1 & Hok1).
  rewrite (bind_done_eq _ _ _ _ _ Hrun). fold l. unfold alog_get, zlookup.
  destruct (Z.ltb_spec (idx + i - al_base l - 1) 0); [lia|].
  set (k := Z.to_nat (idx + i - al_base l - 1)).
  destruct (al_entries l !! k) as [e|] eqn:Ee.
  - destruct (IH (i + 1) (es ++ [e]) c1 Hok1 Hn1 ltac:(lia) Hidx) as (c2 & Hrun2 & Hn2 & Hok2).
    exists c2. rewrite Hrun2. split; [|done].
    replace (Z.to_nat (idx + (i + 1) - al_base l - 1)) with (S k) by lia.
    rewrite (drop_S _ _ _ Ee). cbn [firstn length]. rewrite <- app_assoc. do 3 f_equal. lia.
  - apply lookup_ge_None in Ee. exists c1. rewrite drop_ge, take_nil, app_nil_r by done. cbn. by rewrite Z.add_0_r.
Qed.

Lemma logImplGetBatch_spec c s idx n :
  ctx_ok c s -> no_faults (rr_os c) ->
  let es := if al_base (sp_log s) <? idx then alog_slice (sp_log s) idx n else [] in
  exists c', logImplGetBatch idx n c = Done ((Z.of_nat (length es), es), c') /\ no_faults (rr_os c') /\ ctx_ok c' s.
Proof.
  intros Hok Hn. cbv zeta. unfold logImplGetBatch. destruct (Z.ltb_spec (al_base (sp_log s)) idx) as [Hlt|Hge].
  - destruct (get_batch_loop_spec s idx (Z.to_nat n) 0 [] c Hok Hn ltac:(lia) Hlt) as (c' & Hrun & H).
    exists c'. split; [|done]. rewrite Hrun, Z.add_0_r. cbn [app]. unfold alog_slice. rewrite Nat2Z.id.
    do 3 f_equal.
  - destruct (Z.to_nat n) as [|m]; [by exists c|]. cbn [get_batch_loop].
    destruct (logImplGet_done c s (idx + 0) Hok Hn) as (c1 & Hrun & Hn1 & Hok1).
    rewrite (bind_done_eq _ _ _ _ _ Hrun). unfold alog_get. rewrite zlookup_None by lia. by exists c1.
Qed.

Lemma logImplSync_spec c s :
  ctx_ok c s ->
  (exists c', logImplSync c = Done (RR_OK, c') /\ (no_faults (rr_os c) -> no_faults (rr_os c')) /\ ctx_ok c' s) \/
  (logImplSync c = Abort /\ ~ no_faults (rr_os c)).
Proof.
  intros Hok.
  assert (forall c, ctx_ok c s -> exists t c', MonotonicMicroseconds c = Done (t, c') /\ ctx_ok c' s /\ rr_os c' = rr_os c) as Hclock.
  { intros d [Hw Hl Hc Hcd Hr]. unfold MonotonicMicroseconds. run_refl.
    destruct (rr_clock d) as [|t ts]; eexists _, _; (split; [reflexivity|]); done. }
  destruct (Hclock c Hok) as (t1 & c1 & Hrun1 & Hok1 & E1). destruct (Hclock c1 Hok1) as (t2 & c2 & Hrun2 & Hok2 & E2).
  unfold logImplSync. run_refl. rewrite (bind_done_eq _ _ _ _ _ Hrun1), (bind_done_eq _ _ _ _ _ Hrun2).
  rewrite <- E1, <- E2. pose proof Hok2 as [Hw Hl Hc Hcd Hr].
  destruct (LogSync_spec _ _ _ _ (rr_log_fsync c) t1 t2 Hw Hl) as [(log' & o' & Hrun & Hw' & Hn' & Hl' & _)|[Hrun Hnf]].
  - left. rewrite (bind_done_eq _ _ _ _ _ (on_log_done (fun log => LogSync log (rr_log_fsync c) t1 t2) c2 _ _ _ Hrun)).
    eexists. split; [reflexivity|]. split; [done|]. by constructor.
  - right. split; [|done]. unfold bind, on_log. by rewrite Hrun.
Qed.

Lemma compaction_begin_spec c s r s' :
  ctx_ok c s -> no_faults (rr_os c) -> spec_exec RCompactionBegin s = Some (r, s') ->
  exists c', redis_exec RCompactionBegin c = Done (r, c') /\ no_faults (rr_os c') /\ ctx_ok c' s'.
Proof.
  intros Hok Hn He. unfold redis_exec. cbn [spec_exec] in He. pose proof Hok as [Hw Hl Hc Hcd Hr].
  assert (forall rc log' o', LogCompactionBegin (rr_log c) (rr_os c) = Done ((rc, log'), o') ->
    (rc <- on_log LogCompactionBegin ;; ret (RCode rc)) c =
      Done (RCode rc, c <| rr_log := log' |> <| rr_os := o' |>)) as Hrun.
  { intros rc log' o' H. by rewrite (bind_done_eq _ _ _ _ _ (on_log_done LogCompactionBegin c _ _ _ H)). }
  destruct (sp_split s) as [b|] eqn:Eb.
  - simplify_eq. rewrite (Hrun _ _ _ (LogCompactionBegin_started _ _ _ b Hl)).
    eexists. split; [reflexivity|]. split; [done|]. constructor; try done. by rewrite Eb.
  - destruct (Nat.ltb_spec (length (al_entries (sp_log s))) 2) as [Hlt|Hge].
    + simplify_eq. rewrite (Hrun _ _ _ (LogCompactionBegin_short _ _ _ Hl Hlt)).
      eexists. split; [reflexivity|]. split; [done|]. constructor; try done. by rewrite Eb.
    + destruct (Z.ltb_spec (alog_last (sp_log s)) (2 ^ 62)) as [Hlt|]; [|done]. simplify_eq.
      destruct (LogCompactionBegin_spec _ _ _ Hw Hn Hl (room_63 _ _ Hok) Hlt Hge) as (log' & o' & H & Hw' & Hn' & Hl').
      rewrite (Hrun _ _ _ H). eexists. split; [reflexivity|]. split; [done|]. by constructor.
Qed.

Lemma redis_step op c s r s' :
  ctx_ok c s -> no_faults (rr_os c) -> (forall e, op = RAppend e -> entry_ok e) -> spec_exec op s = Some (r, s') ->
  exists c', redis_exec op c = Done (r, c') /\ no_faults (rr_os c') /\ ctx_ok c' s'.
Proof.
  intros Hok Hn He Hs. destruct op as [e|i|i|i|i n| | |m l]; cbn [spec_exec] in Hs; unfold redis_exec.
  - destruct (Z.ltb_spec (log_room (al_entries (sp_log s) ++ [e])) (2 ^ 60)) as [Hr|]; [|done]. simplify_eq.
    destruct (logImplAppend_spec c s Hok e (He e eq_refl) Hr) as [(c' & Hrun & Hn' & Hok')|[(_ & _ & Hx & _)|[_ Hx]]];
      [|done|done].
    rewrite (bind_done_eq _ _ _ _ _ Hrun). exists c'. auto.
  - destruct (_ && _) eqn:Hc; [|done]. simplify_eq.
    apply andb_true_iff in Hc as [Hi Hc]. apply orb_true_iff in Hc.
    destruct (logImplPop_spec c s Hok i Hn ltac:(lia)) as (c' & Hrun & Hn' & Hok').
    { destruct Hc as [Hc|Hc]; [left; by apply bool_decide_eq_true in Hc|right; lia]. }
    rewrite (bind_done_eq _ _ _ _ _ Hrun). by exists c'.
  - case_bool_decide as Hb; [|done]. simplify_eq.
    destruct (logImplPoll_spec c s Hok _ Hn Hb) as (c' & Hrun & Hn' & Hok'). rewrite Z.sub_add in *.
    rewrite (bind_done_eq _ _ _ _ _ Hrun). by exists c'.
  - simplify_eq. destruct (logImplGet_done c s' i Hok Hn) as (c' & Hrun & Hn' & Hok').
    rewrite (bind_done_eq _ _ _ _ _ Hrun). by exists c'.
  - simplify_eq. destruct (logImplGetBatch_spec c s' i n Hok Hn) as (c' & Hrun & Hn' & Hok').
    rewrite (bind_done_eq _ _ _ _ _ Hrun). by exists c'.
  - simplify_eq. destruct (logImplSync_spec c s' Hok) as [(c' & Hrun & Hn' & Hok')|[_ Hx]]; [|done].
    rewrite (bind_done_eq _ _ _ _ _ Hrun). exists c'. auto.
  - by apply (compaction_begin_spec c s r s' Hok Hn).
  - simplify_eq. set (k := compact_count _ _ _ _).
    assert (acache_exec (CacheCompact m l) (sp_cache s) = Some (ResCount (Z.of_nat k), ac_drop k (sp_cache s))) as Hac by done.
    destruct (cache_call c s Hok (EntryCacheCompact m l) ResCount (CacheCompact m l) c eq_refl ltac:(done) ltac:(done) _ _ Hac)
      as (x & ec' & Hrun & [= ->] & Hr & Hsz).
    rewrite (bind_done_eq _ _ _ _ _ Hrun). eexists. split; [reflexivity|]. split; [done|].
    unfold cache_step. rewrite Hac. destruct Hok as [Hw Hl Hc Hcd Hroom]. constructor; try done; [by exists ec'|].
    by apply cached_drop.
Qed.

Lemma redis_steps ops : forall c s rs s',
  ctx_ok c s -> no_faults (rr_os c) -> (forall e, RAppend e ∈ ops -> entry_ok e) ->
  spec_exec_all ops s = Some (rs, s') ->
  exists c', redis_exec_all ops c = Done (rs, c') /\ no_faults (rr_os c') /\ ctx_ok c' s'.
Proof.
  induction ops as [|op ops IH]; intros c s rs s' Hok Hn He Hs; cbn [spec_exec_all redis_exec_all] in *.
  { simplify_eq. by exists c. }
  destruct (spec_exec op s) as [[r s1]|] eqn:E1; [|done].
  destruct (spec_exec_all ops s1) as [[rs1 s2]|] eqn:E2; [|done]. simplify_eq.
  destruct (redis_step op c s r s1 Hok Hn) as (c1 & Hrun & Hn1 & Hok1); [intros e ->; apply He; by left|done|].
  rewrite (bind_done_eq _ _ _ _ _ Hrun).
  destruct (IH c1 s1 rs1 s' Hok1 Hn1) as (c2 & Hrun2 & Hn2 & Hok2); [intros e Hin; apply He; by right|done|].
  rewrite (bind_done_eq _ _ _ _ _ Hrun2). by exists c2.
Qed.

(** ** A new log *)

(** The empty log that starts behind index [idx]. *)
Definition empty_spec (idx : Z) : spec := mk_spec (mk_alog idx []) None (mk_acache 0 []).

(** A context before its log is created. *)
Definition new_context (o : os) (fsync : bool) (clock : list Z) : Context :=
  mk_Context LogInit None fsync o clock.

Definition create_log (filename dbid : list Z) (node_id prev_term prev_idx : Z) : M Context Z :=
  rc <- on_log (fun log => LogCreate log filename dbid node_id prev_term prev_idx) ;;
  logImplInit ;; ret rc.

(** What [LogCreate] is called with. *)
Record log_params (filename dbid : list Z) (node_id prev_term prev_idx : Z) : Prop := {
  par_name : name_ok (second_name filename);
  par_dbid : Z.of_nat (length dbid) = RAFT_DBID_LEN;
  par_chars : Forall (fun c => 0 < c < 256) dbid;
  par_node_id : int32 node_id;
  par_term : int64 prev_term;
  par_idx : 0 <= prev_idx < 2 ^ 62
}.

Lemma create_log_spec o fsync clock filename dbid node_id term idx :
  os_wf o -> no_faults o -> log_params filename dbid node_id term idx ->
  exists c, create_log filename dbid node_id term idx (new_context o fsync clock) = Done (RR_OK, c) /\
    no_faults (rr_os c) /\ ctx_ok c (empty_spec idx).
Proof.
  intros Hw Hn [Hname Hd Hch Hid Ht Hi]. unfold create_log.
  assert (name_ok filename) as Hname'.
  { unfold name_ok, second_name in *. rewrite length_app in Hname. lia. }
  destruct (pageCreate_spec o filename dbid node_id term idx Hw Hn Hname')
    as (p & i & j & o' & Hrun & Hop & Hp & _ & Ed & En & Et & Ei); [by constructor|].
  assert (LogCreate LogInit filename dbid node_id term idx o =
    Done ((RR_OK, LogInit <| log_page0 := Some p |> <| log_dbid := lp_dbid p |> <| log_node_id := node_id |>), o')) as Hrun'.
  { unfold LogCreate. rewrite Hd, Z.eqb_refl. cbn [c_assert]. run_refl. by run_step Hrun. }
  rewrite (bind_done_eq _ _ _ _ _
             (on_log_done (fun log => LogCreate log filename dbid node_id term idx) (new_context o fsync clock) _ _ _ Hrun')).
  eexists. split; [reflexivity|]. split; [apply Hop|]. constructor; cbn.
  - apply Hop.
  - rewrite <- Ei. eapply rep_one; [done|done| |].
    + constructor; [exact Hp| | |by rewrite (pg_filename _ _ _ _ _ _ Hop), (pg_idxfilename _ _ _ _ _ _ Hop)].
      * rewrite (pg_names _ _ _ _ _ _ Hop), (pg_filename _ _ _ _ _ _ Hop), lookup_insert_ne, lookup_insert_eq; [done|].
        intros E%(f_equal length). unfold idx_name in E. rewrite length_app in E. cbn in E. lia.
      * by rewrite (pg_names _ _ _ _ _ _ Hop), (pg_idxfilename _ _ _ _ _ _ Hop), lookup_insert_eq.
    + by rewrite (pg_filename _ _ _ _ _ _ Hop).
  - eexists. split; [reflexivity|]. split; [by apply (ec_rep_new ENTRY_CACHE_INIT_SIZE)|done].
  - by left.
  - done.
Qed.

(** * Properties *)

(** C21 (refinement). The log the module gives to the Raft library implements the
    abstract log: from a newly created log, every sequence of calls the
    specification allows, compactions and cache evictions among them, returns
    what the specification returns, through files, index files, page switches,
    short reads and writes and the entry cache; and the accessors agree. *)
Theorem redis_log_refines o fsync clock filename dbid node_id term idx ops rs s :
  os_wf o -> no_faults o -> log_params filename dbid node_id term idx ->
  (forall e, RAppend e ∈ ops -> entry_ok e) ->
  spec_exec_all ops (empty_spec idx) = Some (rs, s) ->
  exists c, (create_log filename dbid node_id term idx ;; redis_exec_all ops) (new_context o fsync clock) = Done (rs, c) /\
    ctx_ok c s /\ logImplFirstIdx c = al_base (sp_log s) + 1 /\ logImplCurrentIdx c = alog_last (sp_log s) /\
    logImplCount c = Z.of_nat (length (al_entries (sp_log s))).
Proof.
  intros Hw Hn Hpar He Hs.
  destruct (create_log_spec o fsync clock _ _ _ _ _ Hw Hn Hpar) as (c & Hrun & Hn' & Hok).
  rewrite (bind_done_eq _ _ _ _ _ Hrun).
  destruct (redis_steps ops c _ rs s Hok Hn' He Hs) as (c' & Hrun' & _ & Hok').
  exists c'. split; [done|]. split; [done|].
  destruct (log_rep_accessors _ _ _ _ (cx_log _ _ Hok')) as (H1 & H2 & H3 & _). done.
Qed.

(** C22 (error). An append is all or nothing, whatever the kernel does: it adds the
    entry to the log and to the cache; or a system call has failed, and it
    reports the error with the log and its cache as before, or stops the
    process because undoing the partial write failed too. *)
Theorem redis_append_all_or_nothing c s e :
  ctx_ok c s -> entry_ok e -> log_room (al_entries (sp_log s) ++ [e]) < 2 ^ 60 ->
  (exists c', logImplAppend e c = Done (0, c') /\
     ctx_ok c' (mk_spec (alog_append (sp_log s) e) (sp_split s)
                  (cache_step (CacheAppend e (alog_last (sp_log s) + 1)) (sp_cache s)))) \/
  (~ no_faults (rr_os c) /\ exists c', logImplAppend e c = Done (-1, c') /\ ctx_ok c' s) \/
  (~ no_faults (rr_os c) /\ logImplAppend e c = Abort).
Proof.
  intros Hok He Hr.
  destruct (logImplAppend_spec c s Hok e He Hr) as [(c' & H1 & _ & H2)|[(c' & H1 & H2 & H3)|[H1 H2]]].
  - left. by exists c'.
  - right. left. split; [done|]. by exists c'.
  - right. by right.
Qed.

(** (safety). A lookup never returns a wrong entry, from the cache or from the
    files, whatever the kernel does: it returns the entry of that index of the
    abstract log, and only when a system call fails it can return nothing or
    stop the process. *)
Theorem redis_get_sound c s idx :
  ctx_ok c s ->
  (exists r c', logImplGet idx c = Done (r, c') /\ ctx_ok c' s /\
     (r = alog_get (sp_log s) idx \/ (r = None /\ ~ no_faults (rr_os c)))) \/
  (logImplGet idx c = Abort /\ ~ no_faults (rr_os c)).
Proof.
  intros Hok. destruct (logImplGet_spec c s Hok idx) as [(r & c' & Hrun & _ & Hok' & Hres)|H]; [left|by right].
  by exists r, c'.
Qed.

(** [LogReset] moves the log behind [index] and empties its files, but
    keeps the number of entries: the count reported to the Raft library is that
    of the log before the reset, while the first and the current index say that
    the log is empty. *)
Theorem log_reset_keeps_count o log a index term :
  os_wf o -> no_faults o -> log_rep o log a None -> 0 <= index < 2 ^ 62 -> int64 term ->
  exists log' o', LogReset log index term o = Done ((RR_OK, log'), o') /\
    LogFirstIdx log' = index + 1 /\ LogCurrentIdx log' = index /\
    LogCount log' = Z.of_nat (length (al_entries a)).
Proof.
  intros Hw Hn Hl Hi Ht. inversion Hl as [p i j es H0 H1 Hp Hname|]; subst. cbn [al_entries].
  unfold LogReset. rewrite H1. run_refl. cbv zeta.
  set (log1 := log <| log_page1 := None |>).
  set (p1 := p <| lp_index := index |> <| lp_prev_log_idx := index |> <| lp_prev_log_term := term |>).
  pose proof (pa_ok _ _ _ _ _ Hp) as [Hf [Hd Hch Hid _ _] _ Hnum _ _].
  assert (header_ok p1) as Hh1 by (by constructor).
  assert (two_files o i j p1 (page_bytes p es) (index_bytes (page_offsets p es))) as Ht1 by (destruct Hf; by constructor).
  destruct (pageWriteHeader_spec o i j p1 _ _ Ht1 Hh1)
    as (rc & p2 & o2 & Hrun & Hto & Hfds & [(-> & (p3 & (f & g & -> & _) & ->) & _)|[_ Hx]]); [|done].
  eexists _, o2. split.
  { exact (on_page0_done log1 p (fun q => pageWriteHeader (q <| lp_index := index |>
             <| lp_prev_log_idx := index |> <| lp_prev_log_term := term |>)) _ _ _ _ H0 Hrun). }
  unfold LogFirstIdx, LogCurrentIdx, LogCount, page0_field, last_page.
  match goal with |- context [has_page1 ?l] => rewrite (has_page1_false l eq_refl) end. cbn.
  rewrite Hnum. split_and!; (done || lia).
Qed.

(** ** Concrete runs *)

Definition log_entry (k : Z) : raft_entry := mk_entry 1 k 7 RAFT_LOGTYPE_NORMAL [k].

Lemma log_entry_ok k : 0 <= k < 256 -> entry_ok (log_entry k).
Proof.
  intros Hk. constructor; cbn; unfold int64, int32, RAFT_LOGTYPE_NORMAL; try lia.
  constructor; [done|constructor].
Qed.

Definition log_name : list Z := bytes_of "raft.log"%string.

Lemma demo_params : log_params log_name demo_dbid 1 0 0.
Proof.
  constructor; [apply (bool_decide_unpack _); vm_compute; exact I|done|apply Forall_replicate; lia|
    unfold int32; lia|unfold int64; lia|lia].
Qed.

(** Append, compact, cut the new page, finish, and evict from the cache. *)
Definition demo_ops : list redis_op :=
  [RAppend (log_entry 1); RAppend (log_entry 2); RAppend (log_entry 3); RCompactionBegin;
   RAppend (log_entry 4); RAppend (log_entry 5); RPop 5; RGet 3; RSync; RPoll 4; RCacheCompact 0 100;
   RAppend (log_entry 6); RGetBatch 4 10; RGet 3].

(** Every system call that can transfers one byte at a time. *)
Definition slow_plan : list Z := replicate 400 1.

Lemma redis_log_refines_witness :
  exists c rs, (create_log log_name demo_dbid 1 0 0 ;; redis_exec_all demo_ops)
            (new_context (os_empty slow_plan) true []) = Done (rs, c) /\
    rs !! 12%nat = Some (REntries 2 [log_entry 4; log_entry 6]) /\ logImplCount c = 2.
Proof.
  destruct (spec_exec_all demo_ops (empty_spec 0)) as [[rs s]|] eqn:E; [|vm_compute in E; discriminate E].
  destruct (redis_log_refines (os_empty slow_plan) true [] log_name demo_dbid 1 0 0 demo_ops rs s)
    as (c & Hrun & _ & _ & _ & Hcount).
  - apply os_empty_wf.
  - unfold no_faults. cbn. repeat constructor; lia.
  - exact demo_params.
  - intros e He. unfold demo_ops in He. rewrite list_elem_of_In in He. cbn in He.
    repeat (destruct He as [He|He]; [first [discriminate He | injection He as <-; apply log_entry_ok; lia]|]).
    destruct He.
  - exact E.
  - exists c, rs. split; [exact Hrun|]. rewrite Hcount. clear Hrun Hcount.
    vm_compute in E. injection E as <- <-. split; reflexivity.
Defined.

Lemma ctx_ok_plan c s pl : ctx_ok c s -> ctx_ok (c <| rr_os := (rr_os c) <| os_plan := pl |> |>) s.
Proof.
  intros [Hw Hl Hc Hcd Hr]. constructor; try done; [by apply os_wf_plan|]. cbn.
  assert (forall i j p es, page_at (rr_os c) i j p es -> page_at ((rr_os c) <| os_plan := pl |>) i j p es) as Hp.
  { intros i j p es [Hok H1 H2 H3]. constructor; try done.
    eapply (page_ok_agrees [] [] (rr_os c)); [by constructor|intros; not_in..|exact Hok]. }
  destruct Hl; [eapply rep_one|eapply rep_two]; eauto.
Qed.

(** The demo log with entries 1 to [n], on a kernel that will answer [plan]. *)
Definition demo_context (n : nat) (plan : list Z) : Context :=
  match (create_log log_name demo_dbid 1 0 0 ;; redis_exec_all (RAppend ∘ log_entry <$> seqZ 1 (Z.of_nat n)))
          (new_context (os_empty []) true []) with
  | Done (_, c) => c <| rr_os := (rr_os c) <| os_plan := plan |> |>
  | _ => new_context (os_empty plan) true []
  end.

Definition demo_spec : spec :=
  mk_spec (mk_alog 0 [log_entry 1; log_entry 2; log_entry 3]) None
          (mk_acache 1 [log_entry 1; log_entry 2; log_entry 3]).

Lemma demo_context_ok plan : ctx_ok (demo_context 3 plan) demo_spec.
Proof.
  destruct (create_log_spec (os_empty []) true [] _ _ _ _ _ (os_empty_wf []) ltac:(constructor) demo_params)
    as (c & Hrun & Hn & Hok).
  destruct (redis_steps (RAppend ∘ log_entry <$> seqZ 1 3) c (empty_spec 0) [RCode 0; RCode 0; RCode 0] demo_spec Hok Hn)
    as (c' & Hrun' & _ & Hok').
  - intros e He. rewrite list_elem_of_In in He. cbn in He.
    repeat (destruct He as [He|He]; [injection He as <-; apply log_entry_ok; lia|]). destruct He.
  - vm_compute. reflexivity.
  - unfold demo_context. change (seqZ 1 (Z.of_nat 3)) with (seqZ 1 3). rewrite (bind_done_eq _ _ _ _ _ Hrun), Hrun'. by apply ctx_ok_plan.
Qed.

(** An entry that does not fit in the buffer; the kernel takes 100 bytes of it
    and then fails. *)
Definition big_entry : raft_entry := mk_entry 1 4 7 RAFT_LOGTYPE_NORMAL (replicate 5000 65).

Lemma redis_append_all_or_nothing_witness :
  (exists c', logImplAppend big_entry (demo_context 3 [100; -1]) = Done (-1, c') /\ ctx_ok c' demo_spec).
Proof.
  destruct (redis_append_all_or_nothing (demo_context 3 [100; -1]) demo_spec big_entry) as [(c' & H & _)|[[_ H]|[_ H]]].
  - apply demo_context_ok.
  - constructor; [cbn; unfold int64; lia|cbn; unfold int32; lia|cbn; lia|vm_compute; split; [discriminate|reflexivity]|
      vm_compute; reflexivity|apply Forall_replicate; unfold is_byte; lia].
  - vm_compute. reflexivity.
  - exfalso. assert (H0 : match logImplAppend big_entry (demo_context 3 [100; -1]) with Done (r, _) => r | _ => 7 end = -1)
      by (vm_compute; reflexivity).
    rewrite H in H0. discriminate H0.
  - exact H.
  - exfalso. assert (H0 : match logImplAppend big_entry (demo_context 3 [100; -1]) with Done (r, _) => r | _ => 7 end = -1)
      by (vm_compute; reflexivity).
    rewrite H in H0. discriminate H0.
Defined.

Lemma redis_get_sound_witness :
  (exists c', logImplGet 2 (demo_context 3 [-1]) = Done (Some (log_entry 2), c') /\ ctx_ok c' demo_spec).
Proof.
  destruct (redis_get_sound (demo_context 3 [-1]) demo_spec 2 (demo_context_ok [-1]))
    as [(r & c' & H & Hok & [->|[-> _]])|[H _]].
  - exists c'. split; [|exact Hok]. rewrite H. reflexivity.
  - exfalso. assert (H0 : match logImplGet 2 (demo_context 3 [-1]) with Done (r, _) => r | _ => None end = Some (log_entry 2))
      by (vm_compute; reflexivity).
    rewrite H in H0. discriminate H0.
  - exfalso. assert (H0 : match logImplGet 2 (demo_context 3 [-1]) with Done (r, _) => r | _ => None end = Some (log_entry 2))
      by (vm_compute; reflexivity).
    rewrite H in H0. discriminate H0.
Defined.

Lemma log_reset_keeps_count_witness :
  exists log' o', LogReset (rr_log (demo_context 3 [])) 10 2 (rr_os (demo_context 3 [])) = Done ((RR_OK, log'), o') /\
    LogFirstIdx log' = 11 /\ LogCurrentIdx log' = 10 /\ LogCount log' = 3.
Proof.
  pose proof (demo_context_ok []) as [Hw Hl _ _ _].
  exact (log_reset_keeps_count _ _ _ 10 2 Hw ltac:(vm_compute; constructor) Hl ltac:(lia) ltac:(unfold int64; lia)).
Defined.

(** After the reset, deleting all of the new entries stops the process at the
    assertion of [pageDelete]. *)
Example pop_after_reset_stops :
  (logImplReset 11 2 ;; logImplAppend (log_entry 11) ;; logImplPop 11) (demo_context 3 []) = Abort.
Proof. vm_compute. reflexivity. Qed.

(** [LogDelete] ignores the results of [pageDelete]: when a read of the
    index file fails, deleting entry 3 of a log of three reports success but
    leaves the entry; the cache has lost it, so that the next append stops at
    the assertion of [EntryCacheAppend]. *)
Theorem failed_delete_reports_success :
  match logImplPop 3 (demo_context 3 [5000; 0; -1]) with
  | Done (rc, c) => rc = 0 /\ logImplCurrentIdx c = 3 /\ logImplAppend (log_entry 3) c = Abort
  | _ => False
  end.
Proof. vm_compute. auto. Qed.
