(* ===== verification/RwLock.v ===== *)
(** * Readers-writer spin lock of libddb (include/ddb/lock.h)

    One function per operation, cut at its atomic accesses to [counter]; threads
    that interleave these accesses in any order; mutual exclusion, the meaning of
    the counter and progress.  The lock is one atomic variable, whose accesses
    are totally ordered whatever memory order they ask for. *)

From stdpp Require Import base list numbers tactics relations.
From S2P Require Import Prelude.

Local Open Scope Z_scope.

(** ** The operations

    The two parts of the read side's loop: the load, and the compare-and-swap of
    the value loaded. *)
Inductive rlock_pc := Load | Cas (count : Z).

(** [fail] is the spurious failure allowed to the weak compare-and-swap. *)
Definition get_rlock (fail : bool) (p : rlock_pc) (counter : Z) : option rlock_pc * Z :=
  match p with
  | Load => if counter <? 0 then (Some Load, counter) else (Some (Cas counter), counter)
  | Cas count =>
      if (counter =? count) && negb fail then (None, count + 1) else (Some Load, counter)
  end.

Definition try_get_rlock (p : rlock_pc) (counter : Z) : (rlock_pc + bool) * Z :=
  match p with
  | Load => if counter <? 0 then (inr false, counter) else (inl (Cas counter), counter)
  | Cas count => if counter =? count then (inr true, count + 1) else (inr false, counter)
  end.

Definition rel_rlock (counter : Z) : Z := counter - 1.

(** One round of the loop: whether the lock has been acquired. *)
Definition get_wlock (counter : Z) : bool * Z :=
  if counter =? 0 then (true, -1) else (false, counter).

Definition rel_wlock (counter : Z) : Z := 0.

(** ** Threads *)
Inductive rw_pc :=
| Idle
| Rlock (p : rlock_pc)
| TryRlock (p : rlock_pc)
| Reading
| Wlock
| Writing.

Record rw_sys := mk_rw { rw_counter : Z; rw_pcs : list rw_pc }.
#[export] Instance eta_rw_sys : Eta rw_sys := fun s => mk_rw (rw_counter s) (rw_pcs s).

(** The next atomic access of a thread that runs one of the operations. *)
Definition rw_exec (fail : bool) (p : rw_pc) (counter : Z) : rw_pc * Z :=
  match p with
  | Rlock q =>
      match get_rlock fail q counter with
      | (Some q', c) => (Rlock q', c)
      | (None, c) => (Reading, c)
      end
  | TryRlock q =>
      match try_get_rlock q counter with
      | (inl q', c) => (TryRlock q', c)
      | (inr b, c) => (if b then Reading else Idle, c)
      end
  | Wlock =>
      match get_wlock counter with
      | (true, c) => (Writing, c)
      | (false, c) => (Wlock, c)
      end
  | _ => (p, counter)
  end.

(** A thread calls an operation, makes an access, or releases what it holds. *)
Inductive rw_step : rw_sys -> rw_sys -> Prop :=
| rw_call c ps i p :
    ps !! i = Some Idle -> p ∈ [Rlock Load; TryRlock Load; Wlock] ->
    rw_step (mk_rw c ps) (mk_rw c (<[i := p]> ps))
| rw_access c ps i p fail p' c' :
    ps !! i = Some p -> rw_exec fail p c = (p', c') ->
    rw_step (mk_rw c ps) (mk_rw c' (<[i := p']> ps))
| rw_release_read c ps i :
    ps !! i = Some Reading -> rw_step (mk_rw c ps) (mk_rw (rel_rlock c) (<[i := Idle]> ps))
| rw_release_write c ps i :
    ps !! i = Some Writing -> rw_step (mk_rw c ps) (mk_rw (rel_wlock c) (<[i := Idle]> ps)).

(** A zeroed lock: what [memset] of the shared segment leaves. *)
Definition rw_init (threads : nat) : rw_sys := mk_rw 0 (replicate threads Idle).

Definition is_reading (p : rw_pc) : bool := match p with Reading => true | _ => false end.
Definition is_writing (p : rw_pc) : bool := match p with Writing => true | _ => false end.

Definition readers (s : rw_sys) : Z := count is_reading (rw_pcs s).
Definition writers (s : rw_sys) : Z := count is_writing (rw_pcs s).

(** ** Mutual exclusion *)

Record rw_inv (s : rw_sys) : Prop := {
  ri_counter : rw_counter s = readers s - writers s;
  ri_writer : writers s <= 1;
  ri_excl : writers s = 1 -> readers s = 0;
  (* a value about to be swapped in is not a writer's *)
  ri_cas i n : (rw_pcs s !! i = Some (Rlock (Cas n)) \/ rw_pcs s !! i = Some (TryRlock (Cas n))) ->
               0 <= n
}.

Lemma rw_inv_init n : rw_inv (rw_init n).
Proof.
  assert (count is_reading (replicate n Idle) = 0) as E1
    by (apply count_zero; by intros i x [-> _]%lookup_replicate).
  assert (count is_writing (replicate n Idle) = 0) as E2
    by (apply count_zero; by intros i x [-> _]%lookup_replicate).
  constructor; unfold readers, writers; cbn [rw_pcs rw_counter rw_init]; rewrite ?E1, ?E2; try lia.
  intros i k [H|H]; apply lookup_replicate in H as [? ?]; done.
Qed.

(** What an access does, in terms of what the thread holds before and after. *)
Lemma rw_exec_cases fail p c p' c' :
  rw_exec fail p c = (p', c') ->
  (c' = c /\ is_reading p' = is_reading p /\ is_writing p' = is_writing p) \/
  (c' = c + 1 /\ is_reading p = false /\ is_writing p = false /\ p' = Reading /\
   (p = Rlock (Cas c) \/ p = TryRlock (Cas c))) \/
  (c = 0 /\ c' = -1 /\ p = Wlock /\ p' = Writing).
Proof.
  destruct p as [|[|n]|[|n]| | |]; cbn; intros E;
    repeat first [case_match | progress simplify_eq/=]; auto 10.
  - assert (c = n) by lia. subst. auto 10.
  - assert (c = n) by lia. subst. auto 10.
  - unfold get_wlock in *. case_match; simplify_eq. right. right. repeat split; lia.
  - unfold get_wlock in *. case_match; simplify_eq. auto.
Qed.

(** The value loaded was not negative. *)
Lemma rw_exec_cas fail p c p' c' n :
  rw_exec fail p c = (p', c') -> p' = Rlock (Cas n) \/ p' = TryRlock (Cas n) -> 0 <= n.
Proof.
  destruct p as [|[|k]|[|k]| | |]; cbn; intros E [->| ->];
    repeat first [case_match | progress simplify_eq/=]; try lia.
Qed.

(** One thread moves and the counter moves with it. *)
Lemma rw_inv_insert c ps i p p' c' :
  rw_inv (mk_rw c ps) -> ps !! i = Some p ->
  c' = c + (Z.b2z (is_reading p') - Z.b2z (is_reading p))
         - (Z.b2z (is_writing p') - Z.b2z (is_writing p)) ->
  (is_writing p' = true -> is_writing p = true \/ c = 0) ->
  (is_reading p' = true -> is_reading p = true \/ 0 <= c) ->
  (forall n, p' = Rlock (Cas n) \/ p' = TryRlock (Cas n) -> 0 <= n) ->
  rw_inv (mk_rw c' (<[i := p']> ps)).
Proof.
  intros [Hc Hw He Hcas] E Hc' Pw Pr Pcas.
  pose proof (count_nonneg is_reading ps) as Hr0. pose proof (count_nonneg is_writing ps) as Hw0.
  pose proof (count_lookup is_reading _ _ _ E). pose proof (count_lookup is_writing _ _ _ E).
  unfold readers, writers in *; cbn [rw_pcs rw_counter] in *.
  constructor; unfold readers, writers; cbn [rw_pcs rw_counter];
    rewrite ?(count_insert _ _ _ _ _ E).
  - lia.
  - destruct (is_writing p'), (is_writing p); cbn [Z.b2z] in *; intuition lia.
  - assert (is_reading p' && is_writing p' = false) by (by destruct p').
    destruct (is_writing p'), (is_writing p), (is_reading p'), (is_reading p);
      cbn [Z.b2z] in *; intuition first [done|lia].
  - intros j n Hj. destruct (decide (i = j)) as [<-|Hne].
    + rewrite list_lookup_insert_eq in Hj by (by eapply lookup_lt_Some). apply Pcas.
      destruct Hj; simplify_eq; auto.
    + rewrite list_lookup_insert_ne in Hj by done. by apply (Hcas j).
Qed.

Lemma rw_inv_step s s' : rw_inv s -> rw_step s s' -> rw_inv s'.
Proof.
  intros Hinv Hs.
  destruct Hs as [c ps i p E Hp|c ps i p fail p' c' E Hx|c ps i E|c ps i E].
  - eapply rw_inv_insert; [exact Hinv|exact E|..];
      set_unfold in Hp; destruct_or! Hp; subst; cbn; try lia; try done; by intros ? [?|?].
  - eapply rw_inv_insert; [exact Hinv|exact E|..|by intros n; eapply rw_exec_cas].
    all: destruct (rw_exec_cases _ _ _ _ _ Hx) as [(-> & Er & Ew)|[(-> & Er & Ew & -> & Hp)|(-> & -> & -> & ->)]];
      rewrite ?Er, ?Ew; cbn; try lia; auto.
    intros _. right. destruct Hinv as [_ _ _ Hcas]. apply (Hcas i). destruct Hp; subst; auto.
  - eapply rw_inv_insert; [exact Hinv|exact E|..]; unfold rel_rlock; cbn; try lia; try done.
    by intros ? [?|?].
  - assert (c = -1) as ->.
    { destruct Hinv as [Hc Hw He _]. unfold readers, writers in *; cbn [rw_counter rw_pcs] in *.
      pose proof (count_lookup is_writing _ _ _ E eq_refl). lia. }
    eapply rw_inv_insert; [exact Hinv|exact E|..]; unfold rel_wlock; cbn; try lia; try done.
    by intros ? [?|?].
Qed.

Definition rw_reachable (s : rw_sys) : Prop := exists n, rtc rw_step (rw_init n) s.

Lemma rw_inv_reachable s : rw_reachable s -> rw_inv s.
Proof.
  intros [n Hs]. pose proof (rw_inv_init n) as Hi.
  induction Hs as [|s1 s2 s3 H12 _ IH]; [done|]. by apply IH; eapply rw_inv_step.
Qed.

(** ** What the lock promises *)

Definition holds (p : rw_pc) : bool := is_reading p || is_writing p.

(** C34 (invariant). In every state the threads can reach, whatever the order of
    their accesses and with spurious failures of the weak compare-and-swap, a
    writer is alone; the counter is -1 when there is a writer and the number of
    readers when there is none, so it stays between -1 and the number of threads
    and does not overflow. *)
Theorem rwlock_exclusion s :
  rw_reachable s ->
  (forall i j p, rw_pcs s !! i = Some Writing -> rw_pcs s !! j = Some p -> holds p = true -> i = j) /\
  (rw_counter s = -1 <-> exists i, rw_pcs s !! i = Some Writing) /\
  (0 <= rw_counter s -> rw_counter s = readers s) /\
  -1 <= rw_counter s <= Z.of_nat (length (rw_pcs s)).
Proof.
  intros [Hc Hw He _]%rw_inv_reachable.
  pose proof (count_nonneg is_reading (rw_pcs s)) as Hr0.
  pose proof (count_nonneg is_writing (rw_pcs s)) as Hw0.
  pose proof (count_le_length is_reading (rw_pcs s)) as Hl.
  unfold readers, writers in *.
  assert (forall i, rw_pcs s !! i = Some Writing -> count is_writing (rw_pcs s) = 1) as Hone.
  { intros i E. pose proof (count_lookup is_writing _ _ _ E eq_refl). lia. }
  repeat split; try lia.
  - intros i j p Ei Ej Hp. pose proof (Hone i Ei). destruct (decide (i = j)) as [|Hne]; [done|].
    exfalso. apply orb_true_iff in Hp as [Hp|Hp].
    + pose proof (count_lookup _ _ _ _ Ej Hp). lia.
    + pose proof (count_insert is_writing (rw_pcs s) i Writing Idle Ei) as Hi. cbn [Z.b2z is_writing] in Hi.
      rewrite <- (list_lookup_insert_ne _ i j Idle) in Ej by done.
      pose proof (count_lookup _ _ _ _ Ej Hp). lia.
  - intros E. destruct (proj1 (count_pos is_writing (rw_pcs s))) as (i & p & Hi & Hp); [lia|].
    exists i. by destruct p.
  - intros [i Hi]. pose proof (Hone i Hi). lia.
Qed.

(** The holders release the lock, one after the other. *)
Lemma release_all k s :
  rw_inv s -> readers s + writers s = Z.of_nat k ->
  exists s', nsteps rw_step k s s' /\ rw_counter s' = 0 /\
    forall i p, rw_pcs s !! i = Some p -> holds p = false -> rw_pcs s' !! i = Some p.
Proof.
  revert s. induction k as [|k IH]; intros s Hinv Hk.
  - exists s. split; [constructor|]. split; [|done].
    destruct Hinv as [Hc _ _ _]. unfold readers, writers in *.
    pose proof (count_nonneg is_reading (rw_pcs s)). pose proof (count_nonneg is_writing (rw_pcs s)). lia.
  - assert (exists i p, rw_pcs s !! i = Some p /\ holds p = true) as (i & p & Hi & Hp).
    { unfold readers, writers in Hk.
      destruct (Z.lt_ge_cases 0 (count is_reading (rw_pcs s))) as [H|H].
      - apply count_pos in H as (i & p & ? & Hp). exists i, p. unfold holds. by rewrite Hp.
      - assert (0 < count is_writing (rw_pcs s)) as H2 by lia.
        apply count_pos in H2 as (i & p & ? & Hp). exists i, p. unfold holds. by rewrite Hp, orb_true_r. }
    assert (exists c, rw_step s (mk_rw c (<[i := Idle]> (rw_pcs s)))) as [c Hs].
    { destruct s as [c ps], p; try done; eexists; by constructor. }
    destruct (IH (mk_rw c (<[i := Idle]> (rw_pcs s)))) as (s' & Hn & H0 & Hkeep).
    + by eapply rw_inv_step.
    + unfold readers, writers in *. cbn [rw_pcs]. rewrite !(count_insert _ _ _ _ _ Hi).
      destruct p; cbn [Z.b2z is_reading is_writing holds] in *; try done; lia.
    + exists s'. split; [by econstructor|]. split; [done|].
      intros j q Hj Hq. apply Hkeep; [|done]. cbn [rw_pcs].
      rewrite list_lookup_insert_ne; [done|]. intros ->. congruence.
Qed.

(** What a thread is waiting for. *)
Definition wanted (p : rw_pc) : option rw_pc :=
  match p with Rlock _ => Some Reading | Wlock => Some Writing | _ => None end.

(** A free lock is acquired by a thread that runs alone. *)
Lemma acquire_free ps i p q :
  ps !! i = Some p -> wanted p = Some q ->
  exists k s', (k <= 3)%nat /\ nsteps rw_step k (mk_rw 0 ps) s' /\ rw_pcs s' !! i = Some q.
Proof.
  intros Hi Hq. assert (i < length ps)%nat as Hl by (by eapply lookup_lt_Some).
  assert (forall qs, length qs = length ps -> qs !! i = Some (Rlock Load) ->
    exists s', nsteps rw_step 2 (mk_rw 0 qs) s' /\ rw_pcs s' !! i = Some Reading) as Hload.
  { intros qs Hlen Hqs. eexists. split.
    - eapply nsteps_l; [by eapply (rw_access 0 qs i _ false)|].
      eapply nsteps_l; [eapply (rw_access 0 _ i (Rlock (Cas 0)) false); [|done]|constructor].
      apply list_lookup_insert_eq. lia.
    - cbn. apply list_lookup_insert_eq. rewrite length_insert. lia. }
  destruct p as [|r| | | |]; try done; cbn in Hq; simplify_eq.
  - destruct r as [|n].
    + destruct (Hload ps) as (s' & ? & ?); [done|done|]. exists 2%nat, s'. auto with lia.
    + destruct (decide (n = 0)) as [->|Hn].
      * eexists 1%nat, _. split; [lia|]. split.
        -- eapply nsteps_l; [by eapply (rw_access 0 ps i _ false)|constructor].
        -- by apply list_lookup_insert_eq.
      * destruct (Hload (<[i := Rlock Load]> ps)) as (s' & ? & ?);
          [by rewrite length_insert|by apply list_lookup_insert_eq|].
        exists 3%nat, s'. split; [lia|]. split; [|done]. eapply nsteps_l; [|done].
        eapply (rw_access 0 ps i _ false); [done|]. cbn [rw_exec get_rlock].
        destruct (Z.eqb_spec 0 n); [lia|done].
  - eexists 1%nat, _. split; [lia|]. split.
    + eapply nsteps_l; [by eapply (rw_access 0 ps i _ false)|constructor].
    + by apply list_lookup_insert_eq.
Qed.

(** (liveness). The lock never gets stuck: from every reachable state, a
    thread that waits for it gets it once its holders have released it and it
    then makes at most three accesses undisturbed. *)
Theorem rwlock_obtainable s i p q :
  rw_reachable s -> rw_pcs s !! i = Some p -> wanted p = Some q ->
  exists k s', Z.of_nat k <= readers s + writers s + 3 /\ nsteps rw_step k s s' /\
    rw_pcs s' !! i = Some q.
Proof.
  intros Hr Hi Hq. pose proof (rw_inv_reachable s Hr) as Hinv.
  assert (0 <= readers s + writers s) as Hpos.
  { unfold readers, writers. pose proof (count_nonneg is_reading (rw_pcs s)).
    pose proof (count_nonneg is_writing (rw_pcs s)). lia. }
  destruct (release_all (Z.to_nat (readers s + writers s)) s Hinv) as ([c ps] & Hn & Hc & Hkeep); [lia|].
  cbn in Hc. subst c.
  destruct (acquire_free ps i p q) as (k & s' & Hk & Hk' & Hs'); [|done|].
  { apply (Hkeep i p Hi). by destruct p. }
  exists (Z.to_nat (readers s + writers s) + k)%nat, s'. split; [lia|]. split; [|done].
  by eapply nsteps_trans.
Qed.

(** Two readers, then a writer that waits for them. *)
Definition rw_demo : rw_sys := mk_rw 2 [Reading; Reading; Wlock].

Lemma rw_demo_reachable : rw_reachable rw_demo.
Proof.
  exists 3%nat. unfold rw_demo.
  eapply rtc_l; [by apply (rw_call 0 [Idle; Idle; Idle] 0 (Rlock Load)); [|set_solver]|].
  eapply rtc_l; [by apply (rw_access 0 [Rlock Load; Idle; Idle] 0 (Rlock Load) false)|].
  eapply rtc_l; [by apply (rw_access 0 [Rlock (Cas 0); Idle; Idle] 0 (Rlock (Cas 0)) false)|].
  eapply rtc_l; [by apply (rw_call 1 [Reading; Idle; Idle] 1 (TryRlock Load)); [|set_solver]|].
  eapply rtc_l; [by apply (rw_access 1 [Reading; TryRlock Load; Idle] 1 (TryRlock Load) false)|].
  eapply rtc_l; [by apply (rw_access 1 [Reading; TryRlock (Cas 1); Idle] 1 (TryRlock (Cas 1)) false)|].
  eapply rtc_l; [by apply (rw_call 2 [Reading; Reading; Idle] 2 Wlock); [|set_solver]|].
  reflexivity.
Qed.

Lemma rwlock_exclusion_witness : rw_reachable rw_demo /\ rw_counter rw_demo = 2 /\
  ~ (exists i, rw_pcs rw_demo !! i = Some Writing).
Proof.
  pose proof (rwlock_exclusion rw_demo rw_demo_reachable) as (_ & Hc & _).
  split; [apply rw_demo_reachable|]. split; [reflexivity|]. intros H%Hc. discriminate H.
Defined.

Lemma rwlock_obtainable_witness : exists k s', Z.of_nat k <= 5 /\
  nsteps rw_step k rw_demo s' /\ rw_pcs s' !! 2%nat = Some Writing.
Proof. exact (rwlock_obtainable rw_demo 2 Wlock Writing rw_demo_reachable eq_refl eq_refl). Defined.
