(* ===== verification/SlotTable.v ===== *)
(** * Slot tables of libddb (shim.c)

    The shared segment keeps lock owners, waiting threads and thread records in
    arrays of fixed capacity with a count [n] of slots in use and an upper bound
    [max_n] of their indexes; shim.c has the same pair of functions for each.
    The table is a first-fit allocator, up to its capacity, which nothing
    checks. *)

From stdpp Require Import base list numbers tactics gmap.
From S2P Require Import Prelude.

Local Open Scope Z_scope.

(** How a free slot looks, and what [memset(.., 0, ..)] makes of a slot. *)
Class Slot (E : Type) := {
  slot_free : E -> bool;
  slot_zero : E;
  slot_zero_free : slot_free slot_zero = true
}.

Record table (E : Type) := mk_table {
  tb_n : Z;
  tb_max_n : Z;
  tb_entries : list E
}.
Arguments mk_table {E}.
Arguments tb_n {E}.
Arguments tb_max_n {E}.
Arguments tb_entries {E}.

#[export] Instance eta_table E : Eta (table E) :=
  fun t => mk_table (tb_n t) (tb_max_n t) (tb_entries t).
#[export] Instance set_tb_n E : Setter (@tb_n E). Proof. solve_setter. Defined.
#[export] Instance set_tb_max_n E : Setter (@tb_max_n E). Proof. solve_setter. Defined.
#[export] Instance set_tb_entries E : Setter (@tb_entries E). Proof. solve_setter. Defined.

Section Ops.
Context {E : Type} `{SE : !Slot E}.

(** Accesses to the array; outside it they are undefined behaviour. *)
Definition read_entry_at (i : Z) : M (table E) E :=
  fun t => match zlookup (tb_entries t) i with Some e => Done (e, t) | None => Abort end.

Definition write_entry_at (i : Z) (e : E) : M (table E) unit :=
  fun t => match zinsert i e (tb_entries t) with
           | Some es => Done (tt, t <| tb_entries := es |>)
           | None => Abort
           end.

(** The loop over the reusable slots. *)
Fixpoint find_free (k : nat) (i : Z) : M (table E) (option Z) :=
  match k with
  | O => ret None
  | S k' =>
      e <- read_entry_at i ;;
      if slot_free e then ret (Some i) else find_free k' (i + 1)
  end.

(** [get_lowner_idx], [get_wait_idx] and [get_tidx]. *)
Definition get_slot : M (table E) Z :=
  t <- get ;;
  r <- (if tb_n t =? tb_max_n t then ret None else find_free (Z.to_nat (tb_max_n t)) 0) ;;
  match r with
  | Some i => modify (fun t => t <| tb_n := tb_n t + 1 |>) ;; ret i
  | None =>
      modify (fun t => t <| tb_max_n := tb_max_n t + 1 |> <| tb_n := tb_n t + 1 |>) ;;
      gets (fun t => tb_max_n t - 1)
  end.

(** [put_lowner_idx], [put_wait_idx] and [put_tidx]. *)
Definition put_slot (idx : Z) : M (table E) unit :=
  write_entry_at idx slot_zero ;;
  t <- get ;;
  when (idx =? tb_max_n t - 1) (modify (fun t => t <| tb_max_n := tb_max_n t - 1 |>)) ;;
  modify (fun t => t <| tb_n := tb_n t - 1 |>).

(** A slot is taken and filled. *)
Definition add_entry (e : E) : M (table E) Z :=
  i <- get_slot ;; write_entry_at i e ;; ret i.

(** ** The table as a map from slots in use *)

Definition slot_at (t : table E) (i : nat) : option E :=
  if Z.of_nat i <? tb_max_n t then
    match tb_entries t !! i with
    | Some e => if slot_free e then None else Some e
    | None => None
    end
  else None.

Definition in_use (e : E) : bool := negb (slot_free e).

(** [t] has room for [cap] entries and those in use are those of [m]. *)
Record table_rep (cap : nat) (t : table E) (m : gmap nat E) : Prop := {
  tr_cap : length (tb_entries t) = cap;
  tr_max : 0 <= tb_max_n t <= Z.of_nat cap;
  tr_n : tb_n t = count in_use (take (Z.to_nat (tb_max_n t)) (tb_entries t));
  tr_map i : m !! i = slot_at t i
}.

Definition free_slot (m : gmap nat E) (i : nat) : Prop :=
  m !! i = None /\ forall j, (j < i)%nat -> m !! j <> None.

Lemma slot_at_Some t i e :
  slot_at t i = Some e <->
  Z.of_nat i < tb_max_n t /\ tb_entries t !! i = Some e /\ slot_free e = false.
Proof.
  unfold slot_at. destruct (Z.ltb_spec (Z.of_nat i) (tb_max_n t)); [|split; [done|lia]].
  destruct (tb_entries t !! i) as [x|]; [|by split; [|intros (_ & ? & _)]].
  destruct (slot_free x) eqn:F; split; intros; destruct_and?; simplify_eq; auto; congruence.
Qed.

Lemma slot_at_None t i :
  slot_at t i = None <->
  (Z.of_nat i < tb_max_n t -> forall e, tb_entries t !! i = Some e -> slot_free e = true).
Proof.
  unfold slot_at. destruct (Z.ltb_spec (Z.of_nat i) (tb_max_n t)) as [Hl|]; [|split; [lia|done]].
  destruct (tb_entries t !! i) as [x|]; [|by split].
  destruct (slot_free x) eqn:F; split; intros; simplify_eq; auto.
  match goal with Hf : _ -> forall _, _ |- _ => specialize (Hf Hl _ eq_refl) end. congruence.
Qed.

(** ** The operations on the map *)

(** What the loop from [i] over [k] slots finds. *)
Definition scanned (t : table E) (i k : nat) (r : option Z) : Prop :=
  match r with
  | Some j => exists j' e, j = Z.of_nat j' /\ (i <= j' < i + k)%nat /\
      tb_entries t !! j' = Some e /\ slot_free e = true /\
      (forall l x, (i <= l < j')%nat -> tb_entries t !! l = Some x -> slot_free x = false)
  | None => forall l x, (i <= l < i + k)%nat -> tb_entries t !! l = Some x -> slot_free x = false
  end.

Lemma find_free_spec k i t :
  (i + k <= length (tb_entries t))%nat ->
  exists r, find_free k (Z.of_nat i) t = Done (r, t) /\ scanned t i k r.
Proof.
  revert i. induction k as [|k IH]; intros i Hl; cbn [find_free].
  - exists None. split; [done|]. intros l x ?. lia.
  - destruct (lookup_lt_is_Some_2 (tb_entries t) i) as [e He]; [lia|].
    erewrite bind_done_eq by (unfold read_entry_at; rewrite zlookup_nat, He; reflexivity).
    destruct (slot_free e) eqn:F.
    + exists (Some (Z.of_nat i)). split; [done|]. exists i, e. repeat split; [lia..|done|done|lia].
    + replace (Z.of_nat i + 1) with (Z.of_nat (S i)) by lia.
      destruct (IH (S i)) as (r & -> & Hr); [lia|]. exists r. split; [done|].
      assert (forall l, tb_entries t !! l = Some e -> l = i -> slot_free e = false) by done.
      destruct r as [j|].
      * destruct Hr as (j' & x & -> & ? & ? & ? & Hb). exists j', x. repeat split; [lia|lia|done|done|].
        intros l y ? Hl'. destruct (decide (l = i)) as [->|]; [congruence|]. apply (Hb l); [lia|done].
      * intros l y ? Hl'. destruct (decide (l = i)) as [->|]; [congruence|]. apply (Hr l); [lia|done].
Qed.

(** The map has an entry wherever no free slot was found. *)
Lemma occupied_lookup cap t m l :
  table_rep cap t m -> Z.of_nat l < tb_max_n t ->
  (forall x, tb_entries t !! l = Some x -> slot_free x = false) -> m !! l <> None.
Proof.
  intros [Hcap Hmax _ Hmap] Hl Hf. destruct (lookup_lt_is_Some_2 (tb_entries t) l) as [x Hx]; [lia|].
  rewrite Hmap. assert (slot_at t l = Some x) as ->; [|done]. apply slot_at_Some. auto.
Qed.

Lemma scanned_free cap t m k r :
  table_rep cap t m -> k = Z.to_nat (tb_max_n t) -> scanned t 0 k r ->
  free_slot m (match r with Some j => Z.to_nat j | None => k end).
Proof.
  intros Hrep -> Hr. pose proof (tr_map _ _ _ Hrep) as Hmap. pose proof (tr_max _ _ _ Hrep).
  destruct r as [j|].
  - destruct Hr as (j' & e & -> & Hj & He & Fe & Hb). rewrite Nat2Z.id. split.
    + rewrite Hmap. apply slot_at_None. intros _ e' He'. congruence.
    + intros l Hl. eapply occupied_lookup; [done|lia|]. intros x. apply Hb. lia.
  - split; [rewrite Hmap; apply slot_at_None; lia|].
    intros l Hl. eapply occupied_lookup; [done|lia|]. intros x. apply Hr. lia.
Qed.

(** With as many slots in use as indexes handed out, all are in use. *)
Lemma table_full_scanned cap t m :
  table_rep cap t m -> tb_n t = tb_max_n t -> scanned t 0 (Z.to_nat (tb_max_n t)) None.
Proof.
  intros [Hcap Hmax Hn _] Hfull l x Hl Hx.
  assert (in_use x = true) as Hu; [|unfold in_use in Hu; by destruct (slot_free x)].
  apply (proj1 (count_full in_use (take (Z.to_nat (tb_max_n t)) (tb_entries t)))) with l.
  - rewrite length_take. lia.
  - rewrite lookup_take_lt; [done|lia].
Qed.

(** Slots are handed out first-fit. *)
Lemma get_slot_spec cap t m :
  table_rep cap t m ->
  exists i, get_slot t = Done (Z.of_nat i,
              mk_table (tb_n t + 1) (Z.max (tb_max_n t) (Z.of_nat i + 1)) (tb_entries t)) /\
    free_slot m i /\ (i <= cap)%nat.
Proof.
  intros Hrep. pose proof (tr_max _ _ _ Hrep) as Hmax. pose proof (tr_cap _ _ _ Hrep) as Hcap.
  unfold get_slot. run_refl. set (k := Z.to_nat (tb_max_n t)) in *.
  assert (exists r, (if tb_n t =? tb_max_n t then ret None else find_free k 0) t = Done (r, t) /\
    scanned t 0 k r) as (r & Hrun & Hr).
  { destruct (Z.eqb_spec (tb_n t) (tb_max_n t)).
    - exists None. split; [done|]. by eapply table_full_scanned.
    - apply (find_free_spec k 0 t). lia. }
  rewrite (bind_done_eq _ _ _ _ _ Hrun).
  pose proof (scanned_free _ _ _ _ _ Hrep eq_refl Hr) as Hfree. destruct r as [j|].
  - destruct Hr as (j' & e & -> & Hj & _). rewrite Nat2Z.id in Hfree. exists j'.
    split; [|split; [done|lia]]. run_refl. unfold ret. destruct t as [n mx es]; cbn in *.
    unfold set_field, set_tb_n. cbn. do 3 f_equal. lia.
  - exists k. split; [|split; [done|lia]]. run_refl. unfold gets. destruct t as [n mx es]; cbn in *.
    unfold set_field, set_tb_n, set_tb_max_n. cbn. do 2 f_equal; [lia|f_equal; lia].
Qed.

Lemma count_take_S (f : E -> bool) es k x :
  es !! k = Some x -> count f (take (S k) es) = count f (take k es) + Z.b2z (f x).
Proof. intros Hx. rewrite (take_S_r _ _ _ Hx), count_app. unfold count. cbn. lia. Qed.

Lemma free_slot_max cap t m i : table_rep cap t m -> free_slot m i -> Z.of_nat i <= tb_max_n t.
Proof.
  intros Hrep [_ Hlt]. pose proof (tr_max _ _ _ Hrep).
  destruct (Z.le_gt_cases (Z.of_nat i) (tb_max_n t)); [done|].
  exfalso. apply (Hlt (Z.to_nat (tb_max_n t))); [lia|]. rewrite (tr_map _ _ _ Hrep).
  apply slot_at_None. lia.
Qed.

(** Filling the slot that was handed out. *)
Lemma fill_slot cap t m i e :
  table_rep cap t m -> free_slot m i -> (i < cap)%nat -> slot_free e = false ->
  table_rep cap (mk_table (tb_n t + 1) (Z.max (tb_max_n t) (Z.of_nat i + 1))
                          (<[i := e]> (tb_entries t))) (<[i := e]> m).
Proof.
  intros Hrep Hfree Hi He. pose proof (free_slot_max _ _ _ _ Hrep Hfree) as Him.
  destruct Hrep as [Hcap Hmax Hn Hmap]. destruct Hfree as [Hnone _].
  constructor; cbn [tb_entries tb_max_n tb_n].
  - by rewrite length_insert.
  - lia.
  - destruct (lookup_lt_is_Some_2 (tb_entries t) i) as [x Hx]; [lia|].
    assert (in_use e = true) as Hue by (unfold in_use; by rewrite He).
    destruct (decide (Z.of_nat i < tb_max_n t)) as [Hlt|Hge].
    + replace (Z.to_nat (Z.max (tb_max_n t) (Z.of_nat i + 1))) with (Z.to_nat (tb_max_n t)) by lia.
      rewrite take_insert_lt by lia. rewrite (count_insert in_use _ i x e).
      * rewrite Hmap in Hnone. assert (in_use x = false) as -> by
          (unfold in_use; by rewrite (proj1 (slot_at_None t i) Hnone Hlt x Hx)).
        rewrite Hue, Hn. cbn. lia.
      * rewrite lookup_take_lt; [done|lia].
    + replace (Z.to_nat (Z.max (tb_max_n t) (Z.of_nat i + 1))) with (S i) by lia.
      rewrite (count_take_S _ _ i e) by (apply list_lookup_insert_eq; lia).
      rewrite take_insert_ge by lia. rewrite Hue, Hn. replace (Z.to_nat (tb_max_n t)) with i by lia.
      cbn. lia.
  - intros j. destruct (decide (i = j)) as [<-|Hne].
    + rewrite lookup_insert_eq. symmetry. apply slot_at_Some. cbn [tb_entries tb_max_n].
      split; [lia|]. split; [apply list_lookup_insert_eq; lia|done].
    + rewrite lookup_insert_ne by done. rewrite Hmap. unfold slot_at. cbn [tb_entries tb_max_n].
      rewrite list_lookup_insert_ne by done.
      destruct (Z.ltb_spec (Z.of_nat j) (tb_max_n t)), (Z.ltb_spec (Z.of_nat j) (Z.max (tb_max_n t) (Z.of_nat i + 1)));
        try done; lia.
Qed.

Lemma write_entry_done t i e :
  (i < length (tb_entries t))%nat ->
  write_entry_at (Z.of_nat i) e t = Done (tt, mk_table (tb_n t) (tb_max_n t) (<[i := e]> (tb_entries t))).
Proof.
  intros Hi. unfold write_entry_at. rewrite zinsert_in by lia. rewrite Nat2Z.id. by destruct t.
Qed.

Lemma write_entry_out t i e :
  (length (tb_entries t) <= i)%nat -> write_entry_at (Z.of_nat i) e t = Abort.
Proof.
  intros Hi. unfold write_entry_at, zinsert.
  destruct (Z.ltb_spec (Z.of_nat i) (Z.of_nat (length (tb_entries t)))); [lia|].
  by rewrite andb_false_r.
Qed.

Lemma add_entry_spec cap t m e :
  table_rep cap t m -> slot_free e = false ->
  exists i, free_slot m i /\
    (if decide (i < cap)%nat then
       exists t', add_entry e t = Done (Z.of_nat i, t') /\ table_rep cap t' (<[i := e]> m)
     else add_entry e t = Abort).
Proof.
  intros Hrep He. destruct (get_slot_spec _ _ _ Hrep) as (i & Hget & Hfree & _).
  exists i. split; [done|]. unfold add_entry. rewrite (bind_done_eq _ _ _ _ _ Hget).
  pose proof (tr_cap _ _ _ Hrep). destruct (decide (i < cap)%nat) as [Hi|Hi].
  - eexists. erewrite bind_done_eq by (apply write_entry_done; cbn; lia). split; [done|].
    cbn [tb_n tb_max_n tb_entries]. by apply fill_slot.
  - unfold bind. rewrite write_entry_out; [done|]. cbn. lia.
Qed.

Lemma put_slot_spec cap t m i e :
  table_rep cap t m -> m !! i = Some e ->
  exists t', put_slot (Z.of_nat i) t = Done (tt, t') /\ table_rep cap t' (delete i m).
Proof.
  intros [Hcap Hmax Hn Hmap] Hi. rewrite Hmap in Hi. apply slot_at_Some in Hi as (Him & He & Fe).
  assert (in_use e = true) as Hue by (unfold in_use; by rewrite Fe).
  assert (in_use slot_zero = false) as Hz by (unfold in_use; by rewrite slot_zero_free).
  unfold put_slot. erewrite bind_done_eq by (apply write_entry_done; lia). run_refl.
  cbn [tb_max_n]. set (es := <[i := slot_zero]> (tb_entries t)).
  set (mx := if Z.of_nat i =? tb_max_n t - 1 then tb_max_n t - 1 else tb_max_n t).
  exists (mk_table (tb_n t - 1) mx es). split.
  { subst mx. destruct (Z.of_nat i =? tb_max_n t - 1); reflexivity. }
  subst es. constructor; cbn [tb_entries tb_max_n tb_n].
  - by rewrite length_insert.
  - subst mx. case_match; lia.
  - rewrite Hn. subst mx. destruct (Z.eqb_spec (Z.of_nat i) (tb_max_n t - 1)).
    + rewrite take_insert_ge by lia. replace (Z.to_nat (tb_max_n t)) with (S i) by lia.
      rewrite (count_take_S _ _ i e He), Hue. replace (Z.to_nat (tb_max_n t - 1)) with i by lia.
      cbn. lia.
    + rewrite take_insert_lt by lia. rewrite (count_insert _ _ i e), Hue, Hz; [cbn; lia|].
      rewrite lookup_take_lt; [done|lia].
  - intros j. unfold slot_at. cbn [tb_entries tb_max_n]. destruct (decide (i = j)) as [<-|Hne].
    + rewrite lookup_delete_eq, list_lookup_insert_eq, slot_zero_free by lia. by case_match.
    + rewrite lookup_delete_ne, list_lookup_insert_ne by done. rewrite Hmap. unfold slot_at.
      subst mx. destruct (Z.eqb_spec (Z.of_nat i) (tb_max_n t - 1)); [|done].
      destruct (Z.ltb_spec (Z.of_nat j) (tb_max_n t)), (Z.ltb_spec (Z.of_nat j) (tb_max_n t - 1));
        try done; lia.
Qed.

(** ** Capacity *)

Lemma table_rep_dom cap t m i : table_rep cap t m -> is_Some (m !! i) -> (i < cap)%nat.
Proof.
  intros [Hcap _ _ Hmap] [e He]. rewrite Hmap in He. apply slot_at_Some in He as (_ & He & _).
  apply lookup_lt_Some in He. lia.
Qed.

Lemma table_rep_size cap t m : table_rep cap t m -> (size m <= cap)%nat.
Proof.
  intros Hrep. rewrite <- (size_dom (D := gset nat) m), <- (size_set_seq (C := gset nat) 0 cap).
  apply subseteq_size. intros j Hj%elem_of_dom. apply elem_of_set_seq.
  pose proof (table_rep_dom _ _ _ j Hrep Hj). lia.
Qed.

Lemma table_rep_full cap t m i :
  table_rep cap t m -> size m = cap -> (i < cap)%nat -> is_Some (m !! i).
Proof.
  intros Hrep Hsize Hi. apply (elem_of_dom (D := gset nat)).
  assert ((dom m : gset nat) ≡ set_seq 0 cap) as ->; [|apply elem_of_set_seq; lia].
  apply set_subseteq_size_equiv.
  - intros j Hj%elem_of_dom. apply elem_of_set_seq.
    pose proof (table_rep_dom _ _ _ j Hrep Hj). lia.
  - rewrite size_set_seq, size_dom. lia.
Qed.

(** There is a free slot inside the array as long as fewer than [cap] are used. *)
Lemma free_slot_room cap t m i :
  table_rep cap t m -> free_slot m i -> ((i < cap)%nat <-> (size m < cap)%nat).
Proof.
  intros Hrep [Hi Hlt]. rewrite <- (size_dom (D := gset nat) m). split; intros H.
  - apply Nat.lt_le_trans with (size (set_seq 0 cap : gset nat)); [|by rewrite size_set_seq].
    apply subset_size, strict_spec_alt. split.
    + intros j [e He]%elem_of_dom. apply elem_of_set_seq.
      pose proof (table_rep_dom _ _ _ j Hrep ltac:(eauto)). lia.
    + intros Hsub. assert (i ∈ dom m) as Hd by (rewrite Hsub; apply elem_of_set_seq; lia).
      apply elem_of_dom in Hd as [e He]. congruence.
  - destruct (decide (i < cap)%nat) as [|Hge]; [done|]. exfalso.
    assert (size (set_seq 0 cap : gset nat) <= size (dom m : gset nat))%nat as Hle; [|rewrite size_set_seq in Hle; lia].
    apply subseteq_size. intros j Hj%elem_of_set_seq. apply elem_of_dom.
    destruct (m !! j) eqn:Ej; [eauto|]. exfalso. apply (Hlt j); [lia|done].
Qed.

Lemma free_slot_unique (m : gmap nat E) i j : free_slot m i -> free_slot m j -> i = j.
Proof.
  intros [Hi Hli] [Hj Hlj]. destruct (Nat.lt_total i j) as [H|[H|H]]; [|done|].
  - by destruct (Hlj i H).
  - by destruct (Hli j H).
Qed.

(** ** The allocator a table implements *)

(** First fit among [cap] slots; [None] when all are used. *)
Definition first_free (cap : nat) (m : gmap nat E) : option nat :=
  fst <$> list_find (fun i => m !! i = None) (seq 0 cap).

Inductive slot_op :=
| Take (e : E)
| Give (i : nat).

Definition slot_spec (cap : nat) (m : gmap nat E) (op : slot_op) : option (list nat * gmap nat E) :=
  match op with
  | Take e => i ← first_free cap m; Some ([i], <[i := e]> m)
  | Give i => Some ([], delete i m)
  end.

Definition slot_exec (op : slot_op) : M (table E) (list nat) :=
  match op with
  | Take e => i <- add_entry e ;; ret [Z.to_nat i]
  | Give i => put_slot (Z.of_nat i) ;; ret []
  end.

Fixpoint slot_spec_all (cap : nat) (m : gmap nat E) (ops : list slot_op) : option (list nat * gmap nat E) :=
  match ops with
  | [] => Some ([], m)
  | op :: ops' =>
      '(r, m) ← slot_spec cap m op; '(rs, m) ← slot_spec_all cap m ops'; Some (r ++ rs, m)
  end.

Fixpoint slot_exec_all (ops : list slot_op) : M (table E) (list nat) :=
  match ops with
  | [] => ret []
  | op :: ops' => r <- slot_exec op ;; rs <- slot_exec_all ops' ;; ret (r ++ rs)
  end.

(** What is stored looks used, and only slots in use are given back. *)
Fixpoint slot_ops_ok (cap : nat) (m : gmap nat E) (ops : list slot_op) : Prop :=
  match ops with
  | [] => True
  | op :: ops' =>
      match op with
      | Take e => slot_free e = false
      | Give i => is_Some (m !! i)
      end /\
      match slot_spec cap m op with
      | Some (_, m') => slot_ops_ok cap m' ops'
      | None => True
      end
  end.

Lemma first_free_spec cap t m i :
  table_rep cap t m -> free_slot m i ->
  first_free cap m = if decide (i < cap)%nat then Some i else None.
Proof.
  intros Hrep Hfree. unfold first_free. destruct (decide (i < cap)%nat) as [Hi|Hi].
  - assert (list_find (fun i => m !! i = None) (seq 0 cap) = Some (i, i)) as ->; [|done].
    apply list_find_Some. destruct Hfree as [? Hlt]. repeat split; [by apply lookup_seq|done|].
    intros j y [-> ?]%lookup_seq Hj. by apply Hlt.
  - assert (list_find (fun i => m !! i = None) (seq 0 cap) = None) as ->; [|done].
    apply list_find_None, Forall_seq. intros j Hj. destruct Hfree as [_ Hlt]. apply Hlt. lia.
Qed.

Lemma slot_step cap t m op :
  table_rep cap t m -> slot_ops_ok cap m [op] ->
  match slot_spec cap m op with
  | Some (r, m') => exists t', slot_exec op t = Done (r, t') /\ table_rep cap t' m'
  | None => slot_exec op t = Abort
  end.
Proof.
  intros Hrep [Hok _]. destruct op as [e|i]; cbn [slot_spec slot_exec].
  - destruct (add_entry_spec cap t m e Hrep Hok) as (i & Hfree & Hadd).
    rewrite (first_free_spec _ _ _ _ Hrep Hfree). destruct (decide (i < cap)%nat); cbn.
    + destruct Hadd as (t' & Hrun & Hrep'). exists t'. split; [|done].
      rewrite (bind_done_eq _ _ _ _ _ Hrun). unfold ret. by rewrite Nat2Z.id.
    + unfold bind. by rewrite Hadd.
  - destruct Hok as [e He]. destruct (put_slot_spec cap t m i e Hrep He) as (t' & Hrun & ?).
    exists t'. split; [|done]. by rewrite (bind_done_eq _ _ _ _ _ Hrun).
Qed.

(** A table without slots in use, whatever its array holds. *)
Lemma table_rep_empty es : table_rep (length es) (mk_table 0 0 es) ∅.
Proof.
  constructor; cbn [tb_entries tb_max_n tb_n]; [done|lia|done|].
  intros i. rewrite lookup_empty. symmetry. apply slot_at_None. cbn [tb_max_n]. lia.
Qed.

Lemma slot_exec_all_spec cap ops t m :
  table_rep cap t m -> slot_ops_ok cap m ops ->
  match slot_spec_all cap m ops with
  | Some (rs, m') => exists t', slot_exec_all ops t = Done (rs, t') /\ table_rep cap t' m'
  | None => slot_exec_all ops t = Abort
  end.
Proof.
  revert t m. induction ops as [|op ops IH]; intros t m Hrep Hok; [by exists t|].
  destruct Hok as [Hop Hok]. pose proof (slot_step cap t m op Hrep) as Hstep.
  cbn [slot_spec_all slot_exec_all].
  destruct (slot_spec cap m op) as [[r m1]|] eqn:Eop; cbn [mbind option_bind].
  - destruct Hstep as (t1 & Hrun1 & Hrep1); [by cbn; rewrite Eop|].
    rewrite (bind_done_eq _ _ _ _ _ Hrun1).
    specialize (IH t1 m1 Hrep1 Hok).
    destruct (slot_spec_all cap m1 ops) as [[rs m2]|]; cbn [mbind option_bind].
    + destruct IH as (t2 & Hrun & ?). exists t2. by rewrite (bind_done_eq _ _ _ _ _ Hrun).
    + unfold bind. by rewrite IH.
  - unfold bind. rewrite Hstep; [done|]. by cbn; rewrite Eop.
Qed.

(** C35 (bounds). Slots are allocated first-fit: any sequence of calls that take a
    slot and fill it, or give a used slot back, gets the slots an allocator over
    [cap] slots hands out, from any initial contents of the array; when all
    [cap] slots are used the next call writes behind the array, since nothing
    compares [max_n] with the capacity. *)
Theorem slot_table_refines es ops :
  slot_ops_ok (length es) ∅ ops ->
  match slot_spec_all (length es) ∅ ops with
  | Some (rs, m) =>
      exists t, slot_exec_all ops (mk_table 0 0 es) = Done (rs, t) /\
        table_rep (length es) t m /\ (size m <= length es)%nat /\
        forall e, slot_free e = false -> (add_entry e t = Abort <-> size m = length es)
  | None => slot_exec_all ops (mk_table 0 0 es) = Abort
  end.
Proof.
  intros Hok. pose proof (slot_exec_all_spec _ ops _ _ (table_rep_empty es) Hok) as H.
  destruct (slot_spec_all (length es) ∅ ops) as [[rs m]|]; [|done].
  destruct H as (t & Hrun & Hrep). exists t. split; [done|]. split; [done|].
  pose proof (table_rep_size _ _ _ Hrep) as Hle.
  split; [done|]. intros e He. destruct (add_entry_spec _ _ _ _ Hrep He) as (i & Hfree & Hadd).
  pose proof (free_slot_room _ _ _ _ Hrep Hfree) as Hroom.
  destruct (decide (i < length es)%nat).
  - destruct Hadd as (t' & -> & _). split; [done|lia].
  - split; [lia|done].
Qed.

End Ops.
