(* ===== verification/Shim.v ===== *)
(** * The interposed pthread functions of libddb (shim.c, hook.c)

    Threads of a debugged process call [pthread_mutex_lock] and
    [pthread_mutex_unlock] through libddb, which records in a shared segment who
    waits for and who owns which mutex.  Each call is cut at its accesses to
    locks; what a thread does between taking and releasing one of the spin locks
    of RwLock is one step.  Any interleaving of the steps of any number of
    threads is possible, with threads that start and exit. *)

From stdpp Require Import base list numbers tactics gmap relations.
From S2P Require Import Prelude RwLock SlotTable.

Local Open Scope Z_scope.

(** ** The shared segment (common.h) *)

Definition LDB_MAX_NTHREAD : nat := 128.
Definition DDB_MAX_NLOCK : nat := Z.to_nat 2048.
Definition DDB_MAX_NWAIT : nat := 128.

Definition DDB_WAIT_MUTEX : Z := 1.

Record ddb_wait_entry := mk_wait { we_valid : bool; we_type : Z; we_identifier : Z }.

Record ddb_lowner_entry := mk_lowner { lo_valid : bool; lo_lid : Z; lo_owner_tid : Z }.

(** [ti_wbuf] is the address of a wait buffer, [None] the NULL pointer; so is 0
    for [ti_fsbase]. *)
Record ddb_thread_info := mk_info {
  ti_valid : bool;
  ti_id : Z;
  ti_fsbase : Z;
  ti_stackbase : Z;
  ti_wbuf : option nat
}.

#[export] Instance slot_wait : Slot ddb_wait_entry :=
  {| slot_free e := negb (we_valid e); slot_zero := mk_wait false 0 0; slot_zero_free := eq_refl |}.

#[export] Instance slot_lowner : Slot ddb_lowner_entry :=
  {| slot_free e := negb (lo_valid e); slot_zero := mk_lowner false 0 0; slot_zero_free := eq_refl |}.

#[export] Instance slot_info : Slot ddb_thread_info :=
  {| slot_free e := ti_fsbase e =? 0; slot_zero := mk_info false 0 0 0 None; slot_zero_free := eq_refl |}.

Record ddb_wait_buffer := mk_wbuf { wb_table : table ddb_wait_entry; wb_lock : Z }.
Record ddb_lowner := mk_lowners { lw_table : table ddb_lowner_entry; lw_lock : Z }.
Record ddb_shmseg := mk_seg { sg_threads : table ddb_thread_info; sg_lowners : ddb_lowner }.

#[export] Instance eta_wbuf : Eta ddb_wait_buffer := fun b => mk_wbuf (wb_table b) (wb_lock b).
#[export] Instance set_wb_table : Setter wb_table. Proof. solve_setter. Defined.
#[export] Instance set_wb_lock : Setter wb_lock. Proof. solve_setter. Defined.
#[export] Instance eta_lowner : Eta ddb_lowner := fun b => mk_lowners (lw_table b) (lw_lock b).
#[export] Instance set_lw_table : Setter lw_table. Proof. solve_setter. Defined.
#[export] Instance set_lw_lock : Setter lw_lock. Proof. solve_setter. Defined.
#[export] Instance eta_seg : Eta ddb_shmseg := fun b => mk_seg (sg_threads b) (sg_lowners b).
#[export] Instance set_sg_threads : Setter sg_threads. Proof. solve_setter. Defined.
#[export] Instance set_sg_lowners : Setter sg_lowners. Proof. solve_setter. Defined.

(** The memory of the process: the segment ([None] before [__ddbInit]), the wait
    buffers by address, and the mutexes held with the thread that holds them. *)
Record mem := mk_mem {
  ddb_shared : option ddb_shmseg;
  wbufs : gmap nat ddb_wait_buffer;
  mutexes : gmap Z nat
}.
#[export] Instance eta_mem : Eta mem := fun s => mk_mem (ddb_shared s) (wbufs s) (mutexes s).
#[export] Instance set_ddb_shared : Setter ddb_shared. Proof. solve_setter. Defined.
#[export] Instance set_wbufs : Setter wbufs. Proof. solve_setter. Defined.
#[export] Instance set_mutexes : Setter mutexes. Proof. solve_setter. Defined.

(** Accesses through pointers; NULL and freed buffers are undefined behaviour. *)
Definition on_seg {A} (f : M ddb_shmseg A) : M mem A := fun s =>
  match ddb_shared s with
  | Some g =>
      match f g with
      | Done (a, g') => Done (a, s <| ddb_shared := Some g' |>)
      | Abort => Abort
      | OutOfFuel => OutOfFuel
      end
  | None => Abort
  end.

Definition on_wbuf {A} (w : option nat) (f : M ddb_wait_buffer A) : M mem A := fun s =>
  match w with
  | Some a =>
      match wbufs s !! a with
      | Some b =>
          match f b with
          | Done (r, b') => Done (r, s <| wbufs := <[a := b']> (wbufs s) |>)
          | Abort => Abort
          | OutOfFuel => OutOfFuel
          end
      | None => Abort
      end
  | None => Abort
  end.

Definition on_wait_table {A} : M (table ddb_wait_entry) A -> M ddb_wait_buffer A :=
  zoom wb_table (fun t b => b <| wb_table := t |>).
Definition on_lowners {A} : M ddb_lowner A -> M ddb_shmseg A :=
  zoom sg_lowners (fun t g => g <| sg_lowners := t |>).
Definition on_lowner_table {A} : M (table ddb_lowner_entry) A -> M ddb_lowner A :=
  zoom lw_table (fun t b => b <| lw_table := t |>).
Definition on_infos {A} : M (table ddb_thread_info) A -> M ddb_shmseg A :=
  zoom sg_threads (fun t g => g <| sg_threads := t |>).

(** ** Slots *)

Definition get_lowner_idx : M (table ddb_lowner_entry) Z := get_slot.
Definition put_lowner_idx : Z -> M (table ddb_lowner_entry) unit := put_slot.
Definition get_wait_idx : M (table ddb_wait_entry) Z := get_slot.
Definition put_wait_idx : Z -> M (table ddb_wait_entry) unit := put_slot.
Definition get_tidx : M (table ddb_thread_info) Z := get_slot.
Definition put_tidx : Z -> M (table ddb_thread_info) unit := put_slot.

(** ** The sections under a lock *)

(** [pthread_mutex_lock] marks the thread as waiting, *)
Definition wait_begin (mutex : Z) : M (table ddb_wait_entry) Z :=
  widx <- get_wait_idx ;;
  write_entry_at widx (mk_wait true DDB_WAIT_MUTEX mutex) ;;
  ret widx.

(** and, with the mutex, as no longer waiting, *)
Definition wait_end (widx : Z) : M (table ddb_wait_entry) unit :=
  e <- read_entry_at widx ;;
  write_entry_at widx (mk_wait false (we_type e) (we_identifier e)) ;;
  put_wait_idx widx.

(** and as its owner. *)
Definition own_begin (mutex tid : Z) : M (table ddb_lowner_entry) unit :=
  lidx <- get_lowner_idx ;;
  write_entry_at lidx (mk_lowner true mutex tid).

(** [pthread_mutex_unlock] drops the first owner recorded for the mutex. *)
Fixpoint own_end_loop (k : nat) (mutex i : Z) : M (table ddb_lowner_entry) unit :=
  match k with
  | O => ret tt
  | S k' =>
      e <- read_entry_at i ;;
      if lo_valid e && (lo_lid e =? mutex) then
        write_entry_at i (mk_lowner false 0 (-1)) ;; put_lowner_idx i
      else own_end_loop k' mutex (i + 1)
  end.

Definition own_end (mutex : Z) : M (table ddb_lowner_entry) unit :=
  t <- get ;; own_end_loop (Z.to_nat (tb_max_n t)) mutex 0.

(** One round of a loop that takes a spin lock. *)
Definition try_wlock : M Z bool := fun c => Done (get_wlock c).
Definition unlock_w : M Z unit := modify rel_wlock.

Definition on_wait_lock {A} : M Z A -> M ddb_wait_buffer A :=
  zoom wb_lock (fun c b => b <| wb_lock := c |>).
Definition on_lowner_lock {A} : M Z A -> M ddb_lowner A :=
  zoom lw_lock (fun c b => b <| lw_lock := c |>).

(** ** The mutexes themselves

    The functions behind [dlsym]: [err] is the error they report, 0 for none.
    [None]: the caller stays blocked.  Unlocking a mutex one does not hold is
    undefined behaviour. *)
Definition real_pthread_mutex_lock (err : Z) (self : nat) (mutex : Z) : M mem (option Z) :=
  s <- get ;;
  if negb (err =? 0) then ret (Some err) else
  match mutexes s !! mutex with
  | Some _ => ret None
  | None => modify (fun s => s <| mutexes := <[mutex := self]> (mutexes s) |>) ;; ret (Some 0)
  end.

Definition real_pthread_mutex_unlock (err : Z) (self : nat) (mutex : Z) : M mem Z :=
  s <- get ;;
  if negb (err =? 0) then ret err else
  if bool_decide (mutexes s !! mutex = Some self) then
    modify (fun s => s <| mutexes := delete mutex (mutexes s) |>) ;; ret 0
  else abort.

(** ** Threads *)

(** The local variables of [pthread_mutex_lock]. *)
Record frame := mk_frame { fr_mutex : Z; fr_tid : Z; fr_wbuf : option nat; fr_widx : Z }.

(** Where a thread is: in the application, or before the access named. *)
Inductive pc :=
| App
| LockEnter (mutex : Z)
| LockWaitGet (fr : frame)
| LockWaitAdd (fr : frame)
| LockWaitRel (fr : frame)
| LockReal (fr : frame)
| LockDoneGet (fr : frame)
| LockDonePut (fr : frame)
| LockDoneRel (fr : frame)
| LockOwnGet (fr : frame)
| LockOwnAdd (fr : frame)
| LockOwnRel (fr : frame)
| UnlockReal (mutex : Z)
| UnlockOwnGet (mutex : Z)
| UnlockOwnDel (mutex : Z)
| UnlockOwnRel (mutex : Z)
| Exited.

(** The kernel's id, what [register_thread_info] stored for the thread (its slot
    in the thread table) and the buffer [__ddb_thread_start] allocated. *)
Record thread := mk_thread { th_id : Z; th_tls : option Z; th_wbuf : nat; th_pc : pc }.
#[export] Instance eta_thread : Eta thread :=
  fun t => mk_thread (th_id t) (th_tls t) (th_wbuf t) (th_pc t).
#[export] Instance set_th_pc : Setter th_pc. Proof. solve_setter. Defined.

(** [get_thread_info_idx]: without a value for the key it reads through NULL. *)
Definition get_thread_info_idx (th : thread) : M mem Z :=
  match th_tls th with Some i => ret i | None => abort end.

(** One step of [pthread_mutex_lock] by thread number [self]. *)
Definition pthread_mutex_lock (err : Z) (self : nat) (th : thread) : M mem pc :=
  match th_pc th with
  | LockEnter mutex =>
      thread_info_idx <- get_thread_info_idx th ;;
      shared <- gets ddb_shared ;;
      match shared with
      | Some _ =>
          info <- on_seg (on_infos (read_entry_at thread_info_idx)) ;;
          ret (LockWaitGet (mk_frame mutex (ti_id info) (ti_wbuf info) (-1)))
      | None => ret (LockReal (mk_frame mutex (-1) None (-1)))
      end
  | LockWaitGet fr =>
      ok <- on_wbuf (fr_wbuf fr) (on_wait_lock try_wlock) ;;
      ret (if ok : bool then LockWaitAdd fr else LockWaitGet fr)
  | LockWaitAdd fr =>
      widx <- on_wbuf (fr_wbuf fr) (on_wait_table (wait_begin (fr_mutex fr))) ;;
      ret (LockWaitRel (mk_frame (fr_mutex fr) (fr_tid fr) (fr_wbuf fr) widx))
  | LockWaitRel fr =>
      on_wbuf (fr_wbuf fr) (on_wait_lock unlock_w) ;; ret (LockReal fr)
  | LockReal fr =>
      r <- real_pthread_mutex_lock err self (fr_mutex fr) ;;
      shared <- gets ddb_shared ;;
      ret (match r, shared with
           | None, _ => LockReal fr
           | Some _, Some _ => if fr_tid fr =? -1 then App else LockDoneGet fr
           | Some _, None => App
           end)
  | LockDoneGet fr =>
      ok <- on_wbuf (fr_wbuf fr) (on_wait_lock try_wlock) ;;
      ret (if ok : bool then LockDonePut fr else LockDoneGet fr)
  | LockDonePut fr =>
      on_wbuf (fr_wbuf fr) (on_wait_table (wait_end (fr_widx fr))) ;; ret (LockDoneRel fr)
  | LockDoneRel fr =>
      on_wbuf (fr_wbuf fr) (on_wait_lock unlock_w) ;; ret (LockOwnGet fr)
  | LockOwnGet fr =>
      ok <- on_seg (on_lowners (on_lowner_lock try_wlock)) ;;
      ret (if ok : bool then LockOwnAdd fr else LockOwnGet fr)
  | LockOwnAdd fr =>
      on_seg (on_lowners (on_lowner_table (own_begin (fr_mutex fr) (fr_tid fr)))) ;;
      ret (LockOwnRel fr)
  | LockOwnRel fr =>
      on_seg (on_lowners (on_lowner_lock unlock_w)) ;; ret App
  | p => ret p
  end.

(** One step of [pthread_mutex_unlock]. *)
Definition pthread_mutex_unlock (err : Z) (self : nat) (th : thread) : M mem pc :=
  match th_pc th with
  | UnlockReal mutex =>
      real_pthread_mutex_unlock err self mutex ;;
      shared <- gets ddb_shared ;;
      ret (match shared with Some _ => UnlockOwnGet mutex | None => App end)
  | UnlockOwnGet mutex =>
      ok <- on_seg (on_lowners (on_lowner_lock try_wlock)) ;;
      ret (if ok : bool then UnlockOwnDel mutex else UnlockOwnGet mutex)
  | UnlockOwnDel mutex =>
      on_seg (on_lowners (on_lowner_table (own_end mutex))) ;; ret (UnlockOwnRel mutex)
  | UnlockOwnRel mutex =>
      on_seg (on_lowners (on_lowner_lock unlock_w)) ;; ret App
  | p => ret p
  end.

Definition thread_exec (err : Z) (self : nat) (th : thread) : M mem pc :=
  match th_pc th with
  | UnlockReal _ | UnlockOwnGet _ | UnlockOwnDel _ | UnlockOwnRel _ =>
      pthread_mutex_unlock err self th
  | _ => pthread_mutex_lock err self th
  end.

(** A zeroed wait buffer with the array [malloc] returned. *)
Definition new_wbuf (garbage : list ddb_wait_entry) : ddb_wait_buffer :=
  mk_wbuf (mk_table 0 0 garbage) 0.

(** [__ddb_thread_start] up to the call of the thread's function: the buffer at
    address [w], the thread table under [ddb_tlock], the slot kept for the
    thread. *)
Definition ddb_thread_start (w : nat) (garbage : list ddb_wait_entry) (id fsbase stackbase : Z)
  : M mem thread :=
  shared <- gets ddb_shared ;;
  match shared with
  | None => abort (* exit(1) *)
  | Some _ =>
      modify (fun s => s <| wbufs := <[w := new_wbuf garbage]> (wbufs s) |>) ;;
      tidx <- on_seg (on_infos (
        tidx <- get_tidx ;;
        write_entry_at tidx (mk_info true id fsbase stackbase (Some w)) ;;
        ret tidx)) ;;
      ret (mk_thread id (Some tidx) w App)
  end.

(** The rest of it, once the thread's function has returned. *)
Definition ddb_thread_stop (tidx : Z) (w : nat) : M mem unit :=
  on_seg (on_infos (
    e <- read_entry_at tidx ;;
    write_entry_at tidx (mk_info false (ti_id e) (ti_fsbase e) (ti_stackbase e) (ti_wbuf e)) ;;
    put_tidx tidx)) ;;
  modify (fun s => s <| wbufs := delete w (wbufs s) |>).

(** [__ddbInit]: the segment with the main thread in slot 0, with the buffer at
    address 0. *)
Definition ddbInit (garbage : list ddb_wait_entry) (id fsbase rbp : Z) : mem * thread :=
  let infos := <[0%nat := mk_info true id fsbase rbp (Some 0%nat)]> (replicate LDB_MAX_NTHREAD slot_zero) in
  let lowners := mk_lowners (mk_table 0 0 (replicate DDB_MAX_NLOCK slot_zero)) 0 in
  (mk_mem (Some (mk_seg (mk_table 1 1 infos) lowners)) {[0%nat := new_wbuf garbage]} ∅,
   mk_thread id (Some 0) 0 App).

(** ** The process *)

Record sys := mk_sys { sy_mem : mem; sy_threads : list thread }.
#[export] Instance eta_sys : Eta sys := fun s => mk_sys (sy_mem s) (sy_threads s).

(** Thread [i] executes a step; what it does not finish (blocked, spinning)
    leaves it where it is. *)
Definition sys_exec (err : Z) (i : nat) (s : sys) : outcome sys :=
  match sy_threads s !! i with
  | None => Done s
  | Some th =>
      match thread_exec err i th (sy_mem s) with
      | Done (p, mm) => Done (mk_sys mm (<[i := th <| th_pc := p |>]> (sy_threads s)))
      | Abort => Abort
      | OutOfFuel => OutOfFuel
      end
  end.

(** Thread [i] calls a function of libddb. *)
Definition sys_call (i : nat) (p : pc) (s : sys) : sys :=
  match sy_threads s !! i with
  | Some th => mk_sys (sy_mem s) (<[i := th <| th_pc := p |>]> (sy_threads s))
  | None => s
  end.

(** The mutexes are normal ones that the application unlocks only while it holds
    them; kernel ids of live threads are distinct. *)
Definition live (th : thread) : Prop := th_pc th <> Exited.

#[export] Instance live_dec th : Decision (live th).
Proof.
  refine (match th_pc th as p return Decision (p <> Exited) with
          | Exited => right _ | _ => left _ end); congruence.
Defined.

Inductive shim_step : sys -> sys -> Prop :=
| step_lock s i th mutex :
    sy_threads s !! i = Some th -> th_pc th = App -> shim_step s (sys_call i (LockEnter mutex) s)
| step_unlock s i th mutex :
    sy_threads s !! i = Some th -> th_pc th = App -> mutexes (sy_mem s) !! mutex = Some i ->
    shim_step s (sys_call i (UnlockReal mutex) s)
| step_exec s i s' : sys_exec 0 i s = Done s' -> shim_step s s'
| step_start s w garbage id fsbase stackbase th mm :
    wbufs (sy_mem s) !! w = None -> length garbage = DDB_MAX_NWAIT -> 0 < id -> fsbase <> 0 ->
    Forall (fun th => live th -> th_id th <> id) (sy_threads s) ->
    ddb_thread_start w garbage id fsbase stackbase (sy_mem s) = Done (th, mm) ->
    shim_step s (mk_sys mm (sy_threads s ++ [th]))
| step_stop s i th tidx mm :
    i <> 0%nat -> sy_threads s !! i = Some th -> th_pc th = App -> th_tls th = Some tidx ->
    ddb_thread_stop tidx (th_wbuf th) (sy_mem s) = Done (tt, mm) ->
    shim_step s (mk_sys mm (<[i := th <| th_pc := Exited |>]> (sy_threads s))).

Definition shim_init (garbage : list ddb_wait_entry) (id fsbase rbp : Z) : sys :=
  let '(mm, th) := ddbInit garbage id fsbase rbp in mk_sys mm [th].
