(* ===== verification/ShimOwners.v ===== *)
(** * Who owns which mutex: what libddb's lock owner table promises

    An abstract machine with the mutexes held, the owners recorded, and for each
    thread how far it is with recording or removing itself.  Shim's threads are
    shown to follow it in ShimRefine; here are its invariants. *)

From stdpp Require Import base list numbers tactics gmap relations.
From S2P Require Import Prelude RwLock SlotTable Shim.

Local Open Scope Z_scope.

(** How far a thread is: it holds a mutex that it has not recorded yet ([Window],
    and [WindowSec] under the table's lock), it is about to unlock one, it has
    unlocked one that is still recorded ([Pending], [PendingSec]), or it is done
    but has the table's lock ([Sec]). *)
Inductive progress :=
| Quiet
| Window (m : Z)
| WindowSec (m : Z)
| Unlocking (m : Z)
| Pending (m : Z)
| PendingSec (m : Z)
| Sec.

Record owners := mk_owners {
  ow_table : gmap nat ddb_lowner_entry;
  ow_lock : Z;
  ow_held : gmap Z nat;
  ow_threads : list (Z * progress)
}.

Definition in_window (m : Z) (p : progress) : bool :=
  match p with Window m' | WindowSec m' => m' =? m | _ => false end.
Definition pending (m : Z) (p : progress) : bool :=
  match p with Pending m' | PendingSec m' => m' =? m | _ => false end.
Definition in_section (p : progress) : bool :=
  match p with WindowSec _ | PendingSec _ | Sec => true | _ => false end.
(** The mutex a thread certainly holds. *)
Definition holding (m : Z) (p : progress) : bool :=
  match p with Window m' | WindowSec m' | Unlocking m' => m' =? m | _ => false end.

Inductive own_step : owners -> owners -> Prop :=
| own_acquire tb l h ths i t m :
    ths !! i = Some (t, Quiet) -> h !! m = None ->
    own_step (mk_owners tb l h ths) (mk_owners tb l (<[m := i]> h) (<[i := (t, Window m)]> ths))
| own_enter tb h ths i t p p' m :
    ths !! i = Some (t, p) -> (p = Window m /\ p' = WindowSec m) \/ (p = Pending m /\ p' = PendingSec m) ->
    own_step (mk_owners tb 0 h ths) (mk_owners tb (-1) h (<[i := (t, p')]> ths))
| own_record tb l h ths i t m k :
    ths !! i = Some (t, WindowSec m) -> tb !! k = None ->
    own_step (mk_owners tb l h ths)
      (mk_owners (<[k := mk_lowner true m t]> tb) l h (<[i := (t, Sec)]> ths))
| own_leave tb l h ths i t :
    ths !! i = Some (t, Sec) ->
    own_step (mk_owners tb l h ths) (mk_owners tb (rel_wlock l) h (<[i := (t, Quiet)]> ths))
| own_unlocking tb l h ths i t m :
    ths !! i = Some (t, Quiet) -> h !! m = Some i ->
    own_step (mk_owners tb l h ths) (mk_owners tb l h (<[i := (t, Unlocking m)]> ths))
| own_release tb l h ths i t m :
    ths !! i = Some (t, Unlocking m) ->
    own_step (mk_owners tb l h ths) (mk_owners tb l (delete m h) (<[i := (t, Pending m)]> ths))
| own_remove tb l h ths i t m k e :
    ths !! i = Some (t, PendingSec m) -> tb !! k = Some e -> lo_lid e = m ->
    own_step (mk_owners tb l h ths) (mk_owners (delete k tb) l h (<[i := (t, Sec)]> ths))
| own_spawn tb l h ths t :
    own_step (mk_owners tb l h ths) (mk_owners tb l h (ths ++ [(t, Quiet)])).

(** ** Counting owners *)

Definition recorded (m : Z) (tb : gmap nat ddb_lowner_entry) : Z :=
  Z.of_nat (size (filter (fun ke => lo_lid ke.2 = m) tb)).

(** The holder of [m] has recorded itself. *)
Definition registered (h : gmap Z nat) (ths : list (Z * progress)) (m : Z) : Z :=
  match h !! m with
  | Some i => match ths !! i with Some (_, p) => Z.b2z (negb (in_window m p)) | None => 0 end
  | None => 0
  end.

Definition unrecording (ths : list (Z * progress)) (m : Z) : Z :=
  count (fun tp => pending m tp.2) ths.

Lemma recorded_insert m tb k e :
  tb !! k = None -> recorded m (<[k := e]> tb) = recorded m tb + Z.b2z (lo_lid e =? m).
Proof.
  intros Hk. unfold recorded. destruct (Z.eqb_spec (lo_lid e) m) as [E|E].
  - rewrite map_filter_insert_True by done. rewrite map_size_insert_None; [cbn; lia|].
    apply map_lookup_filter_None. auto.
  - rewrite map_filter_insert_False by done. rewrite delete_id by done. cbn. lia.
Qed.

Lemma recorded_delete m tb k e :
  tb !! k = Some e -> recorded m (delete k tb) = recorded m tb - Z.b2z (lo_lid e =? m).
Proof.
  intros Hk. rewrite <- (insert_delete_id tb k e Hk) at 2.
  rewrite recorded_insert by apply lookup_delete_eq. lia.
Qed.

Lemma recorded_pos m tb : 0 < recorded m tb -> exists k e, tb !! k = Some e /\ lo_lid e = m.
Proof.
  unfold recorded. intros H.
  destruct (map_choose (filter (fun ke => lo_lid ke.2 = m) tb)) as (k & e & He).
  - intros E. rewrite E, map_size_empty in H. lia.
  - apply map_lookup_filter_Some in He as [? ?]. eauto.
Qed.

(** Two entries for one mutex count twice. *)
Lemma recorded_two m tb k1 e1 k2 e2 :
  tb !! k1 = Some e1 -> tb !! k2 = Some e2 -> k1 <> k2 -> lo_lid e1 = m -> lo_lid e2 = m ->
  2 <= recorded m tb.
Proof.
  intros H1 H2 Hne E1 E2. pose proof (recorded_delete m tb k1 e1 H1) as D1.
  assert (delete k1 tb !! k2 = Some e2) as H2' by (by rewrite lookup_delete_ne).
  pose proof (recorded_delete m _ k2 e2 H2') as D2.
  rewrite E1, Z.eqb_refl in D1. rewrite E2, Z.eqb_refl in D2. cbn in D1, D2.
  unfold recorded in *. lia.
Qed.

(** ** The invariant *)

Record own_inv (s : owners) : Prop := {
  oi_lock : ow_lock s = - count (fun tp => in_section tp.2) (ow_threads s);
  oi_excl : count (fun tp => in_section tp.2) (ow_threads s) <= 1;
  oi_holds i t p m : ow_threads s !! i = Some (t, p) -> holding m p = true -> ow_held s !! m = Some i;
  oi_held m i : ow_held s !! m = Some i -> (i < length (ow_threads s))%nat;
  oi_count m : recorded m (ow_table s) = registered (ow_held s) (ow_threads s) m
                                       + unrecording (ow_threads s) m
}.

Lemma unrecording_insert ths i t p t' p' m :
  ths !! i = Some (t, p) ->
  unrecording (<[i := (t', p')]> ths) m =
    unrecording ths m - Z.b2z (pending m p) + Z.b2z (pending m p').
Proof. intros Hi. unfold unrecording. by rewrite (count_insert _ _ _ _ _ Hi). Qed.

Lemma sections_insert (ths : list (Z * progress)) i t p t' p' :
  ths !! i = Some (t, p) ->
  count (fun tp => in_section tp.2) (<[i := (t', p')]> ths) =
    count (fun tp => in_section tp.2) ths - Z.b2z (in_section p) + Z.b2z (in_section p').
Proof. intros Hi. by rewrite (count_insert _ _ _ _ _ Hi). Qed.

Lemma registered_insert h ths i t p t' p' m :
  ths !! i = Some (t, p) ->
  registered h (<[i := (t', p')]> ths) m =
    if bool_decide (h !! m = Some i) then Z.b2z (negb (in_window m p')) else registered h ths m.
Proof.
  intros Hi. unfold registered. case_bool_decide as E.
  - rewrite E, list_lookup_insert_eq by (by eapply lookup_lt_Some). done.
  - destruct (h !! m) as [j|] eqn:Ej; [|done].
    rewrite list_lookup_insert_ne by congruence. done.
Qed.

Lemma registered_at h (ths : list (Z * progress)) i t p m :
  ths !! i = Some (t, p) -> h !! m = Some i -> registered h ths m = Z.b2z (negb (in_window m p)).
Proof. intros Hi Hm. unfold registered. by rewrite Hm, Hi. Qed.

Lemma holds_insert (h : gmap Z nat) (ths : list (Z * progress)) i t p' :
  (forall j tj pj m, j <> i -> ths !! j = Some (tj, pj) -> holding m pj = true -> h !! m = Some j) ->
  (forall m, holding m p' = true -> h !! m = Some i) ->
  forall j tj pj m, <[i := (t, p')]> ths !! j = Some (tj, pj) -> holding m pj = true -> h !! m = Some j.
Proof.
  intros Ho Hi j tj pj m Hj Hm. destruct (decide (i = j)) as [<-|Hne].
  - apply list_lookup_insert_Some in Hj as [(_ & Heq & _)|[? _]]; [|done]. simplify_eq. auto.
  - rewrite list_lookup_insert_ne in Hj by done. eapply Ho; eauto.
Qed.

(** Thread [i] moves from [p] to [p'] while the mutexes stay as they are. *)
Lemma own_inv_move tb tb' l l' h ths i t p p' :
  own_inv (mk_owners tb l h ths) -> ths !! i = Some (t, p) ->
  l' = l + Z.b2z (in_section p) - Z.b2z (in_section p') ->
  (in_section p' = true -> in_section p = true \/ l = 0) ->
  (forall m, holding m p' = true -> h !! m = Some i) ->
  (forall m, recorded m tb' = recorded m tb
     + (if bool_decide (h !! m = Some i) then Z.b2z (in_window m p) - Z.b2z (in_window m p') else 0)
     + Z.b2z (pending m p') - Z.b2z (pending m p)) ->
  own_inv (mk_owners tb' l' h (<[i := (t, p')]> ths)).
Proof.
  intros [Hl He Hho Hhe Hc] Hi Hl' Hsec Hp' Htb. cbn [ow_lock ow_threads ow_held ow_table] in *.
  constructor; cbn [ow_lock ow_threads ow_held ow_table].
  - rewrite (sections_insert _ _ _ _ _ _ Hi). lia.
  - rewrite (sections_insert _ _ _ _ _ _ Hi).
    destruct (in_section p'), (in_section p); cbn [Z.b2z]; lia.
  - apply holds_insert; [|done]. intros. eapply Hho; eauto.
  - intros m j Hj. rewrite length_insert. eauto.
  - intros m. rewrite Htb, Hc, (registered_insert _ _ _ _ _ _ _ _ Hi), (unrecording_insert _ _ _ _ _ _ _ Hi).
    case_bool_decide as E; [|lia].
    rewrite (registered_at _ _ _ _ _ _ Hi E). destruct (in_window m p), (in_window m p'); cbn; lia.
Qed.

(** A mutex changes hands together with the progress of thread [i]; of the other
    mutexes nothing changes. *)
Lemma own_inv_hand tb l h h' ths i t p p' m :
  own_inv (mk_owners tb l h ths) -> ths !! i = Some (t, p) ->
  in_section p = false -> in_section p' = false ->
  (forall m', m' <> m -> h' !! m' = h !! m' /\ in_window m' p = in_window m' p' /\
     pending m' p = pending m' p' /\ holding m' p' = false) ->
  (forall j, j <> i -> h !! m <> Some j) ->
  (holding m p' = true -> h' !! m = Some i) ->
  (forall j, h' !! m = Some j -> j = i) ->
  registered h ths m + Z.b2z (pending m p) - Z.b2z (pending m p') =
    (if bool_decide (h' !! m = Some i) then Z.b2z (negb (in_window m p')) else 0) ->
  own_inv (mk_owners tb l h' (<[i := (t, p')]> ths)).
Proof.
  intros [Hl He Hho Hhe Hc] Hi Hs Hs' Hother Hm Hm' Honly Hreg.
  cbn [ow_lock ow_threads ow_held ow_table] in *.
  constructor; cbn [ow_lock ow_threads ow_held ow_table].
  - rewrite (sections_insert _ _ _ _ _ _ Hi), Hs, Hs'. cbn. lia.
  - rewrite (sections_insert _ _ _ _ _ _ Hi), Hs, Hs'. cbn. lia.
  - apply holds_insert.
    + intros j tj pj m' Hne Hj Hpj. pose proof (Hho _ _ _ _ Hj Hpj).
      destruct (decide (m' = m)) as [->|Hmm]; [by destruct (Hm j)|]. by rewrite (proj1 (Hother m' Hmm)).
    + intros m' Hp. destruct (decide (m' = m)) as [->|Hmm]; [auto|].
      destruct (Hother m' Hmm) as (_ & _ & _ & Hf). congruence.
  - intros m' j Hj. rewrite length_insert. destruct (decide (m' = m)) as [->|Hmm].
    + rewrite (Honly j Hj). by eapply lookup_lt_Some.
    + rewrite (proj1 (Hother m' Hmm)) in Hj. eauto.
  - intros m'. rewrite Hc, (registered_insert _ _ _ _ _ _ _ _ Hi), (unrecording_insert _ _ _ _ _ _ _ Hi).
    destruct (decide (m' = m)) as [->|Hmm].
    + assert (registered h' ths m = if bool_decide (h' !! m = Some i) then registered h' ths m else 0) as E.
      { case_bool_decide as E; [done|]. unfold registered. destruct (h' !! m) as [j|] eqn:Ej; [|done].
        by rewrite (Honly j) in E. }
      destruct (bool_decide (h' !! m = Some i)); lia.
    + destruct (Hother m' Hmm) as (E & Ew & Ep & _). rewrite <- Ep.
      assert (registered h' ths m' = registered h ths m') as -> by (unfold registered; by rewrite E).
      rewrite E. destruct (bool_decide_reflect (h !! m' = Some i)) as [E2|_]; [|lia].
      rewrite (registered_at _ _ _ _ _ _ Hi E2), Ew. lia.
Qed.

Lemma own_inv_step s s' : own_inv s -> own_step s s' -> own_inv s'.
Proof.
  intros Hinv Hs. destruct Hs as
    [tb l h ths i t m Hi Hm|tb h ths i t p p' m Hi Hp|tb l h ths i t m k Hi Hk|tb l h ths i t Hi
    |tb l h ths i t m Hi Hm|tb l h ths i t m Hi|tb l h ths i t m k e Hi Hk He|tb l h ths t].
  - eapply (own_inv_hand tb l h _ ths i t Quiet (Window m) m); try done.
    + intros m' Hne. rewrite lookup_insert_ne by done. cbn. by destruct (Z.eqb_spec m m'); [congruence|].
    + intros j _. by rewrite Hm.
    + intros _. apply lookup_insert_eq.
    + intros j. rewrite lookup_insert_eq. by intros [= ->].
    + unfold registered. rewrite Hm, lookup_insert_eq, bool_decide_eq_true_2 by done.
      cbn. by rewrite Z.eqb_refl.
  - eapply (own_inv_move tb tb 0 (-1) h ths i t p p'); try done.
    + destruct Hp as [[-> ->]|[-> ->]]; done.
    + auto.
    + intros m' Hh. eapply (oi_holds _ Hinv i t p m'); [done|]. destruct Hp as [[-> ->]|[-> ->]]; done.
    + intros m'. destruct Hp as [[-> ->]|[-> ->]]; cbn; case_bool_decide; lia.
  - assert (h !! m = Some i) as Hm by (by apply (oi_holds _ Hinv i t (WindowSec m) m Hi), Z.eqb_refl).
    eapply (own_inv_move tb _ l l h ths i t (WindowSec m) Sec); try done.
    + cbn. lia.
    + auto.
    + intros m'. rewrite recorded_insert by done. cbn. destruct (Z.eqb_spec m m') as [->|].
      * rewrite bool_decide_eq_true_2 by done. cbn. lia.
      * case_bool_decide; lia.
  - pose proof (oi_lock _ Hinv) as Hl. cbn [ow_lock ow_threads] in Hl.
    pose proof (oi_excl _ Hinv) as He. cbn [ow_threads] in He.
    pose proof (count_lookup (fun tp => in_section tp.2) _ _ _ Hi eq_refl).
    eapply (own_inv_move tb tb l (rel_wlock l) h ths i t Sec Quiet); try done.
    + unfold rel_wlock. cbn. lia.
    + intros m'. cbn. case_bool_decide; lia.
  - eapply (own_inv_move tb tb l l h ths i t Quiet (Unlocking m)); try done.
    + cbn. lia.
    + intros m' Hh. cbn in Hh. by replace m' with m by lia.
    + intros m'. cbn. case_bool_decide; lia.
  - assert (h !! m = Some i) as Hm by (by apply (oi_holds _ Hinv i t (Unlocking m) m Hi), Z.eqb_refl).
    eapply (own_inv_hand tb l h _ ths i t (Unlocking m) (Pending m) m); try done.
    + intros m' Hne. rewrite lookup_delete_ne by done. cbn.
      by destruct (Z.eqb_spec m m'); [congruence|].
    + intros j Hj. congruence.
    + intros j. by rewrite lookup_delete_eq.
    + rewrite lookup_delete_eq, bool_decide_eq_false_2 by done.
      rewrite (registered_at _ _ _ _ _ _ Hi Hm). cbn. rewrite Z.eqb_refl. cbn. lia.
  - eapply (own_inv_move tb _ l l h ths i t (PendingSec m) Sec); try done.
    + cbn. lia.
    + auto.
    + intros m'. rewrite (recorded_delete _ _ _ _ Hk), He. cbn. case_bool_decide; lia.
  - destruct Hinv as [Hl He Hho Hhe Hc]. cbn [ow_lock ow_threads ow_held ow_table] in *.
    assert (forall f, f Quiet = false -> count (fun tp : Z * progress => f tp.2) (ths ++ [(t, Quiet)])
              = count (fun tp => f tp.2) ths) as Hcount.
    { intros f Hf. rewrite count_app. unfold count at 2. cbn. rewrite Hf. cbn. lia. }
    constructor; cbn [ow_lock ow_threads ow_held ow_table].
    + by rewrite Hcount.
    + by rewrite Hcount.
    + intros i t' p m Hi Hp. apply lookup_app_Some in Hi as [Hi|[_ Hi]]; [by eapply Hho|].
      apply list_lookup_singleton_Some in Hi as [_ [= <- <-]]. done.
    + intros m i Hm. rewrite length_app. pose proof (Hhe m i Hm). lia.
    + intros m. rewrite Hc. unfold unrecording. rewrite (Hcount (pending m)) by done. f_equal.
      unfold registered. destruct (h !! m) as [i|] eqn:Hm; [|done].
      by rewrite lookup_app_l by eauto.
Qed.

Definition own_reachable (id : Z) : owners -> Prop :=
  rtc own_step (mk_owners ∅ 0 ∅ [(id, Quiet)]).

Lemma own_inv_init id : own_inv (mk_owners ∅ 0 ∅ [(id, Quiet)]).
Proof.
  constructor; cbn [ow_lock ow_threads ow_held ow_table]; try done.
  intros i t p m Hi. by apply list_lookup_singleton_Some in Hi as [_ [= <- <-]].
Qed.

(** ** The owners named

    A thread is credited with [m] while it has recorded itself and not yet
    removed the record. *)
Definition credited (h : gmap Z nat) (ths : list (Z * progress)) (m : Z) (i : nat) (t : Z) : Prop :=
  exists p, ths !! i = Some (t, p) /\
    (pending m p = true \/ (h !! m = Some i /\ in_window m p = false)).

(** A thread records itself as the owner of a mutex while another one has not
    removed its own record yet. *)
Definition overtakes (s s' : owners) : Prop :=
  exists i t m, ow_threads s !! i = Some (t, WindowSec m) /\
    ow_threads s' !! i = Some (t, Sec) /\ 0 < unrecording (ow_threads s) m.

Definition own_calm (s s' : owners) : Prop := own_step s s' /\ ~ overtakes s s'.

Record own_exact (s : owners) : Prop := {
  oe_single m : recorded m (ow_table s) <= 1;
  oe_credit k e : ow_table s !! k = Some e ->
    exists i, credited (ow_held s) (ow_threads s) (lo_lid e) i (lo_owner_tid e)
}.

Lemma registered_nonneg h ths m : 0 <= registered h ths m.
Proof. unfold registered. repeat case_match; try done. destruct (in_window m _); cbn; lia. Qed.

(** The credit of the others survives a move of thread [i]. *)
Lemma credited_insert h h' ths i t p p' m j tj :
  ths !! i = Some (t, p) -> credited h ths m j tj ->
  (h !! m = Some j -> j <> i -> h' !! m = Some j) ->
  (pending m p = true \/ (h !! m = Some i /\ in_window m p = false) ->
   pending m p' = true \/ (h' !! m = Some i /\ in_window m p' = false)) ->
  credited h' (<[i := (t, p')]> ths) m j tj.
Proof.
  intros Hi (q & Hj & Hq) Hh Hp. destruct (decide (j = i)) as [->|Hne].
  - exists p'. simplify_eq. rewrite list_lookup_insert_eq by (by eapply lookup_lt_Some). auto.
  - exists q. rewrite list_lookup_insert_ne by done. split; [done|].
    destruct Hq as [Hq|[? ?]]; [by left|right; auto].
Qed.

Lemma own_exact_step s s' : own_inv s -> own_exact s -> own_calm s s' -> own_exact s'.
Proof.
  intros Hinv [Hone Hcr] [Hs Hcalm]. destruct Hs as
    [tb l h ths i t m Hi Hm|tb h ths i t p p' m Hi Hp|tb l h ths i t m k Hi Hk|tb l h ths i t Hi
    |tb l h ths i t m Hi Hm|tb l h ths i t m Hi|tb l h ths i t m k e Hi Hk He|tb l h ths t];
    cbn [ow_lock ow_threads ow_held ow_table] in *; constructor;
    cbn [ow_lock ow_threads ow_held ow_table]; try done.
  - intros k e Hk. destruct (Hcr k e Hk) as [j Hj]. exists j.
    eapply credited_insert; [exact Hi|exact Hj|..].
    + intros Hl _. rewrite lookup_insert_ne; [done|congruence].
    + intros [?|[Hl _]]; [done|]. right. assert (m <> lo_lid e) by congruence.
      rewrite lookup_insert_ne by done. cbn. split; [done|]. lia.
  - intros k e Hk. destruct (Hcr k e Hk) as [j Hj]. exists j.
    eapply credited_insert; [exact Hi|exact Hj|done|]. by destruct Hp as [[-> ->]|[-> ->]].
  - intros m'. rewrite recorded_insert by done. cbn. destruct (Z.eqb_spec m m') as [->|].
    + assert (h !! m' = Some i) as Hm by (by apply (oi_holds _ Hinv i t (WindowSec m') m' Hi), Z.eqb_refl).
      pose proof (oi_count _ Hinv m') as Hc. cbn [ow_table ow_held ow_threads] in Hc.
      rewrite (registered_at _ _ _ _ _ _ Hi Hm) in Hc. cbn in Hc. rewrite Z.eqb_refl in Hc. cbn in Hc.
      destruct (Z.lt_ge_cases 0 (unrecording ths m')); [|lia].
      exfalso. apply Hcalm. exists i, t, m'. cbn [ow_threads].
      rewrite list_lookup_insert_eq by (by eapply lookup_lt_Some). done.
    + pose proof (Hone m'). lia.
  - intros k' e Hk'. destruct (decide (k = k')) as [<-|Hne].
    + rewrite lookup_insert_eq in Hk'. simplify_eq. exists i, Sec. cbn.
      rewrite list_lookup_insert_eq by (by eapply lookup_lt_Some). split; [done|]. right.
      split; [|done]. by apply (oi_holds _ Hinv i t (WindowSec m) m Hi), Z.eqb_refl.
    + rewrite lookup_insert_ne in Hk' by done. destruct (Hcr k' e Hk') as [j Hj]. exists j.
      eapply credited_insert; [exact Hi|exact Hj|done|]. cbn. intros [?|[? _]]; [done|auto].
  - intros k e Hk. destruct (Hcr k e Hk) as [j Hj]. exists j.
    eapply credited_insert; [exact Hi|exact Hj|done|]. cbn. auto.
  - intros k e Hk. destruct (Hcr k e Hk) as [j Hj]. exists j.
    eapply credited_insert; [exact Hi|exact Hj|done|]. cbn. auto.
  - intros k e Hk. destruct (Hcr k e Hk) as [j Hj]. exists j.
    assert (h !! m = Some i) as Hm by (by apply (oi_holds _ Hinv i t (Unlocking m) m Hi), Z.eqb_refl).
    eapply credited_insert; [exact Hi|exact Hj|..].
    + intros Hl Hne. rewrite lookup_delete_ne; [done|congruence].
    + cbn. intros [?|[Hl _]]; [done|]. destruct (Z.eqb_spec m (lo_lid e)) as [E|E]; [auto|].
      right. by rewrite lookup_delete_ne.
  - intros m'. rewrite (recorded_delete _ _ _ _ Hk). pose proof (Hone m').
    destruct (lo_lid e =? m'); cbn; lia.
  - intros k' e' Hk'. apply lookup_delete_Some in Hk' as [Hne Hk'].
    destruct (Hcr k' e' Hk') as [j Hj]. exists j.
    assert (lo_lid e' <> m) as Hl.
    { intros E. pose proof (recorded_two m tb k e k' e' Hk Hk' Hne He E). pose proof (Hone m). lia. }
    eapply credited_insert; [exact Hi|exact Hj|done|]. cbn. intros [?|[? _]]; [lia|auto].
  - intros k e Hk. destruct (Hcr k e Hk) as (j & q & Hj & Hq). exists j, q.
    by rewrite (lookup_app_l_Some _ _ _ _ Hj).
Qed.

(** Each credited thread has an entry, and only one thread is credited. *)
Lemma credited_unique s m i ti j tj :
  own_inv s -> recorded m (ow_table s) <= 1 ->
  credited (ow_held s) (ow_threads s) m i ti -> credited (ow_held s) (ow_threads s) m j tj -> i = j.
Proof.
  intros Hinv Hone (p & Hi & Hp) (q & Hj & Hq). destruct (decide (i = j)) as [|Hne]; [done|]. exfalso.
  pose proof (oi_count _ Hinv m) as Hc.
  pose proof (registered_nonneg (ow_held s) (ow_threads s) m) as Hr.
  destruct Hp as [Hp|[Hhi Hp]], Hq as [Hq|[Hhj Hq]].
  - pose proof (count_two (fun tp => pending m tp.2) _ _ _ _ _ Hi Hj Hne Hp Hq).
    unfold unrecording in Hc. lia.
  - rewrite (registered_at _ _ _ _ _ _ Hj Hhj), Hq in Hc. cbn in Hc.
    pose proof (count_lookup (fun tp => pending m tp.2) _ _ _ Hi Hp). unfold unrecording in Hc. lia.
  - rewrite (registered_at _ _ _ _ _ _ Hi Hhi), Hp in Hc. cbn in Hc.
    pose proof (count_lookup (fun tp => pending m tp.2) _ _ _ Hj Hq). unfold unrecording in Hc. lia.
  - congruence.
Qed.

Lemma credited_recorded s m i t :
  own_inv s -> credited (ow_held s) (ow_threads s) m i t ->
  exists k e, ow_table s !! k = Some e /\ lo_lid e = m.
Proof.
  intros Hinv (p & Hi & Hp). apply recorded_pos. rewrite (oi_count _ Hinv m).
  pose proof (count_nonneg (fun tp => pending m tp.2) (ow_threads s)).
  pose proof (registered_nonneg (ow_held s) (ow_threads s) m) as Hr.
  destruct Hp as [Hp|[Hh Hp]].
  - pose proof (count_lookup (fun tp => pending m tp.2) _ _ _ Hi Hp). unfold unrecording. lia.
  - rewrite (registered_at _ _ _ _ _ _ Hi Hh), Hp. unfold unrecording. cbn. lia.
Qed.

Lemma recorded_credited s m :
  own_inv s -> 0 < recorded m (ow_table s) ->
  exists i t, credited (ow_held s) (ow_threads s) m i t.
Proof.
  intros Hinv Hpos. rewrite (oi_count _ Hinv m) in Hpos.
  destruct (Z.lt_ge_cases 0 (unrecording (ow_threads s) m)) as [Hu|Hu].
  - apply count_pos in Hu as (i & [t p] & Hi & Hp). exists i, t, p. auto.
  - assert (0 < registered (ow_held s) (ow_threads s) m) as Hr by lia. unfold registered in Hr.
    destruct (ow_held s !! m) as [i|] eqn:Hh; [|lia].
    destruct (ow_threads s !! i) as [[t p]|] eqn:Hi; [|lia].
    exists i, t, p. split; [done|]. right. split; [done|]. by destruct (in_window m p).
Qed.

Lemma own_exact_owner s m t :
  own_inv s -> own_exact s ->
  (exists k e, ow_table s !! k = Some e /\ lo_lid e = m /\ lo_owner_tid e = t) <->
  (exists i, credited (ow_held s) (ow_threads s) m i t).
Proof.
  intros Hinv [Hone Hcr]. split.
  - intros (k & e & Hk & <- & <-). eauto.
  - intros [i Hi]. destruct (credited_recorded s m i t Hinv Hi) as (k & e & Hk & He).
    exists k, e. split; [done|]. split; [done|]. destruct (Hcr k e Hk) as [j Hj]. rewrite He in Hj.
    assert (i = j) as <- by (eapply credited_unique; eauto).
    destruct Hi as (p & Hi & _), Hj as (q & Hj & _). congruence.
Qed.

Lemma own_exact_init id : own_exact (mk_owners ∅ 0 ∅ [(id, Quiet)]).
Proof.
  constructor; cbn [ow_table].
  - intros m. unfold recorded. by rewrite map_filter_empty, map_size_empty.
  - intros k e. by rewrite lookup_empty.
Qed.
