(* ===== verification/ShimRefine.v ===== *)
(** * libddb's records are right

    The threads of Shim follow the abstract machine of ShimOwners, their wait
    buffers hold exactly the mutex they wait for, and no step is undefined as
    long as the owner table has room. *)

From stdpp Require Import base list numbers tactics gmap relations.
From S2P Require Import Prelude RwLock SlotTable Shim ShimOwners.

Local Open Scope Z_scope.

(** ** Reading a thread's position *)

Definition progress_of (p : pc) : progress :=
  match p with
  | LockDoneGet fr | LockDonePut fr | LockDoneRel fr | LockOwnGet fr => Window (fr_mutex fr)
  | LockOwnAdd fr => WindowSec (fr_mutex fr)
  | LockOwnRel _ | UnlockOwnRel _ => Sec
  | UnlockReal m => Unlocking m
  | UnlockOwnGet m => Pending m
  | UnlockOwnDel m => PendingSec m
  | _ => Quiet
  end.

(** The mutex recorded in the wait buffer. *)
Definition waiting (p : pc) : option Z :=
  match p with
  | LockWaitRel fr | LockReal fr | LockDoneGet fr | LockDonePut fr => Some (fr_mutex fr)
  | _ => None
  end.

(** The thread has the lock of its wait buffer. *)
Definition in_wait (p : pc) : bool :=
  match p with
  | LockWaitAdd _ | LockWaitRel _ | LockDonePut _ | LockDoneRel _ => true
  | _ => false
  end.

Definition pc_frame (p : pc) : option frame :=
  match p with
  | LockWaitGet fr | LockWaitAdd fr | LockWaitRel fr | LockReal fr | LockDoneGet fr
  | LockDonePut fr | LockDoneRel fr | LockOwnGet fr | LockOwnAdd fr | LockOwnRel fr => Some fr
  | _ => None
  end.

Definition wait_map (p : pc) : gmap nat ddb_wait_entry :=
  match waiting p with
  | Some m => {[0%nat := mk_wait true DDB_WAIT_MUTEX m]}
  | None => ∅
  end.

Record wait_ok (p : pc) (b : ddb_wait_buffer) : Prop := {
  wo_table : table_rep DDB_MAX_NWAIT (wb_table b) (wait_map p);
  wo_lock : wb_lock b = if in_wait p then -1 else 0
}.

Definition frame_ok (id : Z) (w : nat) (p : pc) : Prop :=
  forall fr, pc_frame p = Some fr ->
    fr_tid fr = id /\ fr_wbuf fr = Some w /\ (is_Some (waiting p) -> fr_widx fr = 0).

Definition thread_ok (tm : gmap nat ddb_thread_info) (wb : gmap nat ddb_wait_buffer) (th : thread) : Prop :=
  exists k info b, th_tls th = Some (Z.of_nat k) /\ tm !! k = Some info /\
    ti_id info = th_id th /\ ti_wbuf info = Some (th_wbuf th) /\
    wb !! th_wbuf th = Some b /\ wait_ok (th_pc th) b /\
    frame_ok (th_id th) (th_wbuf th) (th_pc th) /\ 0 < th_id th.

Definition view (th : thread) : Z * progress := (th_id th, progress_of (th_pc th)).

(** ** The invariant that ties the process to the abstract machine *)
Record shim_inv (s : sys) (a : owners) (g : ddb_shmseg) (tm : gmap nat ddb_thread_info) : Prop := {
  si_seg : ddb_shared (sy_mem s) = Some g;
  si_own : table_rep DDB_MAX_NLOCK (lw_table (sg_lowners g)) (ow_table a);
  si_lock : lw_lock (sg_lowners g) = ow_lock a;
  si_held : mutexes (sy_mem s) = ow_held a;
  si_abs : ow_threads a = view <$> sy_threads s;
  si_inf : table_rep LDB_MAX_NTHREAD (sg_threads g) tm;
  si_thread i th : sy_threads s !! i = Some th -> live th -> thread_ok tm (wbufs (sy_mem s)) th;
  si_distinct i j thi thj :
    sy_threads s !! i = Some thi -> sy_threads s !! j = Some thj -> i <> j ->
    live thi -> live thj -> th_id thi <> th_id thj /\ th_wbuf thi <> th_wbuf thj;
  si_slots k info : tm !! k = Some info ->
    exists i th, sy_threads s !! i = Some th /\ live th /\ th_tls th = Some (Z.of_nat k)
}.

Definition shim_rep (s : sys) (a : owners) : Prop := exists g tm, shim_inv s a g tm.

(** Thread [i] moves to [p'], with its own wait buffer and the owners. *)
Lemma shim_inv_exec s a g tm i th p' mm' b' g' tb' l' :
  shim_inv s a g tm -> sy_threads s !! i = Some th -> live th -> p' <> Exited ->
  wbufs mm' = <[th_wbuf th := b']> (wbufs (sy_mem s)) ->
  wait_ok p' b' -> frame_ok (th_id th) (th_wbuf th) p' ->
  ddb_shared mm' = Some g' -> sg_threads g' = sg_threads g ->
  table_rep DDB_MAX_NLOCK (lw_table (sg_lowners g')) tb' -> lw_lock (sg_lowners g') = l' ->
  shim_inv (mk_sys mm' (<[i := th <| th_pc := p' |>]> (sy_threads s)))
    (mk_owners tb' l' (mutexes mm') (<[i := (th_id th, progress_of p')]> (ow_threads a))) g' tm.
Proof.
  intros [Hseg Hown Hlock Hheld Habs Hinf Hth Hdis Hsl] Hi Hlive Hp' Hwb Hwait Hframe Hseg' Hg' Htb Hl'.
  assert (forall j q, <[i := th <| th_pc := p' |>]> (sy_threads s) !! j = Some q -> live q ->
    (j = i /\ q = th <| th_pc := p' |>) \/ (j <> i /\ sy_threads s !! j = Some q)) as Hcase.
  { intros j q Hj _. apply list_lookup_insert_Some in Hj as [(<- & <- & _)|[? ?]]; auto. }
  constructor; cbn [sy_mem sy_threads ow_table ow_lock ow_held ow_threads]; try done.
  - rewrite Habs, list_fmap_insert. done.
  - by rewrite Hg'.
  - intros j q Hj Hq. rewrite Hwb. destruct (Hcase j q Hj Hq) as [[-> ->]|[Hne Hj']].
    + destruct (Hth i th Hi Hlive) as (k & info & b & ? & ? & ? & ? & Hb & _ & _ & ?).
      exists k, info, b'. rewrite lookup_insert_eq. by split_and!.
    + destruct (Hth j q Hj' Hq) as (k & info & b & ? & ? & ? & ? & Hb & ? & ? & ?).
      exists k, info, b. rewrite lookup_insert_ne; [by split_and!|].
      by apply (Hdis i j th q Hi Hj').
  - intros j1 j2 q1 q2 H1 H2 Hne L1 L2.
    destruct (Hcase _ _ H1 L1) as [[-> ->]|[N1 H1']], (Hcase _ _ H2 L2) as [[-> ->]|[N2 H2']].
    + done.
    + by apply (Hdis i j2 th q2).
    + by apply (Hdis j1 i q1 th).
    + by apply (Hdis j1 j2).
  - intros k info Hk. destruct (Hsl k info Hk) as (j & q & Hj & Hq & Htls).
    destruct (decide (j = i)) as [->|Hne].
    + exists i, (th <| th_pc := p' |>). rewrite list_lookup_insert_eq by (by eapply lookup_lt_Some).
      simplify_eq. done.
    + exists j, q. by rewrite list_lookup_insert_ne.
Qed.

(** ** Running the pieces of a step *)

Lemma on_seg_run {A} (f : M ddb_shmseg A) mm g a g' :
  ddb_shared mm = Some g -> f g = Done (a, g') ->
  on_seg f mm = Done (a, mm <| ddb_shared := Some g' |>).
Proof. intros Hg Hf. unfold on_seg. by rewrite Hg, Hf. Qed.

Lemma on_seg_abort {A} (f : M ddb_shmseg A) mm g :
  ddb_shared mm = Some g -> f g = Abort -> on_seg f mm = Abort.
Proof. intros Hg Hf. unfold on_seg. by rewrite Hg, Hf. Qed.

Lemma on_wbuf_run {A} (f : M ddb_wait_buffer A) mm w b a b' :
  wbufs mm !! w = Some b -> f b = Done (a, b') ->
  on_wbuf (Some w) f mm = Done (a, mm <| wbufs := <[w := b']> (wbufs mm) |>).
Proof. intros Hb Hf. unfold on_wbuf. by rewrite Hb, Hf. Qed.

Lemma zoom_abort {S T A} (proj : S -> T) upd (f : M T A) s :
  f (proj s) = Abort -> zoom proj upd f s = Abort.
Proof. intros Hf. unfold zoom. by rewrite Hf. Qed.

(** *** Tables *)

Lemma read_entry_slot {E} `{!Slot E} cap (t : table E) m k e :
  table_rep cap t m -> m !! k = Some e -> read_entry_at (Z.of_nat k) t = Done (e, t).
Proof.
  intros Hrep Hk. rewrite (tr_map _ _ _ Hrep) in Hk. apply slot_at_Some in Hk as (_ & He & _).
  unfold read_entry_at. by rewrite zlookup_nat, He.
Qed.

(** What was written to a slot before it is given back does not matter. *)
Lemma write_put {E} `{!Slot E} cap (t : table E) m k x e :
  table_rep cap t m -> m !! k = Some e ->
  bind (write_entry_at (Z.of_nat k) x) (fun _ => put_slot (Z.of_nat k)) t = put_slot (Z.of_nat k) t.
Proof.
  intros Hrep Hk. pose proof (table_rep_dom _ _ _ k Hrep ltac:(eauto)).
  pose proof (tr_cap _ _ _ Hrep).
  erewrite bind_done_eq by (apply write_entry_done; lia).
  unfold put_slot. erewrite bind_done_eq by (apply write_entry_done; cbn; rewrite length_insert; lia).
  erewrite (bind_done_eq (write_entry_at _ _)) by (apply write_entry_done; lia).
  cbn [tb_entries tb_n tb_max_n]. by rewrite list_insert_insert_eq.
Qed.

Lemma wait_begin_spec t m :
  table_rep DDB_MAX_NWAIT t ∅ ->
  exists t', wait_begin m t = Done (0, t') /\
    table_rep DDB_MAX_NWAIT t' {[0%nat := mk_wait true DDB_WAIT_MUTEX m]}.
Proof.
  intros Hrep. destruct (add_entry_spec _ t ∅ (mk_wait true DDB_WAIT_MUTEX m) Hrep eq_refl)
    as (k & Hfree & Hadd).
  assert (k = 0)%nat as ->.
  { apply (free_slot_unique (∅ : gmap nat ddb_wait_entry)); [done|]. split; [done|]. lia. }
  destruct (decide (0 < DDB_MAX_NWAIT)%nat) as [_|n]; [|exfalso; apply n; unfold DDB_MAX_NWAIT; lia].
  destruct Hadd as (t' & Hrun & Hrep'). exists t'. by split.
Qed.

Lemma wait_end_spec t m :
  table_rep DDB_MAX_NWAIT t {[0%nat := mk_wait true DDB_WAIT_MUTEX m]} ->
  exists t', wait_end 0 t = Done (tt, t') /\ table_rep DDB_MAX_NWAIT t' ∅.
Proof.
  intros Hrep. destruct (put_slot_spec _ _ _ 0 _ Hrep (lookup_singleton_eq _ _)) as (t' & Hrun & Hrep').
  exists t'. unfold wait_end. change 0 with (Z.of_nat 0).
  erewrite bind_done_eq by (eapply read_entry_slot; [done|apply lookup_singleton_eq]).
  unfold put_wait_idx. erewrite write_put by (done || apply lookup_singleton_eq).
  split; [done|]. by rewrite delete_singleton_eq in Hrep'.
Qed.

Lemma own_begin_spec t tb m tid :
  table_rep DDB_MAX_NLOCK t tb ->
  (size tb = DDB_MAX_NLOCK /\ own_begin m tid t = Abort) \/
  exists k t', tb !! k = None /\ own_begin m tid t = Done (tt, t') /\
    table_rep DDB_MAX_NLOCK t' (<[k := mk_lowner true m tid]> tb).
Proof.
  intros Hrep. destruct (add_entry_spec _ t tb (mk_lowner true m tid) Hrep eq_refl) as (k & Hfree & Hadd).
  assert (forall r, add_entry (mk_lowner true m tid) t = r ->
    own_begin m tid t = match r with Done (_, t') => Done (tt, t') | Abort => Abort | OutOfFuel => OutOfFuel end) as Hb.
  { intros r <-. unfold own_begin, add_entry, get_lowner_idx, bind.
    destruct (get_slot t) as [[i t1]| |]; try done.
    destruct (write_entry_at i _ t1) as [[[] t2]| |]; done. }
  destruct (decide (k < DDB_MAX_NLOCK)%nat) as [Hk|Hk].
  - destruct Hadd as (t' & Hrun & Hrep'). right. exists k, t'. rewrite (Hb _ Hrun).
    by destruct Hfree.
  - left. rewrite (Hb _ Hadd). split; [|done].
    pose proof (free_slot_room _ _ _ _ Hrep Hfree).
    pose proof (table_rep_size _ _ _ Hrep). lia.
Qed.

(** The loop of unlock removes the first owner recorded for the mutex. *)
Lemma own_end_loop_spec n i t tb m k e :
  table_rep DDB_MAX_NLOCK t tb -> tb !! k = Some e -> lo_lid e = m ->
  (i <= k < i + n)%nat -> (i + n)%nat = Z.to_nat (tb_max_n t) ->
  exists j e' t', own_end_loop n m (Z.of_nat i) t = Done (tt, t') /\
    tb !! j = Some e' /\ lo_lid e' = m /\ (i <= j)%nat /\
    (forall j' x, (i <= j' < j)%nat -> tb !! j' = Some x -> lo_lid x <> m) /\
    table_rep DDB_MAX_NLOCK t' (delete j tb).
Proof.
  intros Hrep Hk Hm. revert i. induction n as [|n IH]; intros i Hi Hn; [lia|]. cbn [own_end_loop].
  pose proof (tr_cap _ _ _ Hrep). pose proof (tr_max _ _ _ Hrep).
  destruct (lookup_lt_is_Some_2 (tb_entries t) i) as [x Hx]; [lia|].
  erewrite bind_done_eq by (unfold read_entry_at; rewrite zlookup_nat, Hx; reflexivity).
  destruct (lo_valid x && (lo_lid x =? m)) eqn:Hv.
  - apply andb_true_iff in Hv as [Hv Hl]. assert (tb !! i = Some x) as Hxi.
    { rewrite (tr_map _ _ _ Hrep). apply slot_at_Some. split; [lia|]. split; [done|].
      cbn. by rewrite Hv. }
    destruct (put_slot_spec _ _ _ i x Hrep Hxi) as (t' & Hrun & Hrep').
    exists i, x, t'. unfold put_lowner_idx. erewrite write_put by done.
    split; [done|]. split; [done|]. split; [lia|]. split; [lia|]. split; [lia|done].
  - assert (forall y, tb !! i = Some y -> lo_lid y <> m) as Hno.
    { intros y Hy. rewrite (tr_map _ _ _ Hrep) in Hy. apply slot_at_Some in Hy as (_ & Hy & Fy).
      simplify_eq. cbn in Fy. apply negb_false_iff in Fy. rewrite Fy in Hv. cbn in Hv. lia. }
    assert (i <> k) by (intros ->; by apply (Hno e Hk)).
    replace (Z.of_nat i + 1) with (Z.of_nat (S i)) by lia.
    destruct (IH (S i)) as (j & e' & t' & Hrun & Hj & He' & Hij & Hfirst & Hrep'); [lia|lia|].
    exists j, e', t'. split; [done|]. split; [done|]. split; [done|]. split; [lia|]. split; [|done].
    intros j' y Hj' Hy. destruct (decide (j' = i)) as [->|]; [by apply Hno|].
    apply (Hfirst j' y); [lia|done].
Qed.

Lemma own_end_spec t tb m :
  table_rep DDB_MAX_NLOCK t tb -> 0 < recorded m tb ->
  exists j e t', own_end m t = Done (tt, t') /\ tb !! j = Some e /\ lo_lid e = m /\
    (forall j' x, (j' < j)%nat -> tb !! j' = Some x -> lo_lid x <> m) /\
    table_rep DDB_MAX_NLOCK t' (delete j tb).
Proof.
  intros Hrep (k & e & Hk & He)%recorded_pos. unfold own_end. run_refl.
  assert (Z.of_nat k < tb_max_n t) as Hkm.
  { pose proof Hk as Hk'. rewrite (tr_map _ _ _ Hrep) in Hk'. by apply slot_at_Some in Hk' as [? _]. }
  destruct (own_end_loop_spec (Z.to_nat (tb_max_n t)) 0 t tb m k e Hrep Hk He)
    as (j & e' & t' & Hrun & Hj & He' & _ & Hfirst & Hrep'); [lia|lia|].
  exists j, e', t'. split; [done|]. split; [done|]. split; [done|]. split; [|done].
  intros j' x Hj'. apply Hfirst. lia.
Qed.

(** ** Steps *)

(** The threads other than [i] do not notice its step, nor does the abstract
    machine if the step does not touch mutexes and owners. *)
Lemma exec_effect s a g tm i th p' mm' b' g' tb' l' :
  shim_inv s a g tm -> sy_threads s !! i = Some th -> live th -> p' <> Exited ->
  thread_exec 0 i th (sy_mem s) = Done (p', mm') ->
  wbufs mm' = <[th_wbuf th := b']> (wbufs (sy_mem s)) ->
  wait_ok p' b' -> frame_ok (th_id th) (th_wbuf th) p' ->
  ddb_shared mm' = Some g' -> sg_threads g' = sg_threads g ->
  table_rep DDB_MAX_NLOCK (lw_table (sg_lowners g')) tb' -> lw_lock (sg_lowners g') = l' ->
  exists s', sys_exec 0 i s = Done s' /\
    shim_rep s' (mk_owners tb' l' (mutexes mm') (<[i := (th_id th, progress_of p')]> (ow_threads a))).
Proof.
  intros Hinv Hi Hlive Hp' Hrun Hwb Hwait Hframe Hseg' Hg' Htb Hl'.
  eexists. unfold sys_exec. rewrite Hi, Hrun. split; [reflexivity|].
  exists g', tm. by eapply shim_inv_exec.
Qed.

Lemma exec_local s a g tm i th p' mm' b' :
  shim_inv s a g tm -> sy_threads s !! i = Some th -> live th -> p' <> Exited ->
  thread_exec 0 i th (sy_mem s) = Done (p', mm') ->
  wbufs mm' = <[th_wbuf th := b']> (wbufs (sy_mem s)) ->
  wait_ok p' b' -> frame_ok (th_id th) (th_wbuf th) p' ->
  ddb_shared mm' = Some g -> mutexes mm' = mutexes (sy_mem s) ->
  progress_of p' = progress_of (th_pc th) ->
  exists s', sys_exec 0 i s = Done s' /\ shim_rep s' a.
Proof.
  intros Hinv Hi Hlive Hp' Hrun Hwb Hwait Hframe Hseg' Hm Hprog.
  destruct (exec_effect s a g tm i th p' mm' b' g (ow_table a) (ow_lock a)) as (s' & Hs' & Hrep);
    try done; [apply (si_own _ _ _ _ Hinv)|apply (si_lock _ _ _ _ Hinv)|].
  exists s'. split; [done|].
  assert (mk_owners (ow_table a) (ow_lock a) (mutexes mm')
            (<[i := (th_id th, progress_of p')]> (ow_threads a)) = a) as Ha.
  { destruct a as [tb l h ths]. cbn. rewrite Hm, (si_held _ _ _ _ Hinv). f_equal.
    pose proof (si_abs _ _ _ _ Hinv) as Habs. cbn in Habs. apply list_insert_id.
    rewrite Habs, list_lookup_fmap, Hi. cbn. unfold view. by rewrite Hprog. }
  by rewrite Ha in Hrep.
Qed.

Lemma frame_ok_frame id w p fr :
  frame_ok id w p -> pc_frame p = Some fr ->
  forall p', pc_frame p' = Some fr -> (is_Some (waiting p') -> is_Some (waiting p)) -> frame_ok id w p'.
Proof.
  intros Hok Hfr p' Hfr' Hw x Hx. assert (x = fr) as -> by congruence.
  destruct (Hok fr Hfr) as (? & ? & Hidx). split; [done|]. split; [done|]. intros ?. auto.
Qed.

(** The wait buffer's own lock is always free when its thread asks for it. *)
Lemma wait_lock_run p b :
  wait_ok p b -> in_wait p = false ->
  on_wait_lock try_wlock b = Done (true, b <| wb_lock := -1 |>).
Proof.
  intros [_ Hl] Hp. unfold on_wait_lock, zoom. by rewrite Hl, Hp.
Qed.

Lemma wait_ok_lock p p' b l :
  wait_ok p b -> waiting p' = waiting p -> l = (if in_wait p' then -1 else 0) ->
  wait_ok p' (b <| wb_lock := l |>).
Proof. intros [Ht _] Hw ->. constructor; [|done]. unfold wait_map. by rewrite Hw. Qed.

Lemma wait_ok_same p p' b : wait_ok p b -> waiting p' = waiting p -> in_wait p' = in_wait p -> wait_ok p' b.
Proof. intros [Ht Hl] Hw Hin. constructor; [|by rewrite Hin]. unfold wait_map. by rewrite Hw. Qed.

Lemma owners_eta a : a = mk_owners (ow_table a) (ow_lock a) (ow_held a) (ow_threads a).
Proof. by destruct a. Qed.

Section Exec.
Context (s : sys) (a : owners) (g : ddb_shmseg) (tm : gmap nat ddb_thread_info).
Context (i : nat) (th : thread).
Context (Hinv : shim_inv s a g tm) (Hi : sy_threads s !! i = Some th) (Hlive : live th).

Abbreviation stays := (exists s', sys_exec 0 i s = Done s' /\ shim_rep s' a).

Lemma exec_nothing : thread_exec 0 i th (sy_mem s) = Done (th_pc th, sy_mem s) -> stays.
Proof using All.
  intros Hrun. destruct (si_thread _ _ _ _ Hinv i th Hi Hlive) as (k & info & b & Htls & Hk & Hid & Hw & Hb & Hwait & Hfr & _).
  eapply (exec_local s a g tm i th _ _ b Hinv Hi Hlive Hlive Hrun); try done.
  - by rewrite insert_id.
  - apply (si_seg _ _ _ _ Hinv).
Qed.

Lemma exec_LockEnter m : th_pc th = LockEnter m -> stays.
Proof using All.
  intros Hpc. destruct (si_thread _ _ _ _ Hinv i th Hi Hlive) as (k & info & b & Htls & Hk & Hid & Hw & Hb & Hwait & _ & _).
  pose proof (si_seg _ _ _ _ Hinv) as Hseg.
  assert (thread_exec 0 i th (sy_mem s)
    = Done (LockWaitGet (mk_frame m (th_id th) (Some (th_wbuf th)) (-1)), sy_mem s)) as Hrun.
  { unfold thread_exec, pthread_mutex_lock. rewrite Hpc. unfold get_thread_info_idx. rewrite Htls.
    run_refl. run_refl. rewrite Hseg.
    erewrite bind_done_eq by (eapply on_seg_run; [exact Hseg|];
      unfold on_infos; apply zoom_run; eapply read_entry_slot; [apply (si_inf _ _ _ _ Hinv)|exact Hk]).
    rewrite Hid, Hw. unfold ret. do 2 f_equal. destruct (sy_mem s), g; cbn in *. by subst. }
  eapply (exec_local s a g tm i th _ _ b Hinv Hi Hlive); [|exact Hrun|..]; try done.
  - by rewrite insert_id.
  - eapply wait_ok_same; [exact Hwait|by rewrite Hpc..].
  - intros fr [= <-]. cbn. split; [done|]. split; [done|]. by intros [? ?].
  - by rewrite Hpc.
Qed.

(** Taking or releasing the lock of the own wait buffer. *)
Lemma exec_wait_lock p' b' fr :
  pc_frame (th_pc th) = Some fr -> pc_frame p' = Some fr ->
  waiting p' = waiting (th_pc th) -> progress_of p' = progress_of (th_pc th) -> p' <> Exited ->
  (forall b, wait_ok (th_pc th) b -> b' b = b <| wb_lock := if in_wait p' then -1 else 0 |>) ->
  (forall mm b, wait_ok (th_pc th) b -> fr_wbuf fr = Some (th_wbuf th) -> wbufs mm !! th_wbuf th = Some b ->
     thread_exec 0 i th mm = Done (p', mm <| wbufs := <[th_wbuf th := b' b]> (wbufs mm) |>)) ->
  stays.
Proof using All.
  intros Hfr Hfr' Hw Hprog Hp' Hb' Hrun.
  destruct (si_thread _ _ _ _ Hinv i th Hi Hlive) as (k & info & b & Htls & Hk & Hid & _ & Hb & Hwait & Hf & _).
  destruct (Hf fr Hfr) as (Ht & Hwb & _).
  eapply (exec_local s a g tm i th p' _ (b' b) Hinv Hi Hlive Hp'); [by apply Hrun|..]; try done.
  - rewrite (Hb' b Hwait). by eapply wait_ok_lock.
  - eapply frame_ok_frame; eauto. by rewrite Hw.
  - apply (si_seg _ _ _ _ Hinv).
Qed.

Lemma exec_LockWaitGet fr : th_pc th = LockWaitGet fr -> stays.
Proof using All.
  intros Hpc. eapply (exec_wait_lock (LockWaitAdd fr) (fun b => b <| wb_lock := -1 |>) fr);
    rewrite ?Hpc; try done.
  intros mm b Hwait Hwb Hb. unfold thread_exec, pthread_mutex_lock. rewrite Hpc, Hwb.
  by erewrite bind_done_eq by (eapply on_wbuf_run; [done|eapply wait_lock_run; [exact Hwait|done]]).
Qed.

Lemma exec_LockDoneGet fr : th_pc th = LockDoneGet fr -> stays.
Proof using All.
  intros Hpc. eapply (exec_wait_lock (LockDonePut fr) (fun b => b <| wb_lock := -1 |>) fr);
    rewrite ?Hpc; try done.
  intros mm b Hwait Hwb Hb. unfold thread_exec, pthread_mutex_lock. rewrite Hpc, Hwb.
  by erewrite bind_done_eq by (eapply on_wbuf_run; [done|eapply wait_lock_run; [exact Hwait|done]]).
Qed.

Lemma exec_LockWaitRel fr : th_pc th = LockWaitRel fr -> stays.
Proof using All.
  intros Hpc. eapply (exec_wait_lock (LockReal fr) (fun b => b <| wb_lock := 0 |>) fr);
    rewrite ?Hpc; try done.
  intros mm b Hwait Hwb Hb. unfold thread_exec, pthread_mutex_lock. rewrite Hpc, Hwb.
  by erewrite bind_done_eq by (eapply on_wbuf_run; [done|reflexivity]).
Qed.

Lemma exec_LockDoneRel fr : th_pc th = LockDoneRel fr -> stays.
Proof using All.
  intros Hpc. eapply (exec_wait_lock (LockOwnGet fr) (fun b => b <| wb_lock := 0 |>) fr);
    rewrite ?Hpc; try done.
  intros mm b Hwait Hwb Hb. unfold thread_exec, pthread_mutex_lock. rewrite Hpc, Hwb.
  by erewrite bind_done_eq by (eapply on_wbuf_run; [done|reflexivity]).
Qed.

Lemma exec_LockWaitAdd fr : th_pc th = LockWaitAdd fr -> stays.
Proof using All.
  intros Hpc. destruct (si_thread _ _ _ _ Hinv i th Hi Hlive) as (k & info & b & Htls & Hk & Hid & Hw & Hb & [Ht Hl] & Hf & _).
  rewrite Hpc in *. destruct (Hf fr eq_refl) as (Hft & Hfw & _).
  destruct (wait_begin_spec _ (fr_mutex fr) Ht) as (t' & Hrun & Ht').
  eapply (exec_local s a g tm i th (LockWaitRel (mk_frame (fr_mutex fr) (fr_tid fr) (fr_wbuf fr) 0))
            _ (b <| wb_table := t' |>) Hinv Hi Hlive); 
    [done
    |unfold thread_exec, pthread_mutex_lock; rewrite Hpc, Hfw;
     (erewrite bind_done_eq by (eapply on_wbuf_run; [done|unfold on_wait_table, zoom; by rewrite Hrun]));
     reflexivity
    |..]; rewrite ?Hpc; try done.
  - intros x [= <-]. done.
  - apply (si_seg _ _ _ _ Hinv).
Qed.

Lemma exec_LockDonePut fr : th_pc th = LockDonePut fr -> stays.
Proof using All.
  intros Hpc. destruct (si_thread _ _ _ _ Hinv i th Hi Hlive) as (k & info & b & Htls & Hk & Hid & Hw & Hb & [Ht Hl] & Hf & _).
  rewrite Hpc in *. destruct (Hf fr eq_refl) as (Hft & Hfw & Hidx). specialize (Hidx ltac:(eauto)).
  destruct (wait_end_spec _ (fr_mutex fr) Ht) as (t' & Hrun & Ht').
  eapply (exec_local s a g tm i th (LockDoneRel fr)
            _ (b <| wb_table := t' |>) Hinv Hi Hlive); 
    [done
    |unfold thread_exec, pthread_mutex_lock; rewrite Hpc, Hfw, Hidx;
     (erewrite bind_done_eq by (eapply on_wbuf_run; [done|unfold on_wait_table, zoom; by rewrite Hrun]));
     reflexivity
    |..]; rewrite ?Hpc; try done.
  - intros x [= <-]. split; [done|]. split; [done|]. by intros [? ?].
  - apply (si_seg _ _ _ _ Hinv).
Qed.

(** *** Steps of the abstract machine *)

Lemma abs_thread : ow_threads a !! i = Some (th_id th, progress_of (th_pc th)).
Proof using Hinv Hi. by rewrite (si_abs _ _ _ _ Hinv), list_lookup_fmap, Hi. Qed.

Abbreviation moves := (exists s' a', sys_exec 0 i s = Done s' /\ shim_rep s' a' /\ (a' = a \/ own_step a a')).

Lemma stays_moves : stays -> moves.
Proof using Type. intros (s' & ? & ?). exists s', a. auto. Qed.

(** A step that leaves the wait buffer alone. *)
Lemma exec_owners p' mm' g' tb' l' :
  p' <> Exited -> thread_exec 0 i th (sy_mem s) = Done (p', mm') ->
  wbufs mm' = wbufs (sy_mem s) ->
  waiting p' = waiting (th_pc th) -> in_wait p' = in_wait (th_pc th) ->
  (forall fr, pc_frame p' = Some fr -> pc_frame (th_pc th) = Some fr) ->
  ddb_shared mm' = Some g' -> sg_threads g' = sg_threads g ->
  table_rep DDB_MAX_NLOCK (lw_table (sg_lowners g')) tb' -> lw_lock (sg_lowners g') = l' ->
  let a' := mk_owners tb' l' (mutexes mm') (<[i := (th_id th, progress_of p')]> (ow_threads a)) in
  a' = a \/ own_step a a' -> moves.
Proof using All.
  intros Hp' Hrun Hwb Hw Hin Hfr Hseg Hg Htb Hl a' Ha'.
  destruct (si_thread _ _ _ _ Hinv i th Hi Hlive) as (k & info & b & _ & _ & _ & _ & Hb & Hwait & Hf & _).
  destruct (exec_effect s a g tm i th p' mm' b g' tb' l' Hinv Hi Hlive Hp' Hrun) as (s' & Hs' & Hrep); try done.
  - by rewrite Hwb, insert_id.
  - by eapply wait_ok_same.
  - intros fr Hx. destruct (Hf fr (Hfr fr Hx)) as (? & ? & ?). rewrite Hw. auto.
  - exists s', a'. auto.
Qed.

Lemma exec_LockReal fr : th_pc th = LockReal fr -> own_inv a -> moves.
Proof using All.
  intros Hpc Hown. pose proof abs_thread as Habs. rewrite Hpc in Habs. cbn in Habs.
  pose proof (si_seg _ _ _ _ Hinv) as Hseg. pose proof (si_held _ _ _ _ Hinv) as Hheld.
  destruct (si_thread _ _ _ _ Hinv i th Hi Hlive) as (k & info & b & _ & _ & _ & _ & _ & _ & Hf & Hpos).
  rewrite Hpc in Hf. destruct (Hf fr eq_refl) as (Hft & _ & _).
  destruct (mutexes (sy_mem s) !! fr_mutex fr) as [j|] eqn:Hm.
  - apply stays_moves, exec_nothing. unfold thread_exec, pthread_mutex_lock. rewrite Hpc.
    unfold real_pthread_mutex_lock, bind, get, gets, ret. cbn. by rewrite Hm.
  - eapply (exec_owners (LockDoneGet fr)
      ((sy_mem s) <| mutexes := <[fr_mutex fr := i]> (mutexes (sy_mem s)) |>) g (ow_table a) (ow_lock a));
      rewrite ?Hpc; try done.
    + unfold thread_exec, pthread_mutex_lock. rewrite Hpc.
      unfold real_pthread_mutex_lock, bind, get, gets, ret, modify. cbn. rewrite Hm.
      change (ddb_shared (_ <| mutexes := _ |>)) with (ddb_shared (sy_mem s)). rewrite Hseg, Hft.
      destruct (Z.eqb_spec (th_id th) (-1)); [lia|done].
    + apply (si_own _ _ _ _ Hinv).
    + apply (si_lock _ _ _ _ Hinv).
    + right. cbn. rewrite Hheld in *. rewrite (owners_eta a) at 1. by eapply own_acquire.
Qed.

(** Asking for the lock of the owner table. *)
Lemma exec_own_get p' fr m :
  (th_pc th = LockOwnGet fr /\ p' = LockOwnAdd fr) \/ (th_pc th = UnlockOwnGet m /\ p' = UnlockOwnDel m) ->
  moves.
Proof using All.
  intros Hpc. pose proof abs_thread as Habs. pose proof (si_seg _ _ _ _ Hinv) as Hseg.
  pose proof (si_lock _ _ _ _ Hinv) as Hlock.
  assert (on_seg (on_lowners (on_lowner_lock try_wlock)) (sy_mem s) =
    Done (ow_lock a =? 0, (sy_mem s) <| ddb_shared := Some (g <| sg_lowners := (sg_lowners g)
            <| lw_lock := if ow_lock a =? 0 then -1 else ow_lock a |> |>) |>)) as Hrun.
  { apply on_seg_run with g; [done|]. unfold on_lowners, on_lowner_lock, zoom, try_wlock, get_wlock.
    rewrite Hlock. by destruct (ow_lock a =? 0). }
  destruct (Z.eqb_spec (ow_lock a) 0) as [E|E].
  - eapply (exec_owners p' ((sy_mem s) <| ddb_shared := Some (g <| sg_lowners := (sg_lowners g) <| lw_lock := -1 |> |>) |>)
              _ (ow_table a) (-1));
      [by destruct Hpc as [[_ ->]|[_ ->]]| |reflexivity| | | |reflexivity|reflexivity|
       exact (si_own _ _ _ _ Hinv)|reflexivity|].
    + unfold thread_exec, pthread_mutex_lock, pthread_mutex_unlock.
      destruct Hpc as [[Hpc ->]|[Hpc ->]]; rewrite Hpc; rewrite (bind_done_eq _ _ _ _ _ Hrun); done.
    + by destruct Hpc as [[-> ->]|[-> ->]].
    + by destruct Hpc as [[-> ->]|[-> ->]].
    + by destruct Hpc as [[-> ->]|[-> ->]].
    + right. cbn. rewrite (owners_eta a) at 1. rewrite E, (si_held _ _ _ _ Hinv).
      destruct Hpc as [[Hpc ->]|[Hpc ->]]; rewrite Hpc in Habs; eapply own_enter; eauto.
  - apply stays_moves, exec_nothing.
    assert (forall b : bool, b = false -> forall p q : pc, (if b then p else q) = q) as Hif by (by intros ? ->).
    unfold thread_exec, pthread_mutex_lock, pthread_mutex_unlock.
    destruct Hpc as [[Hpc ->]|[Hpc ->]]; rewrite Hpc; rewrite (bind_done_eq _ _ _ _ _ Hrun);
      unfold ret; do 2 f_equal; destruct (sy_mem s), g as [? []]; cbn in *; by subst.
Qed.

(** Releasing it. *)
Lemma exec_own_rel fr m :
  th_pc th = LockOwnRel fr \/ th_pc th = UnlockOwnRel m -> moves.
Proof using All.
  intros Hpc. pose proof abs_thread as Habs. pose proof (si_seg _ _ _ _ Hinv) as Hseg.
  pose proof (si_lock _ _ _ _ Hinv) as Hlock.
  eapply (exec_owners App
    ((sy_mem s) <| ddb_shared := Some (g <| sg_lowners := (sg_lowners g) <| lw_lock := rel_wlock (ow_lock a) |> |>) |>)
    _ (ow_table a) (rel_wlock (ow_lock a)));
    [done| |reflexivity| | |done|reflexivity|reflexivity|exact (si_own _ _ _ _ Hinv)|reflexivity|].
  - unfold thread_exec, pthread_mutex_lock, pthread_mutex_unlock.
    destruct Hpc as [Hpc|Hpc]; rewrite Hpc;
      (erewrite bind_done_eq; [|apply on_seg_run with g; [done|]; unfold on_lowners, on_lowner_lock, zoom; reflexivity]);
      by rewrite Hlock.
  - by destruct Hpc as [->| ->].
  - by destruct Hpc as [->| ->].
  - right. cbn. rewrite (owners_eta a) at 1. rewrite (si_held _ _ _ _ Hinv).
    destruct Hpc as [Hpc|Hpc]; rewrite Hpc in Habs; by eapply own_leave.
Qed.

Lemma exec_LockOwnAdd fr :
  th_pc th = LockOwnAdd fr ->
  (size (ow_table a) = DDB_MAX_NLOCK /\ sys_exec 0 i s = Abort) \/ moves.
Proof using All.
  intros Hpc. pose proof abs_thread as Habs. pose proof (si_seg _ _ _ _ Hinv) as Hseg.
  destruct (si_thread _ _ _ _ Hinv i th Hi Hlive) as (k & info & b & _ & _ & _ & _ & _ & _ & Hf & _).
  rewrite Hpc in Hf, Habs. destruct (Hf fr eq_refl) as (Hft & _ & _).
  destruct (own_begin_spec _ _ (fr_mutex fr) (fr_tid fr) (si_own _ _ _ _ Hinv))
    as [[Hsize Hab]|(j & t' & Hj & Hrun & Ht')].
  - left. split; [done|]. unfold sys_exec. rewrite Hi.
    unfold thread_exec, pthread_mutex_lock. rewrite Hpc. unfold bind.
    erewrite on_seg_abort; [done|done|]. unfold on_lowners, on_lowner_table, zoom. by rewrite Hab.
  - right. eapply (exec_owners (LockOwnRel fr)
      ((sy_mem s) <| ddb_shared := Some (g <| sg_lowners := (sg_lowners g) <| lw_table := t' |> |>) |>)
      _ (<[j := mk_lowner true (fr_mutex fr) (fr_tid fr)]> (ow_table a)) (ow_lock a));
      rewrite ?Hpc; try done.
    + unfold thread_exec, pthread_mutex_lock. rewrite Hpc.
      by erewrite bind_done_eq by (apply on_seg_run with g; [done|];
        unfold on_lowners, on_lowner_table, zoom; by rewrite Hrun).
    + apply (si_lock _ _ _ _ Hinv).
    + right. cbn. rewrite (owners_eta a) at 1. rewrite (si_held _ _ _ _ Hinv), Hft. by apply own_record.
Qed.

Lemma exec_UnlockReal m : th_pc th = UnlockReal m -> own_inv a -> moves.
Proof using All.
  intros Hpc Hown. pose proof abs_thread as Habs. rewrite Hpc in Habs. cbn in Habs.
  pose proof (si_seg _ _ _ _ Hinv) as Hseg. pose proof (si_held _ _ _ _ Hinv) as Hheld.
  assert (mutexes (sy_mem s) !! m = Some i) as Hm.
  { rewrite Hheld. eapply (oi_holds _ Hown i); [exact Habs|]. apply Z.eqb_refl. }
  eapply (exec_owners (UnlockOwnGet m)
    ((sy_mem s) <| mutexes := delete m (mutexes (sy_mem s)) |>) g (ow_table a) (ow_lock a));
    rewrite ?Hpc; try done.
  - unfold thread_exec, pthread_mutex_unlock. rewrite Hpc.
    unfold real_pthread_mutex_unlock, bind, get, gets, ret, modify. cbn.
    rewrite bool_decide_eq_true_2 by done.
    change (ddb_shared (_ <| mutexes := _ |>)) with (ddb_shared (sy_mem s)). by rewrite Hseg.
  - apply (si_own _ _ _ _ Hinv).
  - apply (si_lock _ _ _ _ Hinv).
  - right. cbn. rewrite Hheld in *. rewrite (owners_eta a) at 1. by eapply own_release.
Qed.

Lemma exec_UnlockOwnDel m : th_pc th = UnlockOwnDel m -> own_inv a -> moves.
Proof using All.
  intros Hpc Hown. pose proof abs_thread as Habs. rewrite Hpc in Habs. cbn in Habs.
  pose proof (si_seg _ _ _ _ Hinv) as Hseg.
  assert (0 < recorded m (ow_table a)) as Hpos.
  { rewrite (oi_count _ Hown m). unfold unrecording.
    pose proof (count_lookup (fun tp => pending m tp.2) _ _ _ Habs (Z.eqb_refl m)).
    pose proof (registered_nonneg (ow_held a) (ow_threads a) m). lia. }
  destruct (own_end_spec _ _ m (si_own _ _ _ _ Hinv) Hpos) as (j & e & t' & Hrun & Hj & He & _ & Ht').
  eapply (exec_owners (UnlockOwnRel m)
    ((sy_mem s) <| ddb_shared := Some (g <| sg_lowners := (sg_lowners g) <| lw_table := t' |> |>) |>)
    _ (delete j (ow_table a)) (ow_lock a));
    rewrite ?Hpc; try done.
  - unfold thread_exec, pthread_mutex_unlock. rewrite Hpc.
    by erewrite bind_done_eq by (apply on_seg_run with g; [done|];
      unfold on_lowners, on_lowner_table, zoom; by rewrite Hrun).
  - apply (si_lock _ _ _ _ Hinv).
  - right. cbn. rewrite (owners_eta a) at 1. rewrite (si_held _ _ _ _ Hinv). by eapply own_remove.
Qed.

(** Any step of a live thread. *)
Lemma exec_sim :
  own_inv a ->
  (exists fr, th_pc th = LockOwnAdd fr /\ size (ow_table a) = DDB_MAX_NLOCK /\ sys_exec 0 i s = Abort) \/
  moves.
Proof using All.
  intros Hown. destruct (th_pc th) as [|m|fr|fr|fr|fr|fr|fr|fr|fr|fr|fr|m|m|m|m|] eqn:Hpc.
  all: try (right; apply stays_moves; first
    [ by apply (exec_LockEnter m) | by apply (exec_LockWaitGet fr) | by apply (exec_LockWaitAdd fr)
    | by apply (exec_LockWaitRel fr) | by apply (exec_LockDoneGet fr) | by apply (exec_LockDonePut fr)
    | by apply (exec_LockDoneRel fr)
    | apply exec_nothing; unfold thread_exec, pthread_mutex_lock; by rewrite Hpc ]).
  - right. by apply (exec_LockReal fr).
  - right. apply (exec_own_get (LockOwnAdd fr) fr 0). by left.
  - destruct (exec_LockOwnAdd fr Hpc) as [[? ?]|?]; [left; by exists fr|by right].
  - right. apply (exec_own_rel fr 0). by left.
  - right. by apply (exec_UnlockReal m).
  - right. apply (exec_own_get (UnlockOwnDel m) (mk_frame 0 0 None 0) m). by right.
  - right. by apply (exec_UnlockOwnDel m).
  - right. apply (exec_own_rel (mk_frame 0 0 None 0) m). by right.
Qed.

End Exec.

(** ** Calls, and threads that start and exit *)

Lemma call_sim s a i th p m :
  shim_rep s a -> sy_threads s !! i = Some th -> th_pc th = App ->
  p = LockEnter m \/ (p = UnlockReal m /\ mutexes (sy_mem s) !! m = Some i) ->
  exists a', shim_rep (sys_call i p s) a' /\ (a' = a \/ own_step a a').
Proof.
  intros (g & tm & Hinv) Hi Hpc Hp. assert (live th) as Hlive by (unfold live; by rewrite Hpc).
  destruct (si_thread _ _ _ _ Hinv i th Hi Hlive) as (k & info & b & _ & _ & _ & _ & Hb & Hwait & Hf & _).
  pose proof (shim_inv_exec s a g tm i th p (sy_mem s) b g (ow_table a) (ow_lock a) Hinv Hi Hlive) as Hx.
  eexists. split.
  - exists g, tm. unfold sys_call. rewrite Hi. apply Hx; try done.
    + by destruct Hp as [->|[-> _]].
    + by rewrite insert_id.
    + eapply wait_ok_same; [exact Hwait|..]; rewrite Hpc; by destruct Hp as [->|[-> _]].
    + intros fr Hfr. by destruct Hp as [->|[-> _]].
    + apply (si_seg _ _ _ _ Hinv).
    + apply (si_own _ _ _ _ Hinv).
    + apply (si_lock _ _ _ _ Hinv).
  - pose proof (abs_thread s a g tm i th Hinv Hi) as Habs. rewrite Hpc in Habs.
    rewrite (si_held _ _ _ _ Hinv) in *. destruct Hp as [->|[-> Hm]]; cbn.
    + left. rewrite list_insert_id by done. by destruct a.
    + right. rewrite (owners_eta a) at 1. by apply own_unlocking.
Qed.

Lemma start_sim s a w garbage id fsbase stackbase th mm :
  shim_rep s a -> wbufs (sy_mem s) !! w = None -> length garbage = DDB_MAX_NWAIT -> 0 < id ->
  fsbase <> 0 -> Forall (fun th => live th -> th_id th <> id) (sy_threads s) ->
  ddb_thread_start w garbage id fsbase stackbase (sy_mem s) = Done (th, mm) ->
  shim_rep (mk_sys mm (sy_threads s ++ [th]))
    (mk_owners (ow_table a) (ow_lock a) (ow_held a) (ow_threads a ++ [(id, Quiet)])).
Proof.
  intros (g & tm & Hinv) Hw Hgarb Hid Hfs Hfresh Hrun.
  pose proof (si_seg _ _ _ _ Hinv) as Hseg.
  set (info := mk_info true id fsbase stackbase (Some w)) in *.
  destruct (add_entry_spec _ _ _ info (si_inf _ _ _ _ Hinv)) as (k & [Hk _] & Hadd); [by apply Z.eqb_neq|].
  set (mm1 := (sy_mem s) <| wbufs := <[w := new_wbuf garbage]> (wbufs (sy_mem s)) |>).
  assert (exists t', th = mk_thread id (Some (Z.of_nat k)) w App /\
    mm = mm1 <| ddb_shared := Some (g <| sg_threads := t' |>) |> /\
    table_rep LDB_MAX_NTHREAD t' (<[k := info]> tm)) as (t' & -> & -> & Ht').
  { unfold ddb_thread_start in Hrun. rewrite (bind_done_eq (gets ddb_shared) _ _ (Some g) (sy_mem s)) in Hrun
      by (unfold gets; by rewrite Hseg).
    rewrite (bind_done_eq (modify _) _ _ tt mm1) in Hrun by done.
    change (tidx <- get_tidx;; _) with (add_entry info) in Hrun.
    destruct (decide (k < LDB_MAX_NTHREAD)%nat) as [_|Hfull].
    - destruct Hadd as (t' & Hadd & Ht'). exists t'.
      rewrite (bind_done_eq _ _ _ (Z.of_nat k) (mm1 <| ddb_shared := Some (g <| sg_threads := t' |>) |>)) in Hrun
        by (apply on_seg_run with g; [done|unfold on_infos, zoom; by rewrite Hadd]).
      unfold ret in Hrun. by simplify_eq.
    - exfalso. unfold bind in Hrun. erewrite on_seg_abort in Hrun; [done|done|].
      unfold on_infos, zoom. by rewrite Hadd. }
  exists (g <| sg_threads := t' |>), (<[k := info]> tm). destruct Hinv as [_ Hown Hlock Hheld Habs Hinf Hth Hdis Hsl].
  assert (forall i q, (sy_threads s ++ [mk_thread id (Some (Z.of_nat k)) w App]) !! i = Some q -> live q ->
    (sy_threads s !! i = Some q /\ th_id q <> id /\ th_wbuf q <> w) \/
    (i = length (sy_threads s) /\ q = mk_thread id (Some (Z.of_nat k)) w App)) as Hcase.
  { intros i q Hi Hq. apply lookup_app_Some in Hi as [Hi|[? Hi]].
    - left. split; [done|]. split; [by eapply (proj1 (Forall_lookup _ _) Hfresh)|].
      destruct (Hth i q Hi Hq) as (? & ? & b & _ & _ & _ & _ & Hb & _). congruence.
    - right. apply list_lookup_singleton_Some in Hi as [? <-]. split; [lia|done]. }
  constructor; cbn [sy_mem sy_threads ow_table ow_lock ow_held ow_threads]; try done.
  - rewrite Habs, fmap_app. done.
  - intros i q Hi Hq. destruct (Hcase i q Hi Hq) as [(Hi' & _ & Hne)|[-> ->]].
    + destruct (Hth i q Hi' Hq) as (k' & info' & b & ? & ? & ? & ? & Hb & ? & ? & ?).
      exists k', info', b. cbn. rewrite !lookup_insert_ne by congruence. by split_and!.
    + exists k, info, (new_wbuf garbage). cbn. rewrite !lookup_insert_eq. split_and!; try done.
      constructor; [|done]. unfold wait_map. cbn. rewrite <- Hgarb. apply table_rep_empty.
  - intros i j qi qj Hi Hj Hne Li Lj.
    destruct (Hcase _ _ Hi Li) as [(Hi' & ? & ?)|[-> ->]], (Hcase _ _ Hj Lj) as [(Hj' & ? & ?)|[-> ->]];
      first [done | by apply (Hdis i j) | cbn; auto].
  - intros k' info' Hk'. destruct (decide (k = k')) as [<-|Hne].
    + eexists (length (sy_threads s)), _. by rewrite lookup_app_r, Nat.sub_diag by lia.
    + rewrite lookup_insert_ne in Hk' by done. destruct (Hsl k' info' Hk') as (i & q & Hi & ? & ?).
      exists i, q. by rewrite (lookup_app_l_Some _ _ _ _ Hi).
Qed.

Lemma stop_sim s a i th tidx mm :
  shim_rep s a -> sy_threads s !! i = Some th -> th_pc th = App -> th_tls th = Some tidx ->
  ddb_thread_stop tidx (th_wbuf th) (sy_mem s) = Done (tt, mm) ->
  shim_rep (mk_sys mm (<[i := th <| th_pc := Exited |>]> (sy_threads s))) a.
Proof.
  intros (g & tm & Hinv) Hi Hpc Htls Hrun. assert (live th) as Hlive by (unfold live; by rewrite Hpc).
  pose proof (si_seg _ _ _ _ Hinv) as Hseg. pose proof (abs_thread s a g tm i th Hinv Hi) as Hai.
  destruct (si_thread _ _ _ _ Hinv i th Hi Hlive) as (k & info & b & Hk & Hinfo & _ & _ & Hb & _).
  assert (tidx = Z.of_nat k) as -> by congruence.
  destruct (put_slot_spec _ _ _ k info (si_inf _ _ _ _ Hinv) Hinfo) as (t' & Hput & Ht').
  assert (mm = (sy_mem s) <| ddb_shared := Some (g <| sg_threads := t' |>) |>
                 <| wbufs := delete (th_wbuf th) (wbufs (sy_mem s)) |>) as ->.
  { unfold ddb_thread_stop in Hrun.
    rewrite (bind_done_eq _ _ _ tt ((sy_mem s) <| ddb_shared := Some (g <| sg_threads := t' |>) |>)) in Hrun.
    - unfold modify in Hrun. by simplify_eq.
    - apply on_seg_run with g; [done|]. unfold on_infos, zoom.
      erewrite bind_done_eq by (eapply read_entry_slot; [apply (si_inf _ _ _ _ Hinv)|exact Hinfo]).
      unfold put_tidx. erewrite write_put by (apply (si_inf _ _ _ _ Hinv) || exact Hinfo). by rewrite Hput. }
  exists (g <| sg_threads := t' |>), (delete k tm).
  destruct Hinv as [_ Hown Hlock Hheld Habs Hinf Hth Hdis Hsl].
  assert (forall j q, <[i := th <| th_pc := Exited |>]> (sy_threads s) !! j = Some q -> live q ->
    j <> i /\ sy_threads s !! j = Some q) as Hcase.
  { intros j q Hj Hq. apply list_lookup_insert_Some in Hj as [(_ & <- & _)|[? ?]]; [by destruct Hq|auto]. }
  constructor; cbn [sy_mem sy_threads]; try done.
  - rewrite Habs, list_fmap_insert. symmetry. apply list_insert_id.
    rewrite <- Habs, Hai, Hpc. done.
  - intros j q Hj Hq. destruct (Hcase j q Hj Hq) as [Hne Hj'].
    destruct (Hth j q Hj' Hq) as (k' & info' & b' & Hk' & Hi' & Hid' & ? & ? & ? & ? & ?).
    destruct (Hdis i j th q Hi Hj' ltac:(done) Hlive Hq) as [Hid Hw].
    assert (k <> k').
    { intros <-. destruct (Hth i th Hi Hlive) as (k2 & info2 & _ & Hk2 & Hi2 & Hid2 & _).
      assert (k2 = k) as -> by (rewrite Hk in Hk2; injection Hk2; lia). congruence. }
    exists k', info', b'. cbn. rewrite !lookup_delete_ne by done. by split_and!.
  - intros j1 j2 q1 q2 H1 H2 Hne L1 L2.
    destruct (Hcase _ _ H1 L1), (Hcase _ _ H2 L2). by apply (Hdis j1 j2).
  - intros k' info' [Hne Hk']%lookup_delete_Some. destruct (Hsl k' info' Hk') as (j & q & Hj & Hq & Hqk).
    exists j, q. rewrite list_lookup_insert_ne; [done|]. intros ->. apply Hne.
    rewrite Hi in Hj. injection Hj as <-. rewrite Htls in Hqk. injection Hqk. lia.
Qed.

(** ** Reachable states *)

Lemma shim_init_rep garbage id fsbase rbp :
  length garbage = DDB_MAX_NWAIT -> 0 < id -> fsbase <> 0 ->
  shim_rep (shim_init garbage id fsbase rbp) (mk_owners ∅ 0 ∅ [(id, Quiet)]).
Proof.
  intros Hg Hid Hfs. set (info := mk_info true id fsbase rbp (Some 0%nat)).
  eexists _, {[0%nat := info]}. constructor;
    cbn [shim_init ddbInit sy_mem sy_threads ow_table ow_lock ow_held ow_threads]; try done.
  - change DDB_MAX_NLOCK with (length (replicate DDB_MAX_NLOCK (slot_zero : ddb_lowner_entry))) at 1.
    apply table_rep_empty.
  - pose proof (table_rep_empty (replicate LDB_MAX_NTHREAD (slot_zero : ddb_thread_info))) as Hrep.
    assert (free_slot (∅ : gmap nat ddb_thread_info) 0) as Hfree by (split; [done|lia]).
    apply (fill_slot _ _ _ _ info Hrep Hfree); [|by apply Z.eqb_neq].
    rewrite length_replicate. unfold LDB_MAX_NTHREAD. lia.
  - intros i th Hi _. apply list_lookup_singleton_Some in Hi as [_ <-].
    exists 0%nat, info, (new_wbuf garbage). cbn. rewrite !lookup_singleton_eq. split_and!; try done.
    constructor; [|done]. unfold wait_map. cbn. rewrite <- Hg. apply table_rep_empty.
  - intros i j ti tj Hi Hj. apply list_lookup_singleton_Some in Hi as [-> _].
    by apply list_lookup_singleton_Some in Hj as [-> _].
  - intros k info' Hk. apply lookup_singleton_Some in Hk as [<- _]. by eexists 0%nat, _.
Qed.
