(* ===== verification/ShimProps.v ===== *)
(** * What the debugger reads

    The wait entries and lock owners in the shared segment against the real state
    of the process, in any reachable state. *)

From stdpp Require Import base list numbers tactics gmap relations.
From S2P Require Import Prelude RwLock SlotTable Shim ShimOwners ShimRefine.

Local Open Scope Z_scope.

(** ** Reachable states *)

Lemma exec_exited i s th :
  sy_threads s !! i = Some th -> th_pc th = Exited -> sys_exec 0 i s = Done s.
Proof.
  intros Hi Hpc. unfold sys_exec. rewrite Hi. unfold thread_exec, pthread_mutex_lock.
  rewrite Hpc. unfold ret. rewrite list_insert_id.
  - by destruct s.
  - rewrite Hi. f_equal. destruct th; cbn in *. by subst.
Qed.

Lemma step_sim s a s' :
  shim_rep s a -> own_inv a -> shim_step s s' -> exists a', shim_rep s' a' /\ (a' = a \/ own_step a a').
Proof.
  intros Hrep Hown Hs.
  destruct Hs as [s i th m Hi Hpc|s i th m Hi Hpc Hm|s i s' Hs'|s w garbage id fs sb th mm|s i th tidx mm].
  - eapply call_sim; eauto.
  - eapply call_sim; eauto.
  - destruct (sy_threads s !! i) as [th|] eqn:Hi.
    + destruct (decide (live th)) as [Hlive|Hex].
      * destruct Hrep as (g & tm & Hinv).
        destruct (exec_sim s a g tm i th Hinv Hi Hlive Hown) as [(fr & _ & _ & Hab)|(s2 & a' & Hs2 & Hrep & Ha)];
          [congruence|]. assert (s2 = s') as -> by congruence. eauto.
      * assert (th_pc th = Exited) as Hpc by (destruct (th_pc th) eqn:E; try done; exfalso; apply Hex; unfold live; by rewrite E).
        rewrite (exec_exited i s th Hi Hpc) in Hs'. simplify_eq. eauto.
    + unfold sys_exec in Hs'. rewrite Hi in Hs'. simplify_eq. eauto.
  - eexists. split; [by eapply start_sim|]. right. rewrite (owners_eta a) at 1. constructor.
  - exists a. split; [|by left]. by eapply stop_sim.
Qed.

Definition shim_reachable (s : sys) : Prop :=
  exists garbage id fsbase rbp, length garbage = DDB_MAX_NWAIT /\ 0 < id /\ fsbase <> 0 /\
    rtc shim_step (shim_init garbage id fsbase rbp) s.

Lemma shim_reachable_inv s : shim_reachable s -> exists a, shim_rep s a /\ own_inv a.
Proof.
  intros (garbage & id & fs & rbp & Hg & Hid & Hfs & Hs).
  pose proof (shim_init_rep garbage id fs rbp Hg Hid Hfs) as Hrep.
  pose proof (own_inv_init id) as Hown. revert Hrep Hown.
  generalize (mk_owners ∅ 0 ∅ [(id, Quiet)]).
  induction Hs as [s|s1 s2 s3 H12 _ IH]; intros a Hrep Hown; [eauto|].
  destruct (step_sim _ _ _ Hrep Hown H12) as (a' & Hrep' & Ha). apply (IH a' Hrep').
  destruct Ha as [->|Ha]; [done|by eapply own_inv_step].
Qed.

(** ** What is in the segment *)

Definition shown_wait (s : sys) (t m : Z) : Prop :=
  exists g k info w b j e,
    ddb_shared (sy_mem s) = Some g /\ slot_at (sg_threads g) k = Some info /\ ti_id info = t /\
    ti_wbuf info = Some w /\ wbufs (sy_mem s) !! w = Some b /\
    slot_at (wb_table b) j = Some e /\ we_type e = DDB_WAIT_MUTEX /\ we_identifier e = m.

Definition owner_slot (s : sys) (k : nat) (m t : Z) : Prop :=
  exists g e, ddb_shared (sy_mem s) = Some g /\ slot_at (lw_table (sg_lowners g)) k = Some e /\
    lo_lid e = m /\ lo_owner_tid e = t.

(** ** What is going on *)

(** The mutex a thread has got but not recorded yet, *)
Definition acquiring (p : pc) : option Z :=
  match p with
  | LockDoneGet fr | LockDonePut fr | LockDoneRel fr | LockOwnGet fr | LockOwnAdd fr => Some (fr_mutex fr)
  | _ => None
  end.

(** and the one it has released but not removed yet. *)
Definition removing (p : pc) : option Z :=
  match p with UnlockOwnGet m | UnlockOwnDel m => Some m | _ => None end.

(** Thread [i] is accountable for [m]. *)
Definition accountable (s : sys) (i : nat) (th : thread) (m : Z) : Prop :=
  sy_threads s !! i = Some th /\
  (removing (th_pc th) = Some m \/ (mutexes (sy_mem s) !! m = Some i /\ acquiring (th_pc th) <> Some m)).

(** A thread is inside the section of the owner table's lock. *)
Definition in_owner_section (p : pc) : bool := in_section (progress_of p).

Lemma in_window_acquiring p m : in_window m (progress_of p) = true <-> acquiring p = Some m.
Proof.
  destruct p; cbn; rewrite ?Z.eqb_eq; split; intros H; try done; first [by subst|by injection H].
Qed.

Lemma pending_removing p m : pending m (progress_of p) = true <-> removing p = Some m.
Proof.
  destruct p; cbn; rewrite ?Z.eqb_eq; split; intros H; try done; first [by subst|by injection H].
Qed.

Lemma accountable_credited s a i t m :
  shim_rep s a ->
  (exists th, accountable s i th m /\ th_id th = t) <-> credited (ow_held a) (ow_threads a) m i t.
Proof.
  intros (g & tm & Hinv). unfold credited, accountable.
  rewrite (si_abs _ _ _ _ Hinv), <- (si_held _ _ _ _ Hinv). setoid_rewrite list_lookup_fmap.
  split.
  - intros (th & [Hi Hth] & <-). exists (progress_of (th_pc th)). rewrite Hi. split; [done|].
    rewrite pending_removing. destruct Hth as [?|[? Hacq]]; [by left|right]. split; [done|].
    apply not_true_iff_false. by rewrite in_window_acquiring.
  - intros (p & Hi & Hp). destruct (sy_threads s !! i) as [th|] eqn:E; [|done]. cbn in Hi.
    injection Hi as <- <-. exists th. split; [|done]. split; [done|].
    rewrite pending_removing in Hp. destruct Hp as [?|[? Hacq]]; [by left|right]. split; [done|].
    apply not_true_iff_false in Hacq. by rewrite in_window_acquiring in Hacq.
Qed.

Lemma owner_slot_table s a k m t :
  shim_rep s a ->
  owner_slot s k m t <-> exists e, ow_table a !! k = Some e /\ lo_lid e = m /\ lo_owner_tid e = t.
Proof.
  intros (g & tm & Hinv). unfold owner_slot. split.
  - intros (g' & e & Hg & Hk & ? & ?). rewrite (si_seg _ _ _ _ Hinv) in Hg. injection Hg as <-.
    exists e. by rewrite (tr_map _ _ _ (si_own _ _ _ _ Hinv)).
  - intros (e & Hk & ? & ?). exists g, e. rewrite (tr_map _ _ _ (si_own _ _ _ _ Hinv)) in Hk.
    by rewrite (si_seg _ _ _ _ Hinv).
Qed.

Lemma wait_map_lookup p j e :
  wait_map p !! j = Some e -> exists m, waiting p = Some m /\ j = 0%nat /\ e = mk_wait true DDB_WAIT_MUTEX m.
Proof.
  unfold wait_map. destruct (waiting p) as [m|]; [|by rewrite lookup_empty].
  intros [<- <-]%lookup_singleton_Some. by exists m.
Qed.

Lemma shown_wait_iff s a t m :
  shim_rep s a ->
  shown_wait s t m <->
  exists i th, sy_threads s !! i = Some th /\ live th /\ th_id th = t /\ waiting (th_pc th) = Some m.
Proof.
  intros (g & tm & Hinv). unfold shown_wait. split.
  - intros (g' & k & info & w & b & j & e & Hg & Hk & <- & Hw & Hb & Hj & _ & <-).
    rewrite (si_seg _ _ _ _ Hinv) in Hg. injection Hg as <-.
    rewrite <- (tr_map _ _ _ (si_inf _ _ _ _ Hinv)) in Hk.
    destruct (si_slots _ _ _ _ Hinv k info Hk) as (i & th & Hi & Hlive & Htls).
    destruct (si_thread _ _ _ _ Hinv i th Hi Hlive) as (k' & info' & b' & Htls' & Hk' & Hid & Hw' & Hb' & [Ht _] & _).
    assert (k' = k) as -> by (rewrite Htls in Htls'; injection Htls'; lia).
    assert (info' = info) as -> by congruence. assert (b' = b) as -> by congruence.
    rewrite <- (tr_map _ _ _ Ht) in Hj. apply wait_map_lookup in Hj as (m & Hm & _ & ->).
    exists i, th. by rewrite Hid.
  - intros (i & th & Hi & Hlive & <- & Hm).
    destruct (si_thread _ _ _ _ Hinv i th Hi Hlive) as (k & info & b & _ & Hk & Hid & Hw & Hb & [Ht _] & _).
    exists g, k, info, (th_wbuf th), b, 0%nat, (mk_wait true DDB_WAIT_MUTEX m).
    rewrite <- (tr_map _ _ _ (si_inf _ _ _ _ Hinv)), <- (tr_map _ _ _ Ht). unfold wait_map.
    rewrite Hm, lookup_singleton_eq. split_and!; try done. apply (si_seg _ _ _ _ Hinv).
Qed.

(** ** The records are right *)

Lemma section_unique s a i j thi thj :
  shim_rep s a -> own_inv a ->
  sy_threads s !! i = Some thi -> sy_threads s !! j = Some thj ->
  in_owner_section (th_pc thi) = true -> in_owner_section (th_pc thj) = true -> i = j.
Proof.
  intros (g & tm & Hinv) Hown Hi Hj Pi Pj. destruct (decide (i = j)) as [|Hne]; [done|]. exfalso.
  pose proof (oi_excl _ Hown) as He. rewrite (si_abs _ _ _ _ Hinv) in He.
  pose proof (count_two (fun tp => in_section tp.2) (view <$> sy_threads s) i j (view thi) (view thj)) as H2.
  rewrite !list_lookup_fmap, Hi, Hj in H2. specialize (H2 eq_refl eq_refl Hne Pi Pj). lia.
Qed.

(** ** Starting and stopping *)

(** The threads that have started and not stopped. *)
Definition live_count (s : sys) : nat := length (filter live (sy_threads s)).

Lemma NoDup_fmap_filter {A B} (f : A -> B) (P : A -> Prop) `{!forall x, Decision (P x)} (l : list A) :
  (forall i j x y, l !! i = Some x -> l !! j = Some y -> P x -> P y -> f x = f y -> i = j) -> NoDup (f <$> filter P l).
Proof.
  induction l as [|x l IH]; intros Hinj; [constructor|].
  assert (NoDup (f <$> filter P l)) as Hl.
  { apply IH. intros i j y z Hi Hj Py Pz E. specialize (Hinj (S i) (S j) y z Hi Hj Py Pz E). congruence. }
  rewrite filter_cons. destruct (decide (P x)) as [Px|]; [|done]. cbn. constructor; [|done].
  intros (y & E & [Py [j Hj]%list_elem_of_lookup_1]%list_elem_of_filter)%list_elem_of_fmap.
  by specialize (Hinj 0%nat (S j) x y eq_refl Hj Px Py E).
Qed.

(** Each of them has a slot of the thread table. *)
Lemma live_count_size s a g tm : shim_inv s a g tm -> live_count s = size tm.
Proof.
  intros Hinv. set (slot th := Z.to_nat (default 0 (th_tls th))).
  assert (NoDup (slot <$> filter live (sy_threads s))) as Hnd.
  { apply NoDup_fmap_filter. intros i j x y Hi Hj Lx Ly E. destruct (decide (i = j)) as [|Hne]; [done|exfalso].
    destruct (si_thread _ _ _ _ Hinv i x Hi Lx) as (k & info & b & Hk & Hinfo & Hid & _).
    destruct (si_thread _ _ _ _ Hinv j y Hj Ly) as (k' & info' & b' & Hk' & Hinfo' & Hid' & _).
    unfold slot in E. rewrite Hk, Hk' in E. cbn in E. rewrite !Nat2Z.id in E. subst k'.
    destruct (si_distinct _ _ _ _ Hinv i j x y Hi Hj Hne Lx Ly) as [Hd _]. congruence. }
  assert (list_to_set (slot <$> filter live (sy_threads s)) =@{gset nat} dom tm) as Hdom.
  { apply set_eq. intros k. rewrite elem_of_list_to_set, elem_of_dom, list_elem_of_fmap. split.
    - intros (th & -> & [Hl [i Hi]%list_elem_of_lookup_1]%list_elem_of_filter).
      destruct (si_thread _ _ _ _ Hinv i th Hi Hl) as (k & info & b & Hk & Hinfo & _).
      unfold slot. rewrite Hk. cbn. rewrite Nat2Z.id. by eexists.
    - intros [info Hk]. destruct (si_slots _ _ _ _ Hinv k info Hk) as (i & th & Hi & Hl & Ht).
      exists th. split; [unfold slot; by rewrite Ht; cbn; rewrite Nat2Z.id|].
      apply list_elem_of_filter. split; [done|by eapply list_elem_of_lookup_2]. }
  unfold live_count. rewrite <- (length_fmap slot), <- (size_list_to_set (C := gset nat)) by done.
  by rewrite Hdom, size_dom.
Qed.

(** A thread starts when a slot is left; else it writes behind the table. *)
Lemma thread_start_run s a w garbage id fsbase stackbase : shim_rep s a -> fsbase <> 0 ->
  if decide (live_count s < LDB_MAX_NTHREAD)%nat
  then exists th mm, ddb_thread_start w garbage id fsbase stackbase (sy_mem s) = Done (th, mm)
  else ddb_thread_start w garbage id fsbase stackbase (sy_mem s) = Abort.
Proof.
  intros (g & tm & Hinv) Hfs. rewrite (live_count_size _ _ _ _ Hinv). pose proof (si_seg _ _ _ _ Hinv) as Hseg.
  set (info := mk_info true id fsbase stackbase (Some w)) in *.
  destruct (add_entry_spec _ _ _ info (si_inf _ _ _ _ Hinv)) as (k & Hk & Hadd); [by apply Z.eqb_neq|].
  pose proof (free_slot_room _ _ _ _ (si_inf _ _ _ _ Hinv) Hk) as Hroom.
  set (mm1 := (sy_mem s) <| wbufs := <[w := new_wbuf garbage]> (wbufs (sy_mem s)) |>).
  assert (forall o, on_seg (on_infos (add_entry info)) mm1 = o ->
    ddb_thread_start w garbage id fsbase stackbase (sy_mem s) =
    match o with Done (tidx, mm) => Done (mk_thread id (Some tidx) w App, mm) | Abort => Abort | OutOfFuel => OutOfFuel end) as Hstart.
  { intros o <-. unfold ddb_thread_start. rewrite (bind_done_eq (gets ddb_shared) _ _ (Some g) (sy_mem s))
      by (unfold gets; by rewrite Hseg).
    rewrite (bind_done_eq (modify _) _ _ tt mm1) by done.
    change (tidx <- get_tidx;; _) with (add_entry info). unfold bind, ret.
    by destruct (on_seg (on_infos (add_entry info)) mm1) as [[? ?]| |]. }
  destruct (decide (k < LDB_MAX_NTHREAD)%nat) as [Hlt|Hfull].
  - rewrite decide_True by (by apply Hroom). destruct Hadd as (t' & Hadd & _).
    erewrite Hstart by (apply on_seg_run with g; [done|unfold on_infos, zoom; by rewrite Hadd]). eauto.
  - rewrite decide_False by (by rewrite <- Hroom).
    erewrite Hstart by (apply on_seg_abort with g; [done|unfold on_infos, zoom; by rewrite Hadd]). done.
Qed.

Lemma thread_stop_run s a i th : shim_rep s a -> sy_threads s !! i = Some th -> live th ->
  exists tidx mm, th_tls th = Some tidx /\ ddb_thread_stop tidx (th_wbuf th) (sy_mem s) = Done (tt, mm).
Proof.
  intros (g & tm & Hinv) Hi Hlive. pose proof (si_seg _ _ _ _ Hinv) as Hseg.
  destruct (si_thread _ _ _ _ Hinv i th Hi Hlive) as (k & info & b & Hk & Hinfo & _).
  destruct (put_slot_spec _ _ _ k info (si_inf _ _ _ _ Hinv) Hinfo) as (t' & Hput & _).
  eexists (Z.of_nat k), _. split; [done|]. unfold ddb_thread_stop.
  rewrite (bind_done_eq _ _ _ tt ((sy_mem s) <| ddb_shared := Some (g <| sg_threads := t' |>) |>)); [reflexivity|].
  apply on_seg_run with g; [done|]. unfold on_infos, zoom.
  erewrite bind_done_eq by (eapply read_entry_slot; [apply (si_inf _ _ _ _ Hinv)|exact Hinfo]).
  unfold put_tidx. erewrite write_put by (apply (si_inf _ _ _ _ Hinv) || exact Hinfo). by rewrite Hput.
Qed.

(** C33 (invariant). In every state that threads can reach in any interleaving:
    every next step of a lock or unlock call is defined, except that a thread that
    records itself as an owner writes behind the table when 2048 owners are recorded;
    a further thread starts exactly when fewer than 128 threads are live, and writes
    behind the thread table otherwise, and every live thread can stop; at most one
    thread is inside the owner table's lock; the wait entries shown are exactly those
    of the threads between registering for a mutex and getting it; and a mutex has an
    owner entry exactly when some thread is accountable for it (it holds and has
    recorded the mutex, or has released but not removed it). *)
Theorem shim_records s :
  shim_reachable s ->
  (forall i, (exists s', sys_exec 0 i s = Done s') \/
     (sys_exec 0 i s = Abort /\ exists th fr, sy_threads s !! i = Some th /\ th_pc th = LockOwnAdd fr /\
        forall k, (k < DDB_MAX_NLOCK)%nat -> exists m t, owner_slot s k m t)) /\
  (forall w garbage id fsbase stackbase, fsbase <> 0 ->
     if decide (live_count s < LDB_MAX_NTHREAD)%nat
     then exists th mm, ddb_thread_start w garbage id fsbase stackbase (sy_mem s) = Done (th, mm)
     else ddb_thread_start w garbage id fsbase stackbase (sy_mem s) = Abort) /\
  (forall i th, sy_threads s !! i = Some th -> live th ->
     exists tidx mm, th_tls th = Some tidx /\ ddb_thread_stop tidx (th_wbuf th) (sy_mem s) = Done (tt, mm)) /\
  (forall i j thi thj, sy_threads s !! i = Some thi -> sy_threads s !! j = Some thj ->
     in_owner_section (th_pc thi) = true -> in_owner_section (th_pc thj) = true -> i = j) /\
  (forall t m, shown_wait s t m <->
     exists i th, sy_threads s !! i = Some th /\ live th /\ th_id th = t /\ waiting (th_pc th) = Some m) /\
  (forall m, (exists k t, owner_slot s k m t) <-> (exists i th, accountable s i th m)).
Proof.
  intros (a & Hrep & Hown)%shim_reachable_inv. split_and!.
  - intros i. destruct (sy_threads s !! i) as [th|] eqn:Hi.
    2: { left. exists s. unfold sys_exec. by rewrite Hi. }
    destruct (decide (live th)) as [Hlive|Hex].
    2: { left. exists s. eapply exec_exited; [done|].
         destruct (th_pc th) eqn:E; try done; exfalso; apply Hex; unfold live; by rewrite E. }
    destruct Hrep as (g & tm & Hinv).
    destruct (exec_sim s a g tm i th Hinv Hi Hlive Hown) as [(fr & Hpc & Hfull & Hab)|(s' & _ & Hs' & _)];
      [right|left; eauto].
    split; [done|]. exists th, fr. split; [done|]. split; [done|]. intros k Hk.
    destruct (table_rep_full _ _ _ k (si_own _ _ _ _ Hinv) Hfull Hk) as [e He].
    exists (lo_lid e), (lo_owner_tid e). eapply owner_slot_table; [by exists g, tm|]. by exists e.
  - intros w garbage id fsbase stackbase. by eapply thread_start_run.
  - intros i th. by eapply thread_stop_run.
  - intros i j thi thj. by eapply section_unique.
  - intros t m. by eapply shown_wait_iff.
  - intros m. split.
    + intros (k & t & (e & Hk & He & _)%(owner_slot_table _ a)); [|done].
      assert (0 < recorded m (ow_table a)) as Hpos.
      { pose proof (recorded_delete m _ _ _ Hk) as Hd. rewrite He, Z.eqb_refl in Hd. cbn in Hd.
        unfold recorded in *. lia. }
      destruct (recorded_credited a m Hown Hpos) as (i & t' & Hcr).
      apply (accountable_credited s a i t' m Hrep) in Hcr as (th & ? & _). eauto.
    + intros (i & th & Hacc).
      assert (credited (ow_held a) (ow_threads a) m i (th_id th)) as Hcr.
      { apply (accountable_credited s a i (th_id th) m Hrep). eauto. }
      destruct (credited_recorded a m i _ Hown Hcr) as (k & e & Hk & He).
      exists k, (lo_owner_tid e). eapply owner_slot_table; [done|]. by exists e.
Qed.

(** ** The owners are right, if nobody overtakes *)

(** A thread records itself as the owner of a mutex that another one still has to
    remove its own record of. *)
Definition overtaking (s s' : sys) : Prop :=
  exists i th th' fr j thj, sy_threads s !! i = Some th /\ th_pc th = LockOwnAdd fr /\
    sy_threads s' !! i = Some th' /\ th_pc th' <> LockOwnAdd fr /\
    sy_threads s !! j = Some thj /\ removing (th_pc thj) = Some (fr_mutex fr).

Definition shim_calm (s s' : sys) : Prop := shim_step s s' /\ ~ overtaking s s'.

Lemma overtaking_abs s a s' a' :
  shim_rep s a -> shim_rep s' a' -> overtakes a a' -> overtaking s s'.
Proof.
  intros (g & tm & Hinv) (g' & tm' & Hinv') (i & t & m & Hi & Hi' & Hpos).
  rewrite (si_abs _ _ _ _ Hinv), list_lookup_fmap in Hi.
  rewrite (si_abs _ _ _ _ Hinv'), list_lookup_fmap in Hi'.
  destruct (sy_threads s !! i) as [th|] eqn:E; [|done].
  destruct (sy_threads s' !! i) as [th'|] eqn:E'; [|done]. cbn in Hi, Hi'.
  injection Hi as _ Hp. injection Hi' as _ Hp'.
  apply count_pos in Hpos as (j & tp & Hj & Hpend).
  rewrite (si_abs _ _ _ _ Hinv), list_lookup_fmap in Hj.
  destruct (sy_threads s !! j) as [thj|] eqn:Ej; [|done]. cbn in Hj. injection Hj as <-.
  apply pending_removing in Hpend.
  assert (exists fr, th_pc th = LockOwnAdd fr /\ fr_mutex fr = m) as (fr & Hpc & <-).
  { destruct (th_pc th); try done. cbn in Hp. injection Hp as <-. eauto. }
  exists i, th, th', fr, j, thj. split_and!; try done.
  intros Hpc'. by rewrite Hpc' in Hp'.
Qed.

Definition calm_reachable (s : sys) : Prop :=
  exists garbage id fsbase rbp, length garbage = DDB_MAX_NWAIT /\ 0 < id /\ fsbase <> 0 /\
    rtc shim_calm (shim_init garbage id fsbase rbp) s.

Lemma calm_reachable_exact s :
  calm_reachable s -> exists a, shim_rep s a /\ own_inv a /\ own_exact a.
Proof.
  intros (garbage & id & fs & rbp & Hg & Hid & Hfs & Hs).
  pose proof (shim_init_rep garbage id fs rbp Hg Hid Hfs) as Hrep.
  pose proof (own_inv_init id) as Hown. pose proof (own_exact_init id) as Hex. revert Hrep Hown Hex.
  generalize (mk_owners ∅ 0 ∅ [(id, Quiet)]).
  induction Hs as [s|s1 s2 s3 [H12 Hcalm] _ IH]; intros a Hrep Hown Hex; [eauto|].
  destruct (step_sim _ _ _ Hrep Hown H12) as (a' & Hrep' & Ha). apply (IH a' Hrep').
  - destruct Ha as [->|Ha]; [done|by eapply own_inv_step].
  - destruct Ha as [->|Ha]; [done|]. eapply own_exact_step; [exact Hown|done|]. split; [done|].
    intros Ho. apply Hcalm. by eapply overtaking_abs.
Qed.

(** C32 (safety). As long as no thread records itself as the owner of a mutex while
    another one has still to remove its record of it, the owner table is exact:
    it names a thread as the owner of a mutex exactly when that thread is
    accountable for it, and has one entry for each such mutex. *)
Theorem owner_table_exact s :
  calm_reachable s ->
  (forall m t, (exists k, owner_slot s k m t) <-> (exists i th, accountable s i th m /\ th_id th = t)) /\
  (forall m k k' t t', owner_slot s k m t -> owner_slot s k' m t' -> k = k' /\ t = t').
Proof.
  intros (a & Hrep & Hown & Hex)%calm_reachable_exact. split.
  - intros m t. pose proof (own_exact_owner a m t Hown Hex) as He.
    setoid_rewrite (owner_slot_table s a _ m t Hrep). rewrite He.
    split; intros (i & Hi); exists i; by apply (accountable_credited s a i t m Hrep).
  - intros m k k' t t' Hk Hk'.
    apply (owner_slot_table s a) in Hk as (e & Hk & He & <-); [|done].
    apply (owner_slot_table s a) in Hk' as (e' & Hk' & He' & <-); [|done].
    destruct (decide (k = k')) as [<-|Hne]; [by simplify_eq|]. exfalso.
    pose proof (recorded_two m _ _ _ _ _ Hk Hk' Hne He He'). pose proof (oe_single _ Hex m). lia.
Qed.

(** ** Runs *)

Inductive act :=
| ALock (i : nat) (m : Z)
| AUnlock (i : nat) (m : Z)
| AExec (i : nat)
| AStart (w : nat) (id : Z)
| AStop (i : nat).

Definition no_entry : ddb_wait_entry := mk_wait false 0 0.

(** One action, if it is one of the steps. *)
Definition act_run (x : act) (s : sys) : option sys :=
  match x with
  | ALock i m =>
      match sy_threads s !! i with
      | Some th => if th_pc th is App then Some (sys_call i (LockEnter m) s) else None
      | None => None
      end
  | AUnlock i m =>
      match sy_threads s !! i with
      | Some th =>
          if th_pc th is App then
            if bool_decide (mutexes (sy_mem s) !! m = Some i) then Some (sys_call i (UnlockReal m) s) else None
          else None
      | None => None
      end
  | AExec i => match sys_exec 0 i s with Done s' => Some s' | _ => None end
  | AStart w id =>
      if bool_decide (wbufs (sy_mem s) !! w = None) && (0 <? id)
         && forallb (fun th => negb (th_id th =? id)) (sy_threads s) then
        match ddb_thread_start w (replicate DDB_MAX_NWAIT no_entry) id 1 1 (sy_mem s) with
        | Done (th, mm) => Some (mk_sys mm (sy_threads s ++ [th]))
        | _ => None
        end
      else None
  | AStop i =>
      match i, sy_threads s !! i with
      | S _, Some th =>
          match th_pc th, th_tls th with
          | App, Some tidx =>
              match ddb_thread_stop tidx (th_wbuf th) (sy_mem s) with
              | Done (tt, mm) => Some (mk_sys mm (<[i := th <| th_pc := Exited |>]> (sy_threads s)))
              | _ => None
              end
          | _, _ => None
          end
      | _, _ => None
      end
  end.

Lemma act_run_step x s s' : act_run x s = Some s' -> shim_step s s'.
Proof.
  destruct x as [i m|i m|i|w id|i]; unfold act_run.
  - repeat case_match; try done. intros [= <-]. by eapply step_lock.
  - repeat case_match; try done. intros [= <-]. eapply step_unlock; [done|done|].
    by eapply bool_decide_eq_true_1.
  - case_match; try done. intros [= <-]. by eapply step_exec.
  - destruct (bool_decide _ && _ && _) eqn:E; [|done].
    destruct (ddb_thread_start w (replicate DDB_MAX_NWAIT no_entry) id 1 1 (sy_mem s)) as [[th mm]| |] eqn:Hst; try done.
    intros Heq. injection Heq as <-.
    apply andb_true_iff in E as [[Hw%bool_decide_eq_true_1 Hid]%andb_true_iff Hall].
    eapply (step_start s w (replicate DDB_MAX_NWAIT no_entry) id 1 1 th mm);
      [done|by rewrite length_replicate|lia|done| |done].
    apply Forall_lookup. intros j q Hj _. rewrite forallb_forall in Hall.
    specialize (Hall q (proj1 (list_elem_of_In _ _) (list_elem_of_lookup_2 _ _ _ Hj))). lia.
  - repeat case_match; try done. intros [= <-]. by eapply (step_stop s (S _)).
Qed.

Fixpoint run_acts (l : list act) (s : sys) : option sys :=
  match l with
  | [] => Some s
  | x :: l' => match act_run x s with Some s' => run_acts l' s' | None => None end
  end.

Lemma run_acts_steps l s s' : run_acts l s = Some s' -> rtc shim_step s s'.
Proof.
  revert s. induction l as [|x l IH]; intros s; cbn; [by intros [= <-]|].
  destruct (act_run x s) as [s1|] eqn:E; [|done]. intros H.
  eapply rtc_l; [by eapply act_run_step|by apply IH].
Qed.

(** A run in which no thread removes its record while another one records
    itself is calm if each action is; this checks it. *)
Definition removes_nothing (s : sys) : bool :=
  forallb (fun th => match removing (th_pc th) with None => true | Some _ => false end) (sy_threads s).

Fixpoint calm_acts (l : list act) (s : sys) : option sys :=
  match l with
  | [] => Some s
  | x :: l' =>
      match act_run x s with
      | Some s' =>
          if removes_nothing s || forallb (fun th => match th_pc th with LockOwnAdd _ => false | _ => true end) (sy_threads s)
          then calm_acts l' s' else None
      | None => None
      end
  end.

Lemma calm_acts_steps l s s' : calm_acts l s = Some s' -> rtc shim_calm s s'.
Proof.
  revert s. induction l as [|x l IH]; intros s; cbn; [by intros [= <-]|].
  destruct (act_run x s) as [s1|] eqn:E; [|done].
  destruct (removes_nothing s || _) eqn:C; [|done]. intros H.
  eapply rtc_l; [|by apply IH]. split; [by eapply act_run_step|].
  intros (i & th & th' & fr & j & thj & Hi & Hpc & _ & _ & Hj & Hr).
  unfold removes_nothing in C.
  apply orb_true_iff in C as [C|C]; rewrite forallb_forall in C.
  - specialize (C thj (proj1 (list_elem_of_In _ _) (list_elem_of_lookup_2 _ _ _ Hj))). by rewrite Hr in C.
  - specialize (C th (proj1 (list_elem_of_In _ _) (list_elem_of_lookup_2 _ _ _ Hi))). by rewrite Hpc in C.
Qed.

Definition demo_init : sys := shim_init (replicate DDB_MAX_NWAIT no_entry) 100 1 1.

Definition execs (i n : nat) : list act := replicate n (AExec i).

(** The main thread (100) starts a second one (101); it takes mutexes 7 and 8,
    gives 7 back, and is about to remove its record of 8, released already, when
    101 takes 8. *)
Definition mixup_acts : list act :=
  [AStart 1 101; ALock 0 7] ++ execs 0 11 ++ [ALock 0 8] ++ execs 0 11 ++
  [AUnlock 0 7] ++ execs 0 4 ++ [AUnlock 0 8; AExec 0; ALock 1 8] ++ execs 1 11 ++ execs 0 3.

(** The owners shown for a mutex. *)
Definition shown_owners (s : sys) (m : Z) : list Z :=
  match ddb_shared (sy_mem s) with
  | Some g =>
      let t := lw_table (sg_lowners g) in
      lo_owner_tid <$> filter (fun e => lo_valid e = true /\ lo_lid e = m)
                              (take (Z.to_nat (tb_max_n t)) (tb_entries t))
  | None => []
  end.

Lemma shown_owners_iff s m t : t ∈ shown_owners s m <-> exists k, owner_slot s k m t.
Proof.
  unfold shown_owners, owner_slot. destruct (ddb_shared (sy_mem s)) as [g|].
  2: { split; [by intros ?%not_elem_of_nil|]. by intros (k & g & e & ? & _). }
  split.
  - intros (e & -> & [[Hv Hm] He]%list_elem_of_filter)%list_elem_of_fmap.
    apply list_elem_of_lookup_1 in He as [k Hk]. apply lookup_take_Some in Hk as [Hk Hlt].
    exists k, g, e. split_and!; try done. apply slot_at_Some. split; [lia|]. split; [done|]. cbn. by rewrite Hv.
  - intros (k & g' & e & [= <-] & (Hlt & Hk & Hv)%slot_at_Some & Hm & <-).
    apply list_elem_of_fmap. exists e. split; [done|]. apply list_elem_of_filter. split.
    + split; [|done]. cbn in Hv. by apply negb_false_iff.
    + apply list_elem_of_lookup_2 with k. rewrite lookup_take_lt; [done|lia].
Qed.

Definition idle (th : thread) : bool := match th_pc th with App => true | _ => false end.

Lemma mixup_reachable l s : run_acts l demo_init = Some s -> shim_reachable s.
Proof.
  intros Hl. exists (replicate DDB_MAX_NWAIT no_entry), 100, 1, 1.
  split; [by rewrite length_replicate|]. split; [lia|]. split; [lia|]. by eapply run_acts_steps.
Qed.

Lemma demo_calm l s : calm_acts l demo_init = Some s -> calm_reachable s.
Proof.
  intros Hl. exists (replicate DDB_MAX_NWAIT no_entry), 100, 1, 1.
  split; [by rewrite length_replicate|]. split; [lia|]. split; [lia|]. by eapply calm_acts_steps.
Qed.

(** Without that restriction the owner shown can be wrong for good:
    [pthread_mutex_unlock] releases the mutex before it removes its record, and it
    removes the first record of the mutex it finds, which can be the next owner's.
    In a state where no thread is inside libddb, thread 101 holds mutex 8, and the
    table names thread 100 as its owner and not 101. *)
Theorem owner_mixup :
  exists s, shim_reachable s /\ forallb idle (sy_threads s) = true /\
    mutexes (sy_mem s) !! 8 = Some 1%nat /\ (exists th, sy_threads s !! 1%nat = Some th /\ th_id th = 101) /\
    (exists k, owner_slot s k 8 100) /\ ~ (exists k, owner_slot s k 8 101).
Proof.
  destruct (run_acts mixup_acts demo_init) as [s|] eqn:E; [|by vm_compute in E].
  exists s. split; [by eapply mixup_reachable|].
  rewrite <- !shown_owners_iff. vm_compute in E. injection E as <-.
  split_and!; try (vm_compute; reflexivity).
  - eexists. split; vm_compute; reflexivity.
  - vm_compute. by left.
  - vm_compute. intros H. by apply list_elem_of_singleton in H.
Qed.

(** ** Concrete runs *)

(** Thread 100 holds mutex 8; 101 has registered and waits for it. *)
Definition wait_acts : list act :=
  [AStart 1 101; ALock 0 8] ++ execs 0 11 ++ [ALock 1 8] ++ execs 1 5.

Definition run_to (l : list act) : sys :=
  match calm_acts l demo_init with Some s => s | None => demo_init end.

Lemma wait_reachable : shim_reachable (run_to wait_acts) /\ calm_reachable (run_to wait_acts).
Proof.
  split.
  - apply (mixup_reachable wait_acts). vm_compute. reflexivity.
  - apply (demo_calm wait_acts). vm_compute. reflexivity.
Qed.

Lemma shim_records_witness :
  shim_reachable (run_to wait_acts) /\ shown_wait (run_to wait_acts) 101 8.
Proof.
  destruct wait_reachable as [Hr _]. split; [exact Hr|].
  destruct (shim_records (run_to wait_acts) Hr) as (_ & _ & _ & _ & Hw & _). apply Hw.
  exists 1%nat. eexists. split; [vm_compute; reflexivity|]. split; [|split; vm_compute; reflexivity].
  unfold live. vm_compute. discriminate.
Defined.

Lemma owner_table_exact_witness :
  calm_reachable (run_to wait_acts) /\ exists k, owner_slot (run_to wait_acts) k 8 100.
Proof.
  destruct wait_reachable as [_ Hr]. split; [exact Hr|].
  destruct (owner_table_exact (run_to wait_acts) Hr) as [He _]. apply He.
  exists 0%nat. eexists. split; [split; [vm_compute; reflexivity|]|vm_compute; reflexivity].
  right. split; [vm_compute; reflexivity|]. vm_compute. discriminate.
Defined.

(** Three owners, the first of them removed and its slot used again. *)
Lemma slot_table_refines_witness :
  exists t, slot_exec_all [Take (mk_lowner true 7 100); Take (mk_lowner true 8 100); Give 0;
                           Take (mk_lowner true 9 101)] (mk_table 0 0 (replicate 3 slot_zero)) =
            Done ([0; 1; 0]%nat, t).
Proof.
  pose proof (slot_table_refines (replicate 3 (slot_zero : ddb_lowner_entry))
    [Take (mk_lowner true 7 100); Take (mk_lowner true 8 100); Give 0; Take (mk_lowner true 9 101)]) as H.
  cbn in H. destruct H as (t & Ht & _); [repeat split; vm_compute; eauto|]. exists t. exact Ht.
Defined.

(** A lock call that fails (35 is EDEADLK) records its caller as the owner of a
    mutex nobody holds. *)
Definition failed_lock_run : option sys :=
  match run_acts (ALock 0 8 :: execs 0 4) demo_init with
  | Some s => match sys_exec 35 0 s with Done s' => run_acts (execs 0 6) s' | _ => None end
  | None => None
  end.

Example failed_lock_recorded :
  match failed_lock_run with
  | Some s => mutexes (sy_mem s) !! 8 = None /\ forallb idle (sy_threads s) = true /\ shown_owners s 8 = [100]
  | None => False
  end.
Proof. vm_compute. repeat split. Qed.

(** A thread without a slot number crashes in its first call, also before
    [__ddbInit]: [pthread_mutex_lock] reads it before it looks at [ddb_shared]. *)
Example lock_before_init :
  sys_exec 0 0 (mk_sys (mk_mem None ∅ ∅) [mk_thread 100 None 0 (LockEnter 8)]) = Abort.
Proof. reflexivity. Qed.
