(* ===== verification/Serialization.v ===== *)
(** * How Redis commands travel in log entries (serialization.c, serialization_utils.c)

    Commands, imported keys, locked keys and timeouts of blocked commands are
    written into the data of a log entry, in buffers whose size is computed
    beforehand, and read back when the entry is applied.  A Redis string is its
    bytes; a C array of known length is a list; allocation always succeeds. *)

From stdpp Require Import base list numbers tactics.
From S2P Require Import Prelude Libc File Multibulk.

Local Open Scope Z_scope.

Definition COLON : Z := 58.

(** ** serialization_utils.c *)

Definition calcIntSerializedLen (val : Z) : Z :=
  if val <? 10 then 3
  else if val <? 100 then 4
  else if val <? 1000 then 5
  else if val <? 10000 then 6
  else if val <? 100000 then 7
  else if val <? 1000000 then 8
  else if val <? 10000000 then 9
  else 22.

Definition blen (s : list Z) : Z := Z.of_nat (length s).

(** The bytes of a string that may be NULL. *)
Definition string_bytes (str : option (list Z)) : list Z :=
  match str with Some s => s | None => [] end.

Definition calcSerializeStringSize (str : option (list Z)) : Z :=
  let len := blen (string_bytes str) in
  u64 (calcIntSerializedLen len + len + 1).

(** The loop over the digits: the value, and the number of bytes before the
    newline.  Bytes are compared with ['0'] and ['9'] only, so their sign does
    not matter. *)
Fixpoint decode_digits (tmp : Z) (buf : list Z) : option (Z * nat) :=
  match buf with
  | [] => None (* not reached: the size is checked before the next byte is read *)
  | c :: buf' =>
      if c =? LF then Some (tmp, 0%nat)
      else if (c <? 48) || (57 <? c) then None
      else match buf' with
           | [] => None
           | _ =>
               match decode_digits (u64 (tmp * 10 + (c - 48))) buf' with
               | Some (v, n) => Some (v, S n)
               | None => None
               end
           end
  end.

(** The value and the number of bytes consumed; [None] is the result -1.  The
    size passed by every caller is what is left of the buffer. *)
Definition decodeInteger (buf : list Z) (expect_prefix : Z) : option (Z * nat) :=
  match buf with
  | c :: buf' =>
      if (blen buf <? 3) || negb (c =? expect_prefix) then None else
      match decode_digits 0 buf' with
      | Some (v, n) => Some (v, (n + 2)%nat)
      | None => None
      end
  | [] => None
  end.

(** The bytes written; [None] is the result -1.  [snprintf] needs room for a
    terminating NUL. *)
Definition encodeInteger (prefix sz val : Z) : option (list Z) :=
  let text := prefix :: dec_unsigned (u64 val) ++ [LF] in
  if sz <=? blen text then None else Some text.

Definition decodeString (buf : list Z) : option (list Z * nat) :=
  match decodeInteger buf DOLLAR with
  | None => None
  | Some (len, n) =>
      let rest := drop n buf in
      if blen rest <=? len then None
      else Some (take (Z.to_nat len) rest, (n + Z.to_nat len + 1)%nat)
  end.

Definition encodeString (sz : Z) (str : option (list Z)) : option (list Z) :=
  let e := string_bytes str in
  match encodeInteger DOLLAR sz (blen e) with
  | None => None
  | Some text => if u64 (sz - blen text) <=? blen e then None else Some (text ++ e ++ [LF])
  end.

(** ** Command arrays *)

(** [commands]: the arguments of each command. *)
Record RaftRedisCommandArray := mk_array {
  ra_client_id : Z;
  ra_asking : bool;
  ra_size : Z;
  ra_cmd_flags : Z;
  ra_commands : list (list (list Z));
  ra_acl : option (list Z)
}.
#[export] Instance eta_array : Eta RaftRedisCommandArray := fun a =>
  mk_array (ra_client_id a) (ra_asking a) (ra_size a) (ra_cmd_flags a) (ra_commands a) (ra_acl a).
#[export] Instance set_ra_client_id : Setter ra_client_id. Proof. solve_setter. Defined.
#[export] Instance set_ra_asking : Setter ra_asking. Proof. solve_setter. Defined.
#[export] Instance set_ra_size : Setter ra_size. Proof. solve_setter. Defined.
#[export] Instance set_ra_cmd_flags : Setter ra_cmd_flags. Proof. solve_setter. Defined.
#[export] Instance set_ra_commands : Setter ra_commands. Proof. solve_setter. Defined.
#[export] Instance set_ra_acl : Setter ra_acl. Proof. solve_setter. Defined.

Definition ra_len (a : RaftRedisCommandArray) : Z := Z.of_nat (length (ra_commands a)).

Definition MULTIBULK_ARRAY_COUNT : Z := 2.
Definition METADATA_ELEM_COUNT : Z := 3.

(** The new command has no arguments yet. *)
Definition RaftRedisCommandArrayExtend (target : RaftRedisCommandArray) : RaftRedisCommandArray :=
  let target := if ra_size target =? ra_len target then target <| ra_size := ra_size target + 1 |>
                else target in
  target <| ra_commands := ra_commands target ++ [[]] |>.

(** Target and source afterwards. *)
Definition RaftRedisCommandArrayMove (target source : RaftRedisCommandArray)
  : RaftRedisCommandArray * RaftRedisCommandArray :=
  let target := if ra_size target <? ra_len target + ra_len source
                then target <| ra_size := ra_len target + ra_len source |> else target in
  let target := target <| ra_commands := ra_commands target ++ ra_commands source |> in
  let '(target, source') :=
    match ra_acl source with
    | Some acl => (target <| ra_acl := Some acl |>, source <| ra_acl := None |>)
    | None => (target, source)
    end in
  (target <| ra_asking := ra_asking target || ra_asking source |>
          <| ra_client_id := ra_client_id source |>
          <| ra_cmd_flags := Z.lor (ra_cmd_flags target) (ra_cmd_flags source) |>,
   source' <| ra_commands := [] |>).

(** The pointer to the freed acl stays behind; it is not followed again. *)
Definition RaftRedisCommandArrayFree (a : RaftRedisCommandArray) : RaftRedisCommandArray :=
  a <| ra_commands := [] |> <| ra_size := 0 |> <| ra_asking := false |>.

Definition sum (l : list Z) : Z := foldr Z.add 0 l.

Definition calcSerializedSize (cmd : list (list Z)) : Z :=
  u64 (calcIntSerializedLen (Z.of_nat (length cmd) + 1) +
       sum ((fun arg => calcIntSerializedLen (blen arg) + blen arg + 1) <$> cmd)).

(** An entry's data as it is written: the bytes so far and the size left. *)
Record ser := mk_ser { se_out : list Z; se_sz : Z }.

Definition put (text : list Z) : M ser unit :=
  modify (fun s => mk_ser (se_out s ++ text) (u64 (se_sz s - blen text))).

(** [n = encodeInteger(..); RedisModule_Assert(n != -1); p += n; sz -= n;] *)
Definition put_integer (prefix val : Z) : M ser unit :=
  s <- get ;;
  match encodeInteger prefix (se_sz s) val with
  | Some text => put text
  | None => abort
  end.

(** [encodeString] with the assertion, *)
Definition put_string (str : option (list Z)) : M ser unit :=
  s <- get ;;
  match encodeString (se_sz s) str with
  | Some text => put text
  | None => abort
  end.

(** and without: -1 moves back by one byte. *)
Definition put_acl (str : option (list Z)) : M ser unit :=
  s <- get ;;
  match encodeString (se_sz s) str with
  | Some text => put text
  | None => modify (fun s => mk_ser (removelast (se_out s)) (u64 (se_sz s + 1)))
  end.

Definition put_arg (arg : list Z) : M ser unit :=
  s <- get ;;
  c_assert (blen arg <? se_sz s) ;;
  put_integer DOLLAR (blen arg) ;;
  put (arg ++ [LF]).

Definition put_command (cmd : list (list Z)) : M ser unit :=
  put_integer STAR (Z.of_nat (length cmd)) ;;
  for_each cmd put_arg.

(** The data of a new entry of [sz] zeroed bytes ([raft_entry_new]) after [m] has
    written to it.  More bytes than [sz] would be written behind it. *)
Definition entry_data (sz : Z) (m : M ser unit) : outcome (list Z) :=
  match m (mk_ser [] sz) with
  | Done (_, s) =>
      if blen (se_out s) <=? sz
      then Done (se_out s ++ replicate (Z.to_nat (sz - blen (se_out s))) 0)
      else Abort
  | Abort => Abort
  | OutOfFuel => OutOfFuel
  end.

Definition RaftRedisCommandArraySerialize (source : RaftRedisCommandArray) : outcome (list Z) :=
  let sz := u64 (calcIntSerializedLen MULTIBULK_ARRAY_COUNT
    + calcIntSerializedLen METADATA_ELEM_COUNT
    + calcIntSerializedLen (Z.b2z (ra_asking source))
    + calcIntSerializedLen (ra_cmd_flags source)
    + calcIntSerializedLen (ra_len source)
    + sum (calcSerializedSize <$> ra_commands source)
    + calcSerializeStringSize (ra_acl source)) in
  entry_data sz (
    put_integer STAR MULTIBULK_ARRAY_COUNT ;;
    put_integer STAR METADATA_ELEM_COUNT ;;
    put_integer COLON (Z.b2z (ra_asking source)) ;;
    put_integer COLON (ra_cmd_flags source) ;;
    put_acl (ra_acl source) ;;
    put_integer STAR (ra_len source) ;;
    for_each (ra_commands source) put_command).

(** The arguments of a command and the bytes consumed. *)
Fixpoint decode_args (k : nat) (buf : list Z) : option (list (list Z) * nat) :=
  match k with
  | O => Some ([], 0%nat)
  | S k' =>
      match decodeInteger buf DOLLAR with
      | None => None
      | Some (len, n) =>
          let rest := drop n buf in
          if blen rest <=? len then None else
          let arg := take (Z.to_nat len) rest in
          let used := (n + Z.to_nat len + 1)%nat in
          match decode_args k' (drop used buf) with
          | Some (args, m) => Some (arg :: args, (used + m)%nat)
          | None => None
          end
      end
  end.

(** [None] is the result 0.  [argc] is an [int]. *)
Definition RaftRedisCommandDeserialize (buf : list Z) : option (list (list Z) * nat) :=
  match decodeInteger buf STAR with
  | None => None
  | Some (len, n) =>
      if len =? 0 then None else
      match decode_args (Z.to_nat (to_int len)) (drop n buf) with
      | Some (args, m) => Some (args, (n + m)%nat)
      | None => None
      end
  end.

Fixpoint decode_commands (k : nat) (buf : list Z) : option (list (list (list Z))) :=
  match k with
  | O => Some []
  | S k' =>
      match RaftRedisCommandDeserialize buf with
      | None => None
      | Some (cmd, n) =>
          match decode_commands k' (drop n buf) with
          | Some cmds => Some (cmd :: cmds)
          | None => None
          end
      end
  end.

(** [if ((n = decodeInteger(..)) < 0) return RR_ERROR; p += n; buf_size -= n;] *)
Definition with_integer {S} (buf : list Z) (prefix : Z) (k : Z -> list Z -> M S Z) : M S Z :=
  match decodeInteger buf prefix with
  | Some (v, n) => k v (drop n buf)
  | None => ret RR_ERROR
  end.

Definition with_string {S} (buf : list Z) (k : list Z -> list Z -> M S Z) : M S Z :=
  match decodeString buf with
  | Some (v, n) => k v (drop n buf)
  | None => ret RR_ERROR
  end.

Definition RaftRedisCommandArrayDeserialize (buf : list Z) : M RaftRedisCommandArray Z :=
  t <- get ;;
  when (negb (ra_len t =? 0)) (modify RaftRedisCommandArrayFree) ;;
  with_integer buf STAR (fun val buf =>
  if negb (val =? MULTIBULK_ARRAY_COUNT) then ret RR_ERROR else
  with_integer buf STAR (fun val buf =>
  if negb (val =? METADATA_ELEM_COUNT) then ret RR_ERROR else
  with_integer buf COLON (fun asking buf =>
  modify (fun t => t <| ra_asking := negb (asking =? 0) |>) ;;
  with_integer buf COLON (fun cmd_flags buf =>
  modify (fun t => t <| ra_cmd_flags := cmd_flags |>) ;;
  with_string buf (fun acl buf =>
  modify (fun t => t <| ra_acl := match acl with [] => None | _ => Some acl end |>) ;;
  with_integer buf STAR (fun commands_num buf =>
  if commands_num =? 0 then ret RR_ERROR else
  modify (fun t => t <| ra_size := to_int commands_num |>) ;;
  match decode_commands (Z.to_nat commands_num) buf with
  | Some cmds => modify (fun t => t <| ra_commands := cmds |>) ;; ret RR_OK
  | None => modify RaftRedisCommandArrayFree ;; ret RR_ERROR
  end)))))).

(** ** Timeouts of blocked commands *)

Definition RaftRedisSerializeTimeout (idx : Z) (error : bool) : outcome (list Z) :=
  let err_val := if error then 1 else 0 in
  let sz := calcIntSerializedLen (u64 idx) + calcIntSerializedLen err_val + 1 in
  entry_data sz (put_integer STAR idx ;; put_integer STAR err_val).

(** The state is [( *idx, *error)]; [idx] is a [long]. *)
Definition RaftRedisDeserializeTimeout (buf : list Z) : M (Z * bool) Z :=
  with_integer buf STAR (fun tmp buf =>
  modify (fun s => (to_long tmp, snd s)) ;;
  with_integer buf STAR (fun tmp buf =>
  modify (fun s => (fst s, tmp =? 1)) ;;
  c_assert (blen buf =? 1) ;;
  ret RR_OK)).

(** ** Imported keys *)

(** [key_names] and [key_serialized] up to the entries that are still NULL. *)
Record ImportKeys := mk_import {
  ik_term : Z;
  ik_migration_session_key : Z;
  ik_num_keys : Z;
  ik_key_names : list (list Z);
  ik_key_serialized : list (list Z)
}.
#[export] Instance eta_import : Eta ImportKeys := fun k =>
  mk_import (ik_term k) (ik_migration_session_key k) (ik_num_keys k) (ik_key_names k) (ik_key_serialized k).
#[export] Instance set_ik_term : Setter ik_term. Proof. solve_setter. Defined.
#[export] Instance set_ik_session : Setter ik_migration_session_key. Proof. solve_setter. Defined.
#[export] Instance set_ik_num_keys : Setter ik_num_keys. Proof. solve_setter. Defined.
#[export] Instance set_ik_key_names : Setter ik_key_names. Proof. solve_setter. Defined.
#[export] Instance set_ik_key_serialized : Setter ik_key_serialized. Proof. solve_setter. Defined.

Definition FreeImportKeys (k : ImportKeys) : ImportKeys :=
  if ik_num_keys k =? 0 then k else k <| ik_key_names := [] |> <| ik_key_serialized := [] |>.

Fixpoint import_keys_loop (n : nat) (buf : list Z) : M ImportKeys Z :=
  match n with
  | O => ret RR_OK
  | S n' =>
      with_string buf (fun name buf =>
      modify (fun k => k <| ik_key_names := ik_key_names k ++ [name] |>) ;;
      with_string buf (fun data buf =>
      modify (fun k => k <| ik_key_serialized := ik_key_serialized k ++ [data] |>) ;;
      import_keys_loop n' buf))
  end.

Definition RaftRedisDeserializeImport (buf : list Z) : M ImportKeys Z :=
  modify FreeImportKeys ;;
  with_integer buf STAR (fun term buf =>
  if term =? 0 then ret RR_ERROR else
  modify (fun k => k <| ik_term := to_long term |>) ;;
  with_integer buf STAR (fun session_key buf =>
  modify (fun k => k <| ik_migration_session_key := session_key |>) ;;
  with_integer buf STAR (fun num_keys buf =>
  if num_keys =? 0 then ret RR_ERROR else
  modify (fun k => k <| ik_num_keys := num_keys |> <| ik_key_names := [] |> <| ik_key_serialized := [] |>) ;;
  import_keys_loop (Z.to_nat num_keys) buf))).

Definition put_pair (ks : list Z * list Z) : M ser unit :=
  put_string (Some (fst ks)) ;; put_string (Some (snd ks)).

(** The keys with their serialized values, [num_keys] of them. *)
Definition import_pairs (k : ImportKeys) : list (list Z * list Z) :=
  zip (ik_key_names k) (ik_key_serialized k).

Definition RaftRedisSerializeImport (k : ImportKeys) : outcome (list Z) :=
  let sz := u64 (calcIntSerializedLen (u64 (ik_term k))
    + calcIntSerializedLen (ik_migration_session_key k)
    + calcIntSerializedLen (ik_num_keys k)
    + sum ((fun ks => calcSerializeStringSize (Some (fst ks)) + calcSerializeStringSize (Some (snd ks)))
             <$> import_pairs k)) in
  entry_data sz (
    put_integer STAR (ik_term k) ;;
    put_integer STAR (ik_migration_session_key k) ;;
    put_integer STAR (ik_num_keys k) ;;
    for_each (import_pairs k) put_pair).

(** ** Locked keys *)

(** Redis' dictionary, which the module only calls: [RedisModule_DictSet] refuses
    a key that is there, and an iterator started at ["^"] visits every key. *)
Class RedisModuleDict (D : Type) := {
  RedisModule_CreateDict : D;
  RedisModule_DictSet : D -> list Z -> option D;
  dict_iterate : D -> list (list Z)
}.

Class DictLaws (D : Type) `{RedisModuleDict D} : Prop := {
  dict_create : dict_iterate RedisModule_CreateDict = [];
  dict_set_old d k : RedisModule_DictSet d k = None <-> k ∈ dict_iterate d;
  dict_set_new d k d' : RedisModule_DictSet d k = Some d' -> dict_iterate d' ≡ₚ k :: dict_iterate d
}.

Section LockKeys.
Context {D : Type} `{RedisModuleDict D}.

(** The dictionary, [total_key_size] and [num_keys] after the first loop. *)
Fixpoint collect_keys (argv : list (list Z)) (keys : D) (total_key_size num_keys : Z) : D * Z * Z :=
  match argv with
  | [] => (keys, total_key_size, num_keys)
  | k :: argv' =>
      match RedisModule_DictSet keys k with
      | Some keys' => collect_keys argv' keys' (u64 (total_key_size + blen k + 1)) (num_keys + 1)
      | None => collect_keys argv' keys total_key_size num_keys
      end
  end.

Definition RaftRedisLockKeysSerialize (argv : list (list Z)) : outcome (list Z) :=
  let '(keys, total_key_size, num_keys) := collect_keys argv RedisModule_CreateDict 0 0 in
  let data_len := u64 (calcIntSerializedLen num_keys + total_key_size) in
  entry_data data_len (
    match encodeInteger STAR total_key_size num_keys with
    | Some text => put text
    | None => abort
    end ;;
    for_each (dict_iterate keys) (fun key =>
      c_assert (blen key + 1 <=? total_key_size) ;;
      put (key ++ [0])) ;;
    s <- get ;;
    c_assert (se_sz s =? 0)).

End LockKeys.

(** [strlen]; [None]: no NUL up to the end of the entry's data. *)
Fixpoint strlen (s : list Z) : option nat :=
  match s with
  | [] => None
  | c :: s' => if c =? 0 then Some 0%nat else match strlen s' with Some n => Some (S n) | None => None end
  end.

Fixpoint split_keys (n : nat) (buf : list Z) : outcome (list (list Z)) :=
  match n with
  | O => Done []
  | S n' =>
      match strlen buf with
      | None => Abort
      | Some len =>
          match split_keys n' (drop (S len) buf) with
          | Done keys => Done (take len buf :: keys)
          | Abort => Abort
          | OutOfFuel => OutOfFuel
          end
      end
  end.

(** The keys, [None] for NULL.  The test [num_keys == 0] is of the pointer. *)
Definition RaftRedisLockKeysDeserialize (buf : list Z) : outcome (option (list (list Z))) :=
  match decodeInteger buf STAR with
  | None => Done None
  | Some (num_keys, n) =>
      match split_keys (Z.to_nat num_keys) (drop n buf) with
      | Done keys => Done (Some keys)
      | Abort => Abort
      | OutOfFuel => OutOfFuel
      end
  end.
