(* ===== verification/SerializationSpec.v ===== *)
(** * Serialized entries are read back

    The computed sizes suffice for what is written, and what is written is read
    back; where they do not fit exactly, or are the wrong ones, the code stops at
    an assertion. *)

From stdpp Require Import base list numbers strings tactics.
From S2P Require Import Prelude Libc File Multibulk Serialization.

Local Open Scope Z_scope.

(** ** Integers *)

Definition int_text (prefix val : Z) : list Z := prefix :: dec_unsigned val ++ [LF].

Lemma blen_app a b : blen (a ++ b) = blen a + blen b.
Proof. unfold blen. rewrite length_app. lia. Qed.

Lemma blen_nonneg a : 0 <= blen a.
Proof. unfold blen. lia. Qed.

Lemma blen_int prefix val : blen (int_text prefix val) = blen (dec_unsigned val) + 2.
Proof. unfold int_text, blen. rewrite length_cons, length_app. cbn [length]. lia. Qed.

Lemma horner_lt ds a : Forall is_digit ds -> 0 <= a -> horner a ds < (a + 1) * 10 ^ Z.of_nat (length ds).
Proof.
  intros Hd. revert a. induction Hd as [|c ds Hc Hd IH]; intros a Ha; cbn [horner foldl length].
  - cbn. lia.
  - unfold is_digit in Hc. specialize (IH (a * 10 + (c - 48)) ltac:(lia)). unfold horner in IH.
    rewrite Nat2Z.inj_succ, Z.pow_succ_r by lia. nia.
Qed.

(** How many digits [%lu] prints. *)
Lemma dec_unsigned_digits n k :
  0 <= n -> (k = 0%nat \/ 10 ^ Z.of_nat k <= n) -> n < 10 ^ Z.of_nat (S k) -> blen (dec_unsigned n) = Z.of_nat (S k).
Proof.
  intros Hn Hlow Hhigh. unfold dec_unsigned, blen.
  destruct (dec_digits_spec (S (Z.to_nat (Z.log2 n))) n []) as (ds & -> & Hd & Hne & _ & Hlen & Hv).
  { destruct (decide (n = 0)) as [->|]; [done|].
    rewrite Nat2Z.inj_succ, Z2Nat.id by apply Z.log2_nonneg.
    split; [lia|]. apply Z.log2_spec. lia. }
  rewrite app_nil_r. specialize (Hlen k Hhigh). specialize (Hne ltac:(lia)).
  assert (0 < length ds)%nat by (destruct ds; [done|cbn; lia]).
  destruct Hlow as [->|Hlow]; [lia|].
  destruct (decide (length ds <= k)%nat) as [Hle|]; [|lia]. exfalso.
  pose proof (horner_lt ds 0 Hd ltac:(lia)) as Hlt. rewrite Hv in Hlt.
  pose proof (Z.pow_le_mono_r 10 (Z.of_nat (length ds)) (Z.of_nat k) ltac:(lia) ltac:(lia)). lia.
Qed.

(** The length computed is exact below ten million, and enough above. *)
Lemma calc_len val :
  0 <= val < 2 ^ 64 ->
  blen (int_text STAR val) <= calcIntSerializedLen val /\
  (val < 10000000 -> blen (int_text STAR val) = calcIntSerializedLen val) /\
  (10000000 <= val -> calcIntSerializedLen val = 22) /\
  3 <= calcIntSerializedLen val <= 22.
Proof.
  intros Hv. rewrite blen_int. pose proof (dec_unsigned_digits val) as Hd.
  pose proof (dec_unsigned_length val Hv) as Hl. unfold blen in *.
  unfold calcIntSerializedLen.
  repeat match goal with |- context [?a <? ?b] => destruct (Z.ltb_spec a b) end; try lia.
  - specialize (Hd 0%nat). lia.
  - specialize (Hd 1%nat). lia.
  - specialize (Hd 2%nat). lia.
  - specialize (Hd 3%nat). lia.
  - specialize (Hd 4%nat). lia.
  - specialize (Hd 5%nat). lia.
  - specialize (Hd 6%nat). lia.
Qed.

Lemma blen_int_prefix p q val : blen (int_text p val) = blen (int_text q val).
Proof. by rewrite !blen_int. Qed.

Lemma encodeInteger_text prefix sz val :
  0 <= val < 2 ^ 64 ->
  encodeInteger prefix sz val = if sz <=? blen (int_text prefix val) then None else Some (int_text prefix val).
Proof. intros Hv. unfold encodeInteger. by rewrite (u64_id val) by done. Qed.

Lemma decode_digits_spec ds rest t :
  Forall is_digit ds -> decode_digits (u64 t) (ds ++ LF :: rest) = Some (u64 (horner t ds), length ds).
Proof.
  intros Hd. revert t. induction Hd as [|c ds Hc Hd IH]; intros t; cbn [app decode_digits].
  - done.
  - unfold is_digit in Hc. unfold LF in *. destruct (Z.eqb_spec c 10); [lia|].
    destruct (Z.ltb_spec c 48); [lia|]. destruct (Z.ltb_spec 57 c); [lia|]. cbn [orb].
    destruct (ds ++ 10 :: rest) eqn:E; [by destruct ds|].
    assert (u64 (u64 t * 10 + (c - 48)) = u64 (t * 10 + (c - 48))) as ->
      by (unfold u64; by rewrite Zplus_mod, Zmult_mod, Zmod_mod, <- Zmult_mod, <- Zplus_mod).
    by rewrite IH.
Qed.

(** An integer is read back, whatever follows it. *)
Lemma decode_encode prefix val rest :
  0 <= val < 2 ^ 64 ->
  decodeInteger (int_text prefix val ++ rest) prefix = Some (val, length (int_text prefix val)).
Proof.
  intros Hv. destruct (dec_unsigned_spec val) as (ds & E & Hd & Hne & _ & _ & Hval & _); [lia|].
  assert (1 <= blen (dec_unsigned val)).
  { rewrite E. unfold blen. destruct ds; [done|]. cbn [length]. lia. }
  unfold decodeInteger. change (int_text prefix val ++ rest) with (prefix :: (dec_unsigned val ++ [LF]) ++ rest).
  cbv iota. assert ((blen (prefix :: (dec_unsigned val ++ [LF]) ++ rest) <? 3) = false) as ->.
  { change (prefix :: (dec_unsigned val ++ [LF]) ++ rest) with (int_text prefix val ++ rest).
    rewrite blen_app, blen_int. pose proof (blen_nonneg rest). lia. }
  rewrite Z.eqb_refl. cbn [negb orb]. rewrite <- app_assoc. cbn [app]. rewrite E.
  change 0 with (u64 0) at 1. rewrite decode_digits_spec, Hval, u64_id by done.
  unfold int_text. rewrite E. do 2 f_equal. rewrite length_cons, length_app. cbn. lia.
Qed.

(** ** Strings *)

Definition str_text (str : option (list Z)) : list Z :=
  int_text DOLLAR (blen (string_bytes str)) ++ string_bytes str ++ [LF].

Lemma blen_str str : blen (str_text str) = blen (int_text DOLLAR (blen (string_bytes str))) + blen (string_bytes str) + 1.
Proof. unfold str_text. rewrite !blen_app. change (blen [LF]) with 1. lia. Qed.

Lemma encodeString_text sz str :
  blen (str_text str) <= sz < 2 ^ 64 -> encodeString sz str = Some (str_text str).
Proof.
  intros Hsz. rewrite blen_str in Hsz. pose proof (blen_nonneg (string_bytes str)).
  pose proof (blen_nonneg (int_text DOLLAR (blen (string_bytes str)))).
  unfold encodeString. rewrite encodeInteger_text by lia.
  destruct (Z.leb_spec sz (blen (int_text DOLLAR (blen (string_bytes str))))); [lia|].
  rewrite u64_id by lia.
  destruct (Z.leb_spec (sz - blen (int_text DOLLAR (blen (string_bytes str)))) (blen (string_bytes str))); [lia|done].
Qed.

Lemma decode_str s rest :
  blen s < 2 ^ 64 ->
  decodeString (str_text (Some s) ++ rest) = Some (s, length (str_text (Some s))).
Proof.
  intros Hs. pose proof (blen_nonneg s). unfold decodeString, str_text. cbn [string_bytes].
  rewrite <- app_assoc, decode_encode by done. rewrite drop_app_length.
  assert ((blen ((s ++ [LF]) ++ rest) <=? blen s) = false) as ->.
  { rewrite !blen_app. change (blen [LF]) with 1. pose proof (blen_nonneg rest). lia. }
  unfold blen. rewrite Nat2Z.id, <- app_assoc, take_app_length. do 2 f_equal.
  rewrite !length_app. cbn. lia.
Qed.

(** ** Writing

    [writes m t]: with room for [t] and one byte more, [m] writes [t]; [fits]:
    with just enough room. *)
Definition writes (m : M ser unit) (t : list Z) : Prop :=
  forall s, blen t < se_sz s < 2 ^ 64 -> m s = Done (tt, mk_ser (se_out s ++ t) (se_sz s - blen t)).

Definition fits (m : M ser unit) (t : list Z) : Prop :=
  forall s, blen t <= se_sz s < 2 ^ 64 -> m s = Done (tt, mk_ser (se_out s ++ t) (se_sz s - blen t)).

Lemma fits_writes m t : fits m t -> writes m t.
Proof. intros Hm s Hs. apply Hm. lia. Qed.

Lemma put_fits t : fits (put t) t.
Proof.
  intros s Hs. unfold put, modify. pose proof (blen_nonneg t). by rewrite u64_id by lia.
Qed.

Lemma writes_then m1 m2 t1 t2 :
  writes m1 t1 -> writes m2 t2 -> writes (bind m1 (fun _ => m2)) (t1 ++ t2).
Proof.
  intros H1 H2 s Hs. rewrite blen_app in *. pose proof (blen_nonneg t1). pose proof (blen_nonneg t2).
  rewrite (bind_done_eq _ _ _ _ _ (H1 s ltac:(lia))). rewrite H2 by (cbn; lia). cbn [se_out se_sz].
  rewrite <- app_assoc. do 3 f_equal. lia.
Qed.

Lemma fits_then m1 m2 t1 t2 :
  writes m1 t1 -> fits m2 t2 -> t2 <> [] -> fits (bind m1 (fun _ => m2)) (t1 ++ t2).
Proof.
  intros H1 H2 Hne s Hs. rewrite blen_app in *. pose proof (blen_nonneg t1).
  assert (1 <= blen t2) by (unfold blen; destruct t2; [done|cbn [length]; lia]).
  rewrite (bind_done_eq _ _ _ _ _ (H1 s ltac:(lia))). rewrite H2 by (cbn; lia). cbn [se_out se_sz].
  rewrite <- app_assoc. do 3 f_equal. lia.
Qed.

(** A loop whose last round needs no room beyond its text needs none either. *)
Lemma for_each_fits {A} (l : list A) f (text : A -> list Z) :
  (forall x, x ∈ l -> fits (f x) (text x) /\ text x <> []) -> fits (for_each l f) (concat (text <$> l)).
Proof.
  induction l as [|x l IH]; intros Hl; cbn [for_each fmap list_fmap concat].
  - intros s Hs. unfold ret. destruct s as [o z]. cbn in *. rewrite app_nil_r. do 3 f_equal. unfold blen. cbn. lia.
  - destruct (Hl x ltac:(left)) as [Hx _]. specialize (IH ltac:(intros; apply Hl; by right)).
    destruct l as [|y l].
    + cbn [for_each fmap list_fmap concat] in *. rewrite app_nil_r.
      intros s Hs. rewrite (bind_done_eq _ _ _ _ _ (Hx s Hs)). done.
    + apply fits_then; [by apply fits_writes|done|].
      destruct (Hl y ltac:(right; left)) as [_ Hy]. cbn. by destruct (text y).
Qed.

Lemma put_integer_writes prefix val : 0 <= val < 2 ^ 64 -> writes (put_integer prefix val) (int_text prefix val).
Proof.
  intros Hv s Hs. unfold put_integer. run_refl. rewrite encodeInteger_text by done.
  destruct (Z.leb_spec (se_sz s) (blen (int_text prefix val))); [lia|]. apply put_fits. lia.
Qed.

Lemma put_string_fits str : fits (put_string str) (str_text str).
Proof. intros s Hs. unfold put_string. run_refl. rewrite encodeString_text by done. by apply put_fits. Qed.

Lemma put_acl_fits str : fits (put_acl str) (str_text str).
Proof. intros s Hs. unfold put_acl. run_refl. rewrite encodeString_text by done. by apply put_fits. Qed.

Lemma put_arg_fits arg : fits (put_arg arg) (str_text (Some arg)).
Proof.
  intros s Hs. pose proof (blen_nonneg arg). pose proof (blen_str (Some arg)) as Hb. cbn [string_bytes] in Hb.
  pose proof (blen_nonneg (int_text DOLLAR (blen arg))).
  unfold put_arg. run_refl. assert ((blen arg <? se_sz s) = true) as -> by lia. run_refl.
  apply (fits_then _ _ (int_text DOLLAR (blen arg)) (arg ++ [LF])); try done.
  - apply put_integer_writes. lia.
  - apply put_fits.
  - by destruct arg.
Qed.

(** The data of an entry large enough, and the zeroes behind it. *)
Lemma entry_data_fits m t sz :
  fits m t -> blen t <= sz < 2 ^ 64 ->
  entry_data sz m = Done (t ++ replicate (Z.to_nat (sz - blen t)) 0).
Proof.
  intros Hm Hsz. unfold entry_data. rewrite Hm by done. cbn [se_out app].
  destruct (Z.leb_spec (blen t) sz); [done|lia].
Qed.

(** ** Command arrays *)

Definition cmd_text (cmd : list (list Z)) : list Z :=
  int_text STAR (Z.of_nat (length cmd)) ++ concat ((fun arg => str_text (Some arg)) <$> cmd).

Definition array_text (a : RaftRedisCommandArray) : list Z :=
  int_text STAR MULTIBULK_ARRAY_COUNT ++ int_text STAR METADATA_ELEM_COUNT ++
  int_text COLON (Z.b2z (ra_asking a)) ++ int_text COLON (ra_cmd_flags a) ++
  str_text (ra_acl a) ++ int_text STAR (ra_len a) ++ concat (cmd_text <$> ra_commands a).

(** The sizes before they wrap around. *)
Definition str_size (s : list Z) : Z := calcIntSerializedLen (blen s) + blen s + 1.
Definition cmd_size (cmd : list (list Z)) : Z :=
  calcIntSerializedLen (Z.of_nat (length cmd) + 1) + sum (str_size <$> cmd).
Definition array_size (a : RaftRedisCommandArray) : Z :=
  9 + calcIntSerializedLen (ra_cmd_flags a) + calcIntSerializedLen (ra_len a) +
  sum (cmd_size <$> ra_commands a) + str_size (string_bytes (ra_acl a)).

(** Commands have a name, an access list user is not empty, numbers fit their
    types and the whole a buffer. *)
Record array_ok (a : RaftRedisCommandArray) : Prop := {
  ao_flags : 0 <= ra_cmd_flags a < 2 ^ 64;
  ao_commands : ra_commands a <> [];
  ao_len : ra_len a < 2 ^ 31;
  ao_argv cmd : cmd ∈ ra_commands a -> cmd <> [] /\ Z.of_nat (length cmd) < 2 ^ 31;
  ao_acl : ra_acl a <> Some [];
  ao_size : array_size a < 2 ^ 64
}.

Lemma sum_nonneg {A} (f : A -> Z) l : (forall x, x ∈ l -> 0 <= f x) -> 0 <= sum (f <$> l).
Proof.
  induction l as [|x l IH]; intros Hf; cbn; [lia|].
  pose proof (Hf x ltac:(left)). specialize (IH ltac:(intros; apply Hf; by right)). unfold sum in IH. cbn in IH. lia.
Qed.

Lemma sum_le {A} (f g : A -> Z) l : (forall x, x ∈ l -> f x <= g x) -> sum (f <$> l) <= sum (g <$> l).
Proof.
  induction l as [|x l IH]; intros Hf; cbn; [lia|].
  pose proof (Hf x ltac:(left)). specialize (IH ltac:(intros; apply Hf; by right)). unfold sum in IH. cbn in IH. lia.
Qed.

Lemma sum_elem {A} (f : A -> Z) l x : (forall y, y ∈ l -> 0 <= f y) -> x ∈ l -> f x <= sum (f <$> l).
Proof.
  induction l as [|y l IH]; intros Hf Hx; [by apply not_elem_of_nil in Hx|]. cbn.
  pose proof (Hf y ltac:(left)). pose proof (sum_nonneg f l ltac:(intros; apply Hf; by right)) as Hs.
  unfold sum in Hs. cbn in Hs. apply elem_of_cons in Hx as [->|Hx]; [lia|].
  specialize (IH ltac:(intros; apply Hf; by right) Hx). unfold sum in IH. cbn in IH. lia.
Qed.

Lemma sum_ext {A} (f g : A -> Z) l : (forall x, x ∈ l -> f x = g x) -> sum (f <$> l) = sum (g <$> l).
Proof. intros Hf. apply Z.le_antisymm; apply sum_le; intros x Hx; rewrite (Hf x Hx); lia. Qed.

Lemma blen_concat {A} (f : A -> list Z) l : blen (concat (f <$> l)) = sum ((fun x => blen (f x)) <$> l).
Proof. induction l as [|x l IH]; cbn; [done|]. rewrite blen_app, IH. done. Qed.

Lemma calc_pos v : 3 <= calcIntSerializedLen v <= 22.
Proof.
  unfold calcIntSerializedLen.
  repeat match goal with |- context [?a <? ?b] => destruct (Z.ltb_spec a b) end; lia.
Qed.

Lemma calc_mono v w : v <= w -> calcIntSerializedLen v <= calcIntSerializedLen w.
Proof.
  intros. unfold calcIntSerializedLen.
  repeat match goal with |- context [?a <? ?b] => destruct (Z.ltb_spec a b) end; lia.
Qed.

Lemma str_size_pos s : 0 <= str_size s.
Proof. unfold str_size. pose proof (calc_pos (blen s)). pose proof (blen_nonneg s). lia. Qed.

Lemma cmd_size_pos cmd : 0 <= cmd_size cmd.
Proof.
  unfold cmd_size. pose proof (calc_pos (Z.of_nat (length cmd) + 1)).
  pose proof (sum_nonneg str_size cmd ltac:(intros; apply str_size_pos)). lia.
Qed.

Lemma blen_str_size str :
  str_size (string_bytes str) < 2 ^ 64 -> blen (str_text str) <= str_size (string_bytes str).
Proof.
  intros Hs. pose proof (blen_nonneg (string_bytes str)) as Hb.
  pose proof (calc_pos (blen (string_bytes str))). unfold str_size in *.
  rewrite blen_str. destruct (calc_len (blen (string_bytes str))) as (Hl & _); [lia|].
  rewrite (blen_int_prefix DOLLAR STAR). lia.
Qed.

Lemma blen_cmd_size cmd :
  Z.of_nat (length cmd) < 2 ^ 31 -> cmd_size cmd < 2 ^ 64 -> blen (cmd_text cmd) <= cmd_size cmd.
Proof.
  intros Hl Hs. unfold cmd_text, cmd_size in *. rewrite blen_app, blen_concat.
  destruct (calc_len (Z.of_nat (length cmd))) as (Hn & _); [lia|].
  pose proof (calc_mono (Z.of_nat (length cmd)) (Z.of_nat (length cmd) + 1) ltac:(lia)).
  pose proof (calc_pos (Z.of_nat (length cmd) + 1)).
  assert (sum ((fun arg => blen (str_text (Some arg))) <$> cmd) <= sum (str_size <$> cmd)); [|lia].
  apply sum_le. intros arg Harg. apply (blen_str_size (Some arg)). cbn.
  pose proof (sum_elem str_size cmd arg ltac:(intros; apply str_size_pos) Harg). lia.
Qed.

(** Parts of an array are no larger than the whole. *)
Lemma array_size_parts a :
  array_ok a ->
  0 <= sum (cmd_size <$> ra_commands a) /\ 0 <= str_size (string_bytes (ra_acl a)) /\
  str_size (string_bytes (ra_acl a)) < 2 ^ 64 /\
  forall cmd, cmd ∈ ra_commands a -> cmd_size cmd < 2 ^ 64.
Proof.
  intros Ha. pose proof (ao_size _ Ha) as Hs. unfold array_size in Hs.
  pose proof (calc_pos (ra_cmd_flags a)). pose proof (calc_pos (ra_len a)).
  pose proof (sum_nonneg cmd_size (ra_commands a) ltac:(intros; apply cmd_size_pos)).
  pose proof (str_size_pos (string_bytes (ra_acl a))).
  split; [done|]. split; [done|]. split; [lia|]. intros cmd Hcmd.
  pose proof (sum_elem cmd_size (ra_commands a) cmd ltac:(intros; apply cmd_size_pos) Hcmd). lia.
Qed.

Lemma blen_array a : array_ok a -> blen (array_text a) <= array_size a.
Proof.
  intros Ha. destruct (array_size_parts a Ha) as (_ & _ & Hacl & Hcmds). destruct Ha as [Hf Hne Hlen Hargv _ Hs].
  unfold array_text, array_size. rewrite !blen_app.
  assert (0 <= ra_len a) by (unfold ra_len; lia).
  assert (blen (int_text COLON (ra_cmd_flags a)) <= calcIntSerializedLen (ra_cmd_flags a)).
  { rewrite (blen_int_prefix COLON STAR). by apply calc_len. }
  assert (blen (int_text STAR (ra_len a)) <= calcIntSerializedLen (ra_len a)) by (apply calc_len; lia).
  pose proof (blen_str_size (ra_acl a) Hacl).
  assert (blen (int_text STAR MULTIBULK_ARRAY_COUNT) = 3) as -> by reflexivity.
  assert (blen (int_text STAR METADATA_ELEM_COUNT) = 3) as -> by reflexivity.
  assert (blen (int_text COLON (Z.b2z (ra_asking a))) = 3) as -> by (by destruct (ra_asking a)).
  rewrite blen_concat.
  assert (sum ((fun cmd => blen (cmd_text cmd)) <$> ra_commands a) <= sum (cmd_size <$> ra_commands a)); [|lia].
  apply sum_le. intros cmd Hcmd. apply blen_cmd_size; [by apply Hargv|by apply Hcmds].
Qed.

Lemma put_command_fits cmd :
  cmd <> [] -> Z.of_nat (length cmd) < 2 ^ 31 -> fits (put_command cmd) (cmd_text cmd).
Proof.
  intros Hne Hl. unfold put_command, cmd_text. apply fits_then.
  - apply put_integer_writes. lia.
  - apply (for_each_fits cmd put_arg (fun arg => str_text (Some arg))).
    intros arg _. split; [apply put_arg_fits|done].
  - by destruct cmd.
Qed.

(** The size the code computes is the one without wrap-around. *)
Lemma array_size_computed a :
  array_ok a ->
  u64 (calcIntSerializedLen MULTIBULK_ARRAY_COUNT + calcIntSerializedLen METADATA_ELEM_COUNT
    + calcIntSerializedLen (Z.b2z (ra_asking a)) + calcIntSerializedLen (ra_cmd_flags a)
    + calcIntSerializedLen (ra_len a) + sum (calcSerializedSize <$> ra_commands a)
    + calcSerializeStringSize (ra_acl a)) = array_size a.
Proof.
  intros Ha. destruct (array_size_parts a Ha) as (Hs0 & Ha0 & Hacl & Hcmds).
  assert (sum (calcSerializedSize <$> ra_commands a) = sum (cmd_size <$> ra_commands a)) as ->.
  { apply sum_ext. intros cmd Hcmd. unfold calcSerializedSize. pose proof (Hcmds cmd Hcmd).
    pose proof (cmd_size_pos cmd). apply u64_id. done. }
  assert (calcSerializeStringSize (ra_acl a) = str_size (string_bytes (ra_acl a))) as ->
    by (apply u64_id; done).
  assert (calcIntSerializedLen (Z.b2z (ra_asking a)) = 3) as -> by (by destruct (ra_asking a)).
  change (calcIntSerializedLen MULTIBULK_ARRAY_COUNT) with 3.
  change (calcIntSerializedLen METADATA_ELEM_COUNT) with 3.
  pose proof (ao_size _ Ha) as Hs. unfold array_size in *.
  pose proof (calc_pos (ra_cmd_flags a)). pose proof (calc_pos (ra_len a)).
  rewrite u64_id; lia.
Qed.

Lemma serialize_text a :
  array_ok a ->
  RaftRedisCommandArraySerialize a =
    Done (array_text a ++ replicate (Z.to_nat (array_size a - blen (array_text a))) 0).
Proof.
  intros Ha. pose proof (blen_array a Ha). pose proof (ao_size _ Ha).
  unfold RaftRedisCommandArraySerialize. rewrite (array_size_computed a Ha).
  apply entry_data_fits; [|lia]. destruct Ha as [Hf Hne Hlen Hargv _ _].
  assert (0 <= ra_len a) by (unfold ra_len; lia). unfold array_text.
  apply fits_then; [by apply put_integer_writes| |done].
  apply fits_then; [by apply put_integer_writes| |done].
  apply fits_then; [apply put_integer_writes; by destruct (ra_asking a)| |done].
  apply fits_then; [by apply put_integer_writes| |done].
  apply fits_then; [apply fits_writes, put_acl_fits| |done].
  apply fits_then; [apply put_integer_writes; lia| |].
  - apply for_each_fits. intros cmd Hcmd. destruct (Hargv cmd Hcmd). split; [by apply put_command_fits|done].
  - by destruct (ra_commands a).
Qed.

(** ** Reading arrays back *)

Lemma drop_text (t rest : list Z) : drop (length t) (t ++ rest) = rest.
Proof. apply drop_app_length. Qed.

(** An argument is read as [decodeString] reads it. *)
Lemma decode_args_S k buf :
  decode_args (S k) buf =
    match decodeString buf with
    | Some (arg, used) =>
        match decode_args k (drop used buf) with
        | Some (args, m) => Some (arg :: args, (used + m)%nat)
        | None => None
        end
    | None => None
    end.
Proof.
  cbn [decode_args]. unfold decodeString. destruct (decodeInteger buf DOLLAR) as [[len n]|]; [|done].
  by destruct (blen (drop n buf) <=? len).
Qed.

Lemma decode_args_text cmd rest :
  (forall arg, arg ∈ cmd -> blen arg < 2 ^ 64) ->
  decode_args (length cmd) (concat ((fun arg => str_text (Some arg)) <$> cmd) ++ rest) =
    Some (cmd, length (concat ((fun arg => str_text (Some arg)) <$> cmd))).
Proof.
  induction cmd as [|arg cmd IH]; intros Hargs; [done|].
  specialize (IH ltac:(intros; apply Hargs; by right)).
  cbn [length]. rewrite decode_args_S. cbn [fmap list_fmap concat]. rewrite <- app_assoc.
  rewrite decode_str by (apply Hargs; by left). rewrite drop_text, IH. do 2 f_equal. by rewrite length_app.
Qed.

Lemma decode_command_text cmd rest :
  cmd <> [] -> Z.of_nat (length cmd) < 2 ^ 31 -> (forall arg, arg ∈ cmd -> blen arg < 2 ^ 64) ->
  RaftRedisCommandDeserialize (cmd_text cmd ++ rest) = Some (cmd, length (cmd_text cmd)).
Proof.
  intros Hne Hl Hargs. unfold RaftRedisCommandDeserialize, cmd_text. rewrite <- app_assoc.
  rewrite decode_encode by lia. rewrite drop_text.
  destruct (Z.eqb_spec (Z.of_nat (length cmd)) 0) as [E|_]; [destruct cmd; [done|cbn in E; lia]|].
  assert (to_int (Z.of_nat (length cmd)) = Z.of_nat (length cmd)) as ->.
  { unfold to_int. rewrite Z.mod_small; lia. }
  rewrite Nat2Z.id, decode_args_text by done. do 2 f_equal. by rewrite length_app.
Qed.

Lemma decode_commands_text cmds rest :
  (forall cmd, cmd ∈ cmds -> cmd <> [] /\ Z.of_nat (length cmd) < 2 ^ 31 /\
     forall arg, arg ∈ cmd -> blen arg < 2 ^ 64) ->
  decode_commands (length cmds) (concat (cmd_text <$> cmds) ++ rest) = Some cmds.
Proof.
  induction cmds as [|cmd cmds IH]; intros Hc; [done|].
  destruct (Hc cmd ltac:(left)) as (? & ? & ?).
  cbn [fmap list_fmap concat length decode_commands]. rewrite <- app_assoc.
  rewrite decode_command_text by done. rewrite drop_text, IH; [done|]. intros. apply Hc. by right.
Qed.

Lemma with_integer_text {S} prefix val rest (k : Z -> list Z -> M S Z) :
  0 <= val < 2 ^ 64 -> with_integer (int_text prefix val ++ rest) prefix k = k val rest.
Proof. intros Hv. unfold with_integer. by rewrite decode_encode, drop_text. Qed.

Lemma with_string_text {S} str rest (k : list Z -> list Z -> M S Z) :
  blen str < 2 ^ 64 -> with_string (str_text (Some str) ++ rest) k = k str rest.
Proof. intros Hs. unfold with_string. by rewrite decode_str, drop_text. Qed.

Lemma arg_small a cmd arg : array_ok a -> cmd ∈ ra_commands a -> arg ∈ cmd -> blen arg < 2 ^ 64.
Proof.
  intros Ha Hcmd Harg. destruct (array_size_parts a Ha) as (_ & _ & _ & Hc). specialize (Hc cmd Hcmd).
  unfold cmd_size in Hc. pose proof (calc_pos (Z.of_nat (length cmd) + 1)).
  pose proof (sum_elem str_size cmd arg ltac:(intros; apply str_size_pos) Harg) as He.
  unfold str_size at 1 in He. pose proof (calc_pos (blen arg)). lia.
Qed.

Lemma array_decodes a t :
  array_ok a ->
  exists data, RaftRedisCommandArraySerialize a = Done data /\
    Z.of_nat (length data) = array_size a /\
    RaftRedisCommandArrayDeserialize data t =
      Done (RR_OK, a <| ra_client_id := ra_client_id t |> <| ra_size := ra_len a |>).
Proof.
  intros Ha. pose proof (serialize_text a Ha) as Hs. pose proof (blen_array a Ha) as Hb.
  pose proof (blen_nonneg (array_text a)). eexists. split; [exact Hs|]. split.
  { rewrite length_app, length_replicate. unfold blen in *. lia. }
  destruct (array_size_parts a Ha) as (_ & _ & Hacl & _). pose proof (arg_small a) as Harg.
  pose proof Ha as [Hf Hne Hlen Hargv Hnacl _].
  assert (0 < ra_len a) by (unfold ra_len; destruct (ra_commands a); [done|cbn [length]; lia]).
  assert (blen (string_bytes (ra_acl a)) < 2 ^ 64).
  { unfold str_size in Hacl. pose proof (calc_pos (blen (string_bytes (ra_acl a)))). lia. }
  assert (ra_acl a = match string_bytes (ra_acl a) with [] => None | _ => Some (string_bytes (ra_acl a)) end) as Hacl'.
  { destruct (ra_acl a) as [[|]|]; done. }
  assert (str_text (ra_acl a) = str_text (Some (string_bytes (ra_acl a)))) as Hst by done.
  unfold RaftRedisCommandArrayDeserialize, array_text. rewrite Hst, <- !app_assoc. run_refl.
  set (t1 := if negb (ra_len t =? 0) then RaftRedisCommandArrayFree t else t).
  rewrite (bind_done_eq (when _ _) _ t tt t1) by (subst t1; by destruct (negb (ra_len t =? 0))).
  rewrite with_integer_text by done. cbn [negb Z.eqb MULTIBULK_ARRAY_COUNT Pos.eqb].
  rewrite with_integer_text by done. cbn [negb Z.eqb METADATA_ELEM_COUNT Pos.eqb].
  rewrite with_integer_text by (by destruct (ra_asking a)). run_refl.
  rewrite with_integer_text by done. run_refl.
  rewrite with_string_text by done. run_refl.
  rewrite with_integer_text by lia. destruct (Z.eqb_spec (ra_len a) 0); [lia|]. run_refl.
  assert (Z.to_nat (ra_len a) = length (ra_commands a)) as -> by (unfold ra_len; lia).
  rewrite decode_commands_text.
  - rewrite <- Hacl'. assert (to_int (ra_len a) = ra_len a) as ->.
    { unfold to_int. rewrite Z.mod_small; lia. }
    run_refl. unfold ret. assert (negb (Z.b2z (ra_asking a) =? 0) = ra_asking a) as -> by (by destruct (ra_asking a)).
    do 3 f_equal. assert (ra_client_id t1 = ra_client_id t) as Hid by (subst t1; by destruct (negb (ra_len t =? 0))).
    clearbody t1. destruct a, t1. cbn in *. by subst.
  - intros cmd Hcmd. destruct (Hargv cmd Hcmd). split; [done|]. split; [done|]. intros arg. by apply (Harg cmd).
Qed.

(** C36 (roundtrip). A command array written into a log entry is read back from
    it: serialization passes all its assertions within the size it computed, and
    deserialization of the entry's data, whatever the target held, gives the same
    flags, access list user and commands (the session is the entry's and the
    allocated size is exact). *)
Theorem command_array_roundtrip a t :
  array_ok a ->
  exists data, RaftRedisCommandArraySerialize a = Done data /\
    Z.of_nat (length data) = array_size a /\
    RaftRedisCommandArrayDeserialize data t =
      Done (RR_OK, a <| ra_client_id := ra_client_id t |> <| ra_size := ra_len a |>).
Proof. exact (array_decodes a t). Qed.

(** ** Imported keys *)

Record import_ok (k : ImportKeys) : Prop := {
  io_term : 0 < ik_term k < 2 ^ 63;
  io_session : 0 <= ik_migration_session_key k < 2 ^ 64;
  io_num : ik_num_keys k = Z.of_nat (length (ik_key_names k));
  io_num64 : ik_num_keys k < 2 ^ 64;
  io_len : length (ik_key_serialized k) = length (ik_key_names k);
  io_some : ik_key_names k <> [];
  io_size : calcIntSerializedLen (ik_term k) + calcIntSerializedLen (ik_migration_session_key k)
    + calcIntSerializedLen (ik_num_keys k)
    + sum ((fun ks => str_size (fst ks) + str_size (snd ks)) <$> import_pairs k) < 2 ^ 64
}.

Definition pair_text (ks : list Z * list Z) : list Z := str_text (Some (fst ks)) ++ str_text (Some (snd ks)).

Definition import_text (k : ImportKeys) : list Z :=
  int_text STAR (ik_term k) ++ int_text STAR (ik_migration_session_key k) ++
  int_text STAR (ik_num_keys k) ++ concat (pair_text <$> import_pairs k).

Lemma put_pair_fits ks : fits (put_pair ks) (pair_text ks).
Proof. apply fits_then; [apply fits_writes, put_string_fits|apply put_string_fits|done]. Qed.

Lemma pair_small k ks :
  import_ok k -> ks ∈ import_pairs k -> str_size (fst ks) < 2 ^ 64 /\ str_size (snd ks) < 2 ^ 64.
Proof.
  intros Hk Hks. pose proof (io_size _ Hk).
  pose proof (calc_pos (ik_term k)). pose proof (calc_pos (ik_migration_session_key k)).
  pose proof (calc_pos (ik_num_keys k)). pose proof (str_size_pos (fst ks)). pose proof (str_size_pos (snd ks)).
  assert (str_size (fst ks) + str_size (snd ks) <=
    sum ((fun ks => str_size (fst ks) + str_size (snd ks)) <$> import_pairs k)); [|lia].
  apply (sum_elem (fun ks => str_size (fst ks) + str_size (snd ks))); [|done].
  intros y _. pose proof (str_size_pos (fst y)). pose proof (str_size_pos (snd y)). lia.
Qed.

Lemma import_keys_loop_text pairs rest k :
  (forall ks, ks ∈ pairs -> blen (fst ks) < 2 ^ 64 /\ blen (snd ks) < 2 ^ 64) ->
  import_keys_loop (length pairs) (concat (pair_text <$> pairs) ++ rest) k =
    Done (RR_OK, k <| ik_key_names := ik_key_names k ++ (fst <$> pairs) |>
                   <| ik_key_serialized := ik_key_serialized k ++ (snd <$> pairs) |>).
Proof.
  revert k. induction pairs as [|ks pairs IH]; intros k Hp; cbn [length fmap list_fmap concat import_keys_loop].
  - unfold ret. rewrite !app_nil_r. by destruct k.
  - destruct (Hp ks ltac:(left)) as [H1 H2]. unfold pair_text at 1. rewrite <- !app_assoc.
    rewrite with_string_text by done. run_refl. rewrite with_string_text by done. run_refl.
    rewrite IH by (intros; apply Hp; by right). destruct k. cbn. by rewrite <- !app_assoc.
Qed.

Lemma import_sizes k :
  import_ok k ->
  u64 (calcIntSerializedLen (u64 (ik_term k)) + calcIntSerializedLen (ik_migration_session_key k)
    + calcIntSerializedLen (ik_num_keys k)
    + sum ((fun ks => calcSerializeStringSize (Some (fst ks)) + calcSerializeStringSize (Some (snd ks)))
             <$> import_pairs k)) =
  calcIntSerializedLen (ik_term k) + calcIntSerializedLen (ik_migration_session_key k)
    + calcIntSerializedLen (ik_num_keys k)
    + sum ((fun ks => str_size (fst ks) + str_size (snd ks)) <$> import_pairs k) /\
  blen (import_text k) <=
    calcIntSerializedLen (ik_term k) + calcIntSerializedLen (ik_migration_session_key k)
    + calcIntSerializedLen (ik_num_keys k)
    + sum ((fun ks => str_size (fst ks) + str_size (snd ks)) <$> import_pairs k).
Proof.
  intros Hk. pose proof (pair_small k) as Hsmall. pose proof Hk as [Ht Hs Hn Hn64 Hl Hne Hsz].
  rewrite (u64_id (ik_term k)) by lia.
  assert (sum ((fun ks => calcSerializeStringSize (Some (fst ks)) + calcSerializeStringSize (Some (snd ks)))
             <$> import_pairs k) = sum ((fun ks => str_size (fst ks) + str_size (snd ks)) <$> import_pairs k)) as ->.
  { apply sum_ext. intros ks Hks. destruct (Hsmall ks Hk Hks).
    pose proof (str_size_pos (fst ks)). pose proof (str_size_pos (snd ks)).
    f_equal; apply u64_id; done. }
  pose proof (calc_pos (ik_term k)). pose proof (calc_pos (ik_migration_session_key k)).
  pose proof (calc_pos (ik_num_keys k)).
  assert (0 <= sum ((fun ks => str_size (fst ks) + str_size (snd ks)) <$> import_pairs k)).
  { apply (sum_nonneg (fun ks => str_size (fst ks) + str_size (snd ks))).
    intros y _. pose proof (str_size_pos (fst y)). pose proof (str_size_pos (snd y)). lia. }
  split; [apply u64_id; lia|]. unfold import_text. rewrite !blen_app, blen_concat.
  assert (0 <= ik_num_keys k < 2 ^ 64) by (split; [rewrite Hn; lia|exact Hn64]).
  destruct (calc_len (ik_term k)) as (L1 & _); [lia|].
  destruct (calc_len (ik_migration_session_key k)) as (L2 & _); [done|].
  destruct (calc_len (ik_num_keys k)) as (L3 & _); [done|].
  assert (sum ((fun ks => blen (pair_text ks)) <$> import_pairs k) <=
    sum ((fun ks => str_size (fst ks) + str_size (snd ks)) <$> import_pairs k)); [|lia].
  apply sum_le. intros ks Hks. destruct (Hsmall ks Hk Hks). unfold pair_text. rewrite blen_app.
  pose proof (blen_str_size (Some (fst ks)) ltac:(done)). pose proof (blen_str_size (Some (snd ks)) ltac:(done)).
  cbn in *. lia.
Qed.

(** Imported keys written into a log entry are read back from it,
    whatever the target held. *)
Theorem import_keys_roundtrip k t :
  import_ok k ->
  exists data, RaftRedisSerializeImport k = Done data /\
    RaftRedisDeserializeImport data t = Done (RR_OK, k).
Proof.
  intros Hk. destruct (import_sizes k Hk) as [Hsz Hb]. pose proof (pair_small k) as Hsmall.
  pose proof Hk as [Ht Hs Hn Hn64 Hl Hne Hsize]. pose proof (blen_nonneg (import_text k)).
  assert (0 < ik_num_keys k) by (rewrite Hn; destruct (ik_key_names k); [done|cbn [length]; lia]).
  assert (length (import_pairs k) = length (ik_key_names k)) as Hlp
    by (unfold import_pairs; rewrite length_zip_with; lia).
  eexists. split.
  - unfold RaftRedisSerializeImport. rewrite Hsz.
    apply (entry_data_fits _ (import_text k)); [|lia]. unfold import_text.
    apply fits_then; [apply put_integer_writes; lia| |done].
    apply fits_then; [by apply put_integer_writes| |done].
    apply fits_then; [apply put_integer_writes; lia| |].
    + apply for_each_fits. intros ks _. split; [apply put_pair_fits|done].
    + destruct (import_pairs k); [|done]. destruct (ik_key_names k); done.
  - unfold RaftRedisDeserializeImport, import_text. rewrite <- !app_assoc. run_refl.
    rewrite with_integer_text by lia. destruct (Z.eqb_spec (ik_term k) 0); [lia|]. run_refl.
    rewrite with_integer_text by done. run_refl.
    rewrite with_integer_text by lia. destruct (Z.eqb_spec (ik_num_keys k) 0); [lia|]. run_refl.
    assert (Z.to_nat (ik_num_keys k) = length (import_pairs k)) as -> by (rewrite Hlp; lia).
    rewrite import_keys_loop_text.
    + assert (to_long (ik_term k) = ik_term k) as -> by (unfold to_long; rewrite Z.mod_small; lia).
      destruct (FreeImportKeys t), k. unfold import_pairs. cbn in *.
      rewrite fst_zip, snd_zip by lia. done.
    + intros ks Hks. destruct (Hsmall ks Hk Hks) as [S1 S2]. unfold str_size in *.
      pose proof (calc_pos (blen (fst ks))). pose proof (calc_pos (blen (snd ks))). lia.
Qed.

(** ** Timeouts *)

Lemma blen_replicate n : blen (replicate n 0) = Z.of_nat n.
Proof. unfold blen. by rewrite length_replicate. Qed.

(** The entry that times a blocked command out is read back as long as
    the command's log index is below ten million; from there on the computed size
    is not the one written, and every server that applies the entry stops at the
    assertion on the size left. *)
Theorem timeout_roundtrip idx error t :
  0 <= idx < 2 ^ 63 ->
  exists data, RaftRedisSerializeTimeout idx error = Done data /\
    RaftRedisDeserializeTimeout data t =
      if idx <? 10000000 then Done (RR_OK, (idx, error)) else Abort.
Proof.
  intros Hi. set (err_val := if error then 1 else 0).
  assert (0 <= err_val < 2 ^ 64) as Herr by (subst err_val; destruct error; lia).
  assert (blen (int_text STAR err_val) = 3) as He3 by (by destruct error).
  assert (calcIntSerializedLen err_val = 3) as Hc3 by (by destruct error).
  destruct (calc_len idx) as (Hle & Hexact & Hbig & Hpos); [lia|].
  set (text := int_text STAR idx ++ int_text STAR err_val).
  assert (blen text = blen (int_text STAR idx) + 3) as Ht by (subst text; rewrite blen_app; lia).
  pose proof (blen_nonneg (int_text STAR idx)).
  eexists. split.
  { unfold RaftRedisSerializeTimeout. rewrite (u64_id idx) by lia. fold err_val. rewrite Hc3.
    assert (writes (put_integer STAR idx ;; put_integer STAR err_val)%c text) as Hw
      by (apply writes_then; apply put_integer_writes; lia).
    unfold entry_data. rewrite Hw by (cbn [se_sz]; lia). cbn [se_out app].
    destruct (Z.leb_spec (blen text) (calcIntSerializedLen idx + 3 + 1)); [reflexivity|lia]. }
  unfold RaftRedisDeserializeTimeout. subst text. rewrite <- app_assoc.
  rewrite with_integer_text by lia. run_refl. rewrite with_integer_text by done. run_refl.
  rewrite blen_replicate, Ht, Z2Nat.id by lia.
  assert (to_long idx = idx) as -> by (unfold to_long; rewrite Z.mod_small; lia).
  destruct (Z.ltb_spec idx 10000000) as [Hlt|Hge].
  - rewrite (Hexact Hlt). replace (calcIntSerializedLen idx + 3 + 1 - (calcIntSerializedLen idx + 3)) with 1 by lia.
    run_refl. by destruct error.
  - rewrite (Hbig Hge).
    assert (blen (dec_unsigned idx) <= 19) as Hd.
    { destruct (dec_digits_spec (S (Z.to_nat (Z.log2 idx))) idx []) as (ds & E & _ & _ & _ & Hlen & _).
      { rewrite Nat2Z.inj_succ, Z2Nat.id by apply Z.log2_nonneg. split; [lia|]. apply Z.log2_spec. lia. }
      unfold dec_unsigned, blen. rewrite E, app_nil_r. specialize (Hlen 18%nat). lia. }
    rewrite blen_int. destruct (Z.eqb_spec (22 + 3 + 1 - (blen (dec_unsigned idx) + 2 + 3)) 1); [lia|done].
Qed.

(** ** Locked keys *)

Definition key_size (k : list Z) : Z := blen k + 1.

Lemma key_size_pos k : 1 <= key_size k.
Proof. unfold key_size. pose proof (blen_nonneg k). lia. Qed.

Lemma sum_app {A} (f : A -> Z) l1 l2 : sum (f <$> (l1 ++ l2)) = sum (f <$> l1) + sum (f <$> l2).
Proof. rewrite fmap_app. unfold sum. induction l1 as [|x l1 IH]; cbn in *; lia. Qed.

Lemma sum_permutation {A} (f : A -> Z) l1 l2 : l1 ≡ₚ l2 -> sum (f <$> l1) = sum (f <$> l2).
Proof. unfold sum. induction 1; cbn in *; lia. Qed.

Section LockKeys.
Context {D : Type} `{DictLaws D}.

Lemma collect_keys_spec argv d total num :
  NoDup (dict_iterate d) -> 0 <= total -> total + sum (key_size <$> argv) < 2 ^ 64 ->
  exists d', NoDup (dict_iterate d') /\ (forall k, k ∈ dict_iterate d' <-> k ∈ argv \/ k ∈ dict_iterate d) /\
    exists new, dict_iterate d' ≡ₚ new ++ dict_iterate d /\
      collect_keys argv d total num =
        (d', total + sum (key_size <$> new), num + Z.of_nat (length new)) /\
      (length new <= length argv)%nat.
Proof.
  revert d total num. induction argv as [|k argv IH]; intros d total num Hnd Ht Hs; cbn [collect_keys].
  - exists d. split; [done|]. split; [intros k; rewrite elem_of_nil; tauto|]. exists []. cbn. split; [done|]. split; [|lia].
    by rewrite !Z.add_0_r.
  - pose proof (sum_nonneg key_size argv ltac:(intros x _; pose proof (key_size_pos x); lia)) as Hs0.
    pose proof (key_size_pos k). assert (key_size k = blen k + 1) as Hks by done.
    assert (sum (key_size <$> k :: argv) = key_size k + sum (key_size <$> argv)) as Hsum by done.
    destruct (RedisModule_DictSet d k) as [d1|] eqn:E.
    + pose proof (dict_set_new _ _ _ E) as Hp.
      assert (k ∉ dict_iterate d) as Hk by (intros Hin%dict_set_old; congruence).
      destruct (IH d1 (u64 (total + blen k + 1)) (num + 1)) as (d' & Hnd' & Hin & new & Hperm & Hrun & Hlen).
      * rewrite Hp. by constructor.
      * apply Z.mod_pos_bound. lia.
      * rewrite u64_id by lia. lia.
      * exists d'. split; [done|]. split; [intros x; rewrite Hin, Hp, !elem_of_cons; tauto|].
        exists (new ++ [k]). split; [by rewrite Hperm, Hp, <- app_assoc|].
        rewrite Hrun, sum_app, !length_app. assert (sum (key_size <$> [k]) = key_size k) as -> by (cbn; lia).
        change (length [k]) with 1%nat. cbn [length]. rewrite u64_id by lia.
        split; [|lia]. f_equal; [f_equal|]; lia.
    + pose proof (proj1 (dict_set_old d k) E) as Hk.
      destruct (IH d total num) as (d' & Hnd' & Hin & new & Hperm & Hrun & Hlen); [done|done|lia|].
      exists d'. split; [done|]. split; [intros x; rewrite Hin, elem_of_cons; split; [tauto|]; intros [[->|?]|?]; auto|].
      exists new. split; [done|]. split; [done|]. cbn. lia.
Qed.

(** The keys behind one another, each with its NUL. *)
Definition keys_text (ks : list (list Z)) : list Z := concat ((fun k => k ++ [0]) <$> ks).

Lemma blen_keys ks : blen (keys_text ks) = sum (key_size <$> ks).
Proof. unfold keys_text. rewrite blen_concat. apply sum_ext. intros k _. by rewrite blen_app. Qed.

Lemma put_keys_run total ks s :
  (forall k, k ∈ ks -> key_size k <= total) -> blen (keys_text ks) <= se_sz s < 2 ^ 64 ->
  for_each ks (fun key => c_assert (blen key + 1 <=? total) ;; put (key ++ [0]))%c s =
    Done (tt, mk_ser (se_out s ++ keys_text ks) (se_sz s - blen (keys_text ks))).
Proof.
  intros Hk Hs. apply (for_each_fits ks _ (fun k => k ++ [0])); [|done].
  intros k Hin. split; [|by destruct k]. intros s' Hs'. specialize (Hk k Hin). unfold key_size in Hk.
  assert ((blen k + 1 <=? total) = true) as -> by lia. run_refl. by apply put_fits.
Qed.

Lemma strlen_key k rest : 0 ∉ k -> strlen (k ++ 0 :: rest) = Some (length k).
Proof.
  induction k as [|c k IH]; intros Hk; [done|]. cbn [app strlen length].
  apply not_elem_of_cons in Hk as [Hc Hk]. destruct (Z.eqb_spec c 0); [done|]. by rewrite IH.
Qed.

Lemma split_keys_text ks rest :
  (forall k, k ∈ ks -> 0 ∉ k) -> split_keys (length ks) (keys_text ks ++ rest) = Done ks.
Proof.
  unfold keys_text. induction ks as [|k ks IH]; intros Hk; [done|].
  cbn [length split_keys fmap list_fmap concat]. rewrite <- !app_assoc. cbn [app].
  rewrite strlen_key by (apply Hk; by left).
  assert (drop (S (length k)) (k ++ 0 :: concat ((fun k => k ++ [0]) <$> ks) ++ rest)
          = concat ((fun k => k ++ [0]) <$> ks) ++ rest) as ->.
  { rewrite <- (Nat.add_1_r (length k)), <- drop_drop, drop_app_length. done. }
  rewrite IH by (intros; apply Hk; by right). by rewrite take_app_length.
Qed.

(** The entry that locks keys holds each key once and is read back, if
    no key contains a NUL; but the number of keys is written against the size of
    the keys instead of the size left, so the server stops at an assertion when
    all names together (each counted with its NUL) are no longer than that number
    with its prefix and newline, for instance for one key of up to two bytes. *)
Theorem lock_keys_roundtrip argv :
  Z.of_nat (length argv) < 10000000 -> sum (key_size <$> argv) < 2 ^ 63 ->
  exists ks, NoDup ks /\ (forall k, k ∈ ks <-> k ∈ argv) /\
    (if sum (key_size <$> ks) <=? blen (int_text STAR (Z.of_nat (length ks))) then
       RaftRedisLockKeysSerialize argv = Abort
     else exists data, RaftRedisLockKeysSerialize argv = Done data /\
       ((forall k, k ∈ ks -> 0 ∉ k) -> RaftRedisLockKeysDeserialize data = Done (Some ks))).
Proof.
  intros Hlen Hsize. unfold RaftRedisLockKeysSerialize.
  destruct (collect_keys_spec argv RedisModule_CreateDict 0 0) as (d & Hnd & Hin & new & Hp & Hrun & Hl);
    [rewrite dict_create; constructor|lia|lia|].
  rewrite dict_create in Hin, Hp. rewrite app_nil_r in Hp. rewrite Hrun.
  set (ks := dict_iterate d) in *. exists ks. split; [done|].
  assert (forall k, k ∈ ks <-> k ∈ argv) as Hks by (intros k; rewrite Hin, elem_of_nil; tauto).
  split; [done|]. rewrite <- (sum_permutation key_size _ _ Hp), <- (Permutation_length Hp), !Z.add_0_l.
  assert (sum (key_size <$> ks) <= sum (key_size <$> argv)) as Hle.
  { assert (ks ⊆+ argv) as [rest Hr]%submseteq_Permutation.
    { apply NoDup_submseteq; [done|]. intros k. by rewrite Hks. }
    rewrite (sum_permutation key_size _ _ Hr), sum_app.
    pose proof (sum_nonneg key_size rest ltac:(intros x _; pose proof (key_size_pos x); lia)). lia. }
  set (total := sum (key_size <$> ks)) in *. set (n := Z.of_nat (length ks)).
  assert (0 <= n < 10000000) as Hn by (subst n; rewrite (Permutation_length Hp); lia).
  assert (0 <= total) by (apply sum_nonneg; intros x _; pose proof (key_size_pos x); lia).
  destruct (calc_len n) as (_ & Hexact & _ & Hcalc); [lia|]. specialize (Hexact ltac:(lia)).
  rewrite encodeInteger_text by lia. rewrite u64_id by lia.
  destruct (Z.leb_spec total (blen (int_text STAR n))) as [Hshort|Hroom]; [done|].
  assert (forall k, k ∈ ks -> key_size k <= total) as Hk.
  { intros k Hkk. apply (sum_elem key_size ks k); [|done]. intros x _. pose proof (key_size_pos x). lia. }
  eexists. split.
  - unfold entry_data. erewrite bind_done_eq by (apply put_fits; cbn [se_sz]; lia). cbn [se_sz se_out app].
    erewrite bind_done_eq by (apply put_keys_run; [exact Hk|cbn [se_sz]; rewrite blen_keys; fold total; lia]).
    run_refl. cbn [se_sz se_out]. rewrite blen_keys. fold total.
    assert ((calcIntSerializedLen n + total - blen (int_text STAR n) - total =? 0) = true) as -> by lia.
    unfold c_assert, ret. cbn [se_out].
    destruct (Z.leb_spec (blen (int_text STAR n ++ keys_text ks)) (calcIntSerializedLen n + total)) as [|Hbig];
      [reflexivity|]. exfalso. rewrite blen_app, blen_keys in Hbig. fold total in Hbig. lia.
  - intros Hnul. unfold RaftRedisLockKeysDeserialize. rewrite <- app_assoc, decode_encode by lia.
    rewrite drop_text. subst n. rewrite Nat2Z.id. by rewrite split_keys_text.
Qed.

End LockKeys.

(** ** Concrete runs *)

(** A dictionary as a list, in the order of insertion. *)
#[export] Instance list_dict : RedisModuleDict (list (list Z)) := {
  RedisModule_CreateDict := [];
  RedisModule_DictSet d k := if bool_decide (k ∈ d) then None else Some (k :: d);
  dict_iterate d := d
}.

#[export] Instance list_dict_laws : DictLaws (list (list Z)).
Proof.
  constructor; cbn.
  - done.
  - intros d k. case_bool_decide; split; done.
  - intros d k d'. case_bool_decide; [done|]. by intros [= <-].
Qed.

Definition demo_array : RaftRedisCommandArray :=
  mk_array 7 true 4 5 [[bytes_of "SET"%string; bytes_of "k"%string; bytes_of "value"%string];
                       [bytes_of "GET"%string; bytes_of "k"%string]] (Some (bytes_of "me"%string)).

Lemma command_array_roundtrip_witness :
  exists data, RaftRedisCommandArraySerialize demo_array = Done data /\
    RaftRedisCommandArrayDeserialize data (mk_array 0 false 0 0 [[]] None) =
      Done (RR_OK, demo_array <| ra_client_id := 0 |> <| ra_size := 2 |>).
Proof.
  destruct (command_array_roundtrip demo_array (mk_array 0 false 0 0 [[]] None)) as (data & H1 & _ & H2).
  - constructor; [cbn; lia|done|reflexivity| |done|reflexivity].
    intros cmd Hcmd. by apply elem_of_cons in Hcmd as [->|[->|?%elem_of_nil]%elem_of_cons].
  - exists data. split; [exact H1|exact H2].
Defined.

Definition demo_import : ImportKeys :=
  mk_import 3 99 2 [bytes_of "a"%string; bytes_of "b"%string] [[1; 0; 2]; []].

Lemma import_keys_roundtrip_witness :
  exists data, RaftRedisSerializeImport demo_import = Done data /\
    RaftRedisDeserializeImport data (mk_import 0 0 0 [] []) = Done (RR_OK, demo_import).
Proof. apply (import_keys_roundtrip demo_import (mk_import 0 0 0 [] [])). constructor; cbn; lia || done. Defined.

Lemma timeout_roundtrip_witness :
  exists data, RaftRedisSerializeTimeout 10000000 true = Done data /\
    RaftRedisDeserializeTimeout data (0, false) = Abort.
Proof. apply (timeout_roundtrip 10000000 true (0, false)). lia. Defined.

Lemma lock_keys_roundtrip_witness :
  exists ks, NoDup ks /\ (forall k, k ∈ ks <-> k ∈ [bytes_of "ab"%string]) /\
    (if sum (key_size <$> ks) <=? blen (int_text STAR (Z.of_nat (length ks))) then
       RaftRedisLockKeysSerialize [bytes_of "ab"%string] = Abort
     else exists data, RaftRedisLockKeysSerialize [bytes_of "ab"%string] = Done data /\
       ((forall k, k ∈ ks -> 0 ∉ k) -> RaftRedisLockKeysDeserialize data = Done (Some ks))).
Proof. apply (lock_keys_roundtrip [bytes_of "ab"%string]); vm_compute; reflexivity. Defined.

(** The server stops for that key; *)
Example short_key_aborts : RaftRedisLockKeysSerialize [bytes_of "ab"%string] = Abort.
Proof. reflexivity. Qed.

(** and a key with a NUL is read back as the part before it. *)
Example nul_key_misread :
  match RaftRedisLockKeysSerialize [[97; 0; 98; 99]] with
  | Done data => RaftRedisLockKeysDeserialize data = Done (Some [[97]])
  | _ => False
  end.
Proof. reflexivity. Qed.
