(* ===== verification/NodeAddr.v ===== *)
(** * Addresses of nodes ([redisraft/src/node_addr.c], [common.c])

    Parsing of [host:port], lists of addresses without duplicates, and the
    MOVED replies that carry an address. *)

From stdpp Require Import base list numbers tactics gmap strings.
From S2P Require Import Prelude Libc File Multibulk.

Local Open Scope Z_scope.

Definition COLON : Z := 58.
Definition SPACE : Z := 32.

(** [NodeAddr]: [na_host] are the bytes before the NUL that ends the array. *)
Record NodeAddr := mk_NodeAddr {
  na_port : Z;
  na_host : list Z
}.

#[export] Instance NodeAddr_eq_dec : EqDecision NodeAddr.
Proof. solve_decision. Defined.

(** What is before and behind the last [c]. *)
Fixpoint split_last (c : Z) (s : list Z) : option (list Z * list Z) :=
  match s with
  | [] => None
  | x :: s' =>
      match split_last c s' with
      | Some (a, b) => Some (x :: a, b)
      | None => if x =? c then Some ([], s') else None
      end
  end.

(** [node_addr] has [node_addr_len] bytes, and the byte behind them (NUL or a
    newline) is not a colon. *)
Definition NodeAddrParse (node_addr : list Z) : option NodeAddr :=
  match split_last COLON node_addr with
  | None => None
  | Some (addr, port) =>
      let portlen := Z.of_nat (length port) in
      if (32 <=? portlen) || (portlen <? 1) then None else
      let '(l, endptr) := strtoul10 (c_string port) in
      if negb (bool_decide (endptr = [])) || (l <? 1) || (65535 <? l) then None else
      Some (mk_NodeAddr l (c_string (take 255 addr)))
  end.

Definition NodeAddrEqual (a1 a2 : NodeAddr) : bool :=
  (na_port a1 =? na_port a2) && bool_decide (na_host a1 = na_host a2).

(** Lists of addresses: [head] is the list the pointer leads to. *)
Fixpoint NodeAddrListAddElement (head : list NodeAddr) (addr : NodeAddr) : list NodeAddr :=
  match head with
  | [] => [addr]
  | e :: head' => if NodeAddrEqual e addr then head else e :: NodeAddrListAddElement head' addr
  end.

Definition NodeAddrListConcat (head other : list NodeAddr) : list NodeAddr :=
  foldl NodeAddrListAddElement head other.

(** ["%s:%u"] *)
Definition addr_text (a : NodeAddr) : list Z := na_host a ++ COLON :: dec_unsigned (na_port a).

(** The text of a MOVED and of an ASK reply ([replyRedirect], [replyAsk]). *)
Definition replyRedirect (slot : Z) (addr : NodeAddr) : list Z :=
  bytes_of "MOVED "%string ++ dec_unsigned slot ++ SPACE :: addr_text addr.

Definition replyAsk (slot : Z) (addr : NodeAddr) : list Z :=
  bytes_of "ASK "%string ++ dec_unsigned slot ++ SPACE :: addr_text addr.

Definition MOVED_PREFIX : list Z := bytes_of "MOVED "%string.

Definition parseMovedReply (str : list Z) : option NodeAddr :=
  if (Z.of_nat (length str) <? 15) || negb (bool_decide (take 6 str = MOVED_PREFIX)) then None else
  match split_last SPACE str with
  | None => None (* not reached: the prefix ends in a space *)
  | Some (_, p) => NodeAddrParse p
  end.

(** * Properties *)

(** ** Parsing *)

Lemma split_last_Some c s a b : split_last c s = Some (a, b) -> s = a ++ c :: b.
Proof.
  revert a b. induction s as [|x s IH]; intros a b; simpl; [done|].
  destruct (split_last c s) as [[a' b']|]; intros.
  - simplify_eq. cbn. f_equal. by apply IH.
  - destruct (Z.eqb_spec x c); by simplify_eq.
Qed.

Lemma split_last_none c s : c ∉ s -> split_last c s = None.
Proof.
  induction s as [|x s IH]; simpl; [done|]. intros [Hx Hs]%not_elem_of_cons. rewrite IH by done.
  destruct (Z.eqb_spec x c); congruence.
Qed.

Lemma split_last_app c a b : c ∉ b -> split_last c (a ++ c :: b) = Some (a, b).
Proof.
  intros Hb. induction a as [|x a IH]; simpl; [|by rewrite IH].
  by rewrite split_last_none, Z.eqb_refl.
Qed.

(** A byte that ends a number. *)
Definition no_digit (rest : list Z) : Prop :=
  match rest with c :: _ => (digit_value c <? 10) = false | [] => True end.

Lemma strtoul10_dec n rest :
  0 <= n < 2 ^ 64 -> no_digit rest -> strtoul10 (dec_unsigned n ++ rest) = (n, rest).
Proof.
  intros Hn Hr. destruct (dec_unsigned_spec n) as (ds & -> & Hd & Hne & _ & _ & Hv & _); [lia|].
  destruct ds as [|d ds]; [done|]. unfold strtoul10.
  pose proof (Forall_inv Hd) as Hd0. unfold is_digit in Hd0.
  assert (skip_spaces ((d :: ds) ++ rest) = (d :: ds) ++ rest) as ->.
  { simpl. unfold is_space. by rewrite (proj2 (Z.eqb_neq d 32)), (proj2 (Z.leb_gt d 13)), andb_false_r by lia. }
  cbn [app]. rewrite (proj2 (Z.eqb_neq d 45)), (proj2 (Z.eqb_neq d 43)) by lia.
  rewrite (is_digit_value d Hd0). rewrite (proj2 (Z.ltb_lt (d - 48) 10)) by lia.
  change (d :: ds ++ rest) with ((d :: ds) ++ rest). rewrite scan_digits_10 by done. rewrite Hv.
  assert (scan_digits 10 rest n = (n, rest)) as ->.
  { destruct rest as [|c rest]; [done|]. cbn in Hr |- *. by rewrite Hr. }
  by rewrite (proj2 (Z.ltb_ge _ _)) by lia.
Qed.

Lemma is_digit_nonzero n : 0 <= n -> Forall (fun c => c <> 0 /\ c <> COLON /\ c <> SPACE) (dec_unsigned n).
Proof.
  intros Hn. eapply Forall_impl; [by apply dec_unsigned_chars|]. unfold is_digit, COLON, SPACE. intros; lia.
Qed.

Record addr_ok (a : NodeAddr) : Prop := {
  ao_port : 1 <= na_port a <= 65535;
  ao_host : Z.of_nat (length (na_host a)) <= 255;
  ao_chars : Forall (fun c => c <> 0) (na_host a)
}.

(** The address printed as [host:port] is parsed back. *)
Lemma NodeAddrParse_text a : addr_ok a -> NodeAddrParse (addr_text a) = Some a.
Proof.
  intros [Hp Hl Hc]. unfold NodeAddrParse, addr_text.
  pose proof (is_digit_nonzero (na_port a) ltac:(lia)) as Hd.
  rewrite split_last_app.
  2: { intros Hin. rewrite Forall_forall in Hd. by destruct (Hd _ Hin) as (_ & ? & _). }
  pose proof (dec_unsigned_length (na_port a) ltac:(lia)).
  rewrite (proj2 (Z.leb_gt 32 _)), (proj2 (Z.ltb_ge _ 1)) by lia. cbn [orb].
  rewrite (c_string_nonzero (dec_unsigned _)) by (eapply Forall_impl; [exact Hd|tauto]).
  rewrite <- (app_nil_r (dec_unsigned _)) at 1. rewrite (strtoul10_dec _ []); [|lia|exact I].
  rewrite bool_decide_eq_true_2 by done. cbn [negb orb].
  rewrite (proj2 (Z.ltb_ge _ 1)), (proj2 (Z.ltb_ge 65535 _)) by lia. cbn [orb].
  rewrite take_ge by lia. rewrite c_string_nonzero by done. by destruct a.
Qed.

(** What is parsed is an address. *)
Lemma c_string_chars s : Forall (fun c => c <> 0) (c_string s).
Proof. induction s as [|c s IHs]; cbn [c_string]; [constructor|]. destruct (Z.eqb_spec c 0); [constructor|by constructor]. Qed.

Lemma c_string_length s : (length (c_string s) <= length s)%nat.
Proof. induction s as [|c s IH]; simpl; [done|]. destruct (c =? 0); simpl; lia. Qed.

Lemma NodeAddrParse_ok s a : NodeAddrParse s = Some a -> addr_ok a.
Proof.
  unfold NodeAddrParse. destruct (split_last _ _) as [[addr port]|]; [|done].
  destruct (_ || _); [done|]. destruct (strtoul10 _) as [l e].
  destruct (_ || _ || _) eqn:E; [done|]. intros [= <-].
  constructor; cbn; [lia| |apply c_string_chars].
  pose proof (c_string_length (take 255 addr)) as Hlen. rewrite length_take in Hlen. lia.
Qed.

(** ** Lists *)

Lemma NodeAddrEqual_spec a b : NodeAddrEqual a b = true <-> a = b.
Proof.
  unfold NodeAddrEqual. rewrite andb_true_iff, Z.eqb_eq, bool_decide_eq_true. destruct a, b; cbn.
  split; [by intros [-> ->]|by intros [= -> ->]].
Qed.

Lemma add_element_spec l a :
  NodeAddrListAddElement l a = if decide (a ∈ l) then l else l ++ [a].
Proof.
  induction l as [|e l IH]; cbn [NodeAddrListAddElement].
  - rewrite decide_False; [done|]. apply not_elem_of_nil.
  - destruct (NodeAddrEqual e a) eqn:E.
    + apply NodeAddrEqual_spec in E as ->. rewrite decide_True; [done|by left].
    + assert (e <> a) as Hne by (intros H%NodeAddrEqual_spec; congruence). rewrite IH.
      destruct (decide (a ∈ l)) as [Hin|Hin]; [rewrite decide_True; [done|by right]|].
      rewrite decide_False; [done|]. apply not_elem_of_cons. split; [congruence|done].
Qed.

Lemma list_concat_spec other : forall head,
  exists added, NodeAddrListConcat head other = head ++ added /\ NoDup added /\
    (forall a, a ∈ added <-> a ∈ other /\ a ∉ head) /\ sublist added other.
Proof.
  unfold NodeAddrListConcat. induction other as [|a other IH]; intros head; cbn [foldl].
  { exists []. rewrite app_nil_r. split_and!; [done|constructor| |constructor]. intros a. set_solver. }
  rewrite add_element_spec. destruct (decide (a ∈ head)) as [Hin|Hin].
  - destruct (IH head) as (added & -> & Hnd & Hel & Hsub). exists added. split_and!; [done..| |by apply sublist_cons].
    intros b. rewrite Hel, elem_of_cons. naive_solver.
  - destruct (IH (head ++ [a])) as (added & -> & Hnd & Hel & Hsub). exists (a :: added).
    rewrite <- app_assoc. split_and!; [done| | |by apply sublist_skip].
    + apply NoDup_cons. split; [|done]. rewrite Hel, elem_of_app, list_elem_of_singleton. tauto.
    + intros b. rewrite !elem_of_cons, Hel, elem_of_app, list_elem_of_singleton.
      destruct (decide (b = a)) as [->|]; naive_solver.
Qed.

(** Lists of node addresses are sets that keep the order of
    first insertion: [NodeAddrListConcat] leaves the list it extends in front,
    and behind it puts, once each and in their order, the addresses of the other
    list that were not there; a list without duplicates stays so. *)
Theorem addr_list_is_set (head other : list NodeAddr) :
  exists added, NodeAddrListConcat head other = head ++ added /\
    sublist added other /\ (forall a, a ∈ added <-> a ∈ other /\ a ∉ head) /\
    (NoDup head -> NoDup (NodeAddrListConcat head other)).
Proof.
  destruct (list_concat_spec other head) as (added & E & Hnd & Hel & Hsub). exists added.
  split_and!; try done. intros Hh. rewrite E. apply NoDup_app. split_and!; try done.
  intros a Ha Ha'. by apply Hel in Ha' as [_ ?].
Qed.

(** ** MOVED replies *)

(** The address a node is redirected to: [parseMovedReply]
    finds in the text of [replyRedirect] the address it was given, if the host
    has no space and the reply has at least 15 bytes; a shorter one (a host
    name of up to three characters with a short port) is refused although it
    is valid. *)
Theorem moved_reply_roundtrip slot a :
  addr_ok a -> SPACE ∉ na_host a -> 0 <= slot < 2 ^ 32 ->
  parseMovedReply (replyRedirect slot a) =
    if Z.of_nat (length (replyRedirect slot a)) <? 15 then None else Some a.
Proof.
  intros Ha Hsp Hslot. unfold parseMovedReply, replyRedirect. fold MOVED_PREFIX.
  set (str := MOVED_PREFIX ++ _). destruct (_ <? 15); [done|]. cbn [orb].
  rewrite bool_decide_eq_true_2 by (unfold str; by rewrite take_app_length'). cbn [negb].
  assert (split_last SPACE str = Some (MOVED_PREFIX ++ dec_unsigned slot, addr_text a)) as ->.
  { unfold str. rewrite app_assoc. apply split_last_app. unfold addr_text.
    pose proof (is_digit_nonzero (na_port a) ltac:(destruct Ha; lia)) as Hd. rewrite Forall_forall in Hd.
    intros [Hin|[Hin|Hin]%elem_of_cons]%elem_of_app; [done|done|]. by destruct (Hd _ Hin) as (_ & _ & ?). }
  by apply NodeAddrParse_text.
Qed.

Definition demo_addr (host : String.string) : NodeAddr := mk_NodeAddr 6379 (bytes_of host).

Lemma moved_reply_roundtrip_witness :
  parseMovedReply (replyRedirect 7 (demo_addr "10.0.0.1")) = Some (demo_addr "10.0.0.1") /\
  parseMovedReply (replyRedirect 7 (demo_addr "a")) = None.
Proof.
  split.
  - rewrite (moved_reply_roundtrip 7 (demo_addr "10.0.0.1")); [vm_compute; reflexivity| |set_solver|lia].
    split; [cbn; lia|vm_compute; congruence|]. repeat (constructor; [discriminate|]). constructor.
  - rewrite (moved_reply_roundtrip 7 (demo_addr "a")); [vm_compute; reflexivity| |set_solver|lia].
    split; [cbn; lia|vm_compute; congruence|]. repeat (constructor; [discriminate|]). constructor.
Defined.
