(* ===== verification/ShardGroup.v ===== *)
(** * Shard groups and their text ([redisraft/src/cluster.c], [util.c])

    A shard group is a Redis Raft cluster and the ranges of hash slots it serves.
    Changes of shard groups travel through the Raft log as text, which
    [ShardGroupSerialize] writes into a growing buffer and
    [ShardGroupDeserialize] reads, and between clusters as replies of
    RAFT.SHARDGROUP GET.  A [char] array that holds a string is the bytes before
    its NUL; an array of known length is a list. *)

From stdpp Require Import base list numbers tactics gmap strings.
From S2P Require Import Prelude Libc File Multibulk PageLog Serialization SerializationSpec NodeAddr.

Local Open Scope Z_scope.

(** Conversion to [unsigned int]. *)
Definition u32 (z : Z) : Z := z mod 2 ^ 32.

(** ** Data *)

Definition RAFT_SHARDGROUP_NODEID_LEN : Z := 40.
Definition NODEADDR_MAXLEN : Z := 255 + 1 + 5 + 1.
Definition SHARDGROUPNODE_MAXLEN : Z := RAFT_SHARDGROUP_NODEID_LEN + 1 + NODEADDR_MAXLEN + 2.
Definition SHARDGROUP_MAXLEN : Z := 10 + 1 + 10 + 1 + 1.
Definition SLOT_RANGE_MAXLEN : Z := 10 + 1 + 10 + 1 + 10 + 1 + 1.

Definition REDIS_RAFT_HASH_MIN_SLOT : Z := 0.
Definition REDIS_RAFT_HASH_MAX_SLOT : Z := 16383.
Definition REDIS_RAFT_HASH_SLOTS : Z := 16384.

(** [SlotRangeType], an [unsigned int] that can have any value. *)
Definition SLOTRANGE_TYPE_UNDEF : Z := 0.
Definition SLOTRANGE_TYPE_STABLE : Z := 1.
Definition SLOTRANGE_TYPE_IMPORTING : Z := 2.
Definition SLOTRANGE_TYPE_MIGRATING : Z := 3.
Definition SLOTRANGE_TYPE_MAX : Z := 4.

Definition SlotRangeTypeValid (val : Z) : bool :=
  (SLOTRANGE_TYPE_UNDEF <? val) && (val <? SLOTRANGE_TYPE_MAX).

Definition HashSlotValid (slot : Z) : bool :=
  (REDIS_RAFT_HASH_MIN_SLOT <=? slot) && (slot <=? REDIS_RAFT_HASH_MAX_SLOT).

Definition HashSlotRangeValid (start_slot end_slot : Z) : bool :=
  HashSlotValid start_slot && HashSlotValid end_slot && (start_slot <=? end_slot).

Definition MigrationSessionKeyValid (key : Z) : bool := 0 <=? key.

Record ShardGroupSlotRange := mk_range {
  sr_start_slot : Z;
  sr_end_slot : Z;
  sr_type : Z;
  sr_migration_session_key : Z
}.

Record ShardGroupNode := mk_sgnode {
  sgn_node_id : list Z;
  sgn_addr : NodeAddr
}.

#[export] Instance range_eq_dec : EqDecision ShardGroupSlotRange.
Proof. solve_decision. Defined.
#[export] Instance sgnode_eq_dec : EqDecision ShardGroupNode.
Proof. solve_decision. Defined.

(** [sg_conn]: whether there is a connection. *)
Record ShardGroup := mk_sg {
  sg_id : list Z;
  sg_slot_ranges : list ShardGroupSlotRange;
  sg_nodes : list ShardGroupNode;
  sg_next_redir : Z;
  sg_node_conn_idx : Z;
  sg_conn_addr : NodeAddr;
  sg_use_conn_addr : bool;
  sg_conn : bool;
  sg_last_updated : Z;
  sg_update_in_progress : bool;
  sg_local : bool
}.
#[export] Instance eta_sg : Eta ShardGroup := fun g =>
  mk_sg (sg_id g) (sg_slot_ranges g) (sg_nodes g) (sg_next_redir g) (sg_node_conn_idx g)
    (sg_conn_addr g) (sg_use_conn_addr g) (sg_conn g) (sg_last_updated g)
    (sg_update_in_progress g) (sg_local g).
#[export] Instance set_sg_id : Setter sg_id. Proof. solve_setter. Defined.
#[export] Instance set_sg_slot_ranges : Setter sg_slot_ranges. Proof. solve_setter. Defined.
#[export] Instance set_sg_nodes : Setter sg_nodes. Proof. solve_setter. Defined.
#[export] Instance set_sg_next_redir : Setter sg_next_redir. Proof. solve_setter. Defined.
#[export] Instance set_sg_node_conn_idx : Setter sg_node_conn_idx. Proof. solve_setter. Defined.
#[export] Instance set_sg_conn_addr : Setter sg_conn_addr. Proof. solve_setter. Defined.
#[export] Instance set_sg_use_conn_addr : Setter sg_use_conn_addr. Proof. solve_setter. Defined.
#[export] Instance set_sg_conn : Setter sg_conn. Proof. solve_setter. Defined.
#[export] Instance set_sg_last_updated : Setter sg_last_updated. Proof. solve_setter. Defined.
#[export] Instance set_sg_update_in_progress : Setter sg_update_in_progress. Proof. solve_setter. Defined.
#[export] Instance set_sg_local : Setter sg_local. Proof. solve_setter. Defined.

#[export] Instance sg_eq_dec : EqDecision ShardGroup.
Proof. solve_decision. Defined.

(** [memset] to zero. *)
Definition ShardGroupInit : ShardGroup :=
  mk_sg [] [] [] 0 0 (mk_NodeAddr 0 []) false false 0 false false.

Definition sg_slot_ranges_num (sg : ShardGroup) : Z := Z.of_nat (length (sg_slot_ranges sg)).
Definition sg_nodes_num (sg : ShardGroup) : Z := Z.of_nat (length (sg_nodes sg)).

(** ** Writing *)

(** The string in the buffer and [strbuf_len]. *)
Record strbuf := mk_strbuf { sb_text : list Z; sb_len : Z }.

(** [out] is what the format and its arguments give, without NUL. *)
Definition catsnprintf (out : list Z) : M strbuf unit :=
  b <- get ;;
  let used := blen (sb_text b) in
  let avail := u64 (sb_len b - used) in
  let len := blen out in
  if len <? avail then modify (fun b => mk_strbuf (sb_text b ++ out) (sb_len b)) else
  let strbuf_len := if 4096 <? u64 (len - avail) then u64 (sb_len b + (len + 1))
                    else u64 (sb_len b + 4096) in
  let avail := u64 (strbuf_len - used) in
  c_assert (len <? avail) ;;
  modify (fun b => mk_strbuf (sb_text b ++ out) strbuf_len).

(** ["%u\n"] and ["%llu\n"] *)
Definition num_line (v : Z) : list Z := dec_unsigned v ++ [LF].
(** ["%s\n"] *)
Definition text_line (s : list Z) : list Z := s ++ [LF].

Definition range_text (sr : ShardGroupSlotRange) : list Z :=
  num_line (sr_start_slot sr) ++ num_line (sr_end_slot sr) ++ num_line (sr_type sr) ++
  num_line (sr_migration_session_key sr).

Definition node_text (n : ShardGroupNode) : list Z :=
  text_line (sgn_node_id n) ++ text_line (addr_text (sgn_addr n)).

(** The products and sums are of type [unsigned int]. *)
Definition serialize_buf_size (sg : ShardGroup) : Z :=
  u32 (SHARDGROUP_MAXLEN + SHARDGROUPNODE_MAXLEN * sg_nodes_num sg + 1 +
       SLOT_RANGE_MAXLEN * sg_slot_ranges_num sg + 1).

Definition serialize_calls (sg : ShardGroup) : M strbuf unit :=
  catsnprintf (text_line (sg_id sg)) ;;
  catsnprintf (num_line (sg_slot_ranges_num sg) ++ num_line (sg_nodes_num sg)) ;;
  for_each (sg_slot_ranges sg) (fun sr => catsnprintf (range_text sr)) ;;
  for_each (sg_nodes sg) (fun n => catsnprintf (node_text n)).

Definition buffer_text (size : Z) (m : M strbuf unit) : outcome (list Z) :=
  match m (mk_strbuf [] size) with
  | Done (_, b) => Done (sb_text b)
  | Abort => Abort
  | OutOfFuel => OutOfFuel
  end.

Definition ShardGroupSerialize (sg : ShardGroup) : outcome (list Z) :=
  buffer_text (serialize_buf_size sg) (serialize_calls sg).

(** The data of the entry [ShardGroupsAppendLogEntry] appends: the number of
    groups, and for each the length of its text and the text. *)
Definition put_payload (sg : ShardGroup) : M strbuf unit :=
  match ShardGroupSerialize sg with
  | Done payload => catsnprintf (num_line (blen payload) ++ text_line payload)
  | Abort => abort
  | OutOfFuel => out_of_fuel
  end.

Definition groups_payload (sgs : list ShardGroup) : outcome (list Z) :=
  buffer_text 4096 (catsnprintf (num_line (Z.of_nat (length sgs))) ;; for_each sgs put_payload).

(** ** Reading *)

(** [s]: the memory from the pointer on; [end - s]. *)
Record cursor := mk_cur { cu_s : list Z; cu_left : Z }.

(** A step of a parser: a value, [None] for [goto error]. *)
Definition rd (A : Type) : Type := cursor -> outcome (option (A * cursor)).

Definition rd_ret {A} (a : A) : rd A := fun c => Done (Some (a, c)).
Definition rd_error {A} : rd A := fun _ => Done None.
Definition rd_bind {A B} (m : rd A) (k : A -> rd B) : rd B := fun c =>
  match m c with
  | Done (Some (a, c')) => k a c'
  | Done None => Done None
  | Abort => Abort
  | OutOfFuel => OutOfFuel
  end.

Notation "x <-? m ;; k" := (rd_bind m (fun x => k))
  (at level 100, m at next level, right associativity) : c_scope.

(** [nl = memchr(s, '\n', end - s)]: the bytes before the newline. *)
Definition memchr_nl (c : cursor) : option (list Z) :=
  match find_line (take (Z.to_nat (cu_left c)) (cu_s c)) with
  | Some l => Some (removelast l)
  | None => None
  end.

(** [s = nl + 1;] *)
Definition skip_line (line : list Z) (c : cursor) : cursor :=
  mk_cur (drop (S (length line)) (cu_s c)) (cu_left c - blen line - 1).

(** A line with a number: [strtoul] reads on over white space, also behind the
    newline, and then the assertion [endptr == nl] fails. *)
Definition read_number : rd Z := fun c =>
  match memchr_nl c with
  | None => Done None
  | Some line =>
      let '(v, endptr) := strtoul10 (cu_s c) in
      if blen endptr =? blen (cu_s c) - blen line then Done (Some (v, skip_line line c)) else Abort
  end.

Definition read_line (maxlen : Z) : rd (list Z) := fun c =>
  match memchr_nl c with
  | None => Done None
  | Some line => if maxlen <? blen line then Done None else Done (Some (line, skip_line line c))
  end.

Definition read_addr : rd NodeAddr := fun c =>
  match memchr_nl c with
  | None => Done None
  | Some line =>
      match NodeAddrParse line with
      | None => Done None
      | Some a => Done (Some (a, skip_line line c))
      end
  end.

Definition read_range : rd ShardGroupSlotRange :=
  start_slot <-? read_number ;;
  end_slot <-? read_number ;;
  type <-? read_number ;;
  key <-? read_number ;;
  rd_ret (mk_range (u32 start_slot) (u32 end_slot) (u32 type) key).

Definition read_node : rd ShardGroupNode :=
  node_id <-? read_line RAFT_SHARDGROUP_NODEID_LEN ;;
  addr <-? read_addr ;;
  rd_ret (mk_sgnode (c_string node_id) addr).

Fixpoint read_array {A} (n : nat) (m : rd A) : rd (list A) :=
  match n with
  | O => rd_ret []
  | S n' => x <-? m ;; l <-? read_array n' m ;; rd_ret (x :: l)
  end.

Definition read_group : rd ShardGroup :=
  id <-? read_line RAFT_DBID_LEN ;;
  slot_ranges_num <-? read_number ;;
  nodes_num <-? read_number ;;
  slot_ranges <-? read_array (Z.to_nat (u32 slot_ranges_num)) read_range ;;
  nodes <-? read_array (Z.to_nat (u32 nodes_num)) read_node ;;
  rd_ret (ShardGroupInit <| sg_id := c_string id |> <| sg_slot_ranges := slot_ranges |>
                         <| sg_nodes := nodes |>).

(** [buf]: the memory from the pointer on, of which [buf_len] bytes are read
    (but see [read_number]).  [None] is NULL. *)
Definition ShardGroupDeserialize (buf : list Z) (buf_len : Z) : outcome (option ShardGroup) :=
  match read_group (mk_cur buf buf_len) with
  | Done (Some (sg, _)) => Done (Some sg)
  | Done None => Done None
  | Abort => Abort
  | OutOfFuel => OutOfFuel
  end.

(** ** Comparison *)

Fixpoint strcmp (a b : list Z) : Z :=
  match a, b with
  | [], [] => 0
  | x :: _, [] => x
  | [], y :: _ => - y
  | x :: a', y :: b' => if x =? y then strcmp a' b' else x - y
  end.

Fixpoint compare_nodes (a b : list ShardGroupNode) : Z :=
  match a, b with
  | m :: a', n :: b' =>
      let r := strcmp (sgn_node_id m) (sgn_node_id n) in
      if negb (r =? 0) then r else
      let r := strcmp (na_host (sgn_addr m)) (na_host (sgn_addr n)) in
      if negb (r =? 0) then r else
      if negb (na_port (sgn_addr m) =? na_port (sgn_addr n))
      then na_port (sgn_addr m) - na_port (sgn_addr n)
      else compare_nodes a' b'
  | _, _ => 0
  end.

(** The difference of two [unsigned int] as an [int]. *)
Definition compareShardGroups (a b : ShardGroup) : Z :=
  if negb (sg_nodes_num a =? sg_nodes_num b)
  then to_int (sg_nodes_num a - sg_nodes_num b)
  else compare_nodes (sg_nodes a) (sg_nodes b).

(** * Properties *)

(** ** The growing buffer *)

Definition buf_ok (b : strbuf) : Prop := blen (sb_text b) < sb_len b.

Definition grown (len used out : Z) : Z :=
  if out <? len - used then len
  else if 4096 <? out - (len - used) then len + (out + 1) else len + 4096.

Lemma catsnprintf_run b out :
  buf_ok b -> sb_len b + blen out + 4096 < 2 ^ 64 ->
  catsnprintf out b =
    if blen out =? sb_len b - blen (sb_text b) + 4096 then Abort
    else Done (tt, mk_strbuf (sb_text b ++ out) (grown (sb_len b) (blen (sb_text b)) (blen out))).
Proof.
  unfold buf_ok, grown. intros Hb Hsz. pose proof (blen_nonneg out). pose proof (blen_nonneg (sb_text b)).
  unfold catsnprintf. rewrite (bind_done_eq get _ b b b) by done. cbv zeta.
  rewrite (u64_id (sb_len b - _)) by lia.
  destruct (Z.ltb_spec (blen out) (sb_len b - blen (sb_text b))).
  { by destruct (Z.eqb_spec (blen out) (sb_len b - blen (sb_text b) + 4096)); [lia|]. }
  rewrite (u64_id (blen out - _)) by lia.
  destruct (Z.ltb_spec 4096 (blen out - (sb_len b - blen (sb_text b)))).
  - rewrite (u64_id (sb_len b + (blen out + 1))), u64_id by lia.
    destruct (Z.eqb_spec (blen out) (sb_len b - blen (sb_text b) + 4096)); [lia|].
    by rewrite (proj2 (Z.ltb_lt _ _)) by lia.
  - rewrite (u64_id (sb_len b + 4096)), u64_id by lia.
    destruct (Z.eqb_spec (blen out) (sb_len b - blen (sb_text b) + 4096)).
    + by rewrite (proj2 (Z.ltb_ge _ _)) by lia.
    + by rewrite (proj2 (Z.ltb_lt _ _)) by lia.
Qed.

Lemma grown_ok b out : buf_ok b -> blen out <> sb_len b - blen (sb_text b) + 4096 ->
  let len' := grown (sb_len b) (blen (sb_text b)) (blen out) in
  buf_ok (mk_strbuf (sb_text b ++ out) len') /\
  sb_len b <= len' <= sb_len b + Z.max 4096 (blen out + 1).
Proof.
  unfold buf_ok, grown. intros Hb Hne. cbn [sb_text sb_len]. rewrite blen_app.
  pose proof (blen_nonneg out). pose proof (blen_nonneg (sb_text b)).
  destruct (Z.ltb_spec (blen out) (sb_len b - blen (sb_text b))); [lia|].
  destruct (Z.ltb_spec 4096 (blen out - (sb_len b - blen (sb_text b)))); lia.
Qed.

(** [catsnprintf] appends its text, in the same buffer while there
    is room and in a larger one otherwise, so that the terminating NUL always
    fits; but when the text is longer than the room by exactly 4096 bytes, the
    buffer grows by one byte too few, and the assertion at its end fails. *)
Theorem catsnprintf_grows (b : strbuf) (out : list Z) :
  buf_ok b -> sb_len b + blen out + 4096 < 2 ^ 64 ->
  (catsnprintf out b = Abort <-> blen out = sb_len b - blen (sb_text b) + 4096) /\
  forall u b', catsnprintf out b = Done (u, b') ->
    sb_text b' = sb_text b ++ out /\ buf_ok b' /\ sb_len b <= sb_len b' /\
    (blen out < sb_len b - blen (sb_text b) -> sb_len b' = sb_len b).
Proof.
  intros Hb Hsz. rewrite catsnprintf_run by done.
  destruct (Z.eqb_spec (blen out) (sb_len b - blen (sb_text b) + 4096)) as [E|E]; [by split|].
  split; [by split|]. intros u b' [= <- <-]. cbn [sb_text sb_len].
  destruct (grown_ok b out Hb E) as (? & ?). split_and!; [done|done|lia|].
  unfold grown. intros. by rewrite (proj2 (Z.ltb_lt _ _)).
Qed.

Lemma catsnprintf_grows_witness :
  let b := mk_strbuf [49; LF] 6 in
  catsnprintf (replicate (Z.to_nat 4100) 49) b = Abort /\
  exists b', catsnprintf (replicate (Z.to_nat 4099) 49) b = Done (tt, b') /\ sb_len b' = 4102 /\ buf_ok b'.
Proof.
  cbv zeta. split.
  - apply (catsnprintf_grows (mk_strbuf [49; LF] 6) (replicate (Z.to_nat 4100) 49)); vm_compute; reflexivity.
  - eexists. split; [vm_compute; reflexivity|]. split; vm_compute; reflexivity.
Defined.

(** [m] appends [t] and lets the buffer grow by [k] at most. *)
Definition appends (m : M strbuf unit) (t : list Z) (k : Z) : Prop :=
  forall b, buf_ok b -> sb_len b + k < 2 ^ 64 ->
    exists len', m b = Done (tt, mk_strbuf (sb_text b ++ t) len') /\
      buf_ok (mk_strbuf (sb_text b ++ t) len') /\ sb_len b <= len' <= sb_len b + k.

Lemma appends_short t : blen t < 4096 -> appends (catsnprintf t) t 8192.
Proof.
  intros Ht b Hb Hsz. unfold buf_ok in Hb.
  assert (blen t <> sb_len b - blen (sb_text b) + 4096) as Hne by lia.
  rewrite catsnprintf_run by (done || lia). rewrite (proj2 (Z.eqb_neq _ _)) by done.
  destruct (grown_ok b t Hb Hne). eexists. split_and!; [done|done|lia|lia].
Qed.

Lemma appends_then m1 m2 t1 t2 k1 k2 :
  0 <= k2 -> appends m1 t1 k1 -> appends m2 t2 k2 -> appends (m1 ;; m2) (t1 ++ t2) (k1 + k2).
Proof.
  intros Hk H1 H2 b Hb Hsz. destruct (H1 b) as (l1 & E1 & Hb1 & Hl1); [done|lia|].
  destruct (H2 (mk_strbuf (sb_text b ++ t1) l1)) as (l2 & E2 & Hb2 & Hl2); [done|cbn; lia|].
  cbn [sb_text sb_len] in *. exists l2. rewrite (bind_done_eq _ _ _ _ _ E1), E2, app_assoc.
  split_and!; [done|done|lia|lia].
Qed.

Lemma appends_for_each {A} (l : list A) f (text : A -> list Z) k :
  0 <= k -> Forall (fun x => appends (f x) (text x) k) l ->
  appends (for_each l f) (concat (text <$> l)) (Z.of_nat (length l) * k).
Proof.
  intros Hk Hl. induction Hl as [|x l Hx Hl IH]; cbn [for_each fmap list_fmap concat length].
  - intros b Hb _. exists (sb_len b). rewrite app_nil_r. destruct b. split_and!; [done|done|cbn; lia|cbn; lia].
  - rewrite Nat2Z.inj_succ, Z.mul_succ_l, Z.add_comm. apply appends_then; [nia|done|done].
Qed.

(** ** Reading what was written *)

(** Parsing [t] gives [a], whatever follows. *)
Definition reads {A} (m : rd A) (t : list Z) (a : A) : Prop :=
  forall rest k, 0 <= k -> m (mk_cur (t ++ rest) (blen t + k)) = Done (Some (a, mk_cur rest k)).

Lemma reads_ret {A} (a : A) : reads (rd_ret a) [] a.
Proof. intros rest k Hk. done. Qed.

Lemma reads_bind {A B} (m : rd A) (f : A -> rd B) t1 t2 a b :
  reads m t1 a -> reads (f a) t2 b -> reads (rd_bind m f) (t1 ++ t2) b.
Proof.
  intros H1 H2 rest k Hk. unfold rd_bind. rewrite <- app_assoc, blen_app, <- Z.add_assoc.
  pose proof (blen_nonneg t2). rewrite H1 by lia. by apply H2.
Qed.

Lemma reads_array {A} (m : rd A) (text : A -> list Z) l :
  Forall (fun x => reads m (text x) x) l -> reads (read_array (length l) m) (concat (text <$> l)) l.
Proof.
  induction 1 as [|x l Hx Hl IH]; [apply reads_ret|].
  cbn [length read_array fmap list_fmap concat]. eapply reads_bind; [exact Hx|].
  rewrite <- (app_nil_r (concat _)). eapply reads_bind; [exact IH|]. apply reads_ret.
Qed.

Lemma reads_eq {A} (m : rd A) t t' a : reads m t a -> t = t' -> reads m t' a.
Proof. by intros ? <-. Qed.

Definition no_lf (s : list Z) : Prop := Forall (fun c => c <> LF) s.

Lemma memchr_nl_spec s rest k : no_lf s -> 0 <= k ->
  memchr_nl (mk_cur (text_line s ++ rest) (blen (text_line s) + k)) = Some s /\
  skip_line s (mk_cur (text_line s ++ rest) (blen (text_line s) + k)) = mk_cur rest k.
Proof.
  intros Hs Hk. unfold memchr_nl, skip_line, text_line. cbn [cu_s cu_left].
  rewrite blen_app. change (blen [LF]) with 1. split.
  - rewrite <- app_assoc, take_app. rewrite (take_ge s) by (unfold blen; lia).
    replace (Z.to_nat (blen s + 1 + k) - length s)%nat with (S (Z.to_nat k)) by (unfold blen; lia).
    cbn [app take]. rewrite find_line_spec by done. by rewrite removelast_last.
  - rewrite drop_app_length' by (rewrite length_app; cbn; lia). f_equal. lia.
Qed.

Lemma reads_line max s : no_lf s -> blen s <= max -> reads (read_line max) (text_line s) s.
Proof.
  intros Hs Hm rest k Hk. unfold read_line. destruct (memchr_nl_spec s rest k) as [-> ->]; [done..|].
  by rewrite (proj2 (Z.ltb_ge _ _)).
Qed.

Lemma dec_no_lf n : 0 <= n -> no_lf (dec_unsigned n).
Proof. intros Hn. eapply Forall_impl; [by apply dec_unsigned_chars|]. unfold is_digit, LF. intros; lia. Qed.

Lemma reads_number n : 0 <= n < 2 ^ 64 -> reads read_number (num_line n) n.
Proof.
  intros Hn rest k Hk. unfold read_number. change (num_line n) with (text_line (dec_unsigned n)).
  destruct (memchr_nl_spec (dec_unsigned n) rest k) as [-> ->]; [apply dec_no_lf; lia|done|].
  unfold text_line. cbn [cu_s]. rewrite <- app_assoc. rewrite strtoul10_dec; [|done|reflexivity].
  by rewrite !blen_app, (proj2 (Z.eqb_eq _ _)) by lia.
Qed.

Record range_ok (sr : ShardGroupSlotRange) : Prop := {
  ro_start : 0 <= sr_start_slot sr < 2 ^ 32;
  ro_end : 0 <= sr_end_slot sr < 2 ^ 32;
  ro_type : 0 <= sr_type sr < 2 ^ 32;
  ro_key : 0 <= sr_migration_session_key sr < 2 ^ 64
}.

(** A C string of at most [max] bytes that fits in a line. *)
Record line_ok (max : Z) (s : list Z) : Prop := {
  lo_len : blen s <= max;
  lo_chars : Forall (fun c => c <> 0) s;
  lo_lf : no_lf s
}.

Record node_ok (n : ShardGroupNode) : Prop := {
  no_id : line_ok RAFT_SHARDGROUP_NODEID_LEN (sgn_node_id n);
  no_addr : addr_ok (sgn_addr n);
  no_host : no_lf (na_host (sgn_addr n))
}.

Record sg_ok (sg : ShardGroup) : Prop := {
  so_id : line_ok RAFT_DBID_LEN (sg_id sg);
  so_ranges : Forall range_ok (sg_slot_ranges sg);
  so_nodes : Forall node_ok (sg_nodes sg);
  so_size : SHARDGROUPNODE_MAXLEN * sg_nodes_num sg + SLOT_RANGE_MAXLEN * sg_slot_ranges_num sg < 2 ^ 32 - 32
}.

Lemma u32_id z : 0 <= z < 2 ^ 32 -> u32 z = z.
Proof. apply Z.mod_small. Qed.

Lemma reads_range sr : range_ok sr -> reads read_range (range_text sr) sr.
Proof.
  intros [Hs He Ht Hk]. unfold read_range, range_text.
  repeat (eapply reads_bind; [apply reads_number; lia|]). rewrite <- (app_nil_r (num_line (sr_migration_session_key sr))).
  eapply reads_bind; [apply reads_number; lia|]. rewrite !u32_id by lia. destruct sr. apply reads_ret.
Qed.

Lemma addr_no_lf a : addr_ok a -> no_lf (na_host a) -> no_lf (addr_text a).
Proof.
  intros Ha Hh. unfold addr_text, no_lf. apply Forall_app. split; [done|]. constructor; [done|].
  apply dec_no_lf. destruct Ha. lia.
Qed.

Lemma reads_addr a : addr_ok a -> no_lf (na_host a) -> reads read_addr (text_line (addr_text a)) a.
Proof.
  intros Ha Hh rest k Hk. unfold read_addr.
  destruct (memchr_nl_spec (addr_text a) rest k) as [-> ->]; [by apply addr_no_lf|done|].
  by rewrite NodeAddrParse_text.
Qed.

Lemma reads_node n : node_ok n -> reads read_node (node_text n) n.
Proof.
  intros [[Hl Hc Hlf] Ha Hh]. unfold read_node, node_text.
  eapply reads_bind; [by apply reads_line|]. rewrite <- (app_nil_r (text_line (addr_text _))).
  eapply reads_bind; [by apply reads_addr|]. rewrite c_string_nonzero by done. destruct n. apply reads_ret.
Qed.

(** The text of a group. *)
Definition group_text (sg : ShardGroup) : list Z :=
  text_line (sg_id sg) ++ (num_line (sg_slot_ranges_num sg) ++ num_line (sg_nodes_num sg)) ++
  concat (range_text <$> sg_slot_ranges sg) ++ concat (node_text <$> sg_nodes sg).

(** What of a group is in its text. *)
Definition sg_config (sg : ShardGroup) : ShardGroup :=
  ShardGroupInit <| sg_id := sg_id sg |> <| sg_slot_ranges := sg_slot_ranges sg |> <| sg_nodes := sg_nodes sg |>.

Lemma sg_ok_counts sg : sg_ok sg -> 0 <= sg_slot_ranges_num sg < 2 ^ 32 - 64 /\ 0 <= sg_nodes_num sg < 2 ^ 32 - 64.
Proof.
  intros [_ _ _ Hs]. revert Hs. unfold sg_slot_ranges_num, sg_nodes_num, SHARDGROUPNODE_MAXLEN,
    SLOT_RANGE_MAXLEN, NODEADDR_MAXLEN, RAFT_SHARDGROUP_NODEID_LEN. lia.
Qed.

Lemma reads_group sg : sg_ok sg -> reads read_group (group_text sg) (sg_config sg).
Proof.
  intros Hsg. pose proof (sg_ok_counts sg Hsg) as [Hr Hn]. destruct Hsg as [[Hl Hc Hlf] Hranges Hnodes _].
  unfold read_group, group_text. rewrite <- app_assoc.
  eapply reads_bind; [by apply reads_line|].
  do 2 (eapply reads_bind; [apply reads_number; lia|]). rewrite !u32_id by lia.
  unfold sg_slot_ranges_num, sg_nodes_num. rewrite !Nat2Z.id.
  eapply reads_bind.
  { apply reads_array. eapply Forall_impl; [exact Hranges|]. apply reads_range. }
  rewrite <- (app_nil_r (concat _)). eapply reads_bind.
  { apply reads_array. eapply Forall_impl; [exact Hnodes|]. apply reads_node. }
  rewrite c_string_nonzero by done. apply reads_ret.
Qed.

Lemma blen_num_line n : 0 <= n < 2 ^ 64 -> 0 < blen (num_line n) <= 21.
Proof. intros Hn. unfold num_line. rewrite blen_app. pose proof (dec_unsigned_length n Hn). unfold blen. cbn [length]. lia. Qed.

Lemma blen_range sr : range_ok sr -> blen (range_text sr) <= 84.
Proof.
  intros [? ? ? ?]. unfold range_text. rewrite !blen_app.
  pose proof (blen_num_line (sr_start_slot sr)). pose proof (blen_num_line (sr_end_slot sr)).
  pose proof (blen_num_line (sr_type sr)). pose proof (blen_num_line (sr_migration_session_key sr)). lia.
Qed.

Lemma blen_node n : node_ok n -> blen (node_text n) <= 319.
Proof.
  intros [[Hl _ _] [Hp Hh _] _]. unfold node_text, text_line, addr_text. rewrite !blen_app. cbn [app].
  pose proof (dec_unsigned_length (na_port (sgn_addr n)) ltac:(lia)).
  unfold RAFT_SHARDGROUP_NODEID_LEN, blen in *. cbn [length]. lia.
Qed.

Lemma serialize_appends sg : sg_ok sg ->
  appends (serialize_calls sg) (group_text sg) (2 ^ 47).
Proof.
  intros Hsg. pose proof (sg_ok_counts sg Hsg) as [Hr Hn]. destruct Hsg as [[Hl Hc Hlf] Hranges Hnodes _].
  assert (appends (serialize_calls sg) (group_text sg)
    (8192 + (8192 + (Z.of_nat (length (sg_slot_ranges sg)) * 8192 + Z.of_nat (length (sg_nodes sg)) * 8192)))) as H.
  { unfold sg_slot_ranges_num, sg_nodes_num in *.
    apply appends_then; [lia| |apply appends_then; [lia| |apply appends_then; [lia| |]]].
    - apply appends_short. unfold text_line. rewrite blen_app. unfold RAFT_DBID_LEN in Hl. change (blen [LF]) with 1. lia.
    - apply appends_short. rewrite blen_app. pose proof (blen_num_line (sg_slot_ranges_num sg)).
      pose proof (blen_num_line (sg_nodes_num sg)). unfold sg_slot_ranges_num, sg_nodes_num in *. lia.
    - apply appends_for_each; [lia|]. eapply Forall_impl; [exact Hranges|]. intros sr Hsr.
      apply appends_short. pose proof (blen_range sr Hsr). lia.
    - apply appends_for_each; [lia|]. eapply Forall_impl; [exact Hnodes|]. intros n Hno.
      apply appends_short. pose proof (blen_node n Hno). lia. }
  intros b Hb Hsz. unfold sg_slot_ranges_num, sg_nodes_num in *.
  destruct (H b) as (l & ? & ? & ?); [done|lia|]. exists l. split_and!; [done|done|lia|lia].
Qed.

Lemma group_serialize_text sg : sg_ok sg -> ShardGroupSerialize sg = Done (group_text sg).
Proof.
  intros Hsg. unfold ShardGroupSerialize, buffer_text.
  assert (0 < serialize_buf_size sg < 2 ^ 32) as Hsz.
  { destruct Hsg as [_ _ _ Hs]. unfold serialize_buf_size. rewrite u32_id;
      revert Hs; unfold SHARDGROUP_MAXLEN, sg_slot_ranges_num, sg_nodes_num, SHARDGROUPNODE_MAXLEN,
      SLOT_RANGE_MAXLEN, NODEADDR_MAXLEN, RAFT_SHARDGROUP_NODEID_LEN; lia. }
  destruct (serialize_appends sg Hsg (mk_strbuf [] (serialize_buf_size sg))) as (l & -> & _ & _); [|cbn [sb_len]; lia|done].
  unfold buf_ok. cbn [sb_len sb_text]. change (blen []) with 0. lia.
Qed.

Lemma deserialize_text sg rest : sg_ok sg ->
  ShardGroupDeserialize (group_text sg ++ rest) (blen (group_text sg)) = Done (Some (sg_config sg)).
Proof.
  intros Hsg. unfold ShardGroupDeserialize. pose proof (reads_group sg Hsg rest 0) as H. rewrite Z.add_0_r in H.
  by rewrite H.
Qed.

(** (roundtrip). A shard group that goes through the Raft log arrives:
    [ShardGroupSerialize] never fails for a group whose strings fit in their
    lines, and [ShardGroupDeserialize] finds in its text, whatever bytes follow
    it, the same identifier, slot ranges and nodes, with the rest of the group as
    in a new one. *)
Theorem shard_group_roundtrip (sg : ShardGroup) :
  sg_ok sg ->
  exists text, ShardGroupSerialize sg = Done text /\
    forall rest, ShardGroupDeserialize (text ++ rest) (blen text) = Done (Some (sg_config sg)).
Proof.
  intros Hsg. exists (group_text sg). split; [by apply group_serialize_text|]. intros rest. by apply deserialize_text.
Qed.

Definition demo_node (host : String.string) : ShardGroupNode :=
  mk_sgnode (replicate 40 97) (demo_addr host).

(** A group with one node. *)
Definition demo_group (id : Z) (local : bool) (ranges : list ShardGroupSlotRange) : ShardGroup :=
  ShardGroupInit <| sg_id := replicate 32 id |> <| sg_slot_ranges := ranges |>
                 <| sg_nodes := [demo_node "10.0.0.1"] |> <| sg_local := local |>.

Ltac solve_chars := repeat (constructor; [first [done | discriminate]|]); constructor.

Lemma demo_group_ok id local ranges :
  id <> 0 -> id <> LF -> Forall range_ok ranges -> (length ranges <= 1000)%nat ->
  sg_ok (demo_group id local ranges).
Proof.
  intros H0 Hlf Hr Hlen. split; cbn.
  - split; [done|solve_chars|solve_chars].
  - done.
  - constructor; [|done]. split; [split; [done|..]| |]; [solve_chars..| |solve_chars].
    split; [cbn; lia|vm_compute; discriminate|solve_chars].
  - unfold sg_slot_ranges_num, sg_nodes_num. cbn.
    unfold SHARDGROUPNODE_MAXLEN, SLOT_RANGE_MAXLEN, NODEADDR_MAXLEN, RAFT_SHARDGROUP_NODEID_LEN. lia.
Qed.

Lemma shard_group_roundtrip_witness :
  let sg := demo_group 97 false [mk_range 0 100 SLOTRANGE_TYPE_STABLE 0; mk_range 5000 6000 SLOTRANGE_TYPE_MIGRATING 77] in
  exists text, ShardGroupSerialize sg = Done text /\
    forall rest, ShardGroupDeserialize (text ++ rest) (blen text) = Done (Some (sg_config sg)).
Proof.
  apply (shard_group_roundtrip (demo_group 97 false [mk_range 0 100 SLOTRANGE_TYPE_STABLE 0; mk_range 5000 6000 SLOTRANGE_TYPE_MIGRATING 77])).
  apply demo_group_ok; [done|done| |cbn; lia]. by repeat constructor.
Defined.

(** A line break in an identifier (any 32 bytes are accepted) is not written in
    another way: no server can apply the entry. *)
Example newline_in_id :
  let sg := (demo_group 97 false []) <| sg_id := LF :: replicate 31 97 |> in
  let text := group_text sg in
  ShardGroupSerialize sg = Done text /\ ShardGroupDeserialize text (blen text) = Abort.
Proof. split; vm_compute; reflexivity. Qed.

(** ** Comparison *)

Lemma strcmp_zero a b :
  Forall (fun c => 0 < c) a -> Forall (fun c => 0 < c) b -> strcmp a b = 0 <-> a = b.
Proof.
  intros Ha. revert b. induction Ha as [|x a Hx Ha IH]; intros b Hb; destruct Hb as [|y b Hy Hb]; simpl.
  - done.
  - split; [lia|done].
  - split; [lia|done].
  - destruct (Z.eqb_spec x y) as [->|].
    + rewrite IH by done. split; [by intros ->|by intros [= ->]].
    + split; [lia|by intros [= ->]].
Qed.

(** A C string: its bytes are positive as [unsigned char]. *)
Definition str_ok (s : list Z) : Prop := Forall (fun c => 0 < c) s.

Definition node_strings (n : ShardGroupNode) : Prop := str_ok (sgn_node_id n) /\ str_ok (na_host (sgn_addr n)).

Lemma compare_nodes_zero a b :
  length a = length b -> Forall node_strings a -> Forall node_strings b ->
  compare_nodes a b = 0 <-> a = b.
Proof.
  intros Hlen Ha. revert b Hlen. induction Ha as [|m a [Hm1 Hm2] Ha IH]; intros [|n b] Hlen Hb;
    cbn in Hlen; try done.
  apply Forall_cons in Hb as [[Hn1 Hn2] Hb]. cbn [compare_nodes].
  destruct m as [mi [mp mh]], n as [ni [np nh]]; cbn [sgn_node_id sgn_addr na_host na_port] in *.
  pose proof (strcmp_zero mi ni Hm1 Hn1). pose proof (strcmp_zero mh nh Hm2 Hn2).
  destruct (Z.eqb_spec (strcmp mi ni) 0); cbn [negb]; [|split; [done|intros [=]; subst; exfalso; tauto]].
  destruct (Z.eqb_spec (strcmp mh nh) 0); cbn [negb]; [|split; [done|intros [=]; subst; exfalso; tauto]].
  destruct (Z.eqb_spec mp np); cbn [negb]; [|split; [lia|intros [=]; subst; exfalso; tauto]].
  rewrite IH by (done || lia). split; [intros ->|intros [=]; done]. repeat f_equal; tauto.
Qed.

(** Two groups compare equal exactly when they have the same nodes in the same
    order (identifiers and slots are not compared). *)
Lemma compare_zero a b :
  sg_nodes_num a < 2 ^ 32 -> sg_nodes_num b < 2 ^ 32 ->
  Forall node_strings (sg_nodes a) -> Forall node_strings (sg_nodes b) ->
  compareShardGroups a b = 0 <-> sg_nodes a = sg_nodes b.
Proof.
  unfold compareShardGroups. intros Hla Hlb Ha Hb.
  destruct (Z.eqb_spec (sg_nodes_num a) (sg_nodes_num b)) as [E|E]; cbn [negb].
  - apply compare_nodes_zero; try done. unfold sg_nodes_num in E. lia.
  - split; [|intros H; unfold sg_nodes_num in E; by rewrite H in E].
    unfold to_int, sg_nodes_num in *. intros H. exfalso.
    pose proof (Z.div_mod (Z.of_nat (length (sg_nodes a)) - Z.of_nat (length (sg_nodes b)) + 2 ^ 31) (2 ^ 32) ltac:(lia)). lia.
Qed.

(** ** Several groups in one entry *)

Definition payload_item (sg : ShardGroup) : list Z :=
  num_line (blen (group_text sg)) ++ text_line (group_text sg).

Definition payload_text (sgs : list ShardGroup) : list Z :=
  num_line (Z.of_nat (length sgs)) ++ concat (payload_item <$> sgs).

(** [m] stops, or appends [t]; the buffer grows by [k] at most. *)
Definition may_append (m : M strbuf unit) (t : list Z) (k : Z) : Prop :=
  forall b u b', buf_ok b -> sb_len b + k < 2 ^ 64 -> m b = Done (u, b') ->
    sb_text b' = sb_text b ++ t /\ buf_ok b' /\ sb_len b <= sb_len b' <= sb_len b + k.

Lemma may_append_cat t : may_append (catsnprintf t) t (blen t + 4096).
Proof.
  intros b u b' Hb Hsz. pose proof (blen_nonneg t). rewrite catsnprintf_run by (done || lia).
  destruct (Z.eqb_spec (blen t) (sb_len b - blen (sb_text b) + 4096)) as [E|E]; [done|].
  intros [= <- <-]. destruct (grown_ok b t Hb E). cbn [sb_text sb_len] in *. split_and!; [done|done|lia|lia].
Qed.

Lemma may_append_then m1 m2 t1 t2 k1 k2 : 0 <= k2 ->
  may_append m1 t1 k1 -> may_append m2 t2 k2 -> may_append (m1 ;; m2) (t1 ++ t2) (k1 + k2).
Proof.
  intros Hk H1 H2 b u b2 Hb Hsz (u1 & b1 & E1 & E2)%bind_done.
  destruct (H1 b u1 b1) as (Ht1 & Hb1 & Hl1); [done|lia|done|].
  destruct (H2 b1 u b2) as (-> & Hb2 & Hl2); [done|lia|done|].
  rewrite Ht1, app_assoc. split_and!; [done|done|lia|lia].
Qed.

Definition payload_growth (sgs : list ShardGroup) : Z :=
  foldr (fun sg k => blen (payload_item sg) + 4096 + k) 0 sgs.

Lemma payload_growth_nonneg sgs : 0 <= payload_growth sgs.
Proof.
  induction sgs as [|sg sgs IH]; [done|]. pose proof (blen_nonneg (payload_item sg)).
  change (payload_growth (sg :: sgs)) with (blen (payload_item sg) + 4096 + payload_growth sgs). lia.
Qed.

Lemma may_append_payloads sgs : Forall sg_ok sgs ->
  may_append (for_each sgs put_payload) (concat (payload_item <$> sgs)) (payload_growth sgs).
Proof.
  induction 1 as [|sg sgs Hsg Hsgs IH].
  - intros b u b' Hb _ [= <- <-]. rewrite app_nil_r. cbn. split_and!; [done|done|lia|lia].
  - cbn [for_each fmap list_fmap concat payload_growth foldr].
    apply may_append_then; [apply payload_growth_nonneg| |done].
    intros b u b' Hb Hsz. unfold put_payload. rewrite group_serialize_text by done.
    by apply may_append_cat.
Qed.

(** The payload, when no assertion in [catsnprintf] fails. *)
Lemma groups_payload_text sgs text :
  Forall sg_ok sgs -> payload_growth sgs < 2 ^ 63 -> Z.of_nat (length sgs) < 2 ^ 31 ->
  groups_payload sgs = Done text -> text = payload_text sgs.
Proof.
  intros Hsgs Hsz Hn. unfold groups_payload, buffer_text.
  destruct (bind _ _ _) as [[u b]| |] eqn:E; [|done|done]. intros [= <-].
  pose proof (blen_num_line (Z.of_nat (length sgs)) ltac:(lia)) as Hnum.
  pose proof (payload_growth_nonneg sgs).
  pose proof (may_append_then _ _ _ _ _ _ (payload_growth_nonneg sgs)
    (may_append_cat (num_line (Z.of_nat (length sgs)))) (may_append_payloads sgs Hsgs)) as Happ.
  destruct (Happ (mk_strbuf [] 4096) u b) as (Ht & _ & _); [done|cbn [sb_len]; lia|exact E|exact Ht].
Qed.

Lemma blen_concat_le {A} (text : A -> list Z) l b :
  Forall (fun x => blen (text x) <= b) l -> blen (concat (text <$> l)) <= Z.of_nat (length l) * b.
Proof.
  induction 1 as [|x l Hx _ IH]; [done|]. rewrite fmap_cons. cbn [concat length].
  rewrite blen_app, Nat2Z.inj_succ, Z.mul_succ_l. lia.
Qed.

Lemma group_text_bound sg : sg_ok sg -> blen (group_text sg) <= 2 ^ 42.
Proof.
  intros Hsg. pose proof (sg_ok_counts sg Hsg) as [Hr Hn]. destruct Hsg as [[Hl _ _] Hranges Hnodes _].
  unfold group_text, text_line. rewrite !blen_app. change (blen [LF]) with 1. unfold RAFT_DBID_LEN in Hl.
  pose proof (blen_num_line (sg_slot_ranges_num sg) ltac:(lia)).
  pose proof (blen_num_line (sg_nodes_num sg) ltac:(lia)).
  pose proof (blen_concat_le range_text (sg_slot_ranges sg) 84 ltac:(eapply Forall_impl; [exact Hranges|]; apply blen_range)).
  pose proof (blen_concat_le node_text (sg_nodes sg) 319 ltac:(eapply Forall_impl; [exact Hnodes|]; apply blen_node)).
  unfold sg_slot_ranges_num, sg_nodes_num in *. lia.
Qed.

Lemma payload_growth_bound sgs : Forall sg_ok sgs -> payload_growth sgs <= Z.of_nat (length sgs) * 2 ^ 43.
Proof.
  induction 1 as [|sg sgs Hsg _ IH]; [done|].
  change (payload_growth (sg :: sgs)) with (blen (payload_item sg) + 4096 + payload_growth sgs).
  pose proof (group_text_bound sg Hsg). pose proof (blen_nonneg (group_text sg)).
  unfold payload_item, text_line. rewrite !blen_app. change (blen [LF]) with 1.
  pose proof (blen_num_line (blen (group_text sg)) ltac:(lia)). cbn [length]. lia.
Qed.
