(* ===== verification/Sharding.v ===== *)
(** * The table of shard groups ([redisraft/src/cluster.c], [raft.c])

    [ShardingInfo] maps identifiers to shard groups and every hash slot to the
    groups that serve it, migrate it and import it.  It changes only when entries
    of the Raft log are applied, and when a snapshot is loaded. *)

From stdpp Require Import base list numbers tactics gmap strings sorting.
From S2P Require Import Prelude Libc File Multibulk PageLog Serialization NodeAddr ShardGroup.

Local Open Scope Z_scope.

(** ** State *)

(** A [ShardGroup *] is an address; a slot that is not in a slot map has the
    value NULL there, and a term that is not in [si_max_importing_term] is 0. *)
Record ShardingInfo := mk_si {
  si_shard_groups_num : Z;
  si_shard_group_map : gmap (list Z) Z;
  si_is_sharding : bool;
  si_stable_slots_map : gmap Z Z;
  si_importing_slots_map : gmap Z Z;
  si_migrating_slots_map : gmap Z Z;
  si_max_importing_term : gmap Z Z
}.
#[export] Instance eta_si : Eta ShardingInfo := fun i =>
  mk_si (si_shard_groups_num i) (si_shard_group_map i) (si_is_sharding i) (si_stable_slots_map i)
    (si_importing_slots_map i) (si_migrating_slots_map i) (si_max_importing_term i).
#[export] Instance set_si_num : Setter si_shard_groups_num. Proof. solve_setter. Defined.
#[export] Instance set_si_map : Setter si_shard_group_map. Proof. solve_setter. Defined.
#[export] Instance set_si_is_sharding : Setter si_is_sharding. Proof. solve_setter. Defined.
#[export] Instance set_si_stable : Setter si_stable_slots_map. Proof. solve_setter. Defined.
#[export] Instance set_si_importing : Setter si_importing_slots_map. Proof. solve_setter. Defined.
#[export] Instance set_si_migrating : Setter si_migrating_slots_map. Proof. solve_setter. Defined.
#[export] Instance set_si_terms : Setter si_max_importing_term. Proof. solve_setter. Defined.

(** The part of [RedisRaftCtx] that matters here: [meta.dbid],
    [snapshot_info.dbid], [config.external_sharding], and the allocated shard
    groups ([rr_brk]: the next free address). *)
Record RedisRaftCtx := mk_rr {
  rr_meta_dbid : list Z;
  rr_snapshot_dbid : list Z;
  rr_external_sharding : bool;
  rr_heap : gmap Z ShardGroup;
  rr_brk : Z;
  rr_sharding_info : ShardingInfo
}.
#[export] Instance eta_rr : Eta RedisRaftCtx := fun r =>
  mk_rr (rr_meta_dbid r) (rr_snapshot_dbid r) (rr_external_sharding r) (rr_heap r) (rr_brk r)
    (rr_sharding_info r).
#[export] Instance set_rr_heap : Setter rr_heap. Proof. solve_setter. Defined.
#[export] Instance set_rr_brk : Setter rr_brk. Proof. solve_setter. Defined.
#[export] Instance set_rr_si : Setter rr_sharding_info. Proof. solve_setter. Defined.

Definition with_si {A} (m : M ShardingInfo A) : M RedisRaftCtx A :=
  zoom rr_sharding_info (fun i r => r <| rr_sharding_info := i |>) m.

(** Follow a pointer; NULL and freed groups abort. *)
Definition deref (p : Z) : M RedisRaftCtx ShardGroup :=
  r <- get ;;
  match rr_heap r !! p with
  | Some sg => ret sg
  | None => abort
  end.

Definition update_group (p : Z) (f : ShardGroup -> ShardGroup) : M RedisRaftCtx unit :=
  sg <- deref p ;;
  modify (fun r => r <| rr_heap := <[p := f sg]> (rr_heap r) |>).

Definition ShardGroupFree (p : Z) : M RedisRaftCtx unit :=
  _ <- deref p ;;
  modify (fun r => r <| rr_heap := delete p (rr_heap r) |>).

(** A [RedisModuleDict] is visited in the order of its keys. *)
Fixpoint bytes_le (a b : list Z) : bool :=
  match a, b with
  | [], _ => true
  | _ :: _, [] => false
  | x :: a', y :: b' => (x <? y) || ((x =? y) && bytes_le a' b')
  end.

Definition key_le (p q : list Z * Z) : Prop := bytes_le (fst p) (fst q) = true.
#[export] Instance key_le_dec p q : Decision (key_le p q).
Proof. unfold key_le. apply _. Defined.

Definition dict_entries (d : gmap (list Z) Z) : list (list Z * Z) :=
  merge_sort key_le (map_to_list d).

(** ** Validation *)

Definition is_mapped (m : gmap Z Z) (slot : Z) : bool := bool_decide (is_Some (m !! slot)).

Definition slot_free (si : ShardingInfo) (type slot : Z) : bool :=
  if is_mapped (si_stable_slots_map si) slot then false
  else if type =? SLOTRANGE_TYPE_MIGRATING then negb (is_mapped (si_migrating_slots_map si) slot)
  else if type =? SLOTRANGE_TYPE_IMPORTING then negb (is_mapped (si_importing_slots_map si) slot)
  else true.

(** [for (i = start_slot; i <= end_slot; i++)] *)
Definition range_slots (sr : ShardGroupSlotRange) : list Z :=
  seqZ (sr_start_slot sr) (sr_end_slot sr - sr_start_slot sr + 1).

Definition range_free (si : ShardingInfo) (sr : ShardGroupSlotRange) : bool :=
  if HashSlotRangeValid (sr_start_slot sr) (sr_end_slot sr)
  then forallb (slot_free si (sr_type sr)) (range_slots sr) else false.

Definition ShardingInfoValidateShardGroup (si : ShardingInfo) (new_sg : ShardGroup) : bool :=
  forallb (range_free si) (sg_slot_ranges new_sg).

(** ** Adding, updating, removing *)

Definition GetShardGroupById (si : ShardingInfo) (id : list Z) : option Z := si_shard_group_map si !! id.

Definition map_slot (p : Z) (local : bool) (type slot : Z) : M ShardingInfo unit :=
  if type =? SLOTRANGE_TYPE_STABLE then
    when local (modify (fun i => i <| si_max_importing_term ::= <[slot := 0]> |>)) ;;
    modify (fun i => i <| si_stable_slots_map ::= <[slot := p]> |>)
  else if type =? SLOTRANGE_TYPE_IMPORTING then
    modify (fun i => i <| si_importing_slots_map ::= <[slot := p]> |>)
  else if type =? SLOTRANGE_TYPE_MIGRATING then
    when local (modify (fun i => i <| si_max_importing_term ::= <[slot := 0]> |>)) ;;
    modify (fun i => i <| si_migrating_slots_map ::= <[slot := p]> |>)
  else abort.

Definition map_ranges (p : Z) (sg : ShardGroup) : M ShardingInfo unit :=
  for_each (sg_slot_ranges sg) (fun sr =>
    for_each (range_slots sr) (map_slot p (sg_local sg) (sr_type sr))).

(** Whether a group makes a cluster that is not sharded: it is our own and has
    every slot. *)
Definition covers_all (s : ShardGroup) : bool :=
  match sg_slot_ranges s with
  | [sr] => sg_local s && (sr_start_slot sr =? REDIS_RAFT_HASH_MIN_SLOT) &&
            (sr_end_slot sr =? REDIS_RAFT_HASH_MAX_SLOT) && (sr_type sr =? SLOTRANGE_TYPE_STABLE)
  | _ => false
  end.

Definition set_is_sharding : M RedisRaftCtx unit :=
  si <- gets rr_sharding_info ;;
  when (negb (si_is_sharding si)) (
    if negb (si_shard_groups_num si =? 1)
    then with_si (modify (fun i => i <| si_is_sharding := true |>))
    else match dict_entries (si_shard_group_map si) with
         | [] => abort
         | (_, p) :: _ =>
             s <- deref p ;;
             when (negb (covers_all s)) (with_si (modify (fun i => i <| si_is_sharding := true |>)))
         end).

(** A group that is not added is freed, so it is allocated here, at the first
    point where it stays. *)
Definition link_group (sg : ShardGroup) : M RedisRaftCtx unit :=
  r <- get ;;
  let p := rr_brk r in
  let sg := sg <| sg_next_redir := 0 |> <| sg_use_conn_addr := false |>
               <| sg_node_conn_idx := 0 |> <| sg_conn := false |> in
  modify (fun r => r <| rr_heap ::= <[p := sg]> |> <| rr_brk := p + 1 |>) ;;
  with_si (modify (fun i => i <| si_shard_group_map ::= <[sg_id sg := p]> |>
                              <| si_shard_groups_num := u32 (si_shard_groups_num i + 1) |>)) ;;
  with_si (map_ranges p sg) ;;
  when (negb (rr_external_sharding r) && (0 <? sg_nodes_num sg))
    (update_group p (fun sg => sg <| sg_conn := true |>)) ;;
  set_is_sharding.

Definition ShardingInfoAddShardGroup (sg : ShardGroup) : M RedisRaftCtx Z :=
  r <- get ;;
  let si := rr_sharding_info r in
  if negb (ShardingInfoValidateShardGroup si sg) then ret RR_ERROR else
  if RAFT_DBID_LEN + 1 <=? blen (sg_id sg) then ret RR_ERROR else
  match si_shard_group_map si !! sg_id sg with
  | Some _ => ret RR_ERROR
  | None => link_group sg ;; ret RR_OK
  end.

(** [sizeof(new_sg->id)] bytes are compared; identifiers end in NULs. *)
Definition ShardingInfoUpdateShardGroup (new_sg : ShardGroup) : M RedisRaftCtx Z :=
  r <- get ;;
  if bool_decide (rr_snapshot_dbid r = sg_id new_sg) then ret RR_OK else
  match GetShardGroupById (rr_sharding_info r) (sg_id new_sg) with
  | None => ret RR_ERROR
  | Some p => update_group p (fun sg => sg <| sg_nodes := sg_nodes new_sg |>) ;; ret RR_OK
  end.

Definition freeShardGroupMap : M RedisRaftCtx unit :=
  si <- gets rr_sharding_info ;;
  for_each (snd <$> dict_entries (si_shard_group_map si)) ShardGroupFree.

Definition clear_maps : M ShardingInfo unit :=
  modify (fun i => i <| si_shard_group_map := ∅ |> <| si_shard_groups_num := 0 |>
                     <| si_stable_slots_map := ∅ |> <| si_importing_slots_map := ∅ |>
                     <| si_migrating_slots_map := ∅ |>).

Definition ShardingInfoReset : M RedisRaftCtx unit :=
  freeShardGroupMap ;;
  with_si clear_maps ;;
  with_si (modify (fun i => i <| si_is_sharding := false |>)).

Definition si_zero : ShardingInfo := mk_si 0 ∅ false ∅ ∅ ∅ ∅.

Definition ShardingInfoInit : M RedisRaftCtx unit :=
  modify (fun r => r <| rr_sharding_info := si_zero |>) ;;
  ShardingInfoReset.

(** ** Applying log entries *)

Definition RAFT_LOGTYPE_ADD_SHARDGROUP : Z := 101.
Definition RAFT_LOGTYPE_UPDATE_SHARDGROUP : Z := 102.
Definition RAFT_LOGTYPE_REPLACE_SHARDGROUPS : Z := 103.
Definition RAFT_LOGTYPE_LOCK_KEYS : Z := 104.
Definition RAFT_LOGTYPE_DELETE_UNLOCK_KEYS : Z := 105.
Definition RAFT_LOGTYPE_IMPORT_KEYS : Z := 106.

(** A reply to the client whose request is attached to the entry. *)
Inductive reply := SimpleString (text : list Z) | ReplyError (text : list Z).

#[export] Instance reply_eq_dec : EqDecision reply.
Proof. solve_decision. Defined.

Definition simple (s : String.string) : reply := SimpleString (bytes_of s).
Definition error (s : String.string) : reply := ReplyError (bytes_of s).

(** [if (req) reply;] *)
Definition answer (req : bool) (rep : reply) : list reply := if req then [rep] else [].

(** The result of a pure computation. *)
Definition lift {S A} (o : outcome A) : M S A := fun s =>
  match o with
  | Done a => Done (a, s)
  | Abort => Abort
  | OutOfFuel => OutOfFuel
  end.

(** [req]: whether a client waits.  When the text cannot be read, nothing is
    answered. *)
Definition applyShardGroupChange (type : Z) (data : list Z) (req : bool) : M RedisRaftCtx (list reply) :=
  osg <- lift (ShardGroupDeserialize data (blen data)) ;;
  match osg with
  | None => ret []
  | Some sg =>
      res <- (if type =? RAFT_LOGTYPE_ADD_SHARDGROUP then ShardingInfoAddShardGroup sg
              else if type =? RAFT_LOGTYPE_UPDATE_SHARDGROUP then ShardingInfoUpdateShardGroup sg
              else abort) ;;
      ret (answer req (if res =? RR_OK then simple "OK" else error "ERR Invalid ShardGroup Update"))
  end.

(** [nl = strchr(payload, '\n'); v = strtoul(payload, &endptr, 10);
    assert(endptr == nl); payload = nl + 1;] *)
Definition payload_number (payload : list Z) : outcome (Z * list Z) :=
  match find_line payload with
  | None => Abort
  | Some l =>
      let '(v, endptr) := strtoul10 payload in
      if blen endptr =? blen payload - (blen l - 1) then Done (v, drop (length l) payload) else Abort
  end.

(** [!strncmp(sg->id, rr->meta.dbid, RAFT_DBID_LEN)] *)
Definition same_dbid (id dbid : list Z) : bool :=
  bool_decide (take (Z.to_nat RAFT_DBID_LEN) id = take (Z.to_nat RAFT_DBID_LEN) dbid).

Definition set_local (dbid : list Z) (sg : ShardGroup) : ShardGroup :=
  if same_dbid (sg_id sg) dbid then sg <| sg_local := true |> else sg.

Fixpoint replace_loop (n : nat) (payload : list Z) (req : bool) : M RedisRaftCtx (list reply) :=
  match n with
  | O => ret (answer req (simple "OK"))
  | S n' =>
      let* (payload_len, payload) := lift (payload_number payload) in
      osg <- lift (ShardGroupDeserialize payload payload_len) ;;
      match osg with
      | None => ret []
      | Some sg =>
          dbid <- gets rr_meta_dbid ;;
          res <- ShardingInfoAddShardGroup (set_local dbid sg) ;;
          c_assert (res =? RR_OK) ;;
          replace_loop n' (drop (Z.to_nat (payload_len + 1)) payload) req
      end
  end.

(** [is_sharding] and the terms stay as they are. *)
Definition replaceShardGroups (data : list Z) (req : bool) : M RedisRaftCtx (list reply) :=
  freeShardGroupMap ;;
  with_si clear_maps ;;
  let* (num_payloads, payload) := lift (payload_number data) in
  replace_loop (Z.to_nat (to_int num_payloads)) payload req.

(** ** Snapshots *)

(** What has been written to the snapshot file, value by value; reading a value
    of the wrong kind ends the process. *)
Inductive rdb_value := RdbUnsigned (v : Z) | RdbString (s : list Z).

Definition LoadUnsigned (rdb : list rdb_value) : outcome (Z * list rdb_value) :=
  match rdb with
  | RdbUnsigned v :: rdb' => Done (v, rdb')
  | _ => Abort
  end.

Definition LoadStringBuffer (rdb : list rdb_value) : outcome (list Z * list rdb_value) :=
  match rdb with
  | RdbString s :: rdb' => Done (s, rdb')
  | _ => Abort
  end.

Definition all_slots : list Z := seqZ 0 REDIS_RAFT_HASH_SLOTS.

Definition importing_term (si : ShardingInfo) (slot : Z) : Z := default 0 (si_max_importing_term si !! slot).

Fixpoint save_groups (groups : list Z) : M RedisRaftCtx (list rdb_value) :=
  match groups with
  | [] => ret []
  | p :: groups' =>
      sg <- deref p ;;
      buf <- lift (ShardGroupSerialize sg) ;;
      rest <- save_groups groups' ;;
      ret (RdbString buf :: rest)
  end.

Definition ShardingInfoRDBSave : M RedisRaftCtx (list rdb_value) :=
  si <- gets rr_sharding_info ;;
  groups <- save_groups (snd <$> dict_entries (si_shard_group_map si)) ;;
  ret (RdbUnsigned (si_shard_groups_num si) :: groups ++
       ((fun i => RdbUnsigned (u64 (importing_term si i))) <$> all_slots)).

Fixpoint load_groups (n : nat) (rdb : list rdb_value) : M RedisRaftCtx (list rdb_value) :=
  match n with
  | O => ret rdb
  | S n' =>
      let* (buf, rdb) := lift (LoadStringBuffer rdb) in
      osg <- lift (ShardGroupDeserialize buf (blen buf)) ;;
      match osg with
      | None => abort
      | Some sg =>
          dbid <- gets rr_meta_dbid ;;
          res <- ShardingInfoAddShardGroup (set_local dbid sg) ;;
          c_assert (res =? RR_OK) ;;
          load_groups n' rdb
      end
  end.

Fixpoint load_terms (slots : list Z) (rdb : list rdb_value) : M RedisRaftCtx (list rdb_value) :=
  match slots with
  | [] => ret rdb
  | i :: slots' =>
      let* (v, rdb) := lift (LoadUnsigned rdb) in
      with_si (modify (fun si => si <| si_max_importing_term ::= <[i := to_long v]> |>)) ;;
      load_terms slots' rdb
  end.

(** The values that follow. *)
Definition ShardingInfoRDBLoad (rdb : list rdb_value) : M RedisRaftCtx (list rdb_value) :=
  let* (rdb_shard_groups_num, rdb) := lift (LoadUnsigned rdb) in
  ShardingInfoReset ;;
  rdb <- load_groups (Z.to_nat (u32 rdb_shard_groups_num)) rdb ;;
  load_terms all_slots rdb.
