(* ===== verification/ShardingSpec.v ===== *)
(** * What the table of shard groups promises

    The table is well-formed: the slot maps hold exactly what the groups' slot
    ranges say.  Seen from outside it is a map from identifiers to groups
    ([groups]), which adding, updating and replacing change as their
    specifications say. *)

From stdpp Require Import base list numbers tactics gmap fin_maps strings sorting.
From S2P Require Import Prelude Libc File Multibulk PageLog Serialization SerializationSpec NodeAddr.
From S2P Require Import ShardGroup Sharding.

Local Open Scope Z_scope.

(** ** Slots of a group *)

(** The group has a range of this type with the slot. *)
Definition serves (sg : ShardGroup) (type slot : Z) : Prop :=
  Exists (fun sr => sr_type sr = type /\ sr_start_slot sr <= slot <= sr_end_slot sr) (sg_slot_ranges sg).

#[export] Instance serves_dec sg type slot : Decision (serves sg type slot).
Proof. unfold serves. apply _. Defined.

Definition slot_map (si : ShardingInfo) (type : Z) : gmap Z Z :=
  if type =? SLOTRANGE_TYPE_STABLE then si_stable_slots_map si
  else if type =? SLOTRANGE_TYPE_IMPORTING then si_importing_slots_map si
  else si_migrating_slots_map si.

Definition valid_types (sg : ShardGroup) : Prop :=
  Forall (fun sr => SlotRangeTypeValid (sr_type sr) = true) (sg_slot_ranges sg).

Definition valid_range (sr : ShardGroupSlotRange) : Prop :=
  HashSlotRangeValid (sr_start_slot sr) (sr_end_slot sr) = true.

Definition valid_ranges (sg : ShardGroup) : Prop := Forall valid_range (sg_slot_ranges sg).

Lemma valid_range_bounds sr : valid_range sr -> 0 <= sr_start_slot sr <= sr_end_slot sr /\ sr_end_slot sr < 16384.
Proof.
  unfold valid_range, HashSlotRangeValid, HashSlotValid, REDIS_RAFT_HASH_MIN_SLOT, REDIS_RAFT_HASH_MAX_SLOT. lia.
Qed.

Lemma type_cases t : SlotRangeTypeValid t = true ->
  t = SLOTRANGE_TYPE_STABLE \/ t = SLOTRANGE_TYPE_IMPORTING \/ t = SLOTRANGE_TYPE_MIGRATING.
Proof.
  unfold SlotRangeTypeValid, SLOTRANGE_TYPE_UNDEF, SLOTRANGE_TYPE_MAX, SLOTRANGE_TYPE_STABLE,
    SLOTRANGE_TYPE_IMPORTING, SLOTRANGE_TYPE_MIGRATING. lia.
Qed.

Lemma range_slots_spec sr j : j ∈ range_slots sr <-> sr_start_slot sr <= j <= sr_end_slot sr.
Proof. unfold range_slots. rewrite elem_of_seqZ. lia. Qed.

(** ** The loop that fills the slot maps *)

(** The pairs of type and slot the loop has seen. *)
Definition range_pairs (sr : ShardGroupSlotRange) : list (Z * Z) :=
  (fun j => (sr_type sr, j)) <$> range_slots sr.

Definition sg_pairs (sg : ShardGroup) : list (Z * Z) := concat (range_pairs <$> sg_slot_ranges sg).

Lemma sg_pairs_spec sg t j : (t, j) ∈ sg_pairs sg <-> serves sg t j.
Proof.
  unfold sg_pairs, serves, range_pairs. rewrite list_elem_of_In, in_concat, Exists_exists. split.
  - intros (l & Hl & Hin). apply list_elem_of_In, list_elem_of_fmap in Hl as (sr & -> & Hsr).
    apply list_elem_of_In, list_elem_of_fmap in Hin as (x & [= -> ->] & Hx). exists sr.
    split; [done|]. split; [done|]. by apply range_slots_spec.
  - intros (sr & Hsr & <- & Hj). exists (range_pairs sr). split.
    + apply list_elem_of_In, list_elem_of_fmap. by exists sr.
    + apply list_elem_of_In, list_elem_of_fmap. exists j. by rewrite range_slots_spec.
Qed.

(** [si'] is [si] with the pairs of [l] mapped to [p]. *)
Record mapped (p : Z) (local : bool) (l : list (Z * Z)) (si si' : ShardingInfo) : Prop := {
  mp_num : si_shard_groups_num si' = si_shard_groups_num si;
  mp_map : si_shard_group_map si' = si_shard_group_map si;
  mp_sharding : si_is_sharding si' = si_is_sharding si;
  mp_slot t j : SlotRangeTypeValid t = true ->
    slot_map si' t !! j = if decide ((t, j) ∈ l) then Some p else slot_map si t !! j;
  mp_term j : importing_term si' j =
    if decide (local = true /\ ((SLOTRANGE_TYPE_STABLE, j) ∈ l \/ (SLOTRANGE_TYPE_MIGRATING, j) ∈ l))
    then 0 else importing_term si j
}.

Lemma mapped_nil p local si : mapped p local [] si si.
Proof.
  split; try done; intros; rewrite decide_False; try done; rewrite ?elem_of_nil; tauto.
Qed.

Lemma mapped_app p local l1 l2 si si1 si2 :
  mapped p local l1 si si1 -> mapped p local l2 si1 si2 -> mapped p local (l1 ++ l2) si si2.
Proof.
  intros [] []. split; try congruence.
  - intros t j Ht. rewrite mp_slot1, mp_slot0 by done. rewrite (decide_ext _ _ _ _ (elem_of_app l1 l2 (t, j))).
    repeat case_decide; tauto.
  - intros j. rewrite mp_term1, mp_term0.
    pose proof (elem_of_app l1 l2 (SLOTRANGE_TYPE_STABLE, j)).
    pose proof (elem_of_app l1 l2 (SLOTRANGE_TYPE_MIGRATING, j)).
    repeat case_decide; try done; tauto.
Qed.

Lemma singleton_pair (t j t' j' : Z) : (t', j') ∈ [(t, j)] <-> t' = t /\ j = j'.
Proof. rewrite list_elem_of_singleton. split; [by intros [= -> ->]|by intros [-> ->]]. Qed.

Lemma default_insert (m : gmap Z Z) (i j : Z) :
  default 0 (<[i := 0]> m !! j) = if decide (i = j) then 0 else default 0 (m !! j).
Proof. case_decide; [subst; by rewrite lookup_insert_eq|by rewrite lookup_insert_ne]. Qed.

Lemma lookup_insert_decide (m : gmap Z Z) (i j x : Z) :
  <[i := x]> m !! j = if decide (i = j) then Some x else m !! j.
Proof. case_decide; [subst; by rewrite lookup_insert_eq|by rewrite lookup_insert_ne]. Qed.

Lemma map_slot_spec p local t j si : SlotRangeTypeValid t = true ->
  exists si', map_slot p local t j si = Done (tt, si') /\ mapped p local [(t, j)] si si'.
Proof.
  intros Ht. destruct (type_cases t Ht) as [-> | [-> | ->]]; destruct local; eexists;
    (split; [reflexivity|]); split; try reflexivity.
  all: try (intros t' j' Ht'; rewrite (decide_ext _ _ _ _ (singleton_pair _ _ _ _));
            destruct (type_cases t' Ht') as [-> | [-> | ->]]; cbn; rewrite ?lookup_insert_decide;
            repeat case_decide; tauto || (exfalso; naive_solver)).
  all: intros j'; unfold importing_term; cbn; rewrite ?default_insert;
    match goal with
    | |- context [decide (_ /\ ((?a, j') ∈ [(?t, ?i)] \/ (?b, j') ∈ [_]))] =>
        pose proof (singleton_pair t i a j'); pose proof (singleton_pair t i b j')
    end; repeat case_decide; try done; exfalso; intuition (done || lia).
Qed.

Lemma map_slots_spec p local t slots si : SlotRangeTypeValid t = true ->
  exists si', for_each slots (map_slot p local t) si = Done (tt, si') /\
    mapped p local ((fun j => (t, j)) <$> slots) si si'.
Proof.
  intros Ht. revert si. induction slots as [|j slots IH]; intros si; cbn [for_each fmap list_fmap].
  - exists si. split; [done|apply mapped_nil].
  - destruct (map_slot_spec p local t j si Ht) as (si1 & E1 & H1). destruct (IH si1) as (si2 & E2 & H2).
    exists si2. rewrite (bind_done_eq _ _ _ _ _ E1), E2. split; [done|]. by apply (mapped_app _ _ [(t, j)] _ _ si1).
Qed.

Lemma map_ranges_spec p sg si : valid_types sg ->
  exists si', map_ranges p sg si = Done (tt, si') /\ mapped p (sg_local sg) (sg_pairs sg) si si'.
Proof.
  unfold valid_types, map_ranges, sg_pairs. intros Ht. revert si.
  induction Ht as [|sr srs Hsr Hsrs IH]; intros si; cbn [for_each fmap list_fmap concat].
  - exists si. split; [done|apply mapped_nil].
  - destruct (map_slots_spec p (sg_local sg) (sr_type sr) (range_slots sr) si Hsr) as (si1 & E1 & H1).
    destruct (IH si1) as (si2 & E2 & H2). exists si2. rewrite (bind_done_eq _ _ _ _ _ E1), E2.
    split; [done|]. by eapply mapped_app.
Qed.

(** A range of another type stops the server. *)
Lemma map_ranges_types p sg si u si' :
  valid_ranges sg -> map_ranges p sg si = Done (u, si') -> valid_types sg.
Proof.
  unfold valid_ranges, valid_types, map_ranges. intros Hr. revert si.
  induction Hr as [|sr srs Hsr Hsrs IH]; intros si; [constructor|]. cbn [for_each].
  intros (u1 & si1 & E1 & E2)%bind_done. constructor; [|by eapply IH].
  pose proof (valid_range_bounds sr Hsr) as Hb. unfold range_slots in E1.
  rewrite seqZ_cons in E1 by lia. cbn [for_each] in E1. apply bind_done in E1 as (u2 & si2 & E1 & _).
  unfold map_slot in E1. unfold SlotRangeTypeValid, SLOTRANGE_TYPE_UNDEF, SLOTRANGE_TYPE_MAX,
    SLOTRANGE_TYPE_STABLE, SLOTRANGE_TYPE_IMPORTING, SLOTRANGE_TYPE_MIGRATING in *.
  repeat case_match; try done; lia.
Qed.

(** ** Well-formedness *)

Record wf (r : RedisRaftCtx) : Prop := {
  wf_map id p : si_shard_group_map (rr_sharding_info r) !! id = Some p ->
    exists sg, rr_heap r !! p = Some sg /\ sg_id sg = id;
  wf_heap p sg : rr_heap r !! p = Some sg ->
    si_shard_group_map (rr_sharding_info r) !! sg_id sg = Some p;
  wf_num : si_shard_groups_num (rr_sharding_info r) =
    u32 (Z.of_nat (size (si_shard_group_map (rr_sharding_info r))));
  wf_brk p : is_Some (rr_heap r !! p) -> p < rr_brk r;
  wf_ranges p sg : rr_heap r !! p = Some sg -> valid_ranges sg /\ valid_types sg;
  wf_slot t j p : SlotRangeTypeValid t = true ->
    slot_map (rr_sharding_info r) t !! j = Some p <->
    exists sg, rr_heap r !! p = Some sg /\ serves sg t j
}.

(** Seen from outside: the groups by identifier. *)
Definition sg_static (sg : ShardGroup) : ShardGroup := (sg_config sg) <| sg_local := sg_local sg |>.

Definition groups (r : RedisRaftCtx) : gmap (list Z) ShardGroup :=
  omap (fun p => sg_static <$> rr_heap r !! p) (si_shard_group_map (rr_sharding_info r)).

Lemma static_fields sg : sg_id (sg_static sg) = sg_id sg /\ sg_slot_ranges (sg_static sg) = sg_slot_ranges sg /\
  sg_nodes (sg_static sg) = sg_nodes sg /\ sg_local (sg_static sg) = sg_local sg.
Proof. by destruct sg. Qed.

Lemma serves_static sg t j : serves (sg_static sg) t j <-> serves sg t j.
Proof. by destruct sg. Qed.

Section Wf.
Context (r : RedisRaftCtx) (Hwf : wf r).

Lemma groups_lookup id g : groups r !! id = Some g <->
  exists p sg, si_shard_group_map (rr_sharding_info r) !! id = Some p /\
    rr_heap r !! p = Some sg /\ g = sg_static sg.
Proof.
  unfold groups. rewrite lookup_omap, bind_Some. split.
  - intros (p & Hp & Hg). apply fmap_Some in Hg as (sg & Hsg & ->). eauto.
  - intros (p & sg & Hp & Hsg & ->). exists p. by rewrite Hsg.
Qed.

Lemma groups_heap p sg : rr_heap r !! p = Some sg -> groups r !! sg_id sg = Some (sg_static sg).
Proof. intros Hp. apply groups_lookup. exists p, sg. split; [by apply (wf_heap r Hwf)|done]. Qed.

Lemma groups_id id g : groups r !! id = Some g -> sg_id g = id.
Proof.
  intros (p & sg & Hp & Hsg & ->)%groups_lookup.
  destruct (wf_map r Hwf id p Hp) as (sg' & Hsg' & <-). by simplify_eq.
Qed.

Lemma groups_none id : groups r !! id = None <-> si_shard_group_map (rr_sharding_info r) !! id = None.
Proof.
  split; intros H.
  - destruct (si_shard_group_map (rr_sharding_info r) !! id) as [p|] eqn:E; [|done]. destruct (wf_map r Hwf id p E) as (sg & Hsg & <-).
    by rewrite (groups_heap p sg Hsg) in H.
  - unfold groups. by rewrite lookup_omap, H.
Qed.

Lemma groups_size : size (groups r) = size (si_shard_group_map (rr_sharding_info r)).
Proof.
  assert (dom (groups r) = dom (si_shard_group_map (rr_sharding_info r))) as Hd.
  { apply set_eq. intros id. rewrite !elem_of_dom, <- !not_eq_None_Some. by rewrite groups_none. }
  rewrite <- !size_dom. by rewrite Hd.
Qed.

(** No two groups serve a slot in the same way. *)
Lemma serves_unique id1 id2 g1 g2 t j :
  SlotRangeTypeValid t = true -> groups r !! id1 = Some g1 -> groups r !! id2 = Some g2 ->
  serves g1 t j -> serves g2 t j -> id1 = id2.
Proof.
  intros Ht (p1 & sg1 & Hp1 & Hsg1 & ->)%groups_lookup (p2 & sg2 & Hp2 & Hsg2 & ->)%groups_lookup H1 H2.
  apply serves_static in H1, H2.
  pose proof (proj2 (wf_slot r Hwf t j p1 Ht) (ex_intro _ sg1 (conj Hsg1 H1))) as E1.
  pose proof (proj2 (wf_slot r Hwf t j p2 Ht) (ex_intro _ sg2 (conj Hsg2 H2))) as E2.
  assert (p1 = p2) as -> by congruence.
  destruct (wf_map r Hwf id1 p2 Hp1) as (? & ? & <-). destruct (wf_map r Hwf id2 p2 Hp2) as (? & ? & <-).
  congruence.
Qed.

(** What a slot map says of the groups. *)
Lemma slot_map_some t j p : SlotRangeTypeValid t = true ->
  slot_map (rr_sharding_info r) t !! j = Some p ->
  exists sg, rr_heap r !! p = Some sg /\ groups r !! sg_id sg = Some (sg_static sg) /\ serves sg t j.
Proof.
  intros Ht Hj. apply (wf_slot r Hwf) in Hj as (sg & Hsg & Hs); [|done]. exists sg.
  split; [done|]. split; [by eapply groups_heap|done].
Qed.

Lemma slot_map_none t j : SlotRangeTypeValid t = true ->
  slot_map (rr_sharding_info r) t !! j = None <-> forall id g, groups r !! id = Some g -> ~ serves g t j.
Proof.
  intros Ht. split.
  - intros Hn id g (p & sg & Hp & Hsg & ->)%groups_lookup Hs. apply serves_static in Hs.
    pose proof (proj2 (wf_slot r Hwf t j p Ht) (ex_intro _ sg (conj Hsg Hs))). congruence.
  - intros H. destruct (slot_map (rr_sharding_info r) t !! j) as [p|] eqn:E; [|done]. exfalso.
    destruct (slot_map_some t j p Ht E) as (sg & _ & Hg & Hs). by apply (H _ _ Hg), serves_static.
Qed.

End Wf.

(** ** Adding a group *)

(** The specification: a new identifier, valid ranges, and no slot that another
    group has as stable or in the same way. *)
Definition acceptable (G : gmap (list Z) ShardGroup) (sg : ShardGroup) : Prop :=
  valid_ranges sg /\ blen (sg_id sg) <= RAFT_DBID_LEN /\ G !! sg_id sg = None /\
  forall t j, serves sg t j -> forall id g, G !! id = Some g ->
    ~ serves g SLOTRANGE_TYPE_STABLE j /\ ~ serves g t j.

(** The only group of a cluster that is not sharded. *)
Definition is_plain (G : gmap (list Z) ShardGroup) : bool :=
  match map_to_list G with
  | [(_, g)] => covers_all g
  | _ => false
  end.

Lemma is_mapped_false m j : is_mapped m j = false <-> m !! j = None.
Proof.
  unfold is_mapped. rewrite bool_decide_eq_false, <- not_eq_None_Some. 
  destruct (m !! j); split; intros; try done; naive_solver.
Qed.

Lemma slot_free_spec si t j : SlotRangeTypeValid t = true ->
  slot_free si t j = true <->
  slot_map si SLOTRANGE_TYPE_STABLE !! j = None /\ (t <> SLOTRANGE_TYPE_STABLE -> slot_map si t !! j = None).
Proof.
  intros Ht. unfold slot_free. pose proof (is_mapped_false (si_stable_slots_map si) j) as Hs.
  change (slot_map si SLOTRANGE_TYPE_STABLE) with (si_stable_slots_map si).
  destruct (is_mapped (si_stable_slots_map si) j).
  { split; [done|]. intros [H%Hs _]. done. }
  destruct (type_cases t Ht) as [-> | [-> | ->]]; cbn.
  - split; [|done]. split; [by apply Hs|]. done.
  - rewrite negb_true_iff, is_mapped_false. split; [intros; split; [by apply Hs|done]|intros [_ H]; by apply H].
  - rewrite negb_true_iff, is_mapped_false. split; [intros; split; [by apply Hs|done]|intros [_ H]; by apply H].
Qed.

Lemma validate_ranges si sg :
  ShardingInfoValidateShardGroup si sg = true -> valid_ranges sg.
Proof.
  unfold ShardingInfoValidateShardGroup, valid_ranges. rewrite forallb_forall, Forall_forall.
  intros H sr Hsr%list_elem_of_In. specialize (H sr Hsr). unfold range_free, valid_range in *.
  by destruct (HashSlotRangeValid _ _).
Qed.

Lemma validate_slots si sg : valid_types sg ->
  ShardingInfoValidateShardGroup si sg = true <->
  valid_ranges sg /\ forall t j, serves sg t j ->
    slot_map si SLOTRANGE_TYPE_STABLE !! j = None /\ (t <> SLOTRANGE_TYPE_STABLE -> slot_map si t !! j = None).
Proof.
  intros Ht. split.
  - intros Hv. split; [by eapply validate_ranges|]. intros t j Hs. unfold serves in Hs.
    apply Exists_exists in Hs as (sr & Hsr & <- & Hj). unfold valid_types in Ht. rewrite Forall_forall in Ht.
    apply slot_free_spec; [by apply Ht|]. unfold ShardingInfoValidateShardGroup in Hv.
    rewrite forallb_forall in Hv. specialize (Hv sr ltac:(by apply list_elem_of_In)). unfold range_free in Hv.
    destruct (HashSlotRangeValid _ _); [|done]. rewrite forallb_forall in Hv. apply Hv.
    by apply list_elem_of_In, range_slots_spec.
  - intros [Hr Hs]. unfold ShardingInfoValidateShardGroup. apply forallb_forall. intros sr Hsr%list_elem_of_In.
    unfold valid_ranges, valid_types in *. rewrite Forall_forall in Hr, Ht. unfold range_free. rewrite (Hr sr Hsr).
    apply forallb_forall. intros j Hj%list_elem_of_In%range_slots_spec. apply slot_free_spec; [by apply Ht|].
    apply Hs. unfold serves. apply Exists_exists. by exists sr.
Qed.

Lemma serves_valid sg t j : valid_types sg -> serves sg t j -> SlotRangeTypeValid t = true.
Proof.
  unfold valid_types, serves. rewrite Forall_forall, Exists_exists. intros Ht (sr & Hsr & <- & _). by apply Ht.
Qed.

(** The three tests of [ShardingInfoAddShardGroup] are the specification. *)
Definition passes (r : RedisRaftCtx) (sg : ShardGroup) : bool :=
  ShardingInfoValidateShardGroup (rr_sharding_info r) sg && negb (RAFT_DBID_LEN + 1 <=? blen (sg_id sg)) &&
  bool_decide (si_shard_group_map (rr_sharding_info r) !! sg_id sg = None).

Lemma passes_acceptable r sg : wf r -> valid_types sg -> passes r sg = true <-> acceptable (groups r) sg.
Proof.
  intros Hwf Ht. unfold passes, acceptable.
  rewrite !andb_true_iff, negb_true_iff, Z.leb_gt, bool_decide_eq_true, validate_slots by done.
  rewrite groups_none by done. split.
  - intros [[[Hr Hs] Hl] Hm]. split_and!; [done|lia|done|]. intros t j Hj id g Hg.
    pose proof (serves_valid sg t j Ht Hj) as Hv. destruct (Hs t j Hj) as [H1 H2].
    split; [by apply (proj1 (slot_map_none r Hwf SLOTRANGE_TYPE_STABLE j eq_refl) H1 id g)|].
    destruct (decide (t = SLOTRANGE_TYPE_STABLE)) as [->|Hne].
    + by apply (proj1 (slot_map_none r Hwf SLOTRANGE_TYPE_STABLE j eq_refl) H1 id g).
    + by apply (proj1 (slot_map_none r Hwf t j Hv) (H2 Hne) id g).
  - intros (Hr & Hl & Hm & Hs). split_and!; [done| |lia|done]. intros t j Hj.
    pose proof (serves_valid sg t j Ht Hj) as Hv. split; [|intros _]; apply slot_map_none; try done.
    + intros id g Hg. by destruct (Hs t j Hj id g Hg).
    + intros id g Hg. by destruct (Hs t j Hj id g Hg).
Qed.

Lemma add_run r sg :
  ShardingInfoAddShardGroup sg r =
    if passes r sg then (link_group sg ;; ret RR_OK) r else Done (RR_ERROR, r).
Proof.
  unfold ShardingInfoAddShardGroup, passes. rewrite (bind_done_eq get _ r r r) by done. cbv zeta.
  destruct (ShardingInfoValidateShardGroup _ _); [|done]. cbn [negb andb].
  destruct (RAFT_DBID_LEN + 1 <=? blen (sg_id sg)); [done|]. cbn [negb andb].
  destruct (si_shard_group_map (rr_sharding_info r) !! sg_id sg); [done|].
  by rewrite bool_decide_eq_true_2.
Qed.

Definition new_group (conn : bool) (sg : ShardGroup) : ShardGroup :=
  sg <| sg_next_redir := 0 |> <| sg_use_conn_addr := false |> <| sg_node_conn_idx := 0 |> <| sg_conn := conn |>.

Definition with_new (r : RedisRaftCtx) (g : ShardGroup) (si : ShardingInfo) : RedisRaftCtx :=
  r <| rr_heap ::= <[rr_brk r := g]> |> <| rr_brk := rr_brk r + 1 |> <| rr_sharding_info := si |>.

Definition counted (sg : ShardGroup) (p : Z) (si : ShardingInfo) : ShardingInfo :=
  si <| si_shard_group_map ::= <[sg_id sg := p]> |> <| si_shard_groups_num := u32 (si_shard_groups_num si + 1) |>.

Lemma brk_fresh r p sg : wf r -> rr_heap r !! p = Some sg -> p <> rr_brk r.
Proof. intros Hwf Hp ->. pose proof (wf_brk r Hwf (rr_brk r) ltac:(by eexists)). lia. Qed.

Lemma u32_succ n : u32 (u32 n + 1) = u32 (n + 1).
Proof. unfold u32. by rewrite Zplus_mod_idemp_l. Qed.

Section Install.
Context (r : RedisRaftCtx) (sg : ShardGroup) (conn : bool) (si' : ShardingInfo).
Context (Hwf : wf r) (Ht : valid_types sg) (Hacc : acceptable (groups r) sg).
Context (Hmap : mapped (rr_brk r) (sg_local sg) (sg_pairs sg) (counted sg (rr_brk r) (rr_sharding_info r)) si').

Let r' := with_new r (new_group conn sg) si'.

Lemma install_map :
  si_shard_group_map (rr_sharding_info r') = <[sg_id sg := rr_brk r]> (si_shard_group_map (rr_sharding_info r)).
Proof. apply (mp_map _ _ _ _ _ Hmap). Qed.

Lemma install_slot t j p : SlotRangeTypeValid t = true ->
  slot_map si' t !! j = Some p <-> exists g, rr_heap r' !! p = Some g /\ serves g t j.
Proof.
  intros Hv. rewrite (mp_slot _ _ _ _ _ Hmap t j Hv).
  assert (slot_map (counted sg (rr_brk r) (rr_sharding_info r)) t = slot_map (rr_sharding_info r) t) as -> by done.
  change (rr_heap r') with (<[rr_brk r := new_group conn sg]> (rr_heap r)).
  destruct Hacc as (Hr & Hl & Hid & Hfree). case_decide as Hin; rewrite sg_pairs_spec in Hin.
  - split.
    + intros [= <-]. exists (new_group conn sg). by rewrite lookup_insert_eq.
    + intros (g & Hg & Hs). destruct (decide (p = rr_brk r)) as [->|Hne]; [done|].
      rewrite lookup_insert_ne in Hg by done. exfalso.
      destruct (Hfree t j Hin (sg_id g) (sg_static g)) as [_ H]; [by apply (groups_heap r Hwf p)|]. by apply H, serves_static.
  - rewrite (wf_slot r Hwf t j p Hv). split.
    + intros (g & Hg & Hs). exists g. rewrite lookup_insert_ne; [done|]. intros <-. by apply (brk_fresh r _ g Hwf Hg).
    + intros (g & Hg & Hs). destruct (decide (p = rr_brk r)) as [->|Hne].
      * rewrite lookup_insert_eq in Hg. simplify_eq. by destruct Hin.
      * rewrite lookup_insert_ne in Hg by done. by exists g.
Qed.

Lemma install_wf : wf r'.
Proof.
  destruct Hacc as (Hr & Hl & Hid%(groups_none r Hwf) & Hfree).
  pose proof install_map as Em.
  assert (rr_heap r' = <[rr_brk r := new_group conn sg]> (rr_heap r)) as Eh by done.
  split.
  - intros id p. rewrite Em, Eh. destruct (decide (id = sg_id sg)) as [->|Hne].
    + rewrite lookup_insert_eq. intros [= <-]. exists (new_group conn sg). by rewrite lookup_insert_eq.
    + rewrite lookup_insert_ne by done. intros Hp. destruct (wf_map r Hwf id p Hp) as (g & Hg & <-).
      exists g. rewrite lookup_insert_ne; [done|]. intros <-. by apply (brk_fresh r _ g Hwf Hg).
  - intros p g. rewrite Em, Eh. destruct (decide (p = rr_brk r)) as [->|Hne].
    + rewrite lookup_insert_eq. intros [= <-]. by rewrite lookup_insert_eq.
    + rewrite lookup_insert_ne by done. intros Hg. rewrite lookup_insert_ne; [by apply (wf_heap r Hwf)|].
      intros E. pose proof (wf_heap r Hwf p g Hg). congruence.
  - rewrite Em, map_size_insert_None by done. etransitivity; [apply (mp_num _ _ _ _ _ Hmap)|].
    unfold counted. cbn [si_shard_groups_num set_field set_si_num]. rewrite (wf_num r Hwf), u32_succ. f_equal. lia.
  - intros p. rewrite Eh. change (rr_brk r') with (rr_brk r + 1).
    destruct (decide (p = rr_brk r)) as [->|Hne]; [lia|]. rewrite lookup_insert_ne by done.
    intros Hp%(wf_brk r Hwf). lia.
  - intros p g. rewrite Eh. destruct (decide (p = rr_brk r)) as [->|Hne].
    + rewrite lookup_insert_eq. by intros [= <-].
    + rewrite lookup_insert_ne by done. apply (wf_ranges r Hwf).
  - apply install_slot.
Qed.

Lemma install_groups : groups r' = <[sg_id sg := sg_static sg]> (groups r).
Proof.
  apply map_eq. intros id. destruct (decide (id = sg_id sg)) as [->|Hne].
  - rewrite lookup_insert_eq. apply groups_lookup. exists (rr_brk r), (new_group conn sg).
    split; [rewrite install_map; apply lookup_insert_eq|split; [apply lookup_insert_eq|done]].
  - rewrite lookup_insert_ne by done. apply option_eq. intros g. rewrite !groups_lookup.
    rewrite install_map, lookup_insert_ne by done.
    split; intros (p & h & Hp & Hh & ->); exists p, h; (split; [done|]; split; [|done]).
    + destruct (wf_map r Hwf id p Hp) as (h' & Hh' & _). pose proof (brk_fresh r p h' Hwf Hh').
      change (<[rr_brk r := new_group conn sg]> (rr_heap r) !! p = Some h) in Hh.
      by rewrite lookup_insert_ne in Hh by done.
    + pose proof (brk_fresh r p h Hwf Hh).
      change (<[rr_brk r := new_group conn sg]> (rr_heap r) !! p = Some h). by rewrite lookup_insert_ne.
Qed.

End Install.

(** ** Whether the cluster is sharded *)

Lemma dict_entries_perm d : dict_entries d ≡ₚ map_to_list d.
Proof. apply merge_sort_Permutation. Qed.

Lemma dict_entries_elem d id p : (id, p) ∈ dict_entries d <-> d !! id = Some p.
Proof. by rewrite dict_entries_perm, elem_of_map_to_list. Qed.

Lemma dict_entries_length d : length (dict_entries d) = size d.
Proof. by rewrite dict_entries_perm, length_map_to_list. Qed.

Lemma dict_entries_singleton d id p : dict_entries d = [(id, p)] -> d = {[id := p]}.
Proof.
  intros E. pose proof (dict_entries_perm d) as H. rewrite E in H.
  apply map_to_list_inj. rewrite map_to_list_singleton. by symmetry.
Qed.

Definition sharding_flag (r : RedisRaftCtx) (b : bool) : RedisRaftCtx :=
  r <| rr_sharding_info ::= fun i => i <| si_is_sharding := b |> |>.

Lemma sharding_flag_id r : sharding_flag r (si_is_sharding (rr_sharding_info r)) = r.
Proof. by destruct r as [? ? ? ? ? []]. Qed.

Lemma is_plain_singleton r id p sg :
  dict_entries (si_shard_group_map (rr_sharding_info r)) = [(id, p)] -> rr_heap r !! p = Some sg ->
  is_plain (groups r) = covers_all sg.
Proof.
  intros E%dict_entries_singleton Hp. unfold is_plain.
  assert (groups r = {[id := sg_static sg]}) as ->.
  { unfold groups. rewrite E, omap_singleton, Hp. done. }
  rewrite map_to_list_singleton. by destruct sg.
Qed.

Lemma is_plain_size (G : gmap (list Z) ShardGroup) : size G <> 1%nat -> is_plain G = false.
Proof.
  unfold is_plain. rewrite <- length_map_to_list. by destruct (map_to_list G) as [|[] [|]].
Qed.

Lemma set_is_sharding_spec r : wf r -> si_shard_group_map (rr_sharding_info r) <> ∅ ->
  exists b, set_is_sharding r = Done (tt, sharding_flag r b) /\
    (Z.of_nat (size (groups r)) < 2 ^ 32 ->
     b = si_is_sharding (rr_sharding_info r) || negb (is_plain (groups r))).
Proof.
  intros Hwf Hne. unfold set_is_sharding.
  rewrite (bind_done_eq (gets rr_sharding_info) _ r (rr_sharding_info r) r) by done.
  destruct (si_is_sharding (rr_sharding_info r)) eqn:Es.
  { exists true. split; [|done]. unfold when. cbn [negb]. unfold ret. rewrite <- Es at 1. by rewrite sharding_flag_id. }
  unfold when at 1. cbn [negb orb].
  pose proof (wf_num r Hwf) as Hnum. rewrite <- groups_size in Hnum by done.
  destruct (Z.eqb_spec (si_shard_groups_num (rr_sharding_info r)) 1) as [E1|E1]; cbn [negb].
  2: { exists true. split; [done|]. intros Hsz. rewrite is_plain_size; [done|].
       intros H1. rewrite H1 in Hnum. by rewrite Hnum in E1. }
  destruct (dict_entries _) as [|[id p] rest] eqn:Ed.
  { pose proof (dict_entries_length (si_shard_group_map (rr_sharding_info r))) as H. rewrite Ed in H.
    symmetry in H. by apply map_size_empty_iff in H. }
  assert (si_shard_group_map (rr_sharding_info r) !! id = Some p) as Hid.
  { apply dict_entries_elem. rewrite Ed. by left. }
  destruct (wf_map r Hwf id p Hid) as (sg & Hp & _).
  assert (deref p r = Done (sg, r)) as Eder by (unfold deref, bind, get; by rewrite Hp).
  rewrite (bind_done_eq _ _ _ _ _ Eder). exists (negb (covers_all sg)). split.
  { destruct (covers_all sg); cbn [negb when]; [|done]. unfold ret. rewrite <- Es at 1. by rewrite sharding_flag_id. }
  intros Hsz. rewrite Hnum in E1. rewrite u32_id in E1 by lia.
  rewrite groups_size in E1 by done. rewrite <- dict_entries_length, Ed in E1. cbn [length] in E1.
  destruct rest; [|cbn [length] in E1; lia]. by rewrite (is_plain_singleton r id p sg).
Qed.

Lemma sharding_flag_wf r b : wf r -> wf (sharding_flag r b).
Proof. intros [H1 H2 H3 H4 H5 H6]. by split. Qed.

Lemma sharding_flag_groups r b : groups (sharding_flag r b) = groups r.
Proof. done. Qed.

Lemma with_si_done {A} (m : M ShardingInfo A) r a si' :
  m (rr_sharding_info r) = Done (a, si') -> with_si m r = Done (a, r <| rr_sharding_info := si' |>).
Proof. intros E. unfold with_si, zoom. by rewrite E. Qed.

(** What adding a group does. *)
Record added (sg : ShardGroup) (r r' : RedisRaftCtx) : Prop := {
  ad_wf : wf r';
  ad_groups : groups r' = <[sg_id sg := sg_static sg]> (groups r);
  ad_terms j : importing_term (rr_sharding_info r') j =
    if decide (sg_local sg = true /\ (serves sg SLOTRANGE_TYPE_STABLE j \/ serves sg SLOTRANGE_TYPE_MIGRATING j))
    then 0 else importing_term (rr_sharding_info r) j;
  ad_sharding : Z.of_nat (size (groups r)) < 2 ^ 32 - 1 ->
    si_is_sharding (rr_sharding_info r') = si_is_sharding (rr_sharding_info r) || negb (is_plain (groups r'));
  ad_conf : rr_meta_dbid r' = rr_meta_dbid r /\ rr_snapshot_dbid r' = rr_snapshot_dbid r /\
    rr_external_sharding r' = rr_external_sharding r
}.

Lemma link_group_spec r sg : wf r -> valid_types sg -> acceptable (groups r) sg ->
  exists r', link_group sg r = Done (tt, r') /\ added sg r r'.
Proof.
  intros Hwf Ht Hacc. unfold link_group. rewrite (bind_done_eq get _ r r r) by done. cbv zeta.
  set (sg0 := new_group false sg).
  destruct (map_ranges_spec (rr_brk r) sg0 (counted sg (rr_brk r) (rr_sharding_info r)) Ht) as (si' & Em & Hm).
  change (mapped (rr_brk r) (sg_local sg) (sg_pairs sg) (counted sg (rr_brk r) (rr_sharding_info r)) si') in Hm.
  set (conn := negb (rr_external_sharding r) && (0 <? sg_nodes_num sg)).
  set (r3 := with_new r (new_group conn sg) si').
  pose proof (install_wf r sg conn si' Hwf Ht Hacc Hm) as Hwf3. fold r3 in Hwf3.
  pose proof (install_groups r sg conn si' Hwf Hm) as Hg3. fold r3 in Hg3.
  assert (si_shard_group_map (rr_sharding_info r3) <> ∅) as Hne.
  { unfold r3. cbn. rewrite (mp_map _ _ _ _ _ Hm). apply insert_non_empty. }
  destruct (set_is_sharding_spec r3 Hwf3 Hne) as (b & Eb & Hb). exists (sharding_flag r3 b). split.
  - rewrite (bind_done_eq (modify _) _ r tt (r <| rr_heap ::= <[rr_brk r := sg0]> |> <| rr_brk := rr_brk r + 1 |>)) by done.
    rewrite (bind_done_eq (with_si (modify _)) _ _ tt (with_new r sg0 (counted sg (rr_brk r) (rr_sharding_info r)))) by done.
    rewrite (bind_done_eq (with_si (map_ranges _ _)) _ _ tt (with_new r sg0 si')).
    2: { exact (with_si_done (map_ranges (rr_brk r) sg0) (with_new r sg0 (counted sg (rr_brk r) (rr_sharding_info r))) tt si' Em). }
    rewrite (bind_done_eq (when _ _) _ _ tt r3); [exact Eb|]. unfold r3.
    change (negb _ && _) with conn at 1. destruct conn; [|done].
    unfold when, update_group, deref, bind, get, modify. cbn. rewrite lookup_insert_eq. 
    unfold with_new. cbn. by rewrite insert_insert_eq.
  - split.
    + by apply sharding_flag_wf.
    + by rewrite sharding_flag_groups, Hg3.
    + intros j. change (importing_term _ j) with (importing_term si' j) at 1. rewrite (mp_term _ _ _ _ _ Hm).
      apply decide_ext. by rewrite !sg_pairs_spec.
    + intros Hsz. cbn [rr_sharding_info sharding_flag set_field]. cbn. rewrite Hb.
      * unfold r3 at 1. cbn. by rewrite (mp_sharding _ _ _ _ _ Hm).
      * destruct Hacc as (_ & _ & Hid & _). rewrite Hg3, map_size_insert_None by done. lia.
    + done.
Qed.

Lemma add_accepts r sg : wf r -> valid_types sg -> acceptable (groups r) sg ->
  exists r', ShardingInfoAddShardGroup sg r = Done (RR_OK, r') /\ added sg r r'.
Proof.
  intros Hwf Ht Hacc. destruct (link_group_spec r sg Hwf Ht Hacc) as (r' & E & Had). exists r'. split; [|done].
  rewrite add_run, (proj2 (passes_acceptable r sg Hwf Ht) Hacc). by rewrite (bind_done_eq _ _ _ _ _ E).
Qed.

Lemma add_refuses r sg : passes r sg = false -> ShardingInfoAddShardGroup sg r = Done (RR_ERROR, r).
Proof. intros E. by rewrite add_run, E. Qed.

Lemma link_group_types r sg u r' : valid_ranges sg -> link_group sg r = Done (u, r') -> valid_types sg.
Proof.
  intros Hr. unfold link_group. intros (r0 & r1 & [= <- <-] & E)%bind_done. cbv zeta in E.
  do 2 (apply bind_done in E as (? & ? & _ & E)). apply bind_done in E as (? & ? & Em & _).
  apply zoom_done in Em as (si' & Em & _). by apply map_ranges_types in Em.
Qed.

(** What is known when the call has returned. *)
Lemma add_inv r sg res r' : wf r -> ShardingInfoAddShardGroup sg r = Done (res, r') ->
  (res = RR_OK /\ valid_types sg /\ acceptable (groups r) sg /\ added sg r r') \/ (res = RR_ERROR /\ r' = r).
Proof.
  intros Hwf. rewrite add_run. destruct (passes r sg) eqn:Ep; [|intros [= <- <-]; by right].
  intros (u & r1 & El & [= <- <-])%bind_done. left.
  assert (valid_ranges sg) as Hr.
  { unfold passes in Ep. apply andb_true_iff in Ep as [[Hv _]%andb_true_iff _]. by eapply validate_ranges. }
  pose proof (link_group_types r sg u r1 Hr El) as Ht. pose proof (proj1 (passes_acceptable r sg Hwf Ht) Ep) as Hacc.
  destruct (link_group_spec r sg Hwf Ht Hacc) as (r2 & E2 & Had). split_and!; try done. congruence.
Qed.

(** ** Removing all groups *)

Lemma free_list_spec ps : forall r, NoDup ps -> Forall (fun p => is_Some (rr_heap r !! p)) ps ->
  exists h, for_each ps ShardGroupFree r = Done (tt, r <| rr_heap := h |>) /\
    forall p, h !! p = if decide (p ∈ ps) then None else rr_heap r !! p.
Proof.
  induction ps as [|p ps IH]; intros r Hnd Hall.
  - exists (rr_heap r). split; [by destruct r|]. intros p. rewrite decide_False; [done|apply not_elem_of_nil].
  - apply NoDup_cons in Hnd as [Hp Hnd]. apply Forall_cons in Hall as [[sg Hsg] Hall]. cbn [for_each].
    assert (ShardGroupFree p r = Done (tt, r <| rr_heap := delete p (rr_heap r) |>)) as E.
    { unfold ShardGroupFree, deref, bind, get, modify. by rewrite Hsg. }
    rewrite (bind_done_eq _ _ _ _ _ E).
    destruct (IH (r <| rr_heap := delete p (rr_heap r) |>)) as (h & Eh & Hh); [done| |].
    { apply Forall_forall. intros q Hq. rewrite Forall_forall in Hall. cbn.
      rewrite lookup_delete_ne; [by apply Hall|]. by intros ->. }
    exists h. rewrite Eh. split; [done|]. intros q. rewrite Hh. cbn.
    rewrite (decide_ext _ _ _ _ (elem_of_cons ps q p)).
    destruct (decide (q = p)) as [->|Hne].
    + rewrite decide_False, lookup_delete_eq by done. by rewrite decide_True by (by left).
    + rewrite lookup_delete_ne by done. repeat case_decide; tauto.
Qed.

Lemma free_map_spec r : wf r -> freeShardGroupMap r = Done (tt, r <| rr_heap := ∅ |>).
Proof.
  intros Hwf. unfold freeShardGroupMap.
  rewrite (bind_done_eq (gets rr_sharding_info) _ r (rr_sharding_info r) r) by done.
  set (d := si_shard_group_map (rr_sharding_info r)).
  destruct (free_list_spec (snd <$> dict_entries d) r) as (h & -> & Hh).
  - apply NoDup_fmap_2_strong; [|rewrite dict_entries_perm; apply NoDup_map_to_list].
    intros [i p] [i' p'] H1%dict_entries_elem H2%dict_entries_elem [= ->].
    destruct (wf_map r Hwf i p' H1) as (? & ? & <-). destruct (wf_map r Hwf i' p' H2) as (? & ? & <-). by simplify_eq.
  - apply Forall_forall. intros p ([i q] & -> & Hq%dict_entries_elem)%list_elem_of_fmap.
    destruct (wf_map r Hwf i q Hq) as (? & ? & _). by eexists.
  - assert (h = ∅) as ->; [|done]. apply map_eq. intros p. rewrite Hh, lookup_empty. case_decide as Hp; [done|].
    destruct (rr_heap r !! p) as [sg|] eqn:E; [|done]. destruct Hp. apply list_elem_of_fmap.
    exists (sg_id sg, p). split; [done|]. apply dict_entries_elem. by apply (wf_heap r Hwf).
Qed.

(** The table without groups. *)
Record emptied (r r' : RedisRaftCtx) : Prop := {
  em_wf : wf r';
  em_groups : groups r' = ∅;
  em_terms : si_max_importing_term (rr_sharding_info r') = si_max_importing_term (rr_sharding_info r);
  em_conf : rr_meta_dbid r' = rr_meta_dbid r /\ rr_snapshot_dbid r' = rr_snapshot_dbid r /\
    rr_external_sharding r' = rr_external_sharding r
}.

Definition no_groups (b : bool) (r : RedisRaftCtx) : RedisRaftCtx :=
  r <| rr_heap := ∅ |> <| rr_sharding_info := mk_si 0 ∅ b ∅ ∅ ∅ (si_max_importing_term (rr_sharding_info r)) |>.

Lemma no_groups_emptied b r : emptied r (no_groups b r).
Proof.
  split; [|done|done|done]. split; cbn; try done.
  - intros p [sg H]. by rewrite lookup_empty in H.
  - intros t j p Ht. destruct (type_cases t Ht) as [-> | [-> | ->]]; cbn; rewrite lookup_empty;
      (split; [done|]; intros (sg & H & _); by rewrite lookup_empty in H).
Qed.

Lemma clear_spec r : wf r ->
  (freeShardGroupMap ;; with_si clear_maps) r = Done (tt, no_groups (si_is_sharding (rr_sharding_info r)) r).
Proof. intros Hwf. by rewrite (bind_done_eq _ _ _ _ _ (free_map_spec r Hwf)). Qed.

Lemma table_reset_spec r : wf r -> ShardingInfoReset r = Done (tt, no_groups false r).
Proof. intros Hwf. unfold ShardingInfoReset. by rewrite (bind_done_eq _ _ _ _ _ (free_map_spec r Hwf)). Qed.

(** ** Updating a group *)

Lemma update_group_run r p sg f : rr_heap r !! p = Some sg ->
  update_group p f r = Done (tt, r <| rr_heap ::= alter f p |>).
Proof.
  intros Hsg. unfold update_group, deref, bind, get, modify, ret. rewrite Hsg.
  change (r <| rr_heap ::= alter f p |>) with (r <| rr_heap := alter f p (rr_heap r) |>).
  assert (alter f p (rr_heap r) = <[p := f sg]> (rr_heap r)) as ->; [|done].
  apply map_eq. intros q. destruct (decide (p = q)) as [<-|].
  - by rewrite lookup_alter_eq, lookup_insert_eq, Hsg.
  - by rewrite lookup_alter_ne, lookup_insert_ne.
Qed.

Lemma update_spec r new_sg : wf r ->
  ShardingInfoUpdateShardGroup new_sg r =
    if bool_decide (rr_snapshot_dbid r = sg_id new_sg) then Done (RR_OK, r)
    else match si_shard_group_map (rr_sharding_info r) !! sg_id new_sg with
         | None => Done (RR_ERROR, r)
         | Some p => Done (RR_OK, r <| rr_heap ::= alter (fun sg => sg <| sg_nodes := sg_nodes new_sg |>) p |>)
         end.
Proof.
  intros Hwf. unfold ShardingInfoUpdateShardGroup, GetShardGroupById. rewrite (bind_done_eq get _ r r r) by done.
  destruct (bool_decide _); [done|]. destruct (_ !! _) as [p|] eqn:E; [|done].
  destruct (wf_map r Hwf _ p E) as (sg & Hsg & _).
  by rewrite (bind_done_eq _ _ _ _ _ (update_group_run r p sg _ Hsg)).
Qed.

(** What updating a group does. *)
Definition set_nodes (nodes : list ShardGroupNode) (sg : ShardGroup) : ShardGroup := sg <| sg_nodes := nodes |>.

Definition update_groups (own : list Z) (new_sg : ShardGroup) (G : gmap (list Z) ShardGroup) : gmap (list Z) ShardGroup :=
  if bool_decide (own = sg_id new_sg) then G else alter (set_nodes (sg_nodes new_sg)) (sg_id new_sg) G.

Lemma alter_nodes_wf r p nodes : wf r -> wf (r <| rr_heap ::= alter (set_nodes nodes) p |>).
Proof.
  intros [H1 H2 H3 H4 H5 H6].
  assert (forall q sg, rr_heap (r <| rr_heap ::= alter (set_nodes nodes) p |>) !! q = Some sg ->
            exists sg0, rr_heap r !! q = Some sg0 /\ sg_id sg = sg_id sg0 /\ sg_slot_ranges sg = sg_slot_ranges sg0) as Hback.
  { intros q sg Hq. change (alter (set_nodes nodes) p (rr_heap r) !! q = Some sg) in Hq.
    apply lookup_alter_Some in Hq as [(<- & sg0 & Hq & ->)|[_ Hq]]; eauto. }
  assert (forall q sg0, rr_heap r !! q = Some sg0 ->
            exists sg, rr_heap (r <| rr_heap ::= alter (set_nodes nodes) p |>) !! q = Some sg /\
              sg_id sg = sg_id sg0 /\ sg_slot_ranges sg = sg_slot_ranges sg0) as Hforth.
  { intros q sg0 Hq. change (rr_heap (r <| rr_heap ::= alter (set_nodes nodes) p |>)) with (alter (set_nodes nodes) p (rr_heap r)).
    destruct (decide (p = q)) as [<-|]; [exists (set_nodes nodes sg0); by rewrite lookup_alter_eq, Hq|].
    exists sg0. by rewrite lookup_alter_ne. }
  split; try done.
  - intros id q Hq. destruct (H1 id q Hq) as (sg0 & Hsg0 & <-). destruct (Hforth q sg0 Hsg0) as (sg & ? & ? & _). by exists sg.
  - intros q sg Hq. destruct (Hback q sg Hq) as (sg0 & Hq0 & -> & _). by apply H2.
  - intros q [sg Hq]. destruct (Hback q sg Hq) as (sg0 & Hq0 & _). by apply H4.
  - intros q sg Hq. destruct (Hback q sg Hq) as (sg0 & Hq0 & _ & E). unfold valid_ranges, valid_types. rewrite E. by apply (H5 q).
  - intros t j q Ht. change (slot_map (rr_sharding_info r) t !! j = Some q <->
      exists sg, rr_heap (r <| rr_heap ::= alter (set_nodes nodes) p |>) !! q = Some sg /\ serves sg t j).
    rewrite (H6 t j q Ht). unfold serves. split.
    + intros (sg0 & Hq & Hs). destruct (Hforth q sg0 Hq) as (sg & ? & _ & E). exists sg. by rewrite E.
    + intros (sg & Hq & Hs). destruct (Hback q sg Hq) as (sg0 & ? & _ & E). exists sg0. by rewrite <- E.
Qed.

Lemma update_total r new_sg : wf r ->
  exists r', ShardingInfoUpdateShardGroup new_sg r =
      Done (if bool_decide (rr_snapshot_dbid r = sg_id new_sg \/ is_Some (groups r !! sg_id new_sg)) then RR_OK else RR_ERROR, r') /\
    wf r' /\ groups r' = update_groups (rr_snapshot_dbid r) new_sg (groups r) /\
    rr_sharding_info r' = rr_sharding_info r /\
    rr_meta_dbid r' = rr_meta_dbid r /\ rr_snapshot_dbid r' = rr_snapshot_dbid r.
Proof.
  intros Hwf. rewrite update_spec by done. unfold update_groups.
  destruct (bool_decide_reflect (rr_snapshot_dbid r = sg_id new_sg)) as [E|E].
  { exists r. rewrite bool_decide_eq_true_2 by (by left). by split_and!. }
  destruct (si_shard_group_map (rr_sharding_info r) !! sg_id new_sg) as [p|] eqn:Ep.
  - destruct (wf_map r Hwf _ p Ep) as (sg & Hsg & Hid). pose proof (groups_heap r Hwf p sg Hsg) as Hg. rewrite Hid in Hg.
    eexists. rewrite bool_decide_eq_true_2 by (right; by rewrite Hg). split; [reflexivity|].
    split; [by apply alter_nodes_wf|]. split_and!; try done.
    apply map_eq. intros id. unfold groups.
    change (rr_sharding_info _) with (rr_sharding_info r) at 1.
    change (rr_heap _) with (alter (set_nodes (sg_nodes new_sg)) p (rr_heap r)) at 1. rewrite lookup_omap.
    destruct (decide (id = sg_id new_sg)) as [->|Hne].
    + rewrite lookup_alter_eq, lookup_omap, Ep. cbn. by rewrite lookup_alter_eq, Hsg.
    + rewrite lookup_alter_ne, lookup_omap by done.
      destruct (si_shard_group_map (rr_sharding_info r) !! id) as [q|] eqn:Eq; [|done]. cbn.
      rewrite lookup_alter_ne; [done|]. intros <-. destruct (wf_map r Hwf id p Eq) as (? & ? & <-). naive_solver.
  - apply groups_none in Ep; [|done]. exists r. rewrite bool_decide_eq_false_2.
    2: { rewrite Ep. intros [?|[? ?]]; done. }
    split_and!; try done. symmetry. apply map_eq. intros id. destruct (decide (id = sg_id new_sg)) as [->|];
      [by rewrite lookup_alter_eq, Ep|by rewrite lookup_alter_ne].
Qed.

(** ** Well-formedness is kept *)

Definition keeps_wf (r r' : RedisRaftCtx) : Prop := wf r -> wf r'.

#[export] Instance keeps_wf_preorder : PreOrder keeps_wf.
Proof. split; [by intros r ?|]. intros r1 r2 r3 H12 H23 ?. by apply H23, H12. Qed.

Lemma respects_lift {S A} (R : S -> S -> Prop) `{!PreOrder R} (o : outcome A) : respects R (lift o).
Proof. intros s a s' H. unfold lift in H. destruct o; simplify_eq. reflexivity. Qed.

Lemma add_keeps_wf sg : respects keeps_wf (ShardingInfoAddShardGroup sg).
Proof.
  intros r res r' E Hwf. destruct (add_inv r sg res r' Hwf E) as [(_ & _ & _ & H)|[_ ->]]; [apply H|done].
Qed.

Lemma update_keeps_wf sg : respects keeps_wf (ShardingInfoUpdateShardGroup sg).
Proof. intros r res r' E Hwf. destruct (update_total r sg Hwf) as (r2 & E2 & Hwf2 & _). congruence. Qed.

Lemma clear_keeps_wf : respects keeps_wf (freeShardGroupMap ;; with_si clear_maps).
Proof. intros r u r' E Hwf. rewrite clear_spec in E by done. injection E as <- <-. by apply no_groups_emptied. Qed.

Lemma reset_keeps_wf : respects keeps_wf ShardingInfoReset.
Proof. intros r u r' E Hwf. rewrite table_reset_spec in E by done. injection E as <- <-. by apply no_groups_emptied. Qed.

Lemma set_term_keeps_wf i v :
  respects keeps_wf (with_si (modify (fun si => si <| si_max_importing_term ::= <[i := v]> |>))).
Proof. intros r u r' E [H1 H2 H3 H4 H5 H6]. injection E as <- <-. by split. Qed.

#[export] Hint Resolve add_keeps_wf update_keeps_wf reset_keeps_wf set_term_keeps_wf respects_lift : respects.

Lemma apply_keeps_wf type data req : respects keeps_wf (applyShardGroupChange type data req).
Proof. unfold applyShardGroupChange. respects_solve. Qed.

Lemma replace_loop_keeps_wf n : forall payload req, respects keeps_wf (replace_loop n payload req).
Proof.
  induction n as [|n IH]; intros payload req; cbn [replace_loop]; [respects_solve|].
  apply (respects_bind keeps_wf); [respects_solve|]. intros [len pl]. respects_solve.
Qed.

Lemma replace_keeps_wf data req : respects keeps_wf (replaceShardGroups data req).
Proof.
  intros r a r' E. unfold replaceShardGroups in E. rewrite <- bind_assoc in E. revert r a r' E.
  apply (respects_bind keeps_wf); [apply clear_keeps_wf|]. intros _. apply (respects_bind keeps_wf); [respects_solve|].
  intros [n pl]. apply replace_loop_keeps_wf.
Qed.

Lemma load_groups_keeps_wf n : forall rdb, respects keeps_wf (load_groups n rdb).
Proof.
  induction n as [|n IH]; intros rdb; cbn [load_groups]; [respects_solve|].
  apply (respects_bind keeps_wf); [respects_solve|]. intros [buf rdb']. respects_solve.
Qed.

Lemma load_terms_keeps_wf slots : forall rdb, respects keeps_wf (load_terms slots rdb).
Proof.
  induction slots as [|i slots IH]; intros rdb; cbn [load_terms]; [respects_solve|].
  apply (respects_bind keeps_wf); [respects_solve|]. intros [v rdb']. respects_solve.
Qed.

Lemma load_keeps_wf rdb : respects keeps_wf (ShardingInfoRDBLoad rdb).
Proof.
  unfold ShardingInfoRDBLoad. apply (respects_bind keeps_wf); [respects_solve|]. intros [n rdb'].
  respects_solve; [apply load_groups_keeps_wf|apply load_terms_keeps_wf].
Qed.

#[export] Hint Resolve apply_keeps_wf replace_keeps_wf load_keeps_wf : respects.

Lemma replace_cleared r data req : wf r ->
  replaceShardGroups data req r =
    (let* (num_payloads, payload) := lift (payload_number data) in
     replace_loop (Z.to_nat (to_int num_payloads)) payload req)
      (no_groups (si_is_sharding (rr_sharding_info r)) r).
Proof.
  intros Hwf. unfold replaceShardGroups. by rewrite <- bind_assoc, (bind_done_eq _ _ _ _ _ (clear_spec r Hwf)).
Qed.

(** ** Two servers with the same table *)

(** What the table says, whatever addresses, connections and counters are used. *)
Record same (r1 r2 : RedisRaftCtx) : Prop := {
  sm_groups : groups r1 = groups r2;
  sm_terms j : importing_term (rr_sharding_info r1) j = importing_term (rr_sharding_info r2) j;
  sm_sharding : si_is_sharding (rr_sharding_info r1) = si_is_sharding (rr_sharding_info r2);
  sm_meta : rr_meta_dbid r1 = rr_meta_dbid r2;
  sm_snapshot : rr_snapshot_dbid r1 = rr_snapshot_dbid r2
}.

#[export] Instance same_equivalence : Equivalence same.
Proof.
  split.
  - by intros r.
  - intros r1 r2 []. by split.
  - intros r1 r2 r3 [] []. split; congruence.
Qed.

Definition few (n : Z) (r : RedisRaftCtx) : Prop := Z.of_nat (size (groups r)) + n < 2 ^ 32.

Lemma same_mapped r1 r2 t j : wf r1 -> wf r2 -> groups r1 = groups r2 -> SlotRangeTypeValid t = true ->
  is_mapped (slot_map (rr_sharding_info r1) t) j = is_mapped (slot_map (rr_sharding_info r2) t) j.
Proof.
  intros H1 H2 Hs Ht.
  assert (is_mapped (slot_map (rr_sharding_info r1) t) j = false <->
          is_mapped (slot_map (rr_sharding_info r2) t) j = false) as Hiff.
  { rewrite !is_mapped_false, !slot_map_none by done. by rewrite Hs. }
  destruct (is_mapped (slot_map (rr_sharding_info r1) t) j), (is_mapped (slot_map (rr_sharding_info r2) t) j);
    [done|by discriminate (proj2 Hiff eq_refl)|by discriminate (proj1 Hiff eq_refl)|done].
Qed.

Lemma forallb_ext {A} (f g : A -> bool) l : (forall x, f x = g x) -> forallb f l = forallb g l.
Proof. intros H. induction l as [|x l IH]; cbn; [done|]. by rewrite H, IH. Qed.

Lemma same_validate r1 r2 sg : wf r1 -> wf r2 -> groups r1 = groups r2 ->
  ShardingInfoValidateShardGroup (rr_sharding_info r1) sg = ShardingInfoValidateShardGroup (rr_sharding_info r2) sg.
Proof.
  intros H1 H2 Hs.
  unfold ShardingInfoValidateShardGroup. apply forallb_ext. intros sr. unfold range_free.
  destruct (HashSlotRangeValid _ _); [|done]. apply forallb_ext. intros j. unfold slot_free.
  pose proof (same_mapped r1 r2 SLOTRANGE_TYPE_STABLE j H1 H2 Hs eq_refl) as E1.
  pose proof (same_mapped r1 r2 SLOTRANGE_TYPE_IMPORTING j H1 H2 Hs eq_refl) as E2.
  pose proof (same_mapped r1 r2 SLOTRANGE_TYPE_MIGRATING j H1 H2 Hs eq_refl) as E3.
  unfold slot_map in E1, E2, E3. cbn in E1, E2, E3. by rewrite E1, E2, E3.
Qed.

Lemma same_passes r1 r2 sg : wf r1 -> wf r2 -> groups r1 = groups r2 -> passes r1 sg = passes r2 sg.
Proof.
  intros H1 H2 Hs. unfold passes. rewrite (same_validate r1 r2) by done. f_equal.
  apply bool_decide_ext. rewrite <- !groups_none by done. by rewrite Hs.
Qed.

Lemma add_agree sg r1 r2 res r1' : wf r1 -> wf r2 -> same r1 r2 -> few 1 r1 ->
  ShardingInfoAddShardGroup sg r1 = Done (res, r1') ->
  exists r2', ShardingInfoAddShardGroup sg r2 = Done (res, r2') /\ wf r2' /\ same r1' r2' /\
    (size (groups r1') <= S (size (groups r1)))%nat.
Proof.
  intros H1 H2 Hs Hfew E. destruct (add_inv r1 sg res r1' H1 E) as [(-> & Ht & Hacc & Had)|[-> ->]].
  - pose proof Hacc as Hacc2. rewrite (sm_groups _ _ Hs) in Hacc2.
    destruct (add_accepts r2 sg H2 Ht Hacc2) as (r2' & E2 & Had2). exists r2'. split; [done|].
    unfold few in Hfew.
    split; [apply Had2|]. split; [split|].
    + by rewrite (ad_groups _ _ _ Had), (ad_groups _ _ _ Had2), (sm_groups _ _ Hs).
    + intros j. by rewrite (ad_terms _ _ _ Had), (ad_terms _ _ _ Had2), (sm_terms _ _ Hs).
    + rewrite (ad_sharding _ _ _ Had), (ad_sharding _ _ _ Had2) by (rewrite <- ?(sm_groups _ _ Hs); lia).
      by rewrite (ad_groups _ _ _ Had), (ad_groups _ _ _ Had2), (sm_groups _ _ Hs), (sm_sharding _ _ Hs).
    + rewrite (proj1 (ad_conf _ _ _ Had)), (proj1 (ad_conf _ _ _ Had2)). apply Hs.
    + rewrite (proj1 (proj2 (ad_conf _ _ _ Had))), (proj1 (proj2 (ad_conf _ _ _ Had2))). apply Hs.
    + destruct Hacc as (_ & _ & Hid & _). rewrite (ad_groups _ _ _ Had), map_size_insert_None by done. lia.
  - exists r2. split; [|split; [done|split; [done|lia]]]. apply add_refuses.
    rewrite <- (same_passes r1 r2 sg) by (done || apply Hs). rewrite add_run in E.
    destruct (passes r1 sg); [|done]. by apply bind_done in E as (? & ? & _ & E).
Qed.
