(* ===== verification/ShardParse.v ===== *)
(** * Shard groups from the configuration and from commands
    ([redisraft/src/config.c], [util.c], [cluster.c])

    The local group is made from the configuration; RAFT.SHARDGROUP ADD and
    REPLACE carry groups as arguments, which are parsed, checked and submitted to
    the Raft log.  The arguments of a command are a list of byte strings; reading
    an argument that is not there is undefined. *)

From stdpp Require Import base list numbers tactics gmap strings.
From S2P Require Import Prelude Libc File Multibulk PageLog Serialization NodeAddr ShardGroup Sharding.

Local Open Scope Z_scope.

(** ** The configuration *)

Definition COMMA : Z := 44.

(** [strtol] with base 10: the value, whether it was out of range, the rest. *)
Definition strtol10 (s : list Z) : Z * bool * list Z :=
  let s' := skip_spaces s in
  let '(neg, t) := match s' with
                   | c :: t => if c =? 45 then (true, t) else if c =? 43 then (false, t) else (false, s')
                   | [] => (false, [])
                   end in
  match t with
  | c :: _ =>
      if digit_value c <? 10
      then let '(v, rest) := scan_digits 10 t 0 in
           let w := if neg : bool then - v else v in
           if w <? - 2 ^ 63 then (- 2 ^ 63, true, rest)
           else if 2 ^ 63 - 1 <? w then (2 ^ 63 - 1, true, rest)
           else (w, false, rest)
      else (0, false, s)
  | [] => (0, false, s)
  end.

(** [strchr]: what is before and behind the first [c]. *)
Fixpoint split_first (c : Z) (s : list Z) : option (list Z * list Z) :=
  match s with
  | [] => None
  | x :: s' =>
      if x =? c then Some ([], s')
      else match split_first c s' with
           | Some (a, b) => Some (x :: a, b)
           | None => None
           end
  end.

Definition validSlotConfig (slot_config : list Z) : bool :=
  match slot_config with
  | [] => true
  | _ =>
      match split_first COLON slot_config with
      | Some (_, high) =>
          let '(val_l, erange, end_) := strtol10 slot_config in
          if erange || negb (bool_decide (end_ = COLON :: high)) then false else
          let '(val_h, erange, end_) := strtol10 high in
          negb (erange || negb (bool_decide (end_ = [])) || negb (HashSlotRangeValid val_l val_h))
      | None =>
          let '(val_l, erange, end_) := strtol10 slot_config in
          negb (erange || negb (bool_decide (end_ = [])) || negb (HashSlotValid val_l))
      end
  end.

(** The tokens of [strtok_r] with [","]: what is between commas, if not empty. *)
Fixpoint split_commas (s acc : list Z) : list (list Z) :=
  let token := match acc with [] => [] | _ => [acc] end in
  match s with
  | [] => token
  | c :: s' => if c =? COMMA then token ++ split_commas s' [] else split_commas s' (acc ++ [c])
  end.

Definition tokens (s : list Z) : list (list Z) := split_commas s [].

Definition token_range (token : list Z) : ShardGroupSlotRange :=
  match split_first COLON token with
  | Some (low, high) =>
      mk_range (u32 (fst (strtoul10 low))) (u32 (fst (strtoul10 high))) SLOTRANGE_TYPE_STABLE 0
  | None =>
      let val := fst (strtoul10 token) in
      mk_range (u32 val) (u32 val) SLOTRANGE_TYPE_STABLE 0
  end.

(** [strchr(token, ':')] with a NULL token is undefined. *)
Fixpoint fill_ranges (n : nat) (toks : list (list Z)) : outcome (list ShardGroupSlotRange) :=
  match n with
  | O => Done []
  | S n' =>
      match toks with
      | [] => Abort
      | token :: toks' =>
          match fill_ranges n' toks' with
          | Done l => Done (token_range token :: l)
          | Abort => Abort
          | OutOfFuel => OutOfFuel
          end
      end
  end.

(** A comma that is the first byte is not counted. *)
Definition count_commas (s : list Z) : nat := length (filter (fun c => c = COMMA) (tail s)).

Definition CreateAndFillShard (slot_config : list Z) : outcome ShardGroup :=
  match slot_config with
  | [] => Done ShardGroupInit
  | _ =>
      match fill_ranges (1 + count_commas slot_config) (tokens slot_config) with
      | Done ranges => Done (ShardGroupInit <| sg_slot_ranges := ranges |>)
      | Abort => Abort
      | OutOfFuel => OutOfFuel
      end
  end.

Definition AddBasicLocalShardGroup (slot_config : list Z) : M RedisRaftCtx unit :=
  sg <- lift (CreateAndFillShard slot_config) ;;
  dbid <- gets rr_meta_dbid ;;
  res <- ShardingInfoAddShardGroup
           (sg <| sg_local := true |> <| sg_id := c_string (take (Z.to_nat RAFT_DBID_LEN) dbid) |>) ;;
  c_assert (res =? RR_OK).

(** ** Arguments of RAFT.SHARDGROUP *)

Section Parse.
(** Redis' [RedisModule_StringToLongLong]. *)
Context (StringToLongLong : list Z -> option Z).

(** The reply of a command that is refused, or its result. *)
Inductive parsed (A : Type) := Refused (rep : list Z) | Parsed (a : A).
Arguments Refused {A}.
Arguments Parsed {A}.

(** The reply of [RedisModule_WrongArity] is Redis' own. *)
Context (WrongArity : list Z).

(** ["... (argv[%d])"] *)
Definition with_argv (text : String.string) (idx : Z) : list Z :=
  bytes_of text ++ bytes_of " (argv["%string ++ dec_signed idx ++ bytes_of "])"%string.

Definition slot_range_error (start_argidx : Z) : list Z :=
  bytes_of "ERR failed to parse slot range (argv["%string ++ dec_signed start_argidx ++
  bytes_of "]:argv["%string ++ dec_signed (start_argidx + 3) ++ bytes_of "])"%string.

(** [RedisModule_StringToLongLong(argv[argidx++], &v) != REDISMODULE_OK] is the
    error [rep]. *)
Definition arg_longlong {A} (argv : list (list Z)) (rep : list Z)
    (k : Z -> list (list Z) -> outcome (parsed A)) : outcome (parsed A) :=
  match argv with
  | [] => Abort
  | s :: argv' =>
      match StringToLongLong s with
      | None => Done (Refused rep)
      | Some v => k v argv'
      end
  end.

(** The tests of a slot range: [int] and [enum] arguments are converted. *)
Definition slot_range_valid (start_slot end_slot type key : Z) : bool :=
  HashSlotRangeValid (to_int start_slot) (to_int end_slot) && SlotRangeTypeValid (u32 type) &&
  MigrationSessionKeyValid key.

Fixpoint parse_ranges (n : nat) (argv : list (list Z)) (idx : Z) :
    outcome (parsed (list ShardGroupSlotRange * list (list Z))) :=
  match n with
  | O => Done (Parsed ([], argv))
  | S n' =>
      let rep := slot_range_error idx in
      arg_longlong argv rep (fun start_slot argv =>
      arg_longlong argv rep (fun end_slot argv =>
      arg_longlong argv rep (fun type argv =>
      arg_longlong argv rep (fun key argv =>
      if negb (slot_range_valid start_slot end_slot type key) then Done (Refused rep) else
      match parse_ranges n' argv (idx + 4) with
      | Done (Parsed (l, argv)) =>
          Done (Parsed (mk_range (u32 start_slot) (u32 end_slot) (u32 type) (u64 key) :: l, argv))
      | o => o
      end))))
  end.

(** The byte behind an argument is its NUL. *)
Fixpoint parse_nodes (n : nat) (argv : list (list Z)) (idx : Z) :
    outcome (parsed (list ShardGroupNode * list (list Z))) :=
  match n with
  | O => Done (Parsed ([], argv))
  | S n' =>
      match argv with
      | [] => Abort
      | node_id :: argv =>
          if negb (blen node_id =? RAFT_SHARDGROUP_NODEID_LEN)
          then Done (Refused (with_argv "ERR node id must be 40 characters" idx)) else
          match argv with
          | [] => Abort
          | str :: argv =>
              match NodeAddrParse str with
              | None => Done (Refused (with_argv "ERR failed to parse node address" (idx + 1)))
              | Some addr =>
                  match parse_nodes n' argv (idx + 2) with
                  | Done (Parsed (l, argv)) => Done (Parsed (mk_sgnode (c_string node_id) addr :: l, argv))
                  | o => o
                  end
              end
          end
      end
  end.

(** The group and [*num_argv_entries].  [argc] is the length of [argv].  A
    negative number of slots or nodes is a size that cannot be allocated, or that
    wraps around. *)
Definition ShardGroupParse (argv : list (list Z)) (base_argv_idx : Z) : outcome (parsed (ShardGroup * Z)) :=
  match argv with
  | [] => Abort
  | id :: args =>
      if negb (blen id =? RAFT_DBID_LEN)
      then Done (Refused (with_argv "ERR shard group id must be 32 characters" base_argv_idx)) else
      arg_longlong args (with_argv "ERR failed to parse number of slots" (base_argv_idx + 1)) (fun num_slots args =>
      arg_longlong args (with_argv "ERR failed to parse number of nodes" (base_argv_idx + 2)) (fun num_nodes args =>
      let num_argv_entries := to_int (3 + num_slots * 4 + num_nodes * 2) in
      if Z.of_nat (length argv) <? num_argv_entries then Done (Refused WrongArity) else
      if num_slots <? 0 then Abort else
      match parse_ranges (Z.to_nat num_slots) args (base_argv_idx + 3) with
      | Done (Parsed (ranges, args)) =>
          if num_nodes <? 0 then Abort else
          match parse_nodes (Z.to_nat num_nodes) args (base_argv_idx + 3 + 4 * num_slots) with
          | Done (Parsed (nodes, _)) =>
              Done (Parsed (ShardGroupInit <| sg_id := c_string id |> <| sg_slot_ranges := ranges |>
                                           <| sg_nodes := nodes |>, num_argv_entries))
          | Done (Refused rep) => Done (Refused rep)
          | Abort => Abort
          | OutOfFuel => OutOfFuel
          end
      | Done (Refused rep) => Done (Refused rep)
      | Abort => Abort
      | OutOfFuel => OutOfFuel
      end))
  end.

(** The arrays [stable], [importing] and [migrating]. *)
Record slot_sets := mk_sets { ss_stable : gset Z; ss_importing : gset Z; ss_migrating : gset Z }.

Definition owns_error : list Z :=
  bytes_of "ERR Unable to validate shard groups: shard group already owns this slot".
Definition resharding_error : list Z :=
  bytes_of "ERR Unable to validate shard groups: slot marked for resharding".
Definition importing_error : list Z :=
  bytes_of "ERR Unable to validate shard groups: shard group already importing this slot".
Definition migrating_error : list Z :=
  bytes_of "ERR Unable to validate shard groups: shard group already migrating this slot".
Definition type_error : list Z :=
  bytes_of "ERR Unable to validate shard groups: unknown shard group type".

Definition claim_slot (type l : Z) (s : slot_sets) : list Z + slot_sets :=
  if bool_decide (l ∈ ss_stable s) then inl owns_error
  else if type =? SLOTRANGE_TYPE_STABLE then
    if bool_decide (l ∈ ss_importing s ∪ ss_migrating s) then inl resharding_error
    else inr (mk_sets ({[l]} ∪ ss_stable s) (ss_importing s) (ss_migrating s))
  else if type =? SLOTRANGE_TYPE_IMPORTING then
    if bool_decide (l ∈ ss_importing s) then inl importing_error
    else inr (mk_sets (ss_stable s) ({[l]} ∪ ss_importing s) (ss_migrating s))
  else
    if bool_decide (l ∈ ss_migrating s) then inl migrating_error
    else inr (mk_sets (ss_stable s) (ss_importing s) ({[l]} ∪ ss_migrating s)).

Fixpoint claim_slots (type : Z) (slots : list Z) (s : slot_sets) : list Z + slot_sets :=
  match slots with
  | [] => inr s
  | l :: slots' =>
      match claim_slot type l s with
      | inl e => inl e
      | inr s => claim_slots type slots' s
      end
  end.

Fixpoint claim_ranges (srs : list ShardGroupSlotRange) (s : slot_sets) : list Z + slot_sets :=
  match srs with
  | [] => inr s
  | sr :: srs' =>
      if negb (SlotRangeTypeValid (sr_type sr)) then inl type_error else
      match claim_slots (sr_type sr) (range_slots sr) s with
      | inl e => inl e
      | inr s => claim_ranges srs' s
      end
  end.

Fixpoint claim_groups (shards : list ShardGroup) (s : slot_sets) : list Z + slot_sets :=
  match shards with
  | [] => inr s
  | sg :: shards' =>
      match claim_ranges (sg_slot_ranges sg) s with
      | inl e => inl e
      | inr s => claim_groups shards' s
      end
  end.

Fixpoint parse_shards (n : nat) (argv : list (list Z)) (argv_idx : Z) :
    outcome (parsed (list ShardGroup * list (list Z))) :=
  match n with
  | O => Done (Parsed ([], argv))
  | S n' =>
      match ShardGroupParse argv argv_idx with
      | Done (Parsed (sg, num_argv_entries)) =>
          match parse_shards n' (drop (Z.to_nat num_argv_entries) argv) (argv_idx + num_argv_entries) with
          | Done (Parsed (l, argv)) => Done (Parsed (sg :: l, argv))
          | o => o
          end
      | Done (Refused rep) => Done (Refused rep)
      | Abort => Abort
      | OutOfFuel => OutOfFuel
      end
  end.

Definition ShardGroupsParse (argv : list (list Z)) : outcome (parsed (list ShardGroup)) :=
  let rep := bytes_of "ERR invalid shard group message(1)" in
  arg_longlong argv rep (fun val argv =>
  if (val <? 0) || (REDIS_RAFT_HASH_SLOTS <=? val) then Done (Refused rep) else
  match parse_shards (Z.to_nat val) argv 1 with
  | Done (Parsed (shards, argv)) =>
      if negb (Z.of_nat (length argv) =? 0)
      then Done (Refused (bytes_of "ERR invalid shard group message (extra arguments)")) else
      match claim_groups shards (mk_sets ∅ ∅ ∅) with
      | inl e => Done (Refused e)
      | inr _ => Done (Parsed shards)
      end
  | Done (Refused rep) => Done (Refused rep)
  | Abort => Abort
  | OutOfFuel => OutOfFuel
  end).

(** ** Submitting *)

(** [raft_recv_entry] with an entry of this type and data: its error code. *)
Context (recv_entry : Z -> list Z -> Z).

(** An error code, and the entry that is in the log afterwards. *)
Definition submit (type : Z) (payload : list Z) : Z * option (list Z) :=
  if recv_entry type payload =? 0 then (RR_OK, Some payload) else (RR_ERROR, None).

Definition ShardGroupAppendLogEntry (is_leader : bool) (sg : ShardGroup) (type : Z) :
    outcome (Z * option (list Z)) :=
  if negb is_leader then Done (RR_ERROR, None) else
  match ShardGroupSerialize sg with
  | Done payload => Done (submit type payload)
  | Abort => Abort
  | OutOfFuel => OutOfFuel
  end.

Definition ShardGroupsAppendLogEntry (sgs : list ShardGroup) (type : Z) : outcome (Z * option (list Z)) :=
  match groups_payload sgs with
  | Done payload => Done (submit type payload)
  | Abort => Abort
  | OutOfFuel => OutOfFuel
  end.

(** The replies sent at once, and the data of the entry appended. *)
Definition ShardGroupAdd (is_leader : bool) (si : ShardingInfo) (argv : list (list Z)) :
    outcome (list (list Z) * option (list Z)) :=
  match ShardGroupParse (drop 2 argv) 2 with
  | Done (Refused rep) => Done ([rep], None)
  | Done (Parsed (sg, _)) =>
      if negb (ShardingInfoValidateShardGroup si sg)
      then Done ([bytes_of "ERR invalid shardgroup configuration. Consult the logs for more info."], None) else
      match ShardGroupAppendLogEntry is_leader sg RAFT_LOGTYPE_ADD_SHARDGROUP with
      | Done (ret, entry) =>
          if negb (ret =? RR_OK)
          then Done ([bytes_of "ERR shardgroup add failed, please check logs."], None)
          else Done ([], entry)
      | Abort => Abort
      | OutOfFuel => OutOfFuel
      end
  | Abort => Abort
  | OutOfFuel => OutOfFuel
  end.

Definition ShardGroupReplace (argv : list (list Z)) : outcome (list (list Z) * option (list Z)) :=
  match ShardGroupsParse (drop 2 argv) with
  | Done (Refused rep) => Done ([rep], None)
  | Done (Parsed sgs) =>
      match ShardGroupsAppendLogEntry sgs RAFT_LOGTYPE_REPLACE_SHARDGROUPS with
      | Done (ret, entry) =>
          if negb (ret =? RR_OK) then Done ([bytes_of "failed, please check logs."], None)
          else Done ([], entry)
      | Abort => Abort
      | OutOfFuel => OutOfFuel
      end
  | Abort => Abort
  | OutOfFuel => OutOfFuel
  end.

End Parse.

Arguments Refused {A}.
Arguments Parsed {A}.
