(* ===== verification/ShardParseSpec.v ===== *)
(** * What the checks of configured and submitted shard groups guarantee

    A configuration that is accepted makes a valid local group; groups that a
    command submits are added by every server that applies the entry. *)

From stdpp Require Import base list numbers tactics gmap strings.
From S2P Require Import Prelude Libc File Multibulk PageLog Serialization SerializationSpec NodeAddr.
From S2P Require Import ShardGroup Sharding ShardingSpec ShardParse.

Local Open Scope Z_scope.

(** ** The configuration *)

(** Bytes that a number can be written with. *)
Definition num_char (c : Z) : Prop := c <> COMMA /\ c <> COLON.

Lemma skip_spaces_split s : exists sp, s = sp ++ skip_spaces s /\ Forall (fun c => is_space c = true) sp.
Proof.
  induction s as [|c s (sp & E & Hsp)]; [by exists []|]. cbn [skip_spaces].
  destruct (is_space c) eqn:Ec; [|by exists []]. exists (c :: sp). split; [cbn; congruence|by constructor].
Qed.

Lemma skip_spaces_app sp s : Forall (fun c => is_space c = true) sp -> skip_spaces (sp ++ s) = skip_spaces s.
Proof. induction 1 as [|c sp Hc _ IH]; [done|]. cbn. by rewrite Hc. Qed.

Lemma digit_value_digit c : digit_value c < 10 -> is_digit c.
Proof.
  unfold digit_value, is_digit. intros H. repeat case_match; lia.
Qed.

Lemma scan_digits_split t : forall acc v rest, scan_digits 10 t acc = (v, rest) ->
  exists ds, t = ds ++ rest /\ Forall is_digit ds /\ scan_digits 10 ds acc = (v, []) /\
    (match t with c :: _ => (digit_value c <? 10) = true -> ds <> [] | [] => True end).
Proof.
  induction t as [|c t IH]; intros acc v rest; cbn [scan_digits].
  - intros [= <- <-]. by exists [].
  - destruct (digit_value c <? 10) eqn:Ec.
    + intros H. destruct (IH _ _ _ H) as (ds & -> & Hd & E & _). exists (c :: ds).
      split; [done|]. split; [constructor; [apply digit_value_digit; lia|done]|].
      cbn [scan_digits]. by rewrite Ec.
    + intros [= <- <-]. by exists [].
Qed.

Lemma scan_digits_nonneg t : forall acc v rest, 0 <= acc -> scan_digits 10 t acc = (v, rest) -> 0 <= v.
Proof.
  induction t as [|c t IH]; intros acc v rest Hacc; cbn [scan_digits]; [intros [= <- <-]; lia|].
  destruct (digit_value c <? 10) eqn:Ec; [|intros [= <- <-]; lia].
  apply IH. unfold digit_value. repeat case_match; lia.
Qed.

(** Sign and rest. *)
Definition sign_of (s : list Z) : bool * list Z :=
  match s with
  | c :: t => if c =? 45 then (true, t) else if c =? 43 then (false, t) else (false, s)
  | [] => (false, [])
  end.

Lemma sign_of_split s neg t : sign_of s = (neg, t) ->
  exists sg, s = sg ++ t /\ (sg = [] \/ sg = [43] \/ sg = [45]) /\ (neg = true <-> sg = [45]).
Proof.
  unfold sign_of. destruct s as [|c s]; [intros [= <- <-]; exists []; split_and!; [done|by left|done]|].
  destruct (Z.eqb_spec c 45) as [->|]; [intros [= <- <-]; exists [45]; split_and!; [done|by right; right|done]|].
  destruct (Z.eqb_spec c 43) as [->|]; intros [= <- <-]; [exists [43]|exists []]; split_and!; try done; auto.
Qed.

Lemma sign_of_digits sg d ds : (sg = [] \/ sg = [43] \/ sg = [45]) -> is_digit d ->
  sign_of (sg ++ d :: ds) = (bool_decide (sg = [45]), d :: ds) /\ skip_spaces (sg ++ d :: ds) = sg ++ d :: ds.
Proof.
  unfold is_digit. intros [-> | [-> | ->]] Hd; [|done|done]. cbn. unfold is_space.
  rewrite (proj2 (Z.eqb_neq d 45)), (proj2 (Z.eqb_neq d 43)), (proj2 (Z.eqb_neq d 32)) by lia.
  rewrite (proj2 (Z.leb_gt d 13)), andb_false_r by lia. done.
Qed.

Lemma strtoul10_unfold s : strtoul10 s =
  let '(neg, t) := sign_of (skip_spaces s) in
  match t with
  | c :: _ => if digit_value c <? 10
              then let '(v, rest) := scan_digits 10 t 0 in
                   (if 2 ^ 64 - 1 <? v then 2 ^ 64 - 1 else if neg then u64 (- v) else v, rest)
              else (0, s)
  | [] => (0, s)
  end.
Proof. done. Qed.

(** Where [strtol] finds a number that is not negative, [strtoul] finds the same
    one in the bytes it used. *)
Lemma strtol_strtoul s w rest : strtol10 s = (w, false, rest) -> 0 <= w ->
  exists pre, s = pre ++ rest /\ strtoul10 pre = (w, []) /\ Forall num_char pre.
Proof.
  unfold strtol10. fold (sign_of (skip_spaces s)). intros H Hw.
  destruct (skip_spaces_split s) as (sp & Es & Hsp).
  destruct (sign_of (skip_spaces s)) as [neg t] eqn:Et. destruct (sign_of_split _ _ _ Et) as (sg & Esg & Hsg & Hneg).
  destruct t as [|c t]; [injection H as <- <-; by exists []|].
  destruct (digit_value c <? 10) eqn:Ec; [|injection H as <- <-; by exists []].
  destruct (scan_digits 10 (c :: t) 0) as [v r] eqn:Ev.
  assert (0 <= v) as Hv by (eapply scan_digits_nonneg; [|exact Ev]; lia).
  destruct (scan_digits_split _ _ _ _ Ev) as (ds & Eds & Hds & Escan & Hne).
  destruct ds as [|d ds]; [by destruct (Hne Ec)|].
  assert ((if neg then - v else v) = w /\ r = rest) as [Ew ->] by (repeat case_match; simplify_eq; done).
  pose proof (Forall_inv Hds) as Hd. destruct (sign_of_digits sg d ds Hsg Hd) as [E1 E2].
  exists (sp ++ sg ++ d :: ds). split; [|split].
  - rewrite Es, Esg, Eds. by rewrite <- !app_assoc.
  - rewrite strtoul10_unfold, skip_spaces_app, E2, E1 by done.
    rewrite (is_digit_value d Hd). unfold is_digit in Hd. rewrite (proj2 (Z.ltb_lt (d - 48) 10)) by lia.
    rewrite Escan. f_equal. destruct neg.
    + rewrite bool_decide_eq_true_2 by tauto. assert (v = 0) as -> by lia. by subst w.
    + rewrite bool_decide_eq_false_2 by (intros ->; destruct Hneg as [_ Hneg]; by discriminate Hneg).
      subst w. rewrite (proj2 (Z.ltb_ge _ _)); [done|]. clear -H. repeat case_match; simplify_eq; lia.
  - unfold num_char, COMMA, COLON. rewrite !Forall_app. split; [|split].
    + eapply Forall_impl; [exact Hsp|]. unfold is_space. intros; lia.
    + destruct Hsg as [-> | [-> | ->]]; repeat constructor; done.
    + eapply Forall_impl; [exact Hds|]. unfold is_digit. intros; lia.
Qed.

Lemma split_first_some c s a b : split_first c s = Some (a, b) -> s = a ++ c :: b.
Proof.
  revert a b. induction s as [|x s IH]; intros a b; cbn [split_first]; [done|].
  destruct (Z.eqb_spec x c) as [->|]; [by intros [= <- <-]|].
  destruct (split_first c s) as [[a' b']|]; [|done]. intros [= <- <-]. by rewrite (IH a' b').
Qed.

Lemma split_commas_none s : Forall num_char s \/ (exists a b, s = a ++ COLON :: b /\ Forall num_char a /\ Forall num_char b) ->
  forall acc, split_commas s acc = match acc ++ s with [] => [] | _ => [acc ++ s] end.
Proof.
  intros Hs.
  assert (Forall (fun c => c <> COMMA) s) as Hc.
  { destruct Hs as [Hs|(a & b & -> & Ha & Hb)].
    - eapply Forall_impl; [exact Hs|]. by intros c [? _].
    - apply Forall_app. split; [|constructor; [done|]]; (eapply Forall_impl; [eassumption|]; by intros c [? _]). }
  clear Hs. induction Hc as [|c s Hc _ IH]; intros acc; cbn [split_commas].
  - rewrite app_nil_r. by destruct acc.
  - rewrite (proj2 (Z.eqb_neq c COMMA)) by done. rewrite IH, <- app_assoc. by destruct acc.
Qed.

(** A string without comma is one token and one range. *)
Lemma create_one s : s <> [] ->
  Forall num_char s \/ (exists a b, s = a ++ COLON :: b /\ Forall num_char a /\ Forall num_char b) ->
  (COMMA ∉ s) /\ CreateAndFillShard s = Done (ShardGroupInit <| sg_slot_ranges := [token_range s] |>).
Proof.
  intros Hne Hs.
  assert (COMMA ∉ s) as Hc.
  { destruct Hs as [Hs|(a & b & -> & Ha & Hb)]; rewrite ?elem_of_app, ?elem_of_cons; rewrite ?Forall_forall in *.
    - intros Hin. by destruct (Hs _ Hin).
    - intros [Hin|[?|Hin]]; [by destruct (Ha _ Hin)|done|by destruct (Hb _ Hin)]. }
  split; [done|]. unfold CreateAndFillShard, tokens. rewrite (split_commas_none s Hs). cbn [app].
  assert (count_commas s = 0%nat) as ->.
  { unfold count_commas. assert (filter (fun c => c = COMMA) (tail s) = []) as ->; [|done].
    apply elem_of_nil_inv. intros c [-> Hin]%list_elem_of_filter. destruct Hc.
    destruct s; [by apply elem_of_nil in Hin|by right]. }
  by destruct s.
Qed.

Lemma split_first_none c s : split_first c s = None -> c ∉ s.
Proof.
  induction s as [|x s IH]; cbn [split_first]; [intros _; apply not_elem_of_nil|].
  destruct (Z.eqb_spec x c); [done|]. destruct (split_first c s) as [[]|]; [done|].
  intros _. apply not_elem_of_cons. split; [congruence|by apply IH].
Qed.

Lemma valid_config_fill s : validSlotConfig s = true -> s <> [] ->
  (COMMA ∉ s) /\ exists lo hi, HashSlotRangeValid lo hi = true /\
    CreateAndFillShard s =
      Done (ShardGroupInit <| sg_slot_ranges := [mk_range lo hi SLOTRANGE_TYPE_STABLE 0] |>).
Proof.
  intros Hv Hne. unfold validSlotConfig in Hv. destruct s as [|c0 s0]; [done|].
  set (s := c0 :: s0) in *. clearbody s.
  assert (forall lo hi, HashSlotRangeValid lo hi = true -> 0 <= lo < 2 ^ 32 /\ 0 <= hi < 2 ^ 32) as Hb.
  { unfold HashSlotRangeValid, HashSlotValid, REDIS_RAFT_HASH_MIN_SLOT, REDIS_RAFT_HASH_MAX_SLOT. lia. }
  destruct (split_first COLON s) as [[a high]|] eqn:Es.
  - pose proof (split_first_some _ _ _ _ Es) as Hs.
    destruct (strtol10 s) as [[lo e1] end1] eqn:E1. destruct (strtol10 high) as [[hi e2] end2] eqn:E2.
    destruct e1; [done|]. destruct (bool_decide_reflect (end1 = COLON :: high)) as [->|]; [|done]. cbn [negb orb] in Hv.
    destruct e2; [done|]. destruct (bool_decide_reflect (end2 = [])) as [->|]; [|done]. cbn [negb orb] in Hv.
    rewrite negb_involutive in Hv. destruct (Hb lo hi Hv) as [Hlo Hhi].
    destruct (strtol_strtoul _ _ _ E1 ltac:(lia)) as (p1 & H1 & N1 & C1).
    destruct (strtol_strtoul _ _ _ E2 ltac:(lia)) as (p2 & H2 & N2 & C2). rewrite app_nil_r in H2. subst p2.
    assert (p1 = a) as -> by (rewrite Hs in H1; by apply app_inv_tail in H1).
    destruct (create_one s Hne) as [Hcomma Hc]; [right; by exists a, high|]. split; [done|]. exists lo, hi.
    split; [done|]. rewrite Hc. unfold token_range. rewrite Es, N1, N2. cbn [fst]. by rewrite !u32_id by lia.
  - destruct (strtol10 s) as [[lo e1] end1] eqn:E1. destruct e1; [done|].
    destruct (bool_decide_reflect (end1 = [])) as [->|]; [|done]. cbn [negb orb] in Hv.
    rewrite negb_involutive in Hv. assert (HashSlotRangeValid lo lo = true) as Hv'.
    { unfold HashSlotRangeValid. rewrite Hv. cbn. lia. }
    destruct (Hb lo lo Hv') as [Hlo _].
    destruct (strtol_strtoul _ _ _ E1 ltac:(lia)) as (p1 & H1 & N1 & C1). rewrite app_nil_r in H1. subst p1.
    destruct (create_one s Hne) as [Hcomma Hc]; [by left|]. split; [done|]. exists lo, lo.
    split; [done|]. rewrite Hc. unfold token_range. rewrite Es, N1. cbn [fst]. by rewrite !u32_id by lia.
Qed.

Definition local_group (dbid : list Z) (ranges : list ShardGroupSlotRange) : ShardGroup :=
  ShardGroupInit <| sg_id := dbid |> <| sg_slot_ranges := ranges |> <| sg_local := true |>.

Definition all_slots_range : ShardGroupSlotRange :=
  mk_range REDIS_RAFT_HASH_MIN_SLOT REDIS_RAFT_HASH_MAX_SLOT SLOTRANGE_TYPE_STABLE 0.

Lemma covers_all_local dbid lo hi :
  covers_all (local_group dbid [mk_range lo hi SLOTRANGE_TYPE_STABLE 0]) =
    bool_decide (mk_range lo hi SLOTRANGE_TYPE_STABLE 0 = all_slots_range).
Proof.
  cbn. unfold all_slots_range. destruct (Z.eqb_spec lo REDIS_RAFT_HASH_MIN_SLOT) as [->|];
    destruct (Z.eqb_spec hi REDIS_RAFT_HASH_MAX_SLOT) as [->|]; cbn;
    [by rewrite bool_decide_eq_true_2|rewrite bool_decide_eq_false_2 by (intros [=]; done)..]; done.
Qed.

Lemma acceptable_empty sg : valid_ranges sg -> blen (sg_id sg) <= RAFT_DBID_LEN -> acceptable ∅ sg.
Proof. intros Hr Hl. split_and!; [done|done|done|]. intros t j _ id g Hg. by rewrite lookup_empty in Hg. Qed.

Lemma is_plain_one id g : is_plain {[id := g]} = covers_all g.
Proof. unfold is_plain. by rewrite map_to_list_singleton. Qed.

(** The local group: with a slot configuration that
    [validSlotConfig] accepts, [AddBasicLocalShardGroup] never stops in an empty
    table; the local group gets the range of the configuration (none, if it is
    empty), stable, and the cluster counts as sharded unless that is every slot.
    A configuration with a comma, which [CreateAndFillShard] would split, is
    never accepted. *)
Theorem local_group_from_config (cfg : list Z) (r : RedisRaftCtx) :
  wf r -> groups r = ∅ -> blen (rr_meta_dbid r) = RAFT_DBID_LEN -> Forall (fun c => c <> 0) (rr_meta_dbid r) ->
  validSlotConfig cfg = true ->
  (COMMA ∉ cfg) /\ exists r' ranges,
    AddBasicLocalShardGroup cfg r = Done (tt, r') /\ wf r' /\
    groups r' = {[rr_meta_dbid r := local_group (rr_meta_dbid r) ranges]} /\
    (cfg = [] -> ranges = []) /\
    (cfg <> [] -> exists lo hi, ranges = [mk_range lo hi SLOTRANGE_TYPE_STABLE 0] /\ HashSlotRangeValid lo hi = true) /\
    si_is_sharding (rr_sharding_info r') =
      si_is_sharding (rr_sharding_info r) || negb (bool_decide (ranges = [all_slots_range])).
Proof.
  intros Hwf Hg Hlen Hchars Hv.
  assert ((COMMA ∉ cfg) /\ exists ranges, CreateAndFillShard cfg = Done (ShardGroupInit <| sg_slot_ranges := ranges |>) /\
    (cfg = [] -> ranges = []) /\
    (cfg <> [] -> exists lo hi, ranges = [mk_range lo hi SLOTRANGE_TYPE_STABLE 0] /\ HashSlotRangeValid lo hi = true))
    as (Hcomma & ranges & Ec & He & Hne).
  { destruct (decide (cfg = [])) as [->|Hne]; [split; [apply not_elem_of_nil|by exists []]|].
    destruct (valid_config_fill cfg Hv Hne) as (Hcomma & lo & hi & Hr & Ec). split; [done|].
    eexists. split; [exact Ec|]. split; [done|]. eauto. }
  split; [done|]. set (dbid := rr_meta_dbid r) in *.
  assert (valid_ranges (local_group dbid ranges) /\ valid_types (local_group dbid ranges)) as [Hvr Hvt].
  { unfold valid_ranges, valid_types. cbn. destruct (decide (cfg = [])) as [E|E]; [rewrite He by done; by split; constructor|].
    destruct (Hne E) as (lo & hi & -> & Hr). split; by repeat constructor. }
  destruct (add_accepts r (local_group dbid ranges) Hwf Hvt) as (r' & Ea & Had).
  { rewrite Hg. apply acceptable_empty; [done|]. cbn [sg_id local_group]. change (blen dbid <= RAFT_DBID_LEN). lia. }
  exists r', ranges. split_and!; [|apply Had| |done|done|].
  - unfold AddBasicLocalShardGroup. unfold bind, lift, gets, c_assert. rewrite Ec. fold dbid.
    rewrite take_ge by (unfold blen in Hlen; lia). rewrite c_string_nonzero by done.
    change (_ <| sg_id := dbid |>) with (local_group dbid ranges). by rewrite Ea.
  - rewrite (ad_groups _ _ _ Had), Hg. by destruct r.
  - rewrite (ad_sharding _ _ _ Had) by (rewrite Hg, map_size_empty; lia).
    rewrite (ad_groups _ _ _ Had), Hg. change (<[?k := ?v]> ∅) with ({[k := v]} : gmap (list Z) ShardGroup).
    rewrite is_plain_one. f_equal. f_equal. change (covers_all (sg_static _)) with (covers_all (local_group dbid ranges)).
    destruct (decide (cfg = [])) as [E|E]; [by rewrite He|].
    destruct (Hne E) as (lo & hi & -> & Hr). rewrite covers_all_local. apply bool_decide_ext. split; congruence.
Qed.

(** A server whose table is empty. *)
Definition demo_rr : RedisRaftCtx := mk_rr (replicate 32 97) (replicate 32 97) true ∅ 1 si_zero.

Lemma demo_rr_wf : wf demo_rr.
Proof. apply (no_groups_emptied false demo_rr). Qed.

Lemma local_group_from_config_witness :
  (COMMA ∉ bytes_of "0:16383") /\ exists r' ranges,
    AddBasicLocalShardGroup (bytes_of "0:16383") demo_rr = Done (tt, r') /\ wf r' /\
    groups r' = {[rr_meta_dbid demo_rr := local_group (rr_meta_dbid demo_rr) ranges]} /\
    (bytes_of "0:16383" = [] -> ranges = []) /\
    (bytes_of "0:16383" <> [] -> exists lo hi, ranges = [mk_range lo hi SLOTRANGE_TYPE_STABLE 0] /\ HashSlotRangeValid lo hi = true) /\
    si_is_sharding (rr_sharding_info r') =
      si_is_sharding (rr_sharding_info demo_rr) || negb (bool_decide (ranges = [all_slots_range])).
Proof.
  apply (local_group_from_config (bytes_of "0:16383") demo_rr); [apply demo_rr_wf|done|done| |vm_compute; reflexivity].
  solve_chars.
Defined.

(** ** What a parsed group is *)

Section Parse.
Context (StringToLongLong : list Z -> option Z) (WrongArity : list Z).

Lemma parse_ranges_ok n : forall argv idx l rest,
  parse_ranges StringToLongLong n argv idx = Done (Parsed (l, rest)) ->
  length l = n /\ (length rest + 4 * n = length argv)%nat /\ rest = drop (4 * n) argv /\
  Forall (fun sr => valid_range sr /\ SlotRangeTypeValid (sr_type sr) = true /\ range_ok sr) l.
Proof.
  induction n as [|n IH]; intros argv idx l rest; cbn [parse_ranges].
  { intros [= <- <-]. split; [done|]. split; [lia|]. by split; [|constructor]. }
  unfold arg_longlong. destruct argv as [|a1 argv]; [done|]. destruct (StringToLongLong a1) as [lo|]; [|done].
  destruct argv as [|a2 argv]; [done|]. destruct (StringToLongLong a2) as [hi|]; [|done].
  destruct argv as [|a3 argv]; [done|]. destruct (StringToLongLong a3) as [ty|]; [|done].
  destruct argv as [|a4 argv]; [done|]. destruct (StringToLongLong a4) as [key|]; [|done].
  destruct (slot_range_valid lo hi ty key) eqn:Ev; [|done]. cbn [negb].
  destruct (parse_ranges StringToLongLong n argv (idx + 4)) as [[|[l' rest']]| |] eqn:E; try done.
  intros [= <- <-]. destruct (IH _ _ _ _ E) as (Hl & Hr & Hd & Hall). cbn [length].
  split; [lia|]. split; [lia|]. split; [by replace (4 * S n)%nat with (S (S (S (S (4 * n))))) by lia|].
  constructor; [|done]. unfold slot_range_valid in Ev. apply andb_true_iff in Ev as [[Hv Ht]%andb_true_iff _].
  assert (forall z, 0 <= to_int z < 16384 -> u32 z = to_int z) as Hu.
  { intros z. unfold u32, to_int. pose proof (Z.mod_pos_bound (z + 2 ^ 31) (2 ^ 32) ltac:(lia)).
    intros Hz. pose proof (Z.div_mod (z + 2 ^ 31) (2 ^ 32) ltac:(lia)).
    symmetry. apply (Z.mod_unique _ _ ((z + 2 ^ 31) / 2 ^ 32)); [left; lia|lia]. }
  assert (0 <= to_int lo < 16384 /\ 0 <= to_int hi < 16384) as [Hlo Hhi].
  { revert Hv. unfold HashSlotRangeValid, HashSlotValid, REDIS_RAFT_HASH_MIN_SLOT, REDIS_RAFT_HASH_MAX_SLOT. lia. }
  unfold valid_range. cbn [sr_start_slot sr_end_slot sr_type sr_migration_session_key].
  rewrite (Hu lo Hlo), (Hu hi Hhi). split; [done|]. split; [done|].
  pose proof (Z.mod_pos_bound ty (2 ^ 32) ltac:(lia)). pose proof (Z.mod_pos_bound key (2 ^ 64) ltac:(lia)).
  split; cbn; lia || done.
Qed.

Lemma c_string_sub P s : Forall P s -> Forall P (c_string s).
Proof. induction 1 as [|c s Hc _ IH]; cbn [c_string]; [done|]. destruct (c =? 0); by constructor. Qed.

Lemma c_string_line max s : no_lf s -> blen s <= max -> line_ok max (c_string s).
Proof.
  intros Hlf Hl. pose proof (c_string_length s). split; [unfold blen in *; lia|apply c_string_chars|by apply c_string_sub].
Qed.

Lemma split_last_host s a b : no_lf s -> split_last COLON s = Some (a, b) -> no_lf a.
Proof. intros Hs ->%split_last_Some. unfold no_lf in *. by apply Forall_app in Hs as [? _]. Qed.

Lemma parsed_host s a : no_lf s -> NodeAddrParse s = Some a -> no_lf (na_host a).
Proof.
  intros Hs. unfold NodeAddrParse. destruct (split_last COLON s) as [[h p]|] eqn:E; [|done].
  destruct (_ || _); [done|]. destruct (strtoul10 _) as [l e]. destruct (_ || _ || _); [done|]. intros [= <-].
  cbn. apply c_string_sub, Forall_take. by eapply split_last_host.
Qed.

Lemma parse_nodes_ok n : forall argv idx l rest, Forall no_lf argv ->
  parse_nodes n argv idx = Done (Parsed (l, rest)) ->
  length l = n /\ (length rest + 2 * n = length argv)%nat /\ Forall node_ok l.
Proof.
  induction n as [|n IH]; intros argv idx l rest Hlf; cbn [parse_nodes].
  { intros [= <- <-]. split; [done|]. split; [lia|constructor]. }
  destruct argv as [|id argv]; [done|]. apply Forall_cons in Hlf as [Hid Hlf].
  destruct (Z.eqb_spec (blen id) RAFT_SHARDGROUP_NODEID_LEN) as [El|]; [|done]. cbn [negb].
  destruct argv as [|str argv]; [done|]. apply Forall_cons in Hlf as [Hstr Hlf].
  destruct (NodeAddrParse str) as [addr|] eqn:Ea; [|done].
  destruct (parse_nodes n argv (idx + 2)) as [[|[l' rest']]| |] eqn:E; try done.
  intros [= <- <-]. destruct (IH _ _ _ _ Hlf E) as (Hl & Hr & Hall). cbn [length].
  split; [lia|]. split; [lia|]. constructor; [|done].
  split; cbn; [apply c_string_line; [done|lia]|by eapply NodeAddrParse_ok|by eapply parsed_host].
Qed.

(** A group from a command without line breaks can be written and mapped. *)
Record parsed_group (sg : ShardGroup) : Prop := {
  pg_ok : sg_ok sg;
  pg_ranges : valid_ranges sg;
  pg_types : valid_types sg;
  pg_new : sg = sg_config sg
}.

Lemma parse_group_ok argv idx sg n : Forall no_lf argv -> Z.of_nat (length argv) <= 2 ^ 20 ->
  ShardGroupParse StringToLongLong WrongArity argv idx = Done (Parsed (sg, n)) ->
  parsed_group sg /\ 3 <= n /\
  n = 3 + 4 * Z.of_nat (length (sg_slot_ranges sg)) + 2 * Z.of_nat (length (sg_nodes sg)) /\
  n <= Z.of_nat (length argv).
Proof.
  intros Hlf Hlen. unfold ShardGroupParse. destruct argv as [|id args]; [done|].
  apply Forall_cons in Hlf as [Hid Hlf].
  destruct (Z.eqb_spec (blen id) RAFT_DBID_LEN) as [El|]; [|done]. cbn [negb]. unfold arg_longlong.
  destruct args as [|a1 args]; [done|]. destruct (StringToLongLong a1) as [ns|]; [|done].
  destruct args as [|a2 args]; [done|]. destruct (StringToLongLong a2) as [nn|]; [|done].
  destruct (Z.ltb_spec (Z.of_nat (length (id :: a1 :: a2 :: args))) (to_int (3 + ns * 4 + nn * 2))); [done|].
  destruct (Z.ltb_spec ns 0); [done|].
  destruct (parse_ranges _ _ _ _) as [[|[ranges args1]]| |] eqn:Er; try done.
  destruct (Z.ltb_spec nn 0); [done|].
  destruct (parse_nodes _ _ _) as [[|[nodes args2]]| |] eqn:En; try done.
  intros [= <- <-]. do 2 apply Forall_cons in Hlf as [_ Hlf].
  destruct (parse_ranges_ok _ _ _ _ _ Er) as (Hrl & Hra & Hrd & Hrall).
  assert (Forall no_lf args1) as Hlf1 by (rewrite Hrd; by apply Forall_drop).
  destruct (parse_nodes_ok _ _ _ _ _ Hlf1 En) as (Hnl & Hna & Hnall).
  cbn [length] in *.
  assert (to_int (3 + ns * 4 + nn * 2) = 3 + 4 * ns + 2 * nn) as ->.
  { unfold to_int. rewrite Z.mod_small by lia. lia. }
  split; [|cbn [sg_slot_ranges sg_nodes set_field]; cbn; lia]. split; cbn [sg_id sg_slot_ranges sg_nodes]; try done.
  - split; cbn.
    + apply c_string_line; [done|lia].
    + eapply Forall_impl; [exact Hrall|]. by intros sr (_ & _ & ?).
    + done.
    + unfold sg_nodes_num, sg_slot_ranges_num. cbn.
      unfold SHARDGROUPNODE_MAXLEN, SLOT_RANGE_MAXLEN, NODEADDR_MAXLEN, RAFT_SHARDGROUP_NODEID_LEN. lia.
  - eapply Forall_impl; [exact Hrall|]. by intros sr (? & _).
  - eapply Forall_impl; [exact Hrall|]. by intros sr (_ & ? & _).
Qed.

End Parse.

(** ** Claims of slots *)

Definition taken (s : slot_sets) (t : Z) : gset Z :=
  if t =? SLOTRANGE_TYPE_STABLE then ss_stable s
  else if t =? SLOTRANGE_TYPE_IMPORTING then ss_importing s else ss_migrating s.

(** The pairs [l] were free in [s], and [s'] has them. *)
Record claimed (l : list (Z * Z)) (s s' : slot_sets) : Prop := {
  cl_free t j : (t, j) ∈ l -> (j ∉ taken s SLOTRANGE_TYPE_STABLE) /\ (j ∉ taken s t);
  cl_taken t j : SlotRangeTypeValid t = true -> j ∈ taken s' t <-> j ∈ taken s t \/ (t, j) ∈ l
}.

Lemma claimed_nil s : claimed [] s s.
Proof. split; [intros t j H; by apply elem_of_nil in H|]. intros t j _. rewrite elem_of_nil. tauto. Qed.

Lemma claimed_app l1 l2 s s1 s2 :
  Forall (fun p => SlotRangeTypeValid (fst p) = true) l2 ->
  claimed l1 s s1 -> claimed l2 s1 s2 -> claimed (l1 ++ l2) s s2.
Proof.
  intros Hv [F1 T1] [F2 T2]. split.
  - intros t j [H|H]%elem_of_app; [by apply F1|]. rewrite Forall_forall in Hv. pose proof (Hv _ H) as Ht. cbn in Ht.
    destruct (F2 t j H) as [Hs Hj]. rewrite T1 in Hs, Hj by done. tauto.
  - intros t j Ht. rewrite T2, T1, elem_of_app by done. tauto.
Qed.

Lemma claim_slot_claimed t j s s' : SlotRangeTypeValid t = true ->
  claim_slot t j s = inr s' -> claimed [(t, j)] s s'.
Proof.
  intros Ht. unfold claim_slot. destruct (bool_decide_reflect (j ∈ ss_stable s)) as [|Hs]; [done|].
  destruct (type_cases t Ht) as [-> | [-> | ->]]; cbn [Z.eqb Pos.eqb SLOTRANGE_TYPE_STABLE SLOTRANGE_TYPE_IMPORTING SLOTRANGE_TYPE_MIGRATING];
    (case_bool_decide as Hj; [done|]); intros [= <-]; split.
  all: try (intros t' j' [-> <-]%singleton_pair; cbn; by rewrite ?not_elem_of_union in *).
  all: intros t' j' Ht'; rewrite singleton_pair; destruct (type_cases t' Ht') as [-> | [-> | ->]]; cbn;
    rewrite ?elem_of_union, ?elem_of_singleton; intuition (subst; done || (by auto)).
Qed.

Lemma claim_slots_claimed t slots : SlotRangeTypeValid t = true -> forall s s',
  claim_slots t slots s = inr s' -> claimed ((fun j => (t, j)) <$> slots) s s'.
Proof.
  intros Ht. induction slots as [|j slots IH]; intros s s'; cbn [claim_slots].
  { intros [= <-]. apply claimed_nil. }
  destruct (claim_slot t j s) as [|s1] eqn:E; [done|]. intros H. rewrite fmap_cons.
  apply (claimed_app [(t, j)] _ _ s1); [|by apply claim_slot_claimed|by apply IH].
  apply Forall_forall. intros p (k & -> & _)%list_elem_of_fmap. done.
Qed.

Lemma claim_ranges_claimed srs : forall s s',
  claim_ranges srs s = inr s' ->
  claimed (concat (range_pairs <$> srs)) s s' /\
  Forall (fun p => SlotRangeTypeValid (fst p) = true) (concat (range_pairs <$> srs)).
Proof.
  induction srs as [|sr srs IH]; intros s s'; cbn [claim_ranges].
  { intros [= <-]. split; [apply claimed_nil|constructor]. }
  destruct (SlotRangeTypeValid (sr_type sr)) eqn:Ht; [|done]. cbn [negb].
  destruct (claim_slots _ _ s) as [|s1] eqn:E; [done|]. intros H. destruct (IH _ _ H) as [Hc Hv].
  rewrite fmap_cons. cbn [concat]. split.
  - by apply (claimed_app _ _ _ s1); [|apply claim_slots_claimed|].
  - apply Forall_app. split; [|done]. apply Forall_forall. by intros p (k & -> & _)%list_elem_of_fmap.
Qed.

(** ** Applying a REPLACE entry *)

Lemma lift_done {S A} (s : S) {o : outcome A} {a} : o = Done a -> lift o s = Done (a, s).
Proof. unfold lift. by intros ->. Qed.

Lemma payload_number_text n rest : 0 <= n < 2 ^ 64 -> payload_number (num_line n ++ rest) = Done (n, rest).
Proof.
  intros Hn. unfold payload_number, num_line. rewrite <- app_assoc. cbn [app].
  rewrite find_line_spec by (by apply dec_no_lf; lia). rewrite strtoul10_dec; [|done|reflexivity].
  rewrite !blen_app. change (blen [LF]) with 1. change (LF :: rest) with ([LF] ++ rest). rewrite blen_app.
  change (blen [LF]) with 1. rewrite (proj2 (Z.eqb_eq _ _)) by lia.
  by rewrite app_assoc, drop_app_length.
Qed.

Lemma set_local_fields dbid sg :
  sg_id (set_local dbid sg) = sg_id sg /\ sg_slot_ranges (set_local dbid sg) = sg_slot_ranges sg.
Proof. unfold set_local. by destruct (same_dbid _ _). Qed.

Lemma set_local_static dbid sg : sg = sg_config sg -> sg_static (set_local dbid sg) = set_local dbid sg.
Proof. intros ->. unfold set_local. by destruct (same_dbid _ _). Qed.

Definition put_group (dbid : list Z) (G : gmap (list Z) ShardGroup) (sg : ShardGroup) : gmap (list Z) ShardGroup :=
  <[sg_id sg := set_local dbid sg]> G.

(** The sets of claimed slots are those of the table. *)
Definition claims_of (s : slot_sets) (G : gmap (list Z) ShardGroup) : Prop :=
  forall t j, SlotRangeTypeValid t = true ->
    j ∈ taken s t <-> exists id g, G !! id = Some g /\ serves g t j.

Lemma claims_acceptable s s' G dbid sg : claims_of s G -> parsed_group sg -> G !! sg_id sg = None ->
  claimed (sg_pairs sg) s s' ->
  acceptable G (set_local dbid sg) /\ claims_of s' (put_group dbid G sg).
Proof.
  intros Hs [[Hid _ _ _] Hr Ht Hnew] Hfresh [Hf Htk]. destruct (set_local_fields dbid sg) as [Eid Erg]. split.
  - unfold acceptable, valid_ranges. rewrite Eid, Erg. split_and!; [done|apply Hid|done|].
    unfold serves at 1. rewrite Erg.
    intros t j Hj id g Hg. assert (serves sg t j) as Hj' by exact Hj. pose proof (serves_valid sg t j Ht Hj') as Hv.
    destruct (Hf t j) as [H1 H2]; [by apply sg_pairs_spec|]. rewrite (Hs SLOTRANGE_TYPE_STABLE j eq_refl) in H1. rewrite (Hs t j Hv) in H2.
    split; intros H; [apply H1|apply H2]; eauto.
  - intros t j Hv. rewrite Htk, (Hs t j Hv), sg_pairs_spec by done. unfold put_group. split.
    + intros [(id & g & Hg & Hj)|Hj].
      * exists id, g. rewrite lookup_insert_ne by congruence. done.
      * exists (sg_id sg), (set_local dbid sg). rewrite lookup_insert_eq. split; [done|]. unfold serves. by rewrite Erg.
    + intros (id & g & Hg & Hj). destruct (decide (id = sg_id sg)) as [->|Hne].
      * rewrite lookup_insert_eq in Hg. injection Hg as <-. right. unfold serves in Hj. by rewrite Erg in Hj.
      * rewrite lookup_insert_ne in Hg by done. left. eauto.
Qed.

Definition fresh (sgs : list ShardGroup) (G : gmap (list Z) ShardGroup) : Prop :=
  NoDup (sg_id <$> sgs) /\ Forall (fun sg => G !! sg_id sg = None) sgs.

#[export] Instance fresh_dec sgs G : Decision (fresh sgs G).
Proof. unfold fresh. apply _. Defined.

Lemma fresh_cons dbid sg sgs G :
  fresh (sg :: sgs) G <-> G !! sg_id sg = None /\ fresh sgs (put_group dbid G sg).
Proof.
  unfold fresh, put_group. rewrite fmap_cons, NoDup_cons, Forall_cons, !Forall_forall. split.
  - intros [[Hn Hnd] [Hid Hall]]. split_and!; try done. intros g Hg. rewrite lookup_insert_ne; [by apply Hall|].
    intros E. apply Hn. rewrite E. by apply list_elem_of_fmap_2.
  - intros [Hid [Hnd Hall]].
    assert (forall g, g ∈ sgs -> sg_id sg <> sg_id g) as Hne.
    { intros g Hg E. specialize (Hall g Hg). by rewrite E, lookup_insert_eq in Hall. }
    split_and!; try done.
    + intros (g & E & Hg)%list_elem_of_fmap. by apply (Hne g).
    + intros g Hg. specialize (Hall g Hg). by rewrite lookup_insert_ne in Hall by (by apply Hne).
Qed.

Lemma replace_loop_run sgs req : forall s s' r, wf r -> claim_groups sgs s = inr s' -> claims_of s (groups r) ->
  Forall parsed_group sgs ->
  if decide (fresh sgs (groups r))
  then exists r', replace_loop (length sgs) (concat (payload_item <$> sgs)) req r = Done (answer req (simple "OK"), r') /\
         wf r' /\ groups r' = foldl (put_group (rr_meta_dbid r)) (groups r) sgs
  else replace_loop (length sgs) (concat (payload_item <$> sgs)) req r = Abort.
Proof.
  induction sgs as [|sg sgs IH]; intros s s' r Hwf Hcl Hs Hall.
  { rewrite decide_True by (split; constructor). by exists r. }
  apply Forall_cons in Hall as [Hsg Hall]. cbn [claim_groups] in Hcl.
  destruct (claim_ranges (sg_slot_ranges sg) s) as [|s1] eqn:Ecl; [done|].
  apply claim_ranges_claimed in Ecl as [Hclaimed _]. fold (sg_pairs sg) in Hclaimed.
  rewrite fmap_cons. cbn [length concat replace_loop].
  pose proof (group_text_bound sg (pg_ok sg Hsg)). pose proof (blen_nonneg (group_text sg)).
  set (rest := concat (payload_item <$> sgs)) in *.
  assert (payload_number (payload_item sg ++ rest) = Done (blen (group_text sg), group_text sg ++ LF :: rest)) as Ep.
  { unfold payload_item, text_line. rewrite <- !app_assoc. apply payload_number_text. lia. }
  rewrite (bind_done_eq _ _ _ _ _ (lift_done r Ep)). cbv beta iota.
  rewrite (bind_done_eq _ _ _ _ _ (lift_done r (deserialize_text sg (LF :: rest) (pg_ok sg Hsg)))), <- (pg_new sg Hsg).
  rewrite (bind_done_eq (gets rr_meta_dbid) _ r (rr_meta_dbid r) r) by done.
  assert (drop (Z.to_nat (blen (group_text sg) + 1)) (group_text sg ++ LF :: rest) = rest) as ->.
  { replace (Z.to_nat (blen (group_text sg) + 1)) with (length (group_text sg) + 1)%nat by (unfold blen; lia).
    by rewrite drop_app_add. }
  set (dbid := rr_meta_dbid r). destruct (set_local_fields dbid sg) as [Eid Erg].
  destruct (groups r !! sg_id sg) as [g|] eqn:Eg.
  - rewrite decide_False by (rewrite (fresh_cons dbid); by intros [? _]; congruence).
    unfold bind. rewrite add_refuses; [done|]. unfold passes. apply andb_false_iff. right.
    apply bool_decide_eq_false_2. rewrite Eid, <- groups_none by done. congruence.
  - destruct (claims_acceptable s s1 (groups r) dbid sg Hs Hsg Eg Hclaimed) as [Hacc Hs1].
    destruct (add_accepts r (set_local dbid sg) Hwf) as (r1 & Ea & Had); [unfold valid_types; rewrite Erg; apply Hsg|done|].
    assert (groups r1 = put_group dbid (groups r) sg) as Hg1.
    { rewrite (ad_groups _ _ _ Had), Eid. by rewrite set_local_static by apply Hsg. }
    rewrite (bind_done_eq _ _ _ _ _ Ea), (bind_done_eq (c_assert _) _ r1 tt r1) by done.
    rewrite <- Hg1 in Hs1. specialize (IH s1 s' r1 (ad_wf _ _ _ Had) Hcl Hs1 Hall). rewrite Hg1 in IH.
    rewrite (proj1 (ad_conf _ _ _ Had)) in IH. fold dbid in IH.
    destruct (decide (fresh sgs (put_group dbid (groups r) sg))) as [Hf|Hf].
    + rewrite decide_True by (apply (fresh_cons dbid); done). exact IH.
    + rewrite decide_False by (rewrite (fresh_cons dbid); tauto). exact IH.
Qed.

(** A REPLACE entry with groups that passed the checks of the command. *)
Lemma replace_run sgs s r req : wf r -> Z.of_nat (length sgs) < 16384 -> Forall parsed_group sgs ->
  claim_groups sgs (mk_sets ∅ ∅ ∅) = inr s ->
  if decide (NoDup (sg_id <$> sgs))
  then exists r', replaceShardGroups (payload_text sgs) req r = Done (answer req (simple "OK"), r') /\ wf r' /\
         groups r' = foldl (put_group (rr_meta_dbid r)) ∅ sgs
  else replaceShardGroups (payload_text sgs) req r = Abort.
Proof.
  intros Hwf Hl Hall Hs. set (r1 := no_groups (si_is_sharding (rr_sharding_info r)) r).
  assert (replaceShardGroups (payload_text sgs) req r =
    replace_loop (length sgs) (concat (payload_item <$> sgs)) req r1) as ->.
  { rewrite replace_cleared by done. unfold payload_text. fold r1.
    rewrite (bind_done_eq _ _ _ _ _ (lift_done r1 (payload_number_text (Z.of_nat (length sgs)) _ ltac:(lia)))).
    cbv beta iota. f_equal. unfold to_int. rewrite Z.mod_small by lia. lia. }
  assert (groups r1 = ∅) as Hg1 by done.
  pose proof (replace_loop_run sgs req (mk_sets ∅ ∅ ∅) s r1 (em_wf _ _ (no_groups_emptied _ r)) Hs) as H.
  rewrite Hg1 in H. specialize (H ltac:(intros t j Ht; destruct (type_cases t Ht) as [-> | [-> | ->]]; cbn;
    (split; [intros Hj; by apply elem_of_empty in Hj|intros (id & g & Hg & _); by rewrite lookup_empty in Hg])) Hall).
  assert (fresh sgs ∅ <-> NoDup (sg_id <$> sgs)) as Hf.
  { unfold fresh. split; [tauto|]. intros ?. split; [done|]. apply Forall_forall. intros. apply lookup_empty. }
  destruct (decide (fresh sgs ∅)), (decide (NoDup (sg_id <$> sgs))); tauto || exact H.
Qed.

(** ** Commands and the entries they make *)

Section Commands.
Context (StringToLongLong : list Z -> option Z) (WrongArity : list Z) (recv_entry : Z -> list Z -> Z).

Lemma parse_shards_ok n : forall argv idx sgs rest, Forall no_lf argv -> Z.of_nat (length argv) <= 2 ^ 20 ->
  parse_shards StringToLongLong WrongArity n argv idx = Done (Parsed (sgs, rest)) ->
  length sgs = n /\ Forall parsed_group sgs.
Proof.
  induction n as [|n IH]; intros argv idx sgs rest Hlf Hlen; cbn [parse_shards].
  { intros [= <- <-]. split; [done|constructor]. }
  destruct (ShardGroupParse _ _ argv idx) as [[|[sg k]]| |] eqn:E; try done.
  destruct (parse_group_ok _ _ _ _ _ _ Hlf Hlen E) as (Hsg & _).
  destruct (parse_shards _ _ n _ _) as [[|[l rest']]| |] eqn:E2; try done. intros [= <- <-].
  destruct (IH _ _ _ _ (Forall_drop _ _ _ Hlf) ltac:(rewrite length_drop; lia) E2) as [Hl Hall].
  split; [cbn; lia|by constructor].
Qed.

(** (functional). RAFT.SHARDGROUP ADD does what it says: when the command has
    made a log entry (and no argument has a line break), every server whose table
    still has the same groups applies the entry without stopping; the group is
    added as it was given, and answered with OK, unless its identifier is taken;
    then the table stays as it is, and the answer is an error. *)
Theorem add_command_applies (leader : bool) (argv : list (list Z)) (r : RedisRaftCtx) replies data :
  wf r -> Forall no_lf argv -> Z.of_nat (length argv) <= 2 ^ 20 ->
  ShardGroupAdd StringToLongLong WrongArity recv_entry leader (rr_sharding_info r) argv = Done (replies, Some data) ->
  replies = [] /\ exists sg n, ShardGroupParse StringToLongLong WrongArity (drop 2 argv) 2 = Done (Parsed (sg, n)) /\
    forall r2 req, wf r2 -> groups r2 = groups r ->
      let new := bool_decide (groups r !! sg_id sg = None) in
      exists r2', applyShardGroupChange RAFT_LOGTYPE_ADD_SHARDGROUP data req r2 =
          Done (answer req (if new then simple "OK" else error "ERR Invalid ShardGroup Update"), r2') /\
        wf r2' /\ groups r2' = if new then <[sg_id sg := sg]> (groups r) else groups r.
Proof.
  intros Hwf Hlf Hlen. unfold ShardGroupAdd.
  destruct (ShardGroupParse _ _ (drop 2 argv) 2) as [[|[sg n]]| |] eqn:Ep; try done.
  destruct (ShardingInfoValidateShardGroup _ sg) eqn:Ev; [|done]. cbn [negb].
  destruct (parse_group_ok _ _ _ _ _ _ (Forall_drop _ _ _ Hlf) ltac:(rewrite length_drop; lia) Ep) as (Hsg & _).
  unfold ShardGroupAppendLogEntry, submit. destruct leader; [|done]. cbn [negb].
  rewrite group_serialize_text by apply Hsg. destruct (recv_entry _ _ =? 0); [|done]. intros [= <- <-].
  split; [done|]. exists sg, n. split; [done|]. intros r2 req Hwf2 Hg2. cbv zeta.
  pose proof (deserialize_text sg [] (pg_ok sg Hsg)) as Ed. rewrite app_nil_r, <- (pg_new sg Hsg) in Ed.
  unfold applyShardGroupChange. rewrite (bind_done_eq _ _ _ _ _ (lift_done r2 Ed)).
  change (RAFT_LOGTYPE_ADD_SHARDGROUP =? RAFT_LOGTYPE_ADD_SHARDGROUP) with true. cbv iota.
  destruct (bool_decide_reflect (groups r !! sg_id sg = None)) as [Hid|Hid].
  - destruct (add_accepts r2 sg Hwf2 (pg_types sg Hsg)) as (r2' & Ea & Had).
    { apply passes_acceptable; [done|apply Hsg|]. rewrite (same_passes r2 r) by done. unfold passes. rewrite Ev.
      rewrite bool_decide_eq_true_2 by (by apply groups_none).
      rewrite (proj2 (Z.leb_gt _ _)); [done|]. pose proof (lo_len _ _ (so_id sg (pg_ok sg Hsg))). lia. }
    exists r2'. rewrite (bind_done_eq _ _ _ _ _ Ea). split; [done|]. split; [apply Had|].
    rewrite (ad_groups _ _ _ Had), Hg2. f_equal. rewrite (pg_new sg Hsg). done.
  - exists r2. assert (ShardingInfoAddShardGroup sg r2 = Done (RR_ERROR, r2)) as Ea.
    { apply add_refuses. unfold passes. apply andb_false_iff. right. apply bool_decide_eq_false_2.
      rewrite <- groups_none by done. by rewrite Hg2. }
    by rewrite (bind_done_eq _ _ _ _ _ Ea).
Qed.

Lemma parse_groups_ok argv sgs : Forall no_lf argv -> Z.of_nat (length argv) <= 2 ^ 20 ->
  ShardGroupsParse StringToLongLong WrongArity argv = Done (Parsed sgs) ->
  Z.of_nat (length sgs) < 16384 /\ Forall parsed_group sgs /\ exists s, claim_groups sgs (mk_sets ∅ ∅ ∅) = inr s.
Proof.
  intros Hlf Hlen. unfold ShardGroupsParse, arg_longlong. destruct argv as [|a argv]; [done|].
  destruct (StringToLongLong a) as [val|]; [|done].
  destruct ((val <? 0) || (REDIS_RAFT_HASH_SLOTS <=? val)) eqn:Ev; [done|].
  destruct (parse_shards _ _ _ argv 1) as [[|[l rest]]| |] eqn:E; try done.
  destruct (negb _); [done|]. destruct (claim_groups l _) as [|s] eqn:Ec; [done|]. intros [= <-].
  apply Forall_cons in Hlf as [_ Hlf]. cbn [length] in Hlen.
  destruct (parse_shards_ok _ _ _ _ _ Hlf ltac:(lia) E) as [Hl Hall].
  unfold REDIS_RAFT_HASH_SLOTS in Ev. split; [lia|]. eauto.
Qed.

(** (safety). RAFT.SHARDGROUP REPLACE: when the command has made a log entry
    (and no argument has a line break), every server that applies the entry, in
    whatever state its table is, has exactly the groups of the command afterwards,
    those with its own identifier marked as local.  But only if no identifier
    occurs twice: the command does not check this, and every server that applies
    such an entry stops at the assertion. *)
Theorem replace_command_applies (argv : list (list Z)) replies data :
  Forall no_lf argv -> Z.of_nat (length argv) <= 2 ^ 20 ->
  ShardGroupReplace StringToLongLong WrongArity recv_entry argv = Done (replies, Some data) ->
  replies = [] /\ exists sgs, ShardGroupsParse StringToLongLong WrongArity (drop 2 argv) = Done (Parsed sgs) /\
    forall r req, wf r ->
      if decide (NoDup (sg_id <$> sgs))
      then exists r', replaceShardGroups data req r = Done (answer req (simple "OK"), r') /\ wf r' /\
             groups r' = foldl (put_group (rr_meta_dbid r)) ∅ sgs
      else replaceShardGroups data req r = Abort.
Proof.
  intros Hlf Hlen. unfold ShardGroupReplace.
  destruct (ShardGroupsParse _ _ (drop 2 argv)) as [[|sgs]| |] eqn:Ep; try done.
  destruct (parse_groups_ok _ _ (Forall_drop _ _ _ Hlf) ltac:(rewrite length_drop; lia) Ep) as (Hl & Hall & s & Hs).
  unfold ShardGroupsAppendLogEntry, submit. destruct (groups_payload sgs) as [payload| |] eqn:Epl; try done.
  assert (Forall sg_ok sgs) as Hok by (eapply Forall_impl; [exact Hall|]; apply pg_ok).
  apply groups_payload_text in Epl as ->; [|done|pose proof (payload_growth_bound sgs Hok); lia|lia].
  destruct (recv_entry _ _ =? 0); [|done]. intros [= <- <-]. split; [done|]. exists sgs. split; [done|].
  intros r req Hwf. by apply (replace_run sgs s).
Qed.

End Commands.

(** [RedisModule_StringToLongLong] on decimal digits. *)
Definition demo_longlong (s : list Z) : option Z :=
  match s with
  | [] => None
  | _ => match scan_digits 10 s 0 with
         | (v, []) => if v <? 2 ^ 63 then Some v else None
         | _ => None
         end
  end.

(** Arguments of a group with one range and one node. *)
Definition demo_args (id : Z) (lo hi : String.string) : list (list Z) :=
  [replicate 32 id; bytes_of "1"; bytes_of "1"; bytes_of lo; bytes_of hi; bytes_of "1"; bytes_of "0";
   replicate 40 97; bytes_of "10.0.0.1:6379"].

Definition demo_add : list (list Z) :=
  bytes_of "RAFT.SHARDGROUP" :: bytes_of "ADD" :: demo_args 98 "0" "100".

Definition accept_all (type : Z) (data : list Z) : Z := 0.

Definition entry_of (o : outcome (list (list Z) * option (list Z))) : list Z :=
  match o with Done (_, Some data) => data | _ => [] end.

Ltac solve_lines := repeat (constructor; [solve_chars|]); constructor.

Lemma add_command_applies_witness :
  let data := entry_of (ShardGroupAdd demo_longlong [] accept_all true si_zero demo_add) in
  exists sg, sg_id sg = replicate 32 98 /\
    exists r2', applyShardGroupChange RAFT_LOGTYPE_ADD_SHARDGROUP data true demo_rr = Done ([simple "OK"], r2') /\
      wf r2' /\ groups r2' = {[sg_id sg := sg]}.
Proof.
  cbv zeta.
  destruct (add_command_applies demo_longlong [] accept_all true demo_add demo_rr []
    (entry_of (ShardGroupAdd demo_longlong [] accept_all true si_zero demo_add)) demo_rr_wf) as (_ & sg & n & E & H).
  - solve_lines.
  - cbn. lia.
  - vm_compute. reflexivity.
  - exists sg. assert (sg_id sg = replicate 32 98) as Eid by (vm_compute in E; injection E as <- <-; reflexivity).
    split; [done|]. exact (H demo_rr true demo_rr_wf eq_refl).
Defined.

(** The same identifier twice. *)
Definition demo_replace : list (list Z) :=
  bytes_of "RAFT.SHARDGROUP" :: bytes_of "REPLACE" :: bytes_of "2" ::
  demo_args 98 "0" "100" ++ demo_args 98 "101" "200".

Lemma replace_command_applies_witness :
  let data := entry_of (ShardGroupReplace demo_longlong [] accept_all demo_replace) in
  replaceShardGroups data true demo_rr = Abort.
Proof.
  cbv zeta.
  destruct (replace_command_applies demo_longlong [] accept_all demo_replace []
    (entry_of (ShardGroupReplace demo_longlong [] accept_all demo_replace))) as (_ & sgs & E & H).
  - solve_lines.
  - cbn. lia.
  - vm_compute. reflexivity.
  - specialize (H demo_rr true demo_rr_wf). rewrite decide_False in H; [exact H|].
    vm_compute in E. injection E as <-. cbn. intros Hnd. apply NoDup_cons in Hnd as [Hnd _]. apply Hnd. by left.
Defined.

(** The number of arguments is compared with the numbers of slots and nodes only
    after these have been read: with too few arguments the server reads behind
    their array. *)
Example too_few_arguments :
  ShardGroupAdd demo_longlong [] accept_all true si_zero
    [bytes_of "RAFT.SHARDGROUP"; bytes_of "ADD"; replicate 32 98; bytes_of "1"] = Abort.
Proof. vm_compute. reflexivity. Qed.
