(* ===== verification/ShardSnapshot.v ===== *)
(** * The table of shard groups in a running cluster

    Every server applies the same entries, or loads a snapshot of a server that
    has applied them; here is when their tables agree. *)

From stdpp Require Import base list numbers tactics gmap strings sorting relations.
From S2P Require Import Prelude Libc File Multibulk PageLog Serialization SerializationSpec NodeAddr.
From S2P Require Import ShardGroup Sharding ShardingSpec ShardParse ShardParseSpec.

Local Open Scope Z_scope.

(** ** Reachable tables *)

(** The entries of [raftApplyLog] that change the table. *)
Definition apply_sharding_entry (type : Z) (data : list Z) (req : bool) : M RedisRaftCtx (list reply) :=
  if type =? RAFT_LOGTYPE_REPLACE_SHARDGROUPS then replaceShardGroups data req
  else applyShardGroupChange type data req.

Inductive table_change (r r' : RedisRaftCtx) : Prop :=
| step_local cfg u : AddBasicLocalShardGroup cfg r = Done (u, r') -> table_change r r'
| step_entry type data req rep : apply_sharding_entry type data req r = Done (rep, r') -> table_change r r'
| step_load rdb rest : ShardingInfoRDBLoad rdb r = Done (rest, r') -> table_change r r'.

Lemma local_keeps_wf cfg : respects keeps_wf (AddBasicLocalShardGroup cfg).
Proof. unfold AddBasicLocalShardGroup. respects_solve. Qed.

Lemma entry_keeps_wf type data req : respects keeps_wf (apply_sharding_entry type data req).
Proof. unfold apply_sharding_entry. respects_solve. Qed.

(** C37 (type). Whatever entries a server applies and whatever snapshots it loads,
    its table stays well-formed: dictionary and slot maps lead to groups that are
    allocated, no group is lost, the number of groups is right, all slot ranges
    are valid, and a slot map leads from a slot to a group exactly if the group
    has a range of that type with the slot, so that no two groups have a slot in
    the same way. *)
Theorem table_well_formed dbid own external r0 r u :
  ShardingInfoInit (mk_rr dbid own external ∅ 1 si_zero) = Done (u, r0) ->
  rtc table_change r0 r -> wf r.
Proof.
  intros E0 Hsteps. assert (wf r0) as Hwf.
  { injection E0 as <- <-. apply (no_groups_emptied false (mk_rr dbid own external ∅ 1 si_zero)). }
  clear E0. revert Hwf. induction Hsteps as [r|r r1 r2 H12 _ IH]; [done|]. intros Hwf. apply IH.
  destruct H12 as [cfg v E|type data req rep E|rdb rest E].
  - by eapply local_keeps_wf.
  - by eapply entry_keeps_wf.
  - by eapply load_keeps_wf.
Qed.

(** ** Replicas *)

Lemma update_agree sg r1 r2 res r1' : wf r1 -> wf r2 -> same r1 r2 ->
  ShardingInfoUpdateShardGroup sg r1 = Done (res, r1') ->
  exists r2', ShardingInfoUpdateShardGroup sg r2 = Done (res, r2') /\ same r1' r2'.
Proof.
  intros H1 H2 Hs E. destruct (update_total r1 sg H1) as (q1 & E1 & _ & G1 & S1 & M1 & N1).
  destruct (update_total r2 sg H2) as (q2 & E2 & _ & G2 & S2 & M2 & N2). rewrite E1 in E. injection E as <- <-.
  exists q2. rewrite <- (sm_groups _ _ Hs), <- (sm_snapshot _ _ Hs) in E2. split; [done|].
  split; rewrite ?G1, ?G2, ?S1, ?S2, ?M1, ?M2, ?N1, ?N2; try intros; try apply Hs.
  by rewrite (sm_groups _ _ Hs), (sm_snapshot _ _ Hs).
Qed.

Lemma lift_inv {S A} (o : outcome A) (s : S) a s' : lift o s = Done (a, s') -> o = Done a /\ s' = s.
Proof. unfold lift. destruct o; [|done|done]. by intros [= <- <-]. Qed.

Lemma replace_agree n : forall payload req1 req2 r1 r2 rep1 r1',
  wf r1 -> wf r2 -> same r1 r2 -> few (Z.of_nat n) r1 ->
  replace_loop n payload req1 r1 = Done (rep1, r1') ->
  exists rep2 r2', replace_loop n payload req2 r2 = Done (rep2, r2') /\ same r1' r2'.
Proof.
  induction n as [|n IH]; intros payload req1 req2 r1 r2 rep1 r1' H1 H2 Hs Hfew; cbn [replace_loop].
  { intros [= <- <-]. eauto. }
  intros ([len pl] & s1 & [Ep ->]%lift_inv & E)%bind_done.
  apply bind_done in E as (osg & s2 & [Ed ->]%lift_inv & E). rewrite (bind_done_eq _ _ _ _ _ (lift_done r2 Ep)).
  rewrite (bind_done_eq _ _ _ _ _ (lift_done r2 Ed)). destruct osg as [sg|]; [|injection E as <- <-; eauto].
  apply bind_done in E as (dbid & s3 & [= <- <-] & E). apply bind_done in E as (res & s4 & Ea & E).
  apply bind_done in E as ([] & s5 & Ec & E).
  rewrite (bind_done_eq (gets rr_meta_dbid) _ r2 (rr_meta_dbid r2) r2) by done. rewrite <- (sm_meta _ _ Hs).
  unfold few in *.
  destruct (add_agree _ r1 r2 res s4 H1 H2 Hs ltac:(unfold few; lia) Ea) as (q & Eq & Hwq & Hsq & Hsz).
  rewrite (bind_done_eq _ _ _ _ _ Eq).
  destruct (res =? RR_OK); [|done]. injection Ec as <-. rewrite (bind_done_eq (c_assert true) _ q tt q) by done.
  eapply IH; [|exact Hwq|exact Hsq| |exact E].
  - by eapply add_keeps_wf.
  - unfold few. lia.
Qed.

Lemma no_groups_same b r1 r2 : same r1 r2 -> same (no_groups b r1) (no_groups b r2).
Proof. intros []. split; try done. Qed.

Lemma entry_agree (type : Z) (data : list Z) (req1 req2 : bool) (r1 r2 r1' : RedisRaftCtx) rep1 :
  wf r1 -> wf r2 -> same r1 r2 -> few 1 r1 ->
  apply_sharding_entry type data req1 r1 = Done (rep1, r1') ->
  exists rep2 r2', apply_sharding_entry type data req2 r2 = Done (rep2, r2') /\ same r1' r2'.
Proof.
  intros H1 H2 Hs Hfew. unfold apply_sharding_entry. destruct (type =? RAFT_LOGTYPE_REPLACE_SHARDGROUPS).
  - rewrite !replace_cleared by done. rewrite <- (sm_sharding _ _ Hs). intros ([n pl] & s1 & [Ep ->]%lift_inv & E)%bind_done.
    rewrite (bind_done_eq _ _ _ _ _ (lift_done (no_groups _ r2) Ep)).
    eapply replace_agree; [| |by apply no_groups_same| |exact E]; try apply no_groups_emptied.
    unfold few. change (groups _) with (∅ : gmap (list Z) ShardGroup) at 1. rewrite map_size_empty.
    pose proof (Z.mod_pos_bound (n + 2 ^ 31) (2 ^ 32) ltac:(lia)). unfold to_int. lia.
  - unfold applyShardGroupChange. intros (osg & s1 & [Ed ->]%lift_inv & E)%bind_done.
    rewrite (bind_done_eq _ _ _ _ _ (lift_done r2 Ed)). destruct osg as [sg|]; [|injection E as <- <-; eauto].
    apply bind_done in E as (res & s2 & Ea & [= <- <-]).
    assert (exists q, (if type =? RAFT_LOGTYPE_ADD_SHARDGROUP then ShardingInfoAddShardGroup sg
        else if type =? RAFT_LOGTYPE_UPDATE_SHARDGROUP then ShardingInfoUpdateShardGroup sg else abort) r2 = Done (res, q) /\
        same s2 q) as (q & Eq & Hq).
    { destruct (type =? RAFT_LOGTYPE_ADD_SHARDGROUP).
      - destruct (add_agree sg r1 r2 res s2 H1 H2 Hs Hfew Ea) as (q & ? & _ & ? & _). eauto.
      - destruct (type =? RAFT_LOGTYPE_UPDATE_SHARDGROUP); [|done]. by apply (update_agree sg r1 r2). }
    rewrite (bind_done_eq _ _ _ _ _ Eq). eauto.
Qed.

(** (equivalence). Replicas agree: when two servers whose tables say the same
    apply the same entry, and one of them goes on, so does the other, and their
    tables say the same again, whether a client waits for the answer or not, and
    whatever addresses, connections and counters they use. *)
Theorem replicas_agree (type : Z) (data : list Z) (req1 req2 : bool) (r1 r2 r1' : RedisRaftCtx) rep1 :
  wf r1 -> wf r2 -> same r1 r2 -> few 1 r1 ->
  apply_sharding_entry type data req1 r1 = Done (rep1, r1') ->
  exists rep2 r2', apply_sharding_entry type data req2 r2 = Done (rep2, r2') /\ same r1' r2'.
Proof. exact (entry_agree type data req1 req2 r1 r2 r1' rep1). Qed.

(** A server that has added another group at another address. *)
Definition demo_moved : RedisRaftCtx := demo_rr <| rr_brk := 1000 |>.

Definition demo_data : list Z := entry_of (ShardGroupAdd demo_longlong [] accept_all true si_zero demo_add).

Definition returns {A} (o : outcome A) : bool := match o with Done _ => true | _ => false end.

Lemma replicas_agree_witness :
  exists rep1 r1 rep2 r2,
    apply_sharding_entry RAFT_LOGTYPE_ADD_SHARDGROUP demo_data true demo_rr = Done (rep1, r1) /\
    apply_sharding_entry RAFT_LOGTYPE_ADD_SHARDGROUP demo_data false demo_moved = Done (rep2, r2) /\ same r1 r2.
Proof.
  assert (returns (apply_sharding_entry RAFT_LOGTYPE_ADD_SHARDGROUP demo_data true demo_rr) = true) as Hret
    by (vm_compute; reflexivity).
  destruct (apply_sharding_entry RAFT_LOGTYPE_ADD_SHARDGROUP demo_data true demo_rr) as [[rep1 r1]| |] eqn:E;
    [|discriminate Hret|discriminate Hret].
  destruct (replicas_agree RAFT_LOGTYPE_ADD_SHARDGROUP demo_data true false demo_rr demo_moved r1 rep1) as (rep2 & r2 & E2 & Hs);
    [apply demo_rr_wf|apply (no_groups_emptied false demo_moved)|by split|by vm_compute|exact E|].
  exists rep1, r1, rep2, r2. split; [reflexivity|]. split; [exact E2|exact Hs].
Defined.

Lemma table_well_formed_witness :
  exists r0 r rep, ShardingInfoInit (mk_rr (replicate 32 97) (replicate 32 97) true ∅ 1 si_zero) = Done (tt, r0) /\
    apply_sharding_entry RAFT_LOGTYPE_ADD_SHARDGROUP demo_data true r0 = Done (rep, r) /\ wf r.
Proof.
  assert (returns (apply_sharding_entry RAFT_LOGTYPE_ADD_SHARDGROUP demo_data true demo_rr) = true) as Hret
    by (vm_compute; reflexivity).
  destruct (apply_sharding_entry RAFT_LOGTYPE_ADD_SHARDGROUP demo_data true demo_rr) as [[rep r]| |] eqn:E;
    [|discriminate Hret|discriminate Hret].
  exists demo_rr, r, rep. split; [reflexivity|]. split; [exact E|].
  apply (table_well_formed (replicate 32 97) (replicate 32 97) true demo_rr r tt); [reflexivity|].
  apply rtc_once. eapply step_entry. exact E.
Defined.

(** ** Snapshots *)

(** No slot is stable in one group and served by another one as well. *)
Definition settled (G : gmap (list Z) ShardGroup) : Prop :=
  forall id1 g1 id2 g2 t j, G !! id1 = Some g1 -> G !! id2 = Some g2 -> id1 <> id2 ->
    serves g1 SLOTRANGE_TYPE_STABLE j -> ~ serves g2 t j.

(** Only groups with the own identifier are local. *)
Definition locals_marked (dbid : list Z) (G : gmap (list Z) ShardGroup) : Prop :=
  forall id g, G !! id = Some g -> sg_local g = same_dbid id dbid.

Record savable (r : RedisRaftCtx) : Prop := {
  sv_wf : wf r;
  sv_few : few 1 r;
  sv_text id g : groups r !! id = Some g -> sg_ok g;
  sv_terms j : - 2 ^ 63 <= importing_term (rr_sharding_info r) j < 2 ^ 63
}.

Lemma static_text sg : group_text (sg_static sg) = group_text sg.
Proof. by destruct sg. Qed.

Lemma sg_ok_static sg : sg_ok (sg_static sg) -> sg_ok sg.
Proof. intros [? ? ? ?]. by split. Qed.

Definition saved_text (r : RedisRaftCtx) (e : list Z * Z) : list Z :=
  match groups r !! fst e with Some g => group_text g | None => [] end.

Lemma save_groups_run r es : wf r -> (forall id g, groups r !! id = Some g -> sg_ok g) ->
  (forall id p, (id, p) ∈ es -> si_shard_group_map (rr_sharding_info r) !! id = Some p) ->
  save_groups (snd <$> es) r = Done (RdbString <$> (saved_text r <$> es), r).
Proof.
  intros Hwf Hok. induction es as [|[id p] es IH]; intros Hes; [done|].
  rewrite !fmap_cons. cbn [save_groups snd].
  destruct (wf_map r Hwf id p (Hes id p ltac:(by left))) as (sg & Hp & Hid).
  pose proof (groups_heap r Hwf p sg Hp) as Hg. rewrite Hid in Hg.
  assert (deref p r = Done (sg, r)) as Ed by (unfold deref, bind, get; by rewrite Hp).
  rewrite (bind_done_eq _ _ _ _ _ Ed).
  assert (sg_ok sg) as Hsg by (apply sg_ok_static; by eapply Hok).
  rewrite (bind_done_eq _ _ _ _ _ (lift_done r (group_serialize_text sg Hsg))).
  assert (save_groups (snd <$> es) r = Done (RdbString <$> (saved_text r <$> es), r)) as IHr.
  { apply IH. intros id' p' Hin. apply Hes. by right. }
  rewrite (bind_done_eq _ _ _ _ _ IHr). unfold ret, saved_text at 2. cbn [fst]. by rewrite Hg, static_text.
Qed.

Lemma load_terms_run slots f rest : forall r, wf r ->
  exists r', load_terms slots (((fun i => RdbUnsigned (f i)) <$> slots) ++ rest) r = Done (rest, r') /\ wf r' /\
    groups r' = groups r /\ si_is_sharding (rr_sharding_info r') = si_is_sharding (rr_sharding_info r) /\
    forall j, importing_term (rr_sharding_info r') j =
      if decide (j ∈ slots) then to_long (f j) else importing_term (rr_sharding_info r) j.
Proof.
  induction slots as [|i slots IH]; intros r Hwf.
  { by exists r. }
  rewrite fmap_cons. cbn [load_terms app].
  rewrite (bind_done_eq _ _ _ _ _ (lift_done r (o := LoadUnsigned (RdbUnsigned (f i) :: _)) eq_refl)). cbv beta iota.
  set (r1 := r <| rr_sharding_info ::= fun si => si <| si_max_importing_term ::= <[i := to_long (f i)]> |> |>).
  rewrite (bind_done_eq _ _ r tt r1) by done.
  destruct (IH r1) as (r' & E & Hw & Hg & Hb & Ht); [by apply (set_term_keeps_wf i (to_long (f i)) r tt r1)|].
  exists r'. rewrite E. split_and!; try done. intros j. rewrite Ht.
  rewrite (decide_ext _ _ _ _ (elem_of_cons slots j i)).
  assert (importing_term (rr_sharding_info r1) j = if decide (i = j) then to_long (f i) else importing_term (rr_sharding_info r) j) as ->.
  { unfold importing_term. change (si_max_importing_term (rr_sharding_info r1)) with (<[i := to_long (f i)]> (si_max_importing_term (rr_sharding_info r))).
    rewrite lookup_insert_decide. by case_decide. }
  repeat case_decide; subst; try done; exfalso; intuition congruence.
Qed.

Definition flag_ok (r : RedisRaftCtx) : Prop :=
  si_is_sharding (rr_sharding_info r) = negb (bool_decide (groups r = ∅)) && negb (is_plain (groups r)).

Section Load.
Context (dbid : list Z) (G : gmap (list Z) ShardGroup).
Context (Hid : forall id g, G !! id = Some g -> sg_id g = id /\ valid_ranges g /\ valid_types g /\ sg_ok g /\
  g = sg_static g /\ sg_local g = same_dbid id dbid).
Context (Hunique : forall id1 id2 g1 g2 t j, G !! id1 = Some g1 -> G !! id2 = Some g2 -> serves g1 t j -> serves g2 t j -> id1 = id2).
Context (Hsettled : settled G) (Hfew : Z.of_nat (size G) < 2 ^ 32 - 1).

Lemma restored_group id g : G !! id = Some g -> set_local dbid (sg_config g) = g.
Proof.
  intros Hg. destruct (Hid id g Hg) as (Ei & _ & _ & _ & Es & El). unfold set_local.
  change (sg_id (sg_config g)) with (sg_id g). rewrite Ei, <- El. rewrite Es at 3.
  destruct g; cbn in *. by destruct sg_local.
Qed.

Lemma load_acceptable r id g : groups r ⊆ G -> G !! id = Some g -> groups r !! id = None -> acceptable (groups r) g.
Proof.
  intros Hsub Hg Hnone. destruct (Hid id g Hg) as (Ei & Hr & Ht & Hok & _). split_and!.
  - done.
  - apply (lo_len _ _ (so_id g Hok)).
  - by rewrite Ei.
  - intros t j Hj id' g' Hg'. pose proof (lookup_weaken _ _ _ _ Hg' Hsub) as Hg2.
    assert (id' <> id) as Hne by (intros ->; congruence). split.
    + intros Hs. by apply (Hsettled id' g' id g t j).
    + intros Hs. apply Hne. by eapply Hunique.
Qed.

(** Adding the groups of [G] with the identifiers [ids]. *)
Lemma load_groups_run rest ids : forall r, wf r -> rr_meta_dbid r = dbid -> groups r ⊆ G -> flag_ok r ->
  NoDup ids -> Forall (fun id => is_Some (G !! id) /\ groups r !! id = None) ids ->
  exists r', load_groups (length ids)
      ((RdbString <$> ((fun id => match G !! id with Some g => group_text g | None => [] end) <$> ids)) ++ rest) r =
      Done (rest, r') /\
    wf r' /\ groups r' ⊆ G /\ flag_ok r' /\
    forall id, is_Some (groups r' !! id) <-> is_Some (groups r !! id) \/ id ∈ ids.
Proof.
  induction ids as [|id ids IH]; intros r Hwf Hdb Hsub Hflag Hnd Hall.
  { exists r. split_and!; try done. intros id. rewrite elem_of_nil. tauto. }
  apply NoDup_cons in Hnd as [Hnin Hnd]. apply Forall_cons in Hall as [[[g Hg] Hnone] Hall].
  rewrite !fmap_cons. cbn [length load_groups app]. rewrite Hg.
  destruct (Hid id g Hg) as (Ei & Hr & Ht & Hok & Hst & _).
  rewrite (bind_done_eq _ _ _ _ _ (lift_done r (o := LoadStringBuffer (RdbString (group_text g) :: _)) eq_refl)). cbv beta iota.
  pose proof (deserialize_text g [] Hok) as Ed. rewrite app_nil_r in Ed.
  rewrite (bind_done_eq _ _ _ _ _ (lift_done r Ed)).
  rewrite (bind_done_eq (gets rr_meta_dbid) _ r (rr_meta_dbid r) r) by done. rewrite Hdb, (restored_group id g Hg).
  destruct (add_accepts r g Hwf Ht) as (r1 & Ea & Had); [by eapply load_acceptable|].
  rewrite (bind_done_eq _ _ _ _ _ Ea), (bind_done_eq (c_assert _) _ r1 tt r1) by done.
  pose proof (ad_groups _ _ _ Had) as Hg1. rewrite Ei, <- Hst in Hg1.
  assert (groups r1 ⊆ G) as Hsub1 by (rewrite Hg1; by apply insert_subseteq_l).
  destruct (IH r1) as (r' & E & Hw & Hs' & Hf & Hdom).
  - apply Had.
  - by rewrite (proj1 (ad_conf _ _ _ Had)).
  - done.
  - unfold flag_ok in *. rewrite (ad_sharding _ _ _ Had), Hflag.
    2: { pose proof (map_subseteq_size (groups r) G Hsub). lia. }
    rewrite (bool_decide_eq_false_2 (groups r1 = ∅)) by (rewrite Hg1; apply insert_non_empty). cbn [negb andb].
    destruct (bool_decide_reflect (groups r = ∅)) as [E|E]; [done|]. cbn [negb andb].
    rewrite (is_plain_size (groups r1)); [by destruct (is_plain (groups r))|].
    rewrite Hg1, map_size_insert_None by done. intros [= H]. by apply map_size_empty_iff in H.
  - done.
  - apply Forall_forall. intros id' Hin. rewrite Forall_forall in Hall. destruct (Hall id' Hin). split; [done|].
    rewrite Hg1, lookup_insert_ne; [done|]. by intros ->.
  - exists r'. split; [exact E|]. split_and!; try done. intros id'. rewrite Hdom, Hg1, elem_of_cons.
    destruct (decide (id' = id)) as [->|Hne]; [rewrite lookup_insert_eq; naive_solver|].
    rewrite lookup_insert_ne by done. tauto.
Qed.

End Load.

Lemma groups_static r id g : groups r !! id = Some g -> g = sg_static g.
Proof. intros (p & sg & _ & _ & ->)%groups_lookup. by destruct sg. Qed.

Lemma groups_valid r id g : wf r -> groups r !! id = Some g -> valid_ranges g /\ valid_types g.
Proof.
  intros Hwf (p & sg & _ & Hp & ->)%groups_lookup. destruct (wf_ranges r Hwf p sg Hp). by destruct sg.
Qed.

Definition saved_ids (r : RedisRaftCtx) : list (list Z) :=
  fst <$> dict_entries (si_shard_group_map (rr_sharding_info r)).

Lemma saved_ids_spec r : wf r -> NoDup (saved_ids r) /\ (forall id, id ∈ saved_ids r <-> is_Some (groups r !! id)) /\
  Z.of_nat (length (saved_ids r)) = Z.of_nat (size (groups r)).
Proof.
  intros Hwf. unfold saved_ids. split_and!.
  - rewrite dict_entries_perm. apply NoDup_fst_map_to_list.
  - intros id. rewrite <- not_eq_None_Some, groups_none, not_eq_None_Some by done. split.
    + intros ([i p] & -> & Hp%dict_entries_elem)%list_elem_of_fmap. by eexists.
    + intros [p Hp]. apply list_elem_of_fmap. exists (id, p). split; [done|]. by apply dict_entries_elem.
  - by rewrite length_fmap, dict_entries_length, groups_size.
Qed.

(** The values [ShardingInfoRDBSave] writes. *)
Definition saved_values (r : RedisRaftCtx) : list rdb_value :=
  RdbUnsigned (si_shard_groups_num (rr_sharding_info r)) ::
  (RdbString <$> (saved_text r <$> dict_entries (si_shard_group_map (rr_sharding_info r)))) ++
  ((fun i => RdbUnsigned (u64 (importing_term (rr_sharding_info r) i))) <$> all_slots).

Lemma save_run r : savable r -> ShardingInfoRDBSave r = Done (saved_values r, r).
Proof.
  intros [Hwf _ Hok _]. unfold ShardingInfoRDBSave.
  rewrite (bind_done_eq (gets rr_sharding_info) _ r (rr_sharding_info r) r) by done.
  rewrite (bind_done_eq _ _ _ _ _ (save_groups_run r _ Hwf Hok (fun id p H => proj1 (dict_entries_elem _ id p) H))).
  done.
Qed.

Lemma snapshot_load r r0 rest :
  savable r -> settled (groups r) -> locals_marked (rr_meta_dbid r) (groups r) ->
  wf r0 -> rr_meta_dbid r0 = rr_meta_dbid r ->
  exists r', ShardingInfoRDBLoad (saved_values r ++ rest) r0 = Done (rest, r') /\ wf r' /\
    groups r' = groups r /\ flag_ok r' /\
    (forall j, 0 <= j < REDIS_RAFT_HASH_SLOTS ->
       importing_term (rr_sharding_info r') j = importing_term (rr_sharding_info r) j).
Proof.
  intros Hsv Hset Hloc Hwf0 Hdb.
  destruct Hsv as [Hwf Hfew Hok Hterms]. destruct (saved_ids_spec r Hwf) as (Hnd & Hids & Hlen). unfold few in Hfew.
  unfold ShardingInfoRDBLoad, saved_values. cbn [app].
  rewrite (bind_done_eq _ _ _ _ _ (lift_done r0 (o := LoadUnsigned (RdbUnsigned _ :: _)) eq_refl)). cbv beta iota.
  rewrite (bind_done_eq _ _ _ _ _ (table_reset_spec r0 Hwf0)), <- app_assoc.
  rewrite (wf_num r Hwf), <- groups_size, <- Hlen by done. unfold u32. rewrite Zmod_mod, Z.mod_small, Nat2Z.id by lia.
  assert (forall X, (RdbString <$> (saved_text r <$> dict_entries (si_shard_group_map (rr_sharding_info r)))) ++ X =
    (RdbString <$> ((fun id => match groups r !! id with Some g => group_text g | None => [] end) <$> saved_ids r)) ++ X) as ->.
  { intros X. unfold saved_ids. by rewrite <- (list_fmap_compose fst). }
  destruct (load_groups_run (rr_meta_dbid r) (groups r)) with (ids := saved_ids r) (r := no_groups false r0)
    (rest := ((fun i => RdbUnsigned (u64 (importing_term (rr_sharding_info r) i))) <$> all_slots) ++ rest)
    as (r1 & E1 & Hw1 & Hs1 & Hf1 & Hd1).
  - intros id g Hg. destruct (groups_valid r id g Hwf Hg). split_and!; try done.
    + by apply (groups_id r).
    + by eapply Hok.
    + by eapply groups_static.
    + by apply Hloc.
  - intros id1 id2 g1 g2 t j H1 H2 Hj1 Hj2. eapply (serves_unique r Hwf id1 id2 g1 g2 t j); try done.
    eapply (serves_valid g1); [|exact Hj1]. by apply (groups_valid r id1).
  - done.
  - lia.
  - apply no_groups_emptied.
  - done.
  - rewrite (em_groups _ _ (no_groups_emptied false r0)). apply map_empty_subseteq.
  - done.
  - done.
  - apply Forall_forall. intros id Hin. split; [by apply Hids|].
    rewrite (em_groups _ _ (no_groups_emptied false r0)). apply lookup_empty.
  - rewrite (bind_done_eq _ _ _ _ _ E1).
    destruct (load_terms_run all_slots (fun i => u64 (importing_term (rr_sharding_info r) i)) rest r1 Hw1)
      as (r2 & E2 & Hw2 & Hg2 & Hb2 & Ht2).
    assert (groups r1 = groups r) as Hg1.
    { apply (anti_symm (⊆)); [done|]. apply map_subseteq_spec. intros id g Hg.
      destruct (proj2 (Hd1 id)) as [g' Hg']; [right; apply Hids; by eexists|].
      pose proof (lookup_weaken _ _ _ _ Hg' Hs1). congruence. }
    exists r2. split; [exact E2|]. split_and!; [done|by rewrite Hg2| |].
    + unfold flag_ok. by rewrite Hb2, Hg2.
    + intros j Hj. rewrite Ht2, decide_True by (apply elem_of_seqZ; lia). by apply to_long_u64.
Qed.

(** C40 (roundtrip). Snapshots restore the table: what [ShardingInfoRDBSave]
    writes, [ShardingInfoRDBLoad] reads back on any server of the cluster,
    whatever its table was before: the same groups with the same slots, and the
    same terms of imports.  This needs what the code takes for granted: that no
    slot is stable in one group and served by another, and that exactly the group
    with the own identifier is marked as local.  Whether the cluster is sharded
    is computed anew from the groups; it is as before only if it was what the
    groups say. *)
Theorem snapshot_restores_table (r : RedisRaftCtx) :
  savable r -> settled (groups r) -> locals_marked (rr_meta_dbid r) (groups r) ->
  exists rdb, ShardingInfoRDBSave r = Done (rdb, r) /\
    forall r0 rest, wf r0 -> rr_meta_dbid r0 = rr_meta_dbid r ->
      exists r', ShardingInfoRDBLoad (rdb ++ rest) r0 = Done (rest, r') /\ wf r' /\
        groups r' = groups r /\
        (forall j, 0 <= j < REDIS_RAFT_HASH_SLOTS ->
           importing_term (rr_sharding_info r') j = importing_term (rr_sharding_info r) j) /\
        (si_is_sharding (rr_sharding_info r') = si_is_sharding (rr_sharding_info r) <-> flag_ok r).
Proof.
  intros Hsv Hset Hloc. exists (saved_values r). split; [by apply save_run|]. intros r0 rest Hwf0 Hdb.
  destruct (snapshot_load r r0 rest Hsv Hset Hloc Hwf0 Hdb) as (r' & E & Hw & Hg & Hf & Ht).
  exists r'. split_and!; try done. rewrite Hf. unfold flag_ok. rewrite Hg. split; congruence.
Qed.

(** A cluster with two groups: the own one, and one that is importing a slot. *)
Definition demo_range (lo hi type : Z) : ShardGroupSlotRange := mk_range lo hi type 7.

Lemma savable_added r r1 sg : savable r -> few 2 r -> sg_ok sg -> added sg r r1 -> savable r1.
Proof.
  intros Hsv Hfew Hok Had. pose proof (ad_groups _ _ _ Had) as Hg. split.
  - apply Had.
  - unfold few in *. rewrite Hg. destruct (groups r !! sg_id sg) eqn:El.
    + rewrite map_size_insert_Some by (by eexists). lia.
    + rewrite map_size_insert_None by done. lia.
  - intros id g. rewrite Hg. intros [[<- <-]|[_ Hin]]%lookup_insert_Some.
    + destruct Hok. by split.
    + by apply (sv_text r Hsv id).
  - intros j. rewrite (ad_terms _ _ _ Had). case_decide; [lia|]. apply (sv_terms r Hsv).
Qed.

Lemma demo_rr_savable : savable demo_rr.
Proof.
  split; [apply demo_rr_wf|by vm_compute|done|]. intros j. unfold importing_term. cbn. rewrite lookup_empty. cbn. lia.
Qed.

(** The own group has slots 0 to 99 and hands slot 100 to another group. *)
Definition demo_own : ShardGroup :=
  demo_group 97 true [demo_range 0 99 SLOTRANGE_TYPE_STABLE; demo_range 100 100 SLOTRANGE_TYPE_MIGRATING].
Definition demo_other : ShardGroup := demo_group 98 false [demo_range 100 100 SLOTRANGE_TYPE_IMPORTING].

Lemma demo_rr_groups : groups demo_rr = ∅.
Proof. reflexivity. Qed.

Lemma demo_pair : exists r1 r2, added demo_own demo_rr r1 /\ added demo_other r1 r2.
Proof.
  destruct (add_accepts demo_rr demo_own demo_rr_wf) as (r1 & _ & H1).
  - by repeat constructor.
  - apply passes_acceptable; [apply demo_rr_wf|by repeat constructor|by vm_compute].
  - destruct (add_accepts r1 demo_other (ad_wf _ _ _ H1)) as (r2 & _ & H2).
    + by repeat constructor.
    + rewrite (ad_groups _ _ _ H1), demo_rr_groups. split_and!; [by repeat constructor|by vm_compute|by vm_compute|].
      intros t j Hj id g. intros [[<- <-]|[_ Hin]]%lookup_insert_Some; [|by rewrite lookup_empty in Hin].
      unfold serves in *. cbn in *. rewrite !Exists_cons, !Exists_nil in *. cbn in *. 
      unfold SLOTRANGE_TYPE_STABLE, SLOTRANGE_TYPE_MIGRATING, SLOTRANGE_TYPE_IMPORTING in *. lia.
    + by exists r1, r2.
Qed.

Definition demo_table : gmap (list Z) ShardGroup :=
  {[replicate 32 98 := sg_static demo_other; replicate 32 97 := sg_static demo_own]}.

Lemma demo_table_cases id g : demo_table !! id = Some g ->
  (id = replicate 32 98 /\ g = sg_static demo_other) \/ (id = replicate 32 97 /\ g = sg_static demo_own).
Proof.
  unfold demo_table. intros [[<- <-]|[_ Hin]]%lookup_insert_Some; [by left|].
  apply lookup_singleton_Some in Hin as [<- <-]. by right.
Qed.

Lemma demo_sharded : exists r, savable r /\ groups r = demo_table /\ rr_meta_dbid r = replicate 32 97 /\
  si_is_sharding (rr_sharding_info r) = true /\ forall j, importing_term (rr_sharding_info r) j = 0.
Proof.
  destruct demo_pair as (r1 & r2 & H1 & H2). exists r2.
  assert (groups r2 = demo_table) as Hg.
  { rewrite (ad_groups _ _ _ H2), (ad_groups _ _ _ H1). reflexivity. }
  assert (savable r1) as Hs1.
  { eapply (savable_added demo_rr r1 demo_own); [apply demo_rr_savable|by vm_compute| |exact H1].
    by apply demo_group_ok; [| |repeat constructor|cbn; lia]. }
  split_and!.
  - eapply (savable_added r1 r2 demo_other); [exact Hs1| | |exact H2].
    + unfold few. rewrite (ad_groups _ _ _ H1). by vm_compute.
    + by apply demo_group_ok; [| |repeat constructor|cbn; lia].
  - exact Hg.
  - rewrite (proj1 (ad_conf _ _ _ H2)), (proj1 (ad_conf _ _ _ H1)). reflexivity.
  - rewrite (ad_sharding _ _ _ H2), Hg.
    + apply orb_true_iff. right. reflexivity.
    + rewrite (ad_groups _ _ _ H1). by vm_compute.
  - intros j. rewrite (ad_terms _ _ _ H2), (ad_terms _ _ _ H1). by repeat case_decide.
Qed.

Lemma snapshot_restores_table_witness :
  exists r rdb, size (groups r) = 2%nat /\ ShardingInfoRDBSave r = Done (rdb, r) /\
    exists r', ShardingInfoRDBLoad rdb demo_rr = Done ([], r') /\ groups r' = groups r.
Proof.
  destruct demo_sharded as (r2 & Hsv & Hg & Hdb & _ & _).
  destruct (snapshot_restores_table r2 Hsv) as (rdb & Es & Hl).
  - rewrite Hg. intros id1 g1 id2 g2 t j H1' H2' Hne.
    destruct (demo_table_cases _ _ H1') as [[-> ->] | [-> ->]], (demo_table_cases _ _ H2') as [[-> ->] | [-> ->]]; try done;
    unfold serves; cbn; rewrite !Exists_cons, !Exists_nil; cbn;
    unfold SLOTRANGE_TYPE_STABLE, SLOTRANGE_TYPE_MIGRATING, SLOTRANGE_TYPE_IMPORTING; lia.
  - rewrite Hg, Hdb. intros id g [[-> ->] | [-> ->]]%demo_table_cases; by vm_compute.
  - exists r2, rdb. split; [by rewrite Hg|]. split; [exact Es|].
    destruct (Hl demo_rr [] demo_rr_wf) as (r' & E & _ & Hg' & _); [by rewrite Hdb|].
    rewrite app_nil_r in E. by exists r'.
Defined.

(** The state after the groups have been added. *)
Fixpoint add_all (sgs : list ShardGroup) (r : RedisRaftCtx) : RedisRaftCtx :=
  match sgs with
  | [] => r
  | sg :: sgs' =>
      match ShardingInfoAddShardGroup sg r with
      | Done (_, r') => add_all sgs' r'
      | _ => r
      end
  end.

Definition load_result (r r0 : RedisRaftCtx) : outcome RedisRaftCtx :=
  match ShardingInfoRDBSave r with
  | Done (rdb, _) =>
      match ShardingInfoRDBLoad rdb r0 with
      | Done (_, r') => Done r'
      | Abort => Abort
      | OutOfFuel => OutOfFuel
      end
  | Abort => Abort
  | OutOfFuel => OutOfFuel
  end.

(** [ShardingInfoValidateShardGroup] means to check that the slots of a new group
    are unassigned, but a stable range is compared with stable slots only.  Group
    "b" imports slot 5, then group "a" is added with slot 5 as stable: accepted,
    but in a snapshot "a" comes first, and no server can load it. *)
Example stable_over_importing :
  let r := add_all [demo_group 98 false [demo_range 5 5 SLOTRANGE_TYPE_IMPORTING];
                    demo_group 97 true [demo_range 5 5 SLOTRANGE_TYPE_STABLE]] demo_rr in
  size (groups r) = 2%nat /\ load_result r demo_rr = Abort.
Proof. split; vm_compute; reflexivity. Qed.

(** [replaceShardGroups] leaves [is_sharding] as it was, if it was set, and
    changes terms only to 0. *)
Record info_kept (i i' : ShardingInfo) : Prop := {
  kept_flag : si_is_sharding i = true -> si_is_sharding i' = true;
  kept_terms j : importing_term i' j = 0 \/ importing_term i' j = importing_term i j
}.

#[export] Instance info_kept_preorder : PreOrder info_kept.
Proof.
  split; [intros i; split; [done|by right]|]. intros i1 i2 i3 [F12 T12] [F23 T23].
  split; [by intros; apply F23, F12|]. intros j. destruct (T23 j) as [->| ->]; [by left|apply T12].
Qed.

Definition rr_info_kept (r r' : RedisRaftCtx) : Prop :=
  rr_meta_dbid r' = rr_meta_dbid r /\ info_kept (rr_sharding_info r) (rr_sharding_info r').

#[export] Instance rr_info_kept_preorder : PreOrder rr_info_kept.
Proof.
  unfold rr_info_kept. split; [intros r; by split|]. intros r1 r2 r3 [D12 H12] [D23 H23].
  split; [congruence|by transitivity (rr_sharding_info r2)].
Qed.

Lemma with_si_kept {A} (m : M ShardingInfo A) : respects info_kept m -> respects rr_info_kept (with_si m).
Proof. intros Hm r a r' (i & E & ->)%zoom_done. split; [done|by apply (Hm _ a)]. Qed.

Lemma zero_term_kept slot : respects info_kept (modify (fun i => i <| si_max_importing_term ::= <[slot := 0]> |>)).
Proof.
  apply respects_modify. intros i. split; [done|]. intros j. unfold importing_term. cbn.
  rewrite lookup_insert_decide. case_decide; tauto.
Qed.

Ltac solve_kept :=
  repeat first
    [ apply with_si_kept
    | apply zero_term_kept
    | apply (respects_modify rr_info_kept); intros r; split; [done|split; [done|by right]]
    | apply (respects_modify info_kept); intros i; split; [done|by right]
    | progress respects_solve ].

Lemma add_info_kept sg : respects rr_info_kept (ShardingInfoAddShardGroup sg).
Proof.
  unfold ShardingInfoAddShardGroup, link_group, map_ranges, map_slot, update_group, set_is_sharding, deref.
  solve_kept.
Qed.

Lemma replace_loop_info_kept n : forall payload req, respects rr_info_kept (replace_loop n payload req).
Proof.
  induction n as [|n IH]; intros payload req; cbn [replace_loop]; solve_kept; apply add_info_kept || apply IH.
Qed.

Lemma replace_info_kept data req : respects rr_info_kept (replaceShardGroups data req).
Proof.
  unfold replaceShardGroups, freeShardGroupMap, ShardGroupFree, clear_maps, deref. solve_kept. apply replace_loop_info_kept.
Qed.
