(* ===== verification/ShardRouting.v ===== *)
(** * Commands and migrations on sharded clusters
    ([redisraft/src/raft.c], [cluster.c], [migrate.c])

    Before the commands of a log entry are executed, [handleSharding] decides from
    the table of shard groups whether they may be.  Keys move between clusters by
    log entries: locked ([lockKeys]), sent ([MigrateKeys], [transferKeys]),
    imported by the other cluster ([importKeys]) and deleted
    ([unlockDeleteKeys]). *)

From stdpp Require Import base list numbers tactics gmap strings.
From S2P Require Import Prelude RaftTypes RaftState Libc File Multibulk PageLog Crc Serialization NodeAddr ShardGroup Sharding.

Local Open Scope Z_scope.

(** ** Redis

    What the module asks of Redis: the positions of the keys among a command's
    arguments, whether a key exists, and the commands DUMP, RESTORE (with
    REPLACE) and DEL. *)
Class Keyspace (D : Type) := {
  GetCommandKeys : list (list Z) -> list nat;
  KeyExists : D -> list Z -> bool;
  Dump : D -> list Z -> option (list Z);
  RestoreKey : D -> list Z -> list Z -> option D;
  Del : D -> list (list Z) -> D
}.

Class KeyspaceLaws (D : Type) `{Keyspace D} : Prop := {
  restore_exists d k v d' k' : RestoreKey d k v = Some d' -> KeyExists d' k' = bool_decide (k' = k) || KeyExists d k';
  del_exists d ks k : KeyExists (Del d ks) k = negb (bool_decide (k ∈ ks)) && KeyExists d k
}.

Section Routing.
Context {D : Type} `{Keyspace D}.

(** [RedisRaftCtx] with [locked_keys], and the database. *)
Record node := mk_node {
  nd_rr : RedisRaftCtx;
  nd_locked_keys : gset (list Z);
  nd_db : D
}.
#[local] Instance eta_node : Eta node := fun n => mk_node (nd_rr n) (nd_locked_keys n) (nd_db n).
#[local] Instance set_nd_rr : Setter nd_rr. Proof. solve_setter. Defined.
#[local] Instance set_nd_locked_keys : Setter nd_locked_keys. Proof. solve_setter. Defined.
#[local] Instance set_nd_db : Setter nd_db. Proof. solve_setter. Defined.

Definition on_rr {A} (m : M RedisRaftCtx A) : M node A :=
  zoom nd_rr (fun r n => n <| nd_rr := r |>) m.

(** The keys of a command. *)
Definition command_keys (argv : list (list Z)) : list (list Z) :=
  omap (fun i => argv !! i) (GetCommandKeys argv).

(** ** Slots of commands *)

(** -1: no key yet. *)
Fixpoint keys_slot (keys : list (list Z)) (slot : Z) : option Z :=
  match keys with
  | [] => Some slot
  | key :: keys' =>
      let thisslot := keyHashSlot key in
      if slot =? -1 then keys_slot keys' thisslot
      else if negb (slot =? thisslot) then None
      else keys_slot keys' slot
  end.

Fixpoint commands_slot (cmds : list (list (list Z))) (slot : Z) : option Z :=
  match cmds with
  | [] => Some slot
  | cmd :: cmds' =>
      match keys_slot (command_keys cmd) slot with
      | Some slot => commands_slot cmds' slot
      | None => None
      end
  end.

(** [None] is [RR_ERROR]. *)
Definition HashSlotCompute (cmds : RaftRedisCommandArray) : option Z := commands_slot (ra_commands cmds) (-1).

Inductive KeysStatus := ALL_EXIST | SOME_EXIST | NONE_EXIST | LOCKED_EXIST.

(** [total_keys], [found] and [locked]. *)
Definition count_key (n : node) (c : Z * Z * Z) (key : list Z) : Z * Z * Z :=
  let '(total, found, locked) := c in
  if KeyExists (nd_db n) key
  then (total + 1, found + 1, if bool_decide (key ∈ nd_locked_keys n) then locked + 1 else locked)
  else (total + 1, found, locked).

Definition validateKeyExistence (n : node) (cmds : RaftRedisCommandArray) : KeysStatus :=
  let '(total_keys, found, locked) :=
    foldl (fun c cmd => foldl (count_key n) c (command_keys cmd)) (0, 0, 0) (ra_commands cmds) in
  if 0 <? locked then LOCKED_EXIST
  else if negb (found =? total_keys) then (if found =? 0 then NONE_EXIST else SOME_EXIST)
  else ALL_EXIST.

(** ** Whether commands may be executed *)

(** [sg && sg->local] *)
Definition is_local (p : option Z) : M RedisRaftCtx bool :=
  match p with
  | None => ret false
  | Some p => sg <- deref p ;; ret (sg_local sg)
  end.

Definition getSlotShardGroup (slot : Z) (asking : bool) : M RedisRaftCtx (option Z) :=
  si <- gets rr_sharding_info ;;
  match si_stable_slots_map si !! slot with
  | Some sg => ret (Some sg)
  | None =>
      let sg := si_migrating_slots_map si !! slot in
      local <- is_local sg ;;
      if local : bool then ret sg else
      if asking : bool then
        let isg := si_importing_slots_map si !! slot in
        local <- is_local isg ;;
        if local : bool then ret isg else ret sg
      else ret sg
  end.

(** The type of the first range with the slot. *)
Definition slot_type (sg : ShardGroup) (slot : Z) : Z :=
  match list_find (fun sr => sr_start_slot sr <= slot <= sr_end_slot sr) (sg_slot_ranges sg) with
  | Some (_, sr) => sr_type sr
  | None => SLOTRANGE_TYPE_UNDEF
  end.

(** The answer, when a client waits for one. *)
Definition fail_with (reply_ctx : bool) (rep : reply) : Z * list reply := (RR_ERROR, answer reply_ctx rep).

Definition redirect (p : Z) (slot : Z) : M RedisRaftCtx (list reply) :=
  sg <- deref p ;;
  if sg_nodes_num sg =? 0 then abort else
  let next := u32 (sg_next_redir sg + 1) mod sg_nodes_num sg in
  update_group p (fun sg => sg <| sg_next_redir := next |>) ;;
  match zlookup (sg_nodes sg) next with
  | Some node => ret [ReplyError (replyRedirect slot (sgn_addr node))]
  | None => abort
  end.

Definition ask (p : Z) (slot : Z) : M RedisRaftCtx (list reply) :=
  isg <- deref p ;;
  match zlookup (sg_nodes isg) 0 with
  | Some node => ret [ReplyError (replyAsk slot (sgn_addr node))]
  | None => abort
  end.

Definition validateRaftRedisCommandArray (reply_ctx : bool) (cmds : RaftRedisCommandArray) (slot : Z) :
    M node (Z * list reply) :=
  c_assert (slot <=? REDIS_RAFT_HASH_MAX_SLOT) ;;
  psg <- on_rr (getSlotShardGroup slot (ra_asking cmds)) ;;
  match psg with
  | None => ret (fail_with reply_ctx (error "CLUSTERDOWN Hash slot is not served"))
  | Some p =>
      sg <- on_rr (deref p) ;;
      let slot_type := slot_type sg slot in
      if slot_type =? SLOTRANGE_TYPE_UNDEF then
        ret (fail_with reply_ctx
          (error "ERR internal error, couldn't associate a shardgroup slot to this request")) else
      if negb (sg_local sg) then
        (if reply_ctx then reps <- on_rr (redirect p slot) ;; ret (RR_ERROR, reps)
         else ret (RR_ERROR, [])) else
      n <- get ;;
      if slot_type =? SLOTRANGE_TYPE_MIGRATING then
        match validateKeyExistence n cmds with
        | SOME_EXIST | LOCKED_EXIST => ret (fail_with reply_ctx (error "TRYAGAIN"))
        | NONE_EXIST =>
            if reply_ctx then
              match si_importing_slots_map (rr_sharding_info (nd_rr n)) !! slot with
              | Some isg => reps <- on_rr (ask isg slot) ;; ret (RR_ERROR, reps)
              | None => ret (fail_with true (error "ERR no importing shard group to ask"))
              end
            else ret (RR_ERROR, [])
        | ALL_EXIST => ret (RR_OK, [])
        end
      else if slot_type =? SLOTRANGE_TYPE_IMPORTING then
        match validateKeyExistence n cmds with
        | ALL_EXIST => ret (RR_OK, [])
        | _ => ret (fail_with reply_ctx (error "TRYAGAIN"))
        end
      else ret (RR_OK, [])
  end.

Definition cross_slot : reply := error "CROSSSLOT Keys in request don't hash to the same slot".

Definition handleSharding (ctx : bool) (cmds : RaftRedisCommandArray) : M node (Z * list reply) :=
  n <- get ;;
  if negb (si_is_sharding (rr_sharding_info (nd_rr n))) then ret (RR_OK, []) else
  match HashSlotCompute cmds with
  | None => ret (fail_with ctx cross_slot)
  | Some slot =>
      if slot =? -1 then ret (RR_OK, []) else validateRaftRedisCommandArray ctx cmds slot
  end.

(** ** Locking keys and starting a migration *)

(** What [MigrateKeys] hands to the connection: the nodes to try, and the
    request's term, session key and keys with what DUMP gave. *)
Record migration := mk_migration {
  mg_addr : list NodeAddr;
  mg_migrate_term : Z;
  mg_session_key : Z;
  mg_keys : list (list Z * option (list Z))
}.

(** A request: its keys, and the current term of its server. *)
Record migrate_req := mk_req { mr_keys : list (list Z); mr_term : Z }.

Definition first_range (sg : ShardGroup) (slot : Z) : option ShardGroupSlotRange :=
  snd <$> list_find (fun sr => sr_start_slot sr <= slot <= sr_end_slot sr) (sg_slot_ranges sg).

Definition getMigrationSessionKey (keys : list (list Z)) : M RedisRaftCtx (option Z) :=
  match keys with
  | [] => abort
  | key :: _ =>
      si <- gets rr_sharding_info ;;
      let slot := keyHashSlot key in
      match si_migrating_slots_map si !! slot with
      | None => abort
      | Some p =>
          sg <- deref p ;;
          ret (sr_migration_session_key <$> first_range sg slot)
      end
  end.

(** DUMP every key that exists; [None]: an answer that is no string. *)
Fixpoint dump_keys (d : D) (keys : list (list Z)) : option (list (list Z * option (list Z))) :=
  match keys with
  | [] => Some []
  | key :: keys' =>
      if KeyExists d key then
        match Dump d key, dump_keys d keys' with
        | Some v, Some l => Some ((key, Some v) :: l)
        | _, _ => None
        end
      else match dump_keys d keys' with
           | Some l => Some ((key, None) :: l)
           | None => None
           end
  end.

Definition num_serialized_keys (keys : list (list Z * option (list Z))) : Z :=
  Z.of_nat (length (filter (fun k => is_Some (snd k)) keys)).

(** The reply OK for a migration of no key is a bulk string; it is written here
    as a simple string.  The debug settings that emulate failures are off. *)
Definition MigrateKeys (shard_group_id : list Z) (req : migrate_req) : M node (list reply + migration) :=
  n <- get ;;
  match GetShardGroupById (rr_sharding_info (nd_rr n)) shard_group_id with
  | None => ret (inl [error "ERR couldn't resolve shardgroup id"])
  | Some p =>
      session_key <- on_rr (getMigrationSessionKey (mr_keys req)) ;;
      match session_key with
      | None => ret (inl [error "ERR failed to retrieve migration session key"])
      | Some session_key =>
          match dump_keys (nd_db n) (mr_keys req) with
          | None => ret (inl [error "ERR serializing keys for migration failed"])
          | Some keys =>
              if num_serialized_keys keys =? 0 then ret (inl [simple "OK"]) else
              sg <- on_rr (deref p) ;;
              ret (inr (mk_migration (NodeAddrListConcat [] (sgn_addr <$> sg_nodes sg))
                          (mr_term req) session_key keys))
          end
      end
  end.

(** All keys of a list to lock are in one slot. *)
Definition lock_slot (keys : list (list Z)) : option Z := keys_slot keys (-1).

(** [if (req) reply; goto error;] *)
Definition lock_error (req : option migrate_req) (rep : reply) : M node (list reply + migration) :=
  ret (inl (answer (bool_decide (is_Some req)) rep)).

Definition lockKeys (data : list Z) (req : option migrate_req) : M node (list reply + migration) :=
  keys <- lift (RaftRedisLockKeysDeserialize data) ;;
  match keys with
  | None => abort
  | Some keys =>
      match lock_slot keys with
      | None => lock_error req cross_slot
      | Some slot =>
          if slot =? -1 then lock_error req (simple "ERR lockKeys called without any keys to lock") else
          si <- gets (fun n => rr_sharding_info (nd_rr n)) ;;
          match si_migrating_slots_map si !! slot with
          | None => lock_error req (error "ERR keys are not migratable")
          | Some msg =>
              mine <- on_rr (is_local (Some msg)) ;;
              if negb mine then lock_error req (error "ERR This RedisRaft cluster doesn't own these keys") else
              match si_importing_slots_map si !! slot with
              | None => lock_error req (error "ERR no RedisRaft cluster to import keys into")
              | Some isg =>
                  theirs <- on_rr (deref isg) ;;
                  if sg_local theirs
                  then lock_error req (error "ERR trying to import keys into self RedisCluster") else
                  modify (fun n => n <| nd_locked_keys :=
                    list_to_set (filter (fun k => KeyExists (nd_db n) k = true) keys) ∪ nd_locked_keys n |>) ;;
                  match req with
                  | None => ret (inl [])
                  | Some req => MigrateKeys (take (Z.to_nat RAFT_DBID_LEN) (sg_id theirs)) req
                  end
              end
          end
      end
  end.

(** ** Sending keys *)

(** [argv[i] = s;] and [argv_len[i] = len;]: [len] bytes of the buffer that holds
    [s] and, if [nul], a NUL are sent. *)
Definition set_arg (i : Z) (s : list Z) (nul : bool) (len : Z) (argv : list (list Z)) : outcome (list (list Z)) :=
  let buf := if nul then s ++ [0] else s in
  if blen buf <? len then Abort else
  match zinsert i (take (Z.to_nat len) buf) argv with
  | Some argv => Done argv
  | None => Abort
  end.

Fixpoint set_keys (i : Z) (keys : list (list Z * option (list Z))) (argv : list (list Z)) : outcome (list (list Z)) :=
  match keys with
  | [] => Done argv
  | (_, None) :: keys' => set_keys (i + 1) keys' argv
  | (key, Some str) :: keys' =>
      match set_arg (3 + i * 2) (c_string key) true (blen key) argv with
      | Done argv =>
          match set_arg (3 + i * 2 + 1) str false (blen str) argv with
          | Done argv => set_keys (i + 1) keys' argv
          | o => o
          end
      | o => o
      end
  end.

(** The arguments of RAFT.IMPORT in [transferKeys]; an entry that is not set is
    empty (NULL with length 0). *)
Definition transfer_argv (m : migration) : outcome (list (list Z)) :=
  let argc := 3 + num_serialized_keys (mg_keys m) * 2 in
  set_keys 0 (mg_keys m)
    ([bytes_of "RAFT.IMPORT"; dec_signed (mg_migrate_term m); dec_unsigned (mg_session_key m)] ++
     replicate (Z.to_nat (argc - 3)) []).

(** ** Importing keys *)

Definition validSlot (slot : Z) : M RedisRaftCtx bool :=
  si <- gets rr_sharding_info ;;
  is_local (si_importing_slots_map si !! slot).

Definition validSlotMigrationSessionKey (slot migration_session_key : Z) : M RedisRaftCtx bool :=
  si <- gets rr_sharding_info ;;
  match si_importing_slots_map si !! slot with
  | None => abort
  | Some p =>
      sg <- deref p ;;
      ret (match first_range sg slot with
           | Some sr => sr_migration_session_key sr =? migration_session_key
           | None => false
           end)
  end.

Definition validSlotTerm (slot term : Z) : M RedisRaftCtx bool :=
  si <- gets rr_sharding_info ;;
  if importing_term si slot <=? term
  then with_si (modify (fun i => i <| si_max_importing_term ::= <[slot := term]> |>)) ;; ret true
  else ret false.

(** RESTORE key 0 value REPLACE for every key; an error is a panic. *)
Fixpoint restore_all (keys : list (list Z * list Z)) : M node unit :=
  match keys with
  | [] => ret tt
  | (key, value) :: keys' =>
      n <- get ;;
      match RestoreKey (nd_db n) key value with
      | None => abort
      | Some d => modify (fun n => n <| nd_db := d |>) ;; restore_all keys'
      end
  end.

Definition importKeys (data : list Z) (req : bool) : M node (list reply) :=
  match RaftRedisDeserializeImport data (mk_import 0 0 0 [] []) with
  | Done (res, ik) =>
      c_assert (res =? RR_OK) ;;
      c_assert (0 <? ik_num_keys ik) ;;
      match ik_key_names ik with
      | [] => abort
      | key0 :: _ =>
          let slot := keyHashSlot key0 in
          ok <- on_rr (validSlot slot) ;;
          if negb ok then ret (answer req (error "ERR not an importing slot")) else
          ok <- on_rr (validSlotMigrationSessionKey slot (ik_migration_session_key ik)) ;;
          if negb ok then ret (answer req (error "ERR invalid migration_session_key")) else
          ok <- on_rr (validSlotTerm slot (ik_term ik)) ;;
          if negb ok then ret (answer req (error "ERR invalid term")) else
          restore_all (import_pairs ik) ;;
          ret (answer req (simple "OK"))
      end
  | Abort => abort
  | OutOfFuel => out_of_fuel
  end.

(** ** RAFT.IMPORT *)

(** [shutdownServer] ends the process. *)
Definition replyRaftError (msg : option String.string) (err : Z) : outcome reply :=
  if err =? RAFT_ERR_SHUTDOWN then Abort else
  Done (ReplyError (take 255 (bytes_of "ERR " ++
    match msg with
    | Some msg => bytes_of msg ++ bytes_of " (" ++ bytes_of (raft_get_error_str err) ++ bytes_of ")"
    | None => bytes_of (raft_get_error_str err)
    end))).

Fixpoint pair_args (args : list (list Z)) : list (list Z * list Z) :=
  match args with
  | k :: v :: args' => (k, v) :: pair_args args'
  | _ => []
  end.

(** The part after [checkRaftState]: the replies sent at once, and the data of
    the entry appended. *)
Definition cmdRaftImport (StringToLongLong : list Z -> option Z) (WrongArity : list Z)
    (recv_entry : Z -> list Z -> Z) (argv : list (list Z)) : outcome (list reply * option (list Z)) :=
  let argc := Z.of_nat (length argv) in
  if (argc <? 5) || (argc mod 2 =? 0) then Done ([ReplyError WrongArity], None) else
  match argv with
  | _ :: a1 :: a2 :: args =>
      match StringToLongLong a1 with
      | None => Done ([error "ERR failed to parse raft term"], None)
      | Some term =>
          match StringToLongLong a2 with
          | None => Done ([error "ERR failed to parse import migration session key"], None)
          | Some migration_session_key =>
              let pairs := pair_args args in
              match RaftRedisSerializeImport (mk_import term (u64 migration_session_key) ((argc - 3) / 2)
                                                (fst <$> pairs) (snd <$> pairs)) with
              | Done data =>
                  let e := recv_entry RAFT_LOGTYPE_IMPORT_KEYS data in
                  if e =? 0 then Done ([], Some data) else
                  match replyRaftError None e with
                  | Done rep => Done ([rep], None)
                  | Abort => Abort
                  | OutOfFuel => OutOfFuel
                  end
              | Abort => Abort
              | OutOfFuel => OutOfFuel
              end
          end
      end
  | _ => Abort
  end.

Definition unlockDeleteKeys (data : list Z) (req : bool) : M node (list reply) :=
  keys <- lift (RaftRedisLockKeysDeserialize data) ;;
  match keys with
  | None => abort
  | Some keys =>
      modify (fun n => n <| nd_db := Del (nd_db n) keys |>
                         <| nd_locked_keys := nd_locked_keys n ∖ list_to_set keys |>) ;;
      ret (answer req (simple "OK"))
  end.

End Routing.

Arguments node D : clear implicits.
