(* ===== verification/ShardRoutingSpec.v ===== *)
(** * What routing and migration guarantee

    The decision about commands is a function of the table's groups alone
    ([decision]); it lets commands with keys run only where their slot is served.
    Imports are fenced by terms, and the arguments of RAFT.IMPORT fit. *)

From stdpp Require Import base list numbers tactics gmap strings sorting.
From S2P Require Import Prelude Libc File Multibulk PageLog Crc Serialization SerializationSpec NodeAddr.
From S2P Require Import ShardGroup Sharding ShardingSpec ShardParse ShardParseSpec ShardSnapshot ShardRouting.

Local Open Scope Z_scope.

(** ** The group that serves a slot *)

(** The group with the slot in a range of this type. *)
Definition server (G : gmap (list Z) ShardGroup) (t slot : Z) : option ShardGroup :=
  head (filter (fun g => serves g t slot) (snd <$> map_to_list G)).

Lemma server_some G t slot g : server G t slot = Some g -> serves g t slot /\ exists id, G !! id = Some g.
Proof.
  unfold server. intros Hh%head_Some_elem_of.
  apply list_elem_of_filter in Hh as [Hs ([id g'] & -> & Hin)%list_elem_of_fmap].
  split; [done|]. exists id. by apply elem_of_map_to_list.
Qed.

Lemma server_none G t slot : server G t slot = None <-> forall id g, G !! id = Some g -> ~ serves g t slot.
Proof.
  unfold server. split.
  - intros Hn id g Hg Hs. apply head_None in Hn.
    assert (g ∈ filter (fun g => serves g t slot) (snd <$> map_to_list G)) as Hin.
    { apply list_elem_of_filter. split; [done|]. apply list_elem_of_fmap. exists (id, g).
      split; [done|]. by apply elem_of_map_to_list. }
    rewrite Hn in Hin. by apply elem_of_nil in Hin.
  - intros Hall. destruct (head _) as [g|] eqn:E; [|done].
    destruct (server_some G t slot g E) as [Hs [id Hg]]. by destruct (Hall id g Hg).
Qed.

Lemma server_unique r t slot id g : wf r -> SlotRangeTypeValid t = true ->
  groups r !! id = Some g -> serves g t slot -> server (groups r) t slot = Some g.
Proof.
  intros Hwf Ht Hg Hs. destruct (server (groups r) t slot) as [g'|] eqn:E.
  - destruct (server_some _ _ _ _ E) as [Hs' [id' Hg']].
    assert (id' = id) as -> by (by eapply (serves_unique r Hwf id' id g' g t slot)). congruence.
  - by destruct (proj1 (server_none _ _ _) E id g Hg).
Qed.

(** A pointer to a group, and the group. *)
Definition points_to (r : RedisRaftCtx) (p : option Z) (g : option ShardGroup) : Prop :=
  match p, g with
  | None, None => True
  | Some p, Some g => exists sg, rr_heap r !! p = Some sg /\ g = sg_static sg
  | _, _ => False
  end.

Lemma slot_map_points r t slot : wf r -> SlotRangeTypeValid t = true ->
  points_to r (slot_map (rr_sharding_info r) t !! slot) (server (groups r) t slot).
Proof.
  intros Hwf Ht. destruct (slot_map (rr_sharding_info r) t !! slot) as [p|] eqn:E.
  - destruct (slot_map_some r Hwf t slot p Ht E) as (sg & Hp & Hg & Hs).
    rewrite (server_unique r t slot (sg_id sg) (sg_static sg)) by (done || by apply serves_static). by exists sg.
  - rewrite slot_map_none in E by done. by rewrite (proj2 (server_none _ _ _) E).
Qed.

Definition local_opt (g : option ShardGroup) : bool := match g with Some g => sg_local g | None => false end.

(** The comment at [getSlotShardGroup]. *)
Definition slot_owner (G : gmap (list Z) ShardGroup) (slot : Z) (asking : bool) : option ShardGroup :=
  match server G SLOTRANGE_TYPE_STABLE slot with
  | Some g => Some g
  | None =>
      let m := server G SLOTRANGE_TYPE_MIGRATING slot in
      let i := server G SLOTRANGE_TYPE_IMPORTING slot in
      if local_opt m then m else if asking && local_opt i then i else m
  end.

Lemma deref_run r p sg : rr_heap r !! p = Some sg -> deref p r = Done (sg, r).
Proof. intros Hp. unfold deref, bind, get. by rewrite Hp. Qed.

Lemma is_local_run r p g : points_to r p g -> is_local p r = Done (local_opt g, r).
Proof.
  destruct p as [p|], g as [g|]; cbn; try done. intros (sg & Hp & ->).
  by rewrite (bind_done_eq _ _ _ _ _ (deref_run r p sg Hp)).
Qed.

Lemma get_slot_run r slot asking : wf r ->
  exists p, getSlotShardGroup slot asking r = Done (p, r) /\ points_to r p (slot_owner (groups r) slot asking).
Proof.
  intros Hwf. unfold getSlotShardGroup, slot_owner.
  rewrite (bind_done_eq (gets rr_sharding_info) _ r (rr_sharding_info r) r) by done.
  pose proof (slot_map_points r SLOTRANGE_TYPE_STABLE slot Hwf eq_refl) as Hs.
  pose proof (slot_map_points r SLOTRANGE_TYPE_MIGRATING slot Hwf eq_refl) as Hm.
  pose proof (slot_map_points r SLOTRANGE_TYPE_IMPORTING slot Hwf eq_refl) as Hi.
  unfold slot_map in Hs, Hm, Hi. cbn [Z.eqb Pos.eqb SLOTRANGE_TYPE_STABLE SLOTRANGE_TYPE_MIGRATING SLOTRANGE_TYPE_IMPORTING] in Hs, Hm, Hi.
  destruct (si_stable_slots_map (rr_sharding_info r) !! slot) as [p|], (server (groups r) _ slot) as [g|]; try done.
  { by exists (Some p). }
  rewrite (bind_done_eq _ _ _ _ _ (is_local_run r _ _ Hm)).
  destruct (local_opt _); [by eexists|]. destruct asking; [|by eexists]. cbn [andb].
  rewrite (bind_done_eq _ _ _ _ _ (is_local_run r _ _ Hi)).
  destruct (local_opt _); by eexists.
Qed.

Section Spec.
Context {D : Type} `{Keyspace D}.

Definition array_keys (cmds : RaftRedisCommandArray) : list (list Z) :=
  concat (command_keys <$> ra_commands cmds).

(** ** Keys *)

Lemma key_slot_range key : 0 <= keyHashSlot key < 16384.
Proof.
  assert (forall x, 0 <= Z.land x 0x3FFF < 16384) as Hb.
  { intros x. change 0x3FFF with (Z.ones 14). rewrite Z.land_ones by lia. apply Z.mod_pos_bound. lia. }
  unfold keyHashSlot. repeat case_match; apply Hb.
Qed.

Lemma keys_slot_spec keys slot s : slot = -1 \/ 0 <= slot ->
  keys_slot keys slot = Some s ->
  (slot = -1 \/ s = slot) /\ (s = -1 \/ 0 <= s < 16384 \/ s = slot) /\ Forall (fun k => keyHashSlot k = s) keys /\ (keys <> [] -> s <> -1).
Proof.
  revert slot. induction keys as [|k keys IH]; intros slot Hslot; cbn [keys_slot].
  { intros [= ->]. split_and!; [by right|by right; right|constructor|done]. }
  pose proof (key_slot_range k) as Hk.
  destruct (Z.eqb_spec slot (-1)) as [->|Hne].
  - intros E. destruct (IH (keyHashSlot k) ltac:(lia) E) as (H1 & H2 & H3 & H4). 
    split_and!; [by left|lia| |lia]. constructor; [lia|done].
  - destruct (Z.eqb_spec slot (keyHashSlot k)) as [->|]; [|done]. cbn [negb]. intros E.
    destruct (IH (keyHashSlot k) ltac:(lia) E) as (H1 & H2 & H3 & H4).
    split_and!; [lia|lia| |lia]. constructor; [lia|done].
Qed.

Lemma keys_slot_app a b slot : keys_slot (a ++ b) slot =
  match keys_slot a slot with Some s => keys_slot b s | None => None end.
Proof.
  revert slot. induction a as [|k a IH]; intros slot; cbn [app keys_slot]; [done|].
  destruct (slot =? -1); [apply IH|]. destruct (negb _); [done|apply IH].
Qed.

Lemma commands_slot_keys cmds : forall slot, commands_slot cmds slot = keys_slot (concat (command_keys <$> cmds)) slot.
Proof.
  induction cmds as [|cmd cmds IH]; intros slot; [done|]. rewrite fmap_cons. cbn [commands_slot concat].
  rewrite keys_slot_app. destruct (keys_slot (command_keys cmd) slot); [apply IH|done].
Qed.

Lemma hash_slot_spec cmds s : HashSlotCompute cmds = Some s ->
  Forall (fun k => keyHashSlot k = s) (array_keys cmds) /\ (array_keys cmds <> [] -> s <> -1) /\
  (s = -1 \/ 0 <= s < 16384).
Proof.
  unfold HashSlotCompute. rewrite commands_slot_keys. intros E.
  destruct (keys_slot_spec _ _ _ ltac:(by left) E) as (H1 & H2 & H3 & H4). split_and!; [done|done|lia].
Qed.

(** ** Existence of keys *)

Definition key_free (n : node D) (k : list Z) : Prop := KeyExists (nd_db n) k = true /\ (k ∉ nd_locked_keys n).

#[global] Instance key_free_dec n k : Decision (key_free n k).
Proof. unfold key_free. apply _. Defined.

Lemma count_keys_spec n keys : forall t f l,
  exists found locked, foldl (count_key n) (t, f, l) keys = (t + Z.of_nat (length keys), f + found, l + locked) /\
    0 <= found <= Z.of_nat (length keys) /\ 0 <= locked <= found /\
    (found = Z.of_nat (length keys) /\ locked = 0 <-> Forall (key_free n) keys) /\
    (found = 0 <-> Forall (fun k => KeyExists (nd_db n) k = false) keys).
Proof.
  induction keys as [|k keys IH]; intros t f l; cbn [foldl].
  { exists 0, 0. rewrite !Z.add_0_r. by split_and!. }
  unfold count_key at 2. destruct (KeyExists (nd_db n) k) eqn:Ek.
  - destruct (bool_decide_reflect (k ∈ nd_locked_keys n)) as [Hl|Hl].
    + destruct (IH (t + 1) (f + 1) (l + 1)) as (found & locked & E & Hf & Hlk & Hiff & Hno).
      exists (found + 1), (locked + 1). rewrite E. cbn [length].
      split_and!; [apply (f_equal2 pair); [apply (f_equal2 pair); lia|lia]|lia|lia|lia|lia| |].
      * rewrite Forall_cons. unfold key_free at 1. split; [lia|tauto].
      * rewrite Forall_cons, Ek. split; [lia|by intros [? _]].
    + destruct (IH (t + 1) (f + 1) l) as (found & locked & E & Hf & Hlk & Hiff & Hno).
      exists (found + 1), locked. rewrite E. cbn [length].
      split_and!; [apply (f_equal2 pair); [apply (f_equal2 pair); lia|lia]|lia|lia|lia|lia| |].
      * rewrite Forall_cons. unfold key_free at 1.
        split; [intros [? ?]; split; [done|apply Hiff; lia]|intros [_ [? ?]%Hiff]; lia].
      * rewrite Forall_cons, Ek. split; [lia|by intros [? _]].
  - destruct (IH (t + 1) f l) as (found & locked & E & Hf & Hlk & Hiff & Hno).
    exists found, locked. rewrite E. cbn [length].
    split_and!; [apply (f_equal2 pair); [apply (f_equal2 pair); lia|lia]|lia|lia|lia|lia| |].
    + rewrite Forall_cons. unfold key_free at 1. split; [lia|intros [[? _] _]; congruence].
    + rewrite Forall_cons, Ek. tauto.
Qed.

Lemma foldl_concat_keys n cmds : forall c,
  foldl (fun c cmd => foldl (count_key n) c (command_keys cmd)) c cmds =
  foldl (count_key n) c (concat (command_keys <$> cmds)).
Proof.
  induction cmds as [|cmd cmds IH]; intros c; [done|]. rewrite fmap_cons. cbn [foldl concat]. by rewrite foldl_app, IH.
Qed.

Definition all_exist (s : KeysStatus) : bool := match s with ALL_EXIST => true | _ => false end.

Lemma validate_existence n cmds :
  all_exist (validateKeyExistence n cmds) = true <-> Forall (key_free n) (array_keys cmds).
Proof.
  unfold validateKeyExistence. rewrite foldl_concat_keys. fold (array_keys cmds).
  destruct (count_keys_spec n (array_keys cmds) 0 0 0) as (found & locked & -> & Hf & Hl & Hiff & _). rewrite <- Hiff.
  destruct (Z.ltb_spec 0 (0 + locked)); [cbn; split; [done|lia]|].
  destruct (Z.eqb_spec (0 + found) (0 + Z.of_nat (length (array_keys cmds)))); cbn [negb].
  - split; [lia|done].
  - destruct (_ =? 0); cbn; (split; [done|lia]).
Qed.

(** What is found out about the keys. *)
Lemma existence_all n cmds : Forall (key_free n) (array_keys cmds) -> validateKeyExistence n cmds = ALL_EXIST.
Proof. intros Hk%validate_existence. by destruct (validateKeyExistence n cmds). Qed.

Lemma existence_none n cmds : array_keys cmds <> [] ->
  Forall (fun k => KeyExists (nd_db n) k = false) (array_keys cmds) -> validateKeyExistence n cmds = NONE_EXIST.
Proof.
  intros Hne Hno. unfold validateKeyExistence. rewrite foldl_concat_keys. fold (array_keys cmds).
  destruct (count_keys_spec n (array_keys cmds) 0 0 0) as (found & locked & -> & Hf & Hl & _ & Hz). apply Hz in Hno as ->.
  assert (length (array_keys cmds) <> 0%nat) by (by destruct (array_keys cmds)).
  rewrite (proj2 (Z.ltb_ge _ _)), (proj2 (Z.eqb_neq _ _)) by lia. done.
Qed.

Lemma existence_some n cmds k : ~ Forall (key_free n) (array_keys cmds) -> k ∈ array_keys cmds ->
  KeyExists (nd_db n) k = true -> validateKeyExistence n cmds = SOME_EXIST \/ validateKeyExistence n cmds = LOCKED_EXIST.
Proof.
  intros Hna Hk Hex. unfold validateKeyExistence. rewrite foldl_concat_keys. fold (array_keys cmds).
  destruct (count_keys_spec n (array_keys cmds) 0 0 0) as (found & locked & -> & Hf & Hl & Hiff & Hz).
  rewrite <- Hiff in Hna.
  assert (found <> 0) as Hnz by (intros E%Hz; rewrite Forall_forall in E; specialize (E k Hk); congruence).
  destruct (Z.ltb_spec 0 (0 + locked)); [by right|]. left.
  rewrite (proj2 (Z.eqb_neq (0 + found) _)), (proj2 (Z.eqb_neq _ 0)) by lia. done.
Qed.

(** ** The decision *)

(** Whether commands may be executed, as a function of the groups, of whether the
    cluster is sharded, and of whether all their keys exist and none is locked. *)
Definition decision (G : gmap (list Z) ShardGroup) (is_sharding : bool) (keys_free : bool) (cmds : RaftRedisCommandArray) : Z :=
  if negb is_sharding then RR_OK else
  match HashSlotCompute cmds with
  | None => RR_ERROR
  | Some slot =>
      if slot =? -1 then RR_OK else
      match slot_owner G slot (ra_asking cmds) with
      | None => RR_ERROR
      | Some g =>
          let t := slot_type g slot in
          if (t =? SLOTRANGE_TYPE_UNDEF) || negb (sg_local g) then RR_ERROR
          else if ((t =? SLOTRANGE_TYPE_MIGRATING) || (t =? SLOTRANGE_TYPE_IMPORTING)) && negb keys_free then RR_ERROR
          else RR_OK
      end
  end.

Definition node_decision (n : node D) (cmds : RaftRedisCommandArray) : Z :=
  decision (groups (nd_rr n)) (si_is_sharding (rr_sharding_info (nd_rr n)))
    (all_exist (validateKeyExistence n cmds)) cmds.

(** The commands have changed at most counters of redirections. *)
Definition undecided (n n' : node D) : Prop :=
  nd_locked_keys n' = nd_locked_keys n /\ nd_db n' = nd_db n /\ wf (nd_rr n') /\ same (nd_rr n) (nd_rr n').

Lemma on_rr_run {A} (m : M RedisRaftCtx A) (n : node D) a : m (nd_rr n) = Done (a, nd_rr n) -> on_rr m n = Done (a, n).
Proof. intros E. unfold on_rr, zoom. rewrite E. by destruct n. Qed.

Lemma on_rr_inv {A} (m : M RedisRaftCtx A) (n n' : node D) a : on_rr m n = Done (a, n') ->
  exists r', m (nd_rr n) = Done (a, r') /\ nd_rr n' = r' /\ nd_locked_keys n' = nd_locked_keys n /\ nd_db n' = nd_db n.
Proof. intros (r' & E & ->)%zoom_done. by exists r'. Qed.

Lemma slot_type_static sg slot : slot_type (sg_static sg) slot = slot_type sg slot.
Proof. by destruct sg. Qed.

(** Counting redirections does not change what the table says. *)
Lemma next_redir_same r p v : wf r ->
  let r' := r <| rr_heap ::= alter (fun sg => sg <| sg_next_redir := v |>) p |> in wf r' /\ same r r'.
Proof.
  intros [H1 H2 H3 H4 H5 H6]. cbv zeta. set (F := fun sg => sg <| sg_next_redir := v |>).
  set (r' := r <| rr_heap ::= alter F p |>).
  assert (forall q, rr_heap r' !! q = (if decide (p = q) then F <$> rr_heap r !! q else rr_heap r !! q)) as Hh.
  { intros q. change (rr_heap r') with (alter F p (rr_heap r)). case_decide; [subst; apply lookup_alter_eq|by apply lookup_alter_ne]. }
  assert (forall q, sg_static <$> rr_heap r' !! q = sg_static <$> rr_heap r !! q) as Hst.
  { intros q. rewrite Hh. case_decide; [|done]. by destruct (rr_heap r !! q) as [[]|]. }
  assert (forall q sg, rr_heap r' !! q = Some sg -> exists sg0, rr_heap r !! q = Some sg0 /\ sg_static sg = sg_static sg0) as Hback.
  { intros q sg Hq. specialize (Hst q). rewrite Hq in Hst. symmetry in Hst. apply fmap_Some in Hst as (sg0 & ? & ?). by exists sg0. }
  assert (forall q sg, rr_heap r !! q = Some sg -> exists sg1, rr_heap r' !! q = Some sg1 /\ sg_static sg1 = sg_static sg) as Hforth.
  { intros q sg Hq. specialize (Hst q). rewrite Hq in Hst. apply fmap_Some in Hst as (sg1 & ? & ?). by exists sg1. }
  assert (forall sg sg0, sg_static sg = sg_static sg0 -> sg_id sg = sg_id sg0 /\ sg_slot_ranges sg = sg_slot_ranges sg0) as Hf.
  { intros sg sg0 E. split; [exact (f_equal sg_id E)|exact (f_equal sg_slot_ranges E)]. }
  split; [split|split]; try done.
  - intros id q Hq. destruct (H1 id q Hq) as (sg0 & Hsg0 & <-). destruct (Hforth q sg0 Hsg0) as (sg & ? & E). exists sg.
    split; [done|]. by apply Hf.
  - intros q sg Hq. destruct (Hback q sg Hq) as (sg0 & Hq0 & E). destruct (Hf _ _ E) as [-> _]. by apply H2.
  - intros q [sg Hq]. destruct (Hback q sg Hq) as (sg0 & Hq0 & _). by apply H4.
  - intros q sg Hq. destruct (Hback q sg Hq) as (sg0 & Hq0 & E). unfold valid_ranges, valid_types.
    destruct (Hf _ _ E) as [_ ->]. by apply (H5 q).
  - intros t j q Ht. change (slot_map (rr_sharding_info r) t !! j = Some q <-> exists sg, rr_heap r' !! q = Some sg /\ serves sg t j).
    rewrite (H6 t j q Ht). unfold serves. split.
    + intros (sg0 & Hq & Hs). destruct (Hforth q sg0 Hq) as (sg & ? & E). exists sg. destruct (Hf _ _ E) as [_ ->]. done.
    + intros (sg & Hq & Hs). destruct (Hback q sg Hq) as (sg0 & ? & E). exists sg0. destruct (Hf _ _ E) as [_ <-]. done.
  - apply map_eq. intros id. unfold groups. rewrite !lookup_omap.
    change (si_shard_group_map (rr_sharding_info r')) with (si_shard_group_map (rr_sharding_info r)).
    destruct (si_shard_group_map (rr_sharding_info r) !! id) as [q|]; [|done]. cbn. symmetry. apply Hst.
Qed.

Lemma redirect_inv r p slot reps r' : wf r -> redirect p slot r = Done (reps, r') -> wf r' /\ same r r'.
Proof.
  intros Hwf. unfold redirect. intros (sg & r1 & Ed & E)%bind_done.
  unfold deref in Ed. apply bind_done in Ed as (r2 & r3 & [= <- <-] & Ed).
  destruct (rr_heap r !! p) as [sg0|] eqn:Hp; [|done]. injection Ed as <- <-.
  destruct (sg_nodes_num sg0 =? 0); [done|]. cbv zeta in E.
  rewrite (bind_done_eq _ _ _ _ _ (update_group_run r p sg0 _ Hp)) in E.
  destruct (zlookup _ _); [|done]. injection E as _ <-. by apply next_redir_same.
Qed.

Lemma ask_inv r p slot reps r' : ask p slot r = Done (reps, r') -> r' = r.
Proof.
  unfold ask. intros (sg & r1 & Ed & E)%bind_done. unfold deref in Ed. apply bind_done in Ed as (r2 & r3 & [= <- <-] & Ed).
  destruct (rr_heap r !! p); [|done]. injection Ed as <- <-. destruct (zlookup _ _); [|done]. by injection E.
Qed.

Lemma undecided_refl n : wf (nd_rr n) -> undecided n n.
Proof. intros Hwf. by split_and!. Qed.

Lemma undecided_rr n n' r' : nd_rr n' = r' -> nd_locked_keys n' = nd_locked_keys n -> nd_db n' = nd_db n ->
  wf r' /\ same (nd_rr n) r' -> undecided n n'.
Proof. intros <- ? ? [? ?]. by split_and!. Qed.

(** The part of [decision] after the slot is known. *)
Definition slot_decision (n : node D) (cmds : RaftRedisCommandArray) (slot : Z) : Z :=
  match slot_owner (groups (nd_rr n)) slot (ra_asking cmds) with
  | None => RR_ERROR
  | Some g =>
      let t := slot_type g slot in
      if (t =? SLOTRANGE_TYPE_UNDEF) || negb (sg_local g) then RR_ERROR
      else if ((t =? SLOTRANGE_TYPE_MIGRATING) || (t =? SLOTRANGE_TYPE_IMPORTING)) &&
              negb (all_exist (validateKeyExistence n cmds)) then RR_ERROR
      else RR_OK
  end.

(** Without a client the commands are decided and nothing changes; with one, the
    decision is the same, if the server does not stop. *)
Lemma validate_commands ctx cmds slot n : wf (nd_rr n) -> slot < 16384 ->
  (ctx = false -> validateRaftRedisCommandArray ctx cmds slot n = Done ((slot_decision n cmds slot, []), n)) /\
  forall st reps n', validateRaftRedisCommandArray ctx cmds slot n = Done ((st, reps), n') ->
    st = slot_decision n cmds slot /\ undecided n n' /\ (st = RR_OK -> n' = n /\ reps = []).
Proof.
  intros Hwf Hslot. unfold validateRaftRedisCommandArray, slot_decision.
  assert (c_assert (slot <=? REDIS_RAFT_HASH_MAX_SLOT) n = Done (tt, n)) as Ec.
  { unfold c_assert, REDIS_RAFT_HASH_MAX_SLOT. by rewrite (proj2 (Z.leb_le _ _)) by lia. }
  rewrite (bind_done_eq _ _ _ _ _ Ec).
  destruct (get_slot_run (nd_rr n) slot (ra_asking cmds) Hwf) as (p & Ep & Hp).
  rewrite (bind_done_eq _ _ _ _ _ (on_rr_run _ n _ Ep)).
  pose proof (undecided_refl n Hwf) as Hrefl.
  destruct p as [p|], (slot_owner _ _ _) as [g|]; try done.
  2: { split; [by intros ->|]. intros st reps n' [= <- <- <-]. by split_and!. }
  destruct Hp as (sg & Hsg & ->). rewrite (bind_done_eq _ _ _ _ _ (on_rr_run _ n _ (deref_run _ p sg Hsg))). cbv zeta.
  rewrite slot_type_static. change (sg_local (sg_static sg)) with (sg_local sg).
  destruct (slot_type sg slot =? SLOTRANGE_TYPE_UNDEF); cbn [orb].
  { split; [by intros ->|]. intros st reps n' [= <- <- <-]. by split_and!. }
  destruct (sg_local sg); cbn [negb].
  2: { destruct ctx; (split; [done|]); intros st reps n' E.
       - apply bind_done in E as (reps' & n1 & (r' & Er & Hr & Hl & Hd)%on_rr_inv & [= <- <- <-]).
         split; [done|]. split; [|done]. eapply undecided_rr; [exact Hr|done|done|]. by eapply redirect_inv.
       - injection E as <- <- <-. by split_and!. }
  rewrite (bind_done_eq get _ n n n) by done.
  destruct (slot_type sg slot =? SLOTRANGE_TYPE_MIGRATING); cbn [orb andb].
  - destruct (validateKeyExistence n cmds); cbn [all_exist negb];
      try (split; [by intros ->|]; intros st reps n' [= <- <- <-]; by split_and!).
    destruct ctx; (split; [done|]); intros st reps n' E; [|injection E as <- <- <-; by split_and!].
    destruct (si_importing_slots_map _ !! slot) as [isg|]; [|injection E as <- <- <-; by split_and!].
    apply bind_done in E as (reps' & n1 & (r' & Er & Hr & Hl & Hd)%on_rr_inv & [= <- <- <-]).
    split; [done|]. split; [|done]. eapply undecided_rr; [exact Hr|done|done|].
    apply ask_inv in Er as ->. by split.
  - destruct (slot_type sg slot =? SLOTRANGE_TYPE_IMPORTING); cbn [andb];
      [destruct (validateKeyExistence n cmds); cbn [all_exist negb]|];
      (split; [by intros ->|]; intros st reps n' [= <- <- <-]; by split_and!).
Qed.

Lemma handle_sharding_run (n : node D) (cmds : RaftRedisCommandArray) :
  wf (nd_rr n) ->
  handleSharding false cmds n = Done ((node_decision n cmds, []), n) /\
  forall st reps n', handleSharding true cmds n = Done ((st, reps), n') ->
    st = node_decision n cmds /\ undecided n n' /\ (st = RR_OK -> n' = n /\ reps = []).
Proof.
  intros Hwf. unfold handleSharding, node_decision, decision. pose proof (undecided_refl n Hwf) as Hrefl.
  rewrite !(bind_done_eq get _ n n n) by done.
  destruct (si_is_sharding _); cbn [negb]; [|split; [done|]; intros st reps n' [= <- <- <-]; by split_and!].
  destruct (HashSlotCompute cmds) as [slot|] eqn:Eslot; [|split; [done|]; intros st reps n' [= <- <- <-]; by split_and!].
  destruct (slot =? -1); [split; [done|]; intros st reps n' [= <- <- <-]; by split_and!|].
  destruct (hash_slot_spec cmds slot Eslot) as (_ & _ & Hs). split.
  - by apply (validate_commands false cmds slot n Hwf ltac:(lia)).
  - by apply (validate_commands true cmds slot n Hwf ltac:(lia)).
Qed.

(** ** What is to be decided *)

(** The type of the first range of the group that has the slot. *)
Definition range_type (g : ShardGroup) (slot t : Z) : Prop :=
  exists i sr, sg_slot_ranges g !! i = Some sr /\ sr_start_slot sr <= slot <= sr_end_slot sr /\ sr_type sr = t /\
    forall j sr', (j < i)%nat -> sg_slot_ranges g !! j = Some sr' -> ~ (sr_start_slot sr' <= slot <= sr_end_slot sr').

Inductive ruling := Run | Refuse (r : reply) | Moved (slot : Z) (g : ShardGroup) | AskOther (slot : Z) (g : ShardGroup).

Section Rulings.
Context (n : node D) (cmds : RaftRedisCommandArray).

#[local] Abbreviation G := (groups (nd_rr n)).

(** The cluster is sharded, and the commands have keys, all of them in the slot. *)
Definition keys_at (slot : Z) : Prop :=
  si_is_sharding (rr_sharding_info (nd_rr n)) = true /\ array_keys cmds <> [] /\
  Forall (fun k => keyHashSlot k = slot) (array_keys cmds).

(** The slot belongs to a group that is our own, as a slot of this type. *)
Definition ours (slot : Z) (t : Z) : Prop :=
  exists g, slot_owner G slot (ra_asking cmds) = Some g /\ sg_local g = true /\ range_type g slot t.

(** Commands run on a cluster that is not sharded, or without keys, or where their
    slot is stable; where it moves, only if all the keys are there and none is
    locked. *)
Inductive ruled : ruling -> Prop :=
| ruled_unsharded : si_is_sharding (rr_sharding_info (nd_rr n)) = false -> ruled Run
| ruled_keyless : array_keys cmds = [] -> ruled Run
| ruled_cross k k' : si_is_sharding (rr_sharding_info (nd_rr n)) = true -> k ∈ array_keys cmds -> k' ∈ array_keys cmds ->
    keyHashSlot k <> keyHashSlot k' -> ruled (Refuse (error "CROSSSLOT Keys in request don't hash to the same slot"))
| ruled_unserved slot : keys_at slot -> slot_owner G slot (ra_asking cmds) = None ->
    ruled (Refuse (error "CLUSTERDOWN Hash slot is not served"))
| ruled_moved slot g : keys_at slot -> slot_owner G slot (ra_asking cmds) = Some g -> sg_local g = false ->
    ruled (Moved slot g)
| ruled_stable slot : keys_at slot -> ours slot SLOTRANGE_TYPE_STABLE -> ruled Run
| ruled_there slot t : keys_at slot -> ours slot t -> Forall (key_free n) (array_keys cmds) -> ruled Run
| ruled_retry_import slot : keys_at slot -> ours slot SLOTRANGE_TYPE_IMPORTING -> ~ Forall (key_free n) (array_keys cmds) ->
    ruled (Refuse (error "TRYAGAIN"))
| ruled_retry slot k : keys_at slot -> ours slot SLOTRANGE_TYPE_MIGRATING -> ~ Forall (key_free n) (array_keys cmds) ->
    k ∈ array_keys cmds -> KeyExists (nd_db n) k = true -> ruled (Refuse (error "TRYAGAIN"))
| ruled_ask slot g : keys_at slot -> ours slot SLOTRANGE_TYPE_MIGRATING ->
    Forall (fun k => KeyExists (nd_db n) k = false) (array_keys cmds) ->
    server G SLOTRANGE_TYPE_IMPORTING slot = Some g -> ruled (AskOther slot g)
| ruled_lost slot : keys_at slot -> ours slot SLOTRANGE_TYPE_MIGRATING ->
    Forall (fun k => KeyExists (nd_db n) k = false) (array_keys cmds) ->
    server G SLOTRANGE_TYPE_IMPORTING slot = None -> ruled (Refuse (error "ERR no importing shard group to ask")).

End Rulings.

Definition ruling_code (x : ruling) : Z := match x with Run => RR_OK | _ => RR_ERROR end.

(** On the server with the client: what the client is told, to go to some node of
    the group, or to ask its first.  It stops if there is none. *)
Definition client_told (n : node D) (cmds : RaftRedisCommandArray) (x : ruling) : Prop :=
  match x with
  | Run => handleSharding true cmds n = Done ((RR_OK, []), n)
  | Refuse r => handleSharding true cmds n = Done ((RR_ERROR, [r]), n)
  | Moved slot g =>
      (sg_nodes g <> [] -> sg_nodes_num g = Z.of_nat (length (sg_nodes g)) ->
       exists out, handleSharding true cmds n = Done out) /\
      forall st reps n', handleSharding true cmds n = Done ((st, reps), n') ->
        st = RR_ERROR /\ undecided n n' /\
        exists nd, nd ∈ sg_nodes g /\ reps = [ReplyError (replyRedirect slot (sgn_addr nd))]
  | AskOther slot g =>
      handleSharding true cmds n =
        match sg_nodes g with
        | nd :: _ => Done ((RR_ERROR, [ReplyError (replyAsk slot (sgn_addr nd))]), n)
        | [] => Abort
        end
  end.

(** How [handleSharding] follows a ruling. *)
Definition carries_out (n : node D) (cmds : RaftRedisCommandArray) (x : ruling) : Prop :=
  handleSharding false cmds n = Done ((ruling_code x, []), n) /\ client_told n cmds x.

Lemma keys_at_slot n cmds slot : keys_at n cmds slot ->
  HashSlotCompute cmds = Some slot /\ 0 <= slot < 16384.
Proof.
  intros (_ & Hne & Hall). unfold HashSlotCompute. rewrite commands_slot_keys. fold (array_keys cmds).
  destruct (array_keys cmds) as [|k keys]; [done|]. apply Forall_cons in Hall as [Hk Hall].
  pose proof (key_slot_range k) as Hr. rewrite Hk in Hr. split; [|done].
  cbn [keys_slot]. change (-1 =? -1) with true. cbn match. rewrite Hk.
  induction Hall as [|k' keys Hk' _ IH]; [done|]. cbn [keys_slot].
  rewrite (proj2 (Z.eqb_neq slot (-1))) by lia. rewrite Hk', Z.eqb_refl. apply IH. done.
Qed.

Lemma slot_type_range g slot t : range_type g slot t -> slot_type g slot = t.
Proof.
  intros (i & sr & Hi & Hin & Ht & Hbefore). unfold slot_type.
  rewrite (proj2 (list_find_Some _ _ i sr)); [done|]. split; [done|]. split; [done|]. intros j y Hj Hlt. by apply (Hbefore j).
Qed.

Lemma range_type_slot g slot : slot_type g slot <> SLOTRANGE_TYPE_UNDEF -> range_type g slot (slot_type g slot).
Proof.
  unfold slot_type. destruct (list_find _ _) as [[i sr]|] eqn:E; [|done]. intros _.
  apply list_find_Some in E as (Hi & Hin & Hbefore). exists i, sr. split; [done|]. split; [done|]. split; [done|].
  intros j sr' Hj Hsr'. by apply (Hbefore j sr').
Qed.

Lemma serves_range_type g slot t : serves g t slot -> exists t', range_type g slot t' /\ serves g t' slot.
Proof.
  intros (sr & [i Hi]%list_elem_of_lookup_1 & Ht & Hin)%Exists_exists.
  destruct (list_find (fun sr => sr_start_slot sr <= slot <= sr_end_slot sr) (sg_slot_ranges g)) as [[j sr']|] eqn:E.
  - apply list_find_Some in E as (Hj & Hin' & Hbefore). exists (sr_type sr'). split.
    + exists j, sr'. split; [done|]. split; [done|]. split; [done|]. intros k y Hk Hy. by apply (Hbefore k).
    + apply Exists_exists. exists sr'. split; [by eapply list_elem_of_lookup_2|done].
  - apply list_find_None in E. rewrite Forall_forall in E. exfalso. apply (E sr); [by eapply list_elem_of_lookup_2|done].
Qed.

Lemma range_type_serves g slot t : range_type g slot t -> serves g t slot.
Proof.
  intros (i & sr & Hi & Hin & Ht & _). apply Exists_exists. exists sr. split; [by eapply list_elem_of_lookup_2|done].
Qed.

(** Who owns a slot has it in a range. *)
Lemma slot_owner_range r slot asking g : wf r -> slot_owner (groups r) slot asking = Some g ->
  (exists id, groups r !! id = Some g) /\ exists t, range_type g slot t /\ SlotRangeTypeValid t = true.
Proof.
  intros Hwf Ho.
  assert (exists t, server (groups r) t slot = Some g) as (t & [Hs Hg]%server_some).
  { unfold slot_owner in Ho. destruct (server _ SLOTRANGE_TYPE_STABLE slot) eqn:Es; [injection Ho as ->; eauto|].
    destruct (local_opt (server _ SLOTRANGE_TYPE_MIGRATING slot)); [eauto|].
    destruct (asking && _); eauto. }
  split; [done|]. destruct Hg as [id Hg]. destruct (serves_range_type g slot t Hs) as (t' & Ht' & Hs'). exists t'. split; [done|].
  eapply serves_valid; [|exact Hs']. by apply (groups_valid r id).
Qed.

Section Following.
Context (n : node D) (cmds : RaftRedisCommandArray) (Hwf : wf (nd_rr n)).

#[local] Abbreviation G := (groups (nd_rr n)).

Lemma sharding_unsharded ctx : si_is_sharding (rr_sharding_info (nd_rr n)) = false ->
  handleSharding ctx cmds n = Done ((RR_OK, []), n).
Proof. intros E. unfold handleSharding. rewrite (bind_done_eq get _ n n n) by done. by rewrite E. Qed.

Lemma sharding_keyless ctx : array_keys cmds = [] -> handleSharding ctx cmds n = Done ((RR_OK, []), n).
Proof.
  intros E. unfold handleSharding. rewrite (bind_done_eq get _ n n n) by done. destruct (si_is_sharding _); [|done].
  unfold HashSlotCompute. rewrite commands_slot_keys. fold (array_keys cmds). by rewrite E.
Qed.

Lemma sharding_cross ctx k k' : si_is_sharding (rr_sharding_info (nd_rr n)) = true ->
  k ∈ array_keys cmds -> k' ∈ array_keys cmds -> keyHashSlot k <> keyHashSlot k' ->
  handleSharding ctx cmds n = Done ((RR_ERROR, answer ctx cross_slot), n).
Proof.
  intros Hsh Hk Hk' Hne. unfold handleSharding. rewrite (bind_done_eq get _ n n n) by done. rewrite Hsh. cbn [negb].
  destruct (HashSlotCompute cmds) as [slot|] eqn:E; [|done]. destruct (hash_slot_spec cmds slot E) as (Hall & _).
  rewrite Forall_forall in Hall. by rewrite (Hall k Hk), (Hall k' Hk') in Hne.
Qed.

Lemma sharding_at ctx slot : keys_at n cmds slot ->
  handleSharding ctx cmds n = validateRaftRedisCommandArray ctx cmds slot n.
Proof.
  intros Hk. destruct (keys_at_slot n cmds slot Hk) as [E Hs]. destruct Hk as [Hsh _].
  unfold handleSharding. rewrite (bind_done_eq get _ n n n) by done. rewrite Hsh, E. cbn [negb].
  by rewrite (proj2 (Z.eqb_neq slot (-1))) by lia.
Qed.

Lemma validate_assert slot : slot < 16384 -> c_assert (slot <=? REDIS_RAFT_HASH_MAX_SLOT) n = Done (tt, n).
Proof. intros Hs. unfold c_assert, REDIS_RAFT_HASH_MAX_SLOT. by rewrite (proj2 (Z.leb_le _ _)) by lia. Qed.

Lemma sharding_unserved ctx slot : keys_at n cmds slot -> slot_owner G slot (ra_asking cmds) = None ->
  handleSharding ctx cmds n = Done (fail_with ctx (error "CLUSTERDOWN Hash slot is not served"), n).
Proof.
  intros Hk Ho. rewrite (sharding_at ctx slot Hk). destruct (keys_at_slot n cmds slot Hk) as [_ Hs].
  unfold validateRaftRedisCommandArray. rewrite (bind_done_eq _ _ _ _ _ (validate_assert slot ltac:(lia))).
  destruct (get_slot_run (nd_rr n) slot (ra_asking cmds) Hwf) as (p & Ep & Hp).
  rewrite (bind_done_eq _ _ _ _ _ (on_rr_run _ n _ Ep)). rewrite Ho in Hp. by destruct p.
Qed.

(** What is left to do once the group and the type are known. *)
Lemma sharding_group ctx slot g t : keys_at n cmds slot -> slot_owner G slot (ra_asking cmds) = Some g -> range_type g slot t ->
  exists p sg, rr_heap (nd_rr n) !! p = Some sg /\ g = sg_static sg /\
    handleSharding ctx cmds n =
    (if negb (sg_local g) then
       (if ctx then reps <- on_rr (redirect p slot) ;; ret (RR_ERROR, reps) else ret (RR_ERROR, []))
     else
      if t =? SLOTRANGE_TYPE_MIGRATING then
        match validateKeyExistence n cmds with
        | SOME_EXIST | LOCKED_EXIST => ret (fail_with ctx (error "TRYAGAIN"))
        | NONE_EXIST =>
            if ctx then
              match si_importing_slots_map (rr_sharding_info (nd_rr n)) !! slot with
              | Some isg => reps <- on_rr (ask isg slot) ;; ret (RR_ERROR, reps)
              | None => ret (fail_with true (error "ERR no importing shard group to ask"))
              end
            else ret (RR_ERROR, [])
        | ALL_EXIST => ret (RR_OK, [])
        end
      else if t =? SLOTRANGE_TYPE_IMPORTING then
        match validateKeyExistence n cmds with
        | ALL_EXIST => ret (RR_OK, [])
        | _ => ret (fail_with ctx (error "TRYAGAIN"))
        end
      else ret (RR_OK, [])) n.
Proof.
  intros Hk Ho Ht. rewrite (sharding_at ctx slot Hk). destruct (keys_at_slot n cmds slot Hk) as [_ Hs].
  destruct (slot_owner_range (nd_rr n) slot _ g Hwf Ho) as (_ & t' & Ht' & Hv).
  assert (t' = t) as -> by (rewrite <- (slot_type_range _ _ _ Ht); symmetry; by apply slot_type_range).
  unfold validateRaftRedisCommandArray. rewrite (bind_done_eq _ _ _ _ _ (validate_assert slot ltac:(lia))).
  destruct (get_slot_run (nd_rr n) slot (ra_asking cmds) Hwf) as (p & Ep & Hp).
  rewrite (bind_done_eq _ _ _ _ _ (on_rr_run _ n _ Ep)). rewrite Ho in Hp. destruct p as [p|]; [|done].
  destruct Hp as (sg & Hsg & ->). exists p, sg. split_and!; [done..|].
  rewrite (bind_done_eq _ _ _ _ _ (on_rr_run _ n _ (deref_run _ p sg Hsg))). cbv zeta.
  rewrite <- slot_type_static, (slot_type_range _ _ _ Ht). change (sg_local (sg_static sg)) with (sg_local sg).
  assert ((t =? SLOTRANGE_TYPE_UNDEF) = false) as ->.
  { destruct (type_cases t Hv) as [->|[->| ->]]; done. }
  destruct (sg_local sg); cbn [negb]; [|done]. by rewrite (bind_done_eq get _ n n n) by done.
Qed.

Lemma sharding_ours ctx slot t : keys_at n cmds slot -> ours n cmds slot t ->
  handleSharding ctx cmds n =
    (if t =? SLOTRANGE_TYPE_MIGRATING then
       match validateKeyExistence n cmds with
       | SOME_EXIST | LOCKED_EXIST => ret (fail_with ctx (error "TRYAGAIN"))
       | NONE_EXIST =>
           if ctx then
             match si_importing_slots_map (rr_sharding_info (nd_rr n)) !! slot with
             | Some isg => reps <- on_rr (ask isg slot) ;; ret (RR_ERROR, reps)
             | None => ret (fail_with true (error "ERR no importing shard group to ask"))
             end
           else ret (RR_ERROR, [])
       | ALL_EXIST => ret (RR_OK, [])
       end
     else if t =? SLOTRANGE_TYPE_IMPORTING then
       match validateKeyExistence n cmds with
       | ALL_EXIST => ret (RR_OK, [])
       | _ => ret (fail_with ctx (error "TRYAGAIN"))
       end
     else ret (RR_OK, [])) n.
Proof.
  intros Hk (g & Ho & Hl & Ht). destruct (sharding_group ctx slot g t Hk Ho Ht) as (p & sg & _ & _ & ->).
  by rewrite Hl.
Qed.

Lemma refuse_carried r : (forall ctx, handleSharding ctx cmds n = Done ((RR_ERROR, answer ctx r), n)) -> carries_out n cmds (Refuse r).
Proof. intros Hr. split; [apply (Hr false)|apply (Hr true)]. Qed.

Lemma run_carried : (forall ctx, handleSharding ctx cmds n = Done ((RR_OK, []), n)) -> carries_out n cmds Run.
Proof. intros Hr. split; [apply (Hr false)|apply (Hr true)]. Qed.

Lemma moved_carried slot g : keys_at n cmds slot -> slot_owner G slot (ra_asking cmds) = Some g -> sg_local g = false ->
  carries_out n cmds (Moved slot g).
Proof.
  intros Hk Ho Hl. destruct (slot_owner_range (nd_rr n) slot _ g Hwf Ho) as (_ & t & Ht & _). split.
  - destruct (sharding_group false slot g t Hk Ho Ht) as (p & sg & _ & _ & ->). by rewrite Hl.
  - destruct (sharding_group true slot g t Hk Ho Ht) as (p & sg & Hsg & Hst & E). rewrite Hl in E. cbn [negb] in E.
    assert (sg_nodes g = sg_nodes sg) as Hnd by (subst g; by destruct (static_fields sg) as (_ & _ & -> & _)).
    assert (sg_nodes_num g = sg_nodes_num sg) as Hnn by (subst g; by destruct sg).
    cbn [client_told]. rewrite E, Hnd, Hnn. split.
    + intros Hne Hnum. assert (length (sg_nodes sg) <> 0%nat) by (by destruct (sg_nodes sg)).
      unfold on_rr, zoom, bind at 1, redirect. rewrite (bind_done_eq _ _ _ _ _ (deref_run _ p sg Hsg)).
      rewrite (proj2 (Z.eqb_neq _ _)) by lia. cbv zeta.
      rewrite (bind_done_eq _ _ _ _ _ (update_group_run (nd_rr n) p sg _ Hsg)).
      destruct (zlookup_lt_is_Some (sg_nodes sg) (u32 (sg_next_redir sg + 1) mod sg_nodes_num sg)) as [nd ->].
      { rewrite <- Hnum. apply Z.mod_pos_bound. lia. }
      by eexists.
    + intros st reps n' (reps' & n1 & (r' & Er & Hr & Hlk & Hd)%on_rr_inv & [= <- <- <-])%bind_done. split; [done|]. split.
      * eapply undecided_rr; [exact Hr|done|done|]. by eapply redirect_inv.
      * unfold redirect in Er. rewrite (bind_done_eq _ _ _ _ _ (deref_run _ p sg Hsg)) in Er.
        destruct (sg_nodes_num sg =? 0); [done|]. cbv zeta in Er.
        rewrite (bind_done_eq _ _ _ _ _ (update_group_run (nd_rr n) p sg _ Hsg)) in Er.
        destruct (zlookup (sg_nodes sg) _) as [nd|] eqn:En; [|done]. injection Er as <- _.
        exists nd. split; [|done]. unfold zlookup in En. case_match; [done|]. by eapply list_elem_of_lookup_2.
Qed.

Lemma ask_carried slot g : keys_at n cmds slot -> ours n cmds slot SLOTRANGE_TYPE_MIGRATING ->
  Forall (fun k => KeyExists (nd_db n) k = false) (array_keys cmds) ->
  server G SLOTRANGE_TYPE_IMPORTING slot = Some g -> carries_out n cmds (AskOther slot g).
Proof.
  intros Hk Ho Hno Hs. assert (array_keys cmds <> []) as Hne by apply Hk.
  pose proof (fun ctx => sharding_ours ctx slot _ Hk Ho) as Hrun. rewrite (existence_none n cmds Hne Hno) in Hrun. split.
  - by rewrite Hrun.
  - cbn [client_told]. rewrite Hrun. cbn [Z.eqb Pos.eqb SLOTRANGE_TYPE_MIGRATING].
    pose proof (slot_map_points (nd_rr n) SLOTRANGE_TYPE_IMPORTING slot Hwf eq_refl) as Hp. rewrite Hs in Hp.
    unfold slot_map in Hp. cbn [Z.eqb Pos.eqb SLOTRANGE_TYPE_STABLE SLOTRANGE_TYPE_MIGRATING SLOTRANGE_TYPE_IMPORTING] in Hp.
    destruct (si_importing_slots_map _ !! slot) as [isg|]; [|done]. destruct Hp as (sg & Hsg & ->).
    destruct (static_fields sg) as (_ & _ & -> & _).
    assert (ask isg slot (nd_rr n) = match sg_nodes sg with
      | nd :: _ => Done ([ReplyError (replyAsk slot (sgn_addr nd))], nd_rr n) | [] => Abort end) as Ea.
    { unfold ask. rewrite (bind_done_eq _ _ _ _ _ (deref_run _ isg sg Hsg)). by destruct (sg_nodes sg). }
    unfold bind, on_rr, zoom. rewrite Ea. destruct (sg_nodes sg); [done|]. by destruct n.
Qed.

Lemma lost_carried slot : keys_at n cmds slot -> ours n cmds slot SLOTRANGE_TYPE_MIGRATING ->
  Forall (fun k => KeyExists (nd_db n) k = false) (array_keys cmds) ->
  server G SLOTRANGE_TYPE_IMPORTING slot = None -> carries_out n cmds (Refuse (error "ERR no importing shard group to ask")).
Proof.
  intros Hk Ho Hno Hs. assert (array_keys cmds <> []) as Hne by apply Hk. apply refuse_carried. intros ctx.
  rewrite (sharding_ours ctx slot _ Hk Ho), (existence_none n cmds Hne Hno). cbn [Z.eqb Pos.eqb SLOTRANGE_TYPE_MIGRATING].
  pose proof (slot_map_points (nd_rr n) SLOTRANGE_TYPE_IMPORTING slot Hwf eq_refl) as Hp. rewrite Hs in Hp.
  unfold slot_map in Hp. cbn [Z.eqb Pos.eqb SLOTRANGE_TYPE_STABLE SLOTRANGE_TYPE_MIGRATING SLOTRANGE_TYPE_IMPORTING] in Hp.
  destruct (si_importing_slots_map _ !! slot) as [isg|]; [done|]. by destruct ctx.
Qed.

Lemma ruled_carried x : ruled n cmds x -> carries_out n cmds x.
Proof.
  destruct 1 as [Hsh|Hno|k k' Hsh Hk Hk' Hne|slot Hk Ho|slot g Hk Ho Hl|slot Hk Ho|slot t Hk Ho Hall|slot Hk Ho Hall|slot k Hk Ho Hall Hin Hex|slot g Hk Ho Hno Hs|slot Hk Ho Hno Hs].
  - apply run_carried. intros ctx. by apply sharding_unsharded.
  - apply run_carried. intros ctx. by apply sharding_keyless.
  - apply refuse_carried. intros ctx. by apply (sharding_cross ctx k k').
  - apply refuse_carried. intros ctx. by apply (sharding_unserved ctx slot).
  - by apply moved_carried.
  - apply run_carried. intros ctx. by rewrite (sharding_ours ctx slot _ Hk Ho).
  - apply run_carried. intros ctx. rewrite (sharding_ours ctx slot _ Hk Ho), existence_all by done.
    by destruct (t =? SLOTRANGE_TYPE_MIGRATING), (t =? SLOTRANGE_TYPE_IMPORTING).
  - apply refuse_carried. intros ctx. rewrite (sharding_ours ctx slot _ Hk Ho). cbn [Z.eqb Pos.eqb SLOTRANGE_TYPE_MIGRATING SLOTRANGE_TYPE_IMPORTING].
    destruct (validateKeyExistence n cmds) eqn:E; try done. exfalso. apply Hall, validate_existence. by rewrite E.
  - apply refuse_carried. intros ctx. rewrite (sharding_ours ctx slot _ Hk Ho). cbn [Z.eqb Pos.eqb SLOTRANGE_TYPE_MIGRATING].
    by destruct (existence_some n cmds k Hall Hin Hex) as [-> | ->].
  - by apply ask_carried.
  - by apply (lost_carried slot).
Qed.

(** There is a ruling. *)
Lemma ruled_total : exists x, ruled n cmds x.
Proof.
  destruct (si_is_sharding (rr_sharding_info (nd_rr n))) eqn:Hsh; [|by eexists; apply ruled_unsharded].
  destruct (decide (array_keys cmds = [])) as [|Hne]; [eexists; by apply ruled_keyless|].
  destruct (array_keys cmds) as [|k0 keys] eqn:Ek; [done|]. rewrite <- Ek in Hne.
  destruct (decide (Forall (fun k => keyHashSlot k = keyHashSlot k0) (array_keys cmds))) as [Hall|Hnot].
  2: { apply not_Forall_Exists in Hnot; [|intros ?; apply _]. apply Exists_exists in Hnot as (k & Hk & Hd).
       eexists. apply (ruled_cross n cmds k k0); [done|done|rewrite Ek; by left|done]. }
  set (slot := keyHashSlot k0) in *. assert (keys_at n cmds slot) as Hk by done.
  destruct (slot_owner G slot (ra_asking cmds)) as [g|] eqn:Ho; [|eexists; by eapply ruled_unserved].
  destruct (sg_local g) eqn:Hl; [|eexists; by eapply ruled_moved].
  destruct (slot_owner_range (nd_rr n) slot _ g Hwf Ho) as (_ & t & Ht & Hv).
  assert (ours n cmds slot t) as Hours by (by exists g).
  destruct (decide (Forall (key_free n) (array_keys cmds))) as [Hfree|Hfree]; [eexists; by eapply ruled_there|].
  destruct (type_cases t Hv) as [->|[->| ->]].
  - eexists. by eapply ruled_stable.
  - eexists. by eapply ruled_retry_import.
  - destruct (decide (Exists (fun k => KeyExists (nd_db n) k = true) (array_keys cmds))) as [(k & Hin & Hex)%Exists_exists|Hno].
    { eexists. by eapply ruled_retry. }
    assert (Forall (fun k => KeyExists (nd_db n) k = false) (array_keys cmds)) as Hnone.
    { apply Forall_forall. intros k Hin. apply not_true_iff_false. intros Hex. apply Hno, Exists_exists. eauto. }
    destruct (server G SLOTRANGE_TYPE_IMPORTING slot) eqn:Es; eexists; [by eapply ruled_ask|by eapply ruled_lost].
Qed.

End Following.

(** C38 (refinement). [handleSharding] decides as [ruled] says, from the groups of the
    table, from whether the cluster counts as sharded, from the slots of the keys of
    all the commands, and from whether the keys exist and are locked: on a server
    without the client, always, and without any change or reply; on the server with
    the client in the same way, with the reply that goes with the ruling and with no
    change but that of a counter of redirections.  Only a server that is to name a
    node of a group that has none stops.  There is a ruling for all commands, so that
    all servers whose tables and keys say the same execute the same commands. *)
Theorem commands_decided (n : node D) (cmds : RaftRedisCommandArray) :
  wf (nd_rr n) ->
  (exists x, ruled n cmds x) /\
  forall x, ruled n cmds x ->
    handleSharding false cmds n = Done ((ruling_code x, []), n) /\ client_told n cmds x.
Proof. intros Hwf. split; [by apply ruled_total|]. intros x Hx. by apply ruled_carried. Qed.

Lemma slot_type_serves g slot : slot_type g slot <> SLOTRANGE_TYPE_UNDEF -> serves g (slot_type g slot) slot.
Proof.
  unfold slot_type. destruct (list_find _ _) as [[i sr]|] eqn:E; [|done]. intros _.
  apply list_find_Some in E as (Hin & Hsr & _). apply Exists_exists. exists sr.
  split; [by eapply list_elem_of_lookup_2|]. done.
Qed.

Lemma slot_owner_serves G slot asking g : slot_owner G slot asking = Some g -> sg_local g = true ->
  (exists id, G !! id = Some g) /\
  (serves g SLOTRANGE_TYPE_STABLE slot \/
   server G SLOTRANGE_TYPE_STABLE slot = None /\
   (serves g SLOTRANGE_TYPE_MIGRATING slot \/ asking = true /\ serves g SLOTRANGE_TYPE_IMPORTING slot)).
Proof.
  unfold slot_owner. intros E Hl. destruct (server G SLOTRANGE_TYPE_STABLE slot) as [gs|] eqn:Es.
  { injection E as ->. destruct (server_some _ _ _ _ Es). tauto. }
  destruct (server G SLOTRANGE_TYPE_MIGRATING slot) as [gm|] eqn:Em;
    destruct (server G SLOTRANGE_TYPE_IMPORTING slot) as [gi|] eqn:Ei; cbn [local_opt] in E.
  - destruct (sg_local gm) eqn:Hm.
    { injection E as ->. destruct (server_some _ _ _ _ Em). tauto. }
    destruct asking; cbn [andb] in E; [|congruence]. destruct (sg_local gi); [|congruence]. injection E as ->.
    destruct (server_some _ _ _ _ Ei). tauto.
  - rewrite andb_false_r in E. destruct (sg_local gm); injection E as ->; destruct (server_some _ _ _ _ Em); tauto.
  - destruct asking; cbn [andb] in E; [|done]. destruct (sg_local gi); [|done]. injection E as ->.
    destruct (server_some _ _ _ _ Ei). tauto.
  - by rewrite andb_false_r in E.
Qed.

Lemma decision_ok G free cmds :
  (forall id g, G !! id = Some g -> valid_types g) -> array_keys cmds <> [] -> decision G true free cmds = RR_OK ->
  exists slot id g, Forall (fun k => keyHashSlot k = slot) (array_keys cmds) /\ G !! id = Some g /\ sg_local g = true /\
    (serves g SLOTRANGE_TYPE_STABLE slot \/
     (serves g SLOTRANGE_TYPE_MIGRATING slot \/ ra_asking cmds = true /\ serves g SLOTRANGE_TYPE_IMPORTING slot) /\
     free = true).
Proof.
  intros Hval Hkeys. unfold decision. cbn [negb]. destruct (HashSlotCompute cmds) as [slot|] eqn:Eslot; [|done].
  destruct (hash_slot_spec cmds slot Eslot) as (Hall & Hne & _). specialize (Hne Hkeys).
  destruct (Z.eqb_spec slot (-1)); [done|]. destruct (slot_owner G slot (ra_asking cmds)) as [g|] eqn:Eo; [|done].
  cbv zeta. destruct (Z.eqb_spec (slot_type g slot) SLOTRANGE_TYPE_UNDEF) as [|Hu]; [done|]. cbn [orb].
  destruct (sg_local g) eqn:Hl; [|done]. cbn [negb].
  destruct (slot_owner_serves _ _ _ _ Eo Hl) as [[id Hg] Hs]. intros Hd. exists slot, id, g. split_and!; try done.
  destruct Hs as [Hs|[Hnone Hs]]; [by left|right]. split; [exact Hs|].
  pose proof (slot_type_serves g slot Hu) as Hsv.
  destruct (type_cases _ (serves_valid g _ slot (Hval id g Hg) Hsv)) as [Ht|[Ht|Ht]]; rewrite Ht in Hd, Hsv.
  - by destruct (proj1 (server_none _ _ _) Hnone id g Hg).
  - by destruct free.
  - by destruct free.
Qed.

(** (safety). On a server whose cluster is sharded, commands with keys are
    executed only if all their keys are in one slot, and a shard group of the
    table that is our own has that slot: as stable, or, when every key of the
    commands exists and none is locked, as migrating, or as importing if the
    commands were preceded by ASKING. *)
Theorem keyed_commands_guarded (ctx : bool) (n n' : node D) (cmds : RaftRedisCommandArray) reps :
  wf (nd_rr n) -> si_is_sharding (rr_sharding_info (nd_rr n)) = true -> array_keys cmds <> [] ->
  handleSharding ctx cmds n = Done ((RR_OK, reps), n') ->
  n' = n /\ reps = [] /\
  exists slot id g, Forall (fun k => keyHashSlot k = slot) (array_keys cmds) /\
    groups (nd_rr n) !! id = Some g /\ sg_local g = true /\
    (serves g SLOTRANGE_TYPE_STABLE slot \/
     (serves g SLOTRANGE_TYPE_MIGRATING slot \/ ra_asking cmds = true /\ serves g SLOTRANGE_TYPE_IMPORTING slot) /\
     Forall (key_free n) (array_keys cmds)).
Proof.
  intros Hwf Hsh Hkeys E. destruct (handle_sharding_run n cmds Hwf) as [Hf Ht].
  assert (node_decision n cmds = RR_OK /\ n' = n /\ reps = []) as (Hd & -> & ->).
  { destruct ctx; [|rewrite Hf in E; by injection E as -> <- <-].
    destruct (Ht _ _ _ E) as (<- & _ & Hok). by split; [|apply Hok]. }
  split_and!; [done..|]. unfold node_decision in Hd. rewrite Hsh in Hd.
  destruct (decision_ok _ _ _ (fun id g H => proj2 (groups_valid (nd_rr n) id g Hwf H)) Hkeys Hd)
    as (slot & id & g & ? & ? & ? & Hs).
  exists slot, id, g. split_and!; try done. by rewrite validate_existence in Hs.
Qed.

(** ** A server that has loaded a snapshot *)

Lemma plain_singleton G : is_plain G = true -> exists id g, G = {[id := g]} /\ sg_local g = true.
Proof.
  unfold is_plain. destruct (map_to_list G) as [|[id g] [|]] eqn:E; try done. intros Hc. exists id, g. split.
  - rewrite <- (list_to_map_to_list G), E. by rewrite list_to_map_cons.
  - unfold covers_all in Hc. destruct (sg_slot_ranges g) as [|sr [|]]; try done. by destruct (sg_local g).
Qed.

Lemma plain_settled G : is_plain G = true -> settled G.
Proof.
  intros (id & g & -> & _)%plain_singleton id1 g1 id2 g2 t j [<- _]%lookup_singleton_Some [<- _]%lookup_singleton_Some.
  done.
Qed.

(** (error). Snapshots can make servers disagree.  A server whose cluster was
    sharded, and which applies a REPLACE after which our own group has all slots,
    still treats the cluster as sharded, since [replaceShardGroups] does not reset
    this; a server that loads the snapshot of the first one has the same groups,
    but treats the cluster as not sharded.  The same entry, with keys of different
    slots, is then refused by the one server and executed by the other. *)
Theorem loaded_server_diverges (data : list Z) (req : bool) (r r' r0 : RedisRaftCtx) rep :
  wf r -> si_is_sharding (rr_sharding_info r) = true ->
  replaceShardGroups data req r = Done (rep, r') -> is_plain (groups r') = true ->
  savable r' -> locals_marked (rr_meta_dbid r') (groups r') -> wf r0 -> rr_meta_dbid r0 = rr_meta_dbid r' ->
  exists rdb r1, ShardingInfoRDBSave r' = Done (rdb, r') /\ ShardingInfoRDBLoad rdb r0 = Done ([], r1) /\
    groups r1 = groups r' /\
    forall (locked : gset (list Z)) (d : D) cmds, HashSlotCompute cmds = None ->
      let n := mk_node r' locked d in let n1 := mk_node r1 locked d in
      handleSharding false cmds n = Done ((RR_ERROR, []), n) /\
      handleSharding false cmds n1 = Done ((RR_OK, []), n1).
Proof.
  intros Hwf Hflag Er Hplain Hsv Hloc Hwf0 Hdb. pose proof (kept_flag _ _ (proj2 (replace_info_kept data req r rep r' Er)) Hflag) as Hflag'.
  destruct (snapshot_load r' r0 [] Hsv (plain_settled _ Hplain) Hloc Hwf0 Hdb) as (r1 & El & Hwf1 & Hg & Hf & _).
  rewrite app_nil_r in El. exists (saved_values r'), r1. split; [by apply save_run|]. split; [exact El|]. split; [exact Hg|].
  intros locked d cmds Hnone. cbv zeta. split.
  - rewrite (proj1 (handle_sharding_run (mk_node r' locked d) cmds (sv_wf r' Hsv))). unfold node_decision, decision.
    cbn [nd_rr]. by rewrite Hflag', Hnone.
  - rewrite (proj1 (handle_sharding_run (mk_node r1 locked d) cmds Hwf1)). unfold node_decision, decision.
    cbn [nd_rr]. unfold flag_ok in Hf. rewrite Hf, Hg, Hplain. by rewrite andb_false_r.
Qed.

End Spec.
