(* ===== verification/ShardMigration.v ===== *)
(** * Moving keys between clusters

    Locked keys stop commands, imports are fenced by the importing slot, the
    session key and the term, and what one cluster sends is what the other one
    stores. *)

From stdpp Require Import base list numbers tactics gmap strings sorting.
From S2P Require Import Prelude RaftTypes Libc File Multibulk PageLog Crc Serialization SerializationSpec NodeAddr.
From S2P Require Import ShardGroup Sharding ShardingSpec ShardParse ShardParseSpec ShardSnapshot ShardRouting ShardRoutingSpec.

Local Open Scope Z_scope.

Section Migration.
Context {D : Type} `{KeyspaceLaws D}.

(** ** Imports *)

(** Why an import with this term and session key is refused. *)
Definition import_refused (G : gmap (list Z) ShardGroup) (max_term slot : Z) (ik : ImportKeys) : option reply :=
  match server G SLOTRANGE_TYPE_IMPORTING slot with
  | None => Some (error "ERR not an importing slot")
  | Some g =>
      if negb (sg_local g) then Some (error "ERR not an importing slot") else
      if negb (default false ((fun sr => sr_migration_session_key sr =? ik_migration_session_key ik) <$> first_range g slot))
      then Some (error "ERR invalid migration_session_key") else
      if max_term <=? ik_term ik then None else Some (error "ERR invalid term")
  end.

Definition set_max_term (slot term : Z) (n : node D) : node D :=
  mk_node ((nd_rr n) <| rr_sharding_info ::= (fun si => si <| si_max_importing_term ::= <[slot := term]> |>) |>)
    (nd_locked_keys n) (nd_db n).

Lemma first_range_static sg slot : first_range (sg_static sg) slot = first_range sg slot.
Proof. by destruct sg. Qed.

Lemma import_run (data : list Z) (ik : ImportKeys) (key0 : list Z) keys (req : bool) (n : node D) :
  wf (nd_rr n) ->
  RaftRedisDeserializeImport data (mk_import 0 0 0 [] []) = Done (RR_OK, ik) ->
  0 < ik_num_keys ik -> ik_key_names ik = key0 :: keys ->
  let slot := keyHashSlot key0 in
  importKeys data req n =
    match import_refused (groups (nd_rr n)) (importing_term (rr_sharding_info (nd_rr n)) slot) slot ik with
    | Some rep => Done (answer req rep, n)
    | None => (restore_all (import_pairs ik) ;; ret (answer req (simple "OK"))) (set_max_term slot (ik_term ik) n)
    end.
Proof.
  intros Hwf Ed Hn Hk. cbv zeta. unfold importKeys, import_refused. rewrite Ed. cbn [Z.eqb RR_OK].
  rewrite (bind_done_eq (c_assert true) _ n tt n) by done. rewrite (proj2 (Z.ltb_lt _ _)) by done.
  rewrite (bind_done_eq (c_assert true) _ n tt n) by done. rewrite Hk. set (slot := keyHashSlot key0).
  pose proof (slot_map_points (nd_rr n) SLOTRANGE_TYPE_IMPORTING slot Hwf eq_refl) as Hp.
  unfold slot_map in Hp. cbn [Z.eqb Pos.eqb SLOTRANGE_TYPE_STABLE SLOTRANGE_TYPE_IMPORTING] in Hp.
  assert (validSlot slot (nd_rr n) = Done (local_opt (server (groups (nd_rr n)) SLOTRANGE_TYPE_IMPORTING slot), nd_rr n)) as Ev.
  { unfold validSlot. rewrite (bind_done_eq (gets rr_sharding_info) _ (nd_rr n) _ (nd_rr n)) by done.
    by apply is_local_run. }
  rewrite (bind_done_eq _ _ _ _ _ (on_rr_run _ n _ Ev)).
  destruct (server _ _ slot) as [g|]; [|done]. cbn [local_opt]. destruct (sg_local g); [|done]. cbn [negb].
  destruct (si_importing_slots_map (rr_sharding_info (nd_rr n)) !! slot) as [p|] eqn:Ep; [|done]. destruct Hp as (sg & Hsg & ->).
  assert (validSlotMigrationSessionKey slot (ik_migration_session_key ik) (nd_rr n) =
    Done (default false ((fun sr => sr_migration_session_key sr =? ik_migration_session_key ik) <$> first_range (sg_static sg) slot),
          nd_rr n)) as Em.
  { unfold validSlotMigrationSessionKey. rewrite (bind_done_eq (gets rr_sharding_info) _ (nd_rr n) _ (nd_rr n)) by done.
    rewrite Ep, (bind_done_eq _ _ _ _ _ (deref_run _ p sg Hsg)), first_range_static. unfold ret. by destruct (first_range sg slot). }
  rewrite (bind_done_eq _ _ _ _ _ (on_rr_run _ n _ Em)). destruct (default false _); [|done]. cbn [negb].
  unfold validSlotTerm. destruct (Z.leb_spec (importing_term (rr_sharding_info (nd_rr n)) slot) (ik_term ik)) as [Ht|Ht].
  - unfold bind at 1. unfold on_rr, zoom, bind, gets. rewrite (proj2 (Z.leb_le _ _)) by done. done.
  - unfold bind at 1. unfold on_rr, zoom, bind, gets. rewrite (proj2 (Z.leb_gt _ _)) by done. by destruct n.
Qed.

Lemma restore_all_inv keys : forall (n n' : node D) u, restore_all keys n = Done (u, n') ->
  nd_rr n' = nd_rr n /\ nd_locked_keys n' = nd_locked_keys n /\
  forall k, KeyExists (nd_db n') k = bool_decide (k ∈ fst <$> keys) || KeyExists (nd_db n) k.
Proof.
  induction keys as [|[key v] keys IH]; intros n n' u; cbn [restore_all].
  { intros [= _ <-]. by split_and!. }
  rewrite (bind_done_eq get _ n n n) by done. destruct (RestoreKey (nd_db n) key v) as [d|] eqn:Er; [|done].
  rewrite (bind_done_eq (modify _) _ n tt (mk_node (nd_rr n) (nd_locked_keys n) d)) by done.
  intros (Hr & Hl & Hk)%IH. cbn in Hr, Hl, Hk. split_and!; [done|done|]. intros k.
  rewrite Hk, (restore_exists _ _ _ _ k Er), fmap_cons. cbn [fst].
  rewrite (bool_decide_ext _ _ (elem_of_cons (fst <$> keys) k key)), bool_decide_or.
  by rewrite orb_assoc, (orb_comm (bool_decide (k ∈ _))).
Qed.

Lemma restore_all_total keys : (forall d kv, kv ∈ keys -> is_Some (RestoreKey d (fst kv) (snd kv))) ->
  forall n : node D, exists n', restore_all keys n = Done (tt, n').
Proof.
  induction keys as [|[key v] keys IH]; intros Hok n; cbn [restore_all]; [by eexists|].
  rewrite (bind_done_eq get _ n n n) by done.
  destruct (Hok (nd_db n) (key, v) ltac:(by left)) as [d Hd]. cbn [fst snd] in Hd. rewrite Hd.
  rewrite (bind_done_eq (modify _) _ n tt (mk_node (nd_rr n) (nd_locked_keys n) d)) by done.
  apply IH. intros d' kv Hkv. apply Hok. by right.
Qed.

Lemma set_max_term_table slot term (n : node D) : wf (nd_rr n) ->
  let n' := set_max_term slot term n in
  wf (nd_rr n') /\ groups (nd_rr n') = groups (nd_rr n) /\
  forall j, importing_term (rr_sharding_info (nd_rr n')) j =
    if decide (slot = j) then term else importing_term (rr_sharding_info (nd_rr n)) j.
Proof.
  intros Hwf. cbv zeta. split_and!.
  - by apply (set_term_keeps_wf slot term (nd_rr n) tt).
  - done.
  - intros j. unfold importing_term. cbn. rewrite lookup_insert_decide. by case_decide.
Qed.

(** (safety). Imports are fenced.  An import is refused without a change, or it
    is done: then the slot of its first key is one that a local group imports, its
    session key is that of the group's range, and its term is at least the
    greatest term of earlier imports into this slot, and becomes that; no other
    slot's term and nothing else in the table changes, and afterwards exactly the
    keys of the import exist in addition. *)
Theorem imports_fenced (data : list Z) (ik : ImportKeys) (key0 : list Z) keys (req : bool) (n n' : node D) replies :
  wf (nd_rr n) ->
  RaftRedisDeserializeImport data (mk_import 0 0 0 [] []) = Done (RR_OK, ik) ->
  0 < ik_num_keys ik -> ik_key_names ik = key0 :: keys ->
  importKeys data req n = Done (replies, n') ->
  let slot := keyHashSlot key0 in
  (n' = n /\ exists text, replies = answer req (ReplyError text)) \/
  (replies = answer req (simple "OK") /\
   (exists id g sr, groups (nd_rr n) !! id = Some g /\ sg_local g = true /\ serves g SLOTRANGE_TYPE_IMPORTING slot /\
      first_range g slot = Some sr /\ sr_migration_session_key sr = ik_migration_session_key ik) /\
   importing_term (rr_sharding_info (nd_rr n)) slot <= ik_term ik /\
   (forall j, importing_term (rr_sharding_info (nd_rr n')) j =
      if decide (slot = j) then ik_term ik else importing_term (rr_sharding_info (nd_rr n)) j) /\
   wf (nd_rr n') /\ groups (nd_rr n') = groups (nd_rr n) /\ nd_locked_keys n' = nd_locked_keys n /\
   forall k, KeyExists (nd_db n') k = bool_decide (k ∈ fst <$> import_pairs ik) || KeyExists (nd_db n) k).
Proof.
  intros Hwf Ed Hn Hk. cbv zeta. rewrite (import_run data ik key0 keys req n Hwf Ed Hn Hk). cbv zeta.
  set (slot := keyHashSlot key0). unfold import_refused.
  destruct (server (groups (nd_rr n)) SLOTRANGE_TYPE_IMPORTING slot) as [g|] eqn:Es.
  2: { intros [= <- <-]. left. split; [done|]. by eexists. }
  destruct (server_some _ _ _ _ Es) as [Hserves [id Hid]].
  destruct (sg_local g) eqn:Hl; cbn [negb].
  2: { intros [= <- <-]. left. split; [done|]. by eexists. }
  destruct (first_range g slot) as [sr|] eqn:Ef; cbn [fmap option_fmap option_map default from_option negb].
  2: { intros [= <- <-]. left. split; [done|]. by eexists. }
  destruct (Z.eqb_spec (sr_migration_session_key sr) (ik_migration_session_key ik)) as [Ek|]; cbn [negb].
  2: { intros [= <- <-]. left. split; [done|]. by eexists. }
  destruct (Z.leb_spec (importing_term (rr_sharding_info (nd_rr n)) slot) (ik_term ik)) as [Ht|].
  2: { intros [= <- <-]. left. split; [done|]. by eexists. }
  intros (u & n1 & (Hr & Hlk & Hdb)%restore_all_inv & [= <- <-])%bind_done. right.
  destruct (set_max_term_table slot (ik_term ik) n Hwf) as (Hwf' & Hg' & Ht'). rewrite Hr.
  split_and!; try done. by exists id, g, sr.
Qed.

(** ** What is sent *)

Definition flat_pairs (pairs : list (list Z * list Z)) : list (list Z) :=
  concat ((fun kv => [fst kv; snd kv]) <$> pairs).

Definition present (kv : list Z * list Z) : list Z * option (list Z) := (fst kv, Some (snd kv)).

Definition no_nul (s : list Z) : Prop := Forall (fun c => c <> 0) s.

Lemma set_next (pre rest : list (list Z)) x s (nul : bool) : blen s <= blen (if nul then s ++ [0] else s) ->
  set_arg (Z.of_nat (length pre)) s nul (blen s) (pre ++ x :: rest) = Done (pre ++ s :: rest).
Proof.
  intros Hl. unfold set_arg. rewrite (proj2 (Z.ltb_ge _ _)) by done.
  rewrite zinsert_in by (rewrite length_app; cbn [length]; lia). rewrite Nat2Z.id.
  rewrite <- (Nat.add_0_r (length pre)), insert_app_r. cbn [list_insert].
  assert (take (Z.to_nat (blen s)) (if nul then s ++ [0] else s) = s) as ->; [|done].
  unfold blen. rewrite Nat2Z.id. destruct nul; [apply take_app_length|by apply take_ge].
Qed.

Lemma set_keys_present pairs : forall i pre, Z.of_nat (length pre) = 3 + i * 2 ->
  Forall (fun kv => no_nul (fst kv)) pairs ->
  set_keys i (present <$> pairs) (pre ++ replicate (2 * length pairs) []) = Done (pre ++ flat_pairs pairs).
Proof.
  induction pairs as [|[key v] pairs IH]; intros i pre Hi Hall; [done|].
  apply Forall_cons in Hall as [Hkey Hall]. rewrite fmap_cons. cbn [set_keys present fst snd].
  rewrite c_string_nonzero by done. cbn [length].
  replace (2 * S (length pairs))%nat with (S (S (2 * length pairs))) by lia. cbn [replicate].
  rewrite <- Hi, set_next by (rewrite blen_app; pose proof (blen_nonneg [0]); lia).
  rewrite (cons_middle key), app_assoc.
  replace (Z.of_nat (length pre) + 1) with (Z.of_nat (length (pre ++ [key]))) by (rewrite length_app; cbn; lia).
  rewrite set_next by done. rewrite (cons_middle v), app_assoc, IH.
  - unfold flat_pairs. rewrite fmap_cons. cbn [concat fst snd]. by rewrite <- !app_assoc.
  - rewrite !length_app. cbn [length]. lia.
  - done.
Qed.

Lemma transfer_present m pairs : mg_keys m = present <$> pairs -> Forall (fun kv => no_nul (fst kv)) pairs ->
  transfer_argv m = Done ([bytes_of "RAFT.IMPORT"; dec_signed (mg_migrate_term m); dec_unsigned (mg_session_key m)] ++
    flat_pairs pairs).
Proof.
  intros Hm Hall. unfold transfer_argv. rewrite Hm.
  assert (num_serialized_keys (present <$> pairs) = Z.of_nat (length pairs)) as ->.
  { clear. unfold num_serialized_keys. f_equal. induction pairs as [|kv pairs IH]; [done|].
    rewrite fmap_cons, filter_cons_True by (by eexists). cbn [length]. by f_equal. }
  replace (Z.to_nat (3 + Z.of_nat (length pairs) * 2 - 3)) with (2 * length pairs)%nat by lia.
  by apply set_keys_present.
Qed.

Lemma pair_args_flat pairs : pair_args (flat_pairs pairs) = pairs.
Proof.
  unfold flat_pairs. induction pairs as [|[k v] pairs IH]; [done|]. rewrite fmap_cons. cbn [concat app pair_args fst snd].
  by rewrite IH.
Qed.

Lemma flat_length pairs : length (flat_pairs pairs) = (2 * length pairs)%nat.
Proof. unfold flat_pairs. induction pairs as [|kv pairs IH]; [done|]. rewrite fmap_cons. cbn [concat app length]. lia. Qed.

(** The import that a migration becomes. *)
Definition import_of (m : migration) (pairs : list (list Z * list Z)) : ImportKeys :=
  mk_import (mg_migrate_term m) (mg_session_key m) (Z.of_nat (length pairs)) (fst <$> pairs) (snd <$> pairs).

Lemma import_of_pairs m pairs : import_pairs (import_of m pairs) = pairs.
Proof. unfold import_pairs, import_of. cbn. induction pairs as [|[k v] pairs IH]; [done|]. cbn. by f_equal. Qed.

Section Arrival.
Context (StringToLongLong : list Z -> option Z) (WrongArity : list Z) (recv_entry : Z -> list Z -> Z).
Context (longlong_dec : forall v, 0 <= v < 2 ^ 63 -> StringToLongLong (dec_unsigned v) = Some v).

Lemma import_command_entry m pairs : mg_session_key m < 2 ^ 63 -> import_ok (import_of m pairs) ->
  (forall data, recv_entry RAFT_LOGTYPE_IMPORT_KEYS data = 0) ->
  exists data,
    cmdRaftImport StringToLongLong WrongArity recv_entry
      ([bytes_of "RAFT.IMPORT"; dec_signed (mg_migrate_term m); dec_unsigned (mg_session_key m)] ++ flat_pairs pairs) =
      Done ([], Some data) /\
    RaftRedisDeserializeImport data (mk_import 0 0 0 [] []) = Done (RR_OK, import_of m pairs).
Proof.
  intros Hkey Hok Hrecv. destruct (import_keys_roundtrip _ (mk_import 0 0 0 [] []) Hok) as (data & Es & Ed).
  exists data. split; [|exact Ed]. unfold cmdRaftImport. rewrite length_app, flat_length. cbn [length app].
  assert (0 < length pairs)%nat as Hpos.
  { pose proof (io_some _ Hok) as Hne. destruct pairs; [done|cbn; lia]. }
  rewrite (proj2 (Z.ltb_ge _ _)) by lia.
  replace (Z.of_nat (3 + 2 * length pairs)) with (1 + (1 + Z.of_nat (length pairs)) * 2) by lia.
  rewrite Z.mod_add by lia. change (1 mod 2 =? 0) with false. cbn [orb].
  pose proof (io_term _ Hok) as Ht. pose proof (io_session _ Hok) as Hs. cbn in Ht, Hs.
  assert (dec_signed (mg_migrate_term m) = dec_unsigned (mg_migrate_term m)) as ->.
  { unfold dec_signed. by rewrite (proj2 (Z.ltb_ge _ _)) by lia. }
  rewrite !longlong_dec by lia. cbv zeta.
  rewrite pair_args_flat. replace ((1 + (1 + Z.of_nat (length pairs)) * 2 - 3) / 2) with (Z.of_nat (length pairs)).
  2: { replace (1 + (1 + Z.of_nat (length pairs)) * 2 - 3) with (Z.of_nat (length pairs) * 2) by lia. by rewrite Z.div_mul. }
  assert (u64 (mg_session_key m) = mg_session_key m) as -> by (unfold u64; rewrite Z.mod_small; lia).
  fold (import_of m pairs). rewrite Es, Hrecv. done.
Qed.

(** C39 (functional). Migrated keys arrive: when all keys of a migration exist (and
    their names have no NUL), the arguments [transferKeys] builds, given to
    RAFT.IMPORT of the other cluster, make an entry there which every server that
    does not refuse it applies: it answers OK, and exactly the migrated keys exist
    in addition. *)
Theorem migrated_keys_arrive (m : migration) pairs :
  mg_keys m = present <$> pairs -> Forall (fun kv => no_nul (fst kv)) pairs ->
  mg_session_key m < 2 ^ 63 -> import_ok (import_of m pairs) ->
  (forall data, recv_entry RAFT_LOGTYPE_IMPORT_KEYS data = 0) ->
  exists argv data, transfer_argv m = Done argv /\
    cmdRaftImport StringToLongLong WrongArity recv_entry argv = Done ([], Some data) /\
    forall (n : node D) req key0 rest, fst <$> pairs = key0 :: rest -> wf (nd_rr n) ->
      (forall d kv, kv ∈ pairs -> is_Some (RestoreKey d (fst kv) (snd kv))) ->
      let slot := keyHashSlot key0 in
      import_refused (groups (nd_rr n)) (importing_term (rr_sharding_info (nd_rr n)) slot) slot (import_of m pairs) = None ->
      exists n', importKeys data req n = Done (answer req (simple "OK"), n') /\
        forall k, KeyExists (nd_db n') k = bool_decide (k ∈ fst <$> pairs) || KeyExists (nd_db n) k.
Proof.
  intros Hm Hnul Hkey Hok Hrecv. destruct (import_command_entry m pairs Hkey Hok Hrecv) as (data & Ec & Ed).
  eexists _, data. split; [by apply transfer_present|]. split; [exact Ec|].
  intros n req key0 rest Ekeys Hwf Hrestore slot Hnone.
  assert (0 < ik_num_keys (import_of m pairs)) as Hn.
  { cbn. destruct pairs; [done|]. cbn. lia. }
  rewrite (import_run data (import_of m pairs) key0 rest req n Hwf Ed Hn Ekeys). cbv zeta. fold slot. rewrite Hnone.
  rewrite import_of_pairs. destruct (restore_all_total pairs Hrestore (set_max_term slot (ik_term (import_of m pairs)) n)) as (n' & En').
  rewrite (bind_done_eq _ _ _ _ _ En'). exists n'. split; [done|]. intros k.
  by destruct (restore_all_inv _ _ _ _ En') as (_ & _ & ->).
Qed.

End Arrival.

(** ** Locks *)

Lemma dump_unchanged id req (n n' : node D) res : MigrateKeys id req n = Done (res, n') -> wf (nd_rr n) -> n' = n.
Proof.
  unfold MigrateKeys. intros E Hwf. rewrite (bind_done_eq get _ n n n) in E by done.
  destruct (GetShardGroupById _ _) as [p|]; [|by injection E].
  apply bind_done in E as (sk & n1 & (r' & Er & Hr & Hl & Hd)%on_rr_inv & E).
  assert (r' = nd_rr n) as ->.
  { unfold getMigrationSessionKey in Er. destruct (mr_keys req); [done|]. apply bind_done in Er as (? & ? & [= <- <-] & Er).
    destruct (si_migrating_slots_map _ !! _); [|done]. apply bind_done in Er as (? & ? & Edr & [= <- <-]).
    unfold deref in Edr. apply bind_done in Edr as (? & ? & [= <- <-] & Edr). destruct (rr_heap (nd_rr n) !! _); [by injection Edr|done]. }
  assert (n1 = n) as -> by (destruct n, n1; cbn in *; congruence).
  destruct sk; [|by injection E]. destruct (dump_keys _ _); [|by injection E].
  destruct (_ =? 0); [by injection E|]. apply bind_done in E as (sg & n2 & (r'' & Er' & Hr' & Hl' & Hd')%on_rr_inv & [= <- <-]).
  unfold deref in Er'. apply bind_done in Er' as (? & ? & [= <- <-] & Er').
  destruct (_ !! _); [|done]. injection Er' as <- <-. destruct n, n2; cbn in *; congruence.
Qed.

(** The state is the one before. *)
Ltac same_state E := unfold ret in E; injection E as _ <-; split_and!; tauto.

(** When keys get locked, they exist, and a local group migrates their slot. *)
Lemma lock_inv data req (n n' : node D) res : wf (nd_rr n) -> lockKeys data req n = Done (res, n') ->
  nd_rr n' = nd_rr n /\ nd_db n' = nd_db n /\ forall k, k ∈ nd_locked_keys n' -> k ∈ nd_locked_keys n \/
    KeyExists (nd_db n) k = true /\ exists g, server (groups (nd_rr n)) SLOTRANGE_TYPE_MIGRATING (keyHashSlot k) = Some g /\
      sg_local g = true.
Proof.
  intros Hwf. unfold lockKeys, lock_error. intros (keys & n1 & [Ek ->]%lift_inv & E)%bind_done.
  destruct keys as [keys|]; [|done]. destruct (lock_slot keys) as [slot|] eqn:Els; [|same_state E].
  destruct (Z.eqb_spec slot (-1)); [same_state E|].
  rewrite (bind_done_eq (gets _) _ n (rr_sharding_info (nd_rr n)) n) in E by done.
  pose proof (slot_map_points (nd_rr n) SLOTRANGE_TYPE_MIGRATING slot Hwf eq_refl) as Hp.
  unfold slot_map in Hp. cbn [Z.eqb Pos.eqb SLOTRANGE_TYPE_STABLE SLOTRANGE_TYPE_IMPORTING SLOTRANGE_TYPE_MIGRATING] in Hp.
  destruct (si_migrating_slots_map _ !! slot) as [msg|]; [|same_state E].
  rewrite (bind_done_eq _ _ _ _ _ (on_rr_run _ n _ (is_local_run _ _ _ Hp))) in E.
  destruct (server _ _ slot) as [g|] eqn:Es; [|done]. cbn [local_opt] in E.
  destruct (sg_local g) eqn:Hl; cbn [negb] in E; [|same_state E].
  destruct (si_importing_slots_map _ !! slot) as [isg|]; [|same_state E].
  apply bind_done in E as (theirs & n2 & (r' & Er & Hr & Hlk & Hd)%on_rr_inv & E).
  unfold deref in Er. apply bind_done in Er as (? & ? & [= <- <-] & Er). destruct (_ !! isg) as [sg'|]; [|done]. injection Er as <- <-.
  assert (n2 = n) as -> by (destruct n, n2; cbn in *; congruence).
  destruct (sg_local sg'); [same_state E|].
  apply bind_done in E as (u & n3 & [= <- <-] & E).
  set (n3 := mk_node (nd_rr n) (list_to_set (filter (fun k => KeyExists (nd_db n) k = true) keys) ∪ nd_locked_keys n) (nd_db n)) in *.
  assert (n' = n3) as ->.
  { destruct req; [by eapply dump_unchanged|by injection E]. }
  split; [done|]. split; [done|]. intros k. cbn. rewrite elem_of_union, elem_of_list_to_set, list_elem_of_filter.
  intros [[Hex Hin]|]; [right|by left]. split; [done|].
  destruct (keys_slot_spec keys (-1) slot ltac:(by left) Els) as (_ & _ & Hall & _). rewrite Forall_forall in Hall.
  rewrite (Hall k Hin). by exists g.
Qed.

(** (safety). Locked keys stop commands: once an entry has locked a key, no
    server of the cluster executes commands with this key (and keys of the same
    slot), unless some group has the slot as stable: whatever client asks, they
    are refused. *)
Theorem locked_keys_stop_commands (data : list Z) (req : option migrate_req) (ctx : bool) (n n' n2 : node D) res
    (cmds : RaftRedisCommandArray) k st reps :
  wf (nd_rr n) -> si_is_sharding (rr_sharding_info (nd_rr n)) = true ->
  lockKeys data req n = Done (res, n') -> k ∈ nd_locked_keys n' -> (k ∉ nd_locked_keys n) ->
  server (groups (nd_rr n)) SLOTRANGE_TYPE_STABLE (keyHashSlot k) = None ->
  k ∈ array_keys cmds -> handleSharding ctx cmds n' = Done ((st, reps), n2) -> st = RR_ERROR.
Proof.
  intros Hwf Hsh El Hk Hk' Hst Hin E. destruct (lock_inv data req n n' res Hwf El) as (Hrr & Hdb & Hlk).
  destruct (handle_sharding_run n' cmds) as [Hf Ht]; [by rewrite Hrr|].
  assert (st = node_decision n' cmds) as ->.
  { destruct ctx; [by apply (Ht _ _ _ E)|]. rewrite Hf in E. by injection E as <-. }
  unfold node_decision. rewrite Hrr, Hsh.
  destruct (all_exist (validateKeyExistence n' cmds)) eqn:Ef.
  { apply validate_existence in Ef. rewrite Forall_forall in Ef. by destruct (Ef k Hin). }
  destruct (decide (decision (groups (nd_rr n)) true false cmds = RR_OK)) as [Hd|Hd].
  - exfalso. assert (array_keys cmds <> []) as Hne by (intros Hn; rewrite Hn in Hin; by apply elem_of_nil in Hin).
    destruct (decision_ok _ _ _ (fun id g H => proj2 (groups_valid (nd_rr n) id g Hwf H)) Hne Hd)
      as (slot & id & g & Hall & Hg & _ & [Hs|[_ ?]]); [|done].
    rewrite Forall_forall in Hall. rewrite <- (Hall k Hin) in Hs. by apply (proj1 (server_none _ _ _) Hst id g Hg).
  - unfold decision in *. repeat (case_match; try done).
Qed.

End Migration.
