(* ===== verification/ShardDemo.v ===== *)
(** * A sharded cluster

    Two groups, a database of strings, and the theorems about routing and
    migration on them. *)

From stdpp Require Import base list numbers tactics gmap strings sorting.
From S2P Require Import Prelude RaftTypes Libc File Multibulk PageLog Crc Serialization SerializationSpec NodeAddr.
From S2P Require Import ShardGroup Sharding ShardingSpec ShardParse ShardParseSpec ShardSnapshot ShardRouting ShardRoutingSpec ShardMigration.

Local Open Scope Z_scope.

(** ** The database *)

Definition store : Type := gmap (list Z) (list Z).

(** Every argument is a key. *)
#[export] Instance demo_keyspace : Keyspace store := {|
  GetCommandKeys argv := seq 1 (length argv - 1);
  KeyExists d k := bool_decide (is_Some (d !! k));
  Dump d k := d !! k;
  RestoreKey d k v := Some (<[k := v]> d);
  Del d ks := foldr delete d ks
|}.

#[export] Instance demo_keyspace_laws : KeyspaceLaws store.
Proof.
  split.
  - intros d k v d' k' E. assert (d' = <[k := v]> d) as -> by (by injection E). unfold KeyExists, demo_keyspace, store in *. destruct (decide (k' = k)) as [->|Hne].
    + rewrite lookup_insert_eq, (bool_decide_eq_true_2 (k = k)) by done. done.
    + by rewrite lookup_insert_ne, (bool_decide_eq_false_2 (k' = k)) by done.
  - intros d ks k. unfold KeyExists, Del, demo_keyspace, store in *. induction ks as [|k' ks IH]; [done|].
    change (foldr delete d (k' :: ks)) with (delete k' (foldr delete d ks)).
    destruct (decide (k' = k)) as [->|Hne].
    + rewrite lookup_delete_eq. by rewrite (bool_decide_eq_true_2 (k ∈ k :: ks)) by left.
    + rewrite lookup_delete_ne by done. rewrite IH. f_equal. f_equal. apply bool_decide_ext.
      rewrite elem_of_cons. naive_solver.
Qed.

(** ** The cluster

    "bl" is in slot 98, which is stable; "tg2" in slot 100, which is migrating. *)

Definition key_bl : list Z := bytes_of "bl".
Definition key_tg2 : list Z := bytes_of "tg2".

Example demo_slots : keyHashSlot key_bl = 98 /\ keyHashSlot key_tg2 = 100.
Proof. by vm_compute. Qed.

Definition demo_db : store := {[key_tg2 := [118]]}.

Definition commands (cmds : list (list (list Z))) : RaftRedisCommandArray := mk_array 0 false 0 0 cmds None.

Definition del_keys : RaftRedisCommandArray := commands [[bytes_of "DEL"; key_bl]].

(** ** Routing *)

Lemma commands_decided_witness :
  exists n : node store, wf (nd_rr n) /\
    handleSharding false del_keys n = Done ((RR_OK, []), n) /\
    handleSharding true (commands [[bytes_of "DEL"; key_bl; key_tg2]]) n = Done ((RR_ERROR, [cross_slot]), n).
Proof.
  destruct demo_sharded as (r & Hsv & Hg & _ & Hsh & _). pose proof (sv_wf r Hsv) as Hwf.
  exists (mk_node r ∅ demo_db). split; [exact Hwf|]. split.
  - apply (proj2 (commands_decided (mk_node r ∅ demo_db) del_keys Hwf) Run). apply (ruled_stable _ _ 98).
    + split; [exact Hsh|]. split; [done|]. repeat constructor.
    + unfold ours. cbn [nd_rr]. rewrite Hg. eexists. split; [vm_compute; reflexivity|]. split; [reflexivity|].
      match goal with |- range_type ?g _ _ => apply (range_type_slot g 98) end. vm_compute. done.
  - apply (proj2 (commands_decided (mk_node r ∅ demo_db) (commands [[bytes_of "DEL"; key_bl; key_tg2]]) Hwf) (Refuse cross_slot)).
    apply (ruled_cross _ _ key_bl key_tg2); [exact Hsh|by vm_compute; left|by vm_compute; right; left|by vm_compute].
Defined.

Lemma demo_executes r : wf r -> groups r = demo_table -> si_is_sharding (rr_sharding_info r) = true ->
  handleSharding false del_keys (mk_node r ∅ demo_db) = Done ((RR_OK, []), mk_node r ∅ demo_db).
Proof.
  intros Hwf Hg Hsh. rewrite (proj1 (handle_sharding_run (mk_node r ∅ demo_db) del_keys Hwf)). unfold node_decision.
  cbn [nd_rr]. rewrite Hg, Hsh. vm_compute. reflexivity.
Qed.

Lemma keyed_commands_guarded_witness :
  exists n : node store, handleSharding false del_keys n = Done ((RR_OK, []), n) /\
    exists slot id g, Forall (fun k => keyHashSlot k = slot) [key_bl] /\
      groups (nd_rr n) !! id = Some g /\ sg_local g = true.
Proof.
  destruct demo_sharded as (r & Hsv & Hg & _ & Hsh & _). pose proof (sv_wf r Hsv) as Hwf.
  exists (mk_node r ∅ demo_db). pose proof (demo_executes r Hwf Hg Hsh) as E. split; [exact E|].
  assert (array_keys (D := store) del_keys <> []) as Hne by (vm_compute; discriminate).
  destruct (keyed_commands_guarded false (mk_node r ∅ demo_db) (mk_node r ∅ demo_db) del_keys [] Hwf Hsh Hne E)
    as (_ & _ & slot & id & g & Hall & Hin & Hl & _).
  exists slot, id, g. split; [exact Hall|]. split; [exact Hin|exact Hl].
Defined.

(** ** Imports *)

(** A cluster that imports slot 100 with session key 7. *)
Definition demo_import_group : ShardGroup := demo_group 97 true [demo_range 100 100 SLOTRANGE_TYPE_IMPORTING].

Lemma demo_importer : exists r, wf r /\ groups r = {[replicate 32 97 := sg_static demo_import_group]} /\
  importing_term (rr_sharding_info r) 100 = 0.
Proof.
  destruct (add_accepts demo_rr demo_import_group demo_rr_wf) as (r & _ & Had).
  - by repeat constructor.
  - apply passes_acceptable; [apply demo_rr_wf|by repeat constructor|by vm_compute].
  - exists r. split; [apply Had|]. split; [by rewrite (ad_groups _ _ _ Had)|].
    rewrite (ad_terms _ _ _ Had). by case_decide.
Qed.

Definition demo_migration : migration := mk_migration [] 5 7 [(key_tg2, Some [118])].

Lemma demo_import_ok : import_ok (import_of demo_migration [(key_tg2, [118])]).
Proof. split; try done; vm_compute; done. Qed.

Lemma demo_longlong_dec v : 0 <= v < 2 ^ 63 -> demo_longlong (dec_unsigned v) = Some v.
Proof.
  intros Hv. destruct (dec_unsigned_spec v) as (ds & -> & Hd & Hne & _ & _ & Hval & _); [lia|].
  destruct ds as [|d ds]; [done|]. unfold demo_longlong.
  pose proof (scan_digits_10 (d :: ds) [] 0 Hd) as E. rewrite app_nil_r in E. rewrite E, Hval. cbn [scan_digits].
  by rewrite (proj2 (Z.ltb_lt _ _)) by lia.
Qed.

Lemma demo_restores d kv : kv ∈ [(key_tg2, [118])] -> is_Some (RestoreKey (D := store) d (fst kv) (snd kv)).
Proof. by eexists. Qed.

Lemma demo_accepted r : groups r = {[replicate 32 97 := sg_static demo_import_group]} ->
  importing_term (rr_sharding_info r) 100 = 0 ->
  import_refused (groups r) (importing_term (rr_sharding_info r) (keyHashSlot key_tg2)) (keyHashSlot key_tg2)
    (import_of demo_migration [(key_tg2, [118])]) = None.
Proof. intros Hg Ht. rewrite Hg, (proj2 demo_slots), Ht. vm_compute. reflexivity. Qed.

Lemma imports_fenced_witness :
  exists (n n' : node store) data replies, importKeys data true n = Done (replies, n') /\
    ((n' = n /\ exists text, replies = answer true (ReplyError text)) \/
     (replies = [simple "OK"] /\ importing_term (rr_sharding_info (nd_rr n')) 100 = 5 /\
      KeyExists (nd_db n') key_tg2 = true)).
Proof.
  destruct demo_importer as (r & Hwf & Hg & Ht). set (n := mk_node r ∅ (∅ : store)).
  destruct (import_keys_roundtrip _ (mk_import 0 0 0 [] []) demo_import_ok) as (data & _ & Ed).
  pose proof (import_run data _ key_tg2 [] true n Hwf Ed eq_refl eq_refl) as E. cbv zeta in E.
  change (nd_rr n) with r in E. rewrite (demo_accepted r Hg Ht) in E.
  destruct (restore_all_total _ demo_restores (set_max_term (keyHashSlot key_tg2) 5 n)) as (n' & En').
  assert (importKeys data true n = Done ([simple "OK"], n')) as Ei.
  { rewrite E. by rewrite (bind_done_eq _ _ _ _ _ En'). }
  exists n, n', data, [simple "OK"]. split; [exact Ei|].
  destruct (imports_fenced data _ key_tg2 [] true n n' [simple "OK"] Hwf Ed eq_refl eq_refl Ei)
    as [Hno|(_ & _ & _ & Hterm & _ & _ & _ & Hk)]; [by left|right].
  split; [done|]. split; [|by rewrite Hk].
  rewrite Hterm, (proj2 demo_slots). by rewrite decide_True.
Defined.

Lemma migrated_keys_arrive_witness :
  exists argv data, transfer_argv demo_migration = Done argv /\
    cmdRaftImport demo_longlong [] accept_all argv = Done ([], Some data) /\
    exists (n n' : node store), importKeys data true n = Done ([simple "OK"], n') /\
      KeyExists (nd_db n) key_tg2 = false /\ KeyExists (nd_db n') key_tg2 = true.
Proof.
  destruct (migrated_keys_arrive (D := store) demo_longlong [] accept_all demo_longlong_dec demo_migration [(key_tg2, [118])])
    as (argv & data & Et & Ec & Happly).
  - reflexivity.
  - constructor; [|constructor]. solve_chars.
  - reflexivity.
  - apply demo_import_ok.
  - reflexivity.
  - exists argv, data. split; [exact Et|]. split; [exact Ec|].
    destruct demo_importer as (r & Hwf & Hg & Ht). set (n := mk_node r ∅ (∅ : store)).
    destruct (Happly n true key_tg2 [] eq_refl Hwf demo_restores (demo_accepted r Hg Ht)) as (n' & Ei & Hk).
    exists n, n'. split; [exact Ei|]. split; [reflexivity|]. rewrite Hk. reflexivity.
Defined.

(** An absent key before one that exists: [transferKeys] writes behind its array. *)
Example absent_key_overruns :
  transfer_argv (mk_migration [] 5 7 [(key_bl, None); (key_tg2, Some [118])]) = Abort.
Proof. reflexivity. Qed.

(** RAFT.IMPORT accepts the term 0, but the entry cannot be read: every server
    that applies it stops at an assertion. *)
Example import_of_term_zero : forall n : node store,
  match cmdRaftImport demo_longlong [] accept_all
          [bytes_of "RAFT.IMPORT"; bytes_of "0"; bytes_of "7"; key_tg2; [118]] with
  | Done ([], Some data) => importKeys data true n = Abort
  | _ => False
  end.
Proof. intros n. vm_compute. reflexivity. Qed.

(** ** Locks *)

Definition demo_r : RedisRaftCtx := add_all [demo_own; demo_other] demo_rr.

Lemma add_all_wf sgs : forall r, wf r -> wf (add_all sgs r).
Proof.
  induction sgs as [|sg sgs IH]; intros r Hwf; cbn [add_all]; [done|].
  destruct (ShardingInfoAddShardGroup sg r) as [[res r1]| |] eqn:E; [|done|done]. apply IH. by eapply add_keeps_wf.
Qed.

Definition key_long : list Z := bytes_of "{tg2}counter".
Definition demo_n : node store := mk_node demo_r ∅ {[key_long := [49]]}.
Definition demo_lock_data : list Z :=
  match RaftRedisLockKeysSerialize [key_long] with Done data => data | _ => [] end.

Lemma locked_keys_stop_commands_witness :
  exists n' : node store, lockKeys demo_lock_data None demo_n = Done (inl [], n') /\
    forall ctx cmds st reps n2, key_long ∈ array_keys (D := store) cmds ->
      handleSharding ctx cmds n' = Done ((st, reps), n2) -> st = RR_ERROR.
Proof.
  assert (match lockKeys demo_lock_data None demo_n with
          | Done (inl [], n') => bool_decide (key_long ∈ nd_locked_keys n')
          | _ => false
          end = true) as Hl by (vm_compute; reflexivity).
  destruct (lockKeys demo_lock_data None demo_n) as [[[[|]|] n']| |] eqn:E; try discriminate Hl.
  apply bool_decide_eq_true in Hl. exists n'. split; [reflexivity|]. intros ctx cmds st reps n2 Hin Eh.
  apply (locked_keys_stop_commands demo_lock_data None ctx demo_n n' n2 (inl []) cmds key_long st reps).
  - apply add_all_wf, demo_rr_wf.
  - vm_compute. reflexivity.
  - exact E.
  - exact Hl.
  - apply not_elem_of_empty.
  - vm_compute. reflexivity.
  - exact Hin.
  - exact Eh.
Defined.

(** ** Loading a snapshot *)

(** Our own group, with all slots. *)
Definition demo_full : ShardGroup := demo_group 97 false [demo_range 0 16383 SLOTRANGE_TYPE_STABLE].

Lemma claim_stable slots : forall s, NoDup slots -> (forall j, j ∈ slots -> j ∉ ss_stable s) ->
  ss_importing s = ∅ -> ss_migrating s = ∅ -> exists s', claim_slots SLOTRANGE_TYPE_STABLE slots s = inr s'.
Proof.
  induction slots as [|j slots IH]; intros s Hnd Hfree Hi Hm; cbn [claim_slots]; [by eexists|].
  apply NoDup_cons in Hnd as [Hj Hnd]. unfold claim_slot. rewrite bool_decide_eq_false_2 by (apply Hfree; by left).
  change (SLOTRANGE_TYPE_STABLE =? SLOTRANGE_TYPE_STABLE) with true. cbv iota.
  rewrite bool_decide_eq_false_2 by (rewrite Hi, Hm; set_solver). apply IH; try done.
  intros i Hin. cbn. pose proof (Hfree i). set_solver.
Qed.

Lemma demo_full_parsed : parsed_group demo_full.
Proof.
  split; [|by repeat constructor..|reflexivity]. by apply demo_group_ok; [| |repeat constructor|cbn; lia].
Qed.

Lemma claim_one sg sr s0 s : sg_slot_ranges sg = [sr] -> SlotRangeTypeValid (sr_type sr) = true ->
  claim_slots (sr_type sr) (range_slots sr) s0 = inr s -> claim_groups [sg] s0 = inr s.
Proof. intros Hsg Ht E. cbn [claim_groups]. rewrite Hsg. cbn [claim_ranges]. by rewrite Ht, E. Qed.

Lemma demo_full_claim : exists s, claim_groups [demo_full] (mk_sets ∅ ∅ ∅) = inr s.
Proof.
  destruct (claim_stable (range_slots (demo_range 0 16383 SLOTRANGE_TYPE_STABLE)) (mk_sets ∅ ∅ ∅)) as [s Es].
  - apply NoDup_seqZ.
  - intros j _. apply not_elem_of_empty.
  - done.
  - done.
  - exists s. apply (claim_one demo_full (demo_range 0 16383 SLOTRANGE_TYPE_STABLE)); [done|done|exact Es].
Qed.

Definition demo_full_data : list Z := payload_text [demo_full].

(** The state of a server after it has applied the entry. *)
Lemma demo_replaced r : savable r -> rr_meta_dbid r = replicate 32 97 ->
  si_is_sharding (rr_sharding_info r) = true -> (forall j, importing_term (rr_sharding_info r) j = 0) ->
  exists r', replaceShardGroups demo_full_data false r = Done ([], r') /\ is_plain (groups r') = true /\
    savable r' /\ locals_marked (replicate 32 97) (groups r').
Proof.
  intros Hsv Hdb Hsh Ht. destruct demo_full_claim as [s Hs].
  pose proof (replace_run [demo_full] s r false (sv_wf r Hsv) ltac:(done)
    ltac:(constructor; [apply demo_full_parsed|constructor]) Hs) as Hrun.
  rewrite decide_True in Hrun by (apply NoDup_singleton). destruct Hrun as (r' & E & Hwf' & Hg).
  cbn [foldl] in Hg. rewrite Hdb in Hg. exists r'. split; [exact E|].
  destruct (replace_info_kept demo_full_data false r [] r' E) as [_ Hkept].
  assert (groups r' = {[replicate 32 97 := set_local (replicate 32 97) demo_full]}) as Hg' by exact Hg. clear Hg.
  split_and!.
  - rewrite Hg', is_plain_one. reflexivity.
  - split; [exact Hwf'|by unfold few; rewrite Hg', map_size_singleton| |].
    + intros id g. rewrite Hg'. intros [<- <-]%lookup_singleton_Some.
      destruct (pg_ok _ demo_full_parsed). by split.
    + intros j. destruct (kept_terms _ _ Hkept j) as [->| ->]; [lia|]. rewrite Ht. lia.
  - intros id g. rewrite Hg'. intros [<- <-]%lookup_singleton_Some. reflexivity.
Qed.

Lemma loaded_server_diverges_witness :
  exists (r' r1 : RedisRaftCtx) rdb, ShardingInfoRDBSave r' = Done (rdb, r') /\
    ShardingInfoRDBLoad rdb demo_rr = Done ([], r1) /\ groups r1 = groups r' /\
    let cmds := commands [[bytes_of "DEL"; key_bl; key_tg2]] in
    let n := mk_node r' ∅ demo_db in let n1 := mk_node r1 ∅ demo_db in
    handleSharding false cmds n = Done ((RR_ERROR, []), n) /\ handleSharding false cmds n1 = Done ((RR_OK, []), n1).
Proof.
  destruct demo_sharded as (r & Hsv & _ & Hdb & Hsh & Ht).
  destruct (demo_replaced r Hsv Hdb Hsh Ht) as (r' & E & Hplain & Hsv' & Hloc).
  assert (rr_meta_dbid r' = replicate 32 97) as Hdb'.
  { rewrite <- Hdb. apply (replace_info_kept demo_full_data false r [] r' E). }
  destruct (loaded_server_diverges (D := store) demo_full_data false r r' demo_rr [] (sv_wf r Hsv) Hsh E Hplain Hsv'
    ltac:(rewrite Hdb'; exact Hloc) demo_rr_wf ltac:(by rewrite Hdb')) as (rdb & r1 & Es & El & Hg & Hall).
  exists r', r1, rdb. split; [exact Es|]. split; [exact El|]. split; [exact Hg|].
  apply Hall. vm_compute. reflexivity.
Defined.
