(* ===== verification/Commands.v ===== *)
(** * The table of commands and the command filter ([redisraft/src/commands.c],
    [redisraft.c])

    RedisRaft keeps flags for the commands it knows: a fixed list, the commands
    the configuration excludes, and flags that Redis reports.  The command filter
    looks at every command before Redis does and prefixes those that must go
    through the log with RAFT. *)

From stdpp Require Import base list numbers tactics gmap strings.
From S2P Require Import Prelude Libc File Multibulk.

Local Open Scope Z_scope.

(** ** Names of commands *)

(** [tolower] of the C locale. *)
Definition tolower (c : Z) : Z := if (65 <=? c) && (c <=? 90) then c + 32 else c.

Definition lower (s : list Z) : list Z := tolower <$> s.

(** [cmd_len == n && !strncasecmp(cmd_str, name, n)], for a name of [n] letters. *)
Definition is_cmd (name : String.string) (cmd : list Z) : bool :=
  bool_decide (length cmd = String.length name) && bool_decide (lower cmd = lower (bytes_of name)).

(** [strncasecmp(cmd_str, name, n) == 0], for a name of [n] letters. *)
Definition has_prefix (name : String.string) (cmd : list Z) : bool :=
  bool_decide (take (String.length name) (lower (c_string cmd)) = lower (bytes_of name)).

(** [strncmp(a, b, n) == 0]; behind the end of a list is its NUL. *)
Fixpoint strncmp_eq (a b : list Z) (n : nat) : bool :=
  match n with
  | O => true
  | S n' =>
      let x := default 0 (head a) in
      let y := default 0 (head b) in
      if negb (x =? y) then false else if x =? 0 then true else strncmp_eq (tail a) (tail b) n'
  end.

(** ** Flags *)

Definition CMD_SPEC_READONLY : Z := 2.
Definition CMD_SPEC_WRITE : Z := 4.
Definition CMD_SPEC_UNSUPPORTED : Z := 8.
Definition CMD_SPEC_DONT_INTERCEPT : Z := 16.
Definition CMD_SPEC_SORT_REPLY : Z := 32.
Definition CMD_SPEC_RANDOM : Z := 64.
Definition CMD_SPEC_SCRIPTS : Z := 128.
Definition CMD_SPEC_BLOCKING : Z := 256.
Definition CMD_SPEC_MULTI : Z := 512.
Definition CMD_SPEC_SUBCOMMAND : Z := 1024.

(** [flags & f] as a condition. *)
Definition has_flag (f flags : Z) : bool := negb (Z.land flags f =? 0).

Definition clientCommands : list (String.string * Z) := [("unblock"%string, 0)].

Local Open Scope string_scope.
Local Open Scope Z_scope.

Definition commands : list (String.string * Z) :=
  [("time", Z.lor CMD_SPEC_DONT_INTERCEPT CMD_SPEC_RANDOM);
   ("sync", CMD_SPEC_UNSUPPORTED);
   ("psync", CMD_SPEC_UNSUPPORTED);
   ("reset", CMD_SPEC_UNSUPPORTED);
   ("bgrewriteaof", CMD_SPEC_UNSUPPORTED);
   ("slaveof", CMD_SPEC_UNSUPPORTED);
   ("replicaof", CMD_SPEC_UNSUPPORTED);
   ("debug", CMD_SPEC_UNSUPPORTED);
   ("save", CMD_SPEC_UNSUPPORTED);
   ("bgsave", CMD_SPEC_UNSUPPORTED);
   ("eval", CMD_SPEC_SCRIPTS);
   ("evalsha", CMD_SPEC_SCRIPTS);
   ("eval_ro", CMD_SPEC_SCRIPTS);
   ("evalsha_ro", CMD_SPEC_SCRIPTS);
   ("fcall", CMD_SPEC_SCRIPTS);
   ("fcall_ro", CMD_SPEC_SCRIPTS);
   ("brpop", CMD_SPEC_BLOCKING);
   ("brpoplpush", CMD_SPEC_BLOCKING);
   ("blmove", CMD_SPEC_BLOCKING);
   ("blpop", CMD_SPEC_BLOCKING);
   ("blmpop", CMD_SPEC_BLOCKING);
   ("bzpopmin", CMD_SPEC_BLOCKING);
   ("bzpopmax", CMD_SPEC_BLOCKING);
   ("bzmpop", CMD_SPEC_BLOCKING);
   ("xadd", Z.lor CMD_SPEC_UNSUPPORTED CMD_SPEC_RANDOM);
   ("xrange", CMD_SPEC_UNSUPPORTED);
   ("xrevrange", CMD_SPEC_UNSUPPORTED);
   ("xlen", CMD_SPEC_UNSUPPORTED);
   ("xread", CMD_SPEC_UNSUPPORTED);
   ("xreadgroup", CMD_SPEC_UNSUPPORTED);
   ("xgroup", CMD_SPEC_UNSUPPORTED);
   ("xsetid", CMD_SPEC_UNSUPPORTED);
   ("xack", Z.lor CMD_SPEC_UNSUPPORTED CMD_SPEC_RANDOM);
   ("xpending", Z.lor CMD_SPEC_UNSUPPORTED CMD_SPEC_RANDOM);
   ("xclaim", Z.lor CMD_SPEC_UNSUPPORTED CMD_SPEC_RANDOM);
   ("xautoclaim", Z.lor CMD_SPEC_UNSUPPORTED CMD_SPEC_RANDOM);
   ("xinfo", CMD_SPEC_UNSUPPORTED);
   ("xdel", CMD_SPEC_UNSUPPORTED);
   ("xtrim", Z.lor CMD_SPEC_UNSUPPORTED CMD_SPEC_RANDOM);
   ("unsubscribe", CMD_SPEC_DONT_INTERCEPT);
   ("sunsubscribe", CMD_SPEC_DONT_INTERCEPT);
   ("punsubscribe", CMD_SPEC_DONT_INTERCEPT);
   ("publish", CMD_SPEC_READONLY);
   ("spublish", CMD_SPEC_READONLY);
   ("pubsub", CMD_SPEC_READONLY);
   ("auth", CMD_SPEC_DONT_INTERCEPT);
   ("ping", CMD_SPEC_DONT_INTERCEPT);
   ("hello", CMD_SPEC_DONT_INTERCEPT);
   ("module", CMD_SPEC_DONT_INTERCEPT);
   ("config", CMD_SPEC_DONT_INTERCEPT);
   ("monitor", CMD_SPEC_DONT_INTERCEPT);
   ("command", CMD_SPEC_DONT_INTERCEPT);
   ("shutdown", CMD_SPEC_DONT_INTERCEPT);
   ("quit", CMD_SPEC_DONT_INTERCEPT);
   ("slowlog", CMD_SPEC_DONT_INTERCEPT);
   ("acl", CMD_SPEC_DONT_INTERCEPT);
   ("multi", CMD_SPEC_MULTI);
   ("raft", CMD_SPEC_DONT_INTERCEPT);
   ("raft.entry", CMD_SPEC_DONT_INTERCEPT);
   ("raft.cluster", CMD_SPEC_DONT_INTERCEPT);
   ("raft.shardgroup", CMD_SPEC_DONT_INTERCEPT);
   ("raft.node", CMD_SPEC_DONT_INTERCEPT);
   ("raft.ae", CMD_SPEC_DONT_INTERCEPT);
   ("raft.requestvote", CMD_SPEC_DONT_INTERCEPT);
   ("raft.snapshot", CMD_SPEC_DONT_INTERCEPT);
   ("raft.debug", CMD_SPEC_DONT_INTERCEPT);
   ("raft.nodeshutdown", CMD_SPEC_DONT_INTERCEPT);
   ("raft.transfer_leader", CMD_SPEC_DONT_INTERCEPT);
   ("raft.timeout_now", CMD_SPEC_DONT_INTERCEPT);
   ("raft._sort_reply", CMD_SPEC_DONT_INTERCEPT);
   ("raft._reject_random_command", CMD_SPEC_DONT_INTERCEPT);
   ("raft.import", CMD_SPEC_DONT_INTERCEPT);
   ("raft.scan", CMD_SPEC_READONLY);
   ("client", Z.lor CMD_SPEC_SUBCOMMAND CMD_SPEC_DONT_INTERCEPT)].

(** ** The table *)

(** A [CommandSpecTable]: flags by name.  The names are unique. *)
Abbreviation CommandSpecTable := (gmap (list Z) Z).

(** [getOrCreateCommandSpec]: looking up, *)
Definition getCommandSpec (t : CommandSpecTable) (cmd : list Z) : option Z := t !! lower cmd.

(** and with [create], followed by [cs->flags |= flags]. *)
Definition orCommandSpec (t : CommandSpecTable) (cmd : list Z) (flags : Z) : CommandSpecTable :=
  <[lower cmd := Z.lor (default 0 (t !! lower cmd)) flags]> t.

(** A command as COMMAND reports it: name, flags and hints. *)
Record command_info := mk_info {
  ci_name : list Z;
  ci_flags : list (list Z);
  ci_hints : list (list Z)
}.

(** [strncmp(str, name, len) == 0], [len] being the length of [str] *)
Definition prefix_of_name (name : String.string) (str : list Z) : bool := strncmp_eq str (bytes_of name) (length str).

Definition flag_bits (str : list Z) : Z := if prefix_of_name "readonly" str then CMD_SPEC_READONLY else 0.

Definition hint_bits (str : list Z) : Z :=
  if prefix_of_name "nondeterministic_output" str then CMD_SPEC_RANDOM
  else if prefix_of_name "nondeterministic_output_order" str then CMD_SPEC_SORT_REPLY else 0.

Definition cmdspec_flags (c : command_info) : Z :=
  foldl (fun f s => Z.lor f (hint_bits s)) (foldl (fun f s => Z.lor f (flag_bits s)) 0 (ci_flags c)) (ci_hints c).

Definition populate_command (t : CommandSpecTable) (c : command_info) : CommandSpecTable :=
  let flags := cmdspec_flags c in
  if flags =? 0 then t else orCommandSpec t (ci_name c) flags.

Definition populateCommandSpecFromRedis (reply : list command_info) (t : CommandSpecTable) : CommandSpecTable :=
  foldl populate_command t reply.

(** [strtok_r(s, ",", ..)]: the tokens, none of them empty; [tok] is the token
    that is being read, backwards. *)
Fixpoint strtok_comma (tok s : list Z) : list (list Z) :=
  let flush := match tok with [] => [] | _ => [rev tok] end in
  match s with
  | [] => flush
  | c :: s' => if c =? 44 then flush ++ strtok_comma [] s' else strtok_comma (c :: tok) s'
  end.

Definition ignore_command (t : CommandSpecTable) (tok : list Z) : CommandSpecTable :=
  match t !! tok with
  | Some flags => <[tok := Z.lor flags CMD_SPEC_DONT_INTERCEPT]> t
  | None => <[tok := CMD_SPEC_DONT_INTERCEPT]> t
  end.

Definition updateIgnoredCommands (commands_str : list Z) (t : CommandSpecTable) : CommandSpecTable :=
  foldl ignore_command t (strtok_comma [] (c_string commands_str)).

(** The commands of the list, which the code asserts to be different. *)
Fixpoint add_commands (l : list (String.string * Z)) (t : CommandSpecTable) : outcome CommandSpecTable :=
  match l with
  | [] => Done t
  | (name, flags) :: l' =>
      match t !! bytes_of name with
      | Some _ => Abort
      | None => add_commands l' (<[bytes_of name := flags]> t)
      end
  end.

Definition buildCommandSpecTable (command_list : list (String.string * Z)) (ignored_commands : option (list Z))
    (from_redis : option (list command_info)) : outcome CommandSpecTable :=
  match add_commands command_list ∅ with
  | Done t =>
      let t := match ignored_commands with Some s => updateIgnoredCommands s t | None => t end in
      Done (match from_redis with Some reply => populateCommandSpecFromRedis reply t | None => t end)
  | Abort => Abort
  | OutOfFuel => OutOfFuel
  end.

Definition CommandSpecTableRebuild (ignored_commands : option (list Z)) (reply : list command_info) :
    outcome CommandSpecTable :=
  buildCommandSpecTable commands ignored_commands (Some reply).

Definition CommandSpecTableInit (reply : list command_info) : outcome CommandSpecTable :=
  buildCommandSpecTable commands None (Some reply).

(** The tables of subcommands, by command. *)
Definition SubCommandsSpecTableInit : outcome (gmap (list Z) CommandSpecTable) :=
  match buildCommandSpecTable clientCommands None None with
  | Done t => Done {[bytes_of "client" := t]}
  | Abort => Abort
  | OutOfFuel => OutOfFuel
  end.

(** [None] is the result -1. *)
Definition CommandSpecTableGetFlags (t : CommandSpecTable) (sub_command_tables : gmap (list Z) CommandSpecTable)
    (cmd : list Z) (subcmd : option (list Z)) : option Z :=
  match getCommandSpec t cmd with
  | None => None
  | Some flags =>
      match subcmd with
      | None => Some flags
      | Some subcmd =>
          if negb (has_flag CMD_SPEC_SUBCOMMAND flags) then Some flags else
          let defaults := Z.ldiff flags CMD_SPEC_SUBCOMMAND in
          match sub_command_tables !! c_string (lower cmd) with
          | None => Some defaults
          | Some sub =>
              match getCommandSpec sub subcmd with
              | None => Some defaults
              | Some sub_flags => Some sub_flags
              end
          end
      end
  end.

(** [array->commands[i]->argv[0]] of a command without arguments is undefined. *)
Fixpoint CommandSpecTableGetAggregateFlags (t : CommandSpecTable) (sub : gmap (list Z) CommandSpecTable)
    (array : list (list (list Z))) (default_flags : Z) : outcome Z :=
  match array with
  | [] => Done 0
  | [] :: _ => Abort
  | (cmd :: args) :: array' =>
      match CommandSpecTableGetAggregateFlags t sub array' default_flags with
      | Done flags => Done (Z.lor (default default_flags (CommandSpecTableGetFlags t sub cmd (head args))) flags)
      | o => o
      end
  end.

(** ** The command filter

    The arguments of a command after [interceptRedisCommands]: [in_call] is
    [checkInRedisModuleCall()], and [allow] is [allowSubscribe(rr)]. *)
Definition interceptRedisCommands (t : CommandSpecTable) (sub : gmap (list Z) CommandSpecTable)
    (in_call entered_eval allow : bool) (args : list (list Z)) : list (list Z) :=
  match args with
  | [] => []
  | cmd :: rest =>
      let flags := CommandSpecTableGetFlags t sub cmd (head rest) in
      if in_call then
        if entered_eval then
          match flags with
          | None => args
          | Some flags =>
              if has_flag CMD_SPEC_SORT_REPLY flags then bytes_of "RAFT._SORT_REPLY" :: args
              else if has_flag CMD_SPEC_RANDOM flags then bytes_of "RAFT._REJECT_RANDOM_COMMAND" :: args
              else args
          end
        else args
      else if match flags with Some flags => has_flag CMD_SPEC_DONT_INTERCEPT flags | None => false end then args
      else if is_cmd "SUBSCRIBE" cmd || is_cmd "SSUBSCRIBE" cmd || is_cmd "PSUBSCRIBE" cmd then
        if negb allow then bytes_of "RAFT._REJECT_SUBSCRIBE" :: args else args
      else bytes_of "RAFT" :: args
  end.

(** * Properties *)

(** ** The names *)

Lemma tolower_idem c : tolower (tolower c) = tolower c.
Proof. unfold tolower. destruct (Z.leb_spec 65 c), (Z.leb_spec c 90); cbn [andb]; repeat case_match; lia. Qed.

Lemma lower_idem s : lower (lower s) = lower s.
Proof. unfold lower. rewrite <- list_fmap_compose. apply list_fmap_ext. intros. apply tolower_idem. Qed.

Lemma is_cmd_lower name cmd : is_cmd name (lower cmd) = is_cmd name cmd.
Proof. unfold is_cmd. rewrite lower_idem. unfold lower. by rewrite length_fmap. Qed.

(** ** What the table says *)

(** A flag as a number of the table: absent is 0. *)
Definition table_flags (t : CommandSpecTable) (k : list Z) : Z := default 0 (t !! k).

Lemma or_command_lookup t cmd f k :
  orCommandSpec t cmd f !! k = if decide (lower cmd = k) then Some (Z.lor (table_flags t k) f) else t !! k.
Proof. unfold orCommandSpec. rewrite lookup_insert. by case_decide; subst. Qed.

(** The flags that reports of Redis add to a command. *)
Definition reported_flags (reply : list command_info) (k : list Z) : Z :=
  foldr (fun c f => Z.lor (if bool_decide (lower (ci_name c) = k) then cmdspec_flags c else 0) f) 0 reply.

Lemma populate_flags reply : forall t k,
  table_flags (populateCommandSpecFromRedis reply t) k = Z.lor (table_flags t k) (reported_flags reply k) /\
  (is_Some (populateCommandSpecFromRedis reply t !! k) <-> is_Some (t !! k) \/ reported_flags reply k <> 0).
Proof.
  induction reply as [|c reply IH]; intros t k.
  { cbn. rewrite Z.lor_0_r. split; [done|]. tauto. }
  unfold populateCommandSpecFromRedis. cbn [foldl]. fold (populateCommandSpecFromRedis reply (populate_command t c)).
  destruct (IH (populate_command t c) k) as [-> ->]. cbn [reported_flags foldr]. fold (reported_flags reply k).
  unfold populate_command. destruct (Z.eqb_spec (cmdspec_flags c) 0) as [->|Hne].
  { replace (if bool_decide (lower (ci_name c) = k) then 0 else 0) with 0 by (by case_bool_decide).
    by rewrite Z.lor_0_l. }
  unfold table_flags at 1. rewrite or_command_lookup. case_decide as Hk.
  - rewrite bool_decide_true by done. split; [by rewrite Z.lor_assoc|].
    split; [intros _; right|intros _; left; by eexists]. intros [E _]%Z.lor_eq_0_iff. done.
  - rewrite bool_decide_false by done. rewrite Z.lor_0_l. done.
Qed.

Lemma ignore_lookup t tok k :
  ignore_command t tok !! k = if decide (tok = k) then Some (Z.lor (table_flags t k) CMD_SPEC_DONT_INTERCEPT) else t !! k.
Proof.
  unfold ignore_command, table_flags. destruct (t !! tok) as [f|] eqn:E; rewrite lookup_insert; case_decide; subst; try done.
  - by rewrite E.
  - by rewrite E.
Qed.

Definition ignored_flags (toks : list (list Z)) (k : list Z) : Z :=
  if bool_decide (k ∈ toks) then CMD_SPEC_DONT_INTERCEPT else 0.

Lemma ignore_flags toks : forall t k,
  table_flags (foldl ignore_command t toks) k = Z.lor (table_flags t k) (ignored_flags toks k) /\
  (is_Some (foldl ignore_command t toks !! k) <-> is_Some (t !! k) \/ k ∈ toks).
Proof.
  induction toks as [|tok toks IH]; intros t k; cbn [foldl].
  { unfold ignored_flags. rewrite bool_decide_false by apply not_elem_of_nil. rewrite Z.lor_0_r. split; [done|].
    rewrite elem_of_nil. tauto. }
  destruct (IH (ignore_command t tok) k) as [-> ->]. unfold table_flags at 1. rewrite ignore_lookup, elem_of_cons.
  unfold ignored_flags. case_decide as Hk.
  - subst tok. split; [|split; [tauto|intros _; left; by eexists]]. cbn [default from_option id].
    rewrite (bool_decide_true (k ∈ k :: toks)) by (by left). case_bool_decide.
    + by rewrite <- Z.lor_assoc, Z.lor_diag.
    + by rewrite Z.lor_0_r.
  - rewrite (bool_decide_ext (k ∈ tok :: toks) (k ∈ toks)); [|rewrite elem_of_cons; naive_solver].
    split; [done|]. naive_solver.
Qed.

Definition list_table (l : list (String.string * Z)) : CommandSpecTable :=
  foldl (fun t nf => <[bytes_of (fst nf) := snd nf]> t) ∅ l.

Lemma add_commands_foldl l : forall t t', add_commands l t = Done t' ->
  t' = foldl (fun t nf => <[bytes_of (fst nf) := snd nf]> t) t l.
Proof.
  induction l as [|[name flags] l IH]; intros t t'; cbn [add_commands foldl]; [congruence|].
  destruct (t !! _); [done|]. apply IH.
Qed.

Lemma commands_added : add_commands commands ∅ = Done (list_table commands).
Proof.
  assert (match add_commands commands ∅ with Done _ => true | _ => false end = true) as E by (vm_compute; reflexivity).
  destruct (add_commands commands ∅) as [t| |] eqn:Et; [|done|done]. by rewrite (add_commands_foldl _ _ _ Et).
Qed.

Lemma table_spec (ignored : option (list Z)) (reply : list command_info) :
  exists t, CommandSpecTableRebuild ignored reply = Done t /\
    let toks := match ignored with Some s => strtok_comma [] (c_string s) | None => [] end in
    forall k,
      table_flags t k = Z.lor (Z.lor (table_flags (list_table commands) k) (ignored_flags toks k)) (reported_flags reply k) /\
      (is_Some (t !! k) <-> (is_Some (list_table commands !! k) \/ k ∈ toks) \/ reported_flags reply k <> 0).
Proof.
  unfold CommandSpecTableRebuild, buildCommandSpecTable. rewrite commands_added. eexists. split; [done|]. cbv zeta. intros k.
  destruct ignored as [s|].
  - destruct (populate_flags reply (updateIgnoredCommands s (list_table commands)) k) as [-> ->].
    unfold updateIgnoredCommands. by destruct (ignore_flags (strtok_comma [] (c_string s)) (list_table commands) k) as [-> ->].
  - destruct (populate_flags reply (list_table commands) k) as [-> ->].
    unfold ignored_flags. rewrite bool_decide_false by apply not_elem_of_nil. rewrite Z.lor_0_r, elem_of_nil. split; [done|]. tauto.
Qed.

(** (functional). The table of commands can always be built: the fixed
    list has no name twice.  A command is in it if it is in the fixed list, among
    the ignored commands of the configuration, or reported by Redis with a flag
    that matters; its flags are those of the list, DONT_INTERCEPT if it is
    ignored, and the reported ones. *)
Theorem command_table (ignored : option (list Z)) (reply : list command_info) :
  exists t, CommandSpecTableRebuild ignored reply = Done t /\
    let toks := match ignored with Some s => strtok_comma [] (c_string s) | None => [] end in
    forall k,
      table_flags t k = Z.lor (Z.lor (table_flags (list_table commands) k) (ignored_flags toks k)) (reported_flags reply k) /\
      (is_Some (t !! k) <-> (is_Some (list_table commands !! k) \/ k ∈ toks) \/ reported_flags reply k <> 0).
Proof. exact (table_spec ignored reply). Qed.

(** ** What the filter lets through *)

Lemma flag_bits_sound str : Z.land (flag_bits str) (Z.lor CMD_SPEC_DONT_INTERCEPT CMD_SPEC_SUBCOMMAND) = 0.
Proof. unfold flag_bits. by case_match. Qed.

Lemma hint_bits_sound str : Z.land (hint_bits str) (Z.lor CMD_SPEC_DONT_INTERCEPT CMD_SPEC_SUBCOMMAND) = 0.
Proof. unfold hint_bits. by repeat case_match. Qed.

Lemma land_lor_zero a b m : Z.land a m = 0 -> Z.land b m = 0 -> Z.land (Z.lor a b) m = 0.
Proof. intros Ha Hb. by rewrite Z.land_lor_distr_l, Ha, Hb. Qed.

Lemma fold_bits_sound (f : list Z -> Z) m l : (forall s, Z.land (f s) m = 0) -> forall a, Z.land a m = 0 ->
  Z.land (foldl (fun x s => Z.lor x (f s)) a l) m = 0.
Proof. intros Hf. induction l as [|s l IH]; intros a Ha; cbn [foldl]; [done|]. apply IH. by apply land_lor_zero. Qed.

Lemma reported_sound reply k : Z.land (reported_flags reply k) (Z.lor CMD_SPEC_DONT_INTERCEPT CMD_SPEC_SUBCOMMAND) = 0.
Proof.
  induction reply as [|c reply IH]; [done|]. cbn [reported_flags foldr]. apply land_lor_zero; [|done].
  case_bool_decide; [|done]. unfold cmdspec_flags.
  apply fold_bits_sound; [apply hint_bits_sound|]. by apply fold_bits_sound; [apply flag_bits_sound|].
Qed.

Lemma has_flag_lor f a b : has_flag f (Z.lor a b) = has_flag f a || has_flag f b.
Proof.
  unfold has_flag. rewrite Z.land_lor_distr_l.
  destruct (Z.eqb_spec (Z.lor (Z.land a f) (Z.land b f)) 0) as [E|E].
  - apply Z.lor_eq_0_iff in E as [-> ->]. done.
  - destruct (Z.eqb_spec (Z.land a f) 0) as [Ha|]; [|done]. destruct (Z.eqb_spec (Z.land b f) 0) as [Hb|]; [|done].
    by rewrite Ha, Hb in E.
Qed.

Lemma reported_no_flag f reply k :
  f = CMD_SPEC_DONT_INTERCEPT \/ f = CMD_SPEC_SUBCOMMAND -> has_flag f (reported_flags reply k) = false.
Proof.
  intros Hf. pose proof (reported_sound reply k) as H. rewrite Z.land_lor_distr_r in H. apply Z.lor_eq_0_iff in H as [H1 H2].
  unfold has_flag. destruct Hf as [-> | ->]; by rewrite ?H1, ?H2.
Qed.

Definition excluded (nf : String.string * Z) : Prop :=
  has_flag CMD_SPEC_DONT_INTERCEPT (snd nf) = true /\ has_flag CMD_SPEC_SUBCOMMAND (snd nf) = false.
#[export] Instance excluded_dec nf : Decision (excluded nf).
Proof. unfold excluded. apply _. Defined.

Lemma excluded_in_table nf : nf ∈ filter excluded commands -> list_table commands !! bytes_of (fst nf) = Some (snd nf).
Proof.
  assert (Forall (fun nf => list_table commands !! bytes_of (fst nf) = Some (snd nf)) (filter excluded commands)) as H.
  { apply (bool_decide_unpack _). vm_compute. exact I. }
  rewrite Forall_forall in H. apply H.
Qed.

(** (safety). Whatever is configured and whatever Redis reports, the commands of
    the fixed list marked as excluded, which are those the servers send each other
    and those that concern one server only, are never put into the log: in any
    letter case they pass the filter unchanged.  The prefix RAFT is one of them,
    so a command is prefixed once. *)
Theorem excluded_commands_pass (ignored : option (list Z)) (reply : list command_info) t sub nf cmd args
    (entered_eval allow : bool) :
  CommandSpecTableRebuild ignored reply = Done t -> nf ∈ commands -> excluded nf ->
  lower cmd = bytes_of (fst nf) ->
  interceptRedisCommands t sub false entered_eval allow (cmd :: args) = cmd :: args /\
  interceptRedisCommands t sub false entered_eval allow (bytes_of "RAFT" :: args) = bytes_of "RAFT" :: args.
Proof.
  intros Ht Hin Hex Hcmd. destruct (table_spec ignored reply) as (t' & E & Hspec). rewrite Ht in E. injection E as <-.
  assert (forall nf cmd, nf ∈ filter excluded commands -> lower cmd = bytes_of (fst nf) ->
    interceptRedisCommands t sub false entered_eval allow (cmd :: args) = cmd :: args) as Hpass.
  { clear nf cmd Hin Hex Hcmd. intros nf cmd Hin Hcmd. pose proof (excluded_in_table nf Hin) as Hl.
    apply list_elem_of_filter in Hin as [[H1 H2] _].
    assert (exists f, t !! lower cmd = Some f /\ has_flag CMD_SPEC_DONT_INTERCEPT f = true /\
      has_flag CMD_SPEC_SUBCOMMAND f = false) as (f & Hf & Hd & Hs).
    { destruct (Hspec (lower cmd)) as [Hflags Hsome]. destruct (t !! lower cmd) as [f|] eqn:Ef.
      2: { exfalso. destruct Hsome as [_ Hs]. destruct Hs as [? ?]; [|done]. left. left. rewrite Hcmd, Hl. by eexists. }
      exists f. split; [done|]. unfold table_flags in Hflags. rewrite Ef, Hcmd, Hl in Hflags. cbn [default from_option id] in Hflags.
      rewrite Hflags, !has_flag_lor, H1, H2, !reported_no_flag by tauto. split; [done|].
      unfold ignored_flags. by case_bool_decide. }
    unfold interceptRedisCommands, CommandSpecTableGetFlags, getCommandSpec. rewrite Hf, Hs. cbn [negb].
    destruct (head args); by rewrite Hd. }
  split.
  - apply (Hpass nf); [|exact Hcmd]. rewrite list_elem_of_filter. split; [exact Hex|exact Hin].
  - apply (Hpass ("raft", CMD_SPEC_DONT_INTERCEPT)); [|by vm_compute].
    apply (bool_decide_unpack _). vm_compute. exact I.
Qed.

(** The configuration stores the names of ignored commands as they are written,
    while commands are looked up in lower case: an ignored command written in
    capitals is intercepted. *)
Example ignored_in_capitals :
  match CommandSpecTableRebuild (Some (bytes_of "FT.SEARCH")) [] with
  | Done t => interceptRedisCommands t ∅ false false true [bytes_of "FT.SEARCH"; bytes_of "x"]
  | _ => []
  end = [bytes_of "RAFT"; bytes_of "FT.SEARCH"; bytes_of "x"].
Proof. vm_compute. reflexivity. Qed.

Lemma excluded_commands_pass_witness :
  exists t, CommandSpecTableRebuild (Some (bytes_of "ft.search")) [mk_info (bytes_of "get") [bytes_of "readonly"] []] = Done t /\
    interceptRedisCommands t ∅ false false true [bytes_of "Raft.AE"; bytes_of "1"] = [bytes_of "Raft.AE"; bytes_of "1"].
Proof.
  destruct (table_spec (Some (bytes_of "ft.search")) [mk_info (bytes_of "get") [bytes_of "readonly"] []]) as (t & E & _).
  exists t. split; [exact E|].
  apply (excluded_commands_pass (Some (bytes_of "ft.search")) [mk_info (bytes_of "get") [bytes_of "readonly"] []]
           t ∅ ("raft.ae", CMD_SPEC_DONT_INTERCEPT) (bytes_of "Raft.AE") [bytes_of "1"] false true E);
    [|split; reflexivity|vm_compute; reflexivity].
  apply (bool_decide_unpack _). vm_compute. exact I.
Defined.
