(* ===== verification/Blocked.v ===== *)
(** * Blocked commands ([redisraft/src/blocked.c])

    A blocking command that waits is kept until it is answered: in a list, in the
    order in which the commands blocked, and in a dictionary by the index of the
    log entry, "to reproduce java's LinkedHashMap" ([redisraft.h]). *)

From stdpp Require Import base list numbers tactics gmap strings.
From S2P Require Import Prelude Libc File Multibulk Serialization Commands.

Local Open Scope Z_scope.

(** [bc_req] is the address of the request, [bc_reply] the promise that Redis
    gave; [data_len] is the length of [bc_data]. *)
Record BlockedCommand := mk_bc {
  bc_command : list Z;
  bc_idx : Z;
  bc_session : Z;
  bc_data : list Z;
  bc_req : option Z;
  bc_reply : Z
}.

(** The allocated commands ([bl_brk]: the next free address), and
    [blocked_command_list] and [blocked_command_dict] of [RedisRaftCtx]. *)
Record blocked := mk_blocked {
  bl_heap : gmap Z BlockedCommand;
  bl_brk : Z;
  bl_list : list Z;
  bl_dict : gmap Z Z
}.
#[export] Instance eta_blocked : Eta blocked := fun b => mk_blocked (bl_heap b) (bl_brk b) (bl_list b) (bl_dict b).
#[export] Instance set_bl_heap : Setter bl_heap. Proof. solve_setter. Defined.
#[export] Instance set_bl_brk : Setter bl_brk. Proof. solve_setter. Defined.
#[export] Instance set_bl_list : Setter bl_list. Proof. solve_setter. Defined.
#[export] Instance set_bl_dict : Setter bl_dict. Proof. solve_setter. Defined.

Definition blocked_zero : blocked := mk_blocked ∅ 1 [] ∅.

(** ** Operations *)

Definition deref_bc (p : Z) : M blocked BlockedCommand :=
  b <- get ;;
  match bl_heap b !! p with
  | Some bc => ret bc
  | None => abort
  end.

Definition allocBlockedCommand (cmd_name : list Z) (idx session : Z) (data : list Z) (req : option Z) (reply : Z) :
    M blocked Z :=
  b <- get ;;
  modify (fun b => b <| bl_heap ::= <[bl_brk b := mk_bc (c_string cmd_name) idx session data req reply]> |>
                     <| bl_brk := bl_brk b + 1 |>) ;;
  ret (bl_brk b).

(** [sc_list_add_tail] takes an element out first; [RedisModule_DictSetC] leaves
    a key that is there as it is. *)
Definition addBlockedCommand (p : Z) : M blocked unit :=
  bc <- deref_bc p ;;
  modify (fun b => b <| bl_list := filter (fun q => q <> p) (bl_list b) ++ [p] |>) ;;
  modify (fun b => match bl_dict b !! bc_idx bc with
                   | Some _ => b
                   | None => b <| bl_dict ::= <[bc_idx bc := p]> |>
                   end).

Definition deleteBlockedCommand (idx : Z) : M blocked unit :=
  b <- get ;;
  match bl_dict b !! idx with
  | None => ret tt
  | Some p =>
      modify (fun b => b <| bl_dict ::= delete idx |>) ;;
      deref_bc p ;;
      modify (fun b => b <| bl_list ::= filter (fun q => q <> p) |>)
  end.

Definition freeBlockedCommand (p : Z) : M blocked unit :=
  deref_bc p ;;
  modify (fun b => b <| bl_heap ::= delete p |>).

Definition getBlockedCommand (idx : Z) (b : blocked) : option Z := bl_dict b !! idx.

(** [sc_list_pop_head] *)
Definition pop_head : M blocked (option Z) :=
  b <- get ;;
  match bl_list b with
  | [] => ret None
  | p :: l => modify (fun b => b <| bl_list := l |>) ;; ret (Some p)
  end.

(** ** Timeouts *)

Definition findTimeoutIndex (cmd : list (list Z)) : outcome Z :=
  match cmd with
  | [] => Abort
  | name :: _ =>
      Done (if has_prefix "brpop" name || has_prefix "blpop" name || has_prefix "bzpopmin" name ||
               has_prefix "bzpopmax" name || has_prefix "blmove" name || has_prefix "brpoplpush" name
            then Z.of_nat (length cmd) - 1
            else if has_prefix "blmpop" name || has_prefix "bzmpop" name then 1 else -1)
  end.

Definition LLONG_MAX : Z := 2 ^ 63 - 1.

Inductive timeout_error := TIMEOUT_NO_FLOAT | TIMEOUT_RANGE | TIMEOUT_NEGATIVE.

Definition timeout_error_text (e : timeout_error) : String.string :=
  match e with
  | TIMEOUT_NO_FLOAT => "ERR timeout is not a float or out of range"
  | TIMEOUT_RANGE => "ERR timeout is out of range"
  | TIMEOUT_NEGATIVE => "ERR timeout is negative"
  end.

(** The timeout in milliseconds.  A [long double] is an integer and a fraction:
    [StringToLongDouble] gives [n] and [d > 0] for [n / d]; [now] is
    [RedisModule_Milliseconds()].  [tmp * 1000.0 > LLONG_MAX] compares with
    [2 ^ 63 - 1], which a [long double] holds exactly. *)
Definition extractBlockingTimeout (StringToLongDouble : list Z -> option (Z * Z)) (now : Z)
    (cmds : list (list (list Z))) : outcome (timeout_error + Z) :=
  match cmds with
  | [cmd] =>
      if Z.of_nat (length cmd) <? 2 then Done (inl TIMEOUT_NO_FLOAT) else
      match findTimeoutIndex cmd with
      | Done index =>
          if index =? -1 then Done (inl TIMEOUT_NO_FLOAT) else
          match zlookup cmd index with
          | None => Abort
          | Some arg =>
              match StringToLongDouble arg with
              | None => Done (inl TIMEOUT_NO_FLOAT)
              | Some (n, d) =>
                  if LLONG_MAX * d <? n * 1000 then Done (inl TIMEOUT_RANGE) else
                  let timeout := - (- (n * 1000) / d) in
                  if timeout <? 0 then Done (inl TIMEOUT_NEGATIVE)
                  else if LLONG_MAX - now <? timeout then Done (inl TIMEOUT_RANGE)
                  else Done (inr timeout)
              end
          end
      | Abort => Abort
      | OutOfFuel => OutOfFuel
      end
  | _ => Abort
  end.

Definition replaceBlockingTimeout (cmds : list (list (list Z))) : outcome (list (list (list Z))) :=
  match cmds with
  | [cmd] =>
      if Z.of_nat (length cmd) <? 2 then Abort else
      match findTimeoutIndex cmd with
      | Done index =>
          match zinsert index (bytes_of "0") cmd with
          | Some cmd' => Done [cmd']
          | None => Abort
          end
      | Abort => Abort
      | OutOfFuel => OutOfFuel
      end
  | _ => Abort
  end.

(** * The list and the dictionary are one ordered map *)

(** The blocked commands in the order in which they blocked. *)
Definition contents (b : blocked) : list BlockedCommand := omap (fun p => bl_heap b !! p) (bl_list b).

Record blk_wf (b : blocked) : Prop := {
  bw_nodup : NoDup (bl_list b);
  bw_alloc p : p ∈ bl_list b -> is_Some (bl_heap b !! p);
  bw_dict i p : bl_dict b !! i = Some p <-> p ∈ bl_list b /\ exists bc, bl_heap b !! p = Some bc /\ bc_idx bc = i;
  bw_brk p : is_Some (bl_heap b !! p) -> p < bl_brk b
}.

Lemma blocked_zero_wf : blk_wf blocked_zero.
Proof.
  split; cbn; [constructor|by intros ? ?%elem_of_nil| |by intros ? [? ?]].
  intros i p. split; [done|]. by intros [?%elem_of_nil _].
Qed.

Lemma contents_elem b bc : bc ∈ contents b <-> exists p, p ∈ bl_list b /\ bl_heap b !! p = Some bc.
Proof. unfold contents. by rewrite list_elem_of_omap. Qed.

Lemma contents_length b : blk_wf b -> length (contents b) = length (bl_list b).
Proof.
  intros [_ Ha _ _]. unfold contents. induction (bl_list b) as [|p l IH]; [done|].
  destruct (Ha p ltac:(by left)) as [bc Hbc]. cbn. rewrite Hbc. cbn. rewrite IH; [done|]. intros q Hq. apply Ha. by right.
Qed.

(** The index of a blocked command decides its address. *)
Lemma idx_unique b p q bc bc' : blk_wf b -> p ∈ bl_list b -> q ∈ bl_list b ->
  bl_heap b !! p = Some bc -> bl_heap b !! q = Some bc' -> bc_idx bc = bc_idx bc' -> p = q.
Proof.
  intros [_ _ Hd _] Hp Hq Ep Eq E.
  assert (bl_dict b !! bc_idx bc = Some p) as H1 by (apply Hd; eauto).
  assert (bl_dict b !! bc_idx bc = Some q) as H2 by (apply Hd; rewrite E; eauto). congruence.
Qed.

Lemma contents_keys b : blk_wf b -> NoDup (bc_idx <$> contents b).
Proof.
  intros Hwf. pose proof Hwf as [Hn _ _ _]. unfold contents.
  assert (forall l, NoDup l -> (forall p, p ∈ l -> p ∈ bl_list b) -> NoDup (bc_idx <$> omap (fun p => bl_heap b !! p) l)) as H.
  { induction l as [|p l IH]; intros Hnd Hsub; [constructor|]. apply NoDup_cons in Hnd as [Hp Hnd].
    cbn. destruct (bl_heap b !! p) as [bc|] eqn:Ep; [|apply IH; [done|]; intros; apply Hsub; by right].
    rewrite fmap_cons. apply NoDup_cons. split; [|apply IH; [done|]; intros; apply Hsub; by right].
    intros (bc' & E & (q & Hq & Eq)%list_elem_of_omap)%list_elem_of_fmap.
    assert (p = q) as -> by (eapply (idx_unique b); [done|apply Hsub; by left|apply Hsub; by right|done..]). done. }
  by apply H.
Qed.

(** Which commands an operation keeps. *)
Lemma filter_contents (h : gmap Z BlockedCommand) (l : list Z) q bc : NoDup l -> h !! q = Some bc ->
  (forall p bc', p ∈ l -> h !! p = Some bc' -> bc_idx bc' = bc_idx bc -> p = q) -> q ∈ l ->
  omap (fun p => h !! p) (filter (fun p => p <> q) l) =
  filter (fun c => bc_idx c <> bc_idx bc) (omap (fun p : Z => h !! p) l : list BlockedCommand).
Proof.
  intros Hnd Hq Huniq Hin. clear Hin. induction l as [|p l IH]; [done|].
  apply NoDup_cons in Hnd as [Hp Hnd].
  assert (forall p' bc', p' ∈ l -> h !! p' = Some bc' -> bc_idx bc' = bc_idx bc -> p' = q) as Huniq'.
  { intros p' bc' ?. apply Huniq. by right. }
  specialize (IH Hnd Huniq').
  assert (forall l', omap (fun p => h !! p) (p :: l') =
    match h !! p with Some c => c :: omap (fun p => h !! p) l' | None => omap (fun p => h !! p) l' end) as Hom by done.
  rewrite Hom, filter_cons. destruct (h !! p) as [bc'|] eqn:Ep; case_decide as Hd.
  - rewrite Hom, filter_cons_True by (intros E; apply Hd; by apply (Huniq p bc'); [left|..]). by rewrite IH.
  - subst p. rewrite Hq in Ep. injection Ep as <-.
    by rewrite filter_cons_False by (intros Hn; by apply Hn).
  - by rewrite Hom.
  - done.
Qed.

Lemma filter_absent (p : Z) (l : list Z) : (p ∉ l) -> filter (fun q => q <> p) l = l.
Proof.
  intros Hp. induction l as [|q l IH]; [done|]. apply not_elem_of_cons in Hp as [Hne Hp].
  rewrite filter_cons_True by congruence. by rewrite IH.
Qed.

Lemma omap_ext_in {A B} (f g : A -> option B) (l : list A) : (forall x, x ∈ l -> f x = g x) -> omap f l = omap g l.
Proof.
  induction l as [|x l IH]; intros Hfg; [done|]. cbn. rewrite (Hfg x) by (by left).
  by rewrite IH by (intros; apply Hfg; by right).
Qed.

Definition new_bc (cmd_name : list Z) (idx session : Z) (data : list Z) (req : option Z) (reply : Z) : BlockedCommand :=
  mk_bc (c_string cmd_name) idx session data req reply.

(** The state after a command has been added. *)
Definition blocked_added (bc : BlockedCommand) (b : blocked) : blocked :=
  mk_blocked (<[bl_brk b := bc]> (bl_heap b)) (bl_brk b + 1) (bl_list b ++ [bl_brk b]) (<[bc_idx bc := bl_brk b]> (bl_dict b)).

Lemma fresh_address b : blk_wf b -> bl_brk b ∉ bl_list b.
Proof. intros [_ Ha _ Hb] Hin. pose proof (Hb _ (Ha _ Hin)). lia. Qed.

Lemma fresh_index b bc : blk_wf b -> (bc_idx bc ∉ bc_idx <$> contents b) -> bl_dict b !! bc_idx bc = None.
Proof.
  intros [_ _ Hd _] Hf. destruct (bl_dict b !! bc_idx bc) as [p|] eqn:E; [|done]. exfalso. apply Hf.
  apply Hd in E as (Hp & bc' & Hbc & Hi). apply list_elem_of_fmap. exists bc'. split; [done|]. apply contents_elem. eauto.
Qed.

Lemma add_blocked_run cmd_name idx session data req reply b :
  let bc := new_bc cmd_name idx session data req reply in
  blk_wf b -> (idx ∉ bc_idx <$> contents b) ->
  (p <- allocBlockedCommand cmd_name idx session data req reply ;; addBlockedCommand p ;; ret p) b =
    Done (bl_brk b, blocked_added bc b).
Proof.
  cbv zeta. intros Hwf Hf. unfold allocBlockedCommand, addBlockedCommand, bind, deref_bc, get, modify, ret. cbn.
  rewrite lookup_insert_eq. cbn. pose proof (fresh_index b (new_bc cmd_name idx session data req reply) Hwf Hf) as Hn.
  cbn in Hn. rewrite Hn. by rewrite filter_absent by (by apply fresh_address).
Qed.

Lemma blocked_added_wf bc b : blk_wf b -> (bc_idx bc ∉ bc_idx <$> contents b) ->
  blk_wf (blocked_added bc b) /\ contents (blocked_added bc b) = contents b ++ [bc].
Proof.
  intros Hwf Hf. pose proof (fresh_address b Hwf) as Hfr. pose proof (fresh_index b bc Hwf Hf) as Hfi.
  pose proof Hwf as [Hn Ha Hd Hb]. split; [split|]; cbn.
  - apply NoDup_app. split_and!; [done| |apply NoDup_singleton]. intros p Hp ->%list_elem_of_singleton. done.
  - intros p [Hp| ->%list_elem_of_singleton]%elem_of_app.
    + rewrite lookup_insert_ne by congruence. by apply Ha.
    + rewrite lookup_insert_eq. by eexists.
  - intros i p. rewrite lookup_insert. rewrite elem_of_app, list_elem_of_singleton. case_decide as Hi.
    + subst i. split.
      * intros [= <-]. split; [by right|]. exists bc. by rewrite lookup_insert_eq.
      * intros ([Hp| ->] & bc' & Hbc' & Hi); [|done]. rewrite lookup_insert_ne in Hbc' by congruence.
        rewrite (proj2 (Hd (bc_idx bc) p)) in Hfi by eauto. done.
    + rewrite (Hd i p). split.
      * intros (Hp & bc' & Hbc' & Hi'). split; [by left|]. exists bc'. rewrite lookup_insert_ne by congruence. done.
      * intros ([Hp| ->] & bc' & Hbc' & Hi').
        -- rewrite lookup_insert_ne in Hbc' by congruence. eauto.
        -- rewrite lookup_insert_eq in Hbc'. congruence.
  - intros p [bc' [[<- _]|[_ Hp]]%lookup_insert_Some]; [lia|]. assert (p < bl_brk b) by (apply Hb; by eexists). lia.
  - unfold contents. cbn. rewrite omap_app. f_equal; [|cbn; by rewrite lookup_insert_eq].
    apply omap_ext_in. intros p Hp. rewrite lookup_insert_ne; [done|]. congruence.
Qed.

(** The state after the command at [p] has been taken out. *)
Definition blocked_without (p idx : Z) (b : blocked) : blocked :=
  mk_blocked (bl_heap b) (bl_brk b) (filter (fun q => q <> p) (bl_list b)) (delete idx (bl_dict b)).

Lemma delete_blocked_run idx b : blk_wf b ->
  deleteBlockedCommand idx b = Done (tt, match bl_dict b !! idx with Some p => blocked_without p idx b | None => b end).
Proof.
  intros [_ Ha Hd _]. unfold deleteBlockedCommand. rewrite (bind_done_eq get _ b b b) by done.
  destruct (bl_dict b !! idx) as [p|] eqn:E; [|done]. apply Hd in E as (Hp & bc & Hbc & Hi).
  unfold bind, modify, deref_bc, get, ret. cbn. by rewrite Hbc.
Qed.

Lemma blocked_without_wf p idx b : blk_wf b -> bl_dict b !! idx = Some p ->
  blk_wf (blocked_without p idx b) /\ contents (blocked_without p idx b) = filter (fun c => bc_idx c <> idx) (contents b).
Proof.
  intros Hwf E. pose proof Hwf as [Hn Ha Hd Hb]. apply Hd in E as Hp. destruct Hp as (Hp & bc & Hbc & Hi). split; [split|]; cbn.
  - by apply NoDup_filter.
  - intros q [_ Hq]%list_elem_of_filter. by apply Ha.
  - intros i q. rewrite lookup_delete. rewrite list_elem_of_filter. case_decide as Hii.
    + subst i. split; [done|]. intros ((Hne & Hq) & bc' & Hbc' & Hi'). exfalso. apply Hne.
      by apply (idx_unique b q p bc' bc Hwf); [..|congruence].
    + rewrite (Hd i q). split.
      * intros (Hq & bc' & Hbc' & Hi'). split; [split; [|done]|eauto]. intros ->. congruence.
      * intros ((_ & Hq) & ?). by split.
  - exact Hb.
  - unfold contents. cbn. subst idx. apply filter_contents; [done|done| |done].
    intros q bc' Hq Hbc' Hi'. by apply (idx_unique b q p bc' bc Hwf).
Qed.

(** Freeing a command that has been taken out. *)
Lemma free_blocked_run p b bc : bl_heap b !! p = Some bc ->
  freeBlockedCommand p b = Done (tt, b <| bl_heap ::= delete p |>).
Proof. intros Hp. unfold freeBlockedCommand, deref_bc, bind, get, modify, ret. by rewrite Hp. Qed.

Lemma freed_wf p b : blk_wf b -> (p ∉ bl_list b) ->
  let b' := b <| bl_heap ::= delete p |> in blk_wf b' /\ contents b' = contents b.
Proof.
  intros [Hn Ha Hd Hb] Hp. cbv zeta. split; [split|]; cbn.
  - done.
  - intros q Hq. rewrite lookup_delete_ne by congruence. by apply Ha.
  - intros i q. rewrite (Hd i q). split; intros (Hq & bc & Hbc & Hi); (split; [done|]); exists bc.
    + rewrite lookup_delete_ne by congruence. done.
    + rewrite lookup_delete_ne in Hbc by congruence. done.
  - intros q [bc [_ Hq]%lookup_delete_Some]. apply Hb. by eexists.
  - unfold contents. cbn. apply omap_ext_in. intros q Hq. by rewrite lookup_delete_ne by congruence.
Qed.

Lemma get_blocked_spec idx b : blk_wf b ->
  match getBlockedCommand idx b with
  | Some p => exists bc, bl_heap b !! p = Some bc /\ bc_idx bc = idx /\ bc ∈ contents b
  | None => idx ∉ bc_idx <$> contents b
  end.
Proof.
  intros [_ _ Hd _]. unfold getBlockedCommand. destruct (bl_dict b !! idx) as [p|] eqn:E.
  - apply Hd in E as (Hp & bc & Hbc & Hi). exists bc. split_and!; [done..|]. apply contents_elem. eauto.
  - intros (bc & Hi & (p & Hp & Hbc)%contents_elem)%list_elem_of_fmap.
    rewrite (proj2 (Hd idx p)) in E by eauto. done.
Qed.

Lemma filter_no_idx idx (l : list BlockedCommand) : (idx ∉ bc_idx <$> l) -> filter (fun c => bc_idx c <> idx) l = l.
Proof.
  intros Hn. induction l as [|c l IH]; [done|]. rewrite fmap_cons, not_elem_of_cons in Hn. destruct Hn as [? ?].
  rewrite filter_cons_True by congruence. by rewrite IH.
Qed.

(** (refinement). The intrusive list with the dictionary is an ordered map: the
    indexes are distinct; a command with a new index goes to the end, and its
    address is returned; taking an index out removes exactly its command, whose
    memory stays allocated, and changes nothing when the index is not there;
    looking an index up finds its command or says that there is none.  All
    operations keep the representation well-formed, and none of them stops. *)
Theorem blocked_ordered_map (b : blocked) :
  blk_wf b ->
  NoDup (bc_idx <$> contents b) /\
  (forall cmd_name idx session data req reply, idx ∉ bc_idx <$> contents b ->
     exists b', (p <- allocBlockedCommand cmd_name idx session data req reply ;; addBlockedCommand p ;; ret p) b =
       Done (bl_brk b, b') /\ blk_wf b' /\
       contents b' = contents b ++ [new_bc cmd_name idx session data req reply]) /\
  (forall idx, exists b', deleteBlockedCommand idx b = Done (tt, b') /\ blk_wf b' /\
     contents b' = filter (fun c => bc_idx c <> idx) (contents b) /\ bl_heap b' = bl_heap b) /\
  (forall idx, match getBlockedCommand idx b with
               | Some p => exists bc, bl_heap b !! p = Some bc /\ bc_idx bc = idx /\ bc ∈ contents b
               | None => idx ∉ bc_idx <$> contents b
               end).
Proof.
  intros Hwf. split_and!.
  - by apply contents_keys.
  - intros cmd_name idx session data req reply Hf. exists (blocked_added (new_bc cmd_name idx session data req reply) b).
    split; [by apply add_blocked_run|]. by apply blocked_added_wf.
  - intros idx. eexists. split; [by apply delete_blocked_run|]. destruct (bl_dict b !! idx) as [p|] eqn:E.
    + destruct (blocked_without_wf p idx b Hwf E) as [? ?]. by split_and!.
    + pose proof (get_blocked_spec idx b Hwf) as Hg. unfold getBlockedCommand in Hg. rewrite E in Hg.
      split_and!; [done| |done]. by rewrite filter_no_idx.
  - intros idx. by apply get_blocked_spec.
Qed.

Lemma blocked_ordered_map_witness :
  exists b, (p <- allocBlockedCommand (bytes_of "BLPOP") 5 0 [] None 3 ;; addBlockedCommand p ;; ret p) blocked_zero = Done (1, b) /\
    blk_wf b /\ bc_idx <$> contents b = [5].
Proof.
  destruct (blocked_ordered_map blocked_zero blocked_zero_wf) as (_ & Hadd & _).
  destruct (Hadd (bytes_of "BLPOP") 5 0 [] None 3 ltac:(by intros ?%elem_of_nil)) as (b & E & Hwf & Hc).
  exists b. split; [exact E|]. split; [exact Hwf|]. by rewrite Hc.
Defined.
