(* ===== verification/Server.v ===== *)
(** * The server: requests, sessions, and the execution of log entries
    ([redisraft/src/raft.c], [clientstate.c])

    A committed entry is handed to [raftApplyLog].  The commands of an entry are
    given to Redis one after the other, with or without a request of a local
    client that waits for the answers.  A blocking command can leave a promise,
    which is kept with the blocked commands until Redis keeps it, or until an
    entry of the log ends the wait. *)

From stdpp Require Import base list numbers tactics gmap strings sorting.
From S2P Require Import Prelude RaftTypes Libc File Multibulk PageLog Crc Serialization NodeAddr ShardGroup Sharding ShardRouting.
From S2P Require Import Commands Blocked.

Local Open Scope Z_scope.

(** ** Redis

    [RedisModule_Call] with the formats that the module uses: the access list of
    the user ("C"), whether the command may block ("K"), whether a script is
    running ([entered_eval], which the command filter looks at), and the
    arguments. *)
Record rm_call := mk_call {
  rc_user : option (list Z);
  rc_may_block : bool;
  rc_eval : bool;
  rc_argv : list (list Z)
}.

(** [D] is the database and [R] the replies.  [Call] gives a reply or, when the
    command waits, a promise.  [PromiseAbort] fails when the promise was kept or
    aborted before.  [ServeBlocked] is what Redis does for one waiting command
    whose keys are ready: the promise that is kept, and with what.  [DryRun]
    ("DCE", with "M" also for memory) gives the error that a command would get. *)
Class RedisServer (D R : Type) := {
  Call : D -> rm_call -> D * (R + Z);
  PromiseAbort : D -> Z -> option D;
  ServeBlocked : D -> option (D * Z * R);
  DryRun : D -> Z -> bool -> list (list Z) -> option R;
  OutOfMemory : D -> bool
}.

(** ** Requests *)

Inductive RaftReqType :=
| RR_GENERIC | RR_CLUSTER_JOIN | RR_CFGCHANGE_ADDNODE | RR_CFGCHANGE_REMOVENODE | RR_REDISCOMMAND | RR_DEBUG
| RR_SHARDGROUP_ADD | RR_SHARDGROUPS_REPLACE | RR_SHARDGROUP_LINK | RR_TRANSFER_LEADER | RR_IMPORT_KEYS
| RR_MIGRATE_KEYS | RR_DELETE_UNLOCK_KEYS | RR_END_SESSION | RR_CLIENT_UNBLOCK.

#[export] Instance RaftReqType_eq_dec : EqDecision RaftReqType.
Proof. solve_decision. Defined.

(** [rq_ctx] is the blocked client that waits for the answer.  Of the union, the
    commands and the keys of the migration. *)
Record RaftReq := mk_rreq {
  rq_type : RaftReqType;
  rq_ctx : option Z;
  rq_timeout_timer : option Z;
  rq_raft_idx : Z;
  rq_client_id : Z;
  rq_cmds : RaftRedisCommandArray;
  rq_keys : list (list Z)
}.
#[export] Instance eta_rreq : Eta RaftReq := fun q =>
  mk_rreq (rq_type q) (rq_ctx q) (rq_timeout_timer q) (rq_raft_idx q) (rq_client_id q) (rq_cmds q) (rq_keys q).
#[export] Instance set_rq_timer : Setter rq_timeout_timer. Proof. solve_setter. Defined.
#[export] Instance set_rq_raft_idx : Setter rq_raft_idx. Proof. solve_setter. Defined.
#[export] Instance set_rq_client_id : Setter rq_client_id. Proof. solve_setter. Defined.
#[export] Instance set_rq_cmds : Setter rq_cmds. Proof. solve_setter. Defined.
#[export] Instance set_rq_keys : Setter rq_keys. Proof. solve_setter. Defined.

Definition cmds_zero : RaftRedisCommandArray := mk_array 0 false 0 0 [] None.

(** ** What clients are told *)

(** A piece of a reply: a text or an error, a string, an array of [n] replies to
    follow, a number, NULL, NULL as an array, or what Redis answered. *)
Inductive item (R : Type) :=
| IReply (r : reply)
| IBulk (b : list Z)
| IArray (n : Z)
| ILong (n : Z)
| INull
| INullArray
| ICall (r : R).
Arguments IReply {R}. Arguments IBulk {R}. Arguments IArray {R}. Arguments ILong {R}. Arguments INull {R}.
Arguments INullArray {R}. Arguments ICall {R}.

(** What the module does to the world outside: answers, unblocked and closed
    clients, a migration handed to its connection, RAFT.NODESHUTDOWN sent, an
    entry sent to the leader on behalf of a request, and the answer to CLUSTER or
    INFO, whose text is not modelled. *)
Inductive event (R : Type) :=
| EvReply (client : Z) (i : item R)
| EvUnblock (client : Z)
| EvClose (client : Z)
| EvMigrate (m : migration)
| EvNodeShutdown (id : Z)
| EvProxy (req : Z) (data : list Z)
| EvDescribe (client : Z) (argv : list (list Z)).
Arguments EvReply {R}. Arguments EvUnblock {R}. Arguments EvClose {R}. Arguments EvMigrate {R}. Arguments EvNodeShutdown {R}. Arguments EvProxy {R}.
Arguments EvDescribe {R}.

(** ** Clients *)

Record MultiState := mk_multi { ms_cmds : RaftRedisCommandArray; ms_active : bool; ms_error : bool }.
#[export] Instance eta_multi : Eta MultiState := fun m => mk_multi (ms_cmds m) (ms_active m) (ms_error m).
#[export] Instance set_ms_cmds : Setter ms_cmds. Proof. solve_setter. Defined.
#[export] Instance set_ms_active : Setter ms_active. Proof. solve_setter. Defined.
#[export] Instance set_ms_error : Setter ms_error. Proof. solve_setter. Defined.

Record ClientState := mk_client {
  cs_multi_state : MultiState;
  cs_asking : bool;
  cs_watched : bool;
  cs_blocked_req : option Z
}.
#[export] Instance eta_client : Eta ClientState := fun c =>
  mk_client (cs_multi_state c) (cs_asking c) (cs_watched c) (cs_blocked_req c).
#[export] Instance set_cs_multi : Setter cs_multi_state. Proof. solve_setter. Defined.
#[export] Instance set_cs_asking : Setter cs_asking. Proof. solve_setter. Defined.
#[export] Instance set_cs_watched : Setter cs_watched. Proof. solve_setter. Defined.
#[export] Instance set_cs_blocked : Setter cs_blocked_req. Proof. solve_setter. Defined.

Definition client_zero : ClientState := mk_client (mk_multi cmds_zero false false) false false None.

(** ** The state *)

(** Of [RedisRaftCtx], with the database: the tables of [ShardRouting.node];
    [acl_dict] with the names of its users; [client_session_dict], the flag
    [local] by session; the blocked commands, and the command that Redis has been
    given with each promise; the states of clients; the allocated requests; the
    requests attached to log entries, by index; and [snapshot_info].  [sv_events]
    is what has been done outside. *)
Record module_state (D R : Type) := mk_module {
  sv_node : node D;
  sv_acl_dict : gmap (list Z) (list Z);
  sv_entered_eval : bool;
  sv_sessions : gmap Z bool;
  sv_blocked : blocked;
  sv_handlers : gmap Z Z;
  sv_clients : gmap Z ClientState;
  sv_reqs : gmap Z RaftReq;
  sv_req_brk : Z;
  sv_attached : gmap Z Z;
  sv_migrate_req : option Z;
  sv_applied_term : Z;
  sv_applied_idx : Z;
  sv_events : list (event R)
}.
Arguments mk_module {D R}.
Arguments sv_node {D R}. Arguments sv_acl_dict {D R}. Arguments sv_entered_eval {D R}. Arguments sv_sessions {D R}.
Arguments sv_blocked {D R}. Arguments sv_handlers {D R}. Arguments sv_clients {D R}. Arguments sv_reqs {D R}.
Arguments sv_req_brk {D R}. Arguments sv_attached {D R}. Arguments sv_migrate_req {D R}.
Arguments sv_applied_term {D R}. Arguments sv_applied_idx {D R}. Arguments sv_events {D R}.

#[export] Instance eta_node {D} : Eta (node D) := fun n => mk_node (nd_rr n) (nd_locked_keys n) (nd_db n).
#[export] Instance set_nd_rr {D} : Setter (@nd_rr D). Proof. solve_setter. Defined.
#[export] Instance set_nd_locked_keys {D} : Setter (@nd_locked_keys D). Proof. solve_setter. Defined.
#[export] Instance set_nd_db {D} : Setter (@nd_db D). Proof. solve_setter. Defined.

#[export] Instance eta_module {D R} : Eta (module_state D R) := fun s =>
  mk_module (sv_node s) (sv_acl_dict s) (sv_entered_eval s) (sv_sessions s) (sv_blocked s) (sv_handlers s)
    (sv_clients s) (sv_reqs s) (sv_req_brk s) (sv_attached s) (sv_migrate_req s) (sv_applied_term s)
    (sv_applied_idx s) (sv_events s).
#[export] Instance set_sv_node {D R} : Setter (@sv_node D R). Proof. solve_setter. Defined.
#[export] Instance set_sv_acl_dict {D R} : Setter (@sv_acl_dict D R). Proof. solve_setter. Defined.
#[export] Instance set_sv_entered_eval {D R} : Setter (@sv_entered_eval D R). Proof. solve_setter. Defined.
#[export] Instance set_sv_sessions {D R} : Setter (@sv_sessions D R). Proof. solve_setter. Defined.
#[export] Instance set_sv_blocked {D R} : Setter (@sv_blocked D R). Proof. solve_setter. Defined.
#[export] Instance set_sv_handlers {D R} : Setter (@sv_handlers D R). Proof. solve_setter. Defined.
#[export] Instance set_sv_clients {D R} : Setter (@sv_clients D R). Proof. solve_setter. Defined.
#[export] Instance set_sv_reqs {D R} : Setter (@sv_reqs D R). Proof. solve_setter. Defined.
#[export] Instance set_sv_req_brk {D R} : Setter (@sv_req_brk D R). Proof. solve_setter. Defined.
#[export] Instance set_sv_attached {D R} : Setter (@sv_attached D R). Proof. solve_setter. Defined.
#[export] Instance set_sv_migrate_req {D R} : Setter (@sv_migrate_req D R). Proof. solve_setter. Defined.
#[export] Instance set_sv_applied_term {D R} : Setter (@sv_applied_term D R). Proof. solve_setter. Defined.
#[export] Instance set_sv_applied_idx {D R} : Setter (@sv_applied_idx D R). Proof. solve_setter. Defined.
#[export] Instance set_sv_events {D R} : Setter (@sv_events D R). Proof. solve_setter. Defined.

Definition RAFT_LOGTYPE_END_SESSION : Z := 107.
Definition RAFT_LOGTYPE_TIMEOUT_BLOCKED : Z := 108.

Section Server.
Context {D R : Type} `{Keyspace D} `{RedisServer D R}.

#[local] Abbreviation Srv := (M (module_state D R)).

Definition on_node {A} (m : M (node D) A) : Srv A := zoom sv_node (fun n s => s <| sv_node := n |>) m.

Definition on_blocked {A} (m : M blocked A) : Srv A := zoom sv_blocked (fun b s => s <| sv_blocked := b |>) m.

Definition emit (e : event R) : Srv unit := modify (fun s => s <| sv_events ::= (fun l => l ++ [e]) |>).

Definition reply_to (client : Z) (i : item R) : Srv unit := emit (EvReply client i).

(** A command given to Redis. *)
Definition redis_call (c : rm_call) : Srv (R + Z) :=
  s <- get ;;
  let '(d, r) := Call (nd_db (sv_node s)) c in
  modify (fun s => s <| sv_node ::= (fun n => n <| nd_db := d |>) |>) ;;
  ret r.

Definition deref_req (p : Z) : Srv RaftReq :=
  s <- get ;;
  match sv_reqs s !! p with
  | Some q => ret q
  | None => abort
  end.

Definition update_req (p : Z) (f : RaftReq -> RaftReq) : Srv unit :=
  q <- deref_req p ;;
  modify (fun s => s <| sv_reqs ::= <[p := f q]> |>).

(** [RedisModule_Reply...(req->ctx, ..)] *)
Definition req_reply (p : Z) (i : item R) : Srv unit :=
  q <- deref_req p ;;
  match rq_ctx q with
  | Some client => reply_to client i
  | None => abort
  end.

(** ** Client states ([clientstate.c]) *)

Definition ClientStateGetById (client_id : Z) (s : module_state D R) : option ClientState := sv_clients s !! client_id.

(** The state of a client, which must exist. *)
Definition deref_client (client_id : Z) : Srv ClientState :=
  s <- get ;;
  match ClientStateGetById client_id s with
  | Some c => ret c
  | None => abort
  end.

Definition update_client (client_id : Z) (f : ClientState -> ClientState) : Srv unit :=
  c <- deref_client client_id ;;
  modify (fun s => s <| sv_clients ::= <[client_id := f c]> |>).

Definition ClientStateAlloc (client_id : Z) : Srv unit :=
  s <- get ;;
  c_assert (bool_decide (sv_clients s !! client_id = None)) ;;
  modify (fun s => s <| sv_clients ::= <[client_id := client_zero]> |>).

Definition ClientStateFree (client_id : Z) : Srv unit :=
  modify (fun s => s <| sv_clients ::= delete client_id |>).

Definition ClientStateSetBlockedReq (client_id req : Z) : Srv unit :=
  update_client client_id (fun c => c <| cs_blocked_req := Some req |>).

Definition BlockedReqResetById (client_id : Z) : Srv unit :=
  modify (fun s => s <| sv_clients ::= alter (fun c => c <| cs_blocked_req := None |>) client_id |>).

Definition MultiStateReset (m : MultiState) : MultiState :=
  mk_multi (RaftRedisCommandArrayFree (ms_cmds m)) false false.

(** ** Requests ([raft.c]) *)

Definition RaftReqInitCore (ctx : option Z) (type : RaftReqType) : Srv Z :=
  s <- get ;;
  let p := sv_req_brk s in
  modify (fun s => s <| sv_reqs ::= <[p := mk_rreq type ctx None 0 0 cmds_zero []]> |>
                     <| sv_req_brk := p + 1 |>) ;;
  ret p.

Definition RaftReqInit (ctx : option Z) (type : RaftReqType) : Srv Z :=
  p <- RaftReqInitCore ctx type ;;
  when (bool_decide (type = RR_MIGRATE_KEYS)) (modify (fun s => s <| sv_migrate_req := Some p |>)) ;;
  ret p.

Definition RaftReqInitBlocking (client : Z) (type : RaftReqType) (timeout : Z) : Srv Z :=
  p <- RaftReqInitCore (Some client) type ;;
  when (0 <? timeout) (update_req p (fun q => q <| rq_timeout_timer := Some timeout |>)) ;;
  update_req p (fun q => q <| rq_client_id := client |>) ;;
  ClientStateSetBlockedReq client p ;;
  ret p.

(** The timer of a freed request is stopped. *)
Definition RaftReqFree (p : Z) : Srv unit :=
  q <- deref_req p ;;
  when (negb (rq_client_id q =? 0)) (BlockedReqResetById (rq_client_id q)) ;;
  when (bool_decide (rq_type q = RR_MIGRATE_KEYS)) (modify (fun s => s <| sv_migrate_req := None |>)) ;;
  match rq_ctx q with
  | Some client => emit (EvUnblock client)
  | None => ret tt
  end ;;
  modify (fun s => s <| sv_reqs ::= delete p |>).

(** [if (req) { reply; RaftReqFree(req); }] *)
Definition finish (req : option Z) (i : item R) : Srv unit :=
  match req with
  | Some p => req_reply p i ;; RaftReqFree p
  | None => ret tt
  end.

(** The answers of the operations of [Sharding] and [ShardRouting]: the request
    is freed when it is answered. *)
Definition finish_replies (req : option Z) (reps : list reply) : Srv unit :=
  match req with
  | Some p =>
      match reps with
      | [] => ret tt
      | _ => for_each reps (fun r => req_reply p (IReply r)) ;; RaftReqFree p
      end
  | None => ret tt
  end.

Definition has_req (req : option Z) : bool := bool_decide (is_Some req).

(** ** Executing commands *)

(** [snprintf(.., "redis_raft%lu", count)] *)
Definition acl_user_name (count : Z) : list Z := bytes_of "redis_raft" ++ dec_unsigned count.

Definition RaftGetACLUser (acl : list Z) : Srv unit :=
  s <- get ;;
  match sv_acl_dict s !! acl with
  | Some _ => ret tt
  | None =>
      let name := acl_user_name (Z.of_nat (size (sv_acl_dict s)) + 1) in
      modify (fun s => s <| sv_acl_dict ::= <[acl := name]> |>)
  end.

(** The session of the commands: WATCH creates it. *)
Definition getClientSession (cmds : RaftRedisCommandArray) (local : bool) : Srv unit :=
  s <- get ;;
  let id := ra_client_id cmds in
  match sv_sessions s !! id with
  | Some _ => ret tt
  | None =>
      match ra_commands cmds with
      | (cmd :: _) :: _ =>
          when (is_cmd "watch" cmd) (modify (fun s => s <| sv_sessions ::= <[id := local]> |>))
      | _ => abort
      end
  end.

Definition is_eval (cmd : list Z) : bool :=
  is_cmd "eval" cmd || is_cmd "eval_ro" cmd || is_cmd "evalsha" cmd || is_cmd "evalsha_ro" cmd ||
  is_cmd "fcall" cmd || is_cmd "fcall_ro" cmd.

(** [if (req) RedisModule_Reply...(req->ctx, ..)] *)
Definition tell (client : option Z) (i : item R) : Srv unit :=
  match client with
  | Some c => reply_to c i
  | None => ret tt
  end.

(** One command: the promise, if there is one. *)
Definition exec_command (client : option Z) (cmds : RaftRedisCommandArray) (c : list (list Z)) : Srv (option Z) :=
  match c with
  | [] => abort
  | cmd :: _ =>
      old_entered_eval <- gets sv_entered_eval ;;
      when (is_eval cmd) (modify (fun s => s <| sv_entered_eval := true |>)) ;;
      in_eval <- gets sv_entered_eval ;;
      reply <- redis_call (mk_call (ra_acl cmds) (negb (has_flag CMD_SPEC_MULTI (ra_cmd_flags cmds))) in_eval c) ;;
      modify (fun s => s <| sv_entered_eval := old_entered_eval |>) ;;
      match reply with
      | inl r => tell client (ICall r) ;; ret None
      | inr promise => c_assert (ra_len cmds =? 1) ;; ret (Some promise)
      end
  end.

(** The loop over the commands from index [i] on; [reply] is that of the command
    before. *)
Fixpoint exec_commands (client : option Z) (cmds : RaftRedisCommandArray) (i : nat) (cs : list (list (list Z)))
    (reply : option Z) : Srv (option Z) :=
  match cs with
  | [] => ret reply
  | c :: cs' =>
      match c with
      | [] => abort
      | cmd :: _ =>
          if (i =? 0)%nat && is_cmd "MULTI" cmd
          then tell client (IArray (ra_len cmds - 1)) ;; exec_commands client cmds (S i) cs' reply
          else reply <- exec_command client cmds c ;; exec_commands client cmds (S i) cs' reply
      end
  end.

(** [client]: the client of the request.  The promise of a command that waits, and
    the commands, in which a blocking command has got another timeout. *)
Definition RaftExecuteCommandArray (client : option Z) (cmds : RaftRedisCommandArray) :
    Srv (option Z * RaftRedisCommandArray) :=
  match ra_acl cmds with Some acl => RaftGetACLUser acl | None => ret tt end ;;
  let* (st, reps) := on_node (handleSharding (has_req client) cmds) in
  match client with Some c => for_each reps (fun r => reply_to c (IReply r)) | None => ret tt end ;;
  if negb (st =? RR_OK) then ret (None, cmds) else
  getClientSession cmds (has_req client) ;;
  cmds <- (if has_flag CMD_SPEC_BLOCKING (ra_cmd_flags cmds)
           then cs <- lift (replaceBlockingTimeout (ra_commands cmds)) ;; ret (cmds <| ra_commands := cs |>)
           else ret cmds) ;;
  reply <- exec_commands client cmds 0 (ra_commands cmds) None ;;
  ret (reply, cmds).

(** ** Promises *)

(** [RedisModule_CallReplyPromiseSetUnblockHandler(reply, handleUnblock, bc)] *)
Definition set_unblock_handler (promise bc : Z) : Srv unit := modify (fun s => s <| sv_handlers ::= <[promise := bc]> |>).

(** [RedisModule_CallReplyPromiseAbort(reply, NULL)]: an aborted promise loses its
    handler. *)
Definition promise_abort (promise : Z) : Srv bool :=
  s <- get ;;
  match PromiseAbort (nd_db (sv_node s)) promise with
  | Some d =>
      modify (fun s => s <| sv_node ::= (fun n => n <| nd_db := d |>) |> <| sv_handlers ::= delete promise |>) ;;
      ret true
  | None => ret false
  end.

Definition handleUnblock (reply : R) (bc : Z) : Srv unit :=
  c <- on_blocked (deref_bc bc) ;;
  match bc_req c with
  | Some p => req_reply p (ICall reply) ;; RaftReqFree p
  | None => ret tt
  end ;;
  on_blocked (deleteBlockedCommand (bc_idx c)) ;;
  on_blocked (freeBlockedCommand bc).

(** Redis serves one waiting command, if it can, and calls the handler.  (Redis
    does this between entries: after commands of clients, and before it sleeps.) *)
Definition serve_blocked : Srv unit :=
  s <- get ;;
  match ServeBlocked (nd_db (sv_node s)) with
  | None => ret tt
  | Some (d, promise, reply) =>
      modify (fun s => s <| sv_node ::= (fun n => n <| nd_db := d |>) |>) ;;
      match sv_handlers s !! promise with
      | None => ret tt
      | Some bc => modify (fun s => s <| sv_handlers ::= delete promise |>) ;; handleUnblock reply bc
      end
  end.

(** The loop of [clearAllBlockCommands] over as many commands as are in the list;
    [false]: it has returned early. *)
Fixpoint clear_blocked_loop (n : nat) : Srv bool :=
  match n with
  | O => ret true
  | S n' =>
      elem <- on_blocked pop_head ;;
      match elem with
      | None => ret true
      | Some p =>
          c <- on_blocked (deref_bc p) ;;
          ok <- promise_abort (bc_reply c) ;;
          if negb ok then ret false else
          on_blocked (freeBlockedCommand p) ;;
          clear_blocked_loop n'
      end
  end.

Definition clearAllBlockCommands : Srv unit :=
  s <- get ;;
  ok <- clear_blocked_loop (length (bl_list (sv_blocked s))) ;;
  when ok (on_blocked (modify (fun b => b <| bl_dict := ∅ |>))).

(** ** Entries *)

(** The commands of an entry of another server. *)
Definition entry_commands (e : raft_entry) : outcome RaftRedisCommandArray :=
  match RaftRedisCommandArrayDeserialize (ety_data e) cmds_zero with
  | Done (st, a) => if st =? RR_OK then Done (a <| ra_client_id := ety_session e |>) else Abort
  | Abort => Abort
  | OutOfFuel => OutOfFuel
  end.

(** The name of the first command, [cmds->commands[0]->argv[0]]. *)
Definition first_name (cmds : RaftRedisCommandArray) : option (list Z) :=
  match ra_commands cmds with
  | (cmd :: _) :: _ => Some cmd
  | _ => None
  end.

Definition snapshot_applied (e : raft_entry) (idx : Z) : Srv unit :=
  modify (fun s => s <| sv_applied_term := ety_term e |> <| sv_applied_idx := idx |>).

Definition executeLogEntry (e : raft_entry) (entry_idx : Z) (req : option Z) : Srv unit :=
  c_assert (ety_type e =? RAFT_LOGTYPE_NORMAL) ;;
  let* (client, cmds) :=
    match req with
    | Some p =>
        q <- deref_req p ;;
        c_assert (bool_decide (rq_type q = RR_REDISCOMMAND)) ;;
        match rq_ctx q with
        | Some c => ret (Some c, rq_cmds q)
        | None => abort
        end
    | None => cmds <- lift (entry_commands e) ;; ret (None, cmds)
    end in
  let* (reply, cmds) := RaftExecuteCommandArray client cmds in
  match req with Some p => update_req p (fun q => q <| rq_cmds := cmds |>) | None => ret tt end ;;
  match reply with
  | None => match req with Some p => RaftReqFree p | None => ret tt end
  | Some promise =>
      match first_name cmds with
      | None => abort
      | Some cmdstr =>
          bc <- on_blocked (allocBlockedCommand cmdstr entry_idx (ety_session e) (ety_data e) req promise) ;;
          on_blocked (addBlockedCommand bc) ;;
          set_unblock_handler promise bc
      end
  end ;;
  snapshot_applied e entry_idx.

Definition endClientSession (id : Z) : Srv unit := modify (fun s => s <| sv_sessions ::= delete id |>).

Definition handleEndClientSession (e : raft_entry) (req : option Z) : Srv unit :=
  c_assert (ety_type e =? RAFT_LOGTYPE_END_SESSION) ;;
  endClientSession (ety_session e) ;;
  finish req (IReply (simple "OK")).

(** A dictionary with numbers as keys is visited in the order of their bytes. *)
Definition id_le (p q : Z * bool) : Prop := bytes_le (le_bytes 8 (fst p)) (le_bytes 8 (fst q)) = true.
#[local] Instance id_le_dec p q : Decision (id_le p q).
Proof. unfold id_le. apply _. Defined.

Definition session_entries (d : gmap Z bool) : list (Z * bool) := merge_sort id_le (map_to_list d).

(** [RedisModule_DeauthenticateAndCloseClient] for the local ones *)
Definition clearClientSessions : Srv unit :=
  s <- get ;;
  for_each (session_entries (sv_sessions s)) (fun e => when (snd e) (emit (EvClose (fst e)))) ;;
  modify (fun s => s <| sv_sessions := ∅ |>).

Definition timeoutBlockedCommand (e : raft_entry) (req : option Z) : Srv unit :=
  match RaftRedisDeserializeTimeout (ety_data e) (0, false) with
  | Done (st, (idx, error)) =>
      c_assert (st =? RR_OK) ;;
      s <- get ;;
      match getBlockedCommand idx (sv_blocked s) with
      | None => finish req (ILong 0)
      | Some p =>
          bc <- on_blocked (deref_bc p) ;;
          ok <- promise_abort (bc_reply bc) ;;
          when ok (
            finish (bc_req bc)
              (if error : bool then IReply (Sharding.error "UNBLOCKED client unblocked via CLIENT UNBLOCK")
               else if has_prefix "bzpopmin" (bc_command bc) || has_prefix "bzpopmax" (bc_command bc) ||
                       has_prefix "bzmpop" (bc_command bc) then INullArray else INull) ;;
            on_blocked (deleteBlockedCommand (bc_idx bc)) ;;
            on_blocked (freeBlockedCommand p)) ;;
          finish req (ILong (if ok : bool then 1 else 0))
      end
  | Abort => abort
  | OutOfFuel => out_of_fuel
  end.

(** [((RaftCfgChange * ) entry->data)->id] *)
Definition cfg_id (data : list Z) : outcome Z :=
  if Z.of_nat (length data) <? 4 then Abort else Done (to_int (le_value (take 4 data))).

(** What [raftApplyLog] asks the Raft server: the id of this node, whether it is
    the leader, and the current term. *)
Record raft_view := mk_view { vw_nodeid : Z; vw_is_leader : bool; vw_term : Z }.

Definition req_migrate_keys (v : raft_view) (req : option Z) : Srv (option migrate_req) :=
  match req with
  | Some p =>
      q <- deref_req p ;;
      c_assert (bool_decide (rq_type q = RR_MIGRATE_KEYS)) ;;
      ret (Some (mk_req (rq_keys q) (vw_term v)))
  | None => ret None
  end.

(** [lockKeys] with its request: a migration that has started keeps it. *)
Definition apply_lock_keys (v : raft_view) (e : raft_entry) (req : option Z) : Srv unit :=
  mreq <- req_migrate_keys v req ;;
  res <- on_node (lockKeys (ety_data e) mreq) ;;
  match res with
  | inl reps => finish_replies req reps
  | inr m => emit (EvMigrate m)
  end.

(** A server that is
    removed archives its files and ends ([shutdownAfterRemoval]). *)
Definition raftApplyLog (v : raft_view) (e : raft_entry) (entry_idx : Z) (req : option Z) : Srv unit :=
  let type := ety_type e in
  (if type =? RAFT_LOGTYPE_ADD_NONVOTING_NODE then
     match req with
     | None => ret tt
     | Some p =>
         id <- lift (cfg_id (ety_data e)) ;;
         dbid <- gets (fun s => rr_snapshot_dbid (nd_rr (sv_node s))) ;;
         req_reply p (IArray 2) ;;
         req_reply p (ILong id) ;;
         req_reply p (IReply (SimpleString dbid)) ;;
         RaftReqFree p
     end
   else if type =? RAFT_LOGTYPE_REMOVE_NODE then
     id <- lift (cfg_id (ety_data e)) ;;
     finish req (IReply (simple "OK")) ;;
     when (id =? vw_nodeid v) abort ;;
     when (vw_is_leader v) (emit (EvNodeShutdown id))
   else if type =? RAFT_LOGTYPE_NORMAL then executeLogEntry e entry_idx req
   else if (type =? RAFT_LOGTYPE_ADD_SHARDGROUP) || (type =? RAFT_LOGTYPE_UPDATE_SHARDGROUP) then
     reps <- on_node (on_rr (applyShardGroupChange type (ety_data e) (has_req req))) ;;
     finish_replies req reps
   else if type =? RAFT_LOGTYPE_REPLACE_SHARDGROUPS then
     reps <- on_node (on_rr (replaceShardGroups (ety_data e) (has_req req))) ;;
     finish_replies req reps
   else if type =? RAFT_LOGTYPE_IMPORT_KEYS then
     reps <- on_node (importKeys (ety_data e) (has_req req)) ;;
     finish_replies req reps
   else if type =? RAFT_LOGTYPE_LOCK_KEYS then apply_lock_keys v e req
   else if type =? RAFT_LOGTYPE_DELETE_UNLOCK_KEYS then
     reps <- on_node (unlockDeleteKeys (ety_data e) (has_req req)) ;;
     finish_replies req reps
   else if type =? RAFT_LOGTYPE_END_SESSION then handleEndClientSession e req
   else if type =? RAFT_LOGTYPE_NO_OP then clearClientSessions ;; clearAllBlockCommands
   else if type =? RAFT_LOGTYPE_TIMEOUT_BLOCKED then timeoutBlockedCommand e req
   else ret tt) ;;
  snapshot_applied e entry_idx.

(** ** Requests attached to entries

    An entry that is released with its request, since it has been removed from
    the log or has left the memory before it was applied, answers it. *)
Definition entryAttachRaftReq (idx p : Z) : Srv unit := modify (fun s => s <| sv_attached ::= <[idx := p]> |>).

Definition entryDetachRaftReq (idx : Z) : Srv (option Z) :=
  s <- get ;;
  modify (fun s => s <| sv_attached ::= delete idx |>) ;;
  ret (sv_attached s !! idx).

Definition entryFreeAttachedRaftReq (idx : Z) : Srv unit :=
  req <- entryDetachRaftReq idx ;;
  finish req (IReply (error "TIMEOUT not committed yet")).

(** [raftApplyLog] with the request that is attached to the entry. *)
Definition apply_entry (v : raft_view) (e : raft_entry) (idx : Z) : Srv unit :=
  req <- entryDetachRaftReq idx ;;
  raftApplyLog v e idx req.

End Server.
