(* ===== verification/ServerSpec.v ===== *)
(** * What servers agree on

    The invariant of a server, the part of its state that all servers share
    ([replicated]), and the relation between a server that applies an entry with
    or without a client and one that applies it without. *)

From stdpp Require Import base list numbers tactics gmap strings sorting.
From S2P Require Import Prelude RaftTypes Libc File Multibulk PageLog Crc Serialization SerializationSpec NodeAddr.
From S2P Require Import ShardGroup Sharding ShardingSpec ShardParse ShardParseSpec ShardSnapshot ShardRouting.
From S2P Require Import ShardRoutingSpec ShardMigration Commands Blocked Server.

Local Open Scope Z_scope.

(** ** What is relied on of Redis

    Redis knows which promises are pending; a command that waits gives a new one,
    and a promise is pending until it is aborted or kept.  Deleting and restoring
    keys does not keep promises by itself. *)
Class RedisLaws (D R : Type) `{Keyspace D} `{RedisServer D R} := {
  pending : D -> gset Z;
  call_value d c d' r : Call d c = (d', inl r) -> pending d' = pending d;
  call_promise d c d' p : Call d c = (d', inr p) -> (p ∉ pending d) /\ pending d' = {[p]} ∪ pending d;
  abort_pending d p d' : PromiseAbort d p = Some d' -> p ∈ pending d /\ pending d' = pending d ∖ {[p]};
  abort_fails d p : PromiseAbort d p = None -> p ∉ pending d;
  serve_pending d d' p r : ServeBlocked d = Some (d', p, r) -> p ∈ pending d /\ pending d' = pending d ∖ {[p]};
  del_pending d ks : pending (Del d ks) = pending d;
  restore_pending d k v d' : RestoreKey d k v = Some d' -> pending d' = pending d
}.

Section Nodes.
Context {D R : Type} `{RedisLaws D R}.

(** ** Nodes that say the same *)

Record node_rel (n1 n2 : node D) : Prop := {
  nr_wf1 : wf (nd_rr n1);
  nr_wf2 : wf (nd_rr n2);
  nr_same : same (nd_rr n1) (nd_rr n2);
  nr_locked : nd_locked_keys n1 = nd_locked_keys n2;
  nr_db : nd_db n1 = nd_db n2
}.

(** [m2] goes on where [m1] does, to related nodes, and with the same promises. *)
Definition node_sim {A B} (m1 : M (node D) A) (m2 : M (node D) B) (Q : A -> B -> Prop) : Prop :=
  forall n1 n2 a n1', node_rel n1 n2 -> m1 n1 = Done (a, n1') ->
    exists b n2', m2 n2 = Done (b, n2') /\ node_rel n1' n2' /\ Q a b /\ pending (nd_db n1') = pending (nd_db n1).

Lemma validate_agree (n1 n2 : node D) c1 c2 : node_rel n1 n2 -> ra_commands c1 = ra_commands c2 ->
  validateKeyExistence n1 c1 = validateKeyExistence n2 c2.
Proof.
  intros [_ _ _ Hl Hd] Hc. unfold validateKeyExistence. rewrite Hc.
  assert (forall c key, count_key n1 c key = count_key n2 c key) as Hk.
  { intros [[t f] l] key. unfold count_key. by rewrite Hl, Hd. }
  assert (forall keys c, foldl (count_key n1) c keys = foldl (count_key n2) c keys) as Hks.
  { induction keys as [|key keys IH]; intros c; cbn [foldl]; [done|]. by rewrite Hk, IH. }
  assert (forall cs c, foldl (fun c cmd => foldl (count_key n1) c (command_keys cmd)) c cs =
                       foldl (fun c cmd => foldl (count_key n2) c (command_keys cmd)) c cs) as ->; [|done].
  induction cs as [|cmd cs IH]; intros c; cbn [foldl]; [done|]. by rewrite Hks, IH.
Qed.

(** Arrays that differ at most in the allocated size. *)
Definition like (c1 c2 : RaftRedisCommandArray) : Prop :=
  ra_client_id c1 = ra_client_id c2 /\ ra_asking c1 = ra_asking c2 /\ ra_cmd_flags c1 = ra_cmd_flags c2 /\
  ra_commands c1 = ra_commands c2 /\ ra_acl c1 = ra_acl c2.

Lemma decision_agree (n1 n2 : node D) c1 c2 : node_rel n1 n2 -> like c1 c2 -> node_decision n1 c1 = node_decision n2 c2.
Proof.
  intros Hn (_ & Ha & _ & Hc & _). unfold node_decision, decision, HashSlotCompute.
  rewrite (validate_agree n1 n2 c1 c2 Hn Hc). destruct Hn as [_ _ [Hg _ Hs _ _] _ _]. by rewrite Hg, Hs, Ha, Hc.
Qed.

Lemma handle_sharding_agree ctx c1 c2 : like c1 c2 ->
  node_sim (handleSharding ctx c1) (handleSharding false c2) (fun a b => a.1 = b.1 /\ b.2 = []).
Proof.
  intros Hc n1 n2 [st reps] n1' Hn E. pose proof Hn as [W1 W2 Hs Hl Hd].
  destruct (handle_sharding_run n2 c2 W2) as [E2 _]. exists (node_decision n2 c2, []), n2. split; [exact E2|].
  rewrite <- (decision_agree n1 n2 c1 c2 Hn Hc). cbn [fst snd].
  destruct ctx.
  - destruct (proj2 (handle_sharding_run n1 c1 W1) st reps n1' E) as (-> & (Hl' & Hd' & W1' & S1') & _).
    split_and!; try done; [|by rewrite Hd']. split; [done..| | |]; [|congruence..].
    transitivity (nd_rr n1); [by symmetry|done].
  - rewrite (proj1 (handle_sharding_run n1 c1 W1)) in E. injection E as <- <- <-. by split_and!.
Qed.

Lemma node_rr_sim {A B} (m1 : M RedisRaftCtx A) (m2 : M RedisRaftCtx B) (P : RedisRaftCtx -> Prop) :
  respects keeps_wf m1 -> respects keeps_wf m2 ->
  (forall r1 r2 a r1', wf r1 -> wf r2 -> same r1 r2 -> P r1 -> m1 r1 = Done (a, r1') ->
     exists b r2', m2 r2 = Done (b, r2') /\ same r1' r2') ->
  forall (n1 n2 n1' : node D) a, node_rel n1 n2 -> P (nd_rr n1) -> on_rr m1 n1 = Done (a, n1') ->
    exists b n2', on_rr m2 n2 = Done (b, n2') /\ node_rel n1' n2' /\ pending (nd_db n1') = pending (nd_db n1).
Proof.
  intros K1 K2 Hm n1 n2 n1' a [W1 W2 Hs Hl Hd] HP (r1' & E1 & Er & El & Ed)%on_rr_inv.
  destruct (Hm _ _ _ _ W1 W2 Hs HP E1) as (b & r2' & E2 & Hs'). exists b, (mk_node r2' (nd_locked_keys n2) (nd_db n2)).
  split_and!; [|split; cbn; [..|congruence|congruence]|by rewrite Ed].
  - unfold on_rr, zoom. by rewrite E2.
  - rewrite Er. by apply (K1 _ _ _ E1).
  - by apply (K2 _ _ _ E2).
  - by rewrite Er.
Qed.

Lemma sharding_entry_agree type data ctx (n1 n2 n1' : node D) a :
  node_rel n1 n2 -> few 1 (nd_rr n1) -> on_rr (apply_sharding_entry type data ctx) n1 = Done (a, n1') ->
  exists b n2', on_rr (apply_sharding_entry type data false) n2 = Done (b, n2') /\ node_rel n1' n2' /\
    pending (nd_db n1') = pending (nd_db n1).
Proof.
  apply (node_rr_sim _ _ (few 1)); [apply entry_keeps_wf..|]. intros r1 r2 rep r1' W1 W2 Hs Hf E.
  by eapply (entry_agree type data ctx false r1 r2).
Qed.

Lemma restore_agree keys : forall (n1 n2 n1' : node D) u, nd_db n1 = nd_db n2 -> restore_all keys n1 = Done (u, n1') ->
  exists n2', restore_all keys n2 = Done (tt, n2') /\ nd_db n1' = nd_db n2' /\ nd_rr n1' = nd_rr n1 /\ nd_rr n2' = nd_rr n2 /\
    nd_locked_keys n1' = nd_locked_keys n1 /\ nd_locked_keys n2' = nd_locked_keys n2 /\
    pending (nd_db n1') = pending (nd_db n1).
Proof.
  induction keys as [|[key v] keys IH]; intros n1 n2 n1' u Hd; cbn [restore_all].
  { intros [= _ <-]. exists n2. by split_and!. }
  rewrite (bind_done_eq get _ n1 n1 n1), (bind_done_eq get _ n2 n2 n2), <- Hd by done.
  destruct (RestoreKey (nd_db n1) key v) as [d|] eqn:Er; [|done].
  rewrite (bind_done_eq (modify _) _ n1 tt (mk_node (nd_rr n1) (nd_locked_keys n1) d)) by done.
  rewrite (bind_done_eq (modify _) _ n2 tt (mk_node (nd_rr n2) (nd_locked_keys n2) d)) by done.
  intros (n2' & E & Hdb & Q1 & Q2 & Q3 & Q4 & Hp)%(IH _ (mk_node (nd_rr n2) (nd_locked_keys n2) d)); [|done].
  exists n2'. cbn in *. split_and!; try done. rewrite Hp. by eapply restore_pending.
Qed.

Lemma import_agree data ctx : node_sim (importKeys data ctx) (importKeys data false) (fun _ b => b = []).
Proof.
  intros n1 n2 reps n1' Hn E. pose proof Hn as [W1 W2 Hs Hl Hd].
  destruct (RaftRedisDeserializeImport data (mk_import 0 0 0 [] [])) as [[res ik]| |] eqn:Ed.
  2-3: unfold importKeys in E; by rewrite Ed in E.
  assert (res = RR_OK /\ 0 < ik_num_keys ik /\ exists key0 keys, ik_key_names ik = key0 :: keys) as (-> & Hk & key0 & keys & En).
  { unfold importKeys in E. rewrite Ed in E. destruct (Z.eqb_spec res RR_OK) as [->|]; [|done].
    rewrite (bind_done_eq (c_assert true) _ n1 tt n1) in E by done.
    destruct (Z.ltb_spec 0 (ik_num_keys ik)); [|done]. rewrite (bind_done_eq (c_assert true) _ n1 tt n1) in E by done.
    destruct (ik_key_names ik); [done|]. eauto. }
  rewrite (import_run data ik key0 keys ctx n1 W1 Ed Hk En) in E. rewrite (import_run data ik key0 keys false n2 W2 Ed Hk En).
  cbv zeta in E |- *. set (slot := keyHashSlot key0) in *.
  rewrite <- (sm_groups _ _ Hs), <- (sm_terms _ _ Hs).
  destruct (import_refused _ _ slot ik) as [rep|].
  { injection E as <- <-. exists [], n2. by split_and!. }
  destruct (set_max_term_table slot (ik_term ik) n1 W1) as (W1' & G1 & T1).
  destruct (set_max_term_table slot (ik_term ik) n2 W2) as (W2' & G2 & T2). cbv zeta in *.
  apply bind_done in E as (u & n1b & Er & [= <- <-]).
  destruct (restore_agree _ (set_max_term slot (ik_term ik) n1) (set_max_term slot (ik_term ik) n2) _ _ Hd Er) as (n2b & E2 & Hdb & R1 & R2 & L1 & L2 & Hp).
  rewrite (bind_done_eq _ _ _ _ _ E2). exists [], n2b. split_and!; [done| |done|exact Hp].
  split; [by rewrite R1|by rewrite R2| |by rewrite L1, L2|done]. rewrite R1, R2. destruct Hs as [Sg St Ss Sm Sn].
  split; [by rewrite G1, G2| |exact Ss|exact Sm|exact Sn]. intros j. rewrite T1, T2, St. done.
Qed.

Lemma unlock_agree data ctx : node_sim (unlockDeleteKeys data ctx) (unlockDeleteKeys data false) (fun _ b => b = []).
Proof.
  intros n1 n2 reps n1' [W1 W2 Hs Hl Hd] E. unfold unlockDeleteKeys in *.
  apply bind_done in E as (keys & n & [Ek ->]%lift_inv & E). rewrite (bind_done_eq _ _ _ _ _ (lift_done n2 Ek)).
  destruct keys as [keys|]; [|done]. apply bind_done in E as (u & n & [= <- <-] & [= <- <-]).
  eexists [], _. split; [done|]. split; [|split; [done|apply del_pending]].
  split; cbn; [done..| |]; by rewrite ?Hl, ?Hd.
Qed.

(** ** Locking *)

Lemma slot_maps_agree t slot (n1 n2 : node D) : node_rel n1 n2 -> SlotRangeTypeValid t = true ->
  exists g, points_to (nd_rr n1) (slot_map (rr_sharding_info (nd_rr n1)) t !! slot) g /\
            points_to (nd_rr n2) (slot_map (rr_sharding_info (nd_rr n2)) t !! slot) g.
Proof.
  intros [W1 W2 Hs _ _] Ht. exists (server (groups (nd_rr n1)) t slot). split; [by apply slot_map_points|].
  rewrite (sm_groups _ _ Hs). by apply slot_map_points.
Qed.

Lemma lock_agree data mreq : node_sim (lockKeys data mreq) (lockKeys data None) (fun _ b => b = inl []).
Proof.
  intros n1 n2 res n1' Hn E. pose proof Hn as [W1 W2 Hs Hl Hd]. unfold lockKeys, lock_error in *.
  apply bind_done in E as (keys & n & [Ek ->]%lift_inv & E). rewrite (bind_done_eq _ _ _ _ _ (lift_done n2 Ek)).
  assert (forall r, Done (r, n1) = Done (res, n1') -> exists (b : list reply + migration) n2',
    Done (inl [] : list reply + migration, n2) = Done (b, n2') /\ node_rel n1' n2' /\ b = inl [] /\
    pending (nd_db n1') = pending (nd_db n1)) as Hstop.
  { intros r [= _ <-]. exists (inl []), n2. by split_and!. }
  destruct keys as [keys|]; [|done]. destruct (lock_slot keys) as [slot|] eqn:Els.
  2: { exact (Hstop _ E). }
  destruct (slot =? -1). { exact (Hstop _ E). }
  rewrite (bind_done_eq (gets _) _ n1 (rr_sharding_info (nd_rr n1)) n1) in E by done.
  rewrite (bind_done_eq (gets _) _ n2 (rr_sharding_info (nd_rr n2)) n2) by done.
  destruct (slot_maps_agree SLOTRANGE_TYPE_MIGRATING slot n1 n2 Hn eq_refl) as (gm & M1 & M2).
  destruct (slot_maps_agree SLOTRANGE_TYPE_IMPORTING slot n1 n2 Hn eq_refl) as (gi & I1 & I2).
  unfold slot_map in M1, M2, I1, I2.
  cbn [Z.eqb Pos.eqb SLOTRANGE_TYPE_STABLE SLOTRANGE_TYPE_IMPORTING SLOTRANGE_TYPE_MIGRATING] in M1, M2, I1, I2.
  destruct (si_migrating_slots_map (rr_sharding_info (nd_rr n1)) !! slot) as [p1|], gm as [gm|],
    (si_migrating_slots_map (rr_sharding_info (nd_rr n2)) !! slot) as [p2|]; try done.
  2: { exact (Hstop _ E). }
  rewrite (bind_done_eq _ _ _ _ _ (on_rr_run _ n1 _ (is_local_run _ (Some p1) (Some gm) M1))) in E.
  rewrite (bind_done_eq _ _ _ _ _ (on_rr_run _ n2 _ (is_local_run _ (Some p2) (Some gm) M2))).
  destruct (negb (local_opt (Some gm))). { exact (Hstop _ E). }
  destruct (si_importing_slots_map (rr_sharding_info (nd_rr n1)) !! slot) as [q1|], gi as [gi|],
    (si_importing_slots_map (rr_sharding_info (nd_rr n2)) !! slot) as [q2|]; try done.
  2: { exact (Hstop _ E). }
  destruct I1 as (sg1 & I1 & ->), I2 as (sg2 & I2 & Hst).
  rewrite (bind_done_eq _ _ _ _ _ (on_rr_run _ n1 _ (deref_run _ q1 sg1 I1))) in E.
  rewrite (bind_done_eq _ _ _ _ _ (on_rr_run _ n2 _ (deref_run _ q2 sg2 I2))).
  assert (sg_local sg2 = sg_local sg1) as -> by (symmetry; exact (f_equal sg_local Hst)).
  destruct (sg_local sg1). { exact (Hstop _ E). }
  apply bind_done in E as (u & n3 & [= <- <-] & E).
  set (lk := list_to_set (filter (fun k => KeyExists (nd_db n1) k = true) keys) ∪ nd_locked_keys n1 : gset (list Z)).
  assert (n1' = mk_node (nd_rr n1) lk (nd_db n1)) as ->.
  { destruct mreq as [q|]; [|by injection E]. by eapply dump_unchanged. }
  exists (inl []), (mk_node (nd_rr n2) lk (nd_db n2)). split; [|by split_and!].
  unfold bind, modify, ret. cbn. do 3 f_equal. unfold lk. by rewrite Hd, Hl.
Qed.

End Nodes.
