(* ===== verification/ServerReplica.v ===== *)
(** * Servers that apply the same entries stay the same

    A relational program logic for pairs of runs: the first of a server that may
    have a client, the second of one that has none. *)

From stdpp Require Import base list numbers tactics gmap strings sorting.
From S2P Require Import Prelude RaftTypes Libc File Multibulk PageLog Crc Serialization SerializationSpec NodeAddr.
From S2P Require Import ShardGroup Sharding ShardingSpec ShardParse ShardParseSpec ShardSnapshot ShardRouting.
From S2P Require Import ShardRoutingSpec ShardMigration Commands Blocked Server ServerSpec.

Local Open Scope Z_scope.

Section Replica.
Context {D R : Type} `{RedisLaws D R}.

#[local] Abbreviation S := (module_state D R).
#[local] Abbreviation Srv := (M S).

(** ** The invariant *)

Definition promises (s : S) : list Z := bc_reply <$> contents (sv_blocked s).

(** [x]: a promise that has been given and is not yet kept with the blocked
    commands.  Every promise that is pending belongs to one blocked command, whose
    address Redis has. *)
Record ok_with (x : option Z) (s : S) : Prop := {
  ok_wf : wf (nd_rr (sv_node s));
  ok_blocked : blk_wf (sv_blocked s);
  ok_pending p : p ∈ pending (nd_db (sv_node s)) <-> x = Some p \/ p ∈ promises s;
  ok_new p : x = Some p -> p ∉ promises s;
  ok_promises : NoDup (promises s);
  ok_handlers pr p : sv_handlers s !! pr = Some p <->
    p ∈ bl_list (sv_blocked s) /\ exists bc, bl_heap (sv_blocked s) !! p = Some bc /\ bc_reply bc = pr
}.

Abbreviation ok := (ok_with None).

(** A server that none of the blocked commands has a client at. *)
Definition clientless (s : S) : Prop := forall bc, bc ∈ contents (sv_blocked s) -> bc_req bc = None.

(** ** The state that servers share *)

(** A blocked command without its client. *)
Definition bc_shared (bc : BlockedCommand) : list Z * Z * Z * list Z * Z :=
  (bc_command bc, bc_idx bc, bc_session bc, bc_data bc, bc_reply bc).

Record replicated (s1 s2 : S) : Prop := {
  rp_tables : same (nd_rr (sv_node s1)) (nd_rr (sv_node s2));
  rp_locked : nd_locked_keys (sv_node s1) = nd_locked_keys (sv_node s2);
  rp_db : nd_db (sv_node s1) = nd_db (sv_node s2);
  rp_sessions : dom (sv_sessions s1) = dom (sv_sessions s2);
  rp_blocked : bc_shared <$> contents (sv_blocked s1) = bc_shared <$> contents (sv_blocked s2);
  rp_term : sv_applied_term s1 = sv_applied_term s2;
  rp_idx : sv_applied_idx s1 = sv_applied_idx s2;
  rp_eval : sv_entered_eval s1 = sv_entered_eval s2
}.

#[export] Instance replicated_equivalence : Equivalence replicated.
Proof.
  split.
  - by intros s.
  - intros s1 s2 []. split; by symmetry.
  - intros s1 s2 s3 [] []. split; by etransitivity.
Qed.

(** The first server may have clients. *)
Record Rel (x : option Z) (s1 s2 : S) : Prop := {
  rel_ok1 : ok_with x s1;
  rel_ok2 : ok_with x s2;
  rel_clientless : clientless s2;
  rel_rep : replicated s1 s2
}.

(** What is the server's own: requests, clients, users and answers. *)
Record local (s s' : S) : Prop := {
  lc_node : sv_node s' = sv_node s;
  lc_eval : sv_entered_eval s' = sv_entered_eval s;
  lc_sessions : sv_sessions s' = sv_sessions s;
  lc_blocked : sv_blocked s' = sv_blocked s;
  lc_handlers : sv_handlers s' = sv_handlers s;
  lc_term : sv_applied_term s' = sv_applied_term s;
  lc_idx : sv_applied_idx s' = sv_applied_idx s
}.

#[export] Instance local_preorder : PreOrder local.
Proof. split; [by intros s|]. intros s1 s2 s3 [] []. split; congruence. Qed.

Lemma ok_local x s s' : local s s' -> ok_with x s -> ok_with x s'.
Proof. intros [Hn He Hs Hb Hh Ht Hi] []. split; unfold promises in *; rewrite ?Hn, ?Hb, ?Hh; done. Qed.

Lemma clientless_local s s' : local s s' -> clientless s -> clientless s'.
Proof. intros [_ _ _ Hb _ _ _] Hc. unfold clientless. by rewrite Hb. Qed.

Lemma replicated_local s1 s1' s2 : local s1 s1' -> replicated s1 s2 -> replicated s1' s2.
Proof. intros [Hn He Hs Hb Hh Ht Hi] []. split; rewrite ?Hn, ?He, ?Hs, ?Hb, ?Ht, ?Hi; done. Qed.

Lemma Rel_local x s1 s1' s2 : local s1 s1' -> Rel x s1 s2 -> Rel x s1' s2.
Proof. intros Hl []. split; [by eapply ok_local|done..|by eapply replicated_local]. Qed.

Lemma Rel_local2 x s1 s2 s2' : local s2 s2' -> Rel x s1 s2 -> Rel x s1 s2'.
Proof.
  intros Hl []. split; [done|by eapply ok_local|by eapply clientless_local|].
  symmetry. eapply replicated_local; [exact Hl|by symmetry].
Qed.

(** ** Pairs of runs *)

Definition sim {A B} (P : S -> S -> Prop) (m1 : Srv A) (m2 : Srv B) (Q : A -> B -> S -> S -> Prop) : Prop :=
  forall s1 s2 a s1', P s1 s2 -> m1 s1 = Done (a, s1') -> exists b s2', m2 s2 = Done (b, s2') /\ Q a b s1' s2'.

Lemma sim_ret {A B} (P : S -> S -> Prop) (a : A) (b : B) (Q : A -> B -> S -> S -> Prop) :
  (forall s1 s2, P s1 s2 -> Q a b s1 s2) -> sim P (ret a) (ret b) Q.
Proof. intros HQ s1 s2 a' s1' HP [= <- <-]. exists b, s2. split; [done|]. by apply HQ. Qed.

Lemma sim_bind {A B A' B'} P (m1 : Srv A) (m2 : Srv B) Q (k1 : A -> Srv A') (k2 : B -> Srv B') T :
  sim P m1 m2 Q -> (forall a b, sim (Q a b) (k1 a) (k2 b) T) -> sim P (bind m1 k1) (bind m2 k2) T.
Proof.
  intros Hm Hk s1 s2 a' s1' HP (a & s & E1 & E2)%bind_done.
  destruct (Hm _ _ _ _ HP E1) as (b & s2' & E & HQ). destruct (Hk a b _ _ _ _ HQ E2) as (b' & s2'' & E' & HT).
  exists b', s2''. split; [|done]. by rewrite (bind_done_eq _ _ _ _ _ E).
Qed.

(** A step of the first server alone. *)
Lemma sim_left {A B C} x (m1 : Srv A) (k1 : A -> Srv B) (m2 : Srv C) T :
  respects local m1 -> (forall a, sim (Rel x) (k1 a) m2 T) -> sim (Rel x) (bind m1 k1) m2 T.
Proof.
  intros Hl Hk s1 s2 a' s1' HP (a & s & E1 & E2)%bind_done. apply Hl in E1.
  apply (Hk a s s2 a' s1'); [by eapply Rel_local|done].
Qed.

Lemma sim_left_end {A} x (m1 : Srv A) : respects local m1 -> sim (Rel x) m1 (ret tt) (fun _ _ => Rel x).
Proof. intros Hl s1 s2 a s1' HP E1. exists tt, s2. split; [done|]. apply Hl in E1. by eapply Rel_local. Qed.

Lemma sim_pre {A B} (P P' : S -> S -> Prop) (m1 : Srv A) (m2 : Srv B) Q :
  (forall s1 s2, P' s1 s2 -> P s1 s2) -> sim P m1 m2 Q -> sim P' m1 m2 Q.
Proof. intros HP Hm s1 s2 a s1' ?. apply Hm. by apply HP. Qed.

Lemma sim_post {A B} P (m1 : Srv A) (m2 : Srv B) (Q Q' : A -> B -> S -> S -> Prop) :
  (forall a b s1 s2, Q a b s1 s2 -> Q' a b s1 s2) -> sim P m1 m2 Q -> sim P m1 m2 Q'.
Proof. intros HQ Hm s1 s2 a s1' HP E. destruct (Hm _ _ _ _ HP E) as (b & s2' & ? & ?). eauto. Qed.

Lemma sim_given {A B} (F : Prop) P (m1 : Srv A) (m2 : Srv B) Q :
  (F -> sim P m1 m2 Q) -> sim (fun s1 s2 => F /\ P s1 s2) m1 m2 Q.
Proof. intros Hm s1 s2 a s1' [HF HP]. by apply Hm. Qed.

Lemma sim_abort {A B} P (m2 : Srv B) Q : sim P (@abort S A) m2 Q.
Proof. by intros s1 s2 a s1' HP E. Qed.

(** ** What is local *)

Ltac solve_local :=
  repeat first
    [ apply (respects_modify local); intros s; by split
    | progress respects_solve ].

Lemma local_emit e : respects local (emit e).
Proof. unfold emit. solve_local. Qed.

Lemma local_reply client i : respects local (reply_to client i).
Proof. apply local_emit. Qed.

Lemma local_deref p : respects local (deref_req p).
Proof. unfold deref_req. solve_local. Qed.

#[local] Hint Resolve local_emit local_reply local_deref : respects.

Lemma local_update p f : respects local (update_req p f).
Proof. unfold update_req. solve_local. Qed.

Lemma local_req_reply p i : respects local (req_reply p i).
Proof. unfold req_reply. solve_local. Qed.

Lemma local_req_free p : respects local (RaftReqFree p).
Proof. unfold RaftReqFree, BlockedReqResetById. solve_local. Qed.

#[local] Hint Resolve local_update local_req_reply local_req_free : respects.

Lemma local_finish req i : respects local (finish req i).
Proof. unfold finish. solve_local. Qed.

Lemma local_finish_replies req reps : respects local (finish_replies req reps).
Proof. unfold finish_replies. solve_local. Qed.

Lemma local_acl_user acl : respects local (RaftGetACLUser acl).
Proof. unfold RaftGetACLUser. solve_local. Qed.

Lemma local_tell c i : respects local (tell c i).
Proof. unfold tell. solve_local. Qed.

Lemma local_req_keys v req : respects local (req_migrate_keys v req).
Proof. unfold req_migrate_keys. solve_local. Qed.

#[local] Hint Resolve local_finish local_finish_replies local_acl_user local_tell local_req_keys : respects.

(** ** Execution of commands *)

Lemma sim_on_node_if {A B} (F : node D -> Prop) x (m1 : M (node D) A) (m2 : M (node D) B) Q :
  (forall n1 n2 a n1', node_rel n1 n2 -> F n1 -> m1 n1 = Done (a, n1') ->
    exists b n2', m2 n2 = Done (b, n2') /\ node_rel n1' n2' /\ Q a b /\ pending (nd_db n1') = pending (nd_db n1)) ->
  sim (fun s1 s2 => F (sv_node s1) /\ Rel x s1 s2) (on_node m1) (on_node m2) (fun a b s1 s2 => Q a b /\ Rel x s1 s2).
Proof.
  intros Hm s1 s2 a s1' [HF [[W1 B1 P1 N1 U1 H1'] [W2 B2 P2 N2 U2 H2'] C2 []]] (n1' & E1 & ->)%zoom_done.
  destruct (Hm (sv_node s1) (sv_node s2) a n1') as (b & n2' & E2 & [W1' W2' S' L' D'] & HQ & Hp); [by split|done|done|].
  exists b, (s2 <| sv_node := n2' |>). split; [unfold on_node, zoom; by rewrite E2|]. split; [exact HQ|].
  assert (forall p, p ∈ pending (nd_db n2') <-> p ∈ pending (nd_db (sv_node s2))) as Hp2.
  { intros p. by rewrite <- D', Hp, rp_db0. }
  split; [split|split|done|split]; try done; cbn.
  - intros p. rewrite Hp. apply P1.
  - intros p. rewrite Hp2. apply P2.
Qed.

Lemma sim_on_node {A B} x (m1 : M (node D) A) (m2 : M (node D) B) Q :
  node_sim m1 m2 Q -> sim (Rel x) (on_node m1) (on_node m2) (fun a b s1 s2 => Q a b /\ Rel x s1 s2).
Proof.
  intros Hm. eapply sim_pre; [|apply (sim_on_node_if (fun _ => True)); intros n1 n2 a n1' Hn _; by apply Hm].
  intros s1 s2 HR. by split.
Qed.

Lemma sim_redis_call c : sim (Rel None) (redis_call c) (redis_call c)
  (fun a b s1 s2 => a = b /\ Rel (match a with inl _ => None | inr p => Some p end) s1 s2).
Proof.
  intros s1 s2 a s1' [[W1 B1 P1 N1 U1 H1'] [W2 B2 P2 N2 U2 H2'] C2 []] E. unfold redis_call in *.
  rewrite (bind_done_eq get _ s1 s1 s1) in E by done. rewrite (bind_done_eq get _ s2 s2 s2), <- rp_db0 by done.
  destruct (Call (nd_db (sv_node s1)) c) as [d r] eqn:Ec.
  apply bind_done in E as (u & s & [= <- <-] & [= <- <-]). eexists r, _. split; [reflexivity|]. split; [done|].
  assert (promises s1 = promises s2) as Hpr.
  { unfold promises. assert (forall l : list BlockedCommand, bc_reply <$> l = snd <$> (bc_shared <$> l)) as Hx.
    { intros l. by rewrite <- list_fmap_compose. } by rewrite !Hx, rp_blocked0. }
  destruct r as [r|p].
  - apply call_value in Ec. split; [split|split|done|split]; try done; cbn.
    + intros p. rewrite Ec. apply P1.
    + intros p. rewrite Ec, rp_db0. apply P2.
  - apply call_promise in Ec as [Hf Ec]. assert (p ∉ promises s1) as Hn by (intros Hin; apply Hf, P1; by right).
    split; [split|split|done|split]; try done; cbn.
    + intros q. rewrite Ec, elem_of_union, elem_of_singleton. rewrite (P1 q). naive_solver.
    + intros q [= <-]. exact Hn.
    + intros q. rewrite Ec, elem_of_union, elem_of_singleton. rewrite rp_db0, (P2 q). naive_solver.
    + intros q [= <-]. change (promises (s2 <| sv_node ::= (fun n => n <| nd_db := d |>) |>)) with (promises s2). by rewrite <- Hpr.
Qed.

(** A modification of the shared state that keeps the relation. *)
Lemma sim_modify x (f1 f2 : S -> S) (Q : unit -> unit -> S -> S -> Prop) :
  (forall s1 s2, Rel x s1 s2 -> Q tt tt (f1 s1) (f2 s2)) -> sim (Rel x) (modify f1) (modify f2) Q.
Proof. intros HQ s1 s2 a s1' HP [= <- <-]. exists tt, (f2 s2). split; [done|]. by apply HQ. Qed.

Lemma Rel_eval x s1 s2 b : Rel x s1 s2 ->
  Rel x (s1 <| sv_entered_eval := b |>) (s2 <| sv_entered_eval := b |>).
Proof. intros [[] [] ? []]. split; [by split|by split|done|by split]. Qed.

Lemma sim_gets_eval x : sim (Rel x) (gets sv_entered_eval) (gets sv_entered_eval) (fun a b s1 s2 => a = b /\ Rel x s1 s2).
Proof. intros s1 s2 a s1' HP [= <- <-]. eexists _, s2. split; [done|]. split; [apply HP|done]. Qed.

(** The answer to a client, which the second server does not have. *)
Lemma sim_tell x cl i : sim (Rel x) (tell cl i) (@tell D R None i) (fun _ _ => Rel x).
Proof. apply sim_left_end. apply local_tell. Qed.

Lemma sim_exec_command cl c1 c2 c : like c1 c2 ->
  sim (Rel None) (exec_command cl c1 c) (exec_command None c2 c)
    (fun a b s1 s2 => a = b /\ (a <> None -> ra_len c1 = 1) /\ Rel a s1 s2).
Proof.
  intros (_ & _ & Hf & Hc & Ha). unfold exec_command. destruct c as [|cmd args]; [apply sim_abort|].
  eapply sim_bind; [apply sim_gets_eval|]. intros old1 old2. apply sim_given. intros <-.
  eapply (sim_bind _ _ _ (fun _ _ => Rel None)).
  { unfold when. destruct (is_eval cmd); [|by apply sim_ret]. apply sim_modify. intros. by apply Rel_eval. }
  intros _ _. eapply sim_bind; [apply sim_gets_eval|]. intros e1 e2. apply sim_given. intros <-. rewrite <- Ha, <- Hf.
  eapply sim_bind; [apply sim_redis_call|]. intros r1 r2 s1 s2 a s1' [<- HP] E.
  assert (ra_len c2 = ra_len c1) as Hlen by (unfold ra_len; by rewrite Hc). rewrite Hlen.
  apply bind_done in E as (u & s & [= <- <-] & E).
  rewrite (bind_done_eq (modify _) _ s2 tt (s2 <| sv_entered_eval := old1 |>)) by done.
  apply (Rel_eval _ _ _ old1) in HP. destruct r1 as [r|p].
  - eexists None, _. split; [done|]. apply bind_done in E as (u & s & Et & [= <- <-]). split; [done|]. split; [done|].
    apply local_tell in Et. by eapply Rel_local.
  - apply bind_done in E as (u & s & Ea & [= <- <-]). destruct (Z.eqb_spec (ra_len c1) 1) as [Hl|]; [|done].
    injection Ea as _ <-. eexists (Some p), _. split; [done|]. by split_and!.
Qed.

Lemma sim_exec_commands cl c1 c2 : like c1 c2 -> forall cs i reply,
  Z.of_nat (i + length cs) = ra_len c1 -> (reply <> None -> ra_len c1 = 1 /\ (0 < i)%nat) ->
  sim (Rel reply) (exec_commands cl c1 i cs reply) (exec_commands None c2 i cs reply) (fun a b s1 s2 => a = b /\ Rel a s1 s2).
Proof.
  intros Hlike. assert (ra_len c2 = ra_len c1) as Hlen by (unfold ra_len; by destruct Hlike as (_ & _ & _ & -> & _)).
  induction cs as [|c cs IH]; intros i reply Hi Hr; cbn [exec_commands].
  { apply sim_ret. intros. by split. }
  cbn [length] in Hi. destruct reply as [p|]; [destruct (Hr ltac:(done)); lia|].
  destruct c as [|cmd args]; [apply sim_abort|]. rewrite Hlen. destruct ((i =? 0)%nat && is_cmd "MULTI" cmd).
  - eapply sim_bind; [apply sim_tell|]. intros ? ?. apply IH; [lia|done].
  - eapply sim_bind; [by apply sim_exec_command|]. intros a b. apply sim_given. intros <-. apply sim_given. intros Ha.
    apply IH; [lia|]. intros Hn. split; [by apply Ha|lia].
Qed.

Lemma sim_session x c1 c2 b1 b2 : like c1 c2 -> sim (Rel x) (getClientSession c1 b1) (getClientSession c2 b2) (fun _ _ => Rel x).
Proof.
  intros (Hid & _ & _ & Hc & _) s1 s2 a s1' HP E. unfold getClientSession in *.
  rewrite (bind_done_eq get _ s1 s1 s1) in E by done. rewrite (bind_done_eq get _ s2 s2 s2) by done.
  rewrite Hid, Hc in E. pose proof HP as [_ _ _ Hrep]. pose proof (rp_sessions _ _ Hrep) as Hd.
  assert (is_Some (sv_sessions s1 !! ra_client_id c2) <-> is_Some (sv_sessions s2 !! ra_client_id c2)) as Hs.
  { by rewrite <- !elem_of_dom, Hd. }
  destruct (sv_sessions s1 !! ra_client_id c2) as [l1|] eqn:E1, (sv_sessions s2 !! ra_client_id c2) as [l2|] eqn:E2.
  - injection E as <- <-. by exists tt, s2.
  - destruct Hs as [[? ?] _]; [by eexists|done].
  - destruct Hs as [_ [? ?]]; [by eexists|done].
  - destruct (ra_commands c2) as [|[|cmd args] cs]; [done|done|]. destruct (is_cmd "watch" cmd); unfold when in *.
    + injection E as <- <-. eexists tt, _. split; [done|]. destruct HP as [[] [] ? []].
      split; [by split|by split|done|split; try done]. cbn. by rewrite !dom_insert_L, rp_sessions0.
    + injection E as <- <-. by exists tt, s2.
Qed.

Lemma sim_sharding ctx c1 c2 x : like c1 c2 ->
  sim (Rel x) (on_node (handleSharding ctx c1)) (on_node (handleSharding false c2))
    (fun a b s1 s2 => (a.1 = b.1 /\ b.2 = []) /\ Rel x s1 s2).
Proof. intros Hc. by apply sim_on_node, handle_sharding_agree. Qed.

Lemma sim_lift {A} P (o : outcome A) : sim P (lift o) (lift o) (fun a b s1 s2 => (a = b /\ o = Done a) /\ P s1 s2).
Proof. intros s1 s2 a s1' HP [-> ->]%lift_inv. exists a, s2. by split_and!. Qed.

(** The whole execution: the same promise, and the same name of the command. *)
Lemma sim_execute cl c1 c2 : like c1 c2 ->
  sim (Rel None) (RaftExecuteCommandArray cl c1) (RaftExecuteCommandArray None c2)
    (fun a b s1 s2 => (a.1 = b.1 /\ first_name a.2 = first_name b.2) /\ Rel a.1 s1 s2).
Proof.
  intros Hlike. unfold RaftExecuteCommandArray. assert (ra_acl c2 = ra_acl c1) as -> by (by destruct Hlike as (_ & _ & _ & _ & ->)).
  eapply (sim_bind _ _ _ (fun _ _ => Rel None)).
  { destruct (ra_acl c1) as [acl|]; [|by apply sim_ret]. intros s1 s2 a s1' HP E.
    assert (exists s2', RaftGetACLUser acl s2 = Done (tt, s2')) as [s2' E2].
    { unfold RaftGetACLUser, bind, get, modify, ret. destruct (sv_acl_dict s2 !! acl); by eexists. }
    exists tt, s2'. split; [done|]. apply local_acl_user in E, E2. eapply Rel_local; [exact E|]. by eapply Rel_local2. }
  intros _ _. eapply sim_bind; [by apply sim_sharding|]. intros [st1 r1] [st2 r2]. cbn [fst snd].
  apply sim_given. intros [<- ->]. eapply (sim_bind _ _ _ (fun _ _ => Rel None)).
  { apply sim_left_end. destruct cl; respects_solve. }
  intros _ _. destruct (negb (st1 =? RR_OK)).
  { apply sim_ret. intros s1 s2 HP. split; [|done]. split; [done|]. cbn. unfold first_name.
    by destruct Hlike as (_ & _ & _ & -> & _). }
  eapply sim_bind; [by apply sim_session|]. intros ? ?.
  assert (ra_cmd_flags c2 = ra_cmd_flags c1) as Hf by (by destruct Hlike as (_ & _ & -> & _)). rewrite Hf.
  eapply (sim_bind _ _ _ (fun a b s1 s2 => like a b /\ Rel None s1 s2)).
  { destruct (has_flag CMD_SPEC_BLOCKING (ra_cmd_flags c1)); [|apply sim_ret; by intros].
    assert (ra_commands c2 = ra_commands c1) as -> by (by destruct Hlike as (_ & _ & _ & -> & _)).
    eapply sim_bind; [apply sim_lift|]. intros cs1 cs2. apply sim_given. intros [<- _]. apply sim_ret. intros s1 s2 HP. split; [|done].
    destruct Hlike as (? & ? & ? & ? & ?). by repeat split. }
  intros a1 a2. apply sim_given. intros Hlike'. clear Hlike. rename Hlike' into Hlike.
  assert (ra_commands a2 = ra_commands a1) as -> by (by destruct Hlike as (_ & _ & _ & -> & _)).
  eapply sim_bind; [by eapply (sim_exec_commands cl a1 a2)|]. intros p1 p2. apply sim_given. intros <-.
  apply sim_ret. intros s1 s2 HP. cbn. split; [|done]. split; [done|]. unfold first_name.
  by destruct Hlike as (_ & _ & _ & -> & _).
Qed.

(** ** Adding a blocked command *)

Definition unblocked_idx (i : Z) (s : S) : Prop := i ∉ bc_idx <$> contents (sv_blocked s).

Lemma unblocked_replicated i s1 s2 : replicated s1 s2 -> unblocked_idx i s1 -> unblocked_idx i s2.
Proof.
  intros Hr. unfold unblocked_idx.
  assert (forall l : list BlockedCommand, bc_idx <$> l = (fun c => c.1.1.1.2) <$> (bc_shared <$> l)) as Hx.
  { intros l. by rewrite <- list_fmap_compose. } rewrite !Hx. by rewrite (rp_blocked _ _ Hr).
Qed.

Lemma on_blocked_run {A} (m : M blocked A) (s : S) a b0 b : m b0 = Done (a, b) -> sv_blocked s = b0 ->
  on_blocked m s = Done (a, s <| sv_blocked := b |>).
Proof. intros E <-. unfold on_blocked, zoom. by rewrite E. Qed.

(** Keeping a waiting command. *)
Definition add_waiting (name : list Z) (idx session : Z) (data : list Z) (req : option Z) (promise : Z) : Srv unit :=
  bc <- on_blocked (allocBlockedCommand name idx session data req promise) ;;
  on_blocked (addBlockedCommand bc) ;;
  set_unblock_handler promise bc.

Lemma add_waiting_run name idx session data req promise s :
  ok_with (Some promise) s -> unblocked_idx idx s ->
  let bc := new_bc name idx session data req promise in
  let p := bl_brk (sv_blocked s) in
  let s' := s <| sv_blocked := blocked_added bc (sv_blocked s) |> <| sv_handlers ::= <[promise := p]> |> in
  add_waiting name idx session data req promise s = Done (tt, s') /\ ok_with None s' /\
  contents (sv_blocked s') = contents (sv_blocked s) ++ [bc].
Proof.
  intros [W B P N U Ha] Hf. cbv zeta. set (bc := new_bc name idx session data req promise).
  destruct (blocked_added_wf bc (sv_blocked s) B Hf) as [B' C'].
  pose proof (add_blocked_run name idx session data req promise (sv_blocked s) B Hf) as Er. fold bc in Er.
  split_and!; [| |exact C'].
  - apply bind_done in Er as (p & b1 & E1 & (u & b2 & E2 & [= <- <-])%bind_done).
    unfold add_waiting. rewrite (bind_done_eq _ _ _ _ _ (on_blocked_run _ s _ _ _ E1 eq_refl)).
    set (s1 := s <| sv_blocked := b1 |>).
    by rewrite (bind_done_eq _ _ _ _ _ (on_blocked_run _ s1 _ _ _ E2 eq_refl)).
  - pose proof (fresh_address _ B) as Hfr. split; try done.
    + intros q. unfold promises. cbn [sv_blocked]. change (nd_db _) with (nd_db (sv_node s)). rewrite P.
      change (sv_blocked _) with (blocked_added bc (sv_blocked s)) at 1. rewrite C', fmap_app, elem_of_app.
      fold (promises s). cbn. rewrite list_elem_of_singleton. naive_solver.
    + unfold promises. change (sv_blocked _) with (blocked_added bc (sv_blocked s)). rewrite C', fmap_app.
      apply NoDup_app. split_and!; [done| |apply NoDup_singleton]. intros q Hq ->%list_elem_of_singleton. by apply (N promise).
    + intros pr p. cbn. rewrite lookup_insert, elem_of_app, list_elem_of_singleton. case_decide as Hpr.
      * subst pr. split.
        -- intros [= <-]. split; [by right|]. exists bc. by rewrite lookup_insert_eq.
        -- intros ([Hp| ->] & bc' & Hbc & Hr); [|done]. exfalso. rewrite lookup_insert_ne in Hbc by congruence.
           apply (N promise); [done|]. unfold promises. rewrite list_elem_of_fmap. exists bc'. split; [done|].
           apply contents_elem. eauto.
      * rewrite Ha. split.
        -- intros (Hp & bc' & Hbc & Hr). split; [by left|]. exists bc'. rewrite lookup_insert_ne by congruence. done.
        -- intros ([Hp| ->] & bc' & Hbc & Hr).
           ++ rewrite lookup_insert_ne in Hbc by congruence. eauto.
           ++ rewrite lookup_insert_eq in Hbc. by injection Hbc as <-.
Qed.

(** ** Removing blocked commands *)

Lemma fmap_inj_in {A B} (f : A -> B) (l : list A) x y : NoDup (f <$> l) -> x ∈ l -> y ∈ l -> f x = f y -> x = y.
Proof.
  intros Hnd Hx Hy E. apply list_elem_of_lookup in Hx as [i Hi], Hy as [j Hj].
  assert (i = j) as ->; [|congruence]. apply (NoDup_lookup (f <$> l) i j (f x) Hnd); rewrite list_lookup_fmap; [by rewrite Hi|].
  by rewrite Hj, E.
Qed.

(** The blocked commands without the one at [p]. *)
Definition removed (p idx : Z) (b : blocked) : blocked := (blocked_without p idx b) <| bl_heap ::= delete p |>.

Lemma remove_run p idx b bc : blk_wf b -> p ∈ bl_list b -> bl_heap b !! p = Some bc -> bc_idx bc = idx ->
  deleteBlockedCommand idx b = Done (tt, blocked_without p idx b) /\
  freeBlockedCommand p (blocked_without p idx b) = Done (tt, removed p idx b) /\
  blk_wf (removed p idx b) /\ contents (removed p idx b) = filter (fun c => bc_idx c <> idx) (contents b).
Proof.
  intros Hwf Hp Hbc Hi. assert (bl_dict b !! idx = Some p) as Hd by (apply (bw_dict _ Hwf); eauto).
  pose proof (delete_blocked_run idx b Hwf) as E. rewrite Hd in E.
  destruct (blocked_without_wf p idx b Hwf Hd) as [Hwf' Hc].
  destruct (freed_wf p (blocked_without p idx b) Hwf') as [Hwf'' Hc''].
  { cbn. rewrite list_elem_of_filter. tauto. }
  split_and!; [done|by eapply free_blocked_run|exact Hwf''|]. unfold removed. by rewrite Hc''.
Qed.

(** The state after the promise of the command at [p] has ended. *)
Definition forget (d : D) (p : Z) (bc : BlockedCommand) (s : S) : S :=
  s <| sv_node ::= (fun n => n <| nd_db := d |>) |> <| sv_handlers ::= delete (bc_reply bc) |>
    <| sv_blocked ::= removed p (bc_idx bc) |>.

Lemma forget_ok d p bc s : ok s -> p ∈ bl_list (sv_blocked s) -> bl_heap (sv_blocked s) !! p = Some bc ->
  pending d = pending (nd_db (sv_node s)) ∖ {[bc_reply bc]} -> ok (forget d p bc s).
Proof.
  intros [W B P N U Ha] Hp Hbc Hd. destruct (remove_run p _ _ bc B Hp Hbc eq_refl) as (_ & _ & B' & C').
  assert (bc ∈ contents (sv_blocked s)) as Hin by (apply contents_elem; eauto).
  assert (forall q, q ∈ promises (forget d p bc s) <-> q ∈ promises s /\ q <> bc_reply bc) as Hpr.
  { intros q. unfold promises. change (sv_blocked (forget d p bc s)) with (removed p (bc_idx bc) (sv_blocked s)). rewrite C'.
    rewrite !list_elem_of_fmap. split.
    - intros (c & -> & [Hne Hc]%list_elem_of_filter). split; [eauto|]. intros E. apply Hne.
      by rewrite (fmap_inj_in bc_reply (contents (sv_blocked s)) c bc).
    - intros ((c & -> & Hc) & Hne). exists c. split; [done|]. apply list_elem_of_filter. split; [|done]. intros E. apply Hne.
      by rewrite (fmap_inj_in bc_idx (contents (sv_blocked s)) c bc (contents_keys _ B)). }
  split; try done.
  - intros q. rewrite Hpr. change (nd_db (sv_node (forget d p bc s))) with d. rewrite Hd, elem_of_difference, elem_of_singleton, P.
    naive_solver.
  - unfold promises. change (sv_blocked (forget d p bc s)) with (removed p (bc_idx bc) (sv_blocked s)). rewrite C'.
    eapply sublist_NoDup; [exact U|]. apply fmap_sublist, sublist_filter.
  - intros pr q. change (sv_handlers (forget d p bc s)) with (delete (bc_reply bc) (sv_handlers s)).
    change (sv_blocked (forget d p bc s)) with (removed p (bc_idx bc) (sv_blocked s)). cbn.
    rewrite lookup_delete, list_elem_of_filter, lookup_delete. case_decide as Hpr'.
    + split; [done|]. intros ((Hne & Hq) & bc' & Hbc' & Hr). exfalso. apply Hne.
      rewrite decide_False in Hbc' by congruence.
      assert (bc' = bc) as ->; [|by apply (idx_unique _ q p bc bc B)].
      apply (fmap_inj_in bc_reply (contents (sv_blocked s))); [done|apply contents_elem; eauto|done|congruence].
    + rewrite Ha. split.
      * intros (Hq & bc' & Hbc' & Hr). assert (q <> p) as Hne by (intros ->; congruence). split; [by split|].
        exists bc'. by rewrite decide_False.
      * intros ((Hne & Hq) & bc' & Hbc' & Hr). rewrite decide_False in Hbc' by done. eauto.
Qed.

Lemma shared_filter i (l : list BlockedCommand) :
  bc_shared <$> filter (fun c => bc_idx c <> i) l = filter (fun x => x.1.1.1.2 <> i) (bc_shared <$> l).
Proof.
  induction l as [|c l IH]; [done|]. rewrite fmap_cons, !filter_cons. cbn [bc_shared fst snd].
  case_decide; [by rewrite fmap_cons, IH|done].
Qed.

(** The commands of two servers with one index. *)
Lemma shared_at i s1 s2 bc1 bc2 : Rel None s1 s2 -> bc1 ∈ contents (sv_blocked s1) -> bc2 ∈ contents (sv_blocked s2) ->
  bc_idx bc1 = i -> bc_idx bc2 = i -> bc_shared bc1 = bc_shared bc2.
Proof.
  intros [O1 O2 _ Hr] H1' H2' E1 E2.
  assert (bc_shared bc1 ∈ bc_shared <$> contents (sv_blocked s2)) as (c & E & Hc)%list_elem_of_fmap.
  { rewrite <- (rp_blocked _ _ Hr). apply list_elem_of_fmap. eauto. }
  rewrite E. f_equal. apply (fmap_inj_in bc_idx (contents (sv_blocked s2))); [|done..|].
  - apply contents_keys, O2.
  - assert (bc_idx bc1 = bc_idx c) by (exact (f_equal (fun x => x.1.1.1.2) E)). congruence.
Qed.

Lemma forget_rel d s1 s2 p1 p2 bc1 bc2 : Rel None s1 s2 ->
  p1 ∈ bl_list (sv_blocked s1) -> bl_heap (sv_blocked s1) !! p1 = Some bc1 ->
  p2 ∈ bl_list (sv_blocked s2) -> bl_heap (sv_blocked s2) !! p2 = Some bc2 -> bc_idx bc1 = bc_idx bc2 ->
  pending d = pending (nd_db (sv_node s1)) ∖ {[bc_reply bc1]} ->
  Rel None (forget d p1 bc1 s1) (forget d p2 bc2 s2).
Proof.
  intros HR Hp1 Hb1 Hp2 Hb2 Hi Hd. pose proof HR as [O1 O2 C2 Hr].
  assert (bc_shared bc1 = bc_shared bc2) as Hsh by (eapply shared_at; [done|apply contents_elem; eauto..|done|done]).
  assert (bc_reply bc2 = bc_reply bc1) as Hrep by (symmetry; exact (f_equal snd Hsh)).
  split.
  - by apply forget_ok.
  - apply forget_ok; [done..|]. by rewrite <- (rp_db _ _ Hr), Hrep.
  - intros c. change (sv_blocked (forget d p2 bc2 s2)) with (removed p2 (bc_idx bc2) (sv_blocked s2)).
    destruct (remove_run p2 _ _ bc2 (ok_blocked _ _ O2) Hp2 Hb2 eq_refl) as (_ & _ & _ & ->).
    intros [_ Hc]%list_elem_of_filter. by apply C2.
  - destruct Hr. split; try done.
    change (sv_blocked (forget d p1 bc1 s1)) with (removed p1 (bc_idx bc1) (sv_blocked s1)).
    change (sv_blocked (forget d p2 bc2 s2)) with (removed p2 (bc_idx bc2) (sv_blocked s2)).
    destruct (remove_run p1 _ _ bc1 (ok_blocked _ _ O1) Hp1 Hb1 eq_refl) as (_ & _ & _ & ->).
    destruct (remove_run p2 _ _ bc2 (ok_blocked _ _ O2) Hp2 Hb2 eq_refl) as (_ & _ & _ & ->).
    by rewrite !shared_filter, Hi, rp_blocked0.
Qed.

(** ** Clearing all of them *)

Definition abort_all (d : D) (ps : list Z) : D := foldl (fun d p => default d (PromiseAbort d p)) d ps.

(** The promise of a blocked command can be aborted. *)
Lemma abort_run s bc : ok s -> bc ∈ contents (sv_blocked s) ->
  exists d, PromiseAbort (nd_db (sv_node s)) (bc_reply bc) = Some d /\
    pending d = pending (nd_db (sv_node s)) ∖ {[bc_reply bc]} /\
    promise_abort (bc_reply bc) s =
      Done (true, s <| sv_node ::= (fun n => n <| nd_db := d |>) |> <| sv_handlers ::= delete (bc_reply bc) |>).
Proof.
  intros O Hin. destruct (PromiseAbort (nd_db (sv_node s)) (bc_reply bc)) as [d|] eqn:E.
  - exists d. split; [done|]. split; [by apply abort_pending|]. unfold promise_abort.
    rewrite (bind_done_eq get _ s s s) by done. by rewrite E.
  - exfalso. apply abort_fails in E. apply E, (ok_pending _ _ O). right. apply list_elem_of_fmap. eauto.
Qed.

Definition cleared (d : D) (s : S) : S :=
  s <| sv_node ::= (fun n => n <| nd_db := d |>) |> <| sv_handlers := ∅ |>
    <| sv_blocked ::= (fun b => mk_blocked (foldl (fun h p => delete p h) (bl_heap b) (bl_list b)) (bl_brk b) [] ∅) |>.

(** What [clear_blocked_loop] relies on while commands are taken out of the list
    but not out of the dictionary: the invariant for the list alone. *)
Record clearing (s : S) : Prop := {
  cl_nodup : NoDup (bl_list (sv_blocked s));
  cl_alloc p : p ∈ bl_list (sv_blocked s) -> is_Some (bl_heap (sv_blocked s) !! p);
  cl_pending q : q ∈ pending (nd_db (sv_node s)) <-> q ∈ promises s;
  cl_promises : NoDup (promises s);
  cl_handlers pr p : sv_handlers s !! pr = Some p ->
    p ∈ bl_list (sv_blocked s) /\ exists bc, bl_heap (sv_blocked s) !! p = Some bc /\ bc_reply bc = pr
}.

Lemma ok_clearing s : ok s -> clearing s.
Proof. intros [W B P N U Ha]. split; try apply B; try done. - intros q. rewrite P. naive_solver. - intros pr p. apply Ha. Qed.

(** After the first command has been popped, aborted and freed. *)
Definition popped (d : D) (p : Z) (bc : BlockedCommand) (l : list Z) (s : S) : S :=
  s <| sv_blocked ::= (fun b => b <| bl_list := l |>) |>
    <| sv_node ::= (fun n => n <| nd_db := d |>) |> <| sv_handlers ::= delete (bc_reply bc) |>
    <| sv_blocked ::= (fun b => b <| bl_heap ::= delete p |>) |>.

Lemma contents_cons (h : gmap Z BlockedCommand) brk p l dict bc : h !! p = Some bc ->
  contents (mk_blocked h brk (p :: l) dict) = bc :: contents (mk_blocked h brk l dict).
Proof. intros Hp. unfold contents. cbn. by rewrite Hp. Qed.

Lemma popped_clearing d p bc l s : clearing s -> bl_list (sv_blocked s) = p :: l -> bl_heap (sv_blocked s) !! p = Some bc ->
  pending d = pending (nd_db (sv_node s)) ∖ {[bc_reply bc]} ->
  clearing (popped d p bc l s) /\ promises s = bc_reply bc :: promises (popped d p bc l s).
Proof.
  intros [N A P U Ha] Hl Hp Hd. rewrite Hl in N. apply NoDup_cons in N as [Hpl N].
  assert (promises s = bc_reply bc :: promises (popped d p bc l s)) as Hpr.
  { unfold promises, contents. rewrite Hl. cbn. rewrite Hp. cbn. do 2 f_equal. apply omap_ext_in.
    intros q Hq. rewrite lookup_delete_ne; [done|]. congruence. }
  split; [|exact Hpr]. rewrite Hpr in U. apply NoDup_cons in U as [Hbp U]. split.
  - exact N.
  - intros q Hq. cbn in *. rewrite lookup_delete_ne by congruence. apply A. rewrite Hl. by right.
  - intros q. change (nd_db (sv_node (popped d p bc l s))) with d. rewrite Hd, elem_of_difference, elem_of_singleton, P, Hpr.
    rewrite elem_of_cons. split; [naive_solver|]. intros Hq. split; [by right|]. intros ->. done.
  - exact U.
  - intros pr q. cbn. intros [Hne Hh]%lookup_delete_Some. destruct (Ha pr q Hh) as (Hq & bc' & Hbc' & Hr).
    assert (q <> p) by (intros ->; congruence). rewrite Hl in Hq. apply elem_of_cons in Hq as [|Hq]; [done|].
    split; [done|]. exists bc'. by rewrite lookup_delete_ne by congruence.
Qed.

Lemma clear_loop_run n : forall s, clearing s -> n = length (bl_list (sv_blocked s)) ->
  exists s', clear_blocked_loop n s = Done (true, s') /\
    s' <| sv_blocked ::= (fun b => b <| bl_dict := ∅ |>) |> = cleared (abort_all (nd_db (sv_node s)) (promises s)) s /\
    forall q, q ∉ pending (nd_db (sv_node s')).
Proof.
  induction n as [|n IH]; intros s Hc Hn; cbn [clear_blocked_loop].
  { exists s. pose proof Hc as [_ _ P _ Ha]. destruct (bl_list (sv_blocked s)) as [|] eqn:El; [|done].
    assert (promises s = []) as Hpr by (unfold promises, contents; by rewrite El). rewrite Hpr. split_and!; [done| |].
    - assert (sv_handlers s = ∅) as Hh.
      { apply map_eq. intros pr. rewrite lookup_empty. destruct (sv_handlers s !! pr) as [p|] eqn:E; [|done].
        destruct (Ha pr p E) as [Hin%elem_of_nil _]. done. }
      clear Hn P Ha Hc Hpr. destruct s as [[] ? ? ? [] ? ? ? ? ? ? ? ? ?]. cbn in *. by subst.
    - intros q. rewrite P, Hpr. apply not_elem_of_nil. }
  destruct (bl_list (sv_blocked s)) as [|p l] eqn:El; [done|].
  destruct (cl_alloc _ Hc p) as [bc Hbc]; [rewrite El; by left|].
  assert (bc_reply bc ∈ promises s) as Hin.
  { apply list_elem_of_fmap. exists bc. split; [done|]. apply contents_elem. exists p. rewrite El. split; [by left|done]. }
  destruct (PromiseAbort (nd_db (sv_node s)) (bc_reply bc)) as [d|] eqn:Ea.
  2: { apply abort_fails in Ea. by destruct Ea; apply (cl_pending _ Hc). }
  destruct (popped_clearing d p bc l s Hc El Hbc (proj2 (abort_pending _ _ _ Ea))) as [Hc' Hpr].
  set (s1 := s <| sv_blocked ::= (fun b => b <| bl_list := l |>) |>).
  assert (on_blocked pop_head s = Done (Some p, s1)) as E1.
  { unfold on_blocked, zoom, pop_head, bind, get, modify, ret. by rewrite El. }
  rewrite (bind_done_eq _ _ _ _ _ E1).
  assert (on_blocked (deref_bc p) s1 = Done (bc, s1)) as E2.
  { unfold on_blocked, zoom, deref_bc, bind, get, ret. cbn. rewrite Hbc. by destruct s. }
  rewrite (bind_done_eq _ _ _ _ _ E2).
  set (s2 := s1 <| sv_node ::= (fun n => n <| nd_db := d |>) |> <| sv_handlers ::= delete (bc_reply bc) |>).
  assert (promise_abort (bc_reply bc) s1 = Done (true, s2)) as E3.
  { unfold promise_abort. rewrite (bind_done_eq get _ s1 s1 s1) by done. cbn. by rewrite Ea. }
  rewrite (bind_done_eq _ _ _ _ _ E3). cbn [negb].
  assert (on_blocked (freeBlockedCommand p) s2 = Done (tt, popped d p bc l s)) as E4.
  { unfold on_blocked, zoom, freeBlockedCommand, deref_bc, bind, get, modify, ret. cbn. by rewrite Hbc. }
  rewrite (bind_done_eq _ _ _ _ _ E4).
  destruct (IH _ Hc') as (s' & E & Es' & Hp); [cbn; cbn in Hn; lia|].
  exists s'. split_and!; [done| |done]. rewrite Es', Hpr.
  assert (abort_all (nd_db (sv_node s)) (bc_reply bc :: promises (popped d p bc l s)) = abort_all d (promises (popped d p bc l s))) as ->.
  { unfold abort_all. cbn [foldl]. by rewrite Ea. }
  change (nd_db (sv_node (popped d p bc l s))) with d. generalize (abort_all d (promises (popped d p bc l s))). intros d'.
  assert (bl_list (sv_blocked s) = p :: l) as El' by done. clear -El'. destruct s as [[] ? ? ? [] ? ? ? ? ? ? ? ? ?]. cbn in El'. by subst.
Qed.

Lemma freed_lookup l : forall (h : gmap Z BlockedCommand) p bc,
  foldl (fun h p => delete p h) h l !! p = Some bc -> h !! p = Some bc.
Proof. induction l as [|q l IH]; intros h p bc; cbn; [done|]. intros Hh%IH. by apply lookup_delete_Some in Hh as [_ ?]. Qed.

Lemma clear_run s : ok s ->
  clearAllBlockCommands s = Done (tt, cleared (abort_all (nd_db (sv_node s)) (promises s)) s) /\
  ok (cleared (abort_all (nd_db (sv_node s)) (promises s)) s).
Proof.
  intros O. destruct (clear_loop_run _ s (ok_clearing s O) eq_refl) as (s' & E & Es & Hp). split.
  - unfold clearAllBlockCommands. rewrite (bind_done_eq get _ s s s) by done. rewrite (bind_done_eq _ _ _ _ _ E).
    cbn [when]. rewrite <- Es. done.
  - assert (forall q, q ∉ pending (abort_all (nd_db (sv_node s)) (promises s))) as Hp'.
    { intros q. pose proof (f_equal (fun s => nd_db (sv_node s)) Es) as Ed. cbn in Ed. by rewrite <- Ed. }
    pose proof O as [W B P N U Ha]. split; try done; cbn.
    + split; cbn; [constructor|by intros ? ?%elem_of_nil| |].
      * intros i p. split; [done|]. by intros [?%elem_of_nil _].
      * intros p [bc Hs%freed_lookup]. apply B. by exists bc.
    + intros q. split; [by intros ?%Hp'|]. unfold promises. cbn. by intros [?|?%elem_of_nil].
    + constructor.
    + intros pr p. split; [done|]. by intros [?%elem_of_nil _].
Qed.

(** ** Entries with commands *)

Definition same_blocked (s s' : S) : Prop := sv_blocked s' = sv_blocked s.
#[export] Instance same_blocked_preorder : PreOrder same_blocked.
Proof. split; [by intros s|]. intros s1 s2 s3 E1 E2. unfold same_blocked in *. congruence. Qed.

Lemma same_blocked_node {A} (m : M (node D) A) : respects same_blocked (on_node m).
Proof. by intros s a s' (n & _ & ->)%zoom_done. Qed.

Lemma same_blocked_lift {A} (o : outcome A) : respects same_blocked (lift o).
Proof. by intros s a s' [_ ->]%lift_inv. Qed.

Lemma same_blocked_tell c i : respects same_blocked (tell c i).
Proof. intros s a s' E. apply local_tell in E. apply E. Qed.

#[local] Hint Resolve same_blocked_node same_blocked_lift same_blocked_tell : respects.

Ltac solve_same_blocked := repeat first [apply (respects_modify same_blocked); done | progress respects_solve].

Lemma same_blocked_call c : respects same_blocked (redis_call c).
Proof. unfold redis_call. solve_same_blocked. Qed.
#[local] Hint Resolve same_blocked_call : respects.

Lemma same_blocked_commands cl c : forall cs i reply, respects same_blocked (exec_commands cl c i cs reply).
Proof.
  induction cs as [|cmd cs IH]; intros i reply; cbn [exec_commands]; [solve_same_blocked|].
  destruct cmd as [|name args]; [solve_same_blocked|]. destruct (_ && _).
  - respects_solve.
  - apply respects_bind; [apply _| |intros; apply IH]. unfold exec_command. solve_same_blocked.
Qed.
#[local] Hint Resolve same_blocked_commands : respects.

Lemma same_blocked_execute cl c : respects same_blocked (RaftExecuteCommandArray cl c).
Proof. unfold RaftExecuteCommandArray, RaftGetACLUser, getClientSession, reply_to, emit. solve_same_blocked. Qed.

(** What holds of the first server alone, and what it keeps. *)
Lemma sim_frame {A B} (F : S -> Prop) P (m1 : Srv A) (m2 : Srv B) Q :
  (forall s a s', m1 s = Done (a, s') -> F s -> F s') -> sim P m1 m2 Q ->
  sim (fun s1 s2 => F s1 /\ P s1 s2) m1 m2 (fun a b s1 s2 => F s1 /\ Q a b s1 s2).
Proof.
  intros HF Hm s1 s2 a s1' [HF1 HP] E. destruct (Hm _ _ _ _ HP E) as (b & s2' & E2 & HQ).
  exists b, s2'. split_and!; [done| |done]. by eapply HF.
Qed.

(** The request of an entry has the commands that the entry holds. *)
Definition matches (req : option Z) (e : raft_entry) (s : S) : Prop :=
  forall p q, req = Some p -> sv_reqs s !! p = Some q ->
    exists a, entry_commands e = Done a /\ like (rq_cmds q) a.

Lemma matches_none e s : matches None e s.
Proof. by intros p q [=]. Qed.

(** The client and the commands with which [executeLogEntry] goes on. *)
Definition entry_source (req : option Z) (e : raft_entry) : Srv (option Z * RaftRedisCommandArray) :=
  match req with
  | Some p =>
      q <- deref_req p ;;
      c_assert (bool_decide (rq_type q = RR_REDISCOMMAND)) ;;
      match rq_ctx q with
      | Some c => ret (Some c, rq_cmds q)
      | None => abort
      end
  | None => cmds <- lift (entry_commands e) ;; ret (None, cmds)
  end.

Lemma deref_req_inv p (s s' : S) q : deref_req p s = Done (q, s') -> s' = s /\ sv_reqs s !! p = Some q.
Proof.
  unfold deref_req. rewrite (bind_done_eq get _ s s s) by done. destruct (sv_reqs s !! p); [|done]. by intros [= <- <-].
Qed.

Lemma entry_source_inv req e s a s' : entry_source req e s = Done (a, s') -> matches req e s ->
  s' = s /\ exists c, entry_commands e = Done c /\ like a.2 c.
Proof.
  intros E Hm. unfold entry_source in E. destruct req as [p|].
  - apply bind_done in E as (q & s1 & [-> Hq]%deref_req_inv & E).
    apply bind_done in E as (u & s1 & Ea & E). destruct (bool_decide _); [|done]. injection Ea as _ <-.
    destruct (rq_ctx q); [|done]. injection E as <- <-. split; [done|]. by eapply Hm.
  - apply bind_done in E as (c & s1 & [Ec ->]%lift_inv & [= <- <-]). split; [done|]. exists c. by repeat split.
Qed.

Lemma sim_source req e P :
  sim (fun s1 s2 => matches req e s1 /\ P s1 s2) (entry_source req e) (entry_source None e)
    (fun a b s1 s2 => (like a.2 b.2 /\ b.1 = None) /\ P s1 s2).
Proof.
  intros s1 s2 a s1' [Hm HP] E. destruct (entry_source_inv _ _ _ _ _ E Hm) as (-> & c & Ec & Hl).
  exists (None, c), s2. split; [|done]. cbn. by rewrite (bind_done_eq _ _ _ _ _ (lift_done s2 Ec)).
Qed.

Lemma sim_applied e idx : sim (Rel None) (snapshot_applied e idx) (snapshot_applied e idx) (fun _ _ => Rel None).
Proof. apply sim_modify. intros s1 s2 [[] [] ? []]. split; [by split|by split|done|by split]. Qed.

Lemma sim_add_waiting name idx session data req promise s1 s2 :
  Rel (Some promise) s1 s2 -> unblocked_idx idx s1 ->
  exists s1' s2', add_waiting name idx session data req promise s1 = Done (tt, s1') /\
    add_waiting name idx session data None promise s2 = Done (tt, s2') /\ Rel None s1' s2'.
Proof.
  intros [O1 O2 C2 Hr] Hf. pose proof (unblocked_replicated idx s1 s2 Hr Hf) as Hf2.
  destruct (add_waiting_run name idx session data req promise s1 O1 Hf) as (E1 & O1' & C1').
  destruct (add_waiting_run name idx session data None promise s2 O2 Hf2) as (E2 & O2' & C2').
  eexists _, _. split_and!; [exact E1|exact E2|]. split; [done|done| |].
  - intros bc. rewrite C2', elem_of_app, list_elem_of_singleton. intros [Hbc| ->]; [by apply C2|done].
  - destruct Hr. split; try done. rewrite C1', C2', !fmap_app. by rewrite rp_blocked0.
Qed.

(** What is done with the promise of the commands, if there is one. *)
Definition keep_promise (e : raft_entry) (idx : Z) (req : option Z) (reply : option Z) (cmds : RaftRedisCommandArray) : Srv unit :=
  match reply with
  | None => match req with Some p => RaftReqFree p | None => ret tt end
  | Some promise =>
      match first_name cmds with
      | None => abort
      | Some name => add_waiting name idx (ety_session e) (ety_data e) req promise
      end
  end.

Lemma execute_entry_eq e idx req s :
  executeLogEntry e idx req s =
  (c_assert (ety_type e =? RAFT_LOGTYPE_NORMAL) ;;
   let* (client, cmds) := entry_source req e in
   let* (reply, cmds) := RaftExecuteCommandArray client cmds in
   match req with Some p => update_req p (fun q => q <| rq_cmds := cmds |>) | None => ret tt end ;;
   keep_promise e idx req reply cmds ;;
   snapshot_applied e idx) s.
Proof. done. Qed.

Lemma sim_keep_promise e idx req a b : a.1 = b.1 -> first_name a.2 = first_name b.2 ->
  sim (fun s1 s2 => unblocked_idx idx s1 /\ Rel a.1 s1 s2) (keep_promise e idx req a.1 a.2) (keep_promise e idx None b.1 b.2)
    (fun _ _ => Rel None).
Proof.
  intros Hp Hn s1 s2 u s1' [Hf HR] E. unfold keep_promise in *. rewrite <- Hp, <- Hn.
  destruct (a.1) as [promise|].
  - destruct (first_name a.2) as [name|]; [|done].
    destruct (sim_add_waiting name idx (ety_session e) (ety_data e) req promise s1 s2 HR Hf) as (t1 & t2 & E1 & E2 & HR').
    rewrite E in E1. injection E1 as _ <-. by exists tt, t2.
  - exists tt, s2. split; [done|]. destruct req as [p|]; [|by injection E as _ <-]. apply local_req_free in E. by eapply Rel_local.
Qed.

Lemma sim_execute_entry e idx req :
  sim (fun s1 s2 => matches req e s1 /\ unblocked_idx idx s1 /\ Rel None s1 s2)
    (executeLogEntry e idx req) (executeLogEntry e idx None) (fun _ _ => Rel None).
Proof.
  intros s1 s2 u s1' HP. rewrite !execute_entry_eq. revert s1 s2 u s1' HP.
  eapply (sim_bind _ _ _ (fun _ _ s1 s2 => matches req e s1 /\ unblocked_idx idx s1 /\ Rel None s1 s2)).
  { intros s1 s2 u s1' HP E. destruct (ety_type e =? RAFT_LOGTYPE_NORMAL); [|done]. injection E as _ <-. by exists tt, s2. }
  intros _ _. eapply sim_bind; [apply sim_source|]. intros [cl1 c1] [cl2 c2]. cbn [fst snd].
  apply sim_given. intros [Hl ->].
  eapply sim_bind; [apply sim_frame; [|by apply sim_execute]|].
  { intros s a s' E Hf. unfold unblocked_idx. by rewrite (same_blocked_execute _ _ _ _ _ E). }
  intros [p1 a1] [p2 a2]. cbn [fst snd].
  intros s1 s2 u s1' (Hf & [-> Hn] & HR) E. revert E.
  rewrite (bind_done_eq (ret tt) _ s2 tt s2) by done.
  intros (u1 & t1 & Et & E)%bind_done.
  assert (local s1 t1) as Hloc. { destruct req; [by apply local_update in Et|by injection Et as _ <-]. }
  refine (sim_bind _ _ _ (fun _ _ => Rel None) _ _ (fun _ _ => Rel None)
    (sim_keep_promise e idx req (p2, a1) (p2, a2) eq_refl Hn) (fun _ _ => sim_applied e idx) t1 s2 u s1' _ E).
  split; [|by eapply Rel_local]. unfold unblocked_idx. by rewrite (lc_blocked _ _ Hloc).
Qed.

(** ** The end of a blocked command *)

(** A blocked command has its counterpart at the other server. *)
Lemma blocked_counterpart i s1 s2 p1 : Rel None s1 s2 -> getBlockedCommand i (sv_blocked s1) = Some p1 ->
  exists p2 bc1 bc2, getBlockedCommand i (sv_blocked s2) = Some p2 /\
    p1 ∈ bl_list (sv_blocked s1) /\ bl_heap (sv_blocked s1) !! p1 = Some bc1 /\ bc_idx bc1 = i /\
    p2 ∈ bl_list (sv_blocked s2) /\ bl_heap (sv_blocked s2) !! p2 = Some bc2 /\ bc_idx bc2 = i /\
    bc_reply bc2 = bc_reply bc1 /\ bc_req bc2 = None.
Proof.
  intros HR E. pose proof HR as [O1 O2 C2 Hr]. pose proof (ok_blocked _ _ O1) as B1. pose proof (ok_blocked _ _ O2) as B2.
  apply (bw_dict _ B1) in E as (Hp1 & bc1 & Hb1 & Hi1).
  destruct (getBlockedCommand i (sv_blocked s2)) as [p2|] eqn:E2.
  - apply (bw_dict _ B2) in E2 as (Hp2 & bc2 & Hb2 & Hi2).
    assert (bc1 ∈ contents (sv_blocked s1)) as Hin1 by (apply contents_elem; eauto).
    assert (bc2 ∈ contents (sv_blocked s2)) as Hin2 by (apply contents_elem; eauto).
    exists p2, bc1, bc2. split_and!; try done; [|by apply C2].
    symmetry. exact (f_equal snd (shared_at i s1 s2 bc1 bc2 HR Hin1 Hin2 Hi1 Hi2)).
  - exfalso. pose proof (get_blocked_spec i _ B2) as Hg. rewrite E2 in Hg.
    assert (replicated s2 s1) as Hr' by (by symmetry).
    apply (unblocked_replicated i s2 s1 Hr' Hg). apply list_elem_of_fmap. exists bc1. split; [done|]. apply contents_elem. eauto.
Qed.

Lemma no_counterpart i s1 s2 : Rel None s1 s2 -> getBlockedCommand i (sv_blocked s1) = None ->
  getBlockedCommand i (sv_blocked s2) = None.
Proof.
  intros [O1 O2 _ Hr] E. pose proof (get_blocked_spec i _ (ok_blocked _ _ O1)) as Hg. rewrite E in Hg.
  pose proof (unblocked_replicated i s1 s2 Hr Hg) as Hf.
  pose proof (get_blocked_spec i _ (ok_blocked _ _ O2)) as Hg2. destruct (getBlockedCommand i (sv_blocked s2)) as [p|]; [|done].
  destruct Hg2 as (bc & _ & Hi & Hin). exfalso. apply Hf. apply list_elem_of_fmap. eauto.
Qed.

(** Taking the command at [p] out and freeing it. *)
Definition drop_blocked (p : Z) (bc : BlockedCommand) : Srv unit :=
  on_blocked (deleteBlockedCommand (bc_idx bc)) ;;
  on_blocked (freeBlockedCommand p).

Lemma drop_run p bc s b : sv_blocked s = b -> blk_wf b -> p ∈ bl_list b -> bl_heap b !! p = Some bc ->
  drop_blocked p bc s = Done (tt, s <| sv_blocked := removed p (bc_idx bc) b |>).
Proof.
  intros Hb Hwf Hp Hbc. destruct (remove_run p _ b bc Hwf Hp Hbc eq_refl) as (E1 & E2 & _).
  unfold drop_blocked. rewrite (bind_done_eq _ _ _ _ _ (on_blocked_run _ s _ _ _ E1 Hb)).
  set (s1 := s <| sv_blocked := blocked_without p (bc_idx bc) b |>).
  by rewrite (on_blocked_run _ s1 _ _ _ E2 eq_refl).
Qed.

(** The promise of the command has ended, the client has been told, and the
    command goes. *)
Lemma dropped_local d p bc s t : ok s -> p ∈ bl_list (sv_blocked s) -> bl_heap (sv_blocked s) !! p = Some bc ->
  local (s <| sv_node ::= (fun n => n <| nd_db := d |>) |> <| sv_handlers ::= delete (bc_reply bc) |>) t ->
  exists t', drop_blocked p bc t = Done (tt, t') /\ local (forget d p bc s) t'.
Proof.
  intros O Hp Hbc []. eexists. split.
  - apply (drop_run p bc t (sv_blocked s)); [done|apply O|done|done].
  - by split.
Qed.

Lemma forgotten_rel d s1 s2 p1 p2 bc1 bc2 t1 t2 : Rel None s1 s2 ->
  p1 ∈ bl_list (sv_blocked s1) -> bl_heap (sv_blocked s1) !! p1 = Some bc1 ->
  p2 ∈ bl_list (sv_blocked s2) -> bl_heap (sv_blocked s2) !! p2 = Some bc2 -> bc_idx bc1 = bc_idx bc2 ->
  pending d = pending (nd_db (sv_node s1)) ∖ {[bc_reply bc1]} ->
  local (forget d p1 bc1 s1) t1 -> local (forget d p2 bc2 s2) t2 -> Rel None t1 t2.
Proof.
  intros HR Hp1 Hb1 Hp2 Hb2 Hi Hd L1 L2. eapply Rel_local, Rel_local2; [exact L1|exact L2|]. by apply forget_rel.
Qed.

(** A blocked command whose promise has ended is answered and goes, at both
    servers. *)
Lemma sim_ended d s1 s2 p1 p2 bc1 bc2 (m : Srv unit) u t1 : Rel None s1 s2 -> respects local m ->
  p1 ∈ bl_list (sv_blocked s1) -> bl_heap (sv_blocked s1) !! p1 = Some bc1 ->
  p2 ∈ bl_list (sv_blocked s2) -> bl_heap (sv_blocked s2) !! p2 = Some bc2 -> bc_idx bc1 = bc_idx bc2 ->
  bc_reply bc2 = bc_reply bc1 -> pending d = pending (nd_db (sv_node s1)) ∖ {[bc_reply bc1]} ->
  let ended bc s := s <| sv_node ::= (fun n => n <| nd_db := d |>) |> <| sv_handlers ::= delete (bc_reply bc) |> in
  (m ;; drop_blocked p1 bc1) (ended bc1 s1) = Done (u, t1) ->
  exists t2, drop_blocked p2 bc2 (ended bc2 s2) = Done (tt, t2) /\ Rel None t1 t2.
Proof.
  intros HR Hm Hp1 Hb1 Hp2 Hb2 Hi Hr Hd ended (u1 & s & Em & E)%bind_done. pose proof HR as [O1 O2 _ _].
  apply Hm in Em. destruct (dropped_local d p1 bc1 s1 s O1 Hp1 Hb1 Em) as (t & E' & L1).
  rewrite E in E'. injection E' as _ <-.
  destruct (dropped_local d p2 bc2 s2 (ended bc2 s2) O2 Hp2 Hb2 ltac:(done)) as (t2 & E2 & L2).
  exists t2. split; [done|]. by eapply (forgotten_rel d s1 s2 p1 p2 bc1 bc2).
Qed.

Lemma deref_blocked p (s : S) bc : bl_heap (sv_blocked s) !! p = Some bc -> on_blocked (deref_bc p) s = Done (bc, s).
Proof.
  intros Hbc. unfold on_blocked, zoom, deref_bc. rewrite (bind_done_eq get _ _ (sv_blocked s) (sv_blocked s)) by done.
  rewrite Hbc. cbn. by destruct s.
Qed.

Lemma sim_timeout e req :
  sim (Rel None) (timeoutBlockedCommand e req) (@timeoutBlockedCommand D R _ e None) (fun _ _ => Rel None).
Proof.
  unfold timeoutBlockedCommand. destruct (RaftRedisDeserializeTimeout _ _) as [[st [i error]]| |]; [|by intros ? ? ? ? ?..].
  eapply (sim_bind _ _ _ (fun _ _ => Rel None)).
  { intros s1 s2 u s1' HR E. destruct (st =? RR_OK); [|done]. injection E as _ <-. by exists tt, s2. }
  intros _ _ s1 s2 u s1' HR E.
  rewrite (bind_done_eq get _ s1 s1 s1) in E by done. rewrite (bind_done_eq get _ s2 s2 s2) by done.
  destruct (getBlockedCommand i (sv_blocked s1)) as [p1|] eqn:Eg.
  2: { rewrite (no_counterpart i s1 s2 HR Eg). exists tt, s2. split; [done|]. apply local_finish in E. by eapply Rel_local. }
  destruct (blocked_counterpart i s1 s2 p1 HR Eg) as (p2 & bc1 & bc2 & -> & Hp1 & Hb1 & Hi1 & Hp2 & Hb2 & Hi2 & Hrep & Hreq).
  rewrite (bind_done_eq _ _ _ _ _ (deref_blocked p1 s1 bc1 Hb1)) in E.
  rewrite (bind_done_eq _ _ _ _ _ (deref_blocked p2 s2 bc2 Hb2)).
  pose proof HR as [O1 O2 _ Hr].
  destruct (abort_run s1 bc1 O1) as (d & Ea1 & Hd & A1); [apply contents_elem; eauto|].
  destruct (abort_run s2 bc2 O2) as (d2 & Ea2 & _ & A2); [apply contents_elem; eauto|].
  assert (d2 = d) as -> by (rewrite <- (rp_db _ _ Hr), Hrep, Ea1 in Ea2; congruence).
  rewrite (bind_done_eq _ _ _ _ _ A1) in E. rewrite (bind_done_eq _ _ _ _ _ A2). cbn [when] in *.
  apply bind_done in E as (u1 & t1 & E1 & E). rewrite Hreq.
  assert (bc_idx bc1 = bc_idx bc2) as Hii by congruence.
  edestruct (sim_ended d s1 s2 p1 p2 bc1 bc2 _ u1 t1 HR (local_finish _ _) Hp1 Hb1 Hp2 Hb2 Hii Hrep Hd E1) as (t2 & E2 & HR').
  exists tt, t2. split; [|apply local_finish in E; by eapply Rel_local].
  etransitivity; [exact (bind_done_eq _ _ _ _ _ E2)|done].
Qed.

(** ** All kinds of entries *)

Lemma promises_replicated s1 s2 : replicated s1 s2 -> promises s1 = promises s2.
Proof.
  intros Hr. unfold promises. assert (forall l : list BlockedCommand, bc_reply <$> l = snd <$> (bc_shared <$> l)) as Hx.
  { intros l. by rewrite <- list_fmap_compose. } by rewrite !Hx, (rp_blocked _ _ Hr).
Qed.

Lemma cleared_contents d (s : S) : contents (sv_blocked (cleared d s)) = [].
Proof. done. Qed.

Lemma sim_clear : sim (Rel None) clearAllBlockCommands clearAllBlockCommands (fun _ _ => Rel None).
Proof.
  intros s1 s2 u s1' [O1 O2 C2 Hr] E. destruct (clear_run s1 O1) as [E1 O1']. destruct (clear_run s2 O2) as [E2 O2'].
  rewrite E in E1. injection E1 as _ ->. eexists tt, _. split; [exact E2|].
  assert (abort_all (nd_db (sv_node s2)) (promises s2) = abort_all (nd_db (sv_node s1)) (promises s1)) as Ed.
  { by rewrite (promises_replicated s1 s2 Hr), (rp_db _ _ Hr). }
  rewrite Ed in *. split; [done|done| |].
  - intros bc. rewrite cleared_contents. by intros ?%elem_of_nil.
  - destruct Hr. by split.
Qed.

Lemma local_close l : respects local (for_each l (fun e : Z * bool => when (snd e) (emit (EvClose (fst e))))).
Proof. solve_local. Qed.

Lemma sim_clear_sessions : sim (Rel None) clearClientSessions clearClientSessions (fun _ _ => Rel None).
Proof.
  intros s1 s2 u s1' HR E. unfold clearClientSessions in *.
  rewrite (bind_done_eq get _ s1 s1 s1) in E by done. rewrite (bind_done_eq get _ s2 s2 s2) by done.
  apply bind_done in E as (u1 & t1 & E1 & [= <- <-]).
  assert (exists t2, for_each (session_entries (sv_sessions s2)) (fun e : Z * bool => when (snd e) (emit (EvClose (fst e)))) s2
    = Done (tt, t2)) as [t2 E2].
  { clear -s2. generalize (session_entries (sv_sessions s2)). intros l. generalize s2. induction l as [|[i b] l IH]; intros s.
    - by exists s.
    - cbn [for_each]. destruct b; cbn; apply IH. }
  rewrite (bind_done_eq _ _ _ _ _ E2). apply local_close in E1, E2.
  assert (Rel None t1 t2) as [[] [] ? []] by (eapply Rel_local, Rel_local2; done).
  eexists tt, _. split; [done|]. split; [by split|by split|done|by split].
Qed.

Lemma sim_end_session e req :
  sim (Rel None) (handleEndClientSession e req) (handleEndClientSession e None) (fun _ _ => Rel None).
Proof.
  intros s1 s2 u s1' HR E. unfold handleEndClientSession in *. destruct (ety_type e =? RAFT_LOGTYPE_END_SESSION); [|done].
  apply bind_done in E as (u1 & t1 & [= _ <-] & E). apply bind_done in E as (u2 & t1 & [= _ <-] & E).
  eexists tt, _. split; [done|]. apply local_finish in E. eapply Rel_local; [exact E|].
  destruct HR as [[] [] ? []]. split; [by split|by split|done|split; try done]. cbn. by rewrite !dom_delete_L, rp_sessions0.
Qed.

(** An operation on the tables and the keys, after which the client is told. *)
Lemma sim_node_entry {A B} F (m1 : M (node D) A) (m2 : M (node D) B) Q (k1 : A -> Srv unit) (k2 : B -> Srv unit) :
  (forall n1 n2 a n1', node_rel n1 n2 -> F n1 -> m1 n1 = Done (a, n1') ->
    exists b n2', m2 n2 = Done (b, n2') /\ node_rel n1' n2' /\ Q a b /\ pending (nd_db n1') = pending (nd_db n1)) ->
  (forall a, respects local (k1 a)) -> (forall a b, Q a b -> k2 b = ret tt) ->
  sim (fun s1 s2 => F (sv_node s1) /\ Rel None s1 s2) (bind (on_node m1) k1) (bind (on_node m2) k2) (fun _ _ => Rel None).
Proof.
  intros Hm Hk1 Hk2. eapply sim_bind; [by apply sim_on_node_if|]. intros a b. apply sim_given. intros HQ.
  rewrite (Hk2 a b HQ). by apply sim_left_end.
Qed.

(** What an entry needs at the first server: that its request has the entry's
    commands; that no command is blocked at its index, as the indexes of entries
    grow; and room in the table of shard groups. *)
Record applicable (e : raft_entry) (idx : Z) (req : option Z) (s : S) : Prop := {
  ap_matches : matches req e s;
  ap_index : unblocked_idx idx s;
  ap_few : few 1 (nd_rr (sv_node s))
}.

Lemma sim_sharding_entry e req :
  sim (fun s1 s2 => few 1 (nd_rr (sv_node s1)) /\ Rel None s1 s2)
    (reps <- on_node (on_rr (apply_sharding_entry (ety_type e) (ety_data e) (has_req req))) ;; finish_replies req reps)
    (reps <- on_node (on_rr (apply_sharding_entry (ety_type e) (ety_data e) false)) ;; finish_replies None reps)
    (fun _ _ => Rel None).
Proof.
  apply (sim_node_entry (fun n => few 1 (nd_rr n)) _ _ (fun _ _ => True)).
  - intros n1 n2 a n1' Hn Hf E. destruct (sharding_entry_agree _ _ _ _ _ _ _ Hn Hf E) as (b & n2' & ? & ? & ?). exists b, n2'. by split_and!.
  - intros a. apply local_finish_replies.
  - done.
Qed.

Lemma sim_node_replies m1 m2 Q req :
  node_sim m1 m2 Q ->
  sim (Rel None) (reps <- on_node m1 ;; finish_replies req reps) (reps <- on_node m2 ;; finish_replies None reps)
    (fun _ _ => Rel None).
Proof.
  intros Hm. eapply sim_pre; [|apply (sim_node_entry (fun _ => True) _ _ Q)].
  - intros s1 s2 HR. split; [exact I|exact HR].
  - intros n1 n2 a n1' Hn _. by apply Hm.
  - intros a. apply local_finish_replies.
  - done.
Qed.

Lemma sim_lock v1 v2 e req :
  sim (Rel None) (apply_lock_keys v1 e req) (apply_lock_keys v2 e None) (fun _ _ => Rel None).
Proof.
  unfold apply_lock_keys. intros s1 s2 u s1' HR (q & t1 & E1 & E)%bind_done. apply local_req_keys in E1.
  rewrite (bind_done_eq (req_migrate_keys v2 None) _ s2 None s2) by done.
  refine (sim_node_entry (fun _ => True) _ _ (fun _ b => b = inl []) _ _ _ _ _ t1 s2 u s1' (conj I (Rel_local _ _ _ _ E1 HR)) E).
  - intros n1 n2 a n1' Hn _. by apply lock_agree.
  - intros [reps|m]; [apply local_finish_replies|apply local_emit].
  - by intros a b ->.
Qed.

(** The entry does not remove the server. *)
Definition stays (nodeid : Z) (e : raft_entry) : Prop :=
  ety_type e = RAFT_LOGTYPE_REMOVE_NODE -> cfg_id (ety_data e) <> Done nodeid.

Lemma sim_remove nodeid1 nodeid2 leader1 leader2 e req : cfg_id (ety_data e) <> Done nodeid2 ->
  let remove nodeid leader req : Srv unit :=
    id <- lift (cfg_id (ety_data e)) ;;
    finish req (IReply (simple "OK")) ;;
    when (id =? nodeid) abort ;;
    when leader (emit (EvNodeShutdown id)) in
  sim (Rel None) (remove nodeid1 leader1 req) (remove nodeid2 leader2 None) (fun _ _ => Rel None).
Proof.
  intros Hne remove s1 s2 u s1' HR (id & t1 & [Ed ->]%lift_inv & E)%bind_done. unfold remove.
  rewrite (bind_done_eq _ _ _ _ _ (lift_done s2 Ed)). cbn [finish]. rewrite (bind_done_eq (ret tt) _ s2 tt s2) by done.
  destruct (Z.eqb_spec id nodeid2) as [->|_]; [done|]. cbn [when]. rewrite (bind_done_eq (ret tt) _ s2 tt s2) by done.
  assert (local s1 s1') as L1.
  { eapply (respects_bind local (finish req _)); [apply local_finish| |exact E].
    intros ?. apply respects_bind; [apply _|respects_solve|intros ?]. respects_solve. }
  exists tt, (if leader2 then s2 <| sv_events ::= (fun l => l ++ [EvNodeShutdown id]) |> else s2).
  split; [by destruct leader2|]. eapply Rel_local, Rel_local2; [exact L1| |exact HR]. destruct leader2; [by split|done].
Qed.

(** The follower answers nobody, and goes on wherever the first server does. *)
Lemma sim_apply v1 v2 e idx req : stays (vw_nodeid v2) e ->
  sim (fun s1 s2 => applicable e idx req s1 /\ Rel None s1 s2)
    (raftApplyLog v1 e idx req) (raftApplyLog v2 e idx None) (fun _ _ => Rel None).
Proof.
  intros Hst s1 s2 u s1' [[Hm Hf Hfew] HR] E. revert s1 s2 u s1' Hm Hf Hfew HR E. unfold raftApplyLog.
  assert (forall (m1 m2 : Srv unit), sim (fun s1 s2 => applicable e idx req s1 /\ Rel None s1 s2) m1 m2 (fun _ _ => Rel None) ->
    forall s1 s2 u s1', matches req e s1 -> unblocked_idx idx s1 -> few 1 (nd_rr (sv_node s1)) -> Rel None s1 s2 ->
      (m1 ;; snapshot_applied e idx) s1 = Done (u, s1') ->
      exists b s2', (m2 ;; snapshot_applied e idx) s2 = Done (b, s2') /\ Rel None s1' s2') as Hall.
  { intros m1 m2 Hs s1 s2 u s1' Hm Hf Hfew HR E.
    refine (sim_bind _ _ _ _ _ _ (fun _ _ => Rel None) Hs (fun _ _ => sim_applied e idx) s1 s2 u s1' (conj _ HR) E). by split. }
  apply Hall. clear Hall.
  destruct (ety_type e =? RAFT_LOGTYPE_ADD_NONVOTING_NODE).
  { eapply sim_pre; [|apply sim_left_end]; [by intros ? ? [_ ?]|]. destruct req; [|apply respects_ret, _].
    apply respects_bind; [apply _|by intros ? ? ? [_ ->]%lift_inv|intros ?]. respects_solve. }
  destruct (Z.eqb_spec (ety_type e) RAFT_LOGTYPE_REMOVE_NODE) as [Ht|_].
  { eapply sim_pre; [|apply (sim_remove (vw_nodeid v1) (vw_nodeid v2) (vw_is_leader v1) (vw_is_leader v2) e req (Hst Ht))]. by intros ? ? [_ ?]. }
  destruct (ety_type e =? RAFT_LOGTYPE_NORMAL).
  { eapply sim_pre; [|apply sim_execute_entry]. by intros ? ? [[? ? ?] ?]. }
  assert (sim (fun s1 s2 => applicable e idx req s1 /\ Rel None s1 s2)
      (reps <- on_node (on_rr (apply_sharding_entry (ety_type e) (ety_data e) (has_req req))) ;; finish_replies req reps)
      (reps <- on_node (on_rr (apply_sharding_entry (ety_type e) (ety_data e) false)) ;; finish_replies None reps)
      (fun _ _ => Rel None)) as Hsh.
  { eapply sim_pre; [|apply sim_sharding_entry]. by intros ? ? [[? ? ?] ?]. }
  destruct (Z.eqb_spec (ety_type e) RAFT_LOGTYPE_ADD_SHARDGROUP) as [Ht|_].
  { unfold apply_sharding_entry in Hsh. replace (ety_type e =? RAFT_LOGTYPE_REPLACE_SHARDGROUPS) with false in Hsh by (by rewrite Ht).
    exact Hsh. }
  destruct (Z.eqb_spec (ety_type e) RAFT_LOGTYPE_UPDATE_SHARDGROUP) as [Ht|_].
  { unfold apply_sharding_entry in Hsh. replace (ety_type e =? RAFT_LOGTYPE_REPLACE_SHARDGROUPS) with false in Hsh by (by rewrite Ht).
    exact Hsh. }
  cbn [orb]. unfold apply_sharding_entry in Hsh. destruct (ety_type e =? RAFT_LOGTYPE_REPLACE_SHARDGROUPS); [exact Hsh|].
  clear Hsh. eapply (sim_pre (Rel None)); [by intros ? ? [_ ?]|].
  destruct (ety_type e =? RAFT_LOGTYPE_IMPORT_KEYS); [eapply sim_node_replies, import_agree|].
  destruct (ety_type e =? RAFT_LOGTYPE_LOCK_KEYS); [apply sim_lock|].
  destruct (ety_type e =? RAFT_LOGTYPE_DELETE_UNLOCK_KEYS); [eapply sim_node_replies, unlock_agree|].
  destruct (ety_type e =? RAFT_LOGTYPE_END_SESSION); [apply sim_end_session|].
  destruct (ety_type e =? RAFT_LOGTYPE_NO_OP).
  { eapply sim_bind; [apply sim_clear_sessions|intros ? ?; apply sim_clear]. }
  destruct (ety_type e =? RAFT_LOGTYPE_TIMEOUT_BLOCKED); [apply sim_timeout|]. by apply sim_ret.
Qed.

(** ** Between entries *)

Lemma handler_of (s : S) bc : ok s -> bc ∈ contents (sv_blocked s) ->
  exists p, sv_handlers s !! bc_reply bc = Some p /\ getBlockedCommand (bc_idx bc) (sv_blocked s) = Some p /\
    p ∈ bl_list (sv_blocked s) /\ bl_heap (sv_blocked s) !! p = Some bc.
Proof.
  intros O (p & Hp & Hbc)%contents_elem. exists p. split_and!; [|apply (bw_dict _ (ok_blocked _ _ O))|done|done]; [|by eauto].
  apply (ok_handlers _ _ O). eauto.
Qed.

Lemma sim_serve : sim (Rel None) serve_blocked serve_blocked (fun _ _ => Rel None).
Proof.
  intros s1 s2 u s1' HR E. unfold serve_blocked in *. pose proof HR as [O1 O2 _ Hr].
  rewrite (bind_done_eq get _ s1 s1 s1) in E by done. rewrite (bind_done_eq get _ s2 s2 s2), <- (rp_db _ _ Hr) by done.
  destruct (ServeBlocked (nd_db (sv_node s1))) as [[[d pr] reply]|] eqn:Es.
  2: { injection E as _ <-. by exists tt, s2. }
  apply serve_pending in Es as [Hin Hd].
  apply (ok_pending _ _ O1) in Hin as [?|(bc1 & -> & Hin1)%list_elem_of_fmap]; [done|].
  destruct (handler_of s1 bc1 O1 Hin1) as (p1 & Hh1 & Hg1 & Hp1 & Hb1).
  destruct (blocked_counterpart _ s1 s2 p1 HR Hg1) as (p2 & bc1' & bc2 & Hg2 & _ & Hb1' & _ & Hp2 & Hb2 & Hi2 & Hrep & Hreq).
  assert (bc1' = bc1) as -> by congruence.
  destruct (handler_of s2 bc2 O2) as (p2' & Hh2 & Hg2' & _); [apply contents_elem; eauto|].
  rewrite Hi2 in Hg2'. assert (p2' = p2) as -> by congruence.
  apply bind_done in E as (u1 & t1 & [= _ <-] & E). rewrite Hh1 in E. apply bind_done in E as (u2 & t1 & [= _ <-] & E).
  set (ended := fun (bc : BlockedCommand) (s : S) =>
    s <| sv_node ::= (fun n => n <| nd_db := d |>) |> <| sv_handlers ::= delete (bc_reply bc) |>).
  rewrite (bind_done_eq (modify _) _ s2 tt (s2 <| sv_node ::= (fun n => n <| nd_db := d |>) |>)) by done.
  rewrite <- Hrep, Hh2. rewrite (bind_done_eq (modify _) _ _ tt (ended bc2 s2)) by done.
  unfold handleUnblock in *. rewrite (bind_done_eq _ _ _ _ _ (deref_blocked p1 (ended bc1 s1) bc1 Hb1)) in E.
  rewrite (bind_done_eq _ _ _ _ _ (deref_blocked p2 (ended bc2 s2) bc2 Hb2)), Hreq.
  rewrite (bind_done_eq (ret tt) _ _ tt (ended bc2 s2)) by done.
  set (m := match bc_req bc1 with Some p => req_reply p (ICall reply) ;; RaftReqFree p | None => ret tt end) in E.
  assert (respects local m) as Hm by (unfold m; respects_solve).
  destruct (sim_ended d s1 s2 p1 p2 bc1 bc2 m u s1' HR Hm) as (t2 & E2 & HR'); [done..|congruence|done|done|exact E|].
  exists tt, t2. split; [exact E2|done].
Qed.

(** ** Which commands can be blocked after an entry *)

Definition gains (i : Z) (s s' : S) : Prop := forall p bc,
  p ∈ bl_list (sv_blocked s') -> bl_heap (sv_blocked s') !! p = Some bc ->
  bc_idx bc = i \/ (p ∈ bl_list (sv_blocked s) /\ bl_heap (sv_blocked s) !! p = Some bc).

#[export] Instance gains_preorder i : PreOrder (gains i).
Proof.
  split; [by right|]. intros s1 s2 s3 G1 G2 p bc Hp Hbc. destruct (G2 p bc Hp Hbc) as [?|[Hp' Hbc']]; [by left|]. by apply G1.
Qed.

Lemma gains_same i {A} (m : Srv A) : respects same_blocked m -> respects (gains i) m.
Proof. intros Hm s a s' E%Hm p bc. rewrite E. by right. Qed.

Lemma gains_local i {A} (m : Srv A) : respects local m -> respects (gains i) m.
Proof. intros Hm. apply gains_same. intros s a s' E%Hm. apply E. Qed.

Lemma gains_drop i p bc : respects (gains i) (drop_blocked p bc).
Proof.
  intros s u s' (u1 & s1 & E1 & E2)%bind_done q c.
  assert (forall q, q ∈ bl_list (sv_blocked s1) -> q ∈ bl_list (sv_blocked s)) as Hl.
  { apply zoom_done in E1 as (b & E & ->). unfold deleteBlockedCommand, deref_bc in E. cbn. run_done; cbn; try done.
    intros q0 [_ ?]%list_elem_of_filter. done. }
  assert (bl_heap (sv_blocked s1) = bl_heap (sv_blocked s)) as Hh.
  { apply zoom_done in E1 as (b & E & ->). unfold deleteBlockedCommand, deref_bc in E. cbn. by run_done. }
  apply zoom_done in E2 as (b & E & ->). unfold freeBlockedCommand, deref_bc in E. run_done. cbn.
  intros Hq [_ Hc]%lookup_delete_Some. right. rewrite <- Hh. auto.
Qed.

Lemma gains_add name idx session data req promise : respects (gains idx) (add_waiting name idx session data req promise).
Proof.
  intros s u s' (p & s1 & (b & E1 & ->)%zoom_done & (u1 & s2 & (b2 & E2 & ->)%zoom_done & [= _ <-])%bind_done)%bind_done q bc.
  cbn. unfold allocBlockedCommand, addBlockedCommand, deref_bc in *. run_done; cbn in *.
  intros Hq Hc. assert (<[bl_brk (sv_blocked s) := mk_bc (c_string name) idx session data req promise]> (bl_heap (sv_blocked s)) !! q
    = Some bc) as Hh by (by destruct (bl_dict (sv_blocked s) !! _)).
  assert (q ∈ filter (fun q0 : Z => q0 <> bl_brk (sv_blocked s)) (bl_list (sv_blocked s)) ++ [bl_brk (sv_blocked s)]) as Hl
    by (by destruct (bl_dict (sv_blocked s) !! _)).
  apply lookup_insert_Some in Hh as [[_ <-]|[Hne Hh]]; [by left|]. right. split; [|done].
  apply elem_of_app in Hl as [[_ ?]%list_elem_of_filter| ->%list_elem_of_singleton]; done.
Qed.

Lemma gains_handle i reply p : respects (gains i) (handleUnblock reply p).
Proof.
  intros s u s' (bc & t & (b & E1 & ->)%zoom_done & (u1 & t2 & E2 & E3)%bind_done)%bind_done.
  apply gains_drop with (i := i) in E3. transitivity t2; [|exact E3].
  assert (respects local (match bc_req bc with Some p => req_reply p (ICall reply) ;; RaftReqFree p | None => ret tt end)) as Hm
    by respects_solve.
  apply (gains_local i _ Hm) in E2. intros q c Hq Hc. destruct (E2 q c Hq Hc) as [?|[Hq' Hc']]; [by left|right].
  unfold deref_bc in E1. by run_done.
Qed.

Lemma gains_clear i : respects (gains i) clearAllBlockCommands.
Proof.
  assert (forall m : M blocked unit, (forall b u b', m b = Done (u, b') ->
    (forall q, q ∈ bl_list b' -> q ∈ bl_list b) /\ (forall q c, bl_heap b' !! q = Some c -> bl_heap b !! q = Some c)) ->
    respects (gains i) (on_blocked m)) as Hsub.
  { intros m Hm s u s' (b & E & ->)%zoom_done q c Hq Hc. apply Hm in E as [El Eh]. right. auto. }
  assert (forall n, respects (gains i) (clear_blocked_loop n)) as Hloop.
  { induction n as [|n IH]; cbn [clear_blocked_loop]; [apply respects_ret, _|].
    apply respects_bind; [apply _| |intros [p|]; [|apply respects_ret, _]].
    { intros s o s' (b & E & ->)%zoom_done q c Hq Hc. right. unfold pop_head in E.
      run_done; cbn in *; rewrite ?Hmatch in *; [by split|]. split; [by right|done]. }
    apply respects_bind; [apply _| |intros bc].
    { intros s o s' (b & E & ->)%zoom_done q c Hq Hc. right. unfold deref_bc in E. by run_done. }
    apply respects_bind; [apply _|apply gains_same; unfold promise_abort; solve_same_blocked|intros ok].
    destruct (negb ok); [apply respects_ret, _|]. apply respects_bind; [apply _| |done]. apply Hsub.
    intros b u b' E. unfold freeBlockedCommand, deref_bc in E. run_done. cbn. split; [done|].
    by intros q c [_ ?]%lookup_delete_Some. }
  unfold clearAllBlockCommands. apply respects_bind; [apply _|apply respects_get, _|intros s].
  apply respects_bind; [apply _|apply Hloop|intros ok]. apply respects_when; [apply _|]. apply Hsub.
  intros b u b' E. by run_done.
Qed.

Lemma gains_lift i {A} (o : outcome A) : respects (gains i) (lift o).
Proof. apply gains_same. apply same_blocked_lift. Qed.
Lemma gains_node i {A} (m : M (node D) A) : respects (gains i) (on_node m).
Proof. apply gains_same. apply same_blocked_node. Qed.
Lemma gains_emit i ev : respects (gains i) (emit ev).
Proof. apply gains_local, local_emit. Qed.
Lemma gains_finish i req a : respects (gains i) (finish req a).
Proof. apply gains_local, local_finish. Qed.
Lemma gains_replies i req reps : respects (gains i) (finish_replies req reps).
Proof. apply gains_local, local_finish_replies. Qed.
Lemma gains_req i p : respects (gains i) (deref_req p).
Proof. apply gains_local, local_deref. Qed.
Lemma gains_req_reply i p a : respects (gains i) (req_reply p a).
Proof. apply gains_local, local_req_reply. Qed.
Lemma gains_req_free i p : respects (gains i) (RaftReqFree p).
Proof. apply gains_local, local_req_free. Qed.
Lemma gains_keys i v req : respects (gains i) (req_migrate_keys v req).
Proof. apply gains_local, local_req_keys. Qed.
Lemma gains_sessions i : respects (gains i) clearClientSessions.
Proof. apply gains_same. unfold clearClientSessions, emit. solve_same_blocked. Qed.
Lemma gains_session i id : respects (gains i) (endClientSession id).
Proof. apply gains_same. unfold endClientSession. solve_same_blocked. Qed.
#[local] Hint Resolve gains_lift gains_node gains_emit gains_finish gains_replies gains_req gains_req_reply gains_req_free
  gains_keys gains_sessions gains_session gains_clear : respects.

Lemma gains_execute_entry e idx req : respects (gains idx) (executeLogEntry e idx req).
Proof.
  intros s u s'. rewrite execute_entry_eq. revert s u s'. apply respects_bind; [apply _|respects_solve|intros _].
  apply respects_bind; [apply _|unfold entry_source; respects_solve|intros [cl c]].
  apply respects_bind; [apply _|apply gains_same, same_blocked_execute|intros [reply c']].
  apply respects_bind; [apply _|destruct req; [apply gains_local, local_update|respects_solve]|intros _].
  apply respects_bind; [apply _| |intros _; apply (respects_modify (gains idx)); by right].
  unfold keep_promise. destruct reply as [pr|]; [|respects_solve]. destruct (first_name c'); [apply gains_add|respects_solve].
Qed.

Lemma gains_timeout i e req : respects (gains i) (@timeoutBlockedCommand D R _ e req).
Proof.
  unfold timeoutBlockedCommand. destruct (RaftRedisDeserializeTimeout _ _) as [[st [j err]]| |]; [|respects_solve..].
  apply respects_bind; [apply _|respects_solve|intros _]. apply respects_bind; [apply _|respects_solve|intros s].
  destruct (getBlockedCommand _ _) as [p|]; [|respects_solve].
  intros s0 u s' (bc & t & (b & E1 & ->)%zoom_done & E)%bind_done.
  assert (b = sv_blocked s0) as -> by (unfold deref_bc in E1; by run_done).
  assert (gains i s0 (s0 <| sv_blocked := sv_blocked s0 |>)) as G by (by right).
  transitivity (s0 <| sv_blocked := sv_blocked s0 |>); [exact G|]. revert E.
  generalize (s0 <| sv_blocked := sv_blocked s0 |>). intros s1. revert s1 u s'.
  apply respects_bind; [apply _|apply gains_same; unfold promise_abort; solve_same_blocked|intros ok].
  apply respects_bind; [apply _| |intros _; apply gains_finish]. apply respects_when; [apply _|].
  apply respects_bind; [apply _|apply gains_finish|intros _; apply gains_drop].
Qed.

Lemma gains_apply v e idx req : respects (gains idx) (raftApplyLog v e idx req).
Proof.
  unfold raftApplyLog. apply respects_bind; [apply _| |intros _; apply (respects_modify (gains idx)); by right].
  unfold handleEndClientSession, apply_lock_keys. respects_solve; first [apply gains_execute_entry|apply gains_timeout].
Qed.

Lemma gains_serve i : respects (gains i) serve_blocked.
Proof.
  unfold serve_blocked. apply respects_bind; [apply _|respects_solve|intros s].
  destruct (ServeBlocked _) as [[[d pr] r]|]; [|respects_solve].
  apply respects_bind; [apply _|apply (respects_modify (gains i)); by right|intros _].
  destruct (sv_handlers s !! pr); [|respects_solve].
  apply respects_bind; [apply _|apply (respects_modify (gains i)); by right|intros _]. apply gains_handle.
Qed.

(** ** Histories

    What all servers do: they apply the entries, and Redis serves waiting commands
    in between.  In between, a server does what is its own: clients come and go,
    requests are made and attached to entries. *)
Inductive shared_step := Applied (idx : Z) (e : raft_entry) | Served.

Inductive server_run : list shared_step -> S -> S -> Prop :=
| run_end s : server_run [] s s
| run_local steps s s1 s' : local s s1 -> server_run steps s1 s' -> server_run steps s s'
| run_apply idx e v req u steps s s1 s' :
    matches req e s -> few 1 (nd_rr (sv_node s)) -> raftApplyLog v e idx req s = Done (u, s1) ->
    server_run steps s1 s' -> server_run (Applied idx e :: steps) s s'
| run_serve u steps s s1 s' :
    serve_blocked s = Done (u, s1) -> server_run steps s1 s' -> server_run (Served :: steps) s s'.

(** A server without clients that does the same. *)
Fixpoint follow (nodeid : Z) (steps : list shared_step) : Srv unit :=
  match steps with
  | [] => ret tt
  | Applied idx e :: steps' => raftApplyLog (mk_view nodeid false 0) e idx None ;; follow nodeid steps'
  | Served :: steps' => serve_blocked ;; follow nodeid steps'
  end.

(** The indexes of the entries grow, and are at least [i]. *)
Fixpoint ordered (i : Z) (steps : list shared_step) : Prop :=
  match steps with
  | [] => True
  | Applied idx _ :: steps' => i <= idx /\ ordered (idx + 1) steps'
  | Served :: steps' => ordered i steps'
  end.

Definition below (i : Z) (s : S) : Prop := forall bc, bc ∈ contents (sv_blocked s) -> bc_idx bc < i.

Definition step_stays (nodeid : Z) (st : shared_step) : Prop :=
  match st with Applied _ e => stays nodeid e | Served => True end.

Lemma below_gains i idx s s' : gains idx s s' -> below i s -> i <= idx -> below (idx + 1) s'.
Proof.
  intros G Hb Hi bc (p & Hp & Hc)%contents_elem. destruct (G p bc Hp Hc) as [->|[Hp' Hc']]; [lia|].
  assert (bc_idx bc < i) by (apply Hb, contents_elem; eauto). lia.
Qed.

Lemma below_serve i s u s' : serve_blocked s = Done (u, s') -> below i s -> below i s'.
Proof.
  intros E Hb bc (p & Hp & Hc)%contents_elem.
  destruct (gains_serve (bc_idx bc + 1) _ _ _ E p bc Hp Hc) as [?|[Hp' Hc']]; [lia|]. apply Hb, contents_elem. eauto.
Qed.

Lemma below_unblocked i idx s : below i s -> i <= idx -> unblocked_idx idx s.
Proof. intros Hb Hi (bc & -> & Hin%Hb)%list_elem_of_fmap. lia. Qed.

Lemma run_followed n2 steps s1 s1' : server_run steps s1 s1' -> forall i s2,
  Rel None s1 s2 -> below i s1 -> ordered i steps -> Forall (step_stays n2) steps ->
  exists s2', follow n2 steps s2 = Done (tt, s2') /\ Rel None s1' s2'.
Proof.
  induction 1 as [s|steps s s1 s' Hl Hrun IH|idx e v req u steps s s1 s' Hm Hf Ea Hrun IH|u steps s s1 s' Ea Hrun IH];
    intros i s2 HR Hb Ho Hs; cbn [follow].
  - by exists s2.
  - apply (IH i); [by eapply Rel_local| |done|done]. intros bc. rewrite (lc_blocked _ _ Hl). apply Hb.
  - destruct Ho as [Hi Ho]. apply Forall_cons in Hs as [Hst Hs].
    destruct (sim_apply v (mk_view n2 false 0) e idx req Hst s s2 u s1) as (u2 & t2 & E2 & HR').
    { split; [|done]. split; [done| |done]. by eapply below_unblocked. }
    { exact Ea. }
    destruct u2. destruct (IH (idx + 1) t2 HR') as (s2' & E & HR''); [|done|done|].
    { eapply below_gains; [by eapply gains_apply|done|done]. }
    exists s2'. by rewrite (bind_done_eq _ _ _ _ _ E2).
  - apply Forall_cons in Hs as [_ Hs].
    destruct (sim_serve s s2 u s1 HR Ea) as (u2 & t2 & E2 & HR'). destruct u2.
    destruct (IH i t2 HR') as (s2' & E & HR''); [by eapply below_serve|done|done|].
    exists s2'. by rewrite (bind_done_eq _ _ _ _ _ E2).
Qed.


(** ** Two servers with clients *)

Definition unclaimed (bc : BlockedCommand) : BlockedCommand :=
  mk_bc (bc_command bc) (bc_idx bc) (bc_session bc) (bc_data bc) None (bc_reply bc).

Definition without_clients (s : S) : S :=
  s <| sv_blocked ::= (fun b => mk_blocked (unclaimed <$> bl_heap b) (bl_brk b) (bl_list b) (bl_dict b)) |>.

Lemma unclaimed_contents (s : S) : contents (sv_blocked (without_clients s)) = unclaimed <$> contents (sv_blocked s).
Proof.
  unfold contents. cbn. induction (bl_list (sv_blocked s)) as [|p l IH]; [done|]. cbn. rewrite lookup_fmap.
  destruct (bl_heap (sv_blocked s) !! p); cbn; [by rewrite IH|exact IH].
Qed.

Lemma unclaimed_promises (s : S) : promises (without_clients s) = promises s.
Proof. unfold promises. by rewrite unclaimed_contents, <- list_fmap_compose. Qed.

Lemma unclaimed_lookup (h : gmap Z BlockedCommand) p {X} (f : BlockedCommand -> X) (x : X) :
  (forall bc, f (unclaimed bc) = f bc) ->
  (exists bc, (unclaimed <$> h) !! p = Some bc /\ f bc = x) <-> (exists bc, h !! p = Some bc /\ f bc = x).
Proof.
  intros Hf. rewrite lookup_fmap. split.
  - intros (bc & (bc' & -> & ->)%fmap_Some & <-). exists bc'. by rewrite Hf.
  - intros (bc & -> & <-). exists (unclaimed bc). by rewrite Hf.
Qed.

Lemma without_clients_rel s : ok s -> Rel None s (without_clients s).
Proof.
  intros O. pose proof O as [W B P N U Ha]. split.
  - done.
  - split.
    + done.
    + destruct B as [Bn Ba Bd Bb]. split; cbn.
      * done.
      * intros p Hp. rewrite lookup_fmap. destruct (Ba p Hp) as [bc ->]. by eexists.
      * intros i p. by rewrite (unclaimed_lookup _ p bc_idx i).
      * intros p. rewrite lookup_fmap, fmap_is_Some. apply Bb.
    + intros p. rewrite unclaimed_promises. apply P.
    + intros p Hx. rewrite unclaimed_promises. by apply N.
    + by rewrite unclaimed_promises.
    + intros pr p. cbn. rewrite (unclaimed_lookup _ p bc_reply pr) by done. apply Ha.
  - intros bc. rewrite unclaimed_contents. by intros (bc' & -> & _)%list_elem_of_fmap.
  - split; try done. rewrite unclaimed_contents, <- list_fmap_compose. done.
Qed.

(** A server that no entry removes. *)
Lemma nobody_removed (steps : list shared_step) : exists n, Forall (step_stays n) steps.
Proof.
  set (ids := omap (fun st => match st with
    | Applied _ e => match cfg_id (ety_data e) with Done id => Some id | _ => None end
    | Served => None end) steps).
  exists (base.fresh ids). apply Forall_forall. intros [idx e|] Hin; [|done]. intros _ Hid.
  apply (infinite_is_fresh ids). apply list_elem_of_omap. exists (Applied idx e). by rewrite Hid.
Qed.


End Replica.
