(* ===== verification/ServerDemo.v ===== *)
(** * A server with lists

    A small Redis with LPUSH, LPOP and BLPOP, on which the theorems about servers
    are applied, and on which two histories are run. *)

From stdpp Require Import base list numbers tactics gmap strings sorting.
From S2P Require Import Prelude RaftTypes Libc File Multibulk PageLog Crc Serialization SerializationSpec NodeAddr.
From S2P Require Import ShardGroup Sharding ShardingSpec ShardParse ShardParseSpec ShardSnapshot ShardRouting.
From S2P Require Import ShardRoutingSpec ShardMigration Commands Blocked Server ServerSpec ServerReplica.

Local Open Scope Z_scope.

(** ** The database *)

(** Lists by name, and the clients that wait for an element: promise and name, in
    order of arrival. *)
Record lists := mk_lists {
  ls_lists : gmap (list Z) (list (list Z));
  ls_waiting : list (Z * list Z)
}.

Inductive list_reply := LInteger (n : Z) | LBulk (b : list Z) | LNil.

(** The first argument is the key. *)
#[export] Instance lists_keyspace : Keyspace lists := {|
  GetCommandKeys argv := match argv with _ :: _ :: _ => [1%nat] | _ => [] end;
  KeyExists d k := bool_decide (is_Some (ls_lists d !! k));
  Dump d k := None;
  RestoreKey d k v := Some (mk_lists (<[k := [v]]> (ls_lists d)) (ls_waiting d));
  Del d ks := mk_lists (foldr delete (ls_lists d) ks) (ls_waiting d)
|}.

Definition elements (d : lists) (k : list Z) : list (list Z) := default [] (ls_lists d !! k).

Definition new_promise (d : lists) : Z := foldr (fun w m => Z.max (fst w) m) 0 (ls_waiting d) + 1.

Definition pop (d : lists) (k : list Z) : option (lists * list Z) :=
  match elements d k with
  | [] => None
  | v :: vs => Some (mk_lists (<[k := vs]> (ls_lists d)) (ls_waiting d), v)
  end.

Definition list_call (d : lists) (c : rm_call) : lists * (list_reply + Z) :=
  match rc_argv c with
  | [cmd; k] =>
      match is_cmd "LPOP" cmd, pop d k with
      | true, Some (d', v) => (d', inl (LBulk v))
      | _, _ => (d, inl LNil)
      end
  | [cmd; k; v] =>
      if is_cmd "LPUSH" cmd
      then (mk_lists (<[k := v :: elements d k]> (ls_lists d)) (ls_waiting d), inl (LInteger (Z.of_nat (length (elements d k)) + 1)))
      else if is_cmd "BLPOP" cmd
      then match pop d k with
           | Some (d', v) => (d', inl (LBulk v))
           | None => if rc_may_block c
                     then (mk_lists (ls_lists d) (ls_waiting d ++ [(new_promise d, k)]), inr (new_promise d))
                     else (d, inl LNil)
           end
      else (d, inl LNil)
  | _ => (d, inl LNil)
  end.

Definition stop_waiting (d : lists) (p : Z) : lists := mk_lists (ls_lists d) (filter (fun w => fst w <> p) (ls_waiting d)).

Definition list_abort (d : lists) (p : Z) : option lists :=
  if bool_decide (p ∈ fst <$> ls_waiting d) then Some (stop_waiting d p) else None.

(** The first client whose list has an element gets it. *)
Fixpoint list_serve (d : lists) (ws : list (Z * list Z)) : option (lists * Z * list_reply) :=
  match ws with
  | [] => None
  | (p, k) :: ws' =>
      match pop d k with
      | Some (d', v) => if bool_decide (p ∈ fst <$> ls_waiting d) then Some (stop_waiting d' p, p, LBulk v) else None
      | None => list_serve d ws'
      end
  end.

#[export] Instance lists_server : RedisServer lists list_reply := {|
  Call := list_call;
  PromiseAbort := list_abort;
  ServeBlocked d := list_serve d (ls_waiting d);
  DryRun d flags memory argv := None;
  OutOfMemory d := false
|}.

Lemma pop_waiting d k d' v : pop d k = Some (d', v) -> ls_waiting d' = ls_waiting d.
Proof. unfold pop. destruct (elements d k); [done|]. by intros [= <- _]. Qed.

Lemma new_promise_fresh d w : w ∈ ls_waiting d -> fst w < new_promise d.
Proof.
  unfold new_promise. induction (ls_waiting d) as [|v l IH]; [by intros ?%elem_of_nil|].
  cbn [foldr]. intros [->|Hw]%elem_of_cons; [lia|]. specialize (IH Hw). lia.
Qed.

Definition waiting_for (d : lists) : gset Z := list_to_set (fst <$> ls_waiting d).

Lemma stop_waiting_for d p : waiting_for (stop_waiting d p) = waiting_for d ∖ {[p]}.
Proof.
  apply leibniz_equiv. intros q. unfold waiting_for, stop_waiting. cbn. rewrite elem_of_difference, elem_of_singleton, !elem_of_list_to_set.
  rewrite !list_elem_of_fmap. split.
  - intros (w & -> & [Hne Hw]%list_elem_of_filter). eauto.
  - intros [(w & -> & Hw) Hne]. exists w. split; [done|]. by apply list_elem_of_filter.
Qed.

#[export] Instance lists_laws : RedisLaws lists list_reply.
Proof.
  refine {| pending := waiting_for |}.
  - intros d c d' r. unfold Call, lists_server, list_call, waiting_for. intros E.
    destruct (rc_argv c) as [|cmd [|k [|v [|]]]]; try (by injection E as <- _).
    + destruct (is_cmd "LPOP" cmd); [|by injection E as <- _]. destruct (pop d k) as [[d1 v]|] eqn:Ep; [|by injection E as <- _].
      injection E as <- _. by rewrite (pop_waiting _ _ _ _ Ep).
    + destruct (is_cmd "LPUSH" cmd); [by injection E as <- _|]. destruct (is_cmd "BLPOP" cmd); [|by injection E as <- _].
      destruct (pop d k) as [[d1 w]|] eqn:Ep; [injection E as <- _; by rewrite (pop_waiting _ _ _ _ Ep)|].
      destruct (rc_may_block c); [done|by injection E as <- _].
  - intros d c d' p. unfold Call, lists_server, list_call. intros E.
    assert (exists k, d' = mk_lists (ls_lists d) (ls_waiting d ++ [(new_promise d, k)]) /\ p = new_promise d) as (k & -> & ->).
    { destruct (rc_argv c) as [|cmd [|k [|v [|]]]]; try done.
      - destruct (is_cmd "LPOP" cmd); [|done]. by destruct (pop d k) as [[]|].
      - destruct (is_cmd "LPUSH" cmd); [done|]. destruct (is_cmd "BLPOP" cmd); [|done].
        destruct (pop d k) as [[]|]; [done|]. destruct (rc_may_block c); [|done]. injection E as <- <-. eauto. }
    unfold waiting_for. split.
    + rewrite elem_of_list_to_set. intros (w & E' & Hw%new_promise_fresh)%list_elem_of_fmap. lia.
    + cbn. rewrite fmap_app, list_to_set_app_L. cbn. set_solver.
  - intros d p d' E. unfold PromiseAbort, lists_server, list_abort in E. case_bool_decide as Hin; [|done]. injection E as <-.
    split; [by apply elem_of_list_to_set|apply stop_waiting_for].
  - intros d p E. unfold PromiseAbort, lists_server, list_abort in E. case_bool_decide as Hin; [done|].
    by intros ?%elem_of_list_to_set.
  - intros d d' p r E. unfold ServeBlocked, lists_server in E. revert E. generalize (ls_waiting d) at 1.
    induction l as [|[q k] l IH]; [done|]. cbn [list_serve]. destruct (pop d k) as [[d1 v]|] eqn:Ep; [|exact IH].
    case_bool_decide as Hin; [|done]. intros [= <- <- _]. split; [by apply elem_of_list_to_set|].
    rewrite stop_waiting_for. unfold waiting_for. by rewrite (pop_waiting _ _ _ _ Ep).
  - done.
  - intros d k v d' E. unfold RestoreKey, lists_keyspace in E. by injection E as <-.
Defined.

(** ** Servers and entries *)

Abbreviation server := (module_state lists list_reply).

Definition demo_server : server :=
  mk_module (mk_node demo_rr ∅ (mk_lists ∅ [])) ∅ false ∅ blocked_zero ∅ ∅ ∅ 1 ∅ None 0 0 [].

Definition key_q : list Z := bytes_of "q".

Definition blpop : RaftRedisCommandArray :=
  mk_array 7 false 1 (Z.lor CMD_SPEC_WRITE CMD_SPEC_BLOCKING) [[bytes_of "BLPOP"; key_q; bytes_of "30"]] None.
Definition lpush : RaftRedisCommandArray := mk_array 8 false 1 CMD_SPEC_WRITE [[bytes_of "LPUSH"; key_q; bytes_of "x"]] None.
Definition lpop : RaftRedisCommandArray := mk_array 9 false 1 CMD_SPEC_WRITE [[bytes_of "LPOP"; key_q]] None.

Definition entry (c : RaftRedisCommandArray) : raft_entry :=
  mk_entry 1 0 (ra_client_id c) RAFT_LOGTYPE_NORMAL
    (match RaftRedisCommandArraySerialize c with Done data => data | _ => [] end).

(** Client 7 waits for its BLPOP, in request 1. *)
Definition demo_leader : server :=
  demo_server <| sv_reqs := {[1 := mk_rreq RR_REDISCOMMAND (Some 7) None 0 7 blpop []]} |> <| sv_req_brk := 2 |>.

Definition run {A} (m : M server A) (s : server) : server := match m s with Done (_, s') => s' | _ => s end.

Definition leader_blocked : server := run (raftApplyLog (mk_view 1 true 1) (entry blpop) 5 (Some 1)) demo_leader.
Definition leader_pushed : server := run (raftApplyLog (mk_view 1 true 1) (entry lpush) 6 None) leader_blocked.
Definition leader_served : server := run serve_blocked leader_pushed.

Definition demo_steps : list shared_step := [Applied 5 (entry blpop); Applied 6 (entry lpush); Served].

Example client_gets_element :
  sv_events leader_blocked = [] /\ length (contents (sv_blocked leader_blocked)) = 1%nat /\
  sv_events leader_served = [EvReply 7 (ICall (LBulk (bytes_of "x"))); EvUnblock 7] /\
  contents (sv_blocked leader_served) = [] /\ sv_reqs leader_served !! 1 = None.
Proof. by vm_compute. Qed.

Lemma demo_ok (s : server) : nd_rr (sv_node s) = demo_rr -> ls_waiting (nd_db (sv_node s)) = [] -> sv_blocked s = blocked_zero ->
  sv_handlers s = ∅ -> ok_with None s.
Proof.
  intros Hr Hw Hb Hh. assert (promises s = []) as Hp by (unfold promises; by rewrite Hb).
  split; rewrite ?Hp.
  - rewrite Hr. apply demo_rr_wf.
  - rewrite Hb. apply blocked_zero_wf.
  - intros p. unfold pending, lists_laws, waiting_for. rewrite Hw. cbn. split; [by intros ?%elem_of_empty|].
    by intros [?|?%elem_of_nil].
  - done.
  - constructor.
  - intros pr p. rewrite Hh, Hb. split; [done|]. by intros [?%elem_of_nil _].
Qed.

Lemma demo_run : server_run demo_steps demo_leader leader_served.
Proof.
  apply (run_apply 5 (entry blpop) (mk_view 1 true 1) (Some 1) tt _ _ leader_blocked).
  - intros p q [= <-] E. exists (mk_array 7 false 1 (ra_cmd_flags blpop) (ra_commands blpop) None). split; [by vm_compute|].
    injection E as <-. by repeat split.
  - by vm_compute.
  - by vm_compute.
  - apply (run_apply 6 (entry lpush) (mk_view 1 true 1) None tt _ _ leader_pushed); [apply matches_none|by vm_compute|by vm_compute|].
    apply (run_serve tt _ _ leader_served); [by vm_compute|apply run_end].
Qed.


(** The same steps at a server without clients. *)
Definition follower_served : server := run (follow 2 demo_steps) demo_server.

Lemma demo_follower_run : server_run demo_steps demo_server follower_served.
Proof.
  set (t1 := run (raftApplyLog (mk_view 2 false 1) (entry blpop) 5 None) demo_server).
  set (t2 := run (raftApplyLog (mk_view 2 false 1) (entry lpush) 6 None) t1).
  apply (run_apply 5 (entry blpop) (mk_view 2 false 1) None tt _ _ t1); [apply matches_none|by vm_compute|by vm_compute|].
  apply (run_apply 6 (entry lpush) (mk_view 2 false 1) None tt _ _ t2); [apply matches_none|by vm_compute|by vm_compute|].
  apply (run_serve tt _ _ follower_served); [by vm_compute|apply run_end].
Qed.


(** Redis serves waiting commands once in a round of its event loop, in which a
    server may apply any number of entries.  Two servers that apply the same three
    entries, one of them in one round and the other in two, do not agree: at the
    first the LPOP has got the element that at the second the BLPOP gets. *)
Example serving_order_matters :
  let go m := run (raftApplyLog (mk_view 1 false 1) (entry blpop) 5 None ;; raftApplyLog (mk_view 1 false 1) (entry lpush) 6 None ;; m) demo_server in
  let one_round := go (raftApplyLog (mk_view 1 false 1) (entry lpop) 7 None ;; serve_blocked) in
  let two_rounds := go (serve_blocked ;; raftApplyLog (mk_view 1 false 1) (entry lpop) 7 None) in
  sv_applied_idx one_round = 7 /\ sv_applied_idx two_rounds = 7 /\
  length (contents (sv_blocked one_round)) = 1%nat /\ contents (sv_blocked two_rounds) = [].
Proof. by vm_compute. Qed.
