(* ===== verification/ServerReplies.v ===== *)
(** * What clients are told

    How many replies the application of an entry gives to the client that waits,
    and when the client goes on. *)

From stdpp Require Import base list numbers tactics gmap strings sorting.
From S2P Require Import Prelude RaftTypes Libc File Multibulk PageLog Crc Serialization SerializationSpec NodeAddr.
From S2P Require Import ShardGroup Sharding ShardingSpec ShardParse ShardParseSpec ShardSnapshot ShardRouting.
From S2P Require Import ShardRoutingSpec ShardMigration Commands Blocked Server ServerSpec ServerReplica ServerDemo.

Local Open Scope Z_scope.

Section Replies.
Context {D R : Type} `{RedisLaws D R}.

#[local] Abbreviation S := (module_state D R).
#[local] Abbreviation Srv := (M S).

(** ** Replies *)

(** How many replies are still to come after these items: an array of [n] stands
    for [n] replies. *)
Fixpoint owed (k : Z) (items : list (item R)) : Z :=
  match items with
  | [] => k
  | IArray n :: items' => owed (k - 1 + n) items'
  | _ :: items' => owed (k - 1) items'
  end.

(** The items are one reply. *)
Definition one_reply (items : list (item R)) : Prop := owed 1 items = 0.

Definition is_simple (i : item R) : Prop := match i with IArray _ => False | _ => True end.

Lemma owed_simple items : forall k, Forall is_simple items -> owed k items = k - Z.of_nat (length items).
Proof.
  induction items as [|i items IH]; intros k Hs; [cbn; lia|]. apply Forall_cons in Hs as [Hi Hs].
  destruct i; cbn in *; try done; rewrite IH by done; lia.
Qed.

(** The client is told the items, and nothing else happens outside, to requests,
    or to blocked commands. *)
Record told (c : Z) (items : list (item R)) (s s' : S) : Prop := {
  td_events : sv_events s' = sv_events s ++ (EvReply c <$> items);
  td_reqs : sv_reqs s' = sv_reqs s;
  td_blocked : sv_blocked s' = sv_blocked s
}.

Lemma told_trans c i1 i2 s1 s2 s3 : told c i1 s1 s2 -> told c i2 s2 s3 -> told c (i1 ++ i2) s1 s3.
Proof. intros [E1 R1 B1] [E2 R2 B2]. split; [|congruence..]. by rewrite E2, E1, fmap_app, app_assoc. Qed.

Lemma told_nothing c s s' : sv_events s' = sv_events s -> sv_reqs s' = sv_reqs s -> sv_blocked s' = sv_blocked s -> told c [] s s'.
Proof. intros. split; [by rewrite app_nil_r|done..]. Qed.

(** What tells nobody anything. *)
Definition silent (s s' : S) : Prop :=
  sv_events s' = sv_events s /\ sv_reqs s' = sv_reqs s /\ sv_blocked s' = sv_blocked s.
#[export] Instance silent_preorder : PreOrder silent.
Proof. split; [by split|]. intros s1 s2 s3 (? & ? & ?) (? & ? & ?). split_and!; congruence. Qed.

Lemma silent_told c s s' : silent s s' -> told c [] s s'.
Proof. intros (? & ? & ?). by apply told_nothing. Qed.

Lemma told_silent c items s1 s2 s3 : told c items s1 s2 -> silent s2 s3 -> told c items s1 s3.
Proof. intros T Hs%(silent_told c). rewrite <- (app_nil_r items). by eapply told_trans. Qed.

Lemma silent_then c items s1 s2 s3 : silent s1 s2 -> told c items s2 s3 -> told c items s1 s3.
Proof. intros Hs%(silent_told c) T. change items with ([] ++ items). by eapply told_trans. Qed.

Ltac solve_silent := repeat first [apply (respects_modify silent); done | progress respects_solve].

Lemma silent_acl acl : respects silent (RaftGetACLUser acl).
Proof. unfold RaftGetACLUser. solve_silent. Qed.

Lemma silent_session c b : respects silent (getClientSession c b).
Proof. unfold getClientSession. solve_silent. Qed.

Lemma silent_node {A} (m : M (node D) A) : respects silent (on_node m).
Proof. by intros s a s' (n & _ & ->)%zoom_done. Qed.

Lemma silent_lift {A} (o : outcome A) : respects silent (lift o).
Proof. by intros s a s' [_ ->]%lift_inv. Qed.

Lemma silent_call c : respects silent (redis_call c).
Proof. unfold redis_call. solve_silent. Qed.

Lemma tell_run c i s u s' : tell (Some c) i s = Done (u, s') -> told c [i] s s'.
Proof. intros [= _ <-]. by split. Qed.

(** ** Execution *)

Lemma exec_command_told c cmds cmd s reply s' : exec_command (Some c) cmds cmd s = Done (reply, s') ->
  exists items, told c items s s' /\ Forall is_simple items /\
    match reply with None => length items = 1%nat | Some _ => items = [] /\ ra_len cmds = 1 end.
Proof.
  unfold exec_command. destruct cmd as [|name args]; [done|]. intros E.
  assert (forall m, respects silent m -> forall (k : unit -> Srv (option Z)) s0, bind m k s0 = Done (reply, s') ->
    exists s1, silent s0 s1 /\ k tt s1 = Done (reply, s')) as Hskip.
  { intros m Hm k s0 ([] & s1 & E1 & E2)%bind_done. apply Hm in E1. eauto. }
  change (gets sv_entered_eval) with (@gets S bool sv_entered_eval) in E.
  apply bind_done in E as (old & t & [= <- <-] & E). apply Hskip in E as (s1 & S1 & E).
  2: { solve_silent. }
  apply bind_done in E as (ine & t & [= <- <-] & E). apply bind_done in E as (r & s2 & S2%silent_call & E).
  apply Hskip in E as (s3 & S3 & E).
  2: { solve_silent. }
  assert (silent s s3) as S0 by (etransitivity; [exact S1|by etransitivity]).
  destruct r as [r|p].
  - apply bind_done in E as (u & t & T%tell_run & [= <- <-]). exists [ICall r]. split; [by eapply silent_then|]. by repeat constructor.
  - apply bind_done in E as (u & t & Ea & [= <- <-]). destruct (Z.eqb_spec (ra_len cmds) 1) as [Hl|]; [|done]. injection Ea as _ <-.
    exists []. split; [by apply silent_told|]. by split_and!.
Qed.

(** The commands behind the first: one reply each. *)
Lemma exec_rest_told c cmds : forall cs i s reply s',
  Z.of_nat (Datatypes.S i + length cs) = ra_len cmds ->
  exec_commands (Some c) cmds (Datatypes.S i) cs None s = Done (reply, s') ->
  exists items, told c items s s' /\ Forall is_simple items /\ reply = None /\ length items = length cs.
Proof.
  induction cs as [|cmd cs IH]; intros i s reply s' Hl E; cbn [exec_commands] in E.
  { injection E as <- <-. exists []. split; [by apply told_nothing|]. by split_and!. }
  destruct cmd as [|name args]; [done|]. cbn [Nat.eqb andb] in E.
  apply bind_done in E as (r & s1 & E1 & E2). apply exec_command_told in E1 as (i1 & T1 & F1 & Hr).
  destruct r as [p|]; [destruct Hr as [_ Hr]; cbn [length] in Hl; lia|].
  apply IH in E2 as (i2 & T2 & F2 & -> & Hl2); [|cbn [length] in Hl; lia].
  exists (i1 ++ i2). split; [by eapply told_trans|]. split; [by apply Forall_app|]. split; [done|].
  rewrite length_app, Hr, Hl2. done.
Qed.

(** The commands of a request: one command, or MULTI and the commands of a
    transaction. *)
Definition request_commands (cs : list (list (list Z))) : Prop :=
  match cs with
  | [] => False
  | c :: cs' => cs' = [] \/ exists name args, c = name :: args /\ is_cmd "MULTI" name = true
  end.

Lemma exec_all_told c cmds s reply s' : request_commands (ra_commands cmds) ->
  exec_commands (Some c) cmds 0 (ra_commands cmds) None s = Done (reply, s') ->
  exists items, told c items s s' /\ match reply with None => one_reply items | Some _ => items = [] end.
Proof.
  intros Hp E. destruct (ra_commands cmds) as [|cmd cs] eqn:Ec; [done|].
  assert (ra_len cmds = 1 + Z.of_nat (length cs)) as Hl by (unfold ra_len; rewrite Ec; cbn [length]; lia).
  cbn [exec_commands] in E. destruct cmd as [|name args]; [done|]. cbn [Nat.eqb andb] in E.
  destruct (is_cmd "MULTI" name) eqn:Em.
  - apply bind_done in E as (u & s1 & T1%tell_run & E2).
    apply exec_rest_told in E2 as (items & T2 & F2 & -> & Hlen); [|cbn [plus]; lia].
    exists ([IArray (ra_len cmds - 1)] ++ items). split; [by eapply told_trans|]. unfold one_reply. cbn [owed app].
    rewrite owed_simple by done. lia.
  - assert (cs = []) as -> by (destruct Hp as [|(? & ? & [= <- <-] & ?)]; [done|congruence]).
    apply bind_done in E as (r & s1 & E1 & E2). cbn [exec_commands] in E2. injection E2 as <- <-.
    apply exec_command_told in E1 as (items & T & F & Hr). exists items. split; [done|]. destruct r as [p|]; [by destruct Hr|].
    unfold one_reply. rewrite owed_simple, Hr by done. done.
Qed.

(** A refusal is one reply. *)
Lemma sharding_answer cmds (n n' : node D) st reps : handleSharding true cmds n = Done ((st, reps), n') ->
  match st =? RR_OK with true => reps = [] | false => length reps = 1%nat end.
Proof.
  intros E. unfold handleSharding, validateRaftRedisCommandArray, fail_with, answer in E.
  assert (forall p slot r l r', redirect p slot r = Done (l, r') -> length l = 1%nat) as Hredir.
  { intros p slot r l r' E1. unfold redirect, update_group in E1. by run_done. }
  assert (forall p slot r l r', ask p slot r = Done (l, r') -> length l = 1%nat) as Hask.
  { intros p slot r l r' E1. unfold ask in E1. by run_done. }
  run_done; try done;
    repeat match goal with Hz : on_rr _ _ = Done _ |- _ => apply on_rr_inv in Hz as (? & Hz & ? & ? & ?) end;
    first [by eapply Hredir|by eapply Hask].
Qed.

(** The whole execution, for a client. *)
Lemma execute_told c cmds s reply cmds' s' : request_commands (ra_commands cmds) ->
  RaftExecuteCommandArray (Some c) cmds s = Done ((reply, cmds'), s') ->
  exists items, told c items s s' /\ match reply with None => one_reply items | Some _ => items = [] end.
Proof.
  intros Hp E. unfold RaftExecuteCommandArray in E.
  apply bind_done in E as (u & s1 & E1 & E).
  assert (silent s s1) as S1. { destruct (ra_acl cmds); [by eapply silent_acl|by injection E1 as _ <-]. }
  apply bind_done in E as ([st reps] & s2 & E2 & E). pose proof E2 as S2%silent_node.
  apply zoom_done in E2 as (n & E2%sharding_answer & _).
  apply bind_done in E as (u2 & s3 & E3 & E).
  destruct (st =? RR_OK); cbn [negb] in E.
  - subst reps. injection E3 as _ <-. apply bind_done in E as (u3 & s4 & S4%silent_session & E).
    assert (exists a s5, silent s4 s5 /\ request_commands (ra_commands a) /\
      (reply <- exec_commands (Some c) a 0 (ra_commands a) None ;; ret (reply, a)) s5 = Done ((reply, cmds'), s'))
      as (a & s5 & S5 & Ha & E').
    { apply bind_done in E as (a & s5 & Ea & E). exists a, s5. destruct (has_flag CMD_SPEC_BLOCKING (ra_cmd_flags cmds)).
      - apply bind_done in Ea as (cs & t & [Ec ->]%lift_inv & [= <- <-]). split_and!; [done| |done].
        unfold replaceBlockingTimeout in Ec. destruct (ra_commands cmds) as [|cmd [|]]; [done| |done].
        destruct (_ <? 2); [done|]. destruct (findTimeoutIndex cmd); [|done..]. destruct (zinsert _ _ _); [|done]. injection Ec as <-. by left.
      - injection Ea as <- <-. by split_and!. }
    apply bind_done in E' as (r & s6 & (items & T & Hr)%exec_all_told & [= <- <- <-]); [|done].
    exists items. split; [|done]. eapply silent_then; [|exact T]. etransitivity; [exact S1|]. etransitivity; [exact S2|].
    by etransitivity.
  - injection E as <- <- <-. destruct reps as [|rep [|]]; [done| |done]. cbn [for_each] in E3.
    apply bind_done in E3 as (u3 & t & T%tell_run & [= _ <-]). exists [IReply rep]. split; [|done].
    eapply silent_then; [|exact T]. by etransitivity.
Qed.

(** ** Requests *)

Lemma req_free_run p q c s : sv_reqs s !! p = Some q -> rq_ctx q = Some c ->
  exists s', @RaftReqFree D R p s = Done (tt, s') /\ sv_events s' = sv_events s ++ [EvUnblock c] /\
    sv_reqs s' = delete p (sv_reqs s) /\ sv_blocked s' = sv_blocked s /\ sv_node s' = sv_node s /\ sv_handlers s' = sv_handlers s.
Proof.
  intros Hq Hc. unfold RaftReqFree, deref_req.
  assert (bind get (fun s : S => match sv_reqs s !! p with Some q => ret q | None => abort end) s = Done (q, s)) as Eq.
  { unfold bind, get. by rewrite Hq. }
  rewrite (bind_done_eq _ _ _ _ _ Eq), Hc.
  destruct (negb (rq_client_id q =? 0)), (bool_decide (rq_type q = RR_MIGRATE_KEYS)); (eexists; split; [reflexivity|by split_and!]).
Qed.

Lemma finish_run p q c i s : sv_reqs s !! p = Some q -> rq_ctx q = Some c ->
  exists s', @finish D R (Some p) i s = Done (tt, s') /\ sv_events s' = sv_events s ++ [EvReply c i; EvUnblock c] /\
    sv_reqs s' = delete p (sv_reqs s) /\ sv_blocked s' = sv_blocked s /\ sv_node s' = sv_node s /\ sv_handlers s' = sv_handlers s.
Proof.
  intros Hq Hc. set (s1 := s <| sv_events ::= (fun l => l ++ [EvReply c i]) |>).
  destruct (req_free_run p q c s1 Hq Hc) as (s' & E & Hev & Hr). exists s'. split.
  - unfold finish, req_reply, deref_req. etransitivity; [apply (bind_done_eq _ _ s tt s1)|exact E].
    rewrite (bind_done_eq _ _ s q s) by (unfold bind, get; by rewrite Hq). by rewrite Hc.
  - split; [|exact Hr]. rewrite Hev. cbn. by rewrite <- app_assoc.
Qed.

Lemma add_waiting_told name idx session data req promise (s : S) : blk_wf (sv_blocked s) -> unblocked_idx idx s ->
  exists s', add_waiting name idx session data req promise s = Done (tt, s') /\ sv_events s' = sv_events s /\
    sv_reqs s' = sv_reqs s /\ contents (sv_blocked s') = contents (sv_blocked s) ++ [new_bc name idx session data req promise].
Proof.
  intros B Hf. pose proof (add_blocked_run name idx session data req promise (sv_blocked s) B Hf) as Er.
  destruct (blocked_added_wf (new_bc name idx session data req promise) _ B Hf) as [_ Hc].
  apply bind_done in Er as (p & b1 & E1 & (u & b2 & E2 & [= -> ->])%bind_done).
  set (s1 := s <| sv_blocked := b1 |>). eexists. split.
  - unfold add_waiting. rewrite (bind_done_eq _ _ _ _ _ (on_blocked_run _ s _ _ _ E1 eq_refl)).
    rewrite (bind_done_eq _ _ _ _ _ (on_blocked_run _ s1 _ _ _ E2 eq_refl)). reflexivity.
  - split_and!; [done..|exact Hc].
Qed.

(** C12 (functional). A request is answered exactly once.  When the entry of a
    client's request is applied, the client is given one complete reply (the
    replies of a transaction are the elements of one array) and is then unblocked,
    with its request freed; or, when the command waits, the client is told
    nothing, and the request is kept with one new blocked command. *)
Theorem applied_request_answered (e : raft_entry) (idx p c : Z) (q : RaftReq) (s s' : S) u :
  sv_reqs s !! p = Some q -> rq_ctx q = Some c -> request_commands (ra_commands (rq_cmds q)) ->
  blk_wf (sv_blocked s) -> unblocked_idx idx s ->
  executeLogEntry e idx (Some p) s = Done (u, s') ->
  (exists items, one_reply items /\ sv_events s' = sv_events s ++ (EvReply c <$> items) ++ [EvUnblock c] /\
     sv_reqs s' = delete p (sv_reqs s) /\ contents (sv_blocked s') = contents (sv_blocked s)) \/
  (sv_events s' = sv_events s /\ (exists q', sv_reqs s' !! p = Some q' /\ rq_ctx q' = Some c) /\
     exists bc, contents (sv_blocked s') = contents (sv_blocked s) ++ [bc] /\ bc_idx bc = idx /\ bc_req bc = Some p).
Proof.
  intros Hq Hc Hp B Hf. rewrite execute_entry_eq. intros (u1 & s1 & E1 & E)%bind_done.
  assert (s1 = s) as -> by (destruct (ety_type e =? RAFT_LOGTYPE_NORMAL); [by injection E1|done]).
  apply bind_done in E as ([cl cmds] & s1 & E2 & E).
  unfold entry_source in E2. apply bind_done in E2 as (q1 & s2 & [-> Hq1]%deref_req_inv & E2).
  assert (q1 = q) as -> by congruence. apply bind_done in E2 as (u2 & s2 & E3 & E2).
  destruct (bool_decide _); [|done]. injection E3 as _ <-. rewrite Hc in E2. injection E2 as <- <- <-.
  apply bind_done in E as ([reply cmds'] & s1 & (items & [Tev Tr Tb] & Hr)%execute_told & E); [|done].
  apply bind_done in E as (u3 & s2 & (q2 & s3 & [-> Hq2]%deref_req_inv & [= _ <-])%bind_done & E).
  assert (q2 = q) as -> by congruence. set (q' := q <| rq_cmds := cmds' |>) in *.
  set (s2 := s1 <| sv_reqs ::= <[p := q']> |>) in *.
  apply bind_done in E as (u4 & s3 & E4 & [= _ <-]). cbn [sv_events sv_reqs sv_blocked]. destruct reply as [promise|]; cbn [keep_promise] in E4.
  - right. destruct (first_name cmds') as [name|]; [|done].
    destruct (add_waiting_told name idx (ety_session e) (ety_data e) (Some p) promise s2) as (t & Et & Hev & Hrq & Hct).
    { unfold s2. cbn. by rewrite Tb. }
    { unfold unblocked_idx, s2. cbn. by rewrite Tb. }
    rewrite E4 in Et. injection Et as _ ->. subst items. rewrite app_nil_r in Tev. split_and!.
    + etransitivity; [exact Hev|exact Tev].
    + exists q'. split; [|done]. etransitivity; [apply (f_equal (lookup p) Hrq)|]. apply lookup_insert_eq.
    + eexists. split; [etransitivity; [exact Hct|]; unfold s2; cbn; by rewrite Tb|done].
  - left. destruct (req_free_run p q' c s2) as (t & Et & Hev & Hrq & Hb & _).
    { apply lookup_insert_eq. }
    { done. }
    rewrite E4 in Et. injection Et as _ ->. exists items. split_and!; [done| | |].
    + etransitivity; [exact Hev|]. unfold s2. cbn. by rewrite Tev, <- app_assoc.
    + etransitivity; [exact Hrq|]. unfold s2. cbn. by rewrite Tr, delete_insert_eq.
    + etransitivity; [by apply (f_equal contents Hb)|]. unfold s2. cbn. by rewrite Tb.
Qed.

(** ** The end of the wait *)

(** The client is told, and the command goes. *)
Lemma ended_told d bc p r q c i (s : S) : ok_with None s -> p ∈ bl_list (sv_blocked s) -> bl_heap (sv_blocked s) !! p = Some bc ->
  bc_req bc = Some r -> sv_reqs s !! r = Some q -> rq_ctx q = Some c ->
  let ended := s <| sv_node ::= (fun n => n <| nd_db := d |>) |> <| sv_handlers ::= delete (bc_reply bc) |> in
  exists s', (finish (Some r) i ;; drop_blocked p bc) ended = Done (tt, s') /\
    sv_events s' = sv_events s ++ [EvReply c i; EvUnblock c] /\ sv_reqs s' = delete r (sv_reqs s) /\
    contents (sv_blocked s') = filter (fun b => bc_idx b <> bc_idx bc) (contents (sv_blocked s)) /\ nd_db (sv_node s') = d.
Proof.
  intros O Hp Hbc Hr Hq Hc ended. pose proof (ok_blocked _ _ O) as B.
  destruct (finish_run r q c i ended Hq Hc) as (s1 & E1 & Hev & Hrq & Hb & Hn & _).
  destruct (remove_run p (bc_idx bc) _ bc B Hp Hbc eq_refl) as (_ & _ & _ & Hct).
  exists (s1 <| sv_blocked := removed p (bc_idx bc) (sv_blocked s) |>). split_and!.
  - rewrite (bind_done_eq _ _ _ _ _ E1). by apply drop_run.
  - exact Hev.
  - exact Hrq.
  - exact Hct.
  - cbn. by rewrite Hn.
Qed.

(** What a timeout answers. *)
Definition timeout_answer (error : bool) (name : list Z) : item R :=
  if error then IReply (Sharding.error "UNBLOCKED client unblocked via CLIENT UNBLOCK")
  else if has_prefix "bzpopmin" name || has_prefix "bzpopmax" name || has_prefix "bzmpop" name then INullArray else INull.


(** The clients of this server that have a session are closed. *)
Definition closed_clients (sessions : gmap Z bool) : list (event R) :=
  (fun e : Z * bool => EvClose (fst e)) <$> filter (fun e : Z * bool => snd e = true) (session_entries sessions).

Lemma events_ext f g (s : S) : f (sv_events s) = g (sv_events s) -> s <| sv_events ::= f |> = s <| sv_events ::= g |>.
Proof.
  intros E. change (mk_module (sv_node s) (sv_acl_dict s) (sv_entered_eval s) (sv_sessions s) (sv_blocked s) (sv_handlers s)
    (sv_clients s) (sv_reqs s) (sv_req_brk s) (sv_attached s) (sv_migrate_req s) (sv_applied_term s) (sv_applied_idx s)
    (f (sv_events s)) = s <| sv_events ::= g |>). by rewrite E.
Qed.

Lemma close_run (l : list (Z * bool)) : forall s : S,
  for_each l (fun e => when (snd e) (emit (EvClose (fst e)))) s =
  Done (tt, s <| sv_events ::= (fun ev => ev ++ ((fun e : Z * bool => EvClose (fst e)) <$> filter (fun e : Z * bool => snd e = true) l)) |>).
Proof.
  induction l as [|[id b] l IH]; intros s; cbn [for_each].
  - rewrite filter_nil. unfold ret. do 2 f_equal. transitivity (s <| sv_events ::= (fun ev => ev) |>); [by destruct s|].
    apply events_ext. by rewrite app_nil_r.
  - destruct b; cbn [snd when fst].
    + rewrite (bind_done_eq (emit _) _ s tt (s <| sv_events ::= (fun ev => ev ++ [EvClose id]) |>)) by done. rewrite IH.
      rewrite filter_cons_True by done. do 2 f_equal.
      transitivity (s <| sv_events ::= (fun ev => (ev ++ [EvClose id]) ++
        ((fun e : Z * bool => EvClose (fst e)) <$> filter (fun e : Z * bool => snd e = true) l)) |>); [by destruct s|].
      apply events_ext. by rewrite <- app_assoc.
    + rewrite (bind_done_eq (ret tt) _ s tt s) by done. rewrite IH. by rewrite filter_cons_False.
Qed.

(** (functional). The entry of a new leader takes all blocked commands and sessions
    away at once: it goes through, aborts every promise, and closes the clients of
    this server that watch keys.  It tells the clients of blocked commands nothing,
    and their requests stay. *)
Theorem noop_forgets_waiting_clients (v : raft_view) (idx : Z) (e : raft_entry) (req : option Z) (s : S) :
  ok_with None s -> ety_type e = RAFT_LOGTYPE_NO_OP ->
  exists s', raftApplyLog v e idx req s = Done (tt, s') /\ ok_with None s' /\
    contents (sv_blocked s') = [] /\ pending (nd_db (sv_node s')) = ∅ /\ sv_sessions s' = ∅ /\
    sv_events s' = sv_events s ++ closed_clients (sv_sessions s) /\ sv_reqs s' = sv_reqs s.
Proof.
  intros O Ht. set (s1 := s <| sv_events ::= (fun ev => ev ++ closed_clients (sv_sessions s)) |> <| sv_sessions := ∅ |>).
  assert (clearClientSessions s = Done (tt, s1)) as E1.
  { unfold clearClientSessions. rewrite (bind_done_eq get _ s s s) by done. by rewrite (bind_done_eq _ _ _ _ _ (close_run _ s)). }
  assert (ok_with None s1) as O1 by (destruct O; by split).
  destruct (clear_run s1 O1) as [E2 O2].
  set (s2 := cleared (abort_all (nd_db (sv_node s1)) (promises s1)) s1) in *.
  exists (s2 <| sv_applied_term := ety_term e |> <| sv_applied_idx := idx |>). split_and!; try done.
  - unfold raftApplyLog. rewrite Ht. cbn -[clearClientSessions clearAllBlockCommands snapshot_applied].
    erewrite bind_done_eq; [reflexivity|]. by rewrite (bind_done_eq _ _ _ _ _ E1).
  - destruct O2. by split.
  - apply leibniz_equiv. intros p. split; [|by intros ?%elem_of_empty]. intros Hp.
    apply (ok_pending _ _ O2) in Hp as [?|Hp]; [done|]. by apply elem_of_nil in Hp.
Qed.

End Replies.

(** ** On the server with lists *)

(** A BLPOP that waits, and an LPUSH that does not. *)
Definition demo_pusher : server :=
  demo_server <| sv_reqs := {[1 := mk_rreq RR_REDISCOMMAND (Some 8) None 0 8 lpush []]} |> <| sv_req_brk := 2 |>.

Lemma applied_request_answered_witness :
  let s' := run (executeLogEntry (entry lpush) 5 (Some 1)) demo_pusher in
  (exists items, one_reply items /\ sv_events s' = sv_events demo_pusher ++ (EvReply 8 <$> items) ++ [EvUnblock 8] /\
     sv_reqs s' = delete 1 (sv_reqs demo_pusher) /\ contents (sv_blocked s') = contents (sv_blocked demo_pusher)) \/
  (sv_events s' = sv_events demo_pusher /\ (exists q', sv_reqs s' !! 1 = Some q' /\ rq_ctx q' = Some 8) /\
     exists bc, contents (sv_blocked s') = contents (sv_blocked demo_pusher) ++ [bc] /\ bc_idx bc = 5 /\ bc_req bc = Some 1).
Proof.
  apply (applied_request_answered (entry lpush) 5 1 8 (mk_rreq RR_REDISCOMMAND (Some 8) None 0 8 lpush []) _ _ tt).
  - by vm_compute.
  - reflexivity.
  - by left.
  - apply blocked_zero_wf.
  - by intros ?%elem_of_nil.
  - by vm_compute.
Defined.

Lemma leader_pushed_ok : ok_with None leader_pushed.
Proof.
  destruct (run_followed 2 [Applied 5 (entry blpop); Applied 6 (entry lpush)] demo_leader leader_pushed) with (i := 5) (s2 := demo_server)
    as (s2 & _ & [O _ _ _]); [| | | | |exact O].
  - apply (run_apply 5 (entry blpop) (mk_view 1 true 1) (Some 1) tt _ _ leader_blocked).
    + intros p q [= <-] E. exists (mk_array 7 false 1 (ra_cmd_flags blpop) (ra_commands blpop) None). split; [by vm_compute|].
      injection E as <-. by repeat split.
    + by vm_compute.
    + by vm_compute.
    + apply (run_apply 6 (entry lpush) (mk_view 1 true 1) None tt _ _ leader_pushed);
        [apply matches_none|by vm_compute|by vm_compute|apply run_end].
  - split; [by apply demo_ok|by apply demo_ok|by intros bc ?%elem_of_nil|by split].
  - by intros bc ?%elem_of_nil.
  - by vm_compute.
  - apply Forall_cons; split; [by intros [=]|]. apply Forall_cons; split; [by intros [=]|constructor].
Qed.

Definition demo_waiting : BlockedCommand := new_bc (bytes_of "BLPOP") 5 7 (ety_data (entry blpop)) (Some 1) 1.


Lemma noop_forgets_waiting_clients_witness :
  exists s', raftApplyLog (mk_view 1 true 2) (mk_entry 2 0 0 RAFT_LOGTYPE_NO_OP []) 7 None leader_pushed = Done (tt, s') /\
    contents (sv_blocked leader_pushed) <> [] /\ contents (sv_blocked s') = [] /\ sv_events s' = [] /\ sv_reqs s' !! 1 <> None.
Proof.
  destruct (noop_forgets_waiting_clients (mk_view 1 true 2) 7 (mk_entry 2 0 0 RAFT_LOGTYPE_NO_OP []) None leader_pushed leader_pushed_ok eq_refl)
    as (s' & E & _ & Hc & _ & _ & Hev & Hr).
  exists s'. split_and!; [exact E|by vm_compute|exact Hc| |].
  - rewrite Hev. by vm_compute.
  - rewrite Hr. by vm_compute.
Defined.
