(* ===== verification/Snapshot.v ===== *)
(** * Snapshots ([redisraft/src/snapshot.c], [blocked.c], [raft.c])

    What a server writes into the auxiliary part of an RDB file in front of the
    data ([rdbSaveSnapshotInfo]), and how a server takes it over
    ([rdbLoadSnapshotInfo]); a blocked command is saved as its entry, and executed
    again by the server that loads it.  The file itself is sent in chunks. *)

From stdpp Require Import base list numbers tactics gmap strings sorting.
From S2P Require Import Prelude RaftTypes Libc File Multibulk PageLog Crc Serialization NodeAddr ShardGroup Sharding ShardRouting.
From S2P Require Import Commands Blocked Server.

Local Open Scope Z_scope.

(** ** State *)

Record SnapshotCfgEntry := mk_cfg_entry {
  sce_id : Z;
  sce_voting : Z;
  sce_addr : NodeAddr
}.

#[export] Instance SnapshotCfgEntry_eq_dec : EqDecision SnapshotCfgEntry.
Proof. solve_decision. Defined.

(** Of [RedisRaftCtx], the server with what [RaftSnapshotInfo] has in addition to
    the id of the database ([rr_snapshot_dbid]) and the entry that was applied last
    ([sv_applied_term], [sv_applied_idx]).  The linked lists have one owner. *)
Record snapshot_state (D R : Type) := mk_snapshot {
  ss_server : module_state D R;
  ss_loaded : bool;
  ss_cfg : list SnapshotCfgEntry;
  ss_used_node_ids : list Z
}.
Arguments mk_snapshot {D R}. Arguments ss_server {D R}. Arguments ss_loaded {D R}. Arguments ss_cfg {D R}.
Arguments ss_used_node_ids {D R}.

#[export] Instance eta_snapshot {D R} : Eta (snapshot_state D R) := fun s =>
  mk_snapshot (ss_server s) (ss_loaded s) (ss_cfg s) (ss_used_node_ids s).
#[export] Instance set_ss_server {D R} : Setter (@ss_server D R). Proof. solve_setter. Defined.
#[export] Instance set_ss_loaded {D R} : Setter (@ss_loaded D R). Proof. solve_setter. Defined.
#[export] Instance set_ss_cfg {D R} : Setter (@ss_cfg D R). Proof. solve_setter. Defined.
#[export] Instance set_ss_used_node_ids {D R} : Setter (@ss_used_node_ids D R). Proof. solve_setter. Defined.
#[export] Instance set_rr_snapshot_dbid : Setter rr_snapshot_dbid. Proof. solve_setter. Defined.

(** ** Writing

    [RedisModule_SaveUnsigned] takes a [uint64_t]; [strlen] ends a text at its
    first NUL. *)

Definition save_cfg_entry (cfg : SnapshotCfgEntry) : list rdb_value :=
  [RdbUnsigned (u64 (sce_id cfg)); RdbUnsigned (u64 (sce_voting cfg)); RdbString (na_host (sce_addr cfg));
   RdbUnsigned (na_port (sce_addr cfg))].

(** The keys of a dictionary come in the order of their bytes. *)
Definition text_le (p q : list Z) : Prop := bytes_le p q = true.
#[local] Instance text_le_dec p q : Decision (text_le p q).
Proof. unfold text_le. apply _. Defined.

Definition locked_entries (keys : gset (list Z)) : list (list Z) := merge_sort text_le (elements keys).

Definition lockedKeysRDBSave (locked_keys : gset (list Z)) : list rdb_value :=
  RdbUnsigned (Z.of_nat (size locked_keys)) :: (RdbString <$> locked_entries locked_keys).

Definition clientSessionRDBSave (client_session_dict : gmap Z bool) : list rdb_value :=
  RdbUnsigned (Z.of_nat (size client_session_dict)) ::
  ((fun e => RdbUnsigned (u64 (fst e))) <$> session_entries client_session_dict).

Definition save_blocked_command (bc : BlockedCommand) : list rdb_value :=
  [RdbUnsigned (u64 (bc_idx bc)); RdbUnsigned (bc_session bc); RdbString (bc_data bc)].

(** The commands that both loops of [blockedCommandsSave] visit. *)
Fixpoint blocked_up_to (last_applied_idx : Z) (blocked_command_list : list Z) : M blocked (list BlockedCommand) :=
  match blocked_command_list with
  | [] => ret []
  | p :: l =>
      bc <- deref_bc p ;;
      if bc_idx bc <=? last_applied_idx
      then bcs <- blocked_up_to last_applied_idx l ;; ret (bc :: bcs)
      else ret []
  end.

(** [count] is an [int]. *)
Definition blockedCommandsSave (last_applied_idx : Z) : M blocked (list rdb_value) :=
  b <- get ;;
  bcs <- blocked_up_to last_applied_idx (bl_list b) ;;
  ret (RdbUnsigned (u64 (to_int (Z.of_nat (length bcs)))) :: concat (save_blocked_command <$> bcs)).

Section Snapshot.
Context {D R : Type} `{Keyspace D} `{RedisServer D R}.

#[local] Abbreviation Srv := (M (module_state D R)).
#[local] Abbreviation Snap := (M (snapshot_state D R)).

Definition on_server {A} (m : Srv A) : Snap A := zoom ss_server (fun s x => x <| ss_server := s |>) m.

Definition rdbSaveSnapshotInfo : Snap (list rdb_value) :=
  x <- get ;;
  let s := ss_server x in
  sharding <- on_server (on_node (on_rr ShardingInfoRDBSave)) ;;
  blocked <- on_server (on_blocked (blockedCommandsSave (sv_applied_idx s))) ;;
  ret (RdbString (c_string (rr_snapshot_dbid (nd_rr (sv_node s)))) ::
       RdbUnsigned (u64 (sv_applied_term s)) ::
       RdbUnsigned (u64 (sv_applied_idx s)) ::
       concat (save_cfg_entry <$> ss_cfg x) ++ [RdbUnsigned 0] ++
       ((fun id => RdbUnsigned (u64 id)) <$> ss_used_node_ids x) ++ [RdbUnsigned 0] ++
       sharding ++
       lockedKeysRDBSave (nd_locked_keys (sv_node s)) ++
       clientSessionRDBSave (sv_sessions s) ++
       blocked).

(** ** Reading

    The values that follow are the result. *)

(** The configuration ends with the id 0; [n] is at least the number of values
    that are left.  [memcpy] into a cleared array of 256 bytes. *)
Fixpoint load_cfg (n : nat) (rdb : list rdb_value) : Snap (list rdb_value) :=
  match n with
  | O => out_of_fuel
  | S n' =>
      let* (_id, rdb) := lift (LoadUnsigned rdb) in
      if _id =? 0 then ret rdb else
      let* (voting, rdb) := lift (LoadUnsigned rdb) in
      let* (buf, rdb) := lift (LoadStringBuffer rdb) in
      let* (port, rdb) := lift (LoadUnsigned rdb) in
      c_assert (blen buf <? 256) ;;
      modify (fun x => x <| ss_cfg ::= (fun l => l ++ [mk_cfg_entry (to_int _id) (to_int voting)
                                          (mk_NodeAddr (port mod 2 ^ 16) (c_string buf))]) |>) ;;
      load_cfg n' rdb
  end.

Fixpoint load_used_node_ids (n : nat) (rdb : list rdb_value) : Snap (list rdb_value) :=
  match n with
  | O => out_of_fuel
  | S n' =>
      let* (_id, rdb) := lift (LoadUnsigned rdb) in
      if _id =? 0 then ret rdb else
      modify (fun x => x <| ss_used_node_ids ::= (fun l => l ++ [to_int _id]) |>) ;;
      load_used_node_ids n' rdb
  end.

Fixpoint load_locked_keys (n : nat) (rdb : list rdb_value) : Srv (list rdb_value) :=
  match n with
  | O => ret rdb
  | S n' =>
      let* (key, rdb) := lift (LoadStringBuffer rdb) in
      modify (fun s => s <| sv_node ::= (fun nd => nd <| nd_locked_keys ::= union {[key]} |>) |>) ;;
      load_locked_keys n' rdb
  end.

Definition lockedKeysRDBLoad (rdb : list rdb_value) : Srv (list rdb_value) :=
  let* (count, rdb) := lift (LoadUnsigned rdb) in
  modify (fun s => s <| sv_node ::= (fun nd => nd <| nd_locked_keys := ∅ |>) |>) ;;
  load_locked_keys (Z.to_nat count) rdb.

(** The dictionary is empty at the start, so that a key that is there already has
    the same value. *)
Fixpoint load_sessions (n : nat) (rdb : list rdb_value) : Srv (list rdb_value) :=
  match n with
  | O => ret rdb
  | S n' =>
      let* (id, rdb) := lift (LoadUnsigned rdb) in
      modify (fun s => s <| sv_sessions ::= <[id := false]> |>) ;;
      load_sessions n' rdb
  end.

Definition clientSessionRDBLoad (rdb : list rdb_value) : Srv (list rdb_value) :=
  let* (count, rdb) := lift (LoadUnsigned rdb) in
  clearClientSessions ;;
  load_sessions (Z.to_nat count) rdb.

(** The body of the loop of [blockedCommandsLoad]: the blocking command is
    executed again. *)
Definition load_blocked_command (idx session : Z) (data : list Z) : Srv unit :=
  let* (st, tmp) := lift (RaftRedisCommandArrayDeserialize data (cmds_zero <| ra_client_id := session |>)) in
  c_assert (st =? RR_OK) ;;
  let* (reply, tmp) := RaftExecuteCommandArray None tmp in
  match reply, first_name tmp with
  | Some promise, Some cmdstr =>
      bc <- on_blocked (allocBlockedCommand cmdstr idx session data None promise) ;;
      on_blocked (addBlockedCommand bc) ;;
      set_unblock_handler promise bc
  | _, _ => abort
  end.

Fixpoint load_blocked_commands (n : nat) (rdb : list rdb_value) : Srv (list rdb_value) :=
  match n with
  | O => ret rdb
  | S n' =>
      let* (idx, rdb) := lift (LoadUnsigned rdb) in
      let* (session, rdb) := lift (LoadUnsigned rdb) in
      let* (data, rdb) := lift (LoadStringBuffer rdb) in
      load_blocked_command (to_long idx) session data ;;
      load_blocked_commands n' rdb
  end.

Definition blockedCommandsLoad (rdb : list rdb_value) : Srv (list rdb_value) :=
  clearAllBlockCommands ;;
  let* (command_count, rdb) := lift (LoadUnsigned rdb) in
  load_blocked_commands (Z.to_nat command_count) rdb.

Definition rdbLoadSnapshotInfo (rdb : list rdb_value) : Snap (list rdb_value) :=
  let* (buf, rdb) := lift (LoadStringBuffer rdb) in
  c_assert (blen buf <=? RAFT_DBID_LEN) ;;
  on_server (on_node (on_rr (modify (fun r => r <| rr_snapshot_dbid := c_string buf |>)))) ;;
  let* (term, rdb) := lift (LoadUnsigned rdb) in
  on_server (modify (fun s => s <| sv_applied_term := to_long term |>)) ;;
  let* (idx, rdb) := lift (LoadUnsigned rdb) in
  on_server (modify (fun s => s <| sv_applied_idx := to_long idx |>)) ;;
  modify (fun x => x <| ss_cfg := [] |>) ;;
  rdb <- load_cfg (S (length rdb)) rdb ;;
  modify (fun x => x <| ss_used_node_ids := [] |>) ;;
  rdb <- load_used_node_ids (S (length rdb)) rdb ;;
  rdb <- on_server (on_node (on_rr (ShardingInfoRDBLoad rdb))) ;;
  rdb <- on_server (lockedKeysRDBLoad rdb) ;;
  rdb <- on_server (clientSessionRDBLoad rdb) ;;
  rdb <- on_server (blockedCommandsLoad rdb) ;;
  modify (fun x => x <| ss_loaded := true |>) ;;
  ret rdb.

(** ** Ids of nodes ([raft.c]) *)

Definition hasNodeIdBeenUsed (node_id : Z) (x : snapshot_state D R) : bool := bool_decide (node_id ∈ ss_used_node_ids x).

Definition addUsedNodeId (node_id : Z) : Snap unit :=
  x <- get ;;
  if hasNodeIdBeenUsed node_id x then ret tt else
  modify (fun x => x <| ss_used_node_ids ::= cons node_id |>).

End Snapshot.

(** ** The snapshot file

    A leader sends its file, which it has mapped into memory, in chunks. *)

(** [connected] is [ConnIsConnected(node->conn)], [pending] the messages that the
    node has not answered, [file] what is mapped; the code and the chunk, whose
    offset the Raft library has set. *)
Definition raftGetSnapshotChunk (connected : bool) (pending snapshot_req_max_count snapshot_req_max_size : Z)
    (file : list Z) (offset : Z) : outcome (Z * raft_snapshot_chunk) :=
  let chunk := mk_chunk offset [] 0 false in
  if negb connected || (snapshot_req_max_count <=? pending) then Done (RAFT_ERR_DONE, chunk) else
  if blen file <? offset then Abort else
  let remaining_bytes := blen file - offset in
  let len := Z.min snapshot_req_max_size remaining_bytes in
  if len =? 0 then Done (RAFT_ERR_DONE, chunk) else
  Done (0, mk_chunk offset (take (Z.to_nat len) (drop (Z.to_nat offset) file)) len (offset + len =? blen file)).

(** [write] on a descriptor opened without [O_APPEND]; behind the end of the file
    a gap is filled with NULs. *)
Definition sys_write_at (fd : Z) (data : list Z) : M os Z :=
  o <- get ;;
  match fd_lookup o fd with
  | None => ret (-1)
  | Some (i, pos, d) =>
      k <- sys_count (Z.of_nat (length data)) ;;
      match k with
      | None => ret (-1)
      | Some k =>
          let p := Z.to_nat pos in
          let data := take (Z.to_nat k) data in
          modify (fd_modify fd i (pos + k) (take p d ++ replicate (p - length d) 0 ++ data ++ drop (p + length data) d)) ;;
          ret k
      end
  end.

(** [incoming_snapshot_idx], and the kernel. *)
Record incoming := mk_incoming { in_snapshot_idx : Z; in_os : os }.
#[export] Instance eta_incoming : Eta incoming := fun w => mk_incoming (in_snapshot_idx w) (in_os w).
#[export] Instance set_in_idx : Setter in_snapshot_idx. Proof. solve_setter. Defined.
#[export] Instance set_in_os : Setter in_os. Proof. solve_setter. Defined.

Definition on_os {A} (m : M os A) : M incoming A := zoom in_os (fun o w => w <| in_os := o |>) m.

(** [incoming_snapshot_file] is its name; a chunk for another snapshot panics. *)
Definition raftStoreSnapshotChunk (incoming_snapshot_file : list Z) (snapshot_index offset : Z) (chunk : raft_snapshot_chunk) :
    M incoming Z :=
  when (offset =? 0) (modify (fun w => w <| in_snapshot_idx := snapshot_index |>)) ;;
  w <- get ;;
  c_assert (in_snapshot_idx w =? snapshot_index) ;;
  let* (fd, _) := on_os (sys_open incoming_snapshot_file (mk_flags false false true (offset =? 0))) in
  if fd =? -1 then ret (-1) else
  ret_offset <- on_os (sys_lseek fd (to_long offset)) ;;
  if negb (ret_offset =? to_long offset) then on_os (sys_close fd) ;; ret (-1) else
  len <- on_os (sys_write_at fd (take (Z.to_nat (chunk_len chunk)) (chunk_data chunk))) ;;
  if negb (len =? chunk_len chunk) then on_os (sys_close fd) ;; ret (-1) else
  on_os (sys_close fd) ;;
  ret 0.

Definition raftClearSnapshot (incoming_snapshot_file : list Z) : M incoming Z :=
  on_os (sys_unlink incoming_snapshot_file) ;; ret 0.

(** [snprintf(bak_rdb_filename, maxlen - 1, "%s.bak.%d", ..)] where [maxlen] is the
    length of the name, and [rename].  A name that is shorter leaves the array as it
    is. *)
Definition bak_name (rdb_filename : list Z) (nodeid : Z) : list Z :=
  take (length rdb_filename - 2) (rdb_filename ++ bytes_of ".bak." ++ dec_signed nodeid).

Definition archiveSnapshot (rdb_filename : list Z) (nodeid : Z) : M os unit :=
  if (length rdb_filename <? 2)%nat then abort else
  sys_rename rdb_filename (bak_name rdb_filename nodeid) ;; ret tt.
