(* ===== verification/SnapshotSpec.v ===== *)
(** * A snapshot restores a server

    What [rdbSaveSnapshotInfo] writes and [rdbLoadSnapshotInfo] reads, part by
    part; the blocked commands, which are executed again, over a database that
    Redis has emptied ([EmptyDatabase]).  The chunks of a snapshot file make up the
    file. *)

From stdpp Require Import base list numbers tactics gmap strings sorting.
From S2P Require Import Prelude RaftTypes Libc File Multibulk PageLog Crc Serialization SerializationSpec NodeAddr.
From S2P Require Import ShardGroup Sharding ShardingSpec ShardParse ShardParseSpec ShardSnapshot ShardRouting.
From S2P Require Import ShardRoutingSpec ShardMigration Commands Blocked Server ServerSpec ServerReplica ServerDemo Snapshot.

Local Open Scope Z_scope.

(** ** Loading tables keeps the ids of the database *)

Definition same_ids (r r' : RedisRaftCtx) : Prop :=
  rr_meta_dbid r' = rr_meta_dbid r /\ rr_snapshot_dbid r' = rr_snapshot_dbid r.
#[local] Instance same_ids_preorder : PreOrder same_ids.
Proof. split; [by intros r|]. intros r1 r2 r3 [] []. split; congruence. Qed.

Lemma same_ids_si {A} (m : M ShardingInfo A) : respects same_ids (with_si m).
Proof. by intros r a r' (i & _ & ->)%zoom_done. Qed.

Lemma same_ids_deref p : respects same_ids (deref p).
Proof. unfold deref. respects_solve. Qed.
#[local] Hint Resolve same_ids_si same_ids_deref : respects.

Ltac solve_same_ids := repeat first [apply (respects_modify same_ids); intros r; by split | progress respects_solve].

Lemma same_ids_add sg : respects same_ids (ShardingInfoAddShardGroup sg).
Proof. unfold ShardingInfoAddShardGroup, link_group, set_is_sharding, update_group. solve_same_ids. Qed.

Lemma same_ids_reset : respects same_ids ShardingInfoReset.
Proof. unfold ShardingInfoReset, freeShardGroupMap, ShardGroupFree. solve_same_ids. Qed.
#[local] Hint Resolve same_ids_add same_ids_reset : respects.

Lemma same_ids_load rdb : respects same_ids (ShardingInfoRDBLoad rdb).
Proof.
  assert (forall n rdb, respects same_ids (load_groups n rdb)) as Hg.
  { induction n as [|n IH]; intros l; cbn [load_groups]; [solve_same_ids|].
    apply (respects_bind same_ids); [solve_same_ids|]. intros [buf l']. solve_same_ids. }
  assert (forall slots rdb, respects same_ids (load_terms slots rdb)) as Ht.
  { induction slots as [|i slots IH]; intros l; cbn [load_terms]; [solve_same_ids|].
    apply (respects_bind same_ids); [solve_same_ids|]. intros [v l']. solve_same_ids. }
  unfold ShardingInfoRDBLoad. apply (respects_bind same_ids); [solve_same_ids|]. intros [n l]. solve_same_ids.
Qed.

(** ** Numbers and lists in the stream *)

Definition is_int (z : Z) : Prop := - 2 ^ 31 <= z < 2 ^ 31.

Lemma to_int_u64 z : is_int z -> to_int (u64 z) = z.
Proof.
  unfold is_int, to_int, u64. intros Hz.
  rewrite <- Zplus_mod_idemp_l, Z.mod_mod_divide, Zplus_mod_idemp_l by (by exists (2 ^ 32)).
  rewrite Z.mod_small by lia. lia.
Qed.

Lemma u64_nonzero z : is_int z -> z <> 0 -> u64 z <> 0.
Proof. intros Hz Hne E. apply Hne. rewrite <- (to_int_u64 z Hz), E. done. Qed.

(** ** What is written *)

Section Save.
Context {D R : Type} `{RedisLaws D R}.

#[local] Abbreviation S := (module_state D R).
#[local] Abbreviation X := (snapshot_state D R).

(** The commands in the list, up to the entry that was applied last. *)
Lemma blocked_up_to_run idx b l : (forall p, p ∈ l -> is_Some (bl_heap b !! p)) ->
  Forall (fun bc => bc_idx bc <= idx) (omap (fun p => bl_heap b !! p) l) ->
  blocked_up_to idx l b = Done (omap (fun p => bl_heap b !! p) l, b).
Proof.
  induction l as [|p l IH]; intros Ha Hi; [done|]. destruct (Ha p ltac:(by left)) as [bc Hbc].
  cbn in Hi |- *. rewrite Hbc in Hi |- *. apply Forall_cons in Hi as [Hle Hi].
  rewrite (bind_done_eq (deref_bc p) _ b bc b) by (unfold deref_bc, bind, get; by rewrite Hbc).
  rewrite (proj2 (Z.leb_le _ _) Hle). rewrite (bind_done_eq _ _ _ _ _ (IH (fun q Hq => Ha q (list_elem_of_further q p l Hq)) Hi)). done.
Qed.

Lemma blocked_save_run idx b : blk_wf b -> Forall (fun bc => bc_idx bc <= idx) (contents b) ->
  blockedCommandsSave idx b =
    Done (RdbUnsigned (u64 (to_int (Z.of_nat (length (contents b))))) :: concat (save_blocked_command <$> contents b), b).
Proof.
  intros Hwf Hi. unfold blockedCommandsSave. rewrite (bind_done_eq get _ b b b) by done.
  rewrite (bind_done_eq _ _ _ _ _ (blocked_up_to_run idx b (bl_list b) (bw_alloc b Hwf) Hi)). done.
Qed.

(** All values, for a server whose blocked commands are all of applied entries. *)
Definition snapshot_values (x : X) : list rdb_value :=
  let s := ss_server x in
  RdbString (c_string (rr_snapshot_dbid (nd_rr (sv_node s)))) ::
  RdbUnsigned (u64 (sv_applied_term s)) ::
  RdbUnsigned (u64 (sv_applied_idx s)) ::
  concat (save_cfg_entry <$> ss_cfg x) ++ [RdbUnsigned 0] ++
  ((fun id => RdbUnsigned (u64 id)) <$> ss_used_node_ids x) ++ [RdbUnsigned 0] ++
  saved_values (nd_rr (sv_node s)) ++
  lockedKeysRDBSave (nd_locked_keys (sv_node s)) ++
  clientSessionRDBSave (sv_sessions s) ++
  RdbUnsigned (u64 (to_int (Z.of_nat (length (contents (sv_blocked s)))))) ::
  concat (save_blocked_command <$> contents (sv_blocked s)).

Lemma on_server_run {A} (m : M S A) (x : X) a s : m (ss_server x) = Done (a, s) ->
  on_server m x = Done (a, x <| ss_server := s |>).
Proof. intros E. unfold on_server, zoom. by rewrite E. Qed.

Lemma on_server_at {A} (m : M S A) (x : X) s a t : ss_server x = s -> m s = Done (a, t) ->
  on_server m x = Done (a, x <| ss_server := t |>).
Proof. intros <-. apply on_server_run. Qed.

Lemma on_server_same {A} (m : M S A) (x : X) a : m (ss_server x) = Done (a, ss_server x) -> on_server m x = Done (a, x).
Proof. intros E. rewrite (on_server_run m x a _ E). by destruct x. Qed.

Lemma on_node_same {A} (m : M (node D) A) (s : S) a : m (sv_node s) = Done (a, sv_node s) -> on_node m s = Done (a, s).
Proof. intros E. unfold on_node, zoom. rewrite E. by destruct s. Qed.

Lemma snapshot_save_run (x : X) : savable (nd_rr (sv_node (ss_server x))) -> blk_wf (sv_blocked (ss_server x)) ->
  below (sv_applied_idx (ss_server x) + 1) (ss_server x) ->
  rdbSaveSnapshotInfo x = Done (snapshot_values x, x).
Proof.
  intros Hsv Hwf Hb. unfold rdbSaveSnapshotInfo. rewrite (bind_done_eq get _ x x x) by done. cbv zeta.
  rewrite (bind_done_eq _ _ _ _ _ (on_server_same _ _ _ (on_node_same _ _ _ (on_rr_run _ _ _ (save_run _ Hsv))))).
  assert (Forall (fun bc => bc_idx bc <= sv_applied_idx (ss_server x)) (contents (sv_blocked (ss_server x)))) as Hi.
  { apply Forall_forall. intros bc Hin. apply Hb in Hin. lia. }
  pose proof (blocked_save_run _ _ Hwf Hi) as E.
  erewrite bind_done_eq; [reflexivity|]. apply on_server_same. rewrite (on_blocked_run _ _ _ _ _ E eq_refl). by destruct (ss_server x).
Qed.

End Save.

(** ** What is read *)

Record cfg_entry_ok (e : SnapshotCfgEntry) : Prop := {
  ce_id : is_int (sce_id e) /\ sce_id e <> 0;
  ce_voting : is_int (sce_voting e);
  ce_host : c_string (na_host (sce_addr e)) = na_host (sce_addr e) /\ blen (na_host (sce_addr e)) < 256;
  ce_port : 0 <= na_port (sce_addr e) < 2 ^ 16
}.

Definition node_id_ok (id : Z) : Prop := is_int id /\ id <> 0.

Section Load.
Context {D R : Type} `{RedisLaws D R}.

#[local] Abbreviation S := (module_state D R).
#[local] Abbreviation X := (snapshot_state D R).

Definition cfg_added (cfg : list SnapshotCfgEntry) (x : X) : X :=
  mk_snapshot (ss_server x) (ss_loaded x) (ss_cfg x ++ cfg) (ss_used_node_ids x).

Definition ids_added (ids : list Z) (x : X) : X :=
  mk_snapshot (ss_server x) (ss_loaded x) (ss_cfg x) (ss_used_node_ids x ++ ids).

Lemma load_cfg_run rest cfg : forall n (x : X), Forall cfg_entry_ok cfg -> (length cfg < n)%nat ->
  load_cfg n (concat (save_cfg_entry <$> cfg) ++ RdbUnsigned 0 :: rest) x = Done (rest, cfg_added cfg x).
Proof.
  induction cfg as [|e cfg IH]; intros n x Hok Hn; (destruct n as [|n]; [cbn in Hn; lia|]).
  { unfold cfg_added. rewrite app_nil_r. by destruct x. }
  apply Forall_cons in Hok as [[[Hid Hne] Hv [Hh Hlen] Hp] Hok]. cbn [length] in Hn.
  rewrite fmap_cons. cbn [concat save_cfg_entry app load_cfg]. unfold bind, lift. cbn [LoadUnsigned LoadStringBuffer].
  destruct (Z.eqb_spec (u64 (sce_id e)) 0) as [E|_]; [by destruct (u64_nonzero _ Hid Hne)|].
  rewrite (proj2 (Z.ltb_lt _ _) Hlen), Hh, !to_int_u64, Z.mod_small by done. unfold c_assert, ret, modify.
  rewrite IH by (done || lia). do 2 f_equal. destruct x, e as [id v []]. unfold cfg_added. cbn. by rewrite <- app_assoc.
Qed.

Lemma load_ids_run rest ids : forall n (x : X), Forall node_id_ok ids -> (length ids < n)%nat ->
  load_used_node_ids n (((fun id => RdbUnsigned (u64 id)) <$> ids) ++ RdbUnsigned 0 :: rest) x = Done (rest, ids_added ids x).
Proof.
  induction ids as [|id ids IH]; intros n x Hok Hn; (destruct n as [|n]; [cbn in Hn; lia|]).
  { unfold ids_added. rewrite app_nil_r. by destruct x. }
  apply Forall_cons in Hok as [[Hid Hne] Hok]. cbn [length] in Hn.
  rewrite fmap_cons. cbn [app load_used_node_ids]. unfold bind, lift. cbn [LoadUnsigned].
  destruct (Z.eqb_spec (u64 id) 0) as [E|_]; [by destruct (u64_nonzero _ Hid Hne)|].
  rewrite to_int_u64 by done. unfold modify. rewrite IH by (done || lia). do 2 f_equal. destruct x. unfold ids_added. cbn.
  by rewrite <- app_assoc.
Qed.

Lemma locked_entries_set (keys : gset (list Z)) : list_to_set (locked_entries keys) = keys.
Proof.
  apply leibniz_equiv. intros k. unfold locked_entries. rewrite elem_of_list_to_set, merge_sort_Permutation. apply elem_of_elements.
Qed.

Lemma locked_entries_length (keys : gset (list Z)) : length (locked_entries keys) = size keys.
Proof. unfold locked_entries. by rewrite merge_sort_Permutation. Qed.

Definition with_locked (keys : gset (list Z)) (s : S) : S :=
  s <| sv_node := mk_node (nd_rr (sv_node s)) keys (nd_db (sv_node s)) |>.

Lemma with_locked_empty keys (s : S) : nd_locked_keys (sv_node s) = ∅ ->
  with_locked (keys ∪ nd_locked_keys (sv_node s)) s = with_locked keys s.
Proof. intros ->. by rewrite union_empty_r_L. Qed.

Lemma load_keys_run rest keys : forall (s : S),
  load_locked_keys (length keys) ((RdbString <$> keys) ++ rest) s =
    Done (rest, with_locked (list_to_set keys ∪ nd_locked_keys (sv_node s)) s).
Proof.
  induction keys as [|k keys IH]; intros s.
  { cbn [length load_locked_keys fmap list_fmap app list_to_set]. rewrite union_empty_l_L. by destruct s as [[]]. }
  rewrite fmap_cons. cbn [app length load_locked_keys]. unfold bind, lift. cbn [LoadStringBuffer]. unfold modify.
  assert (list_to_set (k :: keys) ∪ nd_locked_keys (sv_node s) =
    list_to_set keys ∪ ({[k]} ∪ nd_locked_keys (sv_node s))) as -> by set_solver.
  rewrite IH. by destruct s as [[]].
Qed.

Lemma locked_load_run rest keys (s : S) :
  lockedKeysRDBLoad (lockedKeysRDBSave keys ++ rest) s = Done (rest, with_locked keys s).
Proof.
  unfold lockedKeysRDBLoad, lockedKeysRDBSave, bind, lift. cbn [app LoadUnsigned]. unfold modify.
  rewrite Nat2Z.id, <- locked_entries_length, load_keys_run, locked_entries_set.
  rewrite with_locked_empty by done. by destruct s as [[]].
Qed.

(** Sessions that no client of this server has. *)
Definition foreign (ids : gset Z) : gmap Z bool := gset_to_gmap false ids.

Definition with_sessions (d : gmap Z bool) (s : S) : S := s <| sv_sessions := d |>.

Lemma foreign_cons id ids : foreign (list_to_set (id :: ids)) = <[id := false]> (foreign (list_to_set ids)).
Proof.
  apply map_eq. intros i. unfold foreign. rewrite lookup_insert, !lookup_gset_to_gmap, list_to_set_cons. case_decide as Hi.
  - subst i. by rewrite option_guard_True by set_solver.
  - apply option_guard_iff. set_solver.
Qed.

Lemma load_sessions_step rest ids : Forall (fun id => 0 <= id < 2 ^ 64) ids -> forall (s : S),
  load_sessions (length ids) (((fun id => RdbUnsigned (u64 id)) <$> ids) ++ rest) s =
    Done (rest, with_sessions (foldl (fun d id => <[id := false]> d) (sv_sessions s) ids) s).
Proof.
  induction 1 as [|id ids Hid _ IH]; intros s; [by destruct s|].
  rewrite fmap_cons. cbn [app length load_sessions]. unfold bind, lift. cbn [LoadUnsigned]. unfold modify.
  rewrite IH, u64_id by done. by destruct s.
Qed.

Lemma foreign_foldl ids : forall d : gset Z,
  foldl (fun d id => <[id := false]> d) (foreign d) ids = foreign (list_to_set ids ∪ d).
Proof.
  induction ids as [|id ids IH]; intros d; cbn [foldl].
  { by rewrite list_to_set_nil, union_empty_l_L. }
  assert (<[id := false]> (foreign d) = foreign ({[id]} ∪ d)) as ->.
  { apply map_eq. intros i. unfold foreign. rewrite lookup_insert, !lookup_gset_to_gmap. case_decide as Hi.
    - subst i. by rewrite option_guard_True by set_solver.
    - apply option_guard_iff. set_solver. }
  rewrite IH. f_equal. set_solver.
Qed.

Lemma session_ids (d : gmap Z bool) : list_to_set (fst <$> session_entries d) = dom d /\
  length (fst <$> session_entries d) = size d.
Proof.
  unfold session_entries. split.
  - rewrite merge_sort_Permutation. apply leibniz_equiv. intros i. rewrite elem_of_list_to_set, elem_of_dom, list_elem_of_fmap. split.
    + intros ([j b] & -> & Hj%elem_of_map_to_list). by eexists.
    + intros [b Hb]. exists (i, b). split; [done|]. by apply elem_of_map_to_list.
  - rewrite length_fmap, merge_sort_Permutation. apply length_map_to_list.
Qed.

(** Clients of this server that have a session are closed. *)
Lemma clear_sessions_run (s : S) : exists t, clearClientSessions s = Done (tt, t <| sv_sessions := ∅ |>) /\ local s t.
Proof.
  unfold clearClientSessions. rewrite (bind_done_eq get _ s s s) by done.
  assert (exists t, for_each (session_entries (sv_sessions s)) (fun e : Z * bool => when (snd e) (emit (EvClose (fst e)))) s
    = Done (tt, t)) as [t E].
  { generalize (session_entries (sv_sessions s)). intros l. generalize s. induction l as [|[i b] l IH]; intros s'.
    - by exists s'.
    - cbn [for_each]. destruct b; cbn; apply IH. }
  rewrite (bind_done_eq _ _ _ _ _ E). exists t. split; [done|]. by apply local_close in E.
Qed.

Lemma sessions_load_run rest d (s : S) : (forall id, id ∈ dom d -> 0 <= id < 2 ^ 64) ->
  exists t, clientSessionRDBLoad (clientSessionRDBSave d ++ rest) s = Done (rest, with_sessions (foreign (dom d)) t) /\ local s t.
Proof.
  intros Hd. destruct (clear_sessions_run s) as (t & E & Hl). exists t. split; [|done].
  destruct (session_ids d) as [Hs Hn].
  unfold clientSessionRDBLoad, clientSessionRDBSave, bind at 1, lift. cbn [app LoadUnsigned].
  assert ((fun e : Z * bool => RdbUnsigned (u64 (fst e))) <$> session_entries d =
    (fun id => RdbUnsigned (u64 id)) <$> (fst <$> session_entries d)) as -> by (by rewrite <- list_fmap_compose).
  rewrite (bind_done_eq _ _ _ _ _ E), Nat2Z.id, <- Hn.
  rewrite load_sessions_step.
  - assert (sv_sessions (t <| sv_sessions := ∅ |>) = foreign ∅) as -> by (symmetry; apply gset_to_gmap_empty).
    rewrite foreign_foldl, Hs, union_empty_r_L. by destruct t.
  - apply Forall_forall. intros id Hid. apply Hd. rewrite <- Hs. by apply elem_of_list_to_set.
Qed.

End Load.

(** ** Blocking commands *)

Lemma prefix_letter c n name rest x : lower (bytes_of n) = c :: rest -> has_prefix n name = true ->
  head name = Some x -> tolower x = c.
Proof.
  intros Hn Hp Hx. destruct name as [|y name]; [done|]. injection Hx as ->.
  apply bool_decide_eq_true in Hp. rewrite Hn in Hp. unfold c_string in Hp. destruct (String.length n); [done|].
  cbn in Hp. destruct (x =? 0) eqn:E; cbn in Hp; congruence.
Qed.

Lemma cmd_letter c n name rest x : lower (bytes_of n) = c :: rest -> is_cmd n name = true -> head name = Some x -> tolower x = c.
Proof.
  intros Hn [_ Hp%bool_decide_eq_true]%andb_true_iff Hx. rewrite Hn in Hp.
  destruct name as [|y name]; [done|]. injection Hx as ->. cbn in Hp. congruence.
Qed.

Lemma timeout_letter name args i : findTimeoutIndex (name :: args) = Done i -> i <> -1 -> exists x, head name = Some x /\ tolower x = 98.
Proof.
  unfold findTimeoutIndex. intros Hi Hne. destruct name as [|x name].
  { exfalso. vm_compute in Hi. congruence. }
  exists x. split; [done|].
  assert (forall n rest, lower (bytes_of n) = 98 :: rest -> has_prefix n (x :: name) = true -> tolower x = 98) as Hp.
  { intros n rest Hn Hp. by eapply prefix_letter. }
  revert Hi. case_match eqn:E1; [intros _|case_match eqn:E2; [intros _|congruence]].
  - repeat (apply orb_true_iff in E1 as [E1|E1]); (eapply Hp; [|exact E1]; vm_compute; reflexivity).
  - apply orb_true_iff in E2 as [E2|E2]; (eapply Hp; [|exact E2]; vm_compute; reflexivity).
Qed.

(** No blocking command begins a transaction, watches keys or runs a script. *)
Lemma timeout_names name args i : findTimeoutIndex (name :: args) = Done i -> i <> -1 ->
  is_cmd "MULTI" name = false /\ is_cmd "watch" name = false /\ is_eval name = false.
Proof.
  intros Hi Hne. destruct (timeout_letter name args i Hi Hne) as (x & Hx & Hb).
  assert (forall n c rest, lower (bytes_of n) = c :: rest -> c <> 98 -> is_cmd n name = false) as Hn.
  { intros n c rest Hl Hc. apply not_true_is_false. intros Hcmd. pose proof (cmd_letter c n name rest x Hl Hcmd Hx). congruence. }
  unfold is_eval. rewrite !orb_false_iff. split_and!; (eapply Hn; [vm_compute; reflexivity|done]).
Qed.

(** Replacing the timeout changes one argument behind the name. *)
Lemma replace_timeout_inv cs cs' : replaceBlockingTimeout cs = Done cs' ->
  exists name args args' i, cs = [name :: args] /\ cs' = [name :: args'] /\
    findTimeoutIndex (name :: args) = Done i /\ findTimeoutIndex (name :: args') = Done i /\ i <> -1.
Proof.
  unfold replaceBlockingTimeout. destruct cs as [|c [|]]; [done| |done]. destruct (Z.ltb_spec (Z.of_nat (length c)) 2) as [|Hlen]; [done|].
  destruct (findTimeoutIndex c) as [i| |] eqn:Ei; [|done..]. destruct (zinsert i _ c) as [c'|] eqn:Ez; [|done]. intros [= <-].
  destruct c as [|name args]; [done|].
  assert (0 < i) as Hi.
  { assert (0 <= i) by (unfold zinsert in Ez; case_match; [lia|done]). unfold findTimeoutIndex in Ei.
    cbn [length] in *. repeat case_match; injection Ei as <-; lia. }
  unfold zinsert in Ez. case_match; [|done]. injection Ez as <-.
  assert (exists n, Z.to_nat i = S n) as [n Hn] by (exists (Nat.pred (Z.to_nat i)); lia). rewrite Hn. cbn [insert list_insert].
  exists name, args, (<[n := bytes_of "0"]> args), i. split_and!; try done; [|lia].
  unfold findTimeoutIndex in *. cbn [length] in *. by rewrite length_insert.
Qed.

(** What Redis documents of an empty database: ending a wait adds no keys; and a
    command with a timeout that has waited, for lack of elements, waits on an empty
    database too. *)
Class EmptyDatabase (D R : Type) `{RedisLaws D R} := {
  is_empty : D -> Prop;
  empty_abort d p d' : is_empty d -> PromiseAbort d p = Some d' -> is_empty d';
  empty_wait d d' e c p i : Call d c = (d', inr p) -> findTimeoutIndex (rc_argv c) = Done i -> i <> -1 -> is_empty e ->
    exists e' q, Call e c = (e', inr q) /\ is_empty e'
}.

Section Restore.
Context {D R : Type} `{EmptyDatabase D R}.

#[local] Abbreviation S := (module_state D R).
#[local] Abbreviation Srv := (M S).
#[local] Abbreviation X := (snapshot_state D R).

(** The call that [RaftExecuteCommandArray] makes for one command. *)
Definition call_of (a : RaftRedisCommandArray) (c : list (list Z)) : rm_call :=
  mk_call (ra_acl a) (negb (has_flag CMD_SPEC_MULTI (ra_cmd_flags a))) false c.

(** The entry of a blocked command holds the commands [a], of which Redis has made
    one wait. *)
Record waited (bc : BlockedCommand) (a : RaftRedisCommandArray) : Prop := {
  wt_data : RaftRedisCommandArrayDeserialize (bc_data bc) (cmds_zero <| ra_client_id := bc_session bc |>) = Done (RR_OK, a);
  wt_flag : has_flag CMD_SPEC_BLOCKING (ra_cmd_flags a) = true;
  wt_name : c_string <$> first_name a = Some (bc_command bc);
  wt_call : exists c d d' p, replaceBlockingTimeout (ra_commands a) = Done [c] /\ Call d (call_of a c) = (d', inr p)
}.

(** What executing a waiting command again does not touch. *)
Record kept (s s' : S) : Prop := {
  kp_rr : nd_rr (sv_node s') = nd_rr (sv_node s);
  kp_locked : nd_locked_keys (sv_node s') = nd_locked_keys (sv_node s);
  kp_eval : sv_entered_eval s' = sv_entered_eval s;
  kp_sessions : sv_sessions s' = sv_sessions s;
  kp_term : sv_applied_term s' = sv_applied_term s;
  kp_idx : sv_applied_idx s' = sv_applied_idx s
}.

#[export] Instance kept_preorder : PreOrder kept.
Proof. split; [by intros s|]. intros s1 s2 s3 [] []. split; congruence. Qed.

Lemma acl_user_run (acl : option (list Z)) (s : S) :
  exists t, (match acl with Some acl => RaftGetACLUser acl | None => ret tt end) s = Done (tt, t) /\ local s t.
Proof.
  destruct acl as [acl|]; [|by exists s]. unfold RaftGetACLUser. rewrite (bind_done_eq get _ s s s) by done.
  destruct (sv_acl_dict s !! acl); [by exists s|]. eexists. by split.
Qed.

Definition with_db (d : D) (s : S) : S := s <| sv_node := mk_node (nd_rr (sv_node s)) (nd_locked_keys (sv_node s)) d |>.

Lemma ok_waits c (s : S) d q : ok_with None s -> Call (nd_db (sv_node s)) c = (d, inr q) -> ok_with (Some q) (with_db d s).
Proof.
  intros [W B P N U Ha] Ec. apply call_promise in Ec as [Hf Ec].
  split; try done; cbn.
  - intros p. change (nd_db (sv_node (with_db d s))) with d. change (promises (with_db d s)) with (promises s).
    rewrite Ec, elem_of_union, elem_of_singleton, P. naive_solver.
  - intros p [= <-] Hin. apply Hf, P. by right.
Qed.

(** The command is executed again, and Redis makes it wait again. *)
Lemma execute_again bc a (s : S) : ok_with None s -> is_empty (nd_db (sv_node s)) -> sv_entered_eval s = false ->
  waited bc a -> node_decision (sv_node s) a = RR_OK ->
  exists t q a', RaftExecuteCommandArray None a s = Done ((Some q, a'), t) /\ first_name a' = first_name a /\
    ok_with (Some q) t /\ is_empty (nd_db (sv_node t)) /\ kept s t /\ sv_blocked t = sv_blocked s.
Proof.
  intros O He Hv [_ Hflag _ (c & d & d' & p & Hr & Hcall)] Hd.
  destruct (replace_timeout_inv _ _ Hr) as (name & args & args' & i & Ea & Ec & Hi & Hi' & Hne). injection Ec as ->.
  destruct (timeout_names name args i Hi Hne) as (Hmulti & Hwatch & Heval).
  destruct (acl_user_run (ra_acl a) s) as (s1 & E1 & L1). pose proof (ok_local _ _ _ L1 O) as O1. pose proof L1 as [Ln Le Ls Lb Lh Lt Lx].
  rewrite <- Ln in He, Hd. rewrite <- Le in Hv.
  destruct (empty_wait _ _ (nd_db (sv_node s1)) _ _ _ Hcall Hi' Hne He) as (e' & q & Eq & He').
  unfold RaftExecuteCommandArray. rewrite (bind_done_eq _ _ _ _ _ E1).
  pose proof (proj1 (handle_sharding_run (sv_node s1) a (ok_wf _ _ O1))) as Es. rewrite Hd in Es.
  rewrite (bind_done_eq _ _ _ _ _ (on_node_same _ s1 _ Es)). cbv beta iota. cbn [negb Z.eqb RR_OK].
  rewrite (bind_done_eq (ret tt) _ s1 tt s1) by done.
  assert (getClientSession a (has_req None) s1 = Done (tt, s1)) as E2.
  { unfold getClientSession. rewrite (bind_done_eq get _ s1 s1 s1) by done. destruct (sv_sessions s1 !! _); [done|].
    by rewrite Ea, Hwatch. }
  rewrite (bind_done_eq _ _ _ _ _ E2), Hflag, Hr. set (a' := a <| ra_commands := [name :: args'] |>).
  rewrite (bind_done_eq (cs <- lift (Done [name :: args']) ;; ret (a <| ra_commands := cs |>)) _ s1 a' s1) by done.
  exists (with_db e' s1), q, a'.
  assert (exec_command None a' (name :: args') s1 = Done (Some q, with_db e' s1)) as E3.
  { unfold exec_command. rewrite bind_gets, Heval. cbn [when]. rewrite (bind_done_eq (ret tt) _ s1 tt s1), bind_gets by done.
    rewrite Hv. unfold redis_call. rewrite bind_assoc, (bind_done_eq get _ s1 s1 s1) by done.
    change (mk_call (ra_acl a') _ false (name :: args')) with (call_of a (name :: args')). rewrite Eq.
    unfold bind, modify, ret, c_assert. cbn. do 2 f_equal. destruct s1 as [[]]. cbn in Hv. by subst. }
  split_and!.
  - change (ra_commands a') with [name :: args']. cbn [exec_commands Nat.eqb andb]. rewrite Hmulti.
    rewrite (bind_done_eq _ _ _ _ _ (eq_trans (bind_done_eq _ _ _ _ _ E3) eq_refl)). done.
  - unfold first_name. by rewrite Ea.
  - by eapply ok_waits.
  - done.
  - split; cbn; by rewrite ?Ln.
  - done.
Qed.

(** A blocked command, without its client and its promise. *)
Definition bc_saved (bc : BlockedCommand) : list Z * Z * Z * list Z := (bc_command bc, bc_idx bc, bc_session bc, bc_data bc).

Record resumed (s t : S) (bcs : list BlockedCommand) : Prop := {
  rs_ok : ok_with None t;
  rs_empty : is_empty (nd_db (sv_node t));
  rs_kept : kept s t;
  rs_clientless : clientless s -> clientless t;
  rs_contents : bc_saved <$> contents (sv_blocked t) = (bc_saved <$> contents (sv_blocked s)) ++ (bc_saved <$> bcs)
}.

Lemma load_command_run bc a (s : S) : ok_with None s -> is_empty (nd_db (sv_node s)) -> sv_entered_eval s = false ->
  waited bc a -> node_decision (sv_node s) a = RR_OK -> unblocked_idx (bc_idx bc) s ->
  exists t, load_blocked_command (bc_idx bc) (bc_session bc) (bc_data bc) s = Done (tt, t) /\ resumed s t [bc].
Proof.
  intros O He Hv Hw Hd Hf. destruct (execute_again bc a s O He Hv Hw Hd) as (t & q & a' & E & Hn & Oq & Het & Hk & Hb).
  pose proof (wt_name _ _ Hw) as Hname. destruct (first_name a) as [name|] eqn:Ea; [|done]. injection Hname as Hname.
  assert (unblocked_idx (bc_idx bc) t) as Hft by (unfold unblocked_idx; by rewrite Hb).
  destruct (add_waiting_run name (bc_idx bc) (bc_session bc) (bc_data bc) None q t Oq Hft) as (Ew & Ow & Cw).
  eexists. split.
  - unfold load_blocked_command. rewrite (bind_done_eq _ _ _ _ _ (lift_done s (wt_data _ _ Hw))). cbn [Z.eqb RR_OK].
    rewrite (bind_done_eq (c_assert true) _ s tt s) by done. rewrite (bind_done_eq _ _ _ _ _ E), Hn. exact Ew.
  - split; [exact Ow|exact Het| | |].
    + transitivity t; [exact Hk|]. by split.
    + intros Hc bc'. rewrite Cw, Hb, elem_of_app, list_elem_of_singleton. intros [Hin| ->]; [by apply Hc|done].
    + assert (bc_saved (new_bc name (bc_idx bc) (bc_session bc) (bc_data bc) None q) = bc_saved bc) as Hs.
      { unfold bc_saved, new_bc. cbn. by rewrite Hname. }
      rewrite Cw, Hb, fmap_app. f_equal. exact (f_equal (fun x => [x]) Hs).
Qed.

Lemma decision_free G b k a : decision G b false a = RR_OK -> decision G b k a = RR_OK.
Proof.
  unfold decision. destruct (negb b); [done|]. destruct (HashSlotCompute a) as [slot|]; [|done]. destruct (slot =? -1); [done|].
  destruct (slot_owner _ _ _) as [g|]; [|done]. cbv zeta. destruct (_ || negb (sg_local g)); [done|].
  destruct (_ || _); [done|]. by destruct k.
Qed.

(** Redis has made the command wait, and the tables [r] let it be executed. *)
Definition resumable (r : RedisRaftCtx) (bc : BlockedCommand) : Prop :=
  exists a, waited bc a /\ decision (groups r) (si_is_sharding (rr_sharding_info r)) false a = RR_OK.

Record blocked_range (bc : BlockedCommand) : Prop := {
  br_idx : - 2 ^ 63 <= bc_idx bc < 2 ^ 63;
  br_session : 0 <= bc_session bc < 2 ^ 64
}.

Lemma resumed_trans s1 s2 s3 l1 l2 : resumed s1 s2 l1 -> resumed s2 s3 l2 -> resumed s1 s3 (l1 ++ l2).
Proof.
  intros [_ _ K1 C1 L1] [O2 E2 K2 C2 L2]. split; [done|done|by transitivity s2|auto|].
  by rewrite L2, L1, fmap_app, app_assoc.
Qed.

Lemma saved_idx (l1 l2 : list BlockedCommand) : bc_saved <$> l1 = bc_saved <$> l2 -> bc_idx <$> l1 = bc_idx <$> l2.
Proof.
  intros E. assert (forall l : list BlockedCommand, bc_idx <$> l = (fun x => x.1.1.2) <$> (bc_saved <$> l)) as Hx by (intros l; by rewrite <- list_fmap_compose).
  by rewrite !Hx, E.
Qed.

Lemma load_commands_run rest bcs : forall (s : S), ok_with None s -> is_empty (nd_db (sv_node s)) -> sv_entered_eval s = false ->
  Forall blocked_range bcs -> Forall (resumable (nd_rr (sv_node s))) bcs ->
  NoDup (bc_idx <$> contents (sv_blocked s) ++ bcs) ->
  exists t, load_blocked_commands (length bcs) (concat (save_blocked_command <$> bcs) ++ rest) s = Done (rest, t) /\ resumed s t bcs.
Proof.
  induction bcs as [|bc bcs IH]; intros s O He Hv Hrange Hres Hnd.
  { exists s. split; [done|]. split; [done..|by rewrite app_nil_r]. }
  apply Forall_cons in Hrange as [[Hi Hses] Hrange]. apply Forall_cons in Hres as [(a & Hw & Hd) Hres].
  assert (unblocked_idx (bc_idx bc) s) as Hf.
  { intros Hin. rewrite fmap_app in Hnd. apply NoDup_app in Hnd as (_ & Hn & _). apply (Hn _ Hin). by left. }
  destruct (load_command_run bc a s O He Hv Hw (decision_free _ _ _ _ Hd) Hf) as (t & E & Hr).
  pose proof Hr as [Ot Et Kt _ Ct].
  destruct (IH t Ot Et) as (u & Eu & Hu).
  - by rewrite (kp_eval _ _ Kt).
  - done.
  - by rewrite (kp_rr _ _ Kt).
  - rewrite fmap_app, (saved_idx (contents (sv_blocked t)) (contents (sv_blocked s) ++ [bc])).
    + by rewrite <- fmap_app, <- app_assoc.
    + by rewrite Ct, fmap_app.
  - exists u. split; [|by apply (resumed_trans s t u [bc] bcs)].
    rewrite fmap_cons. cbn [concat save_blocked_command app length load_blocked_commands]. unfold bind at 1 2 3, lift.
    cbn [LoadUnsigned LoadStringBuffer]. rewrite to_long_u64 by done. rewrite (bind_done_eq _ _ _ _ _ E). exact Eu.
Qed.

Lemma abort_all_empty ps : forall d, is_empty d -> is_empty (abort_all d ps).
Proof.
  induction ps as [|p ps IH]; intros d He; [done|]. unfold abort_all. cbn [foldl]. apply IH.
  destruct (PromiseAbort d p) as [d'|] eqn:E; [by eapply empty_abort|done].
Qed.

Lemma blocked_load_run rest bcs (s : S) : ok_with None s -> is_empty (nd_db (sv_node s)) -> sv_entered_eval s = false ->
  Forall blocked_range bcs -> Forall (resumable (nd_rr (sv_node s))) bcs -> NoDup (bc_idx <$> bcs) ->
  Z.of_nat (length bcs) < 2 ^ 31 ->
  exists t, blockedCommandsLoad (RdbUnsigned (u64 (to_int (Z.of_nat (length bcs)))) :: concat (save_blocked_command <$> bcs) ++ rest) s =
      Done (rest, t) /\
    ok_with None t /\ is_empty (nd_db (sv_node t)) /\ kept s t /\ clientless t /\ bc_saved <$> contents (sv_blocked t) = bc_saved <$> bcs.
Proof.
  intros O He Hv Hrange Hres Hnd Hlen. destruct (clear_run s O) as [Ec Oc].
  set (s1 := cleared (abort_all (nd_db (sv_node s)) (promises s)) s) in *.
  destruct (load_commands_run rest bcs s1 Oc) as (t & E & [Ot Et Kt Ct Lt]); [|done..|].
  { change (nd_db (sv_node s1)) with (abort_all (nd_db (sv_node s)) (promises s)). by apply abort_all_empty. }
  exists t. split_and!; [|done|done| | |].
  - unfold blockedCommandsLoad. rewrite (bind_done_eq _ _ _ _ _ Ec). unfold bind, lift. cbn [LoadUnsigned].
    replace (Z.to_nat (u64 (to_int (Z.of_nat (length bcs))))) with (length bcs); [exact E|].
    unfold to_int, u64. rewrite (Z.mod_small (_ + _)), Z.mod_small by lia. lia.
  - transitivity s1; [by split|done].
  - apply Ct. intros bc. by intros ?%elem_of_nil.
  - rewrite Lt. unfold s1. by rewrite cleared_contents.
Qed.

(** ** The whole *)

(** What the server that writes the snapshot is like: its table is one that the
    table's part of a snapshot can carry, no blocked command is ahead of the
    applied entries and each one could be executed now, and numbers fit their
    types. *)
Record snapshot_ready (x : X) : Prop := {
  sr_ok : ok_with None (ss_server x);
  sr_below : below (sv_applied_idx (ss_server x) + 1) (ss_server x);
  sr_savable : savable (nd_rr (sv_node (ss_server x)));
  sr_settled : settled (groups (nd_rr (sv_node (ss_server x))));
  sr_locals : locals_marked (rr_meta_dbid (nd_rr (sv_node (ss_server x)))) (groups (nd_rr (sv_node (ss_server x))));
  sr_flag : flag_ok (nd_rr (sv_node (ss_server x)));
  sr_dbid : let dbid := rr_snapshot_dbid (nd_rr (sv_node (ss_server x))) in c_string dbid = dbid /\ blen dbid <= RAFT_DBID_LEN;
  sr_term : - 2 ^ 63 <= sv_applied_term (ss_server x) < 2 ^ 63;
  sr_idx : - 2 ^ 63 <= sv_applied_idx (ss_server x) < 2 ^ 63;
  sr_sessions id : id ∈ dom (sv_sessions (ss_server x)) -> 0 <= id < 2 ^ 64;
  sr_cfg : Forall cfg_entry_ok (ss_cfg x);
  sr_ids : Forall node_id_ok (ss_used_node_ids x);
  sr_count : Z.of_nat (length (contents (sv_blocked (ss_server x)))) < 2 ^ 31;
  sr_range : Forall blocked_range (contents (sv_blocked (ss_server x)));
  sr_resumable : Forall (resumable (nd_rr (sv_node (ss_server x)))) (contents (sv_blocked (ss_server x)))
}.

(** The server [x'] has taken over what [x] has saved. *)
Record restored (x x' : X) : Prop := {
  rt_loaded : ss_loaded x' = true;
  rt_cfg : ss_cfg x' = ss_cfg x;
  rt_ids : ss_used_node_ids x' = ss_used_node_ids x;
  rt_dbid : rr_snapshot_dbid (nd_rr (sv_node (ss_server x'))) = rr_snapshot_dbid (nd_rr (sv_node (ss_server x)));
  rt_term : sv_applied_term (ss_server x') = sv_applied_term (ss_server x);
  rt_idx : sv_applied_idx (ss_server x') = sv_applied_idx (ss_server x);
  rt_groups : groups (nd_rr (sv_node (ss_server x'))) = groups (nd_rr (sv_node (ss_server x)));
  rt_sharding : si_is_sharding (rr_sharding_info (nd_rr (sv_node (ss_server x')))) =
    si_is_sharding (rr_sharding_info (nd_rr (sv_node (ss_server x))));
  rt_terms j : 0 <= j < REDIS_RAFT_HASH_SLOTS ->
    importing_term (rr_sharding_info (nd_rr (sv_node (ss_server x')))) j =
    importing_term (rr_sharding_info (nd_rr (sv_node (ss_server x)))) j;
  rt_locked : nd_locked_keys (sv_node (ss_server x')) = nd_locked_keys (sv_node (ss_server x));
  rt_sessions : sv_sessions (ss_server x') = foreign (dom (sv_sessions (ss_server x)));
  rt_blocked : bc_saved <$> contents (sv_blocked (ss_server x')) = bc_saved <$> contents (sv_blocked (ss_server x));
  rt_clientless : clientless (ss_server x')
}.

Lemma ok_same x (s t : S) : ok_with x s -> wf (nd_rr (sv_node t)) -> nd_db (sv_node t) = nd_db (sv_node s) ->
  sv_blocked t = sv_blocked s -> sv_handlers t = sv_handlers s -> ok_with x t.
Proof. intros [W B P N U Ha] Hw Hd Hb Hh. split; unfold promises in *; rewrite ?Hd, ?Hb, ?Hh; done. Qed.

(** The values behind the ids of nodes, and how they are read. *)
Definition table_values (s : S) : list rdb_value :=
  saved_values (nd_rr (sv_node s)) ++ lockedKeysRDBSave (nd_locked_keys (sv_node s)) ++ clientSessionRDBSave (sv_sessions s) ++
  RdbUnsigned (u64 (to_int (Z.of_nat (length (contents (sv_blocked s)))))) ::
  concat (save_blocked_command <$> contents (sv_blocked s)).

Definition load_tables (rdb : list rdb_value) : Srv (list rdb_value) :=
  rdb <- on_node (on_rr (ShardingInfoRDBLoad rdb)) ;;
  rdb <- lockedKeysRDBLoad rdb ;;
  rdb <- clientSessionRDBLoad rdb ;;
  blockedCommandsLoad rdb.

Lemma tables_run (s s0 : S) rest : ok_with None s ->
  savable (nd_rr (sv_node s)) -> settled (groups (nd_rr (sv_node s))) ->
  locals_marked (rr_meta_dbid (nd_rr (sv_node s))) (groups (nd_rr (sv_node s))) -> flag_ok (nd_rr (sv_node s)) ->
  (forall id, id ∈ dom (sv_sessions s) -> 0 <= id < 2 ^ 64) -> Z.of_nat (length (contents (sv_blocked s))) < 2 ^ 31 ->
  Forall blocked_range (contents (sv_blocked s)) -> Forall (resumable (nd_rr (sv_node s))) (contents (sv_blocked s)) ->
  ok_with None s0 -> is_empty (nd_db (sv_node s0)) -> sv_entered_eval s0 = false ->
  rr_meta_dbid (nd_rr (sv_node s0)) = rr_meta_dbid (nd_rr (sv_node s)) ->
  exists t r, load_tables (table_values s ++ rest) s0 = Done (rest, t) /\ ok_with None t /\ is_empty (nd_db (sv_node t)) /\
    clientless t /\ bc_saved <$> contents (sv_blocked t) = bc_saved <$> contents (sv_blocked s) /\
    nd_rr (sv_node t) = r /\ same_ids (nd_rr (sv_node s0)) r /\ groups r = groups (nd_rr (sv_node s)) /\ flag_ok r /\
    (forall j, 0 <= j < REDIS_RAFT_HASH_SLOTS ->
       importing_term (rr_sharding_info r) j = importing_term (rr_sharding_info (nd_rr (sv_node s))) j) /\
    nd_locked_keys (sv_node t) = nd_locked_keys (sv_node s) /\ sv_sessions t = foreign (dom (sv_sessions s)) /\
    sv_applied_term t = sv_applied_term s0 /\ sv_applied_idx t = sv_applied_idx s0.
Proof.
  intros O Hsv Hset Hloc Hflag Hses Hlen Hrange Hres O0 He Hv Hmeta.
  unfold load_tables, table_values. rewrite <- !app_assoc.
  set (v3 := (RdbUnsigned _ :: concat _) ++ rest). set (v2 := clientSessionRDBSave _ ++ v3). set (v1 := lockedKeysRDBSave _ ++ v2).
  destruct (snapshot_load (nd_rr (sv_node s)) (nd_rr (sv_node s0)) v1 Hsv Hset Hloc (ok_wf _ _ O0) Hmeta) as (r & E1 & Wr & Gr & Fr & Tr).
  pose proof (same_ids_load _ _ _ _ E1) as Hids.
  set (s1 := s0 <| sv_node := mk_node r (nd_locked_keys (sv_node s0)) (nd_db (sv_node s0)) |>).
  assert (on_node (on_rr (ShardingInfoRDBLoad (saved_values (nd_rr (sv_node s)) ++ v1))) s0 = Done (v1, s1)) as E1'.
  { unfold on_node, on_rr, zoom. rewrite E1. done. }
  rewrite (bind_done_eq _ _ _ _ _ E1'). clear E1 E1'.
  unfold v1. rewrite (bind_done_eq _ _ _ _ _ (locked_load_run v2 _ s1)). set (s2 := with_locked _ s1). unfold v2.
  destruct (sessions_load_run v3 (sv_sessions s) s2 Hses) as (t & E2 & L2). rewrite (bind_done_eq _ _ _ _ _ E2).
  pose proof L2 as [Ln Le _ Lb Lh Lt Lx]. set (s3 := with_sessions _ t).
  assert (sv_node s3 = mk_node r (nd_locked_keys (sv_node s)) (nd_db (sv_node s0))) as N3 by exact Ln.
  assert (sv_entered_eval s3 = sv_entered_eval s0) as V3 by exact Le.
  assert (ok_with None s3) as O3 by (apply (ok_same _ s0); rewrite ?N3; done).
  assert (resumable (nd_rr (sv_node s)) = resumable r) as Er.
  { unfold resumable. rewrite Gr. unfold flag_ok in *. by rewrite Fr, Hflag, Gr. }
  destruct (blocked_load_run rest (contents (sv_blocked s)) s3) as (u & E3 & Ou & Eu & [K1 K2 _ K4 K5 K6] & Cu & Bu); try done.
  - by rewrite N3.
  - by rewrite V3.
  - assert (nd_rr (sv_node s3) = r) as R3 by (by rewrite N3). by rewrite R3, <- Er.
  - apply contents_keys, O.
  - exists u, r. split_and!; try done.
    + by rewrite K1, N3.
    + by rewrite K2, N3.
    + rewrite K5. exact Lt.
    + rewrite K6. exact Lx.
Qed.

Lemma on_tables rdb (x : X) rest t : load_tables rdb (ss_server x) = Done (rest, t) ->
  (rdb <- on_server (on_node (on_rr (ShardingInfoRDBLoad rdb))) ;;
   rdb <- on_server (lockedKeysRDBLoad rdb) ;;
   rdb <- on_server (clientSessionRDBLoad rdb) ;;
   rdb <- on_server (blockedCommandsLoad rdb) ;;
   modify (fun x => x <| ss_loaded := true |>) ;;
   ret rdb) x = Done (rest, mk_snapshot t true (ss_cfg x) (ss_used_node_ids x)).
Proof.
  intros (v1 & s1 & E1 & (v2 & s2 & E2 & (v3 & s3 & E3 & E4)%bind_done)%bind_done)%bind_done.
  rewrite (bind_done_eq _ _ _ _ _ (on_server_at _ x _ _ _ eq_refl E1)). set (x1 := x <| ss_server := s1 |>).
  rewrite (bind_done_eq _ _ _ _ _ (on_server_at _ x1 s1 _ _ eq_refl E2)). set (x2 := x1 <| ss_server := s2 |>).
  rewrite (bind_done_eq _ _ _ _ _ (on_server_at _ x2 s2 _ _ eq_refl E3)). set (x3 := x2 <| ss_server := s3 |>).
  rewrite (bind_done_eq _ _ _ _ _ (on_server_at _ x3 s3 _ _ eq_refl E4)).
  by destruct x.
Qed.

(** The server when everything in front of the tables has been read. *)
Definition head_server (s s0 : S) : S :=
  s0 <| sv_node := mk_node ((nd_rr (sv_node s0)) <| rr_snapshot_dbid := rr_snapshot_dbid (nd_rr (sv_node s)) |>)
                     (nd_locked_keys (sv_node s0)) (nd_db (sv_node s0)) |>
     <| sv_applied_term := sv_applied_term s |> <| sv_applied_idx := sv_applied_idx s |>.

Lemma concat_cfg_length cfg : (length cfg <= length (concat (save_cfg_entry <$> cfg)))%nat.
Proof. induction cfg as [|e cfg IH]; [done|]. rewrite fmap_cons. cbn. lia. Qed.

Lemma snapshot_load_run (x x0 : X) rest t : snapshot_ready x ->
  load_tables (table_values (ss_server x) ++ rest) (head_server (ss_server x) (ss_server x0)) = Done (rest, t) ->
  rdbLoadSnapshotInfo (snapshot_values x ++ rest) x0 = Done (rest, mk_snapshot t true (ss_cfg x) (ss_used_node_ids x)).
Proof.
  intros [_ _ _ _ _ _ [Hd Hlen] Ht Hi _ Hcfg Hids _ _ _] E.
  unfold rdbLoadSnapshotInfo, snapshot_values. cbv zeta. rewrite Hd.
  repeat (rewrite <- app_assoc || rewrite <- app_comm_cons || rewrite app_nil_l). unfold bind at 1, lift at 1. cbn [LoadStringBuffer].
  rewrite (proj2 (Z.leb_le _ _) Hlen). rewrite (bind_done_eq (c_assert true) _ x0 tt x0) by done.
  set (s0 := ss_server x0) in *.
  set (s1 := s0 <| sv_node := mk_node ((nd_rr (sv_node s0)) <| rr_snapshot_dbid := rr_snapshot_dbid (nd_rr (sv_node (ss_server x))) |>)
                     (nd_locked_keys (sv_node s0)) (nd_db (sv_node s0)) |>).
  rewrite (bind_done_eq (on_server (on_node _)) _ x0 tt (x0 <| ss_server := s1 |>)) by (by rewrite Hd; destruct x0 as [[[]]]).
  unfold bind at 1, lift at 1. cbn [LoadUnsigned]. rewrite to_long_u64 by done.
  set (s2 := s1 <| sv_applied_term := sv_applied_term (ss_server x) |>).
  rewrite (bind_done_eq (on_server _) _ _ tt (x0 <| ss_server := s2 |>)) by (by destruct x0).
  unfold bind at 1, lift at 1. cbn [LoadUnsigned]. rewrite to_long_u64 by done.
  set (s3 := head_server (ss_server x) s0).
  rewrite (bind_done_eq (on_server _) _ _ tt (x0 <| ss_server := s3 |>)) by (by destruct x0).
  rewrite bind_modify.
  erewrite bind_done_eq; [|apply (load_cfg_run _ (ss_cfg x) _ _ Hcfg); rewrite !length_app; pose proof (concat_cfg_length (ss_cfg x)); lia].
  rewrite bind_modify.
  erewrite bind_done_eq; [|apply (load_ids_run _ (ss_used_node_ids x) _ _ Hids); rewrite !length_app, length_fmap; lia].
  rewrite (on_tables _ _ rest t); [by destruct x, x0|]. unfold table_values in E. rewrite <- !app_assoc, <- app_comm_cons in E. exact E.
Qed.

(** (roundtrip). A snapshot restores the server: what a server writes in front
    of the data of an RDB file, another server of the cluster reads back, whatever
    it had before, once Redis has emptied its database for the load: the id of the
    database, the entry that was applied last, the configuration with addresses,
    the ids that nodes have had, the table of shard groups, the locked keys, the
    sessions (none of them of its own clients), and the blocked commands in their
    order, each of which waits again under a promise of this server. *)
Theorem snapshot_restores_server (x : X) :
  snapshot_ready x ->
  exists rdb, rdbSaveSnapshotInfo x = Done (rdb, x) /\
    forall x0 rest, ok_with None (ss_server x0) -> is_empty (nd_db (sv_node (ss_server x0))) ->
      sv_entered_eval (ss_server x0) = false ->
      rr_meta_dbid (nd_rr (sv_node (ss_server x0))) = rr_meta_dbid (nd_rr (sv_node (ss_server x))) ->
      exists x', rdbLoadSnapshotInfo (rdb ++ rest) x0 = Done (rest, x') /\ restored x x' /\
        ok_with None (ss_server x') /\ is_empty (nd_db (sv_node (ss_server x'))).
Proof.
  intros Hx. pose proof Hx as [O Hb Hsv Hset Hloc Hflag Hd Ht Hi Hses Hcfg Hids Hn Hrange Hres].
  exists (snapshot_values x). split; [apply snapshot_save_run; [done|apply O|done]|]. intros x0 rest O0 He Hv Hmeta.
  set (s0 := head_server (ss_server x) (ss_server x0)).
  assert (ok_with None s0) as Oh.
  { apply (ok_same _ (ss_server x0)); try done. destruct O0 as [[] _ _ _ _ _]. by split. }
  destruct (tables_run (ss_server x) s0 rest O Hsv Hset Hloc Hflag Hses Hn Hrange Hres Oh He Hv Hmeta)
    as (t & r & E & Ot & Et & Ct & Bt & Er & [_ Hdb] & Gr & Fr & Tr & Lt & St & Tt & It).
  exists (mk_snapshot t true (ss_cfg x) (ss_used_node_ids x)). split; [by apply snapshot_load_run|].
  split; [|by split]. split; cbn; rewrite ?Er; try done. unfold flag_ok in *. by rewrite Fr, Hflag, Gr.
Qed.
End Restore.

(** ** The chunks of a file

    What a leader sends while its peer takes everything: the Raft library asks for
    the chunk behind the last one until there is none. *)
Fixpoint chunks (fuel : nat) (max_size : Z) (file : list Z) (offset : Z) : outcome (list raft_snapshot_chunk) :=
  match fuel with
  | O => OutOfFuel
  | Datatypes.S fuel' =>
      match raftGetSnapshotChunk true 0 1 max_size file offset with
      | Done (e, chunk) =>
          if e =? 0 then
            match chunks fuel' max_size file (offset + chunk_len chunk) with
            | Done cs => Done (chunk :: cs)
            | o => o
            end
          else Done []
      | Abort => Abort
      | OutOfFuel => OutOfFuel
      end
  end.

(** (functional). The chunks of a file, in their order, are the file; every one says
    where it is and how long, none is longer than the maximum, and exactly the last
    one says that it is. *)
Theorem chunks_are_file (max_size : Z) (file : list Z) : 0 < max_size -> forall fuel offset,
  0 <= offset <= blen file -> (length file - Z.to_nat offset < fuel)%nat ->
  exists cs, chunks fuel max_size file offset = Done cs /\
    concat (chunk_data <$> cs) = drop (Z.to_nat offset) file /\
    Forall (fun c => chunk_len c = blen (chunk_data c) /\ 0 < chunk_len c <= max_size) cs /\
    forall i c, cs !! i = Some c ->
      chunk_offset c = offset + blen (concat (chunk_data <$> take i cs)) /\
      chunk_last c = bool_decide (Datatypes.S i = length cs).
Proof.
  intros Hmax. induction fuel as [|fuel IH]; intros offset Hoff Hf; [lia|]. unfold blen in Hoff. cbn [chunks].
  unfold raftGetSnapshotChunk, blen. cbn [negb orb]. change (1 <=? 0) with false. cbn match.
  rewrite (proj2 (Z.ltb_ge _ _)) by lia. set (left := Z.of_nat (length file) - offset).
  destruct (Z.eqb_spec (Z.min max_size left) 0) as [Hz|Hnz].
  { change (RAFT_ERR_DONE =? 0) with false. cbn match. exists []. split; [done|].
    rewrite drop_ge by lia. split_and!; [done|constructor|done]. }
  set (len := Z.min max_size left) in *. change (0 =? 0) with true. cbn match. cbn [chunk_len].
  set (c := mk_chunk offset (take (Z.to_nat len) (drop (Z.to_nat offset) file)) len (offset + len =? Z.of_nat (length file))).
  assert (length (chunk_data c) = Z.to_nat len) as Hlc.
  { unfold c. cbn. rewrite length_take, length_drop. lia. }
  destruct (IH (offset + len)) as (cs & -> & Hc & Hall & Hi); [unfold blen; lia|lia|].
  exists (c :: cs). split; [done|]. split; [|split].
  - cbn [fmap list_fmap concat]. rewrite Hc, Z2Nat.inj_add by lia. unfold c. cbn [chunk_data].
    by rewrite <- drop_drop, take_drop.
  - constructor; [|done]. unfold blen. rewrite Hlc. unfold c. cbn [chunk_len]. lia.
  - assert (cs = [] <-> offset + len = Z.of_nat (length file)) as Hend.
    { split.
      - intros ->. cbn in Hc. symmetry in Hc. apply (f_equal length) in Hc. rewrite length_drop in Hc. cbn in Hc. lia.
      - intros E. destruct cs as [|c' cs]; [done|]. exfalso. apply (f_equal length) in Hc.
        apply Forall_cons in Hall as [[Hl ?] _]. unfold blen in Hl. cbn in Hc. rewrite length_app, length_drop in Hc. lia. }
    intros [|i] c' Hc'.
    + injection Hc' as <-. split; [unfold blen; cbn; lia|]. unfold c. cbn [chunk_last length].
      destruct (Z.eqb_spec (offset + len) (Z.of_nat (length file))) as [E|E]; symmetry.
      * apply bool_decide_eq_true_2. by rewrite (proj2 Hend E).
      * apply bool_decide_eq_false_2. intros Hl. apply E, Hend. by destruct cs.
    + destruct (Hi i c' Hc') as [Ho Hl]. split.
      * rewrite Ho. cbn [take fmap list_fmap concat]. unfold blen. rewrite length_app, Hlc. lia.
      * rewrite Hl. cbn [length]. apply bool_decide_ext. lia.
Qed.

(** ** On the servers of the demo

    The leader has a client that waits for an element of a list; its snapshot is
    loaded by a server that has nothing. *)

#[export] Instance lists_empty : EmptyDatabase lists list_reply.
Proof.
  refine {| is_empty d := forall k, elements d k = [] |}.
  - intros d p d' He Ha k. unfold PromiseAbort, lists_server, list_abort in Ha. case_bool_decide; [|done]. injection Ha as <-. apply He.
  - intros d d' e c p i Hc _ _ He. unfold Call, lists_server, list_call in *.
    assert (forall k, pop e k = None) as Hp by (intros k; unfold pop; by rewrite He).
    destruct (rc_argv c) as [|cmd [|k [|v [|]]]]; try done.
    + destruct (is_cmd "LPOP" cmd); [|done]. by destruct (pop d k) as [[]|].
    + destruct (is_cmd "LPUSH" cmd); [done|]. destruct (is_cmd "BLPOP" cmd); [|done]. rewrite Hp.
      destruct (pop d k) as [[]|]; [done|]. destruct (rc_may_block c); [|done]. by eexists _, _.
Defined.

Definition saved_server : snapshot_state lists list_reply :=
  mk_snapshot leader_blocked false [mk_cfg_entry 1 1 (mk_NodeAddr 5001 (bytes_of "a")); mk_cfg_entry 2 0 (mk_NodeAddr 5002 (bytes_of "b"))] [2; 1].

Definition empty_server : snapshot_state lists list_reply := mk_snapshot demo_server false [] [].

Lemma leader_blocked_ok : ok_with None leader_blocked.
Proof.
  destruct (run_followed 2 [Applied 5 (entry blpop)] demo_leader leader_blocked) with (i := 5) (s2 := demo_server)
    as (s2 & _ & [O _ _ _]); [| | | | |exact O].
  - apply (run_apply 5 (entry blpop) (mk_view 1 true 1) (Some 1) tt _ _ leader_blocked); [|by vm_compute|by vm_compute|apply run_end].
    intros p q [= <-] E. exists (mk_array 7 false 1 (ra_cmd_flags blpop) (ra_commands blpop) None). split; [by vm_compute|].
    injection E as <-. by repeat split.
  - split; [by apply demo_ok|by apply demo_ok|by intros bc ?%elem_of_nil|by split].
  - by intros bc ?%elem_of_nil.
  - by vm_compute.
  - apply Forall_cons; split; [by intros [=]|constructor].
Qed.

Definition waiting_blpop : BlockedCommand := new_bc (bytes_of "BLPOP") 5 7 (ety_data (entry blpop)) (Some 1) 1.

Lemma saved_blocked : contents (sv_blocked (ss_server saved_server)) = [waiting_blpop].
Proof. by vm_compute. Qed.

Lemma blpop_resumable : resumable demo_rr waiting_blpop.
Proof.
  eexists. split.
  - split.
    + vm_compute. reflexivity.
    + by vm_compute.
    + by vm_compute.
    + eexists _, (mk_lists ∅ []), _, _. split; vm_compute; reflexivity.
  - by vm_compute.
Qed.

Lemma saved_server_ready : snapshot_ready saved_server.
Proof.
  assert (nd_rr (sv_node (ss_server saved_server)) = demo_rr) as Er by (by vm_compute).
  split; rewrite ?Er, ?saved_blocked.
  - apply leader_blocked_ok.
  - intros bc. rewrite saved_blocked, list_elem_of_singleton. intros ->. by vm_compute.
  - apply demo_rr_savable.
  - done.
  - done.
  - done.
  - by vm_compute.
  - by vm_compute.
  - by vm_compute.
  - assert (sv_sessions (ss_server saved_server) = ∅) as -> by (by vm_compute). rewrite dom_empty_L. by intros id ?%elem_of_empty.
  - by repeat constructor.
  - by repeat constructor.
  - by vm_compute.
  - repeat constructor; by vm_compute.
  - constructor; [apply blpop_resumable|constructor].
Qed.

Lemma snapshot_restores_server_witness :
  exists rdb x', rdbSaveSnapshotInfo saved_server = Done (rdb, saved_server) /\
    rdbLoadSnapshotInfo rdb empty_server = Done ([], x') /\ restored saved_server x'.
Proof.
  destruct (snapshot_restores_server saved_server saved_server_ready) as (rdb & Es & Hl).
  assert (ok_with None demo_server) as O by (by apply demo_ok).
  assert (rr_meta_dbid (nd_rr (sv_node demo_server)) = rr_meta_dbid (nd_rr (sv_node leader_blocked))) as Em by (vm_compute; reflexivity).
  destruct (Hl empty_server [] O (fun k => eq_refl) eq_refl Em) as (x' & El & Hr & _).
  rewrite app_nil_r in El. exists rdb, x'. split; [exact Es|]. split; [exact El|exact Hr].
Defined.

(** A follower stores the chunks of a file of ten bytes, the second of them twice;
    and with a kernel that writes only two bytes of the first, which is an error
    until it is sent again. *)
Definition demo_file : list Z := [82; 69; 68; 73; 83; 48; 0; 255; 7; 9].

Fixpoint store_chunks (cs : list raft_snapshot_chunk) : M incoming (list Z) :=
  match cs with
  | [] => ret []
  | c :: cs' =>
      e <- raftStoreSnapshotChunk (bytes_of "in.rdb") 17 (chunk_offset c) c ;;
      es <- store_chunks cs' ;;
      ret (e :: es)
  end.

Definition stored (plan : list Z) (cs : list raft_snapshot_chunk) : option (list Z * option (list Z)) :=
  match store_chunks cs (mk_incoming 0 (os_empty plan)) with
  | Done (rets, w) => Some (rets, match os_names (in_os w) !! bytes_of "in.rdb" with
                                  | Some i => os_inodes (in_os w) !! i
                                  | None => None
                                  end)
  | _ => None
  end.

Example chunks_stored :
  match chunks 10 4 demo_file 0 with
  | Done [c1; c2; c3] =>
      chunk_last c3 = true /\ stored [] [c1; c2; c2; c3] = Some ([0; 0; 0; 0], Some demo_file) /\
      stored [0; 0; 2] [c1; c1; c2; c3] = Some ([-1; 0; 0; 0], Some demo_file)
  | _ => False
  end.
Proof. by vm_compute. Qed.
