(* ===== verification/Client.v ===== *)
(** * Commands of clients ([redisraft.c], [multi.c], [common.c], [proxy.c])

    What a server does with the command of a client before it becomes an entry:
    transactions are packed, some commands have an implementation of their own,
    the others are checked and appended, or sent to the leader. *)

From stdpp Require Import base list numbers tactics gmap strings.
From S2P Require Import Prelude RaftTypes RaftServer Libc File Multibulk Serialization NodeAddr ShardGroup Sharding ShardRouting.
From S2P Require Import Commands Blocked Server.

Local Open Scope Z_scope.

(** ** The Raft server, as the module uses it

    [Recv] is [raft_recv_entry] and [RecvRead] [raft_recv_read_request]: 0 or an
    error.  [LeaderAddr] is the address of the leader's node, [LeaderConnected]
    whether there is a connection to it, and [SendLeader] whether a command could
    be written to it. *)
Class RaftCore (F : Type) := {
  IsLeader : F -> bool;
  LeaderAddr : F -> option NodeAddr;
  Term : F -> Z;
  CurrentIdx : F -> Z;
  Recv : raft_entry -> M F Z;
  RecvRead : Z -> M F Z;
  LeaderConnected : F -> bool;
  SendLeader : F -> list Z -> bool
}.

(** What is relied on: an entry that is taken is the last of the log, with the
    current term; one that is refused, and a read, leave the log as it is.  The
    module appends changes of the configuration elsewhere. *)
Class RaftCoreLaws (F : Type) `{RaftCore F} := {
  core_wf : F -> Prop;
  EntryAt : F -> Z -> option raft_entry;
  recv_taken e f f' : core_wf f -> raft_entry_is_cfg_change e = false -> Recv e f = Done (0, f') ->
    core_wf f' /\ CurrentIdx f' = CurrentIdx f + 1 /\ EntryAt f' (CurrentIdx f') = Some (e <| ety_term := Term f |>) /\
    forall i, i <= CurrentIdx f -> EntryAt f' i = EntryAt f i;
  recv_refused e f err f' : core_wf f -> raft_entry_is_cfg_change e = false -> Recv e f = Done (err, f') -> err <> 0 ->
    core_wf f' /\ CurrentIdx f' = CurrentIdx f /\ forall i, i <= CurrentIdx f -> EntryAt f' i = EntryAt f i;
  recv_read_keeps p f err f' : core_wf f -> RecvRead p f = Done (err, f') ->
    core_wf f' /\ CurrentIdx f' = CurrentIdx f /\ forall i, i <= CurrentIdx f -> EntryAt f' i = EntryAt f i
}.

Inductive RedisRaftState := REDIS_RAFT_UNINITIALIZED | REDIS_RAFT_UP | REDIS_RAFT_LOADING | REDIS_RAFT_JOINING.

(** What commands are answered unless the module is up. *)
Definition state_error (st : RedisRaftState) : option String.string :=
  match st with
  | REDIS_RAFT_UNINITIALIZED => Some "NOCLUSTER No Raft Cluster"%string
  | REDIS_RAFT_JOINING => Some "NOCLUSTER No Raft Cluster (joining now)"%string
  | REDIS_RAFT_LOADING => Some "LOADING Raft module is loading data"%string
  | REDIS_RAFT_UP => None
  end.

(** The configuration and the tables of commands. *)
Record client_config := mk_config {
  cf_follower_proxy : bool;
  cf_quorum_reads : bool;
  cf_commands : CommandSpecTable;
  cf_subcommands : gmap (list Z) CommandSpecTable
}.

(** What is used of Redis besides commands: numbers in arguments
    ([StringToULongLong], [StringToLongDouble]), the clock, and the access list of
    a client's user. *)
Class ClientApi := {
  StringToULongLong : list Z -> option Z;
  StringToLongDouble : list Z -> option (Z * Z);
  Milliseconds : Z;
  UserACL : Z -> list Z
}.

Record redisraft (D R F : Type) := mk_rr_ctx { rr_sv : module_state D R; rr_raft : F; rr_state : RedisRaftState }.
Arguments mk_rr_ctx {D R F}. Arguments rr_sv {D R F}. Arguments rr_raft {D R F}. Arguments rr_state {D R F}.
#[export] Instance eta_rr_ctx {D R F} : Eta (redisraft D R F) := fun s => mk_rr_ctx (rr_sv s) (rr_raft s) (rr_state s).
#[export] Instance set_rr_sv {D R F} : Setter (@rr_sv D R F). Proof. solve_setter. Defined.
#[export] Instance set_rr_raft {D R F} : Setter (@rr_raft D R F). Proof. solve_setter. Defined.

Section Client.
Context {D R F T : Type} `{Keyspace D} `{RedisServer D R} `{RaftCore F} `{RedisModuleDict T} `{ClientApi} (cfg : client_config).

#[local] Abbreviation Cmd := (M (redisraft D R F)).

Definition on_sv {A} (m : M (module_state D R) A) : Cmd A := zoom rr_sv (fun t s => s <| rr_sv := t |>) m.
Definition on_raft {A} (m : M F A) : Cmd A := zoom rr_raft (fun t s => s <| rr_raft := t |>) m.

Definition say (client : Z) (i : item R) : Cmd unit := on_sv (reply_to client i).
Definition reply_error (client : Z) (msg : String.string) : Cmd unit := say client (IReply (error msg)).

(** ** Checks ([common.c]) *)

Definition replyClusterDown (client : Z) : Cmd unit := reply_error client "CLUSTERDOWN No raft leader".

(** [true] is [RR_OK]. *)
Definition checkRaftState (client : Z) : Cmd bool :=
  s <- get ;;
  match state_error (rr_state s) with
  | Some msg => reply_error client msg ;; ret false
  | None => ret true
  end.

Definition reply_raft_error (client e : Z) : Cmd unit :=
  rep <- lift (replyRaftError None e) ;;
  say client (IReply rep).

(** [raft_recv_entry] through [RedisRaftRecvEntry]: the request is attached to the
    entry that has been appended. *)
Definition RedisRaftRecvEntry (entry : raft_entry) (req : option Z) : Cmd Z :=
  e <- on_raft (Recv entry) ;;
  (if e =? 0 then
     match req with
     | Some p => idx <- gets (fun s => CurrentIdx (rr_raft s)) ;; on_sv (entryAttachRaftReq idx p)
     | None => ret tt
     end
   else ret tt) ;;
  ret e.

(** ** Commands for the leader ([proxy.c]) *)

(** A reply that came over a connection. *)
Inductive redisReply :=
| REDIS_REPLY_STRING (str : list Z)
| REDIS_REPLY_ARRAY (elements : list redisReply)
| REDIS_REPLY_INTEGER (n : Z)
| REDIS_REPLY_NIL
| REDIS_REPLY_STATUS (str : list Z)
| REDIS_REPLY_ERROR (str : list Z)
| REDIS_REPLY_OTHER.

(** The items of the reply, and whether it was understood; a reply in an array
    that is not becomes an error. *)
Fixpoint hiredisReplyToModule (r : redisReply) : list (item R) * bool :=
  match r with
  | REDIS_REPLY_STRING str => ([IBulk str], true)
  | REDIS_REPLY_ARRAY elements =>
      (IArray (Z.of_nat (length elements)) ::
       concat (map (fun e => let '(items, ok) := hiredisReplyToModule e in
                             if ok : bool then items else items ++ [IReply (error "ERR bad reply from leader")]) elements), true)
  | REDIS_REPLY_INTEGER n => ([ILong n], true)
  | REDIS_REPLY_NIL => ([INull], true)
  | REDIS_REPLY_STATUS str => ([IReply (SimpleString str)], true)
  | REDIS_REPLY_ERROR str => ([IReply (ReplyError str)], true)
  | REDIS_REPLY_OTHER => ([], false)
  end.

(** [None]: the connection is lost.  [disconnected]:
    [RedisModule_BlockedClientDisconnected]. *)
Definition handleProxiedCommandResponse (r : option redisReply) (disconnected : bool) (req : Z) : Cmd unit :=
  match r with
  | None => on_sv (req_reply req (IReply (error "TIMEOUT no reply from leader")))
  | Some r =>
      if disconnected then ret tt else
      let '(items, ok) := hiredisReplyToModule r in
      for_each items (fun i => on_sv (req_reply req i)) ;;
      when (negb ok) (on_sv (req_reply req (IReply (error "ERR bad reply from leader"))))
  end ;;
  on_sv (RaftReqFree req).

Definition ProxyCommand (client : Z) (cmds : RaftRedisCommandArray) : Cmd bool :=
  connected <- gets (fun s => LeaderConnected (rr_raft s)) ;;
  if negb connected then ret false else
  req <- on_sv (RaftReqInit (Some client) RR_GENERIC) ;;
  data <- lift (RaftRedisCommandArraySerialize cmds) ;;
  sent <- gets (fun s => SendLeader (rr_raft s) data) ;;
  if negb sent then on_sv (RaftReqFree req) ;; ret false else
  on_sv (emit (EvProxy req data)) ;;
  ret true.

(** [true] is [RR_OK]: this server is the leader. *)
Definition checkLeader (client : Z) (cmds : option RaftRedisCommandArray) : Cmd bool :=
  s <- get ;;
  if IsLeader (rr_raft s) then ret true else
  match LeaderAddr (rr_raft s) with
  | None => replyClusterDown client ;; ret false
  | Some addr =>
      let redirect := say client (IReply (ReplyError (replyRedirect 0 addr))) ;; ret false in
      match cmds with
      | None => redirect
      | Some cmds =>
          if ra_asking cmds then
            match HashSlotCompute cmds with
            | None => say client (IReply cross_slot) ;; ret false
            | Some slot =>
                if slot =? -1 then reply_error client "ERR cmd without keys in asking mode" ;; ret false
                else say client (IReply (ReplyError (replyAsk slot addr))) ;; ret false
            end
          else if cf_follower_proxy cfg then
            ok <- ProxyCommand client cmds ;;
            when (negb ok) (reply_error client "NOTLEADER Failed to proxy command") ;;
            ret false
          else redirect
      end
  end.

(** ** Transactions ([multi.c]) *)

Definition client_state (client : Z) : Cmd ClientState := on_sv (deref_client client).

Definition set_multi (client : Z) (f : MultiState -> MultiState) : Cmd unit :=
  on_sv (update_client client (fun c => c <| cs_multi_state ::= f |>)).

Definition ms_append (cmds : RaftRedisCommandArray) (m : MultiState) : MultiState :=
  m <| ms_cmds := fst (RaftRedisCommandArrayMove (ms_cmds m) cmds) |>.

(** The name of the first command. *)
Definition cmd_name (cmds : RaftRedisCommandArray) : Cmd (list Z) :=
  match first_name cmds with
  | Some name => ret name
  | None => abort
  end.

Definition dry_run (client : Z) (memory : bool) (argv : list (list Z)) : Cmd (option R) :=
  gets (fun s => DryRun (nd_db (sv_node (rr_sv s))) client memory argv).

(** A command inside of a transaction; [true]. *)
Definition queue_command (client : Z) (cmds : RaftRedisCommandArray) : Cmd unit :=
  let refuse i := say client i ;; set_multi client (fun m => m <| ms_error := true |>) in
  cmd_flags <- lift (CommandSpecTableGetAggregateFlags (cf_commands cfg) (cf_subcommands cfg) (ra_commands cmds) 0) ;;
  if has_flag CMD_SPEC_UNSUPPORTED cmd_flags then refuse (IReply (error "ERR not supported by RedisRaft")) else
  if has_flag CMD_SPEC_DONT_INTERCEPT cmd_flags
  then refuse (IReply (error "ERR not supported by RedisRaft inside MULTI/EXEC")) else
  oom <- gets (fun s => OutOfMemory (nd_db (sv_node (rr_sv s)))) ;;
  if oom : bool then refuse (IReply (error "OOM command not allowed when used memory > 'maxmemory'.")) else
  match ra_commands cmds with
  | [] => abort
  | argv :: _ =>
      r <- dry_run client false argv ;;
      match r with
      | Some r => refuse (ICall r)
      | None =>
          set_multi client (ms_append cmds) ;;
          say client (IReply (simple "QUEUED"))
      end
  end.

(** Whether the command is done with, and the commands to go on with. *)
Definition MultiHandleCommand (client : Z) (cmds : RaftRedisCommandArray) : Cmd (bool * RaftRedisCommandArray) :=
  cs <- client_state client ;;
  let m := cs_multi_state cs in
  name <- cmd_name cmds ;;
  if is_cmd "MULTI" name then
    (if ms_active m then reply_error client "ERR MULTI calls can not be nested"
     else set_multi client (fun m => ms_append cmds (m <| ms_active := true |>)) ;;
          say client (IReply (simple "OK"))) ;;
    ret (true, cmds)
  else if is_cmd "EXEC" name then
    (if negb (ms_active m) then reply_error client "ERR EXEC without MULTI" ;; ret (true, cmds) else
     if ms_error m then
       set_multi client MultiStateReset ;;
       reply_error client "EXECABORT Transaction discarded because of previous errors." ;;
       ret (true, cmds)
     else
       let '(cmds, rest) := RaftRedisCommandArrayMove (RaftRedisCommandArrayFree cmds) (ms_cmds m) in
       set_multi client (fun m => MultiStateReset (m <| ms_cmds := rest |>)) ;;
       ret (false, cmds))
  else if is_cmd "DISCARD" name then
    (if negb (ms_active m) then reply_error client "ERR DISCARD without MULTI"
     else set_multi client MultiStateReset ;; say client (IReply (simple "OK"))) ;;
    ret (true, cmds)
  else if ms_active m then
    (if is_cmd "WATCH" name then reply_error client "ERR WATCH inside MULTI is not allowed"
     else queue_command client cmds) ;;
    ret (true, cmds)
  else ret (false, cmds).

(** ** Commands with an implementation of their own *)

Definition MIGRATE_CMD_OPTIONAL_ARG_IDX : nat := 6.
Definition MAX_AUTH_STRING_ARG_LENGTH : Z := 255.

(** The arguments from index [i] on where the name is found: of [AUTH2]. *)
Fixpoint find_arg (name : String.string) (args : list (list Z)) (i : nat) : option nat :=
  match args with
  | [] => None
  | arg :: args' => if is_cmd name arg then Some i else find_arg name args' (S i)
  end.

(** User name and password, or the error.  Behind the last argument is nothing
    that could be read. *)
Definition migrate_auth (argv : list (list Z)) : outcome (String.string + list Z * list Z) :=
  match find_arg "AUTH2" (drop MIGRATE_CMD_OPTIONAL_ARG_IDX argv) MIGRATE_CMD_OPTIONAL_ARG_IDX with
  | None => Done (inr (bytes_of "default", []))
  | Some idx =>
      if (length argv <? idx + 2)%nat then Done (inl "ERR couldn't parse username/password"%string) else
      match argv !! (idx + 1)%nat with
      | None => Abort
      | Some username =>
          if MAX_AUTH_STRING_ARG_LENGTH <? blen username
          then Done (inl "ERR username is too long: limited to 255 characters"%string) else
          match argv !! (idx + 2)%nat with
          | None => Abort
          | Some password =>
              if MAX_AUTH_STRING_ARG_LENGTH <? blen password
              then Done (inl "ERR password is too long: limited to 255 characters"%string)
              else Done (inr (username, password))
          end
      end
  end.

(** [strcasecmp("keys", str)] of four letters. *)
Definition migrate_keys (argv : list (list Z)) : option (list (list Z)) :=
  match find_arg "keys" (drop MIGRATE_CMD_OPTIONAL_ARG_IDX argv) MIGRATE_CMD_OPTIONAL_ARG_IDX with
  | None => None
  | Some idx => match drop (S idx) argv with [] => None | keys => Some keys end
  end.

Definition wrong_arity : String.string := "ERR wrong number of arguments for 'raft' command".

(** The request with its keys. *)
Definition cmdToMigrate (client : Z) (argv : list (list Z)) : Cmd (option Z) :=
  if (length argv <? 8)%nat then reply_error client wrong_arity ;; ret None else
  auth <- lift (migrate_auth argv) ;;
  match auth with
  | inl msg => reply_error client msg ;; ret None
  | inr _ =>
      match argv !! 3%nat with
      | None => abort
      | Some key =>
          if negb (blen key =? 0)
          then reply_error client "ERR RedisRaft doesn't support old style single key migration" ;; ret None else
          match migrate_keys argv with
          | None => reply_error client "ERR Didn't provide any keys to migrate" ;; ret None
          | Some keys =>
              p <- on_sv (RaftReqInit (Some client) RR_MIGRATE_KEYS) ;;
              on_sv (update_req p (fun q => q <| rq_keys := keys |>)) ;;
              ret (Some p)
          end
      end
  end.

(** [RaftReqFree] after the answer to a client whose entry was not taken. *)
Definition refused (req : Z) (e : Z) : Cmd unit :=
  rep <- lift (replyRaftError None e) ;;
  on_sv (req_reply req (IReply rep)) ;;
  on_sv (RaftReqFree req).

Definition handleMigrateCommand (client : Z) (argv : list (list Z)) : Cmd unit :=
  ok <- checkRaftState client ;;
  if negb ok then ret tt else
  ok <- checkLeader client None ;;
  if negb ok then ret tt else
  s <- get ;;
  if has_req (sv_migrate_req (rr_sv s))
  then reply_error client "ERR RedisRaft only supports one concurrent migration currently" else
  req <- cmdToMigrate client argv ;;
  match req with
  | None => ret tt
  | Some p =>
      q <- on_sv (deref_req p) ;;
      data <- lift (RaftRedisLockKeysSerialize (D := T) (rq_keys q)) ;;
      e <- RedisRaftRecvEntry (mk_entry 0 0 0 RAFT_LOGTYPE_LOCK_KEYS data) (Some p) ;;
      if negb (e =? 0) then refused p e else ret tt
  end.

Definition getAskingState (client : Z) : Cmd bool := cs <- client_state client ;; ret (cs_asking cs).

Definition setAskingState (client : Z) (val : bool) : Cmd unit :=
  on_sv (update_client client (fun c => c <| cs_asking := val |>)).

Definition handleAsking (client : Z) : Cmd unit :=
  setAskingState client true ;;
  say client (IReply (simple "OK")).

(** [error]: the reason is ERROR; otherwise TIMEOUT. *)
Definition unblock_reason (argv : list (list Z)) : option bool :=
  match argv !! 3%nat with
  | None => Some false
  | Some str =>
      if has_prefix "timeout" str then Some false else if has_prefix "error" str then Some true else None
  end.

(** The index of the entry for whose command the client waits. *)
Definition blocked_idx (cs : ClientState) : Cmd (option Z) :=
  match cs_blocked_req cs with
  | None => ret None
  | Some p => q <- on_sv (deref_req p) ;; ret (Some (rq_raft_idx q))
  end.

Definition timeout_of (idx : Z) (error : bool) : Cmd raft_entry :=
  data <- lift (RaftRedisSerializeTimeout idx error) ;;
  ret (mk_entry 0 0 0 RAFT_LOGTYPE_TIMEOUT_BLOCKED data).

Definition handleClientUnblock (client : Z) (argv : list (list Z)) : Cmd unit :=
  if negb ((length argv =? 3)%nat || (length argv =? 4)%nat)
  then reply_error client "ERR unknown subcommand or wrong number of arguments for 'unblock'. Try client HELP" else
  match StringToULongLong (default [] (argv !! 2%nat)) with
  | None => reply_error client "ERR value is not an integer or out of range"
  | Some id =>
      match unblock_reason argv with
      | None => reply_error client "ERR CLIENT UNBLOCK reason should be TIMEOUT or ERROR"
      | Some error =>
          cs <- gets (fun s => ClientStateGetById id (rr_sv s)) ;;
          idx <- match cs with Some cs => blocked_idx cs | None => ret None end ;;
          match idx with
          | None => say client (ILong 0)
          | Some idx =>
              entry <- timeout_of idx error ;;
              p <- on_sv (RaftReqInit (Some client) RR_CLIENT_UNBLOCK) ;;
              e <- RedisRaftRecvEntry entry (Some p) ;;
              if negb (e =? 0) then on_sv (req_reply p (ILong 0)) ;; on_sv (RaftReqFree p) else ret tt
          end
      end
  end.

Definition handleClientCommand (client : Z) (argv : list (list Z)) : Cmd unit :=
  match argv !! 1%nat with
  | None => abort
  | Some cmd_str =>
      if is_cmd "UNBLOCK" cmd_str then handleClientUnblock client argv
      else reply_error client "ERR RedisRaft should only handle CLIENT UNBLOCK commands"
  end.

(** [strlen(reason) + 1] bytes are copied, with the NUL. *)
Definition appendEndClientSession (req : option Z) (id : Z) (reason : String.string) : Cmd unit :=
  e <- RedisRaftRecvEntry (mk_entry 0 0 id RAFT_LOGTYPE_END_SESSION (bytes_of reason ++ [0])) req ;;
  match req with
  | Some p => if negb (e =? 0) then refused p e else ret tt
  | None => ret tt
  end.

(** [true]: the client has been answered. *)
Definition handleInterceptedCommands (client : Z) (cmds : RaftRedisCommandArray) : Cmd bool :=
  name <- cmd_name cmds ;;
  let argv := default [] (head (ra_commands cmds)) in
  if is_cmd "CLUSTER" name || is_cmd "INFO" name then on_sv (emit (EvDescribe client argv)) ;; ret true
  else if is_cmd "MIGRATE" name then handleMigrateCommand client argv ;; ret true
  else if is_cmd "ASKING" name then handleAsking client ;; ret true
  else if is_cmd "CLIENT" name then handleClientCommand client argv ;; ret true
  else ret false.

(** ** Appending commands *)

(** [cmds->size], where [handleUnwatch] looks at [cmds->len]. *)
Definition handleWatch (client : Z) (cmds : RaftRedisCommandArray) : Cmd unit :=
  if ra_size cmds =? 1 then
    name <- cmd_name cmds ;;
    when (is_cmd "WATCH" name) (on_sv (update_client client (fun c => c <| cs_watched := true |>)))
  else ret tt.

Definition handleUnwatch (client : Z) (cmds : RaftRedisCommandArray) : Cmd bool :=
  match ra_commands cmds with
  | [name :: _] =>
      if is_cmd "UNWATCH" name then
        p <- on_sv (RaftReqInit (Some client) RR_END_SESSION) ;;
        appendEndClientSession (Some p) client "UNWATCH" ;;
        ret true
      else ret false
  | _ => ret false
  end.

(** The answer of a command that must not be executed. *)
Fixpoint dry_run_all (client : Z) (i : nat) (cs : list (list (list Z))) : Cmd (option R) :=
  match cs with
  | [] => ret None
  | [] :: _ => abort
  | (name :: args) :: cs' =>
      if (i =? 0)%nat && is_cmd "MULTI" name then dry_run_all client (S i) cs' else
      r <- dry_run client true (name :: args) ;;
      match r with
      | Some r => ret (Some r)
      | None => dry_run_all client (S i) cs'
      end
  end.

Definition handleReadOnlyCommand (p : Z) (can_read : bool) : Cmd unit :=
  (if can_read then
     q <- on_sv (deref_req p) ;;
     let* (_, cmds) := on_sv (RaftExecuteCommandArray (rq_ctx q) (rq_cmds q)) in
     on_sv (update_req p (fun q => q <| rq_cmds := cmds |>))
   else on_sv (req_reply p (IReply (error "TIMEOUT no quorum for read")))) ;;
  on_sv (RaftReqFree p).

Definition move_to_req (p : Z) (cmds : RaftRedisCommandArray) : Cmd unit :=
  on_sv (update_req p (fun q => q <| rq_cmds := fst (RaftRedisCommandArrayMove (rq_cmds q) cmds) |>)).

(** Commands that only read, which are not appended to the log. *)
Definition read_commands (client : Z) (cmds : RaftRedisCommandArray) : Cmd unit :=
  if negb (cf_quorum_reads cfg) then on_sv (RaftExecuteCommandArray (Some client) cmds) ;; ret tt else
  p <- on_sv (RaftReqInit (Some client) RR_REDISCOMMAND) ;;
  move_to_req p cmds ;;
  rc <- on_raft (RecvRead p) ;;
  if negb (rc =? 0) then reply_raft_error client rc ;; on_sv (RaftReqFree p) else ret tt.

(** The request of the commands; [None]: the timeout is wrong. *)
Definition command_req (client : Z) (cmds : RaftRedisCommandArray) : Cmd (option Z) :=
  if has_flag CMD_SPEC_BLOCKING (ra_cmd_flags cmds) then
    t <- lift (extractBlockingTimeout StringToLongDouble Milliseconds (ra_commands cmds)) ;;
    match t with
    | inl e => reply_error client (timeout_error_text e) ;; ret None
    | inr timeout => p <- on_sv (RaftReqInitBlocking client RR_REDISCOMMAND timeout) ;; ret (Some p)
    end
  else p <- on_sv (RaftReqInit (Some client) RR_REDISCOMMAND) ;; ret (Some p).

Definition append_commands (client : Z) (cmds : RaftRedisCommandArray) : Cmd unit :=
  req <- command_req client cmds ;;
  match req with
  | None => ret tt
  | Some p =>
      move_to_req p cmds ;;
      q <- on_sv (deref_req p) ;;
      data <- lift (RaftRedisCommandArraySerialize (rq_cmds q)) ;;
      e <- RedisRaftRecvEntry (mk_entry 0 0 client RAFT_LOGTYPE_NORMAL data) (Some p) ;;
      if negb (e =? 0) then refused p e else
      idx <- gets (fun s => CurrentIdx (rr_raft s)) ;;
      on_sv (update_req p (fun q => q <| rq_raft_idx := idx |>))
  end.

(** The flags of commands that are to be appended: a transaction does not block. *)
Definition command_flags (cmds : RaftRedisCommandArray) : outcome Z :=
  match CommandSpecTableGetAggregateFlags (cf_commands cfg) (cf_subcommands cfg) (ra_commands cmds) CMD_SPEC_WRITE with
  | Done flags => Done (if has_flag CMD_SPEC_MULTI flags then Z.ldiff flags CMD_SPEC_BLOCKING else flags)
  | o => o
  end.

(** Scripts are executed with the access list of the client's user. *)
Definition with_acl (client : Z) (cmds : RaftRedisCommandArray) : RaftRedisCommandArray :=
  if has_flag CMD_SPEC_SCRIPTS (ra_cmd_flags cmds) then cmds <| ra_acl := Some (UserACL client) |> else cmds.

Definition handleRedisCommandAppend (client : Z) (cmds : RaftRedisCommandArray) : Cmd unit :=
  ok <- checkRaftState client ;;
  if negb ok then ret tt else
  ok <- checkLeader client (Some cmds) ;;
  if negb ok then ret tt else
  s <- get ;;
  if negb (Term (rr_raft s) =? sv_applied_term (rr_sv s)) then replyClusterDown client else
  cmd_flags <- lift (command_flags cmds) ;;
  let cmds := cmds <| ra_cmd_flags := cmd_flags |> in
  if has_flag CMD_SPEC_UNSUPPORTED cmd_flags then reply_error client "ERR not supported by RedisRaft" else
  r <- dry_run_all client 0 (ra_commands cmds) ;;
  match r with
  | Some r => say client (ICall r)
  | None =>
      handleWatch client cmds ;;
      unwatched <- handleUnwatch client cmds ;;
      if unwatched : bool then ret tt else
      let cmds := with_acl client cmds in
      if has_flag CMD_SPEC_READONLY cmd_flags && negb (has_flag CMD_SPEC_WRITE cmd_flags)
      then read_commands client cmds
      else append_commands client cmds
  end.

Definition handleRedisCommand (client : Z) (cmds : RaftRedisCommandArray) : Cmd unit :=
  asking <- getAskingState client ;;
  let cmds := cmds <| ra_asking := asking |> in
  setAskingState client false ;;
  done <- handleInterceptedCommands client cmds ;;
  if done : bool then ret tt else
  let* (done, cmds) := MultiHandleCommand client cmds in
  if done : bool then ret tt else handleRedisCommandAppend client cmds.

(** [argv]: RAFT and the command. *)
Definition cmdRaft (client : Z) (argv : list (list Z)) : Cmd unit :=
  if (length argv <? 2)%nat then reply_error client wrong_arity else
  let cmds := RaftRedisCommandArrayExtend cmds_zero <| ra_client_id := client |> in
  handleRedisCommand client (cmds <| ra_commands := [tail argv] |>).

Definition cmdRaftEntry (client : Z) (argv : list (list Z)) : Cmd unit :=
  match argv with
  | [_; data] =>
      match RaftRedisCommandArrayDeserialize data cmds_zero with
      | Done (st, cmds) =>
          if st =? RR_OK then handleRedisCommandAppend client cmds else reply_error client "ERR invalid argument"
      | Abort => abort
      | OutOfFuel => out_of_fuel
      end
  | _ => reply_error client "ERR wrong number of arguments for 'raft.entry' command"
  end.

(** ** Clients that come and go, and timers *)

Definition client_connected (client : Z) : Cmd unit := on_sv (ClientStateAlloc client).

Definition recv_timeout (idx : Z) : Cmd unit :=
  entry <- timeout_of idx false ;;
  on_raft (Recv entry) ;;
  ret tt.

(** [rr->raft] is there once the server has started or joined a cluster. *)
Definition client_disconnected (client : Z) : Cmd unit :=
  s <- get ;;
  (match ClientStateGetById client (rr_sv s) with
   | Some cs =>
       if IsLeader (rr_raft s) then
         when (cs_watched cs) (appendEndClientSession None client "disconnect") ;;
         idx <- blocked_idx cs ;;
         match idx with Some idx => recv_timeout idx | None => ret tt end
       else ret tt
   | None => ret tt
   end) ;;
  on_sv (ClientStateFree client).

(** The timer of a request. *)
Definition blockedTimedOut (p : Z) : Cmd unit :=
  q <- on_sv (deref_req p) ;;
  recv_timeout (rq_raft_idx q).

End Client.
