(* ===== verification/ClientSpec.v ===== *)
(** * What becomes of the commands of a client

    Transactions are packed whole or not at all; commands are appended only where
    they may be; and the entry of a request holds its commands. *)

From stdpp Require Import base list numbers tactics gmap strings sorting.
From S2P Require Import Prelude RaftTypes RaftServer Libc File Multibulk PageLog Crc Serialization SerializationSpec NodeAddr.
From S2P Require Import ShardGroup Sharding ShardingSpec ShardParse ShardParseSpec ShardSnapshot ShardRouting.
From S2P Require Import ShardRoutingSpec ShardMigration Commands Blocked Server ServerSpec ServerReplica ServerDemo ServerReplies Client.

Local Open Scope Z_scope.

Section Clients.
Context {D R F T : Type} `{Keyspace D} `{RedisServer D R} `{RaftCore F} `{RedisModuleDict T} `{ClientApi} (cfg : client_config).

#[local] Abbreviation S := (redisraft D R F).
#[local] Abbreviation Cmd := (M S).

(** ** Transactions *)

(** A command as [cmdRaft] hands it on. *)
Definition command (client : Z) (argv : list (list Z)) : RaftRedisCommandArray := mk_array client false 1 0 [argv] None.

(** Whether a command may be queued. *)
Definition queueable (client : Z) (d : D) (argv : list (list Z)) : bool :=
  match CommandSpecTableGetAggregateFlags (cf_commands cfg) (cf_subcommands cfg) [argv] 0 with
  | Done flags => negb (has_flag CMD_SPEC_UNSUPPORTED flags) && negb (has_flag CMD_SPEC_DONT_INTERCEPT flags) &&
                  negb (OutOfMemory d) && bool_decide (DryRun d client false argv = None)
  | _ => false
  end.

(** A command that has nothing to do with the transaction itself. *)
Definition plain (argv : list (list Z)) : Prop :=
  exists name args, argv = name :: args /\
    (is_cmd "MULTI" name || is_cmd "EXEC" name || is_cmd "DISCARD" name || is_cmd "WATCH" name) = false.

(** The client is told the items; besides, only its own state changes. *)
Record answered (client : Z) (items : list (item R)) (s s' : S) : Prop := {
  an_events : sv_events (rr_sv s') = sv_events (rr_sv s) ++ (EvReply client <$> items);
  an_clients : delete client (sv_clients (rr_sv s')) = delete client (sv_clients (rr_sv s));
  an_raft : rr_raft s' = rr_raft s;
  an_state : rr_state s' = rr_state s;
  an_node : sv_node (rr_sv s') = sv_node (rr_sv s);
  an_reqs : sv_reqs (rr_sv s') = sv_reqs (rr_sv s);
  an_attached : sv_attached (rr_sv s') = sv_attached (rr_sv s);
  an_blocked : sv_blocked (rr_sv s') = sv_blocked (rr_sv s)
}.

Lemma answered_nothing client s : answered client [] s s.
Proof. split; try done. by rewrite app_nil_r. Qed.

Lemma answered_trans client i1 i2 s1 s2 s3 : answered client i1 s1 s2 -> answered client i2 s2 s3 -> answered client (i1 ++ i2) s1 s3.
Proof. intros [] []. split; [rewrite fmap_app, app_assoc; congruence|congruence..]. Qed.

Lemma say_run client i s : exists s', say client i s = Done (tt, s') /\ answered client [i] s s' /\
  sv_clients (rr_sv s') = sv_clients (rr_sv s).
Proof. eexists. split; [reflexivity|]. split; [by split|done]. Qed.

Lemma set_multi_run client f s c : sv_clients (rr_sv s) !! client = Some c ->
  exists s', set_multi client f s = Done (tt, s') /\ answered client [] s s' /\
    sv_clients (rr_sv s') !! client = Some (c <| cs_multi_state ::= f |>).
Proof.
  intros Hc. unfold set_multi, on_sv, zoom, update_client, deref_client, ClientStateGetById, bind, get, modify. rewrite Hc.
  eexists. split; [reflexivity|]. split; [|apply lookup_insert_eq]. split; try done; cbn.
  - by rewrite app_nil_r.
  - by rewrite delete_insert_eq.
Qed.

Lemma client_state_run client (s : S) c : sv_clients (rr_sv s) !! client = Some c -> client_state client s = Done (c, s).
Proof.
  intros Hc. unfold client_state, on_sv, zoom, deref_client, ClientStateGetById, bind, get. rewrite Hc. by destruct s.
Qed.

(** The client is inside of a transaction with the commands [q]; [err]: one of
    them has been refused. *)
Definition in_transaction (client : Z) (q : list (list (list Z))) (err : bool) (s : S) : Prop :=
  exists c, sv_clients (rr_sv s) !! client = Some c /\ ms_active (cs_multi_state c) = true /\
    ra_commands (ms_cmds (cs_multi_state c)) = q /\ ra_client_id (ms_cmds (cs_multi_state c)) = client /\
    ms_error (cs_multi_state c) = err.

Definition no_transaction (client : Z) (s : S) : Prop :=
  exists c, sv_clients (rr_sv s) !! client = Some c /\ ms_active (cs_multi_state c) = false /\
    ra_commands (ms_cmds (cs_multi_state c)) = [] /\ ms_error (cs_multi_state c) = false.

Lemma move_commands t c : ra_commands (fst (RaftRedisCommandArrayMove t c)) = ra_commands t ++ ra_commands c /\
  ra_client_id (fst (RaftRedisCommandArrayMove t c)) = ra_client_id c.
Proof. unfold RaftRedisCommandArrayMove. destruct (ra_size t <? _), (ra_acl c); done. Qed.

Lemma in_transaction_silent client q err i s s' : in_transaction client q err s -> answered client i s s' ->
  sv_clients (rr_sv s') = sv_clients (rr_sv s) -> in_transaction client q err s'.
Proof. intros (c & Hc & ?) _ E. exists c. by rewrite E. Qed.

Ltac refuse_with Href i := destruct (Href i I) as (s' & ? & ? & ?); exists s', i; by split_and!.

(** A command inside of a transaction. *)
Lemma queue_run client argv q err s : in_transaction client q err s -> plain argv ->
  exists s' i, queue_command cfg client (command client argv) s = Done (tt, s') /\ is_simple i /\ answered client [i] s s' /\
    (if queueable client (nd_db (sv_node (rr_sv s))) argv then in_transaction client (q ++ [argv]) err s'
     else in_transaction client q true s').
Proof.
  intros Ht (name & args & -> & _). pose proof Ht as (c & Hc & Ha & Hq & Hid & Herr).
  assert (forall i, is_simple i -> exists s', (say client i ;; set_multi client (fun m => m <| ms_error := true |>)) s = Done (tt, s') /\
    answered client [i] s s' /\ in_transaction client q true s') as Href.
  { intros i Hi. destruct (say_run client i s) as (s1 & E1 & A1 & Hc1).
    destruct (set_multi_run client (fun m => m <| ms_error := true |>) s1 c) as (s2 & E2 & A2 & Hc2); [by rewrite Hc1|].
    exists s2. split; [by rewrite (bind_done_eq _ _ _ _ _ E1)|]. split; [by apply (answered_trans _ [i] [] s s1 s2)|].
    eexists. split; [exact Hc2|]. by split_and!. }
  unfold queue_command, queueable. cbn [ra_commands command].
  destruct (CommandSpecTableGetAggregateFlags _ _ [name :: args] 0) as [flags| |] eqn:Ef.
  2-3: by cbn in Ef.
  rewrite (bind_done_eq _ _ s flags s) by done.
  destruct (has_flag CMD_SPEC_UNSUPPORTED flags); cbn [negb andb].
  { refuse_with Href (@IReply R (error "ERR not supported by RedisRaft")). }
  destruct (has_flag CMD_SPEC_DONT_INTERCEPT flags); cbn [negb andb].
  { refuse_with Href (@IReply R (error "ERR not supported by RedisRaft inside MULTI/EXEC")). }
  rewrite (bind_done_eq (gets _) _ s (OutOfMemory (nd_db (sv_node (rr_sv s)))) s) by done.
  destruct (OutOfMemory _); cbn [negb andb].
  { refuse_with Href (@IReply R (error "OOM command not allowed when used memory > 'maxmemory'.")). }
  rewrite (bind_done_eq (dry_run _ _ _) _ s (DryRun (nd_db (sv_node (rr_sv s))) client false (name :: args)) s) by done.
  case_bool_decide as Hd.
  - rewrite Hd. destruct (set_multi_run client (ms_append (command client (name :: args))) s c Hc) as (s1 & E1 & A1 & Hc1).
    destruct (say_run client (IReply (simple "QUEUED")) s1) as (s2 & E2 & A2 & Hc2). exists s2, (IReply (simple "QUEUED")).
    split; [by rewrite (bind_done_eq _ _ _ _ _ E1)|]. split; [exact I|]. split; [by apply (answered_trans _ [] _ s s1 s2)|].
    eexists. split; [by rewrite Hc2|]. destruct (move_commands (ms_cmds (cs_multi_state c)) (command client (name :: args))) as [Em Ei].
    split_and!; [done| |exact Ei|done]. etransitivity; [exact Em|]. by rewrite Hq.
  - destruct (DryRun _ _ _ _) as [r|] eqn:Er; [|done].
    refuse_with Href (@ICall R r).
Qed.

(** All commands inside of a transaction, from one client. *)
Fixpoint queue_all (client : Z) (cs : list (list (list Z))) : Cmd unit :=
  match cs with
  | [] => ret tt
  | argv :: cs' => MultiHandleCommand cfg client (command client argv) ;; queue_all client cs'
  end.

Lemma in_transaction_step client argv q err s : in_transaction client q err s -> plain argv ->
  exists s' i, MultiHandleCommand cfg client (command client argv) s = Done ((true, command client argv), s') /\
    is_simple i /\ answered client [i] s s' /\
    (if queueable client (nd_db (sv_node (rr_sv s))) argv then in_transaction client (q ++ [argv]) err s'
     else in_transaction client q true s').
Proof.
  intros Ht Hp. destruct (queue_run client argv q err s Ht Hp) as (s' & i & E & Hi & A & Hq).
  exists s', i. split; [|done]. destruct Hp as (name & args & -> & Hn). destruct Ht as (c & Hc & Ha & _).
  apply orb_false_iff in Hn as [Hn Hw]. apply orb_false_iff in Hn as [Hn Hd]. apply orb_false_iff in Hn as [Hm He].
  unfold MultiHandleCommand. rewrite (bind_done_eq _ _ _ _ _ (client_state_run client s c Hc)).
  rewrite (bind_done_eq (cmd_name _) _ s name s) by done. rewrite Hm, He, Hd, Ha, Hw. by rewrite (bind_done_eq _ _ _ _ _ E).
Qed.

Lemma queue_all_run client cs : forall q err s, in_transaction client q err s -> Forall plain cs ->
  exists s' items, queue_all client cs s = Done (tt, s') /\ Forall is_simple items /\ length items = length cs /\
    answered client items s s' /\
    in_transaction client (q ++ filter (fun argv => queueable client (nd_db (sv_node (rr_sv s))) argv = true) cs)
      (err || negb (forallb (queueable client (nd_db (sv_node (rr_sv s)))) cs)) s'.
Proof.
  induction cs as [|argv cs IH]; intros q err s Ht Hp; cbn [queue_all].
  { exists s, []. split_and!; [done|constructor|done|apply answered_nothing|]. cbn. by rewrite app_nil_r, orb_false_r. }
  apply Forall_cons in Hp as [Hp Hps].
  destruct (in_transaction_step client argv q err s Ht Hp) as (s1 & i & E1 & Hi & A1 & Ht1).
  rewrite (bind_done_eq _ _ _ _ _ E1). pose proof (an_node _ _ _ _ A1) as Hn. set (d := nd_db (sv_node (rr_sv s))) in *.
  cbn [forallb]. destruct (queueable client d argv) eqn:Eq.
  - destruct (IH _ _ s1 Ht1 Hps) as (s' & items & E & Hs & Hl & A & Ht'). rewrite Hn in Ht'. fold d in Ht'.
    exists s', (i :: items). split_and!; [done|by constructor|cbn; lia|by apply (answered_trans _ [i] items s s1 s')|].
    rewrite filter_cons_True by done. by rewrite <- app_assoc in Ht'.
  - destruct (IH _ _ s1 Ht1 Hps) as (s' & items & E & Hs & Hl & A & Ht'). rewrite Hn in Ht'. fold d in Ht'.
    exists s', (i :: items). split_and!; [done|by constructor|cbn; lia|by apply (answered_trans _ [i] items s s1 s')|].
    rewrite filter_cons_False by congruence. cbn [negb andb]. by rewrite orb_true_r.
Qed.

Lemma multi_run client name args s : no_transaction client s -> is_cmd "MULTI" name = true ->
  exists s', MultiHandleCommand cfg client (command client (name :: args)) s = Done ((true, command client (name :: args)), s') /\
    answered client [IReply (simple "OK")] s s' /\ in_transaction client [name :: args] false s'.
Proof.
  intros (c & Hc & Ha & Hq & He) Hm.
  set (f := fun m => ms_append (command client (name :: args)) (m <| ms_active := true |>)).
  destruct (set_multi_run client f s c Hc) as (s1 & E1 & A1 & Hc1).
  destruct (say_run client (IReply (simple "OK")) s1) as (s2 & E2 & A2 & Hc2). exists s2.
  destruct (move_commands (ms_cmds (cs_multi_state c)) (command client (name :: args))) as [Em Ei]. split_and!.
  - unfold MultiHandleCommand. rewrite (bind_done_eq _ _ _ _ _ (client_state_run client s c Hc)).
    rewrite (bind_done_eq (cmd_name _) _ s name s) by done. rewrite Hm, Ha.
    etransitivity; [apply (bind_done_eq _ _ s tt s2)|done]. by rewrite (bind_done_eq _ _ _ _ _ E1).
  - by apply (answered_trans _ [] _ s s1 s2).
  - eexists. split; [by rewrite Hc2|]. split_and!; [done| |exact Ei|exact He]. etransitivity; [exact Em|]. by rewrite Hq.
Qed.

Lemma filter_forallb {A} (f : A -> bool) (l : list A) : forallb f l = true -> filter (fun x => f x = true) l = l.
Proof.
  induction l as [|x l IH]; [done|]. intros [Hx Hl]%andb_true_iff. rewrite filter_cons_True by done. by rewrite IH.
Qed.

Lemma is_cmd_other n1 n2 name : is_cmd n1 name = true -> String.length n1 <> String.length n2 -> is_cmd n2 name = false.
Proof. unfold is_cmd. intros [->%bool_decide_eq_true _]%andb_true_iff Hne. by rewrite bool_decide_eq_false_2. Qed.

Lemma exec_run client name args q err s : in_transaction client q err s -> is_cmd "EXEC" name = true ->
  exists s', no_transaction client s' /\
    if err then MultiHandleCommand cfg client (command client (name :: args)) s = Done ((true, command client (name :: args)), s') /\
      answered client [IReply (error "EXECABORT Transaction discarded because of previous errors.")] s s'
    else exists cmds, MultiHandleCommand cfg client (command client (name :: args)) s = Done ((false, cmds), s') /\
      ra_commands cmds = q /\ ra_client_id cmds = client /\ answered client [] s s'.
Proof.
  intros (c & Hc & Ha & Hq & Hid & He) Hex. assert (is_cmd "MULTI" name = false) as Hm by (apply (is_cmd_other "EXEC"); [done|by vm_compute]).
  unfold MultiHandleCommand. rewrite (bind_done_eq _ _ _ _ _ (client_state_run client s c Hc)).
  rewrite (bind_done_eq (cmd_name _) _ s name s) by done. rewrite Hm, Hex, Ha, He. cbn [negb]. destruct err.
  - destruct (set_multi_run client MultiStateReset s c Hc) as (s1 & E1 & A1 & Hc1).
    destruct (say_run client (IReply (error "EXECABORT Transaction discarded because of previous errors.")) s1) as (s2 & E2 & A2 & Hc2).
    exists s2. split_and!; [|rewrite (bind_done_eq _ _ _ _ _ E1); exact (bind_done_eq _ _ _ _ _ E2)|by apply (answered_trans _ [] _ s s1 s2)].
    eexists. split; [by rewrite Hc2|done].
  - destruct (move_commands (RaftRedisCommandArrayFree (command client (name :: args))) (ms_cmds (cs_multi_state c))) as [Em Ei].
    destruct (RaftRedisCommandArrayMove _ _) as [cmds rest]. cbn [fst] in Em, Ei.
    destruct (set_multi_run client (fun m => MultiStateReset (m <| ms_cmds := rest |>)) s c Hc) as (s1 & E1 & A1 & Hc1).
    exists s1. split; [eexists; split; [exact Hc1|done]|]. exists cmds. split_and!; [by rewrite (bind_done_eq _ _ _ _ _ E1)| | |done].
    + by rewrite Em, Hq.
    + by rewrite Ei.
Qed.

(** C27 (functional). A transaction is packed whole or not at all.  A client sends
    MULTI, then commands, then EXEC.  Every command is answered once; the client
    is outside of a transaction again afterwards; and either all commands could be
    queued, and EXEC goes on with exactly MULTI and these commands, in their order
    and for this client, or EXEC answers that the transaction is discarded, and
    nothing goes on. *)
Theorem transaction_all_or_nothing (client : Z) (multi exec : list Z) (margs eargs : list (list Z))
    (cs : list (list (list Z))) (s : S) :
  no_transaction client s -> is_cmd "MULTI" multi = true -> is_cmd "EXEC" exec = true -> Forall plain cs ->
  exists s1 s2 items, no_transaction client s2 /\
    (MultiHandleCommand cfg client (command client (multi :: margs)) ;; queue_all client cs) s = Done (tt, s1) /\
    answered client (IReply (simple "OK") :: items) s s1 /\ length items = length cs /\ Forall is_simple items /\
    if forallb (queueable client (nd_db (sv_node (rr_sv s)))) cs
    then exists cmds, MultiHandleCommand cfg client (command client (exec :: eargs)) s1 = Done ((false, cmds), s2) /\
      ra_commands cmds = (multi :: margs) :: cs /\ ra_client_id cmds = client /\ answered client [] s1 s2
    else exists cmds, MultiHandleCommand cfg client (command client (exec :: eargs)) s1 = Done ((true, cmds), s2) /\
      answered client [IReply (error "EXECABORT Transaction discarded because of previous errors.")] s1 s2.
Proof.
  intros Hn Hm He Hp. destruct (multi_run client multi margs s Hn Hm) as (t & E1 & A1 & Ht).
  destruct (queue_all_run client cs _ _ t Ht Hp) as (s1 & items & E2 & Hs & Hl & A2 & Ht2).
  rewrite (an_node _ _ _ _ A1) in Ht2. cbn [orb] in Ht2.
  destruct (exec_run client exec eargs _ _ s1 Ht2 He) as (s2 & Hn2 & Hres).
  exists s1, s2, items. split_and!; [done|by rewrite (bind_done_eq _ _ _ _ _ E1)|by apply (answered_trans _ [_] items s t s1)|done|done|].
  destruct (forallb _ cs) eqn:Eall; cbn [negb] in Hres; [|destruct Hres as [? ?]; eauto].
  destruct Hres as (cmds & E & Hq & Hid & A). exists cmds. split_and!; [done| |done|done]. rewrite Hq.
  cbn [app]. f_equal. by apply filter_forallb.
Qed.

(** ** What is appended *)

Definition same_raft (s s' : S) : Prop := rr_raft s' = rr_raft s /\ rr_state s' = rr_state s.
#[local] Instance same_raft_preorder : PreOrder same_raft.
Proof. split; [by split|]. intros s1 s2 s3 [] []. split; congruence. Qed.

Lemma same_raft_sv {A} (m : M (module_state D R) A) : respects same_raft (on_sv m).
Proof. by intros s a s' (n & _ & ->)%zoom_done. Qed.

Lemma same_raft_lift {A} (o : outcome A) : respects same_raft (lift o).
Proof. by intros s a s' [_ ->]%lift_inv. Qed.
#[local] Hint Resolve same_raft_sv same_raft_lift : respects.

Lemma same_raft_leader client cmds : respects same_raft (checkLeader cfg client cmds).
Proof. unfold checkLeader, ProxyCommand, say, replyClusterDown, reply_error. respects_solve. Qed.

Lemma check_state_run client (s : S) ok s' : checkRaftState client s = Done (ok, s') ->
  same_raft s s' /\ (ok = true -> s' = s /\ rr_state s = REDIS_RAFT_UP).
Proof.
  unfold checkRaftState, reply_error, say. rewrite (bind_done_eq get _ s s s) by done.
  destruct (rr_state s) eqn:Es; intros E.
  2: { injection E as <- <-. by split. }
  all: apply bind_done in E as (u & t & E%same_raft_sv & [= <- <-]); by split.
Qed.

Lemma check_leader_run client cmds (s : S) ok s' : checkLeader cfg client cmds s = Done (ok, s') -> ok = true ->
  s' = s /\ IsLeader (rr_raft s) = true.
Proof.
  unfold checkLeader. rewrite (bind_done_eq get _ s s s) by done. destruct (IsLeader (rr_raft s)); [by intros [= _ <-]|].
  intros E ->. exfalso. destruct (LeaderAddr (rr_raft s)).
  2: { by apply bind_done in E as (? & ? & _ & ?). }
  assert (forall m : Cmd unit, (m ;; ret false) s = Done (true, s') -> False) as Hf by (by intros m (? & ? & _ & ?)%bind_done).
  destruct cmds as [cmds|]; [|by apply Hf in E]. destruct (ra_asking cmds).
  - destruct (HashSlotCompute cmds); [|by apply Hf in E]. destruct (_ =? -1); by apply Hf in E.
  - destruct (cf_follower_proxy cfg); [|by apply Hf in E]. apply bind_done in E as (ok & t & _ & E).
    by apply bind_done in E as (? & ? & _ & ?).
Qed.

Lemma dry_run_inv client cs : forall i (s : S) r s', dry_run_all client i cs s = Done (r, s') ->
  s' = s /\ (r = None -> forall j argv, cs !! j = Some argv ->
    DryRun (nd_db (sv_node (rr_sv s))) client true argv = None \/
    i = 0%nat /\ j = 0%nat /\ exists name args, argv = name :: args /\ lower name = bytes_of "multi").
Proof.
  induction cs as [|c cs IH]; intros i s r s'; cbn [dry_run_all]; [by intros [= <- <-]|].
  destruct c as [|name args]; [done|]. destruct ((i =? 0)%nat && is_cmd "MULTI" name) eqn:Em.
  - apply andb_true_iff in Em as [->%Nat.eqb_eq [_ Hn%bool_decide_eq_true]%andb_true_iff].
    intros [-> Hr]%IH. split; [done|]. intros E j argv Hj. destruct j as [|j].
    + right. injection Hj as <-. split_and!; [done..|]. by exists name, args.
    + destruct (Hr E j argv Hj) as [|[? _]]; [by left|done].
  - intros (r1 & s1 & [= <- <-] & E)%bind_done. destruct (DryRun _ _ _ _) as [r1|] eqn:Ed; [by injection E as <- <-|].
    apply IH in E as [-> Hr]. split; [done|]. intros Hn j argv Hj. destruct j as [|j].
    + left. by injection Hj as <-.
    + destruct (Hr Hn j argv Hj) as [|[? _]]; [by left|done].
Qed.

(** The flags of the array hold those of each of its commands. *)
Lemma aggregate_flags_each t sub dfl f cs : forall flags, 0 <= f ->
  CommandSpecTableGetAggregateFlags t sub cs dfl = Done flags -> Z.land flags (2 ^ f) = 0 ->
  forall j argv, cs !! j = Some argv -> exists name args, argv = name :: args /\
    Z.land (default dfl (CommandSpecTableGetFlags t sub name (head args))) (2 ^ f) = 0.
Proof.
  intros flags Hf. revert flags. induction cs as [|c cs IH]; intros flags E Hz j argv Hj; [done|].
  destruct c as [|name args]; [done|]. cbn [CommandSpecTableGetAggregateFlags] in E.
  destruct (CommandSpecTableGetAggregateFlags t sub cs dfl) as [fl| |] eqn:Ef; [|done..]. injection E as <-.
  rewrite Z.land_lor_distr_l in Hz. apply Z.lor_eq_0_iff in Hz as [Hz1 Hz2].
  destruct j as [|j]; [injection Hj as <-; by exists name, args|]. by apply (IH fl eq_refl Hz2 j).
Qed.

Lemma command_flags_each cmds flags : command_flags cfg cmds = Done flags -> has_flag CMD_SPEC_UNSUPPORTED flags = false ->
  forall j argv, ra_commands cmds !! j = Some argv -> exists name args, argv = name :: args /\
    has_flag CMD_SPEC_UNSUPPORTED (default CMD_SPEC_WRITE
      (CommandSpecTableGetFlags (cf_commands cfg) (cf_subcommands cfg) name (head args))) = false.
Proof.
  unfold command_flags. intros E Hu j argv Hj.
  destruct (CommandSpecTableGetAggregateFlags _ _ _ _) as [fl| |] eqn:Ef; [|done..]. injection E as E.
  assert (Z.land fl (2 ^ 3) = 0) as Hfl.
  { unfold has_flag in Hu. apply negb_false_iff, Z.eqb_eq in Hu. change CMD_SPEC_UNSUPPORTED with (2 ^ 3) in Hu.
    destruct (has_flag CMD_SPEC_MULTI fl); subst flags; [|done].
    rewrite <- Hu. change CMD_SPEC_BLOCKING with (2 ^ 8). apply Z.bits_inj'. intros n Hn.
    rewrite !Z.land_spec, Z.ldiff_spec, !Z.pow2_bits_eqb by lia.
    destruct (Z.eqb_spec 3 n) as [<-|]; [|by rewrite !andb_false_r]. simpl. by rewrite !andb_true_r. }
  destruct (aggregate_flags_each _ _ _ 3 _ fl ltac:(lia) Ef Hfl j argv Hj) as (name & args & -> & Hz).
  exists name, args. split; [done|]. unfold has_flag. change CMD_SPEC_UNSUPPORTED with (2 ^ 3). by rewrite Hz.
Qed.

(** C28 (safety). Commands reach the log, or the queue of reads, only at a server that
    is up, that is the leader, and that has applied an entry of its current term,
    and only when the flags of each of the commands (those of a command that writes,
    for one that is in no table) say that it is supported and Redis says of each of
    them that it could be executed; the one command Redis is not asked about is
    MULTI at the front of a transaction. *)
Theorem append_guarded (client : Z) (cmds : RaftRedisCommandArray) (s s' : S) u :
  handleRedisCommandAppend cfg client cmds s = Done (u, s') -> rr_raft s' <> rr_raft s ->
  rr_state s = REDIS_RAFT_UP /\ IsLeader (rr_raft s) = true /\ Term (rr_raft s) = sv_applied_term (rr_sv s) /\
  (exists flags, command_flags cfg cmds = Done flags /\ has_flag CMD_SPEC_UNSUPPORTED flags = false) /\
  forall i argv, ra_commands cmds !! i = Some argv -> exists name args, argv = name :: args /\
    has_flag CMD_SPEC_UNSUPPORTED (default CMD_SPEC_WRITE
      (CommandSpecTableGetFlags (cf_commands cfg) (cf_subcommands cfg) name (head args))) = false /\
    (DryRun (nd_db (sv_node (rr_sv s))) client true argv = None \/ i = 0%nat /\ lower name = bytes_of "multi").
Proof.
  unfold handleRedisCommandAppend. intros (ok & s1 & [Hs1 Hok]%check_state_run & E)%bind_done Hne.
  assert (forall t, same_raft s t -> rr_raft t <> rr_raft s -> False) as Hkeep by (by intros t [-> _]).
  destruct ok; cbn [negb] in E; [|injection E as _ <-; by destruct (Hkeep _ Hs1 Hne)].
  destruct (Hok eq_refl) as [-> Hup].
  apply bind_done in E as (ok & s2 & E2 & E). pose proof (same_raft_leader _ _ _ _ _ E2) as Hs2.
  destruct ok; cbn [negb] in E; [|injection E as _ <-; by destruct (Hkeep _ Hs2 Hne)].
  destruct (check_leader_run _ _ _ _ _ E2 eq_refl) as [-> Hl].
  rewrite (bind_done_eq get _ s s s) in E by done.
  destruct (Z.eqb_spec (Term (rr_raft s)) (sv_applied_term (rr_sv s))) as [Ht|]; cbn [negb] in E.
  2: { apply same_raft_sv in E. by destruct (Hkeep _ E Hne). }
  apply bind_done in E as (flags & t & [Ef ->]%lift_inv & E).
  destruct (has_flag CMD_SPEC_UNSUPPORTED flags) eqn:Eu.
  { apply same_raft_sv in E. by destruct (Hkeep _ E Hne). }
  apply bind_done in E as (r & t & [-> Hr]%dry_run_inv & E). destruct r as [r|].
  { apply same_raft_sv in E. by destruct (Hkeep _ E Hne). }
  split_and!; [done..|eauto|]. intros i argv Hi.
  destruct (command_flags_each cmds flags Ef Eu i argv Hi) as (name & args & -> & Hf).
  exists name, args. split_and!; [done..|].
  destruct (Hr eq_refl i _ Hi) as [|(_ & Hi0 & ? & ? & [= <- <-] & Hm)]; [by left|by right].
Qed.

(** ** Entries and their requests *)

Definition fresh_reqs (v : module_state D R) : Prop := forall p q, sv_reqs v !! p = Some q -> p < sv_req_brk v.

(** Requests below [b] keep their commands, and nothing is attached. *)
Definition tame (b : Z) (v v' : module_state D R) : Prop :=
  b <= sv_req_brk v -> fresh_reqs v ->
  sv_attached v' = sv_attached v /\ sv_req_brk v <= sv_req_brk v' /\ fresh_reqs v' /\
  forall p q', p < b -> sv_reqs v' !! p = Some q' -> exists q, sv_reqs v !! p = Some q /\ rq_cmds q' = rq_cmds q.

#[local] Instance tame_preorder b : PreOrder (tame b).
Proof.
  split.
  - intros v Hb Hf. split_and!; [done|lia|done|]. eauto.
  - intros v1 v2 v3 H12 H23 Hb Hf. destruct (H12 Hb Hf) as (A1 & B1 & F1 & R1).
    destruct (H23 ltac:(lia) F1) as (A2 & B2 & F2 & R2). split_and!; [congruence|lia|done|].
    intros p q' Hp Hq. destruct (R2 p q' Hp Hq) as (q2 & Hq2 & E2). destruct (R1 p q2 Hp Hq2) as (q1 & Hq1 & E1).
    exists q1. split; [done|congruence].
Qed.

(** Nothing happens to requests. *)
Lemma tame_same b v v' : sv_reqs v' = sv_reqs v -> sv_req_brk v' = sv_req_brk v -> sv_attached v' = sv_attached v -> tame b v v'.
Proof. intros Er Eb Ea Hb Hf. unfold fresh_reqs. rewrite Er, Eb, Ea. split_and!; [done|lia|done|]. eauto. Qed.

Ltac solve_tame := repeat first [apply (respects_modify (tame _)); intros ?; by apply tame_same | progress respects_solve].

Lemma tame_emit b e : respects (tame b) (emit e).
Proof. unfold emit. solve_tame. Qed.

Lemma tame_deref b p : respects (tame b) (deref_req p).
Proof. unfold deref_req. solve_tame. Qed.
#[local] Hint Resolve tame_emit tame_deref : respects.

Lemma tame_reply b p i : respects (tame b) (req_reply p i).
Proof. unfold req_reply, reply_to. solve_tame. Qed.

Lemma tame_insert b p q v v' : sv_reqs v' = <[p := q]> (sv_reqs v) -> sv_attached v' = sv_attached v ->
  sv_req_brk v <= sv_req_brk v' -> (fresh_reqs v -> p < sv_req_brk v') ->
  (b <= sv_req_brk v -> p < b -> exists q0, sv_reqs v !! p = Some q0 /\ rq_cmds q = rq_cmds q0) -> tame b v v'.
Proof.
  intros Er Ea Eb Hp Hq Hb Hf. unfold fresh_reqs. rewrite Er, Ea. split_and!; [done|done| |].
  - intros p' q' [[<- _]|[_ Hp']]%lookup_insert_Some; [by apply Hp|]. pose proof (Hf p' q' Hp'). lia.
  - intros p' q' Hp'. intros [[<- <-]|[_ E]]%lookup_insert_Some; [by apply Hq|eauto].
Qed.

Lemma tame_update b p f : (p < b -> forall q, rq_cmds (f q) = rq_cmds q) -> respects (tame b) (update_req p f).
Proof.
  intros Hf v u v' (q & t & [-> Hq]%deref_req_inv & [= _ <-])%bind_done. apply (tame_insert b p (f q)); [done|done|done|..].
  - intros Hfr. by apply (Hfr p q).
  - intros _ Hp. exists q. split; [done|]. by apply Hf.
Qed.

Lemma tame_free b p : respects (tame b) (RaftReqFree p).
Proof.
  unfold RaftReqFree, BlockedReqResetById. respects_solve; try (apply (respects_modify (tame b)); intros ?; by apply tame_same).
  apply (respects_modify (tame b)). intros v Hb Hf. split_and!; [done|done| |]; unfold fresh_reqs; cbn.
  - intros p' q' [_ E]%lookup_delete_Some. by apply (Hf p' q').
  - intros p' q' _ [_ E]%lookup_delete_Some. eauto.
Qed.

(** A new request is at a new address, with no commands yet. *)
Lemma init_core_run ctx type (v : module_state D R) p v' : RaftReqInitCore ctx type v = Done (p, v') ->
  p = sv_req_brk v /\ sv_req_brk v' = p + 1 /\ sv_attached v' = sv_attached v /\
  exists q, sv_reqs v' = <[p := q]> (sv_reqs v) /\ rq_cmds q = cmds_zero /\ rq_ctx q = ctx.
Proof.
  unfold RaftReqInitCore. intros (v1 & t & [= <- <-] & (u & t2 & [= <- <-] & [= <- <-])%bind_done)%bind_done.
  split_and!; try done. eexists. by split_and!.
Qed.

Lemma tame_init_core b ctx type : respects (tame b) (RaftReqInitCore ctx type).
Proof.
  intros v p v' (-> & Hb & Ha & q & Hq & _)%init_core_run. apply (tame_insert b (sv_req_brk v) q); [done|done|lia|lia|lia].
Qed.

Lemma init_run ctx type (v : module_state D R) p v' : RaftReqInit ctx type v = Done (p, v') ->
  p = sv_req_brk v /\ sv_req_brk v' = p + 1 /\ sv_attached v' = sv_attached v /\
  exists q, sv_reqs v' = <[p := q]> (sv_reqs v) /\ rq_cmds q = cmds_zero /\ rq_ctx q = ctx.
Proof.
  unfold RaftReqInit. intros (p1 & t & E & (u & t2 & E2 & [= <- <-])%bind_done)%bind_done.
  apply init_core_run in E. assert (sv_reqs t2 = sv_reqs t /\ sv_req_brk t2 = sv_req_brk t /\ sv_attached t2 = sv_attached t) as (-> & -> & ->); [|done].
  destruct (bool_decide _); injection E2 as _ <-; done.
Qed.

Lemma tame_init b ctx type : respects (tame b) (RaftReqInit ctx type).
Proof.
  intros v p v' (-> & Hb & Ha & q & Hq & _)%init_run. apply (tame_insert b (sv_req_brk v) q); [done|done|lia|lia|lia].
Qed.

Lemma tame_blocking b client type timeout : respects (tame b) (RaftReqInitBlocking client type timeout).
Proof.
  unfold RaftReqInitBlocking, ClientStateSetBlockedReq, update_client, deref_client.
  apply respects_bind; [apply _|apply tame_init_core|intros p]. apply respects_bind; [apply _| |intros _].
  - apply respects_when; [apply _|]. by apply tame_update.
  - apply respects_bind; [apply _|by apply tame_update|intros _]. solve_tame.
Qed.
#[local] Hint Resolve tame_reply tame_free tame_init tame_blocking : respects.

Lemma tame_node b {A} (m : M (node D) A) : respects (tame b) (on_node m).
Proof. intros s a s' (n & _ & ->)%zoom_done. by apply tame_same. Qed.

Lemma tame_lift b {A} (o : outcome A) : respects (tame b) (lift o).
Proof. intros s a s' [_ ->]%lift_inv. by apply tame_same. Qed.
#[local] Hint Resolve tame_node tame_lift : respects.

Lemma tame_commands b cl c : forall cs i r, respects (tame b) (exec_commands cl c i cs r).
Proof.
  induction cs as [|cmd cs IH]; intros i r; cbn [exec_commands]; [solve_tame|].
  destruct cmd as [|name args]; [solve_tame|]. destruct (_ && _).
  - apply respects_bind; [apply _|unfold tell, reply_to; solve_tame|intros; apply IH].
  - apply respects_bind; [apply _| |intros; apply IH]. unfold exec_command, redis_call, tell, reply_to. solve_tame.
Qed.
#[local] Hint Resolve tame_commands : respects.

Lemma tame_execute b cl c : respects (tame b) (RaftExecuteCommandArray cl c).
Proof. unfold RaftExecuteCommandArray, RaftGetACLUser, getClientSession, reply_to. solve_tame. Qed.

Context `{!RaftCoreLaws F}.

(** Every request that is attached to an index has the commands of the entry
    there. *)
Record attached_ok (s : S) : Prop := {
  at_core : core_wf (rr_raft s);
  at_fresh : fresh_reqs (rr_sv s);
  at_entry idx p : sv_attached (rr_sv s) !! idx = Some p ->
    idx <= CurrentIdx (rr_raft s) /\ p < sv_req_brk (rr_sv s) /\
    exists e, EntryAt (rr_raft s) idx = Some e /\ (ety_type e = RAFT_LOGTYPE_NORMAL -> matches (Some p) e (rr_sv s))
}.

(** The log grows at most at its end. *)
Definition log_kept (f f' : F) : Prop :=
  (core_wf f -> core_wf f') /\ CurrentIdx f <= CurrentIdx f' /\ forall i, i <= CurrentIdx f -> EntryAt f' i = EntryAt f i.

Lemma matches_tame p e v v' : tame (sv_req_brk v) v v' -> fresh_reqs v -> p < sv_req_brk v ->
  matches (Some p) e v -> matches (Some p) e v'.
Proof.
  intros Ht Hf Hp Hm p' q' [= <-] Hq'. destruct (Ht ltac:(lia) Hf) as (_ & _ & _ & Hr).
  destruct (Hr p q' Hp Hq') as (q & Hq & ->). by apply (Hm p q).
Qed.

Lemma attached_tame s s' : attached_ok s -> tame (sv_req_brk (rr_sv s)) (rr_sv s) (rr_sv s') ->
  log_kept (rr_raft s) (rr_raft s') -> attached_ok s'.
Proof.
  intros [Hw Hf Ha] Ht (Hw' & Hc & He). destruct (Ht ltac:(lia) Hf) as (Ea & Hb & Hf' & _). split; [auto|done|].
  intros idx p. rewrite Ea. intros (Hi & Hp & e & Hent & Hm)%Ha. split_and!; [lia|lia|]. exists e. split; [by rewrite He|].
  intros Hty. by eapply matches_tame; eauto.
Qed.

Lemma log_kept_refl f : log_kept f f.
Proof. by split. Qed.

(** [s'] is reached from [s] by steps that keep old requests and the log. *)
Definition steady (s s' : S) : Prop := log_kept (rr_raft s) (rr_raft s') /\ forall b, tame b (rr_sv s) (rr_sv s').
#[local] Instance steady_preorder : PreOrder steady.
Proof.
  split; [split; [apply log_kept_refl|]; intros b; reflexivity|].
  intros s1 s2 s3 [(W1 & C1 & L1) T1] [(W2 & C2 & L2) T2]. split; [split_and!; [auto|lia|]|].
  - intros i Hi. rewrite L2 by lia. by apply L1.
  - intros b. etransitivity; [apply T1|apply T2].
Qed.

Lemma steady_sv {A} (m : M (module_state D R) A) : (forall b, respects (tame b) m) -> respects steady (on_sv m).
Proof.
  intros Hm s a s' (v & E & ->)%zoom_done. split; [apply log_kept_refl|]. intros b. by eapply Hm.
Qed.

Lemma steady_lift {A} (o : outcome A) : respects steady (lift o).
Proof. intros s a s' [_ ->]%lift_inv. reflexivity. Qed.

Lemma steady_say client i : respects steady (say client i).
Proof. apply steady_sv. intros b. apply tame_emit. Qed.

Lemma steady_init ctx type : respects steady (on_sv (RaftReqInit ctx type)).
Proof. apply steady_sv. intros b. apply tame_init. Qed.

Lemma steady_free p : respects steady (on_sv (RaftReqFree p)).
Proof. apply steady_sv. intros b. apply tame_free. Qed.

Lemma steady_event e : respects steady (on_sv (emit e)).
Proof. apply steady_sv. intros b. apply tame_emit. Qed.
#[local] Hint Resolve steady_lift steady_say steady_init steady_free steady_event : respects.

Lemma steady_state client : respects steady (checkRaftState client).
Proof. unfold checkRaftState, reply_error. respects_solve. Qed.

Lemma steady_leader client cmds : respects steady (checkLeader cfg client cmds).
Proof. unfold checkLeader, ProxyCommand, replyClusterDown, reply_error. respects_solve. Qed.

Lemma steady_refused p e : respects steady (refused p e).
Proof. unfold refused. respects_solve. apply steady_sv. intros b. apply tame_reply. Qed.
#[local] Hint Resolve steady_refused : respects.

Lemma steady_raft_error client e : respects steady (reply_raft_error client e).
Proof. unfold reply_raft_error. respects_solve. Qed.

Lemma attached_steady s s' : attached_ok s -> steady s s' -> attached_ok s'.
Proof. intros Ha [Hl Ht]. by apply (attached_tame s s' Ha). Qed.

Lemma recv_entry_attached entry p s e s' : attached_ok s -> raft_entry_is_cfg_change entry = false -> p < sv_req_brk (rr_sv s) ->
  (ety_type entry = RAFT_LOGTYPE_NORMAL -> matches (Some p) entry (rr_sv s)) ->
  RedisRaftRecvEntry entry (Some p) s = Done (e, s') -> attached_ok s'.
Proof.
  intros Ha Hcfg Hp Hm (e1 & s1 & (f & E1 & ->)%zoom_done & E)%bind_done. pose proof (at_core _ Ha) as Hw.
  assert (log_kept (rr_raft s) f) as Hl.
  { destruct (Z.eqb_spec e1 0) as [->|Hne].
    - destruct (recv_taken _ _ _ Hw Hcfg E1) as (? & Hc & _ & Hk). split_and!; [done|lia|exact Hk].
    - destruct (recv_refused _ _ _ _ Hw Hcfg E1 Hne) as (? & Hc & Hk). split_and!; [done|lia|exact Hk]. }
  assert (attached_ok (s <| rr_raft := f |>)) as Ha1.
  { apply (attached_tame s); [done| |exact Hl]. by apply tame_same. }
  apply bind_done in E as (u & s2 & E2 & [= _ <-]). destruct (Z.eqb_spec e1 0) as [->|Hne].
  2: { by injection E2 as _ <-. }
  apply bind_done in E2 as (idx & t & [= <- <-] & (v & E3 & ->)%zoom_done).
  unfold entryAttachRaftReq in E3. injection E3 as _ <-.
  destruct (recv_taken _ _ _ Hw Hcfg E1) as (_ & Hc & Hent & Hk). destruct Ha1 as [Hw1 Hf Hat]. split; [exact Hw1|exact Hf|].
  intros i q. cbn. intros [[<- <-]|[Hne Hq]]%lookup_insert_Some.
  - split_and!; [lia|done|]. exists (entry <| ety_term := Term (rr_raft s) |>). split; [exact Hent|exact Hm].
  - apply (Hat i q Hq).
Qed.

Lemma update_req_run p f (v v' : module_state D R) u : update_req p f v = Done (u, v') ->
  exists q, sv_reqs v !! p = Some q /\ sv_reqs v' = <[p := f q]> (sv_reqs v) /\ sv_req_brk v' = sv_req_brk v.
Proof. intros (q & t & [-> Hq]%deref_req_inv & [= _ <-])%bind_done. by exists q. Qed.

(** The new request of commands. *)
Lemma command_req_run client cmds s r s' : command_req client cmds s = Done (r, s') ->
  steady s s' /\ forall p, r = Some p -> p = sv_req_brk (rr_sv s) /\ p < sv_req_brk (rr_sv s') /\
    exists q, sv_reqs (rr_sv s') !! p = Some q /\ rq_cmds q = cmds_zero.
Proof.
  unfold command_req. destruct (has_flag CMD_SPEC_BLOCKING (ra_cmd_flags cmds)).
  - intros (t & s1 & [_ ->]%lift_inv & E)%bind_done. destruct t as [e|timeout].
    { apply bind_done in E as (u & s1 & E & [= <- <-]). by apply steady_say in E. }
    apply bind_done in E as (p & s1 & E & [= <- <-]).
    assert (respects steady (on_sv (RaftReqInitBlocking client RR_REDISCOMMAND timeout))) as Hst.
    { apply steady_sv. intros b. apply tame_blocking. }
    split; [by eapply Hst|]. intros ? [= <-]. apply zoom_done in E as (v & E & ->).
    unfold RaftReqInitBlocking in E. apply bind_done in E as (p1 & v1 & (-> & Hb & _ & q & Hq & Hz & _)%init_core_run & E).
    apply bind_done in E as (u1 & v2 & E1 & E). apply bind_done in E as (u2 & v3 & (q3 & Hq3 & Hr3 & Hb3)%update_req_run & E).
    apply bind_done in E as (u3 & v4 & E4 & [= <- <-]).
    assert (sv_reqs v4 = sv_reqs v3 /\ sv_req_brk v4 = sv_req_brk v3) as [Hr4 Hb4].
    { unfold ClientStateSetBlockedReq, update_client, deref_client in E4. by run_done. }
    assert (exists q2, sv_reqs v2 !! sv_req_brk (rr_sv s) = Some q2 /\ rq_cmds q2 = cmds_zero /\ sv_req_brk v2 = sv_req_brk v1)
      as (q2 & Hq2 & Hz2 & Hb2).
    { destruct (0 <? timeout); [|injection E1 as _ <-; exists q; rewrite Hq, lookup_insert_eq; by split_and!].
      apply update_req_run in E1 as (q0 & Hq0 & -> & Hb0). rewrite Hq, lookup_insert_eq in Hq0. injection Hq0 as <-.
      eexists. rewrite lookup_insert_eq. by split_and!. }
    cbn. split_and!; [done|lia|]. rewrite Hr4, Hr3, lookup_insert_eq. eexists. split; [done|]. cbn. congruence.
  - intros (p & s1 & E & [= <- <-])%bind_done. split; [by eapply steady_init|]. intros ? [= <-].
    apply zoom_done in E as (v & (-> & Hb & _ & q & Hq & Hz & _)%init_run & ->). cbn. split_and!; [done|lia|].
    exists q. by rewrite Hq, lookup_insert_eq.
Qed.

Lemma move_zero cmds : let a := fst (RaftRedisCommandArrayMove cmds_zero cmds) in
  like a cmds /\ (array_ok cmds -> array_ok a).
Proof.
  cbv zeta. unfold RaftRedisCommandArrayMove. destruct cmds as [id asking size flags cs acl]. cbn.
  destruct (0 <? _), acl as [acl|]; cbn; (split; [by repeat split|]); intros [? ? ? ? ? ?]; by split.
Qed.

Lemma decoded_like a data c : array_ok a -> RaftRedisCommandArraySerialize a = Done data ->
  ra_client_id a = c -> exists a', entry_commands (mk_entry 0 0 c RAFT_LOGTYPE_NORMAL data) = Done a' /\ like a a'.
Proof.
  intros Ha Hs Hid. destruct (array_decodes a cmds_zero Ha) as (data' & Hs' & _ & Hd). rewrite Hs in Hs'. injection Hs' as <-.
  eexists. unfold entry_commands. cbn [ety_data ety_session]. rewrite Hd. cbn [Z.eqb RR_OK]. split; [done|].
  by repeat split.
Qed.

Lemma append_attached client cmds s s' u : attached_ok s -> ra_client_id cmds = client -> array_ok cmds ->
  append_commands client cmds s = Done (u, s') -> attached_ok s'.
Proof.
  intros Ha Hid Hok (r & s1 & E1 & E)%bind_done. apply command_req_run in E1 as [Hst Hr].
  destruct r as [p|]; [|injection E as _ <-; by eapply attached_steady].
  destruct (Hr p eq_refl) as (Hp & Hpb & q & Hq & Hz). pose proof (attached_steady _ _ Ha Hst) as Ha1.
  destruct (move_zero cmds) as [Hlike Hmok]. set (a := fst (RaftRedisCommandArrayMove cmds_zero cmds)) in *.
  apply bind_done in E as (u1 & s2 & (v2 & E2 & ->)%zoom_done & E).
  pose proof E2 as (q1 & Hq1 & Hr2 & Hb2)%update_req_run. assert (q1 = q) as -> by congruence. rewrite Hz in Hr2. fold a in Hr2.
  set (s2 := s1 <| rr_sv := v2 |>) in *.
  assert (attached_ok s2) as Ha2.
  { apply (attached_tame s); [done| |exact (proj1 Hst)]. transitivity (rr_sv s1); [apply Hst|].
    revert E2. apply (tame_update _ p). lia. }
  apply bind_done in E as (q2 & s3 & (v3 & [-> Hq2]%deref_req_inv & ->)%zoom_done & E).
  assert (q2 = q <| rq_cmds := a |>) as ->.
  { cbn in Hq2. rewrite Hr2, lookup_insert_eq in Hq2. by injection Hq2. }
  apply bind_done in E as (data & s3 & [Hser ->]%lift_inv & E). cbn [rq_cmds] in Hser.
  apply bind_done in E as (e & s4 & E4 & E).
  assert (attached_ok s4) as Ha4.
  { refine (recv_entry_attached _ p _ e s4 _ _ _ _ E4); [by destruct Ha2|done| |].
    - cbn. lia.
    - intros _ p' q' [= <-] Hq'. cbn in Hq'. rewrite Hr2, lookup_insert_eq in Hq'. injection Hq' as <-. cbn [rq_cmds].
      apply decoded_like; [by apply Hmok|exact Hser|]. etransitivity; [exact (proj1 Hlike)|exact Hid]. }
  destruct (negb (e =? 0)); [eapply attached_steady; [exact Ha4|by eapply steady_refused]|].
  apply bind_done in E as (idx & t & [= <- <-] & E). eapply attached_steady; [exact Ha4|].
  revert E. apply steady_sv. intros b. by apply tame_update.
Qed.

Lemma read_attached client cmds s s' u : attached_ok s -> read_commands cfg client cmds s = Done (u, s') -> attached_ok s'.
Proof.
  intros Ha E. unfold read_commands in E. destruct (negb (cf_quorum_reads cfg)).
  { apply bind_done in E as (r & t & E & [= _ <-]). eapply attached_steady; [exact Ha|]. revert E.
    apply steady_sv. intros b. apply tame_execute. }
  apply bind_done in E as (p & s1 & E1 & E). pose proof (steady_init _ _ _ _ _ E1) as Hst.
  apply zoom_done in E1 as (v & (-> & Hb & _ & q & Hq & Hz & _)%init_run & ->). set (s1 := s <| rr_sv := v |>) in *.
  apply bind_done in E as (u1 & s2 & (v2 & E2 & ->)%zoom_done & E). set (s2 := s1 <| rr_sv := v2 |>) in *.
  assert (attached_ok s2) as Ha2.
  { apply (attached_tame s); [done| |exact (proj1 Hst)]. transitivity (rr_sv s1); [apply Hst|]. revert E2. apply tame_update. lia. }
  apply bind_done in E as (rc & s3 & (f & E3 & ->)%zoom_done & E).
  assert (attached_ok (s2 <| rr_raft := f |>)) as Ha3.
  { destruct (recv_read_keeps _ _ _ _ (at_core _ Ha2) E3) as (Hw & Hc & Hk). apply (attached_tame s2); [done|by apply tame_same|].
    split_and!; [done|change (CurrentIdx (rr_raft s2) <= CurrentIdx f); lia|exact Hk]. }
  destruct (negb (rc =? 0)); [|by injection E as _ <-]. eapply attached_steady; [exact Ha3|]. revert E.
  apply respects_bind; [apply _|apply steady_raft_error|intros _; apply steady_free].
Qed.

Lemma unwatch_attached client cmds s b s' : attached_ok s -> handleUnwatch client cmds s = Done (b, s') -> attached_ok s'.
Proof.
  intros Ha E. unfold handleUnwatch in E. destruct (ra_commands cmds) as [|[|name args] [|]]; try (by injection E as _ <-).
  destruct (is_cmd "UNWATCH" name); [|by injection E as _ <-].
  apply bind_done in E as (p & s1 & E1 & E). pose proof (steady_init _ _ _ _ _ E1) as Hst.
  apply zoom_done in E1 as (v & (-> & Hb & _)%init_run & ->).
  apply bind_done in E as (u & s2 & (e & s3 & E3 & E4)%bind_done & [= _ <-]).
  assert (attached_ok s3) as Ha3.
  { refine (recv_entry_attached _ _ _ e s3 (attached_steady _ _ Ha Hst) _ _ _ E3); [done|cbn; lia|done]. }
  destruct (negb (e =? 0)); [|by injection E4 as _ <-]. eapply attached_steady; [exact Ha3|by eapply steady_refused].
Qed.

(** C11 (invariant). The entry of a request holds the commands of the request.
    Handling the commands of a client keeps it so that every request that is
    attached to an index of the log has the commands, the flags, the asking state,
    the session and the access list that servers read from the entry there: what
    the relation between servers needs ([replica_follows]), from the commands that
    [cmdRaft] makes. *)
Theorem appended_request_matches (client : Z) (cmds : RaftRedisCommandArray) (s s' : S) u :
  attached_ok s -> ra_client_id cmds = client ->
  (forall flags, command_flags cfg cmds = Done flags -> array_ok (with_acl client (cmds <| ra_cmd_flags := flags |>))) ->
  handleRedisCommandAppend cfg client cmds s = Done (u, s') -> attached_ok s'.
Proof.
  intros Ha Hid Hok (ok & s1 & E1%steady_state & E)%bind_done. pose proof (attached_steady _ _ Ha E1) as Ha1.
  destruct ok; cbn [negb] in E; [|by injection E as _ <-].
  apply bind_done in E as (ok & s2 & E2%steady_leader & E). pose proof (attached_steady _ _ Ha1 E2) as Ha2.
  destruct ok; cbn [negb] in E; [|by injection E as _ <-].
  rewrite (bind_done_eq get _ s2 s2 s2) in E by done.
  assert (forall client i t, say client i s2 = Done (u, t) -> attached_ok t) as Hsay.
  { intros cl i t Et%steady_say. by eapply attached_steady. }
  destruct (negb _); [by apply Hsay in E|]. apply bind_done in E as (flags & t & [Ef ->]%lift_inv & E). specialize (Hok _ Ef).
  destruct (has_flag CMD_SPEC_UNSUPPORTED flags); [by apply Hsay in E|].
  apply bind_done in E as (r & t & [-> _]%dry_run_inv & E). destruct r; [by apply Hsay in E|].
  apply bind_done in E as (u1 & s3 & E3 & E).
  assert (attached_ok s3) as Ha3.
  { eapply attached_steady; [exact Ha2|]. revert E3. unfold handleWatch, cmd_name.
    destruct (_ =? 1); [|by intros [= _ <-]]. destruct (first_name _); [|done]. rewrite (bind_done_eq (ret _) _ s2 l s2) by done.
    destruct (is_cmd "WATCH" l); [|by intros [= _ <-]]. apply steady_sv. intros b. unfold update_client, deref_client. solve_tame. }
  apply bind_done in E as (b & s4 & E4 & E). pose proof (unwatch_attached _ _ _ _ _ Ha3 E4) as Ha4.
  destruct b; [by injection E as _ <-|].
  destruct (has_flag CMD_SPEC_READONLY flags && negb (has_flag CMD_SPEC_WRITE flags)); [by eapply read_attached|].
  eapply append_attached; [exact Ha4| |exact Hok|exact E]. unfold with_acl. by destruct (has_flag _ _).
Qed.

End Clients.
