(* ===== verification/ClientRaft.v ===== *)
(** * The Raft library serves the module

    The Raft server is a [RaftCore], with the laws that [ClientSpec] relies on, as
    the module configures it: it does not flush by itself ([RAFT_CONFIG_AUTO_FLUSH]
    is off, [raftServerInit] in [raft.c]). *)

From stdpp Require Import base list numbers tactics gmap strings.
From S2P Require Import Prelude RaftTypes RaftNode RaftState RaftServer RaftLogic NodeAddr Client.

Local Open Scope Z_scope.

Section Core.
Context {L W : Type} `{LogSpec L} (cb : raft_cbs L W) (fuel : nat).

(** Addresses of nodes by their [udata], and the connection to the leader: parts of
    the world around the library. *)
Context (address : W -> Z -> option NodeAddr) (connected : W -> bool) (send : W -> list Z -> bool).

Definition leader_address (s : St L W) : option NodeAddr :=
  match raft_get_leader_node (fst s) with
  | None => None
  | Some p =>
      match lookup_node p (nodes (fst s)) with
      | Some n => address (snd s) (node_udata n)
      | None => None
      end
  end.

#[local] Instance raft_core : RaftCore (St L W) := {|
  IsLeader s := raft_is_leader (fst s);
  LeaderAddr := leader_address;
  Term s := current_term (fst s);
  CurrentIdx s := raft_get_current_idx (fst s);
  Recv e := r <- raft_recv_entry cb fuel e ;; ret (fst r);
  RecvRead p := raft_recv_read_request cb fuel p;
  LeaderConnected s := connected (snd s);
  SendLeader s := send (snd s)
|}.

Definition serving (s : St L W) : Prop := log_wf (srv_log (fst s)) /\ auto_flush (fst s) = false.

Lemma append_get l e i : i <= alog_last l -> alog_get (alog_append l e) i = alog_get l i.
Proof.
  unfold alog_last, alog_get, alog_append, zlookup. cbn. intros Hi. destruct (_ <? 0) eqn:E; [done|].
  apply Z.ltb_ge in E. apply lookup_app_l. lia.
Qed.

Lemma append_get_last l e : alog_get (alog_append l e) (alog_last l + 1) = Some e.
Proof.
  unfold alog_last, alog_get, alog_append, zlookup. cbn. destruct (Z.ltb_spec (al_base l + Z.of_nat (length (al_entries l)) + 1 - al_base l - 1) 0); [lia|].
  rewrite lookup_app_r by lia. replace (_ - length _)%nat with 0%nat by lia. done.
Qed.

Lemma not_voting e : raft_entry_is_cfg_change e = false -> raft_entry_is_voting_cfg_change e = false.
Proof.
  unfold raft_entry_is_cfg_change, raft_entry_is_voting_cfg_change.
  intros [[H1 H2]%orb_false_iff H3]%orb_false_iff. by rewrite H1, H3.
Qed.

Lemma append_entry_run e s r s' : log_wf (srv_log (fst s)) -> raft_entry_is_cfg_change e = false ->
  raft_append_entry cb e s = Done (r, s') ->
  log_wf (srv_log (fst s')) /\ auto_flush (fst s') = auto_flush (fst s) /\ current_term (fst s') = current_term (fst s) /\
  log_abs (srv_log (fst s')) = if r =? 0 then alog_append (log_abs (srv_log (fst s))) e else log_abs (srv_log (fst s)).
Proof.
  intros Hwf Hcfg E. unfold raft_append_entry in E. rewrite Hcfg, (not_voting e Hcfg) in E.
  apply bind_done in E as (me & s1 & [= <- <-] & E). apply bind_done in E as (u & s1 & Ea & E).
  destruct (ety_term e <=? current_term (fst s)); [|done]. injection Ea as _ <-.
  apply bind_done in E as (r1 & s1 & (l & El & ->)%zoom_done & E).
  destruct (log_append_spec (srv_log (fst s)) e Hwf) as (r2 & l2 & E2 & Hwf2 & Habs). rewrite El in E2. injection E2 as <- <-.
  destruct Habs as [[-> Habs]|[Hr Habs]].
  - cbn [Z.ltb Z.compare when] in E. unfold get_me in E. run_done. by split_and!.
  - destruct (Z.ltb_spec r1 0); [|lia]. injection E as <- <-. destruct (Z.eqb_spec r1 0); [lia|]. by split_and!.
Qed.

(** [raft_recv_entry] of an entry that is not about the configuration. *)
Lemma recv_run e s r s' : serving s -> raft_entry_is_cfg_change e = false ->
  raft_recv_entry cb fuel e s = Done (r, s') ->
  serving s' /\
  log_abs (srv_log (fst s')) =
    if fst r =? 0 then alog_append (log_abs (srv_log (fst s))) (e <| ety_term := current_term (fst s) |>)
    else log_abs (srv_log (fst s)).
Proof.
  intros [Hwf Haf] Hcfg E. unfold raft_recv_entry in E. rewrite (not_voting e Hcfg) in E. cbn [andb] in E.
  apply bind_done in E as (me & s1 & [= <- <-] & E).
  destruct (negb (raft_is_leader (fst s))); [by injection E as <- <-|].
  destruct (negb (_ =? RAFT_NODE_ID_NONE)); [by injection E as <- <-|].
  apply bind_done in E as (r1 & s1 & E1 & E).
  set (e' := e <| ety_term := current_term (fst s) |>) in *.
  assert (raft_entry_is_cfg_change e' = false) as Hcfg' by exact Hcfg.
  destruct (append_entry_run _ _ _ _ Hwf Hcfg' E1) as (Hwf1 & Haf1 & _ & Habs).
  destruct (Z.eqb_spec r1 0) as [->|Hne]; cbn [negb] in E.
  - apply bind_done in E as (me & s2 & [= <- <-] & E). rewrite Haf1, Haf in E. injection E as <- <-.
    split; [split; [done|congruence]|exact Habs].
  - injection E as <- <-. split; [split; [done|congruence]|]. cbn [fst]. destruct (Z.eqb_spec r1 0); [done|]. exact Habs.
Qed.

Lemma recv_read_run p s r s' : serving s -> raft_recv_read_request cb fuel p s = Done (r, s') ->
  serving s' /\ log_abs (srv_log (fst s')) = log_abs (srv_log (fst s)).
Proof.
  intros [Hwf Haf] E. unfold raft_recv_read_request in E. apply bind_done in E as (me & s1 & [= <- <-] & E).
  destruct (negb (raft_is_leader (fst s))); [by injection E as _ <-|].
  apply bind_done in E as (u & s1 & [= _ <-] & E). apply bind_done in E as (u2 & s1 & [= _ <-] & E).
  apply bind_done in E as (me & s1 & [= <- <-] & E). cbn in E. rewrite Haf in E. injection E as _ <-. by split.
Qed.

Lemma current_last (s : St L W) : serving s -> raft_get_current_idx (fst s) = alog_last (log_abs (srv_log (fst s))).
Proof. intros [Hwf _]. by apply log_current_idx_spec. Qed.

Lemma append_last l e : alog_last (alog_append l e) = alog_last l + 1.
Proof. unfold alog_last, alog_append. cbn. rewrite length_app. cbn. lia. Qed.

#[local] Instance raft_core_laws : RaftCoreLaws (St L W).
Proof.
  refine {| core_wf := serving; EntryAt s i := alog_get (log_abs (srv_log (fst s))) i |}.
  - intros e s s' Hw Hcfg (r & s1 & E & [= Hr <-])%bind_done. destruct (recv_run e s r s1 Hw Hcfg E) as [Hw' Habs].
    rewrite Hr in Habs. cbn [Z.eqb] in Habs. cbn [CurrentIdx raft_core]. rewrite !current_last, Habs, append_last by done.
    split_and!; [done|done|apply append_get_last|]. intros i Hi. by apply append_get.
  - intros e s r s' Hw Hcfg (r1 & s1 & E & [= Hr <-])%bind_done Hne. destruct (recv_run e s r1 s1 Hw Hcfg E) as [Hw' Habs].
    destruct (Z.eqb_spec (fst r1) 0); [congruence|]. cbn [CurrentIdx raft_core]. rewrite !current_last, Habs by done. by split_and!.
  - intros p s r s' Hw E. destruct (recv_read_run p s r s' Hw E) as [Hw' Habs].
    cbn [CurrentIdx raft_core]. rewrite !current_last, Habs by done. by split_and!.
Defined.

End Core.
