(* ===== verification/ClientDemo.v ===== *)
(** * A client at the leader of a cluster

    The leader of [RaftDemo] with the server of [ServerDemo]: the theorems about
    clients are applied to it. *)

From stdpp Require Import base list numbers tactics gmap strings sorting.
From S2P Require Import Prelude RaftTypes RaftLog RaftNode RaftState RaftServer RaftApi RaftDemo Libc File Multibulk PageLog Crc.
From S2P Require Import Serialization SerializationSpec NodeAddr ShardGroup Sharding ShardingSpec ShardParse ShardParseSpec.
From S2P Require Import ShardSnapshot ShardRouting ShardRoutingSpec ShardMigration Commands Blocked Server ServerSpec.
From S2P Require Import ServerReplica ServerDemo ServerReplies Client ClientSpec ClientRaft.

Local Open Scope Z_scope.

Abbreviation raft := (St mem_log world).

#[export] Instance demo_core : RaftCore raft := raft_core (demo_cbs 1) 10 (fun _ _ => None) (fun _ => false) (fun _ _ => false).
#[export] Instance demo_core_laws : RaftCoreLaws raft :=
  raft_core_laws (demo_cbs 1) 10 (fun _ _ => None) (fun _ => false) (fun _ _ => false).

(** The module switches the flushing of the library off. *)
Definition module_raft : raft :=
  ((fst RaftDemo.demo_leader) <| auto_flush := false |>, snd RaftDemo.demo_leader).

#[export] Instance demo_api : ClientApi := {|
  StringToULongLong _ := None;
  StringToLongDouble s := if bool_decide (s = bytes_of "30") then Some (30, 1) else None;
  Milliseconds := 0;
  UserACL _ := bytes_of "allcommands"
|}.

Definition demo_cfg : client_config :=
  mk_config false false
    (match CommandSpecTableRebuild None [mk_info (bytes_of "blpop") [bytes_of "write"; bytes_of "blocking"] []] with
     | Done t => t
     | _ => ∅
     end) ∅.

Definition demo_module : redisraft lists list_reply raft :=
  mk_rr_ctx (ServerDemo.demo_server <| sv_clients := {[7 := client_zero]} |> <| sv_applied_term := 1 |>) module_raft REDIS_RAFT_UP.

Definition cmd_blpop : list (list Z) := [bytes_of "BLPOP"; key_q; bytes_of "30"].
Definition cmd_lpush : list (list Z) := [bytes_of "LPUSH"; key_q; bytes_of "x"].
Definition cmd_lpop : list (list Z) := [bytes_of "LPOP"; key_q].

Definition after_blpop : redisraft lists list_reply raft :=
  final (handleRedisCommandAppend demo_cfg 7 (command 7 cmd_blpop)) demo_module.

(** The entry of the BLPOP is the second of the log, behind that of the leader;
    the request waits for it. *)
Example blpop_is_appended :
  CurrentIdx module_raft = 1 /\ CurrentIdx (rr_raft after_blpop) = 2 /\ sv_attached (rr_sv after_blpop) !! 2 = Some 1 /\
  sv_events (rr_sv after_blpop) = [].
Proof. by vm_compute. Qed.

Lemma module_raft_serving : serving module_raft.
Proof.
  split; [|done]. exists [mk_entry 1 2 0 RAFT_LOGTYPE_NO_OP []]. vm_compute. constructor; simpl; try lia; try done.
  intros [|k] e [=<-]; reflexivity.
Qed.

Lemma appended_request_matches_witness : attached_ok after_blpop.
Proof.
  apply (appended_request_matches demo_cfg 7 (command 7 cmd_blpop) demo_module after_blpop tt).
  - split; [apply module_raft_serving|by intros p q ?|by intros idx p ?].
  - reflexivity.
  - intros flags E. vm_compute in E. injection E as <-. constructor; [by vm_compute|done|by vm_compute| |by vm_compute|by vm_compute].
    intros cmd ->%list_elem_of_singleton. by vm_compute.
  - by vm_compute.
Defined.

Lemma append_guarded_witness :
  rr_state demo_module = REDIS_RAFT_UP /\ IsLeader (rr_raft demo_module) = true /\
  Term (rr_raft demo_module) = sv_applied_term (rr_sv demo_module) /\
  (exists flags, command_flags demo_cfg (command 7 cmd_blpop) = Done flags /\ has_flag CMD_SPEC_UNSUPPORTED flags = false) /\
  forall i argv, ra_commands (command 7 cmd_blpop) !! i = Some argv -> exists name args, argv = name :: args /\
    has_flag CMD_SPEC_UNSUPPORTED (default CMD_SPEC_WRITE
      (CommandSpecTableGetFlags (cf_commands demo_cfg) (cf_subcommands demo_cfg) name (head args))) = false /\
    (DryRun (nd_db (sv_node (rr_sv demo_module))) 7 true argv = None \/ i = 0%nat /\ lower name = bytes_of "multi").
Proof.
  apply (append_guarded demo_cfg 7 (command 7 cmd_blpop) demo_module after_blpop tt).
  - by vm_compute.
  - intros E%(f_equal CurrentIdx). by vm_compute in E.
Defined.

Lemma transaction_all_or_nothing_witness :
  exists s1 s2 cmds,
    (MultiHandleCommand demo_cfg 7 (command 7 [bytes_of "multi"]) ;; queue_all demo_cfg 7 [cmd_lpush; cmd_lpop]) demo_module = Done (tt, s1) /\
    sv_events (rr_sv s1) = [EvReply 7 (IReply (simple "OK")); EvReply 7 (IReply (simple "QUEUED")); EvReply 7 (IReply (simple "QUEUED"))] /\
    MultiHandleCommand demo_cfg 7 (command 7 [bytes_of "EXEC"]) s1 = Done ((false, cmds), s2) /\
    ra_commands cmds = [[bytes_of "multi"]; cmd_lpush; cmd_lpop].
Proof.
  destruct (transaction_all_or_nothing demo_cfg 7 (bytes_of "multi") (bytes_of "EXEC") [] [] [cmd_lpush; cmd_lpop] demo_module)
    as (s1 & s2 & items & _ & E1 & _ & _ & _ & Hif).
  - exists client_zero. by split_and!.
  - by vm_compute.
  - by vm_compute.
  - apply Forall_cons; split; [|apply Forall_cons; split; [|constructor]]; eexists _, _; (split; [reflexivity|by vm_compute]).
  - assert (forallb (queueable demo_cfg 7 (nd_db (sv_node (rr_sv demo_module)))) [cmd_lpush; cmd_lpop] = true) as Eall by (by vm_compute).
    rewrite Eall in Hif. destruct Hif as (cmds & E2 & Hc & _). exists s1, s2, cmds. split_and!; [exact E1| |exact E2|exact Hc].
    assert (s1 = final (MultiHandleCommand demo_cfg 7 (command 7 [bytes_of "multi"]) ;; queue_all demo_cfg 7 [cmd_lpush; cmd_lpop]) demo_module)
      as -> by (unfold final; by rewrite E1). by vm_compute.
Defined.
