(* ===== verification/Rpc.v ===== *)
(** * Messages between servers ([raft.c], [redisraft.c], [snapshot.c])

    The callbacks of the Raft library turn its messages into the arguments of
    commands of the other server (RAFT.REQUESTVOTE, RAFT.AE, RAFT.SNAPSHOT,
    RAFT.TIMEOUT_NOW).  The commands read the message, give it to the library and
    reply with its response, which the sender reads again. *)

From stdpp Require Import base list numbers tactics gmap strings.
From S2P Require Import Prelude RaftTypes RaftNode RaftState RaftServer Libc File Multibulk.
From S2P Require Import Serialization NodeAddr ShardGroup Sharding ShardRouting Commands Server Client.

Local Open Scope Z_scope.

(** ** Formatted numbers

    [%d], [%ld], and [%lu] or [%llu]; in a message they are separated by colons. *)
Inductive conv := CONV_d | CONV_ld | CONV_lu.

Definition print_conv (c : conv) (v : Z) : list Z :=
  match c with CONV_lu => dec_unsigned v | _ => dec_signed v end.

Definition COLON : Z := 58.

Fixpoint sprintf (fmt : list conv) (vals : list Z) : list Z :=
  match fmt, vals with
  | [c], [v] => print_conv c v
  | c :: fmt', v :: vals' => print_conv c v ++ COLON :: sprintf fmt' vals'
  | _, _ => []
  end.

(** The value of a conversion.  C does not define the result when it does not
    fit; [%lu] takes a sign. *)
Definition conv_value (c : conv) (neg : bool) (v : Z) : outcome Z :=
  let signed lim := let w := if neg then - v else v in
                    if (w <? - lim) || (lim <=? w) then Abort else Done w in
  match c with
  | CONV_d => signed (2 ^ 31)
  | CONV_ld => signed (2 ^ 63)
  | CONV_lu => if 2 ^ 64 <=? v then Abort else Done (if neg then u64 (- v) else v)
  end.

(** One conversion of [sscanf]: the value and the rest of the text. *)
Definition scan_conv (c : conv) (s : list Z) : outcome (option (Z * list Z)) :=
  let s := skip_spaces s in
  let '(neg, t) := match s with
                   | x :: t => if x =? 45 then (true, t) else if x =? 43 then (false, t) else (false, s)
                   | [] => (false, [])
                   end in
  match t with
  | x :: _ =>
      if digit_value x <? 10
      then let '(v, rest) := scan_digits 10 t 0 in
           match conv_value c neg v with
           | Done w => Done (Some (w, rest))
           | Abort => Abort
           | OutOfFuel => OutOfFuel
           end
      else Done None
  | [] => Done None
  end.

(** [sscanf]: the values when all conversions are made.  What follows the last one
    is ignored. *)
Fixpoint sscanf (fmt : list conv) (s : list Z) : outcome (option (list Z)) :=
  match fmt with
  | [] => Done (Some [])
  | c :: fmt' =>
      match scan_conv c s with
      | Done None => Done None
      | Done (Some (v, rest)) =>
          match fmt' with
          | [] => Done (Some [v])
          | _ =>
              match rest with
              | x :: rest' =>
                  if x =? COLON then
                    match sscanf fmt' rest' with
                    | Done (Some vs) => Done (Some (v :: vs))
                    | o => o
                    end
                  else Done None
              | [] => Done None
              end
          end
      | Abort => Abort
      | OutOfFuel => OutOfFuel
      end
  end.

(** [len = snprintf(buf, size, ..)] as an argument of length [len], where [buf] has
    [size + 1] bytes: a text that does not fit is cut, but its length is not, so
    that the bytes behind it are sent. *)
Definition snprintf_arg (size : Z) (text : list Z) : outcome (list Z) :=
  if blen text <? size then Done text
  else if blen text =? size then Done (take (Z.to_nat (size - 1)) text ++ [0])
  else Abort.

(** ** Sending *)

Definition rv_format : list conv := [CONV_d; CONV_ld; CONV_d; CONV_ld; CONV_ld].
Definition ae_format : list conv := [CONV_d; CONV_ld; CONV_ld; CONV_ld; CONV_ld; CONV_lu].
Definition entry_format : list conv := [CONV_ld; CONV_d; CONV_lu; CONV_d].
Definition snap_format : list conv := [CONV_lu; CONV_d; CONV_lu; CONV_lu; CONV_lu; CONV_lu; CONV_d].

(** What a callback returns, and the command that is sent; [link]: the node is
    connected and the connection takes the command. *)
Definition raftSendRequestVote (link : bool) (target self : Z) (m : raft_requestvote_req) : Z * option (list (list Z)) :=
  (0, if link then
        Some [bytes_of "RAFT.REQUESTVOTE"; dec_signed target; dec_signed self;
              sprintf rv_format [Z.b2z (rv_prevote m); rv_term m; rv_candidate_id m; rv_last_log_idx m; rv_last_log_term m]]
      else None).

Definition ae_text (m : raft_appendentries_req) : list Z :=
  sprintf ae_format [ae_leader_id m; ae_term m; ae_prev_log_idx m; ae_prev_log_term m; ae_leader_commit m; ae_msg_id m].

Definition entry_text (e : raft_entry) : list Z :=
  sprintf entry_format [ety_term e; ety_id e; ety_session e; ety_type e].

(** The arguments of the entries. *)
Fixpoint entry_args (es : list raft_entry) : outcome (list (list Z)) :=
  match es with
  | [] => Done []
  | e :: es' =>
      match snprintf_arg 63 (entry_text e), entry_args es' with
      | Done head, Done args => Done (head :: ety_data e :: args)
      | OutOfFuel, _ => OutOfFuel
      | Done _, o => o
      | Abort, _ => Abort
      end
  end.

Definition raftSendAppendEntries (link : bool) (target self : Z) (m : raft_appendentries_req) :
    outcome (Z * option (list (list Z))) :=
  if negb link then Done (0, None) else
  match snprintf_arg 11 (dec_signed target), snprintf_arg 11 (dec_signed self), snprintf_arg 99 (ae_text m),
        snprintf_arg 11 (dec_signed (Z.of_nat (length (ae_entries m)))), entry_args (ae_entries m) with
  | Done t, Done s, Done text, Done n, Done entries => Done (0, Some (bytes_of "RAFT.AE" :: t :: s :: text :: n :: entries))
  | _, _, _, _, _ => Abort
  end.

(** [strlen] gives the lengths of the numbers.  Without a connection the library is
    told. *)
Definition raftSendSnapshot (link : bool) (target self : Z) (m : raft_snapshot_req) : Z * option (list (list Z)) :=
  if link then
    (0, Some [bytes_of "RAFT.SNAPSHOT"; dec_signed target; dec_signed self;
              sprintf snap_format [u64 (snr_term m); snr_leader_id m; snr_msg_id m; u64 (snr_snapshot_index m);
                                   u64 (snr_snapshot_term m); chunk_offset (snr_chunk m); Z.b2z (chunk_last (snr_chunk m))];
              take (Z.to_nat (chunk_len (snr_chunk m))) (chunk_data (snr_chunk m))])
  else (-1, None).

Definition raftSendTimeoutNow (link : bool) : Z * option (list (list Z)) :=
  (0, if link then Some [bytes_of "RAFT.TIMEOUT_NOW"] else None).

(** ** Receiving *)

Definition Item : Type := item Empty_set.
Definition reply_err (s : String.string) : list Item := [IReply (error s)].

Section Rpc.
Context {L W : Type} `{LogImpl L} (cb : raft_cbs L W) (fuel : nat).
Context (StringToLongLong : list Z -> option Z) (WrongArity : list Z).

(** [rr->state] and [rr->config.id]. *)
Context (state : RedisRaftState) (config_id : Z).

#[local] Abbreviation Srv := (M (St L W)).

Definition RedisModuleStringToInt (s : list Z) : option Z :=
  match StringToLongLong s with
  | Some v => if (v <? - 2 ^ 31) || (2 ^ 31 - 1 <? v) then None else Some v
  | None => None
  end.

(** The command is for this server. *)
Definition for_this_node (arg : list Z) : bool :=
  match RedisModuleStringToInt arg with Some id => id =? config_id | None => false end.

(** A number of a message as a flag. *)
Definition flag (v : Z) : bool := negb (v =? 0).

Definition reply_ints (vs : list Z) : list Item := IArray (Z.of_nat (length vs)) :: (ILong ∘ to_long <$> vs).

Definition wrong_arity_reply : list Item := [IReply (ReplyError WrongArity)].

Definition cmdRaftRequestVote (argv : list (list Z)) : Srv (list Item) :=
  match argv with
  | [_; target; src; text] =>
      match state_error state with Some msg => ret (reply_err msg) | None =>
      if negb (for_this_node target) then ret (reply_err "ERR invalid target node id") else
      match RedisModuleStringToInt src with None => ret (reply_err "ERR invalid source node id") | Some _ =>
      vals <- lift (sscanf rv_format (c_string text)) ;;
      match vals with
      | Some [prevote; term; candidate_id; last_log_idx; last_log_term] =>
          let* (e, resp) :=
            raft_recv_requestvote cb (mk_rv_req (flag prevote) term candidate_id last_log_idx last_log_term) in
          if negb (e =? 0) then ret (reply_err "ERR operation failed") else
          ret (reply_ints [Z.b2z (rvr_prevote resp); rvr_request_term resp; rvr_term resp; Z.b2z (rvr_vote_granted resp)])
      | _ => ret (reply_err "ERR invalid message")
      end end end
  | _ => ret wrong_arity_reply
  end.

(** The loop over the entries: [n] more of them from the entry [i] on; [None]: an
    entry cannot be read.  An argument that is not there is undefined. *)
Fixpoint parse_entries (n i : nat) (argv : list (list Z)) : outcome (option (list raft_entry)) :=
  match n with
  | O => Done (Some [])
  | S n' =>
      match argv !! (6 + 2 * i)%nat, argv !! (5 + 2 * i)%nat with
      | Some data, Some head =>
          match sscanf entry_format (c_string head) with
          | Done (Some [term; id; session; type]) =>
              match parse_entries n' (S i) argv with
              | Done (Some es) => Done (Some (mk_entry term id session type data :: es))
              | o => o
              end
          | Done _ => Done None
          | Abort => Abort
          | OutOfFuel => OutOfFuel
          end
      | _, _ => Abort
      end
  end.

Definition cmdRaftAppendEntries (argv : list (list Z)) : Srv (list Item) :=
  match argv with
  | _ :: target :: src :: text :: num :: _ =>
      match state_error state with Some msg => ret (reply_err msg) | None =>
      if negb (for_this_node target) then ret (reply_err "invalid or incorrect target node id") else
      match StringToLongLong num with None => ret (reply_err "invalid n_entries value") | Some n_entries =>
      if (n_entries <? - 2 ^ 62) || (2 ^ 62 - 3 <? n_entries) then abort else
      if negb (Z.of_nat (length argv) =? 5 + 2 * n_entries) then ret wrong_arity_reply else
      match RedisModuleStringToInt src with None => ret (reply_err "invalid source node id") | Some _ =>
      vals <- lift (sscanf ae_format (c_string text)) ;;
      match vals with
      | Some [leader_id; term; prev_log_idx; prev_log_term; leader_commit; msg_id] =>
          entries <- lift (parse_entries (Z.to_nat n_entries) 0 argv) ;;
          match entries with None => ret (reply_err "invalid entry") | Some es =>
          let* (e, resp) :=
            raft_recv_appendentries cb (mk_ae_req leader_id msg_id term prev_log_idx prev_log_term leader_commit es) in
          if negb (e =? 0) then ret (reply_err "ERR operation failed") else
          ret (reply_ints [aer_term resp; Z.b2z (aer_success resp); aer_current_idx resp; aer_msg_id resp])
          end
      | _ => ret (reply_err "invalid message")
      end end end end
  | _ => ret wrong_arity_reply
  end.

Definition cmdRaftSnapshot (argv : list (list Z)) : Srv (list Item) :=
  match argv with
  | [_; target; src; text; data] =>
      match state_error state with Some msg => ret (reply_err msg) | None =>
      if negb (for_this_node target) then ret (reply_err "ERR invalid or incorrect target node id") else
      match RedisModuleStringToInt src with None => ret (reply_err "invalid source node id") | Some _ =>
      vals <- lift (sscanf snap_format (c_string text)) ;;
      match vals with
      | Some [term; leader_id; msg_id; snapshot_index; snapshot_term; offset; last_chunk] =>
          let* (e, resp) :=
            raft_recv_snapshot cb (mk_snap_req (to_long term) leader_id msg_id (to_long snapshot_index) (to_long snapshot_term)
              (mk_chunk offset data (blen data) (flag last_chunk))) in
          if negb (e =? 0) then ret (reply_err "ERR operation failed") else
          ret (reply_ints [snrr_msg_id resp; snrr_snapshot_index resp; snrr_term resp; snrr_offset resp;
                           Z.b2z (snrr_success resp); Z.b2z (snrr_last_chunk resp)])
      | _ => ret (reply_err "invalid message")
      end end end
  | _ => ret wrong_arity_reply
  end.

Definition cmdRaftTimeoutNow (argv : list (list Z)) : Srv (list Item) :=
  match argv with
  | [_] =>
      match state_error state with Some msg => ret (reply_err msg) | None =>
      e <- raft_timeout_now cb ;;
      if negb (e =? 0)
      then ret [IReply (ReplyError (take 511 (bytes_of "ERR failed to start an election: " ++ bytes_of (raft_get_error_str e))))]
      else ret [IReply (simple "OK")]
      end
  | _ => ret wrong_arity_reply
  end.

(** The commands by their names ([registerRaftCommands]); [None]: another command. *)
Definition serve (argv : list (list Z)) : Srv (option (list Item)) :=
  let name := default [] (head argv) in
  if is_cmd "raft.ae" name then r <- cmdRaftAppendEntries argv ;; ret (Some r)
  else if is_cmd "raft.timeout_now" name then r <- cmdRaftTimeoutNow argv ;; ret (Some r)
  else if is_cmd "raft.requestvote" name then r <- cmdRaftRequestVote argv ;; ret (Some r)
  else if is_cmd "raft.snapshot" name then r <- cmdRaftSnapshot argv ;; ret (Some r)
  else ret None.

(** ** Replies

    A response that came from the node [id]; [None]: the connection is lost.  The
    result: whether the connection is marked as disconnected
    ([ConnMarkDisconnected]). *)
Definition reply_numbers (r : redisReply) : option (list Z) :=
  match r with
  | REDIS_REPLY_ARRAY es =>
      mapM (fun e => match e with REDIS_REPLY_INTEGER v => Some v | _ => None end) es
  | _ => None
  end.

Definition handleRequestVoteResponse (id : Z) (r : option redisReply) : Srv bool :=
  match r with
  | None => ret true
  | Some r =>
      match reply_numbers r with
      | Some [prevote; request_term; term; vote_granted] =>
          me <- get_me ;;
          match raft_get_node me id with
          | None => ret false
          | Some p =>
              raft_recv_requestvote_response cb fuel (Some p)
                (mk_rv_resp (flag (to_int prevote)) request_term term (flag (to_int vote_granted))) ;;
              ret false
          end
      | _ => ret false
      end
  end.

Definition handleAppendEntriesResponse (id : Z) (r : option redisReply) : Srv bool :=
  match r with
  | None => ret true
  | Some r =>
      match reply_numbers r with
      | Some [term; success; current_idx; msg_id] =>
          me <- get_me ;;
          raft_recv_appendentries_response cb fuel (raft_get_node me id)
            (mk_ae_resp (u64 msg_id) term (flag (to_int success)) current_idx) ;;
          ret false
      | _ => ret false
      end
  end.

Definition handleSnapshotResponse (id : Z) (r : option redisReply) : Srv bool :=
  match r with
  | None => ret true
  | Some r =>
      match reply_numbers r with
      | Some [msg_id; snapshot_index; term; offset; success; last_chunk] =>
          me <- get_me ;;
          match raft_get_node me id with
          | None => ret false
          | Some p =>
              raft_recv_snapshot_response cb fuel (Some p)
                (mk_snap_resp (u64 msg_id) snapshot_index term (u64 offset) (flag (to_int success)) (flag (to_int last_chunk))) ;;
              ret false
          end
      | _ => ret false
      end
  end.

Definition handleTimeoutNowResponse (r : option redisReply) : bool :=
  match r with None => true | Some _ => false end.

End Rpc.
