(* ===== verification/RpcSpec.v ===== *)
(** * Messages arrive as they were sent

    What a server's Raft library sends is given to the library of the other server
    as it was, and the response comes back as it was. *)

From stdpp Require Import base list numbers tactics gmap strings.
From S2P Require Import Prelude RaftTypes RaftNode RaftState RaftServer RaftDemo Libc File Multibulk Serialization.
From S2P Require Import SerializationSpec NodeAddr ShardGroup Sharding ShardRouting Commands Server Client ShardParseSpec ShardDemo Rpc.

Local Open Scope Z_scope.

(** ** Numbers *)

Definition conv_ok (c : conv) (v : Z) : Prop :=
  match c with
  | CONV_d => - 2 ^ 31 <= v < 2 ^ 31
  | CONV_ld => - 2 ^ 63 <= v < 2 ^ 63
  | CONV_lu => 0 <= v < 2 ^ 64
  end.

Lemma scan_digits_dec n rest : 0 <= n -> no_digit rest -> scan_digits 10 (dec_unsigned n ++ rest) 0 = (n, rest).
Proof.
  intros Hn Hr. destruct (dec_unsigned_spec n Hn) as (ds & -> & Hd & _ & _ & _ & Hv & _).
  rewrite scan_digits_10 by done. rewrite Hv. destruct rest as [|c rest]; [done|]. cbn in Hr |- *. by rewrite Hr.
Qed.

(** A printed number starts with a digit. *)
Lemma dec_unsigned_cons n : 0 <= n -> exists d ds, dec_unsigned n = d :: ds /\ is_digit d.
Proof.
  intros Hn. destruct (dec_unsigned_spec n Hn) as (ds & -> & Hd & Hne & _). destruct ds as [|d ds]; [done|].
  exists d, ds. split; [done|]. by apply Forall_inv in Hd.
Qed.

Lemma scan_unsigned c n rest : 0 <= n -> no_digit rest -> conv_value c false n = Done n ->
  scan_conv c (dec_unsigned n ++ rest) = Done (Some (n, rest)).
Proof.
  intros Hn Hr Hv. pose proof (scan_digits_dec n rest Hn Hr) as Hscan.
  destruct (dec_unsigned_cons n Hn) as (d & ds & E & Hd). rewrite E in Hscan |- *. unfold is_digit in Hd.
  unfold scan_conv. cbn [app skip_spaces]. unfold is_space.
  rewrite (proj2 (Z.eqb_neq d 32)), (proj2 (Z.leb_gt d 13)), andb_false_r by lia. cbn [orb].
  rewrite (proj2 (Z.eqb_neq d 45)), (proj2 (Z.eqb_neq d 43)) by lia.
  rewrite (is_digit_value d) by done. rewrite (proj2 (Z.ltb_lt (d - 48) 10)) by lia.
  change (d :: ds ++ rest) with ((d :: ds) ++ rest). by rewrite Hscan, Hv.
Qed.

Lemma scan_negative c n rest : 0 <= n -> no_digit rest -> conv_value c true n = Done (- n) ->
  scan_conv c (45 :: dec_unsigned n ++ rest) = Done (Some (- n, rest)).
Proof.
  intros Hn Hr Hv. pose proof (scan_digits_dec n rest Hn Hr) as Hscan.
  destruct (dec_unsigned_cons n Hn) as (d & ds & E & Hd). rewrite E in Hscan |- *. unfold is_digit in Hd.
  unfold scan_conv. cbn [app skip_spaces]. change (is_space 45) with false. cbn match. change (45 =? 45) with true. cbn match.
  rewrite (is_digit_value d) by done. rewrite (proj2 (Z.ltb_lt (d - 48) 10)) by lia.
  change (d :: ds ++ rest) with ((d :: ds) ++ rest). by rewrite Hscan, Hv.
Qed.

Lemma scan_print c v rest : conv_ok c v -> no_digit rest -> scan_conv c (print_conv c v ++ rest) = Done (Some (v, rest)).
Proof.
  intros Hv Hr. assert (forall lim, - lim <= v < lim -> 0 < lim ->
    (if (v <? - lim) || (lim <=? v) then @Abort Z else Done v) = Done v) as Hfit.
  { intros lim Hl _. rewrite (proj2 (Z.ltb_ge _ _)), (proj2 (Z.leb_gt _ _)) by lia. done. }
  destruct c; cbn [conv_ok] in Hv; cbn [print_conv].
  3: { apply scan_unsigned; [lia|done|]. cbn. by rewrite (proj2 (Z.leb_gt _ _)) by lia. }
  all: unfold dec_signed; destruct (Z.ltb_spec v 0).
  all: try (apply scan_unsigned; [lia|done|]; by apply Hfit).
  all: cbn [app]; replace v with (- - v) at 2 by lia; apply scan_negative; [lia|done|]; cbn [conv_value]; rewrite Z.opp_involutive; by apply Hfit.
Qed.

Lemma no_digit_colon rest : no_digit (COLON :: rest).
Proof. reflexivity. Qed.

(** What is printed is read back. *)
Lemma sscanf_sprintf fmt vals : Forall2 conv_ok fmt vals -> sscanf fmt (sprintf fmt vals) = Done (Some vals).
Proof.
  induction 1 as [|c v fmt vals Hv H IH]; [done|].
  destruct H as [|c' v' fmt vals Hv' H].
  - cbn [sprintf sscanf]. rewrite <- (app_nil_r (print_conv c v)). by rewrite scan_print.
  - remember (c' :: fmt) as fmt'. remember (v' :: vals) as vals'.
    assert (sprintf (c :: fmt') (v :: vals') = print_conv c v ++ COLON :: sprintf fmt' vals') as -> by (by subst).
    cbn [sscanf]. rewrite scan_print by (done || apply no_digit_colon). subst fmt'. rewrite Z.eqb_refl. by rewrite IH.
Qed.

Lemma print_nonzero c v : conv_ok c v -> Forall (fun x => x <> 0) (print_conv c v).
Proof.
  assert (forall n, 0 <= n -> Forall (fun x => x <> 0) (dec_unsigned n)) as Hn.
  { intros n Hn. eapply Forall_impl; [by apply dec_unsigned_chars|]. unfold is_digit. intros; lia. }
  assert (forall n, Forall (fun x => x <> 0) (dec_signed n)) as Hs.
  { intros n. unfold dec_signed. destruct (Z.ltb_spec n 0); [constructor; [done|]|]; apply Hn; lia. }
  destruct c; cbn; intros Hv; [apply Hs..|apply Hn; lia].
Qed.

Lemma sprintf_nonzero fmt vals : Forall2 conv_ok fmt vals -> Forall (fun x => x <> 0) (sprintf fmt vals).
Proof.
  induction 1 as [|c v fmt vals Hv H IH]; [constructor|]. destruct H.
  - by apply print_nonzero.
  - cbn [sprintf]. apply Forall_app. split; [by apply print_nonzero|]. constructor; [done|exact IH].
Qed.

Lemma scan_text fmt vals : Forall2 conv_ok fmt vals -> sscanf fmt (c_string (sprintf fmt vals)) = Done (Some vals).
Proof. intros H. rewrite c_string_nonzero by by apply sprintf_nonzero. by apply sscanf_sprintf. Qed.

(** ** Reading, as the manual of [sscanf] has it

    [v] is the number at the start of [t]: white space, a sign or none, and as many
    digits as there are; [rest] is what follows. *)
Inductive sign_of : list Z -> Z -> Prop :=
| sign_none : sign_of [] 1
| sign_plus : sign_of [43] 1
| sign_minus : sign_of [45] (-1).

Definition starts_number (t : list Z) (v : Z) (rest : list Z) : Prop :=
  exists spaces sign k ds, t = spaces ++ sign ++ ds ++ rest /\
    Forall (fun c => c = 32 \/ 9 <= c <= 13) spaces /\ sign_of sign k /\ ds <> [] /\ Forall is_digit ds /\
    (forall d, head rest = Some d -> ~ is_digit d) /\ v = k * horner 0 ds.

(** At the start of [t] are the numbers, separated by colons. *)
Inductive numbers_at : list Z -> list Z -> Prop :=
| numbers_one t v rest : starts_number t v rest -> numbers_at t [v]
| numbers_more t v rest vs : starts_number t v (COLON :: rest) -> numbers_at rest vs -> numbers_at t (v :: vs).

(** The number fits the type of its conversion. *)
Definition conv_fits (c : conv) (v : Z) : Prop :=
  match c with
  | CONV_d => - 2 ^ 31 <= v < 2 ^ 31
  | CONV_ld => - 2 ^ 63 <= v < 2 ^ 63
  | CONV_lu => - 2 ^ 64 < v < 2 ^ 64
  end.

(** What is stored: [%lu] takes a negative number modulo the width. *)
Definition conv_stored (c : conv) (v : Z) : Z := match c with CONV_lu => u64 v | _ => v end.

(** All the numbers the format asks for, as far as they are there, fit. *)
Definition text_fits (fmt : list conv) (t : list Z) : Prop :=
  forall vs, numbers_at t vs -> (length vs <= length fmt)%nat -> Forall2 conv_fits (take (length vs) fmt) vs.

Lemma not_digit_value d : (digit_value d <? 10) = false <-> ~ is_digit d.
Proof.
  split.
  - intros E Hd. rewrite is_digit_value in E by done. unfold is_digit in Hd. lia.
  - intros Hd. unfold is_digit, digit_value in *. apply Z.ltb_ge. repeat case_match; lia.
Qed.

Lemma digit_value_is d : (digit_value d <? 10) = true <-> is_digit d.
Proof.
  destruct (digit_value d <? 10) eqn:E; split; try done; intros Hd; [|by apply not_digit_value in E].
  destruct (decide (is_digit d)) as [|Hn]; [done|]. apply not_digit_value in Hn. congruence.
Qed.

(** The digits at the start are taken. *)
Lemma digits_first t : forall a, exists ds rest, t = ds ++ rest /\ Forall is_digit ds /\
  (forall d, head rest = Some d -> ~ is_digit d) /\ scan_digits 10 t a = (horner a ds, rest).
Proof.
  induction t as [|c t IH]; intros a; [by exists [], []|]. cbn [scan_digits].
  destruct (digit_value c <? 10) eqn:E.
  - apply digit_value_is in E. destruct (IH (a * 10 + digit_value c)) as (ds & rest & -> & Hd & Hr & Es).
    exists (c :: ds), rest. split_and!; [done|by constructor|done|]. rewrite Es. cbn. by rewrite is_digit_value.
  - exists [], (c :: t). split_and!; [done..| |done]. intros d [= <-]. by apply not_digit_value.
Qed.

Lemma spaces_first t : exists sp, t = sp ++ skip_spaces t /\ Forall (fun c => c = 32 \/ 9 <= c <= 13) sp /\
  forall d, head (skip_spaces t) = Some d -> is_space d = false.
Proof.
  induction t as [|c t (sp & E & Hs & Hh)]; [by exists []|]. cbn [skip_spaces].
  destruct (is_space c) eqn:Ec.
  - exists (c :: sp). split; [cbn; by rewrite <- E|]. split; [|done]. constructor; [|done]. unfold is_space in Ec. lia.
  - exists []. split_and!; [done..|]. by intros d [= <-].
Qed.

Lemma spaces_before sp t : Forall (fun c => c = 32 \/ 9 <= c <= 13) sp ->
  (forall d, head t = Some d -> is_space d = false) -> skip_spaces (sp ++ t) = t.
Proof.
  intros Hs Ht. induction Hs as [|c sp Hc Hs IH]; cbn [app skip_spaces].
  - destruct t as [|d t]; [done|]. cbn. by rewrite (Ht d).
  - assert (is_space c = true) as -> by (unfold is_space; lia). exact IH.
Qed.

(** The digits are converted. *)
Lemma scan_starts_value c t v rest : starts_number t v rest ->
  exists neg n, 0 <= n /\ v = (if neg : bool then - n else n) /\
    scan_conv c t = match conv_value c neg n with Done w => Done (Some (w, rest)) | Abort => Abort | OutOfFuel => OutOfFuel end.
Proof.
  intros (sp & sign & k & ds & -> & Hsp & Hk & Hne & Hd & Hr & ->).
  destruct ds as [|d ds]; [done|]. pose proof (Forall_inv Hd) as Hd0.
  assert (scan_digits 10 ((d :: ds) ++ rest) 0 = (horner 0 (d :: ds), rest)) as Hscan.
  { rewrite scan_digits_10 by done. destruct rest as [|x rest]; [done|]. cbn [scan_digits].
    by rewrite (proj2 (not_digit_value x)) by (by apply Hr). }
  assert (0 <= horner 0 (d :: ds)) as Hpos.
  { clear -Hd. assert (forall a, 0 <= a -> 0 <= horner a (d :: ds)) as H; [|by apply H].
    induction Hd as [|x l Hx Hd IH]; intros a Ha; [done|]. cbn. apply IH. unfold is_digit in Hx. lia. }
  set (n := horner 0 (d :: ds)) in *.
  unfold scan_conv. rewrite spaces_before; [|done|].
  2: { unfold is_digit in Hd0. destruct Hk; intros x [= <-]; unfold is_space; lia. }
  assert ((digit_value d <? 10) = true) as Ed by by apply digit_value_is. unfold is_digit in Hd0.
  destruct Hk; cbn [app].
  - rewrite (proj2 (Z.eqb_neq d 45)), (proj2 (Z.eqb_neq d 43)) by lia. rewrite Ed.
    change (d :: ds ++ rest) with ((d :: ds) ++ rest). rewrite Hscan. exists false, n. split_and!; [done|lia|done].
  - change (43 =? 45) with false. change (43 =? 43) with true. cbn match. rewrite Ed.
    change (d :: ds ++ rest) with ((d :: ds) ++ rest). rewrite Hscan. exists false, n. split_and!; [done|lia|done].
  - change (45 =? 45) with true. cbn match. rewrite Ed.
    change (d :: ds ++ rest) with ((d :: ds) ++ rest). rewrite Hscan. exists true, n. split_and!; [done|lia|done].
Qed.

(** A number that fits is stored; one that does not is undefined. *)
Lemma conv_value_fits c neg n : 0 <= n -> let v := if neg : bool then - n else n in
  (conv_fits c v /\ conv_value c neg n = Done (conv_stored c v)) \/ conv_value c neg n = Abort.
Proof.
  intros Hn. unfold conv_fits, conv_value, conv_stored, u64.
  destruct c, neg; match goal with |- context [if ?b then Abort else _] => destruct b eqn:E end; try (by right); left;
    (split; [lia|]); try done. by rewrite Z.mod_small by lia.
Qed.

(** A number is read as it stands there. *)
Lemma scan_starts c t v rest : starts_number t v rest ->
  (conv_fits c v -> scan_conv c t = Done (Some (conv_stored c v, rest))) /\ scan_conv c t <> Done None.
Proof.
  intros (neg & n & Hn & -> & E)%(scan_starts_value c). rewrite E. split; [|by destruct (conv_value c neg n)].
  intros Hf. destruct (conv_value_fits c neg n Hn) as [[_ ->]|Ha]; [done|]. exfalso. revert Ha Hf.
  unfold conv_fits, conv_value. destruct c, neg; match goal with |- context [if ?b then Abort else _] => destruct b eqn:E' end; try done; lia.
Qed.

Lemma scan_fits c t v rest w r : starts_number t v rest -> scan_conv c t = Done (Some (w, r)) -> conv_fits c v /\ r = rest.
Proof.
  intros (neg & n & Hn & -> & E)%(scan_starts_value c) Hs. rewrite E in Hs.
  destruct (conv_value_fits c neg n Hn) as [[Hf E']|E']; rewrite E' in Hs; [|done]. by injection Hs as _ <-.
Qed.

(** Where a conversion is made, there is a number. *)
Lemma scan_starts_inv c t : scan_conv c t <> Done None -> exists v rest, starts_number t v rest.
Proof.
  unfold scan_conv. destruct (spaces_first t) as (sp & E & Hsp & _). set (u := skip_spaces t) in *.
  intros Hn.
  assert (exists sign k w, u = sign ++ w /\ sign_of sign k /\ exists x w', w = x :: w' /\ (digit_value x <? 10) = true)
    as (sign & k & w & Eu & Hk & x & w' & Ew & Hx).
  { destruct u as [|x u]; [done|]. destruct (Z.eqb_spec x 45) as [->|]; [|destruct (Z.eqb_spec x 43) as [->|]].
    - destruct u as [|y u]; [done|]. destruct (digit_value y <? 10) eqn:Ey; [|done].
      exists [45], (-1), (y :: u). split_and!; [done|constructor|eauto].
    - destruct u as [|y u]; [done|]. destruct (digit_value y <? 10) eqn:Ey; [|done].
      exists [43], 1, (y :: u). split_and!; [done|constructor|eauto].
    - destruct (digit_value x <? 10) eqn:Ey; [|done]. exists [], 1, (x :: u). split_and!; [done|constructor|eauto]. }
  destruct (digits_first w 0) as (ds & rest & Ed & Hd & Hr & _).
  exists (k * horner 0 ds), rest, sp, sign, k, ds. rewrite E, Eu, Ed. split_and!; try done.
  intros ->. cbn in Ed. apply (Hr x); [by rewrite <- Ed, Ew|by apply digit_value_is].
Qed.

Lemma text_fits_head c fmt t v rest : text_fits (c :: fmt) t -> starts_number t v rest -> conv_fits c v.
Proof. intros H Hs. specialize (H [v] (numbers_one _ _ _ Hs) ltac:(cbn; lia)). cbn in H. by inversion H. Qed.

Lemma text_fits_tail c fmt t v rest : text_fits (c :: fmt) t -> starts_number t v (COLON :: rest) -> text_fits fmt rest.
Proof.
  intros H Hs vs Hv Hl. specialize (H (v :: vs) (numbers_more _ _ _ _ Hs Hv) ltac:(cbn; lia)). cbn in H. by inversion H.
Qed.

(** All the numbers of the format are there. *)
Definition all_numbers (fmt : list conv) (t : list Z) (vs : list Z) : Prop := numbers_at t vs /\ length vs = length fmt.

(** [sscanf] reads the numbers that are there, and fails when one of them is not. *)
Lemma sscanf_reads fmt t : fmt <> [] -> text_fits fmt t ->
  (exists vs, all_numbers fmt t vs /\ sscanf fmt t = Done (Some (zip_with conv_stored fmt vs)) /\
     forall vs', all_numbers fmt t vs' -> zip_with conv_stored fmt vs' = zip_with conv_stored fmt vs) \/
  ((forall vs, ~ all_numbers fmt t vs) /\ sscanf fmt t = Done None).
Proof.
  revert t. induction fmt as [|c fmt IH]; intros t Hne Hf; [done|]. cbn [sscanf].
  destruct (scan_conv c t) as [o| |] eqn:E.
  2, 3: destruct (scan_starts_inv c t) as (v & rest & Hs); [by rewrite E|];
    destruct (scan_starts c t v rest Hs) as [E' _]; rewrite E' in E by (by eapply text_fits_head); done.
  destruct o as [[w rest]|].
  2: { right. split; [|done]. intros vs [Hv _]. inversion Hv as [? v rest Hs|? v rest ? Hs]; subst;
         by destruct (scan_starts c t v _ Hs) as [_ []]. }
  destruct (scan_starts_inv c t) as (v & rest' & Hs); [by rewrite E|].
  assert (w = conv_stored c v /\ rest = rest') as [-> ->].
  { destruct (scan_starts c t v rest' Hs) as [E' _]. rewrite E' in E by (by eapply text_fits_head). by injection E. }
  assert (forall v2 rest2, starts_number t v2 rest2 -> conv_stored c v2 = conv_stored c v /\ rest2 = rest') as Hrest.
  { intros v2 rest2 Hs2. destruct (scan_starts c t v2 rest2 Hs2) as [E' _]. rewrite E' in E by (by eapply text_fits_head).
    by injection E. }
  destruct fmt as [|c' fmt].
  { left. exists [v]. split; [split; [by econstructor|done]|]. split; [done|]. intros vs [Hv Hl].
    inversion Hv as [? v2 rest2 Hs2|? v2 rest2 vs' ? Hv']; subst; [cbn; by destruct (Hrest _ _ Hs2) as [-> _]|].
    destruct vs'; [by inversion Hv'|done]. }
  assert (forall vs, all_numbers (c :: c' :: fmt) t vs -> exists v2 vs' rest2, rest' = COLON :: rest2 /\ vs = v2 :: vs' /\ conv_stored c v2 = conv_stored c v /\
    all_numbers (c' :: fmt) rest2 vs') as Hinv.
  { intros vs [Hv Hl]. inversion Hv as [? v2 rest2 Hs2|? v2 rest2 vs' Hs2 Hv2]; subst; [done|].
    destruct (Hrest _ _ Hs2) as [Ev <-].
    exists v2, vs', rest2. split_and!; [done|done|done|]. split; [done|]. cbn in Hl |- *. lia. }
  destruct rest' as [|x rest'].
  { right. split; [|done]. by intros vs (? & ? & ? & ? & _)%Hinv. }
  destruct (Z.eqb_spec x COLON) as [->|Hx].
  2: { right. split; [|done]. by intros vs (? & ? & ? & [= ? ?] & _)%Hinv. }
  destruct (IH rest') as [(vs & [Hv Hl] & -> & Hu)|[Hno ->]]; [done|by eapply text_fits_tail|..].
  - left. exists (v :: vs). split; [split; [by econstructor|cbn in *; lia]|]. split; [done|].
    intros vs2 (v2 & vs' & rest2 & [= <-] & -> & Ev & Ha)%Hinv. specialize (Hu vs' Ha). cbn in Hu |- *. by rewrite Ev, Hu.
  - right. split; [|done]. intros vs (v2 & vs' & rest2 & [= <-] & -> & _ & Ha)%Hinv. by apply (Hno vs').
Qed.

(** What has been read fits. *)
Lemma sscanf_fits fmt t vals : sscanf fmt t = Done (Some vals) -> text_fits fmt t.
Proof.
  revert t vals. induction fmt as [|c fmt IH]; intros t vals E vs Hv Hl.
  { destruct vs; [by inversion Hv|by cbn in Hl; lia]. }
  cbn [sscanf] in E. destruct (scan_conv c t) as [[[w r]|]| |] eqn:Es; try done.
  inversion Hv as [? v rest Hs|? v rest vs' Hs Hv']; subst; cbn [length take]; destruct (scan_fits _ _ _ _ _ _ Hs Es) as [Hf ->].
  - constructor; [done|]. constructor.
  - constructor; [done|]. destruct fmt as [|c' fmt]; [destruct vs'; [by inversion Hv'|by cbn in Hl; lia]|].
    rewrite Z.eqb_refl in E. destruct (sscanf (c' :: fmt) rest) as [[vals'|]| |] eqn:E'; try done.
    apply (IH rest vals' E' vs' Hv'). cbn in Hl |- *. lia.
Qed.

Lemma sscanf_all fmt t vals : fmt <> [] -> sscanf fmt t = Done (Some vals) -> exists vs, all_numbers fmt t vs.
Proof.
  intros Hne E. destruct (sscanf_reads fmt t Hne (sscanf_fits _ _ _ E)) as [(vs & Hv & _)|[_ E']]; [by exists vs|].
  by rewrite E in E'.
Qed.

(** ** Lengths *)

Lemma dec_unsigned_at_most n k : 0 <= n < 10 ^ Z.of_nat (S k) -> blen (dec_unsigned n) <= Z.of_nat (S k).
Proof.
  intros Hn. unfold blen, dec_unsigned.
  destruct (dec_digits_spec (S (Z.to_nat (Z.log2 n))) n []) as (ds & -> & _ & _ & _ & Hlen & _).
  { destruct (decide (n = 0)) as [->|]; [done|]. rewrite Nat2Z.inj_succ, Z2Nat.id by apply Z.log2_nonneg.
    split; [lia|]. apply Z.log2_spec. lia. }
  rewrite app_nil_r. specialize (Hlen k ltac:(lia)). lia.
Qed.

Lemma dec_signed_nonneg n : 0 <= n -> dec_signed n = dec_unsigned n.
Proof. intros Hn. unfold dec_signed. by rewrite (proj2 (Z.ltb_ge _ _)) by lia. Qed.

Lemma dec_signed_int n : - 2 ^ 31 <= n < 2 ^ 31 -> blen (dec_signed n) <= 11.
Proof.
  intros Hn. unfold dec_signed. destruct (Z.ltb_spec n 0).
  - pose proof (dec_unsigned_at_most (- n) 9 ltac:(lia)). unfold blen in *. cbn [length]. lia.
  - pose proof (dec_unsigned_at_most n 9 ltac:(lia)). lia.
Qed.

(** ** Messages *)

Definition entry_values (e : raft_entry) : list Z := [ety_term e; ety_id e; ety_session e; ety_type e].

Record entry_wire (e : raft_entry) : Prop := {
  ew_term : 0 <= ety_term e < 2 ^ 63;
  ew_id : - 2 ^ 31 <= ety_id e < 2 ^ 31;
  ew_session : 0 <= ety_session e < 2 ^ 64;
  ew_type : 0 <= ety_type e < 10 ^ 9
}.

Lemma entry_values_ok e : entry_wire e -> Forall2 conv_ok entry_format (entry_values e).
Proof. intros [? ? ? ?]. repeat constructor; cbn; lia. Qed.

(** The text of an entry always fits. *)
Lemma entry_text_fits e : entry_wire e -> snprintf_arg 63 (entry_text e) = Done (entry_text e).
Proof.
  intros [Ht Hi Hs Hy]. unfold snprintf_arg. rewrite (proj2 (Z.ltb_lt _ _)); [done|].
  unfold entry_text, entry_format. cbn [sprintf print_conv]. rewrite !(dec_signed_nonneg (ety_term e)), (dec_signed_nonneg (ety_type e)) by lia.
  pose proof (dec_unsigned_at_most (ety_term e) 18 ltac:(lia)). pose proof (dec_signed_int (ety_id e) Hi).
  pose proof (dec_unsigned_at_most (ety_session e) 19 ltac:(lia)). pose proof (dec_unsigned_at_most (ety_type e) 8 ltac:(lia)).
  unfold blen in *. rewrite !length_app. cbn [length]. rewrite !length_app. cbn [length]. rewrite !length_app. cbn [length]. lia.
Qed.

Lemma entries_arrive es : Forall entry_wire es ->
  exists args, entry_args es = Done args /\ length args = (2 * length es)%nat /\
    forall front i, length front = (5 + 2 * i)%nat -> parse_entries (length es) i (front ++ args) = Done (Some es).
Proof.
  induction 1 as [|e es He Hes (args & E & Hl & Hp)]; [by exists []|]. exists (entry_text e :: ety_data e :: args).
  cbn [entry_args]. rewrite entry_text_fits, E by done. split; [done|]. split; [cbn; lia|]. intros front i Hf.
  cbn [length parse_entries]. rewrite !lookup_app_r by lia.
  replace (6 + 2 * i - length front)%nat with 1%nat by lia. replace (5 + 2 * i - length front)%nat with 0%nat by lia.
  cbn [lookup list_lookup]. unfold entry_text at 1. rewrite scan_text by (by apply entry_values_ok).
  specialize (Hp (front ++ [entry_text e; ety_data e]) (S i)). rewrite <- app_assoc in Hp. cbn [app] in Hp.
  rewrite Hp by (rewrite length_app; cbn; lia). by destruct e.
Qed.

Inductive message :=
| MRequestVote (m : raft_requestvote_req)
| MAppendEntries (m : raft_appendentries_req)
| MSnapshot (m : raft_snapshot_req).

Inductive response :=
| RRequestVote (r : raft_requestvote_resp)
| RAppendEntries (r : raft_appendentries_resp)
| RSnapshot (r : raft_snapshot_resp).

Definition send (link : bool) (target self : Z) (msg : message) : outcome (Z * option (list (list Z))) :=
  match msg with
  | MRequestVote m => Done (raftSendRequestVote link target self m)
  | MAppendEntries m => raftSendAppendEntries link target self m
  | MSnapshot m => Done (raftSendSnapshot link target self m)
  end.

(** The numbers of a response, in the order of the reply. *)
Definition numbers (r : response) : list Z :=
  match r with
  | RRequestVote r => [Z.b2z (rvr_prevote r); rvr_request_term r; rvr_term r; Z.b2z (rvr_vote_granted r)]
  | RAppendEntries r => [aer_term r; Z.b2z (aer_success r); aer_current_idx r; aer_msg_id r]
  | RSnapshot r => [snrr_msg_id r; snrr_snapshot_index r; snrr_term r; snrr_offset r; Z.b2z (snrr_success r); Z.b2z (snrr_last_chunk r)]
  end.

(** The reply with these numbers on the wire. *)
Definition wire_reply (nums : list Z) : redisReply := REDIS_REPLY_ARRAY (REDIS_REPLY_INTEGER ∘ to_long <$> nums).

Lemma wire_reply_items nums : fst (hiredisReplyToModule (R := Empty_set) (wire_reply nums)) = reply_ints nums.
Proof.
  unfold wire_reply, reply_ints. cbn [hiredisReplyToModule fst]. rewrite length_fmap. f_equal.
  induction nums as [|n nums IH]; [done|]. cbn. by f_equal.
Qed.

Definition idx_ok (v : Z) : Prop := 0 <= v < 2 ^ 63.
Definition id_ok (v : Z) : Prop := 0 <= v < 2 ^ 31.
Definition msgid_ok (v : Z) : Prop := 0 <= v < 2 ^ 64.

(** What a message must satisfy to be sent: its numbers have their types, terms and
    indexes are not negative, and the text of AppendEntries fits its buffer. *)
Definition message_ok (msg : message) : Prop :=
  match msg with
  | MRequestVote m =>
      idx_ok (rv_term m) /\ id_ok (rv_candidate_id m) /\ idx_ok (rv_last_log_idx m) /\ idx_ok (rv_last_log_term m)
  | MAppendEntries m =>
      id_ok (ae_leader_id m) /\ idx_ok (ae_term m) /\ idx_ok (ae_prev_log_idx m) /\ idx_ok (ae_prev_log_term m) /\
      idx_ok (ae_leader_commit m) /\ msgid_ok (ae_msg_id m) /\ blen (ae_text m) <= 98 /\
      Forall entry_wire (ae_entries m) /\ Z.of_nat (length (ae_entries m)) < 2 ^ 31
  | MSnapshot m =>
      idx_ok (snr_term m) /\ id_ok (snr_leader_id m) /\ msgid_ok (snr_msg_id m) /\ idx_ok (snr_snapshot_index m) /\
      idx_ok (snr_snapshot_term m) /\ msgid_ok (chunk_offset (snr_chunk m)) /\
      chunk_len (snr_chunk m) = blen (chunk_data (snr_chunk m))
  end.

Definition response_ok (r : response) : Prop :=
  match r with
  | RRequestVote r => idx_ok (rvr_request_term r) /\ idx_ok (rvr_term r)
  | RAppendEntries r => idx_ok (aer_term r) /\ idx_ok (aer_current_idx r) /\ msgid_ok (aer_msg_id r)
  | RSnapshot r => msgid_ok (snrr_msg_id r) /\ idx_ok (snrr_snapshot_index r) /\ idx_ok (snrr_term r) /\ msgid_ok (snrr_offset r)
  end.

Section Messages.
Context {L W : Type} `{LogImpl L} (cb : raft_cbs L W) (fuel : nat).
Context (StringToLongLong : list Z -> option Z) (WrongArity : list Z).
Context (longlong_dec : forall v, 0 <= v < 2 ^ 63 -> StringToLongLong (dec_unsigned v) = Some v).

#[local] Abbreviation Srv := (M (St L W)).

(** What the library of the receiver does with a message. *)
Definition receive (msg : message) : Srv (Z * response) :=
  match msg with
  | MRequestVote m => let* (e, r) := raft_recv_requestvote cb m in ret (e, RRequestVote r)
  | MAppendEntries m => let* (e, r) := raft_recv_appendentries cb m in ret (e, RAppendEntries r)
  | MSnapshot m => let* (e, r) := raft_recv_snapshot cb m in ret (e, RSnapshot r)
  end.

(** What the library of the sender does with a response from node [id].  Responses
    of nodes that are gone are dropped, but for those to AppendEntries, which the
    library drops. *)
Definition deliver (id : Z) (r : response) : Srv unit :=
  me <- get_me ;;
  let p := raft_get_node me id in
  match r with
  | RAppendEntries r => raft_recv_appendentries_response cb fuel p r ;; ret tt
  | RRequestVote r =>
      match p with Some _ => raft_recv_requestvote_response cb fuel p r ;; ret tt | None => ret tt end
  | RSnapshot r =>
      match p with Some _ => raft_recv_snapshot_response cb fuel p r ;; ret tt | None => ret tt end
  end.

(** The handler of the replies to a message. *)
Definition handle_reply (msg : message) : Z -> option redisReply -> Srv bool :=
  match msg with
  | MRequestVote _ => handleRequestVoteResponse cb fuel
  | MAppendEntries _ => handleAppendEntriesResponse cb fuel
  | MSnapshot _ => handleSnapshotResponse cb fuel
  end.

Definition answers (msg : message) (r : response) : Prop :=
  match msg, r with
  | MRequestVote _, RRequestVote _ | MAppendEntries _, RAppendEntries _ | MSnapshot _, RSnapshot _ => True
  | _, _ => False
  end.

(** The reply of the command of a message. *)
Definition respond (msg : message) : Srv (list Item) :=
  let* (e, r) := receive msg in ret (if e =? 0 then reply_ints (numbers r) else reply_err "ERR operation failed").

Lemma id_parses v : id_ok v -> RedisModuleStringToInt StringToLongLong (dec_signed v) = Some v.
Proof.
  intros Hv. unfold id_ok in Hv. unfold RedisModuleStringToInt. rewrite dec_signed_nonneg, longlong_dec by lia.
  by rewrite (proj2 (Z.ltb_ge _ _)), (proj2 (Z.ltb_ge _ _)) by lia.
Qed.

Lemma for_target v : id_ok v -> for_this_node StringToLongLong v (dec_signed v) = true.
Proof. intros Hv. unfold for_this_node. rewrite id_parses by done. apply Z.eqb_refl. Qed.

Lemma flag_b2z b : flag (Z.b2z b) = b.
Proof. by destruct b. Qed.

Lemma to_long_id v : idx_ok v -> to_long v = v.
Proof. unfold idx_ok, to_long. intros Hv. rewrite Z.mod_small by lia. lia. Qed.

Lemma u64_to_long v : msgid_ok v -> u64 (to_long v) = v.
Proof.
  unfold msgid_ok, to_long, u64. intros Hv. rewrite Zminus_mod_idemp_l. replace (v + 2 ^ 63 - 2 ^ 63) with v by lia.
  by rewrite Z.mod_small.
Qed.

Lemma flag_reply b : flag (to_int (to_long (Z.b2z b))) = b.
Proof. by destruct b. Qed.

Lemma reply_numbers_wire nums : reply_numbers (wire_reply nums) = Some (to_long <$> nums).
Proof.
  unfold wire_reply, reply_numbers. induction nums as [|n nums IH]; [done|]. cbn [fmap list_fmap mapM]. cbn [compose].
  cbn in IH |- *. by rewrite IH.
Qed.

Section Arrives.
Context (target self : Z) (Ht : id_ok target) (Hs : id_ok self).

#[local] Abbreviation served := (serve cb StringToLongLong WrongArity REDIS_RAFT_UP target).

Definition arrives (msg : message) (argv : list (list Z)) : Prop :=
  forall s, served argv s = (r <- respond msg ;; ret (Some r)) s.

Ltac receive_it m := destruct (m _) as [[[e r] s']| |]; [|done|done];
  by destruct (Z.eqb_spec e 0) as [->|].

Lemma request_vote_arrives m : message_ok (MRequestVote m) ->
  exists argv, send true target self (MRequestVote m) = Done (0, Some argv) /\ arrives (MRequestVote m) argv.
Proof.
  intros (H1 & H2 & H3 & H4). unfold idx_ok, id_ok in *. eexists. split; [reflexivity|]. intros s.
  unfold serve. cbn [head default from_option id].
  change (is_cmd "raft.ae" _) with false. change (is_cmd "raft.timeout_now" _) with false.
  change (is_cmd "raft.requestvote" _) with true. cbn match.
  unfold cmdRaftRequestVote. cbn [state_error]. rewrite for_target, id_parses by done. cbn [negb].
  rewrite scan_text by (repeat constructor; cbn; destruct (rv_prevote m); cbn; lia).
  unfold respond, receive, bind, lift, ret. rewrite flag_b2z. destruct m as [pv t c li lt]. cbn [rv_prevote rv_term rv_candidate_id rv_last_log_idx rv_last_log_term].
  receive_it (raft_recv_requestvote cb (mk_rv_req pv t c li lt)).
Qed.

Lemma snapshot_arrives m : message_ok (MSnapshot m) ->
  exists argv, send true target self (MSnapshot m) = Done (0, Some argv) /\ arrives (MSnapshot m) argv.
Proof.
  destruct m as [t l mi si st [off data len last]]. intros (H1 & H2 & H3 & H4 & H5 & H6 & H7).
  cbn [snr_term snr_leader_id snr_msg_id snr_snapshot_index snr_snapshot_term snr_chunk chunk_offset chunk_len chunk_data] in *.
  eexists. split; [reflexivity|]. intros s. cbn [snr_term snr_leader_id snr_msg_id snr_snapshot_index snr_snapshot_term snr_chunk chunk_offset chunk_last chunk_len chunk_data].
  unfold serve. cbn [head default from_option id].
  change (is_cmd "raft.ae" _) with false. change (is_cmd "raft.timeout_now" _) with false.
  change (is_cmd "raft.requestvote" _) with false. change (is_cmd "raft.snapshot" _) with true. cbn match.
  unfold cmdRaftSnapshot. cbn [state_error]. rewrite for_target, id_parses by done. cbn [negb].
  unfold idx_ok, id_ok, msgid_ok in *. rewrite !u64_id by lia.
  rewrite scan_text by (repeat constructor; cbn; destruct last; cbn; lia).
  unfold respond, receive, bind, lift, ret. rewrite !to_long_id by done. rewrite flag_b2z. subst len. rewrite take_ge by (unfold blen; lia).
  receive_it (raft_recv_snapshot cb (mk_snap_req t l mi si st (mk_chunk off data (blen data) last))).
Qed.

Lemma append_entries_arrives m : message_ok (MAppendEntries m) ->
  exists argv, send true target self (MAppendEntries m) = Done (0, Some argv) /\ arrives (MAppendEntries m) argv.
Proof.
  intros (H1 & H2 & H3 & H4 & H5 & H6 & H7 & H8 & H9). unfold idx_ok, id_ok, msgid_ok in *.
  destruct (entries_arrive _ H8) as (args & Ea & Hl & Hp).
  assert (forall v, 0 <= v < 2 ^ 31 -> snprintf_arg 11 (dec_signed v) = Done (dec_signed v)) as Hid.
  { intros v Hv. unfold snprintf_arg. rewrite dec_signed_nonneg by lia. pose proof (dec_unsigned_at_most v 9 ltac:(lia)).
    by rewrite (proj2 (Z.ltb_lt _ _)) by lia. }
  cbn [send]. unfold raftSendAppendEntries. cbn [negb]. rewrite !Hid, Ea by (unfold id_ok in *; lia).
  unfold snprintf_arg at 1. rewrite (proj2 (Z.ltb_lt _ _)) by lia. eexists. split; [reflexivity|]. intros s.
  unfold serve. cbn [head default from_option id]. change (is_cmd "raft.ae" _) with true. cbn match.
  unfold cmdRaftAppendEntries. cbn [state_error]. rewrite for_target, id_parses by done. cbn [negb].
  rewrite dec_signed_nonneg, longlong_dec by lia.
  rewrite (proj2 (Z.ltb_ge _ _)), (proj2 (Z.ltb_ge _ _)) by lia. cbn [orb].
  rewrite (proj2 (Z.eqb_eq _ _)) by (cbn [length]; rewrite Hl; lia). cbn [negb].
  unfold ae_text. rewrite scan_text by (repeat constructor; cbn; lia).
  unfold respond, receive, bind, lift, ret. rewrite Nat2Z.id. specialize (fun a b c d e => Hp [a; b; c; d; e] 0%nat eq_refl) as Hp'.
  cbn [app] in Hp'. rewrite Hp'. destruct m as [l mi t pi pt lc es].
  cbn [ae_leader_id ae_term ae_prev_log_idx ae_prev_log_term ae_leader_commit ae_msg_id ae_entries].
  receive_it (raft_recv_appendentries cb (mk_ae_req l mi t pi pt lc es)).
Qed.

End Arrives.

Lemma response_arrives msg r id s : answers msg r -> response_ok r ->
  handle_reply msg id (Some (wire_reply (numbers r))) s = (deliver id r ;; ret false) s.
Proof.
  intros Ha Hr. destruct msg, r as [r|r|r]; try done;
    [destruct r as [a1 a2 a3 a4]|destruct r as [a1 a2 a3 a4]|destruct r as [a1 a2 a3 a4 a5 a6]]; cbn in Hr; destruct_and?; cbn [handle_reply].
  - unfold handleRequestVoteResponse. rewrite reply_numbers_wire. cbn [numbers fmap list_fmap].
    cbn [rvr_prevote rvr_request_term rvr_term rvr_vote_granted]. rewrite !flag_reply, !to_long_id by done.
    unfold deliver, get_me, bind, gets, get, ret. destruct (raft_get_node _ id); [|done].
    by destruct (raft_recv_requestvote_response _ _ _ _ _) as [[? ?]| |].
  - unfold handleAppendEntriesResponse. rewrite reply_numbers_wire. cbn [numbers fmap list_fmap].
    cbn [aer_term aer_success aer_current_idx aer_msg_id]. rewrite flag_reply, u64_to_long, !to_long_id by done.
    unfold deliver, get_me, bind, gets, get, ret.
    by destruct (raft_recv_appendentries_response _ _ _ _ _) as [[? ?]| |].
  - unfold handleSnapshotResponse. rewrite reply_numbers_wire. cbn [numbers fmap list_fmap].
    cbn [snrr_msg_id snrr_snapshot_index snrr_term snrr_offset snrr_success snrr_last_chunk].
    rewrite !flag_reply, !u64_to_long, !to_long_id by done.
    unfold deliver, get_me, bind, gets, get, ret. destruct (raft_get_node _ id); [|done].
    by destruct (raft_recv_snapshot_response _ _ _ _ _) as [[? ?]| |].
Qed.

(** C17 (roundtrip). Messages arrive as they were sent.  A RequestVote, AppendEntries
    or snapshot message with any entries that the library of one server sends over a
    connection is given to the library of the other exactly as it was; and the
    response that this library returns is given, exactly as it is, to the library
    of the sender, unless the sender does not know the node any more.  Nothing else
    happens on either side. *)
Theorem messages_arrive (target self : Z) (msg : message) :
  id_ok target -> id_ok self -> message_ok msg ->
  exists argv, send true target self msg = Done (0, Some argv) /\
    (forall s, serve cb StringToLongLong WrongArity REDIS_RAFT_UP target argv s = (r <- respond msg ;; ret (Some r)) s) /\
    (forall r id s, answers msg r -> response_ok r ->
       fst (hiredisReplyToModule (wire_reply (numbers r))) = reply_ints (numbers r) /\
       handle_reply msg id (Some (wire_reply (numbers r))) s = (deliver id r ;; ret false) s).
Proof.
  intros Ht Hs Hm.
  assert (exists argv, send true target self msg = Done (0, Some argv) /\ arrives target msg argv) as (argv & Es & Harr).
  { destruct msg as [m|m|m]; [by apply request_vote_arrives|by apply append_entries_arrives|by apply snapshot_arrives]. }
  exists argv. split; [exact Es|]. split; [exact Harr|]. intros r id s Ha Hr.
  split; [apply wire_reply_items|by apply response_arrives].
Qed.

(** ** What else can be sent

    What the commands promise, in the order in which they check it: what has to
    hold, and the error if it does not. *)
Inductive rpc := RPC_REQUESTVOTE | RPC_AE | RPC_SNAPSHOT.

Definition command_of (k : rpc) : RedisRaftState -> Z -> list (list Z) -> Srv (list Item) :=
  match k with
  | RPC_REQUESTVOTE => cmdRaftRequestVote cb StringToLongLong WrongArity
  | RPC_AE => cmdRaftAppendEntries cb StringToLongLong WrongArity
  | RPC_SNAPSHOT => cmdRaftSnapshot cb StringToLongLong WrongArity
  end.

(** The argument is the number. *)
Definition arg_number (argv : list (list Z)) (i : nat) (v : Z) : Prop :=
  exists a, argv !! i = Some a /\ StringToLongLong a = Some v.

(** The argument is the [int]. *)
Definition arg_int (argv : list (list Z)) (i : nat) (v : Z) : Prop := arg_number argv i v /\ - 2 ^ 31 <= v < 2 ^ 31.

(** The argument, as a C string, starts with the numbers. *)
Definition arg_numbers (argv : list (list Z)) (i : nat) (vs : list Z) : Prop :=
  exists a, argv !! i = Some a /\ numbers_at (c_string a) vs.

(** The arguments of the entry [i]. *)
Definition says_entry (argv : list (list Z)) (i : nat) (e : raft_entry) : Prop :=
  exists term id session type data,
    arg_numbers argv (5 + 2 * i) [term; id; session; type] /\ argv !! (6 + 2 * i)%nat = Some data /\
    e = mk_entry term id (u64 session) type data.

(** The message that the arguments are. *)
Inductive says (argv : list (list Z)) : rpc -> message -> Prop :=
| says_requestvote prevote term candidate last_idx last_term :
    arg_numbers argv 3 [prevote; term; candidate; last_idx; last_term] ->
    says argv RPC_REQUESTVOTE (MRequestVote (mk_rv_req (negb (prevote =? 0)) term candidate last_idx last_term))
| says_ae leader term prev_idx prev_term commit msg_id es :
    arg_numbers argv 3 [leader; term; prev_idx; prev_term; commit; msg_id] ->
    arg_number argv 4 (Z.of_nat (length es)) -> (forall i e, es !! i = Some e -> says_entry argv i e) ->
    says argv RPC_AE (MAppendEntries (mk_ae_req leader (u64 msg_id) term prev_idx prev_term commit es))
| says_snapshot term leader msg_id idx snap_term offset last data :
    arg_numbers argv 3 [term; leader; msg_id; idx; snap_term; offset; last] -> argv !! 4%nat = Some data ->
    says argv RPC_SNAPSHOT (MSnapshot (mk_snap_req (to_long (u64 term)) leader (u64 msg_id) (to_long (u64 idx))
      (to_long (u64 snap_term)) (mk_chunk (u64 offset) data (blen data) (negb (last =? 0))))).

Definition check : Type := Prop * list Item.

Definition state_check (state : RedisRaftState) : check :=
  (state = REDIS_RAFT_UP,
   reply_err match state with
             | REDIS_RAFT_UNINITIALIZED => "NOCLUSTER No Raft Cluster"
             | REDIS_RAFT_JOINING => "NOCLUSTER No Raft Cluster (joining now)"
             | _ => "LOADING Raft module is loading data"
             end).

Definition arity_error : list Item := [IReply (ReplyError WrongArity)].

(** The numbers at the start of the argument are as many. *)
Definition readable (argv : list (list Z)) (i n : nat) : Prop := exists vs, length vs = n /\ arg_numbers argv i vs.

Definition checks (k : rpc) (state : RedisRaftState) (id : Z) (argv : list (list Z)) : list check :=
  match k with
  | RPC_REQUESTVOTE =>
      [(length argv = 4%nat, arity_error); state_check state;
       (arg_int argv 1 id, reply_err "ERR invalid target node id");
       (exists src, arg_int argv 2 src, reply_err "ERR invalid source node id");
       (readable argv 3 5, reply_err "ERR invalid message")]
  | RPC_AE =>
      [((5 <= length argv)%nat, arity_error); state_check state;
       (arg_int argv 1 id, reply_err "invalid or incorrect target node id");
       (exists n, arg_number argv 4 n, reply_err "invalid n_entries value");
       (exists n, arg_number argv 4 (Z.of_nat n) /\ length argv = (5 + 2 * n)%nat, arity_error);
       (exists src, arg_int argv 2 src, reply_err "invalid source node id");
       (readable argv 3 6, reply_err "invalid message");
       (forall i, (5 + 2 * i < length argv)%nat -> readable argv (5 + 2 * i) 4, reply_err "invalid entry")]
  | RPC_SNAPSHOT =>
      [(length argv = 5%nat, arity_error); state_check state;
       (arg_int argv 1 id, reply_err "ERR invalid or incorrect target node id");
       (exists src, arg_int argv 2 src, reply_err "invalid source node id");
       (readable argv 3 7, reply_err "invalid message")]
  end.

(** The first check that does not hold decides; [None]: all hold. *)
Inductive judge : list check -> option (list Item) -> Prop :=
| judge_pass : judge [] None
| judge_fail (P : Prop) err cs : ~ P -> judge ((P, err) :: cs) (Some err)
| judge_next (P : Prop) err cs r : P -> judge cs r -> judge ((P, err) :: cs) r.

(** The numbers in the arguments fit the types they are read into: C does not define
    what is read otherwise. *)
Definition numbers_fit (k : rpc) (argv : list (list Z)) : Prop :=
  let fits fmt i := forall a, argv !! i = Some a -> text_fits fmt (c_string a) in
  match k with
  | RPC_REQUESTVOTE => fits [CONV_d; CONV_ld; CONV_d; CONV_ld; CONV_ld] 3%nat
  | RPC_AE =>
      fits [CONV_d; CONV_ld; CONV_ld; CONV_ld; CONV_ld; CONV_lu] 3%nat /\
      (forall n, arg_number argv 4 n -> - 2 ^ 62 <= n <= 2 ^ 62 - 3) /\
      forall i, fits [CONV_ld; CONV_d; CONV_lu; CONV_d] (5 + 2 * i)%nat
  | RPC_SNAPSHOT => fits [CONV_lu; CONV_d; CONV_lu; CONV_lu; CONV_lu; CONV_lu; CONV_d] 3%nat
  end.

Lemma judge_unique cs v v' : judge cs v -> judge cs v' -> v = v'.
Proof.
  intros Hj. revert v'. induction Hj as [|P err cs HP|P err cs r HP Hj IH]; intros v' Hj'; inversion Hj'; subst; try done.
  by apply IH.
Qed.

(** What a command that follows the checks [cs] does; [m] is the command. *)
Definition follows (k : rpc) (argv : list (list Z)) (cs : list check) (m : Srv (list Item)) : Prop := forall s,
  exists v, judge cs v /\
    match v with
    | Some err => m s = Done (err, s)
    | None => exists msg, says argv k msg /\ (forall msg', says argv k msg' -> msg' = msg) /\ m s = respond msg s
    end.

Lemma follows_fail k argv (P : Prop) err cs : ~ P -> follows k argv ((P, err) :: cs) (ret err).
Proof. intros HP s. exists (Some err). split; [by constructor|done]. Qed.

Lemma follows_next k argv (P : Prop) err cs m : P -> follows k argv cs m -> follows k argv ((P, err) :: cs) m.
Proof. intros HP Hm s. destruct (Hm s) as (v & Hj & Hv). exists v. split; [by constructor|done]. Qed.

Lemma follows_pass k argv m msg : says argv k msg -> (forall msg', says argv k msg' -> msg' = msg) ->
  (forall s, m s = respond msg s) -> follows k argv [] m.
Proof. intros H1 H2 H3 s. exists None. split; [constructor|by exists msg]. Qed.

(** The first arguments are checked. *)
Lemma follows_state k argv state cs m : follows k argv cs m ->
  follows k argv (state_check state :: cs) (match state_error state with Some msg => ret (reply_err msg) | None => m end).
Proof. intros Hm. destruct state; cbn; first [by apply follows_fail|by apply follows_next]. Qed.

Lemma string_to_int a v : RedisModuleStringToInt StringToLongLong a = Some v <->
  StringToLongLong a = Some v /\ - 2 ^ 31 <= v < 2 ^ 31.
Proof.
  unfold RedisModuleStringToInt. destruct (StringToLongLong a) as [w|]; [|by split; [|intros []]].
  destruct ((w <? - 2 ^ 31) || (2 ^ 31 - 1 <? w)) eqn:E; split; [done|intros [[= ->] ?]; lia|intros [= ->]; split; [done|lia]|by intros [[= ->] _]].
Qed.

Lemma arg_int_at argv i a v : argv !! i = Some a ->
  arg_int argv i v <-> RedisModuleStringToInt StringToLongLong a = Some v.
Proof.
  intros Ha. rewrite string_to_int. unfold arg_int, arg_number. split.
  - intros [(? & Ha' & ?) ?]. rewrite Ha in Ha'. by injection Ha' as <-.
  - intros [? ?]. eauto.
Qed.

Lemma follows_target k argv id err cs m a : argv !! 1%nat = Some a -> follows k argv cs m ->
  follows k argv ((arg_int argv 1 id, err) :: cs) (if negb (for_this_node StringToLongLong id a) then ret err else m).
Proof.
  intros Ha Hm. unfold for_this_node. pose proof (arg_int_at argv 1 a id Ha) as Hi.
  destruct (RedisModuleStringToInt StringToLongLong a) as [v|]; [destruct (Z.eqb_spec v id) as [->|Hne]|]; cbn [negb].
  - apply follows_next; [by apply Hi|done].
  - apply follows_fail. rewrite Hi. congruence.
  - apply follows_fail. by rewrite Hi.
Qed.

Lemma follows_source k argv err cs m a : argv !! 2%nat = Some a -> follows k argv cs m ->
  follows k argv ((exists src, arg_int argv 2 src, err) :: cs)
    (match RedisModuleStringToInt StringToLongLong a with None => ret err | Some _ => m end).
Proof.
  intros Ha Hm. pose proof (fun v => arg_int_at argv 2 a v Ha) as Hi.
  destruct (RedisModuleStringToInt StringToLongLong a) as [v|].
  - apply follows_next; [exists v; by apply Hi|done].
  - apply follows_fail. by intros (v & Hv%Hi).
Qed.

(** The header is read. *)
Lemma follows_header k argv fmt err cs (f : option (list Z) -> Srv (list Item)) a :
  fmt <> [] -> argv !! 3%nat = Some a -> text_fits fmt (c_string a) -> f None = ret err ->
  (forall vs, arg_numbers argv 3 vs -> length vs = length fmt ->
     (forall vs', arg_numbers argv 3 vs' -> length vs' = length fmt -> zip_with conv_stored fmt vs' = zip_with conv_stored fmt vs) ->
     follows k argv cs (f (Some (zip_with conv_stored fmt vs)))) ->
  follows k argv ((readable argv 3 (length fmt), err) :: cs) (vals <- lift (sscanf fmt (c_string a)) ;; f vals).
Proof.
  intros Hne Ha Hfit Hnone Hsome.
  assert (forall vs, arg_numbers argv 3 vs <-> numbers_at (c_string a) vs) as Hnum.
  { intros vs. unfold arg_numbers. rewrite Ha. split; [by intros (? & [= <-] & ?)|eauto]. }
  destruct (sscanf_reads fmt (c_string a) Hne Hfit) as [(vs & [Hv Hl] & E & Hu)|[Hno E]].
  - intros s. unfold bind, lift. rewrite E. revert s. apply follows_next; [exists vs; by rewrite Hnum|].
    apply Hsome; [by apply Hnum|done|]. intros vs' Hv' Hl'. apply Hu. split; [by apply Hnum|done].
  - intros s. unfold bind, lift. rewrite E, Hnone. revert s. apply follows_fail.
    intros (vs & Hl & Hv%Hnum). by apply (Hno vs).
Qed.

(** The library has the last word. *)
Lemma library_responds {A} (m : Srv (Z * A)) (c : A -> response) (ints : A -> list Item) msg s :
  receive msg = (let* (e, r) := m in ret (e, c r)) -> (forall a, ints a = reply_ints (numbers (c a))) ->
  (let* (e, r) := m in if negb (e =? 0) then ret (reply_err "ERR operation failed") else ret (ints r)) s = respond msg s.
Proof.
  intros Er Hi. unfold respond. rewrite Er. unfold bind, ret. destruct (m s) as [[[e r] s']| |]; [|done..].
  destruct (e =? 0); cbn; by rewrite ?Hi.
Qed.

Lemma requestvote_follows state id argv : numbers_fit RPC_REQUESTVOTE argv ->
  follows RPC_REQUESTVOTE argv (checks RPC_REQUESTVOTE state id argv) (command_of RPC_REQUESTVOTE state id argv).
Proof.
  intros Hfit. cbn [checks command_of]. unfold cmdRaftRequestVote.
  destruct argv as [|c [|target [|src [|text [|]]]]]; try by apply follows_fail.
  apply follows_next; [done|]. apply follows_state, (follows_target _ _ _ _ _ _ target), (follows_source _ _ _ _ _ src); [done..|].
  apply (follows_header _ _ rv_format); [done..|by apply Hfit|done|].
  intros vs Hv Hl Hu. destruct vs as [|pv [|t [|ci [|li [|lt [|]]]]]]; try done. cbn [zip_with conv_stored rv_format].
  eapply follows_pass; [by constructor| |].
  - intros msg' H'. inversion H' as [? ? ? ? ? Hv'| |]; subst. specialize (Hu _ Hv' eq_refl). cbn in Hu. injection Hu. intros. congruence.
  - intros s. eapply (library_responds _ RRequestVote _ (MRequestVote _)); done.
Qed.

Lemma snapshot_follows state id argv : numbers_fit RPC_SNAPSHOT argv ->
  follows RPC_SNAPSHOT argv (checks RPC_SNAPSHOT state id argv) (command_of RPC_SNAPSHOT state id argv).
Proof.
  intros Hfit. cbn [checks command_of]. unfold cmdRaftSnapshot.
  destruct argv as [|c [|target [|src [|text [|data [|]]]]]]; try by apply follows_fail.
  apply follows_next; [done|]. apply follows_state, (follows_target _ _ _ _ _ _ target), (follows_source _ _ _ _ _ src); [done..|].
  apply (follows_header _ _ snap_format); [done..|by apply Hfit|done|].
  intros vs Hv Hl Hu. destruct vs as [|t [|l [|mi [|si [|st [|off [|last [|]]]]]]]]; try done. cbn [zip_with conv_stored snap_format].
  eapply follows_pass; [by constructor| |].
  - intros msg' H'. inversion H' as [| |? ? ? ? ? ? ? d Hv' Hd]; subst. specialize (Hu _ Hv' eq_refl). cbn in Hu, Hd. injection Hu. intros. congruence.
  - intros s. eapply (library_responds _ RSnapshot _ (MSnapshot _)); done.
Qed.

(** The header of an entry. *)
Lemma entry_header argv i a : argv !! (5 + 2 * i)%nat = Some a -> text_fits entry_format (c_string a) ->
  (exists t id se ty, sscanf entry_format (c_string a) = Done (Some [t; id; u64 se; ty]) /\
     arg_numbers argv (5 + 2 * i) [t; id; se; ty] /\
     forall t' id' se' ty', arg_numbers argv (5 + 2 * i) [t'; id'; se'; ty'] -> [t'; id'; u64 se'; ty'] = [t; id; u64 se; ty]) \/
  (~ readable argv (5 + 2 * i) 4 /\ sscanf entry_format (c_string a) = Done None).
Proof.
  intros Ha Hf. unfold readable, arg_numbers. rewrite Ha.
  destruct (sscanf_reads entry_format (c_string a)) as [(vs & [Hv Hl] & E & Hu)|[Hno E]]; [done..| |]; rewrite E.
  - left. destruct vs as [|t [|id [|se [|ty [|]]]]]; try done. exists t, id, se, ty. split_and!; [done|eauto|].
    intros t' id' se' ty' (? & [= <-] & Hv'). by apply (Hu [t'; id'; se'; ty']).
  - right. split; [|done]. intros (vs & Hl & ? & [= <-] & Hv). by apply (Hno vs).
Qed.

Lemma parse_entries_reads argv n : forall i, length argv = (5 + 2 * (i + n))%nat ->
  (forall j a, argv !! (5 + 2 * j)%nat = Some a -> text_fits entry_format (c_string a)) ->
  (exists es, length es = n /\ parse_entries n i argv = Done (Some es) /\
     (forall j e, es !! j = Some e -> says_entry argv (i + j) e) /\
     forall j e, (j < n)%nat -> says_entry argv (i + j) e -> es !! j = Some e) \/
  (exists j, (i <= j < i + n)%nat /\ ~ readable argv (5 + 2 * j) 4) /\ parse_entries n i argv = Done None.
Proof.
  induction n as [|n IH]; intros i Hl Hfit; cbn [parse_entries].
  { left. exists []. split_and!; [done..|lia]. }
  destruct (lookup_lt_is_Some_2 argv (6 + 2 * i)) as [data Hd]; [lia|].
  destruct (lookup_lt_is_Some_2 argv (5 + 2 * i)) as [a Ha]; [lia|]. rewrite Hd, Ha.
  destruct (entry_header argv i a Ha (Hfit i a Ha)) as [(t & id & se & ty & -> & Hv & Hu)|[Hno ->]].
  2: { right. split; [|done]. exists i. split; [lia|done]. }
  destruct (IH (S i)) as [(es & Hle & -> & Hes & Hue)|[(j & Hj & Hno) ->]]; [lia|done|..].
  2: { right. split; [|done]. exists j. split; [lia|done]. }
  left. eexists. split; [|split; [reflexivity|]]; [cbn; lia|]. split.
  - intros [|j] e He; [injection He as <-; rewrite Nat.add_0_r; by exists t, id, se, ty, data|].
    replace (i + S j)%nat with (S i + j)%nat by lia. by apply Hes.
  - intros [|j] e Hj He.
    + rewrite Nat.add_0_r in He. destruct He as (t' & id' & se' & ty' & d & Hv' & Hd' & ->).
      rewrite Hd in Hd'. injection Hd' as <-. specialize (Hu _ _ _ _ Hv'). injection Hu as -> -> -> ->. done.
    + replace (i + S j)%nat with (S i + j)%nat in He by lia. cbn. apply Hue; [lia|done].
Qed.

(** The entries are read, after the header. *)
Lemma entries_follow argv l mi t pi pt lc (n : nat) :
  arg_number argv 4 (Z.of_nat n) -> length argv = (5 + 2 * n)%nat ->
  (forall j a, argv !! (5 + 2 * j)%nat = Some a -> text_fits entry_format (c_string a)) ->
  (forall l' t' pi' pt' lc' mi', arg_numbers argv 3 [l'; t'; pi'; pt'; lc'; mi'] ->
     [l'; t'; pi'; pt'; lc'; u64 mi'] = [l; t; pi; pt; lc; u64 mi]) ->
  arg_numbers argv 3 [l; t; pi; pt; lc; mi] ->
  follows RPC_AE argv [(forall i, (5 + 2 * i < length argv)%nat -> readable argv (5 + 2 * i) 4, reply_err "invalid entry")]
    (entries <- lift (parse_entries n 0 argv) ;;
     match entries with
     | None => ret (reply_err "invalid entry")
     | Some es =>
         let* (e, resp) := raft_recv_appendentries cb (mk_ae_req l (u64 mi) t pi pt lc es) in
         if negb (e =? 0) then ret (reply_err "ERR operation failed") else
         ret (reply_ints [aer_term resp; Z.b2z (aer_success resp); aer_current_idx resp; aer_msg_id resp])
     end).
Proof.
  intros Hn Hl Hfit Hu Hv.
  destruct (parse_entries_reads argv n 0 ltac:(lia) Hfit) as [(es & Hle & E & Hes & Hue)|[(j & Hj & Hno) E]]; intros s; unfold lift, bind at 1; rewrite E; revert s.
  2: { apply follows_fail. intros Hall. apply Hno, Hall. lia. }
  assert (says argv RPC_AE (MAppendEntries (mk_ae_req l (u64 mi) t pi pt lc es))) as Hsays.
  { apply says_ae; [done|by rewrite Hle|]. intros i e He. by apply (Hes i). }
  apply follows_next.
  { intros i Hi. destruct (lookup_lt_is_Some_2 es i) as [e He]; [lia|]. destruct (Hes i e He) as (? & ? & ? & ? & ? & Hr & _).
    eexists. split; [|exact Hr]. done. }
  eapply follows_pass; [exact Hsays| |].
  - intros msg' H'. inversion H' as [|l' t' pi' pt' lc' mi' es' Hv' Hn' Hes'|]; subst.
    specialize (Hu _ _ _ _ _ _ Hv'). injection Hu as -> -> -> -> -> ->. do 2 f_equal.
    assert (length es' = length es) as Hle'.
    { destruct Hn as (a & Ha & Hs), Hn' as (a' & Ha' & Hs'). rewrite Ha in Ha'. injection Ha' as <-.
      rewrite Hs in Hs'. injection Hs'. lia. }
    apply list_eq_same_length with (n := length es); [done|by rewrite Hle'|].
    intros i x y Hi Hx Hy. specialize (Hue i x Hi (Hes' i x Hx)). congruence.
  - intros s. eapply (library_responds _ RAppendEntries _ (MAppendEntries _)); done.
Qed.

Lemma ae_follows state id argv : numbers_fit RPC_AE argv ->
  follows RPC_AE argv (checks RPC_AE state id argv) (command_of RPC_AE state id argv).
Proof.
  intros (Hhead & Hnum & Hent). cbn [checks command_of]. unfold cmdRaftAppendEntries.
  destruct argv as [|c [|target [|src [|text [|num args]]]]]; try (apply follows_fail; cbn; lia).
  apply follows_next; [cbn; lia|]. apply follows_state, (follows_target _ _ _ _ _ _ target); [done|].
  set (argv := c :: target :: src :: text :: num :: args) in *.
  assert (forall n, arg_number argv 4 n <-> StringToLongLong num = Some n) as Harg.
  { intros n. unfold arg_number. split; [by intros (? & [= <-] & ?)|]. intros E. by exists num. }
  destruct (StringToLongLong num) as [n|] eqn:En.
  2: { apply follows_fail. by intros (n & ?%Harg). }
  pose proof (Hnum n (proj2 (Harg n) eq_refl)) as Hr. apply follows_next; [exists n; by apply Harg|].
  rewrite (proj2 (Z.ltb_ge _ _)), (proj2 (Z.ltb_ge _ _)) by lia. cbn [orb].
  destruct (Z.eqb_spec (Z.of_nat (length argv)) (5 + 2 * n)) as [Hl|Hl]; cbn [negb].
  2: { apply follows_fail. intros (m & Hm%Harg & Hlm). injection Hm as ->. lia. }
  assert (5 <= length argv)%nat by (cbn; lia).
  assert (arg_number argv 4 (Z.of_nat (Z.to_nat n))) as Hn by (apply Harg; f_equal; lia).
  assert (length argv = (5 + 2 * Z.to_nat n)%nat) as Hl' by lia.
  apply follows_next; [by exists (Z.to_nat n)|]. apply (follows_source _ _ _ _ _ src); [done|].
  apply (follows_header _ _ ae_format); [done..|by apply Hhead|done|].
  intros vs Hv Hlv Hu. destruct vs as [|l [|t [|pi [|pt [|lc [|mi [|]]]]]]]; try done. cbn [zip_with conv_stored ae_format].
  apply (entries_follow argv l mi t pi pt lc); [exact Hn|exact Hl'|exact Hent| |exact Hv].
  intros l' t' pi' pt' lc' mi' Hv'. by apply (Hu [l'; t'; pi'; pt'; lc'; mi']).
Qed.


End Messages.

(** ** On a server of the demo cluster *)

Definition wire_entries : list raft_entry := [mk_entry 3 17 9 RAFT_LOGTYPE_NORMAL [1; 0; 255]; mk_entry 4 (-5) 0 RAFT_LOGTYPE_NO_OP []].

Definition wire_message : message := MAppendEntries (mk_ae_req 1 7 4 2 3 2 wire_entries).

Lemma messages_arrive_witness :
  message_ok wire_message /\
  exists argv, send true 2 1 wire_message = Done (0, Some argv) /\
    (forall s, serve (demo_cbs 2) demo_longlong [] REDIS_RAFT_UP 2 argv s = (r <- respond (demo_cbs 2) wire_message ;; ret (Some r)) s) /\
    (forall r id s, answers wire_message r -> response_ok r ->
       fst (hiredisReplyToModule (wire_reply (numbers r))) = reply_ints (numbers r) /\
       handle_reply (demo_cbs 2) 5 wire_message id (Some (wire_reply (numbers r))) s = (deliver (demo_cbs 2) 5 id r ;; ret false) s).
Proof.
  assert (message_ok wire_message) as Hok.
  { vm_compute. repeat split; try done; repeat constructor; done. }
  split; [exact Hok|].
  apply (messages_arrive (demo_cbs 2) 5 demo_longlong [] demo_longlong_dec 2 1 wire_message); [done|done|exact Hok].
Defined.

(** A text of AppendEntries that is one byte too long is cut: the other server reads
    another message. *)
Example append_entries_text_cut :
  let m := mk_ae_req 1 12345678901234567890 (10 ^ 18) (10 ^ 17) (10 ^ 17) (10 ^ 17) [] in
  blen (ae_text m) = 99 /\
  match raftSendAppendEntries true 2 1 m with
  | Done (0, Some argv) => sscanf ae_format (c_string (nth 3 argv [])) = Done (Some [1; 10 ^ 18; 10 ^ 17; 10 ^ 17; 10 ^ 17; 1234567890123456789])
  | _ => False
  end.
Proof. by vm_compute. Qed.

(** Node 1 asks node 2 for its vote, in arguments as they come. *)
Definition vote_argv : list (list Z) :=
  [bytes_of "raft.requestvote"; bytes_of "2"; bytes_of "1"; bytes_of "0:5:1:0:0"].

(** Node 1 also asks for less, and gets the errors of the first checks that fail. *)
Example malformed_messages :
  command_of (demo_cbs 2) demo_longlong [] RPC_REQUESTVOTE REDIS_RAFT_UP 2
    [bytes_of "raft.requestvote"; bytes_of "2"; bytes_of "1"; bytes_of "0:5:1:0"] (demo_server 2) =
    Done (reply_err "ERR invalid message", demo_server 2) /\
  command_of (demo_cbs 2) demo_longlong [] RPC_AE REDIS_RAFT_UP 2
    [bytes_of "raft.ae"; bytes_of "2"; bytes_of "1"; bytes_of "1:5:0:0:0:1"; bytes_of "1"; bytes_of "5:1:0"; []] (demo_server 2) =
    Done (reply_err "invalid entry", demo_server 2) /\
  command_of (demo_cbs 2) demo_longlong [] RPC_AE REDIS_RAFT_UP 2
    [bytes_of "raft.ae"; bytes_of "3"; bytes_of "1"; bytes_of "1:5:0:0:0:1"; bytes_of "0"] (demo_server 2) =
    Done (reply_err "invalid or incorrect target node id", demo_server 2).
Proof. by vm_compute. Qed.

