(* ===== verification/Connection.v ===== *)
(** * Connections between servers ([redisraft/src/connection.c], [node.c]; [hiredis])

    A server keeps a connection to every other node: a state that the module
    drives (resolving, connecting, connected), and a context of the hiredis library
    that calls back when something happens on the socket.  A context that goes away
    calls back all commands that are waiting for replies, and these callbacks may
    mark the connection disconnected while it is being torn down; connections that
    are to end are freed by the library's cleanup, or by the timer.  The part of
    hiredis ([deps/hiredis/async.c]) that decides this is modelled with it. *)

From stdpp Require Import base list numbers tactics gmap.
From S2P Require Import Prelude.

Local Open Scope Z_scope.

(** ** Data *)

Inductive ConnState := CONN_DISCONNECTED | CONN_RESOLVING | CONN_CONNECTING | CONN_CONNECTED | CONN_CONNECT_ERROR.

#[export] Instance ConnState_eq_dec : EqDecision ConnState.
Proof. solve_decision. Defined.

(** Of [Connection]: the state, the flag CONN_TERMINATING, the context, the owner,
    whether there are a user name and a password, the error code of
    [addrinfo_result], and whether a connect callback is set. *)
Record Connection := mk_conn {
  cn_state : ConnState;
  cn_terminating : bool;
  cn_rc : option Z;
  cn_privdata : Z;
  cn_auth : bool;
  cn_resolved : Z;
  cn_callback : bool;
  cn_connect_oks : Z;
  cn_connect_errors : Z
}.
#[export] Instance eta_conn : Eta Connection := fun c =>
  mk_conn (cn_state c) (cn_terminating c) (cn_rc c) (cn_privdata c) (cn_auth c) (cn_resolved c) (cn_callback c)
    (cn_connect_oks c) (cn_connect_errors c).
#[export] Instance set_cn_state : Setter cn_state := ltac:(solve_setter).
#[export] Instance set_cn_terminating : Setter cn_terminating := ltac:(solve_setter).
#[export] Instance set_cn_rc : Setter cn_rc := ltac:(solve_setter).
#[export] Instance set_cn_resolved : Setter cn_resolved := ltac:(solve_setter).
#[export] Instance set_cn_callback : Setter cn_callback := ltac:(solve_setter).
#[export] Instance set_cn_connect_oks : Setter cn_connect_oks := ltac:(solve_setter).
#[export] Instance set_cn_connect_errors : Setter cn_connect_errors := ltac:(solve_setter).

Record PendingResponse := mk_pending { pr_proxy : bool; pr_request_time : Z }.

Record Node := mk_peer {
  pn_id : Z;
  pn_conn : Z;
  pn_pending : list PendingResponse;
  pn_raft_num : Z;
  pn_proxy_num : Z
}.
#[export] Instance eta_peer : Eta Node := fun n =>
  mk_peer (pn_id n) (pn_conn n) (pn_pending n) (pn_raft_num n) (pn_proxy_num n).
#[export] Instance set_pn_pending : Setter pn_pending := ltac:(solve_setter).
#[export] Instance set_pn_raft_num : Setter pn_raft_num := ltac:(solve_setter).
#[export] Instance set_pn_proxy_num : Setter pn_proxy_num := ltac:(solve_setter).

(** What is called when a reply comes, with its [privdata]: [handleAuth], one of
    the handlers of Raft messages, [handleProxiedCommandResponse], or nothing. *)
Inductive callback := CbAuth (conn : Z) | CbRaft (node : Z) | CbProxy (node : Z) | CbNone.

(** Of [redisAsyncContext]: [data], set together with [dataCleanup] and the
    callbacks; REDIS_CONNECTED, REDIS_IN_CALLBACK, REDIS_FREEING and
    REDIS_DISCONNECTING; whether [err] is set; and the callbacks that wait. *)
Record redisAsyncContext := mk_ac {
  ac_data : option Z;
  ac_connected : bool;
  ac_in_callback : bool;
  ac_freeing : bool;
  ac_disconnecting : bool;
  ac_err : bool;
  ac_replies : list callback
}.
#[export] Instance eta_ac : Eta redisAsyncContext := fun a =>
  mk_ac (ac_data a) (ac_connected a) (ac_in_callback a) (ac_freeing a) (ac_disconnecting a) (ac_err a) (ac_replies a).
#[export] Instance set_ac_data : Setter ac_data := ltac:(solve_setter).
#[export] Instance set_ac_connected : Setter ac_connected := ltac:(solve_setter).
#[export] Instance set_ac_in_callback : Setter ac_in_callback := ltac:(solve_setter).
#[export] Instance set_ac_freeing : Setter ac_freeing := ltac:(solve_setter).
#[export] Instance set_ac_disconnecting : Setter ac_disconnecting := ltac:(solve_setter).
#[export] Instance set_ac_err : Setter ac_err := ltac:(solve_setter).
#[export] Instance set_ac_replies : Setter ac_replies := ltac:(solve_setter).

(** The memory: connections, nodes and contexts by address; [connections] and
    [nodes] of [RedisRaftCtx]; the connections whose names the thread pool resolves,
    and those whose [handleResolved] the event loop will call; the clock. *)
Record links := mk_links {
  lk_conns : gmap Z Connection;
  lk_nodes : gmap Z Node;
  lk_acs : gmap Z redisAsyncContext;
  lk_brk : Z;
  lk_connections : list Z;
  lk_node_list : list Z;
  lk_pool : list Z;
  lk_oneshots : list Z;
  lk_now : Z
}.
#[export] Instance eta_links : Eta links := fun w =>
  mk_links (lk_conns w) (lk_nodes w) (lk_acs w) (lk_brk w) (lk_connections w) (lk_node_list w) (lk_pool w) (lk_oneshots w)
    (lk_now w).
#[export] Instance set_lk_conns : Setter lk_conns := ltac:(solve_setter).
#[export] Instance set_lk_nodes : Setter lk_nodes := ltac:(solve_setter).
#[export] Instance set_lk_acs : Setter lk_acs := ltac:(solve_setter).
#[export] Instance set_lk_brk : Setter lk_brk := ltac:(solve_setter).
#[export] Instance set_lk_connections : Setter lk_connections := ltac:(solve_setter).
#[export] Instance set_lk_node_list : Setter lk_node_list := ltac:(solve_setter).
#[export] Instance set_lk_pool : Setter lk_pool := ltac:(solve_setter).
#[export] Instance set_lk_oneshots : Setter lk_oneshots := ltac:(solve_setter).
#[export] Instance set_lk_now : Setter lk_now := ltac:(solve_setter).

#[local] Abbreviation L := (M links).

(** A pointer that is followed must point to memory that has not been freed. *)
Definition deref_conn (c : Z) : L Connection :=
  w <- get ;; match lk_conns w !! c with Some k => ret k | None => abort end.
Definition deref_node (n : Z) : L Node :=
  w <- get ;; match lk_nodes w !! n with Some p => ret p | None => abort end.
Definition deref_ac (a : Z) : L redisAsyncContext :=
  w <- get ;; match lk_acs w !! a with Some x => ret x | None => abort end.

Definition upd_conn (c : Z) (f : Connection -> Connection) : L unit :=
  k <- deref_conn c ;; modify (fun w => w <| lk_conns ::= <[c := f k]> |>).
Definition upd_peer (n : Z) (f : Node -> Node) : L unit :=
  p <- deref_node n ;; modify (fun w => w <| lk_nodes ::= <[n := f p]> |>).
Definition upd_ac (a : Z) (f : redisAsyncContext -> redisAsyncContext) : L unit :=
  x <- deref_ac a ;; modify (fun w => w <| lk_acs ::= <[a := f x]> |>).

(** ** Nodes ([node.c]) *)

Definition clearPendingResponses (n : Z) : L unit :=
  upd_peer n (fun p => p <| pn_raft_num := 0 |> <| pn_proxy_num := 0 |> <| pn_pending := [] |>).

Definition NodeFree (n : Z) : L unit :=
  clearPendingResponses n ;;
  modify (fun w => w <| lk_node_list ::= filter (fun m => m <> n) |> <| lk_nodes ::= delete n |>).

Definition NodeAddPendingResponse (n : Z) (proxy : bool) : L unit :=
  now <- gets lk_now ;;
  upd_peer n (fun p => (if proxy then p <| pn_proxy_num ::= Z.add 1 |> else p <| pn_raft_num ::= Z.add 1 |>)
                         <| pn_pending ::= (fun l => l ++ [mk_pending proxy now]) |>).

(** The list must not be empty: the code takes its first element as it is. *)
Definition NodeDismissPendingResponse (n : Z) : L unit :=
  p <- deref_node n ;;
  match pn_pending p with
  | [] => abort
  | r :: l =>
      upd_peer n (fun p => (if pr_proxy r then p <| pn_proxy_num ::= Z.pred |> else p <| pn_raft_num ::= Z.pred |>)
                             <| pn_pending := l |>)
  end.

(** ** Predicates of connections *)

Definition is_idle (k : Connection) : bool :=
  match cn_state k with
  | CONN_DISCONNECTED | CONN_CONNECT_ERROR => true
  | CONN_RESOLVING => false
  | _ => cn_terminating k
  end.

Definition is_connected (k : Connection) : bool := bool_decide (cn_state k = CONN_CONNECTED) && negb (cn_terminating k).

Definition ConnIsIdle (c : Z) : L bool := k <- deref_conn c ;; ret (is_idle k).
Definition ConnIsConnected (c : Z) : L bool := k <- deref_conn c ;; ret (is_connected k).

(** [ConnGetRedisCtx], followed. *)
Definition conn_ctx (c : Z) : L Z :=
  k <- deref_conn c ;; match cn_rc k with Some a => ret a | None => abort end.

Definition ConnFree (c : Z) : L unit :=
  k <- deref_conn c ;;
  NodeFree (cn_privdata k) ;;
  modify (fun w => w <| lk_connections ::= filter (fun d => d <> c) |> <| lk_conns ::= delete c |>).

Definition connDataCleanupCallback (c : Z) : L unit :=
  upd_conn c (fun k => k <| cn_rc := None |>) ;;
  k <- deref_conn c ;;
  if negb (cn_terminating k) then ret tt else ConnFree c.

Definition ConnAsyncTerminate (c : Z) : L unit := upd_conn c (fun k => k <| cn_terminating := true |>).

(** [handleNodeConnect] *)
Definition handleNodeConnect (c : Z) : L unit :=
  k <- deref_conn c ;;
  if is_connected k then clearPendingResponses (cn_privdata k) else ret tt.

Definition connect_callback (c : Z) : L unit :=
  k <- deref_conn c ;;
  if cn_terminating k then ret tt
  else if cn_callback k then handleNodeConnect c else ret tt.

Definition connectionSuccess (c : Z) : L unit :=
  upd_conn c (fun k => k <| cn_state := CONN_CONNECTED |> <| cn_connect_oks ::= Z.add 1 |>) ;;
  connect_callback c.

Definition connectionFailure (c : Z) : L unit :=
  upd_conn c (fun k => k <| cn_state := CONN_CONNECT_ERROR |> <| cn_rc := None |> <| cn_connect_errors ::= Z.add 1 |>) ;;
  connect_callback c.

Definition handleDisconnected (c : Z) : L unit :=
  upd_conn c (fun k => k <| cn_state := CONN_DISCONNECTED |> <| cn_rc := None |>).

(** A reply, as the callbacks distinguish them; the status that the reply to AUTH
    must be is OK. *)
Inductive reply_kind := RpOk | RpError | RpOther.

(** ** Contexts and their callbacks *)

Section Contexts.

(** [__redisAsyncFree], which runs callbacks, which call [redisAsyncFree]. *)
Variable async_free : Z -> L unit.

Definition redisAsyncFree (a : Z) : L unit :=
  upd_ac a (fun x => x <| ac_freeing := true |>) ;;
  x <- deref_ac a ;;
  if ac_in_callback x then ret tt else async_free a.

Definition ConnMarkDisconnected (c : Z) : L unit :=
  upd_conn c (fun k => k <| cn_state := CONN_DISCONNECTED |>) ;;
  k <- deref_conn c ;;
  match cn_rc k with
  | Some a => redisAsyncFree a ;; upd_conn c (fun k => k <| cn_rc := None |>)
  | None => ret tt
  end.

(** [__redisAsyncDisconnect] *)
Definition async_disconnect (a : Z) : L unit :=
  x <- deref_ac a ;;
  (if negb (ac_err x) then c_assert (bool_decide (ac_replies x = []))
   else upd_ac a (fun x => x <| ac_disconnecting := true |>)) ;;
  async_free a.

Definition redisAsyncDisconnect (a : Z) : L unit :=
  upd_ac a (fun x => x <| ac_disconnecting := true |>) ;;
  x <- deref_ac a ;;
  if negb (ac_in_callback x) && bool_decide (ac_replies x = []) then async_disconnect a else ret tt.

(** [redisAsyncCommand] and [redisAsyncCommandArgv]: whether the command is taken. *)
Definition redisAsyncCommand (a : Z) (cb : callback) : L bool :=
  x <- deref_ac a ;;
  if ac_disconnecting x || ac_freeing x then ret false else
  upd_ac a (fun x => x <| ac_replies ::= (fun l => l ++ [cb]) |>) ;;
  ret true.

(** [None]: the connection is lost. *)
Definition handleAuth (c : Z) (r : option reply_kind) : L unit :=
  match r with
  | None => ConnMarkDisconnected c ;; connectionFailure c
  | Some RpOk => connectionSuccess c
  | Some _ => a <- conn_ctx c ;; redisAsyncDisconnect a ;; ConnMarkDisconnected c ;; connectionFailure c
  end.

(** What the handlers of Raft messages and of proxied commands do with the
    connection. *)
Definition handle_response (n : Z) (r : option reply_kind) : L unit :=
  NodeDismissPendingResponse n ;;
  match r with
  | None => p <- deref_node n ;; ConnMarkDisconnected (pn_conn p)
  | Some _ => ret tt
  end.

Definition handleConnected (c : Z) (ok : bool) : L unit :=
  k <- deref_conn c ;;
  if cn_auth k then
    if ok then
      if cn_terminating k then ret tt else
      a <- conn_ctx c ;;
      sent <- redisAsyncCommand a (CbAuth c) ;;
      if sent : bool then ret tt else
      redisAsyncDisconnect a ;; ConnMarkDisconnected c ;; connectionFailure c
    else connectionFailure c
  else if ok then connectionSuccess c else connectionFailure c.

(** [__redisRunCallback] *)
Definition run_callback (a : Z) (cb : callback) (r : option reply_kind) : L unit :=
  let run m := upd_ac a (fun x => x <| ac_in_callback := true |>) ;; m ;;
               upd_ac a (fun x => x <| ac_in_callback := false |>) in
  match cb with
  | CbAuth c => run (handleAuth c r)
  | CbRaft n | CbProxy n => run (handle_response n r)
  | CbNone => ret tt
  end.

(** [__redisRunConnectCallback], outside of a callback. *)
Definition run_connect_callback (a : Z) (ok : bool) : L unit :=
  x <- deref_ac a ;;
  match ac_data x with
  | None => ret tt
  | Some c =>
      upd_ac a (fun x => x <| ac_in_callback := true |>) ;;
      handleConnected c ok ;;
      upd_ac a (fun x => x <| ac_in_callback := false |>)
  end.

(** [while (__redisShiftCallback(..) == REDIS_OK) __redisRunCallback(.., NULL)], at
    most [n] times. *)
Fixpoint drain (n : nat) (a : Z) : L unit :=
  x <- deref_ac a ;;
  match ac_replies x with
  | [] => ret tt
  | cb :: l =>
      match n with
      | O => out_of_fuel
      | S n' =>
          upd_ac a (fun x => x <| ac_replies := l |>) ;;
          run_callback a cb None ;;
          drain n' a
      end
  end.

(** [while (..)] with as many rounds as callbacks wait: callbacks of a context that
    goes away cannot send. *)
Definition drain_all (a : Z) : L unit := x <- deref_ac a ;; drain (length (ac_replies x)) a.

(** The body of [__redisAsyncFree]. *)
Definition async_free_body (a : Z) : L unit :=
  drain_all a ;;
  x <- deref_ac a ;;
  match ac_data x with
  | Some c => when (ac_connected x) (handleDisconnected c) ;; connDataCleanupCallback c
  | None => ret tt
  end ;;
  modify (fun w => w <| lk_acs ::= delete a |>).

(** ** Events of the socket *)

(** [__redisAsyncHandleConnect] when the attempt has ended. *)
Definition async_handle_connect (a : Z) (ok : bool) : L unit :=
  if ok then
    upd_ac a (fun x => x <| ac_connected := true |>) ;;
    run_connect_callback a true ;;
    x <- deref_ac a ;;
    if ac_disconnecting x then redisAsyncDisconnect a
    else if ac_freeing x then redisAsyncFree a
    else ret tt
  else
    upd_ac a (fun x => x <| ac_err := true |>) ;;
    run_connect_callback a false ;;
    async_disconnect a.

(** One reply of [redisProcessCallbacks]; one that nobody waits for is an error that
    ends the connection. *)
Definition process_reply (a : Z) (r : reply_kind) : L unit :=
  x <- deref_ac a ;;
  match ac_replies x with
  | [] =>
      match r with
      | RpError => upd_ac a (fun x => x <| ac_err := true |>) ;; async_disconnect a
      | _ => abort
      end
  | cb :: l =>
      upd_ac a (fun x => x <| ac_replies := l |>) ;;
      run_callback a cb (Some r) ;;
      match cb with
      | CbNone => ret tt
      | _ => x <- deref_ac a ;; if ac_freeing x then async_free a else ret tt
      end
  end.

(** The end of the replies that have come. *)
Definition process_done (a : Z) : L unit :=
  x <- deref_ac a ;;
  if ac_disconnecting x && bool_decide (ac_replies x = []) then async_disconnect a else ret tt.

(** A read or a write fails. *)
Definition socket_error (a : Z) : L unit :=
  upd_ac a (fun x => x <| ac_err := true |>) ;;
  async_disconnect a.

(** [redisAsyncHandleTimeout], without a timeout for commands. *)
Definition redisAsyncHandleTimeout (a : Z) : L unit :=
  x <- deref_ac a ;;
  c_assert (negb (ac_in_callback x)) ;;
  if ac_connected x then ret tt else
  upd_ac a (fun x => x <| ac_err := true |>) ;;
  run_connect_callback a false ;;
  drain_all a ;;
  async_disconnect a.

(** ** Connecting and ending *)

(** [ok]: the attempt could be started. *)
Definition handleResolved (c : Z) (ok : bool) : L unit :=
  k <- deref_conn c ;;
  let fail :=
    upd_conn c (fun k => k <| cn_state := CONN_CONNECT_ERROR |> <| cn_connect_errors ::= Z.add 1 |>) ;;
    k <- deref_conn c ;;
    match cn_rc k with
    | Some a => redisAsyncFree a ;; upd_conn c (fun k => k <| cn_rc := None |>)
    | None => ret tt
    end in
  if cn_terminating k then upd_conn c (fun k => k <| cn_state := CONN_DISCONNECTED |>) else
  if negb (cn_resolved k =? 0) then fail else
  match cn_rc k with Some a => redisAsyncFree a | None => ret tt end ;;
  a <- gets lk_brk ;;
  modify (fun w => w <| lk_acs ::= <[a := mk_ac None false false false false (negb ok) []]> |> <| lk_brk := a + 1 |>) ;;
  upd_conn c (fun k => k <| cn_rc := Some a |>) ;;
  if negb ok then fail else
  upd_ac a (fun x => x <| ac_data := Some c |>) ;;
  upd_conn c (fun k => k <| cn_state := CONN_CONNECTING |> <| cn_terminating := false |>).

Definition ConnConnect (c : Z) : L unit :=
  idle <- ConnIsIdle c ;;
  c_assert idle ;;
  upd_conn c (fun k => k <| cn_state := CONN_RESOLVING |> <| cn_callback := true |>) ;;
  modify (fun w => w <| lk_pool ::= (fun l => l ++ [c]) |>).

(** [active]: the raft library has an active node with this id. *)
Definition nodeIdleCallback (active : Z -> bool) (c : Z) : L unit :=
  k <- deref_conn c ;;
  p <- deref_node (cn_privdata k) ;;
  if active (pn_id p) then ConnConnect (pn_conn p) else ret tt.

Definition handle_idle (active : Z -> bool) (c : Z) : L unit :=
  k <- deref_conn c ;;
  if negb (is_idle k) then ret tt else
  if cn_terminating k then
    modify (fun w => w <| lk_connections ::= filter (fun d => d <> c) |>) ;;
    match cn_rc k with
    | Some a => upd_conn c (fun k => k <| cn_rc := None |>) ;; redisAsyncFree a
    | None => ConnFree c
    end
  else nodeIdleCallback active c.

(** [loading]: the module is in that state. *)
Definition HandleIdleConnections (loading : bool) (active : Z -> bool) : L unit :=
  if loading then ret tt else
  w <- get ;;
  for_each (lk_connections w) (handle_idle active).

(** The timeouts of the configuration. *)
Definition handle_node_state (leader : bool) (response_timeout proxy_timeout : Z) (n : Z) : L unit :=
  p <- deref_node n ;;
  connected <- ConnIsConnected (pn_conn p) ;;
  match pn_pending p with
  | r :: _ =>
      let timeout := if leader then response_timeout else if pr_proxy r then proxy_timeout else response_timeout in
      now <- gets lk_now ;;
      if (connected : bool) && negb (timeout =? 0) && (pr_request_time r + timeout <? now)
      then ConnMarkDisconnected (pn_conn p) else ret tt
  | [] => ret tt
  end.

Definition HandleNodeStates (loading leader : bool) (response_timeout proxy_timeout : Z) : L unit :=
  if loading then ret tt else
  w <- get ;;
  for_each (lk_node_list w) (handle_node_state leader response_timeout proxy_timeout).

End Contexts.

(** [__redisAsyncFree].  A callback that runs is inside of a context, so it does not
    come back here: one round is enough. *)
Fixpoint async_free (fuel : nat) (a : Z) : L unit :=
  match fuel with
  | O => out_of_fuel
  | S fuel' => async_free_body (async_free fuel') a
  end.

Definition free_fuel : nat := 1.

(** ** Nodes that come and go, and what is sent to them *)

Definition ConnCreate (privdata : Z) (auth : bool) : L Z :=
  c <- gets lk_brk ;;
  modify (fun w => w <| lk_conns ::= <[c := mk_conn CONN_DISCONNECTED false None privdata auth 0 false 0 0]> |>
                     <| lk_brk := c + 1 |> <| lk_connections ::= cons c |>) ;;
  ret c.

Definition NodeCreate (id : Z) (auth : bool) : L Z :=
  n <- gets lk_brk ;;
  modify (fun w => w <| lk_nodes ::= <[n := mk_peer id 0 [] 0 0]> |> <| lk_brk := n + 1 |> <| lk_node_list ::= cons n |>) ;;
  c <- ConnCreate n auth ;;
  modify (fun w => w <| lk_nodes ::= <[n := mk_peer id c [] 0 0]> |>) ;;
  ret n.

(** A Raft message, a command for the leader, RAFT.NODESHUTDOWN. *)
Inductive sending := SendRaft | SendProxy | SendShutdown.

Definition send_to (n : Z) (what : sending) : L bool :=
  p <- deref_node n ;;
  connected <- ConnIsConnected (pn_conn p) ;;
  if negb connected then ret false else
  a <- conn_ctx (pn_conn p) ;;
  sent <- redisAsyncCommand a (match what with SendRaft => CbRaft n | SendProxy => CbProxy n | SendShutdown => CbNone end) ;;
  if negb sent then ret false else
  match what with
  | SendRaft => NodeAddPendingResponse n false
  | SendProxy => NodeAddPendingResponse n true
  | SendShutdown => ret tt
  end ;;
  ret true.

(** [raftBackpressure] *)
Definition raftBackpressure (max_count : Z) (n : Z) : L Z :=
  p <- deref_node n ;; ret (if max_count <=? pn_raft_num p then 1 else 0).

(** [ConnGetAddrinfo] ends in its thread. *)
Definition ConnGetAddrinfo (c : Z) (rc : Z) : L unit :=
  upd_conn c (fun k => k <| cn_resolved := rc |>) ;;
  modify (fun w => w <| lk_pool ::= filter (fun d => d <> c) |> <| lk_oneshots ::= (fun l => l ++ [c]) |>).
