(* ===== verification/ConnectionSpec.v ===== *)
(** * A connection, its node and its context

    What every operation of [Connection.v] does to one connection, its node and its
    context: it leaves the three at rest, where the node waits for exactly the
    replies that the context has callbacks for, or takes the three away. *)

From stdpp Require Import base list numbers tactics gmap.
From S2P Require Import Prelude Connection.

Local Open Scope Z_scope.

#[local] Abbreviation L := (M links).

(** ** A connection with its node and its context *)

(** The state [w] with the connection [c], its node [n], and the context [a], or
    without one. *)
Definition put (c n a : Z) (k : Connection) (p : Node) (ox : option redisAsyncContext) (w : links) : links :=
  w <| lk_conns ::= <[c := k]> |> <| lk_nodes ::= <[n := p]> |>
    <| lk_acs ::= (fun m => match ox with Some x => <[a := x]> m | None => delete a m end) |>.

(** The state without them. *)
Definition gone (c n a : Z) (w : links) : links :=
  w <| lk_conns ::= delete c |> <| lk_nodes ::= delete n |> <| lk_acs ::= delete a |>
    <| lk_connections ::= filter (fun d => d <> c) |> <| lk_node_list ::= filter (fun m => m <> n) |>.

Lemma links_eq (w v : links) :
  lk_conns w = lk_conns v -> lk_nodes w = lk_nodes v -> lk_acs w = lk_acs v -> lk_brk w = lk_brk v ->
  lk_connections w = lk_connections v -> lk_node_list w = lk_node_list v -> lk_pool w = lk_pool v ->
  lk_oneshots w = lk_oneshots v -> lk_now w = lk_now v -> w = v.
Proof. destruct w, v. cbn. by intros -> -> -> -> -> -> -> -> ->. Qed.

Section Island.
Context (c n a : Z) (w : links).

#[local] Abbreviation st := (fun k p ox => put c n a k p ox w).

Lemma deref_conn_put {B} k p ox (K : Connection -> L B) : bind (deref_conn c) K (st k p ox) = K k (st k p ox).
Proof. unfold deref_conn, bind, get, put. cbn. by rewrite lookup_insert_eq. Qed.

Lemma deref_node_put {B} k p ox (K : Node -> L B) : bind (deref_node n) K (st k p ox) = K p (st k p ox).
Proof. unfold deref_node, bind, get, put. cbn. by rewrite lookup_insert_eq. Qed.

Lemma deref_ac_put {B} k p x (K : redisAsyncContext -> L B) : bind (deref_ac a) K (st k p (Some x)) = K x (st k p (Some x)).
Proof. unfold deref_ac, bind, get, put. cbn. by rewrite lookup_insert_eq. Qed.

Lemma upd_conn_put {B} k p ox f (K : unit -> L B) : bind (upd_conn c f) K (st k p ox) = K tt (st (f k) p ox).
Proof.
  unfold upd_conn. rewrite bind_assoc, deref_conn_put, bind_modify. f_equal. apply links_eq; try done.
  unfold put. cbn. by rewrite insert_insert_eq.
Qed.

Lemma upd_peer_put {B} k p ox f (K : unit -> L B) : bind (upd_peer n f) K (st k p ox) = K tt (st k (f p) ox).
Proof.
  unfold upd_peer. rewrite bind_assoc, deref_node_put, bind_modify. f_equal. apply links_eq; try done.
  unfold put. cbn. by rewrite insert_insert_eq.
Qed.

Lemma upd_ac_put {B} k p x f (K : unit -> L B) : bind (upd_ac a f) K (st k p (Some x)) = K tt (st k p (Some (f x))).
Proof.
  unfold upd_ac. rewrite bind_assoc, deref_ac_put, bind_modify. f_equal. apply links_eq; try done.
  unfold put. cbn. by rewrite insert_insert_eq.
Qed.

Lemma free_ac_put {B} k p ox (K : unit -> L B) :
  bind (modify (fun w => w <| lk_acs ::= delete a |>)) K (st k p ox) = K tt (st k p None).
Proof.
  rewrite bind_modify. f_equal. apply links_eq; try done. unfold put. cbn.
  destruct ox; [by rewrite delete_insert_eq|by rewrite delete_delete_eq].
Qed.

Lemma alloc_ac_put {B} k p x (K : unit -> L B) :
  a = lk_brk w ->
  bind (modify (fun w => w <| lk_acs ::= <[a := x]> |> <| lk_brk := a + 1 |>)) K (put c n a k p None w)
  = K tt (put c n a k p (Some x) (w <| lk_brk := a + 1 |>)).
Proof.
  intros _. rewrite bind_modify. f_equal. apply links_eq; try done. unfold put. cbn. by rewrite insert_delete_eq.
Qed.

Lemma unlist_put {B} k p ox (K : unit -> L B) :
  bind (modify (fun w => w <| lk_connections ::= filter (fun d => d <> c) |>)) K (put c n a k p ox w)
  = K tt (put c n a k p ox (w <| lk_connections ::= filter (fun d => d <> c) |>)).
Proof. done. Qed.

(** ** What a node is owed *)

Definition kinds (l : list callback) : list bool :=
  omap (fun cb => match cb with CbRaft _ => Some false | CbProxy _ => Some true | _ => None end) l.

(** The node [p] waits for the replies of which the callbacks [l] will tell it. *)
Definition owes (l : list callback) (p : Node) : Prop :=
  map pr_proxy (pn_pending p) = kinds l
  /\ pn_raft_num p = count negb (kinds l)
  /\ pn_proxy_num p = count id (kinds l).

(** A callback of this connection. *)
Definition cb_ok (cb : callback) : Prop :=
  match cb with CbAuth d => d = c | CbRaft m | CbProxy m => m = n | CbNone => True end.

Definition same_conn (k k' : Connection) : Prop :=
  cn_privdata k' = cn_privdata k /\ cn_terminating k' = cn_terminating k /\ cn_auth k' = cn_auth k.

Definition same_ac (x x' : redisAsyncContext) : Prop :=
  ac_data x' = ac_data x /\ ac_connected x' = ac_connected x /\ ac_in_callback x' = ac_in_callback x /\
  ac_replies x' = ac_replies x.

(** The connection has no other context. *)
Definition own_rc (k : Connection) : Prop := cn_rc k = None \/ cn_rc k = Some a.

#[local] Hint Unfold same_conn same_ac own_rc : core.

(** ** A context that goes away *)

Section Inside.
Context (af : Z -> L unit).

Lemma mark_inside k p x :
  ac_in_callback x = true -> own_rc k ->
  exists k' x', same_conn k k' /\ cn_state k' = CONN_DISCONNECTED /\ cn_rc k' = None /\ same_ac x x' /\
    (cn_rc k <> None -> ac_freeing x' = true) /\ ac_disconnecting x' = ac_disconnecting x /\
    forall B (K : unit -> L B), bind (ConnMarkDisconnected af c) K (st k p (Some x)) = K tt (st k' p (Some x')).
Proof.
  intros Hx [E|E].
  - eexists (k <| cn_state := CONN_DISCONNECTED |>), x. split_and!; try done. intros B K.
    unfold ConnMarkDisconnected. rewrite !bind_assoc, upd_conn_put, bind_assoc, deref_conn_put. cbn. by rewrite E.
  - eexists (k <| cn_state := CONN_DISCONNECTED |> <| cn_rc := None |>), (x <| ac_freeing := true |>).
    split_and!; try done. intros B K.
    unfold ConnMarkDisconnected, redisAsyncFree.
    rewrite !bind_assoc, upd_conn_put, bind_assoc, deref_conn_put. cbn. rewrite E, !bind_assoc, upd_ac_put.
    rewrite bind_assoc, deref_ac_put. cbn. rewrite Hx. by rewrite bind_ret_l, upd_conn_put.
Qed.

Lemma failure_put k p :
  exists k', same_conn k k' /\ cn_state k' = CONN_CONNECT_ERROR /\ cn_rc k' = None /\
    forall ox B (K : unit -> L B), bind (connectionFailure c) K (st k p ox) = K tt (st k' p ox).
Proof.
  eexists (k <| cn_state := CONN_CONNECT_ERROR |> <| cn_rc := None |> <| cn_connect_errors ::= Z.add 1 |>).
  split_and!; try done. intros ox B K. unfold connectionFailure, connect_callback, handleNodeConnect.
  rewrite bind_assoc, upd_conn_put, bind_assoc, deref_conn_put. cbn.
  destruct (cn_terminating k); [done|]. destruct (cn_callback k); [|done].
  rewrite bind_assoc, deref_conn_put. unfold is_connected. cbn. done.
Qed.

Lemma dismiss_put k p ox cb l :
  owes (cb :: l) p -> (exists m, cb = CbRaft m \/ cb = CbProxy m) ->
  exists p', owes l p' /\ pn_conn p' = pn_conn p /\ pn_id p' = pn_id p /\
    forall B (K : unit -> L B), bind (NodeDismissPendingResponse n) K (st k p ox) = K tt (st k p' ox).
Proof.
  intros (Hk & H1 & H2) (m & Hm). destruct (pn_pending p) as [|r q] eqn:Eq.
  { destruct Hm as [-> | ->]; by cbn in Hk. }
  eexists. split_and!; cycle 3.
  - intros B K. unfold NodeDismissPendingResponse. rewrite bind_assoc, deref_node_put, Eq. by rewrite upd_peer_put.
  - destruct Hm as [-> | ->]; change (kinds (_ :: l)) with (true :: kinds l) in * ||
      change (kinds (_ :: l)) with (false :: kinds l) in *; cbn in Hk; injection Hk as Hr Hq;
      rewrite count_cons in H1, H2; cbn in H1, H2; rewrite Hr; unfold owes; cbn; split_and!; try done; lia.
  - by destruct (pr_proxy r).
  - by destruct (pr_proxy r).
Qed.

Lemma lost_response k p x cb l m :
  ac_in_callback x = true -> own_rc k -> pn_conn p = c -> owes (cb :: l) p -> cb = CbRaft m \/ cb = CbProxy m ->
  exists k' p' x', same_conn k k' /\ own_rc k' /\ owes l p' /\ pn_conn p' = c /\ pn_id p' = pn_id p /\ same_ac x x' /\
    forall B (K : unit -> L B), bind (handle_response af n None) K (st k p (Some x)) = K tt (st k' p' (Some x')).
Proof.
  intros Hx Hk Hp Ho Hcb.
  destruct (dismiss_put k p (Some x) cb l Ho) as (p1 & O1 & C1 & I1 & R1); [eauto|].
  destruct (mark_inside k p1 x Hx Hk) as (k2 & x2 & S2 & _ & E2 & X2 & _ & _ & R2).
  exists k2, p1, x2. split_and!; try done; [by left|congruence|].
  intros B K. unfold handle_response. rewrite !bind_assoc, R1, bind_assoc, deref_node_put, C1, Hp. by rewrite R2.
Qed.

(** A callback without a reply. *)
Lemma lost_callback k p x cb l :
  ac_in_callback x = false -> own_rc k -> cb_ok cb -> pn_conn p = c -> owes (cb :: l) p ->
  exists k' p' x', same_conn k k' /\ own_rc k' /\ owes l p' /\ pn_conn p' = c /\ pn_id p' = pn_id p /\ same_ac x x' /\
    forall B (K : unit -> L B), bind (run_callback af a cb None) K (st k p (Some x)) = K tt (st k' p' (Some x')).
Proof.
  intros Hx Hk Hcb Hp Ho.
  set (y := x <| ac_in_callback := true |>). assert (Hy : ac_in_callback y = true) by done.
  assert (Hin : forall m, cb = CbRaft m \/ cb = CbProxy m -> m = n) by (intros m [-> | ->]; done).
  destruct cb as [d|m|m|]; cbn in Hcb; [subst d|subst m|subst m|].
  2, 3 : edestruct (lost_response k p y) as (k2 & p2 & x2 & S2 & E2 & O2 & C2 & I2 & X2 & R2); eauto;
    eexists k2, p2, (x2 <| ac_in_callback := false |>);
    unfold same_ac in *; cbn in *; destruct_and!; split_and!; try done;
    intros B K; unfold run_callback; rewrite bind_assoc, upd_ac_put; fold y; rewrite !bind_assoc, R2, upd_ac_put; done.
  - destruct (mark_inside k p y) as (k1 & x1 & S1 & _ & E1 & X1 & _ & _ & R1); [done|done|].
    destruct (failure_put k1 p) as (k2 & S2 & _ & E2 & R2).
    eexists k2, p, (x1 <| ac_in_callback := false |>). unfold same_conn, same_ac, own_rc in *. cbn in *.
    destruct_and!. split_and!; try congruence; [by left|done|].
    intros B K. unfold run_callback, handleAuth.
    by rewrite bind_assoc, upd_ac_put, !bind_assoc, R1, R2, upd_ac_put.
  - exists k, p, x. split_and!; try done; auto.
Qed.

Lemma drain_put l k p x :
  ac_replies x = l -> ac_in_callback x = false -> own_rc k -> Forall cb_ok l -> pn_conn p = c -> owes l p ->
  exists k' p' x', same_conn k k' /\ own_rc k' /\ owes [] p' /\ pn_conn p' = c /\ pn_id p' = pn_id p /\
    (l = [] -> k' = k) /\ ac_data x' = ac_data x /\ ac_connected x' = ac_connected x /\
    forall B (K : unit -> L B), bind (drain af (length l) a) K (st k p (Some x)) = K tt (st k' p' (Some x')).
Proof.
  revert k p x. induction l as [|cb l IH]; intros k p x Hl Hx Hk Hok Hp Ho.
  - exists k, p, x. split_and!; try done. intros B K. cbn [drain length]. rewrite bind_assoc, deref_ac_put. by rewrite Hl.
  - inversion_clear Hok as [|? ? Hcb Hok'].
    destruct (lost_callback k p (x <| ac_replies := l |>) cb l) as (k1 & p1 & x1 & S1 & E1 & O1 & C1 & I1 & X1 & R1); try done.
    unfold same_ac, same_conn in *. cbn in *. destruct_and!.
    destruct (IH k1 p1 x1) as (k2 & p2 & x2 & S2 & E2 & O2 & C2 & I2 & _ & D2 & N2 & R2); try congruence.
    exists k2, p2, x2. destruct_and!. split_and!; try congruence. intros B K.
    rewrite bind_assoc, deref_ac_put, Hl, !bind_assoc, upd_ac_put, bind_assoc, R1. apply R2.
Qed.

(** Whoever holds the context [x] of the connection has it go away. *)
Lemma async_free_put k p x :
  ac_in_callback x = false -> own_rc k -> Forall cb_ok (ac_replies x) -> cn_privdata k = n -> pn_conn p = c ->
  owes (ac_replies x) p -> ac_data x = Some c -> (ac_connected x = false -> ac_replies x = []) ->
  if cn_terminating k
  then forall B (K : unit -> L B), bind (async_free_body af a) K (st k p (Some x)) = K tt (gone c n a w)
  else exists k' p', same_conn k k' /\ cn_rc k' = None /\
         cn_state k' = (if ac_connected x then CONN_DISCONNECTED else cn_state k) /\
         owes [] p' /\ pn_conn p' = c /\ pn_id p' = pn_id p /\
         forall B (K : unit -> L B), bind (async_free_body af a) K (st k p (Some x)) = K tt (st k' p' None).
Proof.
  intros Hx Hk Hok Hn Hp Ho Hd Hc.
  destruct (drain_put _ k p x eq_refl Hx Hk Hok Hp Ho) as (k1 & p1 & x1 & S1 & E1 & O1 & C1 & I1 & N1 & D1 & T1 & R1).
  set (k2 := if ac_connected x then k1 <| cn_state := CONN_DISCONNECTED |> <| cn_rc := None |> else k1).
  set (k3 := k2 <| cn_rc := None |>).
  assert (S3 : same_conn k k3) by (unfold k3, k2; unfold same_conn in *; by destruct (ac_connected x)).
  assert (St : cn_state k3 = if ac_connected x then CONN_DISCONNECTED else cn_state k)
    by (unfold k3, k2; destruct (ac_connected x); [done|]; cbn; by rewrite N1 by auto).
  assert (Run : forall B (K : unit -> L B),
    bind (async_free_body af a) K (st k p (Some x))
    = bind (if negb (cn_terminating k3) then ret tt else ConnFree c)
        (fun _ => bind (modify (fun w => w <| lk_acs ::= delete a |>)) K) (st k3 p1 (Some x1))).
  { intros B K. unfold async_free_body, drain_all. rewrite !bind_assoc, deref_ac_put, R1, bind_assoc, deref_ac_put.
    rewrite D1, T1, Hd, !bind_assoc. unfold when, handleDisconnected, connDataCleanupCallback, k3, k2.
    destruct (ac_connected x); [rewrite upd_conn_put|rewrite bind_ret_l];
      by rewrite !bind_assoc, upd_conn_put, bind_assoc, deref_conn_put. }
  destruct S3 as (Sp & Ste & Sa). rewrite <- Ste.
  destruct (cn_terminating k3) eqn:Et.
  - intros B K. rewrite Run. cbn. unfold ConnFree, NodeFree, clearPendingResponses.
    rewrite !bind_assoc, deref_conn_put, Sp, Hn, !bind_assoc, upd_peer_put, !bind_modify. f_equal.
    apply links_eq; try done; unfold put, gone; cbn.
    + by rewrite delete_insert_eq.
    + by rewrite delete_insert_eq.
    + by rewrite delete_insert_eq.
  - exists k3, p1. split_and!; try done; [unfold same_conn; split_and!; congruence|]. intros B K. rewrite Run. change (negb false) with true. cbv iota. rewrite bind_ret_l.
    by rewrite free_ac_put.
Qed.

End Inside.

(** ** A connection at rest *)

(** How far the connection has come, by its context. *)
Definition phase (k : Connection) (x : redisAsyncContext) : Prop :=
  if ac_connected x
  then (cn_state k = CONN_CONNECTING /\ cn_auth k = true /\
          (ac_replies x = [CbAuth c] \/ cn_terminating k = true /\ ac_replies x = []))
       \/ (cn_state k = CONN_CONNECTED /\ CbAuth c ∉ ac_replies x)
  else cn_state k = CONN_CONNECTING /\ ac_replies x = [].

Definition quiet (x : redisAsyncContext) : Prop :=
  ac_in_callback x = false /\ ac_freeing x = false /\ ac_disconnecting x = false /\ ac_err x = false.

Definition at_rest (k : Connection) (p : Node) (ox : option redisAsyncContext) : Prop :=
  cn_privdata k = n /\ pn_conn p = c /\
  match ox with
  | None =>
      cn_rc k = None /\ owes [] p /\
      (cn_state k = CONN_DISCONNECTED \/ cn_state k = CONN_CONNECT_ERROR \/ cn_state k = CONN_RESOLVING)
  | Some x =>
      cn_rc k = Some a /\ owes (ac_replies x) p /\ quiet x /\ ac_data x = Some c /\ Forall cb_ok (ac_replies x) /\ phase k x
  end.

(** [m] leaves the connection at rest again, or takes it away when it is to end. *)
Definition settles {A} (m : L A) (k : Connection) (p : Node) (ox : option redisAsyncContext) : Prop :=
  (cn_terminating k = true /\ exists r, forall B (K : A -> L B), bind m K (st k p ox) = K r (gone c n a w))
  \/ exists k' p' ox' r, same_conn k k' /\ pn_id p' = pn_id p /\ at_rest k' p' ox' /\ cn_state k' <> CONN_RESOLVING /\
       forall B (K : A -> L B), bind m K (st k p ox) = K r (st k' p' ox').

#[local] Arguments async_free : simpl never.

#[local] Abbreviation af := (async_free free_fuel).

Lemma free_settles k p x :
  ac_in_callback x = false -> own_rc k -> Forall cb_ok (ac_replies x) -> cn_privdata k = n -> pn_conn p = c ->
  owes (ac_replies x) p -> ac_data x = Some c ->
  (ac_connected x = false -> ac_replies x = [] /\ (cn_state k = CONN_DISCONNECTED \/ cn_state k = CONN_CONNECT_ERROR)) ->
  settles (af a) k p (Some x).
Proof.
  intros Hx Hk Hok Hn Hp Ho Hd Hc.
  pose proof (async_free_put (async_free 0) k p x Hx Hk Hok Hn Hp Ho Hd ltac:(intros H; by apply Hc)) as H.
  unfold settles. destruct (cn_terminating k); [left; by eauto|right].
  destruct H as (k' & p' & S' & E' & St' & O' & C' & I' & R).
  assert (Hst : cn_state k' = CONN_DISCONNECTED \/ cn_state k' = CONN_CONNECT_ERROR).
  { rewrite St'. destruct (ac_connected x); [by left|]. by apply Hc. }
  exists k', p', None, tt. split_and!; try done.
  - unfold at_rest. destruct S' as (-> & _). split_and!; try done. destruct Hst; auto.
  - by destruct Hst as [-> | ->].
Qed.

Lemma settles_bind {A A'} (m : L A) (f : A -> L A') k p ox k1 p1 ox1 r :
  same_conn k k1 -> pn_id p1 = pn_id p ->
  (forall B (K : A -> L B), bind m K (st k p ox) = K r (st k1 p1 ox1)) ->
  settles (f r) k1 p1 ox1 -> settles (bind m f) k p ox.
Proof.
  intros (S1 & S2 & S3) I R [(T & r' & R')|(k2 & p2 & ox2 & r' & (S1' & S2' & S3') & I' & A2 & N2 & R')].
  - left. split; [congruence|]. exists r'. intros B K. by rewrite bind_assoc, R, R'.
  - right. exists k2, p2, ox2, r'. split_and!; try congruence; [unfold same_conn; split_and!; congruence|].
    intros B K. by rewrite bind_assoc, R, R'.
Qed.

Lemma settles_ret {A} (r : A) k p ox : at_rest k p ox -> cn_state k <> CONN_RESOLVING -> settles (ret r) k p ox.
Proof. intros H N. right. exists k, p, ox, r. split_and!; try done. Qed.

Lemma same_conn_refl k : same_conn k k.
Proof. done. Qed.

(** Only what the operation does to the state counts. *)
Lemma settles_ext {A} (m m' : L A) k p ox :
  (forall s, m s = m' s) -> settles m' k p ox -> settles m k p ox.
Proof.
  intros E [(T & r & R)|(k' & p' & ox' & r & S & I & A2 & N & R)].
  - left. split; [done|]. exists r. intros B K. rewrite <- (R B K). unfold bind. by rewrite E.
  - right. exists k', p', ox', r. split_and!; try done. intros B K. rewrite <- (R B K). unfold bind. by rewrite E.
Qed.

Lemma settles_assoc {A A' A''} (m : L A) (f : A -> L A') (g : A' -> L A'') k p ox :
  settles (bind m (fun x => bind (f x) g)) k p ox -> settles (bind (bind m f) g) k p ox.
Proof. apply settles_ext. intros s. apply bind_assoc. Qed.

Lemma settles_last {A} (m : L A) k p ox : settles (bind m ret) k p ox -> settles m k p ox.
Proof. apply settles_ext. intros s. apply bind_ret_r. Qed.

(** One step whose effect is known. *)
#[local] Ltac flatten :=
  repeat (lazymatch goal with |- settles (bind (bind _ _) _) _ _ _ => apply settles_assoc end).
#[local] Ltac settle_by lem :=
  flatten;
  eapply settles_bind; [ | | intros ? ?; apply lem | ]; [done|done|cbn].

Lemma disconnect_settles k p x :
  ac_in_callback x = false -> ac_err x = true -> own_rc k -> Forall cb_ok (ac_replies x) -> cn_privdata k = n ->
  pn_conn p = c -> owes (ac_replies x) p -> ac_data x = Some c ->
  (ac_connected x = false -> ac_replies x = [] /\ (cn_state k = CONN_DISCONNECTED \/ cn_state k = CONN_CONNECT_ERROR)) ->
  settles (async_disconnect af a) k p (Some x).
Proof.
  intros Hx He Hk Hok Hn Hp Ho Hd Hc. unfold async_disconnect. settle_by (@deref_ac_put). rewrite He. cbn.
  settle_by (@upd_ac_put). by apply free_settles.
Qed.

(** *** The socket *)

Lemma socket_error_settles k p x :
  at_rest k p (Some x) -> ac_connected x = true -> settles (socket_error af a) k p (Some x).
Proof.
  intros (Hn & Hp & Hk & Ho & (Q1 & Q2 & Q3 & Q4) & Hd & Hok & Hph) Hc. unfold socket_error.
  settle_by (@upd_ac_put). apply disconnect_settles; try done; [by right|cbn; congruence].
Qed.

Lemma success_put k p ox :
  owes [] p -> cn_privdata k = n ->
  exists k' p', same_conn k k' /\ cn_state k' = CONN_CONNECTED /\ cn_rc k' = cn_rc k /\ owes [] p' /\
    pn_conn p' = pn_conn p /\ pn_id p' = pn_id p /\
    forall B (K : unit -> L B), bind (connectionSuccess c) K (st k p ox) = K tt (st k' p' ox).
Proof.
  intros Ho Hn. set (k1 := k <| cn_state := CONN_CONNECTED |> <| cn_connect_oks ::= Z.add 1 |>).
  exists k1, (if negb (cn_terminating k) && cn_callback k
              then p <| pn_raft_num := 0 |> <| pn_proxy_num := 0 |> <| pn_pending := [] |> else p).
  assert (Ho' : owes [] (p <| pn_raft_num := 0 |> <| pn_proxy_num := 0 |> <| pn_pending := [] |>)) by done.
  split_and!; try done; try (by destruct (negb _ && _)). intros B K.
  unfold connectionSuccess, connect_callback, handleNodeConnect, clearPendingResponses.
  rewrite bind_assoc, upd_conn_put. fold k1. rewrite bind_assoc, deref_conn_put.
  replace (cn_terminating k1) with (cn_terminating k) by done. replace (cn_callback k1) with (cn_callback k) by done.
  destruct (cn_terminating k) eqn:Et; [by rewrite bind_ret_l|].
  destruct (cn_callback k); cbn [negb andb]; [|by rewrite bind_ret_l].
  rewrite bind_assoc, deref_conn_put. unfold is_connected.
  replace (cn_terminating k1) with (cn_terminating k) by done. rewrite Et, bool_decide_eq_true_2 by done. cbn [negb andb].
  replace (cn_privdata k1) with n by done. by rewrite upd_peer_put.
Qed.

(** What the callback of a context does whose attempt to connect has failed. *)
Lemma connect_failed k p x :
  ac_data x = Some c -> ac_in_callback x = false ->
  exists k', same_conn k k' /\ cn_state k' = CONN_CONNECT_ERROR /\ cn_rc k' = None /\
    forall B (K : unit -> L B), bind (run_connect_callback af a false) K (st k p (Some x)) = K tt (st k' p (Some x)).
Proof.
  intros Hd Hx. destruct (failure_put k p) as (k1 & S1 & E1 & N1 & R1). exists k1. split_and!; try done.
  intros B K. unfold run_connect_callback, handleConnected.
  rewrite bind_assoc, deref_ac_put, Hd, !bind_assoc, upd_ac_put, !bind_assoc, deref_conn_put.
  replace (if cn_auth k then _ else _) with (connectionFailure c) by (by destruct (cn_auth k)).
  rewrite R1, upd_ac_put. cbn. repeat f_equal. destruct x. cbn in *. by subst.
Qed.

Lemma handle_connect_fails k p x :
  at_rest k p (Some x) -> ac_connected x = false -> settles (async_handle_connect af a false) k p (Some x).
Proof.
  intros (Hn & Hp & Hk & Ho & (Q1 & Q2 & Q3 & Q4) & Hd & Hok & Hph) Hc. unfold async_handle_connect.
  settle_by (@upd_ac_put).
  destruct (connect_failed k p (x <| ac_err := true |>)) as (k1 & S1 & E1 & N1 & R1); [done|done|].
  eapply settles_bind; [done|done|apply R1|]. unfold phase in Hph. rewrite Hc in Hph. destruct Hph as [Hs Hr].
  apply disconnect_settles; try done; [by left|destruct S1 as (-> & _); done|]. intros _. cbn. auto.
Qed.

Lemma timeout_settles k p x :
  at_rest k p (Some x) -> settles (redisAsyncHandleTimeout af a) k p (Some x).
Proof.
  intros Hr. pose proof Hr as (Hn & Hp & Hk & Ho & (Q1 & Q2 & Q3 & Q4) & Hd & Hok & Hph).
  unfold redisAsyncHandleTimeout. settle_by (@deref_ac_put). rewrite Q1. cbn.
  eapply (settles_bind _ _ _ _ _ k p (Some x) tt); [done|done|intros; apply bind_ret_l|].
  unfold phase in Hph. destruct (ac_connected x) eqn:Hc.
  { apply settles_ret; [done|]. destruct Hph as [(-> & _)|(-> & _)]; done. }
  settle_by (@upd_ac_put).
  destruct (connect_failed k p (x <| ac_err := true |>)) as (k1 & S1 & E1 & N1 & R1); [done|done|].
  eapply settles_bind; [done|done|apply R1|]. destruct Hph as [Hs Hl].
  unfold drain_all. settle_by (@deref_ac_put). rewrite Hl. cbn [length drain].
  settle_by (@deref_ac_put). rewrite Hl.
  eapply (settles_bind _ _ _ _ _ k1 p (Some (x <| ac_err := true |>)) tt); [done|done|intros; apply bind_ret_l|].
  apply disconnect_settles; try done; [by left|destruct S1 as (-> & _); done|]. intros _. cbn. auto.
Qed.

(** What the callback of a context does that has connected. *)
Lemma connect_done k p x :
  cn_privdata k = n -> cn_state k = CONN_CONNECTING -> cn_rc k = Some a -> owes [] p -> pn_conn p = c ->
  ac_data x = Some c -> quiet x -> ac_connected x = true -> ac_replies x = [] ->
  exists k' p' x', same_conn k k' /\ pn_id p' = pn_id p /\ at_rest k' p' (Some x') /\ cn_state k' <> CONN_RESOLVING /\
    forall B (K : unit -> L B), bind (run_connect_callback af a true) K (st k p (Some x)) = K tt (st k' p' (Some x')).
Proof.
  intros Hn Hs Hk Ho Hp Hd (Q1 & Q2 & Q3 & Q4) Hc Hl.
  assert (Run : forall B (K : unit -> L B), bind (run_connect_callback af a true) K (st k p (Some x))
    = bind (handleConnected af c true) (fun _ => bind (upd_ac a (fun x => x <| ac_in_callback := false |>)) K)
        (st k p (Some (x <| ac_in_callback := true |>)))).
  { intros B K. unfold run_connect_callback. by rewrite bind_assoc, deref_ac_put, Hd, !bind_assoc, upd_ac_put, bind_assoc. }
  destruct (cn_auth k) eqn:Ha; [destruct (cn_terminating k) eqn:Ht|].
  - exists k, p, x. split_and!; try done; [|by rewrite Hs|].
    + unfold at_rest, phase. rewrite Hl, Hc. split_and!; try done. left. auto.
    + intros B K. rewrite Run. unfold handleConnected. rewrite !bind_assoc, deref_conn_put, Ha, Ht, bind_ret_l, upd_ac_put.
      cbn. repeat f_equal. destruct x. cbn in *. by subst.
  - exists k, p, (x <| ac_replies := [CbAuth c] |>). split_and!; try done; [|by rewrite Hs|].
    + unfold at_rest, phase. cbn. rewrite Hc. split_and!; try done; [|left; auto]. by constructor.
    + intros B K. rewrite Run. unfold handleConnected, conn_ctx, redisAsyncCommand.
      rewrite !bind_assoc, deref_conn_put, Ha, Ht, !bind_assoc, deref_conn_put, Hk, bind_ret_l.
      rewrite !bind_assoc, deref_ac_put. cbn. rewrite Q2, Q3. cbn. rewrite !bind_assoc, upd_ac_put, bind_ret_l, bind_ret_l.
      rewrite upd_ac_put. cbn. repeat f_equal. destruct x. cbn in *. by subst.
  - destruct (success_put k p (Some (x <| ac_in_callback := true |>)) Ho Hn) as (k1 & p1 & S1 & E1 & N1 & O1 & C1 & I1 & R1).
    exists k1, p1, x. split_and!; try done; [|by rewrite E1|].
    + unfold at_rest, phase. rewrite Hl, Hc, N1, C1. destruct S1 as (-> & _). split_and!; try done.
      right. split; [done|]. apply not_elem_of_nil.
    + intros B K. rewrite Run. unfold handleConnected. rewrite bind_assoc, deref_conn_put, Ha, R1, upd_ac_put.
      cbn. repeat f_equal. destruct x. cbn in *. by subst.
Qed.

Lemma handle_connect_settles k p x :
  at_rest k p (Some x) -> ac_connected x = false -> settles (async_handle_connect af a true) k p (Some x).
Proof.
  intros (Hn & Hp & Hk & Ho & Q & Hd & Hok & Hph) Hc. unfold phase in Hph. rewrite Hc in Hph. destruct Hph as [Hs Hl].
  unfold async_handle_connect. settle_by (@upd_ac_put). rewrite Hl in Ho.
  destruct (connect_done k p (x <| ac_connected := true |>)) as (k1 & p1 & x1 & S1 & I1 & A1 & N1 & R1); try done.
  eapply settles_bind; [done|done|apply R1|]. pose proof A1 as (_ & _ & _ & _ & (Q1 & Q2 & Q3 & _) & _).
  settle_by (@deref_ac_put). rewrite Q2, Q3. by apply settles_ret.
Qed.

(** *** Replies *)

(** The reply to AUTH that is not OK. *)
Lemma auth_refused k p x :
  ac_in_callback x = true -> cn_rc k = Some a ->
  exists k' x', same_conn k k' /\ cn_state k' = CONN_CONNECT_ERROR /\ cn_rc k' = None /\ same_ac x x' /\ ac_freeing x' = true /\
    forall r B (K : unit -> L B), r <> RpOk ->
      bind (handleAuth af c (Some r)) K (st k p (Some x)) = K tt (st k' p (Some x')).
Proof.
  intros Hx Hk.
  destruct (mark_inside af k p (x <| ac_disconnecting := true |>)) as (k1 & x1 & S1 & E1 & N1 & X1 & F1 & _ & R1);
    [done|by right|].
  destruct (failure_put k1 p) as (k2 & S2 & E2 & N2 & R2). exists k2, x1.
  unfold same_conn, same_ac in *. cbn in *. destruct_and!. split_and!; try congruence; [by apply F1; rewrite Hk|].
  intros r B K Hr. destruct r; [done| |];
  unfold conn_ctx; rewrite !bind_assoc, deref_conn_put, Hk, bind_ret_l; unfold redisAsyncDisconnect;
  rewrite !bind_assoc, upd_ac_put, !bind_assoc, deref_ac_put; cbn; rewrite Hx; cbn;
  by rewrite ?bind_ret_l, ?bind_assoc, R1, R2.
Qed.

(** The callback that gets a reply ends, and then the context may be freed. *)
Lemma auth_reply_settles k p x r :
  at_rest k p (Some x) -> ac_connected x = true -> cn_state k = CONN_CONNECTING -> ac_replies x = [CbAuth c] ->
  settles (process_reply af a r) k p (Some x).
Proof.
  intros (Hn & Hp & Hk & Ho & (Q1 & Q2 & Q3 & Q4) & Hd & Hok & Hph) Hc Hs Hl. rewrite Hl in *.
  assert (Ho' : owes [] p) by done.
  unfold process_reply. settle_by (@deref_ac_put). rewrite Hl. settle_by (@upd_ac_put). unfold run_callback. settle_by (@upd_ac_put).
  set (x1 := set_field _ _ _).
  assert (r = RpOk \/ r <> RpOk) as [->|Hr] by (destruct r; auto).
  - destruct (success_put k p (Some x1) Ho' Hn) as (k1 & p1 & S1 & E1 & N1 & O1 & C1 & I1 & R1).
    apply settles_assoc. eapply settles_bind; [done|done|apply R1|]. settle_by (@upd_ac_put). settle_by (@deref_ac_put). rewrite Q2.
    apply settles_ret; [|by rewrite E1]. unfold at_rest, phase. cbn. rewrite Hc, N1, C1. destruct S1 as (-> & _).
    split_and!; try done. right. split; [done|]. apply not_elem_of_nil.
  - destruct (auth_refused k p x1) as (k1 & x2 & S1 & E1 & N1 & X1 & F1 & R1); [done|done|].
    apply settles_assoc. eapply settles_bind; [done|done|intros B K; by apply R1|]. settle_by (@upd_ac_put). settle_by (@deref_ac_put).
    rewrite F1. destruct X1 as (D1 & C1 & I1 & L1). cbn in L1.
    apply free_settles; cbn; rewrite ?L1, ?D1, ?C1; try done; [by left|by destruct S1 as (-> & _)|cbn; congruence].
Qed.

Lemma reply_settles k p x r :
  at_rest k p (Some x) -> ac_connected x = true -> ac_replies x <> [] \/ r = RpError ->
  settles (process_reply af a r) k p (Some x).
Proof.
  intros Hr Hc Hen. pose proof Hr as (Hn & Hp & Hk & Ho & (Q1 & Q2 & Q3 & Q4) & Hd & Hok & Hph).
  destruct (ac_replies x) as [|cb l] eqn:Hl.
  { destruct Hen as [?| ->]; [done|]. unfold process_reply. settle_by (@deref_ac_put). rewrite Hl. settle_by (@upd_ac_put).
    apply disconnect_settles; cbn; rewrite ?Hl; try done; [by right|congruence]. }
  unfold phase in Hph. rewrite Hc, Hl in Hph. destruct Hph as [(Hs & _ & [Hph|(_ & Hph)])|(Hs & Hph)]; [|done|].
  { injection Hph as -> ->. by apply auth_reply_settles. }
  inversion_clear Hok as [|? ? Hcb Hok']. apply not_elem_of_cons in Hph as [Hcb' Hph].
  assert (Hrest : forall p', owes l p' -> pn_conn p' = c ->
    at_rest k p' (Some (x <| ac_replies := l |> <| ac_in_callback := false |>))).
  { intros p' O' C'. unfold at_rest, phase. cbn. rewrite Hc, C'. split_and!; try done. by right. }
  assert (Hnode : (exists m, cb = CbRaft m \/ cb = CbProxy m) -> settles (process_reply af a r) k p (Some x)).
  { intros (m & Hm). set (x1 := x <| ac_replies := l |> <| ac_in_callback := true |>).
    destruct (dismiss_put k p (Some x1) cb l Ho) as (p1 & O1 & C1 & I1 & R1); [eauto|].
    unfold process_reply. settle_by (@deref_ac_put). rewrite Hl. settle_by (@upd_ac_put). unfold run_callback, handle_response.
    assert (m = n) as -> by (destruct Hm as [-> | ->]; done).
    destruct Hm as [-> | ->]; settle_by (@upd_ac_put); fold x1; flatten;
      (eapply settles_bind; [done|exact I1|apply R1|]);
      (eapply (settles_bind _ _ _ _ _ k p1 (Some x1) tt); [done|done|intros; apply bind_ret_l|]);
      settle_by (@upd_ac_put); settle_by (@deref_ac_put); rewrite Q2; apply settles_ret;
      [apply Hrest; congruence|by rewrite Hs|apply Hrest; congruence|by rewrite Hs]. }
  destruct cb as [d|m|m|]; [by cbn in Hcb; subst d|eauto|eauto|].
  unfold process_reply. settle_by (@deref_ac_put). rewrite Hl. settle_by (@upd_ac_put).
  eapply (settles_bind _ _ _ _ _ k p (Some (x <| ac_replies := l |>)) tt); [done|done|intros; apply bind_ret_l|].
  apply settles_ret; [|by rewrite Hs]. specialize (Hrest p Ho Hp). destruct x. cbn in *. by subst.
Qed.

Lemma done_settles k p x :
  at_rest k p (Some x) -> settles (process_done af a) k p (Some x).
Proof.
  intros Hr. pose proof Hr as (_ & _ & _ & _ & (Q1 & Q2 & Q3 & Q4) & _ & _ & Hph). unfold process_done.
  settle_by (@deref_ac_put). rewrite Q3. apply settles_ret; [done|]. unfold phase in Hph.
  destruct (ac_connected x); [destruct Hph as [(-> & _)|(-> & _)]|destruct Hph as (-> & _)]; done.
Qed.

(** *** Timeouts of nodes, and sending *)

Lemma connected_ctx k p ox :
  at_rest k p ox -> is_connected k = true ->
  exists x, ox = Some x /\ cn_state k = CONN_CONNECTED /\ cn_terminating k = false /\ ac_connected x = true /\
    CbAuth c ∉ ac_replies x.
Proof.
  intros (Hn & Hp & Hr) Hc. unfold is_connected in Hc. apply andb_true_iff in Hc as [Hc Ht].
  apply bool_decide_eq_true in Hc. apply negb_true_iff in Ht. destruct ox as [x|].
  - exists x. destruct Hr as (_ & _ & _ & _ & _ & Hph). unfold phase in Hph.
    destruct (ac_connected x); [|destruct Hph; congruence].
    destruct Hph as [(? & _)|(? & ?)]; [congruence|]. split_and!; done.
  - destruct Hr as (_ & _ & [?|[?|?]]); congruence.
Qed.

Lemma mark_settles k p ox :
  at_rest k p ox -> is_connected k = true -> settles (ConnMarkDisconnected af c) k p ox.
Proof.
  intros Hr Hi. destruct (connected_ctx k p ox Hr Hi) as (x & -> & Hs & Ht & Hc & Hna).
  destruct Hr as (Hn & Hp & Hk & Ho & (Q1 & Q2 & Q3 & Q4) & Hd & Hok & Hph).
  unfold ConnMarkDisconnected. settle_by (@upd_conn_put). settle_by (@deref_conn_put). rewrite Hk.
  unfold redisAsyncFree. settle_by (@upd_ac_put). settle_by (@deref_ac_put). rewrite Q1.
  set (k1 := k <| cn_state := CONN_DISCONNECTED |>). set (x1 := set_field _ _ x).
  pose proof (async_free_put (async_free 0) k1 p x1 ltac:(done) ltac:(by right) Hok Hn Hp Ho Hd ltac:(cbn; congruence)) as H.
  replace (cn_terminating k1) with (cn_terminating k) in H by done. rewrite Ht in H.
  destruct H as (k2 & p2 & S2 & N2 & E2 & O2 & C2 & I2 & R2). cbn in E2. rewrite Hc in E2.
  eapply settles_bind; [exact S2|exact I2|apply R2|]. apply settles_last. settle_by (@upd_conn_put).
  apply settles_ret; [|cbn; by rewrite E2]. unfold at_rest. cbn. destruct S2 as (-> & _). split_and!; try done.
  left. exact E2.
Qed.

Lemma node_state_settles leader rt pt k p ox :
  at_rest k p ox ->
  handle_node_state af leader rt pt n (st k p ox) = Done (tt, st k p ox)
  \/ cn_terminating k = false /\ settles (handle_node_state af leader rt pt n) k p ox.
Proof.
  intros Hr. pose proof Hr as (Hn & Hp & _).
  destruct (is_connected k) eqn:Hi; [right|left].
  - pose proof (connected_ctx k p ox Hr Hi) as (x & -> & Hs & Ht & _). split; [exact Ht|]. unfold handle_node_state.
    settle_by (@deref_node_put). rewrite Hp. unfold ConnIsConnected. settle_by (@deref_conn_put).
    eapply (settles_bind _ _ _ _ _ k p (Some x) _); [done|done|intros; apply bind_ret_l|].
    destruct (pn_pending p) as [|r l]; [apply settles_ret; [done|by rewrite Hs]|].
    eapply (settles_bind _ _ _ _ _ k p (Some x) (lk_now w)); [done|done|intros; by rewrite bind_gets|].
    destruct (_ && _); [by apply mark_settles|apply settles_ret; [done|by rewrite Hs]].
  - unfold handle_node_state. rewrite deref_node_put, Hp. unfold ConnIsConnected.
    rewrite bind_assoc, deref_conn_put, bind_ret_l, Hi. by destruct (pn_pending p).
Qed.

Lemma send_settles what k p ox :
  at_rest k p ox ->
  send_to n what (st k p ox) = Done (false, st k p ox) \/ settles (send_to n what) k p ox.
Proof.
  intros Hr. pose proof Hr as (Hn & Hp & _).
  destruct (is_connected k) eqn:Hi; [right|left].
  - pose proof (connected_ctx k p ox Hr Hi) as (x & -> & Hs & Ht & Hc & Hna).
    destruct Hr as (_ & _ & Hk & Ho & (Q1 & Q2 & Q3 & Q4) & Hd & Hok & Hph). unfold send_to.
    settle_by (@deref_node_put). rewrite Hp. unfold ConnIsConnected. settle_by (@deref_conn_put).
    eapply (settles_bind _ _ _ _ _ k p (Some x) _); [done|done|intros; apply bind_ret_l|]. rewrite Hi.
    change (negb true) with false. cbv iota. unfold conn_ctx. settle_by (@deref_conn_put). rewrite Hk.
    eapply (settles_bind _ _ _ _ _ k p (Some x) _); [done|done|intros; apply bind_ret_l|].
    unfold redisAsyncCommand. settle_by (@deref_ac_put). rewrite Q2, Q3. cbn [orb]. settle_by (@upd_ac_put).
    set (cb := match what with SendRaft => CbRaft n | SendProxy => CbProxy n | SendShutdown => CbNone end).
    set (x1 := x <| ac_replies ::= _ |>).
    eapply (settles_bind _ _ _ _ _ k p (Some x1) _); [done|done|intros; apply bind_ret_l|].
    cbn [negb].
    assert (Hcb : cb_ok cb) by (by destruct what).
    assert (Hrest : forall p', owes (ac_replies x ++ [cb]) p' -> pn_conn p' = c -> at_rest k p' (Some x1)).
    { intros p' O' C'. unfold at_rest, phase. cbn. rewrite Hc. split_and!; try done.
      - apply Forall_app. split; [done|by constructor].
      - right. split; [done|]. rewrite elem_of_app, list_elem_of_singleton. intros [?|?]; [done|]. by destruct what. }
    assert (Hk' : kinds (ac_replies x ++ [cb]) = kinds (ac_replies x) ++ kinds [cb]) by apply omap_app.
    destruct Ho as (O1 & O2 & O3).
    destruct what; cbn [cb] in *.
    1, 2: unfold NodeAddPendingResponse; flatten;
      (eapply (settles_bind _ _ _ _ _ k p (Some x1) (lk_now w)); [done|done|intros; by rewrite bind_gets|]);
      settle_by (@upd_peer_put); apply settles_ret; [|by rewrite Hs]; apply Hrest; [|done];
      unfold owes; cbn; rewrite Hk', map_app, !count_app, O1, O2, O3; split_and!; cbn; try done; lia.
    eapply (settles_bind _ _ _ _ _ k p (Some x1) _); [done|done|intros; apply bind_ret_l|].
    apply settles_ret; [|by rewrite Hs]. apply Hrest; [|done].
    unfold owes. rewrite Hk', app_nil_r. done.
  - unfold send_to. rewrite deref_node_put, Hp. unfold ConnIsConnected.
    by rewrite bind_assoc, deref_conn_put, bind_ret_l, Hi.
Qed.

End Island.

#[local] Abbreviation af := (async_free free_fuel).
#[local] Arguments async_free : simpl never.

(** ** Connections that wait for the timer *)

Lemma gone_unlisted c n a w :
  gone c n a (w <| lk_connections ::= filter (fun d => d <> c) |>) = gone c n a w.
Proof.
  apply links_eq; try done. unfold gone. cbn. by apply list_filter_filter_l.
Qed.

Lemma idle_unchanged active c n a k p ox w :
  is_idle k = false -> handle_idle af active c (put c n a k p ox w) = Done (tt, put c n a k p ox w).
Proof. intros Hi. unfold handle_idle. by rewrite deref_conn_put, Hi. Qed.

Lemma idle_ends active c n a k p ox w :
  at_rest c n a k p ox -> is_idle k = true -> cn_terminating k = true ->
  handle_idle af active c (put c n a k p ox w) = Done (tt, gone c n a w).
Proof.
  intros (Hn & Hp & Hr) Hi Ht. rewrite bind_ret_r. unfold handle_idle.
  rewrite bind_assoc, deref_conn_put, Hi. cbn [negb]. rewrite Ht, bind_assoc, unlist_put.
  rewrite <- (gone_unlisted c n a w). set (w1 := set_field _ _ w). destruct ox as [x|].
  - destruct Hr as (Hk & Ho & (Q1 & Q2 & Q3 & Q4) & Hd & Hok & Hph). rewrite Hk, bind_assoc, upd_conn_put.
    unfold redisAsyncFree. rewrite bind_assoc, upd_ac_put, bind_assoc, deref_ac_put. cbn [ac_in_callback].
    replace (ac_in_callback (x <| ac_freeing := true |>)) with (ac_in_callback x) by done. rewrite Q1.
    set (k1 := k <| cn_rc := None |>). set (x1 := x <| ac_freeing := true |>).
    assert (Hcl : ac_connected x1 = false -> ac_replies x1 = []).
    { unfold phase in Hph. cbn. destruct (ac_connected x); [done|]. by destruct Hph. }
    pose proof (async_free_put c n a w1 (async_free 0) k1 p x1 Q1 ltac:(by left) Hok Hn Hp Ho Hd Hcl) as H.
    replace (cn_terminating k1) with true in H by done. apply H.
  - destruct Hr as (Hk & _). rewrite Hk. unfold ConnFree, NodeFree, clearPendingResponses.
    rewrite !bind_assoc, deref_conn_put, Hn, !bind_assoc, upd_peer_put, !bind_modify.
    unfold ret. do 2 f_equal. apply links_eq; try done; unfold put, gone; cbn.
    + by rewrite delete_insert_eq.
    + by rewrite delete_insert_eq.
Qed.

Lemma idle_connects active c n a k p ox w :
  at_rest c n a k p ox -> is_idle k = true -> cn_terminating k = false ->
  ox = None /\
  handle_idle af active c (put c n a k p ox w)
  = Done (tt, if active (pn_id p)
              then put c n a (k <| cn_state := CONN_RESOLVING |> <| cn_callback := true |>) p None
                     (w <| lk_pool ::= (fun l => l ++ [c]) |>)
              else put c n a k p ox w).
Proof.
  intros (Hn & Hp & Hr) Hi Ht.
  assert (ox = None) as ->.
  { destruct ox as [x|]; [|done]. destruct Hr as (_ & _ & _ & _ & _ & Hph). unfold phase in Hph. unfold is_idle in Hi.
    destruct (ac_connected x); [destruct Hph as [(Hs & _)|(Hs & _)]|destruct Hph as (Hs & _)]; rewrite Hs in Hi; congruence. }
  split; [done|]. rewrite bind_ret_r. unfold handle_idle, nodeIdleCallback.
  rewrite bind_assoc, deref_conn_put, Hi. cbn [negb]. rewrite Ht, bind_assoc, deref_conn_put, Hn, bind_assoc, deref_node_put.
  destruct (active (pn_id p)); [|done]. unfold ConnConnect, ConnIsIdle.
  rewrite Hp, !bind_assoc, deref_conn_put, bind_ret_l, Hi. unfold c_assert. rewrite ?bind_assoc, bind_ret_l.
  rewrite bind_assoc, upd_conn_put. done.
Qed.

(** ** A name has been resolved *)

(** A context whose attempt to connect could not be started. *)
Lemma free_unused {B} c n a k p e w (K : unit -> L B) :
  bind (redisAsyncFree af a) K (put c n a k p (Some (mk_ac None false false false false e [])) w)
  = K tt (put c n a k p None w).
Proof.
  unfold redisAsyncFree. rewrite bind_assoc, upd_ac_put, bind_assoc, deref_ac_put. cbn.
  unfold free_fuel. change (async_free 1 a) with (async_free_body (async_free 0) a). unfold async_free_body, drain_all.
  rewrite !bind_assoc, deref_ac_put. cbn. rewrite !bind_assoc, deref_ac_put. cbn.
  rewrite !bind_assoc, deref_ac_put.
  lazymatch goal with |- context [ac_data ?x] => replace (ac_data x) with (@None Z) by done end.
  by rewrite !bind_assoc, bind_ret_l, free_ac_put.
Qed.

Lemma resolved_rests ok c n k p w :
  at_rest c n (lk_brk w) k p None -> cn_state k = CONN_RESOLVING ->
  exists k' ox' w', same_conn k k' /\ at_rest c n (lk_brk w) k' p ox' /\ cn_state k' <> CONN_RESOLVING /\
    (w' = w /\ ox' = None \/ w' = w <| lk_brk := lk_brk w + 1 |>) /\
    handleResolved af c ok (put c n (lk_brk w) k p None w) = Done (tt, put c n (lk_brk w) k' p ox' w').
Proof.
  intros (Hn & Hp & Hk & Ho & _) Hs. set (a := lk_brk w).
  destruct (cn_terminating k) eqn:Ht; [|destruct (cn_resolved k =? 0) eqn:Hz; [destruct ok|]].
  - exists (k <| cn_state := CONN_DISCONNECTED |>), None, w. refine (conj _ (conj _ (conj _ (conj _ _)))); [done| |done|by left|].
    + unfold at_rest. cbn. by auto 10.
    + rewrite bind_ret_r. unfold handleResolved. rewrite bind_assoc, deref_conn_put, Ht. by rewrite upd_conn_put.
  - set (x := mk_ac (Some c) false false false false false []).
    exists (k <| cn_rc := Some a |> <| cn_state := CONN_CONNECTING |> <| cn_terminating := false |>), (Some x),
      (w <| lk_brk := a + 1 |>). refine (conj _ (conj _ (conj _ (conj _ _)))); [done| |done|by right|].
    + unfold at_rest. cbn. split_and!; try done; by constructor.
    + rewrite bind_ret_r. unfold handleResolved. rewrite bind_assoc, deref_conn_put, Ht, Hz, Hk. cbn [negb].
      rewrite !bind_assoc, bind_ret_l, !bind_assoc, bind_gets, !bind_assoc, alloc_ac_put by done.
      by rewrite !bind_assoc, upd_conn_put, !bind_assoc, upd_ac_put, upd_conn_put.
  - eexists (k <| cn_rc := Some a |> <| cn_state := CONN_CONNECT_ERROR |> <| cn_connect_errors ::= Z.add 1 |> <| cn_rc := None |>),
      None, (w <| lk_brk := a + 1 |>). refine (conj _ (conj _ (conj _ (conj _ _)))); [done| |done|by right|].
    + unfold at_rest. cbn. by auto 10.
    + rewrite bind_ret_r. unfold handleResolved. rewrite bind_assoc, deref_conn_put, Ht, Hz, Hk. cbn [negb].
      rewrite !bind_assoc, bind_ret_l, !bind_assoc, bind_gets, !bind_assoc, alloc_ac_put by done.
      rewrite !bind_assoc, upd_conn_put, !bind_assoc, upd_conn_put, !bind_assoc, deref_conn_put. cbn [cn_rc].
      set (k1 := set_field _ _ _). replace (cn_rc k1) with (Some a) by done.
      by rewrite !bind_assoc, free_unused, upd_conn_put.
  - eexists (k <| cn_state := CONN_CONNECT_ERROR |> <| cn_connect_errors ::= Z.add 1 |>), None, w.
    refine (conj _ (conj _ (conj _ (conj _ _)))); [done| |done|by left|].
    + unfold at_rest. cbn. by auto 10.
    + rewrite bind_ret_r. unfold handleResolved. rewrite bind_assoc, deref_conn_put, Ht, Hz. cbn [negb].
      rewrite bind_assoc, upd_conn_put, bind_assoc, deref_conn_put. cbn. by rewrite Hk.
Qed.
