(* ===== verification/ConnectionSafe.v ===== *)
(** * Connections are used only while they exist

    Whatever happens on the sockets, in the thread pool and to the membership of
    the cluster, in any order: no freed connection, node or context is used, no
    assertion fails, and every node counts exactly the replies that it still will
    get. *)

From stdpp Require Import base list numbers tactics gmap.
From S2P Require Import Prelude Connection ConnectionSpec.

Local Open Scope Z_scope.

#[local] Abbreviation L := (M links).
#[local] Arguments async_free : simpl never.

(** ** What happens *)

Inductive conn_event :=
| EvNodeCreate (id : Z) (auth : bool)
| EvNodeRemove (n : Z)
| EvSend (n : Z) (what : sending)
| EvIdle (loading : bool) (active : Z -> bool)
| EvStates (loading leader : bool) (response_timeout proxy_timeout : Z)
| EvResolved (c rc : Z)
| EvOneShot (c : Z) (ok : bool)
| EvConnect (a : Z) (ok : bool)
| EvReply (a : Z) (r : reply_kind)
| EvDone (a : Z)
| EvError (a : Z)
| EvTimer (a : Z)
| EvClock (t : Z).

(** The raft library gives the node that it was told of until it is removed; a task
    runs when it has been added; events come for contexts that exist; a server
    answers only what it was asked, or closes with an error. *)
Definition enabled (w : links) (ev : conn_event) : Prop :=
  match ev with
  | EvNodeCreate _ _ | EvIdle _ _ | EvStates _ _ _ _ | EvClock _ => True
  | EvNodeRemove n | EvSend n _ =>
      exists p k, lk_nodes w !! n = Some p /\ lk_conns w !! pn_conn p = Some k /\ cn_terminating k = false
  | EvResolved c _ => c ∈ lk_pool w
  | EvOneShot c _ => c ∈ lk_oneshots w
  | EvConnect a _ => exists x, lk_acs w !! a = Some x /\ ac_connected x = false
  | EvReply a r => exists x, lk_acs w !! a = Some x /\ ac_connected x = true /\ (ac_replies x <> [] \/ r = RpError)
  | EvError a => exists x, lk_acs w !! a = Some x /\ ac_connected x = true
  | EvDone a | EvTimer a => is_Some (lk_acs w !! a)
  end.

#[local] Abbreviation af := (async_free free_fuel).

Definition exec (ev : conn_event) : L unit :=
  match ev with
  | EvNodeCreate id auth => NodeCreate id auth ;; ret tt
  | EvNodeRemove n => p <- deref_node n ;; ConnAsyncTerminate (pn_conn p)
  | EvSend n what => send_to n what ;; ret tt
  | EvIdle loading active => HandleIdleConnections af loading active
  | EvStates loading leader rt pt => HandleNodeStates af loading leader rt pt
  | EvResolved c rc => ConnGetAddrinfo c rc
  | EvOneShot c ok => modify (fun w => w <| lk_oneshots ::= filter (fun d => d <> c) |>) ;; handleResolved af c ok
  | EvConnect a ok => async_handle_connect af a ok
  | EvReply a r => process_reply af a r
  | EvDone a => process_done af a
  | EvError a => socket_error af a
  | EvTimer a => redisAsyncHandleTimeout af a
  | EvClock t => modify (fun w => w <| lk_now := t |>)
  end.

Definition links0 : links := mk_links ∅ ∅ ∅ 1 [] [] [] [] 0.

Inductive conn_reachable : links -> Prop :=
| conn_init : conn_reachable links0
| conn_next w ev w' : conn_reachable w -> enabled w ev -> exec ev w = Done (tt, w') -> conn_reachable w'.

(** ** The links between connections, nodes and contexts *)

Definition ctx_of (w : links) (k : Connection) : option redisAsyncContext := cn_rc k ≫= fun a => lk_acs w !! a.

(** Where the context of a connection is; one without is taken to have its next one. *)
Definition addr_of (w : links) (k : Connection) : Z := default (lk_brk w) (cn_rc k).

Record linked (w : links) : Prop := {
  ln_conns : forall c, c ∈ lk_connections w <-> is_Some (lk_conns w !! c);
  ln_conns_nodup : NoDup (lk_connections w);
  ln_nodes : forall n, n ∈ lk_node_list w <-> is_Some (lk_nodes w !! n);
  ln_nodes_nodup : NoDup (lk_node_list w);
  ln_conn : forall c k, lk_conns w !! c = Some k ->
    exists p, lk_nodes w !! cn_privdata k = Some p /\ at_rest c (cn_privdata k) (addr_of w k) k p (ctx_of w k);
  ln_node : forall n p, lk_nodes w !! n = Some p -> exists k, lk_conns w !! pn_conn p = Some k /\ cn_privdata k = n;
  ln_ac : forall a x, lk_acs w !! a = Some x ->
    exists c k, ac_data x = Some c /\ lk_conns w !! c = Some k /\ cn_rc k = Some a;
  ln_tasks : NoDup (lk_pool w ++ lk_oneshots w);
  ln_task : forall c, c ∈ lk_pool w ++ lk_oneshots w <-> exists k, lk_conns w !! c = Some k /\ cn_state k = CONN_RESOLVING;
  ln_conn_fresh : forall c, is_Some (lk_conns w !! c) -> c < lk_brk w;
  ln_node_fresh : forall n, is_Some (lk_nodes w !! n) -> n < lk_brk w;
  ln_ac_fresh : forall a, is_Some (lk_acs w !! a) -> a < lk_brk w
}.

Lemma at_rest_none c n a b k p : at_rest c n a k p None -> at_rest c n b k p None.
Proof. done. Qed.

(** The state around one connection. *)
Lemma focus w c k :
  linked w -> lk_conns w !! c = Some k ->
  exists p, lk_nodes w !! cn_privdata k = Some p /\ pn_conn p = c /\
    at_rest c (cn_privdata k) (addr_of w k) k p (ctx_of w k) /\
    put c (cn_privdata k) (addr_of w k) k p (ctx_of w k) w = w.
Proof.
  intros Hw Hc. destruct (ln_conn _ Hw c k Hc) as (p & Hp & Hr). exists p.
  split; [done|]. split; [by destruct Hr as (_ & ? & _)|]. split; [done|].
  apply links_eq; try done; unfold put; cbn; [by apply insert_id|by apply insert_id|].
  destruct Hr as (_ & _ & Hr). unfold ctx_of, addr_of in *. destruct (cn_rc k) as [a|] eqn:Ea; cbn in *.
  - destruct (lk_acs w !! a) eqn:Ex; [by apply insert_id|by destruct Hr].
  - apply delete_id. destruct (lk_acs w !! lk_brk w) eqn:Ex; [|done].
    pose proof (ln_ac_fresh _ Hw (lk_brk w) ltac:(eauto)). lia.
Qed.

(** The other connections do not see it. *)
Lemma other_conn w c k d k' :
  linked w -> lk_conns w !! c = Some k -> lk_conns w !! d = Some k' -> d <> c ->
  cn_privdata k' <> cn_privdata k /\ (forall a, cn_rc k' = Some a -> a <> addr_of w k).
Proof.
  intros Hw Hc Hd Hne.
  destruct (ln_conn _ Hw c k Hc) as (p & Hp & _ & Hpc & Hr).
  destruct (ln_conn _ Hw d k' Hd) as (q & Hq & _ & Hqd & Hr').
  split; [intros E; rewrite E in Hq; congruence|]. intros a Ea E. subst a.
  unfold ctx_of in Hr'. rewrite Ea in Hr'. cbn in Hr'. destruct (lk_acs w !! addr_of w k) as [x|] eqn:Ex; [|by destruct Hr'].
  unfold addr_of in *. destruct (cn_rc k) as [b|] eqn:Eb; cbn in *.
  - destruct (ln_ac _ Hw b x Ex) as (e & ke & Ed & _).
    unfold ctx_of in Hr. rewrite Eb in Hr. cbn in Hr. rewrite Ex in Hr. destruct Hr as (_ & _ & _ & Hxc & _).
    destruct Hr' as (_ & _ & _ & Hxd & _). congruence.
  - pose proof (ln_ac_fresh _ Hw (lk_brk w) ltac:(eauto)). lia.
Qed.

Lemma linked_put w c k k' p' ox' b po os :
  linked w -> lk_conns w !! c = Some k ->
  cn_privdata k' = cn_privdata k -> at_rest c (cn_privdata k) (addr_of w k) k' p' ox' ->
  lk_brk w <= b -> (is_Some ox' -> addr_of w k < b) ->
  NoDup (po ++ os) -> (forall d, d <> c -> d ∈ po ++ os <-> d ∈ lk_pool w ++ lk_oneshots w) ->
  (c ∈ po ++ os <-> cn_state k' = CONN_RESOLVING) ->
  linked (put c (cn_privdata k) (addr_of w k) k' p' ox' (w <| lk_brk := b |> <| lk_pool := po |> <| lk_oneshots := os |>)).
Proof.
  intros Hw Hc Hpriv Hr Hb Hox Hnd Hother Hself.
  destruct (ln_conn _ Hw c k Hc) as (p & Hp & _ & Hpc & _).
  assert (Ha : addr_of w k < lk_brk w \/ lk_acs w !! addr_of w k = None).
  { destruct (lk_acs w !! addr_of w k) eqn:E; [left; apply (ln_ac_fresh _ Hw); eauto|by right]. }
  split; unfold put; cbn.
  - intros d. rewrite (ln_conns _ Hw d), lookup_insert. destruct (decide (c = d)) as [->|]; [|done]. rewrite Hc. split; eauto.
  - apply Hw.
  - intros m. rewrite (ln_nodes _ Hw m), lookup_insert. destruct (decide (_ = m)) as [<-|]; [|done]. rewrite Hp. split; eauto.
  - apply Hw.
  - intros d kd Hd. rewrite lookup_insert in Hd. destruct (decide (c = d)) as [<-|Hne].
    + injection Hd as <-. exists p'. rewrite Hpriv, lookup_insert_eq. split; [done|].
      destruct Hr as (R1 & R2 & R3). unfold ctx_of, addr_of in *. cbn. destruct ox' as [x|]; cbn.
      * destruct R3 as (R3 & R4). rewrite R3. cbn. rewrite lookup_insert_eq. done.
      * destruct R3 as (R3 & R4). rewrite R3. cbn. done.
    + destruct (other_conn w c k d kd Hw Hc Hd ltac:(done)) as [Hn Ho].
      destruct (ln_conn _ Hw d kd Hd) as (q & Hq & Hr'). exists q. rewrite lookup_insert_ne by done. split; [done|].
      unfold ctx_of, addr_of in *. cbn. destruct (cn_rc kd) as [a|] eqn:Ea; cbn in *; [|done].
      specialize (Ho a eq_refl). destruct ox'; [by rewrite lookup_insert_ne|by rewrite lookup_delete_ne].
  - intros m q Hm. rewrite lookup_insert in Hm. destruct (decide (_ = m)) as [<-|Hne].
    + injection Hm as <-. destruct Hr as (_ & -> & _). exists k'. rewrite lookup_insert_eq. done.
    + destruct (ln_node _ Hw m q Hm) as (kq & Hk & Hkm). exists kq. rewrite lookup_insert_ne; [done|].
      intros E. rewrite <- E, Hc in Hk. congruence.
  - intros a x Hx.
    assert (Hold : a <> addr_of w k -> lk_acs w !! a = Some x ->
      exists d kd, ac_data x = Some d /\ <[c:=k']> (lk_conns w) !! d = Some kd /\ cn_rc kd = Some a).
    { intros Hne Hx'. destruct (ln_ac _ Hw a x Hx') as (d & kd & H1 & H2 & H3). exists d, kd.
      split; [done|]. split; [|done]. rewrite lookup_insert_ne; [done|]. intros <-. apply Hne. unfold addr_of.
      rewrite Hc in H2. injection H2 as ->. by rewrite H3. }
    destruct ox' as [y|].
    + rewrite lookup_insert in Hx. destruct (decide (_ = a)) as [<-|]; [|by apply Hold].
      injection Hx as <-. destruct Hr as (_ & _ & R1 & _ & _ & R2 & _). exists c, k'. by rewrite lookup_insert_eq.
    + rewrite lookup_delete in Hx. destruct (decide (_ = a)); [done|]. by apply Hold.
  - done.
  - intros d. destruct (decide (d = c)) as [->|Hne].
    + rewrite Hself, lookup_insert_eq. split; [eauto|]. by intros (? & [= <-] & ?).
    + rewrite (Hother d Hne), lookup_insert_ne by done. apply (ln_task _ Hw).
  - intros d. rewrite lookup_insert. destruct (decide (c = d)) as [<-|]; intros H;
      [pose proof (ln_conn_fresh _ Hw c ltac:(eauto))|pose proof (ln_conn_fresh _ Hw d H)]; lia.
  - intros d. rewrite lookup_insert. destruct (decide (_ = d)) as [<-|]; intros H;
      [pose proof (ln_node_fresh _ Hw (cn_privdata k) ltac:(eauto))|pose proof (ln_node_fresh _ Hw d H)]; lia.
  - intros d. destruct ox' as [y|].
    + rewrite lookup_insert. destruct (decide (_ = d)) as [<-|]; intros H; [apply Hox; eauto|].
      pose proof (ln_ac_fresh _ Hw d H). lia.
    + rewrite lookup_delete. destruct (decide (_ = d)) as [<-|]; intros H; [by destruct H|].
      pose proof (ln_ac_fresh _ Hw d H). lia.
Qed.

Lemma linked_gone w c k :
  linked w -> lk_conns w !! c = Some k -> cn_state k <> CONN_RESOLVING ->
  linked (gone c (cn_privdata k) (addr_of w k) w).
Proof.
  intros Hw Hc Hs. destruct (ln_conn _ Hw c k Hc) as (p & Hp & _ & Hpc & _).
  split; unfold gone; cbn.
  - intros d. rewrite list_elem_of_filter, (ln_conns _ Hw d), lookup_delete. destruct (decide (c = d)) as [->|].
    + split; [by intros []|by intros []].
    + naive_solver.
  - by apply NoDup_filter, Hw.
  - intros m. rewrite list_elem_of_filter, (ln_nodes _ Hw m), lookup_delete. destruct (decide (_ = m)) as [->|].
    + split; [by intros []|by intros []].
    + naive_solver.
  - by apply NoDup_filter, Hw.
  - intros d kd Hd. rewrite lookup_delete in Hd. destruct (decide (c = d)) as [|Hne]; [done|].
    destruct (other_conn w c k d kd Hw Hc Hd ltac:(done)) as [Hn Ho].
    destruct (ln_conn _ Hw d kd Hd) as (q & Hq & Hr'). exists q. rewrite lookup_delete_ne by done. split; [done|].
    unfold ctx_of, addr_of in *. cbn. destruct (cn_rc kd) as [a|] eqn:Ea; cbn in *; [|done].
    specialize (Ho a eq_refl). by rewrite lookup_delete_ne.
  - intros m q Hm. rewrite lookup_delete in Hm. destruct (decide (_ = m)) as [|Hne]; [done|].
    destruct (ln_node _ Hw m q Hm) as (kq & Hk & Hkm). exists kq. rewrite lookup_delete_ne; [done|].
    intros E. rewrite <- E, Hc in Hk. congruence.
  - intros a x Hx. rewrite lookup_delete in Hx. destruct (decide (_ = a)) as [|Hne]; [done|].
    destruct (ln_ac _ Hw a x Hx) as (d & kd & H1 & H2 & H3). exists d, kd. split; [done|]. split; [|done].
    rewrite lookup_delete_ne; [done|]. intros <-. apply Hne. unfold addr_of. rewrite Hc in H2. injection H2 as ->. by rewrite H3.
  - apply Hw.
  - intros d. rewrite (ln_task _ Hw d), lookup_delete. destruct (decide (c = d)) as [<-|]; [|done].
    rewrite Hc. split; [by intros (? & [= <-] & ?)|by intros (? & ? & _)].
  - intros d. rewrite lookup_delete. destruct (decide _); [by intros []|apply Hw].
  - intros d. rewrite lookup_delete. destruct (decide _); [by intros []|apply Hw].
  - intros d. rewrite lookup_delete. destruct (decide _); [by intros []|apply Hw].
Qed.

(** The connection [c] has been left at rest in another state, or has gone. *)
Definition evolved (w : links) (c : Z) (k : Connection) (w' : links) : Prop :=
  (exists k' p' ox', w' = put c (cn_privdata k) (addr_of w k) k' p' ox' w)
  \/ cn_terminating k = true /\ w' = gone c (cn_privdata k) (addr_of w k) w.

Lemma at_rest_ctx w c k p :
  at_rest c (cn_privdata k) (addr_of w k) k p (ctx_of w k) -> is_Some (ctx_of w k) -> cn_state k <> CONN_RESOLVING.
Proof.
  intros (_ & _ & Hr) [x Hx]. rewrite Hx in Hr. destruct Hr as (_ & _ & _ & _ & _ & Hph). unfold phase in Hph.
  destruct (ac_connected x); [destruct Hph as [(-> & _)|(-> & _)]|destruct Hph as (-> & _)]; done.
Qed.

Lemma addr_lt w k : linked w -> is_Some (ctx_of w k) -> addr_of w k < lk_brk w.
Proof.
  intros Hw [x Hx]. unfold ctx_of, addr_of in *. destruct (cn_rc k) as [a|]; [|done]. cbn in *.
  apply (ln_ac_fresh _ Hw). eauto.
Qed.

(** Where an operation has a connection with a context settle, the links stay. *)
Lemma settles_runs {A} (m : L A) w c k p :
  linked w -> lk_conns w !! c = Some k -> lk_nodes w !! cn_privdata k = Some p -> is_Some (ctx_of w k) ->
  settles c (cn_privdata k) (addr_of w k) w m k p (ctx_of w k) ->
  exists r w', m w = Done (r, w') /\ linked w' /\ evolved w c k w'.
Proof.
  intros Hw Hc Hp Hx Hm. destruct (focus w c k Hw Hc) as (p' & Hp' & _ & Hr & E).
  rewrite Hp in Hp'. injection Hp' as <-. pose proof (at_rest_ctx w c k p Hr Hx) as Hs.
  destruct Hm as [(Ht & r & R)|(k' & p' & ox' & r & (S1 & S2 & S3) & _ & A' & N & R)].
  - exists r, (gone c (cn_privdata k) (addr_of w k) w). split_and!; [|by apply linked_gone|by right].
    rewrite bind_ret_r, <- E at 1. by rewrite R.
  - exists r, (put c (cn_privdata k) (addr_of w k) k' p' ox' w). split_and!; [| |left; eauto].
    + rewrite bind_ret_r, <- E at 1. by rewrite R.
    + apply (linked_put w c k k' p' ox' (lk_brk w) (lk_pool w) (lk_oneshots w)); try done; [by intros _; apply addr_lt|apply Hw|].
      rewrite (ln_task _ Hw c), Hc. split; [by intros (? & [= <-] & ?)|by intros ?].
Qed.

(** The connection of a context. *)
Lemma of_context w a x :
  linked w -> lk_acs w !! a = Some x ->
  exists c k p, lk_conns w !! c = Some k /\ lk_nodes w !! cn_privdata k = Some p /\ ctx_of w k = Some x /\ addr_of w k = a /\
    at_rest c (cn_privdata k) a k p (Some x).
Proof.
  intros Hw Hx. destruct (ln_ac _ Hw a x Hx) as (c & k & Hd & Hc & Hk).
  destruct (ln_conn _ Hw c k Hc) as (p & Hp & Hr). exists c, k, p.
  assert (Hctx : ctx_of w k = Some x) by (unfold ctx_of; by rewrite Hk).
  assert (Ha : addr_of w k = a) by (unfold addr_of; by rewrite Hk).
  rewrite Hctx, Ha in Hr. done.
Qed.

Lemma context_event (m : L unit) w a x :
  linked w -> lk_acs w !! a = Some x ->
  (forall c n k p, at_rest c n a k p (Some x) -> settles c n a w m k p (Some x)) ->
  exists w', m w = Done (tt, w') /\ linked w'.
Proof.
  intros Hw Hx Hm. destruct (of_context w a x Hw Hx) as (c & k & p & Hc & Hp & Hctx & Ha & Hr).
  destruct (settles_runs m w c k p Hw Hc Hp ltac:(rewrite Hctx; eauto)) as ([] & w' & R & Hw' & _); [|eauto].
  rewrite Hctx, Ha. by apply Hm.
Qed.

(** ** New nodes *)

Lemma create_links w id auth :
  linked w -> exists w', exec (EvNodeCreate id auth) w = Done (tt, w') /\ linked w'.
Proof.
  intros Hw. eexists. split; [reflexivity|]. set (n := lk_brk w). cbn.
  assert (Fc : forall z, n <= z -> lk_conns w !! z = None).
  { intros z Hz. destruct (lk_conns w !! z) eqn:E; [|done]. pose proof (ln_conn_fresh _ Hw z ltac:(eauto)). unfold n in *. lia. }
  assert (Fn : forall z, n <= z -> lk_nodes w !! z = None).
  { intros z Hz. destruct (lk_nodes w !! z) eqn:E; [|done]. pose proof (ln_node_fresh _ Hw z ltac:(eauto)). unfold n in *. lia. }
  pose proof (Fn n ltac:(lia)) as Hn. pose proof (Fc (n + 1) ltac:(lia)) as Hc.
  split; cbn.
  - intros d. rewrite elem_of_cons, (ln_conns _ Hw d), lookup_insert.
    destruct (decide (n + 1 = d)) as [<-|]; [split; eauto|]. naive_solver.
  - constructor; [|apply Hw]. rewrite (ln_conns _ Hw), Hc. by intros [].
  - intros m. rewrite elem_of_cons, (ln_nodes _ Hw m), lookup_insert.
    destruct (decide (n = m)) as [<-|]; [split; eauto|]. rewrite lookup_insert_ne by done. naive_solver.
  - constructor; [|apply Hw]. rewrite (ln_nodes _ Hw), Hn. by intros [].
  - intros d k Hd. rewrite lookup_insert in Hd. destruct (decide (n + 1 = d)) as [<-|].
    + injection Hd as <-. cbn. exists (mk_peer id (n + 1) [] 0 0). rewrite lookup_insert_eq. split; [done|].
      unfold at_rest. cbn. split_and!; try done; auto.
    + destruct (ln_conn _ Hw d k Hd) as (p & Hp & Hr). exists p. rewrite !lookup_insert_ne by congruence. split; [done|].
      unfold ctx_of, addr_of in *. cbn. by destruct (cn_rc k).
  - intros m p Hm. rewrite lookup_insert in Hm. destruct (decide (n = m)) as [<-|].
    + injection Hm as <-. cbn. eexists. by rewrite lookup_insert_eq.
    + rewrite lookup_insert_ne in Hm by done. destruct (ln_node _ Hw m p Hm) as (k & Hk & E). exists k.
      rewrite lookup_insert_ne; [done|]. congruence.
  - intros a x Hx. destruct (ln_ac _ Hw a x Hx) as (d & k & H1 & H2 & H3). exists d, k.
    rewrite lookup_insert_ne; [done|]. congruence.
  - apply Hw.
  - intros d. rewrite (ln_task _ Hw d), lookup_insert. destruct (decide (n + 1 = d)) as [<-|]; [|done].
    rewrite Hc. split; [by intros (? & ? & _)|by intros (? & [= <-] & ?)].
  - intros d. rewrite lookup_insert. destruct (decide (n + 1 = d)) as [<-|]; [lia|]. intros H.
    pose proof (ln_conn_fresh _ Hw d H). unfold n. lia.
  - intros d. rewrite lookup_insert. destruct (decide (n = d)) as [<-|]; [lia|]. rewrite lookup_insert_ne by done. intros H.
    pose proof (ln_node_fresh _ Hw d H). unfold n. lia.
  - intros d H. pose proof (ln_ac_fresh _ Hw d H). unfold n. lia.
Qed.

(** ** The rounds of the timer *)

(** The connections of the list that were to end are gone; the others are not in it. *)
Lemma idle_round active l w :
  linked w -> NoDup l -> (forall c, c ∈ l -> is_Some (lk_conns w !! c)) ->
  exists w', for_each l (handle_idle af active) w = Done (tt, w') /\ linked w' /\
    (forall c k, c ∈ l -> lk_conns w !! c = Some k -> is_idle k = true -> cn_terminating k = true -> lk_conns w' !! c = None) /\
    (forall c, c ∉ l -> lk_conns w' !! c = lk_conns w !! c).
Proof.
  revert w. induction l as [|c l IH]; intros w Hw Hnd Hin.
  { exists w. split_and!; try done. by intros c k H%elem_of_nil. }
  apply NoDup_cons in Hnd as [Hcl Hnd]. destruct (Hin c ltac:(by left)) as [k Hc].
  destruct (focus w c k Hw Hc) as (p & Hp & _ & Hr & E). set (n := cn_privdata k) in *. set (a := addr_of w k) in *.
  assert (Hstep : exists w1, handle_idle af active c w = Done (tt, w1) /\ linked w1 /\
    (is_idle k = true -> cn_terminating k = true -> lk_conns w1 !! c = None) /\
    (forall d, d <> c -> lk_conns w1 !! d = lk_conns w !! d)).
  { destruct (is_idle k) eqn:Hi; [destruct (cn_terminating k) eqn:Ht|].
    - exists (gone c n a w). split_and!.
      + rewrite <- E at 1. by apply idle_ends.
      + apply linked_gone; try done. unfold is_idle in Hi. intros Hs. by rewrite Hs in Hi.
      + intros _ _. cbn. by rewrite lookup_delete_eq.
      + intros d Hd. cbn. by rewrite lookup_delete_ne.
    - destruct (idle_connects active c n a k p (ctx_of w k) w Hr Hi Ht) as [Hx R]. rewrite E in R.
      destruct (active (pn_id p)).
      + eexists. split; [exact R|]. split_and!; try done.
        * eapply (linked_put w c k _ p None (lk_brk w) (lk_pool w ++ [c]) (lk_oneshots w) Hw Hc); [done| |lia| | | |].
          -- rewrite Hx in Hr. destruct Hr as (R1 & R2 & R3 & R4 & R5). unfold at_rest. cbn. auto 10.
          -- by intros [].
          -- assert (Hnin : c ∉ lk_pool w ++ lk_oneshots w).
             { rewrite (ln_task _ Hw c). intros (k' & Hk' & Hs). rewrite Hc in Hk'. injection Hk' as <-.
               unfold is_idle in Hi. by rewrite Hs in Hi. }
             rewrite <- app_assoc. cbn [app]. rewrite <- Permutation_middle. constructor; [done|]. apply Hw.
          -- intros d Hd. rewrite !elem_of_app, list_elem_of_singleton. naive_solver.
          -- cbn. split; [done|]. intros _. rewrite !elem_of_app, list_elem_of_singleton. naive_solver.
        * intros d Hd. cbn. by rewrite lookup_insert_ne.
      + exists w. split; [exact R|]. split_and!; try done.
    - exists w. split_and!; try done. rewrite <- E. by apply idle_unchanged. }
  destruct Hstep as (w1 & R1 & Hw1 & G1 & O1).
  destruct (IH w1 Hw1 Hnd) as (w2 & R2 & Hw2 & G2 & O2).
  { intros d Hd. rewrite O1 by congruence. apply Hin. by right. }
  exists w2. split_and!; try done.
  - cbn [for_each]. by rewrite (bind_done_eq _ _ _ _ _ R1).
  - intros d kd [->|Hd]%elem_of_cons Hkd Hi Ht.
    + rewrite O2 by done. rewrite Hc in Hkd. injection Hkd as <-. auto.
    + apply (G2 d kd); try done. rewrite O1 by congruence. done.
  - intros d [Hd Hd']%not_elem_of_cons. rewrite O2 by done. by apply O1.
Qed.

(** The connection of a node. *)
Lemma of_node w n p :
  linked w -> lk_nodes w !! n = Some p ->
  exists k, lk_conns w !! pn_conn p = Some k /\ cn_privdata k = n /\
    at_rest (pn_conn p) n (addr_of w k) k p (ctx_of w k) /\ put (pn_conn p) n (addr_of w k) k p (ctx_of w k) w = w.
Proof.
  intros Hw Hp. destruct (ln_node _ Hw n p Hp) as (k & Hc & <-). exists k.
  destruct (focus w _ k Hw Hc) as (p' & Hp' & _ & Hr & E). rewrite Hp in Hp'. by injection Hp' as <-.
Qed.

(** A node whose connection works has a context. *)
Lemma node_settles_ctx w n p k :
  at_rest (pn_conn p) n (addr_of w k) k p (ctx_of w k) -> is_connected k = true -> is_Some (ctx_of w k).
Proof. intros Hr Hi. by destruct (connected_ctx _ _ _ _ _ _ Hr Hi) as (x & -> & _). Qed.

Lemma states_round leader rt pt l w :
  linked w -> (forall n, n ∈ l -> is_Some (lk_nodes w !! n)) ->
  exists w', for_each l (handle_node_state af leader rt pt) w = Done (tt, w') /\ linked w'.
Proof.
  revert w. induction l as [|n l IH]; intros w Hw Hin; [by exists w|].
  destruct (Hin n ltac:(by left)) as [p Hp].
  destruct (of_node w n p Hw Hp) as (k & Hc & En & Hr & E).
  assert (Hstep : exists w1, handle_node_state af leader rt pt n w = Done (tt, w1) /\ linked w1 /\
    (forall m, is_Some (lk_nodes w !! m) -> is_Some (lk_nodes w1 !! m))).
  { destruct (is_connected k) eqn:Hi.
    - destruct (node_state_settles _ _ _ w leader rt pt k p _ Hr) as [R|[Ht Hm]].
      + exists w. rewrite E in R. done.
      + subst n. destruct (settles_runs _ w _ k p Hw Hc Hp (node_settles_ctx w _ p k Hr Hi) Hm) as ([] & w1 & R & Hw1 & [Ev|Ev]).
        * destruct Ev as (k' & p' & ox' & ->). eexists. split; [exact R|]. split; [done|]. intros m Hm'. cbn.
          rewrite lookup_insert. destruct (decide _); eauto.
        * destruct Ev. congruence.
    - exists w. split; [|done]. rewrite <- E. unfold handle_node_state. rewrite deref_node_put. unfold ConnIsConnected.
      rewrite bind_assoc, deref_conn_put, bind_ret_l, Hi. by destruct (pn_pending p). }
  destruct Hstep as (w1 & R1 & Hw1 & Hn1). destruct (IH w1 Hw1) as (w2 & R2 & Hw2).
  { intros m Hm. apply Hn1, Hin. by right. }
  exists w2. split; [|done]. cbn [for_each]. by rewrite (bind_done_eq _ _ _ _ _ R1).
Qed.

Lemma send_links w n what :
  linked w -> is_Some (lk_nodes w !! n) -> exists w', exec (EvSend n what) w = Done (tt, w') /\ linked w'.
Proof.
  intros Hw [p Hp]. destruct (of_node w n p Hw Hp) as (k & Hc & En & Hr & E). unfold exec.
  destruct (is_connected k) eqn:Hi.
  - destruct (send_settles _ _ _ w what k p _ Hr) as [R|Hm].
    + rewrite E in R. exists w. by rewrite (bind_done_eq _ _ _ _ _ R).
    + subst n. destruct (settles_runs _ w _ k p Hw Hc Hp (node_settles_ctx w _ p k Hr Hi) Hm) as (r & w1 & R & Hw1 & _).
      exists w1. by rewrite (bind_done_eq _ _ _ _ _ R).
  - exists w. split; [|done]. rewrite <- E. unfold send_to, ConnIsConnected.
    by rewrite bind_assoc, deref_node_put, !bind_assoc, deref_conn_put, !bind_ret_l, Hi.
Qed.

(** A field of the connection that no link depends on changes, and the tasks. *)
Lemma remove_links w n :
  linked w -> is_Some (lk_nodes w !! n) -> exists w', exec (EvNodeRemove n) w = Done (tt, w') /\ linked w'.
Proof.
  intros Hw [p Hp]. destruct (of_node w n p Hw Hp) as (k & Hc & <- & Hr & E). unfold exec.
  exists (put (pn_conn p) (cn_privdata k) (addr_of w k) (k <| cn_terminating := true |>) p (ctx_of w k) w). split.
  - rewrite <- E at 1. rewrite deref_node_put. rewrite bind_ret_r. unfold ConnAsyncTerminate. by rewrite upd_conn_put.
  - apply (linked_put w (pn_conn p) k (k <| cn_terminating := true |>) p (ctx_of w k) (lk_brk w) (lk_pool w) (lk_oneshots w));
      try done.
    + destruct Hr as (R1 & R2 & R3). split; [done|]. split; [done|]. destruct (ctx_of w k) as [x|]; [|done].
      unfold phase in *. cbn. destruct (ac_connected x); [|done]. naive_solver.
    + by apply addr_lt.
    + apply Hw.
    + rewrite (ln_task _ Hw), Hc. cbn. split; [by intros (? & [= <-] & ?)|eauto].
Qed.

Lemma waiting_task w c :
  linked w -> c ∈ lk_pool w ++ lk_oneshots w ->
  exists k, lk_conns w !! c = Some k /\ cn_state k = CONN_RESOLVING /\ ctx_of w k = None /\ addr_of w k = lk_brk w.
Proof.
  intros Hw Ht. apply (ln_task _ Hw) in Ht as (k & Hc & Hs). exists k. split; [done|]. split; [done|].
  destruct (ln_conn _ Hw c k Hc) as (p & _ & Hr). pose proof (at_rest_ctx w c k p Hr) as Hx.
  destruct (ctx_of w k) as [x|] eqn:E; [by destruct (Hx ltac:(eauto))|].
  split; [done|]. destruct Hr as (_ & _ & Hk & _). unfold addr_of. by rewrite Hk.
Qed.

Lemma resolved_links w c rc :
  linked w -> c ∈ lk_pool w -> exists w', exec (EvResolved c rc) w = Done (tt, w') /\ linked w'.
Proof.
  intros Hw Hin. destruct (waiting_task w c Hw ltac:(rewrite elem_of_app; auto)) as (k & Hc & Hs & Hx & Ha).
  destruct (focus w c k Hw Hc) as (p & Hp & _ & Hr & E).
  assert (Hperm : filter (fun d => d <> c) (lk_pool w) ++ lk_oneshots w ++ [c] ≡ₚ lk_pool w ++ lk_oneshots w).
  { pose proof (ln_tasks _ Hw) as Hnd. apply NoDup_Permutation.
    - apply NoDup_app in Hnd as (H1 & H2 & H3). rewrite !NoDup_app. split_and!.
      + by apply NoDup_filter.
      + intros d [Hd Hd']%list_elem_of_filter. rewrite elem_of_app, list_elem_of_singleton. intros [?|?]; [by apply (H2 d)|done].
      + done.
      + intros d Hd ->%list_elem_of_singleton. by apply (H2 c).
      + apply NoDup_singleton.
    - done.
    - intros d. rewrite !elem_of_app, list_elem_of_singleton, list_elem_of_filter. destruct (decide (d = c)) as [->|]; naive_solver. }
  exists (put c (cn_privdata k) (addr_of w k) (k <| cn_resolved := rc |>) p (ctx_of w k) w
            <| lk_pool ::= filter (fun d => d <> c) |> <| lk_oneshots ::= (fun l => l ++ [c]) |>). split.
  - unfold exec, ConnGetAddrinfo. rewrite <- E at 1. by rewrite upd_conn_put.
  - apply (linked_put w c k (k <| cn_resolved := rc |>) p (ctx_of w k) (lk_brk w)); try done.
    + by apply addr_lt.
    + cbn. rewrite Hperm. apply Hw.
    + intros d Hd. cbn. by rewrite Hperm.
    + cbn. rewrite Hperm, (ln_task _ Hw), Hc. split; [by intros (? & [= <-] & ?)|eauto].
Qed.

Lemma one_shot_links w c ok :
  linked w -> c ∈ lk_oneshots w -> exists w', exec (EvOneShot c ok) w = Done (tt, w') /\ linked w'.
Proof.
  intros Hw Hin. destruct (waiting_task w c Hw ltac:(rewrite elem_of_app; auto)) as (k & Hc & Hs & Hx & Ha).
  destruct (focus w c k Hw Hc) as (p & Hp & _ & Hr & E). rewrite Hx, Ha in Hr, E.
  pose proof (ln_tasks _ Hw) as Hnd. apply NoDup_app in Hnd as (H1 & H2 & H3).
  assert (Hpool : c ∉ lk_pool w) by (intros ?; by apply (H2 c)).
  set (os := filter (fun d => d <> c) (lk_oneshots w)). set (w0 := w <| lk_oneshots := os |>).
  destruct (resolved_rests ok c (cn_privdata k) k p w0 Hr Hs) as (k' & ox' & w1 & S & A & N & Ew & R).
  exists (put c (cn_privdata k) (lk_brk w) k' p ox' w1). split.
  - unfold exec. rewrite bind_modify. transitivity (handleResolved af c ok (put c (cn_privdata k) (lk_brk w0) k p None w0)); [|exact R].
    f_equal. exact (eq_sym (f_equal (set_field lk_oneshots (fun _ => os)) E)).
  - destruct S as (S1 & S2 & S3).
    assert (Hlink : forall b, lk_brk w <= b -> (is_Some ox' -> lk_brk w < b) ->
      linked (put c (cn_privdata k) (lk_brk w) k' p ox' (w <| lk_brk := b |> <| lk_pool := lk_pool w |> <| lk_oneshots := os |>))).
    { intros b Hb Hox. pose proof (linked_put w c k k' p ox' b (lk_pool w) os Hw Hc S1) as H. rewrite Ha in H. apply H; try done.
      - rewrite NoDup_app. split_and!; [done| |by apply NoDup_filter].
        intros d Hd [_ Hd']%list_elem_of_filter. by apply (H2 d).
      - intros d Hd. unfold os. rewrite !elem_of_app, list_elem_of_filter. naive_solver.
      - unfold os. rewrite elem_of_app, list_elem_of_filter. naive_solver. }
    destruct Ew as [[-> ->]| ->].
    + apply (Hlink (lk_brk w)); [lia|by intros []].
    + apply (Hlink (lk_brk w + 1)); lia.
Qed.

Lemma step_links w ev : linked w -> enabled w ev -> exists w', exec ev w = Done (tt, w') /\ linked w'.
Proof.
  intros Hw He. destruct ev as [id auth|n|n what|loading active|loading leader rt pt|c rc|c ok|a ok|a r|a|a|a|t]; cbn in He.
  - by apply create_links.
  - destruct He as (p & k & Hp & _). apply remove_links; eauto.
  - destruct He as (p & k & Hp & _). apply send_links; eauto.
  - unfold exec, HandleIdleConnections. destruct loading; [by exists w|].
    destruct (idle_round active (lk_connections w) w Hw (ln_conns_nodup _ Hw)) as (w' & R & Hw' & _); [by apply Hw|].
    exists w'. split; [|done]. exact R.
  - unfold exec, HandleNodeStates. destruct loading; [by exists w|].
    destruct (states_round leader rt pt (lk_node_list w) w Hw) as (w' & R & Hw'); [by apply Hw|].
    exists w'. split; [|done]. exact R.
  - by apply resolved_links.
  - by apply one_shot_links.
  - destruct He as (x & Hx & Hn). apply (context_event _ w a x Hw Hx). intros c n k p Hr.
    destruct ok; [by apply handle_connect_settles|by apply handle_connect_fails].
  - destruct He as (x & Hx & Hn & Hl). apply (context_event _ w a x Hw Hx). intros c n k p Hr. by apply reply_settles.
  - destruct He as (x & Hx). apply (context_event _ w a x Hw Hx). intros c n k p Hr. by apply done_settles.
  - destruct He as (x & Hx & Hn). apply (context_event _ w a x Hw Hx). intros c n k p Hr. by apply socket_error_settles.
  - destruct He as (x & Hx). apply (context_event _ w a x Hw Hx). intros c n k p Hr. by apply timeout_settles.
  - eexists. split; [reflexivity|]. destruct Hw. by split.
Qed.

Lemma links0_linked : linked links0.
Proof.
  split; cbn; try (by constructor); intros z; rewrite ?lookup_empty, ?elem_of_nil; try (by split; [done|intros []]);
    try (by intros []); try done.
  split; [done|]. by intros (k & ? & _).
Qed.

Lemma reachable_linked w : conn_reachable w -> linked w.
Proof.
  induction 1 as [|w ev w' _ IH He R]; [apply links0_linked|].
  destruct (step_links w ev IH He) as (w1 & R1 & H1). congruence.
Qed.

(** ** Concrete histories *)

Definition enabledb (w : links) (ev : conn_event) : bool :=
  match ev with
  | EvNodeCreate _ _ | EvIdle _ _ | EvStates _ _ _ _ | EvClock _ => true
  | EvNodeRemove n | EvSend n _ =>
      match lk_nodes w !! n with
      | Some p => match lk_conns w !! pn_conn p with Some k => negb (cn_terminating k) | None => false end
      | None => false
      end
  | EvResolved c _ => bool_decide (c ∈ lk_pool w)
  | EvOneShot c _ => bool_decide (c ∈ lk_oneshots w)
  | EvConnect a _ => match lk_acs w !! a with Some x => negb (ac_connected x) | None => false end
  | EvReply a r =>
      match lk_acs w !! a with
      | Some x => ac_connected x && (negb (bool_decide (ac_replies x = [])) || match r with RpError => true | _ => false end)
      | None => false
      end
  | EvError a => match lk_acs w !! a with Some x => ac_connected x | None => false end
  | EvDone a | EvTimer a => match lk_acs w !! a with Some _ => true | None => false end
  end.

Lemma enabledb_sound w ev : enabledb w ev = true -> enabled w ev.
Proof.
  destruct ev as [| |n what| | |c rc|c ok|a ok|a r|a|a|a|]; cbn; try done.
  - destruct (lk_nodes w !! n) as [p|] eqn:Hp; [|done]. destruct (lk_conns w !! pn_conn p) as [k|] eqn:Hk; [|done].
    rewrite negb_true_iff. eauto.
  - destruct (lk_nodes w !! n) as [p|] eqn:Hp; [|done]. destruct (lk_conns w !! pn_conn p) as [k|] eqn:Hk; [|done].
    rewrite negb_true_iff. eauto.
  - by rewrite bool_decide_eq_true.
  - by rewrite bool_decide_eq_true.
  - destruct (lk_acs w !! a) as [x|]; [|done]. rewrite negb_true_iff. eauto.
  - destruct (lk_acs w !! a) as [x|]; [|done].
    rewrite andb_true_iff, orb_true_iff, negb_true_iff, bool_decide_eq_false. destruct r; naive_solver.
  - destruct (lk_acs w !! a) as [x|]; [eauto|done].
  - destruct (lk_acs w !! a) as [x|]; [eauto|done].
  - destruct (lk_acs w !! a) as [x|]; [eauto|done].
Qed.

(** The events one after the other, as long as they can happen. *)
Fixpoint run_history (evs : list conn_event) (w : links) : option links :=
  match evs with
  | [] => Some w
  | ev :: evs' =>
      if enabledb w ev then match exec ev w with Done (_, v) => run_history evs' v | _ => None end else None
  end.

Lemma history_reachable evs w w' : conn_reachable w -> run_history evs w = Some w' -> conn_reachable w'.
Proof.
  revert w. induction evs as [|ev evs IH]; intros w Hw; cbn; [by intros [= <-]|].
  destruct (enabledb w ev) eqn:He; [|done]. destruct (exec ev w) as [[[] v]| |] eqn:E; try done.
  apply IH. apply (conn_next w ev); [done|by apply enabledb_sound|done].
Qed.

(** The node 7 is added; its address is resolved, it is connected; a Raft message
    and a command are sent to it. *)
Definition demo_connected : list conn_event :=
  [EvNodeCreate 7 false; EvIdle false (fun _ => true); EvResolved 2 0; EvOneShot 2 true; EvConnect 3 true;
   EvSend 1 SendRaft; EvSend 1 SendProxy].

Definition demo_links : links := default links0 (run_history demo_connected links0).

Lemma demo_links_reachable : conn_reachable demo_links.
Proof. apply (history_reachable demo_connected links0); [constructor|]. vm_compute. reflexivity. Qed.

(** ** Theorems *)

(** C14 (safety). In every state that a server reaches, everything that can happen
    next - a node that is added or removed, the timer that connects, times out and
    frees, a name that is resolved, an attempt to connect that succeeds or fails, a
    reply of any kind, a broken connection, a message that is sent - is carried out to
    the end: no connection, node or hiredis context is used that has been freed, the
    list of expected replies of a node is not empty when one is taken off, no
    assertion fails, and freeing a context never waits for itself. *)
Theorem connections_safe w ev :
  conn_reachable w -> enabled w ev -> exists w', exec ev w = Done (tt, w') /\ conn_reachable w'.
Proof.
  intros Hr He. destruct (step_links w ev (reachable_linked w Hr) He) as (w' & R & _). exists w'. split; [done|].
  by apply (conn_next w ev).
Qed.

Lemma connections_safe_witness :
  conn_reachable demo_links /\ enabled demo_links (EvError 3) /\
  exists w', exec (EvError 3) demo_links = Done (tt, w') /\ conn_reachable w'.
Proof.
  assert (He : enabled demo_links (EvError 3)) by (apply enabledb_sound; reflexivity).
  split; [exact demo_links_reachable|]. split; [exact He|].
  exact (connections_safe demo_links (EvError 3) demo_links_reachable He).
Defined.

(** C15 (invariant). In every state that a server reaches, a node has a live
    connection of its own, and what it counts of replies to come - the list of
    expected replies, the number of Raft messages by which the leader holds back, and
    the number of forwarded commands - is exactly what the callbacks waiting in the
    connection's context will report; without a context it is nothing. *)
Theorem replies_counted w n p :
  conn_reachable w -> lk_nodes w !! n = Some p ->
  exists k, lk_conns w !! pn_conn p = Some k /\ cn_privdata k = n /\
    let waiting := match cn_rc k with
                   | Some a => match lk_acs w !! a with Some x => ac_replies x | None => [] end
                   | None => []
                   end in
    map pr_proxy (pn_pending p) = kinds waiting
    /\ pn_raft_num p = count negb (kinds waiting) /\ pn_proxy_num p = count id (kinds waiting).
Proof.
  intros Hw%reachable_linked Hp. destruct (of_node w n p Hw Hp) as (k & Hc & Hn & (_ & _ & Hr) & _).
  exists k. split; [done|]. split; [done|]. unfold ctx_of in Hr.
  destruct (cn_rc k) as [a|]; cbn in *; [|apply Hr]. by destruct (lk_acs w !! a) as [x|]; destruct Hr as (? & ? & _).
Qed.

Lemma replies_counted_witness :
  exists p, lk_nodes demo_links !! 1 = Some p /\ pn_raft_num p = 1 /\ pn_proxy_num p = 1 /\
  exists k, lk_conns demo_links !! pn_conn p = Some k /\ cn_privdata k = 1 /\
    let waiting := match cn_rc k with
                   | Some a => match lk_acs demo_links !! a with Some x => ac_replies x | None => [] end
                   | None => []
                   end in
    map pr_proxy (pn_pending p) = kinds waiting
    /\ pn_raft_num p = count negb (kinds waiting) /\ pn_proxy_num p = count id (kinds waiting).
Proof.
  exists (mk_peer 7 2 [mk_pending false 0; mk_pending true 0] 1 1).
  assert (Hp : lk_nodes demo_links !! 1 = Some (mk_peer 7 2 [mk_pending false 0; mk_pending true 0] 1 1)) by reflexivity.
  split; [exact Hp|]. split; [reflexivity|]. split; [reflexivity|].
  exact (replies_counted demo_links 1 _ demo_links_reachable Hp).
Defined.

(** C16 (liveness). A connection whose node was removed, and whose name is not being
    resolved at the time, is freed by the next round of the timer, whatever state it
    is in: it is no longer in the list or in memory, and neither a node nor a context
    refers to it. *)
Theorem ended_connections_freed w c k active :
  conn_reachable w -> lk_conns w !! c = Some k -> cn_terminating k = true -> cn_state k <> CONN_RESOLVING ->
  exists w', exec (EvIdle false active) w = Done (tt, w') /\
    lk_conns w' !! c = None /\ c ∉ lk_connections w' /\
    (forall n p, lk_nodes w' !! n = Some p -> pn_conn p <> c) /\
    (forall a x, lk_acs w' !! a = Some x -> ac_data x <> Some c).
Proof.
  intros Hw%reachable_linked Hc Ht Hs.
  destruct (idle_round active (lk_connections w) w Hw (ln_conns_nodup _ Hw)) as (w' & R & Hw' & G & _); [by apply Hw|].
  exists w'. split; [exact R|].
  assert (Hg : lk_conns w' !! c = None).
  { apply (G c k); [apply (ln_conns _ Hw); eauto|done| |done]. unfold is_idle. rewrite Ht. by destruct (cn_state k). }
  split; [done|]. split; [rewrite (ln_conns _ Hw'), Hg; by intros []|]. split.
  - intros n p Hp E. destruct (ln_node _ Hw' n p Hp) as (k' & Hk & _). congruence.
  - intros a x Hx E. destruct (ln_ac _ Hw' a x Hx) as (d & k' & Hd & Hk & _). congruence.
Qed.

Definition demo_removed : links := default links0 (run_history (demo_connected ++ [EvNodeRemove 1]) links0).

Lemma demo_removed_reachable : conn_reachable demo_removed.
Proof.
  apply (history_reachable (demo_connected ++ [EvNodeRemove 1]) links0); [constructor|]. vm_compute. reflexivity.
Qed.

Lemma ended_connections_freed_witness :
  exists k, lk_conns demo_removed !! 2 = Some k /\ cn_terminating k = true /\ cn_state k = CONN_CONNECTED /\
  exists w', exec (EvIdle false (fun _ => false)) demo_removed = Done (tt, w') /\
    lk_conns w' !! 2 = None /\ 2 ∉ lk_connections w' /\
    (forall n p, lk_nodes w' !! n = Some p -> pn_conn p <> 2) /\
    (forall a x, lk_acs w' !! a = Some x -> ac_data x <> Some 2).
Proof.
  exists (mk_conn CONN_CONNECTED true (Some 3) 1 false 0 true 1 0).
  assert (Hc : lk_conns demo_removed !! 2 = Some (mk_conn CONN_CONNECTED true (Some 3) 1 false 0 true 1 0)) by reflexivity.
  split; [exact Hc|]. split; [reflexivity|]. split; [reflexivity|].
  exact (ended_connections_freed demo_removed 2 _ (fun _ => false) demo_removed_reachable Hc eq_refl ltac:(done)).
Defined.
