(* ===== verification/Threads.v ===== *)
(** * The threads of the module ([redisraft/src/fsync.c], [threadpool.c])

    A thread calls [fsync] on the log file for the main thread, and a pool of
    threads runs slow calls.  A step is what a thread does while it holds the mutex
    of the structure, up to where it releases it or waits on the condition variable,
    or one access to the file; any interleaving is possible, and threads may wake up
    without a signal.  A failed [fsync] ends the process. *)

From stdpp Require Import base list numbers tactics gmap.
From S2P Require Import Prelude.

Local Open Scope Z_scope.

(** ** The fsync thread *)

Module Fsync.

Record FsyncThread := mk_fsync {
  need_fsync : bool;
  running : bool;
  th_fd : Z;
  requested_index : Z
}.
#[export] Instance eta_fsync : Eta FsyncThread := fun t => mk_fsync (need_fsync t) (running t) (th_fd t) (requested_index t).
#[export] Instance set_need_fsync : Setter need_fsync := ltac:(solve_setter).
#[export] Instance set_running : Setter running := ltac:(solve_setter).

(** Where [fsyncLoop] is: about to look at [need_fsync] with the mutex, waiting for
    the condition, about to call [fsync], inside of it with what the file had when it
    was called, about to take the mutex again, about to report. *)
Inductive fsync_pc :=
| FtCheck
| FtAsleep
| FtSync (idx fd : Z)
| FtInSync (idx fd content : Z)
| FtRelock (idx fd : Z)
| FtPost (idx fd : Z).

(** Where the main thread is: anywhere else, or in [fsyncThreadWaitUntilCompleted],
    about to look at [running] or waiting for the condition. *)
Inductive main_pc := MnRun | MnCheck | MnAsleep.

(** A report; the descriptor is not in the structure of the code. *)
Record FsyncThreadResult := mk_result { rs_fsync_index : Z; rs_fd : Z }.

(** The structure, the two threads, the reports that the event loop will hand over,
    [rr->log.fsync_index], and for every descriptor the last entry index in the file
    and the last that survives a power failure. *)
Record fsync_sys := mk_fsys {
  fy_th : FsyncThread;
  fy_worker : fsync_pc;
  fy_main : main_pc;
  fy_oneshots : list FsyncThreadResult;
  fy_fsync_index : Z;
  fy_written : gmap Z Z;
  fy_durable : gmap Z Z
}.
#[export] Instance eta_fsys : Eta fsync_sys := fun s =>
  mk_fsys (fy_th s) (fy_worker s) (fy_main s) (fy_oneshots s) (fy_fsync_index s) (fy_written s) (fy_durable s).
#[export] Instance set_fy_th : Setter fy_th := ltac:(solve_setter).
#[export] Instance set_fy_worker : Setter fy_worker := ltac:(solve_setter).
#[export] Instance set_fy_main : Setter fy_main := ltac:(solve_setter).
#[export] Instance set_fy_oneshots : Setter fy_oneshots := ltac:(solve_setter).
#[export] Instance set_fy_fsync_index : Setter fy_fsync_index := ltac:(solve_setter).
#[export] Instance set_fy_written : Setter fy_written := ltac:(solve_setter).
#[export] Instance set_fy_durable : Setter fy_durable := ltac:(solve_setter).

(** No entry of the file: index 0. *)
Definition upto (m : gmap Z Z) (fd : Z) : Z := default 0 (m !! fd).

(** [fsyncThreadStart] *)
Definition fsyncThreadStart (written durable : gmap Z Z) (fsync_index : Z) : fsync_sys :=
  mk_fsys (mk_fsync false false 0 0) FtCheck MnRun [] fsync_index written durable.

(** [pthread_cond_signal]: a thread that waits is woken; if both do, the worker when
    [worker], else the main thread. *)
Definition cond_signal (worker : bool) (s : fsync_sys) : fsync_sys :=
  match fy_worker s, fy_main s with
  | FtAsleep, MnAsleep => if worker then s <| fy_worker := FtCheck |> else s <| fy_main := MnCheck |>
  | FtAsleep, _ => s <| fy_worker := FtCheck |>
  | _, MnAsleep => s <| fy_main := MnCheck |>
  | _, _ => s
  end.

Definition fsyncThreadAddTask (worker : bool) (fd idx : Z) (s : fsync_sys) : fsync_sys :=
  cond_signal worker (s <| fy_th := mk_fsync true true fd idx |>).

(** One look at [running] in [fsyncThreadWaitUntilCompleted]. *)
Definition fsyncThreadWaitUntilCompleted (s : fsync_sys) : fsync_sys :=
  if running (fy_th s) then s <| fy_main := MnAsleep |> else s <| fy_main := MnRun |>.

(** One step of [fsyncLoop]; [None]: it waits. *)
Definition fsyncLoop (worker : bool) (s : fsync_sys) : option fsync_sys :=
  match fy_worker s with
  | FtAsleep => None
  | FtCheck =>
      if need_fsync (fy_th s)
      then Some (s <| fy_th ::= (fun t => t <| need_fsync := false |>) |>
                   <| fy_worker := FtSync (requested_index (fy_th s)) (th_fd (fy_th s)) |>)
      else Some (s <| fy_worker := FtAsleep |>)
  | FtSync idx fd => Some (s <| fy_worker := FtInSync idx fd (upto (fy_written s) fd) |>)
  | FtInSync idx fd content =>
      Some (s <| fy_durable ::= (fun m => <[fd := Z.max (upto m fd) content]> m) |> <| fy_worker := FtRelock idx fd |>)
  | FtRelock idx fd =>
      let s := s <| fy_worker := FtPost idx fd |> in
      Some (if negb (need_fsync (fy_th s))
            then cond_signal worker (s <| fy_th ::= (fun t => t <| running := false |>) |>)
            else s)
  | FtPost idx fd => Some (s <| fy_oneshots ::= (fun l => l ++ [mk_result idx fd]) |> <| fy_worker := FtCheck |>)
  end.

(** [handleFsyncCompleted] for the next report. *)
Definition handleFsyncCompleted (s : fsync_sys) : option fsync_sys :=
  match fy_oneshots s with
  | r :: l => Some (s <| fy_fsync_index := rs_fsync_index r |> <| fy_oneshots := l |>)
  | [] => None
  end.

(** [handleBeforeSleep] up to [raft_flush]: [next] is the last index of the log, if
    it has to be synced ([raft_get_index_to_sync]), else 0, and [fd] the file of the
    last page.  The result is what [raft_flush] is told. *)
Definition handleBeforeSleep (worker log_fsync : bool) (fd next : Z) (s : fsync_sys) : Z * fsync_sys :=
  let flushed := fy_fsync_index s in
  if 0 <? next then
    let s := s <| fy_written ::= <[fd := next]> |> in
    if log_fsync then (flushed, fsyncThreadAddTask worker fd next s) else (next, s)
  else (flushed, s).

(** [LogSync] of a log that ends with [idx]. *)
Definition sync_log (fd idx : Z) (s : fsync_sys) : fsync_sys :=
  s <| fy_written ::= <[fd := idx]> |> <| fy_durable ::= <[fd := idx]> |> <| fy_fsync_index := idx |>.

(** The file is cut behind [idx] ([LogDelete]); what an [fsync] under way has of the
    entries behind is no more worth. *)
Definition log_cut (fd idx : Z) (s : fsync_sys) : fsync_sys :=
  s <| fy_written ::= (fun m => <[fd := Z.min (upto m fd) idx]> m) |>
    <| fy_durable ::= (fun m => <[fd := Z.min (upto m fd) idx]> m) |>
    <| fy_worker ::= (fun w => match w with
                               | FtInSync i f content => FtInSync i f (if f =? fd then Z.min content idx else content)
                               | _ => w
                               end) |>.

(** ** What can happen

    Indexes of a file grow, unless it is cut. *)
Inductive fsync_event :=
| FeSleep (worker : bool) (fd next : Z)
| FeWait
| FeMain
| FeWorker (worker : bool)
| FeSpurious (worker : bool)
| FeComplete
| FeLogSync (fd idx : Z)
| FeCut (fd idx : Z).

Definition fsync_exec (ev : fsync_event) (s : fsync_sys) : option fsync_sys :=
  match ev, fy_main s with
  | FeSleep worker fd next, MnRun =>
      if (0 <=? next) && ((next =? 0) || (upto (fy_written s) fd <=? next))
      then Some (handleBeforeSleep worker true fd next s).2 else None
  | FeWait, MnRun => Some (s <| fy_main := MnCheck |>)
  | FeMain, MnCheck => Some (fsyncThreadWaitUntilCompleted s)
  | FeWorker worker, _ => fsyncLoop worker s
  | FeSpurious true, _ => match fy_worker s with FtAsleep => Some (s <| fy_worker := FtCheck |>) | _ => None end
  | FeSpurious false, MnAsleep => Some (s <| fy_main := MnCheck |>)
  | FeComplete, MnRun => handleFsyncCompleted s
  | FeLogSync fd idx, MnRun => if upto (fy_written s) fd <=? idx then Some (sync_log fd idx s) else None
  | FeCut fd idx, MnRun => Some (log_cut fd idx s)
  | _, _ => None
  end.

Fixpoint fsync_run (evs : list fsync_event) (s : fsync_sys) : option fsync_sys :=
  match evs with
  | [] => Some s
  | ev :: evs' => match fsync_exec ev s with Some s' => fsync_run evs' s' | None => None end
  end.

End Fsync.

(** ** The pool *)

Module Pool.

(** Where a thread of [loop] is: about to look at the tasks with the mutex, waiting
    for the condition, running a task, returned. *)
Inductive pool_pc := PtCheck | PtAsleep | PtRun (task : Z) | PtEnd.

#[export] Instance pool_pc_eq_dec : EqDecision pool_pc.
Proof. solve_decision. Defined.

(** The structure with its threads; the list of tasks that have been started is not
    in the code. *)
Record ThreadPool := mk_pool {
  tp_tasks : list Z;
  tp_shutdown : bool;
  tp_threads : list pool_pc;
  tp_started : list Z
}.
#[export] Instance eta_pool : Eta ThreadPool := fun p => mk_pool (tp_tasks p) (tp_shutdown p) (tp_threads p) (tp_started p).
#[export] Instance set_tp_tasks : Setter tp_tasks := ltac:(solve_setter).
#[export] Instance set_tp_shutdown : Setter tp_shutdown := ltac:(solve_setter).
#[export] Instance set_tp_threads : Setter tp_threads := ltac:(solve_setter).
#[export] Instance set_tp_started : Setter tp_started := ltac:(solve_setter).

Definition threadPoolInit (thread_count : nat) : ThreadPool := mk_pool [] false (replicate thread_count PtCheck) [].

Definition asleep (t : pool_pc) : bool := match t with PtAsleep => true | _ => false end.

(** [pthread_cond_signal]: the thread [w] is woken if it waits, else the first that
    does. *)
Definition wake (w : nat) (l : list pool_pc) : list pool_pc :=
  match l !! w with
  | Some PtAsleep => <[w := PtCheck]> l
  | _ => match list_find (fun t => asleep t = true) l with
         | Some (i, _) => <[i := PtCheck]> l
         | None => l
         end
  end.

Definition threadPoolAdd (w : nat) (task : Z) (p : ThreadPool) : ThreadPool :=
  p <| tp_tasks ::= (fun l => l ++ [task]) |> <| tp_threads ::= wake w |>.

(** The critical section of [threadPoolShutdown], with [pthread_cond_broadcast]. *)
Definition threadPoolShutdown (p : ThreadPool) : ThreadPool :=
  p <| tp_shutdown := true |> <| tp_threads ::= map (fun t => if asleep t then PtCheck else t) |>.

(** One step of [loop] in the thread [i]; [None]: it waits, or has returned. *)
Definition loop (i : nat) (p : ThreadPool) : option ThreadPool :=
  match tp_threads p !! i with
  | Some PtCheck =>
      if tp_shutdown p then Some (p <| tp_threads ::= <[i := PtEnd]> |>) else
      match tp_tasks p with
      | [] => Some (p <| tp_threads ::= <[i := PtAsleep]> |>)
      | t :: l => Some (p <| tp_tasks := l |> <| tp_threads ::= <[i := PtRun t]> |> <| tp_started ::= (fun s => s ++ [t]) |>)
      end
  | Some (PtRun t) => Some (p <| tp_threads ::= <[i := PtCheck]> |>)
  | _ => None
  end.

Inductive pool_event := PeAdd (w : nat) (task : Z) | PeShutdown | PeThread (i : nat) | PeSpurious (i : nat).

Definition pool_exec (ev : pool_event) (p : ThreadPool) : option ThreadPool :=
  match ev with
  | PeAdd w task => Some (threadPoolAdd w task p)
  | PeShutdown => Some (threadPoolShutdown p)
  | PeThread i => loop i p
  | PeSpurious i =>
      match tp_threads p !! i with Some PtAsleep => Some (p <| tp_threads ::= <[i := PtCheck]> |>) | _ => None end
  end.

Fixpoint pool_run (evs : list pool_event) (p : ThreadPool) : option ThreadPool :=
  match evs with
  | [] => Some p
  | ev :: evs' => match pool_exec ev p with Some p' => pool_run evs' p' | None => None end
  end.

(** The tasks that were added, in order. *)
Definition pool_added (evs : list pool_event) : list Z :=
  omap (fun ev => match ev with PeAdd _ t => Some t | _ => None end) evs.

End Pool.
