(* ===== verification/ThreadsSpec.v ===== *)
(** * What the threads of the module promise

    What the fsync thread reports is on disk, every request is served and a wait
    ends; every task of the pool is run once, in order, and no wake-up is lost. *)

From stdpp Require Import base list numbers tactics gmap.
From S2P Require Import Prelude Threads.

Local Open Scope Z_scope.

(** ** The fsync thread *)

Import Fsync.

Definition fsync_start (m : gmap Z Z) : fsync_sys := fsyncThreadStart m m 0.

(** Who waits, who works. *)
Record handshake (s : fsync_sys) : Prop := {
  hs_idle : running (fy_th s) = false ->
    need_fsync (fy_th s) = false /\ match fy_worker s with FtCheck | FtAsleep | FtPost _ _ => True | _ => False end;
  hs_busy : running (fy_th s) = true -> need_fsync (fy_th s) = false ->
    match fy_worker s with FtSync _ _ | FtInSync _ _ _ | FtRelock _ _ => True | _ => False end;
  hs_asleep : fy_worker s = FtAsleep -> running (fy_th s) = false;
  hs_main : fy_main s = MnAsleep -> running (fy_th s) = true;
  hs_current : need_fsync (fy_th s) = false ->
    match fy_worker s with
    | FtSync idx fd | FtInSync idx fd _ | FtRelock idx fd | FtPost idx fd => idx = requested_index (fy_th s) /\ fd = th_fd (fy_th s)
    | _ => True
    end
}.

Lemma fsync_start_handshake m : handshake (fsync_start m).
Proof. by split. Qed.

(** What does not concern the handshake. *)
Lemma handshake_frame s s' :
  fy_th s' = fy_th s -> fy_worker s' = fy_worker s -> fy_main s' = fy_main s -> handshake s -> handshake s'.
Proof. intros E1 E2 E3 [H1 H2 H3 H4 H5]. split; rewrite ?E1, ?E2, ?E3; done. Qed.

Lemma worker_handshake w s s' : handshake s -> fsyncLoop w s = Some s' -> handshake s'.
Proof.
  intros [H1 H2 H3 H4 H5] E. destruct s as [[need run tfd req] wk mn os fi wr du]. cbn in *.
  destruct wk, need, run; cbn in *; try done; try (by destruct (H1 eq_refl)); try (by destruct (H2 eq_refl eq_refl));
    unfold fsyncLoop, cond_signal in E; cbn in E; destruct mn; cbn in E; injection E as <-;
    split; cbn; intros; try done; try (by apply H5); try congruence; auto.
Qed.

Lemma add_handshake w fd idx s : handshake s -> fy_main s = MnRun -> handshake (fsyncThreadAddTask w fd idx s).
Proof.
  intros [H1 H2 H3 H4 H5] E. destruct s as [[need run tfd req] wk mn os fi wr du]. cbn in *. subst mn.
  unfold fsyncThreadAddTask, cond_signal. destruct wk; cbn; split; cbn; done.
Qed.

Lemma fsync_exec_handshake ev s s' : handshake s -> fsync_exec ev s = Some s' -> handshake s'.
Proof.
  intros Hs E. destruct ev as [b fd next| | |b|[]| |fd idx|fd idx].
  - unfold fsync_exec, handleBeforeSleep in E. destruct (fy_main s) eqn:Em; try done. destruct (_ && _); [|done].
    injection E as <-. destruct (0 <? next); [|done]. apply add_handshake; [|done]. by apply (handshake_frame s).
  - cbn in E. destruct (fy_main s) eqn:Em; try done. injection E as <-. destruct Hs as [H1 H2 H3 H4 H5]. by split.
  - cbn in E. destruct (fy_main s) eqn:Em; try done. injection E as <-. destruct Hs as [H1 H2 H3 H4 H5].
    unfold fsyncThreadWaitUntilCompleted. destruct (running (fy_th s)) eqn:Er; split; cbn; rewrite ?Er; done.
  - cbn in E. by apply (worker_handshake b s s').
  - cbn in E. destruct (fy_worker s) eqn:Ew; try done. injection E as <-. destruct Hs as [H1 H2 H3 H4 H5].
    rewrite Ew in *. split; cbn; rewrite ?H3 in * by done; done.
  - cbn in E. destruct (fy_main s) eqn:Em; try done. injection E as <-. destruct Hs as [H1 H2 H3 H4 H5]. by split.
  - cbn in E. destruct (fy_main s) eqn:Em; try done. unfold handleFsyncCompleted in E.
    destruct (fy_oneshots s); [done|]. injection E as <-. by apply (handshake_frame s).
  - cbn in E. destruct (fy_main s) eqn:Em; try done. destruct (_ <=? _); [|done]. injection E as <-. by apply (handshake_frame s).
  - cbn in E. destruct (fy_main s) eqn:Em; try done. injection E as <-. destruct Hs as [H1 H2 H3 H4 H5].
    destruct s as [[need run tfd req] wk mn os fi wr du]. cbn in *. unfold log_cut.
    destruct wk; split; cbn in *; done.
Qed.

Lemma fsync_run_handshake evs s s' : handshake s -> fsync_run evs s = Some s' -> handshake s'.
Proof.
  revert s. induction evs as [|ev evs IH]; intros s Hs; cbn; [by intros [= <-]|].
  destruct (fsync_exec ev s) as [s1|] eqn:E; [|done]. apply IH. by eapply fsync_exec_handshake.
Qed.

(** The steps of the worker. *)
Section WorkerSteps.
Context (run : bool) (fd req : Z) (mn : main_pc) (os : list FsyncThreadResult) (fi : Z) (wr du : gmap Z Z).

Lemma step_check :
  fsync_exec (FeWorker true) (mk_fsys (mk_fsync true run fd req) FtCheck mn os fi wr du)
  = Some (mk_fsys (mk_fsync false run fd req) (FtSync req fd) mn os fi wr du).
Proof. reflexivity. Qed.

Lemma step_sync need i f :
  fsync_exec (FeWorker true) (mk_fsys (mk_fsync need run fd req) (FtSync i f) mn os fi wr du)
  = Some (mk_fsys (mk_fsync need run fd req) (FtInSync i f (upto wr f)) mn os fi wr du).
Proof. reflexivity. Qed.

Lemma step_in_sync need i f x :
  fsync_exec (FeWorker true) (mk_fsys (mk_fsync need run fd req) (FtInSync i f x) mn os fi wr du)
  = Some (mk_fsys (mk_fsync need run fd req) (FtRelock i f) mn os fi wr (<[f := Z.max (upto du f) x]> du)).
Proof. reflexivity. Qed.

Lemma step_relock_again i f :
  fsync_exec (FeWorker true) (mk_fsys (mk_fsync true run fd req) (FtRelock i f) mn os fi wr du)
  = Some (mk_fsys (mk_fsync true run fd req) (FtPost i f) mn os fi wr du).
Proof. reflexivity. Qed.

Lemma step_relock_done i f :
  fsync_exec (FeWorker true) (mk_fsys (mk_fsync false run fd req) (FtRelock i f) mn os fi wr du)
  = Some (mk_fsys (mk_fsync false false fd req) (FtPost i f) (match mn with MnAsleep => MnCheck | _ => mn end) os fi wr du).
Proof. by destruct mn. Qed.

Lemma step_post need i f :
  fsync_exec (FeWorker true) (mk_fsys (mk_fsync need run fd req) (FtPost i f) mn os fi wr du)
  = Some (mk_fsys (mk_fsync need run fd req) FtCheck mn (os ++ [mk_result i f]) fi wr du).
Proof. reflexivity. Qed.

End WorkerSteps.

Ltac worker_steps :=
  repeat first [rewrite step_check|rewrite step_sync|rewrite step_in_sync|rewrite step_relock_again
               |rewrite step_relock_done|rewrite step_post].

(** The worker alone, from a state where it has something to do. *)
Lemma worker_serves s :
  handshake s -> running (fy_th s) = true ->
  exists n s', (n <= 9)%nat /\ fsync_run (replicate n (FeWorker true)) s = Some s' /\
    running (fy_th s') = false /\ fy_main s' <> MnAsleep /\ (fy_main s' = MnRun -> fy_main s = MnRun) /\
    last (fy_oneshots s') = Some (mk_result (requested_index (fy_th s)) (th_fd (fy_th s))).
Proof.
  intros [H1 H2 H3 H4 H5] Hr. destruct s as [[need run tfd req] wk mn os fi wr du]. cbn in *. subst run.
  assert (Hn : match wk with FtCheck | FtPost _ _ => need = true | FtAsleep => False | _ => True end).
  { destruct wk, need; try done; try (by specialize (H2 eq_refl eq_refl)); by specialize (H3 eq_refl). }
  destruct wk as [| |i f|i f x|i f|i f]; cbn in Hn; try done; try subst need.
  1: exists 5%nat. 2: destruct need; [exists 9%nat|exists 4%nat]. 4: destruct need; [exists 8%nat|exists 3%nat].
  6: destruct need; [exists 7%nat|exists 2%nat]. 8: exists 6%nat.
  all: cbn [replicate fsync_run]; worker_steps; eexists; (split; [lia|]); (split; [reflexivity|]);
    cbn [fy_th fy_main fy_oneshots running th_fd requested_index]; rewrite last_snoc;
    try (destruct (H5 eq_refl) as [-> ->]); destruct mn; done.
Qed.

Lemma fsync_run_app l1 l2 s s' s'' :
  fsync_run l1 s = Some s' -> fsync_run l2 s' = Some s'' -> fsync_run (l1 ++ l2) s = Some s''.
Proof.
  revert s. induction l1 as [|ev l1 IH]; intros s; cbn; [by intros [= ->]|].
  destruct (fsync_exec ev s); [apply IH|done].
Qed.

(** What was on disk when. *)
Record on_disk (s : fsync_sys) : Prop := {
  od_written : forall fd, 0 <= upto (fy_durable s) fd <= upto (fy_written s) fd;
  od_request : need_fsync (fy_th s) = true -> requested_index (fy_th s) <= upto (fy_written s) (th_fd (fy_th s));
  od_worker : match fy_worker s with
              | FtSync idx fd => idx <= upto (fy_written s) fd
              | FtInSync idx fd content => idx <= content <= upto (fy_written s) fd
              | FtRelock idx fd | FtPost idx fd => idx <= upto (fy_durable s) fd
              | _ => True
              end;
  od_reports : Forall (fun r => rs_fsync_index r <= upto (fy_durable s) (rs_fd r)) (fy_oneshots s);
  od_index : exists fd, fy_fsync_index s <= upto (fy_durable s) fd;
  od_idle : running (fy_th s) = false -> requested_index (fy_th s) <= upto (fy_durable s) (th_fd (fy_th s))
}.

(** The file is not cut. *)
Definition no_cut (ev : fsync_event) : Prop := match ev with FeCut _ _ => False | _ => True end.

Lemma upto_insert m fd v d : upto (<[fd := v]> m) d = if decide (fd = d) then v else upto m d.
Proof. unfold upto. rewrite lookup_insert. by destruct (decide (fd = d)). Qed.

Lemma fsync_start_on_disk m : (forall fd, 0 <= upto m fd) -> on_disk (fsync_start m).
Proof. intros Hm. split; cbn; try done; auto with lia. exists 0. apply Hm. Qed.

(** What only grows keeps what is on disk. *)
Lemma on_disk_grow s wr du :
  on_disk s -> (forall fd, upto (fy_written s) fd <= upto wr fd) -> (forall fd, upto (fy_durable s) fd <= upto du fd) ->
  (forall fd, upto du fd <= upto wr fd) -> on_disk (s <| fy_written := wr |> <| fy_durable := du |>).
Proof.
  intros [D1 D2 D3 D4 D5 D6] Hw Hd Hwd. destruct s as [th wk mn os fi w0 d0]. cbn in *. split; cbn.
  - intros fd. specialize (D1 fd). specialize (Hd fd). specialize (Hwd fd). lia.
  - intros E. specialize (D2 E). specialize (Hw (th_fd th)). lia.
  - destruct wk as [| |i f|i f x|i f|i f]; try done; specialize (Hw f); specialize (Hd f); lia.
  - eapply Forall_impl; [exact D4|]. cbn. intros r Hr. specialize (Hd (rs_fd r)). lia.
  - destruct D5 as [fd D5]. exists fd. specialize (Hd fd). lia.
  - intros E. specialize (D6 E). specialize (Hd (th_fd th)). lia.
Qed.

Lemma cond_signal_on_disk w s : on_disk s -> on_disk (cond_signal w s).
Proof.
  intros [D1 D2 D3 D4 D5 D6]. destruct s as [th wk mn os fi wr du]. unfold cond_signal. cbn in *.
  destruct wk, mn, w; by split.
Qed.

Lemma worker_on_disk w s s' : handshake s -> on_disk s -> fsyncLoop w s = Some s' -> on_disk s'.
Proof.
  intros [H1 H2 H3 H4 H5] Hd E. pose proof Hd as [D1 D2 D3 D4 D5 D6].
  destruct s as [[need run tfd req] wk mn os fi wr du]. cbn in *.
  destruct wk as [| |i f|i f x|i f|i f]; unfold fsyncLoop in E; cbn in E; try done.
  - destruct need; injection E as <-; split; cbn; auto.
  - injection E as <-. by split.
  - injection E as <-.
    assert (Hdu : forall fd, upto du fd <= upto (<[f := Z.max (upto du f) x]> du) fd).
    { intros fd. rewrite upto_insert. destruct (decide (f = fd)) as [->|]; lia. }
    assert (Hwd : forall fd, upto (<[f := Z.max (upto du f) x]> du) fd <= upto wr fd).
    { intros fd. rewrite upto_insert. specialize (D1 fd). destruct (decide (f = fd)) as [->|]; lia. }
    pose proof (on_disk_grow _ wr _ Hd ltac:(done) Hdu Hwd) as [E1 E2 E3 E4 E5 E6].
    split; cbn in *; try done. rewrite upto_insert. rewrite decide_True by done. lia.
  - destruct need; cbn in E; injection E as <-; [by split|].
    destruct (H5 eq_refl) as [-> ->]. destruct mn; by split.
  - injection E as <-. split; cbn; try done. apply Forall_app. split; [done|]. by constructor.
Qed.

Lemma fsync_exec_on_disk ev s s' : no_cut ev -> handshake s -> on_disk s -> fsync_exec ev s = Some s' -> on_disk s'.
Proof.
  intros Hev Hs Hd E. pose proof Hd as [D1 D2 D3 D4 D5 D6]. destruct ev as [b fd next| | |b|[]| |fd idx|fd idx]; [..|done].
  - unfold fsync_exec, handleBeforeSleep in E. destruct (fy_main s) eqn:Em; try done.
    destruct ((0 <=? next) && _) eqn:Ec; [|done]. injection E as <-. destruct (0 <? next) eqn:En; [|done]. cbn.
    assert (Hg : on_disk (s <| fy_written := <[fd := next]> (fy_written s) |> <| fy_durable := fy_durable s |>)).
    { apply on_disk_grow; [done| |done|]; intros d; rewrite upto_insert; specialize (D1 d);
        destruct (decide (fd = d)) as [->|]; lia. }
    destruct Hg as [E1 E2 E3 E4 E5 E6]. apply cond_signal_on_disk. split; cbn in *; try done.
    intros _. rewrite upto_insert, decide_True by done. lia.
  - cbn in E. destruct (fy_main s); try done. injection E as <-. by split.
  - cbn in E. destruct (fy_main s); try done. injection E as <-. unfold fsyncThreadWaitUntilCompleted.
    destruct (running (fy_th s)) eqn:Er; split; cbn; rewrite ?Er; auto; done.
  - cbn in E. by eapply worker_on_disk.
  - cbn in E. destruct (fy_worker s); try done. injection E as <-. by split.
  - cbn in E. destruct (fy_main s); try done. injection E as <-. by split.
  - cbn in E. destruct (fy_main s); try done. unfold handleFsyncCompleted in E.
    destruct (fy_oneshots s) as [|r l]; [done|]. injection E as <-. inversion_clear D4. split; cbn; try done. by exists (rs_fd r).
  - cbn in E. destruct (fy_main s); try done. destruct (_ <=? _) eqn:Ec; [|done]. injection E as <-.
    assert (Hg : on_disk (s <| fy_written := <[fd := idx]> (fy_written s) |> <| fy_durable := <[fd := idx]> (fy_durable s) |>)).
    { apply on_disk_grow; [done|..]; intros d; rewrite ?upto_insert; specialize (D1 d);
        destruct (decide (fd = d)) as [->|]; lia. }
    destruct Hg as [E1 E2 E3 E4 E5 E6]. split; cbn in *; try done. exists fd. rewrite upto_insert, decide_True by done. lia.
Qed.

Lemma fsync_run_on_disk evs s s' :
  Forall no_cut evs -> handshake s -> on_disk s -> fsync_run evs s = Some s' -> on_disk s'.
Proof.
  revert s. induction evs as [|ev evs IH]; intros s Hev Hs Hd; cbn; [by intros [= <-]|].
  inversion_clear Hev. destruct (fsync_exec ev s) as [s1|] eqn:E; [|done].
  apply IH; [done|by eapply fsync_exec_handshake|by eapply fsync_exec_on_disk].
Qed.

(** C29 (liveness). After any interleaving, with wake-ups without a signal and with
    entries cut off: if an [fsync] has been requested and not been finished, at most
    nine steps of the fsync thread alone report the last request, whatever is
    running; and if the main thread waits for it, it has been woken then and returns. *)
Theorem fsync_requests_served m evs s :
  fsync_run evs (fsync_start m) = Some s -> running (fy_th s) = true ->
  exists n s', (n <= 9)%nat /\ fsync_run (replicate n (FeWorker true)) s = Some s' /\
    last (fy_oneshots s') = Some (mk_result (requested_index (fy_th s)) (th_fd (fy_th s))) /\
    (fy_main s = MnRun \/ exists s'', fsync_exec FeMain s' = Some s'' /\ fy_main s'' = MnRun).
Proof.
  intros Hrun Hr. pose proof (fsync_run_handshake _ _ _ (fsync_start_handshake m) Hrun) as Hs.
  destruct (worker_serves s Hs Hr) as (n & s' & Hn & R & Hr' & Hm & Hm' & Hl). exists n, s'. split_and!; try done.
  destruct (fy_main s') eqn:E; [left; by apply Hm'| |done]. right.
  eexists. split; [unfold fsync_exec; rewrite E; reflexivity|]. unfold fsyncThreadWaitUntilCompleted. by rewrite Hr'.
Qed.

Definition fsync_demo : list fsync_event := [FeWorker true; FeSleep true 3 10; FeWorker true; FeWorker true; FeSleep true 3 12; FeWait; FeMain].

Lemma fsync_requests_served_witness :
  exists s, fsync_run fsync_demo (fsync_start ∅) = Some s /\ running (fy_th s) = true /\ fy_main s = MnAsleep /\
  exists n s', (n <= 9)%nat /\ fsync_run (replicate n (FeWorker true)) s = Some s' /\
    last (fy_oneshots s') = Some (mk_result (requested_index (fy_th s)) (th_fd (fy_th s))) /\
    (fy_main s = MnRun \/ exists s'', fsync_exec FeMain s' = Some s'' /\ fy_main s'' = MnRun).
Proof.
  eexists. split; [reflexivity|]. split; [reflexivity|]. split; [reflexivity|].
  apply (fsync_requests_served ∅ fsync_demo); reflexivity.
Defined.

(** What [raft_flush] is told is on disk in some file; without [log_fsync] it need
    only be written. *)
Lemma told_on_disk s : on_disk s -> forall worker log_fsync fd next,
  let '(told, s') := handleBeforeSleep worker log_fsync fd next s in
  exists fd', told <= upto (if log_fsync : bool then fy_durable s else fy_written s') fd'.
Proof.
  intros [D1 D2 D3 D4 [f D5] D6] worker log_fsync fd next. unfold handleBeforeSleep. specialize (D1 f).
  destruct (Z.ltb_spec 0 next), log_fsync; cbn; [by exists f|exists fd|by exists f|exists f; lia].
  by rewrite upto_insert, decide_True.
Qed.

(** C30 (safety). As long as no entry is cut off the log, after any interleaving:
    every report that waits for the event loop stands for entries that are on disk;
    so does the index that [handleBeforeSleep] tells the Raft library as flushed,
    whatever there is to sync at that time (with [log_fsync] switched off it stands
    for entries that have been written); and when [fsyncThreadWaitUntilCompleted]
    would return the last request is on disk. *)
Theorem fsync_reports_durable m evs s :
  (forall fd, 0 <= upto m fd) -> Forall no_cut evs -> fsync_run evs (fsync_start m) = Some s ->
  Forall (fun r => rs_fsync_index r <= upto (fy_durable s) (rs_fd r)) (fy_oneshots s) /\
  (forall worker log_fsync fd next,
     let '(told, s') := handleBeforeSleep worker log_fsync fd next s in
     exists fd', told <= upto (if log_fsync : bool then fy_durable s else fy_written s') fd') /\
  (running (fy_th s) = false -> requested_index (fy_th s) <= upto (fy_durable s) (th_fd (fy_th s))).
Proof.
  intros Hm Hev Hrun.
  pose proof (fsync_run_on_disk _ _ _ Hev (fsync_start_handshake m) (fsync_start_on_disk m Hm) Hrun) as Hd.
  split; [apply Hd|]. split; [by apply told_on_disk|apply Hd].
Qed.

Definition fsync_demo_end : fsync_sys :=
  default (fsync_start ∅) (fsync_run (fsync_demo ++ replicate 7 (FeWorker true)) (fsync_start ∅)).

Lemma fsync_reports_durable_witness :
  let s := fsync_demo_end in
  Forall no_cut (fsync_demo ++ replicate 7 (FeWorker true)) /\
  fsync_run (fsync_demo ++ replicate 7 (FeWorker true)) (fsync_start ∅) = Some s /\ fy_oneshots s = [mk_result 10 3] /\
  Forall (fun r => rs_fsync_index r <= upto (fy_durable s) (rs_fd r)) (fy_oneshots s) /\
  (forall worker log_fsync fd next,
     let '(told, s') := handleBeforeSleep worker log_fsync fd next s in
     exists fd', told <= upto (if log_fsync : bool then fy_durable s else fy_written s') fd') /\
  (running (fy_th s) = false -> requested_index (fy_th s) <= upto (fy_durable s) (th_fd (fy_th s))).
Proof.
  assert (He : Forall no_cut (fsync_demo ++ replicate 7 (FeWorker true))) by (repeat constructor).
  assert (Hr : fsync_run (fsync_demo ++ replicate 7 (FeWorker true)) (fsync_start ∅) = Some fsync_demo_end)
    by (vm_compute; reflexivity).
  split; [exact He|]. split; [exact Hr|]. split; [vm_compute; reflexivity|].
  apply (fsync_reports_durable ∅ (fsync_demo ++ replicate 7 (FeWorker true))); [|exact He|exact Hr].
  intros fd. unfold upto. rewrite lookup_empty. done.
Defined.

(** A report that comes after the log was cut.  The leader asks for the entry 10 to
    be synced and loses its leadership while [fsync] runs; its entries from 6 on are
    replaced by two others, and it is elected again and appends the entry 8.  The
    report for 10 comes then: the leader takes itself to have stored what it has not
    synced. *)
Example stale_fsync_report :
  match fsync_run [FeSleep true 3 10; FeWorker true; FeWorker true; FeCut 3 5; FeLogSync 3 7; FeLogSync 3 7;
                   FeSleep true 3 8; FeWorker true; FeWorker true; FeWorker true; FeComplete] (fsync_start ∅) with
  | Some s => fst (handleBeforeSleep true true 3 0 s) = 10 /\ upto (fy_durable s) 3 = 7 /\ upto (fy_written s) 3 = 8
  | None => False
  end.
Proof. by vm_compute. Qed.

(** ** The pool *)

Import Pool.

#[local] Arguments count : simpl never.

Definition checks (t : pool_pc) : bool := match t with PtCheck => true | _ => false end.
Definition runs (t : pool_pc) : bool := match t with PtRun _ => true | _ => false end.

(** While a thread waits, there are as many about to look as tasks; after the
    shutdown none waits. *)
Record awake (p : ThreadPool) : Prop := {
  aw_tasks : 0 < count asleep (tp_threads p) -> Z.of_nat (length (tp_tasks p)) <= count checks (tp_threads p);
  aw_shutdown : tp_shutdown p = true -> count asleep (tp_threads p) = 0
}.

Lemma wake_spec w l :
  (count asleep l = 0 /\ wake w l = l) \/ exists i, l !! i = Some PtAsleep /\ wake w l = <[i := PtCheck]> l.
Proof.
  unfold wake. destruct (l !! w) as [t|] eqn:Ew; [destruct t|]; try (right; by eauto).
  all: destruct (list_find _ l) as [[i t']|] eqn:Ef.
  all: try (apply list_find_Some in Ef as (Hi & Hf & _); right; exists i; destruct t'; try done; by split).
  all: left; split; [|done]; apply count_zero; intros i x Hx; apply list_find_None in Ef;
    rewrite Forall_lookup in Ef; specialize (Ef i x Hx); by apply not_true_is_false.
Qed.

Lemma count_map_awake l : count asleep (map (fun t => if asleep t then PtCheck else t) l) = 0.
Proof. apply count_zero. intros i x. rewrite list_lookup_fmap. destruct (l !! i) as [t|]; cbn; [|done]. intros [= <-]. by destruct t. Qed.

Lemma pool_exec_awake ev p p' : awake p -> pool_exec ev p = Some p' -> awake p'.
Proof.
  intros [A1 A2] E. destruct p as [ts sh th st]. destruct ev as [w t| |i|i]; cbn in *.
  - injection E as <-. unfold threadPoolAdd. split; cbn; destruct (wake_spec w th) as [[H0 ->]|(i & Hi & ->)].
    + lia.
    + rewrite !(count_insert _ _ _ _ PtCheck Hi). cbn. intros Hc. rewrite length_app. cbn [length].
      pose proof (count_lookup asleep _ _ _ Hi eq_refl). lia.
    + done.
    + rewrite !(count_insert _ _ _ _ PtCheck Hi). cbn. intros Hs. specialize (A2 Hs).
      pose proof (count_lookup asleep _ _ _ Hi eq_refl). lia.
  - injection E as <-. unfold threadPoolShutdown. split; cbn; rewrite count_map_awake; [lia|done].
  - unfold loop in E. cbn in E. destruct (th !! i) as [[| |t|]|] eqn:Ei; try done.
    + pose proof (fun f y => count_insert f th i PtCheck y Ei) as Hc. destruct sh.
      * injection E as <-. specialize (A2 eq_refl). split; cbn; rewrite !Hc; cbn; [lia|]. intros _. lia.
      * destruct ts as [|t l]; injection E as <-; split; cbn -[Z.of_nat]; rewrite !Hc; cbn -[Z.of_nat]; try done.
        -- intros _. pose proof (count_lookup checks _ _ _ Ei eq_refl). lia.
        -- intros Ha. cbn -[Z.of_nat] in A1. specialize (A1 ltac:(lia)). lia.
    + injection E as <-. pose proof (fun f y => count_insert f th i (PtRun t) y Ei) as Hc.
      split; cbn; rewrite !Hc; cbn; [|intros Hs; specialize (A2 Hs); lia]. intros Ha. specialize (A1 ltac:(lia)). lia.
  - destruct (th !! i) as [[| |t|]|] eqn:Ei; try done. injection E as <-.
    pose proof (fun f y => count_insert f th i PtAsleep y Ei) as Hc. pose proof (count_lookup asleep _ _ _ Ei eq_refl).
    split; cbn; rewrite !Hc; cbn; [|intros Hs; specialize (A2 Hs); lia]. intros Ha. specialize (A1 ltac:(lia)). lia.
Qed.

(** The tasks in the order they were added: those that were started, then the others. *)
Record in_order (added : list Z) (p : ThreadPool) : Prop := {
  io_tasks : added = tp_started p ++ tp_tasks p;
  io_runs : forall i t, tp_threads p !! i = Some (PtRun t) -> t ∈ tp_started p
}.

Lemma pool_exec_order added ev p p' :
  in_order added p -> pool_exec ev p = Some p' -> in_order (added ++ pool_added [ev]) p'.
Proof.
  intros [I1 I2] E. destruct p as [ts sh th st]. cbn in *. subst added.
  assert (Hset : forall i y, (forall t, y = PtRun t -> t ∈ st) ->
    forall j t, <[i := y]> th !! j = Some (PtRun t) -> t ∈ st).
  { intros i y Hy j t. destruct (decide (i = j)) as [->|]; [|rewrite list_lookup_insert_ne by done; apply I2].
    intros H. apply list_lookup_insert_Some in H. naive_solver. }
  destruct ev as [w t| |i|i]; cbn in *; rewrite ?app_nil_r.
  - injection E as <-. split; cbn; [by rewrite app_assoc|]. intros j t'.
    destruct (wake_spec w th) as [[_ ->]|(i & _ & ->)]; [apply I2|by apply Hset].
  - injection E as <-. split; cbn; [done|]. intros j t. rewrite list_lookup_fmap.
    destruct (th !! j) as [[| |t'|]|] eqn:Ej; cbn; try done. intros [= ->]. by apply (I2 j).
  - unfold loop in E. cbn in E. destruct (th !! i) as [[| |t|]|] eqn:Ei; try done.
    + destruct sh; [injection E as <-; split; cbn; [done|by apply Hset]|].
      destruct ts as [|t l]; injection E as <-; split; cbn; try done; [by apply Hset|by rewrite <- app_assoc|].
      intros j t'. destruct (decide (i = j)) as [->|].
      * intros H. apply list_lookup_insert_Some in H. rewrite elem_of_app, list_elem_of_singleton. naive_solver.
      * rewrite list_lookup_insert_ne by done. rewrite elem_of_app. intros H. left. by apply (I2 j).
    + injection E as <-. split; cbn; [done|by apply Hset].
  - destruct (th !! i) as [[| |t|]|] eqn:Ei; try done. injection E as <-. split; cbn; [done|by apply Hset].
Qed.

Lemma pool_run_invariant evs p p' added :
  in_order added p -> awake p -> pool_run evs p = Some p' -> in_order (added ++ pool_added evs) p' /\ awake p'.
Proof.
  revert p added. induction evs as [|ev evs IH]; intros p added Ho Ha; cbn [pool_run].
  { intros [= <-]. cbn. by rewrite app_nil_r. }
  destruct (pool_exec ev p) as [p1|] eqn:E; [|done]. intros Hr.
  replace (added ++ pool_added (ev :: evs)) with ((added ++ pool_added [ev]) ++ pool_added evs).
  - apply (IH p1); [by eapply pool_exec_order|by eapply pool_exec_awake|done].
  - rewrite <- app_assoc. by destruct ev.
Qed.

Lemma pool_init_order n : in_order [] (threadPoolInit n) /\ awake (threadPoolInit n).
Proof.
  split; split; cbn; try done.
  - intros i t H. apply lookup_replicate_1 in H as [? _]. done.
  - intros H. apply count_pos in H as (i & x & Hx & Hf). apply lookup_replicate_1 in Hx as [-> _]. done.
Qed.

(** ** Threads that are left alone *)

Definition pool_work (p : ThreadPool) : Z := 2 * Z.of_nat (length (tp_tasks p)) + count runs (tp_threads p).

Lemma pool_step_work p :
  awake p -> tp_shutdown p = false -> (0 < length (tp_threads p))%nat ->
  (forall i, tp_threads p !! i <> Some PtEnd) -> 0 < pool_work p ->
  exists i p', pool_exec (PeThread i) p = Some p' /\ pool_work p' < pool_work p /\ tp_shutdown p' = false /\
    length (tp_threads p') = length (tp_threads p) /\ (forall i, tp_threads p' !! i <> Some PtEnd).
Proof.
  intros [A1 A2] Hs Hn He Hw. destruct p as [ts sh th st]. unfold pool_work in *. cbn in *. subst sh.
  assert (Hend : forall i y, y <> PtEnd -> forall j, <[i := y]> th !! j <> Some PtEnd).
  { intros i y Hy j H. destruct (decide (i = j)) as [->|].
    - apply list_lookup_insert_Some in H. naive_solver.
    - rewrite list_lookup_insert_ne in H by done. by apply (He j). }
  destruct (decide (0 < count runs th)) as [Hr|Hr].
  - apply count_pos in Hr as (i & x & Hx & Hf). destruct x as [| |t|]; try done. exists i. eexists.
    unfold loop. cbn. rewrite Hx. split; [reflexivity|]. cbn. rewrite (count_insert _ _ _ _ PtCheck Hx), length_insert. cbn.
    split_and!; [lia|done|done|by apply Hend].
  - assert (Hc : 0 < count checks th).
    { destruct (decide (0 < count asleep th)) as [Ha|Ha].
      - specialize (A1 Ha). pose proof (count_nonneg runs th). lia.
      - apply count_pos. destruct th as [|x th]; [cbn in Hn; lia|]. exists 0%nat, x. split; [done|].
        destruct x as [| |t|]; try done; exfalso.
        + apply Ha. apply count_pos. by exists 0%nat, PtAsleep.
        + apply Hr. apply count_pos. by exists 0%nat, (PtRun t).
        + by apply (He 0%nat). }
    apply count_pos in Hc as (i & x & Hx & Hf). destruct x; try done. exists i.
    destruct ts as [|t l]; [pose proof (count_nonneg runs th); cbn in Hw; lia|].
    eexists. unfold loop. cbn. rewrite Hx. split; [reflexivity|].
    cbn -[Z.of_nat]. rewrite (count_insert _ _ _ _ (PtRun t) Hx), length_insert. cbn -[Z.of_nat].
    split_and!; [cbn in Hw; lia|done|done|by apply Hend].
Qed.

Lemma pool_finishes p added :
  awake p -> in_order added p -> tp_shutdown p = false -> (0 < length (tp_threads p))%nat ->
  (forall i, tp_threads p !! i <> Some PtEnd) ->
  exists l p', pool_run (PeThread <$> l) p = Some p' /\ tp_tasks p' = [] /\ tp_started p' = added /\
    (forall i t, tp_threads p' !! i <> Some (PtRun t)).
Proof.
  remember (Z.to_nat (pool_work p)) as w eqn:Ew. revert p Ew.
  induction w as [w IH] using lt_wf_ind. intros p -> Ha Ho Hs Hn He.
  assert (Hpos : 0 <= pool_work p) by (unfold pool_work; pose proof (count_nonneg runs (tp_threads p)); lia).
  destruct (decide (0 < pool_work p)) as [Hw|Hw].
  - destruct (pool_step_work p Ha Hs Hn He Hw) as (i & p1 & E & Hlt & Hs1 & Hn1 & He1).
    destruct (IH (Z.to_nat (pool_work p1)) ltac:(lia) p1 eq_refl) as (l & p' & R & H); try done; try lia.
    + by eapply pool_exec_awake.
    + pose proof (pool_exec_order _ _ _ _ Ho E) as Ho1. cbn in Ho1. by rewrite app_nil_r in Ho1.
    + exists (i :: l), p'. split; [|done]. cbn [fmap list_fmap pool_run]. by rewrite E.
  - assert (Hz : pool_work p = 0) by lia. unfold pool_work in Hz. pose proof (count_nonneg runs (tp_threads p)).
    exists [], p. destruct Ho as [I1 I2]. assert (Hl : tp_tasks p = []) by (apply nil_length_inv; lia).
    split_and!; [done|done|by rewrite I1, Hl, app_nil_r|]. intros i t Hi.
    pose proof (count_lookup runs _ _ _ Hi eq_refl). lia.
Qed.

(** Threads return only after the shutdown. *)
Definition alive (n : nat) (p : ThreadPool) : Prop :=
  length (tp_threads p) = n /\ (tp_shutdown p = false -> forall i, tp_threads p !! i <> Some PtEnd).

Lemma set_not_end (l : list pool_pc) i y :
  y <> PtEnd -> (forall j, l !! j <> Some PtEnd) -> forall j, <[i := y]> l !! j <> Some PtEnd.
Proof.
  intros Hy He j H. destruct (decide (i = j)) as [->|].
  - apply list_lookup_insert_Some in H. naive_solver.
  - rewrite list_lookup_insert_ne in H by done. by apply (He j).
Qed.

Lemma pool_exec_alive n ev p p' : alive n p -> pool_exec ev p = Some p' -> alive n p'.
Proof.
  intros [L1 L2] E. destruct p as [ts sh th st]. destruct ev as [w t| |i|i]; cbn in *.
  - injection E as <-. destruct (wake_spec w th) as [[_ Ew]|(i & _ & Ew)]; split; cbn; rewrite Ew, ?length_insert; try done.
    intros Hs. apply set_not_end; auto.
  - injection E as <-. split; cbn; [by rewrite length_map|done].
  - unfold loop in E. cbn in E. destruct (th !! i) as [[| |t|]|] eqn:Ei; try done.
    + destruct sh; [injection E as <-; split; cbn; [by rewrite length_insert|done]|].
      destruct ts as [|t l]; injection E as <-; split; cbn; rewrite ?length_insert; try done; intros _; apply set_not_end; auto.
    + injection E as <-. split; cbn; rewrite ?length_insert; try done. intros Hs. apply set_not_end; auto.
  - destruct (th !! i) as [[| |t|]|] eqn:Ei; try done. injection E as <-.
    split; cbn; rewrite ?length_insert; try done. intros Hs. apply set_not_end; auto.
Qed.

Lemma pool_run_alive n evs p p' : alive n p -> pool_run evs p = Some p' -> alive n p'.
Proof.
  revert p. induction evs as [|ev evs IH]; intros p Hp; cbn; [by intros [= <-]|].
  destruct (pool_exec ev p) as [p1|] eqn:E; [|done]. apply IH. by eapply pool_exec_alive.
Qed.

Lemma pool_init_alive n : alive n (threadPoolInit n).
Proof.
  split; [apply length_replicate|]. intros _ i H. cbn in H. apply lookup_replicate_1 in H as [? _]. done.
Qed.

Definition ending (p : ThreadPool) : Z := 2 * count runs (tp_threads p) + count checks (tp_threads p).

(** After the shutdown the threads return without starting anything. *)
Lemma pool_ends p :
  awake p -> tp_shutdown p = true ->
  exists l p', pool_run (PeThread <$> l) p = Some p' /\ (forall i t, tp_threads p' !! i = Some t -> t = PtEnd) /\
    tp_started p' = tp_started p.
Proof.
  remember (Z.to_nat (ending p)) as w eqn:Ew. revert p Ew. induction w as [w IH] using lt_wf_ind. intros p -> Ha Hs.
  pose proof (count_nonneg runs (tp_threads p)) as Hr0. pose proof (count_nonneg checks (tp_threads p)) as Hc0.
  assert (Hstep : forall i p1, pool_exec (PeThread i) p = Some p1 -> ending p1 < ending p -> tp_shutdown p1 = true ->
    tp_started p1 = tp_started p -> exists l p', pool_run (PeThread <$> l) p = Some p' /\
      (forall i t, tp_threads p' !! i = Some t -> t = PtEnd) /\ tp_started p' = tp_started p).
  { intros i p1 E Hlt Hs1 Hst. unfold ending in *.
    pose proof (count_nonneg runs (tp_threads p1)). pose proof (count_nonneg checks (tp_threads p1)).
    destruct (IH (Z.to_nat (2 * count runs (tp_threads p1) + count checks (tp_threads p1))) ltac:(lia) p1 eq_refl)
      as (l & p' & R & He & Hst'); [by eapply pool_exec_awake|done|].
    exists (i :: l), p'. split; [cbn [fmap list_fmap pool_run]; by rewrite E|]. split; [done|congruence]. }
  destruct p as [ts sh th st]. cbn in *. subst sh.
  destruct (decide (0 < count runs th)) as [Hr|Hr]; [|destruct (decide (0 < count checks th)) as [Hc|Hc]].
  - apply count_pos in Hr as (i & x & Hx & Hf). destruct x as [| |t|]; try done. apply (Hstep i (mk_pool ts true (<[i := PtCheck]> th) st)).
    + unfold loop. cbn. by rewrite Hx.
    + unfold ending. cbn. rewrite !(count_insert _ _ _ _ PtCheck Hx). cbn. lia.
    + done.
    + done.
  - apply count_pos in Hc as (i & x & Hx & Hf). destruct x; try done. apply (Hstep i (mk_pool ts true (<[i := PtEnd]> th) st)).
    + unfold loop. cbn. by rewrite Hx.
    + unfold ending. cbn. rewrite !(count_insert _ _ _ _ PtEnd Hx). cbn. lia.
    + done.
    + done.
  - exists [], (mk_pool ts true th st). split; [done|]. split; [|done]. intros i t Hi. cbn in Hi.
    pose proof (aw_shutdown _ Ha eq_refl) as Hz. cbn in Hz. destruct t as [| |t|]; [| | |done]; exfalso.
    + apply Hc. apply count_pos. by exists i, PtCheck.
    + pose proof (count_lookup asleep _ _ _ Hi eq_refl). lia.
    + apply Hr. apply count_pos. by exists i, (PtRun t).
Qed.

(** C31 (liveness). After any interleaving of a pool of at least one thread, also with
    wake-ups without a signal: the tasks were started in the order in which they were
    added, each once; as long as there was no shutdown the threads alone start and
    finish all the others, so that no signal is lost; and after the shutdown they
    return without starting another, so that the joins of [threadPoolShutdown]
    end. *)
Theorem pool_tasks_served n evs p :
  (0 < n)%nat -> pool_run evs (threadPoolInit n) = Some p ->
  pool_added evs = tp_started p ++ tp_tasks p /\
  (tp_shutdown p = false -> exists l p', pool_run (PeThread <$> l) p = Some p' /\
     tp_started p' = pool_added evs /\ tp_tasks p' = [] /\ forall i t, tp_threads p' !! i <> Some (PtRun t)) /\
  (tp_shutdown p = true -> exists l p', pool_run (PeThread <$> l) p = Some p' /\
     tp_started p' = tp_started p /\ forall i t, tp_threads p' !! i = Some t -> t = PtEnd).
Proof.
  intros Hn Hrun. destruct (pool_init_order n) as [Ho Ha].
  destruct (pool_run_invariant _ _ _ [] Ho Ha Hrun) as [Ho' Ha'].
  destruct (pool_run_alive n _ _ _ (pool_init_alive n) Hrun) as [Hl He]. cbn in Ho'.
  split_and!.
  - by destruct Ho'.
  - intros Hs. destruct (pool_finishes p _ Ha' Ho' Hs ltac:(lia) (He Hs)) as (l & p' & R & H1 & H2 & H3). eauto 10.
  - intros Hs. destruct (pool_ends p Ha' Hs) as (l & p' & R & H1 & H2). eauto 10.
Qed.

(** Two threads; both wait; three tasks come, one thread finishes its first. *)
Definition pool_demo : list pool_event :=
  [PeThread 0; PeThread 1; PeAdd 0 7; PeThread 0; PeAdd 0 8; PeAdd 0 9; PeThread 0; PeThread 1].

Lemma pool_tasks_served_witness :
  exists p, pool_run pool_demo (threadPoolInit 2) = Some p /\ tp_threads p = [PtCheck; PtRun 8] /\ tp_shutdown p = false /\
  pool_added pool_demo = tp_started p ++ tp_tasks p /\
  (tp_shutdown p = false -> exists l p', pool_run (PeThread <$> l) p = Some p' /\
     tp_started p' = pool_added pool_demo /\ tp_tasks p' = [] /\ forall i t, tp_threads p' !! i <> Some (PtRun t)) /\
  (tp_shutdown p = true -> exists l p', pool_run (PeThread <$> l) p = Some p' /\
     tp_started p' = tp_started p /\ forall i t, tp_threads p' !! i = Some t -> t = PtEnd).
Proof.
  exists (mk_pool [9] false [PtCheck; PtRun 8] [7; 8]). split; [reflexivity|]. split; [reflexivity|]. split; [reflexivity|].
  apply (pool_tasks_served 2); [lia|reflexivity].
Defined.
